(* ===== verification/_CoqProject ===== *)
-Q . S2P
Prelude.v
Text.v
Operation.v
OperationEngine.v
Capability.v
CommandCipher.v
Database.v
OperationRepository.v
OperationWitnesses.v
CenterDomain.v
LinkMessages.v
Framing.v
SiteSync.v
Artifact.v
Endpoints.v
ArtifactRepository.v
ArtifactStore.v
AuditLog.v
RedfishCommand.v
RemoteTask.v
Executor.v
TaskMonitor.v
DriveSafety.v
DriveAudit.v
DriveLiveness.v
DriveWitnesses.v
Accounts.v
RateLimiter.v
AccountStore.v
AccountRepository.v
WebRoutes.v
WebRuntime.v
WebAuth.v
WebProgress.v
WebAuthSafety.v
WebAuthBudget.v
WebWitnesses.v
ResourceSnapshot.v
CenterOutbox.v
OutboxRepository.v
CenterStores.v
InboxRepository.v
BindingRepository.v
CenterDispatch.v
DispatchSafety.v
CenterTracking.v
CenterRuns.v
CenterSession.v
SessionSafety.v
BindingSafety.v
EventRepository.v
SyncCursors.v
ProjectionRepository.v
ProjectionSafety.v
CenterIntake.v
IntakeContract.v
IntakeSpec.v
IntakeSafety.v
TransferSafety.v
IntakeSqlite.v
CenterProcessor.v
CenterWitnesses.v
BindingWitnesses.v
IntakeWitnesses.v
EndpointInventory.v
SiteReports.v
SiteReportsSpec.v
ArtifactReports.v
ArtifactStream.v
SiteConnection.v
LinkSafety.v
SiteLoop.v
SiteWitnesses.v
BackupPackage.v
Submission.v
SnapshotRepository.v
Enrollment.v
EndpointCsv.v
EndpointRepository.v
EnrollmentSafety.v
