(* ===== verification/Prelude.v ===== *)
(** * rutilus: the development

    rutilus manages servers over Redfish: a _site_ (or a standalone console)
    persists write operations against its endpoints and drives each of them to
    an honest verdict; a _center_ dispatches operations to the sites bound to it
    over a framed, acknowledged, at-least-once link; firmware images are uploaded
    as artifacts before any update is dispatched.  This library models the core
    of that: the state machines, the persistence of them in one SQLite database,
    the engine and the drivers that advance them, and the site's side of the
    center protocol.

    ** Files

    - [Prelude]: Rust's [Result], [?] and machine integers, the state-and-error
      monad [M] with its [keeps] and [wp] rules, runs of a step function, shared
      automation (this file).
    - [Text]: [str] as its scalar values, [trim], bounded names, [u64] numerals,
      the constant-time comparison, UTF-8.
    - [Operation]: [domain/src/operation.rs], [failure_kind.rs] and
      [batch_operation.rs]: states, events, the transition matrix, the operation
      record, the derived batch state.
    - [OperationEngine]: [operation-engine/src/operation_store.rs] as the classes
      [OperationStore] and [OperationStoreLaws] (an abstract [View] and what each
      call promises of it), and [operation_engine.rs] proved against them; then
      any number of drivers interleaved at their reads and writes.
    - [CommandCipher]: [security/src/command_cipher.rs] over an abstract AEAD.
    - [Database]: how [persistence/src] uses SQLite: the write gate, statements
      that may fail, transactions that leave nothing unless they commit.
    - [OperationRepository]: [persistence/src/operation_repository.rs] over its
      tables; it discharges [OperationStoreLaws] ([repository_laws]).
    - [OperationWitnesses]: concrete stores and inputs for the theorems of the
      files before it.
    - [CenterDomain]: [domain/src/center.rs] and [security/src/binding_code.rs]:
      binding codes, the binding of a site, outbox and inbox entries, streams.
    - [SiteSync]: the offer handling and the progress reports of
      [application/src/center_sync.rs] over the site's durable state.
    - [Framing]: [center-protocol/src/framing.rs] and [negotiation.rs].
    - [Artifact], [ArtifactRepository], [ArtifactStore]: the firmware artifact of
      [domain/src/artifact.rs], its rows in
      [persistence/src/artifact_repository.rs] behind the class
      [ArtifactRepository], and the upload of [application/src/artifact_store.rs].
    - [AuditLog]: [domain/src/audit.rs]: the vocabularies, contexts and facts.
    - [Capability]: the capability ledger of [domain/src/capability.rs] and its
      merge in [application/src/capability_query.rs].
    - [RedfishCommand]: the command enumerations of
      [domain/src/redfish_command.rs] and what the executor reads off them.
    - [RemoteTask]: asynchronous Tasks ([operation-engine/src/remote_task.rs]) behind
      the class [RemoteTaskStore], and their rows in
      [persistence/src/remote_task_repository.rs].
    - [Executor]: the boundary the drivers of an operation call, with a process that
      may die before any call and a log of what reached the outside; over it,
      statement by statement, [application/src/operation_executor.rs] and, in
      [TaskMonitor], [task_monitor.rs].
    - [DriveSafety]: the invariant every drive keeps; [DriveAudit]: writes and
      their start facts; [DriveLiveness]: what a drive on a working site comes
      to; [DriveWitnesses]: a concrete site over both SQLite tables.
    - [Accounts]: [domain/src/user.rs], [session.rs], [password.rs], [totp.rs] and
      [security/src/totp.rs]: principals, sessions, password hashes, TOTP; and
      [security/src/session_token.rs], [bootstrap_code.rs], [password_hash.rs] over
      the random source and the hash functions.
    - [RateLimiter]: the sliding-window limiter of [web/src/auth.rs] and the
      specification of it: a grant exactly while the window is below budget.
    - [AccountStore]: the store half of [AuthServices] ([web/src/auth.rs]) as the
      classes [AccountStore] and [AccountStoreLaws], over the writes
      [account_step] and the reachability [evolves].
    - [AccountRepository]: the principal, password, session, totp and bootstrap
      repositories of [persistence/src] over their tables, and how
      [app/src/standalone_runtime.rs] answers [AuthServices] from them, which
      discharges [AccountStoreLaws].
    - [WebRoutes]: the routes of [web/src/lib.rs] and the access table of
      [web/src/auth.rs].
    - [WebRuntime], [WebAuth]: the authentication surface of [web/src/auth.rs]:
      the middleware and every handler, as drivers that share the store, three
      limiters, a gate and the audit log with other requests.
    - [WebProgress]: what other requests may do meanwhile and that each handler only
      moves the accounts forward; [WebAuthSafety], [WebAuthBudget]: its theorems;
      [WebWitnesses]: a concrete console.
    - [LinkMessages]: the messages of [center-protocol/proto];
      [ResourceSnapshot]: the validated texts of [domain/src/resource_snapshot.rs].
    - [Endpoints]: [domain/src/endpoint.rs] and [endpoint_address.rs]: certificate
      fingerprints, names, addresses, trust and the endpoint;
      [EndpointInventory]: [application/src/endpoint_inventory.rs] and the decode
      failures of [resource_diagnostics.rs].
    - [CenterOutbox], [CenterStores]: what the center's services expect of their
      stores, as classes with laws over abstract views, and the stores side by side.
    - [OutboxRepository], [InboxRepository], [BindingRepository],
      [ProjectionRepository]: the [center_*_repository.rs] and
      [instance_repository.rs] of [persistence/src] over their tables; each
      discharges its class ([ProjectionSafety] for the projections, [IntakeSqlite]
      for the listing by endpoint).
    - [CenterDispatch], [DispatchSafety]: [application/src/center/dispatch.rs], its
      dispatch half, and what a dispatch may do; [CenterTracking]: its tracking
      half and the center's invariant; [CenterRuns]: the center over time.
    - [CenterSession]: the registry and the connection engine of
      [application/src/center/session.rs], [center/binding.rs], the admission of
      [session.rs] and [security/src/binding_code.rs]; [SessionSafety],
      [BindingSafety]: what they keep.
    - [ProjectionSafety]: what a site's reports can change in the projections.
    - [EventRepository]: [domain/src/event.rs] and
      [persistence/src/event_repository.rs]; [SyncCursors]: the [CenterCursor]
      boundary and [sync_cursor_repository.rs].
    - [CenterIntake]: the consumer of a site's reports,
      [application/src/center/projection.rs], generic in its store, its cursors
      and the file system; [IntakeContract]: what it expects of its store;
      [IntakeSpec]: what one frame does; [IntakeSafety], [TransferSafety]: what
      any frames do; [IntakeSqlite]: the store on the SQLite tables
      ([persistence/src/application_adapter.rs]).
    - [CenterProcessor]: [CenterFrameProcessor] of [dispatch.rs], the consumer
      behind a connection.
    - [CenterWitnesses], [BindingWitnesses], [IntakeWitnesses]: a concrete center
      over its tables.
    - [SiteReports]: the reporting half of
      [application/src/center_sync.rs]: the endpoint cursor and its text, the
      endpoint, event and artifact reports into the queue; [SiteReportsSpec],
      [ArtifactReports], [ArtifactStream]: what they leave there.
    - [SiteConnection]: the connect loop and one connection of the site, over the
      reports; [LinkSafety]: the site's connections and the center's intake as one
      transition system; [SiteLoop]: how every report moves the queue, and the engine
      over all its attempts; [SiteWitnesses]: a concrete site that reports to the
      center of [IntakeWitnesses].
    - [BackupPackage]: [security/src/backup_package.rs].
    - [Submission]: [application/src/operation_submission.rs] and
      [application/src/batch_query.rs] over the store contract with its reads of
      batches, which the SQLite repository discharges.
    - [SnapshotRepository]: [persistence/src/resource_snapshot_repository.rs] over the
      endpoint, resource, snapshot and decode-failure tables.
    - [Enrollment]: [application/src/endpoint_trust.rs], [endpoint_onboarding.rs],
      [endpoint_refresh.rs] and [endpoint_enrollment.rs] over the class
      [EndpointStore], with a log of what reached the outside; [EndpointCsv]:
      [endpoint_csv.rs] and [endpoint_csv_import.rs]; [EndpointRepository]:
      [persistence/src/endpoint_repository.rs] and
      [endpoint_capability_repository.rs], which discharge the class;
      [EnrollmentSafety]: what an import discloses and reports, and an import on the
      tables.
    ** How code becomes definitions

    A definition has the name of its function or method and follows it
    statement by statement; [Type::method] becomes [Type_method] where the name
    alone would be ambiguous.  A fallible function returns [result]; an [async]
    method over shared state is a computation of the monad [M], whose state
    survives an error: what was written before an early return stays written.
    Integers are [Z] with the checked or saturating operation the code uses
    ([checked_add_u64] and the like); identities are the 128-bit value; instants
    are nanoseconds.  Iteration is structural or over a list.  The fuelled functions are
    [decimal_go], [from_utf8_go], [chunks_go] and [read_chunks], with as much fuel
    as their input has digits, bytes, elements and bytes, and [retire_passes], whose
    passes are a parameter: every pass but the last retires an entry, so one more
    than the queue has pending entries is enough ([retire_passes_spec]).  The lemmas
    on them show that it is.

    Failures are not assumed away.  [Database.Env] decides which statement and
    which commit reports an error, [SiteSync] has a fault oracle per boundary
    call and a restart step, [ArtifactStore] has torn writes, dropped requests
    and interleaved calls; the safety theorems quantify over all of them, and the
    liveness theorems say under which of them a call completes.

    ** Parameters

    Code outside the repository is a parameter, with the documented behaviour it
    is relied on for as a law and an instance of it in the witnesses: the AEAD
    and the key derivation ([CipherSuite]), [serde_json] ([CommandJson]), [uuid]'s
    text form ([UuidText]), [prost] ([WireCodec]), [base64], SHA-256, and
    [OffsetDateTime::from_unix_timestamp].  The Redfish gateway and the system's
    clock and random source are environments the theorems quantify over.

    ** What the theorems show

    - The lifecycle: success only along the two event sequences, no write landed
      behind a cancellation, at most five events, batch state and outcome counts
      as functions of the children ([Operation]).
    - The engine: each call's effect on any lawful store, with and without
      interference; conditional drivers never move a row twice out of a state,
      terminal rows never change, and plain drivers can regress a row
      ([OperationEngine]).
    - The repository: under any failures the rows are what the contract says of
      the calls that succeeded ([repository_trace_refines]), reads invert writes,
      the chunked listing is the filtered listing, and a step stamped before a
      row's creation makes it unreadable ([OperationRepository]).
    - The link: frames round-trip and are exact; binding codes are single-use;
      inbox and outbox decide once; an offer has at most one effect under
      redelivery, failures and restarts, and one reply order that contradicts
      itself ([Framing], [CenterDomain], [SiteSync]).
    - The artifacts: digests and their texts are in bijection; an artifact that
      is ready has its declared bytes under any interleaving of honest uploads,
      an upload on a healthy node completes, and two ways it does not hold
      ([Artifact], [ArtifactStore]).
    - The drivers: an operation is sent at most once and success is never
      invented, whatever fails and wherever the process dies; no write without
      its start fact; executions, recoveries and polls refine their decision
      tables where everything answers ([DriveSafety], [DriveAudit],
      [DriveLiveness]).
    - Accounts: the TOTP check against its reference, the limiter against its
      window specification, every write the repositories perform as a step of the
      contract; tokens that died stay dead, TOTP steps only increase, a bootstrap
      code is used once ([Accounts], [RateLimiter], [AccountStore]).
    - The console: every registered route has its row in the access table; no
      request with a dead session runs, what runs was admitted; a sign-in checked
      name, password and second factor of one enabled account and is recorded; a
      password change ends every session; a claim consumed one code; wrong
      passwords stay within the budgets however sign-ins and other requests
      interleave ([WebRoutes], [WebAuthSafety], [WebAuthBudget]).
    - The center: a dispatch answers with one offered operation of an allowed,
      routed request and never offers the same request twice for a target, a reply
      moves only the operation it names and only from the site it was offered to,
      under any interleaving and failures ([DispatchSafety], [CenterTracking],
      [CenterRuns]); a connection sends its queue in order, nothing twice, and a
      connection that was replaced stays inert ([SessionSafety]).
    - Binding: one active binding per site and one bound binding per identity
      whatever is attempted, an admitted connection is the one in force, a revoked
      binding is never admitted, and the order of two codes that shuts a machine
      out ([BindingSafety], [BindingWitnesses]).
    - Projections: a site reaches only its own endpoints, and refreshes only go
      forward ([ProjectionSafety]).
    - Reports: a frame that was answered takes effect once; a site reaches
      nothing of another's; a ready artifact is what it was declared to be, and a
      transfer whose chunks are repeated until they are answered completes; the
      records of an answered batch are accounted for, and what stops a batch or
      loses a dead letter ([IntakeSafety], [TransferSafety]); a connection answers
      no frame its cursor does not cover ([CenterProcessor]).
    - The site's link: what a site queued stays queued until the center's cursor
      covers it, whatever breaks in between, and the engine retires nothing that was
      not acknowledged ([LinkSafety], [SiteLoop]); it gives up exactly when the center
      said the same refusal often enough since it last let the site connect ([SiteLoop]); a settled inventory is
      not reported again ([SiteReportsSpec]); a distribution queues the frames a
      transfer needs or nothing, and what stays of older ones ([ArtifactReports]); when
      the artifact cursor moves, that what it passes is queued, and the artifact it
      passes over for good ([ArtifactStream]); the endpoint cursor
      is read back as it was stored ([SiteReports]).
    - Batches: an accepted batch is stored whole, and every later report lists exactly
      its children as they are ([Submission]).
    - Backups: a package opens to what it was created from, and of all that is
      sealed under the same key only packages open as one ([BackupPackage]).
    - Refreshes: whatever refreshes of the endpoints fail and wherever, an endpoint
      reads back exactly what its last successful refresh answered
      ([SnapshotRepository]).
    - Enrollment: a credential goes only where the declared identity was observed
      before, and the report of an import is what happened ([EnrollmentSafety]).
    ** Not modelled

    Input and output themselves (sockets, TLS, the CLI, the web console, the
    migrations' SQL), generated code (the protobuf messages, the entity derives),
    formatting of error messages, extraction of requests from JSON, and the parts
    the development does not reach: the Redfish gateway
    adapter, the detailed views of an endpoint's resources and the overview, the
    refresh of a batch of endpoints, groups, tags and credentials, the database
    snapshot of a backup, and telemetry.  The site's connection takes the handling of an offer and
    the progress reports as parameters with the queue discipline they keep, because
    [SiteSync] models them over a state of its own.  [tokio]'s scheduler is
    modelled where a theorem interleaves calls; a scheduler that drives several
    operations at once ([buffer_unordered]) is not, each drive being proved on
    its own against any other activity of the site. *)
From stdpp Require Export base gmap strings list sorting fin_maps.
From Stdlib Require Export ZArith Lia.

(** ** Rust results *)

(** Rust's [Result<A, E>]. *)
Inductive result (A E : Type) : Type :=
| Ok (a : A)
| Err (e : E).
Arguments Ok {A E} a.
Arguments Err {A E} e.

Declare Scope rust_scope.
Delimit Scope rust_scope with rust.

Definition result_bind {A B E} (r : result A E) (k : A → result B E) : result B E :=
  match r with Ok a => k a | Err e => Err e end.

Definition map_err {A E F} (f : E → F) (r : result A E) : result A F :=
  match r with Ok a => Ok a | Err e => Err (f e) end.

Definition ok_or {A E} (o : option A) (e : E) : result A E :=
  match o with Some a => Ok a | None => Err e end.

Lemma ok_or_err {A E} (o : option A) (e e' : E) : ok_or o e = Err e' → o = None ∧ e' = e.
Proof. destruct o; naive_solver. Qed.

Definition is_ok {A E} (r : result A E) : bool :=
  match r with Ok _ => true | Err _ => false end.

(** [let? x := e in k] is the [?] operator: it returns early on [Err]. *)
Notation "'let?' x ':=' e 'in' k" := (result_bind e (λ x, k))
  (at level 10, x name, e at level 100, k at level 200) : rust_scope.
Open Scope rust_scope.

(** [Option::map] followed by [Option::transpose]. *)
Definition transpose {A B E} (f : A → result B E) (o : option A) : result (option B) E :=
  match o with
  | None => Ok None
  | Some a => let? b := f a in Ok (Some b)
  end.

Lemma result_bind_ok {A B E} (r : result A E) (k : A → result B E) b :
  result_bind r k = Ok b → ∃ a, r = Ok a ∧ k a = Ok b.
Proof. destruct r; naive_solver. Qed.

Lemma map_err_ok {A E F} (f : E → F) (r : result A E) a :
  map_err f r = Ok a → r = Ok a.
Proof. destruct r; naive_solver. Qed.

Lemma ok_or_ok {A E} (o : option A) (e : E) a : ok_or o e = Ok a → o = Some a.
Proof. destruct o; naive_solver. Qed.

#[export] Instance result_eq_dec {A E} `{EqDecision A, EqDecision E} :
  EqDecision (result A E).
Proof. solve_decision. Defined.

Lemma is_ok_true {A E} (r : result A E) : is_ok r = true ↔ ∃ a, r = Ok a.
Proof. destruct r; naive_solver. Qed.

(** ** Machine integers *)

(** The integers of the model are [Z]; the width of each one is written in the
    operations that can overflow. [usize] is 64 bits wide, as on every target
    the program is released for. *)
Definition U64_MAX : Z := 2 ^ 64 - 1.
Definition I64_MAX : Z := 2 ^ 63 - 1.
Definition U32_MAX : Z := 2 ^ 32 - 1.

(** [u64::checked_add]. *)
Definition checked_add_u64 (a b : Z) : option Z :=
  if decide (a + b ≤ U64_MAX)%Z then Some (a + b)%Z else None.

(** [u64::saturating_add] and [u64::saturating_sub]. *)
Definition saturating_add_u64 (a b : Z) : Z := Z.min (a + b) U64_MAX.
Definition saturating_sub_u64 (a b : Z) : Z := Z.max (a - b) 0.

(** [u64::wrapping_add], the arithmetic of [AtomicU64::fetch_add]. *)
Definition wrapping_add_u64 (a b : Z) : Z := ((a + b) mod 2 ^ 64)%Z.

(** [u64::try_from] on an [i64]. *)
Definition u64_try_from (z : Z) : option Z :=
  if decide (0 ≤ z)%Z then Some z else None.

(** [u32::try_from] on a [usize]. *)
Definition u32_try_from (z : Z) : option Z :=
  if decide (z ≤ U32_MAX)%Z then Some z else None.

Lemma checked_add_u64_Some a b c :
  checked_add_u64 a b = Some c ↔ (c = a + b ∧ a + b ≤ U64_MAX)%Z.
Proof. unfold checked_add_u64. case_decide; naive_solver. Qed.

Lemma checked_add_u64_None a b :
  checked_add_u64 a b = None ↔ (U64_MAX < a + b)%Z.
Proof. unfold checked_add_u64. case_decide; split; intros; (lia || done). Qed.

Lemma u64_try_from_Some z w : u64_try_from z = Some w ↔ w = z ∧ (0 ≤ z)%Z.
Proof. unfold u64_try_from. case_decide; naive_solver. Qed.

Lemma u64_try_from_None z : u64_try_from z = None ↔ (z < 0)%Z.
Proof. unfold u64_try_from. case_decide; split; intros; (lia || done). Qed.

(** ** Identities and instants *)

(** Every identity of the program is a newtype over a [Uuid], a 128-bit value
    compared and ordered as its bytes: the model keeps the value. *)
Abbreviation Uuid := N.

(** An [OffsetDateTime] is compared as the instant it names; the model keeps
    that instant, in nanoseconds since the Unix epoch. *)
Abbreviation OffsetDateTime := Z.

(** [OffsetDateTime::unix_timestamp]. *)
Definition unix_timestamp (t : OffsetDateTime) : Z := (t / 1000000000)%Z.

(** ** Closed runs of a step function *)

(** [run step s es] feeds the events to a fallible step from the left and stops
    at the first refusal. *)
Fixpoint run {S Ev E : Type} (step : S → Ev → result S E) (s : S) (es : list Ev)
    : result S E :=
  match es with
  | [] => Ok s
  | e :: es => let? s' := step s e in run step s' es
  end.

Lemma run_app {S Ev E} (step : S → Ev → result S E) s es1 es2 :
  run step s (es1 ++ es2) = let? s' := run step s es1 in run step s' es2.
Proof.
  revert s. induction es1 as [|e es1 IH]; intros s; [done|]; simpl.
  destruct (step s e); simpl; [apply IH | done].
Qed.

(** An invariant of each accepted step is an invariant of every accepted run. *)
Lemma run_invariant {S Ev E} (step : S → Ev → result S E) (P : S → Prop) :
  (∀ s e s', P s → step s e = Ok s' → P s') →
  ∀ es s s', P s → run step s es = Ok s' → P s'.
Proof.
  intros Hstep es. induction es as [|e es IH]; intros s s' HP Hrun; simpl in *.
  - by injection Hrun as <-.
  - apply result_bind_ok in Hrun as (s1 & H1 & H2). eauto.
Qed.

(** A measure that every accepted step increases bounds the length of a run. *)
Lemma run_measure {S Ev E} (step : S → Ev → result S E) (m : S → nat) :
  (∀ s e s', step s e = Ok s' → m s < m s') →
  ∀ es s s', run step s es = Ok s' → m s + length es ≤ m s'.
Proof.
  intros Hstep es. induction es as [|e es IH]; intros s s' Hrun; simpl in *.
  - injection Hrun as <-. lia.
  - apply result_bind_ok in Hrun as (s1 & H1 & H2).
    specialize (Hstep _ _ _ H1). specialize (IH _ _ H2). lia.
Qed.

(** ** Effects

    An asynchronous method of the program is a sequence of atomic boundary calls
    with early returns: a state transformer with a verdict.  The state survives
    an [Err]: what was written before an early return stays written. *)
Definition M (S E A : Type) : Type := S → S * result A E.

Definition mret {S E A} (a : A) : M S E A := λ s, (s, Ok a).
Definition mfail {S E A} (e : E) : M S E A := λ s, (s, Err e).
Definition mbind {S E A B} (m : M S E A) (k : A → M S E B) : M S E B :=
  λ s, match m s with
       | (s', Ok a) => k a s'
       | (s', Err e) => (s', Err e)
       end.
Definition mmap_err {S E F A} (f : E → F) (m : M S E A) : M S F A :=
  λ s, let '(s', r) := m s in (s', map_err f r).
Definition mlift {S E A} (r : result A E) : M S E A := λ s, (s, r).

Notation "'let!' x ':=' e 'in' k" := (mbind e (λ x, k))
  (at level 10, x name, e at level 100, k at level 200) : rust_scope.
Notation "'do!' e 'in' k" := (mbind e (λ _, k))
  (at level 10, e at level 100, k at level 200) : rust_scope.

(** A [for] loop over a collection. *)
Fixpoint mfor {S E A} (l : list A) (body : A → M S E ()) : M S E () :=
  match l with
  | [] => mret ()
  | x :: l => do! body x in mfor l body
  end.

(** A loop that pushes one value per item. *)
Fixpoint mtraverse {S E A B} (f : A → M S E B) (l : list A) : M S E (list B) :=
  match l with
  | [] => mret []
  | x :: l => let! y := f x in let! ys := mtraverse f l in mret (y :: ys)
  end.

(** A call on a part of the state. *)
Definition zoom {S T E F A} (get : S → T) (put : S → T → S) (err : E → F) (m : M T E A) : M S F A :=
  λ s, let '(t, r) := m (get s) in (put s t, map_err err r).

Lemma zoom_inv {S T E F A} (get : S → T) (put : S → T → S) (err : E → F) (m : M T E A) s s' r :
  zoom get put err m s = (s', r) → ∃ t r0, m (get s) = (t, r0) ∧ s' = put s t ∧ r = map_err err r0.
Proof. unfold zoom. destruct (m (get s)) as [t r0]. intros [= <- <-]. eauto. Qed.

Lemma zoom_err {S T E F A} (get : S → T) (put : S → T → S) (err : E → F) (m : M T E A) s s' x :
  zoom get put err m s = (s', Err x) → ∃ y, x = err y.
Proof. intros Hrun. apply zoom_inv in Hrun as (t & [a|y] & _ & _ & [= ->]). eauto. Qed.

(** [match m.await { .. }]: the outcome is a value. *)
Definition outcome_of {S E F A} (m : M S E A) : M S F (result A E) := λ s, let '(s', r) := m s in (s', Ok r).

(** [m] keeps the invariant [P] whatever its verdict. *)
Definition keeps {S E A} (P : S → Prop) (m : M S E A) : Prop :=
  ∀ s, P s → P (m s).1.

Lemma keeps_ret {S E A} (P : S → Prop) (a : A) : keeps P (mret a : M S E A).
Proof. by intros s. Qed.
Lemma keeps_fail {S E A} (P : S → Prop) (e : E) : keeps P (mfail e : M S E A).
Proof. by intros s. Qed.
Lemma keeps_lift {S E A} (P : S → Prop) (r : result A E) : keeps P (mlift r : M S E A).
Proof. by intros s. Qed.
Lemma keeps_bind {S E A B} (P : S → Prop) (m : M S E A) (k : A → M S E B) :
  keeps P m → (∀ a, keeps P (k a)) → keeps P (mbind m k).
Proof.
  intros Hm Hk s Hs. unfold mbind. specialize (Hm s Hs).
  destruct (m s) as [s' [a|e]]; [by apply Hk | done].
Qed.
Lemma keeps_map_err {S E F A} (P : S → Prop) (f : E → F) (m : M S E A) :
  keeps P m → keeps P (mmap_err f m).
Proof. intros Hm s Hs. unfold mmap_err. specialize (Hm s Hs). by destruct (m s). Qed.
Lemma keeps_for {S E A} (P : S → Prop) (l : list A) (body : A → M S E ()) :
  (∀ x, x ∈ l → keeps P (body x)) → keeps P (mfor l body).
Proof.
  induction l as [|x l IH]; intros Hb; simpl; [apply keeps_ret|].
  apply keeps_bind; [apply Hb; by left|]. intros _. apply IH.
  intros y Hy. apply Hb. by right.
Qed.

Lemma mbind_ok {S E A B} (m : M S E A) (k : A → M S E B) s s' b :
  mbind m k s = (s', Ok b) → ∃ a s1, m s = (s1, Ok a) ∧ k a s1 = (s', Ok b).
Proof. unfold mbind. destruct (m s) as [s1 [a|e]]; naive_solver. Qed.

Lemma mbind_inv {S E A B} (m : M S E A) (k : A → M S E B) s s' r :
  mbind m k s = (s', r) →
  (∃ a s1, m s = (s1, Ok a) ∧ k a s1 = (s', r)) ∨ (∃ e, m s = (s', Err e) ∧ r = Err e).
Proof. unfold mbind. destruct (m s) as [s1 [a|e]]; naive_solver. Qed.

Lemma mbind_run {S E A B} (m : M S E A) (k : A → M S E B) s s' a :
  m s = (s', Ok a) → mbind m k s = k a s'.
Proof. intros Hm. unfold mbind. by rewrite Hm. Qed.

Lemma mmap_err_inv {S E F A} (f : E → F) (m : M S E A) s s' r :
  mmap_err f m s = (s', r) → ∃ r0, m s = (s', r0) ∧ r = map_err f r0.
Proof. unfold mmap_err. destruct (m s) as [s1 r0]. intros [= -> <-]. eauto. Qed.

(** [wp m Q R s]: run from [s], the method ends with [Q a] if it returns [a] and
    with [R] if it fails. *)
Definition wp {S E A} (m : M S E A) (Q : A → S → Prop) (R : S → Prop) (s : S) : Prop :=
  match m s with (s', Ok a) => Q a s' | (s', Err _) => R s' end.

Lemma wp_ret {S E A} (a : A) (Q : A → S → Prop) R s : Q a s → wp (E := E) (mret a) Q R s.
Proof. done. Qed.

Lemma wp_lift {S E A} (r : result A E) (Q : A → S → Prop) (R : S → Prop) s :
  (∀ a, r = Ok a → Q a s) → R s → wp (mlift r) Q R s.
Proof. unfold wp, mlift. destruct r; auto. Qed.

Lemma wp_bind {S E A B} (m : M S E A) (k : A → M S E B) Q R s :
  wp m (λ a s', wp (k a) Q R s') R s → wp (mbind m k) Q R s.
Proof. unfold wp, mbind. by destruct (m s) as [s' [a|e]]. Qed.

Lemma wp_mono {S E A} (m : M S E A) (Q Q' : A → S → Prop) (R R' : S → Prop) s :
  wp m Q R s → (∀ a s', Q a s' → Q' a s') → (∀ s', R s' → R' s') → wp m Q' R' s.
Proof. unfold wp. destruct (m s) as [s' [a|e]]; auto. Qed.

(** A loop keeps what its body keeps. *)
Lemma wp_for {S E A} (I : S → Prop) (l : list A) (body : A → M S E ()) s :
  I s → (∀ x s, x ∈ l → I s → wp (body x) (λ _, I) I s) → wp (mfor l body) (λ _, I) I s.
Proof.
  revert s. induction l as [|x l IH]; intros s Hs Hb; [done|]. apply wp_bind.
  eapply wp_mono; [apply Hb; [by left | done]| |done].
  intros [] s' Hs'. apply IH; [done|]. intros y s'' Hy. apply Hb. by right.
Qed.

(** The final state, whatever the verdict. *)
Lemma wp_state {S E A} (m : M S E A) (I : S → Prop) s : wp m (λ _, I) I s → I (m s).1.
Proof. unfold wp. by destruct (m s) as [s' [a|e]]. Qed.

(** A function relates a list to one list. *)
Lemma Forall2_functional {A B} (R : A → B → Prop) l k k' :
  (∀ x y y', R x y → R x y' → y = y') → Forall2 R l k → Forall2 R l k' → k = k'.
Proof.
  intros HR Hk. revert k'. induction Hk as [|x y l k Hxy Hk IH]; intros k' Hk'.
  - by apply Forall2_nil_inv_l in Hk'.
  - apply Forall2_cons_inv_l in Hk' as (y' & l' & Hxy' & Hl' & ->). f_equal; eauto.
Qed.

(** ** Early ends *)

(** How a call ends early: with an error the program sees, or with the process. *)
Inductive abrupt (E : Type) := Died | Returned (e : E).
Arguments Died {E}.
Arguments Returned {E}.

Definition abrupt_map {E F} (f : E → F) (a : abrupt E) : abrupt F :=
  match a with Died => Died | Returned e => Returned (f e) end.

(** ** Contracts of a store

    [view] is what a store holds in the terms of its contract, [ok] says that its
    rows are readable. *)

(** What a read promises: the store as it was, and an answer [P] holds of. *)
Definition reads {V St E A} (view : St → V) (ok : St → Prop)
    (P : V → A → Prop) (s s' : St) (r : result A E) : Prop :=
  ok s' ∧ view s' = view s ∧ ∀ x, r = Ok x → P (view s) x.

(** What a write promises: exactly its abstract effect, or an error and no
    effect. *)
Definition writes {V St E} (view : St → V) (ok : St → Prop)
    (P : V → V → Prop) (s s' : St) (r : result () E) : Prop :=
  ok s' ∧ match r with Ok _ => P (view s) (view s') | Err _ => view s' = view s end.

(** ** Lists *)

(** The first [limit] elements; the limit is an unsigned integer. *)
Fixpoint take_limit {A} (limit : Z) (l : list A) : list A :=
  match l with
  | [] => []
  | x :: l => if (0 <? limit)%Z then x :: take_limit (limit - 1) l else []
  end.

Lemma take_limit_take {A} (limit : Z) (l : list A) : take_limit limit l = take (Z.to_nat limit) l.
Proof.
  revert limit. induction l as [|x l IH]; intros limit; simpl; [by rewrite take_nil|].
  destruct (Z.ltb_spec 0 limit) as [Hl|Hl].
  - rewrite IH. by replace (Z.to_nat limit) with (S (Z.to_nat (limit - 1))) by lia.
  - by replace (Z.to_nat limit) with 0 by lia.
Qed.

Lemma filter_none {A} (P : A → Prop) `{∀ x, Decision (P x)} (l : list A) :
  (∀ x, ¬ P x) → filter P l = [].
Proof.
  intros Hn. induction l as [|x l IH]; [done|]. by rewrite filter_cons_False by auto.
Qed.

(** Two disjoint filters partition the filter of their union. *)
Lemma filter_or_perm {A} (P Q R : A → Prop)
    `{∀ x, Decision (P x), ∀ x, Decision (Q x), ∀ x, Decision (R x)} (l : list A) :
  (∀ x, R x ↔ P x ∨ Q x) → (∀ x, P x → Q x → False) →
  filter R l ≡ₚ filter P l ++ filter Q l.
Proof.
  intros Hor Hdis. induction l as [|x l IH]; [done|]. rewrite !filter_cons.
  specialize (Hor x). specialize (Hdis x).
  destruct (decide (P x)), (decide (Q x)), (decide (R x)); simpl; try tauto.
  - by rewrite IH.
  - rewrite <- Permutation_middle. by rewrite IH.
Qed.

Lemma StronglySorted_filter {A} (R : relation A) (P : A → Prop) `{∀ x, Decision (P x)} l :
  StronglySorted R l → StronglySorted R (filter P l).
Proof.
  induction 1 as [|x l Hs IH Hx]; [constructor|]. rewrite filter_cons. case_decide; [|done].
  constructor; [done|]. rewrite Forall_forall in *. intros y [_ Hy]%list_elem_of_filter. auto.
Qed.

(** ** Automation *)

(** Splits the calls of a hypothesis that runs an effectful method. *)
Ltac inv_calls :=
  repeat match goal with
  | H : mbind _ _ _ = (_, _) |- _ =>
      apply mbind_inv in H as [(? & ? & ? & H)|(? & ? & H)]
  | H : mmap_err _ _ _ = (_, _) |- _ => apply mmap_err_inv in H as (? & ? & ?)
  | H : mret _ _ = (_, _) |- _ => unfold mret in H
  | H : mfail _ _ = (_, _) |- _ => unfold mfail in H
  | H : mlift _ _ = (_, _) |- _ => unfold mlift in H
  | H : (_, _) = (_, _) |- _ => injection H as H; subst
  | H : map_err _ ?r = _ |- _ => is_var r; destruct r; simpl in H; simplify_eq
  | H : _ = map_err _ ?r |- _ => is_var r; destruct r; simpl in H; simplify_eq
  end; simplify_eq.

(** Splits the early returns of a hypothesis that says a fallible function
    returned [Ok]. *)
Ltac inv_ok :=
  repeat match goal with
  | H : result_bind _ _ = Ok _ |- _ =>
      let a := fresh "a" in let H1 := fresh H in
      apply result_bind_ok in H as (a & H1 & H)
  | H : map_err _ _ = Ok _ |- _ => apply map_err_ok in H
  | H : ok_or _ _ = Ok _ |- _ => apply ok_or_ok in H
  | H : ok_or _ _ = Err _ |- _ => apply ok_or_err in H as [H ->]
  | H : Ok _ = Ok _ |- _ => injection H as H; subst
  | H : Ok _ = Err _ |- _ => discriminate H
  | H : Err _ = Ok _ |- _ => discriminate H
  end.

(** Cases on every test the goal or a hypothesis still branches on. *)
Ltac split_cases :=
  repeat (case_match || case_decide); simplify_eq/=; try done.

(** Proves a goal by trying every value of the finite enumerations in it. *)
Ltac enum_cases := repeat (let x := fresh in intros x; try destruct x); try done.

Create HintDb rutilus.
#[export] Hint Resolve result_bind_ok map_err_ok ok_or_ok : rutilus.
#[export] Hint Resolve keeps_ret keeps_fail keeps_lift keeps_bind keeps_map_err keeps_for : rutilus.
