(* ===== verification/Text.v ===== *)
(** * Text: the Rust strings, names and numerals the program validates

    A [str] is the list of its Unicode scalar values.  [len()] counts its UTF-8
    bytes, [chars().count()] its scalar values.  The whitespace and control
    tests are the ones of Rust's [char]. *)
From S2P Require Import Prelude.
From Stdlib Require Import Ascii ZifyBool.
Local Open Scope N_scope.

Abbreviation char := N.
Abbreviation str := (list N).

(** A literal of the source, which only uses ASCII in its literals. *)
Fixpoint lit (s : string) : str :=
  match s with
  | EmptyString => []
  | String c s => N_of_ascii c :: lit s
  end.

(** ** Characters *)

(** [char::is_whitespace]: the Unicode property White_Space. *)
Definition is_whitespace (c : char) : bool :=
  ((9 <=? c) && (c <=? 13)) || (c =? 32) || (c =? 133) || (c =? 160) || (c =? 5760)
  || ((8192 <=? c) && (c <=? 8202)) || (c =? 8232) || (c =? 8233) || (c =? 8239)
  || (c =? 8287) || (c =? 12288).

(** [char::is_control]: the general category Cc. *)
Definition is_control (c : char) : bool :=
  (c <=? 31) || ((127 <=? c) && (c <=? 159)).

Definition is_ascii_digit (c : char) : bool := (48 <=? c) && (c <=? 57).

(** The number of UTF-8 bytes of one scalar value. *)
Definition len_utf8 (c : char) : N :=
  if c <=? 127 then 1 else if c <=? 2047 then 2 else if c <=? 65535 then 3 else 4.

(** [str::len]. *)
Definition str_len (s : str) : N := foldr (λ c n, len_utf8 c + n) 0 s.

(** [chars().count()]. *)
Definition char_count (s : str) : N := N.of_nat (length s).

(** ** [str::trim] *)

Fixpoint trim_start (s : str) : str :=
  match s with
  | [] => []
  | c :: s' => if is_whitespace c then trim_start s' else s
  end.

Definition trim_end (s : str) : str := reverse (trim_start (reverse s)).

Definition trim (s : str) : str := trim_end (trim_start s).

(** [s] neither starts nor ends with whitespace. *)
Definition starts_plain (s : str) : Prop :=
  match s with [] => True | c :: _ => is_whitespace c = false end.
Definition trimmed (s : str) : Prop := starts_plain s ∧ starts_plain (reverse s).

Lemma trim_start_plain s : starts_plain (trim_start s).
Proof. induction s as [|c s IH]; simpl; [done|]. by destruct (is_whitespace c) eqn:?. Qed.

Lemma trim_start_fix s : starts_plain s → trim_start s = s.
Proof. destruct s as [|c s]; simpl; [done|]. by intros ->. Qed.

Lemma trim_start_suffix s : ∃ p, s = p ++ trim_start s ∧ Forall (λ c, is_whitespace c = true) p.
Proof.
  induction s as [|c s (p & Hp & Hws)]; simpl; [by eexists nil|].
  destruct (is_whitespace c) eqn:Hc; [|by eexists nil].
  exists (c :: p). split; [by rewrite <- app_comm_cons, <- Hp | by constructor].
Qed.

Lemma starts_plain_app_l s t : s ≠ [] → starts_plain (s ++ t) ↔ starts_plain s.
Proof. by destruct s. Qed.

Lemma trim_trimmed s : trimmed (trim s).
Proof.
  unfold trim, trim_end, trimmed. rewrite reverse_involutive.
  split; [|apply trim_start_plain].
  destruct (trim_start_suffix (reverse (trim_start s))) as (p & Hp & _).
  pose proof (trim_start_plain s) as Hs.
  apply (f_equal reverse) in Hp. rewrite reverse_involutive, reverse_app in Hp.
  destruct (decide (reverse (trim_start (reverse (trim_start s))) = [])) as [->|Hne]; [done|].
  rewrite Hp in Hs. by apply starts_plain_app_l in Hs.
Qed.

Lemma trim_fix s : trimmed s → trim s = s.
Proof.
  intros [H1 H2]. unfold trim, trim_end. rewrite (trim_start_fix s) by done.
  by rewrite (trim_start_fix (reverse s)), reverse_involutive by done.
Qed.

Lemma trim_trimmed_iff s : trim s = s ↔ trimmed s.
Proof. split; [intros <-; apply trim_trimmed | apply trim_fix]. Qed.

Lemma trim_idemp s : trim (trim s) = trim s.
Proof. apply trim_fix, trim_trimmed. Qed.

(** ** Validated names *)

(** The error of the bounded display names of the domain. *)
Inductive BoundedNameError :=
| NameEmpty
| NameControlCharacter
| NameTooLong (actual maximum : N).

#[export] Instance BoundedNameError_eq_dec : EqDecision BoundedNameError.
Proof. solve_decision. Defined.

(** The validation that every bounded name of the domain runs: trim, refuse an
    empty name, refuse control characters, bound the number of characters. *)
Definition parse_bounded_name (maximum : N) (value : str) : result str BoundedNameError :=
  let normalized := trim value in
  if decide (normalized = []) then Err NameEmpty
  else if existsb is_control normalized then Err NameControlCharacter
  else let actual := char_count normalized in
       if maximum <? actual then Err (NameTooLong actual maximum)
       else Ok normalized.

(** The values a bounded name can hold. *)
Definition bounded_name (maximum : N) (s : str) : Prop :=
  s ≠ [] ∧ trimmed s ∧ Forall (λ c, is_control c = false) s ∧ char_count s ≤ maximum.

Lemma existsb_false {A} (f : A → bool) l :
  existsb f l = false ↔ Forall (λ x, f x = false) l.
Proof.
  rewrite <- not_true_iff_false, existsb_exists, Forall_forall.
  setoid_rewrite list_elem_of_In. split.
  - intros H x Hx. apply not_true_is_false. naive_solver.
  - intros H (x & Hx & Hf). by rewrite H in Hf.
Qed.

Lemma parse_bounded_name_Ok maximum value s :
  parse_bounded_name maximum value = Ok s ↔
  s = trim value ∧ bounded_name maximum (trim value).
Proof.
  unfold parse_bounded_name, bounded_name. pose proof (trim_trimmed value) as Ht.
  case_decide as He; [naive_solver|].
  destruct (existsb is_control (trim value)) eqn:Hc.
  - split; [done|]. intros (_ & _ & _ & Hf & _). apply existsb_false in Hf. congruence.
  - apply existsb_false in Hc. destruct (N.ltb_spec maximum (char_count (trim value))).
    + split; [done|]. intros (_ & _ & _ & _ & ?). lia.
    + split; [by intros [= <-] | by intros [-> _]].
Qed.

(** A stored name parses back to itself. *)
Lemma parse_bounded_name_roundtrip maximum s :
  bounded_name maximum s → parse_bounded_name maximum s = Ok s.
Proof.
  intros H. apply parse_bounded_name_Ok. rewrite trim_fix; [done|]. apply H.
Qed.

(** ** Decimal numerals *)

(** [u64]'s [Display]. *)
Fixpoint decimal_go (fuel : nat) (n : N) (acc : str) : str :=
  match fuel with
  | O => acc
  | S fuel =>
      let acc := (48 + n mod 10) :: acc in
      if n <? 10 then acc else decimal_go fuel (n / 10) acc
  end.
Definition decimal (n : N) : str := decimal_go (S (N.to_nat (N.size n))) n [].

(** The digits of [u64::from_str], after its optional plus sign: each digit is
    multiplied and added with overflow checks. *)
Fixpoint parse_digits (acc : N) (s : str) : option N :=
  match s with
  | [] => Some acc
  | c :: s' =>
      if is_ascii_digit c then
        let acc := acc * 10 + (c - 48) in
        if acc <? 2 ^ 64 then parse_digits acc s' else None
      else None
  end.

Definition parse_u64 (s : str) : option N :=
  match s with
  | [] => None
  | c :: s' =>
      if c =? 43 then match s' with [] => None | _ => parse_digits 0 s' end
      else parse_digits 0 s
  end.

Lemma digit_is_digit d : d < 10 → is_ascii_digit (48 + d) = true.
Proof.
  intros ?. unfold is_ascii_digit. apply andb_true_iff. rewrite !N.leb_le. lia.
Qed.

Lemma decimal_go_S fuel n acc :
  decimal_go (S fuel) n acc =
  if n <? 10 then (48 + n mod 10) :: acc
  else decimal_go fuel (n / 10) ((48 + n mod 10) :: acc).
Proof. done. Qed.

Lemma parse_digits_go fuel n acc :
  n < 2 ^ N.of_nat (S fuel) → n < 2 ^ 64 →
  parse_digits 0 (decimal_go (S fuel) n acc) = parse_digits n acc.
Proof.
  revert n acc. induction fuel as [|fuel IH]; intros n acc Hf Hn;
    rewrite decimal_go_S; destruct (N.ltb_spec n 10) as [Hlt|Hge].
  1, 3: cbn [parse_digits]; rewrite digit_is_digit by (apply N.mod_lt; lia);
    rewrite N.mod_small by done; rewrite (proj2 (N.ltb_lt _ _)) by lia; f_equal; lia.
  - change (2 ^ N.of_nat 1) with 2 in Hf. lia.
  - assert (n / 10 ≤ n / 2) by (apply N.div_le_compat_l; lia).
    rewrite IH.
    + cbn [parse_digits]. rewrite digit_is_digit by (apply N.mod_lt; lia).
      pose proof (N.div_mod n 10 ltac:(lia)) as Hdm.
      rewrite (N.add_comm 48), N.add_sub, (N.mul_comm _ 10), <- Hdm.
      by rewrite (proj2 (N.ltb_lt _ _)).
    + eapply N.le_lt_trans; [done|]. apply N.Div0.div_lt_upper_bound.
      rewrite Nat2N.inj_succ, N.pow_succ_r' in Hf. done.
    + eapply N.le_lt_trans; [apply N.Div0.div_le_upper_bound with (q := n)|]; lia.
Qed.

Lemma decimal_go_digits fuel n acc :
  Forall (λ c, is_ascii_digit c = true) acc →
  Forall (λ c, is_ascii_digit c = true) (decimal_go fuel n acc).
Proof.
  revert n acc. induction fuel as [|fuel IH]; intros n acc Hacc; simpl; [done|].
  assert (is_ascii_digit (48 + n mod 10) = true) by (apply digit_is_digit, N.mod_lt; lia).
  destruct (n <? 10); [by constructor|]. apply IH. by constructor.
Qed.

Lemma decimal_go_nonempty fuel n acc : acc ≠ [] → decimal_go fuel n acc ≠ [].
Proof.
  revert n acc. induction fuel as [|fuel IH]; intros n acc Hacc; simpl; [done|].
  destruct (n <? 10); [done | by apply IH].
Qed.

Lemma decimal_digits n : Forall (λ c, is_ascii_digit c = true) (decimal n).
Proof. by apply decimal_go_digits. Qed.

Lemma decimal_nonempty n : decimal n ≠ [].
Proof.
  unfold decimal. cbn [decimal_go]. destruct (n <? 10); [done|].
  by apply decimal_go_nonempty.
Qed.

Lemma parse_u64_decimal n : n < 2 ^ 64 → parse_u64 (decimal n) = Some n.
Proof.
  intros Hn. pose proof (decimal_digits n) as Hd. pose proof (decimal_nonempty n).
  unfold parse_u64. destruct (decimal n) as [|c s] eqn:Hs; [done|].
  inversion Hd as [|? ? Hc]; subst. unfold is_ascii_digit in Hc.
  apply andb_true_iff in Hc as [Hc1%N.leb_le Hc2%N.leb_le].
  destruct (N.eqb_spec c 43); [lia|]. rewrite <- Hs. unfold decimal.
  rewrite parse_digits_go; [done| |done].
  rewrite Nat2N.inj_succ, N2Nat.id. pose proof (N.size_gt n).
  rewrite N.pow_succ_r'. lia.
Qed.

(** A number below a power of ten has no more digits than its exponent. *)
Lemma decimal_length n k : (k ≠ 0)%nat → n < 10 ^ N.of_nat k → (length (decimal n) ≤ k)%nat.
Proof.
  intros Hk Hn. unfold decimal. generalize (S (N.to_nat (N.size n))) as fuel. intros fuel.
  change k with (k + length ([] : str))%nat at 1 || rewrite <- (Nat.add_0_r k).
  change 0%nat with (length ([] : str)). generalize ([] : str) as acc.
  revert n k Hk Hn. induction fuel as [|fuel IH]; intros n k Hk Hn acc; [simpl; lia|].
  rewrite decimal_go_S. destruct (N.ltb_spec n 10) as [|Hge]; [simpl; lia|].
  destruct k as [|[|k]]; [done | simpl in Hn; lia|].
  specialize (IH (n / 10) (S k) ltac:(done)). etransitivity; [apply IH | simpl; lia].
  apply N.Div0.div_lt_upper_bound. by rewrite Nat2N.inj_succ, N.pow_succ_r' in Hn.
Qed.

(** ** Constant-time comparison *)

(** The byte comparison of the secrets: every differing bit is accumulated, and
    the verdict is read once at the end. *)
Definition constant_time_eq (left right : list N) : bool :=
  foldl (λ difference p, N.lor difference (N.lxor p.1 p.2)) 0 (zip left right) =? 0.

Lemma fold_lor_zero (ps : list (N * N)) d :
  foldl (λ difference p, N.lor difference (N.lxor p.1 p.2)) d ps = 0 ↔
  d = 0 ∧ Forall (λ p, p.1 = p.2) ps.
Proof.
  revert d. induction ps as [|p ps IH]; intros d; simpl.
  - split; [intros ->; by split | by intros []].
  - rewrite IH, N.lor_eq_0_iff, N.lxor_eq_0_iff, Forall_cons. tauto.
Qed.

Lemma zip_Forall_eq {A} (l k : list A) :
  length l = length k → Forall (λ p, p.1 = p.2) (zip l k) → l = k.
Proof.
  revert k. induction l as [|x l IH]; intros [|y k] Hlen; simpl in *; try done.
  rewrite Forall_cons. intros [Heq ?]. simpl in Heq. subst.
  f_equal. apply IH; [congruence | done].
Qed.

(** On byte strings of one length the accumulated comparison is equality. *)
Lemma constant_time_eq_spec left right :
  length left = length right → constant_time_eq left right = true ↔ left = right.
Proof.
  intros Hlen. unfold constant_time_eq. rewrite N.eqb_eq, fold_lor_zero. split.
  - intros [_ H]. by apply zip_Forall_eq.
  - intros ->. split; [done|]. clear Hlen.
    induction right; simpl; constructor; done.
Qed.

(** ** UTF-8

    [str::as_bytes] and [std::str::from_utf8].  Bytes are [N] below 256. *)

Definition utf8_char (c : char) : list N :=
  if c <? 128 then [c]
  else if c <? 2048 then [192 + c / 64; 128 + c mod 64]
  else if c <? 65536 then [224 + c / 4096; 128 + (c / 64) mod 64; 128 + c mod 64]
  else [240 + c / 262144; 128 + (c / 4096) mod 64; 128 + (c / 64) mod 64; 128 + c mod 64].

Definition as_bytes (s : str) : list N := concat (utf8_char <$> s).

(** A Unicode scalar value: what a Rust [char] can hold. *)
Definition is_scalar (c : char) : bool := (c <? 55296) || ((57344 <=? c) && (c <? 1114112)).

Definition is_continuation (b : N) : bool := (128 <=? b) && (b <? 192).

(** The first character of a byte string; overlong forms, surrogates and values
    past the last plane are refused. *)
Definition utf8_next (bytes : list N) : option (char * list N) :=
  match bytes with
  | [] => None
  | b0 :: bytes =>
      if b0 <? 128 then Some (b0, bytes)
      else if (192 <=? b0) && (b0 <? 224) then
        match bytes with
        | b1 :: bytes =>
            let c := (b0 - 192) * 64 + (b1 - 128) in
            if is_continuation b1 && (128 <=? c) then Some (c, bytes) else None
        | _ => None
        end
      else if (224 <=? b0) && (b0 <? 240) then
        match bytes with
        | b1 :: b2 :: bytes =>
            let c := (b0 - 224) * 4096 + (b1 - 128) * 64 + (b2 - 128) in
            if is_continuation b1 && is_continuation b2 && (2048 <=? c) && is_scalar c
            then Some (c, bytes) else None
        | _ => None
        end
      else if (240 <=? b0) && (b0 <? 248) then
        match bytes with
        | b1 :: b2 :: b3 :: bytes =>
            let c := (b0 - 240) * 262144 + (b1 - 128) * 4096 + (b2 - 128) * 64 + (b3 - 128) in
            if is_continuation b1 && is_continuation b2 && is_continuation b3
               && (65536 <=? c) && is_scalar c
            then Some (c, bytes) else None
        | _ => None
        end
      else None
  end.

Fixpoint from_utf8_go (fuel : nat) (bytes : list N) : option str :=
  match bytes, fuel with
  | [], _ => Some []
  | _, O => None
  | _, S fuel =>
      match utf8_next bytes with
      | Some (c, rest) => (c ::.) <$> from_utf8_go fuel rest
      | None => None
      end
  end.

(** Every character takes at least one byte, so the length is fuel enough. *)
Definition from_utf8 (bytes : list N) : option str := from_utf8_go (length bytes) bytes.

Lemma utf8_digits c :
  c mod 64 < 64 ∧ (c / 64) mod 64 < 64 ∧ (c / 4096) mod 64 < 64 ∧
  c = c / 64 * 64 + c mod 64 ∧ c / 64 = c / 4096 * 64 + (c / 64) mod 64 ∧
  c / 4096 = c / 262144 * 64 + (c / 4096) mod 64.
Proof.
  repeat split; try (apply N.mod_lt; done).
  - rewrite N.mul_comm. apply N.div_mod. done.
  - replace (c / 4096) with (c / 64 / 64) by (rewrite N.Div0.div_div; done).
    rewrite (N.mul_comm _ 64). apply N.div_mod. done.
  - replace (c / 262144) with (c / 4096 / 64) by (rewrite N.Div0.div_div; done).
    rewrite (N.mul_comm _ 64). apply N.div_mod. done.
Qed.

Lemma utf8_next_char c rest :
  is_scalar c = true → utf8_next (utf8_char c ++ rest) = Some (c, rest).
Proof.
  intros Hs. unfold utf8_char. destruct (utf8_digits c) as (H1 & H2 & H3 & H4 & H5 & H6).
  set (m0 := c mod 64) in *. set (q1 := c / 64) in *. set (m1 := q1 mod 64) in *.
  set (q2 := c / 4096) in *. set (m2 := q2 mod 64) in *. set (q3 := c / 262144) in *.
  clearbody m0 q1 m1 q2 m2 q3. unfold is_scalar in *.
  destruct (c <? 128) eqn:C1; [simpl; by rewrite C1|].
  destruct (c <? 2048) eqn:C2.
  - simpl. unfold is_continuation. replace (192 + q1 <? 128) with false by lia.
    replace ((192 <=? 192 + q1) && (192 + q1 <? 224)) with true by lia.
    replace ((192 + q1 - 192) * 64 + (128 + m0 - 128)) with c by lia.
    by replace ((128 <=? 128 + m0) && (128 + m0 <? 192) && (128 <=? c)) with true by lia.
  - destruct (c <? 65536) eqn:C3.
    + simpl. unfold is_continuation, is_scalar. replace (224 + q2 <? 128) with false by lia.
      replace ((192 <=? 224 + q2) && (224 + q2 <? 224)) with false by lia.
      replace ((224 <=? 224 + q2) && (224 + q2 <? 240)) with true by lia.
      replace ((224 + q2 - 224) * 4096 + (128 + m1 - 128) * 64 + (128 + m0 - 128)) with c by lia.
      by match goal with |- (if ?b then _ else _) = _ => replace b with true by lia end.
    + simpl. unfold is_continuation, is_scalar. replace (240 + q3 <? 128) with false by lia.
      replace ((192 <=? 240 + q3) && (240 + q3 <? 224)) with false by lia.
      replace ((224 <=? 240 + q3) && (240 + q3 <? 240)) with false by lia.
      replace ((240 <=? 240 + q3) && (240 + q3 <? 248)) with true by lia.
      replace ((240 + q3 - 240) * 262144 + (128 + m2 - 128) * 4096 + (128 + m1 - 128) * 64
                 + (128 + m0 - 128)) with c by lia.
      by match goal with |- (if ?b then _ else _) = _ => replace b with true by lia end.
Qed.

Lemma utf8_char_nonempty c : ∃ b bs, utf8_char c = b :: bs.
Proof. unfold utf8_char. repeat case_match; eauto. Qed.

Lemma from_utf8_go_bytes fuel s :
  Forall (λ c, is_scalar c = true) s → (length s ≤ fuel)%nat →
  from_utf8_go fuel (as_bytes s) = Some s.
Proof.
  intros Hs. revert fuel. induction Hs as [|c s Hc Hs IH]; intros fuel Hf.
  - by destruct fuel.
  - destruct fuel as [|fuel]; simpl in Hf; [lia|]. change (as_bytes (c :: s)) with (utf8_char c ++ as_bytes s).
    pose proof (utf8_next_char c (as_bytes s) Hc) as Hn.
    destruct (utf8_char_nonempty c) as (b & bs & Hb). rewrite Hb in *. simpl app in *.
    cbn [from_utf8_go]. rewrite Hn. rewrite IH by lia. done.
Qed.

Lemma as_bytes_cons c s : as_bytes (c :: s) = utf8_char c ++ as_bytes s.
Proof. done. Qed.

(** [str::len] counts the bytes. *)
Lemma str_len_bytes s : str_len s = N.of_nat (length (as_bytes s)).
Proof.
  induction s as [|c s IH]; [done|]. rewrite as_bytes_cons, length_app, Nat2N.inj_add, <- IH.
  change (str_len (c :: s)) with (len_utf8 c + str_len s). f_equal. unfold len_utf8, utf8_char.
  destruct (N.leb_spec c 127), (N.ltb_spec c 128); try lia; [done|].
  destruct (N.leb_spec c 2047), (N.ltb_spec c 2048); try lia; [done|].
  by destruct (N.leb_spec c 65535), (N.ltb_spec c 65536); try lia.
Qed.

Lemma as_bytes_ascii s : Forall (λ c, c < 128) s → as_bytes s = s.
Proof.
  induction 1 as [|c s Hc Hs IH]; [done|]. rewrite as_bytes_cons, IH.
  unfold utf8_char. by rewrite (proj2 (N.ltb_lt _ _) Hc).
Qed.

(** A text whose bytes are all ASCII is its bytes. *)
Lemma as_bytes_low s : Forall (λ b, b < 128) (as_bytes s) → as_bytes s = s.
Proof.
  induction s as [|c s IH]; [done|]. rewrite as_bytes_cons, Forall_app. intros [Hc Hs].
  rewrite IH by done. unfold utf8_char in *. destruct (N.ltb_spec c 128); [done|].
  assert (∀ a b l, 128 ≤ a → Forall (λ b, b < 128) (a + b :: l) → False) as Hhigh.
  { intros a b l Ha Hl. apply Forall_cons_1 in Hl as [Hl _]. lia. }
  repeat case_match; exfalso; by eapply Hhigh in Hc.
Qed.

Lemma as_bytes_length s : (length s ≤ length (as_bytes s))%nat.
Proof.
  induction s as [|c s IH]; [done|]. change (as_bytes (c :: s)) with (utf8_char c ++ as_bytes s).
  rewrite length_app. destruct (utf8_char_nonempty c) as (b & bs & ->). simpl. lia.
Qed.

(** Decoding the bytes of a string gives the string back. *)
Lemma from_utf8_as_bytes s :
  Forall (λ c, is_scalar c = true) s → from_utf8 (as_bytes s) = Some s.
Proof. intros Hs. apply from_utf8_go_bytes; [done | apply as_bytes_length]. Qed.

(** ** Prefixes *)

(** [str::strip_prefix] and [str::starts_with]. *)
Fixpoint strip_prefix (prefix s : str) : option str :=
  match prefix, s with
  | [], _ => Some s
  | p :: prefix, c :: s => if decide (p = c) then strip_prefix prefix s else None
  | _ :: _, [] => None
  end.

Definition starts_with (prefix s : str) : bool :=
  match strip_prefix prefix s with Some _ => true | None => false end.

Lemma strip_prefix_app prefix s : strip_prefix prefix (prefix ++ s) = Some s.
Proof. induction prefix as [|p prefix IH]; simpl; [done|]. by rewrite decide_True. Qed.

Lemma strip_prefix_Some prefix s rest : strip_prefix prefix s = Some rest ↔ s = prefix ++ rest.
Proof.
  split; [|intros ->; apply strip_prefix_app].
  revert s. induction prefix as [|p prefix IH]; intros s; simpl; [by intros [= ->]|].
  destruct s as [|c s]; [done|]. case_decide; [|done]. intros Hs%IH. by subst.
Qed.

(** ** Order *)

(** Comparing the UTF-8 bytes of two texts is comparing their scalar values. *)
Fixpoint str_leb (a b : str) : bool :=
  match a, b with
  | [], _ => true
  | _, [] => false
  | x :: a, y :: b => (x <? y)%N || ((x =? y)%N && str_leb a b)
  end.
Definition str_le (a b : str) : Prop := str_leb a b = true.

Lemma str_leb_cons x a y b :
  str_leb (x :: a) (y :: b) = true ↔ (x < y)%N ∨ (x = y ∧ str_leb a b = true).
Proof. cbn [str_leb]. rewrite orb_true_iff, andb_true_iff, N.ltb_lt, N.eqb_eq. done. Qed.

#[export] Instance str_le_total : Total str_le.
Proof.
  intros a. unfold str_le. induction a as [|x a IH]; intros [|y b]; [by left|by left|by right|].
  rewrite !str_leb_cons. destruct (N.lt_trichotomy x y) as [|[->|]]; [by left; left| |by right; left].
  destruct (IH b); [left|right]; by right.
Qed.
#[export] Instance str_le_trans : Transitive str_le.
Proof.
  intros a. unfold str_le. induction a as [|x a IH]; intros [|y b] [|z c]; try done.
  rewrite !str_leb_cons. intros [|[-> ?]] [|[-> ?]]; [left; lia|by left|by left|right; split; [done|by eapply IH]].
Qed.
Lemma str_le_antisym a b : str_le a b → str_le b a → a = b.
Proof.
  unfold str_le. revert b. induction a as [|x a IH]; intros [|y b]; try done.
  rewrite !str_leb_cons. intros [|[-> ?]] [|[? ?]]; [lia..|]. f_equal. by apply IH.
Qed.
