(* ===== verification/Operation.v ===== *)
(** * Operation: the persisted operation and its state machine

    Models [domain/src/operation.rs] (states, events, the transition matrix,
    the operation record), [domain/src/failure_kind.rs] and
    [domain/src/batch_operation.rs] (the batch parent, the derived batch state
    and the outcome counts). *)
From S2P Require Import Prelude Text.

(** ** Stable codes

    Every persisted enumeration has a stable code ([as_str]) and a parser of it
    ([FromStr]).  [StableCode] is what persistence and the protocol rely on:
    the parser inverts the code and accepts nothing else. *)
Class StableCode (T E : Type) := {
  code_str : T → str;
  code_parse : str → result T E;
  code_parse_str : ∀ x, code_parse (code_str x) = Ok x;
  code_parse_sound : ∀ s x, code_parse s = Ok x → s = code_str x;
}.

(** A [match] on string literals: the first literal equal to [value]. *)
Fixpoint match_str {T} (value : str) (arms : list (string * T)) : option T :=
  match arms with
  | [] => None
  | (literal, x) :: arms => if decide (value = lit literal) then Some x else match_str value arms
  end.

Lemma match_str_sound {T} (f : T → str) value (arms : list (string * T)) x :
  Forall (λ arm, lit arm.1 = f arm.2) arms →
  match_str value arms = Some x → value = f x.
Proof.
  induction 1 as [|[l y] arms Hl Harms IH]; simpl; [done|].
  case_decide; [intros [= <-]; simpl in Hl; congruence | done].
Qed.

(** Proves the two laws of a [StableCode] whose parser is [match_str]. *)
Ltac solve_code :=
  lazymatch goal with
  | |- ∀ s x, ok_or (match_str s _) _ = Ok x → s = ?f x =>
      intros s x H; apply ok_or_ok in H;
      eapply (match_str_sound f); [|exact H]; repeat constructor
  | |- _ => intros []; vm_compute; reflexivity
  end.

Lemma code_str_inj `{StableCode T E} x y : code_str x = code_str y → x = y.
Proof. intros Hxy. pose proof (code_parse_str x). rewrite Hxy, code_parse_str in *. congruence. Qed.

(** ** States and events *)

Inductive OperationState :=
| Queued | Validating | Running | WaitingRemote | Verifying
| Succeeded | Failed | Unknown | Cancelled.

#[export] Instance OperationState_eq_dec : EqDecision OperationState.
Proof. solve_decision. Defined.

Definition OperationState_as_str (s : OperationState) : str :=
  match s with
  | Queued => lit "queued"
  | Validating => lit "validating"
  | Running => lit "running"
  | WaitingRemote => lit "waiting-remote"
  | Verifying => lit "verifying"
  | Succeeded => lit "succeeded"
  | Failed => lit "failed"
  | Unknown => lit "unknown"
  | Cancelled => lit "cancelled"
  end.

Inductive OperationStateParseError := OperationStateParseErr.

Definition OperationState_from_str (value : str)
    : result OperationState OperationStateParseError :=
  ok_or (match_str value
    [("queued", Queued); ("validating", Validating); ("running", Running);
     ("waiting-remote", WaitingRemote); ("verifying", Verifying);
     ("succeeded", Succeeded); ("failed", Failed); ("unknown", Unknown);
     ("cancelled", Cancelled)]%string) OperationStateParseErr.

#[export, refine] Instance OperationState_code : StableCode OperationState OperationStateParseError :=
  { code_str := OperationState_as_str; code_parse := OperationState_from_str }.
Proof. all: unfold OperationState_from_str; solve_code. Defined.

Definition is_terminal (s : OperationState) : bool :=
  match s with
  | Succeeded | Failed | Unknown | Cancelled => true
  | _ => false
  end.

Definition is_active (s : OperationState) : bool :=
  match s with
  | Queued | Validating | Running | WaitingRemote | Verifying => true
  | _ => false
  end.

Inductive OperationEvent :=
| EvValidationStarted | EvValidationPassed | EvExecutionAccepted
| EvRemoteTaskStarted | EvRemoteTaskCompleted | EvVerificationPassed
| EvFailed | EvCancellationRequested | EvOutcomeUnknown.

#[export] Instance OperationEvent_eq_dec : EqDecision OperationEvent.
Proof. solve_decision. Defined.

Definition OperationEvent_as_str (e : OperationEvent) : str :=
  match e with
  | EvValidationStarted => lit "validation-started"
  | EvValidationPassed => lit "validation-passed"
  | EvExecutionAccepted => lit "execution-accepted"
  | EvRemoteTaskStarted => lit "remote-task-started"
  | EvRemoteTaskCompleted => lit "remote-task-completed"
  | EvVerificationPassed => lit "verification-passed"
  | EvFailed => lit "failed"
  | EvCancellationRequested => lit "cancellation-requested"
  | EvOutcomeUnknown => lit "outcome-unknown"
  end.

Record InvalidTransition := mk_invalid_transition {
  it_from : OperationState;
  it_event : OperationEvent;
}.

#[export] Instance InvalidTransition_eq_dec : EqDecision InvalidTransition.
Proof. solve_decision. Defined.

Definition invalid_transition (current : OperationState) (event : OperationEvent)
    : InvalidTransition :=
  {| it_from := current; it_event := event |}.

(** The transition matrix, arm for arm. *)
Definition transition (current : OperationState) (event : OperationEvent)
    : result OperationState InvalidTransition :=
  match current with
  | Queued =>
      match event with
      | EvValidationStarted => Ok Validating
      | EvFailed => Ok Failed
      | EvCancellationRequested => Ok Cancelled
      | EvValidationPassed | EvExecutionAccepted | EvRemoteTaskStarted
      | EvRemoteTaskCompleted | EvVerificationPassed | EvOutcomeUnknown =>
          Err (invalid_transition current event)
      end
  | Validating =>
      match event with
      | EvValidationPassed => Ok Running
      | EvFailed => Ok Failed
      | EvCancellationRequested => Ok Cancelled
      | EvValidationStarted | EvExecutionAccepted | EvRemoteTaskStarted
      | EvRemoteTaskCompleted | EvVerificationPassed | EvOutcomeUnknown =>
          Err (invalid_transition current event)
      end
  | Running =>
      match event with
      | EvExecutionAccepted => Ok Verifying
      | EvRemoteTaskStarted => Ok WaitingRemote
      | EvFailed => Ok Failed
      | EvCancellationRequested => Ok Cancelled
      | EvOutcomeUnknown => Ok Unknown
      | EvValidationStarted | EvValidationPassed | EvRemoteTaskCompleted
      | EvVerificationPassed => Err (invalid_transition current event)
      end
  | WaitingRemote =>
      match event with
      | EvRemoteTaskCompleted => Ok Verifying
      | EvFailed => Ok Failed
      | EvCancellationRequested => Ok Cancelled
      | EvOutcomeUnknown => Ok Unknown
      | EvValidationStarted | EvValidationPassed | EvExecutionAccepted
      | EvRemoteTaskStarted | EvVerificationPassed =>
          Err (invalid_transition current event)
      end
  | Verifying =>
      match event with
      | EvVerificationPassed => Ok Succeeded
      | EvFailed => Ok Failed
      | EvOutcomeUnknown => Ok Unknown
      | EvValidationStarted | EvValidationPassed | EvExecutionAccepted
      | EvRemoteTaskStarted | EvRemoteTaskCompleted | EvCancellationRequested =>
          Err (invalid_transition current event)
      end
  | Succeeded | Failed | Unknown | Cancelled => Err (invalid_transition current event)
  end.

(** ** The source of an operation *)

Inductive OperationSource := SourceStandalone | SourceSite | SourceCenter.

#[export] Instance OperationSource_eq_dec : EqDecision OperationSource.
Proof. solve_decision. Defined.

Definition OperationSource_as_str (s : OperationSource) : str :=
  match s with
  | SourceStandalone => lit "standalone"
  | SourceSite => lit "site"
  | SourceCenter => lit "center"
  end.

Inductive OperationSourceParseError := OperationSourceParseErr.

Definition OperationSource_from_str (value : str)
    : result OperationSource OperationSourceParseError :=
  ok_or (match_str value
    [("standalone", SourceStandalone); ("site", SourceSite); ("center", SourceCenter)]%string)
    OperationSourceParseErr.

#[export, refine] Instance OperationSource_code : StableCode OperationSource OperationSourceParseError :=
  { code_str := OperationSource_as_str; code_parse := OperationSource_from_str }.
Proof. all: unfold OperationSource_from_str; solve_code. Defined.

(** ** The operation record *)

Abbreviation OperationId := Uuid.
Abbreviation TargetId := Uuid.
Abbreviation EndpointId := Uuid.

Record OperationTarget := mk_operation_target {
  target_id : TargetId;
  endpoint_id : EndpointId;
}.

#[export] Instance OperationTarget_eq_dec : EqDecision OperationTarget.
Proof. solve_decision. Defined.

Inductive OperationTimelineError := OperationTimelineErr.

(** The lifecycle never looks inside the command an operation carries, so the
    record is polymorphic in it. *)
Record Operation (Command : Type) := mk_operation {
  op_id : OperationId;
  op_source : OperationSource;
  op_targets : list OperationTarget;
  op_command : Command;
  op_state : OperationState;
  op_created_at : OffsetDateTime;
  op_updated_at : OffsetDateTime;
}.
Arguments mk_operation {Command}.
Arguments op_id {Command}.
Arguments op_source {Command}.
Arguments op_targets {Command}.
Arguments op_command {Command}.
Arguments op_state {Command}.
Arguments op_created_at {Command}.
Arguments op_updated_at {Command}.

#[export] Instance Operation_eq_dec {Command} `{EqDecision Command} :
  EqDecision (Operation Command).
Proof. solve_decision. Defined.

Section operation.
Context {Command : Type}.
Implicit Types (o : Operation Command).

(** [Operation::new]. *)
Definition Operation_new (id : OperationId) (source : OperationSource)
    (targets : list OperationTarget) (command : Command)
    (created_at : OffsetDateTime) : Operation Command :=
  {| op_id := id; op_source := source; op_targets := targets; op_command := command;
     op_state := Queued; op_created_at := created_at; op_updated_at := created_at |}.

(** [Operation::try_from_parts]. *)
Definition Operation_try_from_parts (id : OperationId) (source : OperationSource)
    (targets : list OperationTarget) (command : Command) (state : OperationState)
    (created_at updated_at : OffsetDateTime)
    : result (Operation Command) OperationTimelineError :=
  if decide (updated_at < created_at)%Z then Err OperationTimelineErr
  else Ok {| op_id := id; op_source := source; op_targets := targets;
             op_command := command; op_state := state; op_created_at := created_at;
             op_updated_at := updated_at |}.

(** The record with its state and update time replaced, the only fields an
    operation ever changes. *)
Definition set_state (o : Operation Command) (s : OperationState) (now : OffsetDateTime)
    : Operation Command :=
  {| op_id := op_id o; op_source := op_source o; op_targets := op_targets o;
     op_command := op_command o; op_state := s; op_created_at := op_created_at o;
     op_updated_at := now |}.

(** [Operation::apply] on [&mut self]: the mutated record and the verdict. *)
Definition Operation_apply (o : Operation Command) (event : OperationEvent)
    (now : OffsetDateTime) : Operation Command * result () InvalidTransition :=
  match transition (op_state o) event with
  | Err e => (o, Err e)
  | Ok s => (set_state o s now, Ok ())
  end.

Definition op_is_terminal (o : Operation Command) : bool := is_terminal (op_state o).

(** A record persistence can hold: its update never precedes its creation. *)
Definition timeline_ok o : Prop := (op_created_at o ≤ op_updated_at o)%Z.
End operation.

(** ** Failure kinds and batches *)

Inductive FailureKind := CapabilityUnsupported.

#[export] Instance FailureKind_eq_dec : EqDecision FailureKind.
Proof. solve_decision. Defined.

Definition FailureKind_as_str (k : FailureKind) : str :=
  match k with CapabilityUnsupported => lit "capability-unsupported" end.

Inductive FailureKindParseError := FailureKindParseErr.

Definition FailureKind_from_str (value : str) : result FailureKind FailureKindParseError :=
  ok_or (match_str value [("capability-unsupported", CapabilityUnsupported)]%string)
    FailureKindParseErr.

#[export, refine] Instance FailureKind_code : StableCode FailureKind FailureKindParseError :=
  { code_str := FailureKind_as_str; code_parse := FailureKind_from_str }.
Proof. all: unfold FailureKind_from_str; solve_code. Defined.

Abbreviation BatchOperationId := Uuid.

Record BatchOperation (Command : Type) := mk_batch_operation {
  batch_id : BatchOperationId;
  batch_source : OperationSource;
  batch_command : Command;
  batch_created_at : OffsetDateTime;
}.
Arguments mk_batch_operation {Command}.
Arguments batch_id {Command}.
Arguments batch_source {Command}.
Arguments batch_command {Command}.
Arguments batch_created_at {Command}.

Inductive BatchOperationState :=
| BatchQueued | BatchRunning | BatchSucceeded | BatchFailed | BatchUnknown | BatchCancelled.

#[export] Instance BatchOperationState_eq_dec : EqDecision BatchOperationState.
Proof. solve_decision. Defined.

Definition BatchOperationState_as_str (s : BatchOperationState) : str :=
  match s with
  | BatchQueued => lit "queued"
  | BatchRunning => lit "running"
  | BatchSucceeded => lit "succeeded"
  | BatchFailed => lit "failed"
  | BatchUnknown => lit "unknown"
  | BatchCancelled => lit "cancelled"
  end.

(** [derive_batch_state]: the tests in the order the code makes them. *)
Definition derive_batch_state (children : list OperationState) : BatchOperationState :=
  if forallb (λ s, bool_decide (s = Queued)) children then BatchQueued
  else if existsb (λ s, negb (is_terminal s)) children then BatchRunning
  else if forallb (λ s, bool_decide (s = Succeeded)) children then BatchSucceeded
  else if forallb (λ s, bool_decide (s = Cancelled)) children then BatchCancelled
  else if bool_decide (Failed ∈ children) then BatchFailed
  else BatchUnknown.

Record OperationOutcome := mk_operation_outcome {
  outcome_state : OperationState;
  outcome_failure_kind : option FailureKind;
}.

(** The counters are [usize]; none exceeds the length of the outcome slice. *)
Record BatchOutcomeCounts := mk_counts {
  succeeded : nat;
  failed : nat;
  unknown : nat;
  unsupported : nat;
  cancelled : nat;
  total : nat;
}.

(** One iteration of the loop of [summarize]. *)
Definition count_outcome (counts : BatchOutcomeCounts) (outcome : OperationOutcome)
    : BatchOutcomeCounts :=
  let '(mk_counts s f u n c t) := counts in
  match outcome_state outcome with
  | Succeeded => mk_counts (S s) f u n c t
  | Failed =>
      match outcome_failure_kind outcome with
      | Some CapabilityUnsupported => mk_counts s f u (S n) c t
      | None => mk_counts s (S f) u n c t
      end
  | Unknown => mk_counts s f (S u) n c t
  | Cancelled => mk_counts s f u n (S c) t
  | Queued | Validating | Running | WaitingRemote | Verifying => counts
  end.

Definition summarize (outcomes : list OperationOutcome) : BatchOutcomeCounts :=
  foldl count_outcome (mk_counts 0 0 0 0 0 (length outcomes)) outcomes.

(** ** The lifecycle *)

Lemma transition_err s e err : transition s e = Err err → err = invalid_transition s e.
Proof. destruct s, e; simpl; congruence. Qed.

(** The position of a state in the lifecycle: every step moves it forward. *)
Definition rank (s : OperationState) : nat :=
  match s with
  | Queued => 0 | Validating => 1 | Running => 2 | WaitingRemote => 3 | Verifying => 4
  | Succeeded | Failed | Unknown | Cancelled => 5
  end.

Lemma transition_rank s e s' : transition s e = Ok s' → rank s < rank s'.
Proof. destruct s, e; simpl; intros [= <-]; simpl; lia. Qed.

Lemma rank_bound s : rank s ≤ 5.
Proof. destruct s; simpl; lia. Qed.

Lemma transition_terminal s e : is_terminal s = true → transition s e = Err (invalid_transition s e).
Proof. by destruct s. Qed.

Lemma transition_active s e s' : transition s e = Ok s' → is_terminal s = false.
Proof. by destruct s, e. Qed.

Lemma active_not_terminal s : is_active s = negb (is_terminal s).
Proof. by destruct s. Qed.

(** Unfolds a run one event at a time, closing the refused branches; at most
    [n] events. *)
Ltac unfold_run n H es :=
  lazymatch n with
  | O => idtac
  | S ?n =>
      let e := fresh "e" in
      destruct es as [|e es]; simpl in H;
      [try discriminate H | destruct e; simpl in H; try discriminate H; unfold_run n H es]
  end.

Lemma run_terminal s es s' :
  is_terminal s = true → run transition s es = Ok s' → es = [] ∧ s' = s.
Proof.
  intros Hs Hrun. destruct es as [|e es]; simpl in Hrun; [by injection Hrun as <-|].
  by rewrite transition_terminal in Hrun.
Qed.

(** The events of a synchronous and of an asynchronous success. *)
Definition synchronous_success : list OperationEvent :=
  [EvValidationStarted; EvValidationPassed; EvExecutionAccepted; EvVerificationPassed].
Definition asynchronous_success : list OperationEvent :=
  [EvValidationStarted; EvValidationPassed; EvRemoteTaskStarted; EvRemoteTaskCompleted;
   EvVerificationPassed].

(** An operation ends [Succeeded] along exactly two event
    sequences: the synchronous one and the asynchronous one.  No success skips
    validation, dispatch or verification. *)
Theorem success_paths es :
  run transition Queued es = Ok Succeeded ↔
  es = synchronous_success ∨ es = asynchronous_success.
Proof.
  split; [|by intros [-> | ->]].
  intros H. unfold_run 6 H es; (by left) || by right.
Qed.

(** The events of the write having landed: past them the operation can no longer
    be recorded as cancelled. *)
Definition write_landed (e : OperationEvent) : bool :=
  match e with EvExecutionAccepted | EvRemoteTaskCompleted => true | _ => false end.

(** A cancelled operation was cancelled by its last event, and no
    event before it reported that the write had landed; an operation whose write
    landed is never recorded as cancelled. *)
Theorem cancelled_before_landing es :
  run transition Queued es = Ok Cancelled →
  ∃ es', es = es' ++ [EvCancellationRequested] ∧ forallb (λ e, negb (write_landed e)) es = true.
Proof.
  intros H.
  unfold_run 6 H es; (by exists []) || (by exists [EvValidationStarted])
    || (by exists [EvValidationStarted; EvValidationPassed])
    || by exists [EvValidationStarted; EvValidationPassed; EvRemoteTaskStarted].
Qed.

Lemma cancelled_before_landing_witness :
  run transition Queued [EvValidationStarted; EvValidationPassed; EvCancellationRequested]
    = Ok Cancelled ∧
  ∃ es', [EvValidationStarted; EvValidationPassed; EvCancellationRequested]
           = es' ++ [EvCancellationRequested] ∧
         forallb (λ e, negb (write_landed e))
           [EvValidationStarted; EvValidationPassed; EvCancellationRequested] = true.
Proof. split; [reflexivity|]. apply cancelled_before_landing. reflexivity. Defined.

(** The explicit unknown outcome is only recorded after the dispatch began: an
    operation that never left pre-flight validation has a provable outcome. *)
Lemma unknown_after_dispatch es :
  run transition Queued es = Ok Unknown →
  ∃ es', es = EvValidationStarted :: EvValidationPassed :: es'.
Proof.
  intros H. unfold_run 2 H es.
  all: try (apply run_terminal in H as [_ ?]; done). by eexists.
Qed.

(** C39: The lifecycle terminates: no operation accepts more than five
    events, a state is refused every event exactly when it is terminal, and a
    refusal names the state and the event. *)
Theorem lifecycle_terminates :
  (∀ es s, run transition Queued es = Ok s → length es ≤ 5) ∧
  (∀ s, is_terminal s = true ↔ ∀ e, transition s e = Err (invalid_transition s e)) ∧
  (∀ s e err, transition s e = Err err → it_from err = s ∧ it_event err = e).
Proof.
  split; [|split].
  - intros es s H. apply (run_measure transition rank transition_rank) in H.
    pose proof (rank_bound s). simpl in H. lia.
  - intros s. split; [intros; by apply transition_terminal|].
    intros H. specialize (H EvFailed). by destruct s.
  - intros s e err H. by rewrite (transition_err s e err).
Qed.

(** ** The operation record *)

Lemma set_state_timeline {Command} (o : Operation Command) s now :
  timeline_ok o → (op_updated_at o ≤ now)%Z → timeline_ok (set_state o s now).
Proof. unfold timeline_ok. simpl. lia. Qed.

(** Applying an event either advances exactly the state and the
    update time, to the state of the transition matrix and to the caller's
    clock, or leaves the whole record unchanged and reports the rejected step. *)
Theorem apply_spec {Command} (o : Operation Command) event now :
  match transition (op_state o) event with
  | Ok s => Operation_apply o event now = (set_state o s now, Ok ())
  | Err e => Operation_apply o event now = (o, Err e) ∧ e = invalid_transition (op_state o) event
  end.
Proof.
  unfold Operation_apply. destruct (transition _ _) eqn:H; [done|].
  split; [done | by apply transition_err].
Qed.

(** Under a clock that never moves backwards every record the
    lifecycle reaches is accepted back by the rehydration constructor, as the
    same record. *)
Theorem rehydrate_roundtrip {Command} (o o' : Operation Command) event now :
  timeline_ok o → (op_updated_at o ≤ now)%Z →
  Operation_apply o event now = (o', Ok ()) →
  Operation_try_from_parts (op_id o') (op_source o') (op_targets o') (op_command o')
    (op_state o') (op_created_at o') (op_updated_at o') = Ok o' ∧ timeline_ok o'.
Proof.
  intros Ht Hnow Ha. unfold Operation_apply in Ha.
  destruct (transition (op_state o) event) as [s|]; [|done]. injection Ha as <-.
  pose proof (set_state_timeline o s now Ht Hnow) as Ht'.
  split; [|done]. unfold Operation_try_from_parts, timeline_ok in *.
  case_decide; [lia|]. done.
Qed.

Lemma rehydrate_roundtrip_witness :
  let o := Operation_new 7%N SourceSite [mk_operation_target 1 2] tt 100 in
  let o' := set_state o Validating 105 in
  Operation_apply o EvValidationStarted 105 = (o', Ok ()) ∧
  (Operation_try_from_parts (op_id o') (op_source o') (op_targets o') (op_command o')
    (op_state o') (op_created_at o') (op_updated_at o') = Ok o' ∧ timeline_ok o').
Proof.
  intros o o'. split; [reflexivity|].
  apply (rehydrate_roundtrip o o' EvValidationStarted 105); [| |reflexivity];
    unfold timeline_ok; simpl; lia.
Defined.

(** ** Batches *)

Lemma forallb_bool_decide {A} `{EqDecision A} (x : A) l :
  forallb (λ y, bool_decide (y = x)) l = true ↔ ∀ y, y ∈ l → y = x.
Proof.
  rewrite forallb_forall. setoid_rewrite list_elem_of_In.
  setoid_rewrite bool_decide_eq_true. done.
Qed.

Lemma existsb_active l :
  existsb (λ s, negb (is_terminal s)) l = true ↔ ∃ s, s ∈ l ∧ is_terminal s = false.
Proof.
  rewrite existsb_exists. setoid_rewrite list_elem_of_In.
  by setoid_rewrite negb_true_iff.
Qed.

(** What each derived state says of the children. *)
Definition batch_state_spec (children : list OperationState) (b : BatchOperationState) : Prop :=
  let all s := children ≠ [] ∧ (∀ c, c ∈ children → c = s) in
  let finished := ∀ c, c ∈ children → is_terminal c = true in
  match b with
  | BatchQueued => children = [] ∨ all Queued
  | BatchRunning => (∃ c, c ∈ children ∧ is_terminal c = false) ∧ ∃ c, c ∈ children ∧ c ≠ Queued
  | BatchSucceeded => all Succeeded
  | BatchCancelled => all Cancelled
  | BatchFailed => finished ∧ Failed ∈ children
  | BatchUnknown =>
      children ≠ [] ∧ finished ∧ Failed ∉ children ∧
      (∃ c, c ∈ children ∧ c ≠ Succeeded) ∧ ∃ c, c ∈ children ∧ c ≠ Cancelled
  end.

Lemma not_all_elem {A} `{EqDecision A} (x : A) l :
  forallb (λ y, bool_decide (y = x)) l = false → ∃ y, y ∈ l ∧ y ≠ x.
Proof.
  induction l as [|y l IH]; simpl; [done|].
  destruct (decide (y = x)) as [->|Hne].
  - rewrite bool_decide_true by done. simpl. intros (z & ? & ?)%IH. exists z. by rewrite elem_of_cons; auto.
  - intros _. exists y. by rewrite elem_of_cons; auto.
Qed.

Lemma derive_batch_state_sound children :
  batch_state_spec children (derive_batch_state children).
Proof.
  unfold derive_batch_state.
  destruct (forallb _ children) eqn:Hq.
  { rewrite forallb_bool_decide in Hq. destruct children; [by left | by right]. }
  assert (children ≠ []) as Hne by (by intros ->).
  apply not_all_elem in Hq as (q & Hq & Hqne).
  destruct (existsb _ children) eqn:Ha; [rewrite existsb_active in Ha; simpl; eauto|].
  assert (∀ c, c ∈ children → is_terminal c = true) as Hfin.
  { intros c Hc. apply not_false_iff_true. intros Hf.
    apply not_true_iff_false in Ha. apply Ha, existsb_active; eauto. }
  destruct (forallb (λ s, bool_decide (s = Succeeded)) children) eqn:Hs.
  { rewrite forallb_bool_decide in Hs. done. }
  destruct (forallb (λ s, bool_decide (s = Cancelled)) children) eqn:Hc.
  { rewrite forallb_bool_decide in Hc. done. }
  apply not_all_elem in Hs, Hc. case_bool_decide; simpl; auto.
Qed.

(** Instantiates every statement about all children at each known child. *)
Ltac saturate_children :=
  repeat match goal with
  | Hall : ∀ c, c ∈ ?l → _, Hx : ?x ∈ ?l |- _ =>
      let P := type of (Hall x Hx) in
      lazymatch goal with _ : P |- _ => fail | _ => pose proof (Hall x Hx) end
  end.

Lemma batch_state_spec_functional children b1 b2 :
  batch_state_spec children b1 → batch_state_spec children b2 → b1 = b2.
Proof.
  destruct children as [|c children].
  { destruct b1, b2; simpl; set_solver. }
  intros H1 H2. assert (c ∈ c :: children) as Hc by (by constructor).
  destruct b1, b2; simpl in *; try done; destruct_and?; destruct_or?; destruct_and?;
    repeat match goal with H : ∃ _, _ |- _ => destruct H as (? & ? & ?) end;
    try done; exfalso; saturate_children; simplify_eq/=; congruence.
Qed.

(** The derived batch state is exactly the one the children determine,
    for every child list: a batch is [Succeeded] only when every child is (a
    partial failure never becomes an overall success), still running while any
    child is, and [Unknown] only when no child failed. *)
Theorem derive_batch_state_iff children b :
  derive_batch_state children = b ↔ batch_state_spec children b.
Proof.
  pose proof (derive_batch_state_sound children) as Hs. split.
  - by intros <-.
  - intros Hb. by eapply batch_state_spec_functional.
Qed.

#[export] Instance batch_state_spec_perm :
  Proper ((≡ₚ) ==> (=) ==> iff) batch_state_spec.
Proof.
  intros l1 l2 Hp b ? <-.
  assert (l1 = [] ↔ l2 = []) as Hnil.
  { split; intros ->; [symmetry; by apply Permutation_nil_l | by apply Permutation_nil_r]. }
  destruct b; simpl; rewrite ?Hnil; repeat setoid_rewrite Hp; done.
Qed.

(** The batch state does not depend on the order of the children. *)
Lemma derive_batch_state_perm l1 l2 :
  l1 ≡ₚ l2 → derive_batch_state l1 = derive_batch_state l2.
Proof.
  intros Hp. apply derive_batch_state_iff. rewrite Hp. by apply derive_batch_state_iff.
Qed.

(** The number of outcomes in one bucket. *)
Definition bucket (p : OperationOutcome → bool) (outcomes : list OperationOutcome) : nat :=
  length (List.filter p outcomes).

Definition in_state (s : OperationState) (o : OperationOutcome) : bool :=
  bool_decide (outcome_state o = s).
Definition is_unsupported (o : OperationOutcome) : bool :=
  in_state Failed o && bool_decide (outcome_failure_kind o = Some CapabilityUnsupported).
Definition is_plain_failure (o : OperationOutcome) : bool :=
  in_state Failed o && bool_decide (outcome_failure_kind o = None).
Definition is_in_flight (o : OperationOutcome) : bool := is_active (outcome_state o).

Lemma bucket_cons p o outcomes :
  bucket p (o :: outcomes) = (if p o then 1 else 0) + bucket p outcomes.
Proof. unfold bucket. simpl. by destruct (p o). Qed.

Lemma bucket_nil p : bucket p [] = 0.
Proof. done. Qed.

Lemma bucket_full p outcomes :
  bucket p outcomes = length outcomes ↔ ∀ o, o ∈ outcomes → p o = true.
Proof.
  induction outcomes as [|o outcomes IH]; [set_solver|]. rewrite bucket_cons; simpl.
  pose proof (List.filter_length_le p outcomes) as Hle. fold (bucket p outcomes) in Hle.
  setoid_rewrite elem_of_cons. destruct (p o) eqn:Hp; simpl.
  - rewrite Nat.succ_inj_wd, IH. naive_solver.
  - split; [lia|]. intros H'. by rewrite (H' o (or_introl eq_refl)) in Hp.
Qed.

#[local] Opaque bucket.
#[local] Hint Rewrite bucket_cons bucket_nil : bucket.

(** Computes the bucket of a concrete head outcome. *)
#[local] Arguments in_state _ !_ /.
#[local] Arguments is_unsupported !_ /.
#[local] Arguments is_plain_failure !_ /.
#[local] Arguments is_in_flight !_ /.
Ltac compute_bucket := autorewrite with bucket; simpl.

Lemma summarize_from outcomes s f u n c t :
  foldl count_outcome (mk_counts s f u n c t) outcomes =
  mk_counts (bucket (in_state Succeeded) outcomes + s) (bucket is_plain_failure outcomes + f)
    (bucket (in_state Unknown) outcomes + u) (bucket is_unsupported outcomes + n)
    (bucket (in_state Cancelled) outcomes + c) t.
Proof.
  revert s f u n c. induction outcomes as [|[st k] outcomes IH]; intros; [done|].
  destruct st, k as [[]|]; cbn [foldl]; simpl; rewrite IH; compute_bucket; f_equal; lia.
Qed.

Lemma summarize_buckets outcomes :
  summarize outcomes =
  mk_counts (bucket (in_state Succeeded) outcomes) (bucket is_plain_failure outcomes)
    (bucket (in_state Unknown) outcomes) (bucket is_unsupported outcomes)
    (bucket (in_state Cancelled) outcomes) (length outcomes).
Proof. unfold summarize. rewrite summarize_from. f_equal; lia. Qed.

Lemma bucket_partition outcomes :
  bucket (in_state Succeeded) outcomes + bucket is_plain_failure outcomes
  + bucket (in_state Unknown) outcomes + bucket is_unsupported outcomes
  + bucket (in_state Cancelled) outcomes + bucket is_in_flight outcomes = length outcomes.
Proof.
  induction outcomes as [|[st k] outcomes IH]; [done|].
  destruct st, k as [[]|]; compute_bucket; lia.
Qed.

(** The outcome counts put every outcome in exactly one bucket, and
    agree with the derived batch state: the batch succeeded exactly when the
    report counts every target as succeeded, was cancelled exactly when it counts
    every target as cancelled, and is queued or running exactly when some target
    is in no bucket. *)
Theorem summarize_agrees outcomes :
  let counts := summarize outcomes in
  let settled := succeeded counts + failed counts + unknown counts
                 + unsupported counts + cancelled counts in
  let state := derive_batch_state (outcome_state <$> outcomes) in
  outcomes ≠ [] →
  total counts = length outcomes ∧ settled + bucket is_in_flight outcomes = total counts ∧
  (state = BatchSucceeded ↔ succeeded counts = total counts) ∧
  (state = BatchCancelled ↔ cancelled counts = total counts) ∧
  ((state = BatchQueued ∨ state = BatchRunning) ↔ settled < total counts).
Proof.
  intros counts settled state Hne. subst counts settled state.
  rewrite summarize_buckets; simpl. pose proof (bucket_partition outcomes) as Hpart.
  assert (outcome_state <$> outcomes ≠ []) as Hne' by (by destruct outcomes).
  split; [done|]. split; [lia|].
  assert (∀ s, bucket (in_state s) outcomes = length outcomes ↔
    ∀ c, c ∈ outcome_state <$> outcomes → c = s) as Hfull.
  { intros s. rewrite bucket_full. setoid_rewrite list_elem_of_fmap.
    unfold in_state. setoid_rewrite bool_decide_eq_true. naive_solver. }
  rewrite !derive_batch_state_iff, !Hfull; simpl.
  split; [tauto|]. split; [tauto|].
  assert (bucket is_in_flight outcomes = 0 ↔
    ∀ c, c ∈ outcome_state <$> outcomes → is_terminal c = true) as Hzero.
  { clear. induction outcomes as [|[st k] os IH]; simpl; [set_solver|].
    setoid_rewrite elem_of_cons. destruct st; compute_bucket; rewrite ?IH; try naive_solver;
      split; try lia; intros H; by specialize (H _ (or_introl eq_refl)). }
  split.
  - intros [[Hq|[_ Hq]]|[(c & Hc & Ht) _]]; [done|..].
    all: assert (bucket is_in_flight outcomes ≠ 0) as ?; [|lia].
    + rewrite Hzero. intros Hall. destruct (outcome_state <$> outcomes) as [|c l]; [done|].
      assert (c ∈ c :: l) as Hc by (by constructor).
      specialize (Hall c Hc). by rewrite (Hq c Hc) in Hall.
    + rewrite Hzero. intros Hall. by rewrite (Hall c Hc) in Ht.
  - intros Hlt.
    destruct (derive_batch_state (outcome_state <$> outcomes)) eqn:Hd;
      apply derive_batch_state_iff in Hd; simpl in Hd; [by left | by right|..];
      exfalso; assert (bucket is_in_flight outcomes = 0) by
        (apply Hzero; destruct_and?; naive_solver); lia.
Qed.

Lemma summarize_agrees_witness :
  let os := [mk_operation_outcome Succeeded None;
             mk_operation_outcome Failed (Some CapabilityUnsupported);
             mk_operation_outcome Running None] in
  os ≠ [] ∧ total (summarize os) = 3 ∧ 2 + bucket is_in_flight os = 3.
Proof.
  intros os. assert (os ≠ []) as Hne by done. split; [done|].
  destruct (summarize_agrees os Hne) as (Ht & Hs & _).
  split; [exact Ht | exact Hs].
Defined.
