(* ===== verification/OperationEngine.v ===== *)
(** * OperationEngine: the engine over the operation store

    Models [operation-engine/src/operation_store.rs] (the store contract, as a
    class of operations with its laws) and
    [operation-engine/src/operation_engine.rs] (creation, the plain and the
    compare-and-set step, listing, batches, the recovery scan).  The second half
    interleaves concurrent drivers, each the read and the write of one engine
    step, over one table of rows. *)
From S2P Require Import Prelude Text Operation.

(** ** The contract of the store *)

(** What a store holds, abstractly. *)
Record View (Command : Type) := mk_view {
  v_operations : gmap OperationId (Operation Command);
  v_kinds : gmap OperationId FailureKind;
  v_batches : gmap BatchOperationId (BatchOperation Command);
  v_batch_of : gmap OperationId BatchOperationId;
}.
Arguments mk_view {Command}.
Arguments v_operations {Command}.
Arguments v_kinds {Command}.
Arguments v_batches {Command}.
Arguments v_batch_of {Command}.

(** Target order: rows are read back with their targets by target id. *)
Definition target_le (l r : OperationTarget) : Prop := (target_id l ≤ target_id r)%N.

#[export] Instance target_le_dec : RelDecision target_le.
Proof. intros l r. unfold target_le. apply _. Defined.
#[export] Instance target_le_trans : Transitive target_le.
Proof. intros x y z. unfold target_le. lia. Qed.
#[export] Instance target_le_total : Total target_le.
Proof. intros x y. unfold target_le. lia. Qed.

Section contract.
Context {Command : Type}.
Implicit Types (v : View Command) (o : Operation Command).

(** An operation as a store gives it back. *)
Definition canonical o : Operation Command :=
  {| op_id := op_id o; op_source := op_source o;
     op_targets := merge_sort target_le (op_targets o);
     op_command := op_command o; op_state := op_state o;
     op_created_at := op_created_at o; op_updated_at := op_updated_at o |}.

Definition with_operations v (ops : gmap OperationId (Operation Command)) : View Command :=
  mk_view ops (v_kinds v) (v_batches v) (v_batch_of v).

(** Idempotent creation, alone or as the child of a batch: a known id never
    touches the stored row. *)
Definition view_create (b : option BatchOperationId) v o : View Command :=
  match v_operations v !! op_id o with
  | Some _ => v
  | None =>
      mk_view (<[op_id o := canonical o]> (v_operations v)) (v_kinds v) (v_batches v)
        (match b with
         | Some b => <[op_id o := b]> (v_batch_of v)
         | None => v_batch_of v
         end)
  end.

(** One state step: refused on an unknown id and on a terminal row. *)
Definition row_step (ops : gmap OperationId (Operation Command)) (id : OperationId)
    (new_state : OperationState) (at_ : OffsetDateTime)
    : option (gmap OperationId (Operation Command)) :=
  match ops !! id with
  | None => None
  | Some o =>
      if is_terminal (op_state o) then None
      else Some (<[id := set_state o new_state at_]> ops)
  end.

(** One compare-and-set step: refused, as well, unless the row still holds the
    expected state. *)
Definition row_step_if (ops : gmap OperationId (Operation Command)) (id : OperationId)
    (expected new_state : OperationState) (at_ : OffsetDateTime)
    : option (gmap OperationId (Operation Command)) :=
  match ops !! id with
  | None => None
  | Some o =>
      if decide (op_state o = expected) then row_step ops id new_state at_ else None
  end.

(** The rows a listing with the given filter returns. *)
Definition listed (filter_state : option OperationState) o : Prop :=
  match filter_state with None => True | Some s => op_state o = s end.

#[export] Instance listed_dec f o : Decision (listed f o).
Proof. destruct f; simpl; apply _. Defined.

(** The rows of a view. *)
Definition view_rows v : list (Operation Command) := (map_to_list (v_operations v)).*2.

Definition view_list v (f : option OperationState) : list (Operation Command) :=
  filter (listed f) (view_rows v).

(** Atomic, idempotent batch creation. *)
Definition view_create_batch v (b : BatchOperation Command)
    (children : list (Operation Command)) : View Command :=
  match v_batches v !! batch_id b with
  | Some _ => v
  | None =>
      foldl (view_create (Some (batch_id b)))
        (mk_view (v_operations v) (v_kinds v) (<[batch_id b := b]> (v_batches v))
           (v_batch_of v)) children
  end.

(** A step may be stamped with [at_] only from the row's creation on. *)
Definition stamp_ok v (id : OperationId) (at_ : OffsetDateTime) : Prop :=
  ∀ o, v_operations v !! id = Some o → (op_created_at o ≤ at_)%Z.
End contract.

(** The operations of the [OperationStore] trait, over a store [St] whose own
    failures are [E]. *)
Class OperationStore (Command St E : Type) := {
  store_create_operation : Operation Command → M St E ();
  store_find_operation : OperationId → M St E (option (Operation Command));
  store_apply_transition : OperationId → OperationState → OffsetDateTime → M St E ();
  store_apply_transition_if_current :
    OperationId → OperationState → OperationState → OffsetDateTime → M St E ();
  store_record_failure_kind : OperationId → FailureKind → M St E ();
  store_find_failure_kind : OperationId → M St E (option FailureKind);
  store_list_operations : option OperationState → M St E (list (Operation Command));
  store_create_batch : BatchOperation Command → list (Operation Command) → M St E ();
}.

(** What the trait promises of a store whose rows are all readable. *)
Class OperationStoreLaws (Command St E : Type) `{OperationStore Command St E} := {
  store_view : St → View Command;
  store_ok : St → Prop;
  law_create o s s' r :
    store_ok s → timeline_ok o → store_create_operation o s = (s', r) →
    writes store_view store_ok (λ v v', v' = view_create None v o) s s' r;
  law_find id s s' r :
    store_ok s → store_find_operation id s = (s', r) →
    reads store_view store_ok (λ v x, x = v_operations v !! id) s s' r;
  law_apply id new at_ s s' r :
    store_ok s → stamp_ok (store_view s) id at_ →
    store_apply_transition id new at_ s = (s', r) →
    writes store_view store_ok (λ v v', ∃ ops,
      row_step (v_operations v) id new at_ = Some ops ∧ v' = with_operations v ops) s s' r;
  law_apply_if id expected new at_ s s' r :
    store_ok s → stamp_ok (store_view s) id at_ →
    store_apply_transition_if_current id expected new at_ s = (s', r) →
    writes store_view store_ok (λ v v', ∃ ops,
      row_step_if (v_operations v) id expected new at_ = Some ops ∧
      v' = with_operations v ops) s s' r;
  law_record_kind id k s s' r :
    store_ok s → store_record_failure_kind id k s = (s', r) →
    writes store_view store_ok (λ v v', is_Some (v_operations v !! id) ∧
      v' = mk_view (v_operations v) (<[id := k]> (v_kinds v)) (v_batches v) (v_batch_of v))
      s s' r;
  law_find_kind id s s' r :
    store_ok s → store_find_failure_kind id s = (s', r) →
    reads store_view store_ok (λ v x, x = v_kinds v !! id) s s' r;
  law_list f s s' r :
    store_ok s → store_list_operations f s = (s', r) →
    reads store_view store_ok (λ v l, l ≡ₚ view_list v f) s s' r;
  law_create_batch b children s s' r :
    store_ok s → Forall timeline_ok children → store_create_batch b children s = (s', r) →
    writes store_view store_ok (λ v v', v' = view_create_batch v b children) s s' r;
}.

(** ** The engine *)

Definition RECOVERABLE_STATES : list OperationState :=
  [Validating; Running; WaitingRemote; Verifying].

Definition MAX_BATCH_TARGETS : nat := 128.

Inductive EngineError (E : Type) :=
| NotFound (id : OperationId)
| EmptyTargets
| TooManyTargets (limit : nat)
| EngineInvalidTransition (id : OperationId) (source : InvalidTransition)
| StateChanged (id : OperationId) (expected observed : OperationState)
| EngineStore (source : E).
Arguments NotFound {E}.
Arguments EmptyTargets {E}.
Arguments TooManyTargets {E}.
Arguments EngineInvalidTransition {E}.
Arguments StateChanged {E}.
Arguments EngineStore {E}.

(** The recovery order: creation time, then identity. *)
Definition acceptance_le {Command} (l r : Operation Command) : Prop :=
  (op_created_at l < op_created_at r)%Z ∨
  (op_created_at l = op_created_at r ∧ (op_id l ≤ op_id r)%N).

#[export] Instance acceptance_le_dec {Command} : RelDecision (@acceptance_le Command).
Proof. intros l r. unfold acceptance_le. apply _. Defined.

#[export] Instance acceptance_le_trans {Command} : Transitive (@acceptance_le Command).
Proof. intros x y z. unfold acceptance_le. lia. Qed.

#[export] Instance acceptance_le_total {Command} : Total (@acceptance_le Command).
Proof. intros x y. unfold acceptance_le. lia. Qed.

Section engine.
Context {Command St E : Type} `{OperationStore Command St E}.

(** [OperationEngine::create]; [fresh] is the generated id. *)
Definition engine_create (fresh : OperationId) (source : OperationSource)
    (targets : list OperationTarget) (command : Command) (now : OffsetDateTime)
    : M St (EngineError E) (Operation Command) :=
  if decide (targets = []) then mfail EmptyTargets
  else
    let operation := Operation_new fresh source targets command now in
    do! mmap_err EngineStore (store_create_operation operation) in
    mret operation.

(** The row the engine read, advanced by the domain; the verdicts of the two
    early returns of a step. *)
Definition advance (id : OperationId) (event : OperationEvent) (now : OffsetDateTime)
    (current : Operation Command) : result (Operation Command) (EngineError E) :=
  match Operation_apply current event now with
  | (current, Ok _) => Ok current
  | (_, Err source) => Err (EngineInvalidTransition id source)
  end.

(** [OperationEngine::apply]. *)
Definition engine_apply (id : OperationId) (event : OperationEvent) (now : OffsetDateTime)
    : M St (EngineError E) (Operation Command) :=
  let! found := mmap_err EngineStore (store_find_operation id) in
  let! current := mlift (ok_or found (NotFound id)) in
  let! current := mlift (advance id event now current) in
  do! mmap_err EngineStore (store_apply_transition id (op_state current) now) in
  mret current.

(** The conflict classification of [apply_if_current]: the persisted row is
    read again, and a row that no longer holds the expected state is the race. *)
Definition classify_conflict (id : OperationId) (expected : OperationState) (source : E)
    : M St (EngineError E) (Operation Command) :=
  let! found := mmap_err EngineStore (store_find_operation id) in
  match found with
  | Some row =>
      if decide (op_state row ≠ expected)
      then mfail (StateChanged id expected (op_state row))
      else mfail (EngineStore source)
  | None => mfail (EngineStore source)
  end.

(** The conditional write of [apply_if_current].  [interfere] is whatever other
    drivers do to the store between the read and this write. *)
Definition cas_commit (interfere : St → St) (id : OperationId) (expected : OperationState)
    (now : OffsetDateTime) (current : Operation Command)
    : M St (EngineError E) (Operation Command) :=
  λ s,
    match store_apply_transition_if_current id expected (op_state current) now (interfere s) with
    | (s, Ok _) => (s, Ok current)
    | (s, Err source) => classify_conflict id expected source s
    end.

(** [OperationEngine::apply_if_current]. *)
Definition engine_apply_if_current (interfere : St → St) (id : OperationId)
    (expected : OperationState) (event : OperationEvent) (now : OffsetDateTime)
    : M St (EngineError E) (Operation Command) :=
  let! found := mmap_err EngineStore (store_find_operation id) in
  let! current := mlift (ok_or found (NotFound id)) in
  if decide (op_state current ≠ expected)
  then mfail (StateChanged id expected (op_state current))
  else
    let! current := mlift (advance id event now current) in
    cas_commit interfere id expected now current.

(** [OperationEngine::list]. *)
Definition engine_list (f : option OperationState) : M St (EngineError E) (list (Operation Command)) :=
  mmap_err EngineStore (store_list_operations f).

(** [OperationEngine::create_batch]; [fresh] generates the ids, the batch's
    first. *)
Definition batch_children (fresh : nat → OperationId) (source : OperationSource)
    (targets : list OperationTarget) (command : Command) (now : OffsetDateTime)
    : list (Operation Command) :=
  imap (λ i target, Operation_new (fresh (S i)) source [target] command now) targets.

Definition engine_create_batch (fresh : nat → OperationId) (source : OperationSource)
    (targets : list OperationTarget) (command : Command) (now : OffsetDateTime)
    : M St (EngineError E) (BatchOperation Command * list (Operation Command)) :=
  if decide (targets = []) then mfail EmptyTargets
  else if decide (MAX_BATCH_TARGETS < length targets)
  then mfail (TooManyTargets MAX_BATCH_TARGETS)
  else
    let batch := mk_batch_operation (fresh 0) source command now in
    let children := batch_children fresh source targets (batch_command batch) now in
    do! mmap_err EngineStore (store_create_batch batch children) in
    mret (batch, children).

(** The loop of [recover_pending] over the recoverable states. *)
Fixpoint gather (states : list OperationState) (operations : list (Operation Command))
    : M St (EngineError E) (list (Operation Command)) :=
  match states with
  | [] => mret operations
  | state :: states =>
      let! l := mmap_err EngineStore (store_list_operations (Some state)) in
      gather states (operations ++ l)
  end.

(** [OperationEngine::recover_pending]. *)
Definition engine_recover_pending : M St (EngineError E) (list (Operation Command)) :=
  let! operations := gather RECOVERABLE_STATES [] in
  mret (merge_sort acceptance_le operations).
End engine.

(** ** The sequential contract of the engine *)

Section row_steps.
Context {Command : Type}.
Implicit Types (ops : gmap OperationId (Operation Command)).

Lemma row_step_Some ops id new at_ ops' :
  row_step ops id new at_ = Some ops' →
  ∃ o, ops !! id = Some o ∧ is_terminal (op_state o) = false ∧
       ops' = <[id := set_state o new at_]> ops.
Proof.
  unfold row_step. destruct (ops !! id) as [o|]; [|done].
  destruct (is_terminal (op_state o)) eqn:Ht; [done|]. intros [= <-]. eauto.
Qed.

Lemma row_step_if_Some ops id expected new at_ ops' :
  row_step_if ops id expected new at_ = Some ops' →
  ∃ o, ops !! id = Some o ∧ op_state o = expected ∧ is_terminal expected = false ∧
       ops' = <[id := set_state o new at_]> ops.
Proof.
  unfold row_step_if. destruct (ops !! id) as [o|] eqn:Ho; [|done].
  case_decide; [|done]. intros (o' & Ho' & Ht & ->)%row_step_Some. simplify_eq. eauto 6.
Qed.

Lemma advance_ok {E} id event now (o o' : Operation Command) :
  advance (E := E) id event now o = Ok o' →
  ∃ s, transition (op_state o) event = Ok s ∧ o' = set_state o s now.
Proof.
  unfold advance, Operation_apply. destruct (transition _ _) as [s|e]; [|done].
  intros [= <-]. eauto.
Qed.

Lemma advance_err {E} id event now (o : Operation Command) e :
  advance (E := E) id event now o = Err e → ∃ t, e = EngineInvalidTransition id t.
Proof.
  unfold advance, Operation_apply. destruct (transition _ _) as [s|t]; [done|].
  intros [= <-]. eauto.
Qed.
End row_steps.

Section engine_theorems.
Context {Command St E : Type} `{OperationStoreLaws Command St E}.
Implicit Types (s : St).

(** Reads the store laws off every store call of the context whose
    preconditions are at hand. *)
Ltac use_laws :=
  repeat match goal with
  | H : store_create_operation _ _ = (_, _) |- _ => apply law_create in H as [? H]; [|done..]
  | H : store_find_operation _ _ = (_, _) |- _ =>
      let Hv := fresh "Hv" in apply law_find in H as (? & Hv & H); [|done]
  | H : store_apply_transition _ _ _ _ = (_, _) |- _ =>
      apply law_apply in H as [? H]; [|done|congruence]
  | H : store_apply_transition_if_current _ _ _ _ _ = (_, _) |- _ =>
      apply law_apply_if in H as [? H]; [|done..]
  | H : store_list_operations _ _ = (_, _) |- _ =>
      let Hv := fresh "Hv" in apply law_list in H as (? & Hv & H); [|done]
  | H : ∀ x, Ok ?y = Ok x → _ |- _ => specialize (H _ eq_refl)
  | H : ∀ x, Err ?y = Ok x → _ |- _ => clear H
  end.

(** The store holds [view] with the row [o] advanced by [event] at [now]. *)
Definition stepped (view view' : View Command) (id : OperationId) (event : OperationEvent)
    (now : OffsetDateTime) (o' : Operation Command) : Prop :=
  ∃ o st, v_operations view !! id = Some o ∧ transition (op_state o) event = Ok st ∧
    o' = set_state o st now ∧
    view' = with_operations view (<[id := o']> (v_operations view)).

Lemma engine_apply_spec id event now s s' r :
  store_ok s → stamp_ok (store_view s) id now →
  engine_apply id event now s = (s', r) →
  store_ok s' ∧
  match r with
  | Ok o' => stepped (store_view s) (store_view s') id event now o'
  | Err _ => store_view s' = store_view s
  end.
Proof.
  unfold engine_apply. intros Hok Hst Hrun. inv_calls; use_laws; try done; inv_ok.
  - match goal with H : advance _ _ _ _ = Ok _ |- _ => apply advance_ok in H as (st & ? & ->) end.
    match goal with H : store_apply_transition _ _ _ _ = _ |- _ =>
      apply law_apply in H as [? (ops & Hops & ->)]; [|done|by rewrite Hv] end.
    split; [done|]. apply row_step_Some in Hops as (o & Ho & _ & ->).
    rewrite Hv in *. simplify_eq/=. eexists _, _. eauto.
  - match goal with H : store_apply_transition _ _ _ _ = _ |- _ =>
      apply law_apply in H as [? ?]; [|done|by rewrite Hv] end. split; [done | congruence].
Qed.

(** On any store that keeps its contract, the engine's step either
    persists exactly one legal transition of the stored row, stamped with the
    caller's time, and returns that row, or reports an error and leaves the
    store unchanged; either way every stored row stays readable. *)
Theorem engine_apply_correct id event now s s' r :
  store_ok s → stamp_ok (store_view s) id now →
  engine_apply id event now s = (s', r) →
  store_ok s' ∧
  match r with
  | Ok o' => stepped (store_view s) (store_view s') id event now o'
  | Err _ => store_view s' = store_view s
  end.
Proof. apply engine_apply_spec. Qed.

(** What other drivers may do between the read and the write of a step. *)
Definition harmless (id : OperationId) (now : OffsetDateTime) (interfere : St → St) : Prop :=
  ∀ s, store_ok s → stamp_ok (store_view s) id now →
    store_ok (interfere s) ∧ stamp_ok (store_view (interfere s)) id now.

Lemma classify_conflict_err id expected source s s' r :
  store_ok s → classify_conflict id expected source s = (s', r) →
  store_ok s' ∧ store_view s' = store_view s ∧ ∃ e, r = Err e ∧
    ∀ id' exp' obs, e = StateChanged id' exp' obs → exp' = expected ∧
      ∃ o, v_operations (store_view s) !! id = Some o ∧ op_state o = obs ∧ obs ≠ expected.
Proof.
  unfold classify_conflict. intros Hok Hrun. inv_calls; use_laws.
  - repeat case_match; inv_calls; use_laws; subst; (split; [done|split; [done|]]);
      eexists; (split; [done|]); intros ??? He; simplify_eq; eauto.
  - split; [done|split; [done|]]. eexists; (split; [done|]); intros; simplify_eq.
Qed.

Lemma cas_commit_inv interfere id expected now current s s' r :
  store_ok (interfere s) → stamp_ok (store_view (interfere s)) id now →
  cas_commit interfere id expected now current s = (s', r) →
  store_ok s' ∧
  match r with
  | Ok o' => o' = current ∧ ∃ o, v_operations (store_view (interfere s)) !! id = Some o ∧
      op_state o = expected ∧ is_terminal expected = false ∧
      store_view s' = with_operations (store_view (interfere s))
        (<[id := set_state o (op_state current) now]> (v_operations (store_view (interfere s))))
  | Err e => store_view s' = store_view (interfere s) ∧
      ∀ id' exp' obs, e = StateChanged id' exp' obs → exp' = expected ∧
        ∃ o, v_operations (store_view (interfere s)) !! id = Some o ∧
             op_state o = obs ∧ obs ≠ expected
  end.
Proof.
  unfold cas_commit. intros Hok Hst Hrun.
  destruct (store_apply_transition_if_current _ _ _ _ _) as [s1 [?|source]] eqn:Hcas; use_laws.
  - injection Hrun as <- <-. destruct Hcas as (ops & Hops & Hv). split; [done|].
    apply row_step_if_Some in Hops as (o & Ho & Hexp & Ht & ->). eauto 10.
  - apply classify_conflict_err in Hrun as (? & Hv & e & -> & He); [|done].
    rewrite Hcas in *. auto.
Qed.

Lemma engine_apply_if_current_spec interfere id expected event now s s' r :
  store_ok s → stamp_ok (store_view s) id now → harmless id now interfere →
  engine_apply_if_current interfere id expected event now s = (s', r) →
  store_ok s' ∧
  match r with
  | Ok o' => ∃ s1 st, store_view s1 = store_view s ∧
      transition expected event = Ok st ∧ op_state o' = st ∧
      ∃ o, v_operations (store_view (interfere s1)) !! id = Some o ∧
           op_state o = expected ∧ is_terminal expected = false ∧
           store_view s' = with_operations (store_view (interfere s1))
             (<[id := set_state o st now]> (v_operations (store_view (interfere s1))))
  | Err e => ∃ s1, store_view s1 = store_view s ∧
      (store_view s' = store_view s1 ∨ store_view s' = store_view (interfere s1)) ∧
      ∀ id' exp' obs, e = StateChanged id' exp' obs → exp' = expected ∧
        ∃ o, v_operations (store_view s') !! id = Some o ∧ op_state o = obs ∧ obs ≠ expected
  end.
Proof.
  unfold engine_apply_if_current. intros Hok Hst Hharm Hrun.
  inv_calls; use_laws; inv_ok; try (split; [done|]; exists s'; naive_solver).
  case_decide as Hexp; inv_calls.
  - split; [done|]. exists s'. rewrite Hv. naive_solver.
  - match goal with H : advance _ _ _ _ = Ok _ |- _ =>
      apply advance_ok in H as (st & Htr & ->) end.
    destruct (Hharm x0) as [Hok1 Hst1]; [done | by rewrite Hv |].
    apply cas_commit_inv in Hrun as [? Hrun]; [|done..]. split; [done|].
    destruct r as [o'|e].
    + destruct Hrun as [-> ?]. eauto 10.
    + destruct Hrun as [Hv' He]. exists x0. rewrite Hv'. eauto 10.
  - match goal with H : advance _ _ _ _ = Err _ |- _ =>
      apply advance_err in H as [t ->] end.
    split; [done|]. exists s'. naive_solver.
Qed.

(** A compare-and-set step under arbitrary interference between its
    read and its write.  On success the row that was advanced is the one held at
    write time, it was still in the expected state, and the step is a legal
    transition of it; on any error this step wrote nothing.  A reported
    [StateChanged] names the state a row really held, which differs from the
    expected one. *)
Theorem engine_apply_if_current_safe interfere id expected event now s s' r :
  store_ok s → stamp_ok (store_view s) id now → harmless id now interfere →
  engine_apply_if_current interfere id expected event now s = (s', r) →
  store_ok s' ∧
  match r with
  | Ok o' => ∃ s1 st, store_view s1 = store_view s ∧
      transition expected event = Ok st ∧ op_state o' = st ∧
      ∃ o, v_operations (store_view (interfere s1)) !! id = Some o ∧
           op_state o = expected ∧ is_terminal expected = false ∧
           store_view s' = with_operations (store_view (interfere s1))
             (<[id := set_state o st now]> (v_operations (store_view (interfere s1))))
  | Err e => ∃ s1, store_view s1 = store_view s ∧
      (store_view s' = store_view s1 ∨ store_view s' = store_view (interfere s1)) ∧
      ∀ id' exp' obs, e = StateChanged id' exp' obs → exp' = expected ∧
        ∃ o, v_operations (store_view s') !! id = Some o ∧ op_state o = obs ∧ obs ≠ expected
  end.
Proof. apply engine_apply_if_current_spec. Qed.

Lemma filter_states_perm (states : list OperationState) (rows : list (Operation Command)) :
  NoDup states →
  concat ((λ st, filter (listed (Some st)) rows) <$> states) ≡ₚ
  filter (λ o, op_state o ∈ states) rows.
Proof.
  induction states as [|st states IH]; intros Hnd; simpl.
  { rewrite filter_none; [done | set_solver]. }
  apply NoDup_cons in Hnd as [Hst Hnd]. rewrite IH by done. symmetry.
  apply filter_or_perm; [set_solver|]. simpl. intros o <-. done.
Qed.

Lemma gather_spec states acc s s' r :
  store_ok s → gather states acc s = (s', r) →
  store_ok s' ∧ store_view s' = store_view s ∧
  ∀ l, r = Ok l →
    l ≡ₚ acc ++ concat ((λ st, view_list (store_view s) (Some st)) <$> states).
Proof.
  revert acc s. induction states as [|st states IH]; intros acc s Hok Hrun; simpl in *.
  - inv_calls. split; [done|split; [done|]]. intros l [= <-]. by rewrite app_nil_r.
  - inv_calls; use_laws; [|naive_solver].
    apply IH in Hrun as (? & Hv' & Hl); [|done]. split; [done|]. split; [congruence|].
    intros l Hr. rewrite (Hl l Hr), Hv, H1. by rewrite app_assoc.
Qed.

(** The recovery scan changes nothing and returns, in acceptance
    order, each in-flight operation once and nothing else: the rows whose state
    is active and not [Queued]. *)
Theorem engine_recover_pending_exact s s' r :
  store_ok s → engine_recover_pending s = (s', r) →
  store_view s' = store_view s ∧
  ∀ l, r = Ok l →
    Sorted acceptance_le l ∧
    l ≡ₚ filter (λ o, is_active (op_state o) = true ∧ op_state o ≠ Queued)
           (view_rows (store_view s)).
Proof.
  unfold engine_recover_pending. intros Hok Hrun. inv_calls.
  - apply gather_spec in H1 as (_ & Hv & Hl); [|done]. split; [done|]. intros l [= <-].
    split; [apply Sorted_merge_sort, _|]. rewrite merge_sort_Permutation.
    rewrite (Hl _ eq_refl).
    assert (NoDup RECOVERABLE_STATES) as Hnd by (unfold RECOVERABLE_STATES; repeat constructor; set_solver).
    etrans; [exact (filter_states_perm _ (view_rows (store_view s)) Hnd)|].
    apply reflexive_eq, list_filter_iff. intros o.
    unfold RECOVERABLE_STATES. destruct (op_state o); set_solver.
  - apply gather_spec in H1 as (_ & Hv & _); done.
Qed.

(** Creation refuses an operation without targets before touching the
    store; otherwise, on success, it returns the queued operation, and an id the
    store already knows keeps its stored row. *)
Theorem engine_create_correct fresh source targets command now s s' r :
  store_ok s → engine_create fresh source targets command now s = (s', r) →
  store_ok s' ∧
  match r with
  | Ok o => o = Operation_new fresh source targets command now ∧ targets ≠ [] ∧
      v_operations (store_view s') !! fresh =
        Some (default (canonical o) (v_operations (store_view s) !! fresh)) ∧
      ∀ id, id ≠ fresh →
        v_operations (store_view s') !! id = v_operations (store_view s) !! id
  | Err _ => store_view s' = store_view s
  end ∧ (targets = [] → s' = s ∧ r = Err EmptyTargets).
Proof.
  unfold engine_create. intros Hok. case_decide as Ht; intros Hrun.
  { inv_calls. done. }
  assert (timeline_ok (Operation_new fresh source targets command now)) as Htl
    by (unfold timeline_ok; simpl; lia).
  inv_calls; use_laws; (split; [done|]); (split; [|done]); [|done].
  split; [done|]. split; [done|]. rewrite H1. unfold view_create. simpl.
  destruct (v_operations (store_view s) !! fresh) eqn:Hf; simpl.
  - by rewrite Hf.
  - split; [apply lookup_insert_eq|]. intros id Hid. by rewrite lookup_insert_ne by done.
Qed.

Lemma view_create_other b (v : View Command) o id :
  id ≠ op_id o →
  v_operations (view_create b v o) !! id = v_operations v !! id ∧
  v_batch_of (view_create b v o) !! id = v_batch_of v !! id.
Proof.
  intros Hid. unfold view_create. case_match; [done|]. simpl.
  split; [by apply lookup_insert_ne|]. destruct b; [by apply lookup_insert_ne | done].
Qed.

Lemma foldl_create_other b children (v : View Command) id :
  id ∉ op_id <$> children →
  v_operations (foldl (view_create b) v children) !! id = v_operations v !! id ∧
  v_batch_of (foldl (view_create b) v children) !! id = v_batch_of v !! id.
Proof.
  revert v. induction children as [|c children IH]; intros v Hid; [done|]. simpl in *.
  apply not_elem_of_cons in Hid as [Hc Hid].
  destruct (IH (view_create b v c) Hid) as [-> ->]. by apply view_create_other.
Qed.

(** Children with new, distinct ids are all stored, each under its batch. *)
Lemma foldl_create_child b children (v : View Command) c :
  NoDup (op_id <$> children) →
  (∀ c, c ∈ children → v_operations v !! op_id c = None) → c ∈ children →
  v_operations (foldl (view_create (Some b)) v children) !! op_id c = Some (canonical c) ∧
  v_batch_of (foldl (view_create (Some b)) v children) !! op_id c = Some b.
Proof.
  revert v. induction children as [|d children IH]; intros v Hnd Hnew Hc; [set_solver|].
  simpl in *. apply NoDup_cons in Hnd as [Hd Hnd].
  apply elem_of_cons in Hc as [->|Hc].
  - destruct (foldl_create_other (Some b) children (view_create (Some b) v d) (op_id d) Hd) as [-> ->].
    unfold view_create. rewrite (Hnew d) by set_solver. simpl. by rewrite !lookup_insert_eq.
  - apply IH; [done| |done]. intros e He.
    assert (op_id e ≠ op_id d) as Hne.
    { intros Heq. apply Hd. rewrite <- Heq. by apply list_elem_of_fmap_2. }
    destruct (view_create_other (Some b) v d (op_id e) Hne) as [-> _]. apply Hnew. set_solver.
Qed.

Lemma batch_children_ids fresh source targets (command : Command) now :
  op_id <$> batch_children fresh source targets command now =
  fresh <$> seq 1 (length targets).
Proof.
  unfold batch_children. rewrite fmap_imap. apply list_eq. intros i.
  rewrite list_lookup_imap, list_lookup_fmap. destruct (decide (i < length targets)) as [Hi|Hi].
  - rewrite lookup_seq_lt by done. destruct (lookup_lt_is_Some_2 targets i Hi) as [t ->]. done.
  - rewrite lookup_seq_ge by lia. by rewrite (lookup_ge_None_2 targets i) by lia.
Qed.

Lemma batch_children_timeline fresh source targets (command : Command) now :
  Forall timeline_ok (batch_children fresh source targets command now).
Proof.
  apply Forall_lookup_2. intros i o. unfold batch_children. rewrite list_lookup_imap.
  destruct (targets !! i); [|done]. intros [= <-]. unfold timeline_ok. simpl. lia.
Qed.

(** A batch is all or nothing: outside 1 to 128 targets it is refused
    before the store is touched; an error stores nothing; on success it is one
    parent and, in submission order, one queued single-target child per target,
    and with newly generated ids every child is stored under the parent. *)
Theorem engine_create_batch_correct fresh source targets command now s s' r :
  store_ok s → engine_create_batch fresh source targets command now s = (s', r) →
  store_ok s' ∧
  (targets = [] → s' = s ∧ r = Err EmptyTargets) ∧
  (MAX_BATCH_TARGETS < length targets → s' = s ∧ r = Err (TooManyTargets MAX_BATCH_TARGETS)) ∧
  match r with
  | Err _ => store_view s' = store_view s
  | Ok (b, children) =>
      b = mk_batch_operation (fresh 0) source command now ∧
      (∀ i, children !! i =
         (λ t, Operation_new (fresh (S i)) source [t] command now) <$> targets !! i) ∧
      ((∀ i j, fresh i = fresh j → i = j) →
       v_batches (store_view s) !! fresh 0 = None →
       (∀ i, v_operations (store_view s) !! fresh i = None) →
       ∀ c, c ∈ children → v_operations (store_view s') !! op_id c = Some c ∧
         v_batch_of (store_view s') !! op_id c = Some (fresh 0))
  end.
Proof.
  unfold engine_create_batch. intros Hok Hrun.
  case_decide as He; [inv_calls; simpl; unfold MAX_BATCH_TARGETS; naive_solver lia|].
  case_decide as Hm; [inv_calls; naive_solver|].
  inv_calls;
    match goal with H : store_create_batch _ _ _ = _ |- _ =>
      apply law_create_batch in H as [? Hv]; [|done|apply batch_children_timeline] end;
    (split; [done|]); (split; [done|]); (split; [done|]); [|done].
  split; [done|]. split.
  { intros i. unfold batch_children. by rewrite list_lookup_imap. }
  intros Hinj Hb Hnew c Hc. simpl in Hv. unfold view_create_batch in Hv. simpl in Hv.
  rewrite Hb in Hv. rewrite Hv.
  destruct (foldl_create_child (fresh 0) (batch_children fresh source targets command now)
    (mk_view (v_operations (store_view s)) (v_kinds (store_view s))
       (<[fresh 0 := mk_batch_operation (fresh 0) source command now]> (v_batches (store_view s)))
       (v_batch_of (store_view s))) c) as [-> ->]; try done.
  - rewrite batch_children_ids. apply NoDup_fmap_2_strong; [|apply NoDup_seq].
    intros i j _ _. apply Hinj.
  - intros d Hd. simpl.
    apply (list_elem_of_fmap_2 op_id) in Hd. rewrite batch_children_ids in Hd.
    apply list_elem_of_fmap in Hd as (i & -> & _). apply Hnew.
  - split; [|done]. f_equal. apply list_elem_of_lookup in Hc as [i Hc]. unfold batch_children in Hc.
    rewrite list_lookup_imap in Hc. destruct (targets !! i); [|done]. by injection Hc as <-.
Qed.
End engine_theorems.

(** ** Concurrent drivers

    Nothing serializes two engine calls on one operation: each is a read of the
    row, a plan made by the domain, and a later conditional or plain write.  A
    driver is one such call; the store runs one read or one write at a time. *)

Inductive DriverKind := Plain | Cas (expected : OperationState).

Record Driver := mk_driver {
  d_kind : DriverKind;
  d_id : OperationId;
  d_event : OperationEvent;
  d_now : OffsetDateTime;
}.

(** Where a driver stands: before its read, between its read and its write, or
    returned, with the state it persisted if it persisted one. *)
Inductive Progress := Start | Planned (new_state : OperationState)
                    | Answered (wrote : option OperationState).

Section drivers.
Context {Command : Type}.
Implicit Types (rows : gmap OperationId (Operation Command)).

(** The read and the plan: [find_operation], the state check of the conditional
    step, and the domain transition. *)
Definition driver_read rows (d : Driver) : Progress :=
  match rows !! d_id d with
  | None => Answered None
  | Some o =>
      let planned :=
        match transition (op_state o) (d_event d) with
        | Ok st => Planned st
        | Err _ => Answered None
        end in
      match d_kind d with
      | Plain => planned
      | Cas expected => if decide (op_state o ≠ expected) then Answered None else planned
      end
  end.

(** The write: the plain or the conditional row step. *)
Definition driver_write rows (d : Driver) (st : OperationState)
    : gmap OperationId (Operation Command) * Progress :=
  match (match d_kind d with
         | Plain => row_step rows (d_id d) st (d_now d)
         | Cas expected => row_step_if rows (d_id d) expected st (d_now d)
         end) with
  | Some rows' => (rows', Answered (Some st))
  | None => (rows, Answered None)
  end.

Definition System : Type := gmap OperationId (Operation Command) * list (Driver * Progress).

Inductive sys_step : System → System → Prop :=
| sys_read rows ds i d :
    ds !! i = Some (d, Start) →
    sys_step (rows, ds) (rows, <[i := (d, driver_read rows d)]> ds)
| sys_write rows ds i d st rows' p :
    ds !! i = Some (d, Planned st) → driver_write rows d st = (rows', p) →
    sys_step (rows, ds) (rows', <[i := (d, p)]> ds).

Lemma driver_write_inv rows d st rows' p :
  driver_write rows d st = (rows', p) →
  (rows' = rows ∧ p = Answered None) ∨
  (p = Answered (Some st) ∧ ∃ o, rows !! d_id d = Some o ∧ is_terminal (op_state o) = false ∧
    rows' = <[d_id d := set_state o st (d_now d)]> rows ∧
    ∀ e, d_kind d = Cas e → op_state o = e).
Proof.
  unfold driver_write. destruct (d_kind d) as [|e].
  - destruct (row_step _ _ _ _) as [r|] eqn:Hr; intros [= <- <-]; [|by left].
    right. apply row_step_Some in Hr as (o & ? & ? & ->). naive_solver.
  - destruct (row_step_if _ _ _ _ _) as [r|] eqn:Hr; intros [= <- <-]; [|by left].
    right. apply row_step_if_Some in Hr as (o & ? & <- & ? & ->). naive_solver.
Qed.

Lemma sys_step_terminal sys sys' id o :
  sys_step sys sys' → sys.1 !! id = Some o → is_terminal (op_state o) = true →
  sys'.1 !! id = Some o.
Proof.
  intros Hstep Ho Ht. destruct Hstep as [|rows ds i d st rows' p Hd Hw]; [done|]. simpl in *.
  apply driver_write_inv in Hw as [[-> _]|(_ & o' & Ho' & Ht' & -> & _)]; [done|].
  destruct (decide (id = d_id d)) as [->|Hne]; [congruence|]. by rewrite lookup_insert_ne.
Qed.

(** Whatever drivers run and however their reads and writes interleave,
    an operation that reached a terminal state keeps its row, byte for byte. *)
Theorem terminal_rows_final sys sys' id o :
  rtc sys_step sys sys' → sys.1 !! id = Some o → is_terminal (op_state o) = true →
  sys'.1 !! id = Some o.
Proof. induction 1; eauto using sys_step_terminal. Qed.

(** The states of [rows] are those of [rows0] moved along the transition matrix. *)
Definition legal_since rows0 rows : Prop :=
  ∀ id o', rows !! id = Some o' →
    ∃ o es, rows0 !! id = Some o ∧ run transition (op_state o) es = Ok (op_state o').

(** What a driver's progress says when every driver is conditional: a plan is a
    legal step from the expected state, and a row that was written has moved past
    that state. *)
Definition progress_ok rows (d : Driver) (p : Progress) : Prop :=
  ∃ e, d_kind d = Cas e ∧
  match p with
  | Start | Answered None => True
  | Planned st => transition e (d_event d) = Ok st
  | Answered (Some st) => ∃ o, rows !! d_id d = Some o ∧ rank e < rank (op_state o)
  end.

(** The driver wrote the step of [id] out of state [e]. *)
Definition winner (ds : list (Driver * Progress)) (i : nat) (id : OperationId)
    (e : OperationState) : Prop :=
  ∃ d st, ds !! i = Some (d, Answered (Some st)) ∧ d_id d = id ∧ d_kind d = Cas e.

Definition cas_invariant rows0 (sys : System) : Prop :=
  legal_since rows0 sys.1 ∧
  (∀ i d p, sys.2 !! i = Some (d, p) → progress_ok sys.1 d p) ∧
  (∀ i j id e, winner sys.2 i id e → winner sys.2 j id e → i = j).

Lemma driver_read_ok rows d e :
  d_kind d = Cas e → progress_ok rows d (driver_read rows d).
Proof.
  intros Hk. exists e. split; [done|]. unfold driver_read. rewrite Hk.
  destruct (rows !! d_id d) as [o|]; [|done]. case_decide as Ho; [done|]. subst.
  by destruct (transition (op_state o) (d_event d)) eqn:?.
Qed.

(** A write that moves a row forward keeps what the other drivers know. *)
Lemma progress_ok_insert rows d p id o o' :
  progress_ok rows d p → rows !! id = Some o → rank (op_state o) < rank (op_state o') →
  progress_ok (<[id := o']> rows) d p.
Proof.
  intros (e & Hk & Hp) Ho Hr. exists e. split; [done|].
  destruct p as [| |[st|]]; try done. destruct Hp as (o1 & Ho1 & Hlt).
  destruct (decide (id = d_id d)) as [->|Hne].
  - exists o'. rewrite lookup_insert_eq. split; [done|]. simplify_eq. lia.
  - exists o1. by rewrite lookup_insert_ne.
Qed.

Lemma legal_since_insert rows0 rows id o st ev now :
  legal_since rows0 rows → rows !! id = Some o → transition (op_state o) ev = Ok st →
  legal_since rows0 (<[id := set_state o st now]> rows).
Proof.
  intros Hl Ho Htr id' o'. destruct (decide (id = id')) as [->|Hne].
  - rewrite lookup_insert_eq. intros [= <-]. destruct (Hl _ _ Ho) as (o0 & es & H0 & Hes).
    exists o0, (es ++ [ev]). split; [done|]. rewrite run_app, Hes. simpl. by rewrite Htr.
  - rewrite lookup_insert_ne by done. apply Hl.
Qed.

(** The winners after driver [i] returned: the earlier ones, and [i] if it wrote. *)
Lemma winner_insert (ds : list (Driver * Progress)) i d p j id e :
  winner (<[i := (d, p)]> ds) j id e →
  (i ≠ j ∧ winner ds j id e) ∨
  (i = j ∧ ∃ st, p = Answered (Some st) ∧ d_id d = id ∧ d_kind d = Cas e).
Proof.
  intros (d' & st & Hj & Hid & Hk). destruct (decide (i = j)) as [->|Hne].
  - right. split; [done|]. apply list_lookup_insert_Some in Hj as [(_ & Heq & _)|[? _]]; [|done].
    simplify_eq. eauto.
  - left. split; [done|]. rewrite list_lookup_insert_ne in Hj by done. by exists d', st.
Qed.

Lemma cas_invariant_return rows0 rows ds i d p p0 :
  ds !! i = Some (d, p0) → (∀ st, p ≠ Answered (Some st)) → progress_ok rows d p →
  cas_invariant rows0 (rows, ds) → cas_invariant rows0 (rows, <[i := (d, p)]> ds).
Proof.
  intros Hi Hp Hok (Hl & Hpr & Hw). simpl in *. split; [done|]. split.
  - intros j d' p' Hj. simpl in *.
    apply list_lookup_insert_Some in Hj as [(_ & Heq & _)|[_ Hj]]; [by simplify_eq|]. eauto.
  - simpl. intros j k id e [[_ Hj]|(_ & st & Hst & _)]%winner_insert
      [[_ Hk]|(_ & st' & Hst' & _)]%winner_insert;
      [by eapply Hw|exfalso; by eapply Hp..].
Qed.

Lemma cas_invariant_step rows0 sys sys' :
  sys_step sys sys' → cas_invariant rows0 sys → cas_invariant rows0 sys'.
Proof.
  intros Hstep Hinv. destruct Hstep as [rows ds i d Hd|rows ds i d st rows' p Hd Hw].
  - destruct Hinv as (Hl & Hpr & Hwin). pose proof (Hpr _ _ _ Hd) as (e & Hk & _).
    eapply cas_invariant_return; [done| |by eapply driver_read_ok|done].
    intros st. unfold driver_read. rewrite Hk. repeat case_match; naive_solver.
  - pose proof Hinv as (Hl & Hpr & Hwin). simpl in *.
    pose proof (Hpr _ _ _ Hd) as (e & Hk & Htr).
    apply driver_write_inv in Hw as [[-> ->]|(-> & o & Ho & Ht & -> & Hexp)].
    { eapply cas_invariant_return; [done|done| |done]. by exists e. }
    specialize (Hexp _ Hk). subst e.
    pose proof (transition_rank _ _ _ Htr) as Hrank.
    split; [by eapply legal_since_insert|]. simpl. split.
    + intros j d' p' Hj. apply list_lookup_insert_Some in Hj as [(_ & Heq & _)|[_ Hj]].
      * simplify_eq. exists (op_state o). split; [done|]. eexists.
        rewrite lookup_insert_eq. split; [done|]. done.
      * eapply progress_ok_insert; [by eapply Hpr | done | done].
    + assert (∀ k, winner ds k (d_id d) (op_state o) → False) as Hnone.
      { intros k (d' & st' & Hk' & Hid & Hkd). apply Hpr in Hk' as (e' & He' & o' & Ho' & Hlt).
        rewrite Hid in Ho'. rewrite He' in Hkd. simplify_eq. lia. }
      intros j k id e Hj Hkw.
      apply winner_insert in Hj as [[Hj1 Hj]|(<- & sj & _ & <- & Hej)];
      apply winner_insert in Hkw as [[Hk1 Hkw]|(<- & sk & _ & ? & Hek)]; simplify_eq;
        [by eapply Hwin|..]; try done; exfalso; rewrite Hk in *; simplify_eq;
        by eapply Hnone.
Qed.

(** C1: When every driver uses the conditional step, then under any
    interleaving of their reads and writes each stored state has moved only along
    the transition matrix, and out of any one state of any one operation at most
    one driver's step was persisted. *)
Theorem cas_drivers_safe rows0 ds rows' ds' :
  Forall (λ dp : Driver * Progress, (∃ e, d_kind dp.1 = Cas e) ∧ dp.2 = Start) ds →
  rtc sys_step (rows0, ds) (rows', ds') →
  legal_since rows0 rows' ∧
  ∀ i j id e, winner ds' i id e → winner ds' j id e → i = j.
Proof.
  intros Hds Hrtc. assert (cas_invariant rows0 (rows0, ds)) as Hinv.
  { rewrite Forall_lookup in Hds. split; [|split]; simpl.
    - intros id o Ho. exists o, []. done.
    - intros i d p Hi. destruct (Hds _ _ Hi) as [[e He] Hp]. simpl in *. subst.
      by exists e.
    - intros i j id e (d & st & Hi & _) _. by destruct (Hds _ _ Hi) as [_ ?]. }
  assert (cas_invariant rows0 (rows', ds')) as (Hl & _ & Hw); [|done].
  remember (rows0, ds) as sys eqn:Heq. clear Heq.
  remember (rows', ds') as sys' eqn:Heq. clear Heq.
  induction Hrtc; eauto using cas_invariant_step.
Qed.
End drivers.

(** Two plain drivers that both read [Running]: the second write moves the row
    back from [Verifying] to [WaitingRemote], a step the matrix does not have. *)
Definition race_row : Operation () := set_state (Operation_new 1%N SourceSite [] () 0%Z) Running 0%Z.
Definition race_drivers : list (Driver * Progress) :=
  [(mk_driver Plain 1%N EvExecutionAccepted 10%Z, Start);
   (mk_driver Plain 1%N EvRemoteTaskStarted 20%Z, Start)].

(** The plain step has no such protection: two plain drivers that read the
    same [Running] row can leave it in [WaitingRemote] after it was already stored
    as [Verifying], a move no event of the transition matrix makes. *)
Theorem plain_race_regresses :
  ∃ rows1 ds1 rows2 ds2 o1 o2,
    rtc sys_step ({[1%N := race_row]}, race_drivers) (rows1, ds1) ∧
    rtc sys_step (rows1, ds1) (rows2, ds2) ∧
    rows1 !! 1%N = Some o1 ∧ rows2 !! 1%N = Some o2 ∧
    op_state o1 = Verifying ∧ op_state o2 = WaitingRemote ∧
    ∀ ev, transition (op_state o1) ev ≠ Ok (op_state o2).
Proof.
  do 6 eexists. split.
  { eapply rtc_l; [by apply (sys_read _ _ 0)|]. eapply rtc_l; [by apply (sys_read _ _ 1)|].
    eapply rtc_l; [by eapply (sys_write _ _ 0)|]. apply rtc_refl. }
  split.
  { eapply rtc_l; [by eapply (sys_write _ _ 1)|]. apply rtc_refl. }
  split; [done|]. split; [done|]. simpl. split; [done|]. split; [done|]. by intros [].
Qed.

Lemma terminal_rows_final_witness :
  let o := set_state race_row Failed 5%Z in
  rtc sys_step ({[1%N := o]}, race_drivers) ({[1%N := o]},
    [(mk_driver Plain 1%N EvExecutionAccepted 10%Z, Answered None);
     (mk_driver Plain 1%N EvRemoteTaskStarted 20%Z, Start)]) ∧
  ({[1%N := o]} : gmap OperationId (Operation ())) !! 1%N = Some o.
Proof.
  intros o.
  assert (rtc sys_step ({[1%N := o]}, race_drivers) ({[1%N := o]},
    [(mk_driver Plain 1%N EvExecutionAccepted 10%Z, Answered None);
     (mk_driver Plain 1%N EvRemoteTaskStarted 20%Z, Start)])) as Hr.
  { eapply rtc_l; [by apply (sys_read _ _ 0)|]. apply rtc_refl. }
  split; [exact Hr|].
  exact (terminal_rows_final _ _ 1%N o Hr (lookup_singleton_eq 1%N o) eq_refl).
Defined.

Definition cas_pair : list (Driver * Progress) :=
  [(mk_driver (Cas Running) 1%N EvExecutionAccepted 10%Z, Start);
   (mk_driver (Cas Running) 1%N EvRemoteTaskStarted 20%Z, Start)].

Lemma cas_pair_run :
  ∃ rows' ds', rtc sys_step ({[1%N := race_row]}, cas_pair) (rows', ds') ∧
    winner ds' 0 1%N Running.
Proof.
  do 2 eexists. split.
  - eapply rtc_l; [by apply (sys_read _ _ 0)|]. eapply rtc_l; [by apply (sys_read _ _ 1)|].
    eapply rtc_l; [by eapply (sys_write _ _ 0)|]. eapply rtc_l; [by eapply (sys_write _ _ 1)|].
    apply rtc_refl.
  - eexists _, _. split; [reflexivity|]. done.
Qed.

Lemma cas_drivers_safe_witness :
  ∃ rows' ds', rtc sys_step ({[1%N := race_row]}, cas_pair) (rows', ds') ∧
    winner ds' 0 1%N Running ∧ legal_since {[1%N := race_row]} rows' ∧
    ∀ i j id e, winner ds' i id e → winner ds' j id e → i = j.
Proof.
  destruct cas_pair_run as (rows' & ds' & Hr & Hw). exists rows', ds'.
  split; [exact Hr|]. split; [exact Hw|].
  apply (cas_drivers_safe {[1%N := race_row]} cas_pair rows' ds'); [|exact Hr].
  repeat constructor; simpl; eauto.
Defined.
