(* ===== verification/Capability.v ===== *)
(** * Capability: what an endpoint can do

    Models the ledger of [domain/src/capability.rs] and the merge of
    [application/src/capability_query.rs]. *)
From S2P Require Import Prelude Text Operation.

Inductive EndpointCapability :=
| CapAccounts | CapAssembly | CapBios | CapBootOptions | CapChassis | CapSystems | CapControls
| CapEnvironmentMetrics | CapEthernetInterfaces | CapEventService | CapHostInterfaces
| CapLogServices | CapManagerNetworkProtocol | CapManagers | CapMemory | CapNetworkAdapters
| CapNetworkDeviceFunctions | CapPcieDevices | CapPower | CapPowerEquipment | CapPowerSupplies
| CapProcessors | CapSecureBoot | CapSensors | CapSessionService | CapStorages | CapTaskService
| CapTelemetryService | CapThermal | CapUpdateService | CapPorts | CapBmcHttp
| CapUpdateServiceDeprecated | CapOemAmi | CapOemDell | CapOemDellAttributes | CapOemDelta
| CapOemHpe | CapOemLenovo | CapOemLiteOn | CapOemNvidia | CapOemNvidiaCper | CapOemNvidiaFabrics
| CapOemNvidiaPowerManagement | CapOemNvidiaProfiles | CapOemNvidiaSecurity | CapOemSupermicro.
#[export] Instance EndpointCapability_eq_dec : EqDecision EndpointCapability.
Proof. solve_decision. Defined.

Definition CAPABILITY_LEDGER_ORDER : list EndpointCapability :=
  [CapAccounts; CapAssembly; CapBios; CapBootOptions; CapChassis; CapSystems; CapControls;
   CapEnvironmentMetrics; CapEthernetInterfaces; CapEventService; CapHostInterfaces;
   CapLogServices; CapManagerNetworkProtocol; CapManagers; CapMemory; CapNetworkAdapters;
   CapNetworkDeviceFunctions; CapPcieDevices; CapPower; CapPowerEquipment; CapPowerSupplies;
   CapProcessors; CapSecureBoot; CapSensors; CapSessionService; CapStorages; CapTaskService;
   CapTelemetryService; CapThermal; CapUpdateService; CapPorts; CapBmcHttp;
   CapUpdateServiceDeprecated; CapOemAmi; CapOemDell; CapOemDellAttributes; CapOemDelta;
   CapOemHpe; CapOemLenovo; CapOemLiteOn; CapOemNvidia; CapOemNvidiaCper; CapOemNvidiaFabrics;
   CapOemNvidiaPowerManagement; CapOemNvidiaProfiles; CapOemNvidiaSecurity; CapOemSupermicro].

Inductive CapabilityState :=
| Supported | ReadOnly | Unauthorized | TemporarilyUnavailable | SchemaIncompatible
| NotAdvertised | NotCompiled.
#[export] Instance CapabilityState_eq_dec : EqDecision CapabilityState.
Proof. solve_decision. Defined.

Definition EndpointCapability_as_str (capability : EndpointCapability) : str :=
  match capability with
  | CapAccounts => lit "accounts"
  | CapAssembly => lit "assembly"
  | CapBios => lit "bios"
  | CapBootOptions => lit "boot-options"
  | CapChassis => lit "chassis"
  | CapSystems => lit "systems"
  | CapControls => lit "controls"
  | CapEnvironmentMetrics => lit "environment-metrics"
  | CapEthernetInterfaces => lit "ethernet-interfaces"
  | CapEventService => lit "event-service"
  | CapHostInterfaces => lit "host-interfaces"
  | CapLogServices => lit "log-services"
  | CapManagerNetworkProtocol => lit "manager-network-protocol"
  | CapManagers => lit "managers"
  | CapMemory => lit "memory"
  | CapNetworkAdapters => lit "network-adapters"
  | CapNetworkDeviceFunctions => lit "network-device-functions"
  | CapPcieDevices => lit "pcie-devices"
  | CapPower => lit "power"
  | CapPowerEquipment => lit "power-equipment"
  | CapPowerSupplies => lit "power-supplies"
  | CapProcessors => lit "processors"
  | CapSecureBoot => lit "secure-boot"
  | CapSensors => lit "sensors"
  | CapSessionService => lit "session-service"
  | CapStorages => lit "storages"
  | CapTaskService => lit "task-service"
  | CapTelemetryService => lit "telemetry-service"
  | CapThermal => lit "thermal"
  | CapUpdateService => lit "update-service"
  | CapPorts => lit "ports"
  | CapBmcHttp => lit "bmc-http"
  | CapUpdateServiceDeprecated => lit "update-service-deprecated"
  | CapOemAmi => lit "oem-ami"
  | CapOemDell => lit "oem-dell"
  | CapOemDellAttributes => lit "oem-dell-attributes"
  | CapOemDelta => lit "oem-delta"
  | CapOemHpe => lit "oem-hpe"
  | CapOemLenovo => lit "oem-lenovo"
  | CapOemLiteOn => lit "oem-liteon"
  | CapOemNvidia => lit "oem-nvidia"
  | CapOemNvidiaCper => lit "oem-nvidia-cper"
  | CapOemNvidiaFabrics => lit "oem-nvidia-fabrics"
  | CapOemNvidiaPowerManagement => lit "oem-nvidia-power-management"
  | CapOemNvidiaProfiles => lit "oem-nvidia-profiles"
  | CapOemNvidiaSecurity => lit "oem-nvidia-security"
  | CapOemSupermicro => lit "oem-supermicro"
  end.

Inductive EndpointCapabilityParseError := EndpointCapabilityParseErr.
Definition EndpointCapability_from_str (value : str) : result EndpointCapability EndpointCapabilityParseError :=
  ok_or (match_str value
    [("accounts", CapAccounts);
     ("assembly", CapAssembly);
     ("bios", CapBios);
     ("boot-options", CapBootOptions);
     ("chassis", CapChassis);
     ("systems", CapSystems);
     ("controls", CapControls);
     ("environment-metrics", CapEnvironmentMetrics);
     ("ethernet-interfaces", CapEthernetInterfaces);
     ("event-service", CapEventService);
     ("host-interfaces", CapHostInterfaces);
     ("log-services", CapLogServices);
     ("manager-network-protocol", CapManagerNetworkProtocol);
     ("managers", CapManagers);
     ("memory", CapMemory);
     ("network-adapters", CapNetworkAdapters);
     ("network-device-functions", CapNetworkDeviceFunctions);
     ("pcie-devices", CapPcieDevices);
     ("power", CapPower);
     ("power-equipment", CapPowerEquipment);
     ("power-supplies", CapPowerSupplies);
     ("processors", CapProcessors);
     ("secure-boot", CapSecureBoot);
     ("sensors", CapSensors);
     ("session-service", CapSessionService);
     ("storages", CapStorages);
     ("task-service", CapTaskService);
     ("telemetry-service", CapTelemetryService);
     ("thermal", CapThermal);
     ("update-service", CapUpdateService);
     ("ports", CapPorts);
     ("bmc-http", CapBmcHttp);
     ("update-service-deprecated", CapUpdateServiceDeprecated);
     ("oem-ami", CapOemAmi);
     ("oem-dell", CapOemDell);
     ("oem-dell-attributes", CapOemDellAttributes);
     ("oem-delta", CapOemDelta);
     ("oem-hpe", CapOemHpe);
     ("oem-lenovo", CapOemLenovo);
     ("oem-liteon", CapOemLiteOn);
     ("oem-nvidia", CapOemNvidia);
     ("oem-nvidia-cper", CapOemNvidiaCper);
     ("oem-nvidia-fabrics", CapOemNvidiaFabrics);
     ("oem-nvidia-power-management", CapOemNvidiaPowerManagement);
     ("oem-nvidia-profiles", CapOemNvidiaProfiles);
     ("oem-nvidia-security", CapOemNvidiaSecurity);
     ("oem-supermicro", CapOemSupermicro)]) EndpointCapabilityParseErr.
#[export, refine] Instance EndpointCapability_code : StableCode EndpointCapability EndpointCapabilityParseError :=
  { code_str := EndpointCapability_as_str; code_parse := EndpointCapability_from_str }.
Proof. all: unfold EndpointCapability_from_str; solve_code. Defined.

Definition CapabilityState_as_str (state : CapabilityState) : str :=
  match state with
  | Supported => lit "supported"
  | ReadOnly => lit "read-only"
  | Unauthorized => lit "unauthorized"
  | TemporarilyUnavailable => lit "temporarily-unavailable"
  | SchemaIncompatible => lit "schema-incompatible"
  | NotAdvertised => lit "not-advertised"
  | NotCompiled => lit "not-compiled"
  end.

Inductive CapabilityStateParseError := CapabilityStateParseErr.
Definition CapabilityState_from_str (value : str) : result CapabilityState CapabilityStateParseError :=
  ok_or (match_str value
    [("supported", Supported);
     ("read-only", ReadOnly);
     ("unauthorized", Unauthorized);
     ("temporarily-unavailable", TemporarilyUnavailable);
     ("schema-incompatible", SchemaIncompatible);
     ("not-advertised", NotAdvertised);
     ("not-compiled", NotCompiled)]) CapabilityStateParseErr.
#[export, refine] Instance CapabilityState_code : StableCode CapabilityState CapabilityStateParseError :=
  { code_str := CapabilityState_as_str; code_parse := CapabilityState_from_str }.
Proof. all: unfold CapabilityState_from_str; solve_code. Defined.

(** [required_capability_state] of [application/src/operation_executor.rs]: the
    observed state of one entry of a ledger. *)
Definition required_capability_state {Capability} `{EqDecision Capability} (required : Capability)
    (entries : list (Capability * option CapabilityState)) : option CapabilityState :=
  match find (λ e, bool_decide (e.1 = required)) entries with
  | Some e => e.2
  | None => None
  end.

(** A stored observation: capability and state. *)
Abbreviation StoredCapability := (EndpointCapability * CapabilityState)%type.

(** The index [EndpointCapabilityQuery::execute] builds; a repeated capability
    is refused. *)
Fixpoint index_capabilities (stored : list StoredCapability) (by_capability : list StoredCapability)
    : result (list StoredCapability) EndpointCapability :=
  match stored with
  | [] => Ok by_capability
  | c :: stored =>
      if existsb (λ e : StoredCapability, bool_decide (e.1 = c.1)) by_capability then Err c.1
      else index_capabilities stored (c :: by_capability)
  end.

(** The merge of [EndpointCapabilityQuery::execute]: one entry per capability of
    the ledger, observed or not. *)
Definition merge_ledger (stored : list StoredCapability)
    : result (list (EndpointCapability * option CapabilityState)) EndpointCapability :=
  let? by_capability := index_capabilities stored [] in
  Ok ((λ capability, (capability,
    snd <$> find (λ e : StoredCapability, bool_decide (e.1 = capability)) by_capability))
    <$> CAPABILITY_LEDGER_ORDER).

Lemma fmap_pair_fst {A B} (g : A → B) (l : list A) : ((λ a, (a, g a)) <$> l).*1 = l.
Proof. induction l as [|a l IH]; [done|]. rewrite !fmap_cons. simpl. by f_equal. Qed.

Lemma find_unique {A B} `{EqDecision A} (l : list (A * B)) a b :
  NoDup l.*1 → (a, b) ∈ l → find (λ e, bool_decide (e.1 = a)) l = Some (a, b).
Proof.
  induction l as [|[a' b'] l IH]; intros Hnd Hin; [by apply elem_of_nil in Hin|].
  simpl in *. apply NoDup_cons in Hnd as [Hni Hnd]. apply elem_of_cons in Hin as [Heq|Hin].
  - injection Heq as <- <-. by rewrite bool_decide_true.
  - rewrite bool_decide_false; [by apply IH|]. intros ->. apply Hni.
    apply list_elem_of_fmap. by exists (a, b).
Qed.

Lemma find_absent {A B} `{EqDecision A} (l : list (A * B)) a :
  a ∉ l.*1 → find (λ e, bool_decide (e.1 = a)) l = None.
Proof.
  induction l as [|[a' b'] l IH]; intros Hni; [done|]. simpl in *.
  rewrite bool_decide_false by set_solver. apply IH. set_solver.
Qed.

Lemma index_capabilities_spec stored acc l :
  index_capabilities stored acc = Ok l → NoDup acc.*1 →
  NoDup l.*1 ∧ ∀ c, c ∈ l ↔ c ∈ stored ∨ c ∈ acc.
Proof.
  revert acc. induction stored as [|c stored IH]; intros acc Hi Hnd; simpl in Hi.
  - injection Hi as <-. split; [done|]. set_solver.
  - destruct (existsb _ acc) eqn:Hex; [done|]. apply existsb_false in Hex.
    apply IH in Hi as [Hnd' Hel].
    + split; [done|]. intros x. rewrite Hel. set_solver.
    + simpl. apply NoDup_cons. split; [|done]. rewrite list_elem_of_fmap. intros ([a b] & Ha & Hin).
      rewrite Forall_forall in Hex. specialize (Hex _ Hin). simpl in Hex.
      apply bool_decide_eq_false in Hex. simpl in *. by rewrite Ha in Hex.
Qed.

Lemma ledger_NoDup : NoDup CAPABILITY_LEDGER_ORDER.
Proof. apply (bool_decide_unpack _). vm_compute. done. Qed.
Lemma ledger_complete c : c ∈ CAPABILITY_LEDGER_ORDER.
Proof. destruct c; apply (bool_decide_unpack _); vm_compute; done. Qed.

(** The ledger of an endpoint has one entry for each capability, in the fixed
    order, with the state that was observed if one was, so looking a capability
    up in it is looking its observation up; only a repeated observation is
    refused. *)
Theorem ledger_faithful (stored : list StoredCapability) entries :
  merge_ledger stored = Ok entries →
  entries.*1 = CAPABILITY_LEDGER_ORDER ∧
  ∀ required st, required_capability_state required entries = Some st ↔ (required, st) ∈ stored.
Proof.
  unfold merge_ledger. destruct (index_capabilities stored []) as [l|] eqn:Hi; [|done].
  intros Hm. assert (∀ (A E : Type) (x y : A), Ok (E := E) x = Ok y → x = y) as Hinj by congruence.
  apply Hinj in Hm. subst entries. apply index_capabilities_spec in Hi as [Hnd Hel]; [|constructor].
  split.
  - apply fmap_pair_fst.
  - intros required st. unfold required_capability_state.
    set (f := λ capability, (capability, snd <$> find (λ e : StoredCapability, bool_decide (e.1 = capability)) l)).
    rewrite (find_unique (f <$> CAPABILITY_LEDGER_ORDER) required (f required).2).
    + simpl. transitivity ((required, st) ∈ l); [|rewrite Hel; set_solver]. split.
      * intros Hf. destruct (find _ l) as [[a b]|] eqn:Hfind; [|done]. simpl in Hf. injection Hf as ->.
        apply find_some in Hfind as [Hin Heq]. apply bool_decide_eq_true in Heq. simpl in Heq. subst.
        by apply list_elem_of_In.
      * intros Hin. by rewrite (find_unique l required st).
    + unfold f. rewrite fmap_pair_fst. apply ledger_NoDup.
    + apply list_elem_of_fmap. exists required. split; [done|]. apply ledger_complete.
Qed.

Lemma ledger_faithful_witness :
  ∃ entries, merge_ledger [(CapSystems, Supported); (CapChassis, ReadOnly)] = Ok entries ∧
    (required_capability_state CapChassis entries = Some ReadOnly ↔
     (CapChassis, ReadOnly) ∈ [(CapSystems, Supported); (CapChassis, ReadOnly)]).
Proof.
  eexists. split; [vm_compute; reflexivity|].
  apply (ledger_faithful [(CapSystems, Supported); (CapChassis, ReadOnly)]). vm_compute. reflexivity.
Defined.
