(* ===== verification/CommandCipher.v ===== *)
(** * CommandCipher: the at-rest protection of commands and credentials

    Models [security/src/command_cipher.rs] and the credential versions of
    [security/src/lib.rs]: the [RUTC1:] envelope around an
    authenticated encryption of the command text, bound to the row's identity.
    The cipher (crate [chacha20poly1305]) and the base64 alphabet (crate
    [base64]) are parameters. *)
From S2P Require Import Prelude Text.
Local Open Scope N_scope.

(** [Uuid::into_bytes]: the 16 bytes, most significant first. *)
Definition into_bytes (u : Uuid) : list N :=
  (λ i, N.shiftr u (8 * (15 - i)) mod 256) <$> [0;1;2;3;4;5;6;7;8;9;10;11;12;13;14;15].

Definition byte_string (b : list N) : Prop := Forall (λ x, x < 256) b.

(** The third-party primitives: XChaCha20-Poly1305 and standard base64. *)
Class CipherSuite (Key : Type) := {
  aead_key_ok : Key → bool;
  aead_encrypt : Key → list N → list N → list N → option (list N);
  aead_decrypt : Key → list N → list N → list N → option (list N);
  base64_encode : list N → str;
  base64_decode : str → option (list N);
}.

Definition COMMAND_NONCE_LENGTH : nat := 24.
Definition COMMAND_CIPHER_ENVELOPE_PREFIX : str := lit "RUTC1:".
Definition AUTHENTICATION_TAG_LENGTH : nat := 16.

(** What the crates document of them. *)
Class CipherSuiteLaws (Key : Type) `{CipherSuite Key} := {
  decrypt_encrypt k nonce aad msg c :
    aead_encrypt k nonce aad msg = Some c → aead_decrypt k nonce aad c = Some msg;
  decrypt_authentic k nonce aad msg c :
    aead_decrypt k nonce aad c = Some msg → aead_encrypt k nonce aad msg = Some c;
  encrypt_bytes k nonce aad msg c : aead_encrypt k nonce aad msg = Some c →
    byte_string c ∧ length c = (length msg + AUTHENTICATION_TAG_LENGTH)%nat;
  base64_roundtrip b : byte_string b → base64_decode (base64_encode b) = Some b;
  base64_scalars b : byte_string b → Forall (λ c, is_scalar c = true) (base64_encode b);
}.

Inductive CommandProtectionError :=
| RandomnessUnavailable | EncryptionFailed | InvalidMasterKeyLength
| MalformedEnvelope | AuthenticationFailed | InvalidPlaintextEncoding.

#[export] Instance CommandProtectionError_eq_dec : EqDecision CommandProtectionError.
Proof. solve_decision. Defined.

Section cipher.
Context {Key : Type} `{CipherSuite Key}.

Definition cipher (master_key : Key) : result Key CommandProtectionError :=
  if aead_key_ok master_key then Ok master_key else Err InvalidMasterKeyLength.

(** [encrypt_command]; [random] is what [getrandom::fill] delivered. *)
Definition encrypt_command (random : option (list N)) (master_key : Key)
    (identity : list N) (plaintext : str) : result str CommandProtectionError :=
  let? nonce := ok_or random RandomnessUnavailable in
  let? cipher := cipher master_key in
  let? ciphertext := ok_or (aead_encrypt cipher nonce identity (as_bytes plaintext))
                       EncryptionFailed in
  Ok (COMMAND_CIPHER_ENVELOPE_PREFIX ++ base64_encode (nonce ++ ciphertext)).

(** [decrypt_command]. *)
Definition decrypt_command (master_key : Key) (identity : list N) (envelope : str)
    : result str CommandProtectionError :=
  let? payload := ok_or (strip_prefix COMMAND_CIPHER_ENVELOPE_PREFIX envelope)
                    MalformedEnvelope in
  let? decoded := ok_or (base64_decode payload) MalformedEnvelope in
  if decide (length decoded < COMMAND_NONCE_LENGTH)%nat then Err MalformedEnvelope
  else
    let nonce := take COMMAND_NONCE_LENGTH decoded in
    let ciphertext := drop COMMAND_NONCE_LENGTH decoded in
    if decide (length ciphertext < AUTHENTICATION_TAG_LENGTH)%nat then Err MalformedEnvelope
    else
      let? cipher := cipher master_key in
      let? plaintext := ok_or (aead_decrypt cipher nonce identity ciphertext)
                          AuthenticationFailed in
      ok_or (from_utf8 plaintext) InvalidPlaintextEncoding.

(** What the random source delivers: a nonce of 24 bytes, or nothing. *)
Definition random_ok (random : option (list N)) : Prop :=
  ∀ nonce, random = Some nonce → length nonce = COMMAND_NONCE_LENGTH ∧ byte_string nonce.
End cipher.

Section cipher_theorems.
Context {Key : Type} `{CipherSuiteLaws Key}.

Lemma encrypt_command_ok random k identity plaintext envelope :
  encrypt_command random k identity plaintext = Ok envelope →
  ∃ nonce c, random = Some nonce ∧ aead_key_ok k = true ∧
    aead_encrypt k nonce identity (as_bytes plaintext) = Some c ∧
    envelope = COMMAND_CIPHER_ENVELOPE_PREFIX ++ base64_encode (nonce ++ c).
Proof.
  unfold encrypt_command, cipher. intros He. inv_ok. case_match; [|done]. inv_ok. eauto 10.
Qed.

(** An envelope produced for a row decrypts, under the same key and
    identity, to the text that was protected. *)
Lemma command_envelope_roundtrip random k identity plaintext envelope :
  random_ok random → Forall (λ c, is_scalar c = true) plaintext →
  encrypt_command random k identity plaintext = Ok envelope →
  decrypt_command k identity envelope = Ok plaintext ∧
  starts_with COMMAND_CIPHER_ENVELOPE_PREFIX envelope = true.
Proof.
  intros Hr Hs He. apply encrypt_command_ok in He as (nonce & c & Hn & Hk & Hc & ->).
  destruct (Hr _ Hn) as [Hlen Hb]. destruct (encrypt_bytes _ _ _ _ _ Hc) as [Hcb Hcl].
  unfold starts_with, decrypt_command. rewrite strip_prefix_app. split; [|done]. cbn [ok_or result_bind].
  rewrite base64_roundtrip by (by apply Forall_app). cbn [ok_or result_bind].
  rewrite decide_False by (rewrite length_app; lia).
  rewrite take_app_length', drop_app_length' by done.
  rewrite decide_False by lia. unfold cipher. rewrite Hk. cbn [ok_or result_bind].
  rewrite (decrypt_encrypt _ _ _ _ _ Hc). cbn [ok_or result_bind].
  by rewrite from_utf8_as_bytes.
Qed.

(** A text that decrypts for one row was encrypted under that key for that
    row's identity: an envelope moved to a row the key never protected it for
    is refused. *)
Theorem decrypt_command_authentic k identity envelope plaintext :
  decrypt_command k identity envelope = Ok plaintext →
  ∃ nonce bytes c, length nonce = COMMAND_NONCE_LENGTH ∧ from_utf8 bytes = Some plaintext ∧
    aead_encrypt k nonce identity bytes = Some c ∧
    strip_prefix COMMAND_CIPHER_ENVELOPE_PREFIX envelope ≫= base64_decode = Some (nonce ++ c).
Proof.
  unfold decrypt_command. intros Hd. inv_ok.
  case_decide as Hl; [done|]. case_decide as Ht; [done|].
  inv_ok. unfold cipher in *. case_match; inv_ok.
  match goal with Hx : aead_decrypt _ _ _ _ = Some _ |- _ => apply decrypt_authentic in Hx end.
  eexists _, _, _. split; [|split; [exact Hd|split; [done|]]].
  - apply length_take_le. lia.
  - simplify_option_eq. by rewrite take_drop.
Qed.
End cipher_theorems.

(** A cipher suite with its laws: the primitives of the witnesses.  It does not
    hide anything; it appends sixteen zero bytes. *)
#[export] Instance toy_suite : CipherSuite () :=
  { aead_key_ok _ := true;
    aead_encrypt _ _ _ msg :=
      if decide (byte_string msg) then Some (msg ++ replicate AUTHENTICATION_TAG_LENGTH 0) else None;
    aead_decrypt _ _ _ c :=
      let n := (length c - AUTHENTICATION_TAG_LENGTH)%nat in
      if decide (byte_string (take n c) ∧ c = take n c ++ replicate AUTHENTICATION_TAG_LENGTH 0)
      then Some (take n c) else None;
    base64_encode b := b;
    base64_decode s := Some s }.

#[export, refine] Instance toy_suite_laws : CipherSuiteLaws () := {}.
Proof.
  - intros k nonce aad msg c. cbv [aead_encrypt aead_decrypt toy_suite]. case_decide as Hb; [|done]. intros Hc%(inj Some). subst c.
    replace (length (msg ++ replicate AUTHENTICATION_TAG_LENGTH 0%N) - AUTHENTICATION_TAG_LENGTH)%nat
      with (length msg) by (rewrite length_app, length_replicate; lia).
    rewrite (take_app_length msg). by rewrite decide_True.
  - intros k nonce aad msg c. cbv [aead_encrypt aead_decrypt toy_suite]. case_decide as Hb; [|done]. intros [= <-].
    rewrite decide_True by tauto. f_equal. symmetry. tauto.
  - intros k nonce aad msg c. cbv [aead_encrypt aead_decrypt toy_suite]. case_decide as Hb; [|done]. intros Hc%(inj Some). subst c.
    split.
    + apply Forall_app. split; [done|]. apply Forall_replicate. lia.
    + by rewrite length_app, length_replicate.
  - done.
  - intros b Hb. eapply Forall_impl; [exact Hb|]. simpl. unfold is_scalar. lia.
Defined.

Definition toy_nonce : list N := replicate 24 7.

Lemma command_envelope_roundtrip_witness :
  let envelope := COMMAND_CIPHER_ENVELOPE_PREFIX ++ (toy_nonce ++ lit "{}" ++ replicate 16 0) in
  decrypt_command (Key := ()) tt (into_bytes 1) envelope = Ok (lit "{}") ∧
  starts_with COMMAND_CIPHER_ENVELOPE_PREFIX envelope = true.
Proof.
  apply (command_envelope_roundtrip (Some toy_nonce) tt (into_bytes 1) (lit "{}")).
  - intros nonce [= <-]. split; [done|]. apply Forall_replicate. lia.
  - repeat constructor.
  - vm_compute. reflexivity.
Defined.

Lemma decrypt_command_authentic_witness :
  let envelope := COMMAND_CIPHER_ENVELOPE_PREFIX ++ (toy_nonce ++ lit "{}" ++ replicate 16 0) in
  ∃ nonce bytes c, length nonce = COMMAND_NONCE_LENGTH ∧ from_utf8 bytes = Some (lit "{}") ∧
    aead_encrypt (Key := ()) tt nonce (into_bytes 1) bytes = Some c ∧
    strip_prefix COMMAND_CIPHER_ENVELOPE_PREFIX envelope ≫= base64_decode = Some (nonce ++ c).
Proof.
  apply (decrypt_command_authentic (Key := ()) tt (into_bytes 1)). vm_compute. reflexivity.
Defined.

(** ** The at-rest protection of credential versions

    Models [encrypt_credential] and [decrypt_credential] of [security/src/lib.rs]
    over the same cipher suite. *)
Local Close Scope N_scope.

Definition CREDENTIAL_NONCE_LENGTH : nat := 24.

Inductive CredentialProtectionError :=
| CredentialRandomnessUnavailable | CredentialEncryptionFailed | CredentialInvalidMasterKeyLength
| CredentialAuthenticationFailed | CredentialCiphertextTooShort | CredentialInvalidPlaintextEncoding.

Record ProtectedCredentialVersion := mk_protected {
  pv_credential_id : Uuid;
  pv_version_id : Uuid;
  pv_nonce : list N;
  pv_ciphertext : list N;
}.

(** [ProtectedCredentialVersion::from_parts]. *)
Definition protected_from_parts (credential_id version_id : Uuid) (nonce ciphertext : list N)
    : result ProtectedCredentialVersion CredentialProtectionError :=
  if decide (length ciphertext < AUTHENTICATION_TAG_LENGTH) then Err CredentialCiphertextTooShort
  else Ok (mk_protected credential_id version_id nonce ciphertext).

Definition associated_data (credential_id version_id : Uuid) : list N :=
  into_bytes credential_id ++ into_bytes version_id.

Section credential.
Context {Key : Type} `{CipherSuite Key}.

Definition credential_cipher (master_key : Key) : result Key CredentialProtectionError :=
  if aead_key_ok master_key then Ok master_key else Err CredentialInvalidMasterKeyLength.

(** [encrypt_credential]; [random] is what [getrandom::fill] delivered. *)
Definition encrypt_credential (random : option (list N)) (master_key : Key)
    (credential_id version_id : Uuid) (plaintext : str)
    : result ProtectedCredentialVersion CredentialProtectionError :=
  let? nonce := ok_or random CredentialRandomnessUnavailable in
  let? cipher := credential_cipher master_key in
  let? ciphertext := ok_or
    (aead_encrypt cipher nonce (associated_data credential_id version_id) (as_bytes plaintext))
    CredentialEncryptionFailed in
  protected_from_parts credential_id version_id nonce ciphertext.

(** [decrypt_credential]. *)
Definition decrypt_credential (master_key : Key) (p : ProtectedCredentialVersion)
    : result str CredentialProtectionError :=
  let? cipher := credential_cipher master_key in
  let? plaintext := ok_or
    (aead_decrypt cipher (pv_nonce p) (associated_data (pv_credential_id p) (pv_version_id p))
       (pv_ciphertext p))
    CredentialAuthenticationFailed in
  ok_or (from_utf8 plaintext) CredentialInvalidPlaintextEncoding.
End credential.

Section credential_theorems.
Context {Key : Type} `{CipherSuiteLaws Key}.

Lemma encrypt_credential_ok random k c v plaintext p :
  encrypt_credential random k c v plaintext = Ok p →
  random = Some (pv_nonce p) ∧ pv_credential_id p = c ∧ pv_version_id p = v ∧
  aead_key_ok k = true ∧ AUTHENTICATION_TAG_LENGTH ≤ length (pv_ciphertext p) ∧
  aead_encrypt k (pv_nonce p) (associated_data c v) (as_bytes plaintext) = Some (pv_ciphertext p).
Proof.
  unfold encrypt_credential, credential_cipher, protected_from_parts. intros He. inv_ok.
  destruct (aead_key_ok k) eqn:Hk; inv_ok. case_decide; [done|]. inv_ok. simpl.
  repeat split_and; try done. lia.
Qed.

(** A protected credential is read back under its key and identities. *)
Lemma credential_roundtrip random k c v plaintext p :
  Forall (λ c, is_scalar c = true) plaintext →
  encrypt_credential random k c v plaintext = Ok p → decrypt_credential k p = Ok plaintext.
Proof.
  intros Hs (_ & <- & <- & Hk & _ & Hc)%encrypt_credential_ok.
  unfold decrypt_credential, credential_cipher. rewrite Hk. cbn [result_bind].
  rewrite (decrypt_encrypt _ _ _ _ _ Hc). cbn [ok_or result_bind]. by rewrite from_utf8_as_bytes.
Qed.
End credential_theorems.
