(* ===== verification/Database.v ===== *)
(** * Database: the transactions the repositories run

    Models how [persistence/src] uses its one SQLite database (crate [sea_orm]):
    a write takes the write gate, a transaction sees the tables as they were and
    its own statements, and nothing of it survives unless the final commit
    succeeds.  Which calls fail is up to the environment, which the theorems
    quantify over. *)
From S2P Require Import Prelude.

(** What is outside the program: which database calls report an error, whether
    the write gate was closed, and what the random source delivers.  Calls are
    numbered by the clock of the world. *)
Record Env := mk_env {
  env_fault : nat → bool;
  env_gate_closed : bool;
  env_random : nat → option (list N);
}.

(** The committed tables, and the number of calls made so far. *)
Record World (T : Type) := mk_world {
  w_db : T;
  w_clock : nat;
}.
Arguments mk_world {T}.
Arguments w_db {T}.
Arguments w_clock {T}.

(** The two failures every repository error type has. *)
Class DbErrors (E : Type) := {
  err_coordinate : E;
  err_database : E;
}.

Section database.
Context (env : Env) {T E : Type} `{DbErrors E}.
Implicit Types (w : World T).

(** [write_gate.acquire()]. *)
Definition acquire : M (World T) E () :=
  λ w, (w, if env_gate_closed env then Err err_coordinate else Ok ()).

(** One statement: it may fail on its own, and it fails on a violated
    constraint. *)
Definition statement {A} (q : T → option (T * A)) : M (World T) E A :=
  λ w,
    let w' := mk_world (w_db w) (S (w_clock w)) in
    if env_fault env (w_clock w) then (w', Err err_database)
    else match q (w_db w) with
         | Some (t, a) => (mk_world t (S (w_clock w)), Ok a)
         | None => (w', Err err_database)
         end.

(** A statement whose violated unique constraint the caller tells apart. *)
Definition constrained {A} (violated : E) (q : T → option (T * A)) : M (World T) E A :=
  λ w,
    let w' := mk_world (w_db w) (S (w_clock w)) in
    if env_fault env (w_clock w) then (w', Err err_database)
    else match q (w_db w) with
         | Some (t, a) => (mk_world t (S (w_clock w)), Ok a)
         | None => (w', Err violated)
         end.

Definition select {A} (q : T → A) : M (World T) E A := statement (λ t, Some (t, q t)).

(** One draw of the random source. *)
Definition draw : M (World T) E (option (list N)) :=
  λ w, (mk_world (w_db w) (S (w_clock w)), Ok (env_random env (w_clock w))).

(** [begin], the statements, [commit]; a transaction dropped on an early return
    is rolled back. *)
Definition transaction {A} (body : M (World T) E A) : M (World T) E A :=
  λ w,
    match statement (λ t, Some (t, ())) w with
    | (w1, Err e) => (w1, Err e)
    | (w1, Ok _) =>
        match body w1 with
        | (w2, Err e) => (mk_world (w_db w) (w_clock w2), Err e)
        | (w2, Ok a) =>
            match statement (λ t, Some (t, ())) w2 with
            | (w3, Err e) => (mk_world (w_db w) (w_clock w3), Err e)
            | (w3, Ok _) => (w3, Ok a)
            end
        end
    end.

(** An explicit [rollback], before an answer that is not an error. *)
Definition rollback : M (World T) E () := select (λ _, ()).

Inductive closing (A : Type) := Commit (a : A) | Rollback (a : A).
#[global] Arguments Commit {A}.
#[global] Arguments Rollback {A}.

(** A transaction whose body says how it closes. *)
Definition closing_transaction {A} (body : M (World T) E (closing A)) : M (World T) E A :=
  λ w,
    match statement (λ t, Some (t, ())) w with
    | (w1, Err e) => (w1, Err e)
    | (w1, Ok _) =>
        match body w1 with
        | (w2, Err e) => (mk_world (w_db w) (w_clock w2), Err e)
        | (w2, Ok close) =>
            match statement (λ t, Some (t, ())) w2, close with
            | (w3, Err e), _ => (mk_world (w_db w) (w_clock w3), Err e)
            | (w3, Ok _), Commit a => (w3, Ok a)
            | (w3, Ok _), Rollback a => (mk_world (w_db w) (w_clock w3), Ok a)
            end
        end
    end.

Lemma statement_ok {A} (q : T → option (T * A)) w w' a :
  statement q w = (w', Ok a) → q (w_db w) = Some (w_db w', a).
Proof.
  unfold statement. destruct (env_fault _ _); [done|].
  destruct (q (w_db w)) as [[t b]|]; [|done]. by intros [= <- <-].
Qed.

Lemma constrained_ok {A} violated (q : T → option (T * A)) w w' a :
  constrained violated q w = (w', Ok a) → q (w_db w) = Some (w_db w', a).
Proof.
  unfold constrained. destruct (env_fault _ _); [done|].
  destruct (q (w_db w)) as [[t b]|]; [|done]. by intros [= <- <-].
Qed.

Lemma constrained_err {A} violated (q : T → option (T * A)) w w' e :
  constrained violated q w = (w', Err e) → w_db w' = w_db w.
Proof.
  unfold constrained. destruct (env_fault _ _); [by intros [= <- _]|].
  destruct (q (w_db w)) as [[t b]|]; [done|]. by intros [= <- _].
Qed.

Lemma statement_err {A} (q : T → option (T * A)) w w' e :
  statement q w = (w', Err e) → w_db w' = w_db w.
Proof. apply (constrained_err err_database). Qed.

Lemma select_ok {A} (q : T → A) w w' a :
  select q w = (w', Ok a) → w_db w' = w_db w ∧ a = q (w_db w).
Proof. intros Hs. apply statement_ok in Hs. by simplify_eq. Qed.

(** A transaction that reports an error wrote nothing. *)
Lemma transaction_err {A} (body : M (World T) E A) w w' e :
  transaction body w = (w', Err e) → w_db w' = w_db w.
Proof.
  unfold transaction, statement. destruct (env_fault _ _); [by intros [= <- _]|].
  simpl. destruct (body _) as [w2 [a|e2]]; [|by intros [= <- _]].
  destruct (env_fault _ _); [by intros [= <- _] | done].
Qed.

(** A transaction that succeeds leaves exactly what its statements wrote. *)
Lemma transaction_ok {A} (body : M (World T) E A) w w' a :
  transaction body w = (w', Ok a) →
  ∃ w1 w2, w_db w1 = w_db w ∧ body w1 = (w2, Ok a) ∧ w_db w' = w_db w2.
Proof.
  unfold transaction, statement. destruct (env_fault _ _); [done|].
  simpl. destruct (body _) as [w2 [b|e2]] eqn:Hb; [|done].
  destruct (env_fault _ _); [done|]. intros [= <- <-].
  by exists (mk_world (w_db w) (S (w_clock w))), w2.
Qed.

(** A gated write is its statements, or an error and no change. *)
Lemma gated_write {A} (body : M (World T) E A) w w' r :
  mbind acquire (λ _, transaction body) w = (w', r) →
  (∃ e, r = Err e ∧ w_db w' = w_db w) ∨
  ∃ a w1 w2, r = Ok a ∧ w_db w1 = w_db w ∧ body w1 = (w2, Ok a) ∧ w_db w' = w_db w2.
Proof.
  unfold mbind, acquire. destruct (env_gate_closed env); [intros [= <- <-]; eauto|].
  intros Hrun. destruct r as [a|e].
  - apply transaction_ok in Hrun as (w1 & w2 & ? & ? & ?). right. eauto 10.
  - apply transaction_err in Hrun. eauto.
Qed.

(** A gated transaction that closes itself: an error or a rollback changes nothing. *)
Lemma gated_closing {A} (body : M (World T) E (closing A)) w w' r :
  mbind acquire (λ _, closing_transaction body) w = (w', r) →
  (∃ e, r = Err e ∧ w_db w' = w_db w) ∨
  ∃ close w1 w2, w_db w1 = w_db w ∧ body w1 = (w2, Ok close) ∧
    match close with
    | Commit a => r = Ok a ∧ w_db w' = w_db w2
    | Rollback a => r = Ok a ∧ w_db w' = w_db w
    end.
Proof.
  unfold mbind, acquire. destruct (env_gate_closed env); [intros [= <- <-]; eauto|].
  unfold closing_transaction, statement. destruct (env_fault _ _); [intros [= <- <-]; eauto|]. simpl.
  destruct (body _) as [w2 [close|e]] eqn:Hb; [|intros [= <- <-]; eauto].
  destruct (env_fault _ _); [intros [= <- <-]; eauto|]. intros Hr. right.
  exists close, (mk_world (w_db w) (S (w_clock w))), w2. split; [done|]. split; [done|].
  by destruct close; injection Hr as <- <-.
Qed.

(** A gated statement outside a transaction is its own. *)
Lemma gated_statement {A} (q : T → option (T * A)) w w' r :
  mbind acquire (λ _, statement q) w = (w', r) →
  (∃ e, r = Err e ∧ w_db w' = w_db w) ∨ ∃ a, r = Ok a ∧ q (w_db w) = Some (w_db w', a).
Proof.
  unfold mbind, acquire. destruct (env_gate_closed env); [intros [= <- <-]; eauto|].
  intros Hrun. destruct r as [a|e]; [apply statement_ok in Hrun; eauto|].
  apply statement_err in Hrun. eauto.
Qed.

Lemma select_inv {A} (q : T → A) w w' r :
  select q w = (w', r) → w_db w' = w_db w ∧ ∀ a, r = Ok a → a = q (w_db w).
Proof.
  intros Hs. destruct r as [a|e]; [apply select_ok in Hs as [? ->]; naive_solver|].
  by apply statement_err in Hs.
Qed.

(** A lookup: one statement and the mapping of what it found. *)
Lemma lookup_inv {A B} (q : T → A) (k : A → M (World T) E B) w w' r :
  (∀ a w w' r, k a w = (w', r) → w' = w) → mbind (select q) k w = (w', r) →
  w_db w' = w_db w ∧ ∀ b, r = Ok b → ∃ w1, k (q (w_db w)) w1 = (w1, Ok b).
Proof.
  intros Hk [(a & w1 & Hs & Hrun)|(e & Hs & ->)]%mbind_inv; apply select_inv in Hs as [Hdb Ha]; [|done].
  pose proof (Hk _ _ _ _ Hrun) as ->. split; [done|]. intros b ->. rewrite (Ha _ eq_refl) in Hrun. eauto.
Qed.

(** ** An environment without failures *)

Definition env_healthy : Prop :=
  env_gate_closed env = false ∧ ∀ n, env_fault env n = false.

(** Run on tables [t], the method returns [a] and leaves [t']: at any clock. *)
Definition returns {A} (m : M (World T) E A) (t t' : T) (a : A) : Prop :=
  ∀ c, ∃ c', m (mk_world t c) = (mk_world t' c', Ok a).

Lemma returns_ret {A} (a : A) t : returns (mret a) t t a.
Proof. intros c. by exists c. Qed.

Lemma returns_lift {A} (a : A) (r : result A E) t : r = Ok a → returns (mlift r) t t a.
Proof. intros -> c. by exists c. Qed.

Lemma returns_bind {A B} (m : M (World T) E A) (k : A → M (World T) E B) t t1 t2 a b :
  returns m t t1 a → returns (k a) t1 t2 b → returns (mbind m k) t t2 b.
Proof.
  intros Hm Hk c. destruct (Hm c) as [c1 H1]. destruct (Hk c1) as [c2 H2].
  exists c2. unfold mbind. by rewrite H1.
Qed.

Lemma returns_statement {A} (q : T → option (T * A)) t t' a :
  env_healthy → q t = Some (t', a) → returns (statement q) t t' a.
Proof.
  intros [_ Hf] Hq c. exists (S c). unfold statement. simpl. by rewrite Hf, Hq.
Qed.

Lemma returns_constrained {A} violated (q : T → option (T * A)) t t' a :
  env_healthy → q t = Some (t', a) → returns (constrained violated q) t t' a.
Proof.
  intros [_ Hf] Hq c. exists (S c). unfold constrained. simpl. by rewrite Hf, Hq.
Qed.

Lemma returns_select {A} (q : T → A) t : env_healthy → returns (select q) t t (q t).
Proof. intros. by apply returns_statement. Qed.

Lemma returns_acquire t : env_healthy → returns acquire t t ().
Proof. intros [Hg _] c. exists c. unfold acquire. by rewrite Hg. Qed.

Lemma returns_transaction {A} (body : M (World T) E A) t t' a :
  env_healthy → returns body t t' a → returns (transaction body) t t' a.
Proof.
  intros [_ Hf] Hb c. destruct (Hb (S c)) as [c' Hc]. exists (S c').
  unfold transaction, statement. simpl. rewrite Hf, Hc. simpl. by rewrite Hf.
Qed.

Lemma returns_traverse {A B} (f : A → M (World T) E B) (g : A → B) l t :
  (∀ x, x ∈ l → returns (f x) t t (g x)) → returns (mtraverse f l) t t (g <$> l).
Proof.
  induction l as [|x l IH]; intros Hf; simpl; [apply returns_ret|].
  eapply returns_bind; [apply Hf; by left|].
  eapply returns_bind; [apply IH; intros; apply Hf; by right | apply returns_ret].
Qed.
End database.

(** ** Rows of a table keyed by their identity *)

Section rows.
Context {Model : Type} (key : Model → N) (le : relation Model).
Context `{∀ x y, Decision (le x y)}.
Implicit Types (t : gmap N Model).

(** [SELECT] with a condition and an order. *)
Definition rows (P : Model → Prop) `{∀ m, Decision (P m)} t : list Model :=
  merge_sort le (filter P (map_to_list t).*2).

Definition rows_keyed t : Prop := ∀ id m, t !! id = Some m → key m = id.

Lemma rows_spec (P : Model → Prop) `{∀ m, Decision (P m)} t m :
  rows_keyed t → m ∈ rows P t ↔ t !! key m = Some m ∧ P m.
Proof.
  intros Hok. unfold rows. rewrite merge_sort_Permutation, list_elem_of_filter, list_elem_of_fmap.
  split.
  - intros (HP & [id m'] & -> & Hin). apply elem_of_map_to_list in Hin. simpl in *.
    by rewrite (Hok _ _ Hin).
  - intros [Hm HP]. split; [done|]. exists (key m, m). split; [done|]. by apply elem_of_map_to_list.
Qed.

(** The last row of an ordered selection is the greatest. *)
Lemma rows_last `{!Transitive le, !Total le} (P : Model → Prop) `{∀ m, Decision (P m)} t k m :
  last (rows P t) = Some k → m ∈ rows P t → m = k ∨ le m k.
Proof.
  intros [l Hl]%last_Some Hin.
  assert (StronglySorted le (rows P t)) as Hs by (apply Sorted_StronglySorted, Sorted_merge_sort; apply _).
  rewrite Hl in *. apply elem_of_app in Hin as [Hin|Hin%list_elem_of_singleton]; [|by left].
  right. by eapply (StronglySorted_app_1_elem_of le l [k]); [|done|apply list_elem_of_singleton].
Qed.

(** The first row of an ordered selection is the least. *)
Lemma rows_head `{!Transitive le, !Total le} (P : Model → Prop) `{∀ m, Decision (P m)} t k m :
  head (rows P t) = Some k → m ∈ rows P t → le k m.
Proof.
  intros Hk Hin.
  assert (StronglySorted le (rows P t)) as Hs by (apply Sorted_StronglySorted, Sorted_merge_sort; apply _).
  destruct (rows P t) as [|x l]; [done|]. injection Hk as ->.
  apply StronglySorted_inv in Hs as [_ Hall]. apply elem_of_cons in Hin as [->|Hin].
  - by destruct (total le k k).
  - by eapply (proj1 (Forall_forall _ _)).
Qed.

Lemma rows_keys_NoDup (P : Model → Prop) `{∀ m, Decision (P m)} t :
  rows_keyed t → NoDup (key <$> rows P t).
Proof.
  intros Hok. apply NoDup_fmap_2_strong.
  - intros m1 m2 [H1 _]%rows_spec [H2 _]%rows_spec Heq; [|done..].
    rewrite Heq in H1. congruence.
  - unfold rows. rewrite merge_sort_Permutation. apply NoDup_filter.
    apply NoDup_fmap_2_strong; [|apply NoDup_map_to_list].
    intros [i m] [j m'] Hi Hj ?. simpl in *. subst m'. apply elem_of_map_to_list in Hi, Hj.
    by rewrite <- (Hok _ _ Hi), <- (Hok _ _ Hj).
Qed.
End rows.

(** A method on some of the tables of the one database. *)
Definition on_tables {T U E F A} (get : U → T) (put : U → T → U) (err : E → F) (m : M (World T) E A)
    : M (World U) F A :=
  zoom (λ w, mk_world (get (w_db w)) (w_clock w)) (λ w t, mk_world (put (w_db w) (w_db t)) (w_clock t)) err m.

Lemma on_tables_inv {T U E F A} (get : U → T) (put : U → T → U) (err : E → F) (m : M (World T) E A) w w' r :
  on_tables get put err m w = (w', r) →
  ∃ t r0, m (mk_world (get (w_db w)) (w_clock w)) = (t, r0) ∧ w_db w' = put (w_db w) (w_db t) ∧ r = map_err err r0.
Proof. intros Hrun. apply zoom_inv in Hrun as (t & r0 & Hrun & -> & ->). by exists t, r0. Qed.

(** [INSERT] of a new row. *)
Definition insert_new {A} (m : gmap Uuid A) (id : Uuid) (x : A) : option (gmap Uuid A) :=
  match m !! id with Some _ => None | None => Some (<[id := x]> m) end.

Lemma insert_new_Some {A} (m m' : gmap Uuid A) id x :
  insert_new m id x = Some m' ↔ m !! id = None ∧ m' = <[id := x]> m.
Proof. unfold insert_new. destruct (m !! id); naive_solver. Qed.

(** An [UPDATE] of one row. *)
Lemma alter_row {A} (f : A → A) (t : gmap Uuid A) id :
  alter f id t = match t !! id with Some m => <[id := f m]> t | None => t end.
Proof.
  apply map_eq. intros k. destruct (decide (id = k)) as [<-|Hne].
  - rewrite lookup_alter_eq. by destruct (t !! id) as [m|] eqn:Hm; [rewrite lookup_insert_eq|rewrite Hm].
  - rewrite lookup_alter_ne by done. by destruct (t !! id); [rewrite lookup_insert_ne|].
Qed.

(** ** A table as the records its rows decode to *)

Section decoded.
Context {Model A E : Type} (decode : N → Model → option A).
Implicit Types (t : gmap N Model) (id : N).

Definition decoded t : gmap N A := map_imap decode t.
Definition decodable t : Prop := ∀ id m, t !! id = Some m → is_Some (decode id m).

Lemma decoded_lookup t id : decoded t !! id = t !! id ≫= decode id.
Proof. apply map_lookup_imap. Qed.

Lemma decoded_None t id : decodable t → decoded t !! id = None ↔ t !! id = None.
Proof.
  intros Hok. rewrite decoded_lookup. destruct (t !! id) as [m|] eqn:Hm; [|done]. simpl.
  destruct (Hok _ _ Hm) as [a ->]. done.
Qed.

Lemma decoded_insert t id m a :
  decode id m = Some a → decoded (<[id := m]> t) = <[id := a]> (decoded t).
Proof.
  intros Hd. apply map_eq. intros k. rewrite decoded_lookup.
  destruct (decide (k = id)) as [->|Hne]; [by rewrite !lookup_insert_eq|].
  by rewrite !lookup_insert_ne, decoded_lookup by done.
Qed.

Lemma decodable_insert t id m a :
  decodable t → decode id m = Some a → decodable (<[id := m]> t).
Proof. intros Hok Hd k m' [[<- <-]|[_ Hk]]%lookup_insert_Some; eauto. Qed.

Lemma decoded_subseteq t t' : t' ⊆ t → decoded t' ⊆ decoded t.
Proof.
  intros Hsub. apply map_subseteq_spec. intros k a. rewrite !decoded_lookup.
  intros (m & Hm & Ha)%bind_Some. by rewrite (lookup_weaken _ _ _ _ Hm Hsub).
Qed.

Lemma decodable_subseteq t t' : t' ⊆ t → decodable t → decodable t'.
Proof. intros Hsub Hok k m Hm. by eapply Hok, lookup_weaken. Qed.

(** Inserting a row is inserting the record. *)
Lemma insert_new_decoded t t' id m a :
  decodable t → decode id m = Some a → insert_new t id m = Some t' →
  decodable t' ∧ insert_new (decoded t) id a = Some (decoded t').
Proof.
  intros Hok Hd [Hnone ->]%insert_new_Some. split; [by eapply decodable_insert|].
  apply insert_new_Some. rewrite decoded_None by done. split; [done|]. by apply decoded_insert.
Qed.

(** A change of every row that is a change of every record. *)
Lemma decoded_fmap t (f : Model → Model) (g : A → A) :
  (∀ id m, t !! id = Some m → decode id (f m) = g <$> decode id m) →
  decoded (f <$> t) = g <$> decoded t.
Proof.
  intros Hf. apply map_eq. intros k. rewrite lookup_fmap, !decoded_lookup, lookup_fmap.
  destruct (t !! k) as [m|] eqn:Hm; simpl; [by apply Hf | done].
Qed.

Lemma decodable_fmap t (f : Model → Model) (g : A → A) :
  (∀ id m, t !! id = Some m → decode id (f m) = g <$> decode id m) →
  decodable t → decodable (f <$> t).
Proof.
  intros Hf Hok k m. rewrite lookup_fmap. intros (m0 & Hm & ->)%fmap_Some.
  destruct (Hok _ _ Hm) as [a Ha]. rewrite (Hf _ _ Hm), Ha. by eexists.
Qed.

(** A condition on the rows that is a condition on the records. *)
Lemma decoded_map_Forall t (P : Model → Prop) (Q : A → Prop) :
  decodable t → (∀ id m a, decode id m = Some a → P m ↔ Q a) →
  map_Forall (λ _, P) t ↔ map_Forall (λ _, Q) (decoded t).
Proof.
  intros Hok Hpq. split.
  - intros HP id a. rewrite decoded_lookup. intros (m & Hm & Ha)%bind_Some. by eapply Hpq, HP.
  - intros HQ id m Hm. destruct (Hok _ _ Hm) as [a Ha]. eapply Hpq; [done|].
    eapply (HQ id). by rewrite decoded_lookup, Hm.
Qed.
End decoded.

(** [find().filter(..).one()]: a row that matches, if there is one. *)
Definition find_row {Model} (P : Model → Prop) `{∀ m, Decision (P m)} (t : gmap N Model)
    : option Model :=
  head (filter P (map_to_list t).*2).

Lemma find_row_Some {Model} (P : Model → Prop) `{∀ m, Decision (P m)} (t : gmap N Model) m :
  find_row P t = Some m → P m ∧ ∃ id, t !! id = Some m.
Proof.
  unfold find_row. intros Hm.
  assert (m ∈ filter P (map_to_list t).*2) as Hin.
  { destruct (filter P _); simplify_eq/=. by left. }
  apply list_elem_of_filter in Hin as [HP Hin]. split; [done|].
  apply list_elem_of_fmap in Hin as ([id m'] & -> & Hin). exists id. by apply elem_of_map_to_list.
Qed.

Lemma find_row_None {Model} (P : Model → Prop) `{∀ m, Decision (P m)} (t : gmap N Model) :
  find_row P t = None → map_Forall (λ _ m, ¬ P m) t.
Proof.
  unfold find_row. intros Hn id m Hm HP.
  assert (m ∈ filter P (map_to_list t).*2) as Hin.
  { apply list_elem_of_filter. split; [done|]. apply list_elem_of_fmap. exists (id, m).
    split; [done|]. by apply elem_of_map_to_list. }
  destruct (filter P _); [by apply not_elem_of_nil in Hin | done].
Qed.

(** What a lookup by something that is not the key answers: [None] only when no
    row matches, and otherwise a row that does. *)
Definition finds {A} (m : gmap N A) (P : A → Prop) (x : option A) : Prop :=
  match x with
  | Some a => (∃ id, m !! id = Some a) ∧ P a
  | None => map_Forall (λ _ a, ¬ P a) m
  end.

(** [l] holds the rows [P] selects, each once. *)
Definition lists {A} (m : gmap N A) (key : A → N) (P : A → Prop) (l : list A) : Prop :=
  NoDup (key <$> l) ∧ ∀ a, a ∈ l ↔ m !! key a = Some a ∧ P a.

Lemma mtraverse_mlift {St E A B} (f : A → result B E) l (s s' : St) r :
  mtraverse (λ x, mlift (f x)) l s = (s', r) →
  s' = s ∧ ∀ ys, r = Ok ys → Forall2 (λ x y, f x = Ok y) l ys.
Proof.
  revert s' r. induction l as [|x l IH]; intros s' r; cbn [mtraverse].
  { intros [= <- <-]. split; [done|]. intros ? [= <-]. constructor. }
  intros [(y & s1 & Hx & Hrun)|(e & Hx & ->)]%mbind_inv; unfold mlift in Hx.
  - injection Hx as -> Hf. apply mbind_inv in Hrun as [(ys & s2 & Hl & Hr)|(e & Hl & ->)];
      apply IH in Hl as [-> Hys]; [|done].
    injection Hr as <- <-. split; [done|]. intros ? [= <-]. constructor; [done | by apply Hys].
  - injection Hx as <- _. done.
Qed.

Section lookups.
Context {Model A E : Type} (decode : N → Model → option A) (key : Model → N) (akey : A → N).
Hypothesis Hkey : ∀ id m a, decode id m = Some a → key m = id ∧ akey a = id.
Context (load : Model → result A E).
Hypothesis Hload : ∀ m a, is_Some (decode (key m) m) → load m = Ok a → decode (key m) m = Some a.
Context (P : Model → Prop) (Q : A → Prop) `{∀ m, Decision (P m)}.
Hypothesis HPQ : ∀ id m a, decode id m = Some a → P m ↔ Q a.
Implicit Types t : gmap N Model.

Lemma decodable_keyed t : decodable decode t → rows_keyed key t.
Proof. intros Hok id m Hm. destruct (Hok _ _ Hm) as [a Ha]. by apply Hkey in Ha as [? _]. Qed.

(** The rows of a listing, decoded: the records the condition selects. *)
Lemma lists_rows (le : relation Model) `{∀ x y, Decision (le x y)} t l :
  decodable decode t → Forall2 (λ m a, load m = Ok a) (rows le P t) l →
  lists (decoded decode t) akey Q l.
Proof.
  intros Hok Hl. pose proof (decodable_keyed t Hok) as Hk.
  assert (Forall2 (λ m a, decode (key m) m = Some a) (rows le P t) l) as Hd.
  { apply Forall2_same_length_lookup in Hl as [Hlen Hl]. apply Forall2_same_length_lookup.
    split; [done|]. intros i m a Hm Ha. apply Hload; [|by eapply Hl].
    apply list_elem_of_lookup_2 in Hm as Hin. apply (rows_spec key) in Hin as [Hin _]; [|done]. by eapply Hok. }
  clear Hl. split.
  - assert (akey <$> l = key <$> rows le P t) as ->; [|by apply rows_keys_NoDup].
    clear -Hd Hkey. induction Hd as [|m a ms l Hm Hd IH]; [done|]. simpl. f_equal; [|done].
    by apply Hkey in Hm as [_ ?].
  - intros a. split.
    + intros [i Ha]%list_elem_of_lookup. destruct (Forall2_lookup_r _ _ _ _ _ Hd Ha) as (m & Hm & Hma).
      apply list_elem_of_lookup_2, (rows_spec key) in Hm as [Hm HP]; [|done].
      pose proof (Hkey _ _ _ Hma) as [_ ->]. rewrite decoded_lookup, Hm. simpl.
      split; [done|]. by eapply HPQ.
    + rewrite decoded_lookup. intros [(m & Hm & Hma)%bind_Some HQ].
      pose proof (Hkey _ _ _ Hma) as [Hid _].
      assert (m ∈ rows le P t) as Hin.
      { apply (rows_spec key); [done|]. rewrite Hid. split; [done|]. by eapply HPQ. }
      apply list_elem_of_lookup in Hin as [i Hi].
      destruct (Forall2_lookup_l _ _ _ _ _ Hd Hi) as (a' & Ha' & Hma').
      rewrite Hid in Hma'. simplify_eq. by apply list_elem_of_lookup_2 in Ha'.
Qed.

(** An ordered listing, decoded: the records in the same order. *)
Lemma rows_decoded (le : relation Model) (ale : relation A)
    `{∀ x y, Decision (le x y)} `{∀ x y, Decision (ale x y)} `{!Total le, !Transitive ale, !Total ale}
    `{∀ a, Decision (Q a)} t l :
  (∀ id m a id' m' a', decode id m = Some a → decode id' m' = Some a' → le m m' → ale a a') →
  (∀ a a', ale a a' → ale a' a → akey a = akey a') →
  decodable decode t → Forall2 (λ m a, load m = Ok a) (rows le P t) l →
  l = merge_sort ale (filter Q (map_to_list (decoded decode t)).*2).
Proof.
  intros Hle Hanti Hok Hl. pose proof (decodable_keyed t Hok) as Hk.
  destruct (lists_rows le t l Hok Hl) as [Hnd Hin].
  assert (∀ a, a ∈ filter Q (map_to_list (decoded decode t)).*2 ↔ a ∈ l) as Hsame.
  { intros a. rewrite Hin, list_elem_of_filter, list_elem_of_fmap. split.
    - intros [HQ ([id b] & -> & Hb)]. apply elem_of_map_to_list in Hb. simpl in *.
      split; [|done]. pose proof Hb as Hd. rewrite decoded_lookup in Hd.
      apply bind_Some in Hd as (m & _ & Hd). by destruct (Hkey _ _ _ Hd) as [_ ->].
    - intros [Ha HQ]. split; [done|]. exists (akey a, a). split; [done|]. by apply elem_of_map_to_list. }
  apply (Sorted_unique_strong ale).
  - intros a a' Ha Ha' Hr Hr'. rewrite merge_sort_Permutation in Ha'.
    apply Hsame, Hin in Ha' as [Ha' _]. apply Hin in Ha as [Ha _].
    rewrite (Hanti _ _ Hr Hr') in Ha. congruence.
  - assert (Forall2 (λ m a, decode (key m) m = Some a) (rows le P t) l) as Hd.
    { apply Forall2_same_length_lookup in Hl as [Hlen Hl]. apply Forall2_same_length_lookup.
      split; [done|]. intros i m a Hm Ha. apply Hload; [|by eapply Hl].
      apply list_elem_of_lookup_2 in Hm as Hmin. apply (rows_spec key) in Hmin as [Hmin _]; [|done]. by eapply Hok. }
    assert (Sorted le (rows le P t)) as Hs by apply Sorted_merge_sort, _.
    clear -Hs Hd Hle. induction Hd as [|m a ms l Hm Hd IH]; [done|].
    apply Sorted_inv in Hs as [Hs Hr]. constructor; [by apply IH|].
    destruct Hd as [|m' a' ms l Hm' Hd]; [done|]. apply HdRel_inv in Hr. constructor. by eapply Hle.
  - apply Sorted_merge_sort, _.
  - rewrite merge_sort_Permutation. apply NoDup_Permutation; [by eapply NoDup_fmap_1| |by intros; rewrite Hsame].
    apply NoDup_filter, NoDup_fmap_2_strong; [|apply NoDup_map_to_list].
    intros [i a] [j a'] Hi Hj ?. simpl in *. subst a'. apply elem_of_map_to_list in Hi, Hj.
    rewrite decoded_lookup in Hi, Hj. apply bind_Some in Hi as (m & _ & Hi), Hj as (m' & _ & Hj).
    destruct (Hkey _ _ _ Hi) as [_ <-], (Hkey _ _ _ Hj) as [_ <-]. done.
Qed.

(** A row found by a condition, decoded. *)
Lemma finds_row t m a :
  decodable decode t → find_row P t = Some m → load m = Ok a → finds (decoded decode t) Q (Some a).
Proof.
  intros Hok (HP & id & Hm)%find_row_Some Hl. pose proof (decodable_keyed t Hok _ _ Hm) as Hid.
  assert (decode (key m) m = Some a) as Hd by (apply Hload; [rewrite Hid; by eapply Hok | done]).
  split; [|by eapply HPQ]. exists id. rewrite decoded_lookup, Hm. simpl. by rewrite <- Hid.
Qed.

Lemma finds_no_row t :
  decodable decode t → find_row P t = None → finds (decoded decode t) Q None.
Proof.
  intros Hok Hn%find_row_None. simpl.
  apply (decoded_map_Forall decode t (λ m, ¬ P m) (λ a, ¬ Q a)); [done| |done].
  intros id m a Ha. by rewrite (HPQ _ _ _ Ha).
Qed.
End lookups.

(** Splits a successful run into its successful calls. *)
Ltac inv_run :=
  repeat match goal with
  | H : mbind _ _ _ = (_, Ok _) |- _ => apply mbind_ok in H as (? & ? & ? & H)
  | H : mret _ _ = (_, Ok _) |- _ => unfold mret in H
  | H : mlift _ _ = (_, Ok _) |- _ => unfold mlift in H
  | H : mfail _ _ = (_, Ok _) |- _ => unfold mfail in H; discriminate H
  | H : acquire _ _ = (_, Ok _) |- _ => unfold acquire in H
  | H : draw _ _ = (_, Ok _) |- _ => unfold draw in H
  | H : select _ _ _ = (_, Ok _) |- _ => apply select_ok in H as [? H]
  | H : statement _ _ _ = (_, Ok _) |- _ => apply statement_ok in H
  | H : constrained _ _ _ _ = (_, Ok _) |- _ => apply constrained_ok in H
  | H : (_, _) = (_, _) |- _ => injection H as ?
  end; inv_ok; simplify_eq/=.
