(* ===== verification/OperationRepository.v ===== *)
(** * OperationRepository: the SQLite implementation of the operation store

    Models [persistence/src/operation_repository.rs] over the three tables it
    uses, and proves that it keeps the contract of [OperationEngine]: the
    instance of [OperationStoreLaws] at the end. *)
From S2P Require Import Prelude Text Operation OperationEngine CommandCipher Database.

(** ** The tables ([entity/src]) *)

Record operation_model := mk_operation_model {
  m_id : Uuid;
  m_source : str;
  m_state : str;
  m_command : str;
  m_batch_id : option Uuid;
  m_failure_kind : option str;
  m_created_at : OffsetDateTime;
  m_updated_at : OffsetDateTime;
}.

Record batch_model := mk_batch_model {
  bm_id : Uuid;
  bm_source : str;
  bm_command : str;
  bm_created_at : OffsetDateTime;
}.

(** A target row is keyed by operation and target. *)
Record Tables := mk_tables {
  t_operations : gmap Uuid operation_model;
  t_targets : gmap (Uuid * Uuid) EndpointId;
  t_batches : gmap Uuid batch_model;
}.

(** ** Errors *)

Inductive StoredOperationError :=
| InvalidState | InvalidSource | InvalidCommand
| InvalidCommandCiphertext (source : CommandProtectionError)
| InvalidTimeline | InvalidFailureKind.

Inductive StoredBatchError :=
| BatchInvalidSource | BatchInvalidCommand
| BatchInvalidCommandCiphertext (source : CommandProtectionError).

Inductive OperationRepositoryError :=
| Coordinate
| RowNotFound (operation_id : OperationId)
| TerminalConflict (operation_id : OperationId) (state : OperationState)
| StateConflict (operation_id : OperationId) (expected observed : OperationState)
| Corrupt (operation_id : OperationId) (source : StoredOperationError)
| BatchCorrupt (batch : BatchOperationId) (source : StoredBatchError)
| DatabaseFailed
| CommandEncode
| CommandKeyMissing
| CommandProtection (source : CommandProtectionError).

#[export] Instance repository_errors : DbErrors OperationRepositoryError :=
  { err_coordinate := Coordinate; err_database := DatabaseFailed }.

Inductive StoredCommandError :=
| KeyMissing | Protection (source : CommandProtectionError) | InvalidJson.

(** The [serde_json] encoding of a command: third-party code and derived impls. *)
Class CommandJson (Command : Type) := {
  to_json : Command → option str;
  from_json : str → option Command;
}.

Class CommandJsonLaws (Command : Type) `{CommandJson Command} := {
  json_roundtrip c text : to_json c = Some text → from_json text = Some c;
  json_scalars c text : to_json c = Some text → Forall (λ x, is_scalar x = true) text;
}.

(** The order of acceptance, on rows. *)
Definition model_le (l r : operation_model) : Prop :=
  (m_created_at l < m_created_at r)%Z ∨
  (m_created_at l = m_created_at r ∧ (m_id l ≤ m_id r)%N).
#[export] Instance model_le_dec : RelDecision model_le.
Proof. intros l r. unfold model_le. apply _. Defined.

Definition batch_model_le (l r : batch_model) : Prop :=
  (bm_created_at l < bm_created_at r)%Z ∨
  (bm_created_at l = bm_created_at r ∧ (bm_id l ≤ bm_id r)%N).
#[export] Instance batch_model_le_dec : RelDecision batch_model_le.
Proof. intros l r. unfold batch_model_le. apply _. Defined.

Definition IN_PARAMETER_CHUNK : nat := 999.

(** [slice::chunks]; the fuel is the length, since each chunk takes at least one
    element. *)
Fixpoint chunks_go {A} (fuel n : nat) (l : list A) : list (list A) :=
  match fuel, l with
  | O, _ | _, [] => []
  | S fuel, _ => take n l :: chunks_go fuel n (drop n l)
  end.
Definition chunks {A} (n : nat) (l : list A) : list (list A) := chunks_go (length l) n l.

(** [Vec::dedup] on a list of identities. *)
Fixpoint dedup (l : list Uuid) : list Uuid :=
  match l with
  | x :: (y :: _) as l' => if decide (x = y) then dedup l' else x :: dedup l'
  | l => l
  end.

#[export] Instance N_le_dec' : RelDecision N.le := N.le_dec.

Section repository.
Context (env : Env) {Command Key : Type} `{CipherSuite Key, CommandJson Command}.
(** [SqliteStore::command_key]. *)
Context (command_key : option Key).

Abbreviation Repo := (M (World Tables) OperationRepositoryError).

(** ** Commands at rest *)

(** [command_key]. *)
Definition require_key : Repo Key := mlift (ok_or command_key CommandKeyMissing).

(** [serialize_command]. *)
Definition serialize_command (command : Command) (identity : list N) : Repo str :=
  let! master_key := require_key in
  let! plaintext := mlift (ok_or (to_json command) CommandEncode) in
  let! random := draw env in
  mlift (map_err CommandProtection (encrypt_command random master_key identity plaintext)).

(** [deserialize_command]: a value without the envelope prefix is a row written
    before commands were protected. *)
Definition deserialize_command (stored : str) (identity : list N)
    : result Command StoredCommandError :=
  let? plaintext :=
    if starts_with COMMAND_CIPHER_ENVELOPE_PREFIX stored then
      let? master_key := ok_or command_key KeyMissing in
      map_err Protection (decrypt_command master_key identity stored)
    else Ok stored in
  ok_or (from_json plaintext) InvalidJson.

Definition stored_command_error (operation_id : OperationId) (e : StoredCommandError)
    : OperationRepositoryError :=
  match e with
  | KeyMissing => CommandKeyMissing
  | Protection source => Corrupt operation_id (InvalidCommandCiphertext source)
  | InvalidJson => Corrupt operation_id InvalidCommand
  end.

Definition stored_batch_command_error (batch : BatchOperationId) (e : StoredCommandError)
    : OperationRepositoryError :=
  match e with
  | KeyMissing => CommandKeyMissing
  | Protection source => BatchCorrupt batch (BatchInvalidCommandCiphertext source)
  | InvalidJson => BatchCorrupt batch BatchInvalidCommand
  end.

(** ** Rows to the domain *)

(** [map_stored_batch]. *)
Definition map_stored_batch (batch : BatchOperationId) (model : batch_model)
    : result (BatchOperation Command) OperationRepositoryError :=
  let? source := map_err (λ _, BatchCorrupt batch BatchInvalidSource)
                   (OperationSource_from_str (bm_source model)) in
  let? command := map_err (stored_batch_command_error batch)
                    (deserialize_command (bm_command model) (into_bytes batch)) in
  Ok (mk_batch_operation batch source command (bm_created_at model)).

(** The targets of one operation, by target id. *)
Definition target_rows (t : Tables) (operation_id : OperationId) : list OperationTarget :=
  merge_sort target_le
    ((λ kv : (Uuid * Uuid) * EndpointId, mk_operation_target kv.1.2 kv.2) <$>
     filter (λ kv : (Uuid * Uuid) * EndpointId, kv.1.1 = operation_id)
       (map_to_list (t_targets t))).

(** The columns of an operation row; [map_stored_operation] up to its query. *)
Definition stored_parts (operation_id : OperationId) (model : operation_model)
    : result (OperationSource * OperationState * Command) OperationRepositoryError :=
  let? source := map_err (λ _, Corrupt operation_id InvalidSource)
                   (OperationSource_from_str (m_source model)) in
  let? state := map_err (λ _, Corrupt operation_id InvalidState)
                  (OperationState_from_str (m_state model)) in
  let? command := map_err (stored_command_error operation_id)
                    (deserialize_command (m_command model) (into_bytes operation_id)) in
  Ok (source, state, command).

(** The end of [map_stored_operation], once the targets were read. *)
Definition assemble (operation_id : OperationId) (model : operation_model)
    (parts : OperationSource * OperationState * Command) (targets : list OperationTarget)
    : result (Operation Command) OperationRepositoryError :=
  map_err (λ _, Corrupt operation_id InvalidTimeline)
    (Operation_try_from_parts operation_id parts.1.1 targets parts.2 parts.1.2
       (m_created_at model) (m_updated_at model)).

(** [map_stored_operation]. *)
Definition map_stored_operation (operation_id : OperationId) (model : operation_model)
    : Repo (Operation Command) :=
  let! parts := mlift (stored_parts operation_id model) in
  let! targets := select env (λ t, target_rows t operation_id) in
  mlift (assemble operation_id model parts targets).

(** The [failure_kind] column, parsed if present. *)
Definition stored_failure_kind (operation_id : OperationId) (model : operation_model)
    : result (option FailureKind) OperationRepositoryError :=
  match m_failure_kind model with
  | None => Ok None
  | Some code =>
      let? kind := map_err (λ _, Corrupt operation_id InvalidFailureKind)
                     (FailureKind_from_str code) in
      Ok (Some kind)
  end.

(** ** Writes *)

Definition insert_model (model : operation_model) : Repo () :=
  statement env (λ t,
    match t_operations t !! m_id model with
    | Some _ => None
    | None => Some (mk_tables (<[m_id model := model]> (t_operations t)) (t_targets t)
                      (t_batches t), ())
    end).

(** The primary key is (operation, target); the operation row must exist. *)
Definition insert_target (operation_id : OperationId) (target : OperationTarget) : Repo () :=
  statement env (λ t,
    match t_operations t !! operation_id, t_targets t !! (operation_id, target_id target) with
    | Some _, None =>
        Some (mk_tables (t_operations t)
                (<[(operation_id, target_id target) := endpoint_id target]> (t_targets t))
                (t_batches t), ())
    | _, _ => None
    end).

Definition update_model (model : operation_model) : Repo () :=
  statement env (λ t,
    match t_operations t !! m_id model with
    | None => None
    | Some _ => Some (mk_tables (<[m_id model := model]> (t_operations t)) (t_targets t)
                        (t_batches t), ())
    end).

Definition find_model (id : Uuid) : Repo (option operation_model) :=
  select env (λ t, t_operations t !! id).

(** [insert_operation_aggregate]. *)
Definition insert_operation_aggregate (domain : Operation Command) (batch : option Uuid)
    : Repo () :=
  let! found := find_model (op_id domain) in
  match found with
  | Some _ => mret ()
  | None =>
      let! command := serialize_command (op_command domain) (into_bytes (op_id domain)) in
      do! insert_model
            {| m_id := op_id domain; m_source := OperationSource_as_str (op_source domain);
               m_state := OperationState_as_str (op_state domain); m_command := command;
               m_batch_id := batch; m_failure_kind := None;
               m_created_at := op_created_at domain; m_updated_at := op_updated_at domain |} in
      mfor (op_targets domain) (insert_target (op_id domain))
  end.

(** [create_operation]. *)
Definition create_operation (operation : Operation Command) : Repo () :=
  do! require_key in
  do! acquire env in
  transaction env (insert_operation_aggregate operation None).

Definition insert_batch (model : batch_model) : Repo () :=
  statement env (λ t,
    match t_batches t !! bm_id model with
    | Some _ => None
    | None => Some (mk_tables (t_operations t) (t_targets t)
                      (<[bm_id model := model]> (t_batches t)), ())
    end).

(** [create_batch]. *)
Definition create_batch (batch : BatchOperation Command) (children : list (Operation Command))
    : Repo () :=
  do! require_key in
  do! acquire env in
  transaction env (
    let! found := select env (λ t, t_batches t !! batch_id batch) in
    match found with
    | Some _ => mret ()
    | None =>
        let! command := serialize_command (batch_command batch) (into_bytes (batch_id batch)) in
        do! insert_batch
              {| bm_id := batch_id batch; bm_source := OperationSource_as_str (batch_source batch);
                 bm_command := command; bm_created_at := batch_created_at batch |} in
        mfor children (λ child, insert_operation_aggregate child (Some (batch_id batch)))
    end).

(** [record_failure_kind]. *)
Definition record_failure_kind (operation_id : OperationId) (kind : FailureKind) : Repo () :=
  do! acquire env in
  transaction env (
    let! found := find_model operation_id in
    let! model := mlift (ok_or found (RowNotFound operation_id)) in
    update_model
      {| m_id := m_id model; m_source := m_source model; m_state := m_state model;
         m_command := m_command model; m_batch_id := m_batch_id model;
         m_failure_kind := Some (FailureKind_as_str kind);
         m_created_at := m_created_at model; m_updated_at := m_updated_at model |}).

Definition stored_state (operation_id : OperationId) (model : operation_model)
    : result OperationState OperationRepositoryError :=
  map_err (λ _, Corrupt operation_id InvalidState) (OperationState_from_str (m_state model)).

Definition with_state (model : operation_model) (new_state : OperationState)
    (occurred_at : OffsetDateTime) : operation_model :=
  {| m_id := m_id model; m_source := m_source model;
     m_state := OperationState_as_str new_state; m_command := m_command model;
     m_batch_id := m_batch_id model; m_failure_kind := m_failure_kind model;
     m_created_at := m_created_at model; m_updated_at := occurred_at |}.

(** [apply_transition]. *)
Definition apply_transition (operation_id : OperationId) (new_state : OperationState)
    (occurred_at : OffsetDateTime) : Repo () :=
  do! acquire env in
  transaction env (
    let! found := find_model operation_id in
    let! model := mlift (ok_or found (RowNotFound operation_id)) in
    let! current_state := mlift (stored_state operation_id model) in
    if is_terminal current_state then mfail (TerminalConflict operation_id current_state)
    else update_model (with_state model new_state occurred_at)).

(** [apply_transition_if_current]. *)
Definition apply_transition_if_current (operation_id : OperationId)
    (expected_state new_state : OperationState) (occurred_at : OffsetDateTime) : Repo () :=
  do! acquire env in
  transaction env (
    let! found := find_model operation_id in
    let! model := mlift (ok_or found (RowNotFound operation_id)) in
    let! current_state := mlift (stored_state operation_id model) in
    if decide (current_state ≠ expected_state)
    then mfail (StateConflict operation_id expected_state current_state)
    else if is_terminal current_state
    then mfail (TerminalConflict operation_id current_state)
    else update_model (with_state model new_state occurred_at)).

(** ** Reads *)

(** [find_batch]. *)
Definition find_batch (batch : BatchOperationId) : Repo (option (BatchOperation Command)) :=
  transaction env (
    let! found := select env (λ t, t_batches t !! batch) in
    match found with
    | None => mret None
    | Some model => let! domain := mlift (map_stored_batch batch model) in mret (Some domain)
    end).

(** [list_batches]. *)
Definition list_batches : Repo (list (BatchOperation Command)) :=
  transaction env (
    let! models := select env (λ t, merge_sort batch_model_le (map_to_list (t_batches t)).*2) in
    mtraverse (λ model, mlift (map_stored_batch (bm_id model) model)) models).

(** [find_failure_kind]: the column is parsed after the commit. *)
Definition find_failure_kind (operation_id : OperationId) : Repo (option FailureKind) :=
  let! model := transaction env (find_model operation_id) in
  match model with
  | None => mret None
  | Some model => mlift (stored_failure_kind operation_id model)
  end.

(** [find_operation]. *)
Definition find_operation (operation_id : OperationId) : Repo (option (Operation Command)) :=
  transaction env (
    let! found := find_model operation_id in
    match found with
    | None => mret None
    | Some model =>
        let! domain := map_stored_operation operation_id model in mret (Some domain)
    end).

(** The rows of a query on the operation table, in acceptance order. *)
Definition state_matches (state : option OperationState) (m : operation_model) : Prop :=
  match state with None => True | Some s => m_state m = OperationState_as_str s end.
#[export] Instance state_matches_dec state m : Decision (state_matches state m).
Proof. destruct state; simpl; apply _. Defined.

Definition query_rows (P : operation_model → Prop) `{∀ m, Decision (P m)} (t : Tables)
    : list operation_model :=
  merge_sort model_le (filter P (map_to_list (t_operations t)).*2).

Definition load (model : operation_model) : Repo (Operation Command) :=
  map_stored_operation (m_id model) model.

(** [list_operations]. *)
Definition list_operations (state : option OperationState) : Repo (list (Operation Command)) :=
  transaction env (
    let! models := select env (query_rows (state_matches state)) in
    mtraverse load models).

(** The loop body of [list_operations_classified] and [list_batch_children]. *)
Definition load_classified (model : operation_model)
    : Repo (Operation Command * option FailureKind) :=
  let! failure_kind := mlift (stored_failure_kind (m_id model) model) in
  let! operation := load model in
  mret (operation, failure_kind).

(** [list_operations_classified]. *)
Definition list_operations_classified (state : option OperationState)
    : Repo (list (Operation Command * option FailureKind)) :=
  transaction env (
    let! models := select env (query_rows (state_matches state)) in
    mtraverse load_classified models).

(** The key [list_batch_children] sorts by; [None] sorts first. *)
Definition first_target (child : Operation Command * option FailureKind) : option TargetId :=
  target_id <$> head (op_targets child.1).
Definition child_le (l r : Operation Command * option FailureKind) : Prop :=
  match first_target l, first_target r with
  | None, _ => True
  | Some _, None => False
  | Some a, Some b => (a ≤ b)%N
  end.
#[export] Instance child_le_dec : RelDecision child_le.
Proof. intros l r. unfold child_le. repeat case_match; apply _. Defined.

(** [list_batch_children]. *)
Definition list_batch_children (batch : BatchOperationId)
    : Repo (list (Operation Command * option FailureKind)) :=
  transaction env (
    let! models := select env (λ t, filter (λ m, m_batch_id m = Some batch)
                                      (map_to_list (t_operations t)).*2) in
    let! children := mtraverse load_classified models in
    mret (merge_sort child_le children)).

(** The join of a target row with its operation row, when a state is asked for. *)
Definition joined (state : option OperationState) (t : Tables) (id : Uuid) : Prop :=
  match state, t_operations t !! id with
  | None, _ => True
  | Some _, None => False
  | Some _, Some m => state_matches state m
  end.
#[export] Instance joined_dec state t id : Decision (joined state t id).
Proof. unfold joined. repeat case_match; apply _. Defined.

(** The operations with a target on the endpoint: the first query of
    [list_operations_for_endpoint]. *)
Definition endpoint_ids (state : option OperationState) (endpoint : EndpointId) (t : Tables)
    : list Uuid :=
  (λ kv : (Uuid * Uuid) * EndpointId, kv.1.1) <$>
  filter (λ kv : (Uuid * Uuid) * EndpointId, kv.2 = endpoint ∧ joined state t kv.1.1)
    (map_to_list (t_targets t)).

(** [list_operations_for_endpoint]. *)
Definition list_operations_for_endpoint (state : option OperationState)
    (endpoint : EndpointId) : Repo (list (Operation Command)) :=
  transaction env (
    let! ids := select env (endpoint_ids state endpoint) in
    let ids := dedup (merge_sort N.le ids) in
    if decide (ids = []) then mret []
    else
      let! found := mtraverse (λ chunk,
        select env (query_rows (λ m, m_id m ∈ chunk ∧ state_matches state m)))
        (chunks IN_PARAMETER_CHUNK ids) in
      mtraverse load (merge_sort model_le (concat found))).
End repository.

(** ** What the tables mean *)

Definition to_option {A E} (r : result A E) : option A :=
  match r with Ok a => Some a | Err _ => None end.

(** The stable codes of the columns, at their concrete parsers. *)
Lemma state_code_iff s x : OperationState_from_str s = Ok x ↔ s = OperationState_as_str x.
Proof.
  split; [exact (code_parse_sound (T := OperationState) s x)|].
  intros ->. exact (code_parse_str (T := OperationState) x).
Qed.
Lemma source_code_iff s x : OperationSource_from_str s = Ok x ↔ s = OperationSource_as_str x.
Proof.
  split; [exact (code_parse_sound (T := OperationSource) s x)|].
  intros ->. exact (code_parse_str (T := OperationSource) x).
Qed.
Lemma state_code_inj x y : OperationState_as_str x = OperationState_as_str y → x = y.
Proof. exact (code_str_inj (T := OperationState) x y). Qed.

(** The target map with the rows of one operation added. *)
Definition add_targets (id : OperationId) (targets : list OperationTarget)
    (m : gmap (Uuid * Uuid) EndpointId) : gmap (Uuid * Uuid) EndpointId :=
  foldl (λ m tg, <[(id, target_id tg) := endpoint_id tg]> m) m targets.

Lemma add_targets_other id targets m k :
  k.1 ≠ id ∨ k.2 ∉ target_id <$> targets → add_targets id targets m !! k = m !! k.
Proof.
  destruct k as [k1 k2]. revert m. induction targets as [|tg targets IH]; intros m Hk; [done|].
  change (add_targets id targets (<[(id, target_id tg) := endpoint_id tg]> m) !! (k1, k2)
    = m !! (k1, k2)).
  simpl in Hk. rewrite IH by set_solver. apply lookup_insert_ne. set_solver.
Qed.

Lemma add_targets_in id targets m tg :
  NoDup (target_id <$> targets) → tg ∈ targets →
  add_targets id targets m !! (id, target_id tg) = Some (endpoint_id tg).
Proof.
  revert m. induction targets as [|tg' targets IH]; intros m Hnd Htg; [set_solver|].
  simpl in *. apply NoDup_cons in Hnd as [Hn Hnd].
  apply elem_of_cons in Htg as [->|Htg]; [|by apply IH].
  change (add_targets id targets (<[(id, target_id tg') := endpoint_id tg']> m) !! (id, target_id tg')
    = Some (endpoint_id tg')).
  rewrite add_targets_other by (right; done). apply lookup_insert_eq.
Qed.

(** The rows of one operation are determined by the table. *)
Lemma target_rows_elem t id tg :
  tg ∈ target_rows t id ↔ t_targets t !! (id, target_id tg) = Some (endpoint_id tg).
Proof.
  unfold target_rows. rewrite merge_sort_Permutation, list_elem_of_fmap. split.
  - intros ([[i tid] e] & -> & [Hi Hin]%list_elem_of_filter). simpl in *. subst.
    by apply elem_of_map_to_list in Hin.
  - intros Hl. exists ((id, target_id tg), endpoint_id tg). split; [by destruct tg|].
    apply list_elem_of_filter. split; [done|]. by apply elem_of_map_to_list.
Qed.

Lemma target_rows_NoDup t id : NoDup (target_rows t id).
Proof.
  unfold target_rows. rewrite merge_sort_Permutation. apply NoDup_fmap_2_strong.
  - intros [[i1 t1] e1] [[i2 t2] e2] [H1 _]%list_elem_of_filter [H2 _]%list_elem_of_filter [= ? ?].
    simpl in *. congruence.
  - apply NoDup_filter, NoDup_map_to_list.
Qed.

Lemma target_rows_unique t id l :
  Sorted target_le l → NoDup l →
  (∀ tg, tg ∈ l ↔ t_targets t !! (id, target_id tg) = Some (endpoint_id tg)) →
  target_rows t id = l.
Proof.
  intros Hs Hnd Hl. apply (Sorted_unique_strong target_le).
  - intros x y Hx Hy Hxy Hyx. apply target_rows_elem in Hx. apply Hl in Hy.
    unfold target_le in *. destruct x as [xi xe], y as [yi ye]. simpl in *.
    assert (xi = yi) as -> by lia. congruence.
  - apply Sorted_merge_sort, _.
  - done.
  - apply NoDup_Permutation; [apply target_rows_NoDup | done |].
    intros tg. by rewrite target_rows_elem, Hl.
Qed.

Lemma target_rows_ext t t' id :
  (∀ tid, t_targets t' !! (id, tid) = t_targets t !! (id, tid)) →
  target_rows t' id = target_rows t id.
Proof.
  intros Heq. apply target_rows_unique.
  - apply Sorted_merge_sort, _.
  - apply target_rows_NoDup.
  - intros tg. rewrite target_rows_elem. by rewrite Heq.
Qed.

Lemma target_rows_new t id targets :
  NoDup (target_id <$> targets) → (∀ tid, t_targets t !! (id, tid) = None) →
  target_rows (mk_tables (t_operations t) (add_targets id targets (t_targets t)) (t_batches t)) id =
  merge_sort target_le targets.
Proof.
  intros Hnd Hnone. apply target_rows_unique.
  - apply Sorted_merge_sort, _.
  - rewrite merge_sort_Permutation. by eapply NoDup_fmap_1.
  - intros tg. rewrite merge_sort_Permutation. simpl. split.
    + by apply add_targets_in.
    + intros Hl. destruct (decide (target_id tg ∈ target_id <$> targets)) as [Hin|Hin].
      * apply list_elem_of_fmap in Hin as (tg' & Heq & Hin).
        pose proof (add_targets_in id targets (t_targets t) tg' Hnd Hin) as Hl'.
        rewrite <- Heq, Hl in Hl'. destruct tg, tg'. simpl in *. by simplify_eq.
      * rewrite add_targets_other in Hl by (right; done). by rewrite Hnone in Hl.
Qed.

Section refinement.
Context (env : Env) {Command Key : Type}
  `{CipherSuiteLaws Key, CommandJsonLaws Command} (command_key : option Key).
Context (Hrandom : ∀ n, random_ok (env_random env n)).
Implicit Types (t : Tables) (o : Operation Command) (w : World Tables).

(** The operation a row stands for. *)
Definition decode t (id : OperationId) (m : operation_model)
    : result (Operation Command) OperationRepositoryError :=
  let? parts := stored_parts command_key id m in assemble id m parts (target_rows t id).

Definition view_of t : View Command :=
  {| v_operations := map_imap (λ id m, to_option (decode t id m)) (t_operations t);
     v_kinds := map_imap (λ id m, to_option (stored_failure_kind id m) ≫= λ k, k)
                  (t_operations t);
     v_batches := map_imap (λ id m, to_option (map_stored_batch command_key id m)) (t_batches t);
     v_batch_of := omap m_batch_id (t_operations t) |}.

(** Every row can be read back, under its own key, and no target row is left
    without its operation. *)
Definition tables_ok t : Prop :=
  (∀ id m, t_operations t !! id = Some m →
     m_id m = id ∧ (∃ o, decode t id m = Ok o) ∧ ∃ k, stored_failure_kind id m = Ok k) ∧
  (∀ id m, t_batches t !! id = Some m →
     bm_id m = id ∧ ∃ b, map_stored_batch command_key id m = Ok b) ∧
  (∀ id tid e, t_targets t !! (id, tid) = Some e → is_Some (t_operations t !! id)).

Lemma decode_inv t id m o :
  decode t id m = Ok o →
  op_id o = id ∧ op_targets o = target_rows t id ∧ op_created_at o = m_created_at m ∧
  op_updated_at o = m_updated_at m ∧ (m_created_at m ≤ m_updated_at m)%Z ∧
  m_state m = OperationState_as_str (op_state o) ∧
  m_source m = OperationSource_as_str (op_source o) ∧
  deserialize_command command_key (m_command m) (into_bytes id) = Ok (op_command o).
Proof.
  unfold decode, stored_parts, assemble, Operation_try_from_parts. intros Hd. inv_ok. simpl in *.
  case_decide; [done|]. inv_ok. simpl.
  repeat split; try done; try lia.
  - by apply state_code_iff.
  - by apply source_code_iff.
Qed.

Lemma decode_ok t id m o :
  op_id o = id → op_targets o = target_rows t id → op_created_at o = m_created_at m →
  op_updated_at o = m_updated_at m → (m_created_at m ≤ m_updated_at m)%Z →
  m_state m = OperationState_as_str (op_state o) →
  m_source m = OperationSource_as_str (op_source o) →
  deserialize_command command_key (m_command m) (into_bytes id) = Ok (op_command o) →
  decode t id m = Ok o.
Proof.
  intros Hid Htg Hc Hu Htl Hst Hsrc Hcmd. unfold decode, stored_parts, assemble.
  apply source_code_iff in Hsrc. apply state_code_iff in Hst.
  rewrite Hst, Hsrc, Hcmd. simpl. unfold Operation_try_from_parts. rewrite decide_False by lia. simpl. f_equal.
  destruct o; simpl in *; by subst.
Qed.

Lemma decode_ext t t' id m :
  (∀ tid, t_targets t' !! (id, tid) = t_targets t !! (id, tid)) → decode t' id m = decode t id m.
Proof. intros Heq. unfold decode. by rewrite (target_rows_ext t t'). Qed.

Lemma serialize_command_ok command identity w w' s :
  serialize_command env command_key command identity w = (w', Ok s) →
  w_db w' = w_db w ∧ deserialize_command command_key s identity = Ok command ∧
  starts_with COMMAND_CIPHER_ENVELOPE_PREFIX s = true.
Proof.
  unfold serialize_command, require_key. intros Hs. inv_run.
  match goal with He : encrypt_command _ _ _ _ = Ok _ |- _ =>
    destruct (command_envelope_roundtrip _ _ _ _ _ (Hrandom _) ltac:(by eapply json_scalars) He)
      as [Hd Hp] end.
  split; [done|]. split; [|done]. unfold deserialize_command.
  rewrite Hp. simpl. rewrite Hd. simpl. by erewrite json_roundtrip.
Qed.

Lemma lookup_view t id :
  v_operations (view_of t) !! id = t_operations t !! id ≫= λ m, to_option (decode t id m).
Proof. apply map_lookup_imap. Qed.

Lemma lookup_view_ok t id m :
  tables_ok t → t_operations t !! id = Some m →
  ∃ o, decode t id m = Ok o ∧ v_operations (view_of t) !! id = Some o.
Proof.
  intros (Hops & _) Hm. destruct (Hops _ _ Hm) as (_ & [o Ho] & _).
  exists o. split; [done|]. rewrite lookup_view, Hm. simpl. by rewrite Ho.
Qed.

Lemma lookup_view_None t id :
  t_operations t !! id = None → v_operations (view_of t) !! id = None.
Proof. intros Hm. by rewrite lookup_view, Hm. Qed.

Lemma view_eq (v v' : View Command) :
  (∀ id, v_operations v !! id = v_operations v' !! id) →
  (∀ id, v_kinds v !! id = v_kinds v' !! id) →
  (∀ id, v_batches v !! id = v_batches v' !! id) →
  (∀ id, v_batch_of v !! id = v_batch_of v' !! id) → v = v'.
Proof.
  destruct v, v'. simpl. intros H1' H2' H3' H4'. f_equal; by apply map_eq.
Qed.

Lemma insert_targets_ok id targets w w' :
  mfor targets (insert_target env id) w = (w', Ok ()) →
  w_db w' = mk_tables (t_operations (w_db w)) (add_targets id targets (t_targets (w_db w)))
              (t_batches (w_db w)) ∧
  NoDup (target_id <$> targets) ∧
  ∀ tg, tg ∈ targets → t_targets (w_db w) !! (id, target_id tg) = None.
Proof.
  clear Hrandom.
  revert w. induction targets as [|tg targets IH]; intros w Hrun; simpl in Hrun; inv_run.
  - split; [by destruct (w_db w')|]. split; [constructor | set_solver].
  - match goal with Hs : insert_target _ _ _ _ = _ |- _ => apply statement_ok in Hs;
      repeat case_match; simplify_eq/= end.
    destruct (IH _ Hrun) as (Hdb & Hnd & Hnew). match goal with Hx : mk_tables _ _ _ = w_db _ |- _ => rewrite <- Hx in * end. simpl in *.
    assert (target_id tg ∉ target_id <$> targets) as Hfresh.
    { intros (tg' & Heq & Hin)%list_elem_of_fmap. specialize (Hnew _ Hin).
      rewrite <- Heq, lookup_insert_eq in Hnew. done. }
    split; [done|]. split; [by constructor|]. intros tg' [->|Hin]%elem_of_cons; [done|].
    specialize (Hnew _ Hin). rewrite lookup_insert_ne in Hnew; [done|].
    intros [= Heq]. apply Hfresh. rewrite Heq. by apply list_elem_of_fmap_2.
Qed.

(** The tables after a new operation was inserted. *)
Definition inserted t o (b : option Uuid) (command : str) : Tables :=
  let model := {| m_id := op_id o; m_source := OperationSource_as_str (op_source o);
                  m_state := OperationState_as_str (op_state o); m_command := command;
                  m_batch_id := b; m_failure_kind := None;
                  m_created_at := op_created_at o; m_updated_at := op_updated_at o |} in
  mk_tables (<[op_id o := model]> (t_operations t))
    (add_targets (op_id o) (op_targets o) (t_targets t)) (t_batches t).

Lemma insert_aggregate_ok o b w w' :
  insert_operation_aggregate env command_key o b w = (w', Ok ()) →
  (is_Some (t_operations (w_db w) !! op_id o) ∧ w_db w' = w_db w) ∨
  (t_operations (w_db w) !! op_id o = None ∧ NoDup (target_id <$> op_targets o) ∧
   ∃ command, deserialize_command command_key command (into_bytes (op_id o)) = Ok (op_command o) ∧
     w_db w' = inserted (w_db w) o b command).
Proof.
  unfold insert_operation_aggregate, find_model. intros Hrun. inv_run.
  destruct (t_operations (w_db w) !! op_id o) as [m|] eqn:Hm; inv_run; [left; eauto|]. right.
  match goal with Hs : serialize_command _ _ _ _ _ = _ |- _ =>
    apply serialize_command_ok in Hs as (Hdb & Hcmd & _) end.
  match goal with Hi : insert_model _ _ _ = _ |- _ => apply statement_ok in Hi;
    repeat case_match; simplify_eq/= end.
  apply insert_targets_ok in Hrun as (Hdb' & Hnd & _).
  split; [done|]. split; [done|]. eexists. split; [done|].
  rewrite Hdb'. match goal with Hx : mk_tables _ _ _ = w_db _ |- _ => rewrite <- Hx end.
  simpl. by replace (w_db x1) with (w_db w) by congruence.
Qed.

Lemma decode_inserted t o b command :
  tables_ok t → timeline_ok o → t_operations t !! op_id o = None →
  NoDup (target_id <$> op_targets o) →
  deserialize_command command_key command (into_bytes (op_id o)) = Ok (op_command o) →
  ∀ m, t_operations (inserted t o b command) !! op_id o = Some m →
    decode (inserted t o b command) (op_id o) m = Ok (canonical o).
Proof.
  intros (_ & _ & Hfk) Htl Hnone Hnd Hcmd m Hm. simpl in Hm. rewrite lookup_insert_eq in Hm.
  injection Hm as <-. apply decode_ok; simpl; try done.
  symmetry. etrans; [|apply (target_rows_new t)]; [|done|].
  - by apply target_rows_ext.
  - intros tid. destruct (t_targets t !! (op_id o, tid)) eqn:Ht; [|done].
    apply Hfk in Ht. rewrite Hnone in Ht. by destruct Ht.
Qed.

Lemma decode_inserted_other t o b command id m :
  id ≠ op_id o → decode (inserted t o b command) id m = decode t id m.
Proof. intros Hid. apply decode_ext. intros tid. apply add_targets_other. by left. Qed.

(** Inserting an operation keeps the tables readable and is the abstract
    creation. *)
Lemma insert_aggregate_refines o b w w' :
  tables_ok (w_db w) → timeline_ok o →
  insert_operation_aggregate env command_key o b w = (w', Ok ()) →
  tables_ok (w_db w') ∧ view_of (w_db w') = view_create b (view_of (w_db w)) o.
Proof.
  intros Hok Htl Hrun. set (t := w_db w) in *.
  apply insert_aggregate_ok in Hrun as [[[m Hm] ->]|(Hnone & Hnd & command & Hcmd & ->)].
  { split; [done|]. unfold view_create.
    destruct (lookup_view_ok _ _ _ Hok Hm) as (o' & _ & ->). done. }
  fold t in Hnone |- *.
  pose proof (decode_inserted t o b command Hok Htl Hnone Hnd Hcmd) as Hnew.
  pose proof Hok as (Hops & Hbat & Hfk). split.
  - split; [|split; [done|]].
    + intros id m Hm. destruct (decide (id = op_id o)) as [->|Hne].
      * specialize (Hnew _ Hm). simpl in Hm. rewrite lookup_insert_eq in Hm.
        injection Hm as <-. simpl. eauto.
      * pose proof Hm as Hm'. simpl in Hm'. rewrite lookup_insert_ne in Hm' by done.
        rewrite decode_inserted_other by done. eauto.
    + intros id tid e He. simpl in *. destruct (decide (id = op_id o)) as [->|Hne].
      * by rewrite lookup_insert_eq.
      * rewrite lookup_insert_ne by done. rewrite add_targets_other in He by (by left). eauto.
  - unfold view_create. rewrite (lookup_view_None _ _ Hnone). apply view_eq; intros id.
    + rewrite lookup_view. simpl. destruct (decide (id = op_id o)) as [->|Hne].
      * rewrite !lookup_insert_eq. simpl.
        rewrite (Hnew _ (lookup_insert_eq _ _ _)). done.
      * rewrite !lookup_insert_ne by done. rewrite map_lookup_imap.
        destruct (t_operations t !! id); [|done]. simpl. by rewrite decode_inserted_other.
    + simpl. rewrite !map_lookup_imap. destruct (decide (id = op_id o)) as [->|Hne].
      * rewrite lookup_insert_eq. by rewrite Hnone.
      * by rewrite lookup_insert_ne.
    + done.
    + simpl. rewrite lookup_omap. destruct (decide (id = op_id o)) as [->|Hne].
      * rewrite lookup_insert_eq. simpl. destruct b as [b|]; [by rewrite lookup_insert_eq|].
        rewrite lookup_omap. by rewrite Hnone.
      * rewrite lookup_insert_ne by done.
        destruct b; [rewrite lookup_insert_ne by done|]; by rewrite lookup_omap.
Qed.

(** Replacing a row by a readable one of the same operation. *)
Lemma update_refines t id m m' o' k :
  tables_ok t → t_operations t !! id = Some m → m_id m' = id → m_batch_id m' = m_batch_id m →
  decode t id m' = Ok o' → stored_failure_kind id m' = Ok k →
  let t' := mk_tables (<[id := m']> (t_operations t)) (t_targets t) (t_batches t) in
  tables_ok t' ∧
  view_of t' = mk_view (<[id := o']> (v_operations (view_of t)))
                 (partial_alter (λ _, k) id (v_kinds (view_of t)))
                 (v_batches (view_of t)) (v_batch_of (view_of t)).
Proof.
  intros (Hops & Hbat & Hfk) Hm Hid Hb Hd Hk t'. split.
  - split; [|split; [done|]].
    + intros i mi Hi. simpl in Hi. destruct (decide (i = id)) as [->|Hne].
      * rewrite lookup_insert_eq in Hi. injection Hi as <-. split; [done|].
        split; [exists o' | by exists k]. rewrite <- Hd. by apply decode_ext.
      * rewrite lookup_insert_ne in Hi by done. rewrite (decode_ext t t') by done. eauto.
    + intros i tid e He. simpl in *. destruct (decide (i = id)) as [->|Hne].
      * by rewrite lookup_insert_eq.
      * rewrite lookup_insert_ne by done. eauto.
  - apply view_eq; intros i; simpl; rewrite ?map_lookup_imap, ?lookup_omap.
    + destruct (decide (i = id)) as [->|Hne].
      * rewrite !lookup_insert_eq. simpl. rewrite (decode_ext t t') by done. by rewrite Hd.
      * rewrite !lookup_insert_ne, map_lookup_imap by done.
        destruct (t_operations t !! i); [|done]. simpl. by rewrite (decode_ext t t').
    + destruct (decide (i = id)) as [->|Hne].
      * rewrite lookup_insert_eq, lookup_partial_alter_eq. simpl. by rewrite Hk.
      * rewrite lookup_insert_ne, lookup_partial_alter_ne, map_lookup_imap by done. done.
    + done.
    + destruct (decide (i = id)) as [->|Hne].
      * rewrite lookup_insert_eq, Hm. simpl. done.
      * by rewrite lookup_insert_ne.
Qed.

Lemma partial_alter_same {A} (m : gmap Uuid A) id k :
  m !! id = k → partial_alter (λ _, k) id m = m.
Proof.
  intros <-. apply map_eq. intros i. destruct (decide (i = id)) as [->|Hne].
  - by rewrite lookup_partial_alter_eq.
  - by rewrite lookup_partial_alter_ne.
Qed.

(** The state update of both transitions is the abstract row step. *)
Lemma with_state_refines t id m o new at_ :
  tables_ok t → t_operations t !! id = Some m → decode t id m = Ok o →
  (op_created_at o ≤ at_)%Z →
  let t' := mk_tables (<[id := with_state m new at_]> (t_operations t)) (t_targets t) (t_batches t) in
  tables_ok t' ∧
  view_of t' = with_operations (view_of t) (<[id := set_state o new at_]> (v_operations (view_of t))).
Proof.
  intros Hok Hm Hd Hat. pose proof Hok as (Hops & _).
  destruct (Hops _ _ Hm) as (Hid & _ & k & Hk).
  apply decode_inv in Hd as (Hoid & Htg & Hc & Hu & Htl & Hst & Hsrc & Hcmd).
  destruct (update_refines t id m (with_state m new at_) (set_state o new at_) k) as [Hok' Hv];
    try done.
  - apply decode_ok; simpl; try done. congruence.
  - split; [done|]. rewrite Hv. unfold with_operations. f_equal.
    apply partial_alter_same. simpl. rewrite map_lookup_imap, Hm. simpl. by rewrite Hk.
Qed.

Lemma update_model_ok m w w' :
  update_model env m w = (w', Ok ()) →
  w_db w' = mk_tables (<[m_id m := m]> (t_operations (w_db w))) (t_targets (w_db w))
              (t_batches (w_db w)).
Proof.
  unfold update_model. intros Hs. apply statement_ok in Hs. by case_match; simplify_eq.
Qed.

#[local] Opaque view_of.

(** The shared end of the two transitions: the row that was read, its parsed
    state, and the update. *)
Lemma row_update_refines id m st new at_ w w1 w' :
  tables_ok (w_db w) → stamp_ok (view_of (w_db w)) id at_ → w_db w1 = w_db w →
  t_operations (w_db w) !! id = Some m → stored_state id m = Ok st → is_terminal st = false →
  update_model env (with_state m new at_) w1 = (w', Ok ()) →
  tables_ok (w_db w') ∧
  ∃ o ops, v_operations (view_of (w_db w)) !! id = Some o ∧ op_state o = st ∧
    row_step (v_operations (view_of (w_db w))) id new at_ = Some ops ∧
    view_of (w_db w') = with_operations (view_of (w_db w)) ops.
Proof.
  intros Hok Hst Hw1 Hm Hs Ht Hrun.
  destruct (lookup_view_ok _ _ _ Hok Hm) as (o & Ho & Hv).
  pose proof Ho as (_ & _ & _ & _ & _ & Hstate & _)%decode_inv.
  apply state_code_iff in Hstate. unfold stored_state in Hs. rewrite Hstate in Hs.
  injection Hs as <-.
  pose proof Hok as (Hops & _). destruct (Hops _ _ Hm) as (Hmid & _).
  apply update_model_ok in Hrun. simpl in Hrun. rewrite Hmid, Hw1 in Hrun. rewrite Hrun.
  destruct (with_state_refines (w_db w) id m o new at_ Hok Hm Ho (Hst _ Hv)) as [Hok' Hv'].
  split; [done|]. unfold row_step. rewrite Hv, Ht. eauto 10.
Qed.

Lemma apply_transition_refines id new at_ w w' r :
  tables_ok (w_db w) → stamp_ok (view_of (w_db w)) id at_ →
  apply_transition env id new at_ w = (w', r) →
  writes (λ w, view_of (w_db w)) (λ w, tables_ok (w_db w)) (λ v v', ∃ ops,
    row_step (v_operations v) id new at_ = Some ops ∧ v' = with_operations v ops) w w' r.
Proof.
  intros Hok Hst Hrun. unfold apply_transition in Hrun. unfold writes.
  apply gated_write in Hrun as [(e & -> & ->)|([] & w1 & w2 & -> & Hw1 & Hrun & ->)]; [done|].
  unfold find_model in Hrun. inv_run. rewrite Hw1 in *. case_match; [by inv_run|].
  eapply row_update_refines in Hrun as (? & o & ops & ? & ? & ? & ?); [|done..].
  split; [done|]. by exists ops.
Qed.

Lemma apply_transition_if_current_refines id expected new at_ w w' r :
  tables_ok (w_db w) → stamp_ok (view_of (w_db w)) id at_ →
  apply_transition_if_current env id expected new at_ w = (w', r) →
  writes (λ w, view_of (w_db w)) (λ w, tables_ok (w_db w)) (λ v v', ∃ ops,
    row_step_if (v_operations v) id expected new at_ = Some ops ∧
    v' = with_operations v ops) w w' r.
Proof.
  intros Hok Hst Hrun. unfold apply_transition_if_current in Hrun. unfold writes.
  apply gated_write in Hrun as [(e & -> & ->)|([] & w1 & w2 & -> & Hw1 & Hrun & ->)]; [done|].
  unfold find_model in Hrun. inv_run. rewrite Hw1 in *.
  case_decide as Hexp; [by inv_run|]. case_match; [by inv_run|].
  eapply row_update_refines in Hrun as (? & o & ops & Ho & ? & ? & ?); [|done..].
  split; [done|]. exists ops. split; [|done]. unfold row_step_if. cbn beta. rewrite Ho.
  rewrite decide_True; [done|]. congruence.
Qed.

Lemma record_failure_kind_refines id k w w' r :
  tables_ok (w_db w) → record_failure_kind env id k w = (w', r) →
  writes (λ w, view_of (w_db w)) (λ w, tables_ok (w_db w)) (λ v v',
    is_Some (v_operations v !! id) ∧
    v' = mk_view (v_operations v) (<[id := k]> (v_kinds v)) (v_batches v) (v_batch_of v)) w w' r.
Proof.
  intros Hok Hrun. unfold record_failure_kind in Hrun. unfold writes.
  apply gated_write in Hrun as [(e & -> & ->)|([] & w1 & w2 & -> & Hw1 & Hrun & ->)]; [done|].
  unfold find_model in Hrun. inv_run. rewrite Hw1 in *.
  match goal with Hx : t_operations _ !! id = Some ?x |- _ => rename x into m; rename Hx into Hm end.
  destruct (lookup_view_ok _ _ _ Hok Hm) as (o & Ho & Hv).
  pose proof Hok as (Hops & _). destruct (Hops _ _ Hm) as (Hmid & _ & k0 & Hk0).
  apply update_model_ok in Hrun. simpl in Hrun. rewrite Hmid in Hrun.
  match goal with Hx : w_db _ = w_db w |- _ => rewrite Hx in Hrun end. rewrite Hrun.
  pose proof Ho as (Hoid & Htg & Hc & Hu & Htl & Hst & Hsrc & Hcmd)%decode_inv.
  edestruct (update_refines (w_db w) id m) as [Hok' Hv']; [done|done| | | | |split; [exact Hok'|]].
  - done.
  - done.
  - apply decode_ok; simpl; done.
  - unfold stored_failure_kind. simpl. by destruct k.
  - split; [by rewrite Hv|]. rewrite Hv'. f_equal. by apply insert_id.
Qed.

Lemma create_operation_refines o w w' r :
  tables_ok (w_db w) → timeline_ok o →
  create_operation env command_key o w = (w', r) →
  writes (λ w, view_of (w_db w)) (λ w, tables_ok (w_db w))
    (λ v v', v' = view_create None v o) w w' r.
Proof.
  intros Hok Htl Hrun. unfold create_operation, require_key in Hrun. unfold writes.
  apply mbind_inv in Hrun as [(k & w0 & Hk & Hrun)|(e & Hk & ->)];
    unfold mlift in Hk; injection Hk as <- Hk; [|done].
  apply gated_write in Hrun as [(e & -> & ->)|([] & w1 & w2 & -> & Hw1 & Hrun & ->)]; [done|].
  apply insert_aggregate_refines in Hrun as [? Hv]; [|by rewrite Hw1|done].
  rewrite Hw1 in Hv. done.
Qed.

Lemma children_refine b children w w' :
  tables_ok (w_db w) → Forall timeline_ok children →
  mfor children (λ c, insert_operation_aggregate env command_key c b) w = (w', Ok ()) →
  tables_ok (w_db w') ∧ view_of (w_db w') = foldl (view_create b) (view_of (w_db w)) children.
Proof.
  intros Hok Htl. revert w Hok. induction Htl as [|c children Hc Htl IH]; intros w Hok Hrun.
  - unfold mfor in Hrun. inv_run. done.
  - cbn [mfor] in Hrun. inv_run. destruct x.
    match goal with Hi : insert_operation_aggregate _ _ _ _ _ = _ |- _ =>
      apply insert_aggregate_refines in Hi as [Hok1 Hv1]; [|done..] end.
    destruct (IH _ Hok1 Hrun) as [Hok' Hv']. split; [done|]. by rewrite Hv', Hv1.
Qed.

(** The parent row of a new batch changes nothing else. *)
Lemma insert_batch_refines (b : BatchOperation Command) command w w' :
  tables_ok (w_db w) →
  deserialize_command command_key command (into_bytes (batch_id b)) = Ok (batch_command b) →
  insert_batch env {| bm_id := batch_id b; bm_source := OperationSource_as_str (batch_source b);
                      bm_command := command; bm_created_at := batch_created_at b |} w
    = (w', Ok ()) →
  tables_ok (w_db w') ∧
  view_of (w_db w') = mk_view (v_operations (view_of (w_db w))) (v_kinds (view_of (w_db w)))
    (<[batch_id b := b]> (v_batches (view_of (w_db w)))) (v_batch_of (view_of (w_db w))).
Proof.
  intros (Hops & Hbat & Hfk) Hcmd Hrun. apply statement_ok in Hrun. simpl in Hrun.
  case_match eqn:Hnone; [done|]. injection Hrun as Hdb. rewrite <- Hdb.
  match goal with |- context [<[_ := ?m]> (t_batches _)] => set (bm := m) in * end.
  assert (map_stored_batch command_key (batch_id b) bm = Ok b) as Hb.
  { unfold map_stored_batch. simpl. rewrite (proj2 (source_code_iff _ (batch_source b)) eq_refl).
    simpl. rewrite Hcmd. simpl. by destruct b. }
  split.
  - split; [done|]. split; [|done]. simpl. intros id m Hm.
    destruct (decide (id = batch_id b)) as [->|Hne].
    + rewrite lookup_insert_eq in Hm. injection Hm as <-. eauto.
    + rewrite lookup_insert_ne in Hm by done. eauto.
  - #[local] Transparent view_of. apply view_eq; intros id; simpl; try done.
    rewrite map_lookup_imap. destruct (decide (id = batch_id b)) as [->|Hne].
    + rewrite !lookup_insert_eq. simpl. by rewrite Hb.
    + by rewrite !lookup_insert_ne, map_lookup_imap.
Qed.
#[local] Opaque view_of.

Lemma create_batch_refines b children w w' r :
  tables_ok (w_db w) → Forall timeline_ok children →
  create_batch env command_key b children w = (w', r) →
  writes (λ w, view_of (w_db w)) (λ w, tables_ok (w_db w))
    (λ v v', v' = view_create_batch v b children) w w' r.
Proof.
  intros Hok Htl Hrun. unfold create_batch, require_key in Hrun. unfold writes.
  apply mbind_inv in Hrun as [(k & w0 & Hk & Hrun)|(e & Hk & ->)];
    unfold mlift in Hk; injection Hk as <- Hk; [|done].
  apply gated_write in Hrun as [(e & -> & ->)|([] & w1 & w2 & -> & Hw1 & Hrun & ->)]; [done|].
  inv_run. rewrite Hw1 in *. unfold view_create_batch.
  assert (v_batches (view_of (w_db w)) !! batch_id b =
    t_batches (w_db w) !! batch_id b ≫= λ m, to_option (map_stored_batch command_key (batch_id b) m))
    as -> by apply map_lookup_imap.
  destruct (t_batches (w_db w) !! batch_id b) as [m|] eqn:Hm; simpl; inv_run.
  { pose proof Hok as (_ & Hbat & _). destruct (Hbat _ _ Hm) as (_ & b' & ->). simpl.
    split; [by congruence|]. congruence. }
  match goal with Hs : serialize_command _ _ _ _ _ = _ |- _ =>
    apply serialize_command_ok in Hs as (Hdb & Hcmd & _) end.
  match goal with Hi : insert_batch _ _ _ = (_, Ok ?u) |- _ => destruct u;
    apply insert_batch_refines in Hi as [Hok1 Hv1]; [|congruence|done] end.
  apply children_refine in Hrun as [Hok2 Hv2]; [|done..].
  split; [done|]. rewrite Hv2, Hv1. do 2 f_equal; congruence.
Qed.

Lemma map_stored_operation_ok id m w w' o :
  map_stored_operation env command_key id m w = (w', Ok o) →
  w_db w' = w_db w ∧ decode (w_db w) id m = Ok o.
Proof.
  unfold map_stored_operation, decode. intros Hrun. inv_run.
  match goal with Hp : stored_parts _ _ _ = _ |- _ => rewrite Hp end. simpl. split; congruence.
Qed.

(** A transaction that only reads. *)
Lemma read_refines {A} (body : M (World Tables) OperationRepositoryError A)
    (P : View Command → A → Prop) w w' r :
  tables_ok (w_db w) →
  (∀ w1 w2 a, w_db w1 = w_db w → body w1 = (w2, Ok a) →
     w_db w2 = w_db w ∧ P (view_of (w_db w)) a) →
  transaction env body w = (w', r) →
  reads (λ w, view_of (w_db w)) (λ w, tables_ok (w_db w)) P w w' r.
Proof.
  intros Hok Hbody Hrun. unfold reads. destruct r as [a|e].
  - apply transaction_ok in Hrun as (w1 & w2 & Hw1 & Hrun & ->).
    destruct (Hbody _ _ _ Hw1 Hrun) as [-> HP]. split; [done|]. split; [done|].
    by intros x [= <-].
  - rewrite (transaction_err _ _ _ _ _ Hrun). done.
Qed.

Lemma find_operation_refines id w w' r :
  tables_ok (w_db w) → find_operation env command_key id w = (w', r) →
  reads (λ w, view_of (w_db w)) (λ w, tables_ok (w_db w))
    (λ v x, x = v_operations v !! id) w w' r.
Proof.
  intros Hok. apply read_refines; [done|]. intros w1 w2 x Hw1 Hrun.
  unfold find_model in Hrun. inv_run. rewrite Hw1 in *.
  destruct (t_operations (w_db w) !! id) as [m|] eqn:Hm; inv_run.
  - match goal with Hs : map_stored_operation _ _ _ _ _ = _ |- _ =>
      apply map_stored_operation_ok in Hs as [Hdb Hd] end.
    split; [congruence|]. rewrite lookup_view, Hm. simpl.
    match goal with Hx : w_db ?y = w_db w, Hd : decode (w_db ?y) _ _ = _ |- _ => rewrite Hx in Hd end.
    by rewrite Hd.
  - split; [congruence|]. by rewrite lookup_view, Hm.
Qed.

Lemma find_failure_kind_refines id w w' r :
  tables_ok (w_db w) → find_failure_kind env id w = (w', r) →
  reads (λ w, view_of (w_db w)) (λ w, tables_ok (w_db w))
    (λ v x, x = v_kinds v !! id) w w' r.
Proof.
  intros Hok Hrun. unfold find_failure_kind in Hrun.
  assert (v_kinds (view_of (w_db w)) !! id =
    t_operations (w_db w) !! id ≫= λ m, to_option (stored_failure_kind id m) ≫= λ k, k) as Hk
    by apply map_lookup_imap.
  apply mbind_inv in Hrun as [(found & w1 & Hf & Hrun)|(e & Hf & ->)].
  - apply transaction_ok in Hf as (w2 & w3 & Hw2 & Hf & Hdb). unfold find_model in Hf. inv_run.
    assert (w_db w' = w_db w) as Hw'.
    { case_match; [unfold mlift in Hrun | unfold mret in Hrun]; injection Hrun as <- _; congruence. }
    unfold reads. rewrite Hw'. split; [done|]. split; [done|]. intros x ->. rewrite Hk.
    rewrite Hw2 in Hrun. pose proof Hok as (Hops & _).
    destruct (t_operations (w_db w) !! id) as [m|] eqn:Hm; inv_run; [|done].
    match goal with Hs : stored_failure_kind _ _ = _ |- _ => by rewrite Hs end.
  - apply transaction_err in Hf. unfold reads. rewrite Hf. done.
Qed.

(** ** Listings *)

(** [l] lists, once each and in acceptance order, the stored operations that
    satisfy [Q]. *)
Definition listing t (Q : Operation Command → Prop) (l : list (Operation Command)) : Prop :=
  Sorted acceptance_le l ∧ NoDup l ∧
  ∀ o, o ∈ l ↔ v_operations (view_of t) !! op_id o = Some o ∧ Q o.

Lemma listing_unique t Q l l' : listing t Q l → listing t Q l' → l = l'.
Proof.
  intros (Hs & Hnd & Hl) (Hs' & Hnd' & Hl'). apply (Sorted_unique_strong acceptance_le).
  - intros x y [Hx _]%Hl [Hy _]%Hl' Hxy Hyx. unfold acceptance_le in *.
    assert (op_id x = op_id y) as Heq by lia. rewrite Heq in Hx. congruence.
  - done.
  - done.
  - apply NoDup_Permutation; [done..|]. intros o. by rewrite Hl, Hl'.
Qed.

Lemma traverse_load_ok models w w' l :
  mtraverse (load env command_key) models w = (w', Ok l) →
  w_db w' = w_db w ∧ Forall2 (λ m o, decode (w_db w) (m_id m) m = Ok o) models l.
Proof.
  revert w l. induction models as [|m models IH]; intros w l Hrun; cbn [mtraverse] in Hrun; inv_run.
  - split; [done | constructor].
  - match goal with Hl : load _ _ _ _ = _ |- _ =>
      apply map_stored_operation_ok in Hl as [Hdb Hd] end.
    match goal with Ht : mtraverse _ _ _ = _ |- _ => apply IH in Ht as [Hdb' Hf] end.
    rewrite Hdb in *. split; [congruence | by constructor].
Qed.

Lemma decoded_sorted t models l :
  Forall2 (λ m o, decode t (m_id m) m = Ok o) models l →
  Sorted model_le models → Sorted acceptance_le l.
Proof.
  induction 1 as [|m o models l Hd Hf IH]; intros Hs; [constructor|].
  apply Sorted_inv in Hs as [Hs Hhd]. constructor; [by apply IH|].
  destruct Hf as [|m' o' models l Hd' Hf]; [constructor|]. constructor.
  apply HdRel_inv in Hhd.
  apply decode_inv in Hd as (Hid & _ & Hc & _). apply decode_inv in Hd' as (Hid' & _ & Hc' & _).
  unfold model_le in Hhd. unfold acceptance_le. congruence.
Qed.

Lemma decoded_listing t (Q : Operation Command → Prop) models l :
  tables_ok t → Sorted model_le models → NoDup models →
  (∀ m, m ∈ models → t_operations t !! m_id m = Some m) →
  (∀ id m o, t_operations t !! id = Some m → decode t id m = Ok o → m ∈ models ↔ Q o) →
  Forall2 (λ m o, decode t (m_id m) m = Ok o) models l → listing t Q l.
Proof.
  intros Hok Hs Hnd Hin HQ Hf. split; [by eapply decoded_sorted|].
  assert (op_id <$> l = m_id <$> models) as Hids.
  { clear -Hf. induction Hf as [|m o models l Hd Hf IH]; [done|]. simpl. f_equal; [|done].
    by apply decode_inv in Hd as [-> _]. }
  split.
  - apply (NoDup_fmap_1 op_id). rewrite Hids. apply NoDup_fmap_2_strong; [|done].
    intros m1 m2 H1' H2' Heq. apply Hin in H1', H2'. rewrite Heq in H1'. congruence.
  - intros o. split.
    + intros Ho. apply list_elem_of_lookup in Ho as [i Ho].
      destruct (Forall2_lookup_r _ _ _ _ _ Hf Ho) as (m & Hm & Hd).
      apply list_elem_of_lookup_2 in Hm. pose proof (Hin _ Hm) as Hrow.
      pose proof Hd as (Hid & _)%decode_inv. rewrite Hid.
      split; [rewrite lookup_view, Hrow; simpl; by rewrite Hd|]. by eapply HQ.
    + intros [Hv HQo]. rewrite lookup_view in Hv.
      destruct (t_operations t !! op_id o) as [m|] eqn:Hrow; simpl in Hv; [|done].
      destruct (decode t (op_id o) m) as [o'|] eqn:Hd; [|done]. simpl in Hv. simplify_eq.
      assert (m ∈ models) as Hm by (by eapply HQ).
      apply list_elem_of_lookup in Hm as [i Hm].
      destruct (Forall2_lookup_l _ _ _ _ _ Hf Hm) as (o' & Ho' & Hd').
      pose proof Hok as (Hops & _). destruct (Hops _ _ Hrow) as (Hmid & _).
      rewrite Hmid, Hd in Hd'. simplify_eq. by apply list_elem_of_lookup_2 in Ho'.
Qed.

#[local] Instance model_le_trans : Transitive model_le.
Proof. intros x y z. unfold model_le. lia. Qed.
#[local] Instance model_le_total : Total model_le.
Proof. intros x y. unfold model_le. lia. Qed.

Lemma rows_elem t m :
  tables_ok t → m ∈ (map_to_list (t_operations t)).*2 ↔ t_operations t !! m_id m = Some m.
Proof.
  intros (Hops & _). rewrite list_elem_of_fmap. split.
  - intros ([id m'] & -> & Hin). apply elem_of_map_to_list in Hin. simpl.
    destruct (Hops _ _ Hin) as (-> & _). done.
  - intros Hm. exists (m_id m, m). split; [done|]. by apply elem_of_map_to_list.
Qed.

Lemma rows_NoDup t : tables_ok t → NoDup (map_to_list (t_operations t)).*2.
Proof.
  intros (Hops & _). apply NoDup_fmap_2_strong; [|apply NoDup_map_to_list].
  intros [i m] [j m'] Hi Hj ?. simpl in *. subst m'. apply elem_of_map_to_list in Hi, Hj.
  destruct (Hops _ _ Hi) as (<- & _), (Hops _ _ Hj) as (<- & _). done.
Qed.

Lemma state_matches_listed t id m o f :
  decode t id m = Ok o → state_matches f m ↔ listed f o.
Proof.
  intros (_ & _ & _ & _ & _ & Hst & _)%decode_inv. destruct f as [st|]; [|done]. simpl.
  rewrite Hst. split; [apply state_code_inj | by intros ->].
Qed.

Lemma query_rows_listing t (P : operation_model → Prop) `{∀ m, Decision (P m)}
    (Q : Operation Command → Prop) l :
  tables_ok t →
  (∀ id m o, t_operations t !! id = Some m → decode t id m = Ok o → P m ↔ Q o) →
  Forall2 (λ m o, decode t (m_id m) m = Ok o) (query_rows P t) l → listing t Q l.
Proof.
  intros Hok HPQ. unfold query_rows. apply decoded_listing; [done|apply Sorted_merge_sort, _| | |].
  - rewrite merge_sort_Permutation. by apply NoDup_filter, rows_NoDup.
  - intros m. rewrite merge_sort_Permutation, list_elem_of_filter. intros [_ Hm].
    by apply rows_elem.
  - intros id m o Hm Hd. rewrite merge_sort_Permutation, list_elem_of_filter.
    rewrite <- HPQ by done. pose proof Hok as (Hops & _). destruct (Hops _ _ Hm) as (Hid & _).
    rewrite rows_elem, Hid by done. naive_solver.
Qed.

Lemma list_operations_listing f w w' l :
  tables_ok (w_db w) → list_operations env command_key f w = (w', Ok l) →
  w_db w' = w_db w ∧ listing (w_db w) (listed f) l.
Proof.
  intros Hok Hrun. apply transaction_ok in Hrun as (w1 & w2 & Hw1 & Hrun & ->). inv_run.
  apply traverse_load_ok in Hrun as [Hdb Hf]. split; [congruence|].
  match goal with Hx : w_db _ = w_db w1 |- _ => rewrite Hx, Hw1 in Hf end.
  eapply query_rows_listing; [done| |done]. intros. by eapply state_matches_listed.
Qed.

Lemma view_rows_elem t o :
  tables_ok t → o ∈ view_rows (view_of t) ↔ v_operations (view_of t) !! op_id o = Some o.
Proof.
  intros Hok. unfold view_rows. rewrite list_elem_of_fmap. split.
  - intros ([id o'] & -> & Hin). apply elem_of_map_to_list in Hin. simpl.
    pose proof Hin as Hl. rewrite lookup_view in Hin.
    destruct (t_operations t !! id) as [m|]; [|done]. simpl in Hin.
    destruct (decode t id m) eqn:Hd; [|done]. simpl in Hin. simplify_eq.
    apply decode_inv in Hd as [-> _]. done.
  - intros Ho. exists (op_id o, o). split; [done|]. by apply elem_of_map_to_list.
Qed.

Lemma view_rows_NoDup t : tables_ok t → NoDup (view_rows (view_of t)).
Proof.
  intros Hok. unfold view_rows. apply NoDup_fmap_2_strong; [|apply NoDup_map_to_list].
  assert (∀ i o, (i, o) ∈ map_to_list (v_operations (view_of t)) → i = op_id o) as Hkey.
  { intros i o Hi. apply elem_of_map_to_list in Hi. rewrite lookup_view in Hi.
    destruct (t_operations t !! i) as [m|]; [|done]. simpl in Hi.
    destruct (decode t i m) eqn:Hd; [|done]. simpl in Hi. simplify_eq.
    by apply decode_inv in Hd as [-> _]. }
  intros [i o] [j o'] Hi Hj ?. simpl in *. subst. by rewrite (Hkey _ _ Hi), (Hkey _ _ Hj).
Qed.

Lemma list_operations_refines f w w' r :
  tables_ok (w_db w) → list_operations env command_key f w = (w', r) →
  reads (λ w, view_of (w_db w)) (λ w, tables_ok (w_db w))
    (λ v l, l ≡ₚ view_list v f) w w' r.
Proof.
  intros Hok Hrun. unfold reads. destruct r as [l|e].
  - destruct (list_operations_listing _ _ _ _ Hok Hrun) as (-> & _ & Hnd & Hl).
    split; [done|]. split; [done|]. intros x [= <-].
    apply NoDup_Permutation; [done|by apply NoDup_filter, view_rows_NoDup|].
    intros o. unfold view_list. rewrite Hl, list_elem_of_filter, view_rows_elem by done. tauto.
  - rewrite (transaction_err _ _ _ _ _ Hrun). done.
Qed.

(** ** The endpoint-scoped listing *)

Lemma chunks_go_concat {A} fuel n (l : list A) :
  0 < n → length l ≤ fuel → concat (chunks_go fuel n l) = l.
Proof.
  intros Hn. revert l. induction fuel as [|fuel IH]; intros [|x l] Hl; simpl in *; try done; [lia|].
  destruct n as [|n]; [lia|]. rewrite IH; [apply (take_drop (S n) (x :: l))|].
  rewrite length_drop. simpl. lia.
Qed.

Lemma dedup_elem l x : x ∈ dedup l ↔ x ∈ l.
Proof.
  clear Hrandom.
  induction l as [|y l IH]; [done|]. destruct l as [|z l]; [done|].
  change (x ∈ (if decide (y = z) then dedup (z :: l) else y :: dedup (z :: l)) ↔ x ∈ y :: z :: l).
  case_decide; set_solver.
Qed.

Lemma dedup_NoDup l : StronglySorted N.le l → NoDup (dedup l).
Proof.
  clear Hrandom.
  induction l as [|y l IH]; intros Hs; [constructor|].
  apply StronglySorted_inv in Hs as [Hs Hall].
  destruct l as [|z l]; [repeat constructor; set_solver|].
  change (NoDup (if decide (y = z) then dedup (z :: l) else y :: dedup (z :: l))).
  case_decide; [by apply IH|]. constructor; [|by apply IH]. rewrite dedup_elem.
  intros Hin. apply StronglySorted_inv in Hs as [_ Hz]. rewrite Forall_forall in Hall, Hz.
  assert (y ≤ z)%N by (apply Hall; by left).
  apply elem_of_cons in Hin as [->|Hin]; [done|]. specialize (Hz _ Hin). simpl in Hz. lia.
Qed.

Lemma traverse_select_ok {A B} (q : A → Tables → B) cs w w' l :
  mtraverse (λ c, select env (q c)) cs w = (w', Ok l) →
  w_db w' = w_db w ∧ l = (λ c, q c (w_db w)) <$> cs.
Proof.
  revert w l. induction cs as [|c cs IH]; intros w l Hrun; cbn [mtraverse] in Hrun; inv_run; [done|].
  match goal with Ht : mtraverse _ _ _ = _ |- _ => apply IH in Ht as [Hdb' ->] end.
  match goal with Hx : w_db _ = w_db w |- _ => rewrite Hx in * end. done.
Qed.

(** Querying disjoint chunks of ids and merging is one query. *)
Lemma chunked_rows t f cs :
  NoDup (concat cs) →
  concat ((λ chunk, query_rows (λ m, m_id m ∈ chunk ∧ state_matches f m) t) <$> cs) ≡ₚ
  filter (λ m, m_id m ∈ concat cs ∧ state_matches f m) (map_to_list (t_operations t)).*2.
Proof.
  clear Hrandom.
  induction cs as [|c cs IH]; intros Hnd; simpl.
  { rewrite filter_none; [done|]. set_solver. }
  simpl in Hnd. apply NoDup_app in Hnd as (_ & Hdis & Hnd). rewrite IH by done.
  unfold query_rows. rewrite merge_sort_Permutation. symmetry. apply filter_or_perm.
  - intros m. rewrite elem_of_app. tauto.
  - intros m [Hc _] [Hcs _]. by eapply Hdis.
Qed.

Definition on_endpoint (endpoint : EndpointId) o : Prop :=
  Exists (λ tg, endpoint_id tg = endpoint) (op_targets o).
#[export] Instance on_endpoint_dec endpoint o : Decision (on_endpoint endpoint o).
Proof. unfold on_endpoint. apply _. Defined.

Lemma endpoint_ids_spec t id m o f endpoint :
  t_operations t !! id = Some m → decode t id m = Ok o →
  id ∈ endpoint_ids f endpoint t ↔ on_endpoint endpoint o ∧ state_matches f m.
Proof.
  intros Hm Hd. unfold endpoint_ids. rewrite list_elem_of_fmap.
  apply decode_inv in Hd as (_ & Htg & _). unfold on_endpoint. rewrite Htg, Exists_exists.
  assert (joined f t id ↔ state_matches f m) as Hj.
  { unfold joined. rewrite Hm. by destruct f. }
  rewrite <- Hj. split.
  - intros ([[i tid] e] & -> & [[He Hjo] Hin]%list_elem_of_filter). simpl in *.
    apply elem_of_map_to_list in Hin. split; [|done].
    exists (mk_operation_target tid e). by rewrite target_rows_elem.
  - intros [(tg & Hin & He) Hjo]. apply target_rows_elem in Hin.
    exists ((id, target_id tg), endpoint_id tg). split; [done|].
    apply list_elem_of_filter. split; [done|]. by apply elem_of_map_to_list.
Qed.

Lemma list_for_endpoint_listing f endpoint w w' l :
  tables_ok (w_db w) →
  list_operations_for_endpoint env command_key f endpoint w = (w', Ok l) →
  w_db w' = w_db w ∧ listing (w_db w) (λ o, listed f o ∧ on_endpoint endpoint o) l.
Proof.
  clear Hrandom.
  intros Hok Hrun. apply transaction_ok in Hrun as (w1 & w2 & Hw1 & Hrun & ->).
  apply mbind_ok in Hrun as (ids & w3 & Hids & Hrun). apply select_ok in Hids as [Hw3 ->].
  rewrite Hw1 in *. cbv zeta in Hrun. set (ids := dedup (merge_sort N.le _)) in *.
  assert (NoDup ids) as Hnd.
  { apply dedup_NoDup, Sorted_StronglySorted; [apply _|]. apply Sorted_merge_sort, _. }
  assert (∀ id m o, t_operations (w_db w) !! id = Some m → decode (w_db w) id m = Ok o →
    id ∈ ids ↔ on_endpoint endpoint o ∧ state_matches f m) as Hids.
  { intros id m o Hm Hd. unfold ids. rewrite dedup_elem, merge_sort_Permutation.
    by apply endpoint_ids_spec. }
  pose proof Hok as (Hops & _). case_decide as Hnil.
  - unfold mret in Hrun. injection Hrun as <- <-. split; [done|]. rewrite Hnil in Hids.
    eapply (decoded_listing _ _ []); [done|constructor|constructor|set_solver| |constructor].
    intros id m o Hm Hd. rewrite <- (state_matches_listed _ _ _ _ f Hd).
    specialize (Hids _ _ _ Hm Hd). set_solver.
  - apply mbind_ok in Hrun as (found & w4 & Hf & Hrun).
    apply traverse_select_ok in Hf as [Hw4 ->].
    apply traverse_load_ok in Hrun as [Hdb Hf2]. split; [congruence|].
    rewrite Hw4, Hw3 in Hf2.
    pose proof (chunked_rows (w_db w) f (chunks IN_PARAMETER_CHUNK ids)) as Hperm.
    unfold chunks in Hperm, Hf2. rewrite chunks_go_concat in Hperm by (unfold IN_PARAMETER_CHUNK; lia).
    specialize (Hperm Hnd).
    eapply decoded_listing; [done|apply Sorted_merge_sort, _| | | |exact Hf2].
    + rewrite merge_sort_Permutation, Hperm. by apply NoDup_filter, rows_NoDup.
    + intros m. rewrite merge_sort_Permutation, Hperm, list_elem_of_filter. intros [_ Hm].
      by apply rows_elem.
    + intros id m o Hm Hd. rewrite merge_sort_Permutation, Hperm, list_elem_of_filter.
      destruct (Hops _ _ Hm) as (Hid & _). rewrite rows_elem, Hid by done.
      rewrite (Hids _ _ _ Hm Hd), <- (state_matches_listed _ _ _ _ f Hd). naive_solver.
Qed.

(** The endpoint-scoped listing, with its id query, de-duplication,
    parameter chunks and final merge, returns exactly the rows of the plain
    listing that have a target on the endpoint, in the same order. *)
Theorem list_for_endpoint_is_filter f endpoint w w1 w2 l1 l2 :
  tables_ok (w_db w) →
  list_operations_for_endpoint env command_key f endpoint w = (w1, Ok l1) →
  list_operations env command_key f w = (w2, Ok l2) →
  l1 = filter (on_endpoint endpoint) l2.
Proof.
  intros Hok H1' H2'. apply list_for_endpoint_listing in H1' as [_ H1']; [|done].
  apply list_operations_listing in H2' as (_ & Hs & Hnd & Hl); [|done].
  eapply listing_unique; [done|]. split; [|split; [by apply NoDup_filter|]].
  - apply StronglySorted_Sorted, StronglySorted_filter, Sorted_StronglySorted; [apply _|done].
  - intros o. rewrite list_elem_of_filter, Hl. tauto.
Qed.

(** ** Liveness and poisoning *)

(** A statement of a healthy database runs. *)
Lemma healthy_statement {A} (q : Tables → option (Tables * A)) w t a :
  env_healthy env → q (w_db w) = Some (t, a) →
  statement env (E := OperationRepositoryError) q w = (mk_world t (S (w_clock w)), Ok a).
Proof. intros [_ Hf] Hq. unfold statement. by rewrite Hf, Hq. Qed.

Lemma healthy_targets id targets w :
  env_healthy env → is_Some (t_operations (w_db w) !! id) → NoDup (target_id <$> targets) →
  (∀ tg, tg ∈ targets → t_targets (w_db w) !! (id, target_id tg) = None) →
  ∃ w', mfor targets (insert_target env id) w = (w', Ok ()).
Proof.
  clear Hrandom.
  intros Hh. revert w. induction targets as [|tg targets IH]; intros w [m Hm] Hnd Hnew; [by eexists|].
  simpl in Hnd. apply NoDup_cons in Hnd as [Hn Hnd]. cbn [mfor]. unfold mbind, insert_target at 1.
  erewrite healthy_statement; [|done|by rewrite Hm, (Hnew tg) by set_solver].
  apply IH; simpl; [eauto|done|]. intros tg' Hin. rewrite lookup_insert_ne.
  - apply Hnew. set_solver.
  - intros [= Heq]. apply Hn. rewrite Heq. by apply list_elem_of_fmap_2.
Qed.

(** The sealing of a command text never fails. *)
Definition seals (k : Key) (text : str) : Prop :=
  ∀ n identity, ∃ s, encrypt_command (env_random env n) k identity text = Ok s.

Lemma healthy_aggregate k o b w text :
  env_healthy env → command_key = Some k → seals k text → to_json (op_command o) = Some text →
  tables_ok (w_db w) → t_operations (w_db w) !! op_id o = None →
  NoDup (target_id <$> op_targets o) →
  ∃ w', insert_operation_aggregate env command_key o b w = (w', Ok ()).
Proof.
  intros Hh Hk Hseal Hjson (_ & _ & Hfk) Hnone Hnd.
  unfold insert_operation_aggregate, find_model, select, mbind at 1.
  erewrite healthy_statement; [|done|done]. cbv beta iota. rewrite Hnone.
  unfold serialize_command, require_key, mlift, draw. rewrite Hk. unfold mbind at 1 2. simpl.
  rewrite Hjson. simpl.
  destruct (Hseal (S (w_clock w)) (into_bytes (op_id o))) as [s Hs].
  unfold mbind. simpl. rewrite Hs. simpl.
  unfold insert_model. erewrite healthy_statement; [|done|simpl; by rewrite Hnone].
  apply healthy_targets; simpl; [done|by rewrite lookup_insert_eq|done|].
  intros tg _. destruct (t_targets (w_db w) !! (op_id o, target_id tg)) eqn:Ht; [|done].
  apply Hfk in Ht. rewrite Hnone in Ht. by destruct Ht.
Qed.

(** On a healthy database with a working key, creating an operation
    under a new id with distinct targets succeeds, and reading that id then
    succeeds and returns the operation, decrypted, its targets by target id. *)
Theorem create_then_find k o w text :
  env_healthy env → command_key = Some k → seals k text → to_json (op_command o) = Some text →
  tables_ok (w_db w) → timeline_ok o → t_operations (w_db w) !! op_id o = None →
  NoDup (target_id <$> op_targets o) →
  ∃ w1 w2, create_operation env command_key o w = (w1, Ok ()) ∧
    find_operation env command_key (op_id o) w1 = (w2, Ok (Some (canonical o))).
Proof.
  intros Hh Hk Hseal Hjson Hok Htl Hnone Hnd.
  pose proof Hh as [Hgate Hf].
  destruct (healthy_aggregate k o None (mk_world (w_db w) (S (w_clock w))) text Hh Hk Hseal Hjson
    Hok Hnone Hnd) as [w' Hins].
  set (w1 := mk_world (w_db w') (S (w_clock w'))).
  assert (create_operation env command_key o w = (w1, Ok ())) as Hc.
  { unfold create_operation, require_key, mbind, mlift, acquire, transaction.
    rewrite Hk, Hgate. cbn [ok_or].
    rewrite (healthy_statement _ w (w_db w) ()) by done. rewrite <- Hk, Hins.
    by rewrite (healthy_statement _ w' (w_db w') ()) by done. }
  exists w1. apply insert_aggregate_ok in Hins as [[[m Hm] _]|(_ & _ & command & Hcmd & Hdb)];
    [simpl in Hm; congruence|].
  pose proof (decode_inserted (w_db w) o None command Hok Htl Hnone Hnd Hcmd _
    (lookup_insert_eq _ _ _)) as Hd.
  simpl in Hdb. rewrite <- Hdb in Hd. eexists. split; [done|].
  assert (t_operations (w_db w1) !! op_id o = Some _) as Hrow
    by (simpl; rewrite Hdb; apply lookup_insert_eq).
  unfold find_operation, transaction. erewrite healthy_statement; [|done|done].
  unfold mbind at 1, find_model, select. erewrite healthy_statement; [|done|done].
  cbv beta iota. cbn [w_db]. rewrite Hrow. unfold map_stored_operation, mbind, mlift, select.
  unfold decode in Hd. apply result_bind_ok in Hd as (parts & Hp & Ha). rewrite Hp.
  erewrite healthy_statement; [|done|done]. cbv beta iota. simpl w_db. rewrite Ha.
  unfold mret. by erewrite healthy_statement.
Qed.

End refinement.

Section poisoning.
#[local] Opaque view_of.
Context {Command Key : Type} `{CipherSuite Key, CommandJson Command} (command_key : option Key).

Lemma undecodable_listing env f w w' l id m :
  list_operations env command_key f w = (w', Ok l) →
  t_operations (w_db w) !! id = Some m → m_id m = id → state_matches f m →
  ∃ o : Operation Command, decode command_key (w_db w) id m = Ok o.
Proof.
  intros Hl Hm Hid Hf. apply transaction_ok in Hl as (w1 & w2 & Hw1 & Hl & _).
  apply mbind_ok in Hl as (models & w3 & Hs & Hl). apply select_ok in Hs as [Hw3 ->].
  apply traverse_load_ok in Hl as [_ Hall]. rewrite Hw3, Hw1 in Hall.
  assert (m ∈ query_rows (state_matches f) (w_db w)) as Hin.
  { unfold query_rows. rewrite merge_sort_Permutation, list_elem_of_filter. split; [done|].
    apply list_elem_of_fmap. exists (id, m). split; [done|]. by apply elem_of_map_to_list. }
  apply list_elem_of_lookup in Hin as [i Hin].
  destruct (Forall2_lookup_l _ _ _ _ _ Hall Hin) as (o & _ & Hd). rewrite Hid in Hd. eauto.
Qed.

(** A step stamped before the row's creation is written, and makes the
    row unreadable: no later read of it, and no listing that should contain it,
    returns a value again. *)
Theorem stale_stamp_poisons env id new at_ (o : Operation Command) w w' :
  tables_ok command_key (w_db w) →
  v_operations (view_of command_key (w_db w)) !! id = Some o →
  (at_ < op_created_at o)%Z →
  apply_transition env id new at_ w = (w', Ok ()) →
  ∀ env' w1 w2, w_db w1 = w_db w' →
    (∀ x, find_operation env' command_key id w1 ≠ (w2, Ok x)) ∧
    ∀ l, list_operations env' command_key None w1 ≠ (w2, Ok l).
Proof.
  intros Hok Ho Hat Hrun. apply gated_write in Hrun as [(e & ? & _)|([] & w1 & w2 & _ & Hw1 & Hrun & Hdb)];
    [done|].
  unfold find_model in Hrun. inv_run. rewrite Hw1 in *. case_match; [by inv_run|].
  match goal with Hx : t_operations _ !! id = Some ?x |- _ => rename x into m; rename Hx into Hm end.
  pose proof Hok as (Hops & _). destruct (Hops _ _ Hm) as (Hid & _).
  apply update_model_ok in Hrun. simpl in Hrun. rewrite Hid in Hrun.
  destruct (lookup_view_ok _ _ _ _ Hok Hm) as (o' & Hd & Ho').
  rewrite Ho in Ho'. injection Ho' as <-.
  apply decode_inv in Hd as (_ & _ & Hc & _).
  assert (t_operations (w_db w') !! id = Some (with_state m new at_)) as Hrow
    by (rewrite Hdb, Hrun; simpl; apply lookup_insert_eq).
  assert (∀ t (o' : Operation Command), decode command_key t id (with_state m new at_) ≠ Ok o') as Hbad.
  { intros t o' (_ & _ & _ & _ & Htl & _)%decode_inv. simpl in Htl. lia. }
  intros env' wa wb Hwa. split.
  - intros x Hf. apply transaction_ok in Hf as (w3 & w4 & Hw3 & Hf & _).
    unfold find_model in Hf. inv_run. rewrite Hw3, Hwa, Hrow in Hf. inv_run.
    match goal with Hs : map_stored_operation _ _ _ _ _ = _ |- _ =>
      apply map_stored_operation_ok in Hs as [_ Hs]; by apply Hbad in Hs end.
  - intros l Hl. rewrite <- Hwa in Hrow.
    destruct (undecodable_listing _ _ _ _ _ _ _ Hl Hrow Hid I) as [o' Ho'']. by apply Hbad in Ho''.
Qed.
End poisoning.

(** ** The contract discharged *)

Section instance.
Context (env : Env) {Command Key : Type}
  `{CipherSuiteLaws Key, CommandJsonLaws Command} (command_key : option Key).
Context (Hrandom : ∀ n, random_ok (env_random env n)).

Definition repository_store : OperationStore Command (World Tables) OperationRepositoryError :=
  {| store_create_operation := create_operation env command_key;
     store_find_operation := find_operation env command_key;
     store_apply_transition := apply_transition env;
     store_apply_transition_if_current := apply_transition_if_current env;
     store_record_failure_kind := record_failure_kind env;
     store_find_failure_kind := find_failure_kind env;
     store_list_operations := list_operations env command_key;
     store_create_batch := create_batch env command_key |}.

(** The SQLite repository keeps the contract of the store. *)
Definition repository_laws :
  @OperationStoreLaws Command (World Tables) OperationRepositoryError repository_store.
Proof.
  refine (@Build_OperationStoreLaws _ _ _ repository_store
    (λ w, view_of command_key (w_db w)) (λ w, tables_ok command_key (w_db w)) _ _ _ _ _ _ _ _).
  - exact (create_operation_refines env command_key Hrandom).
  - exact (find_operation_refines env command_key).
  - exact (apply_transition_refines env command_key).
  - exact (apply_transition_if_current_refines env command_key).
  - exact (record_failure_kind_refines env command_key).
  - exact (find_failure_kind_refines env command_key).
  - exact (list_operations_refines env command_key).
  - exact (create_batch_refines env command_key Hrandom).
Defined.
End instance.

(** ** Traces of calls *)

(** The writes a client can make on the store. *)
Inductive StoreCall (Command : Type) :=
| CallCreate (o : Operation Command)
| CallApply (id : OperationId) (new : OperationState) (at_ : OffsetDateTime)
| CallApplyIf (id : OperationId) (expected new : OperationState) (at_ : OffsetDateTime)
| CallKind (id : OperationId) (kind : FailureKind)
| CallBatch (b : BatchOperation Command) (children : list (Operation Command)).
Arguments CallCreate {Command}.
Arguments CallApply {Command}.
Arguments CallApplyIf {Command}.
Arguments CallKind {Command}.
Arguments CallBatch {Command}.

Section traces.
Context {Command St E : Type} `{OperationStore Command St E}.

Definition exec (c : StoreCall Command) : M St E () :=
  match c with
  | CallCreate o => store_create_operation o
  | CallApply id new at_ => store_apply_transition id new at_
  | CallApplyIf id expected new at_ => store_apply_transition_if_current id expected new at_
  | CallKind id kind => store_record_failure_kind id kind
  | CallBatch b children => store_create_batch b children
  end.

(** The specification of one successful call. *)
Definition spec_call (v : View Command) (c : StoreCall Command) : option (View Command) :=
  match c with
  | CallCreate o => Some (view_create None v o)
  | CallApply id new at_ =>
      with_operations v <$> row_step (v_operations v) id new at_
  | CallApplyIf id expected new at_ =>
      with_operations v <$> row_step_if (v_operations v) id expected new at_
  | CallKind id kind =>
      match v_operations v !! id with
      | None => None
      | Some _ => Some (mk_view (v_operations v) (<[id := kind]> (v_kinds v)) (v_batches v)
                          (v_batch_of v))
      end
  | CallBatch b children => Some (view_create_batch v b children)
  end.

(** Calls one after the other; the verdicts are kept. *)
Fixpoint exec_all (cs : list (StoreCall Command)) (s : St) : St * list bool :=
  match cs with
  | [] => (s, [])
  | c :: cs =>
      let '(s1, r) := exec c s in
      let '(s2, rs) := exec_all cs s1 in (s2, is_ok r :: rs)
  end.

(** The specification of a trace: the calls that succeeded, in order. *)
Fixpoint replay (v : View Command) (cs : list (StoreCall Command)) (rs : list bool)
    : option (View Command) :=
  match cs, rs with
  | c :: cs, true :: rs => v' ← spec_call v c; replay v' cs rs
  | _ :: cs, false :: rs => replay v cs rs
  | _, _ => Some v
  end.

(** Operations are created by the instant [T], and steps are stamped from it on. *)
Definition created_by (T : OffsetDateTime) (v : View Command) : Prop :=
  ∀ id o, v_operations v !! id = Some o → (op_created_at o ≤ T)%Z.
Definition new_ok (T : OffsetDateTime) (o : Operation Command) : Prop :=
  timeline_ok o ∧ (op_created_at o ≤ T)%Z.
Definition admissible (T : OffsetDateTime) (c : StoreCall Command) : Prop :=
  match c with
  | CallCreate o => new_ok T o
  | CallApply _ _ at_ | CallApplyIf _ _ _ at_ => (T ≤ at_)%Z
  | CallKind _ _ => True
  | CallBatch _ children => Forall (new_ok T) children
  end.
End traces.

Section trace_theorems.
Context {Command St E : Type} `{OperationStoreLaws Command St E}.

Lemma created_by_create T b (v : View Command) o :
  created_by T v → new_ok T o → created_by T (view_create b v o).
Proof.
  intros Hv [_ Ho] id o'. unfold view_create. case_match; [apply Hv|]. simpl.
  destruct (decide (id = op_id o)) as [->|Hne].
  - rewrite lookup_insert_eq. by intros [= <-].
  - rewrite lookup_insert_ne by done. apply Hv.
Qed.

Lemma created_by_children T b children (v : View Command) :
  created_by T v → Forall (new_ok T) children → created_by T (foldl (view_create b) v children).
Proof.
  intros Hv Hc. revert v Hv. induction Hc as [|c children Hc Hcs IH]; intros v Hv; [done|].
  apply IH. by apply created_by_create.
Qed.

Lemma created_by_step T (v : View Command) id new at_ ops :
  created_by T v → row_step (v_operations v) id new at_ = Some ops →
  created_by T (with_operations v ops).
Proof.
  intros Hv (o & Ho & _ & ->)%row_step_Some id' o'. simpl.
  destruct (decide (id' = id)) as [->|Hne].
  - rewrite lookup_insert_eq. intros [= <-]. exact (Hv id o Ho).
  - rewrite lookup_insert_ne by done. apply Hv.
Qed.

Lemma row_step_if_step (ops : gmap OperationId (Operation Command)) id expected new at_ ops' :
  row_step_if ops id expected new at_ = Some ops' → row_step ops id new at_ = Some ops'.
Proof. unfold row_step_if. case_match; [|done]. by case_decide. Qed.

Lemma exec_refines T c s s' r :
  store_ok s → created_by T (store_view s) → admissible T c → exec c s = (s', r) →
  store_ok s' ∧ created_by T (store_view s') ∧
  match r with
  | Ok _ => spec_call (store_view s) c = Some (store_view s')
  | Err _ => store_view s' = store_view s
  end.
Proof.
  intros Hok Hcb Had Hrun.
  assert (∀ id at_, (T ≤ at_)%Z → stamp_ok (store_view s) id at_) as Hstamp.
  { intros id at_ Hat o Ho. specialize (Hcb _ _ Ho). lia. }
  destruct c as [o|id new at_|id expected new at_|id k|b children]; simpl in *.
  - apply law_create in Hrun as [? Hv]; [|done|apply Had]. split; [done|].
    destruct r; [|by rewrite Hv]. rewrite Hv. split; [by apply created_by_create | done].
  - apply law_apply in Hrun as [? Hv]; [|done|auto]. split; [done|].
    destruct r; [|by rewrite Hv]. destruct Hv as (ops & Hops & ->).
    split; [by eapply created_by_step | by rewrite Hops].
  - apply law_apply_if in Hrun as [? Hv]; [|done|auto]. split; [done|].
    destruct r; [|by rewrite Hv]. destruct Hv as (ops & Hops & ->).
    split; [by eapply created_by_step, row_step_if_step | by rewrite Hops].
  - apply law_record_kind in Hrun as [? Hv]; [|done]. split; [done|].
    destruct r; [|by rewrite Hv]. destruct Hv as [[o Ho] ->]. rewrite Ho. split; [exact Hcb | done].
  - apply law_create_batch in Hrun as [? Hv];
      [|done|eapply Forall_impl; [exact Had | by intros ? []]].
    split; [done|]. destruct r; [|by rewrite Hv]. rewrite Hv. split; [|done].
    unfold view_create_batch. case_match; [done|]. by apply created_by_children.
Qed.

Lemma exec_all_refines T cs s s' rs :
  store_ok s → created_by T (store_view s) → Forall (admissible T) cs →
  exec_all cs s = (s', rs) →
  store_ok s' ∧ replay (store_view s) cs rs = Some (store_view s').
Proof.
  intros Hok Hcb Had. revert s rs Hok Hcb. induction Had as [|c cs Hc Hcs IH];
    intros s rs Hok Hcb Hrun; simpl in Hrun; [by simplify_eq|].
  destruct (exec c s) as [s1 r] eqn:He. destruct (exec_all cs s1) as [s2 rs'] eqn:Ha.
  injection Hrun as <- <-.
  apply (exec_refines T) in He as (Hok1 & Hcb1 & Hr); [|done..].
  destruct (IH _ _ Hok1 Hcb1 Ha) as [? Hre]. split; [done|].
  destruct r; simpl in *; [by rewrite Hr | by rewrite <- Hr].
Qed.
End trace_theorems.

(** C2: Whatever sequence of writes clients make on the SQLite repository, and
    whichever database calls, commits, gate acquisitions or random draws fail, the
    stored rows stay readable and are exactly what the specification says of the
    calls that succeeded, in order: failed calls leave no trace. *)
Theorem repository_trace_refines {Command Key : Type} `{CipherSuiteLaws Key, CommandJsonLaws Command}
    env (command_key : option Key) T (cs : list (StoreCall Command)) w w' rs :
  (∀ n, random_ok (env_random env n)) →
  tables_ok command_key (w_db w) → created_by T (view_of command_key (w_db w)) →
  Forall (admissible T) cs →
  exec_all (H := repository_store env command_key) cs w = (w', rs) →
  tables_ok command_key (w_db w') ∧
  replay (view_of command_key (w_db w)) cs rs = Some (view_of command_key (w_db w')).
Proof.
  intros Hr Hok Hcb Had Hrun.
  exact (exec_all_refines (H0 := repository_laws env command_key Hr) T cs w w' rs Hok Hcb Had Hrun).
Qed.
