(* ===== verification/OperationWitnesses.v ===== *)
(** * OperationWitnesses: the engine run on a concrete repository

    A small store on which the theorems of [OperationEngine] and
    [OperationRepository] apply: two operations, a working cipher suite and a
    database that does not fail. *)
From S2P Require Import Prelude Text Operation OperationEngine CommandCipher Database.
From S2P Require Import OperationRepository.

(** A command type with one value and its JSON text. *)
#[export] Instance unit_json : CommandJson () :=
  { to_json _ := Some (lit "{}");
    from_json s := if decide (s = lit "{}") then Some () else None }.

#[export, refine] Instance unit_json_laws : CommandJsonLaws () := {}.
Proof.
  - intros [] text [= <-]. done.
  - intros [] text [= <-]. repeat constructor.
Defined.

(** No call fails, and every draw delivers a nonce. *)
Definition quiet_env : Env :=
  {| env_fault _ := false; env_gate_closed := false; env_random _ := Some toy_nonce |}.

(** One database call fails: the insertion of the first operation. *)
Definition faulty_env : Env :=
  {| env_fault n := Nat.eqb n 3; env_gate_closed := false; env_random _ := Some toy_nonce |}.

Lemma toy_random n : random_ok (env_random quiet_env n).
Proof. intros nonce [= <-]. split; [done|]. apply Forall_replicate. lia. Qed.

#[export] Instance demo_store : OperationStore () (World Tables) OperationRepositoryError :=
  repository_store quiet_env (Some ()).
#[export] Instance demo_laws : OperationStoreLaws () (World Tables) OperationRepositoryError :=
  repository_laws quiet_env (Some ()) toy_random.

Definition empty_world : World Tables := mk_world (mk_tables ∅ ∅ ∅) 0.

Lemma empty_tables_ok : tables_ok (Some ()) (w_db empty_world).
Proof. done. Qed.

Definition demo_operation : Operation () :=
  Operation_new 1%N SourceSite [mk_operation_target 3%N 30%N; mk_operation_target 2%N 20%N] () 100%Z.

(** The store after the operation was created and validation started. *)
Definition demo_world : World Tables :=
  (store_apply_transition 1%N Validating 110%Z
     (store_create_operation demo_operation empty_world).1).1.

Lemma demo_timeline : timeline_ok demo_operation.
Proof. done. Qed.

Lemma demo_created : store_ok (store_create_operation demo_operation empty_world).1.
Proof.
  destruct (store_create_operation demo_operation empty_world) as [s r] eqn:He.
  apply law_create in He as [? _]; [done|exact empty_tables_ok|exact demo_timeline].
Qed.

Lemma demo_ok : store_ok demo_world.
Proof.
  unfold demo_world. destruct (store_apply_transition _ _ _ _) as [s r] eqn:He.
  apply law_apply in He as [? _]; [done|apply demo_created|].
  intros o Ho. vm_compute in Ho. injection Ho as <-. done.
Qed.

Lemma demo_stamp : stamp_ok (store_view demo_world) 1%N 120%Z.
Proof. intros o Ho. vm_compute in Ho. injection Ho as <-. done. Qed.

Lemma engine_apply_correct_witness :
  let run := engine_apply (Command := ()) 1%N EvValidationPassed 120%Z demo_world in
  is_ok run.2 = true ∧ store_ok run.1 ∧
  match run.2 with
  | Ok o' => stepped (store_view demo_world) (store_view run.1) 1%N EvValidationPassed 120%Z o'
  | Err _ => store_view run.1 = store_view demo_world
  end.
Proof.
  intros run. split; [vm_compute; reflexivity|].
  exact (engine_apply_correct 1%N EvValidationPassed 120%Z demo_world run.1 run.2
    demo_ok demo_stamp (surjective_pairing run)).
Defined.

(** Another driver that passes validation between the read and the write. *)
Definition rival (s : World Tables) : World Tables :=
  (store_apply_transition 1%N Running 115%Z s).1.

Lemma rival_harmless : harmless (Command := ()) 1%N 112%Z rival.
Proof.
  intros s Hok Hst. unfold rival. destruct (store_apply_transition _ _ _ s) as [s' r] eqn:He.
  apply law_apply in He as [? Hv]; [|done|].
  - cbn [fst]. split; [done|]. destruct r; [|by rewrite Hv].
    destruct Hv as (ops & (o & Ho & _ & ->)%row_step_Some & ->). intros o'.
    cbn [with_operations v_operations].
    rewrite lookup_insert_eq. intros [= <-]. exact (Hst o Ho).
  - intros o Ho. specialize (Hst _ Ho). lia.
Qed.

Lemma demo_stamp' : stamp_ok (store_view demo_world) 1%N 112%Z.
Proof. intros o Ho. vm_compute in Ho. injection Ho as <-. done. Qed.

Lemma engine_apply_if_current_safe_witness :
  let run := engine_apply_if_current (Command := ()) rival 1%N Validating
               EvCancellationRequested 112%Z demo_world in
  run.2 = Err (StateChanged 1%N Validating Running) ∧ store_ok run.1.
Proof.
  intros run. split; [vm_compute; reflexivity|].
  exact (proj1 (engine_apply_if_current_safe rival 1%N Validating EvCancellationRequested 112%Z
    demo_world run.1 run.2 demo_ok demo_stamp' rival_harmless (surjective_pairing run))).
Defined.

Lemma engine_recover_pending_exact_witness :
  let run := engine_recover_pending (Command := ()) demo_world in
  store_view run.1 = store_view demo_world ∧
  ∃ l, run.2 = Ok l ∧ op_id <$> l = [1%N] ∧ Sorted acceptance_le l.
Proof.
  intros run.
  destruct (engine_recover_pending_exact demo_world run.1 run.2 demo_ok (surjective_pairing run))
    as [Hv Hl].
  split; [exact Hv|]. destruct run.2 as [l|e] eqn:Hr; [|vm_compute in Hr; discriminate].
  exists l. split; [reflexivity|]. split; [|apply (Hl l eq_refl)].
  vm_compute in Hr. injection Hr as <-. reflexivity.
Defined.

Lemma engine_create_correct_witness :
  let run := engine_create (Command := ()) 9%N SourceSite [mk_operation_target 5%N 50%N] () 130%Z
               demo_world in
  is_ok run.2 = true ∧ store_ok run.1.
Proof.
  intros run. split; [vm_compute; reflexivity|].
  exact (proj1 (engine_create_correct 9%N SourceSite [mk_operation_target 5%N 50%N] () 130%Z
    demo_world run.1 run.2 demo_ok (surjective_pairing run))).
Defined.

Definition demo_ids (i : nat) : OperationId := N.of_nat (100 + i).

Lemma engine_create_batch_correct_witness :
  let targets := [mk_operation_target 7%N 70%N; mk_operation_target 6%N 60%N] in
  let run := engine_create_batch (Command := ()) demo_ids SourceSite targets () 130%Z demo_world in
  is_ok run.2 = true ∧ store_ok run.1.
Proof.
  intros targets run. split; [vm_compute; reflexivity|].
  exact (proj1 (engine_create_batch_correct demo_ids SourceSite targets () 130%Z
    demo_world run.1 run.2 demo_ok (surjective_pairing run))).
Defined.

Lemma list_for_endpoint_is_filter_witness :
  ∃ w1 w2 l, list_operations_for_endpoint quiet_env (Some ()) None 20%N demo_world = (w1, Ok l) ∧
    (∃ l2, list_operations quiet_env (Some ()) None demo_world = (w2, Ok l2) ∧
      l = filter (on_endpoint 20%N) l2) ∧ op_id <$> l = [1%N].
Proof.
  destruct (list_operations_for_endpoint quiet_env (Some ()) None 20%N demo_world) as [w1 r1] eqn:H1.
  destruct (list_operations quiet_env (Some ()) (Command := ()) None demo_world) as [w2 r2] eqn:H2.
  destruct r1 as [l1|e]; [|vm_compute in H1; discriminate].
  destruct r2 as [l2|e]; [|vm_compute in H2; discriminate].
  exists w1, w2, l1. split; [reflexivity|]. split.
  - exists l2. split; [reflexivity|].
    exact (list_for_endpoint_is_filter quiet_env (Some ()) None 20%N demo_world w1 w2 l1 l2 demo_ok H1 H2).
  - vm_compute in H1. injection H1 as _ <-. reflexivity.
Defined.

Lemma quiet_healthy : env_healthy quiet_env.
Proof. done. Qed.

Lemma quiet_seals : seals quiet_env () (lit "{}").
Proof.
  intros n identity. eexists. vm_compute. reflexivity.
Qed.

Lemma create_then_find_witness :
  ∃ w1 w2, create_operation quiet_env (Some ()) demo_operation empty_world = (w1, Ok ()) ∧
    find_operation quiet_env (Some ()) 1%N w1 = (w2, Ok (Some (canonical demo_operation))).
Proof.
  apply (create_then_find quiet_env (Some ()) toy_random () demo_operation empty_world (lit "{}")).
  - exact quiet_healthy.
  - reflexivity.
  - exact quiet_seals.
  - reflexivity.
  - exact empty_tables_ok.
  - exact demo_timeline.
  - reflexivity.
  - vm_compute. repeat constructor; set_solver.
Defined.

Lemma stale_stamp_poisons_witness :
  ∃ w', apply_transition quiet_env 1%N Running 50%Z demo_world = (w', Ok ()) ∧
    ∀ w2 x, find_operation quiet_env (Some ()) (Command := ()) 1%N w' ≠ (w2, Ok x).
Proof.
  destruct (apply_transition quiet_env 1%N Running 50%Z demo_world) as [w' r] eqn:Ha.
  destruct r as [[]|e]; [|vm_compute in Ha; discriminate].
  exists w'. split; [reflexivity|]. intros w2.
  apply (stale_stamp_poisons (Some ()) quiet_env 1%N Running 50%Z
    (set_state (canonical demo_operation) Validating 110%Z) demo_world w' demo_ok eq_refl
    ltac:(vm_compute; reflexivity) Ha quiet_env w' w2 eq_refl).
Defined.

Lemma repository_trace_refines_witness :
  let cs := [CallCreate demo_operation; CallCreate demo_operation;
             CallApply 1%N Validating 110%Z; CallApplyIf 1%N Running Verifying 120%Z] in
  let run := exec_all (H := repository_store faulty_env (Some ())) cs empty_world in
  run.2 = [false; true; true; false] ∧
  replay (view_of (Some ()) (w_db empty_world)) cs run.2 = Some (view_of (Some ()) (w_db run.1)).
Proof.
  intros cs run. split; [vm_compute; reflexivity|].
  apply (repository_trace_refines faulty_env (Some ()) 100%Z cs empty_world run.1 run.2).
  - exact toy_random.
  - exact empty_tables_ok.
  - intros id o Ho. vm_compute in Ho. discriminate.
  - repeat constructor; vm_compute; discriminate.
  - exact (surjective_pairing run).
Defined.
