(* ===== verification/CenterDomain.v ===== *)
(** * CenterDomain: the records of the center link

    Models [domain/src/center.rs]: the one-time binding code, the binding of a
    site to a center, the outbox and inbox entries with their state machines,
    the duplicate decision of the inbox, and the sync streams.  SHA-256 (crate
    [sha2]) is a parameter. *)
From S2P Require Import Prelude Text Operation.
From Stdlib Require Import ZifyBool.

(** ** Binding codes *)

Definition BINDING_CODE_CHARACTERS : N := 20.
Definition CODE_ALPHABET : list N := lit "23456789ABCDEFGHJKLMNPQRSTUVWXYZ".

(** [str::to_ascii_uppercase]. *)
Definition to_ascii_uppercase (s : str) : str :=
  (λ c, if (97 <=? c)%N && (c <=? 122)%N then (c - 32)%N else c) <$> s.

Inductive BindingCodeParseError := BindingCodeParseErr.

(** [BindingCode::from_str]; a code is its canonical text. *)
Definition BindingCode_from_str (value : str) : result str BindingCodeParseError :=
  let normalized := to_ascii_uppercase (trim value) in
  if negb (str_len normalized =? BINDING_CODE_CHARACTERS)%N
     || negb (forallb (λ byte, bool_decide (byte ∈ CODE_ALPHABET)) (as_bytes normalized))
  then Err BindingCodeParseErr
  else Ok normalized.

(** What a code is: twenty characters of the alphabet. *)
Definition binding_code (c : str) : Prop := length c = 20 ∧ Forall (λ x, x ∈ CODE_ALPHABET) c.

(** ** Instances *)

Inductive InstanceKind := KindSite | KindCenter.
#[export] Instance InstanceKind_eq_dec : EqDecision InstanceKind.
Proof. solve_decision. Defined.
Definition InstanceKind_as_str (k : InstanceKind) : str :=
  match k with KindSite => lit "site" | KindCenter => lit "center" end.
Inductive InstanceKindParseError := InstanceKindParseErr.
Definition InstanceKind_from_str (value : str) : result InstanceKind InstanceKindParseError :=
  ok_or (match_str value [("site", KindSite); ("center", KindCenter)]%string) InstanceKindParseErr.
#[export, refine] Instance InstanceKind_code : StableCode InstanceKind InstanceKindParseError :=
  { code_str := InstanceKind_as_str; code_parse := InstanceKind_from_str }.
Proof. all: unfold InstanceKind_from_str; solve_code. Defined.

Abbreviation InstanceId := Uuid.
Abbreviation CenterBindingId := Uuid.

Record SiteInstance := mk_site_instance {
  si_id : InstanceId;
  si_display_name : str;
  si_kind : InstanceKind;
  si_created_at : OffsetDateTime;
}.

(** ** The binding of a site to a center *)

Inductive CenterBindingState := BindingPending | BindingBound | BindingRevoked.
#[export] Instance CenterBindingState_eq_dec : EqDecision CenterBindingState.
Proof. solve_decision. Defined.
Definition CenterBindingState_as_str (s : CenterBindingState) : str :=
  match s with
  | BindingPending => lit "pending" | BindingBound => lit "bound" | BindingRevoked => lit "revoked"
  end.
Inductive CenterBindingStateParseError := CenterBindingStateParseErr.
Definition CenterBindingState_from_str (value : str)
    : result CenterBindingState CenterBindingStateParseError :=
  ok_or (match_str value
    [("pending", BindingPending); ("bound", BindingBound); ("revoked", BindingRevoked)]%string)
    CenterBindingStateParseErr.
#[export, refine] Instance CenterBindingState_code :
  StableCode CenterBindingState CenterBindingStateParseError :=
  { code_str := CenterBindingState_as_str; code_parse := CenterBindingState_from_str }.
Proof. all: unfold CenterBindingState_from_str; solve_code. Defined.

Inductive CenterBindingEvent := CodeAccepted | BindingRevocation.
Definition CenterBindingEvent_as_str (e : CenterBindingEvent) : str :=
  match e with CodeAccepted => lit "code-accepted" | BindingRevocation => lit "revoked" end.

Record InvalidCenterBindingTransition := mk_invalid_binding {
  ib_from : CenterBindingState;
  ib_event : CenterBindingEvent;
}.

Definition invalid_center_binding_transition (current : CenterBindingState)
    (event : CenterBindingEvent) : InvalidCenterBindingTransition :=
  {| ib_from := current; ib_event := event |}.

Definition center_binding_transition (current : CenterBindingState) (event : CenterBindingEvent)
    : result CenterBindingState InvalidCenterBindingTransition :=
  match current with
  | BindingPending =>
      match event with
      | CodeAccepted => Ok BindingBound
      | BindingRevocation => Ok BindingRevoked
      end
  | BindingBound =>
      match event with
      | CodeAccepted => Err (invalid_center_binding_transition current event)
      | BindingRevocation => Ok BindingRevoked
      end
  | BindingRevoked =>
      match event with
      | CodeAccepted | BindingRevocation => Err (invalid_center_binding_transition current event)
      end
  end.

Inductive BindingCodeVerificationError := NotPending | CodeExpired | CodeMismatch.

Inductive CenterBindingError :=
| InvalidCodeHash | InvalidStateShape | BoundBeforeCreation | ExpiryBeforeCreation.

(** A certificate fingerprint is 32 bytes. *)
Abbreviation CertificateFingerprint := (list N).

Record CenterBinding := mk_center_binding {
  cb_id : CenterBindingId;
  cb_center_url : str;
  cb_site_instance_id : InstanceId;
  cb_state : CenterBindingState;
  cb_binding_code_hash : option (list N);
  cb_site_cert_fingerprint : option CertificateFingerprint;
  cb_bound_at : option OffsetDateTime;
  cb_expires_at : option OffsetDateTime;
  cb_created_at : OffsetDateTime;
}.

(** [Option::is_some_and]. *)
Definition is_some_and {A} (o : option A) (f : A → bool) : bool :=
  match o with Some a => f a | None => false end.

Definition isSome {A} (o : option A) : bool := match o with Some _ => true | None => false end.

(** [<[u8; 32]>::try_from] under an option, transposed. *)
Definition hash_of_slice (o : option (list N)) : option (option (list N)) :=
  match o with
  | None => Some None
  | Some h => if decide (length h = 32) then Some (Some h) else None
  end.

Section binding.
Context (sha256 : list N → list N).

(** [BindingCode::hash] and [verify_hash]. *)
Definition BindingCode_hash (code : str) : list N := sha256 (as_bytes code).
Definition verify_hash (code : str) (stored : list N) : bool :=
  constant_time_eq (BindingCode_hash code) stored.

(** [CenterBinding::new_pending]. *)
Definition new_pending (id : CenterBindingId) (center_url : str) (site : InstanceId) (code : str)
    (expires_at created_at : OffsetDateTime) : CenterBinding :=
  {| cb_id := id; cb_center_url := center_url; cb_site_instance_id := site;
     cb_state := BindingPending; cb_binding_code_hash := Some (BindingCode_hash code);
     cb_site_cert_fingerprint := None; cb_bound_at := None; cb_expires_at := Some expires_at;
     cb_created_at := created_at |}.

(** The columns each state allows. *)
Definition shape_matches (state : CenterBindingState) (hash : option (list N))
    (bound_at expires_at : option OffsetDateTime) : bool :=
  match state with
  | BindingPending => isSome hash && isSome expires_at && negb (isSome bound_at)
  | BindingBound => negb (isSome hash) && negb (isSome expires_at) && isSome bound_at
  | BindingRevoked => negb (isSome hash) && negb (isSome expires_at)
  end.

(** [CenterBinding::try_from_parts]. *)
Definition CenterBinding_try_from_parts (id : CenterBindingId) (center_url : str)
    (site : InstanceId) (state : CenterBindingState) (hash : option (list N))
    (fingerprint : option CertificateFingerprint) (bound_at expires_at : option OffsetDateTime)
    (created_at : OffsetDateTime) : result CenterBinding CenterBindingError :=
  let? hash := ok_or (hash_of_slice hash) InvalidCodeHash in
  if negb (shape_matches state hash bound_at expires_at) then Err InvalidStateShape
  else if is_some_and bound_at (λ t, t <? created_at)%Z then Err BoundBeforeCreation
  else if is_some_and expires_at (λ t, t <? created_at)%Z then Err ExpiryBeforeCreation
  else Ok {| cb_id := id; cb_center_url := center_url; cb_site_instance_id := site;
             cb_state := state; cb_binding_code_hash := hash;
             cb_site_cert_fingerprint := fingerprint; cb_bound_at := bound_at;
             cb_expires_at := expires_at; cb_created_at := created_at |}.

(** [CenterBinding::bind] on [&mut self]. *)
Definition bind (b : CenterBinding) (fingerprint : option CertificateFingerprint)
    (now : OffsetDateTime) : CenterBinding * result () InvalidCenterBindingTransition :=
  match center_binding_transition (cb_state b) CodeAccepted with
  | Err e => (b, Err e)
  | Ok next =>
      ({| cb_id := cb_id b; cb_center_url := cb_center_url b;
          cb_site_instance_id := cb_site_instance_id b; cb_state := next;
          cb_binding_code_hash := None; cb_site_cert_fingerprint := fingerprint;
          cb_bound_at := Some now; cb_expires_at := None; cb_created_at := cb_created_at b |}, Ok ())
  end.

(** [CenterBinding::revoke]. *)
Definition revoke (b : CenterBinding) : CenterBinding * result () InvalidCenterBindingTransition :=
  match center_binding_transition (cb_state b) BindingRevocation with
  | Err e => (b, Err e)
  | Ok next =>
      ({| cb_id := cb_id b; cb_center_url := cb_center_url b;
          cb_site_instance_id := cb_site_instance_id b; cb_state := next;
          cb_binding_code_hash := None;
          cb_site_cert_fingerprint := cb_site_cert_fingerprint b;
          cb_bound_at := cb_bound_at b; cb_expires_at := None;
          cb_created_at := cb_created_at b |}, Ok ())
  end.

(** [CenterBinding::is_expired]. *)
Definition binding_is_expired (b : CenterBinding) (now : OffsetDateTime) : bool :=
  is_some_and (cb_expires_at b) (λ t, t <? now)%Z.

(** [CenterBinding::verify_code]. *)
Definition verify_code (b : CenterBinding) (presented : str) (now : OffsetDateTime)
    : result () BindingCodeVerificationError :=
  if decide (cb_state b ≠ BindingPending) then Err NotPending
  else if binding_is_expired b now then Err CodeExpired
  else
    let? stored := ok_or (cb_binding_code_hash b) CodeMismatch in
    if negb (verify_hash presented stored) then Err CodeMismatch else Ok ().
End binding.

(** ** Outbox entries *)

Inductive OutboxEntryState := OutboxPending | OutboxAcked.
#[export] Instance OutboxEntryState_eq_dec : EqDecision OutboxEntryState.
Proof. solve_decision. Defined.
Definition OutboxEntryState_as_str (s : OutboxEntryState) : str :=
  match s with OutboxPending => lit "pending" | OutboxAcked => lit "acked" end.
Inductive OutboxEntryStateParseError := OutboxEntryStateParseErr.
Definition OutboxEntryState_from_str (value : str)
    : result OutboxEntryState OutboxEntryStateParseError :=
  ok_or (match_str value [("pending", OutboxPending); ("acked", OutboxAcked)]%string)
    OutboxEntryStateParseErr.
#[export, refine] Instance OutboxEntryState_code :
  StableCode OutboxEntryState OutboxEntryStateParseError :=
  { code_str := OutboxEntryState_as_str; code_parse := OutboxEntryState_from_str }.
Proof. all: unfold OutboxEntryState_from_str; solve_code. Defined.

Inductive OutboxEvent := Acknowledged.
Definition OutboxEvent_as_str (e : OutboxEvent) : str :=
  match e with Acknowledged => lit "acknowledged" end.

Record InvalidOutboxTransition := mk_invalid_outbox {
  io_from : OutboxEntryState;
  io_event : OutboxEvent;
}.
Definition invalid_outbox_transition (current : OutboxEntryState) (event : OutboxEvent)
    : InvalidOutboxTransition := {| io_from := current; io_event := event |}.

Definition outbox_transition (current : OutboxEntryState) (event : OutboxEvent)
    : result OutboxEntryState InvalidOutboxTransition :=
  match current with
  | OutboxPending => match event with Acknowledged => Ok OutboxAcked end
  | OutboxAcked => match event with Acknowledged => Err (invalid_outbox_transition current event) end
  end.

Inductive OutboxEntryError := NegativeRetryCount | InvalidAckPairing | AckBeforeCreation.

Abbreviation OutboxEntryId := Uuid.

(** [sequence] and [retry_count] are [i64]. *)
Record OutboxEntry := mk_outbox_entry {
  oe_id : OutboxEntryId;
  oe_instance_id : InstanceId;
  oe_sequence : Z;
  oe_payload_json : str;
  oe_state : OutboxEntryState;
  oe_retry_count : Z;
  oe_created_at : OffsetDateTime;
  oe_acked_at : option OffsetDateTime;
}.

(** [OutboxEntry::new]. *)
Definition OutboxEntry_new (id : OutboxEntryId) (instance : InstanceId) (sequence : Z)
    (payload : str) (created_at : OffsetDateTime) : OutboxEntry :=
  {| oe_id := id; oe_instance_id := instance; oe_sequence := sequence; oe_payload_json := payload;
     oe_state := OutboxPending; oe_retry_count := 0; oe_created_at := created_at;
     oe_acked_at := None |}.

(** [OutboxEntry::try_from_parts]. *)
Definition OutboxEntry_try_from_parts (id : OutboxEntryId) (instance : InstanceId) (sequence : Z)
    (payload : str) (state : OutboxEntryState) (retry_count : Z) (created_at : OffsetDateTime)
    (acked_at : option OffsetDateTime) : result OutboxEntry OutboxEntryError :=
  if (retry_count <? 0)%Z then Err NegativeRetryCount
  else if match state, acked_at with
          | OutboxPending, Some _ | OutboxAcked, None => true
          | _, _ => false
          end then Err InvalidAckPairing
  else if is_some_and acked_at (λ t, t <? created_at)%Z then Err AckBeforeCreation
  else Ok {| oe_id := id; oe_instance_id := instance; oe_sequence := sequence;
             oe_payload_json := payload; oe_state := state; oe_retry_count := retry_count;
             oe_created_at := created_at; oe_acked_at := acked_at |}.

(** [OutboxEntry::ack] on [&mut self]. *)
Definition ack (e : OutboxEntry) (now : OffsetDateTime)
    : OutboxEntry * result () InvalidOutboxTransition :=
  match outbox_transition (oe_state e) Acknowledged with
  | Err err => (e, Err err)
  | Ok next =>
      ({| oe_id := oe_id e; oe_instance_id := oe_instance_id e; oe_sequence := oe_sequence e;
          oe_payload_json := oe_payload_json e; oe_state := next;
          oe_retry_count := oe_retry_count e; oe_created_at := oe_created_at e;
          oe_acked_at := Some now |}, Ok ())
  end.

(** ** Inbox entries *)

Inductive InboxEntryState := InboxReceived | InboxAccepted | InboxRejected | InboxCompleted.
#[export] Instance InboxEntryState_eq_dec : EqDecision InboxEntryState.
Proof. solve_decision. Defined.
Definition InboxEntryState_as_str (s : InboxEntryState) : str :=
  match s with
  | InboxReceived => lit "received" | InboxAccepted => lit "accepted"
  | InboxRejected => lit "rejected" | InboxCompleted => lit "completed"
  end.
Inductive InboxEntryStateParseError := InboxEntryStateParseErr.
Definition InboxEntryState_from_str (value : str)
    : result InboxEntryState InboxEntryStateParseError :=
  ok_or (match_str value
    [("received", InboxReceived); ("accepted", InboxAccepted); ("rejected", InboxRejected);
     ("completed", InboxCompleted)]%string) InboxEntryStateParseErr.
#[export, refine] Instance InboxEntryState_code : StableCode InboxEntryState InboxEntryStateParseError :=
  { code_str := InboxEntryState_as_str; code_parse := InboxEntryState_from_str }.
Proof. all: unfold InboxEntryState_from_str; solve_code. Defined.

Definition inbox_is_terminal (s : InboxEntryState) : bool :=
  match s with InboxRejected | InboxCompleted => true | _ => false end.

Inductive InboxEvent := EvInboxAccepted | EvInboxRejected | EvInboxCompleted.
#[export] Instance InboxEvent_eq_dec : EqDecision InboxEvent.
Proof. solve_decision. Defined.
Definition InboxEvent_as_str (e : InboxEvent) : str :=
  match e with
  | EvInboxAccepted => lit "accepted" | EvInboxRejected => lit "rejected"
  | EvInboxCompleted => lit "completed"
  end.
Definition from_state (e : InboxEvent) : InboxEntryState :=
  match e with EvInboxAccepted | EvInboxRejected => InboxReceived | EvInboxCompleted => InboxAccepted end.
Definition to_state (e : InboxEvent) : InboxEntryState :=
  match e with
  | EvInboxAccepted => InboxAccepted | EvInboxRejected => InboxRejected
  | EvInboxCompleted => InboxCompleted
  end.

Record InvalidInboxTransition := mk_invalid_inbox {
  ii_from : InboxEntryState;
  ii_event : InboxEvent;
}.
Definition invalid_inbox_transition (current : InboxEntryState) (event : InboxEvent)
    : InvalidInboxTransition := {| ii_from := current; ii_event := event |}.

Definition inbox_transition (current : InboxEntryState) (event : InboxEvent)
    : result InboxEntryState InvalidInboxTransition :=
  match current with
  | InboxReceived =>
      match event with
      | EvInboxAccepted => Ok InboxAccepted
      | EvInboxRejected => Ok InboxRejected
      | EvInboxCompleted => Err (invalid_inbox_transition current event)
      end
  | InboxAccepted =>
      match event with
      | EvInboxCompleted => Ok InboxCompleted
      | EvInboxAccepted | EvInboxRejected => Err (invalid_inbox_transition current event)
      end
  | InboxRejected | InboxCompleted => Err (invalid_inbox_transition current event)
  end.

Abbreviation InboxEntryId := Uuid.

Record InboxEntry := mk_inbox_entry {
  ie_id : InboxEntryId;
  ie_operation_id : OperationId;
  ie_instance_id : InstanceId;
  ie_payload_json : str;
  ie_state : InboxEntryState;
  ie_expires_at : OffsetDateTime;
  ie_received_at : OffsetDateTime;
}.

(** [InboxEntry::new]. *)
Definition InboxEntry_new (id : InboxEntryId) (operation_id : OperationId) (instance : InstanceId)
    (payload : str) (expires_at received_at : OffsetDateTime) : InboxEntry :=
  {| ie_id := id; ie_operation_id := operation_id; ie_instance_id := instance;
     ie_payload_json := payload; ie_state := InboxReceived; ie_expires_at := expires_at;
     ie_received_at := received_at |}.

Definition with_inbox_state (e : InboxEntry) (s : InboxEntryState) : InboxEntry :=
  {| ie_id := ie_id e; ie_operation_id := ie_operation_id e; ie_instance_id := ie_instance_id e;
     ie_payload_json := ie_payload_json e; ie_state := s; ie_expires_at := ie_expires_at e;
     ie_received_at := ie_received_at e |}.

(** [InboxEntry::apply] on [&mut self]. *)
Definition InboxEntry_apply (e : InboxEntry) (event : InboxEvent)
    : InboxEntry * result () InvalidInboxTransition :=
  match inbox_transition (ie_state e) event with
  | Err err => (e, Err err)
  | Ok next => (with_inbox_state e next, Ok ())
  end.

(** [InboxEntry::is_expired]. *)
Definition inbox_is_expired (e : InboxEntry) (now : OffsetDateTime) : bool :=
  (ie_expires_at e <? now)%Z.

Inductive IdempotencyDecision := Proceed | InProgress | AlreadyResolved (state : InboxEntryState).

Definition decide_inbox_duplicate (existing : option InboxEntryState) : IdempotencyDecision :=
  match existing with
  | None => Proceed
  | Some (InboxReceived | InboxAccepted) => InProgress
  | Some state => AlreadyResolved state
  end.

(** ** Sync streams *)

Inductive SyncStream := StreamEndpoint | StreamHealth | StreamEvent | StreamArtifact.
#[export] Instance SyncStream_eq_dec : EqDecision SyncStream.
Proof. solve_decision. Defined.
Definition SyncStream_as_str (s : SyncStream) : str :=
  match s with
  | StreamEndpoint => lit "endpoint" | StreamHealth => lit "health"
  | StreamEvent => lit "event" | StreamArtifact => lit "artifact"
  end.
Inductive SyncStreamParseError := SyncStreamParseErr.
Definition SyncStream_from_str (value : str) : result SyncStream SyncStreamParseError :=
  ok_or (match_str value
    [("endpoint", StreamEndpoint); ("health", StreamHealth); ("event", StreamEvent);
     ("artifact", StreamArtifact)]%string) SyncStreamParseErr.
#[export, refine] Instance SyncStream_code : StableCode SyncStream SyncStreamParseError :=
  { code_str := SyncStream_as_str; code_parse := SyncStream_from_str }.
Proof. all: unfold SyncStream_from_str; solve_code. Defined.

Record SyncCursor := mk_sync_cursor {
  sc_id : Uuid;
  sc_instance_id : InstanceId;
  sc_stream : SyncStream;
  sc_cursor_value : str;
  sc_updated_at : OffsetDateTime;
}.

(** ** Theorems: binding codes *)

Lemma alphabet_ascii x : x ∈ CODE_ALPHABET → (48 <= x < 91)%N.
Proof.
  assert (forallb (λ x, (48 <=? x) && (x <? 91))%N CODE_ALPHABET = true) as H by reflexivity.
  rewrite forallb_forall in H. intros Hx%list_elem_of_In. specialize (H x Hx). lia.
Qed.

Lemma alphabet_upper x : x ∈ CODE_ALPHABET →
  (if (97 <=? x)%N && (x <=? 122)%N then (x - 32)%N else x) = x.
Proof. intros Hx%alphabet_ascii. by replace ((97 <=? x)%N && (x <=? 122)%N) with false by lia. Qed.

(** Bytes of the alphabet are characters of the alphabet. *)
Lemma alphabet_bytes s :
  forallb (λ byte, bool_decide (byte ∈ CODE_ALPHABET)) (as_bytes s) = true ↔
  Forall (λ x, x ∈ CODE_ALPHABET) s.
Proof.
  induction s as [|c s IH]; [done|]. change (as_bytes (c :: s)) with (utf8_char c ++ as_bytes s).
  rewrite forallb_app, andb_true_iff, IH, Forall_cons. apply and_iff_compat_r.
  unfold utf8_char. destruct (c <? 128)%N eqn:C1.
  - simpl. by rewrite andb_true_r, bool_decide_eq_true.
  - split.
    + intros Hb. exfalso.
      assert (∃ b bs, (if (c <? 2048)%N then [192 + c / 64; 128 + c mod 64]
        else if (c <? 65536)%N then [224 + c / 4096; 128 + (c / 64) mod 64; 128 + c mod 64]
        else [240 + c / 262144; 128 + (c / 4096) mod 64; 128 + (c / 64) mod 64; 128 + c mod 64])%N
        = b :: bs ∧ (192 <= b)%N) as (b & bs & Heq & Hge).
      { repeat case_match; eexists _, _; (split; [done|]); (etrans; [|apply N.le_add_r]); done. }
      rewrite Heq in Hb. simpl in Hb. apply andb_true_iff in Hb as [Hb _].
      apply bool_decide_eq_true, alphabet_ascii in Hb. lia.
    + intros Hc%alphabet_ascii. lia.
Qed.

Lemma alphabet_len s : Forall (λ x, x ∈ CODE_ALPHABET) s → str_len s = N.of_nat (length s).
Proof.
  induction 1 as [|c s Hc Hs IH]; [done|]. change (str_len (c :: s)) with (len_utf8 c + str_len s)%N.
  apply alphabet_ascii in Hc. rewrite IH. unfold len_utf8.
  replace (c <=? 127)%N with true by lia. simpl length. lia.
Qed.

Lemma BindingCode_from_str_Ok value c :
  BindingCode_from_str value = Ok c ↔ c = to_ascii_uppercase (trim value) ∧ binding_code c.
Proof.
  unfold BindingCode_from_str, binding_code, BINDING_CODE_CHARACTERS.
  set (n := to_ascii_uppercase (trim value)).
  destruct (forallb _ (as_bytes n)) eqn:Hb.
  - apply alphabet_bytes in Hb. rewrite (alphabet_len n Hb).
    destruct (N.of_nat (length n) =? 20)%N eqn:Hl; simpl.
    + split; [intros [= <-]; split; [done|]; split; [lia | done] | by intros [-> _]].
    + split; [done|]. intros (-> & Hc & _). lia.
  - rewrite orb_true_r. split; [done|]. intros (-> & _ & Hc).
    apply alphabet_bytes in Hc. congruence.
Qed.

Lemma binding_code_trimmed c : binding_code c → trimmed c.
Proof.
  intros [_ Hc]. assert (∀ l, Forall (λ x, x ∈ CODE_ALPHABET) l → starts_plain l) as Hplain.
  { intros [|x l]; [done|]. rewrite Forall_cons. intros [Hx%alphabet_ascii _]. simpl.
    unfold is_whitespace. lia. }
  split; apply Hplain; [done|]. by apply Forall_reverse.
Qed.

Lemma binding_code_upper c : binding_code c → to_ascii_uppercase c = c.
Proof.
  intros [_ Hc]. unfold to_ascii_uppercase. induction Hc as [|x c Hx Hc IH]; [done|].
  rewrite fmap_cons, IH. f_equal. by apply alphabet_upper.
Qed.

(** Parsing a binding code accepts exactly the inputs that are, after
    trimming and ASCII upper-casing, twenty characters of the unambiguous
    alphabet; the parsed code is that canonical text, and parses to itself. *)
Theorem binding_code_parse value :
  match BindingCode_from_str value with
  | Ok c => c = to_ascii_uppercase (trim value) ∧ binding_code c ∧ BindingCode_from_str c = Ok c
  | Err _ => ¬ binding_code (to_ascii_uppercase (trim value))
  end.
Proof.
  destruct (BindingCode_from_str value) as [c|e] eqn:He.
  - apply BindingCode_from_str_Ok in He as [Heq Hc]. split; [done|]. split; [done|].
    clear Heq. apply BindingCode_from_str_Ok. split; [|done].
    rewrite trim_fix by (by apply binding_code_trimmed). symmetry. by apply binding_code_upper.
  - intros Hc. assert (BindingCode_from_str value = Ok (to_ascii_uppercase (trim value))) as He'
      by (by apply BindingCode_from_str_Ok). congruence.
Qed.

(** ** Theorems: bindings *)

(** What can be done to a stored binding. *)
Inductive BindingAction :=
| ActBind (fingerprint : option CertificateFingerprint) (now : OffsetDateTime)
| ActRevoke.

Definition act (b : CenterBinding) (a : BindingAction) : CenterBinding :=
  match a with
  | ActBind fingerprint now => (bind b fingerprint now).1
  | ActRevoke => (revoke b).1
  end.

Lemma act_leaves_pending b a : cb_state (act b a) ≠ BindingPending.
Proof. destruct a; unfold act, bind, revoke; destruct (cb_state b) eqn:Hs; simpl; congruence. Qed.

Lemma acts_leave_pending b acts : acts ≠ [] → cb_state (foldl act b acts) ≠ BindingPending.
Proof.
  intros Hne. destruct acts as [|a acts _] using rev_ind; [done|].
  rewrite foldl_snoc. apply act_leaves_pending.
Qed.

Section binding_theorems.
Context (sha256 : list N → list N).
Context (Hsha : ∀ b, length (sha256 b) = 32).

(** A binding code is usable once and in time: whatever was done to the
    binding since, a presented code is accepted exactly when nothing was done yet,
    the expiry has not passed, and its hash is the issued code's. *)
Theorem binding_code_single_use id url site code expires created acts presented now :
  verify_code sha256 (foldl act (new_pending sha256 id url site code expires created) acts)
    presented now = Ok () ↔
  acts = [] ∧ (now ≤ expires)%Z ∧
  BindingCode_hash sha256 presented = BindingCode_hash sha256 code.
Proof.
  destruct (decide (acts = [])) as [->|Hne].
  - simpl. unfold verify_code, binding_is_expired, verify_hash. simpl.
    destruct (expires <? now)%Z eqn:Hx; [split; [done|]; intros (_ & ? & _); lia|].
    assert (length (BindingCode_hash sha256 presented) = length (BindingCode_hash sha256 code)) as Hl
      by (unfold BindingCode_hash; by rewrite !Hsha).
    destruct (constant_time_eq _ _) eqn:Hc; simpl.
    + apply constant_time_eq_spec in Hc; [|done]. split; [|done]. intros _.
      split; [done|]. split; [lia | done].
    + split; [done|]. intros (_ & _ & Heq). apply constant_time_eq_spec in Heq; [|done]. congruence.
  - split; [|by intros [-> _]]. unfold verify_code.
    rewrite decide_True; [done|]. by apply acts_leave_pending.
Qed.

(** The columns of a reachable binding. *)
Definition binding_inv (b : CenterBinding) : Prop :=
  (∀ h, cb_binding_code_hash b = Some h → length h = 32) ∧
  shape_matches (cb_state b) (cb_binding_code_hash b) (cb_bound_at b) (cb_expires_at b) = true ∧
  (∀ t, cb_bound_at b = Some t → (cb_created_at b ≤ t)%Z) ∧
  (∀ t, cb_expires_at b = Some t → (cb_created_at b ≤ t)%Z).

(** The action is not stamped before the binding was created. *)
Definition action_after (created : OffsetDateTime) (a : BindingAction) : Prop :=
  match a with ActBind _ now => (created ≤ now)%Z | ActRevoke => True end.

Lemma binding_inv_act b a :
  binding_inv b → action_after (cb_created_at b) a →
  binding_inv (act b a) ∧ cb_created_at (act b a) = cb_created_at b.
Proof.
  intros (Hh & Hs & Hb & He) Ha. destruct a as [fp now|]; unfold act, bind, revoke;
    destruct (cb_state b) eqn:Hst; simpl; (split; [|done]); unfold binding_inv; simpl;
    rewrite ?Hst; naive_solver.
Qed.

Lemma binding_inv_rehydrates b :
  binding_inv b →
  CenterBinding_try_from_parts (cb_id b) (cb_center_url b) (cb_site_instance_id b) (cb_state b)
    (cb_binding_code_hash b) (cb_site_cert_fingerprint b) (cb_bound_at b) (cb_expires_at b)
    (cb_created_at b) = Ok b.
Proof.
  intros (Hh & Hs & Hb & He). unfold CenterBinding_try_from_parts.
  assert (hash_of_slice (cb_binding_code_hash b) = Some (cb_binding_code_hash b)) as ->.
  { destruct (cb_binding_code_hash b) as [h|]; [|done]. simpl. by rewrite decide_True by auto. }
  simpl. rewrite Hs. simpl.
  assert (is_some_and (cb_bound_at b) (λ t, t <? cb_created_at b)%Z = false) as ->.
  { destruct (cb_bound_at b) as [t|]; [|done]. simpl. specialize (Hb t eq_refl). lia. }
  assert (is_some_and (cb_expires_at b) (λ t, t <? cb_created_at b)%Z = false) as ->.
  { destruct (cb_expires_at b) as [t|]; [|done]. simpl. specialize (He t eq_refl). lia. }
  by destruct b.
Qed.

(** A binding issued with an expiry after its creation, and acted on from
    its creation on, is always accepted by the persistence constructor as it is;
    once it left the pending state it holds neither the code's hash nor an
    expiry. *)
Theorem binding_rehydrates id url site code expires created acts :
  (created ≤ expires)%Z → Forall (action_after created) acts →
  let b := foldl act (new_pending sha256 id url site code expires created) acts in
  CenterBinding_try_from_parts (cb_id b) (cb_center_url b) (cb_site_instance_id b) (cb_state b)
    (cb_binding_code_hash b) (cb_site_cert_fingerprint b) (cb_bound_at b) (cb_expires_at b)
    (cb_created_at b) = Ok b ∧
  (cb_state b ≠ BindingPending → cb_binding_code_hash b = None ∧ cb_expires_at b = None).
Proof.
  intros Hexp Hacts b.
  assert (binding_inv b ∧ cb_created_at b = created) as [Hinv _].
  { unfold b. induction acts as [|a acts IH] using rev_ind.
    - split; [|done]. split; [intros h [= <-]; apply Hsha|]. split; [done|]. naive_solver.
    - apply Forall_app in Hacts as [Hacts Ha]. rewrite Forall_singleton in Ha.
      destruct (IH Hacts) as [Hi Hc]. rewrite foldl_snoc.
      destruct (binding_inv_act _ a Hi) as [? ->]; [by rewrite Hc | done]. }
  split; [by apply binding_inv_rehydrates|]. intros Hp. destruct Hinv as (_ & Hs & _).
  destruct (cb_state b), (cb_binding_code_hash b), (cb_expires_at b); simpl in *; done.
Qed.
End binding_theorems.

Lemma binding_code_single_use_witness :
  let sha (b : list N) := replicate 32 (N.of_nat (length b)) in
  (∀ b, length (sha b) = 32) ∧
  verify_code sha (new_pending sha 1 [] 2 (lit "23456789ABCDEFGHJKLM") 900 0)
    (lit "23456789ABCDEFGHJKLM") 899 = Ok ().
Proof.
  intros sha. assert (∀ b, length (sha b) = 32) as Hsha by (intros b; apply length_replicate).
  split; [exact Hsha|].
  apply (binding_code_single_use sha Hsha 1 [] 2 (lit "23456789ABCDEFGHJKLM") 900 0 []).
  split; [reflexivity|]. split; [lia | reflexivity].
Defined.

Lemma binding_rehydrates_witness :
  let sha (b : list N) := replicate 32 (N.of_nat (length b)) in
  let b := foldl act (new_pending sha 1 [] 2 (lit "23456789ABCDEFGHJKLM") 900 0)
             [ActBind None 30; ActRevoke] in
  CenterBinding_try_from_parts (cb_id b) (cb_center_url b) (cb_site_instance_id b) (cb_state b)
    (cb_binding_code_hash b) (cb_site_cert_fingerprint b) (cb_bound_at b) (cb_expires_at b)
    (cb_created_at b) = Ok b ∧
  (cb_state b ≠ BindingPending → cb_binding_code_hash b = None ∧ cb_expires_at b = None).
Proof.
  intros sha. apply (binding_rehydrates sha (λ b, length_replicate _ _)); [lia|].
  repeat constructor; simpl; lia.
Defined.

(** ** Theorems: outbox and inbox *)

(** An outbox entry is acknowledged once: the acknowledgement of a pending
    entry only sets its state and time, it is accepted by the persistence
    constructor when not stamped before the creation, and a second one is refused
    and changes nothing. *)
Theorem outbox_ack_once id instance sequence payload created now later :
  (created ≤ now)%Z →
  let e := OutboxEntry_new id instance sequence payload created in
  let e' := (ack e now).1 in
  (ack e now).2 = Ok () ∧ oe_state e' = OutboxAcked ∧ oe_acked_at e' = Some now ∧
  oe_sequence e' = sequence ∧ oe_payload_json e' = payload ∧
  OutboxEntry_try_from_parts (oe_id e') (oe_instance_id e') (oe_sequence e') (oe_payload_json e')
    (oe_state e') (oe_retry_count e') (oe_created_at e') (oe_acked_at e') = Ok e' ∧
  ack e' later = (e', Err (invalid_outbox_transition OutboxAcked Acknowledged)).
Proof.
  intros Hnow e e'. repeat (split; [done|]). split; [|done].
  unfold OutboxEntry_try_from_parts. simpl. by replace (now <? created)%Z with false by lia.
Qed.

Lemma outbox_ack_once_witness :
  (ack (OutboxEntry_new 1 2 3 (lit "{}") 10) 11).2 = Ok ().
Proof. apply (outbox_ack_once 1 2 3 (lit "{}") 10 11 12). lia. Defined.

Lemma inbox_transition_iff s e s' :
  inbox_transition s e = Ok s' ↔ s = from_state e ∧ s' = to_state e.
Proof. destruct s, e, s'; simpl; split; intros; destruct_and?; done. Qed.

(** The inbox machine decides once: an event is accepted exactly in the
    state it declares as its source and leads to the state it declares; from
    [Received] the accepted sequences are the four of the offer protocol, so an
    entry is accepted or rejected at most once and completed only after
    acceptance; and the duplicate decision proceeds exactly when there is no entry
    and reports a resolved entry exactly when no event can change it any more. *)
Theorem inbox_decides_once :
  (∀ s e s', inbox_transition s e = Ok s' ↔ s = from_state e ∧ s' = to_state e) ∧
  (∀ es s, run inbox_transition InboxReceived es = Ok s ↔
     (es, s) ∈ [([], InboxReceived); ([EvInboxAccepted], InboxAccepted);
                ([EvInboxRejected], InboxRejected);
                ([EvInboxAccepted; EvInboxCompleted], InboxCompleted)]) ∧
  (∀ s, decide_inbox_duplicate (Some s) = AlreadyResolved s ↔
        ∀ e, inbox_transition s e = Err (invalid_inbox_transition s e)) ∧
  (∀ x, decide_inbox_duplicate x = Proceed ↔ x = None).
Proof.
  split; [apply inbox_transition_iff|]. split; [|split].
  - intros es s. rewrite !elem_of_cons, elem_of_nil. split.
    + destruct es as [|[] [|[] [|[] es]]]; simpl; intros; simplify_eq; tauto.
    + intros [?|[?|[?|[?|[]]]]]; by simplify_eq.
  - intros s. split; [by destruct s; intros ? []|]. intros H. specialize (H (match s with
      InboxReceived => EvInboxAccepted | _ => EvInboxCompleted end)). by destruct s.
  - intros [[]|]; simpl; naive_solver.
Qed.
