(* ===== verification/LinkMessages.v ===== *)
(** * LinkMessages: what the center and a site say to each other

    The envelope of [center-protocol/proto/rutilus/center/v1/center.proto], whose
    Rust types the build generates; a [string] is [str], [bytes] a list of bytes,
    an integer [Z], an instant the Unix second it carries.  The JSON of the
    queues is [serde_json] of these types, a parameter. *)
From S2P Require Import Prelude Text.

(** [uuid::Uuid]'s text form. *)
Class UuidText := {
  show_uuid : Uuid → str;
  parse_uuid : str → option Uuid;
  parse_show u : parse_uuid (show_uuid u) = Some u;
}.

Lemma show_uuid_inj `{UuidText} u v : show_uuid u = show_uuid v → u = v.
Proof. intros Heq. pose proof (parse_show u). rewrite Heq, parse_show in *. congruence. Qed.

(** ** Operations *)

Record OperationOffer := mk_offer {
  of_operation_id : str;
  of_site_id : str;
  of_endpoint_id : str;
  of_target : str;
  of_command_json : list N;
  of_expires_at_unix : Z;
  of_actor_context : str;
}.

Inductive OperationRejectedReason :=
| ReasonUnspecified | EndpointMissing | CapabilityMissing | CredentialInvalid
| TargetStateChanged | ReasonExpired | NotAuthorizedReason | InvalidCommandReason.

(** The replies a site queues for an operation. *)
Inductive Reply :=
| OperationAccepted (operation_id : str) (accepted_at_unix : Z)
| OperationRejected (operation_id : str) (reason : OperationRejectedReason) (detail : str)
| OperationProgress (operation_id : str) (state detail : str)
| OperationCompleted (operation_id : str) (succeeded : bool) (summary : str).

Definition reply_id (r : Reply) : str :=
  match r with
  | OperationAccepted id _ | OperationRejected id _ _ | OperationProgress id _ _
  | OperationCompleted id _ _ => id
  end.
Definition is_rejection (r : Reply) : bool :=
  match r with OperationRejected _ _ _ => true | _ => false end.

(** ** The projection *)

Inductive WireTlsTrust := TrustUnspecified | TrustSystemCa | TrustPinnedCertificate.

Record ResourceSummary := mk_resource_summary {
  rs_feature : str; rs_odata_id : str; rs_odata_type : str; rs_etag : str; rs_generation : Z;
}.
Record EndpointSnapshot := mk_endpoint_snapshot {
  es_endpoint_id : str; es_display_name : str; es_address : str; es_trust : Z;
  es_refresh_generation : Z; es_resources : list ResourceSummary; es_health : str;
}.
Record ResourceDelta := mk_resource_delta {
  rd_endpoint_id : str; rd_op : Z; rd_resource : option ResourceSummary; rd_payload_json : list N;
  rd_observed_at_unix : Z;
}.
Record EventRecord := mk_event_record {
  er_event_id : str; er_message_id : str; er_severity : Z; er_target : str;
  er_occurred_at_unix : Z; er_payload_json : list N; er_endpoint_id : str;
}.
Record WireArtifactManifest := mk_wire_manifest {
  am_artifact_id : str; am_name : str; am_total_bytes : Z; am_sha256 : list N;
}.
Record WireArtifactChunk := mk_wire_chunk { ac_artifact_id : str; ac_index : Z; ac_data : list N }.

Inductive Content :=
| MsgEndpointSnapshot (snapshot : EndpointSnapshot)
| MsgResourceDelta (delta : ResourceDelta)
| MsgEventBatch (events : list EventRecord)
| MsgArtifactManifest (manifest : WireArtifactManifest)
| MsgArtifactChunk (chunk : WireArtifactChunk).

(** ** The envelope *)

Record Hello := mk_wire_hello {
  he_product_version : str; he_center_protocol_version : Z; he_nv_redfish_baseline : str;
  he_capability_ledger_hash : list N; he_instance_id : str; he_site_name : str;
  he_last_acked_sequence : Z;
}.

(** The [oneof]; the four replies and the five content messages are grouped. *)
Inductive EnvelopeMessage :=
| MsgHello (hello : Hello)
| MsgNegotiationResult (accepted : bool) (reason : str)
| MsgCapabilityManifest (capabilities : list (str * Z)) (observed_at_unix : Z)
| MsgContent (content : Content)
| MsgOffer (offer : OperationOffer)
| MsgReply (reply : Reply)
| MsgAck (sequence : Z)
| MsgHeartbeat (sent_at_unix : Z).

Record Envelope := mk_envelope {
  en_sequence : Z;
  en_acked_sequence : Z;
  en_message : option EnvelopeMessage;
}.

(** [serde_json::to_string] and [from_str] at [Envelope]. *)
Class EnvelopeJson := {
  envelope_to_json : Envelope → option str;
  envelope_from_json : str → option Envelope;
}.
Class EnvelopeJsonLaws `{EnvelopeJson} := {
  envelope_roundtrip e text : envelope_to_json e = Some text → envelope_from_json text = Some e;
  envelope_scalars e text : envelope_to_json e = Some text → Forall (λ x, is_scalar x = true) text;
}.
