(* ===== verification/Framing.v ===== *)
(** * Framing: the frames and the handshake of the center link

    Models [center-protocol/src/framing.rs] (a four-byte big-endian length, then
    the envelope) and [center-protocol/src/negotiation.rs] (the compatibility
    decision).  The Protocol Buffers codec (crate [prost], with the generated
    messages) and SHA-256 are parameters. *)
From S2P Require Import Prelude Text Operation.
Local Open Scope Z_scope.

(** ** Frames *)

Definition MAX_FRAME_BYTES : Z := 8 * 1024 * 1024.
Definition FRAME_HEADER_BYTES : nat := 4.

Inductive FrameError :=
| TooShort (frame_bytes header_bytes : Z)
| HeaderTooLarge (declared_bytes max_bytes : Z)
| Truncated (declared_bytes present_bytes : Z)
| TrailingBytes (declared_bytes extra_bytes : Z)
| EncodeLimit (payload_bytes max_bytes : Z)
| FrameDecode
| FrameEncode.

(** The Protocol Buffers codec of one message type. *)
Class WireCodec (Envelope : Type) := {
  encoded_len : Envelope → Z;
  wire_encode : Envelope → option (list Z);
  wire_decode : list Z → option Envelope;
}.

Class WireCodecLaws (Envelope : Type) `{WireCodec Envelope} := {
  wire_len e bytes : wire_encode e = Some bytes → Z.of_nat (length bytes) = encoded_len e;
  wire_roundtrip e bytes : wire_encode e = Some bytes → wire_decode bytes = Some e;
}.

(** [u32::to_be_bytes] and [u32::from_be_bytes]. *)
Definition to_be_bytes (n : Z) : list Z :=
  [n / 2 ^ 24 mod 256; n / 2 ^ 16 mod 256; n / 2 ^ 8 mod 256; n mod 256].
Definition from_be_bytes (b0 b1 b2 b3 : Z) : Z :=
  b0 * 2 ^ 24 + b1 * 2 ^ 16 + b2 * 2 ^ 8 + b3.

Definition blen (bytes : list Z) : Z := Z.of_nat (length bytes).

Section frames.
Context {Envelope : Type} `{WireCodec Envelope}.

(** [encode_frame]. *)
Definition encode_frame (envelope : Envelope) : result (list Z) FrameError :=
  let payload_bytes := encoded_len envelope in
  if MAX_FRAME_BYTES <? payload_bytes then Err (EncodeLimit payload_bytes MAX_FRAME_BYTES)
  else
    let? declared := ok_or (u32_try_from payload_bytes) (EncodeLimit payload_bytes MAX_FRAME_BYTES) in
    let? payload := ok_or (wire_encode envelope) FrameEncode in
    Ok (to_be_bytes declared ++ payload).

(** [decode_frame]; a [u32] always fits a [usize]. *)
Definition decode_frame (frame : list Z) : result Envelope FrameError :=
  match frame with
  | b0 :: b1 :: b2 :: b3 :: payload =>
      let declared_bytes := from_be_bytes b0 b1 b2 b3 in
      if MAX_FRAME_BYTES <? declared_bytes then Err (HeaderTooLarge declared_bytes MAX_FRAME_BYTES)
      else if blen payload <? declared_bytes then Err (Truncated declared_bytes (blen payload))
      else if declared_bytes <? blen payload
      then Err (TrailingBytes declared_bytes (blen payload - declared_bytes))
      else ok_or (wire_decode payload) FrameDecode
  | _ => Err (TooShort (blen frame) (Z.of_nat FRAME_HEADER_BYTES))
  end.
End frames.

(** The four bytes of a word. *)
Lemma be_digits n : 0 ≤ n ≤ U32_MAX →
  ∃ b0 b1 b2 b3, to_be_bytes n = [b0; b1; b2; b3] ∧ from_be_bytes b0 b1 b2 b3 = n.
Proof.
  intros Hn. do 4 eexists. split; [reflexivity|]. unfold from_be_bytes, U32_MAX in *.
  pose proof (Z.div_mod n 256). pose proof (Z.div_mod (n / 256) 256).
  pose proof (Z.div_mod (n / 256 / 256) 256). pose proof (Z.div_mod (n / 256 / 256 / 256) 256).
  change (2 ^ 24) with (256 * (256 * 256)). change (2 ^ 16) with (256 * 256). change (2 ^ 8) with 256.
  rewrite <- !Z.div_div by lia.
  assert (0 ≤ n / 256 / 256 / 256 < 256) as Htop.
  { rewrite !Z.div_div by lia. split; [apply Z.div_pos; lia|]. apply Z.div_lt_upper_bound; lia. }
  rewrite (Z.mod_small (n / 256 / 256 / 256)) by done. lia.
Qed.

Lemma from_be_inj b0 b1 b2 b3 n :
  0 ≤ b0 < 256 → 0 ≤ b1 < 256 → 0 ≤ b2 < 256 → 0 ≤ b3 < 256 →
  from_be_bytes b0 b1 b2 b3 = n → to_be_bytes n = [b0; b1; b2; b3].
Proof.
  intros H0 H1 H2 H3 <-. unfold to_be_bytes, from_be_bytes.
  change (2 ^ 24) with (256 * (256 * 256)). change (2 ^ 16) with (256 * 256). change (2 ^ 8) with 256.
  rewrite <- !Z.div_div by lia.
  set (n := b0 * (256 * (256 * 256)) + b1 * (256 * 256) + b2 * 256 + b3).
  assert (n / 256 = b0 * (256 * 256) + b1 * 256 + b2) as E1 by (symmetry; apply (Z.div_unique _ _ _ b3); lia).
  assert (n / 256 / 256 = b0 * 256 + b1) as E2
    by (rewrite E1; symmetry; apply (Z.div_unique _ _ _ b2); lia).
  assert (n / 256 / 256 / 256 = b0) as E3
    by (rewrite E2; symmetry; apply (Z.div_unique _ _ _ b1); lia).
  rewrite E3, E2, E1. unfold n.
  rewrite (Z.mod_small b0) by lia.
  replace ((b0 * 256 + b1) mod 256) with b1 by (apply (Z.mod_unique _ _ b0); lia).
  replace ((b0 * (256 * 256) + b1 * 256 + b2) mod 256) with b2
    by (apply (Z.mod_unique _ _ (b0 * 256 + b1)); lia).
  f_equal. f_equal. f_equal. f_equal.
  symmetry. apply (Z.mod_unique _ _ (b0 * (256 * 256) + b1 * 256 + b2)); lia.
Qed.

Section frame_theorems.
Context {Envelope : Type} `{WireCodecLaws Envelope}.

(** An encoded frame is within the frame limit, is the big-endian length
    of its payload followed by it, and decodes to the envelope; encoding refuses
    exactly what exceeds the limit or what the codec refuses. *)
Theorem frame_roundtrip (e : Envelope) :
  match encode_frame e with
  | Ok frame => blen frame = 4 + encoded_len e ∧ encoded_len e ≤ MAX_FRAME_BYTES ∧
                decode_frame frame = Ok e
  | Err _ => MAX_FRAME_BYTES < encoded_len e ∨ wire_encode e = None
  end.
Proof.
  unfold encode_frame. destruct (Z.ltb_spec MAX_FRAME_BYTES (encoded_len e)) as [Hm|Hm]; [by left|].
  unfold u32_try_from. rewrite decide_True by (unfold MAX_FRAME_BYTES, U32_MAX in *; lia). simpl.
  destruct (wire_encode e) as [payload|] eqn:Hw; simpl; [|by right].
  pose proof (wire_len _ _ Hw) as Hlen.
  destruct (be_digits (encoded_len e)) as (b0 & b1 & b2 & b3 & Hb & Hn).
  { unfold MAX_FRAME_BYTES, U32_MAX in *. lia. }
  unfold to_be_bytes in Hb. injection Hb as -> -> -> ->. unfold decode_frame, blen. rewrite Hn.
  split; [simpl; lia|]. split; [done|].
  destruct (Z.ltb_spec MAX_FRAME_BYTES (encoded_len e)); [lia|].
  rewrite Hlen. rewrite Z.ltb_irrefl. by rewrite (wire_roundtrip _ _ Hw).
Qed.

(** A frame that decodes is exactly one bounded payload behind its own
    length: no byte is missing, none is left over, and nothing longer than the
    limit is ever handed to the decoder. *)
Theorem decode_frame_exact (frame : list Z) (e : Envelope) :
  Forall (λ b, 0 ≤ b < 256) frame → decode_frame frame = Ok e →
  ∃ payload, frame = to_be_bytes (blen payload) ++ payload ∧ wire_decode payload = Some e ∧
    blen payload ≤ MAX_FRAME_BYTES.
Proof.
  intros Hbytes Hd. destruct frame as [|b0 [|b1 [|b2 [|b3 payload]]]]; try done. unfold decode_frame in Hd.
  revert Hd. destruct (Z.ltb_spec MAX_FRAME_BYTES (from_be_bytes b0 b1 b2 b3)); [done|].
  destruct (Z.ltb_spec (blen payload) (from_be_bytes b0 b1 b2 b3)); [done|].
  destruct (Z.ltb_spec (from_be_bytes b0 b1 b2 b3) (blen payload)); [done|].
  intros Hd. inv_ok. exists payload.
  rewrite !Forall_cons in Hbytes. destruct Hbytes as (H0' & H1' & H2' & H3' & _).
  assert (from_be_bytes b0 b1 b2 b3 = blen payload) as Hn by lia.
  apply from_be_inj in Hn; [|done..]. rewrite Hn. split; [done|]. split; [done|lia].
Qed.
End frame_theorems.

(** A codec with its laws: one byte per envelope. *)
#[export] Instance byte_codec : WireCodec Z :=
  { encoded_len _ := 1; wire_encode z := Some [z];
    wire_decode b := match b with [z] => Some z | _ => None end }.
#[export, refine] Instance byte_codec_laws : WireCodecLaws Z := {}.
Proof. all: intros e bytes [= <-]; done. Defined.

Lemma frame_roundtrip_witness :
  match encode_frame 65 with
  | Ok frame => blen frame = 4 + encoded_len 65 ∧ encoded_len 65 ≤ MAX_FRAME_BYTES ∧
                decode_frame frame = Ok 65
  | Err _ => MAX_FRAME_BYTES < encoded_len 65 ∨ wire_encode 65 = None
  end.
Proof. exact (frame_roundtrip 65). Defined.

Lemma decode_frame_exact_witness :
  ∃ payload, [0; 0; 0; 1; 65] = to_be_bytes (blen payload) ++ payload ∧
    wire_decode payload = Some 65 ∧ blen payload ≤ MAX_FRAME_BYTES.
Proof.
  apply (decode_frame_exact [0; 0; 0; 1; 65] 65).
  - repeat constructor; lia.
  - vm_compute. reflexivity.
Defined.

(** ** Negotiation *)

Definition CENTER_PROTOCOL_VERSION : Z := 1.
Definition NV_REDFISH_BASELINE : str := lit "0.13.0".

Inductive NegotiationReason :=
| ProtocolMismatch | BaselineMismatch | LedgerMismatch | NotBound | IdentityMismatch.
#[export] Instance NegotiationReason_eq_dec : EqDecision NegotiationReason.
Proof. solve_decision. Defined.

Definition NegotiationReason_as_str (r : NegotiationReason) : str :=
  match r with
  | ProtocolMismatch => lit "protocol-mismatch"
  | BaselineMismatch => lit "baseline-mismatch"
  | LedgerMismatch => lit "ledger-mismatch"
  | NotBound => lit "not-bound"
  | IdentityMismatch => lit "identity-mismatch"
  end.
Inductive NegotiationReasonParseError := NegotiationReasonParseErr.
Definition NegotiationReason_from_str (value : str)
    : result NegotiationReason NegotiationReasonParseError :=
  ok_or (match_str value
    [("protocol-mismatch", ProtocolMismatch); ("baseline-mismatch", BaselineMismatch);
     ("ledger-mismatch", LedgerMismatch); ("not-bound", NotBound);
     ("identity-mismatch", IdentityMismatch)]%string) NegotiationReasonParseErr.
#[export, refine] Instance NegotiationReason_code :
  StableCode NegotiationReason NegotiationReasonParseError :=
  { code_str := NegotiationReason_as_str; code_parse := NegotiationReason_from_str }.
Proof. all: unfold NegotiationReason_from_str; solve_code. Defined.

Inductive NegotiationDecision := Compatible | NegotiationRejected (reason : NegotiationReason).

(** The fields of [Hello] the decision looks at. *)
Record Hello := mk_hello {
  h_center_protocol_version : Z;
  h_nv_redfish_baseline : str;
  h_capability_ledger_hash : list N;
}.

Section negotiation.
(** SHA-256, and the codes of [CAPABILITY_LEDGER_ORDER]. *)
Context (sha256 : list N → list N) (ledger : list str).

(** [capability_ledger_hash]: the hash of the codes one after the other. *)
Definition capability_ledger_hash : list N := sha256 (concat (as_bytes <$> ledger)).

(** [negotiate]. *)
Definition negotiate (hello : Hello) : NegotiationDecision :=
  if decide (h_center_protocol_version hello ≠ CENTER_PROTOCOL_VERSION)
  then NegotiationRejected ProtocolMismatch
  else if decide (h_nv_redfish_baseline hello ≠ NV_REDFISH_BASELINE)
  then NegotiationRejected BaselineMismatch
  else if decide (h_capability_ledger_hash hello ≠ capability_ledger_hash)
  then NegotiationRejected LedgerMismatch
  else Compatible.
End negotiation.
