(* ===== verification/SiteSync.v ===== *)
(** * SiteSync: how a site answers its center's operation offers

    Models the offer handling and the progress reports of
    [application/src/center_sync.rs] over the site's durable state: the
    operations, the inbox ([persistence/src/center_inbox_repository.rs]) and the
    outbox.  Any boundary call may fail; a handler then returns at once, and what
    it wrote before stays.  A restart loses the in-memory part. *)
From S2P Require Import Prelude Text Operation CenterDomain Capability LinkMessages.

(** ** Outcomes *)

Inductive OfferOutcome :=
| OfferAccepted | OfferRejected (reason : OperationRejectedReason) (detail : str)
| DuplicateProgress | Dropped.

(** Which boundary a handler failed at. *)
Inductive CenterSyncError :=
| SyncPayload | SyncEndpoint | SyncCapability | SyncCredential | SyncInventory
| SyncOperation | SyncOutbox | SyncInbox | SyncProgressTracking.

(** ** State *)

(** What the site knows of its endpoints: their credential, their capability
    ledger, the stored credentials and the last-known resources. *)
Record Facts (Capability : Type) := mk_facts {
  f_endpoints : gmap EndpointId Uuid;
  f_capabilities : gmap EndpointId (list (Capability * option CapabilityState));
  f_credentials : list Uuid;
  f_inventory : list (EndpointId * list str);
}.
Arguments f_endpoints {Capability}.
Arguments f_capabilities {Capability}.
Arguments f_credentials {Capability}.
Arguments f_inventory {Capability}.

Record Site (Command Capability : Type) := mk_site {
  st_operations : gmap OperationId (Operation Command);
  st_kinds : gmap OperationId FailureKind;
  st_inbox : gmap OperationId InboxEntry;
  st_outbox : list Reply;
  st_progress : gmap OperationId (option OperationState);
  st_discovered : bool;
  st_facts : Facts Capability;
  st_clock : nat;
}.
Arguments mk_site {Command Capability}.
Arguments st_operations {Command Capability}.
Arguments st_kinds {Command Capability}.
Arguments st_inbox {Command Capability}.
Arguments st_outbox {Command Capability}.
Arguments st_progress {Command Capability}.
Arguments st_discovered {Command Capability}.
Arguments st_facts {Command Capability}.
Arguments st_clock {Command Capability}.

(** [CreateInboxOutcome] and [InboxAdvanceOutcome]. *)
Inductive InboxInsertOutcome :=
| InboxCreated | DuplicateInProgress | DuplicateResolved (state : InboxEntryState).
Inductive InboxAdvanceOutcome := Advanced (state : InboxEntryState) | AlreadyInState.

(** [create_inbox_entry], its decision: the operation id is the key. *)
Definition inbox_insert (inbox : gmap OperationId InboxEntry) (e : InboxEntry)
    : gmap OperationId InboxEntry * InboxInsertOutcome :=
  match inbox !! ie_operation_id e with
  | Some stored =>
      (inbox, match decide_inbox_duplicate (Some (ie_state stored)) with
              | Proceed => InboxCreated
              | InProgress => DuplicateInProgress
              | AlreadyResolved s => DuplicateResolved s
              end)
  | None => (<[ie_operation_id e := e]> inbox, InboxCreated)
  end.

(** [advance_inbox_entry]: the guarded update, and how a miss is read. *)
Definition inbox_advance (inbox : gmap OperationId InboxEntry) (id : OperationId) (ev : InboxEvent)
    : option (gmap OperationId InboxEntry * InboxAdvanceOutcome) :=
  match inbox !! id with
  | None => None
  | Some e =>
      if decide (ie_state e = from_state ev)
      then Some (<[id := with_inbox_state e (to_state ev)]> inbox, Advanced (to_state ev))
      else if decide (ie_state e = to_state ev) then Some (inbox, AlreadyInState)
      else None
  end.

(** The states of the discovery scan. *)
Definition CENTER_REPORT_IN_FLIGHT_STATES : list OperationState :=
  [Queued; Validating; Running; WaitingRemote; Verifying].
Definition CENTER_REPORT_TERMINAL_STATES : list OperationState :=
  [Succeeded; Failed; Unknown; Cancelled].

Section sync.
Context {Command Capability : Type} `{EqDecision Capability} `{UuidText}.
(** The boundary call number [n] fails. *)
Context (fault : nat → bool).
(** The site's own identity. *)
Context (instance_id : InstanceId).
(** [serde_json] on the envelope and on the command, the capability catalogue, and
    [OffsetDateTime::from_unix_timestamp]. *)
Context (payload_of : OperationOffer → option str) (parse_json : list N → option Command)
  (required_capability : Command → Capability) (show_capability : Capability → str)
  (from_unix_timestamp : Z → option OffsetDateTime).

Abbreviation SiteM := (M (Site Command Capability) CenterSyncError).
Implicit Types (s : Site Command Capability).

Definition tick s : Site Command Capability :=
  mk_site (st_operations s) (st_kinds s) (st_inbox s) (st_outbox s) (st_progress s)
    (st_discovered s) (st_facts s) (S (st_clock s)).

(** One boundary call. *)
Definition call {A} (e : CenterSyncError)
    (f : Site Command Capability → Site Command Capability * option A) : SiteM A :=
  λ s, if fault (st_clock s) then (tick s, Err e)
       else match f (tick s) with
            | (s', Some a) => (s', Ok a)
            | (s', None) => (s', Err e)
            end.

Definition read {A} (e : CenterSyncError) (f : Site Command Capability → A) : SiteM A :=
  call e (λ s, (s, Some (f s))).

Definition find_operation (id : OperationId) : SiteM (option (Operation Command)) :=
  read SyncOperation (λ s, st_operations s !! id).

(** [store.create_operation]: a known id is not touched. *)
Definition create_operation (o : Operation Command) : SiteM () :=
  call SyncOperation (λ s,
    (mk_site (match st_operations s !! op_id o with
              | Some _ => st_operations s
              | None => <[op_id o := o]> (st_operations s)
              end) (st_kinds s) (st_inbox s) (st_outbox s) (st_progress s)
       (st_discovered s) (st_facts s) (st_clock s), Some ())).

(** [enqueue_outbox_entry]. *)
Definition enqueue_outbox_entry (r : Reply) : SiteM () :=
  call SyncOutbox (λ s,
    (mk_site (st_operations s) (st_kinds s) (st_inbox s) (st_outbox s ++ [r]) (st_progress s)
       (st_discovered s) (st_facts s) (st_clock s), Some ())).

Definition set_inbox s (inbox : gmap OperationId InboxEntry) : Site Command Capability :=
  mk_site (st_operations s) (st_kinds s) inbox (st_outbox s) (st_progress s) (st_discovered s)
    (st_facts s) (st_clock s).

Definition insert_entry (e : InboxEntry) : SiteM InboxInsertOutcome :=
  call SyncInbox (λ s, let '(inbox, out) := inbox_insert (st_inbox s) e in
                       (set_inbox s inbox, Some out)).

Definition advance (id : OperationId) (ev : InboxEvent) : SiteM InboxAdvanceOutcome :=
  call SyncInbox (λ s, match inbox_advance (st_inbox s) id ev with
                       | Some (inbox, out) => (set_inbox s inbox, Some out)
                       | None => (s, None)
                       end).

Definition find_by_operation (id : OperationId) : SiteM (option InboxEntry) :=
  read SyncInbox (λ s, st_inbox s !! id).

Definition set_progress s (p : gmap OperationId (option OperationState))
    : Site Command Capability :=
  mk_site (st_operations s) (st_kinds s) (st_inbox s) (st_outbox s) p (st_discovered s)
    (st_facts s) (st_clock s).

Definition record_progress (id : OperationId) (v : option OperationState) : SiteM () :=
  call SyncProgressTracking (λ s, (set_progress s (<[id := v]> (st_progress s)), Some ())).

(** [forget_progress]. *)
Definition forget_progress (id : OperationId) : SiteM () :=
  call SyncProgressTracking (λ s, (set_progress s (delete id (st_progress s)), Some ())).

(** ** The rechecks *)

Inductive OfferDecision :=
| Accept (command : Command)
| Reject (reason : OperationRejectedReason) (detail : str).

(** The target is a known resource or below one. *)
Definition target_known (facts : Facts Capability) (endpoint : EndpointId) (target : str) : bool :=
  existsb (λ item : EndpointId * list str,
    bool_decide (item.1 = endpoint) &&
    existsb (λ odata_id, bool_decide (target = odata_id) || starts_with (odata_id ++ lit "/") target)
      item.2) (f_inventory facts).

(** [decide_offer]. *)
Definition decide_offer (offer : OperationOffer) (entry : InboxEntry) (endpoint : EndpointId)
    (now : OffsetDateTime) : SiteM OfferDecision :=
  let! found := read SyncEndpoint (λ s, f_endpoints (st_facts s) !! endpoint) in
  match found with
  | None => mret (Reject EndpointMissing (lit "the endpoint is no longer managed"))
  | Some credential_id =>
      match parse_json (of_command_json offer) with
      | None => mret (Reject InvalidCommandReason
                        (lit "the command payload is not a valid RedfishCommand"))
      | Some command =>
          let required := required_capability command in
          let! entries := read SyncCapability (λ s, f_capabilities (st_facts s) !! endpoint) in
          let state := entries ≫= required_capability_state required in
          if decide (state ≠ Some Supported)
          then mret (Reject CapabilityMissing
                       (lit "the " ++ show_capability required ++ lit " capability is not usable"))
          else
            let! credentials := read SyncCredential (λ s, f_credentials (st_facts s)) in
            if negb (existsb (λ c, bool_decide (c = credential_id)) credentials)
            then mret (Reject CredentialInvalid
                         (lit "the endpoint credential is no longer stored"))
            else
              let! known := read SyncInventory
                (λ s, target_known (st_facts s) endpoint (of_target offer)) in
              if negb known
              then mret (Reject TargetStateChanged
                           (lit "the target is not in the endpoint's last-known projection"))
              else if inbox_is_expired entry now
              then mret (Reject ReasonExpired
                           (lit "the offer expired before it could be applied"))
              else mret (Accept command)
      end
  end.

(** ** Recording and replying *)

(** [completed_summary]. *)
Definition completed_summary (o : Operation Command) : SiteM str :=
  if decide (op_state o ≠ Failed) then mret (OperationState_as_str (op_state o))
  else
    let! kind := read SyncOperation (λ s, st_kinds s !! op_id o) in
    mret (match kind with
          | Some CapabilityUnsupported => lit "failed-unsupported"
          | _ => OperationState_as_str (op_state o)
          end).

Definition completed (o : Operation Command) (summary : str) : Reply :=
  OperationCompleted (show_uuid (op_id o)) (bool_decide (op_state o = Succeeded)) summary.

(** [decide_and_record]; [target] is the generated target id. *)
Definition decide_and_record (offer : OperationOffer) (entry : InboxEntry) (endpoint : EndpointId)
    (target : TargetId) (now : OffsetDateTime) : SiteM OfferOutcome :=
  let id := ie_operation_id entry in
  let! decision := decide_offer offer entry endpoint now in
  match decision with
  | Accept command =>
      do! create_operation
            (Operation_new id SourceCenter [mk_operation_target target endpoint] command now) in
      do! record_progress id None in
      do! enqueue_outbox_entry (OperationAccepted (show_uuid id) (unix_timestamp now)) in
      do! advance id EvInboxAccepted in
      mret OfferAccepted
  | Reject reason detail =>
      do! enqueue_outbox_entry (OperationRejected (show_uuid id) reason detail) in
      do! advance id EvInboxRejected in
      mret (OfferRejected reason detail)
  end.

(** [reply_to_in_progress_duplicate]. *)
Definition reply_to_in_progress_duplicate (offer : OperationOffer) (entry : InboxEntry)
    (endpoint : EndpointId) (target : TargetId) (now : OffsetDateTime) : SiteM OfferOutcome :=
  let id := ie_operation_id entry in
  let! found := find_operation id in
  match found with
  | None => decide_and_record offer entry endpoint target now
  | Some o =>
      if is_terminal (op_state o) then
        let! summary := completed_summary o in
        do! enqueue_outbox_entry
              (OperationCompleted (show_uuid id) (bool_decide (op_state o = Succeeded)) summary) in
        do! advance id EvInboxAccepted in
        do! advance id EvInboxCompleted in
        do! forget_progress id in
        mret DuplicateProgress
      else
        do! enqueue_outbox_entry
              (OperationProgress (show_uuid id) (OperationState_as_str (op_state o))
                 (lit "duplicate offer; the operation is already in progress")) in
        do! advance id EvInboxAccepted in
        do! record_progress id (Some (op_state o)) in
        mret DuplicateProgress
  end.

(** [reply_to_resolved_duplicate]. *)
Definition reply_to_resolved_duplicate (offer : OperationOffer) (entry : InboxEntry)
    (endpoint : EndpointId) (state : InboxEntryState) (target : TargetId) (now : OffsetDateTime)
    : SiteM OfferOutcome :=
  let id := ie_operation_id entry in
  match state with
  | InboxRejected =>
      let! decision := decide_offer offer entry endpoint now in
      let '(reason, detail) :=
        match decision with
        | Accept _ => (ReasonUnspecified,
                       lit "the offer was already rejected and cannot be revived")
        | Reject reason detail => (reason, detail)
        end in
      do! enqueue_outbox_entry (OperationRejected (show_uuid id) reason detail) in
      mret (OfferRejected reason detail)
  | InboxCompleted =>
      let! found := find_operation id in
      let! outcome := match found with
                      | Some o => let! summary := completed_summary o in
                                  mret (bool_decide (op_state o = Succeeded), summary)
                      | None => mret (false, lit "the recorded outcome is unavailable")
                      end in
      do! enqueue_outbox_entry (OperationCompleted (show_uuid id) outcome.1 outcome.2) in
      mret DuplicateProgress
  | InboxReceived | InboxAccepted => reply_to_in_progress_duplicate offer entry endpoint target now
  end.

Definition NANOS_PER_SECOND : Z := 1000000000.

(** [handle_offer]; [entry_id] and [target] are the generated ids, [now] the clock. *)
Definition handle_offer (entry_id : InboxEntryId) (target : TargetId) (now : OffsetDateTime)
    (offer : OperationOffer) : SiteM OfferOutcome :=
  if decide (of_site_id offer ≠ show_uuid instance_id) then mret Dropped
  else match parse_uuid (of_operation_id offer) with
  | None => mret Dropped
  | Some operation_id =>
      match parse_uuid (of_endpoint_id offer) with
      | None => mret Dropped
      | Some endpoint =>
          let! payload_json := mlift (ok_or (payload_of offer) SyncPayload) in
          let expires_at := default (now - NANOS_PER_SECOND)%Z
                              (from_unix_timestamp (of_expires_at_unix offer)) in
          let entry := InboxEntry_new entry_id operation_id instance_id payload_json expires_at now in
          let! out := insert_entry entry in
          match out with
          | InboxCreated => decide_and_record offer entry endpoint target now
          | DuplicateInProgress => reply_to_in_progress_duplicate offer entry endpoint target now
          | DuplicateResolved state =>
              reply_to_resolved_duplicate offer entry endpoint state target now
          end
      end
  end.

(** ** Progress reports *)

(** [report_open_entry]. *)
Definition report_open_entry (o : Operation Command) : SiteM () :=
  let id := op_id o in
  let! found := find_by_operation id in
  match found with
  | None => mret ()
  | Some entry =>
      if inbox_is_terminal (ie_state entry) then mret ()
      else
        do! (if decide (ie_state entry = InboxReceived)
             then do! advance id EvInboxAccepted in mret ()
             else mret ()) in
        if is_terminal (op_state o) then
          let! summary := completed_summary o in
          do! enqueue_outbox_entry (completed o summary) in
          do! advance id EvInboxCompleted in
          forget_progress id
        else
          let! last := read SyncProgressTracking (λ s, st_progress s !! id) in
          if decide (mjoin last = Some (op_state o)) then mret ()
          else
            do! enqueue_outbox_entry
                  (OperationProgress (show_uuid id) (OperationState_as_str (op_state o)) []) in
            record_progress id (Some (op_state o))
  end.

Definition in_state_rows (st : OperationState) s : list (Operation Command) :=
  filter (λ o, op_state o = st) (map_to_list (st_operations s)).*2.

(** The discovery scan of the first report. *)
Definition discover : SiteM () :=
  do! mfor (CENTER_REPORT_IN_FLIGHT_STATES ++ CENTER_REPORT_TERMINAL_STATES) (λ st,
    let! operations := read SyncOperation (in_state_rows st) in
    mfor operations (λ o,
      if decide (op_source o ≠ SourceCenter) then mret () else report_open_entry o)) in
  λ s, (mk_site (st_operations s) (st_kinds s) (st_inbox s) (st_outbox s) (st_progress s) true
          (st_facts s) (st_clock s), Ok ()).

(** One id of a later report, driven by the progress map. *)
Definition report_known (id : OperationId) : SiteM () :=
  let! found := find_by_operation id in
  match found with
  | None => forget_progress id
  | Some entry =>
      if inbox_is_terminal (ie_state entry) then forget_progress id
      else
        let! o := find_operation id in
        match o with
        | None => forget_progress id
        | Some o => report_open_entry o
        end
  end.

(** [report_center_operations]. *)
Definition report_center_operations : SiteM () :=
  λ s, if negb (st_discovered s) then discover s
       else (let! known := read SyncProgressTracking (λ s, (map_to_list (st_progress s)).*1) in
             mfor known report_known) s.

(** ** Everything that happens to a site *)

Inductive SyncEvent :=
| EvOffer (entry_id : InboxEntryId) (target : TargetId) (now : OffsetDateTime) (offer : OperationOffer)
| EvReport
| EvRestart
| EvFacts (facts : Facts Capability)
| EvEngineStep (id : OperationId) (event : OperationEvent) (now : OffsetDateTime)
| EvFailureKind (id : OperationId) (kind : FailureKind).

Definition set_operations s (ops : gmap OperationId (Operation Command)) : Site Command Capability :=
  mk_site ops (st_kinds s) (st_inbox s) (st_outbox s) (st_progress s) (st_discovered s)
    (st_facts s) (st_clock s).

(** The engine moves a stored operation along the transition matrix. *)
Definition engine_step s (id : OperationId) (event : OperationEvent) (now : OffsetDateTime)
    : Site Command Capability :=
  match st_operations s !! id with
  | None => s
  | Some o => set_operations s (<[id := (Operation_apply o event now).1]> (st_operations s))
  end.

(** The handler errors are logged and the connection is dropped: the state a
    failing handler left is the state of the next event. *)
Definition sync_step s (ev : SyncEvent) : Site Command Capability :=
  match ev with
  | EvOffer entry_id target now offer => (handle_offer entry_id target now offer s).1
  | EvReport => (report_center_operations s).1
  | EvRestart => mk_site (st_operations s) (st_kinds s) (st_inbox s) (st_outbox s) ∅ false
                   (st_facts s) (st_clock s)
  | EvFacts facts => mk_site (st_operations s) (st_kinds s) (st_inbox s) (st_outbox s)
                       (st_progress s) (st_discovered s) facts (st_clock s)
  | EvEngineStep id event now => engine_step s id event now
  | EvFailureKind id kind => mk_site (st_operations s) (<[id := kind]> (st_kinds s)) (st_inbox s)
                               (st_outbox s) (st_progress s) (st_discovered s) (st_facts s) (st_clock s)
  end.
End sync.

(** ** What one operation sees *)

Section slices.
Context {Command Capability : Type} `{EqDecision Capability} `{UuidText}.
Context (fault : nat → bool) (instance_id : InstanceId).
Context (payload_of : OperationOffer → option str) (parse_json : list N → option Command)
  (required_capability : Command → Capability) (show_capability : Capability → str)
  (from_unix_timestamp : Z → option OffsetDateTime).
Implicit Types (s : Site Command Capability).

Abbreviation handle := (handle_offer fault instance_id payload_of parse_json required_capability
  show_capability from_unix_timestamp).
Abbreviation step := (sync_step fault instance_id payload_of parse_json required_capability
  show_capability from_unix_timestamp).
Abbreviation decide_off := (decide_offer fault parse_json required_capability show_capability).
Abbreviation record := (decide_and_record fault parse_json required_capability show_capability).
Abbreviation in_progress := (reply_to_in_progress_duplicate fault parse_json required_capability
  show_capability).
Abbreviation resolved := (reply_to_resolved_duplicate fault parse_json required_capability
  show_capability).

(** The replies queued for one operation. *)
Definition replies (id : OperationId) s : list Reply :=
  filter (λ r, reply_id r = show_uuid id) (st_outbox s).

(** A property of the site that only looks at one operation: its row, its inbox
    entry and its replies. *)
Record about (id : OperationId) (I : Site Command Capability → Prop) : Prop := {
  about_ext s s' : st_operations s' !! id = st_operations s !! id →
    st_inbox s' !! id = st_inbox s !! id → replies id s' = replies id s → I s → I s';
}.

Lemma replies_snoc id s s' r :
  st_outbox s' = st_outbox s ++ [r] →
  replies id s' = if decide (reply_id r = show_uuid id) then replies id s ++ [r] else replies id s.
Proof.
  intros Ho. unfold replies. rewrite Ho, filter_app. simpl.
  rewrite filter_cons, filter_nil. case_decide; [done | by rewrite app_nil_r].
Qed.

Section rules.
Context (id : OperationId) (I : Site Command Capability → Prop) (HI : about id I).

Lemma about_tick s : I s → I (tick s).
Proof. by apply (about_ext id I HI). Qed.

Lemma wp_site_call {A} e (f : Site Command Capability → Site Command Capability * option A) Q s :
  I s → match f (tick s) with (s', Some a) => Q a s' | (s', None) => I s' end →
  wp (call fault e f) Q I s.
Proof.
  intros Hs Hf. unfold wp, call. destruct (fault _); [by apply about_tick|].
  by destruct (f (tick s)) as [s' [a|]].
Qed.

Lemma wp_read {A} e (f : Site Command Capability → A) Q s :
  I s → Q (f (tick s)) (tick s) → wp (read fault e f) Q I s.
Proof. intros Hs HQ. by apply wp_site_call. Qed.

(** The rechecks only read. *)
Lemma wp_decide_offer offer entry endpoint now (Q : OfferDecision → Site Command Capability → Prop) s :
  I s → (∀ d s', st_operations s' = st_operations s → st_inbox s' = st_inbox s →
           st_outbox s' = st_outbox s → I s' → Q d s') →
  wp (decide_off offer entry endpoint now) Q I s.
Proof.
  intros Hs HQ. unfold decide_offer.
  repeat first [ apply wp_ret; apply HQ; [done..|by repeat apply about_tick]
               | apply wp_bind, wp_read; [by repeat apply about_tick|]
               | case_match | case_decide ].
Qed.

Lemma wp_completed_summary o (Q : str → Site Command Capability → Prop) s :
  I s → (∀ x s', st_operations s' = st_operations s → st_inbox s' = st_inbox s →
           st_outbox s' = st_outbox s → I s' → Q x s') →
  wp (completed_summary fault o) Q I s.
Proof.
  intros Hs HQ. unfold completed_summary. case_decide.
  - apply wp_ret. by apply HQ.
  - apply wp_bind, wp_read; [done|]. apply wp_ret, HQ; try done. by apply about_tick.
Qed.

(** Calls about another operation, or about none. *)
Lemma wp_enqueue_other r Q s :
  I s → reply_id r ≠ show_uuid id → (∀ s', st_operations s' = st_operations s →
    st_inbox s' = st_inbox s → I s' → Q () s') → wp (enqueue_outbox_entry fault r) Q I s.
Proof.
  intros Hs Hr HQ. apply wp_site_call; [done|]. apply HQ; try done.
  apply (about_ext id I HI s); [done|done| |done].
  rewrite (replies_snoc id s _ r) by done. by rewrite decide_False.
Qed.

Lemma wp_enqueue r Q s :
  I s → (∀ s', st_operations s' = st_operations s → st_inbox s' = st_inbox s →
    st_outbox s' = st_outbox s ++ [r] → Q () s') → wp (enqueue_outbox_entry fault r) Q I s.
Proof. intros Hs HQ. apply wp_site_call; [done|]. by apply HQ. Qed.

Lemma wp_progress_calls (m : M (Site Command Capability) CenterSyncError ()) i v Q s :
  m = record_progress fault i v ∨ m = forget_progress fault i →
  I s → (∀ s', st_operations s' = st_operations s → st_inbox s' = st_inbox s →
    st_outbox s' = st_outbox s → I s' → Q () s') → wp m Q I s.
Proof.
  intros Hm Hs HQ. assert (∀ p, I (set_progress (tick s) p)) as Hp.
  { intros p. by apply (about_ext id I HI s). }
  destruct Hm as [-> | ->]; (apply wp_site_call; [done|]); by apply HQ.
Qed.

Lemma wp_advance_other i ev Q s :
  i ≠ id → I s → (∀ out s', I s' → Q out s') → wp (advance fault i ev) Q I s.
Proof.
  intros Hi Hs HQ. apply wp_site_call; [done|]. unfold inbox_advance. simpl.
  destruct (st_inbox s !! i) eqn:He; [|by apply about_tick].
  repeat case_decide; [..|by apply about_tick]; apply HQ.
  - apply (about_ext id I HI s); [done| |done..]. simpl. by rewrite lookup_insert_ne.
  - apply (about_ext id I HI s); done.
Qed.

Lemma wp_create_other o Q s :
  op_id o ≠ id → I s → (∀ s', I s' → Q () s') → wp (create_operation fault o) Q I s.
Proof.
  intros Ho Hs HQ. apply wp_site_call; [done|]. apply HQ.
  apply (about_ext id I HI s); [|done..]. simpl.
  case_match; [done|]. by rewrite lookup_insert_ne.
Qed.

(** A handler of another operation keeps [I]. *)
Lemma show_ne i : i ≠ id → show_uuid i ≠ show_uuid id.
Proof. intros Hi Heq. by apply Hi, show_uuid_inj. Qed.

Lemma wp_record_other offer entry endpoint target now s :
  ie_operation_id entry ≠ id → I s → wp (record offer entry endpoint target now) (λ _, I) I s.
Proof.
  intros Hid Hs. pose proof (show_ne _ Hid). unfold decide_and_record.
  apply wp_bind, wp_decide_offer; [done|]. intros [command|reason detail] s1 _ _ _ H1.
  - apply wp_bind, wp_create_other; [done..|]. intros s2 H2.
    apply wp_bind. eapply wp_progress_calls; [by left|done|]. intros s3 _ _ _ H3.
    apply wp_bind, wp_enqueue_other; [done..|]. intros s4 _ _ H4.
    apply wp_bind, wp_advance_other; [done..|]. intros out s5 H5. by apply wp_ret.
  - apply wp_bind, wp_enqueue_other; [done..|]. intros s2 _ _ H2.
    apply wp_bind, wp_advance_other; [done..|]. intros out s3 H3. by apply wp_ret.
Qed.

Lemma wp_in_progress_other offer entry endpoint target now s :
  ie_operation_id entry ≠ id → I s → wp (in_progress offer entry endpoint target now) (λ _, I) I s.
Proof.
  intros Hid Hs. pose proof (show_ne _ Hid). unfold reply_to_in_progress_duplicate, find_operation.
  apply wp_bind, wp_read; [done|]. apply about_tick in Hs.
  destruct (st_operations _ !! _) as [o|]; [|by apply wp_record_other].
  destruct (is_terminal _).
  - apply wp_bind, wp_completed_summary; [done|]. intros x s1 _ _ _ H1.
    apply wp_bind, wp_enqueue_other; [done..|]. intros s2 _ _ H2.
    apply wp_bind, wp_advance_other; [done..|]. intros out s3 H3.
    apply wp_bind, wp_advance_other; [done..|]. intros out' s4 H4.
    apply wp_bind. eapply (wp_progress_calls _ _ None); [by right|done|]. intros s5 _ _ _ H5. by apply wp_ret.
  - apply wp_bind, wp_enqueue_other; [done..|]. intros s2 _ _ H2.
    apply wp_bind, wp_advance_other; [done..|]. intros out s3 H3.
    apply wp_bind. eapply wp_progress_calls; [by left|done|]. intros s4 _ _ _ H4. by apply wp_ret.
Qed.

Lemma wp_resolved_other offer entry endpoint st target now s :
  ie_operation_id entry ≠ id → I s → wp (resolved offer entry endpoint st target now) (λ _, I) I s.
Proof.
  intros Hid Hs. pose proof (show_ne _ Hid). unfold reply_to_resolved_duplicate.
  destruct st; try (by apply wp_in_progress_other).
  - apply wp_bind, wp_decide_offer; [done|]. intros d s1 _ _ _ H1.
    destruct (match d with Accept _ => _ | Reject _ _ => _ end) as [reason detail].
    apply wp_bind, wp_enqueue_other; [done..|]. intros s2 _ _ H2. by apply wp_ret.
  - unfold find_operation. apply wp_bind, wp_read; [done|]. apply about_tick in Hs.
    apply wp_bind. destruct (st_operations _ !! _) as [o|].
    + apply wp_bind, wp_completed_summary; [done|]. intros x s1 _ _ _ H1. apply wp_ret.
      apply wp_bind, wp_enqueue_other; [done..|]. intros s2 _ _ H2. by apply wp_ret.
    + apply wp_ret. apply wp_bind, wp_enqueue_other; [done..|]. intros s2 _ _ H2. by apply wp_ret.
Qed.

Lemma wp_insert_other e Q s :
  ie_operation_id e ≠ id → I s → (∀ out s', I s' → Q out s') → wp (insert_entry fault e) Q I s.
Proof.
  intros He Hs HQ. apply wp_site_call; [done|]. unfold inbox_insert. simpl.
  destruct (st_inbox s !! ie_operation_id e) as [stored|]; apply HQ.
  - by apply (about_ext id I HI s).
  - apply (about_ext id I HI s); [done| |done..]. simpl. by rewrite lookup_insert_ne.
Qed.

Lemma wp_report_other o s : op_id o ≠ id → I s → wp (report_open_entry fault o) (λ _, I) I s.
Proof.
  intros Hid Hs. pose proof (show_ne _ Hid). unfold report_open_entry, find_by_operation.
  apply wp_bind, wp_read; [done|]. apply about_tick in Hs.
  destruct (st_inbox _ !! _) as [entry|]; [|by apply wp_ret]. case_match; [by apply wp_ret|].
  apply wp_bind. match goal with |- wp ?m _ _ _ => assert (wp m (λ _, I) I (tick s)) as Hm end.
  { case_decide; [|by apply wp_ret]. apply wp_bind, wp_advance_other; [done..|].
    intros out s1 Hs1. by apply wp_ret. }
  eapply wp_mono; [exact Hm| |done]. clear Hm. intros [] s1 Hs1.
  destruct (is_terminal (op_state o)).
  - apply wp_bind, wp_completed_summary; [done|]. intros x s2 _ _ _ Hs2.
    apply wp_bind, wp_enqueue_other; [done..|]. intros s3 _ _ Hs3.
    apply wp_bind, wp_advance_other; [done..|]. intros out s4 Hs4.
    eapply (wp_progress_calls _ _ None); [by right|done|]. by intros s5 _ _ _ Hs5.
  - apply wp_bind, wp_read; [done|]. apply about_tick in Hs1. case_decide; [by apply wp_ret|].
    apply wp_bind, wp_enqueue_other; [done..|]. intros s3 _ _ Hs3.
    eapply wp_progress_calls; [by left|done|]. by intros s4 _ _ _ Hs4.
Qed.

(** ** From one operation to the whole site *)

(** The three things that concern the operation itself. *)
Context (Hoffer : ∀ offer entry endpoint target now s, I s → ie_operation_id entry = id →
  ie_state entry = InboxReceived →
  wp (let! out := insert_entry fault entry in
      match out with
      | InboxCreated => record offer entry endpoint target now
      | DuplicateInProgress => in_progress offer entry endpoint target now
      | DuplicateResolved state => resolved offer entry endpoint state target now
      end) (λ _, I) I s).
Context (Hreport : ∀ o s, I s → op_id o = id → wp (report_open_entry fault o) (λ _, I) I s).
Context (Hengine : ∀ s o event now, I s → st_operations s !! id = Some o →
  I (set_operations s (<[id := (Operation_apply o event now).1]> (st_operations s)))).

Lemma wp_report o s : I s → wp (report_open_entry fault o) (λ _, I) I s.
Proof.
  intros Hs. destruct (decide (op_id o = id)); [by apply Hreport | by apply wp_report_other].
Qed.

Lemma wp_handle_offer entry_id target now offer s :
  I s → wp (handle entry_id target now offer) (λ _, I) I s.
Proof.
  intros Hs. unfold handle_offer. case_decide; [by apply wp_ret|].
  destruct (parse_uuid (of_operation_id offer)) as [i|]; [|by apply wp_ret].
  destruct (parse_uuid (of_endpoint_id offer)) as [endpoint|]; [|by apply wp_ret].
  apply wp_bind, wp_lift; [|done]. intros payload _. cbv zeta.
  destruct (decide (i = id)) as [->|Hi]; [by apply Hoffer|].
  apply wp_bind, wp_insert_other; [done..|]. intros [| |st] s1 Hs1.
  - by apply wp_record_other.
  - by apply wp_in_progress_other.
  - by apply wp_resolved_other.
Qed.

Lemma wp_report_center_operations s : I s → wp (report_center_operations fault) (λ _, I) I s.
Proof.
  intros Hs. unfold wp, report_center_operations. destruct (st_discovered s); simpl.
  - match goal with |- match ?m s with _ => _ end => change (wp m (λ _, I) I s) end.
    apply wp_bind, wp_read; [done|]. apply about_tick in Hs. apply wp_for; [done|].
    intros i s1 _ Hs1. unfold report_known, find_by_operation. apply wp_bind, wp_read; [done|].
    apply about_tick in Hs1.
    assert (∀ s', I s' → wp (forget_progress fault i) (λ _, I) I s') as Hf.
    { intros s' Hs'. eapply (wp_progress_calls _ _ None); [by right|done|]. by intros ? _ _ _ ?. }
    destruct (st_inbox _ !! _) as [entry|]; [|by apply Hf]. case_match; [by apply Hf|].
    unfold find_operation. apply wp_bind, wp_read; [done|]. apply about_tick in Hs1.
    destruct (st_operations _ !! _); [by apply wp_report | by apply Hf].
  - match goal with |- match ?m s with _ => _ end => change (wp m (λ _, I) I s) end.
    unfold discover. apply wp_bind. eapply wp_mono; [apply wp_for; [exact Hs|]| |done].
    + intros st s1 _ Hs1. apply wp_bind, wp_read; [done|]. apply about_tick in Hs1.
      apply wp_for; [done|]. intros o s2 _ Hs2. case_decide; [by apply wp_ret | by apply wp_report].
    + intros [] s1 Hs1. by apply (about_ext id I HI s1).
Qed.

Lemma step_keeps s ev : I s → I (step s ev).
Proof.
  intros Hs. destruct ev as [entry_id target now offer| | |facts|i event now|i k]; simpl.
  - by apply wp_state, wp_handle_offer.
  - by apply wp_state, wp_report_center_operations.
  - by apply (about_ext id I HI s).
  - by apply (about_ext id I HI s).
  - unfold engine_step. destruct (st_operations s !! i) as [o|] eqn:Ho; [|done].
    destruct (decide (i = id)) as [->|Hi]; [by eapply Hengine|].
    apply (about_ext id I HI s); [|done..]. simpl. by rewrite lookup_insert_ne.
  - by apply (about_ext id I HI s).
Qed.

Lemma steps_keep s evs : I s → I (foldl step s evs).
Proof. revert s. induction evs as [|ev evs IH]; intros s Hs; [done|]. apply IH. by apply step_keeps. Qed.
End rules.

(** ** The three invariants of one operation *)

Section outcome.
Context (id : OperationId).

(** The operation was rejected: no row, and only rejections are queued. *)
Definition rejected_since (base : list Reply) s : Prop :=
  (∃ e, st_inbox s !! id = Some e ∧ ie_state e = InboxRejected) ∧
  st_operations s !! id = None ∧
  ∃ new, replies id s = base ++ new ∧ Forall (λ r, is_rejection r = true) new.

(** The operation exists, as a legal successor of [o], and no rejection is queued. *)
Definition same_effect (o o' : Operation Command) : Prop :=
  op_id o' = op_id o ∧ op_source o' = op_source o ∧ op_targets o' = op_targets o ∧
  op_command o' = op_command o ∧ op_created_at o' = op_created_at o ∧
  ∃ es, run transition (op_state o) es = Ok (op_state o').

Definition accepted_since (o : Operation Command) (base : list Reply) s : Prop :=
  (∃ e, st_inbox s !! id = Some e ∧ ie_state e ≠ InboxRejected) ∧
  (∃ o', st_operations s !! id = Some o' ∧ same_effect o o') ∧
  ∃ new, replies id s = base ++ new ∧ Forall (λ r, is_rejection r = false) new.

(** An operation has a row only with an inbox entry that was not rejected. *)
Definition one_outcome s : Prop :=
  is_Some (st_operations s !! id) → ∃ e, st_inbox s !! id = Some e ∧ ie_state e ≠ InboxRejected.

Lemma rejected_about base : about id (rejected_since base).
Proof. constructor. intros s s' Ho Hi Hr. unfold rejected_since. by rewrite Ho, Hi, Hr. Qed.
Lemma accepted_about o base : about id (accepted_since o base).
Proof. constructor. intros s s' Ho Hi Hr. unfold accepted_since. by rewrite Ho, Hi, Hr. Qed.
Lemma one_outcome_about : about id one_outcome.
Proof. constructor. intros s s' Ho Hi Hr. unfold one_outcome. by rewrite Ho, Hi. Qed.

Lemma rejected_enqueue base s s' r :
  rejected_since base s → is_rejection r = true → reply_id r = show_uuid id →
  st_operations s' = st_operations s → st_inbox s' = st_inbox s →
  st_outbox s' = st_outbox s ++ [r] → rejected_since base s'.
Proof.
  intros (He & Ho & new & Hr & Hall) Hrej Hid Hops Hin Hout. unfold rejected_since.
  rewrite Hops, Hin. split; [done|]. split; [done|]. exists (new ++ [r]).
  rewrite (replies_snoc id s s' r Hout), decide_True, Hr by done.
  split; [by rewrite app_assoc | by apply Forall_app_2; [|constructor]].
Qed.

Lemma accepted_enqueue o base s s' r :
  accepted_since o base s → is_rejection r = false → reply_id r = show_uuid id →
  st_operations s' = st_operations s → st_inbox s' = st_inbox s →
  st_outbox s' = st_outbox s ++ [r] → accepted_since o base s'.
Proof.
  intros (He & Ho & new & Hr & Hall) Hrej Hid Hops Hin Hout. unfold accepted_since.
  rewrite Hops, Hin. split; [done|]. split; [done|]. exists (new ++ [r]).
  rewrite (replies_snoc id s s' r Hout), decide_True, Hr by done.
  split; [by rewrite app_assoc | by apply Forall_app_2; [|constructor]].
Qed.

(** Advancing towards acceptance never rejects. *)
Lemma advance_not_rejected (inbox : gmap OperationId InboxEntry) ev inbox' out :
  ev ≠ EvInboxRejected → inbox_advance inbox id ev = Some (inbox', out) →
  ∃ e', inbox' !! id = Some e' ∧ (∀ e, inbox !! id = Some e → ie_state e ≠ InboxRejected →
    ie_state e' ≠ InboxRejected).
Proof.
  intros Hev. unfold inbox_advance. destruct (inbox !! id) as [e|] eqn:He; [|done].
  repeat case_decide; intros; simplify_eq.
  - eexists. rewrite lookup_insert_eq. split; [done|]. simpl. by destruct ev.
  - exists e. split; [done|]. intros. by simplify_eq.
Qed.

Lemma wp_advance_accepted o base ev s (Q : InboxAdvanceOutcome → Site Command Capability → Prop) :
  ev ≠ EvInboxRejected → accepted_since o base s →
  (∀ out s', accepted_since o base s' → Q out s') →
  wp (advance fault id ev) Q (accepted_since o base) s.
Proof.
  intros Hev Hs HQ. pose proof (accepted_about o base) as HI. apply (wp_site_call id); [done..|]. simpl.
  destruct (inbox_advance (st_inbox s) id ev) as [[inbox' out]|] eqn:Ha; [|by apply (about_tick id)].
  apply HQ. destruct Hs as ((e & He & Hst) & Ho & Hr).
  apply advance_not_rejected in Ha as (e' & He' & Hne); [|done]. split; [|done]. eauto.
Qed.

Lemma wp_advance_one ev s (Q : InboxAdvanceOutcome → Site Command Capability → Prop) :
  ev ≠ EvInboxRejected ∨ st_operations s !! id = None → one_outcome s →
  (∀ out s', one_outcome s' → Q out s') → wp (advance fault id ev) Q one_outcome s.
Proof.
  intros Hev Hs HQ. apply (wp_site_call id); [apply one_outcome_about|done|]. simpl.
  destruct (inbox_advance (st_inbox s) id ev) as [[inbox' out]|] eqn:Ha;
    [|by apply (about_tick id _ one_outcome_about)].
  apply HQ. destruct Hev as [Hev|Hnone].
  - apply advance_not_rejected in Ha as (e' & He' & Hne); [|done].
    intros Ho. destruct (Hs Ho) as (e & He & Hst). eauto.
  - intros [o Ho]. simpl in Ho. congruence.
Qed.

(** Enqueuing for the operation itself keeps the weakest invariant. *)
Lemma wp_enqueue_one r s (Q : () → Site Command Capability → Prop) :
  one_outcome s → (∀ s', st_operations s' = st_operations s → one_outcome s' → Q () s') →
  wp (enqueue_outbox_entry fault r) Q one_outcome s.
Proof.
  intros Hs HQ. apply (wp_enqueue id); [apply one_outcome_about|done|]. intros s' Ho Hi _.
  apply HQ; [done|]. intros Hop. rewrite Ho in Hop. rewrite Hi. by apply Hs.
Qed.

(** The whole handler of an offer once the entry is built. *)
Definition answer (offer : OperationOffer) (entry : InboxEntry) (endpoint : EndpointId)
    (target : TargetId) (now : OffsetDateTime)
    : M (Site Command Capability) CenterSyncError OfferOutcome :=
  let! out := insert_entry fault entry in
  match out with
  | InboxCreated => record offer entry endpoint target now
  | DuplicateInProgress => in_progress offer entry endpoint target now
  | DuplicateResolved state => resolved offer entry endpoint state target now
  end.

Lemma rejected_answer base offer entry endpoint target now s :
  rejected_since base s → ie_operation_id entry = id →
  wp (answer offer entry endpoint target now) (λ _, rejected_since base) (rejected_since base) s.
Proof.
  intros Hs Hid. pose proof (rejected_about base) as HI.
  apply wp_bind, (wp_site_call id); [done..|]. unfold inbox_insert. simpl. rewrite Hid.
  destruct Hs as ((e & He & Hst) & Hrest). rewrite He, Hst. simpl.
  assert (rejected_since base (set_inbox (tick s) (st_inbox s))) as Hs by (split; eauto).
  apply wp_bind, (wp_decide_offer id); [done..|]. intros d s1 _ _ _ H1.
  destruct (match d with Accept _ => _ | Reject _ _ => _ end) as [reason detail].
  apply wp_bind, (wp_enqueue id); [done..|]. intros s2 Ho Hi Hout. apply wp_ret.
  eapply rejected_enqueue; [exact H1| | |exact Ho|exact Hi|exact Hout]; [done|]. simpl. by rewrite Hid.
Qed.

Lemma rejected_report base o s :
  rejected_since base s → op_id o = id →
  wp (report_open_entry fault o) (λ _, rejected_since base) (rejected_since base) s.
Proof.
  intros Hs Hid. pose proof (rejected_about base) as HI. unfold report_open_entry, find_by_operation.
  apply wp_bind, (wp_read id); [done..|]. simpl. rewrite Hid.
  pose proof Hs as ((e & He & Hst) & _). rewrite He. simpl. rewrite Hst. simpl.
  apply wp_ret. by apply (about_tick id).
Qed.

Lemma accepted_in_progress o base offer entry endpoint target now s :
  accepted_since o base s → ie_operation_id entry = id →
  wp (in_progress offer entry endpoint target now) (λ _, accepted_since o base) (accepted_since o base) s.
Proof.
  intros Hs Hid. pose proof (accepted_about o base) as HI.
  unfold reply_to_in_progress_duplicate, find_operation.
  apply wp_bind, (wp_read id); [done..|]. simpl. rewrite Hid.
  pose proof Hs as (_ & (o' & Ho' & _) & _). rewrite Ho'. apply (about_tick id _ HI) in Hs.
  destruct (is_terminal (op_state o')).
  - apply wp_bind, (wp_completed_summary id); [done..|]. intros x s1 _ _ _ Hs1.
    apply wp_bind, (wp_enqueue id); [done..|]. intros s2 ? ? ?.
    assert (accepted_since o base s2) as Hs2 by (eapply accepted_enqueue; [exact Hs1| | |eassumption..]; done).
    apply wp_bind, wp_advance_accepted; [done..|]. intros _ s3 Hs3.
    apply wp_bind, wp_advance_accepted; [done..|]. intros _ s4 Hs4.
    apply wp_bind. eapply (wp_progress_calls id _ HI _ _ None); [by right|done|].
    intros s5 _ _ _ Hs5. by apply wp_ret.
  - apply wp_bind, (wp_enqueue id); [done..|]. intros s2 ? ? ?.
    assert (accepted_since o base s2) as Hs2 by (eapply accepted_enqueue; [exact Hs| | |eassumption..]; done).
    apply wp_bind, wp_advance_accepted; [done..|]. intros _ s3 Hs3.
    apply wp_bind. eapply (wp_progress_calls id _ HI); [by left|done|].
    intros s4 _ _ _ Hs4. by apply wp_ret.
Qed.

Lemma accepted_answer o base offer entry endpoint target now s :
  accepted_since o base s → ie_operation_id entry = id →
  wp (answer offer entry endpoint target now) (λ _, accepted_since o base) (accepted_since o base) s.
Proof.
  intros Hs Hid. pose proof (accepted_about o base) as HI.
  apply wp_bind, (wp_site_call id); [done..|]. unfold inbox_insert. simpl. rewrite Hid.
  pose proof Hs as ((e & He & Hst) & _). rewrite He. simpl.
  assert (accepted_since o base (set_inbox (tick s) (st_inbox s))) as Hs1
    by (apply (about_ext id _ HI s); done).
  destruct (ie_state e) eqn:Hse; simpl; [by apply accepted_in_progress..|done|].
  unfold find_operation. apply wp_bind, (wp_read id); [done..|]. simpl. rewrite Hid.
  pose proof Hs as (_ & (o' & Ho' & _) & _). rewrite Ho'. apply (about_tick id _ HI) in Hs1.
  apply wp_bind, wp_bind, (wp_completed_summary id); [done..|]. intros x s2 _ _ _ Hs2. apply wp_ret.
  apply wp_bind, (wp_enqueue id); [done..|]. intros s3 ? ? ?. apply wp_ret.
  eapply accepted_enqueue; [exact Hs2| | |eassumption..]; done.
Qed.

Lemma accepted_report o base o' s :
  accepted_since o base s → op_id o' = id →
  wp (report_open_entry fault o') (λ _, accepted_since o base) (accepted_since o base) s.
Proof.
  intros Hs Hid. pose proof (accepted_about o base) as HI. unfold report_open_entry, find_by_operation.
  apply wp_bind, (wp_read id); [done..|]. simpl. rewrite Hid.
  apply (about_tick id _ HI) in Hs. destruct (st_inbox s !! id) as [entry|]; [|by apply wp_ret].
  destruct (inbox_is_terminal _); [by apply wp_ret|]. apply wp_bind.
  match goal with |- wp ?m _ _ ?s => assert (wp m (λ _, accepted_since o base) (accepted_since o base) s) as Hm end.
  { case_decide; [|by apply wp_ret]. apply wp_bind, wp_advance_accepted; [done..|].
    intros out s1 H1. by apply wp_ret. }
  eapply wp_mono; [exact Hm| |done]. clear Hm. intros [] s1 Hs1.
  assert (∀ s2 s3 r, accepted_since o base s2 → is_rejection r = false → reply_id r = show_uuid (op_id o') →
    st_operations s3 = st_operations s2 → st_inbox s3 = st_inbox s2 →
    st_outbox s3 = st_outbox s2 ++ [r] → accepted_since o base s3) as Henq.
  { intros s2 s3 r H2 Hr Hi. apply (accepted_enqueue _ _ s2 s3 r H2 Hr). congruence. }
  rewrite Hid in Henq. destruct (is_terminal (op_state o')).
  - apply wp_bind, (wp_completed_summary id); [done..|]. intros x s2 _ _ _ Hs2.
    apply wp_bind, (wp_enqueue id); [done..|]. intros s3 ? ? ?.
    assert (accepted_since o base s3) as Hs3.
    { eapply Henq; [exact Hs2| | |eassumption..]; [done|]. simpl. by rewrite Hid. }
    apply wp_bind, wp_advance_accepted; [done..|]. intros _ s4 Hs4.
    eapply (wp_progress_calls id _ HI _ _ None); [by right|done|]. by intros s5 _ _ _ ?.
  - apply wp_bind, (wp_read id); [done..|]. apply (about_tick id _ HI) in Hs1.
    case_decide; [by apply wp_ret|]. apply wp_bind, (wp_enqueue id); [done..|]. intros s3 ? ? ?.
    assert (accepted_since o base s3) as Hs3 by (eapply Henq; [exact Hs1| | |eassumption..]; done).
    eapply (wp_progress_calls id _ HI); [by left|done|]. by intros s4 _ _ _ ?.
Qed.

(** Recording a decision while the operation has no row yet and its entry is open. *)
Lemma one_record offer entry endpoint target now s :
  one_outcome s → ie_operation_id entry = id → st_operations s !! id = None →
  (∃ e, st_inbox s !! id = Some e ∧ ie_state e ≠ InboxRejected) →
  wp (record offer entry endpoint target now) (λ _, one_outcome) one_outcome s.
Proof.
  intros Hs Hid Hnone Hopen. pose proof one_outcome_about as HI. unfold decide_and_record. rewrite Hid.
  apply wp_bind, (wp_decide_offer id); [done..|]. intros [command|reason detail] s1 Ho Hi _ Hs1.
  - apply wp_bind, (wp_site_call id); [done..|]. simpl.
    match goal with |- wp _ _ _ ?s' => assert (one_outcome s') as Hs2 end.
    { intros _. simpl. by rewrite Hi. }
    apply wp_bind. eapply (wp_progress_calls id _ HI); [by left|exact Hs2|]. intros s3 _ _ _ Hs3.
    apply wp_bind, wp_enqueue_one; [done|]. intros s4 _ Hs4.
    apply wp_bind, wp_advance_one; [by left|done|]. intros _ s5 Hs5. by apply wp_ret.
  - apply wp_bind, wp_enqueue_one; [done|]. intros s2 Ho2 Hs2.
    apply wp_bind, wp_advance_one; [right; congruence|done|]. intros _ s3 Hs3. by apply wp_ret.
Qed.

Lemma one_in_progress offer entry endpoint target now s :
  one_outcome s → ie_operation_id entry = id →
  (∃ e, st_inbox s !! id = Some e ∧ ie_state e ≠ InboxRejected) →
  wp (in_progress offer entry endpoint target now) (λ _, one_outcome) one_outcome s.
Proof.
  intros Hs Hid Hopen. pose proof one_outcome_about as HI.
  unfold reply_to_in_progress_duplicate, find_operation.
  apply wp_bind, (wp_read id); [done..|]. simpl. rewrite Hid. apply (about_tick id _ HI) in Hs.
  destruct (st_operations s !! id) as [o|] eqn:Ho; [|by apply one_record].
  destruct (is_terminal (op_state o)).
  - apply wp_bind, (wp_completed_summary id); [done..|]. intros x s1 _ _ _ Hs1.
    apply wp_bind, wp_enqueue_one; [done|]. intros s2 _ Hs2.
    apply wp_bind, wp_advance_one; [by left|done|]. intros _ s3 Hs3.
    apply wp_bind, wp_advance_one; [by left|done|]. intros _ s4 Hs4.
    apply wp_bind. eapply (wp_progress_calls id _ HI _ _ None); [by right|done|].
    intros s5 _ _ _ Hs5. by apply wp_ret.
  - apply wp_bind, wp_enqueue_one; [done|]. intros s2 _ Hs2.
    apply wp_bind, wp_advance_one; [by left|done|]. intros _ s3 Hs3.
    apply wp_bind. eapply (wp_progress_calls id _ HI); [by left|done|].
    intros s4 _ _ _ Hs4. by apply wp_ret.
Qed.

Lemma one_answer offer entry endpoint target now s :
  one_outcome s → ie_operation_id entry = id → ie_state entry = InboxReceived →
  wp (answer offer entry endpoint target now) (λ _, one_outcome) one_outcome s.
Proof.
  intros Hs Hid Hrec. pose proof one_outcome_about as HI.
  apply wp_bind, (wp_site_call id); [done..|]. unfold inbox_insert. simpl. rewrite Hid.
  destruct (st_inbox s !! id) as [e|] eqn:He; simpl.
  - assert (one_outcome (set_inbox (tick s) (st_inbox s))) as Hs1 by (apply (about_ext id _ HI s); done).
    destruct (ie_state e) eqn:Hse; simpl.
    + apply one_in_progress; [done..|]. exists e. by rewrite Hse.
    + apply one_in_progress; [done..|]. exists e. by rewrite Hse.
    + apply wp_bind, (wp_decide_offer id); [done..|]. intros d s2 _ _ _ Hs2.
      destruct (match d with Accept _ => _ | Reject _ _ => _ end) as [reason detail].
      apply wp_bind, wp_enqueue_one; [done|]. intros s3 _ Hs3. by apply wp_ret.
    + unfold find_operation. apply wp_bind, (wp_read id); [done..|].
      apply (about_tick id _ HI) in Hs1. apply wp_bind. simpl. destruct (st_operations s !! _).
      * apply wp_bind, (wp_completed_summary id); [done..|]. intros x s2 _ _ _ Hs2. apply wp_ret.
        apply wp_bind, wp_enqueue_one; [done|]. intros s3 _ Hs3. by apply wp_ret.
      * apply wp_ret. apply wp_bind, wp_enqueue_one; [done|]. intros s3 _ Hs3. by apply wp_ret.
  - assert (st_operations s !! id = None) as Hnone.
    { destruct (st_operations s !! id) as [o|] eqn:Ho; [|done].
      destruct Hs as (e & He' & _); [by rewrite Ho|]. congruence. }
    apply one_record; simpl; [|done|done|].
    + intros _. exists entry. simpl. rewrite lookup_insert_eq. by rewrite Hrec.
    + exists entry. rewrite lookup_insert_eq. by rewrite Hrec.
Qed.

Lemma one_report o s :
  one_outcome s → op_id o = id → wp (report_open_entry fault o) (λ _, one_outcome) one_outcome s.
Proof.
  intros Hs Hid. pose proof one_outcome_about as HI. unfold report_open_entry, find_by_operation.
  apply wp_bind, (wp_read id); [done..|]. simpl. rewrite Hid.
  apply (about_tick id _ HI) in Hs. destruct (st_inbox s !! id) as [entry|]; [|by apply wp_ret].
  destruct (inbox_is_terminal _); [by apply wp_ret|]. apply wp_bind.
  match goal with |- wp ?m _ _ ?s => assert (wp m (λ _, one_outcome) one_outcome s) as Hm end.
  { case_decide; [|by apply wp_ret]. apply wp_bind, wp_advance_one; [by left|done|].
    intros out s1 H1. by apply wp_ret. }
  eapply wp_mono; [exact Hm| |done]. clear Hm. intros [] s1 Hs1. destruct (is_terminal (op_state o)).
  - apply wp_bind, (wp_completed_summary id); [done..|]. intros x s2 _ _ _ Hs2.
    apply wp_bind, wp_enqueue_one; [done|]. intros s3 _ Hs3.
    apply wp_bind, wp_advance_one; [by left|done|]. intros _ s4 Hs4.
    eapply (wp_progress_calls id _ HI _ _ None); [by right|done|]. by intros s5 _ _ _ ?.
  - apply wp_bind, (wp_read id); [done..|]. apply (about_tick id _ HI) in Hs1.
    case_decide; [by apply wp_ret|]. apply wp_bind, wp_enqueue_one; [done|]. intros s3 _ Hs3.
    eapply (wp_progress_calls id _ HI); [by left|done|]. by intros s4 _ _ _ ?.
Qed.

Lemma engine_same_effect o o' event now :
  same_effect o o' → same_effect o (Operation_apply o' event now).1.
Proof.
  intros (Hid & Hsrc & Htg & Hcmd & Hc & es & Hes). unfold Operation_apply.
  destruct (transition (op_state o') event) as [st|] eqn:Ht; simpl; [|by repeat (split; [done|]); exists es].
  repeat (split; [done|]). exists (es ++ [event]). rewrite run_app, Hes. simpl. by rewrite Ht.
Qed.

(** C7: From a site that knows nothing of an operation, under any offers
    (repeated, late or interleaved with other operations), reports, engine steps,
    restarts, changes of the site's facts and failing calls: (1) a stored operation
    always has an inbox entry that was not rejected; (2) once the entry is
    rejected, the operation is never created and only rejections are queued for
    it; (3) once the operation exists it is never created again — its source,
    targets, command and creation stay, its state moves along the transition
    matrix — and no rejection is queued for it. *)
Theorem offers_single_effect s0 evs1 evs2 :
  st_inbox s0 !! id = None → st_operations s0 !! id = None →
  let s1 := foldl step s0 evs1 in
  let s2 := foldl step s1 evs2 in
  one_outcome s1 ∧
  ((∃ e, st_inbox s1 !! id = Some e ∧ ie_state e = InboxRejected) →
     rejected_since (replies id s1) s2) ∧
  (∀ o, st_operations s1 !! id = Some o → accepted_since o (replies id s1) s2).
Proof.
  intros Hin Hop s1 s2.
  assert (one_outcome s1) as H1.
  { unfold s1. apply (steps_keep id one_outcome one_outcome_about).
    - intros. by apply one_answer.
    - intros. by apply one_report.
    - intros s o event now Hs Ho _. destruct (Hs ltac:(by rewrite Ho)) as (e & He & Hst). eauto.
    - intros [o Ho]. congruence. }
  split; [done|]. split.
  - intros (e & He & Hst). unfold s2.
    apply (steps_keep id (rejected_since (replies id s1)) (rejected_about _)).
    + intros. by apply rejected_answer.
    + intros. by apply rejected_report.
    + intros s o event now (_ & Hnone & _) Ho. congruence.
    + split; [eauto|]. split; [|exists []; by rewrite app_nil_r].
      destruct (st_operations s1 !! id) as [o|] eqn:Ho; [|done].
      destruct H1 as (e' & He' & Hst'); [by rewrite Ho|]. congruence.
  - intros o Ho. unfold s2.
    apply (steps_keep id (accepted_since o (replies id s1)) (accepted_about _ _)).
    + intros. by apply accepted_answer.
    + intros. by apply accepted_report.
    + intros s o1 event now (He & (o' & Ho' & Hsame) & Hr) Ho1. simplify_eq.
      split; [done|]. split; [|done]. eexists. simpl. rewrite lookup_insert_eq.
      split; [done|]. by apply engine_same_effect.
    + split; [apply H1; by rewrite Ho|]. split; [|exists []; by rewrite app_nil_r].
      exists o. split; [done|]. repeat (split; [done|]). by exists [].
Qed.
End outcome.
End slices.

(** ** A site whose boundary calls work *)

Section healthy.
Context {Command Capability : Type} `{EqDecision Capability} `{UuidText}.
Context (fault : nat → bool) (instance_id : InstanceId).
Context (payload_of : OperationOffer → option str) (parse_json : list N → option Command)
  (required_capability : Command → Capability) (show_capability : Capability → str)
  (from_unix_timestamp : Z → option OffsetDateTime).
Context (Hfault : ∀ n, fault n = false).
Implicit Types (s : Site Command Capability).

(** All five rechecks pass, for the command [c]. *)
Definition acceptable (facts : Facts Capability) (offer : OperationOffer) (expires_at : OffsetDateTime)
    (endpoint : EndpointId) (now : OffsetDateTime) (c : Command) : Prop :=
  ∃ credential entries,
    f_endpoints facts !! endpoint = Some credential ∧
    parse_json (of_command_json offer) = Some c ∧
    f_capabilities facts !! endpoint = Some entries ∧
    required_capability_state (required_capability c) entries = Some Supported ∧
    credential ∈ f_credentials facts ∧
    target_known facts endpoint (of_target offer) = true ∧
    (now ≤ expires_at)%Z.

Lemma healthy_call {A} e (f : Site Command Capability → Site Command Capability * option A) s :
  call fault e f s = match f (tick s) with (s', Some a) => (s', Ok a) | (s', None) => (s', Err e) end.
Proof. unfold call. by rewrite Hfault. Qed.

Lemma healthy_read {A} e (f : Site Command Capability → A) s :
  read fault e f s = (tick s, Ok (f (tick s))).
Proof. unfold read. by rewrite healthy_call. Qed.

(** The site is [s] up to its clock. *)
Definition later s s' : Prop := ∃ n, s' = mk_site (st_operations s) (st_kinds s) (st_inbox s)
  (st_outbox s) (st_progress s) (st_discovered s) (st_facts s) n.

Lemma later_refl s : later s s.
Proof. exists (st_clock s). by destruct s. Qed.
Lemma later_tick s s' : later s s' → later s (tick s').
Proof. intros [n ->]. by exists (S n). Qed.

(** The rechecks return, and accept exactly the acceptable offers. *)
Lemma healthy_decide_offer offer entry endpoint now s :
  ∃ s' d, decide_offer fault parse_json required_capability show_capability offer entry endpoint now s
    = (s', Ok d) ∧ later s s' ∧
    ∀ c, d = Accept c ↔ acceptable (st_facts s) offer (ie_expires_at entry) endpoint now c.
Proof.
  unfold decide_offer. erewrite mbind_run by apply healthy_read. simpl.
  pose proof (later_tick s s (later_refl s)) as L1.
  destruct (f_endpoints (st_facts s) !! endpoint) as [cr|] eqn:He;
    [|eexists _, _; split; [done|]; split; [done|]; split; [done|]; intros (? & ? & ? & _); congruence].
  destruct (parse_json (of_command_json offer)) as [c|] eqn:Hc;
    [|eexists _, _; split; [done|]; split; [done|]; split; [done|]; intros (? & ? & _ & ? & _); congruence].
  erewrite mbind_run by apply healthy_read. simpl. apply later_tick in L1.
  case_decide as Hcap.
  { eexists _, _. split; [done|]. split; [done|]. split; [done|].
    intros (? & entries & _ & ? & Hen & Hst & _). exfalso. apply Hcap. simplify_eq.
    rewrite Hen. simpl. done. }
  erewrite mbind_run by apply healthy_read. simpl. apply later_tick in L1.
  destruct (existsb _ (f_credentials (st_facts s))) eqn:Hcr; simpl.
  2:{ eexists _, _. split; [done|]. split; [done|]. split; [done|].
      intros (cr' & entries & ? & _ & _ & _ & Hin & _). simplify_eq.
      rewrite existsb_false, Forall_forall in Hcr. specialize (Hcr _ Hin). simpl in Hcr.
      by rewrite bool_decide_eq_false in Hcr. }
  erewrite mbind_run by apply healthy_read. simpl. apply later_tick in L1.
  destruct (target_known _ _ _) eqn:Ht; simpl.
  2:{ eexists _, _. split; [done|]. split; [done|]. split; [done|].
      intros (? & ? & _ & _ & _ & _ & _ & ? & _). congruence. }
  unfold inbox_is_expired. destruct (ie_expires_at entry <? now)%Z eqn:Hx.
  { eexists _, _. split; [done|]. split; [done|]. split; [done|].
    intros (? & ? & _ & _ & _ & _ & _ & _ & Hle). apply Z.ltb_lt in Hx. lia. }
  eexists _, _. split; [done|]. split; [done|]. intros c'. split.
  - intros [= <-]. destruct (f_capabilities (st_facts s) !! endpoint) as [entries|] eqn:Hen; [|done].
    exists cr, entries. apply Z.ltb_ge in Hx. repeat (split; [done|]). split; [|split; [done|lia]].
    apply existsb_exists in Hcr as (x & Hin & Hx'). apply bool_decide_eq_true in Hx'. subst.
    by apply list_elem_of_In.
  - intros (? & ? & _ & ? & _). by simplify_eq.
Qed.

(** C8: A first offer of an operation is answered: when every recheck passes
    the operation is stored as queued, its entry is accepted and the acceptance is
    the one new reply; otherwise nothing is stored, the entry is rejected and a
    rejection is the one new reply. *)
Theorem first_offer_answered entry_id target now offer id endpoint payload s :
  of_site_id offer = show_uuid instance_id →
  parse_uuid (of_operation_id offer) = Some id → parse_uuid (of_endpoint_id offer) = Some endpoint →
  payload_of offer = Some payload → st_inbox s !! id = None → st_operations s !! id = None →
  let expires_at := default (now - NANOS_PER_SECOND)%Z (from_unix_timestamp (of_expires_at_unix offer)) in
  ∃ s' out e, handle_offer fault instance_id payload_of parse_json required_capability show_capability
      from_unix_timestamp entry_id target now offer s = (s', Ok out) ∧
    st_inbox s' !! id = Some e ∧ ie_payload_json e = payload ∧
    (∀ c, acceptable (st_facts s) offer expires_at endpoint now c →
       out = OfferAccepted ∧ ie_state e = InboxAccepted ∧
       st_operations s' !! id =
         Some (Operation_new id SourceCenter [mk_operation_target target endpoint] c now) ∧
       st_outbox s' = st_outbox s ++ [OperationAccepted (show_uuid id) (unix_timestamp now)]) ∧
    ((∀ c, ¬ acceptable (st_facts s) offer expires_at endpoint now c) →
       ie_state e = InboxRejected ∧ st_operations s' = st_operations s ∧
       ∃ reason detail, out = OfferRejected reason detail ∧
         st_outbox s' = st_outbox s ++ [OperationRejected (show_uuid id) reason detail]).
Proof.
  intros Hsite Hid Hend Hpay Hin Hop expires_at. unfold handle_offer.
  rewrite decide_False by (intros Hne; by apply Hne). rewrite Hid, Hend, Hpay. unfold mlift, mbind at 1. simpl.
  fold expires_at. set (entry := InboxEntry_new entry_id id instance_id payload expires_at now).
  unfold insert_entry, inbox_insert. unfold mbind at 1. rewrite healthy_call. simpl. rewrite Hin. simpl.
  unfold decide_and_record. set (s1 := set_inbox (tick s) _).
  destruct (healthy_decide_offer offer entry endpoint now s1) as (s2 & d & Hd & [n ->] & Hacc).
  unfold mbind at 1. rewrite Hd. simpl. destruct d as [c|reason detail].
  - unfold create_operation, record_progress, enqueue_outbox_entry, advance.
    repeat (unfold mbind at 1; rewrite healthy_call; simpl). rewrite Hop. simpl.
    unfold inbox_advance. rewrite lookup_insert_eq. simpl.
    eexists _, _, _. split; [done|]. simpl. rewrite lookup_insert_eq. split; [done|]. split; [done|]. split.
    + intros c' Hc'. assert (Accept c = Accept c') as [= <-] by (by apply Hacc).
      split; [done|]. split; [done|]. by rewrite lookup_insert_eq.
    + intros Hno. destruct (Hno c). by apply Hacc.
  - unfold enqueue_outbox_entry, advance.
    repeat (unfold mbind at 1; rewrite healthy_call; simpl).
    unfold inbox_advance. rewrite lookup_insert_eq. simpl.
    eexists _, _, _. split; [done|]. simpl. rewrite lookup_insert_eq. split; [done|]. split; [done|]. split.
    + intros c Hc. by apply Hacc in Hc.
    + intros _. split; [done|]. split; [done|]. eauto.
Qed.
End healthy.

(** ** A concrete site *)

#[export, refine] Instance single_char_uuid : UuidText :=
  { show_uuid u := [u]; parse_uuid t := match t with [u] => Some u | _ => None end }.
Proof. done. Defined.

Definition demo_offer : OperationOffer :=
  {| of_operation_id := [7%N]; of_site_id := [1%N]; of_endpoint_id := [5%N];
     of_target := lit "/redfish/v1/Systems/1"; of_command_json := lit "{}";
     of_expires_at_unix := 100; of_actor_context := [3%N] |}.

(** The endpoint 5 is managed; its one capability is in the given state. *)
Definition demo_facts (st : CapabilityState) : Facts () :=
  {| f_endpoints := {[5%N := 9%N]}; f_capabilities := {[5%N := [((), Some st)]]};
     f_credentials := [9%N]; f_inventory := [(5%N, [lit "/redfish/v1/Systems"])] |}.

Definition demo_site (st : CapabilityState) : Site () () :=
  mk_site ∅ ∅ ∅ [] ∅ false (demo_facts st) 0.

Definition demo_step (fault : nat → bool) : Site () () → SyncEvent → Site () () :=
  sync_step fault 1%N (λ _, Some (lit "{}")) (λ _, Some ()) (λ _, ()) (λ _, []) (λ z, Some z).

(** The inbox update after the queued rejection fails; then the capability comes
    back and the center offers again. *)
Definition flip_events : list (SyncEvent (Capability := ())) :=
  [EvOffer 20%N 30%N 50%Z demo_offer; EvFacts (demo_facts Supported);
   EvOffer 21%N 31%N 60%Z demo_offer].

(** The reply to an offer is not decided once: when the inbox update
    right after a queued rejection fails (or the process dies there), the entry is
    still open, so the same offer delivered again runs the rechecks again and can
    be accepted; the center is sent a rejection and then an acceptance of one
    operation, which is executed. *)
Theorem rejection_can_be_reversed :
  let s := foldl (demo_step (λ n, Nat.eqb n 4)) (demo_site TemporarilyUnavailable) flip_events in
  is_rejection <$> st_outbox s = [true; false] ∧
  reply_id <$> st_outbox s = [[7%N]; [7%N]] ∧
  is_Some (st_operations s !! 7%N).
Proof. vm_compute. split; [reflexivity|]. split; [reflexivity|]. by eexists. Qed.

Lemma offers_single_effect_witness :
  let s1 := foldl (demo_step (λ n, Nat.eqb n 4)) (demo_site TemporarilyUnavailable) flip_events in
  one_outcome 7%N s1 ∧ is_Some (st_operations s1 !! 7%N).
Proof.
  intros s1. split; [|vm_compute; by eexists].
  exact (proj1 (offers_single_effect (λ n, Nat.eqb n 4) 1%N (λ _, Some (lit "{}")) (λ _, Some ())
    (λ _, ()) (λ _, []) (λ z, Some z) 7%N (demo_site TemporarilyUnavailable) flip_events []
    eq_refl eq_refl)).
Defined.

Lemma first_offer_answered_witness :
  ∃ s' e, handle_offer (λ _, false) 1%N (λ _, Some (lit "{}")) (λ _, Some ()) (λ _, ()) (λ _, [])
      (λ z, Some z) 20%N 30%N 50%Z demo_offer (demo_site Supported) = (s', Ok OfferAccepted) ∧
    st_inbox s' !! 7%N = Some e ∧ ie_state e = InboxAccepted.
Proof.
  destruct (first_offer_answered (H := single_char_uuid) (λ _, false) 1%N (λ _, Some (lit "{}")) (λ _, Some ()) (λ _, ())
    (λ _, []) (λ z, Some z) (λ _, eq_refl) 20%N 30%N 50%Z demo_offer 7%N 5%N (lit "{}")
    (demo_site Supported) eq_refl eq_refl eq_refl eq_refl eq_refl eq_refl)
    as (s' & out & e & Hrun & He & _ & Hacc & _).
  destruct (Hacc ()) as (-> & Hst & _).
  - exists 9%N, [((), Some Supported)]. repeat (split; [reflexivity|]).
    split; [by left|]. split; [vm_compute; reflexivity | vm_compute; discriminate].
  - exists s', e. split; [exact Hrun|]. split; [exact He | exact Hst].
Defined.
