(* ===== verification/Artifact.v ===== *)
(** * Artifact: the firmware artifact and its digest

    Models [domain/src/artifact.rs]: the canonical SHA-256 digest text, the
    artifact name, the upload lifecycle of one artifact and the constructor that
    restores a stored one. *)
From S2P Require Import Prelude Text Operation.
From Stdlib Require Import ZifyBool.
Local Open Scope Z_scope.

Abbreviation ArtifactId := Uuid.

(** ** Digests *)

Definition SHA256_DIGEST_LENGTH : nat := 32.
Definition SHA256_HEX_LENGTH : nat := SHA256_DIGEST_LENGTH * 2.
Definition HEX_DIGITS : list N := lit "0123456789abcdef".

(** [decode_hex_digit]; [48], [97] and [65] are the digit zero and the letters
    [a] and [A]. *)
Definition decode_hex_digit (value : N) : option N :=
  if ((48 <=? value) && (value <=? 57))%N then Some (value - 48)%N
  else if ((97 <=? value) && (value <=? 102))%N then Some (value - 97 + 10)%N
  else if ((65 <=? value) && (value <=? 70))%N then Some (value - 65 + 10)%N
  else None.

(** [hex_digit_value], only called on canonical digits. *)
Definition hex_digit_value (value : N) : N :=
  if ((48 <=? value) && (value <=? 57))%N then (value - 48)%N else (value - 97 + 10)%N.

(** [HEX_DIGITS[usize::from(digit)]]. *)
Definition hex_char (digit : N) : char := nth (N.to_nat digit) HEX_DIGITS 0%N.

Inductive Sha256HexParseError :=
| InvalidLength (actual expected : nat)
| InvalidEncoding.

(** The loop of [parse]: each byte is decoded and pushed in its canonical form. *)
Fixpoint normalize_hex (bytes : list N) : result str Sha256HexParseError :=
  match bytes with
  | [] => Ok []
  | byte :: bytes =>
      let? digit := ok_or (decode_hex_digit byte) InvalidEncoding in
      let? normalized := normalize_hex bytes in
      Ok (hex_char digit :: normalized)
  end.

(** [Sha256Hex::parse]. *)
Definition Sha256Hex_parse (value : str) : result str Sha256HexParseError :=
  let bytes := as_bytes value in
  if decide (length bytes ≠ SHA256_HEX_LENGTH)
  then Err (InvalidLength (length bytes) SHA256_HEX_LENGTH)
  else normalize_hex bytes.

(** [Sha256Hex::from_bytes]: two digits per byte. *)
Definition hex_pair (byte : N) : str := [hex_char (N.shiftr byte 4); hex_char (N.land byte 15)].
Definition Sha256Hex_from_bytes (digest : list N) : str := concat (hex_pair <$> digest).

(** [Sha256Hex::into_bytes]: a [u8] shift drops the high bits. *)
Definition hex_byte (bytes : list N) (index : nat) : N :=
  let high := hex_digit_value (nth (index * 2) bytes 0%N) in
  let low := hex_digit_value (nth (index * 2 + 1) bytes 0%N) in
  N.lor (N.shiftl high 4 mod 256) low.
Definition Sha256Hex_into_bytes (value : str) : list N :=
  hex_byte (as_bytes value) <$> seq 0 SHA256_DIGEST_LENGTH.

(** The texts a [Sha256Hex] holds. *)
Definition lower_hex (c : char) : bool :=
  ((48 <=? c) && (c <=? 57) || (97 <=? c) && (c <=? 102))%N.
Definition canonical_hex (h : str) : Prop :=
  length h = SHA256_HEX_LENGTH ∧ Forall (λ c, lower_hex c = true) h.

(** What the source accepts as a digit: either case. *)
Definition hex_digit (c : char) : bool := lower_hex c || ((65 <=? c) && (c <=? 70))%N.

Lemma decode_hex_digit_bound c d : decode_hex_digit c = Some d → (d < 16)%N.
Proof. unfold decode_hex_digit. repeat case_match; intros [= <-]; lia. Qed.

Lemma decode_hex_digit_is_Some c : is_Some (decode_hex_digit c) ↔ hex_digit c = true.
Proof.
  unfold decode_hex_digit, hex_digit, lower_hex. repeat case_match; split; intros; try done; try lia.
Qed.

(** The sixteen digits, by cases. *)
Lemma digit_cases (P : N → Prop) :
  Forall P ([0; 1; 2; 3; 4; 5; 6; 7; 8; 9; 10; 11; 12; 13; 14; 15]%N) →
  ∀ d, (d < 16)%N → P d.
Proof.
  rewrite Forall_forall. intros HP d Hd. apply HP.
  assert (d = 0 ∨ d = 1 ∨ d = 2 ∨ d = 3 ∨ d = 4 ∨ d = 5 ∨ d = 6 ∨ d = 7 ∨ d = 8 ∨ d = 9
    ∨ d = 10 ∨ d = 11 ∨ d = 12 ∨ d = 13 ∨ d = 14 ∨ d = 15)%N as Hc by lia.
  set_solver.
Qed.

Lemma hex_char_spec d : (d < 16)%N →
  lower_hex (hex_char d) = true ∧ hex_digit_value (hex_char d) = d ∧
  decode_hex_digit (hex_char d) = Some d.
Proof. revert d. apply digit_cases. repeat constructor. Qed.

Lemma lower_hex_char c : lower_hex c = true →
  (hex_digit_value c < 16)%N ∧ hex_char (hex_digit_value c) = c ∧
  decode_hex_digit c = Some (hex_digit_value c).
Proof.
  intros Hc. assert (∃ d, (d < 16)%N ∧ c = hex_char d) as (d & Hd & ->).
  { unfold lower_hex in Hc. destruct (N.leb_spec c 57).
    - exists (c - 48)%N. split; [lia|]. assert (c - 48 < 10)%N as Hb by lia.
      replace c with (48 + (c - 48))%N at 1 by lia. revert Hb.
      apply (digit_cases (λ d, d < 10 → 48 + d = hex_char d)%N); [|lia]. repeat constructor; lia.
    - exists (c - 97 + 10)%N. split; [lia|]. assert (c - 97 < 6)%N as Hb by lia.
      replace c with (97 + (c - 97))%N at 1 by lia. revert Hb.
      apply (digit_cases (λ d, d < 6 → 97 + d = hex_char (d + 10))%N); [|lia].
      repeat constructor; lia. }
  destruct (hex_char_spec d Hd) as (_ & -> & ->). done.
Qed.

Lemma canonical_as_bytes h : Forall (λ c, lower_hex c = true) h → as_bytes h = h.
Proof.
  intros Hh. apply as_bytes_ascii. eapply Forall_impl; [exact Hh|]. unfold lower_hex. simpl. lia.
Qed.

Lemma normalize_hex_length bytes h : normalize_hex bytes = Ok h → length h = length bytes.
Proof.
  revert h. induction bytes as [|b bytes IH]; intros h Hn; simpl in Hn; inv_ok; [done|].
  simpl. f_equal. eauto.
Qed.

Lemma normalize_hex_lower bytes h :
  normalize_hex bytes = Ok h → Forall (λ c, lower_hex c = true) h.
Proof.
  revert h. induction bytes as [|b bytes IH]; intros h Hn; simpl in Hn; inv_ok; [done|].
  constructor; [|eauto]. apply hex_char_spec. by eapply decode_hex_digit_bound.
Qed.

Lemma normalize_hex_fix h : Forall (λ c, lower_hex c = true) h → normalize_hex h = Ok h.
Proof.
  induction 1 as [|c h Hc Hh IH]; [done|]. simpl. destruct (lower_hex_char c Hc) as (_ & He & ->).
  simpl. rewrite IH. simpl. by rewrite He.
Qed.

Lemma Sha256Hex_parse_canonical value h : Sha256Hex_parse value = Ok h → canonical_hex h.
Proof.
  unfold Sha256Hex_parse. case_decide as Hl; [done|]. intros Hn. split.
  - rewrite (normalize_hex_length _ _ Hn). done.
  - by eapply normalize_hex_lower.
Qed.

Lemma Sha256Hex_parse_fix h : canonical_hex h → Sha256Hex_parse h = Ok h.
Proof.
  intros [Hl Hh]. unfold Sha256Hex_parse. rewrite (canonical_as_bytes h Hh).
  rewrite decide_False by (intros Hne; by apply Hne). by apply normalize_hex_fix.
Qed.

(** The pairs of a list, read by index. *)
Lemma pairs_by_index {A} (f : list N → nat → A) (g : N → N → A) (l : list N) n :
  (∀ l i, f l i = g (nth (i * 2) l 0%N) (nth (i * 2 + 1) l 0%N)) →
  ∀ a b, f (a :: b :: l) <$> seq 0 (S n) = g a b :: (f l <$> seq 0 n).
Proof.
  intros Hf a b. simpl. rewrite Hf. simpl. f_equal.
  rewrite <- fmap_S_seq, <- list_fmap_compose. apply list_fmap_ext. intros _ i _. simpl.
  by rewrite !Hf.
Qed.

Lemma hex_byte_nibbles a b : (a < 16)%N → (b < 16)%N →
  N.lor (N.shiftl a 4 mod 256) b = (a * 16 + b)%N ∧
  N.shiftr (a * 16 + b) 4 = a ∧ N.land (a * 16 + b) 15 = b.
Proof.
  intros Ha Hb. revert b Hb. pattern a. apply digit_cases; [|done].
  repeat (apply Forall_cons; split; [intros b Hb; pattern b; apply digit_cases; [by repeat constructor|done]|]).
  done.
Qed.

Lemma into_from_pairs digest :
  Forall (λ b, b < 256)%N digest →
  hex_byte (concat (hex_pair <$> digest)) <$> seq 0 (length digest) = digest.
Proof.
  induction 1 as [|b digest Hb Hd IH]; [done|]. cbn [fmap list_fmap concat length hex_pair app].
  rewrite (pairs_by_index hex_byte
    (λ x y, N.lor (N.shiftl (hex_digit_value x) 4 mod 256) (hex_digit_value y))) by done.
  rewrite IH. f_equal.
  assert (N.shiftr b 4 < 16)%N as H1 by (rewrite N.shiftr_div_pow2; apply N.Div0.div_lt_upper_bound; lia).
  assert (N.land b 15 < 16)%N as H2 by (change 15%N with (N.ones 4); rewrite N.land_ones; apply N.mod_lt; done).
  destruct (hex_char_spec _ H1) as (_ & -> & _). destruct (hex_char_spec _ H2) as (_ & -> & _).
  destruct (hex_byte_nibbles _ _ H1 H2) as (-> & _).
  rewrite N.shiftr_div_pow2. change 15%N with (N.ones 4). rewrite N.land_ones.
  change (2 ^ 4)%N with 16%N. rewrite N.mul_comm. symmetry. by apply N.div_mod.
Qed.

Lemma from_into_pairs h n :
  length h = (n * 2)%nat → Forall (λ c, lower_hex c = true) h →
  concat (hex_pair <$> (hex_byte h <$> seq 0 n)) = h ∧
  Forall (λ b, b < 256)%N (hex_byte h <$> seq 0 n).
Proof.
  revert h. induction n as [|n IH]; intros h Hl Hh; [by destruct h|].
  destruct h as [|a [|b h]]; simpl in Hl; [lia|lia|]. rewrite !Forall_cons in Hh.
  destruct Hh as (Ha & Hb & Hh).
  rewrite (pairs_by_index hex_byte
    (λ x y, N.lor (N.shiftl (hex_digit_value x) 4 mod 256) (hex_digit_value y))) by done.
  destruct (lower_hex_char a Ha) as (Ha1 & Ha2 & _). destruct (lower_hex_char b Hb) as (Hb1 & Hb2 & _).
  destruct (hex_byte_nibbles _ _ Ha1 Hb1) as (E1 & E2 & E3). rewrite E1.
  destruct (IH h) as [IH1 IH2]; [lia|done|]. split; [|constructor; [lia|done]].
  cbn [fmap list_fmap concat hex_pair app]. rewrite E2, E3, Ha2, Hb2. simpl. f_equal. f_equal. exact IH1.
Qed.

Lemma from_bytes_canonical digest :
  length digest = SHA256_DIGEST_LENGTH → Forall (λ b, b < 256)%N digest →
  canonical_hex (Sha256Hex_from_bytes digest).
Proof.
  intros Hl Hd. unfold Sha256Hex_from_bytes, canonical_hex, SHA256_HEX_LENGTH. rewrite <- Hl. clear Hl.
  induction Hd as [|b digest Hb Hd [IH1 IH2]]; [by split|]. cbn [fmap list_fmap concat hex_pair app].
  split; [cbn [length] in *; rewrite IH1; lia|].
  repeat (constructor; [apply hex_char_spec|]); [| |exact IH2].
  - rewrite N.shiftr_div_pow2. apply N.Div0.div_lt_upper_bound. lia.
  - change 15%N with (N.ones 4). rewrite N.land_ones. by apply N.mod_lt.
Qed.

Lemma normalize_hex_iff bytes :
  is_ok (normalize_hex bytes) = true ↔ Forall (λ c, hex_digit c = true) bytes.
Proof.
  induction bytes as [|b bytes IH]; [by split|]. rewrite Forall_cons, <- IH. simpl.
  pose proof (decode_hex_digit_is_Some b) as Hb. destruct (decode_hex_digit b) as [d|]; simpl.
  - rewrite <- Hb. destruct (normalize_hex bytes); simpl; naive_solver.
  - split; [done|]. intros [Hh _]. apply Hb in Hh as [? [=]].
Qed.

(** The canonical digest texts and the 32-byte digests are in bijection: a
    digest survives its text, the text of a digest parses to itself, and every
    text the parser accepts, whatever its case, normalizes to the text of one
    digest; what it accepts is 64 hexadecimal digits. *)
Theorem digest_roundtrip :
  (∀ digest, length digest = SHA256_DIGEST_LENGTH → Forall (λ b, b < 256)%N digest →
     Sha256Hex_into_bytes (Sha256Hex_from_bytes digest) = digest ∧
     Sha256Hex_parse (Sha256Hex_from_bytes digest) = Ok (Sha256Hex_from_bytes digest)) ∧
  (∀ value h, Sha256Hex_parse value = Ok h →
     Sha256Hex_from_bytes (Sha256Hex_into_bytes h) = h ∧ Sha256Hex_parse h = Ok h ∧
     length (Sha256Hex_into_bytes h) = SHA256_DIGEST_LENGTH ∧
     Forall (λ b, b < 256)%N (Sha256Hex_into_bytes h)) ∧
  (∀ value, is_ok (Sha256Hex_parse value) = true ↔
     length (as_bytes value) = SHA256_HEX_LENGTH ∧ Forall (λ c, hex_digit c = true) (as_bytes value)).
Proof.
  split; [|split].
  - intros digest Hl Hd. pose proof (from_bytes_canonical digest Hl Hd) as Hc.
    split; [|by apply Sha256Hex_parse_fix]. unfold Sha256Hex_into_bytes.
    rewrite (canonical_as_bytes _ (proj2 Hc)), <- Hl. by apply into_from_pairs.
  - intros value h Hp. apply Sha256Hex_parse_canonical in Hp as [Hl Hh].
    unfold Sha256Hex_into_bytes. rewrite (canonical_as_bytes _ Hh).
    destruct (from_into_pairs h _ Hl Hh) as [E1 E2]. split; [exact E1|].
    split; [by apply Sha256Hex_parse_fix|]. split; [|exact E2].
    by rewrite length_fmap, length_seq.
  - intros value. rewrite <- normalize_hex_iff. unfold Sha256Hex_parse. case_decide; naive_solver.
Qed.

Lemma digest_roundtrip_witness :
  Sha256Hex_into_bytes (Sha256Hex_from_bytes (repeat 171%N 32)) = repeat 171%N 32 ∧
  Sha256Hex_parse (Sha256Hex_from_bytes (repeat 171%N 32)) =
    Ok (Sha256Hex_from_bytes (repeat 171%N 32)).
Proof.
  apply (proj1 digest_roundtrip); [reflexivity|]. apply Forall_forall. intros x Hx.
  apply list_elem_of_In, repeat_spec in Hx. subst. reflexivity.
Defined.

(** ** Names *)

Definition MAX_ARTIFACT_NAME_CHARS : N := 128.
Definition ArtifactName_parse : str → result str BoundedNameError :=
  parse_bounded_name MAX_ARTIFACT_NAME_CHARS.

(** ** The lifecycle *)

Inductive ArtifactState := Uploading | Ready | ArtifactFailed.
#[export] Instance ArtifactState_eq_dec : EqDecision ArtifactState.
Proof. solve_decision. Defined.

Definition ArtifactState_as_str (s : ArtifactState) : str :=
  match s with
  | Uploading => lit "uploading"
  | Ready => lit "ready"
  | ArtifactFailed => lit "failed"
  end.
Inductive ArtifactStateParseError := ArtifactStateParseErr.
Definition ArtifactState_from_str (value : str) : result ArtifactState ArtifactStateParseError :=
  ok_or (match_str value
    [("uploading", Uploading); ("ready", Ready); ("failed", ArtifactFailed)]%string)
    ArtifactStateParseErr.
#[export, refine] Instance ArtifactState_code :
  StableCode ArtifactState ArtifactStateParseError :=
  { code_str := ArtifactState_as_str; code_parse := ArtifactState_from_str }.
Proof. all: unfold ArtifactState_from_str; solve_code. Defined.

Definition artifact_terminal (s : ArtifactState) : bool :=
  match s with Ready | ArtifactFailed => true | Uploading => false end.

Record Artifact := mk_artifact {
  a_id : ArtifactId;
  a_name : str;
  a_size_bytes : Z;
  a_sha256 : str;
  a_state : ArtifactState;
  a_uploaded_bytes : Z;
  a_created_at : OffsetDateTime;
  a_updated_at : OffsetDateTime;
}.
#[export] Instance Artifact_eq_dec : EqDecision Artifact.
Proof. solve_decision. Defined.

Inductive ArtifactError :=
| ArtifactTerminal (state : ArtifactState)
| ProgressExceedsSize (uploaded received size : Z)
| IncompleteUpload (uploaded size : Z).

Inductive ArtifactRestoreError :=
| RestoreInvalidTimeline
| RestoreProgressExceedsSize (uploaded size : Z)
| RestoreReadyBeforeCompleteUpload (uploaded size : Z).

(** [Artifact::new]. *)
Definition Artifact_new (id : ArtifactId) (name : str) (size_bytes : Z) (sha256 : str)
    (created_at : OffsetDateTime) : Artifact :=
  {| a_id := id; a_name := name; a_size_bytes := size_bytes; a_sha256 := sha256;
     a_state := Uploading; a_uploaded_bytes := 0;
     a_created_at := created_at; a_updated_at := created_at |}.

(** [Artifact::try_from_parts]. *)
Definition Artifact_try_from_parts (id : ArtifactId) (name : str) (size_bytes : Z) (sha256 : str)
    (state : ArtifactState) (uploaded_bytes : Z) (created_at updated_at : OffsetDateTime)
    : result Artifact ArtifactRestoreError :=
  if updated_at <? created_at then Err RestoreInvalidTimeline
  else if size_bytes <? uploaded_bytes
  then Err (RestoreProgressExceedsSize uploaded_bytes size_bytes)
  else if decide (state = Ready ∧ uploaded_bytes ≠ size_bytes)
  then Err (RestoreReadyBeforeCompleteUpload uploaded_bytes size_bytes)
  else Ok (mk_artifact id name size_bytes sha256 state uploaded_bytes created_at updated_at).

Definition require_uploading (a : Artifact) : result () ArtifactError :=
  if artifact_terminal (a_state a) then Err (ArtifactTerminal (a_state a)) else Ok ().

Definition with_uploaded (a : Artifact) (next : Z) : Artifact :=
  mk_artifact (a_id a) (a_name a) (a_size_bytes a) (a_sha256 a) (a_state a) next
    (a_created_at a) (a_updated_at a).
Definition with_artifact_state (a : Artifact) (s : ArtifactState) : Artifact :=
  mk_artifact (a_id a) (a_name a) (a_size_bytes a) (a_sha256 a) s (a_uploaded_bytes a)
    (a_created_at a) (a_updated_at a).

(** [Artifact::record_bytes_received]. *)
Definition record_bytes_received (a : Artifact) (received : Z) : result Artifact ArtifactError :=
  let? _ := require_uploading a in
  match checked_add_u64 (a_uploaded_bytes a) received with
  | None => Err (ProgressExceedsSize (a_uploaded_bytes a) received (a_size_bytes a))
  | Some next =>
      if a_size_bytes a <? next
      then Err (ProgressExceedsSize (a_uploaded_bytes a) received (a_size_bytes a))
      else Ok (with_uploaded a next)
  end.

(** [Artifact::mark_ready]. *)
Definition mark_ready (a : Artifact) : result Artifact ArtifactError :=
  let? _ := require_uploading a in
  if decide (a_uploaded_bytes a ≠ a_size_bytes a)
  then Err (IncompleteUpload (a_uploaded_bytes a) (a_size_bytes a))
  else Ok (with_artifact_state a Ready).

(** [Artifact::mark_failed]. *)
Definition mark_failed (a : Artifact) : result Artifact ArtifactError :=
  let? _ := require_uploading a in
  Ok (with_artifact_state a ArtifactFailed).

Inductive ArtifactStep := StepReceived (received : Z) | StepReady | StepFailed.
Definition artifact_step (a : Artifact) (s : ArtifactStep) : result Artifact ArtifactError :=
  match s with
  | StepReceived received => record_bytes_received a received
  | StepReady => mark_ready a
  | StepFailed => mark_failed a
  end.

(** The invariant of an artifact. *)
Definition artifact_ok (a : Artifact) : Prop :=
  0 ≤ a_uploaded_bytes a ≤ a_size_bytes a ∧ a_size_bytes a ≤ U64_MAX ∧
  a_created_at a ≤ a_updated_at a ∧
  (a_state a = Ready → a_uploaded_bytes a = a_size_bytes a).

Lemma try_from_parts_ok a :
  artifact_ok a →
  Artifact_try_from_parts (a_id a) (a_name a) (a_size_bytes a) (a_sha256 a) (a_state a)
    (a_uploaded_bytes a) (a_created_at a) (a_updated_at a) = Ok a.
Proof.
  intros (Hu & _ & Ht & Hr). unfold Artifact_try_from_parts.
  destruct (Z.ltb_spec (a_updated_at a) (a_created_at a)); [lia|].
  destruct (Z.ltb_spec (a_size_bytes a) (a_uploaded_bytes a)); [lia|].
  rewrite decide_False by (intros []; auto). by destruct a.
Qed.

Lemma try_from_parts_inv id name size sha state uploaded created updated a :
  Artifact_try_from_parts id name size sha state uploaded created updated = Ok a →
  a = mk_artifact id name size sha state uploaded created updated ∧
  created ≤ updated ∧ uploaded ≤ size ∧ (state = Ready → uploaded = size).
Proof.
  unfold Artifact_try_from_parts. destruct (Z.ltb_spec updated created); [done|].
  destruct (Z.ltb_spec size uploaded); [done|]. case_decide as Hd; [done|]. intros [= <-].
  split; [done|]. split; [done|]. split; [done|]. intros ->.
  destruct (decide (uploaded = size)); [done|]. by destruct Hd.
Qed.

(** The bytes a sequence of steps receives. *)
Definition received_by (s : ArtifactStep) : Z :=
  match s with StepReceived n => n | _ => 0 end.
Definition total_received (steps : list ArtifactStep) : Z := foldr (λ s n, received_by s + n) 0 steps.

Lemma artifact_step_ok a s a' :
  artifact_ok a → 0 ≤ received_by s → artifact_step a s = Ok a' →
  artifact_ok a' ∧ a_state a = Uploading ∧ a_uploaded_bytes a' = a_uploaded_bytes a + received_by s ∧
  (a_id a', a_name a', a_size_bytes a', a_sha256 a', a_created_at a', a_updated_at a') =
  (a_id a, a_name a, a_size_bytes a, a_sha256 a, a_created_at a, a_updated_at a).
Proof.
  intros Hok H0 Hs. unfold artifact_ok in *.
  destruct s; simpl in *; unfold record_bytes_received, mark_ready, mark_failed, require_uploading in Hs;
    destruct (a_state a) eqn:Hst; simpl in Hs; try done.
  - destruct (checked_add_u64 _ _) as [next|] eqn:Hc; [|done].
    apply checked_add_u64_Some in Hc as [-> Hc]. revert Hs.
    destruct (Z.ltb_spec (a_size_bytes a) (a_uploaded_bytes a + received)); [done|].
    intros [= <-]. simpl. rewrite Hst. split_and!; try done; lia.
  - case_decide as Hd; [done|]. injection Hs as <-. simpl. split_and!; try done; lia.
  - injection Hs as <-. simpl. split_and!; try done; lia.
Qed.

(** Whatever steps a newly declared artifact accepts: its manifest is
    unchanged, its progress is the number of bytes received and never exceeds the
    declared size, it is ready only when complete, a finished one accepts
    nothing more, and the result is accepted again by the persistence
    constructor. *)
Theorem upload_lifecycle id name size sha created steps a :
  0 ≤ size ≤ U64_MAX → Forall (λ s, 0 ≤ received_by s) steps →
  run artifact_step (Artifact_new id name size sha created) steps = Ok a →
  (a_id a, a_name a, a_size_bytes a, a_sha256 a) = (id, name, size, sha) ∧
  a_uploaded_bytes a = total_received steps ∧ a_uploaded_bytes a ≤ size ∧
  (a_state a = Ready → a_uploaded_bytes a = size) ∧
  (a_state a ≠ Uploading → ∀ s, is_ok (artifact_step a s) = false) ∧
  Artifact_try_from_parts (a_id a) (a_name a) (a_size_bytes a) (a_sha256 a) (a_state a)
    (a_uploaded_bytes a) (a_created_at a) (a_updated_at a) = Ok a.
Proof.
  intros Hsize Hsteps Hrun.
  assert (∀ steps a0 a, artifact_ok a0 → Forall (λ s, 0 ≤ received_by s) steps →
    run artifact_step a0 steps = Ok a →
    artifact_ok a ∧ (a_id a, a_name a, a_size_bytes a, a_sha256 a) =
      (a_id a0, a_name a0, a_size_bytes a0, a_sha256 a0) ∧
    a_uploaded_bytes a = a_uploaded_bytes a0 + total_received steps) as Hgen.
  { clear. induction steps as [|s steps IH]; intros a0 a Hok Hf Hrun; simpl in *; inv_ok.
    - split_and!; [done|done|lia].
    - apply Forall_cons in Hf as [H0 Hf].
      destruct (artifact_step_ok a0 s a1 Hok H0 Hrun0) as (Hok1 & _ & Hup & Heq).
      destruct (IH a1 a Hok1 Hf Hrun) as (? & Hid & ?). split_and!; [done|congruence|lia]. }
  assert (artifact_ok (Artifact_new id name size sha created)) as Hnew.
  { unfold artifact_ok. simpl. split_and!; (lia || done). }
  destruct (Hgen _ _ a Hnew Hsteps Hrun) as (Hok & Hid & Hup).
  simpl in *. destruct Hok as (H1 & H2 & H3 & H4). injection Hid as ? ? Hsz ?.
  split; [congruence|]. split; [done|]. split; [lia|]. split; [rewrite <- Hsz; exact H4|].
  split.
  - intros Hst s. destruct s; simpl; unfold record_bytes_received, mark_ready, mark_failed, require_uploading;
      by destruct (a_state a).
  - by apply try_from_parts_ok.
Qed.

Lemma upload_lifecycle_witness :
  ∃ a, run artifact_step (Artifact_new 7 (lit "bios") 10 (lit "aa") 3)
         [StepReceived 4; StepReceived 6; StepReady] = Ok a ∧ a_uploaded_bytes a = 10.
Proof.
  eexists. split; [vm_compute; reflexivity|].
  destruct (upload_lifecycle 7 (lit "bios") 10 (lit "aa") 3 [StepReceived 4; StepReceived 6; StepReady]
    (mk_artifact 7 (lit "bios") 10 (lit "aa") Ready 10 3 3)) as (_ & Hup & _).
  - unfold U64_MAX. lia.
  - repeat constructor; simpl; lia.
  - vm_compute. reflexivity.
  - exact Hup.
Defined.
