(* ===== verification/Endpoints.v ===== *)
(** * Endpoints: certificate fingerprints and the endpoints a site manages

    Models [domain/src/endpoint.rs] and [endpoint_address.rs]: fingerprints of
    thirty-two bytes, written as colon-separated upper-case pairs and read in either
    case; names, addresses, certificates, trust and the endpoint. *)
From S2P Require Import Prelude Text Operation CommandCipher CenterDomain Artifact.
From Stdlib Require Import ZifyBool.

Definition FINGERPRINT_LENGTH : nat := 32.
Definition FINGERPRINT_TEXT_LENGTH : nat := 95.

Definition upper_hex (digit : N) : char := nth (N.to_nat digit) (lit "0123456789ABCDEF") 0%N.
Definition upper_pair (byte : N) : str := [upper_hex (N.shiftr byte 4); upper_hex (N.land byte 15)].

(** [Display]. *)
Definition fingerprint_to_string (fp : CertificateFingerprint) : str :=
  concat (imap (λ index byte, (if decide (0 < index) then lit ":" else []) ++ upper_pair byte) fp).

Inductive CertificateFingerprintParseError :=
| FingerprintInvalidLength (actual expected : nat)
| FingerprintInvalidEncoding.

Definition decode_hex (value : N) : option N :=
  if ((48 <=? value) && (value <=? 57))%N then Some (value - 48)%N
  else if ((97 <=? value) && (value <=? 102))%N then Some (value - 97 + 10)%N
  else if ((65 <=? value) && (value <=? 70))%N then Some (value - 65 + 10)%N
  else None.

(** The loop body, for one index. *)
Definition decode_pair (encoded : list N) (index : nat) : result N CertificateFingerprintParseError :=
  let offset := index * 3 in
  if decide (0 < index ∧ nth (offset - 1) encoded 0%N ≠ 58%N) then Err FingerprintInvalidEncoding
  else
    let? high := ok_or (decode_hex (nth offset encoded 0%N)) FingerprintInvalidEncoding in
    let? low := ok_or (decode_hex (nth (offset + 1) encoded 0%N)) FingerprintInvalidEncoding in
    Ok (N.lor (N.shiftl high 4 mod 256) low).

Fixpoint decode_pairs (encoded : list N) (indices : list nat)
    : result CertificateFingerprint CertificateFingerprintParseError :=
  match indices with
  | [] => Ok []
  | index :: indices =>
      let? byte := decode_pair encoded index in
      let? rest := decode_pairs encoded indices in
      Ok (byte :: rest)
  end.

(** [FromStr]. *)
Definition fingerprint_from_str (value : str)
    : result CertificateFingerprint CertificateFingerprintParseError :=
  let encoded := as_bytes value in
  if decide (length encoded ≠ FINGERPRINT_TEXT_LENGTH)
  then Err (FingerprintInvalidLength (length encoded) FINGERPRINT_TEXT_LENGTH)
  else decode_pairs encoded (seq 0 FINGERPRINT_LENGTH).

(** ** The text determines the bytes and the bytes the text *)

Lemma upper_hex_spec d : (d < 16)%N → decode_hex (upper_hex d) = Some d ∧ (upper_hex d < 128)%N.
Proof. revert d. apply digit_cases. repeat constructor. Qed.

Lemma upper_pair_spec b : (b < 256)%N →
  ∃ h l, upper_pair b = [h; l] ∧ (h < 128 ∧ l < 128)%N ∧
  decode_hex h = Some (N.shiftr b 4) ∧ decode_hex l = Some (N.land b 15) ∧
  N.lor (N.shiftl (N.shiftr b 4) 4 mod 256) (N.land b 15) = b.
Proof.
  intros Hb. assert (N.shiftr b 4 < 16)%N as H1.
  { rewrite N.shiftr_div_pow2. apply N.Div0.div_lt_upper_bound. simpl. lia. }
  assert (N.land b 15 < 16)%N as H2 by (change 15%N with (N.ones 4); rewrite N.land_ones; apply N.mod_lt; done).
  destruct (upper_hex_spec _ H1) as [Hh Hh'], (upper_hex_spec _ H2) as [Hl Hl'].
  exists (upper_hex (N.shiftr b 4)), (upper_hex (N.land b 15)). split; [done|]. split; [done|].
  split; [done|]. split; [done|]. destruct (hex_byte_nibbles _ _ H1 H2) as (-> & _).
  rewrite N.shiftr_div_pow2. change 15%N with (N.ones 4). rewrite N.land_ones.
  change (2 ^ 4)%N with 16%N. pose proof (N.div_mod b 16). lia.
Qed.

Definition colon_pairs (fp : CertificateFingerprint) : str := concat ((λ b, lit ":" ++ upper_pair b) <$> fp).

Lemma fingerprint_text b fp : fingerprint_to_string (b :: fp) = upper_pair b ++ colon_pairs fp.
Proof.
  unfold fingerprint_to_string. rewrite imap_cons. simpl. do 2 f_equal. unfold colon_pairs. f_equal.
  transitivity (imap (λ _, λ b, lit ":" ++ upper_pair b) fp); [by apply imap_ext|apply imap_const].
Qed.

Lemma decode_colon_pairs pre fp k :
  byte_string fp → length pre = 3 * k + 2 →
  decode_pairs (pre ++ colon_pairs fp) (seq (S k) (length fp)) = Ok fp.
Proof.
  intros Hfp. revert pre k. induction Hfp as [|b fp Hb Hfp IH]; intros pre k Hpre; [done|].
  destruct (upper_pair_spec b Hb) as (h & l & Hp & _ & Hh & Hl & Hbyte).
  assert (pre ++ colon_pairs (b :: fp) = (pre ++ [58%N; h; l]) ++ colon_pairs fp) as ->.
  { unfold colon_pairs. cbn [fmap list_fmap concat]. rewrite Hp. by rewrite <- !app_assoc. }
  assert (∀ i, i < 3 → nth (3 * k + 2 + i) ((pre ++ [58%N; h; l]) ++ colon_pairs fp) 0%N = nth i [58%N; h; l] 0%N) as Hnth.
  { intros i Hi. rewrite app_nth1 by (rewrite length_app, Hpre; simpl; lia).
    rewrite app_nth2 by lia. f_equal. lia. }
  cbn [length seq decode_pairs]. unfold decode_pair.
  replace (S k * 3 - 1) with (3 * k + 2 + 0) by lia. replace (S k * 3) with (3 * k + 2 + 1) by lia.
  replace (3 * k + 2 + 1 + 1) with (3 * k + 2 + 2) by lia. rewrite !Hnth by lia.
  rewrite decide_False by (simpl; tauto). cbn [nth]. rewrite Hh, Hl. cbn [ok_or result_bind].
  rewrite Hbyte, (IH (pre ++ [58%N; h; l]) (S k)); [done|]. rewrite length_app, Hpre. simpl. lia.
Qed.

Lemma colon_pairs_ascii fp : byte_string fp →
  Forall (λ c, c < 128)%N (colon_pairs fp) ∧ length (colon_pairs fp) = 3 * length fp.
Proof.
  induction 1 as [|b fp Hb Hfp [IH IHl]]; [done|].
  destruct (upper_pair_spec b Hb) as (h & l & Hp & (Hh & Hl) & _).
  assert (colon_pairs (b :: fp) = 58%N :: h :: l :: colon_pairs fp) as ->.
  { unfold colon_pairs. cbn [fmap list_fmap concat]. by rewrite Hp. }
  split; [by repeat constructor|]. cbn [length]. lia.
Qed.

(** The text of a fingerprint reads back as it, whatever its bytes. *)
Theorem fingerprint_roundtrip fp :
  length fp = FINGERPRINT_LENGTH → byte_string fp →
  fingerprint_from_str (fingerprint_to_string fp) = Ok fp.
Proof.
  intros Hlen Hfp. destruct fp as [|b fp]; [done|]. apply Forall_cons in Hfp as [Hb Hfp].
  destruct (upper_pair_spec b Hb) as (h & l & Hp & (Hh & Hl) & Hdh & Hdl & Hbyte).
  destruct (colon_pairs_ascii fp Hfp) as [Hascii Hclen]. injection Hlen as Hlen.
  rewrite fingerprint_text, Hp. unfold fingerprint_from_str.
  rewrite as_bytes_ascii by (by repeat constructor).
  rewrite decide_False by (simpl; rewrite Hclen, Hlen; intros Hn; by apply Hn).
  change (seq 0 FINGERPRINT_LENGTH) with (0 :: seq 1 31). rewrite <- Hlen.
  pose proof (decode_colon_pairs [h; l] fp 0 Hfp eq_refl) as Hd. cbn [app] in Hd |- *.
  cbn [decode_pairs]. rewrite Hd. unfold decode_pair. rewrite decide_False by lia.
  cbn [nth Nat.mul Nat.add]. rewrite Hdh, Hdl. cbn [ok_or result_bind]. by rewrite Hbyte.
Qed.

Lemma fingerprint_to_string_inj fp fp' :
  length fp = FINGERPRINT_LENGTH → byte_string fp → length fp' = FINGERPRINT_LENGTH → byte_string fp' →
  fingerprint_to_string fp = fingerprint_to_string fp' → fp = fp'.
Proof.
  intros Hl Hb Hl' Hb' Heq. pose proof (fingerprint_roundtrip fp Hl Hb) as Hr.
  rewrite Heq, fingerprint_roundtrip in Hr by done. congruence.
Qed.

(** What is read is thirty-two bytes. *)
Lemma decode_hex_bound c d : decode_hex c = Some d → (d < 16)%N.
Proof. unfold decode_hex. repeat case_match; intros [= <-]; lia. Qed.

Lemma decode_pairs_ok encoded indices fp :
  decode_pairs encoded indices = Ok fp → length fp = length indices ∧ byte_string fp.
Proof.
  revert fp. induction indices as [|i indices IH]; intros fp Hd; simpl in Hd.
  { injection Hd as <-. split; [done|constructor]. }
  destruct (decode_pair encoded i) as [byte|] eqn:Hb; [|done]. simpl in Hd.
  destruct (decode_pairs encoded indices) as [rest|]; [|done]. injection Hd as <-.
  destruct (IH rest eq_refl) as [Hl Hr]. split; [simpl; by rewrite Hl|]. constructor; [|done].
  unfold decode_pair in Hb. case_decide; [done|].
  destruct (decode_hex (nth (i * 3) encoded 0%N)) as [h|] eqn:Hh; [|done]. simpl in Hb.
  destruct (decode_hex (nth (i * 3 + 1) encoded 0%N)) as [l|] eqn:Hl'; [|done]. injection Hb as <-.
  apply decode_hex_bound in Hh, Hl'. destruct (hex_byte_nibbles h l Hh Hl') as (-> & _). lia.
Qed.

Lemma fingerprint_from_str_ok value fp :
  fingerprint_from_str value = Ok fp → length fp = FINGERPRINT_LENGTH ∧ byte_string fp.
Proof.
  unfold fingerprint_from_str. case_decide; [done|]. intros Hd.
  apply decode_pairs_ok in Hd as [Hl Hb]. by rewrite length_seq in Hl.
Qed.

(** ** The endpoints a site manages

    Models the names, certificates, trust and timeline of [domain/src/endpoint.rs]
    and the addresses of [domain/src/endpoint_address.rs].  SHA-256 and the [url]
    crate are parameters. *)

Local Open Scope Z_scope.

Definition MAX_DISPLAY_NAME_CHARS : N := 128.
Definition MAX_CERTIFICATE_DER_BYTES : nat := 1024 * 1024.

(** ** Names and addresses *)

(** [EndpointDisplayNameError] has the three variants of the bounded names. *)
Definition EndpointDisplayName_parse (value : str) : result str BoundedNameError :=
  parse_bounded_name MAX_DISPLAY_NAME_CHARS value.

(** What the code reads of a [url::Url]. *)
Class UrlText := {
  Url : Type;
  url_parse : str → option Url;
  url_to_string : Url → str;
  url_scheme : Url → str;
  url_host_str : Url → option str;
  url_username : Url → str;
  url_password : Url → option str;
  url_query : Url → option str;
  url_fragment : Url → option str;
}.
(** A URL's text parses back to it. *)
Class UrlTextLaws `{UrlText} := url_roundtrip u : url_parse (url_to_string u) = Some u.

Inductive EndpointAddressError :=
| InvalidUrl | HttpsRequired | HostRequired | EmbeddedCredentials | QueryNotAllowed | FragmentNotAllowed.

Section address.
Context `{UrlText}.

Definition EndpointAddress_parse (value : str) : result Url EndpointAddressError :=
  let? url := ok_or (url_parse value) InvalidUrl in
  if decide (url_scheme url ≠ lit "https") then Err HttpsRequired
  else if decide (url_host_str url = None) then Err HostRequired
  else if decide (url_username url ≠ [] ∨ url_password url ≠ None) then Err EmbeddedCredentials
  else if decide (url_query url ≠ None) then Err QueryNotAllowed
  else if decide (url_fragment url ≠ None) then Err FragmentNotAllowed
  else Ok url.

(** The addresses that are accepted. *)
Definition address_ok (url : Url) : Prop :=
  url_scheme url = lit "https" ∧ url_host_str url ≠ None ∧ url_username url = [] ∧ url_password url = None ∧
  url_query url = None ∧ url_fragment url = None.

Lemma EndpointAddress_parse_Ok value url :
  EndpointAddress_parse value = Ok url ↔ url_parse value = Some url ∧ address_ok url.
Proof.
  unfold EndpointAddress_parse, address_ok. destruct (url_parse value) as [u|]; simpl; [|naive_solver].
  repeat case_decide; (split; [intros [= <-]|intros [[= <-] (? & ? & ? & ? & ? & ?)]]); try tauto.
  split; [done|]. split_and!; try done; apply dec_stable; tauto.
Qed.

(** A stored address is read back. *)
Lemma address_roundtrip `{!UrlTextLaws} value url :
  EndpointAddress_parse value = Ok url → EndpointAddress_parse (url_to_string url) = Ok url.
Proof. rewrite !EndpointAddress_parse_Ok, url_roundtrip. by intros [_ ?]. Qed.
End address.

(** ** Certificates *)

Record TlsCertificate := mk_tls_certificate {
  tc_fingerprint : CertificateFingerprint;
  tc_certificate_der : list N;
}.
#[export] Instance TlsCertificate_eq_dec : EqDecision TlsCertificate.
Proof. solve_decision. Defined.

Inductive TlsCertificateError :=
| CertificateEmpty | CertificateTooLarge (actual maximum : nat) | CertificateFingerprintMismatch.

Definition validate_certificate_length (certificate_der : list N) : result () TlsCertificateError :=
  if decide (certificate_der = []) then Err CertificateEmpty
  else if decide (MAX_CERTIFICATE_DER_BYTES < length certificate_der)%nat
  then Err (CertificateTooLarge (length certificate_der) MAX_CERTIFICATE_DER_BYTES)
  else Ok ().

Section certificate.
Context (sha256 : list N → list N).

(** [CertificateFingerprint::from_certificate_der]. *)
Definition fingerprint (certificate_der : list N) : CertificateFingerprint := sha256 certificate_der.

Definition TlsCertificate_from_der (certificate_der : list N) : result TlsCertificate TlsCertificateError :=
  let? _ := validate_certificate_length certificate_der in
  Ok (mk_tls_certificate (fingerprint certificate_der) certificate_der).

Definition TlsCertificate_from_parts (fp : CertificateFingerprint) (certificate_der : list N)
    : result TlsCertificate TlsCertificateError :=
  let? _ := validate_certificate_length certificate_der in
  if decide (fp ≠ fingerprint certificate_der) then Err CertificateFingerprintMismatch
  else Ok (mk_tls_certificate fp certificate_der).

(** Stored parts are accepted exactly when they are those of a certificate that
    could be presented. *)
Lemma certificate_from_parts fp der c :
  TlsCertificate_from_parts fp der = Ok c ↔ TlsCertificate_from_der der = Ok c ∧ tc_fingerprint c = fp.
Proof.
  unfold TlsCertificate_from_parts, TlsCertificate_from_der.
  destruct (validate_certificate_length der) as [[]|]; simpl; [|naive_solver].
  destruct (decide _) as [Hne|Heq]; [naive_solver|]. apply dec_stable in Heq. subst. naive_solver.
Qed.
End certificate.

(** ** Trust *)

Inductive TlsTrust :=
| SystemCa (certificate : TlsCertificate) (verified_at : OffsetDateTime)
| PinnedCertificate (certificate : TlsCertificate) (trusted_at : OffsetDateTime).

Definition TlsTrust_established_at (t : TlsTrust) : OffsetDateTime :=
  match t with SystemCa _ verified_at => verified_at | PinnedCertificate _ trusted_at => trusted_at end.
Definition TlsTrust_certificate (t : TlsTrust) : TlsCertificate :=
  match t with SystemCa certificate _ | PinnedCertificate certificate _ => certificate end.

Record TlsIdentityChanged := mk_identity_changed {
  ic_expected : CertificateFingerprint;
  ic_observed : CertificateFingerprint;
}.

Definition TlsTrust_verify_fingerprint (t : TlsTrust) (observed : CertificateFingerprint)
    : result () TlsIdentityChanged :=
  let expected := tc_fingerprint (TlsTrust_certificate t) in
  if decide (expected ≠ observed) then Err (mk_identity_changed expected observed) else Ok ().
Definition TlsTrust_verify_identity (t : TlsTrust) (observed : TlsCertificate) : result () TlsIdentityChanged :=
  TlsTrust_verify_fingerprint t (tc_fingerprint observed).

(** ** Endpoints *)

(** The address is its URL text. *)
Record Endpoint := mk_endpoint {
  ep_id : EndpointId;
  ep_display_name : str;
  ep_address : str;
  ep_trust : TlsTrust;
  ep_credential_id : Uuid;
  ep_created_at : OffsetDateTime;
  ep_updated_at : OffsetDateTime;
}.

Inductive EndpointTimelineError := EndpointTimelineErr.

Definition Endpoint_try_new (id : EndpointId) (display_name address : str) (trust : TlsTrust)
    (credential_id : Uuid) (created_at updated_at : OffsetDateTime) : result Endpoint EndpointTimelineError :=
  let trust_established_at := TlsTrust_established_at trust in
  if (updated_at <? created_at) || (trust_established_at <? created_at) || (updated_at <? trust_established_at)
  then Err EndpointTimelineErr
  else Ok (mk_endpoint id display_name address trust credential_id created_at updated_at).

(** The trust was established while the endpoint existed. *)
Definition endpoint_timeline (e : Endpoint) : Prop :=
  ep_created_at e <= TlsTrust_established_at (ep_trust e) <= ep_updated_at e.

Lemma Endpoint_try_new_Ok id name address trust credential created updated e :
  Endpoint_try_new id name address trust credential created updated = Ok e ↔
  e = mk_endpoint id name address trust credential created updated ∧ endpoint_timeline e.
Proof.
  unfold Endpoint_try_new, endpoint_timeline.
  destruct (Z.ltb_spec updated created), (Z.ltb_spec (TlsTrust_established_at trust) created),
    (Z.ltb_spec updated (TlsTrust_established_at trust)); simpl; split; intros Hx; simplify_eq;
    try (destruct Hx as [-> Hx]; simpl in Hx); try lia; simpl; split; done || lia.
Qed.
