(* ===== verification/ArtifactRepository.v ===== *)
(** * ArtifactRepository: the artifact rows

    The boundary [ArtifactRepository] of [application/src/artifact_store.rs] as a
    class with its contract, and the SQLite implementation of
    [persistence/src/artifact_repository.rs] with the proof that it keeps it. *)
From S2P Require Import Prelude Text Operation Database Artifact.
Local Open Scope Z_scope.

(** ** The boundary *)

(** The five methods of the trait; [artifact_file_path] is injective in the
    identity, so the model names the file by the identity. *)
Class ArtifactRepository (S E : Type) := {
  ar_create_artifact : Artifact → M S E ();
  ar_find_artifact : ArtifactId → M S E (option Artifact);
  ar_list_artifacts_by_state : ArtifactState → M S E (list Artifact);
  ar_update_artifact : ArtifactId → Z → ArtifactState → OffsetDateTime → M S E ();
}.

(** A row as the contract sees it: what [find_artifact] would return if its
    timeline is in order. *)
Abbreviation ArtifactView := (gmap ArtifactId Artifact).

(** One update step of a row. *)
Definition artifact_updated (a : Artifact) (uploaded : Z) (s : ArtifactState) (at_ : OffsetDateTime)
    : Artifact :=
  mk_artifact (a_id a) (a_name a) (a_size_bytes a) (a_sha256 a) s uploaded (a_created_at a) at_.

(** The rows an update accepts: open, not moved backwards, within the declared
    size, and complete when it becomes ready. *)
Definition update_allowed (a : Artifact) (uploaded : Z) (s : ArtifactState) : Prop :=
  a_state a = Uploading ∧ a_uploaded_bytes a ≤ uploaded ≤ a_size_bytes a ∧
  (s = Ready → uploaded = a_size_bytes a).

(** Declaration order. *)
Definition artifact_le (l r : Artifact) : Prop :=
  a_created_at l < a_created_at r ∨ (a_created_at l = a_created_at r ∧ (a_id l ≤ a_id r)%N).
#[export] Instance artifact_le_dec : RelDecision artifact_le.
Proof. intros l r. unfold artifact_le. apply _. Defined.

(** A manifest the domain can hold. *)
Definition declarable (a : Artifact) : Prop :=
  artifact_ok a ∧ canonical_hex (a_sha256 a) ∧ bounded_name MAX_ARTIFACT_NAME_CHARS (a_name a).

(** What the boundary promises: [artifact_view] is the set of rows, a failed
    call changes nothing, and each successful one does what it says. *)
Class ArtifactRepositoryLaws (S E : Type) `{ArtifactRepository S E} := {
  artifact_view : S → ArtifactView;
  artifact_rows_ok : S → Prop;
  ar_view_key s id a : artifact_rows_ok s → artifact_view s !! id = Some a → a_id a = id;
  ar_create_spec a s s' r :
    artifact_rows_ok s → declarable a → ar_create_artifact a s = (s', r) →
    artifact_rows_ok s' ∧
    match r with
    | Err _ => artifact_view s' = artifact_view s
    | Ok () =>
        match artifact_view s !! a_id a with
        | Some _ => artifact_view s' = artifact_view s
        | None => artifact_view s' = <[a_id a := a]> (artifact_view s)
        end
    end;
  ar_find_spec id s s' r :
    artifact_rows_ok s → ar_find_artifact id s = (s', r) →
    artifact_rows_ok s' ∧ artifact_view s' = artifact_view s ∧
    match r with Ok o => artifact_view s !! id = o | Err _ => True end;
  ar_list_spec st s s' r :
    artifact_rows_ok s → ar_list_artifacts_by_state st s = (s', r) →
    artifact_rows_ok s' ∧ artifact_view s' = artifact_view s ∧
    match r with
    | Ok l => Sorted artifact_le l ∧ NoDup l ∧
              ∀ a, a ∈ l ↔ artifact_view s !! a_id a = Some a ∧ a_state a = st
    | Err _ => True
    end;
  ar_update_spec id uploaded st at_ s s' r :
    artifact_rows_ok s → 0 ≤ uploaded → ar_update_artifact id uploaded st at_ s = (s', r) →
    artifact_rows_ok s' ∧
    match r with
    | Err _ => artifact_view s' = artifact_view s
    | Ok () => ∃ a, artifact_view s !! id = Some a ∧ update_allowed a uploaded st ∧
                    artifact_view s' = <[id := artifact_updated a uploaded st at_]> (artifact_view s)
    end;
}.

(** ** The rows ([entity/src]) *)

Record artifact_model := mk_artifact_model {
  am_id : Uuid;
  am_name : str;
  am_size_bytes : Z;
  am_sha256 : str;
  am_state : str;
  am_uploaded_bytes : Z;
  am_created_at : OffsetDateTime;
  am_updated_at : OffsetDateTime;
  am_site_id : option Uuid;
}.

Abbreviation ArtifactTable := (gmap Uuid artifact_model).

Inductive StoredArtifactError :=
| InvalidName (e : BoundedNameError)
| InvalidSha256 (e : Sha256HexParseError)
| InvalidArtifactState
| InvalidSize (actual : Z)
| InvalidUploadedBytes (actual : Z)
| InvalidRestore (e : ArtifactRestoreError).

Inductive ArtifactRepositoryError :=
| ArtifactCoordinate
| ArtifactNotFound (artifact_id : ArtifactId)
| ArtifactTerminalConflict (artifact_id : ArtifactId) (state : ArtifactState)
| ProgressRegression (artifact_id : ArtifactId) (persisted requested : Z)
| RowProgressExceedsSize (artifact_id : ArtifactId) (uploaded size : Z)
| RowIncompleteUpload (artifact_id : ArtifactId) (uploaded size : Z)
| IntegerOutOfRange (value : Z)
| ArtifactCorrupt (artifact_id : ArtifactId) (source : StoredArtifactError)
| ArtifactDatabase.

#[export] Instance artifact_errors : DbErrors ArtifactRepositoryError :=
  { err_coordinate := ArtifactCoordinate; err_database := ArtifactDatabase }.

(** [stored_integer]. *)
Definition stored_integer (value : Z) : result Z ArtifactRepositoryError :=
  if decide (value ≤ I64_MAX) then Ok value else Err (IntegerOutOfRange value).

(** The parses of [map_stored_artifact], before the aggregate is restored. *)
Definition stored_artifact_parts (artifact_id : ArtifactId) (model : artifact_model)
    : result Artifact ArtifactRepositoryError :=
  let corrupt := ArtifactCorrupt artifact_id in
  let? name := map_err (λ e, corrupt (InvalidName e)) (ArtifactName_parse (am_name model)) in
  let? sha256 := map_err (λ e, corrupt (InvalidSha256 e)) (Sha256Hex_parse (am_sha256 model)) in
  let? state := map_err (λ _, corrupt InvalidArtifactState) (ArtifactState_from_str (am_state model)) in
  let? size_bytes := ok_or (u64_try_from (am_size_bytes model)) (corrupt (InvalidSize (am_size_bytes model))) in
  let? uploaded_bytes := ok_or (u64_try_from (am_uploaded_bytes model))
    (corrupt (InvalidUploadedBytes (am_uploaded_bytes model))) in
  Ok (mk_artifact artifact_id name size_bytes sha256 state uploaded_bytes
        (am_created_at model) (am_updated_at model)).

(** [map_stored_artifact]. *)
Definition map_stored_artifact (artifact_id : ArtifactId) (model : artifact_model)
    : result Artifact ArtifactRepositoryError :=
  let? p := stored_artifact_parts artifact_id model in
  map_err (λ e, ArtifactCorrupt artifact_id (InvalidRestore e))
    (Artifact_try_from_parts (a_id p) (a_name p) (a_size_bytes p) (a_sha256 p) (a_state p)
       (a_uploaded_bytes p) (a_created_at p) (a_updated_at p)).

Definition artifact_model_le (l r : artifact_model) : Prop :=
  am_created_at l < am_created_at r ∨
  (am_created_at l = am_created_at r ∧ (am_id l ≤ am_id r)%N).
#[export] Instance artifact_model_le_dec : RelDecision artifact_model_le.
Proof. intros l r. unfold artifact_model_le. apply _. Defined.

Section artifact_repository.
Context (env : Env).
Abbreviation ARepo := (M (World ArtifactTable) ArtifactRepositoryError).

Definition find_artifact_model (id : Uuid) : ARepo (option artifact_model) :=
  select env (λ t, t !! id).

(** [INSERT]: refused by the primary key. *)
Definition insert_artifact_model (model : artifact_model) : ARepo () :=
  statement env (λ t, match t !! am_id model with
                      | Some _ => None
                      | None => Some (<[am_id model := model]> t, ())
                      end).

(** [UPDATE ... WHERE id]: an error when no row is matched. *)
Definition update_artifact_model (model : artifact_model) : ARepo () :=
  statement env (λ t, match t !! am_id model with
                      | Some _ => Some (<[am_id model := model]> t, ())
                      | None => None
                      end).

(** The body shared by [create_artifact] and [declare_center_artifact], which
    differ in the stored site. *)
Definition declare_artifact (site : option Uuid) (artifact : Artifact) : ARepo () :=
  do! acquire env in
  transaction env (
    let! row := find_artifact_model (a_id artifact) in
    match row with
    | Some _ => mret ()
    | None =>
        let! size_bytes := mlift (stored_integer (a_size_bytes artifact)) in
        let! uploaded_bytes := mlift (stored_integer (a_uploaded_bytes artifact)) in
        insert_artifact_model
          {| am_id := a_id artifact; am_name := a_name artifact; am_size_bytes := size_bytes;
             am_sha256 := a_sha256 artifact; am_state := ArtifactState_as_str (a_state artifact);
             am_uploaded_bytes := uploaded_bytes; am_created_at := a_created_at artifact;
             am_updated_at := a_updated_at artifact; am_site_id := site |}
    end).

Definition create_artifact (artifact : Artifact) : ARepo () := declare_artifact None artifact.
Definition declare_center_artifact (artifact : Artifact) (site : Uuid) : ARepo () :=
  declare_artifact (Some site) artifact.

Definition find_artifact (artifact_id : ArtifactId) : ARepo (option Artifact) :=
  transaction env (
    let! row := find_artifact_model artifact_id in
    match row with
    | None => mret None
    | Some model =>
        let! domain := mlift (map_stored_artifact artifact_id model) in
        mret (Some domain)
    end).

Definition find_artifact_site (artifact_id : ArtifactId) : ARepo (option Uuid) :=
  let! model := find_artifact_model artifact_id in
  mret (model ≫= am_site_id).

(** The rows of one state in declaration order. *)
Definition artifact_rows (state : ArtifactState) (t : ArtifactTable) : list artifact_model :=
  rows artifact_model_le (λ m, am_state m = ArtifactState_as_str state) t.

Definition list_artifacts_by_state (state : ArtifactState) : ARepo (list Artifact) :=
  transaction env (
    let! models := select env (artifact_rows state) in
    mtraverse (λ model, mlift (map_stored_artifact (am_id model) model)) models).

Definition update_artifact (artifact_id : ArtifactId) (uploaded_bytes : Z) (state : ArtifactState)
    (occurred_at : OffsetDateTime) : ARepo () :=
  do! acquire env in
  transaction env (
    let! row := find_artifact_model artifact_id in
    let! model := mlift (ok_or row (ArtifactNotFound artifact_id)) in
    let! current_state := mlift (map_err (λ _, ArtifactCorrupt artifact_id InvalidArtifactState)
      (ArtifactState_from_str (am_state model))) in
    if artifact_terminal current_state
    then mfail (ArtifactTerminalConflict artifact_id current_state)
    else
      let! persisted_uploaded := mlift (ok_or (u64_try_from (am_uploaded_bytes model))
        (ArtifactCorrupt artifact_id (InvalidUploadedBytes (am_uploaded_bytes model)))) in
      let! persisted_size := mlift (ok_or (u64_try_from (am_size_bytes model))
        (ArtifactCorrupt artifact_id (InvalidSize (am_size_bytes model)))) in
      if uploaded_bytes <? persisted_uploaded
      then mfail (ProgressRegression artifact_id persisted_uploaded uploaded_bytes)
      else if persisted_size <? uploaded_bytes
      then mfail (RowProgressExceedsSize artifact_id uploaded_bytes persisted_size)
      else if decide (state = Ready ∧ uploaded_bytes ≠ persisted_size)
      then mfail (RowIncompleteUpload artifact_id uploaded_bytes persisted_size)
      else
        let! stored := mlift (stored_integer uploaded_bytes) in
        update_artifact_model
          {| am_id := am_id model; am_name := am_name model; am_size_bytes := am_size_bytes model;
             am_sha256 := am_sha256 model; am_state := ArtifactState_as_str state;
             am_uploaded_bytes := stored; am_created_at := am_created_at model;
             am_updated_at := occurred_at; am_site_id := am_site_id model |}).
End artifact_repository.

(** ** The rows as the contract sees them *)

Lemma artifact_state_parse st : ArtifactState_from_str (ArtifactState_as_str st) = Ok st.
Proof. exact (code_parse_str (T := ArtifactState) st). Qed.
Lemma artifact_state_inj x y : ArtifactState_as_str x = ArtifactState_as_str y → x = y.
Proof. exact (code_str_inj (T := ArtifactState) x y). Qed.

Definition to_opt {A E} (r : result A E) : option A :=
  match r with Ok a => Some a | Err _ => None end.

Definition artifact_view_of (t : ArtifactTable) : ArtifactView :=
  map_imap (λ id m, to_opt (stored_artifact_parts id m)) t.

(** Every row was written by the program: its key is its identity and its
    columns parse. *)
Definition artifact_table_ok (t : ArtifactTable) : Prop :=
  ∀ id m, t !! id = Some m → am_id m = id ∧ is_ok (stored_artifact_parts id m) = true.

Lemma parts_inv id m a :
  stored_artifact_parts id m = Ok a →
  a_id a = id ∧ am_state m = ArtifactState_as_str (a_state a) ∧
  am_size_bytes m = a_size_bytes a ∧ 0 ≤ a_size_bytes a ∧
  am_uploaded_bytes m = a_uploaded_bytes a ∧ 0 ≤ a_uploaded_bytes a ∧
  a_created_at a = am_created_at m ∧ a_updated_at a = am_updated_at m ∧
  ArtifactName_parse (am_name m) = Ok (a_name a) ∧ Sha256Hex_parse (am_sha256 m) = Ok (a_sha256 a).
Proof.
  unfold stored_artifact_parts. intros Hp. inv_ok.
  match goal with Hs : ArtifactState_from_str _ = Ok _ |- _ =>
    pose proof (code_parse_sound (T := ArtifactState) _ _ Hs) as Hst end.
  repeat match goal with Hu : u64_try_from _ = Some _ |- _ => apply u64_try_from_Some in Hu as [-> ?] end.
  simpl. split_and!; done.
Qed.

Lemma parts_intro id m name sha st :
  ArtifactName_parse (am_name m) = Ok name → Sha256Hex_parse (am_sha256 m) = Ok sha →
  am_state m = ArtifactState_as_str st → 0 ≤ am_size_bytes m → 0 ≤ am_uploaded_bytes m →
  stored_artifact_parts id m =
    Ok (mk_artifact id name (am_size_bytes m) sha st (am_uploaded_bytes m) (am_created_at m) (am_updated_at m)).
Proof.
  intros Hn Hs Hst Hsz Hup. unfold stored_artifact_parts. rewrite Hn, Hs, Hst. simpl.
  rewrite artifact_state_parse. unfold u64_try_from.
  by rewrite !decide_True by done.
Qed.

Lemma map_stored_inv id m a :
  map_stored_artifact id m = Ok a → stored_artifact_parts id m = Ok a.
Proof.
  unfold map_stored_artifact. intros Hm. inv_ok.
  apply try_from_parts_inv in Hm as [-> _]. rewrite Hm0. by destruct a0.
Qed.

Lemma lookup_artifact_view t id :
  artifact_view_of t !! id = t !! id ≫= λ m, to_opt (stored_artifact_parts id m).
Proof. apply map_lookup_imap. Qed.

(** Writing one row changes the view at its key only. *)
Lemma artifact_view_insert t id m a :
  stored_artifact_parts id m = Ok a →
  artifact_view_of (<[id := m]> t) = <[id := a]> (artifact_view_of t).
Proof.
  intros Hp. apply map_eq. intros k. rewrite lookup_artifact_view.
  destruct (decide (k = id)) as [->|Hne].
  - rewrite !lookup_insert_eq. simpl. by rewrite Hp.
  - by rewrite !lookup_insert_ne, lookup_artifact_view by done.
Qed.

Lemma artifact_table_insert t id m a :
  artifact_table_ok t → am_id m = id → stored_artifact_parts id m = Ok a →
  artifact_table_ok (<[id := m]> t).
Proof.
  intros Hok Hid Hp k m' Hk. destruct (decide (k = id)) as [->|Hne].
  - rewrite lookup_insert_eq in Hk. simplify_eq. by rewrite Hp.
  - rewrite lookup_insert_ne in Hk by done. by apply Hok.
Qed.

Lemma artifact_view_row t id m :
  artifact_table_ok t → t !! id = Some m →
  ∃ a, stored_artifact_parts id m = Ok a ∧ artifact_view_of t !! id = Some a ∧ am_id m = id.
Proof.
  intros Hok Hm. destruct (Hok _ _ Hm) as [Hid Hp]. apply is_ok_true in Hp as [a Ha].
  exists a. split; [done|]. rewrite lookup_artifact_view, Hm. simpl. by rewrite Ha.
Qed.

Lemma artifact_view_none t id : t !! id = None → artifact_view_of t !! id = None.
Proof. intros Ht. by rewrite lookup_artifact_view, Ht. Qed.

(** Splits a successful run over the artifact rows into its calls. *)
Ltac inv_rows :=
  unfold find_artifact_model, insert_artifact_model, update_artifact_model in *; inv_run.

Section artifact_refinement.
Context (env : Env).
Implicit Types (w : World ArtifactTable).

Lemma declare_refines site a w w' r :
  artifact_table_ok (w_db w) → declarable a → declare_artifact env site a w = (w', r) →
  artifact_table_ok (w_db w') ∧
  match r with
  | Err _ => artifact_view_of (w_db w') = artifact_view_of (w_db w)
  | Ok () =>
      match artifact_view_of (w_db w) !! a_id a with
      | Some _ => artifact_view_of (w_db w') = artifact_view_of (w_db w)
      | None => artifact_view_of (w_db w') = <[a_id a := a]> (artifact_view_of (w_db w))
      end
  end.
Proof.
  intros Hok ((Hup & _) & Hsha & Hname) Hrun.
  apply gated_write in Hrun as [(e & -> & ->)|([] & w1 & w2 & -> & Hw1 & Hbody & ->)]; [done|].
  rewrite <- Hw1 in *. clear Hw1. inv_rows.
  match goal with Hx : w_db _ = w_db w1 |- _ => rename Hx into Hdb end.
  destruct (w_db w1 !! a_id a) as [m|] eqn:Hrow.
  - inv_run. rewrite Hdb in *. destruct (artifact_view_row _ _ _ Hok Hrow) as (b & _ & -> & _). done.
  - inv_run. rewrite (artifact_view_none _ _ Hrow).
    repeat match goal with Hi : stored_integer _ = Ok _ |- _ =>
      unfold stored_integer in Hi; case_decide; [injection Hi as <-|done] end.
    rewrite Hdb, Hrow in Hbody. injection Hbody as <-.
    match goal with |- artifact_table_ok (<[_ := ?m]> _) ∧ _ =>
      assert (stored_artifact_parts (a_id a) m = Ok a) as Hp end.
    { rewrite (parts_intro _ _ (a_name a) (a_sha256 a) (a_state a)); simpl; [by destruct a|..]; try done; try lia.
      - by apply parse_bounded_name_roundtrip.
      - by apply Sha256Hex_parse_fix. }
    split; [by eapply artifact_table_insert | by apply artifact_view_insert].
Qed.

(** A read transaction changes nothing. *)
Lemma read_transaction {A} (body : M (World ArtifactTable) ArtifactRepositoryError A) w w' r :
  (∀ w w' a, body w = (w', Ok a) → w_db w' = w_db w) →
  transaction env body w = (w', r) → w_db w' = w_db w.
Proof.
  intros Hb Hrun. destruct r as [a|e]; [|by eapply transaction_err].
  apply transaction_ok in Hrun as (w1 & w2 & Hw1 & Hbody & ->). rewrite <- Hw1. by eapply Hb.
Qed.

Lemma find_artifact_refines id w w' r :
  artifact_table_ok (w_db w) → find_artifact env id w = (w', r) →
  w_db w' = w_db w ∧
  match r with Ok o => artifact_view_of (w_db w) !! id = o | Err _ => True end.
Proof.
  intros Hok Hrun. destruct r as [o|e]; [|split; [by eapply transaction_err|done]].
  apply transaction_ok in Hrun as (w1 & w2 & Hw1 & Hbody & ->). rewrite <- Hw1 in *. inv_rows.
  match goal with Hx : w_db _ = w_db w1 |- _ => rename Hx into Hdb end.
  destruct (w_db w1 !! id) as [m|] eqn:Hrow; inv_run.
  - split; [done|]. rewrite lookup_artifact_view, Hrow. simpl.
    match goal with Hm : map_stored_artifact _ _ = Ok _ |- _ => apply map_stored_inv in Hm as -> end. done.
  - split; [done|]. by apply artifact_view_none.
Qed.

Lemma update_artifact_refines id uploaded st at_ w w' r :
  artifact_table_ok (w_db w) → 0 ≤ uploaded → update_artifact env id uploaded st at_ w = (w', r) →
  artifact_table_ok (w_db w') ∧
  match r with
  | Err _ => artifact_view_of (w_db w') = artifact_view_of (w_db w)
  | Ok () => ∃ a, artifact_view_of (w_db w) !! id = Some a ∧ update_allowed a uploaded st ∧
      artifact_view_of (w_db w') = <[id := artifact_updated a uploaded st at_]> (artifact_view_of (w_db w))
  end.
Proof.
  intros Hok H0 Hrun.
  apply gated_write in Hrun as [(e & -> & ->)|([] & w1 & w2 & -> & Hw1 & Hbody & ->)]; [done|].
  rewrite <- Hw1 in *. clear Hw1. inv_rows.
  match goal with Hx : w_db _ = w_db w1 |- _ => rename Hx into Hdb end.
  match goal with Hr : w_db w1 !! id = Some ?m0 |- _ => rename Hr into Hrow; rename m0 into m end.
  destruct (artifact_view_row _ _ _ Hok Hrow) as (a & Hp & Hv & Hid).
  destruct (parts_inv _ _ _ Hp) as (Haid & Hst & Hsz & Hsz0 & Hup & Hup0 & Hc & Hu & Hn & Hs).
  match goal with Hx : ArtifactState_from_str _ = Ok ?st0 |- _ =>
    rewrite Hst, artifact_state_parse in Hx; injection Hx as <- end.
  destruct (artifact_terminal (a_state a)) eqn:Hterm; [inv_run|]. inv_run.
  repeat match goal with Hu : u64_try_from _ = Some _ |- _ => apply u64_try_from_Some in Hu as [-> ?] end.
  revert Hbody. destruct (Z.ltb_spec uploaded (am_uploaded_bytes m)); [intros; inv_run|].
  destruct (Z.ltb_spec (am_size_bytes m) uploaded); [intros; inv_run|].
  destruct (decide (st = Ready ∧ uploaded ≠ am_size_bytes m)) as [|Hready]; intros Hbody; inv_run.
  match goal with Hi : stored_integer _ = Ok _ |- _ =>
    unfold stored_integer in Hi; case_decide; [injection Hi as <-|done] end.
  rewrite Hdb, Hrow in Hbody. injection Hbody as <-.
  match goal with |- artifact_table_ok (<[_ := ?m]> _) ∧ _ =>
    assert (stored_artifact_parts (am_id m) m = Ok (artifact_updated a uploaded st at_)) as Hp' end.
  { simpl. rewrite (parts_intro _ _ (a_name a) (a_sha256 a) st); simpl; try done; try lia.
    unfold artifact_updated. by rewrite Hc, Haid, Hsz. }
  simpl in Hp'.
  split; [by eapply artifact_table_insert|]. exists a. split; [done|]. split.
  - split; [by destruct (a_state a)|]. split; [lia|]. intros ->. rewrite <- Hsz.
    destruct (decide (uploaded = am_size_bytes m)); [done|]. by destruct Hready.
  - by apply artifact_view_insert.
Qed.

(** *** Listings *)

#[local] Instance artifact_model_le_trans : Transitive artifact_model_le.
Proof. intros x y z. unfold artifact_model_le. lia. Qed.
#[local] Instance artifact_model_le_total : Total artifact_model_le.
Proof. intros x y. unfold artifact_model_le. lia. Qed.

Lemma artifact_table_keyed t : artifact_table_ok t → rows_keyed am_id t.
Proof. intros Hok id m Hm. by apply Hok in Hm as [? _]. Qed.

Lemma artifact_rows_elem t st m :
  artifact_table_ok t →
  m ∈ artifact_rows st t ↔ t !! am_id m = Some m ∧ am_state m = ArtifactState_as_str st.
Proof. intros Hok. by apply (rows_spec am_id), artifact_table_keyed. Qed.

Lemma artifact_rows_NoDup t st : artifact_table_ok t → NoDup (am_id <$> artifact_rows st t).
Proof. intros Hok. by apply rows_keys_NoDup, artifact_table_keyed. Qed.

Lemma traverse_map_ok models w w' l :
  mtraverse (λ model, mlift (map_stored_artifact (am_id model) model)) models w = (w', Ok l) →
  w_db w' = w_db w ∧ Forall2 (λ m a, stored_artifact_parts (am_id m) m = Ok a) models l.
Proof.
  revert w l. induction models as [|m models IH]; intros w l Hrun; cbn [mtraverse] in Hrun; inv_run.
  - split; [done | constructor].
  - match goal with Hl : map_stored_artifact _ _ = Ok _ |- _ => apply map_stored_inv in Hl end.
    match goal with Ht : mtraverse _ _ _ = _ |- _ => apply IH in Ht as [Hdb' Hf] end.
    split; [congruence | by constructor].
Qed.

Lemma listed_sorted models l :
  Forall2 (λ m a, stored_artifact_parts (am_id m) m = Ok a) models l →
  Sorted artifact_model_le models → Sorted artifact_le l.
Proof.
  induction 1 as [|m o models l Hd Hf IH]; intros Hs; [constructor|].
  apply Sorted_inv in Hs as [Hs Hhd]. constructor; [by apply IH|].
  destruct Hf as [|m' o' models l Hd' Hf]; [constructor|]. constructor. apply HdRel_inv in Hhd.
  apply parts_inv in Hd as (Hid & _ & _ & _ & _ & _ & Hc & _).
  apply parts_inv in Hd' as (Hid' & _ & _ & _ & _ & _ & Hc' & _).
  unfold artifact_model_le in Hhd. unfold artifact_le. congruence.
Qed.

Lemma list_artifacts_refines st w w' r :
  artifact_table_ok (w_db w) → list_artifacts_by_state env st w = (w', r) →
  w_db w' = w_db w ∧
  match r with
  | Ok l => Sorted artifact_le l ∧ NoDup l ∧
            ∀ a, a ∈ l ↔ artifact_view_of (w_db w) !! a_id a = Some a ∧ a_state a = st
  | Err _ => True
  end.
Proof.
  intros Hok Hrun. destruct r as [l|e]; [|split; [by eapply transaction_err|done]].
  apply transaction_ok in Hrun as (w1 & w2 & Hw1 & Hbody & ->). rewrite <- Hw1 in *. clear Hw1 w. inv_run.
  apply traverse_map_ok in Hbody as [Hdb Hf].
  match goal with Hx : w_db _ = w_db w1 |- _ => rewrite Hx in Hdb end. split; [done|].
  split; [eapply listed_sorted; [exact Hf|apply Sorted_merge_sort, _]|].
  assert (a_id <$> l = am_id <$> artifact_rows st (w_db w1)) as Hids.
  { clear -Hf. induction Hf as [|m o models l Hd Hf IH]; [done|]. simpl. f_equal; [|done].
    by apply parts_inv in Hd as [-> _]. }
  split; [apply (NoDup_fmap_1 a_id); rewrite Hids; by apply artifact_rows_NoDup|].
  intros a. split.
  - intros [i Ha]%list_elem_of_lookup. destruct (Forall2_lookup_r _ _ _ _ _ Hf Ha) as (m & Hm & Hd).
    apply list_elem_of_lookup_2, artifact_rows_elem in Hm as [Hm Hst]; [|done].
    pose proof Hd as (Hid & Hst' & _)%parts_inv. rewrite Hid, lookup_artifact_view, Hm. simpl.
    rewrite Hd. split; [done|]. rewrite Hst in Hst'. by apply artifact_state_inj in Hst'.
  - intros [Hv Hst]. rewrite lookup_artifact_view in Hv.
    destruct (w_db w1 !! a_id a) as [m|] eqn:Hrow; simpl in Hv; [|done].
    destruct (Hok _ _ Hrow) as [Hid _].
    destruct (stored_artifact_parts (a_id a) m) as [a'|] eqn:Hd; [|done]. simpl in Hv. simplify_eq.
    assert (m ∈ artifact_rows (a_state a) (w_db w1)) as Hm.
    { apply artifact_rows_elem; [done|]. rewrite Hid. split; [done|]. by apply parts_inv in Hd as (_ & -> & _). }
    apply list_elem_of_lookup in Hm as [i Hm].
    destruct (Forall2_lookup_l _ _ _ _ _ Hf Hm) as (a' & Ha' & Hd').
    rewrite Hid, Hd in Hd'. simplify_eq. by apply list_elem_of_lookup_2 in Ha'.
Qed.
End artifact_refinement.

(** ** The contract, discharged *)

Definition sqlite_artifacts (env : Env) : ArtifactRepository (World ArtifactTable) ArtifactRepositoryError :=
  {| ar_create_artifact := create_artifact env;
     ar_find_artifact := find_artifact env;
     ar_list_artifacts_by_state := list_artifacts_by_state env;
     ar_update_artifact := update_artifact env |}.

#[refine] Definition sqlite_artifact_laws (env : Env) :
  @ArtifactRepositoryLaws (World ArtifactTable) ArtifactRepositoryError (sqlite_artifacts env) :=
  {| artifact_view w := artifact_view_of (w_db w);
     artifact_rows_ok w := artifact_table_ok (w_db w) |}.
Proof.
  - intros w id a _ Hv. rewrite lookup_artifact_view in Hv.
    destruct (w_db w !! id) as [m|]; simpl in Hv; [|done].
    destruct (stored_artifact_parts id m) eqn:Hp; simplify_eq/=. by apply parts_inv in Hp as [? _].
  - intros a w w' r Hok Ha. by apply declare_refines.
  - intros id w w' r Hok Hrun. apply find_artifact_refines in Hrun as [-> Hr]; done.
  - intros st w w' r Hok Hrun. apply list_artifacts_refines in Hrun as [-> Hr]; done.
  - intros id uploaded st at_ w w' r Hok H0. by apply update_artifact_refines.
Defined.
