(* ===== verification/ArtifactStore.v ===== *)
(** * ArtifactStore: the firmware upload

    Models [application/src/artifact_store.rs]: declaring an artifact, appending
    base64 chunks to its file at the resume offset, and the digest check that
    makes it ready.  The file system is a map from identity to bytes whose calls
    may fail or write only a part; [base64] and SHA-256 are parameters.  The
    methods are cut where they await a boundary, so that the same pieces serve
    one call on its own and any interleaving of calls. *)
From S2P Require Import Prelude Text Operation Database Artifact ArtifactRepository.
Local Open Scope Z_scope.

Definition ARTIFACT_CHUNK_BASE64_MAX_BYTES : Z := 4 * 1024 * 1024.
Definition ARTIFACT_MAX_SIZE_BYTES : Z := 2 * 1024 * 1024 * 1024.

(** What a file write does: all of it, nothing, or a first part. *)
Inductive WriteOutcome := WriteDone | WriteRefused | WriteTorn (written : nat).

(** The file system's answers, by the number of file calls made so far. *)
Record IoEnv := mk_io_env {
  io_write : nat → WriteOutcome;
  io_read_fails : nat → bool;
}.

(** The repository, the artifact files, the number of file calls. *)
Record Node (S : Type) := mk_node {
  n_repo : S;
  n_files : gmap ArtifactId (list N);
  n_io : nat;
}.
Arguments mk_node {S}.
Arguments n_repo {S}.
Arguments n_files {S}.
Arguments n_io {S}.

Record ArtifactProgress := mk_progress {
  pr_artifact_id : ArtifactId;
  pr_uploaded_bytes : Z;
  pr_size_bytes : Z;
}.

Inductive ArtifactStoreError (E : Type) :=
| StoreNotFound (artifact_id : ArtifactId)
| StoreInvalidName (e : BoundedNameError)
| StoreInvalidSha256 (e : Sha256HexParseError)
| ZeroSize
| SizeExceedsLimit (size_bytes maximum : Z)
| InvalidBase64
| ChunkTooLarge (requested maximum : Z)
| ChunkExceedsSize (offset chunk size : Z)
| OutOfOrder (offset uploaded_bytes : Z)
| NotUploading (artifact_id : ArtifactId) (state : ArtifactState)
| AlreadyFailed (artifact_id : ArtifactId)
| FinalizeFailed (artifact_id : ArtifactId) (artifact : Artifact) (reason : str)
| StoreDomain (e : ArtifactError)
| StoreRestore (e : ArtifactRestoreError)
| StoreFile
| StoreRepository (e : E).
Arguments StoreNotFound {E}.
Arguments StoreInvalidName {E}.
Arguments StoreInvalidSha256 {E}.
Arguments ZeroSize {E}.
Arguments SizeExceedsLimit {E}.
Arguments InvalidBase64 {E}.
Arguments ChunkTooLarge {E}.
Arguments ChunkExceedsSize {E}.
Arguments OutOfOrder {E}.
Arguments NotUploading {E}.
Arguments AlreadyFailed {E}.
Arguments FinalizeFailed {E}.
Arguments StoreDomain {E}.
Arguments StoreRestore {E}.
Arguments StoreFile {E}.
Arguments StoreRepository {E}.

(** Seek to [offset] and write: the file grows if needed, with zeroes over a
    gap. *)
Definition write_at (offset : nat) (data f : list N) : list N :=
  take offset (f ++ replicate (offset - length f) 0%N) ++ data ++ drop (offset + length data) f.

Definition file_of (files : gmap ArtifactId (list N)) (id : ArtifactId) : list N :=
  default [] (files !! id).

Definition progress_of (a : Artifact) : ArtifactProgress :=
  mk_progress (a_id a) (a_uploaded_bytes a) (a_size_bytes a).

(** The two reasons of [finalize]. *)
Definition incomplete_reason (a : Artifact) : str :=
  lit "upload is incomplete: " ++ decimal (Z.to_N (a_uploaded_bytes a)) ++ lit " of " ++
  decimal (Z.to_N (a_size_bytes a)) ++ lit " bytes received".
Definition mismatch_reason (a : Artifact) (computed : str) : str :=
  lit "SHA-256 verification failed: expected " ++ a_sha256 a ++ lit ", computed " ++ computed.

Section store.
Context (sha256 : list N → list N) (base64_decode : str → option (list N)) (io : IoEnv).
Context {S E : Type} `{ArtifactRepository S E}.

Abbreviation Op := (M (Node S) (ArtifactStoreError E)).

(** A call of the repository boundary. *)
Definition at_repo {A} (m : M S E A) : Op A :=
  λ n, let '(s, r) := m (n_repo n) in
       (mk_node s (n_files n) (n_io n), map_err StoreRepository r).

(** [write_chunk]. *)
Definition write_chunk (id : ArtifactId) (offset : Z) (data : list N) : Op () :=
  λ n,
    let f := file_of (n_files n) id in
    let put d := <[id := write_at (Z.to_nat offset) d f]> (n_files n) in
    let after files := mk_node (n_repo n) files (Datatypes.S (n_io n)) in
    match io_write io (n_io n) with
    | WriteDone => (after (put data), Ok ())
    | WriteRefused => (after (n_files n), Err StoreFile)
    | WriteTorn written => (after (put (take written data)), Err StoreFile)
    end.

(** [hash_file]: a file that does not exist cannot be opened. *)
Definition hash_file (id : ArtifactId) : Op str :=
  λ n,
    let n' := mk_node (n_repo n) (n_files n) (Datatypes.S (n_io n)) in
    match n_files n !! id with
    | Some f => if io_read_fails io (n_io n) then (n', Err StoreFile)
                else (n', Ok (Sha256Hex_from_bytes (sha256 f)))
    | None => (n', Err StoreFile)
    end.

(** [create], with the identity [ArtifactId::generate] drew. *)
Definition create (id : ArtifactId) (name : str) (size_bytes : Z) (sha : str) (now : OffsetDateTime)
    : Op Artifact :=
  if decide (size_bytes = 0) then mfail ZeroSize
  else if ARTIFACT_MAX_SIZE_BYTES <? size_bytes
  then mfail (SizeExceedsLimit size_bytes ARTIFACT_MAX_SIZE_BYTES)
  else
    let! name := mlift (map_err StoreInvalidName (ArtifactName_parse name)) in
    let! sha := mlift (map_err StoreInvalidSha256 (Sha256Hex_parse sha)) in
    let artifact := Artifact_new id name size_bytes sha now in
    do! at_repo (ar_create_artifact artifact) in
    mret artifact.

(** The checks of [append_chunk] on the artifact it read: an answer without any
    write, or the bytes to write. *)
Definition append_decide (artifact_id : ArtifactId) (artifact : Artifact) (offset : Z) (data_base64 : str)
    : result (ArtifactProgress + list N) (ArtifactStoreError E) :=
  if artifact_terminal (a_state artifact)
  then Err (NotUploading artifact_id (a_state artifact))
  else
    let requested := Z.of_N (str_len data_base64) in
    if ARTIFACT_CHUNK_BASE64_MAX_BYTES <? requested
    then Err (ChunkTooLarge requested ARTIFACT_CHUNK_BASE64_MAX_BYTES)
    else
      let? decoded := ok_or (base64_decode data_base64) InvalidBase64 in
      if decide (decoded = []) then Ok (inl (progress_of artifact))
      else if offset <? a_uploaded_bytes artifact then Ok (inl (progress_of artifact))
      else if a_uploaded_bytes artifact <? offset
      then Err (OutOfOrder offset (a_uploaded_bytes artifact))
      else
        let chunk_bytes := Z.of_nat (length decoded) in
        match checked_add_u64 offset chunk_bytes with
        | None => Err (ChunkExceedsSize offset chunk_bytes (a_size_bytes artifact))
        | Some end_ =>
            if a_size_bytes artifact <? end_
            then Err (ChunkExceedsSize offset chunk_bytes (a_size_bytes artifact))
            else Ok (inr decoded)
        end.

(** [append_chunk] up to the file write. *)
Definition append_read (artifact_id : ArtifactId) (offset : Z) (data_base64 : str)
    : Op (ArtifactProgress + (Artifact * list N)) :=
  let! found := at_repo (ar_find_artifact artifact_id) in
  let! artifact := mlift (ok_or found (StoreNotFound artifact_id)) in
  let! decision := mlift (append_decide artifact_id artifact offset data_base64) in
  mret (match decision with inl p => inl p | inr decoded => inr (artifact, decoded) end).

(** [append_chunk] after the file write. *)
Definition append_record (artifact_id : ArtifactId) (artifact : Artifact) (decoded : list N)
    (now : OffsetDateTime) : Op ArtifactProgress :=
  let! artifact' := mlift (map_err StoreDomain
    (record_bytes_received artifact (Z.of_nat (length decoded)))) in
  do! at_repo (ar_update_artifact artifact_id (a_uploaded_bytes artifact') Uploading now) in
  mret (progress_of artifact').

Definition append_chunk (artifact_id : ArtifactId) (offset : Z) (data_base64 : str)
    (now : OffsetDateTime) : Op ArtifactProgress :=
  let! decision := append_read artifact_id offset data_base64 in
  match decision with
  | inl p => mret p
  | inr (artifact, decoded) =>
      do! write_chunk artifact_id offset decoded in
      append_record artifact_id artifact decoded now
  end.

(** [fail]. *)
Definition fail (artifact : Artifact) (now : OffsetDateTime) (reason : str) : Op Artifact :=
  let! failed := mlift (map_err StoreDomain (mark_failed artifact)) in
  do! at_repo (ar_update_artifact (a_id failed) (a_uploaded_bytes failed) ArtifactFailed now) in
  let! failed := mlift (map_err StoreRestore
    (Artifact_try_from_parts (a_id failed) (a_name failed) (a_size_bytes failed) (a_sha256 failed)
       ArtifactFailed (a_uploaded_bytes failed) (a_created_at failed) now)) in
  mfail (FinalizeFailed (a_id failed) failed reason).

(** [finalize] up to the verdict: [inl] is an artifact that is ready already. *)
Definition finalize_read (artifact_id : ArtifactId) : Op (Artifact + Artifact) :=
  let! found := at_repo (ar_find_artifact artifact_id) in
  let! artifact := mlift (ok_or found (StoreNotFound artifact_id)) in
  match a_state artifact with
  | Ready => mret (inl artifact)
  | ArtifactFailed => mfail (AlreadyFailed artifact_id)
  | Uploading => mret (inr artifact)
  end.

(** [finalize] after the hash. *)
Definition finalize_verdict (artifact_id : ArtifactId) (artifact : Artifact) (computed : str)
    (now : OffsetDateTime) : Op Artifact :=
  if decide (computed ≠ a_sha256 artifact)
  then fail artifact now (mismatch_reason artifact computed)
  else
    let! ready := mlift (map_err StoreDomain (mark_ready artifact)) in
    do! at_repo (ar_update_artifact artifact_id (a_uploaded_bytes ready) Ready now) in
    mlift (map_err StoreRestore
      (Artifact_try_from_parts (a_id ready) (a_name ready) (a_size_bytes ready) (a_sha256 ready)
         Ready (a_uploaded_bytes ready) (a_created_at ready) now)).

Definition finalize (artifact_id : ArtifactId) (now : OffsetDateTime) : Op Artifact :=
  let! read := finalize_read artifact_id in
  match read with
  | inl ready => mret ready
  | inr artifact =>
      if a_uploaded_bytes artifact <? a_size_bytes artifact
      then fail artifact now (incomplete_reason artifact)
      else
        let! computed := hash_file artifact_id in
        finalize_verdict artifact_id artifact computed now
  end.

(** [list]: the three phases one after the other, sorted. *)
Definition artifact_list : Op (list Artifact) :=
  let! uploading := at_repo (ar_list_artifacts_by_state Uploading) in
  let! ready := at_repo (ar_list_artifacts_by_state Ready) in
  let! failed := at_repo (ar_list_artifacts_by_state ArtifactFailed) in
  mret (merge_sort artifact_le (uploading ++ ready ++ failed)).

(** [find] and [progress]. *)
Definition artifact_find (artifact_id : ArtifactId) : Op (option Artifact) :=
  at_repo (ar_find_artifact artifact_id).
Definition artifact_progress (artifact_id : ArtifactId) : Op ArtifactProgress :=
  let! found := at_repo (ar_find_artifact artifact_id) in
  let! artifact := mlift (ok_or found (StoreNotFound artifact_id)) in
  mret (progress_of artifact).

(** ** Calls in flight

    Every request may be interleaved with every other at its awaits, and dropped
    between them. *)
Inductive Task :=
| TWrite (id : ArtifactId) (artifact : Artifact) (offset : Z) (decoded : list N) (now : OffsetDateTime)
| TRecord (id : ArtifactId) (artifact : Artifact) (decoded : list N) (now : OffsetDateTime)
| TFail (artifact : Artifact) (now : OffsetDateTime) (reason : str)
| THash (id : ArtifactId) (artifact : Artifact) (now : OffsetDateTime)
| TVerdict (id : ArtifactId) (artifact : Artifact) (computed : str) (now : OffsetDateTime).

(** One resumption of a call: the node after it, and what the call awaits next. *)
Definition resume (n : Node S) (t : Task) : Node S * list Task :=
  match t with
  | TWrite id artifact offset decoded now =>
      match write_chunk id offset decoded n with
      | (n', Ok _) => (n', [TRecord id artifact decoded now])
      | (n', Err _) => (n', [])
      end
  | TRecord id artifact decoded now => ((append_record id artifact decoded now n).1, [])
  | TFail artifact now reason => ((fail artifact now reason n).1, [])
  | THash id artifact now =>
      match hash_file id n with
      | (n', Ok computed) => (n', [TVerdict id artifact computed now])
      | (n', Err _) => (n', [])
      end
  | TVerdict id artifact computed now => ((finalize_verdict id artifact computed now n).1, [])
  end.

Inductive Action :=
| ACreate (id : ArtifactId) (name : str) (size_bytes : Z) (sha : str) (now : OffsetDateTime)
| AAppend (id : ArtifactId) (offset : Z) (data_base64 : str) (now : OffsetDateTime)
| AFinalize (id : ArtifactId) (now : OffsetDateTime)
| AResume (i : nat)
| ADrop (i : nat).

Definition act (c : Node S * list Task) (a : Action) : Node S * list Task :=
  let '(n, ts) := c in
  match a with
  | ACreate id name size sha now => ((create id name size sha now n).1, ts)
  | AAppend id offset text now =>
      match append_read id offset text n with
      | (n', Ok (inr (artifact, decoded))) => (n', TWrite id artifact offset decoded now :: ts)
      | (n', _) => (n', ts)
      end
  | AFinalize id now =>
      match finalize_read id n with
      | (n', Ok (inr artifact)) =>
          (n', (if a_uploaded_bytes artifact <? a_size_bytes artifact
                then TFail artifact now (incomplete_reason artifact)
                else THash id artifact now) :: ts)
      | (n', _) => (n', ts)
      end
  | AResume i =>
      match ts !! i with
      | Some t => let '(n', next) := resume n t in (n', next ++ delete i ts)
      | None => c
      end
  | ADrop i => (n, delete i ts)
  end.

Definition acts (c : Node S * list Task) (actions : list Action) : Node S * list Task :=
  foldl act c actions.
End store.

(** ** File contents *)

(** [f] is the start of [source]. *)
Definition begins (source f : list N) : Prop := f = take (length f) source.

Lemma write_at_begins source f offset data :
  begins source f → (offset ≤ length f)%nat → data = take (length data) (drop offset source) →
  begins source (write_at offset data f) ∧
  length (write_at offset data f) = Nat.max (length f) (offset + length data).
Proof.
  intros Hf Ho Hd. unfold write_at.
  replace (offset - length f)%nat with 0%nat by lia. rewrite app_nil_r.
  assert (length (take offset f ++ data ++ drop (offset + length data) f) =
    Nat.max (length f) (offset + length data)) as Hlen.
  { rewrite !length_app, length_take, length_drop. lia. }
  split; [|done]. unfold begins. rewrite Hlen. set (k := length f) in *.
  set (m := length data) in *. rewrite Hf, Hd. rewrite take_take, Nat.min_l by done.
  rewrite app_assoc, take_take_drop.
  destruct (decide (k ≤ offset + m)%nat) as [Hle|Hgt].
  - rewrite drop_ge, app_nil_r by (rewrite length_take; lia). f_equal. lia.
  - rewrite <- (take_drop (offset + m) (take (Nat.max k (offset + m)) source)).
    rewrite take_take, Nat.min_l by lia. f_equal. f_equal. f_equal. lia.
Qed.

(** Whatever is written at or behind a position leaves what is before it. *)
Lemma write_at_before offset data f n :
  (n ≤ offset)%nat → (n ≤ length f)%nat → take n (write_at offset data f) = take n f.
Proof.
  intros Hn Hf. unfold write_at. rewrite take_app_le by (rewrite length_take, length_app, length_replicate; lia).
  rewrite take_take, Nat.min_l by lia. by rewrite take_app_le by lia.
Qed.

Lemma write_at_length offset data f :
  length (write_at offset data f) = Nat.max (length f) (offset + length data).
Proof.
  unfold write_at. rewrite !length_app, length_take, length_app, length_replicate, length_drop. lia.
Qed.

(** Two starts of one length are equal. *)
Lemma begins_eq source f g : begins source f → begins source g → length f = length g → f = g.
Proof.
  intros Hf Hg Hl. transitivity (take (length f) source); [exact Hf|]. rewrite Hl. by symmetry.
Qed.

(** ** The checks of a chunk *)

Lemma append_decide_inr {E} base64_decode id a offset text d :
  append_decide (E := E) base64_decode id a offset text = Ok (inr d) →
  a_state a = Uploading ∧ base64_decode text = Some d ∧ d ≠ [] ∧ offset = a_uploaded_bytes a ∧
  offset + Z.of_nat (length d) ≤ a_size_bytes a.
Proof.
  unfold append_decide. destruct (artifact_terminal (a_state a)) eqn:Ht; [done|].
  destruct (ARTIFACT_CHUNK_BASE64_MAX_BYTES <? _); [done|].
  destruct (base64_decode text) as [d0|]; simpl; [|done]. case_decide; [done|].
  destruct (Z.ltb_spec offset (a_uploaded_bytes a)); [done|].
  destruct (Z.ltb_spec (a_uploaded_bytes a) offset); [done|].
  destruct (checked_add_u64 _ _) as [e|] eqn:Hc; [|done]. apply checked_add_u64_Some in Hc as [-> _].
  destruct (Z.ltb_spec (a_size_bytes a) (offset + Z.of_nat (length d0))); [done|].
  intros [= <-]. split; [by destruct (a_state a)|]. split_and!; (done || lia).
Qed.

Lemma append_decide_inl {E} base64_decode id a offset text p :
  append_decide (E := E) base64_decode id a offset text = Ok (inl p) →
  a_state a = Uploading ∧ p = progress_of a ∧
  (base64_decode text = Some [] ∨ offset < a_uploaded_bytes a).
Proof.
  unfold append_decide. destruct (artifact_terminal (a_state a)) eqn:Ht; [done|].
  assert (a_state a = Uploading) by (by destruct (a_state a)).
  destruct (ARTIFACT_CHUNK_BASE64_MAX_BYTES <? _); [done|].
  destruct (base64_decode text) as [d0|]; simpl; [|done].
  case_decide; [intros [= <-]; subst; auto|].
  destruct (Z.ltb_spec offset (a_uploaded_bytes a)); [intros [= <-]; auto|].
  destruct (Z.ltb_spec (a_uploaded_bytes a) offset); [done|].
  destruct (checked_add_u64 _ _) as [e|]; [|done].
  by destruct (a_size_bytes a <? e).
Qed.

(** ** Safety under interleaving *)

Section safety.
Context (sha256 : list N → list N) (base64_decode : str → option (list N)) (io : IoEnv).
Context {S E : Type} `{Hlaws : ArtifactRepositoryLaws S E}.
(** The bytes the client of each artifact uploads. *)
Context (source : ArtifactId → list N).

Implicit Types (n : Node S).

Definition digest_of (f : list N) : str := Sha256Hex_from_bytes (sha256 f).
Definition rows n : ArtifactView := artifact_view (n_repo n).

(** The requests of clients that always send the same bytes for an offset; the
    integers of a request are unsigned. *)
Definition honest (a : Action) : Prop :=
  match a with
  | ACreate _ _ size _ _ => 0 ≤ size
  | AAppend id offset text _ =>
      0 ≤ offset ∧ ∀ d, base64_decode text = Some d →
        d = take (length d) (drop (Z.to_nat offset) (source id))
  | _ => True
  end.

Definition row_inv n (id : ArtifactId) (a : Artifact) : Prop :=
  let f := file_of (n_files n) id in
  begins (source id) f ∧ 0 ≤ a_uploaded_bytes a ≤ Z.of_nat (length f) ∧
  Z.of_nat (length f) ≤ a_size_bytes a ∧ a_size_bytes a ≤ U64_MAX ∧
  (a_state a = Ready → a_uploaded_bytes a = a_size_bytes a ∧ digest_of f = a_sha256 a).

Definition node_inv n : Prop :=
  artifact_rows_ok (n_repo n) ∧ (∀ id a, rows n !! id = Some a → row_inv n id a) ∧
  (∀ id, rows n !! id = None → n_files n !! id = None).

(** An earlier reading [a] of the row of [id]. *)
Definition snapshot n (id : ArtifactId) (a : Artifact) : Prop :=
  a_id a = id ∧ a_state a = Uploading ∧ 0 ≤ a_uploaded_bytes a ∧
  ∃ row, rows n !! id = Some row ∧ a_size_bytes row = a_size_bytes a ∧
    a_sha256 row = a_sha256 a ∧ a_uploaded_bytes a ≤ a_uploaded_bytes row.

Definition task_inv n (t : Task) : Prop :=
  match t with
  | TWrite id a offset d _ =>
      snapshot n id a ∧ offset = a_uploaded_bytes a ∧
      offset + Z.of_nat (length d) ≤ a_size_bytes a ∧
      d = take (length d) (drop (Z.to_nat offset) (source id))
  | TRecord id a d _ =>
      snapshot n id a ∧
      a_uploaded_bytes a + Z.of_nat (length d) ≤ Z.of_nat (length (file_of (n_files n) id))
  | TFail a _ _ => snapshot n (a_id a) a
  | THash id a _ => snapshot n id a ∧ a_size_bytes a ≤ a_uploaded_bytes a
  | TVerdict id a computed _ =>
      snapshot n id a ∧ a_size_bytes a ≤ a_uploaded_bytes a ∧ computed = digest_of (file_of (n_files n) id)
  end.

(** Rows keep their manifest and their progress, and files only grow. *)
Definition grows n n' : Prop :=
  ∀ id row, rows n !! id = Some row →
    (length (file_of (n_files n) id) ≤ length (file_of (n_files n') id))%nat ∧
    ∃ row', rows n' !! id = Some row' ∧ a_size_bytes row' = a_size_bytes row ∧
      a_sha256 row' = a_sha256 row ∧ a_uploaded_bytes row ≤ a_uploaded_bytes row'.

Lemma snapshot_stable n n' id a : grows n n' → snapshot n id a → snapshot n' id a.
Proof.
  intros Hg (Hid & Hst & H0 & row & Hrow & Hsz & Hsha & Hup).
  destruct (Hg _ _ Hrow) as (_ & row' & Hrow' & ? & ? & ?).
  split_and!; [done..|]. exists row'. split_and!; [done|congruence|congruence|lia].
Qed.

(** A complete file no longer changes. *)
Lemma complete_file_fixed n n' id a :
  node_inv n → node_inv n' → grows n n' → snapshot n id a → a_size_bytes a ≤ a_uploaded_bytes a →
  file_of (n_files n') id = file_of (n_files n) id.
Proof.
  intros (_ & Hn & _) (_ & Hn' & _) Hg (_ & _ & _ & row & Hrow & Hsz & _ & Hup) Hfull.
  destruct (Hg _ _ Hrow) as (Hlen & row' & Hrow' & Hsz' & _ & _).
  destruct (Hn _ _ Hrow) as (Hb & ? & ? & _). destruct (Hn' _ _ Hrow') as (Hb' & ? & ? & _).
  apply (begins_eq (source id)); [done..|]. lia.
Qed.

Lemma task_stable n n' t :
  node_inv n → node_inv n' → grows n n' → task_inv n t → task_inv n' t.
Proof.
  intros Hn Hn' Hg Ht. destruct t as [id a off d now|id a d now|a now r|id a now|id a c now]; simpl in *.
  - destruct Ht as (Hs & ?). split; [by eapply snapshot_stable|done].
  - destruct Ht as (Hs & Hl). split; [by eapply snapshot_stable|].
    destruct Hs as (_ & _ & _ & row & Hrow & _). destruct (Hg _ _ Hrow) as (? & _). lia.
  - by eapply snapshot_stable.
  - destruct Ht as (Hs & ?). split; [by eapply snapshot_stable|done].
  - destruct Ht as (Hs & Hf & ->). split; [by eapply snapshot_stable|]. split; [done|].
    by rewrite (complete_file_fixed n n' id a).
Qed.

(** A call that leaves rows and files alone. *)
Lemma unchanged_node n s k :
  node_inv n → artifact_rows_ok s → artifact_view s = rows n →
  node_inv (mk_node s (n_files n) k) ∧ grows n (mk_node s (n_files n) k).
Proof.
  intros (Hok & Hrows & Hfiles) Hok' Hv. split.
  - unfold node_inv, row_inv, rows. simpl. rewrite Hv. done.
  - intros id row Hrow. split; [done|]. exists row. unfold rows in *. simpl. rewrite Hv. done.
Qed.

Lemma repo_read {A} (m : M S E A) n n' r :
  node_inv n → at_repo m n = (n', r) →
  (∀ s s' r, artifact_rows_ok s → m s = (s', r) → artifact_rows_ok s' ∧ artifact_view s' = artifact_view s) →
  node_inv n' ∧ grows n n' ∧ rows n' = rows n.
Proof.
  intros Hn Hrun Hm. unfold at_repo in Hrun. destruct (m (n_repo n)) as [s r0] eqn:Hs.
  injection Hrun as <- <-. destruct (Hm _ _ _ (proj1 Hn) Hs) as [Hok Hv].
  destruct (unchanged_node n s (n_io n) Hn Hok Hv). done.
Qed.

Lemma repo_find id n n' r :
  node_inv n → at_repo (ar_find_artifact id) n = (n', r) →
  node_inv n' ∧ grows n n' ∧ rows n' = rows n ∧ ∀ o, r = Ok o → rows n !! id = o.
Proof.
  intros Hn Hrun. assert (Hrun' := Hrun). eapply repo_read in Hrun as (H1 & H2 & H3); [|done|].
  - split_and!; [done..|]. intros o ->. unfold at_repo in Hrun'.
    destruct (ar_find_artifact id (n_repo n)) as [s [o'|e]] eqn:Hs; [|done].
    injection Hrun' as <- <-. eapply ar_find_spec in Hs as (_ & _ & Hr); [done|apply Hn].
  - intros s s' r0 Hok Hs. eapply ar_find_spec in Hs as (? & ? & _); done.
Qed.

(** An update of one row to a progress its file covers. *)
Lemma repo_update id uploaded st now n n' r :
  node_inv n → 0 ≤ uploaded → at_repo (ar_update_artifact id uploaded st now) n = (n', r) →
  (∀ row, rows n !! id = Some row →
     uploaded ≤ Z.of_nat (length (file_of (n_files n) id)) ∧
     (st = Ready → digest_of (file_of (n_files n) id) = a_sha256 row)) →
  node_inv n' ∧ grows n n'.
Proof.
  intros Hn H0 Hrun Hcond. unfold at_repo in Hrun.
  destruct (ar_update_artifact id uploaded st now (n_repo n)) as [s r0] eqn:Hs.
  injection Hrun as <- _. eapply ar_update_spec in Hs as [Hok' Hr]; [|apply Hn|done].
  destruct r0 as [[]|e]; [|by apply unchanged_node].
  destruct Hr as (row & Hrow & (Hst & Hup & Hready) & Hv). destruct (Hcond _ Hrow) as [Hlen Hdig].
  destruct Hn as (Hok & Hrows & Hfiles). split.
  - split; [done|]. unfold rows, row_inv. simpl. rewrite Hv. split.
    + intros k a. destruct (decide (k = id)) as [->|Hne].
      * rewrite lookup_insert_eq. intros [= <-]. destruct (Hrows _ _ Hrow) as (Hb & ? & ? & ? & _). simpl.
        split_and!; try done; try lia. intros ->. split; auto.
      * rewrite lookup_insert_ne by done. apply Hrows.
    + intros k. destruct (decide (k = id)) as [->|Hne]; [by rewrite lookup_insert_eq|].
      rewrite lookup_insert_ne by done. apply Hfiles.
  - intros k a Ha. split; [done|]. unfold rows in *. simpl. rewrite Hv. destruct (decide (k = id)) as [->|Hne].
    + rewrite lookup_insert_eq. eexists. split; [done|]. simpl. rewrite Hrow in Ha. simplify_eq. split_and!; (done || lia).
    + rewrite lookup_insert_ne by done. exists a. done.
Qed.

Lemma write_grows id a offset d k n :
  node_inv n → snapshot n id a → offset = a_uploaded_bytes a →
  offset + Z.of_nat (length d) ≤ a_size_bytes a →
  d = take (length d) (drop (Z.to_nat offset) (source id)) →
  let n' := mk_node (n_repo n) (<[id := write_at (Z.to_nat offset) d (file_of (n_files n) id)]> (n_files n)) k in
  node_inv n' ∧ grows n n' ∧
  offset + Z.of_nat (length d) ≤ Z.of_nat (length (file_of (n_files n') id)).
Proof.
  intros (Hok & Hrows & Hfiles) (Hid & Hst & H0 & row & Hrow & Hsz & Hsha & Hup) -> Hend Hd n'.
  destruct (Hrows _ _ Hrow) as (Hb & Hul & Hls & Hmax & Hready).
  destruct (write_at_begins (source id) (file_of (n_files n) id) (Z.to_nat (a_uploaded_bytes a)) d)
    as [Hb' Hlen]; [done|lia|done|].
  assert (file_of (n_files n') id =
    write_at (Z.to_nat (a_uploaded_bytes a)) d (file_of (n_files n) id)) as Hfile.
  { unfold file_of. simpl. by rewrite lookup_insert_eq. }
  assert (∀ k, k ≠ id → n_files n' !! k = n_files n !! k) as Hother.
  { intros k0 Hne. simpl. by rewrite lookup_insert_ne. }
  split; [|split].
  - split; [done|]. split.
    + intros k0 b Hbrow. unfold rows in *. simpl in Hbrow. unfold row_inv. destruct (decide (k0 = id)) as [->|Hne].
      * rewrite Hfile. rewrite Hrow in Hbrow. injection Hbrow as <-. split_and!; try done; try lia.
        intros Hr. destruct (Hready Hr) as [Hfull Hdig]. split; [done|].
        rewrite <- Hdig. f_equal. apply (begins_eq (source id)); [done..|]. lia.
      * unfold file_of. rewrite (Hother _ Hne). by apply Hrows.
    + intros k0 Hk. unfold rows in *. simpl in Hk. rewrite Hother by congruence. by apply Hfiles.
  - intros k0 b Hbrow. split; [|by exists b]. destruct (decide (k0 = id)) as [->|Hne].
    + rewrite Hfile. lia.
    + unfold file_of. by rewrite (Hother _ Hne).
  - rewrite Hfile. lia.
Qed.

(** What every step must do. *)
Definition advances n n' : Prop := node_inv n' ∧ grows n n'.

Lemma advances_refl n : node_inv n → advances n n.
Proof. intros Hn. split; [done|]. intros id row Hrow. split; [done|]. by exists row. Qed.

Lemma create_advances id name size sha now n :
  node_inv n → 0 ≤ size → advances n (create (E := E) id name size sha now n).1.
Proof.
  intros Hn Hsize. unfold create. case_decide; [by apply advances_refl|].
  destruct (Z.ltb_spec ARTIFACT_MAX_SIZE_BYTES size) as [|Hmax]; [by apply advances_refl|].
  unfold mbind, mlift. destruct (ArtifactName_parse name) as [name'|e] eqn:Hname; [|by apply advances_refl].
  simpl. destruct (Sha256Hex_parse sha) as [sha'|e] eqn:Hsha; [|by apply advances_refl]. simpl.
  unfold at_repo. set (a := Artifact_new id name' size sha' now).
  destruct (ar_create_artifact a (n_repo n)) as [s r] eqn:Hs.
  assert (declarable a) as Hdecl.
  { split; [|split].
    - unfold artifact_ok, ARTIFACT_MAX_SIZE_BYTES, U64_MAX in *. simpl. split_and!; (lia || done).
    - by eapply Sha256Hex_parse_canonical.
    - simpl. apply parse_bounded_name_Ok in Hname as [-> ?]. done. }
  eapply ar_create_spec in Hs as [Hok' Hr]; [|apply Hn|done]. simpl in Hr.
  assert (rows n !! id = None → artifact_view s = <[id := a]> (rows n) →
    advances n (mk_node s (n_files n) (n_io n))) as Hnew.
  { intros Hnone Hv. destruct Hn as (_ & Hrows & Hfiles). split.
    - split; [done|]. unfold rows, row_inv in *. simpl. rewrite Hv. split.
      + intros k b. destruct (decide (k = id)) as [->|Hne].
        * rewrite lookup_insert_eq. intros [= <-]. unfold file_of. rewrite (Hfiles _ Hnone). simpl.
          unfold begins, ARTIFACT_MAX_SIZE_BYTES, U64_MAX in *. split_and!; (done || lia).
        * rewrite lookup_insert_ne by done. apply Hrows.
      + intros k. destruct (decide (k = id)) as [->|Hne]; [by rewrite lookup_insert_eq|].
        rewrite lookup_insert_ne by done. apply Hfiles.
    - intros k b Hb. split; [done|]. exists b. unfold rows in *. simpl. rewrite Hv.
      rewrite lookup_insert_ne by congruence. done. }
  destruct r as [[]|e]; simpl; [|by apply unchanged_node].
  change (artifact_view (n_repo n)) with (rows n) in Hr.
  destruct (rows n !! id) eqn:Hrow; [by apply unchanged_node | by apply Hnew].
Qed.

Lemma find_snapshot n id a :
  node_inv n → rows n !! id = Some a → a_state a = Uploading → snapshot n id a.
Proof.
  intros (Hok & Hrows & _) Hrow Hst. destruct (Hrows _ _ Hrow) as (_ & ? & _).
  split; [by eapply ar_view_key|]. split; [done|]. split; [lia|]. by exists a.
Qed.

Lemma append_read_advances id offset text n n' r :
  node_inv n → append_read (E := E) base64_decode id offset text n = (n', r) →
  advances n n' ∧ ∀ a d, r = Ok (inr (a, d)) →
    snapshot n' id a ∧ base64_decode text = Some d ∧ offset = a_uploaded_bytes a ∧
    offset + Z.of_nat (length d) ≤ a_size_bytes a.
Proof.
  intros Hn Hrun. unfold append_read, mbind in Hrun.
  destruct (at_repo (ar_find_artifact id) n) as [n1 r1] eqn:Hf.
  destruct (repo_find _ _ _ _ Hn Hf) as (Hn1 & Hg & Hrows & Hfound).
  assert (advances n n1) as Hadv by done.
  destruct r1 as [[a|]|e]; simpl in Hrun; [|by injection Hrun as <- <-..].
  destruct (append_decide base64_decode id a offset text) as [[p|d]|e] eqn:Hd; injection Hrun as <- <-; try done.
  split; [done|]. intros a' d' [= <- <-]. apply append_decide_inr in Hd as (Hst & ? & _ & ? & ?).
  split; [|done]. apply find_snapshot; [done| |done]. rewrite Hrows. by apply Hfound.
Qed.

Lemma snapshot_own n id a : snapshot n id a → snapshot n (a_id a) a.
Proof. intros Hs. pose proof Hs as [-> _]. exact Hs. Qed.

(** The rows a reading was taken from bound what the reading says. *)
Lemma snapshot_file n id a :
  node_inv n → snapshot n id a → a_uploaded_bytes a ≤ Z.of_nat (length (file_of (n_files n) id)).
Proof.
  intros (_ & Hrows & _) (_ & _ & _ & row & Hrow & _ & _ & ?).
  destruct (Hrows _ _ Hrow) as (_ & ? & _). lia.
Qed.

Lemma append_record_advances id a d now n :
  node_inv n → task_inv n (TRecord id a d now) → advances n (append_record (E := E) id a d now n).1.
Proof.
  intros Hn [Hs Hlen]. unfold append_record, mbind, mlift.
  destruct (record_bytes_received a (Z.of_nat (length d))) as [a'|e] eqn:Hrec; [|by apply advances_refl].
  simpl. unfold record_bytes_received, require_uploading in Hrec.
  destruct Hs as (Hid & Hst & H0 & _). rewrite Hst in Hrec. simpl in Hrec.
  destruct (checked_add_u64 _ _) as [next|] eqn:Hc; [|done].
  apply checked_add_u64_Some in Hc as [-> _]. destruct (a_size_bytes a <? _); [done|]. injection Hrec as <-.
  destruct (at_repo _ n) as [n1 r] eqn:Hu. simpl in Hu.
  eapply repo_update in Hu; [|done|lia|intros row Hrow; split; [lia|done]].
  destruct r; exact Hu.
Qed.

Lemma fail_advances a now reason n :
  node_inv n → snapshot n (a_id a) a → advances n (fail (E := E) a now reason n).1.
Proof.
  intros Hn Hs. unfold fail, mbind, mlift, mark_failed, require_uploading.
  pose proof Hs as (_ & Hst & H0 & _). rewrite Hst. simpl.
  destruct (at_repo _ n) as [n1 r] eqn:Hu. simpl in Hu.
  eapply repo_update in Hu; [|done|done|intros row Hrow; split; [by apply snapshot_file|done]].
  destruct r; [|exact Hu]. destruct (Artifact_try_from_parts _ _ _ _ _ _ _ _); exact Hu.
Qed.

Lemma finalize_read_advances id n n' r :
  node_inv n → finalize_read (E := E) id n = (n', r) →
  advances n n' ∧ ∀ a, r = Ok (inr a) → snapshot n' id a.
Proof.
  intros Hn Hrun. unfold finalize_read, mbind in Hrun.
  destruct (at_repo (ar_find_artifact id) n) as [n1 r1] eqn:Hf.
  destruct (repo_find _ _ _ _ Hn Hf) as (Hn1 & Hg & Hrows & Hfound).
  assert (advances n n1) as Hadv by done.
  destruct r1 as [[a|]|e]; simpl in Hrun; [|by injection Hrun as <- <-..].
  destruct (a_state a) eqn:Hst; injection Hrun as <- <-; try done.
  split; [done|]. intros a' [= <-]. apply find_snapshot; [done| |done]. rewrite Hrows. by apply Hfound.
Qed.

Lemma finalize_verdict_advances id a computed now n :
  node_inv n → task_inv n (TVerdict id a computed now) →
  advances n (finalize_verdict (E := E) id a computed now n).1.
Proof.
  intros Hn (Hs & Hfull & Hcomp). unfold finalize_verdict. case_decide as Heq.
  - apply fail_advances; [done|]. by eapply snapshot_own.
  - unfold mbind, mlift, mark_ready, require_uploading. pose proof Hs as (_ & Hst & H0 & row & Hrow & _ & Hsha & _).
    rewrite Hst. simpl. case_decide; [by apply advances_refl|]. simpl.
    destruct (at_repo _ n) as [n1 r] eqn:Hu. simpl in Hu. eapply repo_update in Hu; [|done|done|].
    + destruct r; exact Hu.
    + intros row' Hrow'. split; [by apply snapshot_file|]. intros _. simplify_eq. congruence.
Qed.

Lemma resume_advances n t n' next :
  node_inv n → task_inv n t → resume (E := E) sha256 io n t = (n', next) →
  advances n n' ∧ Forall (task_inv n') next.
Proof.
  intros Hn Ht Hr. destruct t as [id a off d now|id a d now|a now reason|id a now|id a c now]; simpl in Hr.
  - unfold write_chunk in Hr. destruct Ht as (Hs & Hoff & Hend & Hd).
    assert (∀ m, take m d = take (length (take m d)) (drop (Z.to_nat off) (source id))) as Htorn.
    { intros m. rewrite Hd at 1. rewrite take_take, length_take. done. }
    destruct (io_write io (n_io n)) as [| |m]; injection Hr as <- <-.
    + destruct (write_grows id a off d (Datatypes.S (n_io n)) n) as (Hn' & Hg & Hlen); [done..|].
      split; [done|]. constructor; [|constructor]. simpl. split; [by eapply snapshot_stable|]. subst off. exact Hlen.
    + split; [|constructor]. apply unchanged_node; [done|apply Hn|done].
    + destruct (write_grows id a off (take m d) (Datatypes.S (n_io n)) n) as (Hn' & Hg & _); try done.
      rewrite length_take. lia.
  - injection Hr as <- <-. split; [by apply append_record_advances|constructor].
  - injection Hr as <- <-. split; [by apply fail_advances|constructor].
  - destruct Ht as (Hs & Hfull). unfold hash_file in Hr.
    destruct (unchanged_node n (n_repo n) (Datatypes.S (n_io n)) Hn (proj1 Hn) eq_refl) as [Hn' Hg].
    destruct (n_files n !! id) as [f|] eqn:Hf; [|injection Hr as <- <-; by split].
    destruct (io_read_fails io (n_io n)); injection Hr as <- <-; [by split|]. split; [done|].
    constructor; [|constructor]. simpl. split; [by eapply snapshot_stable|]. split; [done|].
    unfold file_of. rewrite Hf. done.
  - injection Hr as <- <-. split; [by apply finalize_verdict_advances|constructor].
Qed.

Definition config_inv (c : Node S * list Task) : Prop := node_inv c.1 ∧ Forall (task_inv c.1) c.2.

Lemma tasks_stable n n' ts :
  node_inv n → advances n n' → Forall (task_inv n) ts → Forall (task_inv n') ts.
Proof. intros Hn [Hn' Hg] Hts. eapply Forall_impl; [exact Hts|]. intros t. by apply task_stable. Qed.

Lemma act_inv c a : honest a → config_inv c → config_inv (act (E := E) sha256 base64_decode io c a).
Proof.
  intros Ha [Hn Hts]. destruct c as [n ts]. simpl in *.
  destruct a as [id name size sha now|id offset text now|id now|i|i]; simpl.
  - pose proof (create_advances id name size sha now n Hn Ha) as Hadv.
    split; [apply Hadv | by eapply tasks_stable].
  - destruct (append_read _ _ _ _ n) as [n' r] eqn:Hr.
    destruct (append_read_advances _ _ _ _ _ _ Hn Hr) as [Hadv Htask].
    assert (Forall (task_inv n') ts) by (by eapply tasks_stable).
    destruct r as [[p|[b d]]|e]; [by split; [apply Hadv|]| |by split; [apply Hadv|]].
    destruct (Htask b d eq_refl) as (Hs & Hd & Hoff & Hend). split; [apply Hadv|]. constructor; [|done].
    simpl. split_and!; try done. by apply Ha.
  - destruct (finalize_read _ n) as [n' r] eqn:Hr.
    destruct (finalize_read_advances _ _ _ _ Hn Hr) as [Hadv Htask].
    assert (Forall (task_inv n') ts) by (by eapply tasks_stable).
    destruct r as [[b|b]|e]; [by split; [apply Hadv|]| |by split; [apply Hadv|]].
    specialize (Htask b eq_refl). split; [apply Hadv|]. constructor; [|done].
    destruct (Z.ltb_spec (a_uploaded_bytes b) (a_size_bytes b)); simpl; [|done]. by eapply snapshot_own.
  - destruct (ts !! i) as [t|] eqn:Ht; [|done]. destruct (resume sha256 io n t) as [n' next] eqn:Hr.
    pose proof (Forall_lookup_1 _ _ _ _ Hts Ht) as Hti.
    destruct (resume_advances _ _ _ _ Hn Hti Hr) as [Hadv Hnext]. split; [apply Hadv|]. simpl.
    apply Forall_app. split; [done|]. apply Forall_delete. by eapply tasks_stable.
  - split; [done|]. by apply Forall_delete.
Qed.

(** C28: Declaring, uploading and finalizing, under any interleaving of any number
    of requests, any failures of the repository and of the file system (partial
    writes included) and any requests dropped half way: the file of an artifact
    is always a start of the bytes its client uploads that covers the recorded
    progress and never exceeds the declared size, and an artifact that is ready
    has a complete file with the declared digest, for as long as its client
    sends the same bytes for an offset. *)
Theorem upload_safe (s0 : S) actions n ts :
  artifact_rows_ok s0 → artifact_view s0 = ∅ → Forall honest actions →
  acts (E := E) sha256 base64_decode io (mk_node s0 ∅ 0, []) actions = (n, ts) →
  ∀ id a, artifact_view (n_repo n) !! id = Some a →
    let f := file_of (n_files n) id in
    f = take (length f) (source id) ∧ a_uploaded_bytes a ≤ Z.of_nat (length f) ≤ a_size_bytes a ∧
    (a_state a = Ready → Z.of_nat (length f) = a_size_bytes a ∧ digest_of f = a_sha256 a).
Proof.
  intros Hok Hview Hhonest Hrun id a Ha.
  assert (config_inv (mk_node s0 ∅ 0, [])) as H0.
  { split; [|constructor]. split; [done|]. unfold rows. simpl. rewrite Hview. split; [|done].
    intros k b. by rewrite lookup_empty. }
  assert (config_inv (n, ts)) as [(_ & Hrows & _) _].
  { rewrite <- Hrun. clear Hrun. revert H0. generalize (mk_node s0 ∅ 0, @nil Task) as c. unfold acts.
    induction Hhonest as [|x xs Hx Hxs IH]; intros c Hc; [done|]. simpl. apply IH. by apply act_inv. }
  simpl in Hrows. destruct (Hrows _ _ Ha) as (Hb & ? & ? & _ & Hr). split; [exact Hb|]. split; [lia|].
  intros Hready. destruct (Hr Hready). split; [lia|done].
Qed.
End safety.

(** ** One call on its own *)

Section calls.
Context (sha256 : list N → list N) (base64_decode : str → option (list N)) (io : IoEnv).
Context {S E : Type} `{Hlaws : ArtifactRepositoryLaws S E}.
Implicit Types (n : Node S).

Lemma append_read_inv id offset text n n' r :
  artifact_rows_ok (n_repo n) → append_read (E := E) base64_decode id offset text n = (n', r) →
  artifact_rows_ok (n_repo n') ∧ artifact_view (n_repo n') = artifact_view (n_repo n) ∧
  n_files n' = n_files n ∧
  ∀ x, r = Ok x → ∃ row, artifact_view (n_repo n) !! id = Some row ∧ a_id row = id ∧
    a_state row = Uploading ∧
    match x with
    | inl p => p = progress_of row ∧ (base64_decode text = Some [] ∨ offset < a_uploaded_bytes row)
    | inr (a, d) => a = row ∧ base64_decode text = Some d ∧ d ≠ [] ∧ offset = a_uploaded_bytes row ∧
                    offset + Z.of_nat (length d) ≤ a_size_bytes row
    end.
Proof.
  intros Hok Hrun. unfold append_read, mbind, at_repo in Hrun.
  destruct (ar_find_artifact id (n_repo n)) as [s1 r1] eqn:Hf.
  destruct (ar_find_spec _ _ _ _ Hok Hf) as (Hok' & Hv & Hr).
  destruct r1 as [[a|]|e]; simpl in Hrun; [|by injection Hrun as <- <-..].
  destruct (append_decide base64_decode id a offset text) as [[p|d]|e] eqn:Hd; injection Hrun as <- <-;
    (split; [done|]; split; [done|]; split; [done|]); intros x [= <-]; exists a.
  - apply append_decide_inl in Hd as (? & ? & ?). split_and!; try done. exact (ar_view_key _ _ _ Hok Hr).
  - apply append_decide_inr in Hd as (? & ? & ? & ? & ?). split_and!; try done. exact (ar_view_key _ _ _ Hok Hr).
Qed.

Lemma append_record_inv id row d now n n' r :
  artifact_rows_ok (n_repo n) → a_id row = id → a_state row = Uploading → 0 ≤ a_uploaded_bytes row →
  artifact_view (n_repo n) !! id = Some row →
  append_record (E := E) id row d now n = (n', r) →
  n_files n' = n_files n ∧
  match r with
  | Ok p => p = mk_progress id (a_uploaded_bytes row + Z.of_nat (length d)) (a_size_bytes row) ∧
      artifact_view (n_repo n') =
        <[id := artifact_updated row (a_uploaded_bytes row + Z.of_nat (length d)) Uploading now]>
          (artifact_view (n_repo n))
  | Err _ => artifact_view (n_repo n') = artifact_view (n_repo n)
  end.
Proof.
  intros Hok Hid Hst H0 Hrow Hrun. unfold append_record, mbind, mlift, record_bytes_received, require_uploading in Hrun.
  rewrite Hst in Hrun. simpl in Hrun.
  destruct (checked_add_u64 _ _) as [next|] eqn:Hc; [|by injection Hrun as <- <-].
  apply checked_add_u64_Some in Hc as [-> _].
  destruct (a_size_bytes row <? _); simpl in Hrun; [by injection Hrun as <- <-|].
  unfold at_repo in Hrun. destruct (ar_update_artifact _ _ _ _ _) as [s r1] eqn:Hu.
  eapply ar_update_spec in Hu as [_ Hr]; [|done|simpl; lia].
  destruct r1 as [[]|e]; simpl in Hrun; injection Hrun as <- <-; [|done].
  destruct Hr as (row' & Hrow' & _ & Hv). rewrite Hrow in Hrow'. injection Hrow' as <-.
  split; [done|]. split; [|done]. unfold progress_of. simpl. by rewrite Hid.
Qed.

(** One chunk, whatever fails: an answer either acknowledges the current
    progress with nothing changed (an empty chunk, or one already received) or
    has written exactly the chunk at the resume offset and moved the progress
    behind it, within the declared size; an error changes no row, no other file
    and no byte that was received before. *)
Theorem append_chunk_correct id offset text now n n' r :
  artifact_rows_ok (n_repo n) → 0 ≤ offset →
  append_chunk (E := E) base64_decode io id offset text now n = (n', r) →
  let view := artifact_view (n_repo n) in
  let view' := artifact_view (n_repo n') in
  match r with
  | Ok p =>
      ∃ row, view !! id = Some row ∧ a_state row = Uploading ∧
      ((view' = view ∧ n_files n' = n_files n ∧ p = progress_of row ∧
        (base64_decode text = Some [] ∨ offset < a_uploaded_bytes row)) ∨
       (∃ d, base64_decode text = Some d ∧ d ≠ [] ∧ offset = a_uploaded_bytes row ∧
          offset + Z.of_nat (length d) ≤ a_size_bytes row ∧
          p = mk_progress id (offset + Z.of_nat (length d)) (a_size_bytes row) ∧
          view' = <[id := artifact_updated row (offset + Z.of_nat (length d)) Uploading now]> view ∧
          n_files n' = <[id := write_at (Z.to_nat offset) d (file_of (n_files n) id)]> (n_files n)))
  | Err _ =>
      view' = view ∧ (∀ k, k ≠ id → n_files n' !! k = n_files n !! k) ∧
      ∀ row, view !! id = Some row →
        (Z.to_nat (a_uploaded_bytes row) ≤ length (file_of (n_files n) id))%nat →
        take (Z.to_nat (a_uploaded_bytes row)) (file_of (n_files n') id) =
        take (Z.to_nat (a_uploaded_bytes row)) (file_of (n_files n) id)
  end.
Proof.
  intros Hok H0 Hrun view view'. unfold append_chunk, mbind in Hrun.
  destruct (append_read base64_decode id offset text n) as [n1 r1] eqn:Hread.
  destruct (append_read_inv _ _ _ _ _ _ Hok Hread) as (Hok1 & Hv1 & Hf1 & Hx).
  destruct r1 as [[p|[a d]]|e].
  - injection Hrun as <- <-. destruct (Hx _ eq_refl) as (row & Hrow & _ & Hst & -> & Hwhy).
    exists row. split; [done|]. split; [done|]. left. done.
  - destruct (Hx _ eq_refl) as (row & Hrow & Hid & Hst & -> & Hd & Hne & Hoff & Hend).
    assert (∀ m, (Z.to_nat (a_uploaded_bytes row) ≤ length (file_of (n_files n) id))%nat →
      take (Z.to_nat (a_uploaded_bytes row)) (write_at (Z.to_nat offset) m (file_of (n_files n) id)) =
      take (Z.to_nat (a_uploaded_bytes row)) (file_of (n_files n) id)) as Hkeep.
    { intros m Hl. apply write_at_before; [|done]. by rewrite Hoff. }
    assert (∀ m k, k ≠ id → <[id := m]> (n_files n) !! k = n_files n !! k) as Hother.
    { intros m k Hk. by apply lookup_insert_ne. }
    assert (∀ m, file_of (<[id := m]> (n_files n)) id = m) as Hown.
    { intros m. unfold file_of. by rewrite lookup_insert_eq. }
    unfold write_chunk in Hrun. rewrite Hf1 in Hrun. destruct (io_write io (n_io n1)) as [| |m].
    + assert (0 ≤ a_uploaded_bytes row) as H0' by lia.
      eapply append_record_inv in Hrun as [Hf2 Hr2]; [|done..|simpl; by rewrite Hv1]. simpl in Hf2, Hr2. rewrite Hv1 in Hr2. destruct r as [p|e].
      * destruct Hr2 as [-> Hv2]. exists row. split; [done|]. split; [done|]. right. exists d.
        rewrite Hoff. split_and!; try done; try lia. by rewrite Hf2, Hoff.
      * split; [done|]. rewrite Hf2. split; [auto|]. intros row' Hrow'. rewrite Hown.
        assert (row' = row) as -> by (unfold view in *; congruence). auto.
    + injection Hrun as <- <-. unfold view', view. simpl. rewrite Hv1. done.
    + injection Hrun as <- <-. unfold view', view. simpl. split; [done|]. split; [auto|].
      intros row' Hrow'. rewrite Hown. assert (row' = row) as -> by congruence. auto.
  - injection Hrun as <- <-. unfold view', view. rewrite Hv1, Hf1. done.
Qed.

Lemma artifact_le_total (x y : Artifact) : artifact_le x y ∨ artifact_le y x.
Proof. unfold artifact_le. lia. Qed.

(** The inventory of one call is every artifact once, in declaration order,
    although it is read one lifecycle phase at a time. *)
Theorem list_complete n n' l :
  artifact_rows_ok (n_repo n) → artifact_list (E := E) n = (n', Ok l) →
  artifact_view (n_repo n') = artifact_view (n_repo n) ∧ n_files n' = n_files n ∧
  Sorted artifact_le l ∧ NoDup l ∧ ∀ a, a ∈ l ↔ artifact_view (n_repo n) !! a_id a = Some a.
Proof.
  intros Hok Hrun. unfold artifact_list, mbind, at_repo in Hrun.
  destruct (ar_list_artifacts_by_state Uploading (n_repo n)) as [s1 [l1|]] eqn:E1; [|done].
  destruct (ar_list_spec _ _ _ _ Hok E1) as (Hok1 & Hv1 & _ & Hnd1 & Hl1). simpl in Hrun.
  destruct (ar_list_artifacts_by_state Ready s1) as [s2 [l2|]] eqn:E2; [|done].
  destruct (ar_list_spec _ _ _ _ Hok1 E2) as (Hok2 & Hv2 & _ & Hnd2 & Hl2). simpl in Hrun.
  destruct (ar_list_artifacts_by_state ArtifactFailed s2) as [s3 [l3|]] eqn:E3; [|done].
  destruct (ar_list_spec _ _ _ _ Hok2 E3) as (Hok3 & Hv3 & _ & Hnd3 & Hl3). simpl in Hrun.
  injection Hrun as <- <-. simpl. split; [congruence|]. split; [done|].
  assert (Total artifact_le) by (intros x y; apply artifact_le_total).
  split; [apply Sorted_merge_sort, _|]. rewrite merge_sort_Permutation.
  rewrite Hv2, Hv1 in Hl3. rewrite Hv1 in Hl2. split.
  - rewrite !NoDup_app. split_and!; try done.
    + intros a Ha Ha'. apply Hl1 in Ha as [_ Ha].
      apply elem_of_app in Ha' as [[_ ?]%Hl2|[_ ?]%Hl3]; congruence.
    + intros a [_ Ha]%Hl2 [_ Ha']%Hl3. congruence.
  - intros a. rewrite merge_sort_Permutation, !elem_of_app, Hl1, Hl2, Hl3.
    destruct (a_state a); naive_solver.
Qed.
End calls.

(** ** The upload over SQLite *)

(** The row [create_artifact] writes, and its later forms. *)
Definition row_of (a : Artifact) : artifact_model :=
  {| am_id := a_id a; am_name := a_name a; am_size_bytes := a_size_bytes a; am_sha256 := a_sha256 a;
     am_state := ArtifactState_as_str (a_state a); am_uploaded_bytes := a_uploaded_bytes a;
     am_created_at := a_created_at a; am_updated_at := a_updated_at a; am_site_id := None |}.

Lemma map_row_of a : declarable a → map_stored_artifact (a_id a) (row_of a) = Ok a.
Proof.
  intros (Hok & Hsha & Hname). unfold map_stored_artifact.
  rewrite (parts_intro _ _ (a_name a) (a_sha256 a) (a_state a)); simpl; try done.
  - by rewrite try_from_parts_ok.
  - by apply parse_bounded_name_roundtrip.
  - by apply Sha256Hex_parse_fix.
  - unfold artifact_ok in Hok. lia.
  - unfold artifact_ok in Hok. lia.
Qed.

Section sqlite_calls.
Context (env : Env) (Henv : env_healthy env).
Abbreviation ARepo := (M (World ArtifactTable) ArtifactRepositoryError).

Lemma healthy_find a t :
  declarable a → t !! a_id a = Some (row_of a) → returns (find_artifact env (a_id a)) t t (Some a).
Proof.
  intros Ha Ht. apply returns_transaction; [done|]. eapply returns_bind; [by apply returns_select|].
  rewrite Ht. eapply returns_bind; [apply returns_lift; by apply map_row_of|]. apply returns_ret.
Qed.

Lemma healthy_create a t :
  a_size_bytes a ≤ I64_MAX → a_uploaded_bytes a ≤ I64_MAX → t !! a_id a = None →
  returns (create_artifact env a) t (<[a_id a := row_of a]> t) ().
Proof.
  intros Hsz Hup Ht. eapply returns_bind; [by apply returns_acquire|]. apply returns_transaction; [done|].
  eapply returns_bind; [by apply returns_select|]. rewrite Ht.
  eapply returns_bind; [apply returns_lift; unfold stored_integer; by rewrite decide_True|].
  eapply returns_bind; [apply returns_lift; unfold stored_integer; by rewrite decide_True|].
  apply returns_statement; [done|]. simpl. by rewrite Ht.
Qed.

Lemma healthy_update a uploaded st now t :
  0 ≤ a_uploaded_bytes a → 0 ≤ a_size_bytes a ≤ I64_MAX → update_allowed a uploaded st →
  t !! a_id a = Some (row_of a) →
  returns (update_artifact env (a_id a) uploaded st now) t
    (<[a_id a := row_of (artifact_updated a uploaded st now)]> t) ().
Proof.
  intros H0 Hsz (Hst & Hup & Hready) Ht. eapply returns_bind; [by apply returns_acquire|].
  apply returns_transaction; [done|]. eapply returns_bind; [by apply returns_select|]. rewrite Ht.
  eapply returns_bind; [by apply returns_lift|]. cbn [row_of am_state].
  eapply returns_bind; [apply returns_lift; by rewrite artifact_state_parse|]. rewrite Hst. cbn [artifact_terminal].
  cbn [am_uploaded_bytes am_size_bytes]. unfold u64_try_from.
  eapply returns_bind; [apply returns_lift; by rewrite decide_True|].
  eapply returns_bind; [apply returns_lift; rewrite decide_True; [done|simpl; lia]|].
  cbn [row_of am_uploaded_bytes am_size_bytes].
  destruct (Z.ltb_spec uploaded (a_uploaded_bytes a)); [lia|].
  destruct (Z.ltb_spec (a_size_bytes a) uploaded); [lia|].
  rewrite decide_False by (intros [? []]; auto).
  eapply returns_bind; [apply returns_lift; unfold stored_integer; rewrite decide_True; [done|lia]|].
  apply returns_statement; [done|]. simpl. by rewrite Ht.
Qed.
End sqlite_calls.

Section sqlite_upload.
Context (sha256 : list N → list N) (base64_decode : str → option (list N)) (io : IoEnv) (env : Env).
#[local] Instance db_artifacts : ArtifactRepository (World ArtifactTable) ArtifactRepositoryError :=
  sqlite_artifacts env.
Abbreviation DbOp := (M (Node (World ArtifactTable)) (ArtifactStoreError ArtifactRepositoryError)).

(** A client that sends its chunks in order, each at the offset it was told. *)
Fixpoint append_all (id : ArtifactId) (texts : list str) (now : OffsetDateTime) (offset : Z) : DbOp () :=
  match texts with
  | [] => mret ()
  | text :: texts =>
      let! p := append_chunk base64_decode io id offset text now in
      append_all id texts now (pr_uploaded_bytes p)
  end.

Definition upload (id : ArtifactId) (name : str) (size : Z) (sha : str) (texts : list str)
    (created now : OffsetDateTime) : DbOp Artifact :=
  do! create id name size sha created in
  do! append_all id texts now 0 in
  finalize sha256 io id now.

(** Run on a table and files, at any clocks: the verdict, and what is left. *)
Definition completes {A} (m : DbOp A) (t : ArtifactTable) (files : gmap ArtifactId (list N))
    (t' : ArtifactTable) (files' : gmap ArtifactId (list N))
    (r : result A (ArtifactStoreError ArtifactRepositoryError)) : Prop :=
  ∀ c k, ∃ c' k', m (mk_node (mk_world t c) files k) = (mk_node (mk_world t' c') files' k', r).

Lemma completes_bind {A B} (m : DbOp A) (f : A → DbOp B) t files t1 files1 t2 files2 a r :
  completes m t files t1 files1 (Ok a) → completes (f a) t1 files1 t2 files2 r →
  completes (mbind m f) t files t2 files2 r.
Proof.
  intros Hm Hf c k. destruct (Hm c k) as (c1 & k1 & H1). destruct (Hf c1 k1) as (c2 & k2 & H2).
  exists c2, k2. by rewrite (mbind_run _ _ _ _ _ H1).
Qed.

Lemma completes_pure {A} (r : result A (ArtifactStoreError ArtifactRepositoryError)) t files :
  completes (mlift r) t files t files r.
Proof. intros c k. by exists c, k. Qed.

Lemma completes_repo {A} (m : M (World ArtifactTable) ArtifactRepositoryError A) t t' files a :
  returns m t t' a → completes (at_repo m) t files t' files (Ok a).
Proof.
  intros Hm c k. destruct (Hm c) as [c' Hc]. exists c', k. unfold at_repo. simpl. by rewrite Hc.
Qed.

Context (Henv : env_healthy env).
Context (Hwrites : ∀ k, io_write io k = WriteDone) (Hreads : ∀ k, io_read_fails io k = false).

Lemma completes_write id offset d t files :
  completes (write_chunk io id offset d) t files t
    (<[id := write_at (Z.to_nat offset) d (file_of files id)]> files) (Ok ()).
Proof. intros c k. exists c, (S k). unfold write_chunk. simpl. by rewrite Hwrites. Qed.

Lemma completes_hash id f t files :
  files !! id = Some f →
  completes (hash_file sha256 io id) t files t files (Ok (Sha256Hex_from_bytes (sha256 f))).
Proof. intros Hf c k. exists c, (S k). unfold hash_file. simpl. by rewrite Hf, Hreads. Qed.

Lemma write_at_end d f : write_at (length f) d f = f ++ d.
Proof.
  unfold write_at. rewrite Nat.sub_diag. simpl. rewrite app_nil_r, firstn_all, drop_ge by lia.
  by rewrite app_nil_r.
Qed.

(** What a client chunk must be. *)
Definition chunk_ok (text : str) (d : list N) : Prop :=
  base64_decode text = Some d ∧ d ≠ [] ∧ Z.of_N (str_len text) ≤ ARTIFACT_CHUNK_BASE64_MAX_BYTES.

Lemma completes_append a text d now t files :
  declarable a → a_state a = Uploading → a_size_bytes a ≤ ARTIFACT_MAX_SIZE_BYTES →
  t !! a_id a = Some (row_of a) → chunk_ok text d →
  Z.of_nat (length (file_of files (a_id a))) = a_uploaded_bytes a →
  a_uploaded_bytes a + Z.of_nat (length d) ≤ a_size_bytes a →
  let a' := artifact_updated a (a_uploaded_bytes a + Z.of_nat (length d)) Uploading now in
  completes (append_chunk base64_decode io (a_id a) (a_uploaded_bytes a) text now) t files
    (<[a_id a := row_of a']> t) (<[a_id a := file_of files (a_id a) ++ d]> files) (Ok (progress_of a')).
Proof.
  intros Ha Hst Hmax Ht (Hd & Hne & Htext) Hlen Hend a'. pose proof Ha as ((Hup & _) & _).
  unfold ARTIFACT_MAX_SIZE_BYTES in Hmax.
  assert (checked_add_u64 (a_uploaded_bytes a) (Z.of_nat (length d)) =
    Some (a_uploaded_bytes a + Z.of_nat (length d))) as Hadd.
  { apply checked_add_u64_Some. unfold U64_MAX. lia. }
  eapply completes_bind.
  { unfold append_read. eapply completes_bind; [by apply completes_repo, healthy_find|].
    eapply completes_bind; [apply completes_pure|]. simpl.
    unfold append_decide. rewrite Hst. simpl.
    destruct (Z.ltb_spec ARTIFACT_CHUNK_BASE64_MAX_BYTES (Z.of_N (str_len text))); [lia|].
    rewrite Hd. simpl. rewrite decide_False, Z.ltb_irrefl, Hadd by done.
    destruct (Z.ltb_spec (a_size_bytes a) (a_uploaded_bytes a + Z.of_nat (length d))); [lia|].
    eapply completes_bind; [apply completes_pure|]. apply completes_pure. }
  simpl. rewrite <- (write_at_end d (file_of files (a_id a))).
  replace (length (file_of files (a_id a))) with (Z.to_nat (a_uploaded_bytes a)) by lia.
  eapply completes_bind.
  { apply completes_write. }
  unfold append_record, record_bytes_received, require_uploading. rewrite Hst. simpl. rewrite Hadd.
  destruct (Z.ltb_spec (a_size_bytes a) (a_uploaded_bytes a + Z.of_nat (length d))); [lia|].
  eapply completes_bind; [apply completes_pure|]. simpl.
  eapply completes_bind; [|apply completes_pure]. apply completes_repo, healthy_update; try done.
  - lia.
  - unfold I64_MAX. lia.
  - split; [done|]. split; [lia|done].
Qed.

Lemma declarable_updated a uploaded st now :
  declarable a → 0 ≤ uploaded ≤ a_size_bytes a → (st = Ready → uploaded = a_size_bytes a) →
  a_created_at a ≤ now → declarable (artifact_updated a uploaded st now).
Proof.
  intros ((? & ? & ? & ?) & ? & ?) ? ? ?. split; [|done]. unfold artifact_ok. simpl.
  split_and!; (lia || done).
Qed.

Lemma completes_append_all texts chunks now a t files :
  Forall2 chunk_ok texts chunks → declarable a → a_state a = Uploading → a_created_at a ≤ now →
  a_size_bytes a ≤ ARTIFACT_MAX_SIZE_BYTES → t !! a_id a = Some (row_of a) →
  Z.of_nat (length (file_of files (a_id a))) = a_uploaded_bytes a →
  a_uploaded_bytes a + Z.of_nat (length (concat chunks)) = a_size_bytes a → chunks ≠ [] →
  let a' := artifact_updated a (a_size_bytes a) Uploading now in
  completes (append_all (a_id a) texts now (a_uploaded_bytes a)) t files
    (<[a_id a := row_of a']> t) (<[a_id a := file_of files (a_id a) ++ concat chunks]> files) (Ok ()).
Proof.
  intros Hchunks. revert a t files.
  induction Hchunks as [|text d texts chunks Hd Hds IH]; intros a t files Ha Hst Hnow Hmax Ht Hlen Hsum Hne a'; [done|].
  cbn [concat] in *. rewrite length_app in Hsum. cbn [append_all].
  eapply completes_bind; [apply (completes_append a text d now); try done; lia|].
  set (a1 := artifact_updated a (a_uploaded_bytes a + Z.of_nat (length d)) Uploading now).
  destruct (decide (chunks = [])) as [->|Hmore].
  - inversion Hds; subst. simpl in *. rewrite app_nil_r.
    replace a1 with a' by (unfold a', a1; f_equal; lia). apply completes_pure.
  - assert (declarable a1) as Ha1.
    { apply declarable_updated; [done| |done|done]. destruct Ha as ((? & _) & _). lia. }
    specialize (IH a1 (<[a_id a := row_of a1]> t) (<[a_id a := file_of files (a_id a) ++ d]> files) Ha1 eq_refl).
    unfold progress_of. cbn [pr_uploaded_bytes].
    assert (file_of (<[a_id a := file_of files (a_id a) ++ d]> files) (a_id a) = file_of files (a_id a) ++ d) as Hfile.
    { unfold file_of. by rewrite lookup_insert_eq. }
    simpl in IH. rewrite Hfile, !insert_insert_eq, <- app_assoc in IH. apply IH; try done.
    + by rewrite lookup_insert_eq.
    + rewrite length_app. lia.
    + lia.
Qed.

(** The verdict on a complete file. *)
Lemma completes_finalize (b : Artifact) f now t files :
  declarable b → a_state b = Uploading → a_uploaded_bytes b = a_size_bytes b →
  a_size_bytes b ≤ I64_MAX → t !! a_id b = Some (row_of b) → files !! a_id b = Some f →
  a_created_at b ≤ now →
  let computed := Sha256Hex_from_bytes (sha256 f) in
  let st := if decide (a_sha256 b = computed) then Ready else ArtifactFailed in
  let final := artifact_updated b (a_size_bytes b) st now in
  completes (finalize sha256 io (a_id b) now) t files (<[a_id b := row_of final]> t) files
    (if decide (a_sha256 b = computed) then Ok final
     else Err (FinalizeFailed (a_id b) final (mismatch_reason b computed))).
Proof.
  intros Hb Hst Hfull Hsz Ht Hf Hnow computed st final. pose proof Hb as ((Hup & Hmax & _) & _).
  assert (∀ st, returns (update_artifact env (a_id b) (a_size_bytes b) st now) t
      (<[a_id b := row_of (artifact_updated b (a_size_bytes b) st now)]> t) ()) as Hupd.
  { intros st0. apply (healthy_update env Henv b); [lia|lia| |done]. split; [done|]. split; [lia|done]. }
  assert (∀ st, Artifact_try_from_parts (a_id b) (a_name b) (a_size_bytes b) (a_sha256 b) st (a_size_bytes b)
    (a_created_at b) now = Ok (artifact_updated b (a_size_bytes b) st now)) as Hparts.
  { intros st0. apply (try_from_parts_ok (artifact_updated b (a_size_bytes b) st0 now)).
    unfold artifact_ok. simpl. split_and!; (lia || done). }
  unfold finalize. eapply completes_bind.
  { unfold finalize_read. eapply completes_bind; [by apply completes_repo, healthy_find|].
    eapply completes_bind; [apply completes_pure|]. simpl. rewrite Hst. apply completes_pure. }
  simpl. rewrite Hfull, Z.ltb_irrefl. eapply completes_bind; [by apply completes_hash|].
  fold computed. unfold finalize_verdict, final, st. destruct (decide (a_sha256 b = computed)) as [Heq|Hdiff].
  - rewrite decide_False by (intros Hx; by apply Hx). unfold mark_ready, require_uploading. rewrite Hst. simpl.
    rewrite decide_False by lia. eapply completes_bind; [apply completes_pure|]. simpl. rewrite Hfull.
    eapply completes_bind; [by apply completes_repo, Hupd|]. rewrite Hparts. apply completes_pure.
  - rewrite decide_True by congruence. unfold fail, mark_failed, require_uploading. rewrite Hst. simpl.
    eapply completes_bind; [apply completes_pure|]. simpl. rewrite Hfull.
    eapply completes_bind; [by apply completes_repo, Hupd|]. rewrite Hparts.
    eapply completes_bind; [apply completes_pure|]. apply (completes_pure (Err _)).
Qed.

(** C38: On a healthy node an upload ends with the verdict of its digest: the
    chunks are stored in order, the artifact is ready if the declared digest is
    the one of the bytes sent, and otherwise it has failed for good. *)
Theorem upload_completes id name name' size sha sha' texts chunks created now t files :
  t !! id = None → files !! id = None →
  ArtifactName_parse name = Ok name' → Sha256Hex_parse sha = Ok sha' →
  Forall2 chunk_ok texts chunks → chunks ≠ [] → size = Z.of_nat (length (concat chunks)) →
  size ≤ ARTIFACT_MAX_SIZE_BYTES → created ≤ now →
  let computed := Sha256Hex_from_bytes (sha256 (concat chunks)) in
  let st := if decide (sha' = computed) then Ready else ArtifactFailed in
  let final := mk_artifact id name' size sha' st size created now in
  completes (upload id name size sha texts created now) t files
    (<[id := row_of final]> t) (<[id := concat chunks]> files)
    (if decide (sha' = computed) then Ok final
     else Err (FinalizeFailed id final (mismatch_reason (mk_artifact id name' size sha' Uploading size created now) computed))).
Proof.
  intros Ht Hf Hname Hsha Hchunks Hne -> Hmax Hnow computed st final.
  assert (0 < Z.of_nat (length (concat chunks))) as Hpos.
  { destruct Hchunks as [|text d texts chunks (_ & Hd & _) _]; [done|]. simpl. rewrite length_app.
    destruct d; [done|]. simpl. lia. }
  set (size := Z.of_nat (length (concat chunks))) in *. set (a := Artifact_new id name' size sha' created).
  assert (declarable a) as Ha.
  { split; [|split].
    - unfold artifact_ok, ARTIFACT_MAX_SIZE_BYTES, U64_MAX in *. simpl. split_and!; (lia || done).
    - by eapply Sha256Hex_parse_canonical.
    - simpl. apply parse_bounded_name_Ok in Hname as [-> ?]. done. }
  unfold ARTIFACT_MAX_SIZE_BYTES in Hmax.
  eapply completes_bind.
  { unfold create. rewrite decide_False by lia.
    destruct (Z.ltb_spec ARTIFACT_MAX_SIZE_BYTES size); [unfold ARTIFACT_MAX_SIZE_BYTES in *; lia|].
    eapply completes_bind; [rewrite Hname; apply completes_pure|].
    eapply completes_bind; [rewrite Hsha; apply completes_pure|].
    eapply completes_bind; [|apply completes_pure].
    apply completes_repo, (healthy_create env Henv a); simpl; unfold I64_MAX; (done || lia). }
  assert (file_of files id = []) as Hfile by (unfold file_of; by rewrite Hf).
  eapply completes_bind.
  { apply (completes_append_all texts chunks now a); try done; simpl; [by rewrite lookup_insert_eq|by rewrite Hfile]. }
  simpl. rewrite Hfile, insert_insert_eq. simpl.
  set (b := artifact_updated a size Uploading now).
  assert (declarable b) as Hb by (apply declarable_updated; simpl; (done || lia)).
  pose proof (completes_finalize b (concat chunks) now (<[id := row_of b]> t) (<[id := concat chunks]> files)) as Hfin.
  simpl in Hfin. rewrite !insert_insert_eq in Hfin. apply Hfin; try done.
  - unfold I64_MAX. lia.
  - by rewrite lookup_insert_eq.
  - by rewrite lookup_insert_eq.
Qed.

(** A clock that stepped back past the declaration: [finalize] reports that the
    verdict cannot be restored, but it has persisted the inverted timeline, and
    every later read of the artifact fails. *)
Theorem finalize_stale_clock (a : Artifact) f now t files :
  declarable a → a_state a = Uploading → a_uploaded_bytes a = a_size_bytes a →
  a_size_bytes a ≤ I64_MAX → t !! a_id a = Some (row_of a) → files !! a_id a = Some f →
  a_sha256 a = Sha256Hex_from_bytes (sha256 f) → now < a_created_at a →
  let t' := <[a_id a := row_of (artifact_updated a (a_size_bytes a) Ready now)]> t in
  completes (finalize sha256 io (a_id a) now) t files t' files (Err (StoreRestore RestoreInvalidTimeline)) ∧
  ∀ c w o, find_artifact env (a_id a) (mk_world t' c) ≠ (w, Ok o).
Proof.
  intros Ha Hst Hfull Hsz Ht Hf Hsha Hnow t'. split.
  - unfold finalize. eapply completes_bind.
    { unfold finalize_read. eapply completes_bind; [by apply completes_repo, healthy_find|].
      eapply completes_bind; [apply completes_pure|]. simpl. rewrite Hst. apply completes_pure. }
    simpl. rewrite Hfull, Z.ltb_irrefl.
    eapply completes_bind; [by apply completes_hash|]. unfold finalize_verdict.
    rewrite decide_False by (intros Hx; by apply Hx). unfold mark_ready, require_uploading. rewrite Hst.
    simpl. rewrite decide_False by lia. eapply completes_bind; [apply completes_pure|]. simpl.
    eapply completes_bind.
    { apply completes_repo, healthy_update; try done.
      - destruct Ha as ((? & _) & _). lia.
      - destruct Ha as ((? & _) & _). lia.
      - split; [done|]. split; [lia|done]. }
    rewrite Hfull. unfold Artifact_try_from_parts.
    destruct (Z.ltb_spec now (a_created_at a)); [|lia]. apply completes_pure.
  - intros c w o Hfind. unfold find_artifact in Hfind.
    apply transaction_ok in Hfind as (w1 & w2 & Hw1 & Hbody & _). inv_rows.
    rewrite Hw1 in *. simpl in *. rewrite lookup_insert_eq in Hbody. inv_run.
    unfold map_stored_artifact in *. inv_ok.
    match goal with Hp : stored_artifact_parts _ _ = Ok ?p |- _ => apply parts_inv in Hp; simpl in Hp end.
    match goal with Hp : Artifact_try_from_parts _ _ _ _ _ _ _ _ = Ok _ |- _ => apply try_from_parts_inv in Hp end.
    destruct_and?. lia.
Qed.
End sqlite_upload.

(** ** Concrete runs *)

Section examples.
(** A stand-in digest that tells short files apart, and a stand-in encoding. *)
Definition toy_sha256 (f : list N) : list N := take 32 (f ++ replicate 32 0%N).
Definition toy_base64 (text : str) : option (list N) := Some text.
Definition calm_env : Env := mk_env (λ _, false) false (λ _, None).
Definition calm_io : IoEnv := mk_io_env (λ _, WriteDone) (λ _, false).
Definition calm_start : Node (World ArtifactTable) := mk_node (mk_world ∅ 0) ∅ 0.

#[local] Instance calm_artifacts : ArtifactRepository (World ArtifactTable) ArtifactRepositoryError :=
  sqlite_artifacts calm_env.
#[local] Instance calm_artifact_laws : ArtifactRepositoryLaws (World ArtifactTable) ArtifactRepositoryError :=
  sqlite_artifact_laws calm_env.

Lemma calm_healthy : env_healthy calm_env.
Proof. done. Qed.

Definition declared_digest : str := Sha256Hex_from_bytes (toy_sha256 [1; 2]%N).

(** Two chunks for the same offset are read as the continuation; the first is
    written, recorded and finalized before the second is written. *)
Definition racing_actions : list Action :=
  [ACreate 7 (lit "fw") 2 declared_digest 0; AAppend 7 0 [1; 2]%N 1; AAppend 7 0 [9; 9]%N 1;
   AResume 1; AResume 0; AFinalize 7 2; AResume 0; AResume 0; AResume 0].

(** The digest check is not the last word on a file: a chunk that was accepted
    before another one completed the upload is still written after the artifact
    was verified, so a ready artifact can hold bytes with another digest when a
    client sends different bytes for one offset. *)
Theorem racing_chunk_corrupts_ready :
  ∃ a f, let '(n, _) := acts (E := ArtifactRepositoryError) toy_sha256 toy_base64 calm_io
                          (calm_start, []) racing_actions in
    artifact_view_of (w_db (n_repo n)) !! 7%N = Some a ∧ a_state a = Ready ∧
    n_files n !! 7%N = Some f ∧ Sha256Hex_from_bytes (toy_sha256 f) ≠ a_sha256 a.
Proof.
  exists (mk_artifact 7 (lit "fw") 2 declared_digest Ready 2 0 2), [9; 9]%N.
  vm_compute. repeat split; discriminate.
Qed.

Definition honest_actions : list Action :=
  [ACreate 7 (lit "fw") 2 declared_digest 0; AAppend 7 0 [1; 2]%N 1; AAppend 7 0 [1]%N 1;
   AResume 1; AResume 0; AFinalize 7 2; AResume 0; AResume 0; AResume 0].

Definition honest_end : Node (World ArtifactTable) * list Task :=
  acts (E := ArtifactRepositoryError) toy_sha256 toy_base64 calm_io (calm_start, []) honest_actions.

Lemma upload_safe_witness :
  ∃ a, artifact_view_of (w_db (n_repo honest_end.1)) !! 7%N = Some a ∧ a_state a = Ready ∧
    Z.of_nat (length (file_of (n_files honest_end.1) 7)) = a_size_bytes a.
Proof.
  exists (mk_artifact 7 (lit "fw") 2 declared_digest Ready 2 0 2).
  assert (artifact_view_of (w_db (n_repo honest_end.1)) !! 7%N =
    Some (mk_artifact 7 (lit "fw") 2 declared_digest Ready 2 0 2)) as Hrow by (vm_compute; reflexivity).
  split; [exact Hrow|]. split; [reflexivity|].
  assert (artifact_table_ok ∅) as Hempty by (intros id m Hm; by rewrite lookup_empty in Hm).
  assert (Forall (honest toy_base64 (λ _, [1; 2]%N)) honest_actions) as Hhonest.
  { repeat constructor; simpl; try lia; intros d [= <-]; reflexivity. }
  destruct (upload_safe (Hlaws := calm_artifact_laws) toy_sha256 toy_base64 calm_io (λ _, [1; 2]%N) (mk_world ∅ 0) honest_actions
    honest_end.1 honest_end.2 Hempty eq_refl Hhonest (surjective_pairing _) 7%N _ Hrow) as (_ & _ & Hready).
  apply Hready. reflexivity.
Defined.

Definition declared_node : Node (World ArtifactTable) :=
  mk_node (mk_world (<[7%N := row_of (Artifact_new 7 (lit "fw") 2 declared_digest 0)]> ∅) 0) ∅ 0.

Lemma declared_node_ok : artifact_table_ok (w_db (n_repo declared_node)).
Proof.
  intros id m. simpl. destruct (decide (id = 7%N)) as [->|Hne].
  - rewrite lookup_insert_eq. intros [= <-]. vm_compute. done.
  - by rewrite lookup_insert_ne, lookup_empty.
Qed.

Definition chunk_end : Node (World ArtifactTable) :=
  (append_chunk (E := ArtifactRepositoryError) toy_base64 calm_io 7 0 [1; 2]%N 5 declared_node).1.

Lemma append_chunk_correct_witness :
  (append_chunk (E := ArtifactRepositoryError) toy_base64 calm_io 7 0 [1; 2]%N 5 declared_node).2 =
    Ok (mk_progress 7 2 2) ∧
  ∃ row, artifact_view_of (w_db (n_repo declared_node)) !! 7%N = Some row ∧ a_state row = Uploading.
Proof.
  split; [vm_compute; reflexivity|].
  assert (append_chunk (E := ArtifactRepositoryError) toy_base64 calm_io 7 0 [1; 2]%N 5 declared_node =
    (chunk_end, Ok (mk_progress 7 2 2))) as Hrun by (vm_compute; reflexivity).
  pose proof (append_chunk_correct (Hlaws := calm_artifact_laws) toy_base64 calm_io 7 0 [1; 2]%N 5 declared_node
    chunk_end (Ok (mk_progress 7 2 2)) declared_node_ok (Z.le_refl 0) Hrun) as (row & Hrow & Hst & _).
  exists row. split; [exact Hrow | exact Hst].
Defined.

Lemma list_complete_witness :
  ∃ n' l, artifact_list (E := ArtifactRepositoryError) calm_start = (n', Ok l) ∧ NoDup l.
Proof.
  do 2 eexists. split; [vm_compute; reflexivity|].
  apply (list_complete (Hlaws := calm_artifact_laws) calm_start (mk_node (mk_world ∅ 9) ∅ 0) []).
  - intros id m Hm. simpl in Hm. by rewrite lookup_empty in Hm.
  - vm_compute. reflexivity.
Defined.

Lemma upload_completes_witness :
  completes (upload toy_sha256 toy_base64 calm_io calm_env 7 (lit "fw") 2 declared_digest [[1]; [2]]%N 0 5)
    ∅ ∅ (<[7%N := row_of (mk_artifact 7 (lit "fw") 2 declared_digest Ready 2 0 5)]> ∅)
    (<[7%N := [1; 2]%N]> ∅) (Ok (mk_artifact 7 (lit "fw") 2 declared_digest Ready 2 0 5)).
Proof.
  assert (Forall2 (chunk_ok toy_base64) [[1]; [2]]%N [[1]; [2]]%N) as Hchunks by (repeat constructor; done).
  assert (ArtifactName_parse (lit "fw") = Ok (lit "fw")) as Hname by (vm_compute; reflexivity).
  assert (Sha256Hex_parse declared_digest = Ok declared_digest) as Hsha by (vm_compute; reflexivity).
  assert (2 ≤ ARTIFACT_MAX_SIZE_BYTES) as Hmax by (unfold ARTIFACT_MAX_SIZE_BYTES; lia).
  pose proof (upload_completes toy_sha256 toy_base64 calm_io calm_env calm_healthy (λ _, eq_refl) (λ _, eq_refl)
    7 (lit "fw") (lit "fw") 2 declared_digest declared_digest [[1]; [2]]%N [[1]; [2]]%N 0 5 ∅ ∅
    eq_refl eq_refl Hname Hsha Hchunks ltac:(done) eq_refl Hmax ltac:(lia)) as Hc.
  cbv zeta in Hc. rewrite !decide_True in Hc by (vm_compute; reflexivity). exact Hc.
Defined.

Lemma finalize_stale_clock_witness :
  ∃ t', completes (finalize toy_sha256 calm_io 7 3)
    (<[7%N := row_of (mk_artifact 7 (lit "fw") 2 declared_digest Uploading 2 5 6)]> ∅)
    (<[7%N := [1; 2]%N]> ∅) t' (<[7%N := [1; 2]%N]> ∅) (Err (StoreRestore RestoreInvalidTimeline)).
Proof.
  eexists. apply (finalize_stale_clock toy_sha256 calm_io calm_env calm_healthy (λ _, eq_refl)
    (mk_artifact 7 (lit "fw") 2 declared_digest Uploading 2 5 6) [1; 2]%N 3); try done; try (vm_compute; reflexivity).
  - split; [|split].
    + unfold artifact_ok, U64_MAX. simpl. split_and!; (lia || done).
    + split; [reflexivity|]. repeat constructor.
    + split; [done|]. split; [split; reflexivity|]. split; [repeat constructor|]. vm_compute. discriminate.
Defined.
End examples.
