(* ===== verification/AuditLog.v ===== *)
(** * AuditLog: the audited facts of the product

    Models [domain/src/audit.rs]: the stable vocabularies, the consistency of an
    operation context, the sequence of the facts of one operation and the facts
    themselves; and the attribution of an executed operation. *)
From S2P Require Import Prelude Text Operation.
Local Open Scope Z_scope.

(** ** The vocabularies

    The macro [stable_audit_codes] gives each one its codes and their parser. *)

Inductive AuditCodeParseError := AuditCodeParseErr.

Inductive AuditActor :=
| ActorSystem | ActorLocalOperator | ActorUser.
#[export] Instance AuditActor_eq_dec : EqDecision AuditActor.
Proof. solve_decision. Defined.
Definition AuditActor_as_str (x : AuditActor) : str :=
  match x with
  | ActorSystem => lit "system"
  | ActorLocalOperator => lit "local-operator"
  | ActorUser => lit "user"
  end.
Definition AuditActor_from_str (value : str) : result AuditActor AuditCodeParseError :=
  ok_or (match_str value
    [("system", ActorSystem); ("local-operator", ActorLocalOperator); ("user", ActorUser)]%string)
    AuditCodeParseErr.
#[export, refine] Instance AuditActor_code : StableCode AuditActor AuditCodeParseError :=
  { code_str := AuditActor_as_str; code_parse := AuditActor_from_str }.
Proof. all: unfold AuditActor_from_str; solve_code. Defined.

Inductive ProductPermission :=
| PermManageEndpoints | PermRefreshEndpoints | PermExecuteOperations | PermManageCredentials
| PermManageUsers | PermManageBackups | PermManageSiteSettings | PermManageCenterBindings
| PermDispatchCenterOperations | PermAuthenticate.
#[export] Instance ProductPermission_eq_dec : EqDecision ProductPermission.
Proof. solve_decision. Defined.
Definition ProductPermission_as_str (x : ProductPermission) : str :=
  match x with
  | PermManageEndpoints => lit "manage-endpoints"
  | PermRefreshEndpoints => lit "refresh-endpoints"
  | PermExecuteOperations => lit "execute-operations"
  | PermManageCredentials => lit "manage-credentials"
  | PermManageUsers => lit "manage-users"
  | PermManageBackups => lit "manage-backups"
  | PermManageSiteSettings => lit "manage-site-settings"
  | PermManageCenterBindings => lit "manage-center-bindings"
  | PermDispatchCenterOperations => lit "dispatch-center-operations"
  | PermAuthenticate => lit "authenticate"
  end.
Definition ProductPermission_from_str (value : str) : result ProductPermission AuditCodeParseError :=
  ok_or (match_str value
    [("manage-endpoints", PermManageEndpoints); ("refresh-endpoints", PermRefreshEndpoints);
     ("execute-operations", PermExecuteOperations); ("manage-credentials", PermManageCredentials);
     ("manage-users", PermManageUsers); ("manage-backups", PermManageBackups);
     ("manage-site-settings", PermManageSiteSettings);
     ("manage-center-bindings", PermManageCenterBindings);
     ("dispatch-center-operations", PermDispatchCenterOperations);
     ("authenticate", PermAuthenticate)]%string)
    AuditCodeParseErr.
#[export, refine] Instance ProductPermission_code : StableCode ProductPermission AuditCodeParseError :=
  { code_str := ProductPermission_as_str; code_parse := ProductPermission_from_str }.
Proof. all: unfold ProductPermission_from_str; solve_code. Defined.

Inductive AuditAction :=
| ActEnrollEndpoint | ActRefreshEndpoint | ActImportEndpoints | ActExecuteOperation | ActLogin
| ActLogout | ActChangePassword | ActManageUsers | ActManageSessions | ActManageTotp
| ActManageBackups | ActManageSettings | ActRegisterSiteBinding | ActRevokeSiteBinding
| ActDispatchCenterOperation.
#[export] Instance AuditAction_eq_dec : EqDecision AuditAction.
Proof. solve_decision. Defined.
Definition AuditAction_as_str (x : AuditAction) : str :=
  match x with
  | ActEnrollEndpoint => lit "enroll-endpoint"
  | ActRefreshEndpoint => lit "refresh-endpoint"
  | ActImportEndpoints => lit "import-endpoints"
  | ActExecuteOperation => lit "execute-operation"
  | ActLogin => lit "login"
  | ActLogout => lit "logout"
  | ActChangePassword => lit "change-password"
  | ActManageUsers => lit "manage-users"
  | ActManageSessions => lit "manage-sessions"
  | ActManageTotp => lit "manage-totp"
  | ActManageBackups => lit "manage-backups"
  | ActManageSettings => lit "manage-settings"
  | ActRegisterSiteBinding => lit "register-site-binding"
  | ActRevokeSiteBinding => lit "revoke-site-binding"
  | ActDispatchCenterOperation => lit "dispatch-center-operation"
  end.
Definition AuditAction_from_str (value : str) : result AuditAction AuditCodeParseError :=
  ok_or (match_str value
    [("enroll-endpoint", ActEnrollEndpoint); ("refresh-endpoint", ActRefreshEndpoint);
     ("import-endpoints", ActImportEndpoints); ("execute-operation", ActExecuteOperation);
     ("login", ActLogin); ("logout", ActLogout); ("change-password", ActChangePassword);
     ("manage-users", ActManageUsers); ("manage-sessions", ActManageSessions);
     ("manage-totp", ActManageTotp); ("manage-backups", ActManageBackups);
     ("manage-settings", ActManageSettings); ("register-site-binding", ActRegisterSiteBinding);
     ("revoke-site-binding", ActRevokeSiteBinding);
     ("dispatch-center-operation", ActDispatchCenterOperation)]%string)
    AuditCodeParseErr.
#[export, refine] Instance AuditAction_code : StableCode AuditAction AuditCodeParseError :=
  { code_str := AuditAction_as_str; code_parse := AuditAction_from_str }.
Proof. all: unfold AuditAction_from_str; solve_code. Defined.

Inductive AuditRedfishOperation :=
| RedfishNone | RedfishProbeCoreCapabilities | RedfishReadCoreResources | RedfishCreateAccount
| RedfishUpdateAccount | RedfishUpdateAccountPassword | RedfishUpdateAccountUserName
| RedfishDeleteAccount | RedfishResetSystem | RedfishResetManager | RedfishManagerResetToDefaults
| RedfishResetChassis | RedfishPowerSupplyReset | RedfishSetBootSourceOverride
| RedfishSecureBootEnable | RedfishSecureBootDisable | RedfishSecureBootResetKeys
| RedfishCreateEventSubscription | RedfishDeleteEventSubscription | RedfishLogClear
| RedfishControlUpdate | RedfishSetTelemetryEnabled | RedfishCreateMetricDefinition
| RedfishUpdateMetricDefinition | RedfishDeleteMetricDefinition
| RedfishCreateMetricReportDefinition | RedfishUpdateMetricReportDefinition
| RedfishDeleteMetricReportDefinition | RedfishUpdateFirmware | RedfishUpdateServicePatch
| RedfishOemSystemConfigProfile | RedfishOemDebugToken | RedfishOemPowerSmoothing
| RedfishPollRemoteTask.
#[export] Instance AuditRedfishOperation_eq_dec : EqDecision AuditRedfishOperation.
Proof. solve_decision. Defined.
Definition AuditRedfishOperation_as_str (x : AuditRedfishOperation) : str :=
  match x with
  | RedfishNone => lit "none"
  | RedfishProbeCoreCapabilities => lit "probe-core-capabilities"
  | RedfishReadCoreResources => lit "read-core-resources"
  | RedfishCreateAccount => lit "create-account"
  | RedfishUpdateAccount => lit "update-account"
  | RedfishUpdateAccountPassword => lit "update-account-password"
  | RedfishUpdateAccountUserName => lit "update-account-user-name"
  | RedfishDeleteAccount => lit "delete-account"
  | RedfishResetSystem => lit "reset-system"
  | RedfishResetManager => lit "reset-manager"
  | RedfishManagerResetToDefaults => lit "manager-reset-to-defaults"
  | RedfishResetChassis => lit "reset-chassis"
  | RedfishPowerSupplyReset => lit "power-supply-reset"
  | RedfishSetBootSourceOverride => lit "set-boot-source-override"
  | RedfishSecureBootEnable => lit "secure-boot-enable"
  | RedfishSecureBootDisable => lit "secure-boot-disable"
  | RedfishSecureBootResetKeys => lit "secure-boot-reset-keys"
  | RedfishCreateEventSubscription => lit "create-event-subscription"
  | RedfishDeleteEventSubscription => lit "delete-event-subscription"
  | RedfishLogClear => lit "log-clear"
  | RedfishControlUpdate => lit "control-update"
  | RedfishSetTelemetryEnabled => lit "set-telemetry-enabled"
  | RedfishCreateMetricDefinition => lit "create-metric-definition"
  | RedfishUpdateMetricDefinition => lit "update-metric-definition"
  | RedfishDeleteMetricDefinition => lit "delete-metric-definition"
  | RedfishCreateMetricReportDefinition => lit "create-metric-report-definition"
  | RedfishUpdateMetricReportDefinition => lit "update-metric-report-definition"
  | RedfishDeleteMetricReportDefinition => lit "delete-metric-report-definition"
  | RedfishUpdateFirmware => lit "update-firmware"
  | RedfishUpdateServicePatch => lit "update-service-patch"
  | RedfishOemSystemConfigProfile => lit "oem-system-config-profile"
  | RedfishOemDebugToken => lit "oem-debug-token"
  | RedfishOemPowerSmoothing => lit "oem-power-smoothing"
  | RedfishPollRemoteTask => lit "poll-remote-task"
  end.
Definition AuditRedfishOperation_from_str (value : str) : result AuditRedfishOperation AuditCodeParseError :=
  ok_or (match_str value
    [("none", RedfishNone); ("probe-core-capabilities", RedfishProbeCoreCapabilities);
     ("read-core-resources", RedfishReadCoreResources); ("create-account", RedfishCreateAccount);
     ("update-account", RedfishUpdateAccount);
     ("update-account-password", RedfishUpdateAccountPassword);
     ("update-account-user-name", RedfishUpdateAccountUserName);
     ("delete-account", RedfishDeleteAccount); ("reset-system", RedfishResetSystem);
     ("reset-manager", RedfishResetManager);
     ("manager-reset-to-defaults", RedfishManagerResetToDefaults);
     ("reset-chassis", RedfishResetChassis); ("power-supply-reset", RedfishPowerSupplyReset);
     ("set-boot-source-override", RedfishSetBootSourceOverride);
     ("secure-boot-enable", RedfishSecureBootEnable);
     ("secure-boot-disable", RedfishSecureBootDisable);
     ("secure-boot-reset-keys", RedfishSecureBootResetKeys);
     ("create-event-subscription", RedfishCreateEventSubscription);
     ("delete-event-subscription", RedfishDeleteEventSubscription);
     ("log-clear", RedfishLogClear); ("control-update", RedfishControlUpdate);
     ("set-telemetry-enabled", RedfishSetTelemetryEnabled);
     ("create-metric-definition", RedfishCreateMetricDefinition);
     ("update-metric-definition", RedfishUpdateMetricDefinition);
     ("delete-metric-definition", RedfishDeleteMetricDefinition);
     ("create-metric-report-definition", RedfishCreateMetricReportDefinition);
     ("update-metric-report-definition", RedfishUpdateMetricReportDefinition);
     ("delete-metric-report-definition", RedfishDeleteMetricReportDefinition);
     ("update-firmware", RedfishUpdateFirmware);
     ("update-service-patch", RedfishUpdateServicePatch);
     ("oem-system-config-profile", RedfishOemSystemConfigProfile);
     ("oem-debug-token", RedfishOemDebugToken); ("oem-power-smoothing", RedfishOemPowerSmoothing);
     ("poll-remote-task", RedfishPollRemoteTask)]%string)
    AuditCodeParseErr.
#[export, refine] Instance AuditRedfishOperation_code : StableCode AuditRedfishOperation AuditCodeParseError :=
  { code_str := AuditRedfishOperation_as_str; code_parse := AuditRedfishOperation_from_str }.
Proof. all: unfold AuditRedfishOperation_from_str; solve_code. Defined.

Inductive AuditProgress :=
| ProgressEndpointCreated | ProgressRowValidated.
#[export] Instance AuditProgress_eq_dec : EqDecision AuditProgress.
Proof. solve_decision. Defined.
Definition AuditProgress_as_str (x : AuditProgress) : str :=
  match x with
  | ProgressEndpointCreated => lit "endpoint-created"
  | ProgressRowValidated => lit "row-validated"
  end.
Definition AuditProgress_from_str (value : str) : result AuditProgress AuditCodeParseError :=
  ok_or (match_str value
    [("endpoint-created", ProgressEndpointCreated); ("row-validated", ProgressRowValidated)]%string)
    AuditCodeParseErr.
#[export, refine] Instance AuditProgress_code : StableCode AuditProgress AuditCodeParseError :=
  { code_str := AuditProgress_as_str; code_parse := AuditProgress_from_str }.
Proof. all: unfold AuditProgress_from_str; solve_code. Defined.

Inductive AuditVerification :=
| VerificationConfirmed | VerificationRejected | VerificationInconclusive.
#[export] Instance AuditVerification_eq_dec : EqDecision AuditVerification.
Proof. solve_decision. Defined.
Definition AuditVerification_as_str (x : AuditVerification) : str :=
  match x with
  | VerificationConfirmed => lit "confirmed"
  | VerificationRejected => lit "rejected"
  | VerificationInconclusive => lit "inconclusive"
  end.
Definition AuditVerification_from_str (value : str) : result AuditVerification AuditCodeParseError :=
  ok_or (match_str value
    [("confirmed", VerificationConfirmed); ("rejected", VerificationRejected);
     ("inconclusive", VerificationInconclusive)]%string)
    AuditCodeParseErr.
#[export, refine] Instance AuditVerification_code : StableCode AuditVerification AuditCodeParseError :=
  { code_str := AuditVerification_as_str; code_parse := AuditVerification_from_str }.
Proof. all: unfold AuditVerification_from_str; solve_code. Defined.

Inductive AuditFailureVerification :=
| FailureVerificationRejected | FailureVerificationInconclusive.
#[export] Instance AuditFailureVerification_eq_dec : EqDecision AuditFailureVerification.
Proof. solve_decision. Defined.
Definition AuditFailureVerification_as_str (x : AuditFailureVerification) : str :=
  match x with
  | FailureVerificationRejected => lit "rejected"
  | FailureVerificationInconclusive => lit "inconclusive"
  end.
Definition AuditFailureVerification_from_str (value : str) : result AuditFailureVerification AuditCodeParseError :=
  ok_or (match_str value
    [("rejected", FailureVerificationRejected); ("inconclusive", FailureVerificationInconclusive)]%string)
    AuditCodeParseErr.
#[export, refine] Instance AuditFailureVerification_code : StableCode AuditFailureVerification AuditCodeParseError :=
  { code_str := AuditFailureVerification_as_str; code_parse := AuditFailureVerification_from_str }.
Proof. all: unfold AuditFailureVerification_from_str; solve_code. Defined.

Inductive AuditOutcomeKind :=
| KindStarted | KindProgress | KindSucceeded | KindFailed.
#[export] Instance AuditOutcomeKind_eq_dec : EqDecision AuditOutcomeKind.
Proof. solve_decision. Defined.
Definition AuditOutcomeKind_as_str (x : AuditOutcomeKind) : str :=
  match x with
  | KindStarted => lit "started"
  | KindProgress => lit "progress"
  | KindSucceeded => lit "succeeded"
  | KindFailed => lit "failed"
  end.
Definition AuditOutcomeKind_from_str (value : str) : result AuditOutcomeKind AuditCodeParseError :=
  ok_or (match_str value
    [("started", KindStarted); ("progress", KindProgress); ("succeeded", KindSucceeded);
     ("failed", KindFailed)]%string)
    AuditCodeParseErr.
#[export, refine] Instance AuditOutcomeKind_code : StableCode AuditOutcomeKind AuditCodeParseError :=
  { code_str := AuditOutcomeKind_as_str; code_parse := AuditOutcomeKind_from_str }.
Proof. all: unfold AuditOutcomeKind_from_str; solve_code. Defined.

Inductive AuditFailure :=
| FailureCredentialUnavailable | FailureTlsTrustFailed | FailureRedfishDiscoveryFailed
| FailureEndpointPersistenceFailed | FailureCoreResourceReadFailed
| FailureSnapshotPersistenceFailed | FailureCsvInvalid | FailureEndpointImportRowFailed
| FailureCenterStoreFailed | FailureCenterRequestRefused | FailureAuthenticationFailed
| FailureSessionRevocationFailed | FailureCapabilityUnsupported.
#[export] Instance AuditFailure_eq_dec : EqDecision AuditFailure.
Proof. solve_decision. Defined.
Definition AuditFailure_as_str (x : AuditFailure) : str :=
  match x with
  | FailureCredentialUnavailable => lit "credential-unavailable"
  | FailureTlsTrustFailed => lit "tls-trust-failed"
  | FailureRedfishDiscoveryFailed => lit "redfish-discovery-failed"
  | FailureEndpointPersistenceFailed => lit "endpoint-persistence-failed"
  | FailureCoreResourceReadFailed => lit "core-resource-read-failed"
  | FailureSnapshotPersistenceFailed => lit "snapshot-persistence-failed"
  | FailureCsvInvalid => lit "csv-invalid"
  | FailureEndpointImportRowFailed => lit "endpoint-import-row-failed"
  | FailureCenterStoreFailed => lit "center-store-failed"
  | FailureCenterRequestRefused => lit "center-request-refused"
  | FailureAuthenticationFailed => lit "authentication-failed"
  | FailureSessionRevocationFailed => lit "session-revocation-failed"
  | FailureCapabilityUnsupported => lit "capability-unsupported"
  end.
Definition AuditFailure_from_str (value : str) : result AuditFailure AuditCodeParseError :=
  ok_or (match_str value
    [("credential-unavailable", FailureCredentialUnavailable);
     ("tls-trust-failed", FailureTlsTrustFailed);
     ("redfish-discovery-failed", FailureRedfishDiscoveryFailed);
     ("endpoint-persistence-failed", FailureEndpointPersistenceFailed);
     ("core-resource-read-failed", FailureCoreResourceReadFailed);
     ("snapshot-persistence-failed", FailureSnapshotPersistenceFailed);
     ("csv-invalid", FailureCsvInvalid);
     ("endpoint-import-row-failed", FailureEndpointImportRowFailed);
     ("center-store-failed", FailureCenterStoreFailed);
     ("center-request-refused", FailureCenterRequestRefused);
     ("authentication-failed", FailureAuthenticationFailed);
     ("session-revocation-failed", FailureSessionRevocationFailed);
     ("capability-unsupported", FailureCapabilityUnsupported)]%string)
    AuditCodeParseErr.
#[export, refine] Instance AuditFailure_code : StableCode AuditFailure AuditCodeParseError :=
  { code_str := AuditFailure_as_str; code_parse := AuditFailure_from_str }.
Proof. all: unfold AuditFailure_from_str; solve_code. Defined.

(** [DeploymentPosture] of [domain/src/lib.rs]. *)
Inductive DeploymentPosture := Standalone | Site | Center.
#[export] Instance DeploymentPosture_eq_dec : EqDecision DeploymentPosture.
Proof. solve_decision. Defined.

(** [AuditAction::names_distinct_target_principal]. *)
Definition names_distinct_target_principal (a : AuditAction) : bool :=
  match a with ActChangePassword => true | _ => false end.

(** [execution_attribution]: an offer of the center that a site executes is the
    center's automation, everything else the base attribution. *)
Definition execution_attribution (base_actor : AuditActor) (base_origin : DeploymentPosture)
    (source : OperationSource) : AuditActor * DeploymentPosture :=
  match base_origin, source with
  | Site, SourceCenter => (ActorSystem, base_origin)
  | _, _ => (base_actor, base_origin)
  end.

(** ** Contexts *)

Inductive AuditTarget :=
| TargetProduct
| TargetEndpointAddress (address : str)
| TargetEndpoint (endpoint : EndpointId).
#[export] Instance AuditTarget_eq_dec : EqDecision AuditTarget.
Proof. solve_decision. Defined.

Inductive AuditTlsTrust := SystemCa | PinnedCertificate.
Definition AuditTlsTrust_as_str (t : AuditTlsTrust) : str :=
  match t with SystemCa => lit "system-ca" | PinnedCertificate => lit "pinned-certificate" end.
Definition AuditTlsTrust_from_str (value : str) : result AuditTlsTrust AuditCodeParseError :=
  ok_or (match_str value
    [("system-ca", SystemCa); ("pinned-certificate", PinnedCertificate)]%string) AuditCodeParseErr.
#[export, refine] Instance AuditTlsTrust_code : StableCode AuditTlsTrust AuditCodeParseError :=
  { code_str := AuditTlsTrust_as_str; code_parse := AuditTlsTrust_from_str }.
Proof. all: unfold AuditTlsTrust_from_str; solve_code. Defined.

Inductive AuditParameterSummary :=
| EndpointEnrollment (credential_id : Uuid) (trust : AuditTlsTrust)
| EndpointRefresh
| CsvEndpointImport (row_count : Z).

Inductive AuditParameterSummaryError := AuditParameterSummaryErr.

(** [AuditParameterSummary::csv_endpoint_import]. *)
Definition csv_endpoint_import (row_count : Z)
    : result AuditParameterSummary AuditParameterSummaryError :=
  if decide (row_count = 0) then Err AuditParameterSummaryErr else Ok (CsvEndpointImport row_count).

Record AuditOperationContext := mk_audit_context {
  ac_operation_id : Uuid;
  ac_actor : AuditActor;
  ac_origin : DeploymentPosture;
  ac_target : AuditTarget;
  ac_parameters : AuditParameterSummary;
  ac_permission : ProductPermission;
  ac_action : AuditAction;
  ac_redfish_operation : AuditRedfishOperation;
  ac_actor_principal_id : option Uuid;
  ac_target_principal_id : option Uuid;
}.

Inductive AuditOperationContextError := AuditOperationContextErr.

(** The matrix of [try_new_with_actor_principal]. *)
Definition context_consistent (target : AuditTarget) (parameters : AuditParameterSummary)
    (permission : ProductPermission) (action : AuditAction) (op : AuditRedfishOperation) : bool :=
  match op with
  | RedfishProbeCoreCapabilities =>
      match target, parameters, permission, action with
      | TargetEndpointAddress _, EndpointEnrollment _ _, PermManageEndpoints, ActEnrollEndpoint => true
      | _, _, _, _ => false
      end
  | RedfishReadCoreResources =>
      match target, parameters, permission, action with
      | TargetEndpoint _, EndpointRefresh, PermRefreshEndpoints, ActRefreshEndpoint => true
      | _, _, _, _ => false
      end
  | RedfishNone =>
      match target, parameters, permission, action with
      | TargetProduct, CsvEndpointImport _, PermManageEndpoints, ActImportEndpoints => true
      | TargetProduct, EndpointRefresh, PermAuthenticate, (ActLogin | ActLogout | ActChangePassword) => true
      | TargetProduct, EndpointRefresh, PermManageUsers,
          (ActManageUsers | ActManageSessions | ActManageTotp) => true
      | TargetProduct, EndpointRefresh, PermManageBackups, ActManageBackups => true
      | TargetProduct, EndpointRefresh, PermManageSiteSettings, ActManageSettings => true
      | TargetProduct, EndpointRefresh, PermManageCenterBindings,
          (ActRegisterSiteBinding | ActRevokeSiteBinding) => true
      | TargetEndpoint _, EndpointRefresh, PermDispatchCenterOperations, ActDispatchCenterOperation => true
      | _, _, _, _ => false
      end
  | _ =>
      match target, parameters, permission, action with
      | TargetEndpoint _, EndpointRefresh, PermExecuteOperations, ActExecuteOperation => true
      | _, _, _, _ => false
      end
  end.

(** [AuditOperationContext::try_new_with_actor_principal]. *)
Definition try_new_with_actor_principal (operation_id : Uuid) (actor : AuditActor)
    (origin : DeploymentPosture) (target : AuditTarget) (parameters : AuditParameterSummary)
    (permission : ProductPermission) (action : AuditAction) (op : AuditRedfishOperation)
    (actor_principal_id : option Uuid) : result AuditOperationContext AuditOperationContextError :=
  if negb (Bool.eqb (bool_decide (actor = ActorUser)) (bool_decide (is_Some actor_principal_id)))
  then Err AuditOperationContextErr
  else if negb (context_consistent target parameters permission action op)
  then Err AuditOperationContextErr
  else Ok (mk_audit_context operation_id actor origin target parameters permission action op
             actor_principal_id None).

(** [AuditOperationContext::try_new]. *)
Definition AuditOperationContext_try_new (operation_id : Uuid) (actor : AuditActor)
    (origin : DeploymentPosture) (target : AuditTarget) (parameters : AuditParameterSummary)
    (permission : ProductPermission) (action : AuditAction) (op : AuditRedfishOperation)
    : result AuditOperationContext AuditOperationContextError :=
  try_new_with_actor_principal operation_id actor origin target parameters permission action op None.

(** [with_target_principal]. *)
Definition with_target_principal (c : AuditOperationContext) (id : Uuid) : AuditOperationContext :=
  mk_audit_context (ac_operation_id c) (ac_actor c) (ac_origin c) (ac_target c) (ac_parameters c)
    (ac_permission c) (ac_action c) (ac_redfish_operation c) (ac_actor_principal_id c) (Some id).

(** ** Facts *)

Inductive AuditOutcome :=
| OutcomeStarted
| OutcomeProgress (progress : AuditProgress)
| OutcomeSucceeded
| OutcomeFailed (failure : AuditFailure) (verification : AuditFailureVerification).
#[export] Instance AuditOutcome_eq_dec : EqDecision AuditOutcome.
Proof. solve_decision. Defined.

Definition failure_verification (v : AuditFailureVerification) : AuditVerification :=
  match v with
  | FailureVerificationRejected => VerificationRejected
  | FailureVerificationInconclusive => VerificationInconclusive
  end.

(** [AuditOutcome::verification] and [AuditOutcome::is_terminal]. *)
Definition outcome_verification (o : AuditOutcome) : option AuditVerification :=
  match o with
  | OutcomeSucceeded => Some VerificationConfirmed
  | OutcomeFailed _ v => Some (failure_verification v)
  | OutcomeStarted | OutcomeProgress _ => None
  end.
Definition outcome_terminal (o : AuditOutcome) : bool :=
  match o with OutcomeSucceeded | OutcomeFailed _ _ => true | _ => false end.

(** [AuditSequence]: a positive [u32]. *)
Inductive AuditSequenceError := SequenceZero | SequenceExhausted.
Definition SEQUENCE_FIRST : Z := 1.
Definition AuditSequence_try_new (value : Z) : result Z AuditSequenceError :=
  if decide (value = 0) then Err SequenceZero else Ok value.
Definition AuditSequence_next (sequence : Z) : result Z AuditSequenceError :=
  if decide (sequence + 1 ≤ U32_MAX) then Ok (sequence + 1) else Err SequenceExhausted.

Record AuditEvent := mk_audit_event {
  ae_id : Uuid;
  ae_context : AuditOperationContext;
  ae_sequence : Z;
  ae_outcome : AuditOutcome;
  ae_occurred_at : OffsetDateTime;
}.

Inductive AuditEventError := InvalidSequence | InvalidProgress.

(** [AuditEvent::try_from_parts]. *)
Definition AuditEvent_try_from_parts (id : Uuid) (context : AuditOperationContext) (sequence : Z)
    (outcome : AuditOutcome) (occurred_at : OffsetDateTime) : result AuditEvent AuditEventError :=
  let sequence_matches_outcome :=
    match outcome with
    | OutcomeStarted => sequence =? SEQUENCE_FIRST
    | OutcomeProgress _ | OutcomeSucceeded | OutcomeFailed _ _ => SEQUENCE_FIRST <? sequence
    end in
  if negb sequence_matches_outcome then Err InvalidSequence
  else
    let consistent :=
      match outcome with
      | OutcomeProgress progress =>
          match ac_action context, progress with
          | ActEnrollEndpoint, ProgressEndpointCreated | ActImportEndpoints, ProgressRowValidated => true
          | _, _ => false
          end
      | _ => true
      end in
    if negb consistent then Err InvalidProgress
    else Ok (mk_audit_event id context sequence outcome occurred_at).

(** [AuditEvent::started], [progress], [succeeded] and [failed]; [id] is the
    generated identity. *)
Definition AuditEvent_started (id : Uuid) (context : AuditOperationContext)
    (occurred_at : OffsetDateTime) : AuditEvent :=
  mk_audit_event id context SEQUENCE_FIRST OutcomeStarted occurred_at.
Definition AuditEvent_progress (id : Uuid) (context : AuditOperationContext) (sequence : Z)
    (progress : AuditProgress) (occurred_at : OffsetDateTime) : result AuditEvent AuditEventError :=
  AuditEvent_try_from_parts id context sequence (OutcomeProgress progress) occurred_at.
Definition AuditEvent_succeeded (id : Uuid) (context : AuditOperationContext) (sequence : Z)
    (occurred_at : OffsetDateTime) : result AuditEvent AuditEventError :=
  AuditEvent_try_from_parts id context sequence OutcomeSucceeded occurred_at.
Definition AuditEvent_failed (id : Uuid) (context : AuditOperationContext) (sequence : Z)
    (failure : AuditFailure) (verification : AuditFailureVerification) (occurred_at : OffsetDateTime)
    : result AuditEvent AuditEventError :=
  AuditEvent_try_from_parts id context sequence (OutcomeFailed failure verification) occurred_at.

(** ** Theorems *)

(** The permission of an accepted context is the one of its action. *)
Definition action_permission (a : AuditAction) : ProductPermission :=
  match a with
  | ActEnrollEndpoint | ActImportEndpoints => PermManageEndpoints
  | ActRefreshEndpoint => PermRefreshEndpoints
  | ActExecuteOperation => PermExecuteOperations
  | ActLogin | ActLogout | ActChangePassword => PermAuthenticate
  | ActManageUsers | ActManageSessions | ActManageTotp => PermManageUsers
  | ActManageBackups => PermManageBackups
  | ActManageSettings => PermManageSiteSettings
  | ActRegisterSiteBinding | ActRevokeSiteBinding => PermManageCenterBindings
  | ActDispatchCenterOperation => PermDispatchCenterOperations
  end.

(** The Redfish operations that name the execution of a write or the polling of
    its task. *)
Definition names_execution (op : AuditRedfishOperation) : bool :=
  match op with
  | RedfishNone | RedfishProbeCoreCapabilities | RedfishReadCoreResources => false
  | _ => true
  end.

Lemma context_consistent_spec target parameters permission action op :
  context_consistent target parameters permission action op = true →
  permission = action_permission action ∧
  (action = ActExecuteOperation ↔ names_execution op = true) ∧
  (target = TargetProduct ↔ action ∉
     [ActEnrollEndpoint; ActRefreshEndpoint; ActExecuteOperation; ActDispatchCenterOperation]).
Proof.
  intros Hc.
  destruct op; destruct target; try discriminate Hc; destruct parameters; try discriminate Hc;
    destruct permission; try discriminate Hc; destruct action; try discriminate Hc;
    (split; [reflexivity|]; split; [split; done|]); split; intros Hx; try discriminate Hx;
    rewrite ?not_elem_of_cons in *; try set_solver.
Qed.

(** C40: A context that is accepted says one thing: the permission is the one of the
    action, the action executes an operation exactly if the Redfish operation
    names a write or its polling, an endpoint is named exactly by the actions
    that touch one, and a principal is named exactly by a user. *)
Theorem context_coherent id actor origin target parameters permission action op principal c :
  try_new_with_actor_principal id actor origin target parameters permission action op principal = Ok c →
  permission = action_permission action ∧
  (action = ActExecuteOperation ↔ names_execution op = true) ∧
  (actor = ActorUser ↔ is_Some principal) ∧
  (target = TargetProduct ↔ action ∉
     [ActEnrollEndpoint; ActRefreshEndpoint; ActExecuteOperation; ActDispatchCenterOperation]) ∧
  c = mk_audit_context id actor origin target parameters permission action op principal None.
Proof.
  unfold try_new_with_actor_principal. destruct (Bool.eqb _ _) eqn:Hactor; [|done]. simpl.
  destruct (context_consistent target parameters permission action op) eqn:Hc; [|done]. simpl.
  intros [= <-]. apply context_consistent_spec in Hc as (? & ? & ?). apply Bool.eqb_prop in Hactor.
  split_and!; try done. rewrite <- (bool_decide_eq_true (actor = ActorUser)), Hactor. apply bool_decide_eq_true.
Qed.

Lemma context_coherent_witness :
  ∃ c, try_new_with_actor_principal 1 ActorUser Site (TargetEndpoint 4) EndpointRefresh
         PermExecuteOperations ActExecuteOperation RedfishResetSystem (Some 2%N) = Ok c ∧
       PermExecuteOperations = action_permission ActExecuteOperation.
Proof.
  eexists. split; [reflexivity|].
  eapply (context_coherent 1 ActorUser Site (TargetEndpoint 4) EndpointRefresh
    PermExecuteOperations ActExecuteOperation RedfishResetSystem (Some 2%N)). reflexivity.
Defined.
