(* ===== verification/RedfishCommand.v ===== *)
(** * RedfishCommand: the typed writes and what they require

    Models the command enumerations of [domain/src/redfish_command.rs] and the
    classifications of commands in [application/src/operation_executor.rs].  The payload structs of
    the variants, which carry validated texts and numbers to the gateway, are one
    type parameter; the classifications do not look into them. *)
From S2P Require Import Prelude Text Operation Capability AuditLog Artifact.

(** ** Commands *)

Section commands.
Context (P : Type).

Inductive SystemCommand := SystemReset (payload : P).
Inductive ManagerCommand := ManagerReset (payload : P) | ResetToDefaults (payload : P).
Inductive ChassisCommand := ChassisReset (payload : P) | PowerSupplyReset (payload : P).
Inductive LogCommand := ClearLog (payload : P).
Inductive ControlCommand := ControlUpdate (payload : P).
Inductive BootCommand := SetBootSourceOverride (payload : P).
Inductive SecureBootCommand := SecureBootEnable | SecureBootDisable | ResetKeys (payload : P).
Inductive EventCommand := CreateSubscription (payload : P) | DeleteSubscription (payload : P).
Inductive TelemetryCommand :=
| SetEnabled (enabled : bool)
| CreateMetricDefinition (payload : P) | UpdateMetricDefinition (payload : P)
| DeleteMetricDefinition (payload : P) | CreateMetricReportDefinition (payload : P)
| UpdateMetricReportDefinition (payload : P) | DeleteMetricReportDefinition (payload : P).
Inductive AccountCommand :=
| CreateAccount (payload : P) | UpdateAccount (payload : P) | UpdateAccountPassword (payload : P)
| UpdateAccountUserName (payload : P) | DeleteAccount (payload : P).
(** [StartUpdate] carries the identity of its artifact and the push URI. *)
Inductive UpdateCommand :=
| StartUpdate (artifact_id : ArtifactId) (push_uri : option str)
| UpdatePatch (payload : P).
Inductive NvidiaSystemConfigProfileCommand :=
| ProfileUpdate (payload : P) | FactoryReset | ActivateProfile.
Inductive NvidiaDebugTokenCommand :=
| GenerateToken (payload : P) | InstallToken (payload : P) | DisableToken | EraseToken (payload : P).
Inductive NvidiaPowerSmoothingCommand := ActivatePresetProfile (payload : P) | ApplyAdminOverrides.
Inductive OemCommand :=
| SystemConfigProfile (command : NvidiaSystemConfigProfileCommand)
| DebugToken (command : NvidiaDebugTokenCommand)
| PowerSmoothing (command : NvidiaPowerSmoothingCommand).

Inductive RedfishCommand :=
| Account (command : AccountCommand)
| System (command : SystemCommand)
| Manager (command : ManagerCommand)
| Chassis (command : ChassisCommand)
| Boot (command : BootCommand)
| SecureBoot (command : SecureBootCommand)
| Event (command : EventCommand)
| Log (command : LogCommand)
| Control (command : ControlCommand)
| Telemetry (command : TelemetryCommand)
| Update (command : UpdateCommand)
| Oem (command : OemCommand).
End commands.
Arguments SecureBootEnable {P}.
Arguments SecureBootDisable {P}.
Arguments SetEnabled {P}.
Arguments StartUpdate {P}.
Arguments SystemReset {P}.
Arguments DeleteAccount {P}.
Arguments Account {P}.
Arguments System {P}.
Arguments Manager {P}.
Arguments Chassis {P}.
Arguments Boot {P}.
Arguments SecureBoot {P}.
Arguments Event {P}.
Arguments Log {P}.
Arguments Control {P}.
Arguments Telemetry {P}.
Arguments Update {P}.
Arguments Oem {P}.

Section classification.
Context {P : Type}.
Implicit Types (c : RedfishCommand P).

(** [RedfishCommand::as_str]. *)
Definition RedfishCommand_as_str c : str :=
  match c with
  | Account _ => lit "account"
  | System _ => lit "system"
  | Manager _ => lit "manager"
  | Chassis _ => lit "chassis"
  | Boot _ => lit "boot"
  | SecureBoot _ => lit "secure-boot"
  | Event _ => lit "event"
  | Log _ => lit "log"
  | Control _ => lit "control"
  | Telemetry _ => lit "telemetry"
  | Update _ => lit "update"
  | Oem _ => lit "oem"
  end.

(** [recovery_judgement_proves_effect]: whether a confirmed re-read asserts the
    durable effect of the write. *)
Definition recovery_judgement_proves_effect c : bool :=
  match c with
  | Account (UpdateAccountPassword _ _)
  | System _ | Manager _ | Chassis _ | Boot _ | SecureBoot _ | Log _ | Control _ | Update _ | Oem _ => false
  | Account _ | Event _ | Telemetry _ => true
  end.

(** [command_audit_operation]. *)
Definition command_audit_operation c : AuditRedfishOperation :=
  match c with
  | Account account =>
      match account with
      | CreateAccount _ _ => RedfishCreateAccount
      | UpdateAccount _ _ => RedfishUpdateAccount
      | UpdateAccountPassword _ _ => RedfishUpdateAccountPassword
      | UpdateAccountUserName _ _ => RedfishUpdateAccountUserName
      | DeleteAccount _ => RedfishDeleteAccount
      end
  | System (SystemReset _) => RedfishResetSystem
  | Manager (ManagerReset _ _) => RedfishResetManager
  | Manager (ResetToDefaults _ _) => RedfishManagerResetToDefaults
  | Chassis (ChassisReset _ _) => RedfishResetChassis
  | Chassis (PowerSupplyReset _ _) => RedfishPowerSupplyReset
  | Boot (SetBootSourceOverride _ _) => RedfishSetBootSourceOverride
  | SecureBoot SecureBootEnable => RedfishSecureBootEnable
  | SecureBoot SecureBootDisable => RedfishSecureBootDisable
  | SecureBoot (ResetKeys _ _) => RedfishSecureBootResetKeys
  | Event (CreateSubscription _ _) => RedfishCreateEventSubscription
  | Event (DeleteSubscription _ _) => RedfishDeleteEventSubscription
  | Log (ClearLog _ _) => RedfishLogClear
  | Control (ControlUpdate _ _) => RedfishControlUpdate
  | Telemetry (SetEnabled _) => RedfishSetTelemetryEnabled
  | Telemetry (CreateMetricDefinition _ _) => RedfishCreateMetricDefinition
  | Telemetry (UpdateMetricDefinition _ _) => RedfishUpdateMetricDefinition
  | Telemetry (DeleteMetricDefinition _ _) => RedfishDeleteMetricDefinition
  | Telemetry (CreateMetricReportDefinition _ _) => RedfishCreateMetricReportDefinition
  | Telemetry (UpdateMetricReportDefinition _ _) => RedfishUpdateMetricReportDefinition
  | Telemetry (DeleteMetricReportDefinition _ _) => RedfishDeleteMetricReportDefinition
  | Update (StartUpdate _ _) => RedfishUpdateFirmware
  | Update (UpdatePatch _ _) => RedfishUpdateServicePatch
  | Oem (SystemConfigProfile _ _) => RedfishOemSystemConfigProfile
  | Oem (DebugToken _ _) => RedfishOemDebugToken
  | Oem (PowerSmoothing _ _) => RedfishOemPowerSmoothing
  end.

(** [required_capability]. *)
Definition required_capability c : EndpointCapability :=
  match c with
  | Account _ => CapAccounts
  | System _ | Boot _ => CapSystems
  | Manager _ => CapManagers
  | Chassis _ => CapChassis
  | SecureBoot _ => CapSecureBoot
  | Event _ => CapEventService
  | Log _ => CapLogServices
  | Control _ => CapControls
  | Telemetry _ => CapTelemetryService
  | Update _ => CapUpdateService
  | Oem (SystemConfigProfile _ _) => CapOemNvidiaProfiles
  | Oem (DebugToken _ _) => CapOemNvidiaSecurity
  | Oem (PowerSmoothing _ _) => CapOemNvidiaPowerManagement
  end.

(** Every write is audited under a name of its own kind, and requires a
    capability of the ledger. *)
Lemma command_audited c :
  names_execution (command_audit_operation c) = true ∧
  required_capability c ∈ CAPABILITY_LEDGER_ORDER.
Proof.
  split.
  - destruct c as [[]|[]|[]|[]|[]|[]|[]|[]|[]|[]|[]|[]]; reflexivity.
  - unfold CAPABILITY_LEDGER_ORDER. destruct c as [| | | | | | | | | | |[]]; simpl; set_solver.
Qed.
End classification.
