(* ===== verification/RemoteTask.v ===== *)
(** * RemoteTask: the observation of an asynchronous Task

    Models [operation-engine/src/remote_task.rs] (task states, task URIs, the
    observation row), the trait of
    [operation-engine/src/remote_task_store.rs] as a class with its contract, and its
    rows in [persistence/src/remote_task_repository.rs]. *)
From S2P Require Import Prelude Text Operation Database.

(** ** States *)

Inductive RemoteTaskState :=
| TaskNew | TaskStarting | TaskRunning | TaskSuspended | TaskInterrupted | TaskPending
| TaskStopping | TaskCompleted | TaskKilled | TaskException | TaskService | TaskCancelling
| TaskCancelled.
#[export] Instance RemoteTaskState_eq_dec : EqDecision RemoteTaskState.
Proof. solve_decision. Defined.

Inductive RemoteTaskStateParseError := RemoteTaskStateParseErr.

(** [RemoteTaskState::as_str]. *)
Definition RemoteTaskState_as_str (s : RemoteTaskState) : str :=
  match s with
  | TaskNew => lit "new"
  | TaskStarting => lit "starting"
  | TaskRunning => lit "running"
  | TaskSuspended => lit "suspended"
  | TaskInterrupted => lit "interrupted"
  | TaskPending => lit "pending"
  | TaskStopping => lit "stopping"
  | TaskCompleted => lit "completed"
  | TaskKilled => lit "killed"
  | TaskException => lit "exception"
  | TaskService => lit "service"
  | TaskCancelling => lit "cancelling"
  | TaskCancelled => lit "cancelled"
  end.

(** [RemoteTaskState::from_str]. *)
Definition RemoteTaskState_from_str (value : str) : result RemoteTaskState RemoteTaskStateParseError :=
  ok_or (match_str value
    [("new", TaskNew); ("starting", TaskStarting); ("running", TaskRunning);
     ("suspended", TaskSuspended); ("interrupted", TaskInterrupted); ("pending", TaskPending);
     ("stopping", TaskStopping); ("completed", TaskCompleted); ("killed", TaskKilled);
     ("exception", TaskException); ("service", TaskService); ("cancelling", TaskCancelling);
     ("cancelled", TaskCancelled)]%string)
    RemoteTaskStateParseErr.

#[export, refine] Instance RemoteTaskState_code :
    StableCode RemoteTaskState RemoteTaskStateParseError :=
  { code_str := RemoteTaskState_as_str; code_parse := RemoteTaskState_from_str }.
Proof. all: unfold RemoteTaskState_from_str; solve_code. Defined.

(** [RemoteTaskState::is_terminal]. *)
Definition task_is_terminal (s : RemoteTaskState) : bool :=
  match s with
  | TaskCompleted | TaskException | TaskKilled | TaskCancelled => true
  | _ => false
  end.

(** ** Task URIs *)

Inductive TaskUriError :=
| UriEmpty
| UriSurroundingWhitespace
| UriControlCharacter
| UriTooLong (actual maximum : nat).

Definition MAX_TASK_URI_BYTES : nat := 4 * 1024.

(** [validate_uri_text]; [value.len()] counts the UTF-8 bytes. *)
Definition validate_uri_text (value : str) (maximum : nat) : result () TaskUriError :=
  if decide (value = []) then Err UriEmpty
  else if decide (trim value ≠ value) then Err UriSurroundingWhitespace
  else if existsb is_control value then Err UriControlCharacter
  else
    let actual := length (as_bytes value) in
    if decide (maximum < actual) then Err (UriTooLong actual maximum) else Ok ().

(** What the validated newtype holds. *)
Definition task_uri_ok (value : str) : bool := is_ok (validate_uri_text value MAX_TASK_URI_BYTES).

Record TaskUri := mk_task_uri {
  uri_text : str;
  uri_valid : Is_true (task_uri_ok uri_text);
}.

Lemma TaskUri_eq (u v : TaskUri) : uri_text u = uri_text v → u = v.
Proof. destruct u, v. simpl. intros ->. f_equal. apply proof_irrel. Qed.

#[export] Instance TaskUri_eq_dec : EqDecision TaskUri.
Proof.
  intros u v. destruct (decide (uri_text u = uri_text v)) as [Heq|Hne].
  - left. by apply TaskUri_eq.
  - right. by intros ->.
Defined.

Lemma task_uri_valid value u :
  validate_uri_text value MAX_TASK_URI_BYTES = Ok u → Is_true (task_uri_ok value).
Proof. unfold task_uri_ok. by intros ->. Qed.

(** [TaskUri::parse]. *)
Definition TaskUri_parse (value : str) : result TaskUri TaskUriError :=
  match validate_uri_text value MAX_TASK_URI_BYTES as r
        return validate_uri_text value MAX_TASK_URI_BYTES = r → result TaskUri TaskUriError with
  | Ok _ => λ valid, Ok (mk_task_uri value (task_uri_valid value _ valid))
  | Err e => λ _, Err e
  end eq_refl.

(** The texts a task URI may hold. *)
Definition task_uri_text (value : str) : Prop :=
  value ≠ [] ∧ trimmed value ∧ Forall (λ c, is_control c = false) value ∧
  length (as_bytes value) ≤ MAX_TASK_URI_BYTES.

Lemma validate_uri_text_ok value maximum :
  is_ok (validate_uri_text value maximum) = true ↔
  value ≠ [] ∧ trimmed value ∧ Forall (λ c, is_control c = false) value ∧
  length (as_bytes value) ≤ maximum.
Proof.
  unfold validate_uri_text. rewrite <- trim_trimmed_iff.
  destruct (existsb is_control value) eqn:Hc.
  - apply existsb_exists in Hc as (c & Hin & Hc). split.
    + split_cases.
    + intros (? & ? & Hall & _). rewrite Forall_forall in Hall. apply list_elem_of_In in Hin.
      specialize (Hall _ Hin). congruence.
  - apply existsb_false in Hc. split.
    + case_decide; [done|]. case_decide as Ht; [done|]. case_decide; [done|]. intros _.
      split; [done|]. split; [by destruct (decide (trim value = value))|]. split; [done|lia].
    + intros (? & ? & _ & ?). rewrite !decide_False by (auto; lia). done.
Qed.

(** Parsing accepts exactly the texts a task URI may hold, and gives back the
    text unchanged. *)
Lemma TaskUri_parse_spec value u :
  TaskUri_parse value = Ok u ↔ task_uri_text value ∧ uri_text u = value.
Proof.
  unfold task_uri_text. rewrite <- validate_uri_text_ok. unfold TaskUri_parse. split.
  - generalize (task_uri_valid value) as valid.
    destruct (validate_uri_text value MAX_TASK_URI_BYTES); [|done]. by intros valid [= <-].
  - intros [Hok <-].
    assert (∀ r (H : validate_uri_text (uri_text u) MAX_TASK_URI_BYTES = r), is_ok r = true →
      (match r as r0 return validate_uri_text (uri_text u) MAX_TASK_URI_BYTES = r0 → _ with
       | Ok _ => λ valid, Ok (mk_task_uri (uri_text u) (task_uri_valid (uri_text u) _ valid))
       | Err e => λ _, Err e
       end) H = Ok u) as Hgen.
    { intros [] H Hr; [|done]. f_equal. by apply TaskUri_eq. }
    by apply Hgen.
Qed.

Lemma TaskUri_parse_text u : TaskUri_parse (uri_text u) = Ok u.
Proof.
  apply TaskUri_parse_spec. split; [|done]. apply validate_uri_text_ok.
  apply Is_true_true_1, (uri_valid u).
Qed.

(** ** The observation row *)

Record RemoteTask := mk_remote_task {
  task_operation_id : OperationId;
  task_endpoint_id : EndpointId;
  task_uri : TaskUri;
  task_monitor_uri : option TaskUri;
  task_last_state : RemoteTaskState;
  task_last_message : option str;
  task_percent_complete : option Z;
  task_last_checked_at : OffsetDateTime;
}.
#[export] Instance RemoteTask_eq_dec : EqDecision RemoteTask.
Proof. solve_decision. Defined.

Inductive RemoteTaskError := PercentOutOfRange (percent_complete : Z).

(** [RemoteTask::new]. *)
Definition RemoteTask_new (operation_id : OperationId) (endpoint_id : EndpointId)
    (uri : TaskUri) (monitor_uri : option TaskUri) (last_checked_at : OffsetDateTime) : RemoteTask :=
  {| task_operation_id := operation_id; task_endpoint_id := endpoint_id; task_uri := uri;
     task_monitor_uri := monitor_uri; task_last_state := TaskNew; task_last_message := None;
     task_percent_complete := None; task_last_checked_at := last_checked_at |}.

(** [RemoteTask::try_from_parts]; the percentage is a [u64]. *)
Definition RemoteTask_try_from_parts (operation_id : OperationId) (endpoint_id : EndpointId)
    (uri : TaskUri) (monitor_uri : option TaskUri) (last_state : RemoteTaskState)
    (last_message : option str) (percent_complete : option Z) (last_checked_at : OffsetDateTime)
    : result RemoteTask RemoteTaskError :=
  let task := {| task_operation_id := operation_id; task_endpoint_id := endpoint_id;
                 task_uri := uri; task_monitor_uri := monitor_uri; task_last_state := last_state;
                 task_last_message := last_message; task_percent_complete := percent_complete;
                 task_last_checked_at := last_checked_at |} in
  match percent_complete with
  | Some percent =>
      if decide (100 < percent)%Z then Err (PercentOutOfRange percent) else Ok task
  | None => Ok task
  end.

(** What every observation row satisfies. *)
Definition task_ok (t : RemoteTask) : Prop :=
  match task_percent_complete t with Some p => (0 ≤ p ≤ 100)%Z | None => True end.

Lemma task_try_from_parts_inv id endpoint uri monitor st msg percent at_ t :
  RemoteTask_try_from_parts id endpoint uri monitor st msg percent at_ = Ok t →
  t = mk_remote_task id endpoint uri monitor st msg percent at_ ∧
  match percent with Some p => (p ≤ 100)%Z | None => True end.
Proof.
  unfold RemoteTask_try_from_parts. destruct percent as [p|].
  - case_decide; [done|]. intros [= <-]. split; [done|lia].
  - by intros [= <-].
Qed.

(** A row that was made by the program is accepted again. *)
Lemma task_rehydrate t : task_ok t →
  RemoteTask_try_from_parts (task_operation_id t) (task_endpoint_id t) (task_uri t)
    (task_monitor_uri t) (task_last_state t) (task_last_message t) (task_percent_complete t)
    (task_last_checked_at t) = Ok t.
Proof.
  unfold task_ok, RemoteTask_try_from_parts. destruct t as [? ? ? ? ? ? [p|] ?]; simpl; [|done].
  intros Hp. by rewrite decide_False by lia.
Qed.

(** ** The store *)

(** The methods of the [RemoteTaskStore] trait. *)
Class RemoteTaskStore (St E : Type) := {
  save_remote_task : RemoteTask → M St E ();
  find_remote_task : OperationId → M St E (option RemoteTask);
  list_remote_tasks_by_state : RemoteTaskState → M St E (list RemoteTask);
}.

(** What a store holds: at most one row per operation. *)
Abbreviation TaskView := (gmap OperationId RemoteTask).

(** What the trait promises: saving is an upsert keyed by the operation, reads
    do not write, and a failed call has no effect. *)
Class RemoteTaskStoreLaws (St E : Type) `{RemoteTaskStore St E} := {
  task_view : St → TaskView;
  task_rows_ok : St → Prop;
  law_save_task t s s' r :
    task_rows_ok s → task_ok t → save_remote_task t s = (s', r) →
    task_rows_ok s' ∧
    task_view s' = match r with
                   | Ok _ => <[task_operation_id t := t]> (task_view s)
                   | Err _ => task_view s
                   end;
  law_find_task id s s' r :
    task_rows_ok s → find_remote_task id s = (s', r) →
    task_rows_ok s' ∧ task_view s' = task_view s ∧ ∀ x, r = Ok x → x = task_view s !! id;
  law_list_tasks st s s' r :
    task_rows_ok s → list_remote_tasks_by_state st s = (s', r) →
    task_rows_ok s' ∧ task_view s' = task_view s ∧
    ∀ l, r = Ok l → NoDup l ∧
      ∀ t, t ∈ l ↔ task_view s !! task_operation_id t = Some t ∧ task_last_state t = st;
}.

(** ** The task rows

    Models [persistence/src/remote_task_repository.rs] over the entity of
    [entity/src/remote_task.rs], and discharges the contract of [RemoteTask]. *)

Local Open Scope Z_scope.

Record remote_task_model := mk_remote_task_model {
  rm_operation_id : Uuid;
  rm_endpoint_id : Uuid;
  rm_task_uri : str;
  rm_task_monitor_uri : option str;
  rm_last_state : str;
  rm_last_message : option str;
  rm_percent_complete : option Z;
  rm_last_checked_at : OffsetDateTime;
}.

Abbreviation TaskTable := (gmap Uuid remote_task_model).

Inductive StoredRemoteTaskError :=
| StoredInvalidState
| StoredInvalidUri (source : TaskUriError)
| StoredInvalidPercentComplete (percent : Z)
| StoredInvalidTask (source : RemoteTaskError).

Inductive RemoteTaskRepositoryError :=
| TaskCoordinate
| TaskCorrupt (operation_id : OperationId) (source : StoredRemoteTaskError)
| PercentCompleteOutOfRange (percent_complete : Z)
| TaskDatabase.

#[export] Instance remote_task_errors : DbErrors RemoteTaskRepositoryError :=
  { err_coordinate := TaskCoordinate; err_database := TaskDatabase }.

Definition I32_MAX : Z := 2147483647.

(** [percent_complete_i32]. *)
Definition percent_complete_i32 (percent_complete : Z) : result Z RemoteTaskRepositoryError :=
  if decide (percent_complete ≤ I32_MAX) then Ok percent_complete
  else Err (PercentCompleteOutOfRange percent_complete).

(** [map_stored_remote_task]. *)
Definition map_stored_remote_task (operation_id : OperationId) (model : remote_task_model)
    : result RemoteTask RemoteTaskRepositoryError :=
  let corrupt := TaskCorrupt operation_id in
  let? state := map_err (λ _, corrupt StoredInvalidState)
    (RemoteTaskState_from_str (rm_last_state model)) in
  let? uri := map_err (λ e, corrupt (StoredInvalidUri e)) (TaskUri_parse (rm_task_uri model)) in
  let? monitor_uri := map_err (λ e, corrupt (StoredInvalidUri e))
    (transpose TaskUri_parse (rm_task_monitor_uri model)) in
  let? percent_complete := transpose
    (λ percent, ok_or (u64_try_from percent) (corrupt (StoredInvalidPercentComplete percent)))
    (rm_percent_complete model) in
  map_err (λ e, corrupt (StoredInvalidTask e))
    (RemoteTask_try_from_parts operation_id (rm_endpoint_id model) uri monitor_uri state
       (rm_last_message model) percent_complete (rm_last_checked_at model)).

(** Listing order: the last check, then the operation. *)
Definition task_model_le (l r : remote_task_model) : Prop :=
  rm_last_checked_at l < rm_last_checked_at r ∨
  (rm_last_checked_at l = rm_last_checked_at r ∧ (rm_operation_id l ≤ rm_operation_id r)%N).
#[export] Instance task_model_le_dec : RelDecision task_model_le.
Proof. intros l r. unfold task_model_le. apply _. Defined.

Section remote_task_repository.
Context (env : Env).
Abbreviation TRepo := (M (World TaskTable) RemoteTaskRepositoryError).

Definition find_task_model (id : Uuid) : TRepo (option remote_task_model) :=
  select env (λ t, t !! id).

(** [UPDATE] of an existing row or [INSERT] of a new one.  A foreign key that is
    not met is one of the failures the environment may report. *)
Definition upsert_task_model (exists_ : bool) (model : remote_task_model) : TRepo () :=
  statement env (λ t,
    match t !! rm_operation_id model, exists_ with
    | Some _, true | None, false => Some (<[rm_operation_id model := model]> t, ())
    | _, _ => None
    end).

(** [SqliteStore::save_remote_task]. *)
Definition save_task (task : RemoteTask) : TRepo () :=
  do! acquire env in
  transaction env (
    let! row := find_task_model (task_operation_id task) in
    let exists_ := match row with Some _ => true | None => false end in
    let! percent_complete := mlift (transpose percent_complete_i32 (task_percent_complete task)) in
    upsert_task_model exists_
      {| rm_operation_id := task_operation_id task; rm_endpoint_id := task_endpoint_id task;
         rm_task_uri := uri_text (task_uri task);
         rm_task_monitor_uri := uri_text <$> task_monitor_uri task;
         rm_last_state := RemoteTaskState_as_str (task_last_state task);
         rm_last_message := task_last_message task; rm_percent_complete := percent_complete;
         rm_last_checked_at := task_last_checked_at task |}).

(** [SqliteStore::find_remote_task]. *)
Definition find_task (operation_id : OperationId) : TRepo (option RemoteTask) :=
  transaction env (
    let! row := find_task_model operation_id in
    match row with
    | None => mret None
    | Some model =>
        let! task := mlift (map_stored_remote_task operation_id model) in
        mret (Some task)
    end).

(** [SqliteStore::list_remote_tasks_by_state]. *)
Definition list_tasks (state : RemoteTaskState) : TRepo (list RemoteTask) :=
  transaction env (
    let! models := select env
      (rows task_model_le (λ m, rm_last_state m = RemoteTaskState_as_str state)) in
    mtraverse (λ model, mlift (map_stored_remote_task (rm_operation_id model) model)) models).
End remote_task_repository.

(** ** The rows as the contract sees them *)

Definition task_of (id : Uuid) (m : remote_task_model) : option RemoteTask :=
  match map_stored_remote_task id m with Ok t => Some t | Err _ => None end.

Definition task_view_of (t : TaskTable) : TaskView := map_imap task_of t.

(** Every row was written by the program. *)
Definition task_table_ok (t : TaskTable) : Prop :=
  ∀ id m, t !! id = Some m → rm_operation_id m = id ∧ is_Some (task_of id m).

Lemma task_view_lookup t id : task_view_of t !! id = t !! id ≫= task_of id.
Proof. apply map_lookup_imap. Qed.

Lemma task_of_inv id m t :
  task_of id m = Some t →
  task_operation_id t = id ∧ rm_last_state m = RemoteTaskState_as_str (task_last_state t).
Proof.
  unfold task_of. destruct (map_stored_remote_task id m) as [t'|] eqn:Hm; [|done]. intros [= ->].
  unfold map_stored_remote_task in Hm. inv_ok. apply task_try_from_parts_inv in Hm as [-> _].
  simpl. split; [done|].
  match goal with H : RemoteTaskState_from_str _ = Ok _ |- _ =>
    exact (code_parse_sound (T := RemoteTaskState) _ _ H) end.
Qed.

(** A row the program writes is read back as it was. *)
Lemma task_of_saved t percent :
  task_ok t → transpose percent_complete_i32 (task_percent_complete t) = Ok percent →
  task_of (task_operation_id t)
    {| rm_operation_id := task_operation_id t; rm_endpoint_id := task_endpoint_id t;
       rm_task_uri := uri_text (task_uri t); rm_task_monitor_uri := uri_text <$> task_monitor_uri t;
       rm_last_state := RemoteTaskState_as_str (task_last_state t);
       rm_last_message := task_last_message t; rm_percent_complete := percent;
       rm_last_checked_at := task_last_checked_at t |} = Some t.
Proof.
  intros Hok Hp. assert (percent = task_percent_complete t) as ->.
  { destruct (task_percent_complete t) as [p|]; simpl in Hp; [|by injection Hp as <-].
    unfold percent_complete_i32 in Hp. case_decide; [|done]. by injection Hp as <-. }
  unfold task_of, map_stored_remote_task. simpl.
  pose proof (code_parse_str (T := RemoteTaskState) (task_last_state t)) as Hst. simpl in Hst.
  rewrite Hst, TaskUri_parse_text. simpl.
  assert (transpose TaskUri_parse (uri_text <$> task_monitor_uri t) = Ok (task_monitor_uri t)) as ->.
  { destruct (task_monitor_uri t); simpl; [by rewrite TaskUri_parse_text | done]. }
  assert (∀ e : Z → RemoteTaskRepositoryError,
    transpose (λ p, ok_or (u64_try_from p) (e p)) (task_percent_complete t) =
    Ok (task_percent_complete t)) as ->.
  { intros e. unfold task_ok in Hok. destruct (task_percent_complete t) as [p|]; simpl; [|done].
    unfold u64_try_from. by rewrite decide_True by lia. }
  simpl. by rewrite task_rehydrate.
Qed.

Lemma save_refines env t w w' r :
  task_table_ok (w_db w) → task_ok t → save_task env t w = (w', r) →
  task_table_ok (w_db w') ∧
  task_view_of (w_db w') = match r with
                           | Ok _ => <[task_operation_id t := t]> (task_view_of (w_db w))
                           | Err _ => task_view_of (w_db w)
                           end.
Proof.
  intros Hok Ht Hrun.
  apply gated_write in Hrun as [(e & -> & ->)|([] & w1 & w2 & -> & Hw1 & Hbody & ->)]; [done|].
  rewrite <- Hw1 in *. clear Hw1. unfold find_task_model, upsert_task_model in Hbody. inv_run.
  match goal with Hx : w_db _ = w_db w1 |- _ => rewrite Hx in Hbody; clear Hx end.
  simpl in Hbody. match goal with Hp : transpose _ _ = Ok _ |- _ =>
    pose proof (task_of_saved _ _ Ht Hp) as Hof end.
  match type of Hof with task_of ?i ?m0 = _ => remember m0 as m eqn:Hm end.
  assert (rm_operation_id m = task_operation_id t) as Hid by by rewrite Hm.
  assert (w_db w2 = <[task_operation_id t := m]> (w_db w1)) as ->.
  { destruct (w_db w1 !! task_operation_id t); by injection Hbody as <-. }
  split.
  - intros k m' Hk. apply lookup_insert_Some in Hk as [[<- <-]|[_ Hk]]; [|by apply Hok].
    split; [done|]. by exists t.
  - apply map_eq. intros k. rewrite task_view_lookup.
    destruct (decide (k = task_operation_id t)) as [->|Hne].
    + by rewrite !lookup_insert_eq.
    + by rewrite !lookup_insert_ne, task_view_lookup by done.
Qed.

Lemma find_refines env id w w' r :
  task_table_ok (w_db w) → find_task env id w = (w', r) →
  w_db w' = w_db w ∧ ∀ x, r = Ok x → x = task_view_of (w_db w) !! id.
Proof.
  intros Hok Hrun. destruct r as [o|e]; [|split; [by eapply transaction_err|done]].
  apply transaction_ok in Hrun as (w1 & w2 & Hw1 & Hbody & ->). rewrite <- Hw1 in *.
  unfold find_task_model in Hbody. inv_run.
  rewrite task_view_lookup. destruct (w_db w1 !! id) as [m|] eqn:Hrow; inv_run.
  - split; [done|]. intros ? [= <-]. simpl. unfold task_of.
    by match goal with Hm : map_stored_remote_task _ _ = Ok _ |- _ => rewrite Hm end.
  - split; [done|]. by intros ? [= <-].
Qed.

Lemma traverse_tasks_ok models (w w' : World TaskTable) l :
  mtraverse (λ model, mlift (map_stored_remote_task (rm_operation_id model) model)) models w =
    (w', Ok l) →
  w_db w' = w_db w ∧ Forall2 (λ m t, task_of (rm_operation_id m) m = Some t) models l.
Proof.
  revert w l. induction models as [|m models IH]; intros w l Hrun; cbn [mtraverse] in Hrun; inv_run.
  - split; [done | constructor].
  - match goal with Ht : mtraverse _ _ _ = _ |- _ => apply IH in Ht as [Hdb' Hf] end.
    split; [congruence|]. constructor; [|done]. unfold task_of.
    by match goal with Hm : map_stored_remote_task _ _ = Ok _ |- _ => rewrite Hm end.
Qed.

Lemma list_refines env st w w' r :
  task_table_ok (w_db w) → list_tasks env st w = (w', r) →
  w_db w' = w_db w ∧ ∀ l, r = Ok l → NoDup l ∧
    ∀ t, t ∈ l ↔ task_view_of (w_db w) !! task_operation_id t = Some t ∧ task_last_state t = st.
Proof.
  intros Hok Hrun. destruct r as [l|e]; [|split; [by eapply transaction_err|done]].
  apply transaction_ok in Hrun as (w1 & w2 & Hw1 & Hbody & ->). rewrite <- Hw1 in *. inv_run.
  apply traverse_tasks_ok in Hbody as [Hdb Hf].
  match goal with Hx : w_db _ = w_db w1 |- _ => rewrite Hx in Hdb end. split; [done|].
  intros ? [= <-].
  assert (rows_keyed rm_operation_id (w_db w1)) as Hkey.
  { intros id m Hm. by apply Hok in Hm as [? _]. }
  set (P := λ m, rm_last_state m = RemoteTaskState_as_str st) in *.
  split.
  - apply (NoDup_fmap_1 task_operation_id).
    assert (task_operation_id <$> l = rm_operation_id <$> rows task_model_le P (w_db w1)) as ->.
    { clear -Hf. induction Hf as [|m o models l Hd Hf IH]; [done|]. simpl. f_equal; [|done].
      by apply task_of_inv in Hd as [-> _]. }
    by apply rows_keys_NoDup.
  - intros t. split.
    + intros [i Ht]%list_elem_of_lookup. destruct (Forall2_lookup_r _ _ _ _ _ Hf Ht) as (m & Hm & Hd).
      apply list_elem_of_lookup_2, (rows_spec rm_operation_id) in Hm as [Hm Hst]; [|done].
      pose proof Hd as [Hid Hst']%task_of_inv. rewrite task_view_lookup, Hid, Hm. simpl.
      rewrite Hd. split; [done|]. unfold P in Hst. rewrite Hst in Hst'.
      symmetry. by apply (code_str_inj (T := RemoteTaskState)).
    + intros [Hv Hst]. rewrite task_view_lookup in Hv.
      destruct (w_db w1 !! task_operation_id t) as [m|] eqn:Hrow; simpl in Hv; [|done].
      pose proof (Hkey _ _ Hrow) as Hid. pose proof Hv as [_ Hst']%task_of_inv.
      assert (m ∈ rows task_model_le P (w_db w1)) as Hm.
      { apply (rows_spec rm_operation_id); [done|]. rewrite Hid. split; [done|]. unfold P. congruence. }
      apply list_elem_of_lookup in Hm as [i Hm].
      destruct (Forall2_lookup_l _ _ _ _ _ Hf Hm) as (t' & Ht' & Hd').
      rewrite Hid in Hd'. simplify_eq. by apply list_elem_of_lookup_2 in Ht'.
Qed.

(** ** The contract, discharged *)

Definition sqlite_tasks (env : Env) : RemoteTaskStore (World TaskTable) RemoteTaskRepositoryError :=
  {| save_remote_task := save_task env; find_remote_task := find_task env;
     list_remote_tasks_by_state := list_tasks env |}.

#[refine] Definition sqlite_task_laws (env : Env) :
  @RemoteTaskStoreLaws (World TaskTable) RemoteTaskRepositoryError (sqlite_tasks env) :=
  {| task_view w := task_view_of (w_db w); task_rows_ok w := task_table_ok (w_db w) |}.
Proof.
  - intros t w w' r. apply save_refines.
  - intros id w w' r Hok Hrun. apply find_refines in Hrun as [-> ?]; done.
  - intros st w w' r Hok Hrun. apply list_refines in Hrun as [-> ?]; done.
Defined.
