(* ===== verification/Executor.v ===== *)
(** * Executor: driving one operation to its end

    First how a driver meets the outside, then
    [application/src/operation_executor.rs].  A driver ([OperationExecutor], [TaskMonitor]) is a sequence of boundary calls
    of [application/src/command_executor.rs], [task_monitor.rs],
    [update_executor.rs] and [audit_log.rs] with early returns.  The process may
    die before any call; what was written and sent before stays.  The log records
    what reached the outside, in order, with the answer the outside gave whether
    or not the process lived to see it. *)
From S2P Require Import Prelude Text Operation OperationEngine Capability Artifact AuditLog RedfishCommand RemoteTask.

(** ** The vocabulary of the boundary *)

Inductive CommandOutcome :=
| Accepted
| AsyncTaskAccepted (task_location : TaskUri)
| Rejected.

Inductive DispatchVerdict := NotExecuted | DispatchOutcomeUnknown.

(** [DispatchVerdictClassifier]: a dispatch error says whether it proves that the
    write was never executed. *)
Class DispatchVerdictClassifier (X : Type) := dispatch_verdict : X → DispatchVerdict.

Inductive VerificationVerdict := Confirmed | Mismatched.
#[export] Instance VerificationVerdict_eq_dec : EqDecision VerificationVerdict.
Proof. solve_decision. Defined.

Record TaskObservation := mk_task_observation {
  to_state : option RemoteTaskState;
  to_message : option str;
  to_percent_complete : option N;
  to_task_monitor_uri : option TaskUri;
}.

Record UpdateArtifactPayload := mk_update_payload {
  up_artifact_id : ArtifactId;
  up_name : str;
  up_bytes : list N;
}.

Inductive EndpointCapabilityQueryError (X : Type) :=
| CapabilityRepositoryFailed (source : X)
| DuplicateObservation (endpoint_id : EndpointId) (capability : EndpointCapability).
Arguments CapabilityRepositoryFailed {X}.
Arguments DuplicateObservation {X}.

Inductive AuditRecordError (X : Type) :=
| RecordParameters (source : AuditParameterSummaryError)
| RecordContext (source : AuditOperationContextError)
| RecordSequence (source : AuditSequenceError)
| RecordEvent (source : AuditEventError)
| RecordWrite (source : X).
Arguments RecordParameters {X}.
Arguments RecordContext {X}.
Arguments RecordSequence {X}.
Arguments RecordEvent {X}.
Arguments RecordWrite {X}.

(** ** The runtime *)

Section drive.
(** The payloads of commands, the store, and the errors of the two stores and of
    every other boundary. *)
Context {P St E RE X : Type}.
Abbreviation Command := (RedfishCommand P).

(** What is outside the process, by the number of the call that asks. *)
Record Surroundings := mk_surroundings {
  dies : nat → bool;
  now_at : nat → OffsetDateTime;
  uuid_at : nat → Uuid;
  endpoint_at : nat → EndpointId → result bool X;
  capabilities_at : nat → EndpointId → result (option (list StoredCapability)) X;
  artifact_at : nat → ArtifactId → result (option Artifact) X;
  artifact_file_at : nat → ArtifactId → option (list N);
  execute_at : nat → EndpointId → Command → result CommandOutcome X;
  execute_update_at :
    nat → EndpointId → UpdateArtifactPayload → option str → result CommandOutcome X;
  verify_at : nat → EndpointId → Command → result VerificationVerdict X;
  read_task_at : nat → EndpointId → TaskUri → result (option TaskObservation) X;
  audit_fault_at : nat → option X;
}.

(** What reached the outside.  The operation is the one being driven. *)
Inductive Effect :=
| Audited (event : AuditEvent)
| Dispatched (id : OperationId) (endpoint : EndpointId) (command : Command)
    (answer : result CommandOutcome X)
| Reread (id : OperationId) (endpoint : EndpointId) (command : Command)
    (answer : result VerificationVerdict X)
| TaskRead (id : OperationId) (endpoint : EndpointId) (uri : TaskUri)
    (answer : result (option TaskObservation) X).

Record Runtime := mk_runtime {
  rt_store : St;
  rt_log : list Effect;
  rt_calls : nat;
}.

Definition tick (s : Runtime) : Runtime := mk_runtime (rt_store s) (rt_log s) (S (rt_calls s)).
Definition happened (e : Effect) (s : Runtime) : Runtime :=
  mk_runtime (rt_store s) (rt_log s ++ [e]) (rt_calls s).

Context (w : Surroundings).

(** One awaited call. *)
Definition call {A F} (f : nat → Runtime → Runtime * result A F) : M Runtime (abrupt F) A :=
  λ s,
    if dies w (rt_calls s) then (tick s, Err Died)
    else let '(s', r) := f (rt_calls s) (tick s) in (s', map_err Returned r).

(** A call that only asks. *)
Definition ask {A F} (f : nat → result A F) : M Runtime (abrupt F) A := call (λ n s, (s, f n)).

(** A method of the store. *)
Definition on_store {A F} (m : M St F A) : M Runtime (abrupt F) A :=
  call (λ _ s, let '(st, r) := m (rt_store s) in (mk_runtime st (rt_log s) (rt_calls s), r)).

(** A call that reaches the outside. *)
Definition reach {A F} (f : nat → result A F) (effect : result A F → Effect) : M Runtime (abrupt F) A :=
  call (λ n s, (happened (effect (f n)) s, f n)).

(** [match m.await { Ok(..) => .., Err(..) => .. }]: the error is handled, the
    death of the process is not. *)
Definition attempt {A F G} (m : M Runtime (abrupt F) A) : M Runtime (abrupt G) (result A F) :=
  λ s, match m s with
       | (s', Ok a) => (s', Ok (Ok a))
       | (s', Err (Returned e)) => (s', Ok (Err e))
       | (s', Err Died) => (s', Err Died)
       end.

(** [m.await.map_err(f)?]. *)
Definition mapping {A F G} (f : F → G) (m : M Runtime (abrupt F) A) : M Runtime (abrupt G) A :=
  mmap_err (abrupt_map f) m.

Definition throw {A F} (e : F) : M Runtime (abrupt F) A := mfail (Returned e).
Definition lift {A F} (r : result A F) : M Runtime (abrupt F) A := mlift (map_err Returned r).

(** [Clock::now] and the generation of an identity. *)
Definition clock_now {F} : M Runtime (abrupt F) OffsetDateTime := ask (λ n, Ok (now_at w n)).
Definition generate {F} : M Runtime (abrupt F) Uuid := ask (λ n, Ok (uuid_at w n)).

(** [AuditEventWriter::append_audit_event]: an event that was refused was not
    written. *)
Definition append_audit_event (event : AuditEvent) : M Runtime (abrupt X) () :=
  call (λ n s, match audit_fault_at w n with
               | None => (happened (Audited event) s, Ok ())
               | Some e => (s, Err e)
               end).

(** The gateway. *)
Definition gateway_execute (id : OperationId) (endpoint : EndpointId) (command : Command)
    : M Runtime (abrupt X) CommandOutcome :=
  reach (λ n, execute_at w n endpoint command) (Dispatched id endpoint command).
Definition gateway_execute_update (id : OperationId) (endpoint : EndpointId) (command : Command)
    (artifact : UpdateArtifactPayload) (push_uri : option str) : M Runtime (abrupt X) CommandOutcome :=
  reach (λ n, execute_update_at w n endpoint artifact push_uri) (Dispatched id endpoint command).
Definition gateway_verify (id : OperationId) (endpoint : EndpointId) (command : Command)
    : M Runtime (abrupt X) VerificationVerdict :=
  reach (λ n, verify_at w n endpoint command) (Reread id endpoint command).
Definition gateway_read_task (id : OperationId) (endpoint : EndpointId) (uri : TaskUri)
    : M Runtime (abrupt X) (option TaskObservation) :=
  reach (λ n, read_task_at w n endpoint uri) (TaskRead id endpoint uri).

(** [EndpointCapabilityQuery::execute]. *)
Definition capability_query (endpoint : EndpointId)
    : M Runtime (abrupt (EndpointCapabilityQueryError X))
        (option (list (EndpointCapability * option CapabilityState))) :=
  let! stored := mapping CapabilityRepositoryFailed (ask (λ n, capabilities_at w n endpoint)) in
  match stored with
  | None => mret None
  | Some stored =>
      lift (map_err (DuplicateObservation endpoint) (let? entries := merge_ledger stored in Ok (Some entries)))
  end.

(** [operation_audit_context]. *)
Definition operation_audit_context (endpoint : EndpointId) (op : AuditRedfishOperation)
    (actor : AuditActor) (origin : DeploymentPosture)
    : M Runtime (abrupt AuditOperationContextError) AuditOperationContext :=
  let! id := generate in
  lift (AuditOperationContext_try_new id actor origin (TargetEndpoint endpoint) EndpointRefresh
          PermExecuteOperations ActExecuteOperation op).
End drive.
Arguments Surroundings : clear implicits.
Arguments Effect : clear implicits.
Arguments Runtime : clear implicits.

(** ** Driving one operation to its end

    Models [application/src/operation_executor.rs]: the execution of queued work,
    its pre-flight, the dispatch and the verification, and the recovery of the
    operations a crash left running. *)

Inductive CapabilityPreflight := Usable | Unsupported | Unconfirmed.

Inductive OperationAuditStage := StageStart | StageTerminal.

(** What a drive must remember of its start fact. *)
Record StartedAudit := mk_started_audit {
  sa_context : AuditOperationContext;
  sa_terminal_sequence : Z;
  sa_started_at : OffsetDateTime;
}.

Inductive ExecutorError (E RE X : Type) :=
| ExOperationNotFound (id : OperationId)
| NotQueued (id : OperationId) (state : OperationState)
| NotRecoverable (id : OperationId) (state : OperationState)
| ExEmptyTargets (id : OperationId)
| ExStore (source : E)
| EndpointPreflightFailed (source : X)
| CapabilityPreflightFailed (source : EndpointCapabilityQueryError X)
| RemoteTaskFailed (source : RE)
| ArtifactPreflightFailed (source : X)
| GatewayFailed (source : X)
| UpdateGatewayFailed (source : X)
| VerifierFailed (source : X)
| ExAudit (stage : OperationAuditStage) (source : AuditRecordError X).
Arguments ExOperationNotFound {E RE X}.
Arguments NotQueued {E RE X}.
Arguments NotRecoverable {E RE X}.
Arguments ExEmptyTargets {E RE X}.
Arguments ExStore {E RE X}.
Arguments EndpointPreflightFailed {E RE X}.
Arguments CapabilityPreflightFailed {E RE X}.
Arguments RemoteTaskFailed {E RE X}.
Arguments ArtifactPreflightFailed {E RE X}.
Arguments GatewayFailed {E RE X}.
Arguments UpdateGatewayFailed {E RE X}.
Arguments VerifierFailed {E RE X}.
Arguments ExAudit {E RE X}.

Inductive UpdateArtifactResolutionError (X : Type) :=
| ArtifactMissing | ArtifactNotReady | ArtifactUnreadable
| ArtifactLookupFailed (source : X).
Arguments ArtifactMissing {X}.
Arguments ArtifactNotReady {X}.
Arguments ArtifactUnreadable {X}.
Arguments ArtifactLookupFailed {X}.

(** [at_or_after]. *)
Definition at_or_after (previous observed : OffsetDateTime) : OffsetDateTime := Z.max previous observed.

(** [guard_recovery_race]. *)
Definition guard_recovery_race {E RE X} (error : ExecutorError E RE X) : ExecutorError E RE X :=
  match error with
  | NotQueued id state => NotRecoverable id state
  | other => other
  end.

(** The error of an engine step, as [apply_step] and [apply_step_if_current]
    report it. *)
Definition step_error {E RE X} (id : OperationId) (error : EngineError E) : ExecutorError E RE X :=
  match error with
  | NotFound _ => ExOperationNotFound id
  | EngineInvalidTransition operation_id source => NotQueued operation_id (it_from source)
  | StateChanged operation_id _ observed => NotQueued operation_id observed
  | EngineStore source => ExStore source
  | EmptyTargets | TooManyTargets _ => ExEmptyTargets id
  end.

Section executor.
Context {P St E RE X : Type}.
Context `{OperationStore (RedfishCommand P) St E, RemoteTaskStore St RE, DispatchVerdictClassifier X}.
Context (w : Surroundings P X) (base_actor : AuditActor) (base_origin : DeploymentPosture).
Abbreviation Command := (RedfishCommand P).
Abbreviation Drives A := (M (Runtime P St X) (abrupt (ExecutorError E RE X)) A).

(** ** Steps and audit facts *)

(** [apply_step]. *)
Definition apply_step (id : OperationId) (event : OperationEvent) : Drives (Operation Command) :=
  let! now := clock_now w in
  mapping (step_error id) (on_store w (engine_apply id event now)).

(** [apply_step_if_current]; no other driver holds the operation. *)
Definition apply_step_if_current (id : OperationId) (expected : OperationState)
    (event : OperationEvent) : Drives (Operation Command) :=
  let! now := clock_now w in
  mapping (step_error id) (on_store w (engine_apply_if_current (λ st, st) id expected event now)).

(** [recover_step]. *)
Definition recover_step (id : OperationId) (event : OperationEvent) : Drives (Operation Command) :=
  mapping guard_recovery_race (apply_step id event).

(** [recover_step_if_current]. *)
Definition recover_step_if_current (id : OperationId) (expected : OperationState)
    (event : OperationEvent) : Drives (Operation Command) :=
  mapping guard_recovery_race (apply_step_if_current id expected event).

(** [start_audit]. *)
Definition start_audit (endpoint : EndpointId) (command : Command) (source : OperationSource)
    : Drives StartedAudit :=
  let '(actor, origin) := execution_attribution base_actor base_origin source in
  let! context := mapping (λ e, ExAudit StageStart (RecordContext e))
    (operation_audit_context w endpoint (command_audit_operation command) actor origin) in
  let! terminal_sequence := lift (map_err (λ e, ExAudit StageStart (RecordSequence e))
    (AuditSequence_next SEQUENCE_FIRST)) in
  let! started_at := clock_now w in
  let! event_id := generate w in
  let started := AuditEvent_started event_id context started_at in
  do! mapping (λ e, ExAudit StageStart (RecordWrite e)) (append_audit_event w started) in
  mret (mk_started_audit context terminal_sequence started_at).

(** [record_failure]. *)
Definition record_failure (started : StartedAudit) (failure : AuditFailure)
    (verification : AuditFailureVerification) : Drives () :=
  let! now := clock_now w in
  let! event_id := generate w in
  let! failed := lift (map_err (λ e, ExAudit StageTerminal (RecordEvent e))
    (AuditEvent_failed event_id (sa_context started) (sa_terminal_sequence started) failure
       verification (at_or_after (sa_started_at started) now))) in
  mapping (λ e, ExAudit StageTerminal (RecordWrite e)) (append_audit_event w failed).

(** [record_success]. *)
Definition record_success (started : StartedAudit) : Drives () :=
  let! now := clock_now w in
  let! event_id := generate w in
  let! succeeded := lift (map_err (λ e, ExAudit StageTerminal (RecordEvent e))
    (AuditEvent_succeeded event_id (sa_context started) (sa_terminal_sequence started)
       (at_or_after (sa_started_at started) now))) in
  mapping (λ e, ExAudit StageTerminal (RecordWrite e)) (append_audit_event w succeeded).

(** [refuse]. *)
Definition refuse (id : OperationId) (started : StartedAudit) (failure : AuditFailure)
    : Drives (Operation Command) :=
  let! final_operation := apply_step id EvFailed in
  do! record_failure started failure FailureVerificationRejected in
  mret final_operation.

(** ** Pre-flight *)

(** [endpoint_exists]. *)
Definition endpoint_exists (endpoint : EndpointId) : Drives bool :=
  mapping EndpointPreflightFailed (ask w (λ n, endpoint_at w n endpoint)).

(** The match of [capability_preflight]. *)
Definition preflight_verdict (state : option CapabilityState) : CapabilityPreflight :=
  match state with
  | Some Supported => Usable
  | Some (NotCompiled | NotAdvertised | SchemaIncompatible | ReadOnly) => Unsupported
  | Some (Unauthorized | TemporarilyUnavailable) | None => Unconfirmed
  end.

(** [capability_preflight]. *)
Definition capability_preflight (command : Command) (endpoint : EndpointId) : Drives CapabilityPreflight :=
  let required := required_capability command in
  let! entries := mapping CapabilityPreflightFailed (capability_query w endpoint) in
  mret (preflight_verdict (entries ≫= required_capability_state required)).

(** [resolve_update_artifact]. *)
Definition resolve_update_artifact (id : ArtifactId)
    : M (Runtime P St X) (abrupt (UpdateArtifactResolutionError X)) UpdateArtifactPayload :=
  let! found := mapping ArtifactLookupFailed (ask w (λ n, artifact_at w n id)) in
  let! artifact := lift (ok_or found ArtifactMissing) in
  if decide (a_state artifact ≠ Ready) then throw ArtifactNotReady
  else
    let! bytes := ask w (λ n, ok_or (artifact_file_at w n (a_id artifact)) ArtifactUnreadable) in
    mret (mk_update_payload (a_id artifact) (a_name artifact) bytes).

(** ** Verification *)

(** [verify_target]. *)
Definition verify_target (id : OperationId) (endpoint : EndpointId) (command : Command)
    (started : StartedAudit) : Drives (Operation Command) :=
  let! answer := attempt (gateway_verify w id endpoint command) in
  match answer with
  | Ok Confirmed =>
      let! final_operation := apply_step id EvVerificationPassed in
      do! record_success started in
      mret final_operation
  | Ok Mismatched =>
      let! final_operation := apply_step id EvFailed in
      do! record_failure started FailureCoreResourceReadFailed FailureVerificationRejected in
      mret final_operation
  | Err source =>
      do! apply_step id EvOutcomeUnknown in
      do! record_failure started FailureCoreResourceReadFailed FailureVerificationInconclusive in
      throw (VerifierFailed source)
  end.

(** ** Dispatch *)

(** The verdict of a failed dispatch in [drive_outcome]. *)
Definition failed_dispatch (verdict : DispatchVerdict)
    : OperationEvent * AuditFailure * AuditFailureVerification :=
  match verdict with
  | NotExecuted => (EvFailed, FailureRedfishDiscoveryFailed, FailureVerificationRejected)
  | DispatchOutcomeUnknown =>
      (EvOutcomeUnknown, FailureRedfishDiscoveryFailed, FailureVerificationInconclusive)
  end.

(** [drive_outcome]. *)
Definition drive_outcome (id : OperationId) (endpoint : EndpointId) (command : Command)
    (started : StartedAudit) (outcome : result CommandOutcome X)
    (wrap_error : X → ExecutorError E RE X) : Drives (Operation Command) :=
  match outcome with
  | Ok (AsyncTaskAccepted task_location) =>
      let! now := clock_now w in
      let task := RemoteTask_new id endpoint task_location None now in
      let! saved := attempt (on_store w (save_remote_task task)) in
      match saved with
      | Err source =>
          do! apply_step id EvOutcomeUnknown in
          do! record_failure started FailureRedfishDiscoveryFailed FailureVerificationInconclusive in
          throw (RemoteTaskFailed source)
      | Ok _ => apply_step id EvRemoteTaskStarted
      end
  | Ok Rejected =>
      let! final_operation := apply_step id EvFailed in
      do! record_failure started FailureRedfishDiscoveryFailed FailureVerificationRejected in
      mret final_operation
  | Ok Accepted =>
      do! apply_step id EvExecutionAccepted in
      verify_target id endpoint command started
  | Err source =>
      let '(event, failure, verification) := failed_dispatch (dispatch_verdict source) in
      do! apply_step id event in
      do! record_failure started failure verification in
      throw (wrap_error source)
  end.

(** [dispatch_and_verify]. *)
Definition dispatch_and_verify (id : OperationId) (endpoint : EndpointId) (command : Command)
    (started : StartedAudit) (artifact : option UpdateArtifactPayload) : Drives (Operation Command) :=
  match command with
  | Update (StartUpdate _ push_uri) =>
      match artifact with
      | None => refuse id started FailureEndpointPersistenceFailed
      | Some artifact =>
          let! outcome := attempt (gateway_execute_update w id endpoint command artifact push_uri) in
          drive_outcome id endpoint command started outcome UpdateGatewayFailed
      end
  | _ =>
      let! outcome := attempt (gateway_execute w id endpoint command) in
      drive_outcome id endpoint command started outcome GatewayFailed
  end.

(** ** Execution *)

(** The artifact of a [StartUpdate], resolved before the operation moves; [None]
    asks for a refusal. *)
Definition prepare_artifact (command : Command) : Drives (option (option UpdateArtifactPayload)) :=
  match command with
  | Update (StartUpdate artifact_id _) =>
      let! resolved := attempt (resolve_update_artifact artifact_id) in
      match resolved with
      | Ok artifact => mret (Some (Some artifact))
      | Err (ArtifactLookupFailed source) => throw (ArtifactPreflightFailed source)
      | Err (ArtifactMissing | ArtifactNotReady | ArtifactUnreadable) => mret None
      end
  | _ => mret (Some None)
  end.

(** The rest of [execute_operation], once the pre-flight is passed. *)
Definition execute_prepared (id : OperationId) (state : OperationState) (endpoint : EndpointId)
    (command : Command) (started : StartedAudit) (artifact : option UpdateArtifactPayload)
    : Drives (Operation Command) :=
  do! (if decide (state = Queued)
       then let! _o := apply_step id EvValidationStarted in mret ()
       else mret ()) in
  do! apply_step id EvValidationPassed in
  dispatch_and_verify id endpoint command started artifact.

(** The pre-flight of [execute_operation]. *)
Definition execute_admitted (id : OperationId) (operation : Operation Command)
    (endpoint : EndpointId) : Drives (Operation Command) :=
  let command := op_command operation in
  let! started := start_audit endpoint command (op_source operation) in
  let! known := endpoint_exists endpoint in
  if negb known then refuse id started FailureEndpointPersistenceFailed
  else
    let! preflight := capability_preflight command endpoint in
    match preflight with
    | Unsupported =>
        do! mapping ExStore (on_store w (store_record_failure_kind id CapabilityUnsupported)) in
        refuse id started FailureCapabilityUnsupported
    | Unconfirmed => refuse id started FailureRedfishDiscoveryFailed
    | Usable =>
        let! artifact := prepare_artifact command in
        match artifact with
        | None => refuse id started FailureEndpointPersistenceFailed
        | Some artifact =>
            execute_prepared id (op_state operation) endpoint command started artifact
        end
    end.

(** [execute_operation]. *)
Definition execute_operation (id : OperationId) : Drives (Operation Command) :=
  let! found := mapping ExStore (on_store w (store_find_operation id)) in
  let! operation := lift (ok_or found (ExOperationNotFound id)) in
  let state := op_state operation in
  if decide (state ∉ [Queued; Validating]) then throw (NotQueued id state)
  else
    match op_targets operation with
    | [] => throw (ExEmptyTargets id)
    | target :: _ => execute_admitted id operation (endpoint_id target)
    end.

(** ** Recovery *)

(** [judge_running]. *)
Definition judge_running (id : OperationId) (endpoint : EndpointId) (command : Command)
    (started : StartedAudit) : Drives (Operation Command) :=
  let! answer := attempt (gateway_verify w id endpoint command) in
  match answer with
  | Ok Confirmed =>
      if recovery_judgement_proves_effect command then
        do! recover_step id EvExecutionAccepted in
        let! final_operation := recover_step id EvVerificationPassed in
        do! record_success started in
        mret final_operation
      else
        let! final_operation := recover_step_if_current id Running EvOutcomeUnknown in
        do! record_failure started FailureCoreResourceReadFailed FailureVerificationInconclusive in
        mret final_operation
  | Ok Mismatched =>
      let! final_operation := recover_step_if_current id Running EvFailed in
      do! record_failure started FailureCoreResourceReadFailed FailureVerificationInconclusive in
      mret final_operation
  | Err source =>
      do! recover_step_if_current id Running EvOutcomeUnknown in
      do! record_failure started FailureCoreResourceReadFailed FailureVerificationInconclusive in
      throw (VerifierFailed source)
  end.

(** The two branches of [recover_operation]. *)
Definition recover_admitted (id : OperationId) (operation : Operation Command)
    (endpoint : EndpointId) : Drives (Operation Command) :=
  let command := op_command operation in
  if decide (op_state operation = Running) then
    let! task := mapping RemoteTaskFailed (on_store w (find_remote_task id)) in
    match task with
    | Some _ => recover_step id EvRemoteTaskStarted
    | None =>
        let! started := start_audit endpoint command (op_source operation) in
        judge_running id endpoint command started
    end
  else
    let! started := start_audit endpoint command (op_source operation) in
    mapping guard_recovery_race (verify_target id endpoint command started).

(** [recover_operation]. *)
Definition recover_operation (id : OperationId) : Drives (Operation Command) :=
  let! found := mapping ExStore (on_store w (store_find_operation id)) in
  let! operation := lift (ok_or found (ExOperationNotFound id)) in
  let state := op_state operation in
  if decide (state ∉ [Running; Verifying]) then throw (NotRecoverable id state)
  else
    match op_targets operation with
    | [] => throw (ExEmptyTargets id)
    | target :: _ => recover_admitted id operation (endpoint_id target)
    end.
End executor.
