(* ===== verification/TaskMonitor.v ===== *)
(** * TaskMonitor: following an accepted Task to its end

    Models [application/src/task_monitor.rs]: one poll of one waiting operation,
    the observation row it keeps and the verdicts it draws. *)
From S2P Require Import Prelude Text Operation OperationEngine Capability Artifact AuditLog.
From S2P Require Import RedfishCommand RemoteTask Executor.

Inductive TaskPoll (Command : Type) :=
| StillRunning (operation : Operation Command)
| Deferred (operation : Operation Command)
| Terminal (operation : Operation Command).
Arguments StillRunning {Command}.
Arguments Deferred {Command}.
Arguments Terminal {Command}.

Inductive MonitorAuditStage := MonitorTerminal.

Inductive TaskMonitorError (E RE X : Type) :=
| MonOperationNotFound (id : OperationId)
| NotWaitingRemote (id : OperationId) (state : OperationState)
| MonEmptyTargets (id : OperationId)
| MonStore (source : E)
| MonRemoteTaskStore (source : RE)
| RemoteTaskObservation (id : OperationId) (source : RemoteTaskError)
| MonVerifier (source : X)
| MonAudit (stage : MonitorAuditStage) (source : AuditRecordError X).
Arguments MonOperationNotFound {E RE X}.
Arguments NotWaitingRemote {E RE X}.
Arguments MonEmptyTargets {E RE X}.
Arguments MonStore {E RE X}.
Arguments MonRemoteTaskStore {E RE X}.
Arguments RemoteTaskObservation {E RE X}.
Arguments MonVerifier {E RE X}.
Arguments MonAudit {E RE X}.

(** The error of an engine step, as [apply_step] reports it. *)
Definition monitor_step_error {E RE X} (id : OperationId) (error : EngineError E)
    : TaskMonitorError E RE X :=
  match error with
  | NotFound _ => MonOperationNotFound id
  | EngineInvalidTransition operation_id source => NotWaitingRemote operation_id (it_from source)
  | StateChanged operation_id _ observed => NotWaitingRemote operation_id observed
  | EngineStore source => MonStore source
  | EmptyTargets | TooManyTargets _ => MonEmptyTargets id
  end.

(** [updated_row]: the observation replaces the state, the message and the
    percentage, which is dropped when it is out of range; a monitor URI once
    known is kept. *)
Definition updated_row (task : RemoteTask) (observation : TaskObservation) (state : RemoteTaskState)
    (now : OffsetDateTime) : result RemoteTask RemoteTaskError :=
  RemoteTask_try_from_parts (task_operation_id task) (task_endpoint_id task) (task_uri task)
    (match to_task_monitor_uri observation with
     | Some uri => Some uri
     | None => task_monitor_uri task
     end)
    state (to_message observation)
    (match to_percent_complete observation with
     | Some percent => if decide (percent ≤ 100)%N then Some (Z.of_N percent) else None
     | None => None
     end) now.

Section monitor.
Context {P St E RE X : Type}.
Context `{OperationStore (RedfishCommand P) St E, RemoteTaskStore St RE}.
Context (w : Surroundings P X) (base_actor : AuditActor) (base_origin : DeploymentPosture).
Abbreviation Command := (RedfishCommand P).
Abbreviation Polls A := (M (Runtime P St X) (abrupt (TaskMonitorError E RE X)) A).

(** [apply_step]. *)
Definition monitor_apply_step (id : OperationId) (event : OperationEvent) (now : OffsetDateTime)
    : Polls (Operation Command) :=
  mapping (monitor_step_error id) (on_store w (engine_apply id event now)).

(** [audit_context]. *)
Definition audit_context (endpoint : EndpointId) (source : OperationSource)
    : Polls AuditOperationContext :=
  let '(actor, origin) := execution_attribution base_actor base_origin source in
  mapping (λ e, MonAudit MonitorTerminal (RecordContext e))
    (operation_audit_context w endpoint RedfishPollRemoteTask actor origin).

(** [terminal_sequence]. *)
Definition terminal_sequence : Polls Z :=
  lift (map_err (λ e, MonAudit MonitorTerminal (RecordSequence e)) (AuditSequence_next SEQUENCE_FIRST)).

(** [record_failure]. *)
Definition monitor_record_failure (endpoint : EndpointId) (source : OperationSource)
    (failure : AuditFailure) (verification : AuditFailureVerification)
    (occurred_at : OffsetDateTime) : Polls () :=
  let! context := audit_context endpoint source in
  let! sequence := terminal_sequence in
  let! event_id := generate w in
  let! failed := lift (map_err (λ e, MonAudit MonitorTerminal (RecordEvent e))
    (AuditEvent_failed event_id context sequence failure verification occurred_at)) in
  mapping (λ e, MonAudit MonitorTerminal (RecordWrite e)) (append_audit_event w failed).

(** [record_success]. *)
Definition monitor_record_success (endpoint : EndpointId) (source : OperationSource)
    (occurred_at : OffsetDateTime) : Polls () :=
  let! context := audit_context endpoint source in
  let! sequence := terminal_sequence in
  let! event_id := generate w in
  let! succeeded := lift (map_err (λ e, MonAudit MonitorTerminal (RecordEvent e))
    (AuditEvent_succeeded event_id context sequence occurred_at)) in
  mapping (λ e, MonAudit MonitorTerminal (RecordWrite e)) (append_audit_event w succeeded).

(** [resolve_unknown]. *)
Definition resolve_unknown (id : OperationId) (endpoint : EndpointId) (source : OperationSource)
    (now : OffsetDateTime) : Polls (TaskPoll Command) :=
  let! final_operation := monitor_apply_step id EvOutcomeUnknown now in
  do! monitor_record_failure endpoint source FailureRedfishDiscoveryFailed
        FailureVerificationInconclusive now in
  mret (Terminal final_operation).

(** [verify_target]. *)
Definition monitor_verify_target (id : OperationId) (endpoint : EndpointId) (command : Command)
    (source : OperationSource) (now : OffsetDateTime) : Polls (TaskPoll Command) :=
  let! answer := attempt (gateway_verify w id endpoint command) in
  match answer with
  | Ok Confirmed =>
      let! final_operation := monitor_apply_step id EvVerificationPassed now in
      do! monitor_record_success endpoint source now in
      mret (Terminal final_operation)
  | Ok Mismatched =>
      let! final_operation := monitor_apply_step id EvFailed now in
      do! monitor_record_failure endpoint source FailureCoreResourceReadFailed
            FailureVerificationRejected now in
      mret (Terminal final_operation)
  | Err verifier_error =>
      do! monitor_apply_step id EvOutcomeUnknown now in
      do! monitor_record_failure endpoint source FailureCoreResourceReadFailed
            FailureVerificationInconclusive now in
      throw (MonVerifier verifier_error)
  end.

(** The rest of [observe], once the observation row is saved. *)
Definition observed (operation : Operation Command) (task : RemoteTask) (state : RemoteTaskState)
    (now : OffsetDateTime) : Polls (TaskPoll Command) :=
  if negb (task_is_terminal state) then mret (StillRunning operation)
  else
    let id := op_id operation in
    let endpoint := task_endpoint_id task in
    if decide (state = TaskCompleted) then
      do! monitor_apply_step id EvRemoteTaskCompleted now in
      monitor_verify_target id endpoint (op_command operation) (op_source operation) now
    else
      let! final_operation := monitor_apply_step id EvFailed now in
      do! monitor_record_failure endpoint (op_source operation) FailureRedfishDiscoveryFailed
            FailureVerificationRejected now in
      mret (Terminal final_operation).

(** [observe]. *)
Definition observe (operation : Operation Command) (task : RemoteTask)
    (observation : TaskObservation) (now : OffsetDateTime) : Polls (TaskPoll Command) :=
  match to_state observation with
  | None =>
      resolve_unknown (op_id operation) (task_endpoint_id task) (op_source operation) now
  | Some state =>
      let! updated := lift (map_err (RemoteTaskObservation (task_operation_id task))
        (updated_row task observation state now)) in
      do! mapping MonRemoteTaskStore (on_store w (save_remote_task updated)) in
      observed operation task state now
  end.

(** The match of [poll] on what the BMC says of the Task. *)
Definition poll_task (id : OperationId) (operation : Operation Command) (endpoint : EndpointId)
    (task : RemoteTask) (now : OffsetDateTime) : Polls (TaskPoll Command) :=
  let! answer := attempt (gateway_read_task w id endpoint (task_uri task)) in
  match answer with
  | Err _ => mret (Deferred operation)
  | Ok None => resolve_unknown id endpoint (op_source operation) now
  | Ok (Some observation) => observe operation task observation now
  end.

(** [poll]. *)
Definition poll (id : OperationId) (now : OffsetDateTime) : Polls (TaskPoll Command) :=
  let! found := mapping MonStore (on_store w (store_find_operation id)) in
  let! operation := lift (ok_or found (MonOperationNotFound id)) in
  if decide (op_state operation ≠ WaitingRemote)
  then throw (NotWaitingRemote id (op_state operation))
  else
    match op_targets operation with
    | [] => throw (MonEmptyTargets id)
    | target :: _ =>
        let endpoint := endpoint_id target in
        let! row := mapping MonRemoteTaskStore (on_store w (find_remote_task id)) in
        match row with
        | None => resolve_unknown id endpoint (op_source operation) now
        | Some task => poll_task id operation endpoint task now
        end
    end.

(** [recover_tasks]. *)
Definition recover_tasks : Polls (list (Operation Command)) :=
  mapping MonStore (on_store w (store_list_operations (Some WaitingRemote))).
End monitor.
