(* ===== verification/DriveSafety.v ===== *)
(** * DriveSafety: no operation is sent twice, and no success is invented

    The invariant that every drive of [Executor] and [TaskMonitor] keeps at every
    call, whatever the stores, the BMC, the clock and the process do: the story of
    an operation that its row, its task row and the log tell together. *)
From S2P Require Import Prelude Text Operation OperationEngine Capability Artifact AuditLog.
From S2P Require Import RedfishCommand RemoteTask Executor TaskMonitor.

(** The two stores are one database with separate tables: a call on one leaves
    the rows of the other alone. *)
Class SeparateStores (Command St E RE : Type)
    `{OperationStoreLaws Command St E, RemoteTaskStoreLaws St RE} := {
  sep_create o v : keeps (λ s, task_rows_ok s ∧ task_view s = v) (store_create_operation o);
  sep_find id v : keeps (λ s, task_rows_ok s ∧ task_view s = v) (store_find_operation id);
  sep_apply id st at_ v :
    keeps (λ s, task_rows_ok s ∧ task_view s = v) (store_apply_transition id st at_);
  sep_apply_if id ex st at_ v :
    keeps (λ s, task_rows_ok s ∧ task_view s = v) (store_apply_transition_if_current id ex st at_);
  sep_record_kind id k v :
    keeps (λ s, task_rows_ok s ∧ task_view s = v) (store_record_failure_kind id k);
  sep_save t v : keeps (λ s, store_ok s ∧ store_view s = v) (save_remote_task t);
  sep_find_task id v : keeps (λ s, store_ok s ∧ store_view s = v) (find_remote_task id);
}.

(** ** The story of one operation *)

Section story.
Context {P X : Type} `{DispatchVerdictClassifier X}.
Abbreviation Command := (RedfishCommand P).
Implicit Types (o : Operation Command) (h : list (Effect P X)).

(** The endpoint an operation is driven on. *)
Definition first_endpoint o : option EndpointId := endpoint_id <$> head (op_targets o).

(** The effects of one operation. *)
Definition effect_of (id : OperationId) (e : Effect P X) : Prop :=
  match e with
  | Audited _ => False
  | Dispatched i _ _ _ | Reread i _ _ _ | TaskRead i _ _ _ => i = id
  end.
#[export] Instance effect_of_dec id e : Decision (effect_of id e).
Proof. destruct e; simpl; apply _. Defined.

Definition history (id : OperationId) (log : list (Effect P X)) : list (Effect P X) :=
  filter (effect_of id) log.

(** The answers to the dispatches of a history. *)
Definition answer_of (e : Effect P X) : option (result CommandOutcome X) :=
  match e with Dispatched _ _ _ a => Some a | _ => None end.
Definition answers h : list (result CommandOutcome X) := omap answer_of h.

(** The effects are those of the operation's own command on its own endpoint. *)
Definition about o (e : Effect P X) : Prop :=
  match e with
  | Dispatched _ ep c _ | Reread _ ep c _ => first_endpoint o = Some ep ∧ c = op_command o
  | TaskRead _ ep _ _ => first_endpoint o = Some ep
  | Audited _ => False
  end.

(** A re-read confirmed the expected result. *)
Definition confirmed h : Prop := ∃ i ep c, Reread i ep c (Ok Confirmed) ∈ h.
Definition mismatched h : Prop := ∃ i ep c, Reread i ep c (Ok Mismatched) ∈ h.

(** The Task was seen in a state. *)
Definition task_seen (st : RemoteTaskState) h : Prop :=
  ∃ i ep uri obs, TaskRead i ep uri (Ok (Some obs)) ∈ h ∧ to_state obs = Some st ∧
    Ok (AsyncTaskAccepted uri) ∈ answers h.

(** The write provably landed: the BMC accepted it, its Task completed, or the
    re-read shows an effect only the write has. *)
Definition landed o h : Prop :=
  Ok Accepted ∈ answers h ∨ task_seen TaskCompleted h ∨
  (recovery_judgement_proves_effect (op_command o) = true ∧ confirmed h).

(** The write provably did not achieve its result. *)
Definition provably_failed h : Prop :=
  answers h = [] ∨ answers h = [Ok Rejected] ∨
  (∃ x, answers h = [Err x] ∧ dispatch_verdict x = NotExecuted) ∨
  mismatched h ∨ (∃ st, task_seen st h ∧ task_is_terminal st = true ∧ st ≠ TaskCompleted).

(** What a state says of the effects behind it. *)
Definition phase (st : OperationState) o (task : option RemoteTask) h : Prop :=
  match st with
  | Queued | Validating => answers h = []
  | Running | Unknown | Cancelled => True
  | WaitingRemote => is_Some task
  | Verifying => landed o h
  | Succeeded => landed o h ∧ confirmed h
  | Failed => provably_failed h
  end.

(** A task row is the one of the only dispatch, which was accepted as that
    Task. *)
Definition tracked o (task : option RemoteTask) h : Prop :=
  ∀ t, task = Some t → answers h = [Ok (AsyncTaskAccepted (task_uri t))] ∧
    first_endpoint o = Some (task_endpoint_id t) ∧ task_operation_id t = op_id o ∧ task_ok t.

(** The row, the task row and the effects of one operation agree. *)
Definition story o (task : option RemoteTask) h : Prop :=
  Forall (about o) h ∧ length (answers h) ≤ 1 ∧ tracked o task h ∧ phase (op_state o) o task h.

Lemma history_app id log e : effect_of id e → history id (log ++ [e]) = history id log ++ [e].
Proof. intros He. unfold history. rewrite filter_app. f_equal. by rewrite filter_cons_True. Qed.
Lemma history_other id log e : ¬ effect_of id e → history id (log ++ [e]) = history id log.
Proof.
  intros He. unfold history. rewrite filter_app, filter_cons_False by done.
  by rewrite filter_nil, app_nil_r.
Qed.
Lemma answers_app h h' : answers (h ++ h') = answers h ++ answers h'.
Proof. apply omap_app. Qed.

(** What more effects cannot undo. *)
Lemma confirmed_app h h' : confirmed h → confirmed (h ++ h').
Proof. intros (i & ep & c & Hin). exists i, ep, c. set_solver. Qed.
Lemma mismatched_app h h' : mismatched h → mismatched (h ++ h').
Proof. intros (i & ep & c & Hin). exists i, ep, c. set_solver. Qed.
Lemma task_seen_app st h h' : task_seen st h → task_seen st (h ++ h').
Proof.
  intros (i & ep & uri & obs & Hin & Hst & Ha). exists i, ep, uri, obs.
  rewrite answers_app. set_solver.
Qed.
Lemma landed_app o h h' : landed o h → landed o (h ++ h').
Proof.
  unfold landed. rewrite answers_app. intros [?|[?|[? ?]]]; [set_solver|..].
  - right. left. by apply task_seen_app.
  - right. right. split; [done|by apply confirmed_app].
Qed.

Lemma answers_read h e : answer_of e = None → answers (h ++ [e]) = answers h.
Proof. intros He. rewrite answers_app. unfold answers at 2. simpl. by rewrite He, app_nil_r. Qed.

Lemma provably_failed_app h e :
  answer_of e = None → provably_failed h → provably_failed (h ++ [e]).
Proof.
  intros He. unfold provably_failed. rewrite answers_read by done. intros [?|[?|[?|[?|(st & ? & ?)]]]]; auto 6.
  - do 3 right. left. by apply mismatched_app.
  - do 4 right. exists st. split; [by apply task_seen_app | done].
Qed.

(** Moving to a state whose phase holds. *)
Lemma story_move o task h st now : story o task h → phase st o task h → story (set_state o st now) task h.
Proof. intros (Ha & Hl & Ht & _) Hp. split; [|done]. eapply Forall_impl; [exact Ha|]. by intros []. Qed.

(** One more effect that is not a dispatch. *)
Lemma story_read o task h e :
  story o task h → about o e → answer_of e = None → story o task (h ++ [e]).
Proof.
  intros (Ha & Hl & Ht & Hp) He Hno.
  pose proof (answers_read h e Hno) as Hans.
  split; [apply Forall_app; by repeat constructor|]. rewrite Hans. split; [done|]. split.
  - intros t Hsome. rewrite Hans. by apply Ht.
  - destruct (op_state o); simpl in *; rewrite ?Hans; try done.
    + by apply landed_app.
    + destruct Hp. split; [by apply landed_app | by apply confirmed_app].
    + by apply provably_failed_app.
Qed.

(** The only dispatch. *)
Lemma story_dispatched o h id ep a :
  story o None h → op_state o = Running → answers h = [] → first_endpoint o = Some ep →
  story o None (h ++ [Dispatched id ep (op_command o) a]) ∧
  answers (h ++ [Dispatched id ep (op_command o) a]) = [a].
Proof.
  intros (Ha & _ & _ & _) Hst Hno Hep.
  assert (answers (h ++ [Dispatched id ep (op_command o) a]) = [a]) as Hans.
  { by rewrite answers_app, Hno. }
  split; [|done]. split; [apply Forall_app; by repeat constructor|]. rewrite Hans, Hst.
  split; [done|]. split; [by intros t | done].
Qed.

(** What a re-read shows. *)
Lemma reread_confirmed id ep c h : confirmed (h ++ [Reread id ep c (Ok Confirmed)]).
Proof. exists id, ep, c. apply elem_of_app. right. by left. Qed.
Lemma reread_mismatched id ep c h : mismatched (h ++ [Reread id ep c (Ok Mismatched)]).
Proof. exists id, ep, c. apply elem_of_app. right. by left. Qed.

Lemma confirmed_success o task h id ep c :
  landed o h → phase Succeeded o task (h ++ [Reread id ep c (Ok Confirmed)]).
Proof. intros Hl. split; [by apply landed_app | apply reread_confirmed]. Qed.

Lemma mismatched_failure o task h id ep c :
  phase Failed o task (h ++ [Reread id ep c (Ok Mismatched)]).
Proof. do 3 right. left. apply reread_mismatched. Qed.

(** An operation that was not dispatched has no task row. *)
Lemma story_untracked o task h : story o task h → answers h = [] → task = None.
Proof.
  intros (_ & _ & Ht & _) Hno. destruct task as [t|]; [|done].
  destruct (Ht t eq_refl) as [Hans _]. rewrite Hno in Hans. done.
Qed.
End story.

(** ** What each call does to a story *)

Section rules.
Context {P St E RE X : Type} `{SeparateStores (RedfishCommand P) St E RE}.
Context `{DispatchVerdictClassifier X}.
Context (w : Surroundings P X).
Abbreviation Command := (RedfishCommand P).
Implicit Types (o : Operation Command) (h : list (Effect P X)) (s : Runtime P St X).

(** The clock does not run backwards. *)
Definition clock_monotone : Prop := ∀ n, (now_at w n ≤ now_at w (S n))%Z.
Context (Hclock : clock_monotone).

Definition operations s : gmap OperationId (Operation Command) := v_operations (store_view (rt_store s)).
Definition tasks s : TaskView := task_view (rt_store s).

(** The stores are readable, and no row is from the future. *)
Definition stores_ok s : Prop :=
  store_ok (rt_store s) ∧ task_rows_ok (rt_store s) ∧
  ∀ id o, operations s !! id = Some o → (op_created_at o ≤ now_at w (rt_calls s))%Z.

Definition story_of (id : OperationId) (row : option (Operation Command)) (task : option RemoteTask) h
    : Prop :=
  match row with
  | Some o => op_id o = id ∧ story o task h
  | None => task = None ∧ h = []
  end.

Definition story_at s (id : OperationId) : Prop :=
  story_of id (operations s !! id) (tasks s !! id) (history id (rt_log s)).

(** The invariant. *)
Definition coherent s : Prop := stores_ok s ∧ ∀ id, story_at s id.

(** The invariant, with the story of one operation spelled out. *)
Definition tells id o task h s : Prop :=
  stores_ok s ∧ (∀ i, i ≠ id → story_at s i) ∧
  operations s !! id = Some o ∧ tasks s !! id = task ∧ history id (rt_log s) = h ∧
  op_id o = id ∧ story o task h.

Lemma tells_coherent id o task h s : tells id o task h s → coherent s.
Proof.
  intros (Hok & Hoth & Ho & Ht & Hh & Hid & Hst). split; [done|]. intros i.
  destruct (decide (i = id)) as [->|]; [|by apply Hoth].
  unfold story_at, story_of. by rewrite Ho, Ht, Hh.
Qed.

Lemma coherent_tells id o s :
  coherent s → operations s !! id = Some o → tells id o (tasks s !! id) (history id (rt_log s)) s.
Proof.
  intros [Hok Hall] Ho. pose proof (Hall id) as Hid. unfold story_at, story_of in Hid.
  rewrite Ho in Hid. destruct Hid. split; [done|]. split; [intros i _; apply Hall | done].
Qed.

Lemma tells_tick id o task h s : tells id o task h s → tells id o task h (tick s).
Proof.
  intros ((? & ? & Hc) & ?). split; [|done]. split_and!; [done..|]. intros i o' Ho'.
  specialize (Hc _ _ Ho'). specialize (Hclock (rt_calls s)). simpl. lia.
Qed.

Lemma coherent_tick s : coherent s → coherent (tick s).
Proof.
  intros ((? & ? & Hc) & ?). split; [|done]. split_and!; [done..|]. intros i o' Ho'.
  specialize (Hc _ _ Ho'). specialize (Hclock (rt_calls s)). simpl. lia.
Qed.

(** *** Calls that change nothing of the story *)

(** A method that changes neither rows nor effects. *)
Definition quiet {A F} (m : M (Runtime P St X) F A) : Prop :=
  ∀ id o task h, keeps (tells id o task h) m.

Lemma quiet_ret {A F} (a : A) : quiet (mret a : M _ F A).
Proof. intros ????. apply keeps_ret. Qed.
Lemma quiet_throw {A F} (e : F) : quiet (throw e : M _ _ A).
Proof. intros ????. apply keeps_fail. Qed.
Lemma quiet_lift {A F} (r : result A F) : quiet (lift r).
Proof. intros ????. apply keeps_lift. Qed.
Lemma quiet_bind {A B F} (m : M _ F A) (k : A → M _ F B) :
  quiet m → (∀ a, quiet (k a)) → quiet (mbind m k).
Proof. intros Hm Hk id o t h. apply keeps_bind; [apply Hm|]. intros a. apply Hk. Qed.
Lemma quiet_mapping {A F G} (f : F → G) (m : M _ _ A) : quiet m → quiet (mapping f m).
Proof. intros Hm id o t h. apply keeps_map_err. apply Hm. Qed.
Lemma quiet_attempt {A F G} (m : M _ (abrupt F) A) : quiet m → quiet (attempt (G := G) m).
Proof.
  intros Hm id o t h s Hs. specialize (Hm _ _ _ _ _ Hs). unfold attempt.
  by destruct (m s) as [s' [a|[|e]]].
Qed.

Lemma quiet_call {A F} (f : nat → Runtime P St X → Runtime P St X * result A F) :
  (∀ n id o t h s, tells id o t h s → tells id o t h (f n s).1) → quiet (call w f).
Proof.
  intros Hf id o t h s Hs. unfold call. apply tells_tick in Hs.
  destruct (dies w (rt_calls s)); [done|].
  specialize (Hf (rt_calls s) _ _ _ _ _ Hs). by destruct (f _ _).
Qed.

Lemma quiet_ask {A F} (f : nat → result A F) : quiet (ask w f).
Proof. by apply quiet_call. Qed.

Lemma story_at_audited s e i : story_at (happened (Audited e) s) i ↔ story_at s i.
Proof. unfold story_at. simpl. rewrite history_other by (by intros []). done. Qed.

Lemma quiet_append e : quiet (append_audit_event w e).
Proof.
  apply quiet_call. intros n id o t h s (Hok & Hoth & Ho & Ht & Hh & Hid & Hst).
  destruct (audit_fault_at w n); [done|]. simpl.
  split; [done|]. split; [intros i Hi; apply story_at_audited; auto|].
  split; [done|]. split; [done|]. split; [|done]. simpl.
  by rewrite history_other by (by intros []).
Qed.

Lemma quiet_store {A F} (m : M St F A) :
  (∀ v, keeps (λ st, store_ok st ∧ v_operations (store_view st) = v) m) →
  (∀ v, keeps (λ st, task_rows_ok st ∧ task_view st = v) m) → quiet (on_store w m).
Proof.
  intros Hm Ht. apply quiet_call. intros _ id o t h s ((Hok & Hrok & Hc) & Hoth & Ho & Htk & Hrest).
  specialize (Hm _ (rt_store s) (conj Hok eq_refl)).
  specialize (Ht _ (rt_store s) (conj Hrok eq_refl)).
  destruct (m (rt_store s)) as [st r]. simpl in *. destruct Hm as [Hok' Hv], Ht as [Hrok' Htv].
  unfold tells, stores_ok, story_at, operations, tasks in *. simpl in *. by rewrite Hv, Htv.
Qed.

Lemma quiet_store_find id : quiet (on_store w (store_find_operation (Command := Command) id)).
Proof.
  apply quiet_store; [|apply sep_find]. intros v st [Hok Hv].
  destruct (store_find_operation id st) as [st' r] eqn:Hf.
  apply law_find in Hf as (? & Hv' & _); [|done]. simpl. by rewrite Hv'.
Qed.

Lemma quiet_record_kind id k : quiet (on_store w (store_record_failure_kind (Command := Command) id k)).
Proof.
  apply quiet_store; [|apply sep_record_kind]. intros v st [Hok Hv].
  destruct (store_record_failure_kind id k st) as [st' r] eqn:Hf.
  apply law_record_kind in Hf as [? Hr]; [|done]. simpl.
  destruct r; [destruct Hr as [_ ->]; done | by rewrite Hr].
Qed.

Lemma quiet_find_task id : quiet (on_store w (find_remote_task id)).
Proof.
  apply quiet_store.
  - intros v st [Hok Hv]. pose proof (sep_find_task id _ st (conj Hok eq_refl)) as [? Hv'].
    by rewrite Hv'.
  - intros v st [Hok Hv]. destruct (find_remote_task id st) as [st' r] eqn:Hf.
    apply law_find_task in Hf as (? & Hv' & _); [|done]. simpl. by rewrite Hv'.
Qed.

(** *** Rules *)

Abbreviation ends m Q s := (wp m Q coherent s).

Lemma wp_mapping {A F G} (f : F → G) (m : M (Runtime P St X) (abrupt F) A) Q R s :
  wp m Q R s → wp (mapping f m) Q R s.
Proof. unfold wp, mapping, mmap_err. by destruct (m s) as [s' [a|e]]. Qed.

Lemma wp_quiet {A F} (m : M (Runtime P St X) F A) (Q : A → Runtime P St X → Prop) id o task h s :
  quiet m → tells id o task h s → (∀ a s', tells id o task h s' → Q a s') → ends m Q s.
Proof.
  intros Hm Hs HQ. specialize (Hm _ _ _ _ _ Hs). unfold wp.
  destruct (m s) as [s' [a|e]]; [by apply HQ | by eapply tells_coherent].
Qed.

(** A call of the drive: the process may die before it. *)
Lemma wp_call {A F} (f : nat → Runtime P St X → Runtime P St X * result A F) Q s :
  coherent s →
  (let '(s', r) := f (rt_calls s) (tick s) in
   match r with Ok a => Q a s' | Err _ => coherent s' end) → ends (call w f) Q s.
Proof.
  intros Hs Hf. unfold wp, call. destruct (dies w (rt_calls s)); [by apply coherent_tick|].
  destruct (f _ _) as [s' [a|e]]; done.
Qed.

Lemma wp_attempt_call {A F G} (f : nat → Runtime P St X → Runtime P St X * result A F)
    (Q : result A F → Runtime P St X → Prop) s :
  coherent s → (let '(s', r) := f (rt_calls s) (tick s) in Q r s') →
  ends (attempt (G := G) (call w f)) Q s.
Proof.
  intros Hs Hf. unfold wp, attempt, call. destruct (dies w (rt_calls s)); [by apply coherent_tick|].
  destruct (f _ _) as [s' [a|e]]; done.
Qed.

Lemma effect_of_unique i id (e : Effect P X) : effect_of id e → i ≠ id → ¬ effect_of i e.
Proof. destruct e; simpl; congruence. Qed.

Lemma tells_happened id o task h s e :
  tells id o task h s → effect_of id e → story o task (h ++ [e]) →
  tells id o task (h ++ [e]) (happened e s).
Proof.
  intros (Hok & Hoth & Ho & Ht & Hh & Hid & _) He Hst.
  split; [done|]. split; [|split; [done|split; [done|split; [|done]]]].
  - intros i Hi. specialize (Hoth i Hi). unfold story_at in *. simpl in *.
    rewrite history_other; [done|]. by eapply effect_of_unique.
  - simpl. rewrite history_app by done. by rewrite <- Hh.
Qed.

Lemma wp_reach {A F G} (f : nat → result A F) (effect : result A F → Effect P X)
    (Q : result A F → Runtime P St X → Prop) id o task h s :
  tells id o task h s → (∀ r, effect_of id (effect r)) → (∀ r, story o task (h ++ [effect r])) →
  (∀ r s', tells id o task (h ++ [effect r]) s' → Q r s') →
  ends (attempt (G := G) (reach w f effect)) Q s.
Proof.
  intros Hs Heff Hst HQ. apply wp_attempt_call; [by eapply tells_coherent|]. simpl. apply HQ.
  apply tells_happened; [by apply tells_tick|done|done].
Qed.

(** The row of the driven operation is rewritten. *)
Lemma tells_written id o o' task h s st :
  tells id o task h s → op_id o' = op_id o → op_created_at o' = op_created_at o →
  story o' task h → store_ok st → task_rows_ok st ∧ task_view st = task_view (rt_store s) →
  store_view st = with_operations (store_view (rt_store s)) (<[id := o']> (operations s)) →
  tells id o' task h (mk_runtime st (rt_log s) (rt_calls s)).
Proof.
  intros ((_ & _ & Hc) & Hoth & Ho & Ht & Hh & Hid & _) Hid' Hc' Hst Hok [Htok Htv] Hv.
  assert (operations (mk_runtime st (rt_log s) (rt_calls s)) = <[id := o']> (operations s)) as Hops.
  { unfold operations at 1. simpl. by rewrite Hv. }
  assert (tasks (mk_runtime st (rt_log s) (rt_calls s)) = tasks s) as Htasks by done.
  split; [split; [done|split; [done|]]|].
  - intros i oi Hoi. rewrite Hops in Hoi. simpl.
    apply lookup_insert_Some in Hoi as [[<- <-]|[_ Hoi]]; [|by eapply Hc].
    rewrite Hc'. by eapply Hc.
  - split; [|split; [|rewrite Htasks, Hid'; split; [done|split; [done|by split]]]].
    + intros i Hi. specialize (Hoth i Hi). unfold story_at in *.
      by rewrite Hops, Htasks, lookup_insert_ne by done.
    + by rewrite Hops, lookup_insert_eq.
Qed.

Lemma tells_created id o task h s : tells id o task h s → (op_created_at o ≤ now_at w (rt_calls s))%Z.
Proof. intros ((_ & _ & Hc) & _ & Ho & _). by eapply Hc. Qed.

Lemma tells_stamp id o task h s now :
  tells id o task h s → (op_created_at o ≤ now)%Z → stamp_ok (store_view (rt_store s)) id now.
Proof. intros (_ & _ & Ho & _) Hnow o' Ho'. unfold operations in Ho. by simplify_eq. Qed.

(** A failed call on the operations leaves the story as it was. *)
Lemma tells_unwritten id o task h s st :
  tells id o task h s → store_ok st → task_rows_ok st ∧ task_view st = task_view (rt_store s) →
  store_view st = store_view (rt_store s) → tells id o task h (mk_runtime st (rt_log s) (rt_calls s)).
Proof.
  intros ((_ & _ & Hc) & Hoth & Ho & Ht & Hrest) Hok [Htok Htv] Hv.
  unfold tells, stores_ok, story_at, operations, tasks in *. simpl. rewrite Hv, Htv. done.
Qed.

Lemma engine_apply_separate id ev now v :
  keeps (λ st, task_rows_ok st ∧ task_view st = v) (engine_apply (Command := Command) id ev now).
Proof.
  apply keeps_bind; [apply keeps_map_err; apply sep_find|]. intros found.
  apply keeps_bind; [apply keeps_lift|]. intros current. apply keeps_bind; [apply keeps_lift|].
  intros next. apply keeps_bind; [apply keeps_map_err; apply sep_apply|]. intros _. apply keeps_ret.
Qed.

Lemma engine_apply_if_separate id ex ev now v :
  keeps (λ st, task_rows_ok st ∧ task_view st = v)
    (engine_apply_if_current (Command := Command) (λ st, st) id ex ev now).
Proof.
  apply keeps_bind; [apply keeps_map_err; apply sep_find|]. intros found.
  apply keeps_bind; [apply keeps_lift|]. intros current. case_decide; [apply keeps_fail|].
  apply keeps_bind; [apply keeps_lift|]. intros next st Hst. unfold cas_commit.
  pose proof (sep_apply_if id ex (op_state next) now v st Hst) as Ha.
  destruct (store_apply_transition_if_current _ _ _ _ _) as [st' [u|e]]; [done|].
  unfold classify_conflict. apply (keeps_bind (λ st, task_rows_ok st ∧ task_view st = v)); [|..|done].
  - apply keeps_map_err. apply sep_find.
  - intros found'. repeat case_match; apply keeps_fail.
Qed.

(** One engine step on the driven operation. *)
Lemma wp_engine_apply id ev now o task h s (Q : Operation Command → Runtime P St X → Prop) :
  tells id o task h s → (op_created_at o ≤ now)%Z →
  (∀ st, transition (op_state o) ev = Ok st → story (set_state o st now) task h) →
  (∀ st s', transition (op_state o) ev = Ok st → tells id (set_state o st now) task h s' →
     Q (set_state o st now) s') →
  ends (on_store w (engine_apply id ev now)) Q s.
Proof.
  intros Hs Hnow Hst HQ. apply wp_call; [by eapply tells_coherent|]. simpl.
  pose proof Hs as ((Hok & Htok & _) & _ & Ho & _).
  pose proof (engine_apply_separate id ev now _ _ (conj Htok eq_refl)) as Hsep.
  destruct (engine_apply id ev now (rt_store s)) as [st r] eqn:Hrun.
  apply engine_apply_spec in Hrun as [Hok' Hr]; [|done|by eapply tells_stamp].
  destruct r as [o'|e].
  - destruct Hr as (o0 & st0 & Ho0 & Htr & -> & Hv). unfold operations in Ho. simplify_eq.
    apply HQ; [done|]. change (mk_runtime st (rt_log s) (S (rt_calls s))) with
      (mk_runtime st (rt_log (tick s)) (rt_calls (tick s))).
    eapply tells_written; [by apply tells_tick | done..|by apply Hst|done|done|exact Hv].
  - change (mk_runtime st (rt_log s) (S (rt_calls s))) with
      (mk_runtime st (rt_log (tick s)) (rt_calls (tick s))).
    eapply tells_coherent, tells_unwritten; [by apply tells_tick | done..].
Qed.

(** One conditional step on the driven operation. *)
Lemma wp_engine_apply_if id ex ev now o task h s (Q : Operation Command → Runtime P St X → Prop) :
  tells id o task h s → (op_created_at o ≤ now)%Z →
  (∀ st, transition ex ev = Ok st → op_state o = ex → story (set_state o st now) task h) →
  (∀ st o' s', transition ex ev = Ok st → op_state o = ex →
     tells id (set_state o st now) task h s' → Q o' s') →
  ends (on_store w (engine_apply_if_current (λ st, st) id ex ev now)) Q s.
Proof.
  intros Hs Hnow Hst HQ. apply wp_call; [by eapply tells_coherent|]. simpl.
  pose proof Hs as ((Hok & Htok & _) & _ & Ho & _).
  pose proof (engine_apply_if_separate id ex ev now _ _ (conj Htok eq_refl)) as Hsep.
  destruct (engine_apply_if_current _ id ex ev now (rt_store s)) as [st r] eqn:Hrun.
  change (mk_runtime st (rt_log s) (S (rt_calls s))) with
    (mk_runtime st (rt_log (tick s)) (rt_calls (tick s))).
  apply engine_apply_if_current_spec in Hrun as [Hok' Hr];
    [|done|by eapply tells_stamp|by intros ???].
  destruct r as [o'|e].
  - destruct Hr as (s1 & st0 & Hv1 & Htr & _ & o0 & Ho0 & Hex & _ & Hv).
    rewrite Hv1 in Ho0, Hv. unfold operations in Ho. simplify_eq.
    eapply HQ; [done|done|].
    eapply tells_written; [by apply tells_tick | done..|by apply Hst|done|done|exact Hv].
  - destruct Hr as (s1 & Hv1 & Hv & _).
    assert (store_view st = store_view (rt_store s)) as Hv' by (destruct Hv; congruence).
    eapply tells_coherent, tells_unwritten; [by apply tells_tick | done..].
Qed.

(** Reading the row that is about to be driven. *)
Lemma wp_find id s (Q : option (Operation Command) → Runtime P St X → Prop) :
  coherent s → (∀ s', coherent s' → Q None s') →
  (∀ o task h s', operations s !! id = Some o → tells id o task h s' → Q (Some o) s') →
  ends (on_store w (store_find_operation id)) Q s.
Proof.
  intros Hs HN HS. apply wp_call; [done|]. simpl.
  pose proof Hs as ((Hok & Htok & Hc) & Hall).
  pose proof (sep_find id _ _ (conj Htok eq_refl)) as [Htok' Htv].
  destruct (store_find_operation id (rt_store s)) as [st r] eqn:Hrun. simpl in Htok', Htv.
  apply law_find in Hrun as (Hok' & Hv & Hr); [|done].
  assert (coherent (mk_runtime st (rt_log s) (S (rt_calls s)))) as Hs'.
  { apply coherent_tick in Hs as ((_ & _ & Hc') & Hall').
    unfold coherent, stores_ok, story_at, operations, tasks in *. simpl in *. by rewrite Hv, Htv. }
  destruct r as [x|e]; [|done]. specialize (Hr _ eq_refl). destruct x as [o|]; [|by apply HN].
  eapply HS; [by symmetry|]. apply coherent_tells; [done|]. unfold operations. simpl. by rewrite Hv.
Qed.

(** Reading the task row of the driven operation. *)
Lemma wp_find_task id o task h s (Q : option RemoteTask → Runtime P St X → Prop) :
  tells id o task h s → (∀ s', tells id o task h s' → Q task s') →
  ends (on_store w (find_remote_task id)) Q s.
Proof.
  intros Hs HQ. apply wp_call; [by eapply tells_coherent|]. simpl.
  pose proof Hs as ((Hok & Htok & _) & _ & _ & Ht & _).
  pose proof (sep_find_task id _ _ (conj Hok eq_refl)) as [Hok' Hv].
  destruct (find_remote_task id (rt_store s)) as [st r] eqn:Hrun. simpl in Hok', Hv.
  apply law_find_task in Hrun as (Htok' & Htv & Hr); [|done].
  assert (tells id o task h (mk_runtime st (rt_log s) (S (rt_calls s)))) as Hs'.
  { apply (tells_unwritten id o task h (tick s) st); [by apply tells_tick|done..]. }
  destruct r as [x|e]; [|by eapply tells_coherent].
  specialize (Hr _ eq_refl). unfold tasks in Ht. rewrite Hr, Ht. by apply HQ.
Qed.

(** Saving the task row of the driven operation. *)
Lemma tells_saved id o task h s t st r :
  tells id o task h s → task_operation_id t = id → task_ok t → story o (Some t) h →
  save_remote_task t (rt_store s) = (st, r) →
  tells id o (match r with Ok _ => Some t | Err _ => task end) h
    (mk_runtime st (rt_log s) (rt_calls s)).
Proof.
  intros Hs Hid Hok Hst Hrun. pose proof Hs as ((Hsok & Htok & Hc) & Hoth & Ho & Ht & Hh & Hoid & Hst0).
  pose proof (sep_save t _ _ (conj Hsok eq_refl)) as [Hsok' Hv]. rewrite Hrun in Hsok', Hv. simpl in *.
  apply law_save_task in Hrun as [Htok' Htv]; [|done..]. destruct r as [u|e].
  - assert (operations (mk_runtime st (rt_log s) (rt_calls s)) = operations s) as Hops.
    { unfold operations. simpl. by rewrite Hv. }
    assert (tasks (mk_runtime st (rt_log s) (rt_calls s)) = <[id := t]> (tasks s)) as Htasks.
    { unfold tasks at 1. simpl. by rewrite Htv, Hid. }
    split; [split; [done|split; [done|by rewrite Hops]]|].
    split; [|split; [by rewrite Hops|split; [by rewrite Htasks, lookup_insert_eq | done]]].
    intros i Hi. specialize (Hoth i Hi). unfold story_at in *.
    by rewrite Hops, Htasks, lookup_insert_ne by done.
  - eapply tells_unwritten; done.
Qed.

Lemma wp_save {G} id o task h s t (Q : result () RE → Runtime P St X → Prop) :
  tells id o task h s → task_operation_id t = id → task_ok t → story o (Some t) h →
  (∀ r s', tells id o (match r with Ok _ => Some t | Err _ => task end) h s' → Q r s') →
  ends (attempt (G := G) (on_store w (save_remote_task t))) Q s.
Proof.
  intros Hs Hid Hok Hst HQ. apply wp_attempt_call; [by eapply tells_coherent|]. simpl.
  destruct (save_remote_task t (rt_store s)) as [st r] eqn:Hrun. apply HQ.
  apply (tells_saved id o task h (tick s)); [by apply tells_tick|done..].
Qed.

Lemma wp_save_checked id o task h s t (Q : () → Runtime P St X → Prop) :
  tells id o task h s → task_operation_id t = id → task_ok t → story o (Some t) h →
  (∀ s', tells id o (Some t) h s' → Q () s') → ends (on_store w (save_remote_task t)) Q s.
Proof.
  intros Hs Hid Hok Hst HQ. apply wp_call; [by eapply tells_coherent|]. simpl.
  destruct (save_remote_task t (rt_store s)) as [st r] eqn:Hrun.
  apply (tells_saved id o task h (tick s)) in Hrun; [|by try apply tells_tick..].
  destruct r as [[]|e]; [by apply HQ | by eapply tells_coherent].
Qed.

(** ** The driver's own steps *)

Context (base_actor : AuditActor) (base_origin : DeploymentPosture).

Lemma wp_bind_ends {A B F} (m : M (Runtime P St X) F A) (k : A → M _ F B) (Q : B → Runtime P St X → Prop) s :
  ends m (λ a s', ends (k a) Q s') s → ends (mbind m k) Q s.
Proof. apply wp_bind. Qed.

Lemma wp_clock {F} (Q : OffsetDateTime → Runtime P St X → Prop) id o task h s :
  tells id o task h s →
  (∀ now s', (op_created_at o ≤ now)%Z → tells id o task h s' → Q now s') →
  ends (clock_now (F := F) w) Q s.
Proof.
  intros Hs HQ. apply wp_call; [by eapply tells_coherent|]. simpl.
  apply HQ; [by eapply tells_created | by apply tells_tick].
Qed.

Lemma wp_apply_step id ev o task h s (Q : Operation Command → Runtime P St X → Prop) :
  tells id o task h s →
  (∀ st now, transition (op_state o) ev = Ok st → story (set_state o st now) task h) →
  (∀ st now s', transition (op_state o) ev = Ok st → tells id (set_state o st now) task h s' →
     Q (set_state o st now) s') →
  ends (apply_step (RE := RE) w id ev) Q s.
Proof.
  intros Hs Hst HQ. apply wp_bind. eapply wp_clock; [done|]. intros now s' Hnow Hs'.
  apply wp_mapping. eapply wp_engine_apply; [done|done|..]; eauto.
Qed.

Lemma wp_recover_step id ev o task h s (Q : Operation Command → Runtime P St X → Prop) :
  tells id o task h s →
  (∀ st now, transition (op_state o) ev = Ok st → story (set_state o st now) task h) →
  (∀ st now s', transition (op_state o) ev = Ok st → tells id (set_state o st now) task h s' →
     Q (set_state o st now) s') →
  ends (recover_step (RE := RE) w id ev) Q s.
Proof. intros. apply wp_mapping. by eapply wp_apply_step. Qed.

Lemma wp_recover_step_if id ex ev o task h s (Q : Operation Command → Runtime P St X → Prop) :
  tells id o task h s →
  (∀ st now, transition ex ev = Ok st → op_state o = ex → story (set_state o st now) task h) →
  (∀ st now o' s', transition ex ev = Ok st → op_state o = ex →
     tells id (set_state o st now) task h s' → Q o' s') →
  ends (recover_step_if_current (RE := RE) w id ex ev) Q s.
Proof.
  intros Hs Hst HQ. apply wp_mapping. apply wp_bind. eapply wp_clock; [done|]. intros now s' Hnow Hs'.
  apply wp_mapping. eapply wp_engine_apply_if; [done|done|..]; eauto.
Qed.

Lemma quiet_operation_audit_context endpoint op actor origin :
  quiet (operation_audit_context w endpoint op actor origin).
Proof. apply quiet_bind; [apply quiet_ask|]. intros. apply quiet_lift. Qed.
End rules.

Create HintDb quiet.
#[export] Hint Resolve quiet_ret quiet_throw quiet_lift quiet_bind quiet_mapping quiet_attempt
  quiet_ask quiet_append quiet_store_find quiet_record_kind quiet_find_task
  quiet_operation_audit_context : quiet.

(** Proves that a method is quiet, call by call. *)
Ltac solve_quiet :=
  repeat first
    [ done
    | apply quiet_bind; [|intros ?]
    | apply quiet_mapping | apply quiet_attempt
    | case_match | case_decide
    | apply quiet_ret | apply quiet_throw | apply quiet_lift | apply quiet_ask
    | apply quiet_append | apply quiet_store_find | apply quiet_record_kind | apply quiet_find_task
    | apply quiet_operation_audit_context ].

(** ** The drives keep the invariant *)

(** Where an event leads, from whatever state takes it. *)
Definition event_target (ev : OperationEvent) : OperationState :=
  match ev with
  | EvValidationStarted => Validating
  | EvValidationPassed => Running
  | EvExecutionAccepted | EvRemoteTaskCompleted => Verifying
  | EvRemoteTaskStarted => WaitingRemote
  | EvVerificationPassed => Succeeded
  | EvFailed => Failed
  | EvOutcomeUnknown => Unknown
  | EvCancellationRequested => Cancelled
  end.

Lemma transition_target s ev st : transition s ev = Ok st → st = event_target ev.
Proof. destruct s, ev; simpl; congruence. Qed.

Section drives.
Context {P St E RE X : Type} `{SeparateStores (RedfishCommand P) St E RE}.
Context `{DispatchVerdictClassifier X}.
Context (w : Surroundings P X) (Hclock : clock_monotone w).
Context (base_actor : AuditActor) (base_origin : DeploymentPosture).
Abbreviation Command := (RedfishCommand P).
Implicit Types (o : Operation Command) (h : list (Effect P X)) (s : Runtime P St X).

Abbreviation safe m s := (wp m (λ _, coherent w) (coherent w) s).

Lemma quiet_start_audit endpoint command source :
  quiet (E := E) w (start_audit (E := E) (RE := RE) w base_actor base_origin endpoint command source).
Proof. unfold start_audit. destruct (execution_attribution _ _ _). solve_quiet. Qed.
Lemma quiet_record_failure started failure verification :
  quiet (E := E) w (record_failure (E := E) (RE := RE) w started failure verification).
Proof. unfold record_failure, clock_now, generate. solve_quiet. Qed.
Lemma quiet_record_success started :
  quiet (E := E) w (record_success (E := E) (RE := RE) w started).
Proof. unfold record_success, clock_now, generate. solve_quiet. Qed.
Lemma quiet_endpoint_exists endpoint :
  quiet (E := E) w (endpoint_exists (E := E) (RE := RE) w endpoint).
Proof. unfold endpoint_exists. solve_quiet. Qed.
Lemma quiet_capability_preflight command endpoint :
  quiet (E := E) w (capability_preflight (E := E) (RE := RE) w command endpoint).
Proof. unfold capability_preflight, capability_query. solve_quiet. Qed.
Lemma quiet_update_artifact command :
  quiet (E := E) w (prepare_artifact (E := E) (RE := RE) w command).
Proof. unfold prepare_artifact, resolve_update_artifact. solve_quiet. Qed.
Lemma quiet_monitor_failure endpoint source failure verification at_ :
  quiet (E := E) w (monitor_record_failure (E := E) (RE := RE) w base_actor base_origin endpoint
    source failure verification at_).
Proof.
  unfold monitor_record_failure, audit_context, terminal_sequence, generate.
  destruct (execution_attribution _ _ _). solve_quiet.
Qed.
Lemma quiet_monitor_success endpoint source at_ :
  quiet (E := E) w (monitor_record_success (E := E) (RE := RE) w base_actor base_origin endpoint
    source at_).
Proof.
  unfold monitor_record_success, audit_context, terminal_sequence, generate.
  destruct (execution_attribution _ _ _). solve_quiet.
Qed.

Lemma safe_quiet {A F} (m : M (Runtime P St X) F A) id o task h s :
  quiet w m → tells w id o task h s → safe m s.
Proof. intros Hm Hs. eapply wp_quiet; [done|done|]. intros a s' Hs'. by eapply tells_coherent. Qed.

Lemma tells_story id o task h s : tells w id o task h s → story o task h.
Proof. intros (_ & _ & _ & _ & _ & _ & Hst). done. Qed.

Lemma moves id o task h s ev st now :
  tells w id o task h s → transition (op_state o) ev = Ok st →
  phase (event_target ev) o task h → story (set_state o st now) task h.
Proof.
  intros Hs ->%transition_target Hp. apply story_move; [by eapply tells_story | done].
Qed.

(** A step into a phase that holds, and then calls that change nothing. *)
Lemma safe_step {B} id ev o task h s (k : Operation Command → M _ _ B) :
  tells w id o task h s → phase (event_target ev) o task h → (∀ a, quiet w (k a)) →
  safe (mbind (apply_step (E := E) (RE := RE) w id ev) k) s.
Proof.
  intros Hs Hp Hk. apply wp_bind. eapply wp_apply_step; [done|done|..].
  - intros st now Htr. by eapply moves.
  - intros st now s' Htr Hs'. eapply safe_quiet; [apply Hk | done].
Qed.

Lemma safe_step_last id ev o task h s :
  tells w id o task h s → phase (event_target ev) o task h →
  safe (apply_step (E := E) (RE := RE) w id ev) s.
Proof.
  intros Hs Hp. eapply wp_apply_step; [done|done|..].
  - intros st now Htr. by eapply moves.
  - intros st now s' Htr Hs'. by eapply tells_coherent.
Qed.

Lemma safe_recover_if {B} id ex ev o task h s (k : Operation Command → M _ _ B) :
  tells w id o task h s → phase (event_target ev) o task h → (∀ a, quiet w (k a)) →
  safe (mbind (recover_step_if_current (E := E) (RE := RE) w id ex ev) k) s.
Proof.
  intros Hs Hp Hk. apply wp_bind. eapply wp_recover_step_if; [done|done|..].
  - intros st now Htr <-. by eapply moves.
  - intros st now o' s' Htr _ Hs'. eapply safe_quiet; [apply Hk | done].
Qed.

Lemma safe_monitor_step {B} id ev now o task h s (k : Operation Command → M _ _ B) :
  tells w id o task h s → (op_created_at o ≤ now)%Z → phase (event_target ev) o task h →
  (∀ a, quiet w (k a)) → safe (mbind (monitor_apply_step (E := E) (RE := RE) w id ev now) k) s.
Proof.
  intros Hs Hnow Hp Hk. apply wp_bind, wp_mapping. eapply wp_engine_apply; [done|done|done|..].
  - intros st Htr. by eapply moves.
  - intros st s' Htr Hs'. eapply safe_quiet; [apply Hk | done].
Qed.

(** What a re-read adds to a story. *)
Lemma reread_story id ep o task h s r :
  tells w id o task h s → first_endpoint o = Some ep →
  story o task (h ++ [Reread id ep (op_command o) r]).
Proof. intros Hs Hep. by apply story_read; [eapply tells_story | ..]. Qed.

(** Calls after the last step are quiet. *)
Ltac quiet_tail :=
  intros; repeat first
    [ done
    | apply quiet_record_failure | apply quiet_record_success
    | apply quiet_monitor_failure | apply quiet_monitor_success
    | apply quiet_ret | apply quiet_throw
    | apply quiet_bind; [|intros ?] ]; try done.

Lemma safe_verify_target id ep o task h s started :
  tells w id o task h s → op_state o = Verifying → first_endpoint o = Some ep →
  safe (verify_target (E := E) (RE := RE) w id ep (op_command o) started) s.
Proof.
  intros Hs Hst Hep. pose proof (tells_story _ _ _ _ _ Hs) as (_ & _ & _ & Hp). rewrite Hst in Hp.
  apply wp_bind. eapply wp_reach; [done|done|done|intros r; by eapply reread_story|].
  intros r s' Hs'. destruct r as [[]|x].
  - eapply safe_step; [done|by apply confirmed_success|quiet_tail].
  - eapply safe_step; [done|by apply mismatched_failure|quiet_tail].
  - eapply safe_step; [done|done|quiet_tail].
Qed.

Lemma safe_drive_outcome id ep o h s started outcome wrap :
  tells w id o None h s → op_state o = Running → first_endpoint o = Some ep →
  answers h = [outcome] →
  safe (drive_outcome (E := E) (RE := RE) w id ep (op_command o) started outcome wrap) s.
Proof.
  intros Hs Hst Hep Hans. destruct outcome as [[|uri|]|x]; simpl.
  - apply wp_bind. eapply wp_apply_step; [done|done|..].
    + intros st now Htr. eapply moves; [done|done|]. left. rewrite Hans. by left.
    + intros st now s' Htr Hs'. apply transition_target in Htr as ->.
      by apply (safe_verify_target id ep _ _ _ _ started Hs').
  - apply wp_bind. eapply wp_clock; [done|done|]. intros now s' _ Hs'. apply wp_bind.
    pose proof (tells_story _ _ _ _ _ Hs) as (Ha & Hl & _ & _).
    pose proof Hs as (_ & _ & _ & _ & _ & Hid & _).
    eapply wp_save; [done|done|done|done|..].
    + split; [done|]. split; [done|]. rewrite Hst. split; [|done]. intros t [= <-]. simpl. by rewrite Hid.
    + intros r s'' Hs''. destruct r as [u|e].
      * eapply safe_step_last; [done|]. by eexists.
      * eapply safe_step; [done|done|quiet_tail].
  - eapply safe_step; [done|by right; left|quiet_tail].
  - destruct (dispatch_verdict x) eqn:Hv; simpl; (eapply safe_step; [done| |quiet_tail]).
    + right. right. left. by exists x.
    + done.
Qed.

(** The dispatch of an operation that was not dispatched before. *)
Lemma safe_dispatch id ep command o task h s started f wrap :
  tells w id o task h s → op_state o = Running → first_endpoint o = Some ep → answers h = [] →
  command = op_command o →
  safe (let! outcome := attempt (reach w f (Dispatched id ep command)) in
        drive_outcome (E := E) (RE := RE) w id ep command started outcome wrap) s.
Proof.
  intros Hs Hst Hep Hno ->. pose proof (tells_story _ _ _ _ _ Hs) as Hstory.
  pose proof (story_untracked _ _ _ Hstory Hno) as ->.
  apply wp_bind. eapply wp_reach; [done|done|done|..].
  - intros r. by apply story_dispatched.
  - intros r s' Hs'. eapply safe_drive_outcome; [done|done|done|]. by eapply story_dispatched.
Qed.

Lemma safe_refuse id o task h s started failure :
  tells w id o task h s → answers h = [] → safe (refuse (E := E) (RE := RE) w id started failure) s.
Proof. intros Hs Hno. eapply safe_step; [done|by left|quiet_tail]. Qed.

Lemma safe_dispatch_and_verify id ep o task h s started artifact :
  tells w id o task h s → op_state o = Running → first_endpoint o = Some ep → answers h = [] →
  safe (dispatch_and_verify (E := E) (RE := RE) w id ep (op_command o) started artifact) s.
Proof.
  intros Hs Hst Hep Hno. unfold dispatch_and_verify, gateway_execute, gateway_execute_update.
  remember (op_command o) as command eqn:Hc.
  destruct command as [| | | | | | | | | |[artifact_id uri|]|]; try (by eapply safe_dispatch).
  destruct artifact; [by eapply safe_dispatch | by eapply safe_refuse].
Qed.

(** *** Execution *)

Lemma safe_validated id ep o task h s started artifact :
  tells w id o task h s → first_endpoint o = Some ep → answers h = [] →
  safe (do! apply_step (E := E) (RE := RE) w id EvValidationPassed in
        dispatch_and_verify w id ep (op_command o) started artifact) s.
Proof.
  intros Hs Hep Hno. apply wp_bind. eapply wp_apply_step; [done|done|..].
  - intros st now Htr. by eapply moves.
  - intros st now s' Htr Hs'. apply transition_target in Htr as ->.
    by apply (safe_dispatch_and_verify id ep _ task h s' started artifact Hs').
Qed.

Lemma safe_execute_prepared id ep o task h s started artifact :
  tells w id o task h s → first_endpoint o = Some ep → answers h = [] →
  safe (execute_prepared (E := E) (RE := RE) w id (op_state o) ep (op_command o) started artifact) s.
Proof.
  intros Hs Hep Hno. apply wp_bind. destruct (decide (op_state o = Queued)) as [Hq|Hq].
  - apply wp_bind. eapply wp_apply_step; [done|done|..].
    + intros st now Htr. by eapply moves.
    + intros st now s' Htr Hs'. by apply (safe_validated id ep _ task h s' started artifact Hs').
  - apply wp_ret. by eapply safe_validated.
Qed.

(** A quiet call, and then the rest. *)
Lemma safe_after {A B F} (m : M (Runtime P St X) F A) (k : A → M _ F B) id o task h s :
  quiet w m → tells w id o task h s → (∀ a s', tells w id o task h s' → safe (k a) s') →
  safe (mbind m k) s.
Proof. intros Hm Hs Hk. apply wp_bind. by eapply wp_quiet. Qed.

Lemma safe_execute_admitted id ep o task h s :
  tells w id o task h s → first_endpoint o = Some ep → answers h = [] →
  safe (execute_admitted (E := E) (RE := RE) w base_actor base_origin id o ep) s.
Proof.
  intros Hs Hep Hno. unfold execute_admitted.
  eapply safe_after; [apply quiet_start_audit; done|done|]. clear s Hs. intros started s Hs.
  eapply safe_after; [apply quiet_endpoint_exists; done|done|]. clear s Hs. intros known s Hs.
  destruct (negb known); [by eapply safe_refuse|].
  eapply safe_after; [apply quiet_capability_preflight; done|done|]. clear s Hs. intros [] s Hs.
  - eapply safe_after; [apply quiet_update_artifact; done|done|]. clear s Hs. intros [artifact|] s Hs.
    + by eapply safe_execute_prepared.
    + by eapply safe_refuse.
  - eapply safe_after; [apply quiet_mapping, quiet_record_kind; done|done|]. clear s Hs.
    intros _ s Hs. by eapply safe_refuse.
  - by eapply safe_refuse.
Qed.

(** The row a drive starts from. *)
Lemma safe_found {B F} id s (k : option (Operation Command) → M _ (abrupt F) B) (f : E → F) :
  coherent w s → (∀ s, coherent w s → safe (k None) s) →
  (∀ o task h s', operations s !! id = Some o → tells w id o task h s' → safe (k (Some o)) s') →
  safe (mbind (mapping f (on_store w (store_find_operation id))) k) s.
Proof. intros Hs HN HS. apply wp_bind, wp_mapping. by eapply wp_find. Qed.

Lemma tells_undispatched id o task h s :
  tells w id o task h s → op_state o ∈ [Queued; Validating] → answers h = [].
Proof.
  intros [_ Hp]%tells_story%proj2%proj2 Hst. destruct (op_state o); set_solver.
Qed.

Lemma head_endpoint o target targets :
  op_targets o = target :: targets → first_endpoint o = Some (endpoint_id target).
Proof. unfold first_endpoint. by intros ->. Qed.

Lemma safe_execute_operation id s :
  coherent w s → safe (execute_operation (E := E) (RE := RE) w base_actor base_origin id) s.
Proof.
  intros Hs. apply safe_found; [done|by intros s'|]. intros o task h s' _ Hs'. clear s Hs.
  rename s' into s, Hs' into Hs.
  change (safe (if decide (op_state o ∉ [Queued; Validating]) then throw (NotQueued id (op_state o))
    else match op_targets o with
         | [] => throw (ExEmptyTargets id)
         | target :: _ => execute_admitted w base_actor base_origin id o (endpoint_id target)
         end) s).
  case_decide as Hst; [by eapply tells_coherent|].
  destruct (op_targets o) as [|target targets] eqn:Ht; [by eapply tells_coherent|].
  eapply safe_execute_admitted; [done|by eapply head_endpoint|].
  by eapply tells_undispatched.
Qed.

(** *** Recovery *)

Lemma safe_judge_running id ep o task h s started :
  tells w id o task h s → op_state o = Running → first_endpoint o = Some ep →
  safe (judge_running (E := E) (RE := RE) w id ep (op_command o) started) s.
Proof.
  intros Hs Hst Hep. apply wp_bind.
  eapply wp_reach; [done|done|done|intros r; by eapply reread_story|].
  clear s Hs. intros r s Hs. destruct r as [[]|x].
  - destruct (recovery_judgement_proves_effect (op_command o)) eqn:Hproves.
    + assert (landed o (h ++ [Reread id ep (op_command o) (Ok Confirmed)])) as Hl.
      { right. right. split; [done|]. apply reread_confirmed. }
      apply wp_bind. eapply wp_recover_step; [done|done|..].
      * intros st now Htr. by eapply moves.
      * intros st now s' Htr Hs'. apply wp_bind. eapply wp_recover_step; [done|done|..].
        -- intros st' now' Htr'. eapply moves; [done|done|]. split; [done|]. apply reread_confirmed.
        -- intros st' now' s'' Htr' Hs''. eapply safe_quiet; [quiet_tail|done].
    + eapply safe_recover_if; [done|done|quiet_tail].
  - eapply safe_recover_if; [done|by apply mismatched_failure|quiet_tail].
  - eapply safe_recover_if; [done|done|quiet_tail].
Qed.

Lemma safe_recover_admitted id ep o task h s :
  tells w id o task h s → op_state o ∈ [Running; Verifying] → first_endpoint o = Some ep →
  safe (recover_admitted (E := E) (RE := RE) w base_actor base_origin id o ep) s.
Proof.
  intros Hs Hst Hep. unfold recover_admitted. case_decide as Hrun.
  - apply wp_bind, wp_mapping. eapply wp_find_task; [done|done|]. clear s Hs. intros s Hs.
    destruct task as [t|].
    + apply wp_mapping. eapply safe_step_last; [done|]. by exists t.
    + eapply safe_after; [apply quiet_start_audit; done|done|]. clear s Hs. intros started s Hs.
      by eapply safe_judge_running.
  - eapply safe_after; [apply quiet_start_audit; done|done|]. clear s Hs. intros started s Hs.
    apply wp_mapping. eapply safe_verify_target; [done|set_solver|done].
Qed.

Lemma safe_recover_operation id s :
  coherent w s → safe (recover_operation (E := E) (RE := RE) w base_actor base_origin id) s.
Proof.
  intros Hs. apply safe_found; [done|by intros s'|]. intros o task h s' _ Hs'. clear s Hs.
  rename s' into s, Hs' into Hs.
  change (safe (if decide (op_state o ∉ [Running; Verifying]) then throw (NotRecoverable id (op_state o))
    else match op_targets o with
         | [] => throw (ExEmptyTargets id)
         | target :: _ => recover_admitted w base_actor base_origin id o (endpoint_id target)
         end) s).
  case_decide as Hst; [by eapply tells_coherent|].
  destruct (op_targets o) as [|target targets] eqn:Ht; [by eapply tells_coherent|].
  eapply safe_recover_admitted; [done|done|by eapply head_endpoint].
Qed.

(** *** Polling *)

Lemma safe_resolve_unknown id ep o task h s source now :
  tells w id o task h s → (op_created_at o ≤ now)%Z →
  safe (resolve_unknown (E := E) (RE := RE) w base_actor base_origin id ep source now) s.
Proof. intros Hs Hnow. eapply safe_monitor_step; [done|done|done|quiet_tail]. Qed.

Lemma safe_monitor_verify id ep o task h s source now :
  tells w id o task h s → (op_created_at o ≤ now)%Z → op_state o = Verifying →
  first_endpoint o = Some ep →
  safe (monitor_verify_target (E := E) (RE := RE) w base_actor base_origin id ep (op_command o)
    source now) s.
Proof.
  intros Hs Hnow Hst Hep. pose proof (tells_story _ _ _ _ _ Hs) as (_ & _ & _ & Hp). rewrite Hst in Hp.
  apply wp_bind. eapply wp_reach; [done|done|done|intros r; by eapply reread_story|].
  clear s Hs. intros r s Hs. destruct r as [[]|x].
  - eapply safe_monitor_step; [done|done|by apply confirmed_success|quiet_tail].
  - eapply safe_monitor_step; [done|done|by apply mismatched_failure|quiet_tail].
  - eapply safe_monitor_step; [done|done|done|quiet_tail].
Qed.

Lemma safe_observed id o task t h s st now :
  tells w id o task h s → (op_created_at o ≤ now)%Z → first_endpoint o = Some (task_endpoint_id t) →
  task_seen st h →
  safe (observed (E := E) (RE := RE) w base_actor base_origin o t st now) s.
Proof.
  intros Hs Hnow Hep Hseen. pose proof Hs as (_ & _ & _ & _ & _ & Hid & _).
  unfold observed. destruct (task_is_terminal st) eqn:Hterm; simpl; [|by eapply tells_coherent].
  rewrite Hid. case_decide as Hst.
  - subst st. apply wp_bind, wp_mapping. eapply wp_engine_apply; [done|done|done|..].
    + intros st Htr. eapply moves; [done|done|]. by right; left.
    + intros st s' Htr Hs'. apply transition_target in Htr as ->.
      by apply (safe_monitor_verify id _ _ _ _ _ _ _ Hs').
  - eapply safe_monitor_step; [done|done| |quiet_tail]. do 4 right. by exists st.
Qed.

Lemma updated_row_inv t obs st now t' :
  updated_row t obs st now = Ok t' →
  task_operation_id t' = task_operation_id t ∧ task_endpoint_id t' = task_endpoint_id t ∧
  task_uri t' = task_uri t ∧ task_last_state t' = st ∧ task_ok t'.
Proof.
  intros [-> Hp]%task_try_from_parts_inv. simpl. split_and!; try done. unfold task_ok. simpl.
  destruct (to_percent_complete obs) as [p|]; [|done]. case_decide; [|done]. lia.
Qed.

Lemma safe_observe id o t h s obs now :
  tells w id o (Some t) h s → (op_created_at o ≤ now)%Z →
  (∀ st, to_state obs = Some st → task_seen st h) →
  safe (observe (E := E) (RE := RE) w base_actor base_origin o t obs now) s.
Proof.
  intros Hs Hnow Hseen. pose proof (tells_story _ _ _ _ _ Hs) as (Ha & Hl & Ht & Hp).
  destruct (Ht t eq_refl) as (Hans & Hep & Htid & Htok).
  pose proof Hs as (_ & _ & _ & _ & _ & Hid & _).
  unfold observe. destruct (to_state obs) as [st|].
  - apply wp_bind, wp_lift; [|by eapply tells_coherent]. intros t' Hrow.
    destruct (updated_row t obs st now) as [t0|] eqn:Hupd; [|done]. injection Hrow as ->.
    apply updated_row_inv in Hupd as (Hi & He & Hu & _ & Hok).
    apply wp_bind, wp_mapping. eapply wp_save_checked; [done|done|congruence|done|..].
    + split; [done|]. split; [done|]. split; [|destruct (op_state o); (done || by eexists)].
      intros t1 [= <-]. rewrite Hu, He, Hi. done.
    + intros s' Hs'. eapply safe_observed; [done|done|done|by apply Hseen].
  - rewrite Hid. by eapply safe_resolve_unknown.
Qed.

Lemma safe_poll id now s :
  coherent w s → (∀ o, operations s !! id = Some o → (op_created_at o ≤ now)%Z) →
  safe (poll (E := E) (RE := RE) w base_actor base_origin id now) s.
Proof.
  intros Hs Hnow. apply safe_found; [done|by intros s'|]. intros o task h s' Ho Hs'.
  specialize (Hnow o Ho). clear s Hs Ho. rename s' into s, Hs' into Hs.
  change (safe (if decide (op_state o ≠ WaitingRemote) then throw (NotWaitingRemote id (op_state o))
    else match op_targets o with
         | [] => throw (MonEmptyTargets id)
         | target :: _ =>
             let! row := mapping MonRemoteTaskStore (on_store w (find_remote_task id)) in
             match row with
             | None => resolve_unknown w base_actor base_origin id (endpoint_id target) (op_source o) now
             | Some t => poll_task w base_actor base_origin id o (endpoint_id target) t now
             end
         end) s).
  case_decide as Hst; [by eapply tells_coherent|].
  destruct (op_targets o) as [|target targets] eqn:Htg; [by eapply tells_coherent|].
  apply head_endpoint in Htg as Hep. apply wp_bind, wp_mapping. eapply wp_find_task; [done|done|].
  clear s Hs. intros s Hs. destruct task as [t|]; [|by eapply safe_resolve_unknown].
  pose proof (tells_story _ _ _ _ _ Hs) as Hstory.
  pose proof Hstory as (_ & _ & Ht & _). destruct (Ht t eq_refl) as (Hans & _).
  apply wp_bind. eapply wp_reach; [done|done|done|intros r; by apply story_read|].
  clear s Hs. intros r s Hs. destruct r as [[obs|]|x].
  - eapply safe_observe; [done|done|]. intros st Hst'. eexists _, _, _, _.
    split; [apply elem_of_app; right; by left|]. split; [done|].
    rewrite answers_read, Hans by done. by left.
  - by eapply safe_resolve_unknown.
  - by eapply tells_coherent.
Qed.

(** ** Any sequence of drives *)

(** What may be asked of the process, in any order and any number of times; a
    drive that ends because the process died is followed by the drives of the
    next process. *)
Inductive Drive :=
| Submit (source : OperationSource) (targets : list OperationTarget) (command : Command)
| Execute (id : OperationId)
| Recover (id : OperationId)
| Poll (id : OperationId).

(** [OperationEngine::create] with a generated id. *)
Definition submit (source : OperationSource) (targets : list OperationTarget) (command : Command)
    : M (Runtime P St X) (abrupt (EngineError E)) (Operation Command) :=
  let! id := generate w in
  let! now := clock_now w in
  on_store w (engine_create id source targets command now).

Definition run_drive (d : Drive) (s : Runtime P St X) : Runtime P St X :=
  match d with
  | Submit source targets command => (submit source targets command s).1
  | Execute id => (execute_operation (E := E) (RE := RE) w base_actor base_origin id s).1
  | Recover id => (recover_operation (E := E) (RE := RE) w base_actor base_origin id s).1
  | Poll id =>
      ((let! now := clock_now w in
        poll (E := E) (RE := RE) w base_actor base_origin id now) s).1
  end.

Definition run_drives (ds : list Drive) (s : Runtime P St X) : Runtime P St X :=
  foldl (λ s d, run_drive d s) s ds.

Lemma coherent_created id source targets command now s st r :
  coherent w s → (now ≤ now_at w (rt_calls s))%Z →
  engine_create id source targets command now (rt_store s) = (st, r) →
  coherent w (mk_runtime st (rt_log s) (rt_calls s)).
Proof.
  intros Hs Hnow Hrun. pose proof Hs as ((Hok & Htok & Hc) & Hall). unfold engine_create in Hrun.
  case_decide; [by inv_calls; destruct s|].
  set (o := Operation_new id source targets command now) in Hrun.
  pose proof (sep_create o _ _ (conj Htok eq_refl)) as [Htok' Htv].
  destruct (store_create_operation o (rt_store s)) as [st' r'] eqn:Hcreate. simpl in Htok', Htv.
  assert (st' = st) as ->.
  { unfold mbind, mmap_err in Hrun. rewrite Hcreate in Hrun. destruct r'; by injection Hrun. }
  clear Hrun. apply law_create in Hcreate as [Hok' Hv]; [|done|unfold timeline_ok; simpl; lia].
  assert (tasks (mk_runtime st (rt_log s) (rt_calls s)) = tasks s) as Htasks by done.
  assert (operations (mk_runtime st (rt_log s) (rt_calls s)) = operations s ∨
    operations s !! id = None ∧
    operations (mk_runtime st (rt_log s) (rt_calls s)) = <[id := canonical o]> (operations s)) as Hops.
  { unfold operations. simpl. destruct r'; rewrite Hv; [|by left].
    unfold view_create. simpl. destruct (v_operations (store_view (rt_store s)) !! id); auto. }
  destruct Hops as [Hops|[Hnone Hops]].
  - unfold coherent, stores_ok, story_at. by rewrite Hops, Htasks.
  - split; [split; [done|split; [done|]]|].
    + rewrite Hops. intros i oi [[<- <-]|[_ Hi]]%lookup_insert_Some; [done|by eapply Hc].
    + intros i. specialize (Hall i). unfold story_at in *. rewrite Hops, Htasks. simpl.
      destruct (decide (i = id)) as [->|]; [|by rewrite lookup_insert_ne].
      rewrite lookup_insert_eq. unfold story_of in *. rewrite Hnone in Hall.
      destruct Hall as [Htask Hhist]. rewrite Htask, Hhist.
      split; [done|]. split; [constructor|]. split; [simpl; lia|]. split; [by intros t|done].
Qed.

Lemma wp_ask {A F} (f : nat → result A F) (Q : A → Runtime P St X → Prop) s :
  coherent w s → (∀ a, coherent w (tick s) → f (rt_calls s) = Ok a → Q a (tick s)) →
  wp (ask w f) Q (coherent w) s.
Proof.
  intros Hs HQ. apply (coherent_tick w Hclock) in Hs as Hs'. apply wp_call; [done|done|].
  destruct (f (rt_calls s)) as [a|e] eqn:Hf; [by apply HQ | done].
Qed.

Lemma safe_submit source targets command s :
  coherent w s → safe (submit source targets command) s.
Proof.
  intros Hs. apply wp_bind, wp_ask; [done|]. clear Hs. intros id Hs _.
  revert Hs. generalize (tick s). clear s. intros s Hs.
  apply wp_bind, wp_ask; [done|]. intros now Hs' [= Hnow].
  apply wp_call; [done|done|]. simpl.
  destruct (engine_create _ _ _ _ _ _) as [st r] eqn:Hrun.
  apply (coherent_created _ _ _ _ _ (tick (tick s))) in Hrun.
  - by destruct r.
  - by apply coherent_tick.
  - simpl. rewrite <- Hnow. etransitivity; apply Hclock.
Qed.

Lemma run_drive_coherent d s : coherent w s → coherent w (run_drive d s).
Proof.
  intros Hs. destruct d as [source targets command|id|id|id]; simpl.
  - apply (wp_state (submit source targets command)). by apply safe_submit.
  - apply (wp_state (execute_operation w base_actor base_origin id)). by apply safe_execute_operation.
  - apply (wp_state (recover_operation w base_actor base_origin id)). by apply safe_recover_operation.
  - apply (wp_state (let! now := clock_now w in poll w base_actor base_origin id now)).
    apply wp_bind, wp_ask; [done|]. intros now Hs' [= <-]. apply safe_poll; [done|].
    intros o Ho. destruct Hs as ((_ & _ & Hc) & _). by eapply Hc.
Qed.

Lemma run_drives_coherent ds s : coherent w s → coherent w (run_drives ds s).
Proof.
  revert s. induction ds as [|d ds IH]; intros s Hs; [done|]. apply IH. by apply run_drive_coherent.
Qed.

(** A process over a store that holds only queued work, before anything was
    sent. *)
Definition fresh (s : Runtime P St X) : Prop :=
  stores_ok w s ∧ rt_log s = [] ∧ tasks s = ∅ ∧
  ∀ id o, operations s !! id = Some o → op_id o = id ∧ op_state o = Queued.

Lemma fresh_coherent s : fresh s → coherent w s.
Proof.
  intros (Hok & Hlog & Htasks & Hq). split; [done|]. intros id. unfold story_at.
  rewrite Hlog, Htasks, lookup_empty. unfold story_of.
  destruct (operations s !! id) as [o|] eqn:Ho; [|done]. destruct (Hq _ _ Ho) as [Hid Hst].
  split; [done|]. split; [constructor|]. split; [simpl; lia|]. split; [by intros t|]. by rewrite Hst.
Qed.

(** C3: Whatever operations are submitted and however they are executed, recovered
    and polled, with any failure of the stores, the BMC and the audit log and
    with the process dying anywhere, no operation is ever sent to its BMC twice.
    An operation that has not left validation was not sent; only its own command
    was sent and re-read, on its own endpoint; one that waits has the Task of its
    only dispatch on record.  An operation that succeeded was seen to land and
    its result was confirmed by a re-read, and one that failed was refused,
    provably not executed, or seen not to have its result. *)
Theorem never_sent_twice ds s id :
  fresh s →
  let s' := run_drives ds s in
  let h := history id (rt_log s') in
  length (answers h) ≤ 1 ∧
  ∀ o, operations s' !! id = Some o →
    Forall (about o) h ∧
    match op_state o with
    | Queued | Validating => answers h = []
    | WaitingRemote => ∃ t, tasks s' !! id = Some t ∧ answers h = [Ok (AsyncTaskAccepted (task_uri t))]
    | Verifying => landed o h
    | Succeeded => landed o h ∧ confirmed h
    | Failed => provably_failed h
    | Running | Unknown | Cancelled => True
    end.
Proof.
  intros Hs s' h. apply fresh_coherent, (run_drives_coherent ds) in Hs as [_ Hall].
  fold s' in Hall. specialize (Hall id). unfold story_at, story_of in Hall. fold h in Hall.
  destruct (operations s' !! id) as [o|]; [|by destruct Hall as [_ ->]; split; [simpl; lia|]].
  destruct Hall as (_ & Ha & Hl & Ht & Hp). split; [done|]. intros ? [= <-]. split; [done|].
  destruct (op_state o); try done. destruct Hp as [t Hsome]. exists t. split; [done|].
  by apply Ht in Hsome as [? _].
Qed.
End drives.
