(* ===== verification/DriveAudit.v ===== *)
(** * DriveAudit: no write without its start fact

    Every write a driver sends to a BMC is paid for by a start fact the audit log
    accepted before: at any moment, the writes of one kind on one endpoint are not
    more than the start facts recorded for them. *)
From S2P Require Import Prelude Text Operation OperationEngine Capability Artifact AuditLog.
From S2P Require Import RedfishCommand RemoteTask Executor TaskMonitor DriveSafety.

(** ** Counting writes and start facts *)

Section counting.
Context {P X : Type}.
Implicit Types (log : list (Effect P X)) (op : AuditRedfishOperation).

Definition sends (ep : EndpointId) op (e : Effect P X) : Prop :=
  match e with
  | Dispatched _ ep' c _ => ep' = ep ∧ command_audit_operation c = op
  | _ => False
  end.
#[export] Instance sends_dec ep op e : Decision (sends ep op e).
Proof. destruct e; simpl; apply _. Defined.

Definition starts (ep : EndpointId) op (e : Effect P X) : Prop :=
  match e with
  | Audited event =>
      ae_outcome event = OutcomeStarted ∧ ae_sequence event = SEQUENCE_FIRST ∧
      ac_target (ae_context event) = TargetEndpoint ep ∧
      ac_action (ae_context event) = ActExecuteOperation ∧
      ac_redfish_operation (ae_context event) = op
  | _ => False
  end.
#[export] Instance starts_dec ep op e : Decision (starts ep op e).
Proof. destruct e; simpl; apply _. Defined.

Definition sent ep op log : nat := length (filter (sends ep op) log).
Definition started_facts ep op log : nat := length (filter (starts ep op) log).

(** Every write so far had its own start fact before it. *)
Definition paid log : Prop :=
  ∀ ep op l1 l2, log = l1 ++ l2 → sent ep op l1 ≤ started_facts ep op l1.

(** One start fact of a kind is not spent yet. *)
Definition funded ep op log : Prop := paid log ∧ sent ep op log < started_facts ep op log.

Lemma sent_app ep op l l' : sent ep op (l ++ l') = sent ep op l + sent ep op l'.
Proof. unfold sent. by rewrite filter_app, length_app. Qed.
Lemma started_app ep op l l' :
  started_facts ep op (l ++ l') = started_facts ep op l + started_facts ep op l'.
Proof. unfold started_facts. by rewrite filter_app, length_app. Qed.

Lemma paid_snoc log e :
  paid log → (∀ ep op, sent ep op (log ++ [e]) ≤ started_facts ep op (log ++ [e])) →
  paid (log ++ [e]).
Proof.
  intros Hp He ep op l1 l2 Heq. destruct l2 as [|e' l2 _] using rev_ind.
  - rewrite app_nil_r in Heq. subst. apply He.
  - rewrite app_assoc in Heq. apply app_inj_tail in Heq as [-> _]. by eapply Hp.
Qed.

Lemma paid_now ep op log : paid log → sent ep op log ≤ started_facts ep op log.
Proof. intros Hp. apply (Hp ep op log []). by rewrite app_nil_r. Qed.

Definition is_dispatch (e : Effect P X) : bool :=
  match e with Dispatched _ _ _ _ => true | _ => false end.

(** A predicate of the log that effects other than a dispatch cannot break. *)
Definition grows (Q : list (Effect P X) → Prop) : Prop :=
  ∀ log e, is_dispatch e = false → Q log → Q (log ++ [e]).

Lemma sent_other ep op log e : is_dispatch e = false → sent ep op (log ++ [e]) = sent ep op log.
Proof.
  intros He. rewrite sent_app. unfold sent at 2.
  rewrite filter_cons_False by (destruct e; try discriminate He; intros []). simpl. lia.
Qed.

Lemma paid_grows : grows paid.
Proof.
  intros log e He Hp. apply paid_snoc; [done|]. intros ep op. rewrite sent_other by done.
  rewrite started_app. pose proof (paid_now ep op log Hp). lia.
Qed.

Lemma funded_grows ep op : grows (funded ep op).
Proof.
  intros log e He [Hp Hf]. split; [by apply paid_grows|].
  rewrite sent_other, started_app by done. lia.
Qed.

(** A start fact funds one write, and the write spends it. *)
Lemma funded_start ep op log e : starts ep op e → paid log → funded ep op (log ++ [e]).
Proof.
  intros He Hp. assert (is_dispatch e = false) as Hd by by destruct e.
  split; [by apply paid_grows|]. rewrite sent_other, started_app by done.
  pose proof (paid_now ep op log Hp) as Hnow.
  assert (started_facts ep op [e] = 1) as ->; [|lia].
  unfold started_facts. by rewrite filter_cons_True.
Qed.

Lemma funded_spent ep op log e : sends ep op e → funded ep op log → paid (log ++ [e]).
Proof.
  intros He [Hp Hf]. apply paid_snoc; [done|]. intros ep' op'. rewrite sent_app, started_app.
  pose proof (paid_now ep' op' log Hp) as Hnow. destruct (decide (sends ep' op' e)) as [He'|He'].
  - assert (ep' = ep ∧ op' = op) as [-> ->].
    { destruct e; try done. destruct He, He'. by subst. }
    unfold sent at 2. rewrite filter_cons_True by done. simpl. lia.
  - unfold sent at 2. rewrite filter_cons_False by done. simpl. lia.
Qed.
End counting.

(** ** Calls and drives *)

Section audited.
Context {P St E RE X : Type}.
Context `{OperationStore (RedfishCommand P) St E, RemoteTaskStore St RE, DispatchVerdictClassifier X}.
Context (w : Surroundings P X) (base_actor : AuditActor) (base_origin : DeploymentPosture).
Abbreviation Command := (RedfishCommand P).
Implicit Types (s : Runtime P St X).

(** The log satisfies [Q]. *)
Definition logs (Q : list (Effect P X) → Prop) s : Prop := Q (rt_log s).

(** A method that sends no write. *)
Definition silent {A F} (m : M (Runtime P St X) F A) : Prop :=
  ∀ Q, grows Q → keeps (logs Q) m.

Lemma silent_ret {A F} (a : A) : silent (mret a : M _ F A).
Proof. intros Q _. apply keeps_ret. Qed.
Lemma silent_throw {A F} (e : F) : silent (throw e : M _ _ A).
Proof. intros Q _. apply keeps_fail. Qed.
Lemma silent_lift {A F} (r : result A F) : silent (lift r).
Proof. intros Q _. apply keeps_lift. Qed.
Lemma silent_bind {A B F} (m : M _ F A) (k : A → M _ F B) :
  silent m → (∀ a, silent (k a)) → silent (mbind m k).
Proof. intros Hm Hk Q HQ. apply keeps_bind; [by apply Hm|]. intros a. by apply Hk. Qed.
Lemma silent_mapping {A F G} (f : F → G) (m : M _ _ A) : silent m → silent (mapping f m).
Proof. intros Hm Q HQ. apply keeps_map_err. by apply Hm. Qed.
Lemma silent_attempt {A F G} (m : M _ (abrupt F) A) : silent m → silent (attempt (G := G) m).
Proof.
  intros Hm Q HQ s Hs. specialize (Hm Q HQ s Hs). unfold attempt.
  by destruct (m s) as [s' [a|[|e]]].
Qed.
Lemma silent_call {A F} (f : nat → Runtime P St X → Runtime P St X * result A F) :
  (∀ n s Q, grows Q → logs Q s → logs Q (f n s).1) → silent (call w f).
Proof.
  intros Hf Q HQ s Hs. unfold call. destruct (dies w (rt_calls s)); [done|].
  specialize (Hf (rt_calls s) (tick s) Q HQ Hs). by destruct (f _ _).
Qed.
Lemma silent_ask {A F} (f : nat → result A F) : silent (ask w f).
Proof. by apply silent_call. Qed.
Lemma silent_store {A F} (m : M St F A) : silent (on_store w m).
Proof. apply silent_call. intros n s Q HQ Hs. by destruct (m (rt_store s)). Qed.
Lemma silent_append e : silent (append_audit_event w e).
Proof.
  apply silent_call. intros n s Q HQ Hs. destruct (audit_fault_at w n); [done|]. by apply HQ.
Qed.
Lemma silent_verify id ep c : silent (gateway_verify w id ep c).
Proof. apply silent_call. intros n s Q HQ Hs. by apply HQ. Qed.
Lemma silent_read_task id ep uri : silent (gateway_read_task w id ep uri).
Proof. apply silent_call. intros n s Q HQ Hs. by apply HQ. Qed.

(** Proves that a method sends no write, call by call. *)
Ltac solve_silent :=
  repeat first
    [ done
    | apply silent_bind; [|intros ?]
    | apply silent_mapping | apply silent_attempt
    | apply silent_ret | apply silent_throw | apply silent_lift | apply silent_ask
    | apply silent_append | apply silent_store | apply silent_verify | apply silent_read_task
    | progress case_match | progress case_decide ].

Lemma silent_apply_step id ev : silent (apply_step (RE := RE) w id ev).
Proof. unfold apply_step, clock_now. solve_silent. Qed.
Lemma silent_recover_if id ex ev : silent (recover_step_if_current (RE := RE) w id ex ev).
Proof. unfold recover_step_if_current, apply_step_if_current, clock_now. solve_silent. Qed.
Lemma silent_record_failure started failure verification :
  silent (record_failure (E := E) (RE := RE) w started failure verification).
Proof. unfold record_failure, clock_now, generate. solve_silent. Qed.
Lemma silent_record_success started : silent (record_success (E := E) (RE := RE) w started).
Proof. unfold record_success, clock_now, generate. solve_silent. Qed.
Lemma silent_start_audit ep c source :
  silent (start_audit (E := E) (RE := RE) w base_actor base_origin ep c source).
Proof.
  unfold start_audit, operation_audit_context, clock_now, generate.
  destruct (execution_attribution _ _ _). solve_silent.
Qed.
Lemma silent_verify_target id ep c started :
  silent (verify_target (E := E) (RE := RE) w id ep c started).
Proof.
  unfold verify_target. apply silent_bind; [apply silent_attempt, silent_verify|]. intros [[]|x];
    (apply silent_bind; [apply silent_apply_step|intros ?]);
    (apply silent_bind; [first [apply silent_record_success|apply silent_record_failure]|intros ?]);
    solve_silent.
Qed.
Lemma silent_refuse id started failure : silent (refuse (E := E) (RE := RE) w id started failure).
Proof.
  apply silent_bind; [apply silent_apply_step|intros ?].
  apply silent_bind; [apply silent_record_failure|intros ?]. apply silent_ret.
Qed.
Lemma silent_drive_outcome id ep c started outcome wrap :
  silent (drive_outcome (E := E) (RE := RE) w id ep c started outcome wrap).
Proof.
  unfold drive_outcome, clock_now. destruct outcome as [[|uri|]|x].
  - apply silent_bind; [apply silent_apply_step|intros ?]. apply silent_verify_target.
  - apply silent_bind; [apply silent_ask|intros ?].
    apply silent_bind; [apply silent_attempt, silent_store|intros [u|e]].
    + apply silent_apply_step.
    + apply silent_bind; [apply silent_apply_step|intros ?].
      apply silent_bind; [apply silent_record_failure|intros ?]. apply silent_throw.
  - apply silent_refuse.
  - destruct (failed_dispatch (dispatch_verdict x)) as [[event failure] verification].
    apply silent_bind; [apply silent_apply_step|intros ?].
    apply silent_bind; [apply silent_record_failure|intros ?]. apply silent_throw.
Qed.

(** *** Recovery and polling send nothing *)

Lemma silent_judge_running id ep c started :
  silent (judge_running (E := E) (RE := RE) w id ep c started).
Proof.
  unfold judge_running, recover_step. apply silent_bind; [apply silent_attempt, silent_verify|].
  intros [[]|x]; repeat case_match;
    repeat first
      [ apply silent_recover_if | apply silent_mapping; apply silent_apply_step
      | apply silent_record_failure | apply silent_record_success
      | apply silent_ret | apply silent_throw
      | apply silent_bind; [|intros ?] ].
Qed.

Lemma silent_recover_operation id :
  silent (recover_operation (E := E) (RE := RE) w base_actor base_origin id).
Proof.
  unfold recover_operation. apply silent_bind; [solve_silent|intros found].
  apply silent_bind; [solve_silent|intros operation]. case_decide; [apply silent_throw|].
  destruct (op_targets operation) as [|target targets]; [apply silent_throw|].
  unfold recover_admitted. case_decide.
  - apply silent_bind; [solve_silent|intros [t|]].
    + apply silent_mapping, silent_apply_step.
    + apply silent_bind; [apply silent_start_audit|intros started]. apply silent_judge_running.
  - apply silent_bind; [apply silent_start_audit|intros started].
    apply silent_mapping, silent_verify_target.
Qed.

Lemma silent_monitor_step id ev now : silent (monitor_apply_step (RE := RE) w id ev now).
Proof. apply silent_mapping, silent_store. Qed.
Lemma silent_monitor_failure ep source failure verification at_ :
  silent (monitor_record_failure (E := E) (RE := RE) w base_actor base_origin ep source failure
    verification at_).
Proof.
  unfold monitor_record_failure, audit_context, operation_audit_context, terminal_sequence, generate.
  destruct (execution_attribution _ _ _). solve_silent.
Qed.
Lemma silent_monitor_success ep source at_ :
  silent (monitor_record_success (E := E) (RE := RE) w base_actor base_origin ep source at_).
Proof.
  unfold monitor_record_success, audit_context, operation_audit_context, terminal_sequence, generate.
  destruct (execution_attribution _ _ _). solve_silent.
Qed.

Ltac silent_monitor :=
  repeat first
    [ apply silent_monitor_step | apply silent_monitor_failure | apply silent_monitor_success
    | apply silent_ret | apply silent_throw
    | apply silent_bind; [|intros ?] ].

Lemma silent_monitor_verify id ep c source now :
  silent (monitor_verify_target (E := E) (RE := RE) w base_actor base_origin id ep c source now).
Proof.
  unfold monitor_verify_target. apply silent_bind; [apply silent_attempt, silent_verify|].
  intros [[]|x]; silent_monitor.
Qed.

Lemma silent_observe o t obs now :
  silent (observe (E := E) (RE := RE) w base_actor base_origin o t obs now).
Proof.
  unfold observe, observed, resolve_unknown. destruct (to_state obs) as [st|]; [|silent_monitor].
  apply silent_bind; [solve_silent|intros updated]. apply silent_bind; [solve_silent|intros _].
  destruct (negb (task_is_terminal st)); [apply silent_ret|]. case_decide; [|silent_monitor].
  apply silent_bind; [apply silent_monitor_step|intros _]. apply silent_monitor_verify.
Qed.

Lemma silent_poll id now : silent (poll (E := E) (RE := RE) w base_actor base_origin id now).
Proof.
  unfold poll. apply silent_bind; [solve_silent|intros found].
  apply silent_bind; [solve_silent|intros operation]. case_decide; [apply silent_throw|].
  destruct (op_targets operation) as [|target targets]; [apply silent_throw|].
  apply silent_bind; [solve_silent|intros [t|]]; [|unfold resolve_unknown; silent_monitor].
  apply silent_bind; [apply silent_attempt, silent_read_task|].
  intros [[obs|]|x]; [apply silent_observe|unfold resolve_unknown; silent_monitor|apply silent_ret].
Qed.

(** *** Execution spends the start fact it records *)

Abbreviation pays m s := (wp m (λ _, logs paid) (logs paid) s).

Lemma pays_silent {A F} (m : M (Runtime P St X) F A) s : silent m → logs paid s → pays m s.
Proof.
  intros Hm Hs. specialize (Hm paid paid_grows s Hs). unfold wp. by destruct (m s) as [s' [a|e]].
Qed.

(** A silent call keeps the start fact for the rest. *)
Lemma pays_after {A B F} ep op (m : M (Runtime P St X) F A) (k : A → M _ F B) s :
  silent m → logs (funded ep op) s → (∀ a s', logs (funded ep op) s' → pays (k a) s') →
  pays (mbind m k) s.
Proof.
  intros Hm Hs Hk. apply wp_bind. specialize (Hm _ (funded_grows ep op) s Hs).
  unfold wp at 1. destruct (m s) as [s' [a|e]]; [by apply Hk | apply Hm].
Qed.

Lemma pays_known {A F} (m : M (Runtime P St X) F A) (Q : A → Runtime P St X → Prop) s :
  silent m → logs paid s → (∀ a s', m s = (s', Ok a) → logs paid s' → Q a s') →
  wp m Q (logs paid) s.
Proof.
  intros Hm Hs HQ. specialize (Hm paid paid_grows s Hs). unfold wp.
  destruct (m s) as [s' [a|e]]; [by apply HQ | done].
Qed.

Lemma audit_context_fields {G} (f : AuditOperationContextError → G) ep op actor origin s s' c :
  mapping f (operation_audit_context w ep op actor origin) s = (s', Ok c) →
  ac_target c = TargetEndpoint ep ∧ ac_action c = ActExecuteOperation ∧ ac_redfish_operation c = op.
Proof.
  unfold mapping, operation_audit_context. intros Hrun.
  apply mmap_err_inv in Hrun as (r & Hrun & Hr). destruct r as [c'|e]; [|done]. injection Hr as <-.
  apply mbind_ok in Hrun as (i & s1 & _ & Hrun). unfold lift, mlift in Hrun. injection Hrun as _ Hc.
  unfold AuditOperationContext_try_new, try_new_with_actor_principal in Hc.
  repeat case_match; try done. injection Hc as <-. done.
Qed.

Lemma pays_append ep op event s :
  logs paid s → starts ep op (Audited (P := P) (X := X) event) →
  wp (append_audit_event w event) (λ _, logs (funded ep op)) (logs paid) s.
Proof.
  intros Hs He. unfold wp, append_audit_event, call. destruct (dies w (rt_calls s)); [done|].
  destruct (audit_fault_at w (rt_calls s)); [done|]. by apply funded_start.
Qed.

Lemma pays_start_audit {B} ep c source (k : StartedAudit → M _ _ B) s :
  logs paid s → (∀ a s', logs (funded ep (command_audit_operation c)) s' → pays (k a) s') →
  pays (mbind (start_audit (E := E) (RE := RE) w base_actor base_origin ep c source) k) s.
Proof.
  intros Hs Hk. apply wp_bind. unfold start_audit.
  destruct (execution_attribution _ _ _) as [actor origin].
  apply wp_bind, pays_known; [unfold operation_audit_context, generate; solve_silent|done|].
  intros context s1 Hc Hs1. apply audit_context_fields in Hc as (Ht & Ha & Hop).
  apply wp_bind, pays_known; [solve_silent|done|]. intros sequence s2 _ Hs2.
  apply wp_bind, pays_known; [apply silent_ask|done|]. intros at_ s3 _ Hs3.
  apply wp_bind, pays_known; [apply silent_ask|done|]. intros event_id s4 _ Hs4.
  apply wp_bind. unfold wp, mapping, mmap_err.
  pose proof (pays_append ep (command_audit_operation c)
    (AuditEvent_started event_id context at_) s4 Hs4) as Happ.
  unfold wp in Happ. destruct (append_audit_event _ _ _) as [s5 [u|e]]; [|by apply Happ].
  apply Hk, Happ. done.
Qed.

(** The dispatch. *)
Lemma pays_dispatch id ep c started f wrap s :
  logs (funded ep (command_audit_operation c)) s →
  pays (let! outcome := attempt (reach w f (Dispatched id ep c)) in
        drive_outcome (E := E) (RE := RE) w id ep c started outcome wrap) s.
Proof.
  intros Hs. apply wp_bind. unfold wp at 1, attempt, reach, call.
  destruct (dies w (rt_calls s)); [apply Hs|]. cbv beta iota zeta.
  assert (logs paid (happened (Dispatched id ep c (f (rt_calls s))) (tick s))) as Hpaid.
  { eapply funded_spent; [|exact Hs]. done. }
  destruct (f (rt_calls s)) as [outcome|x]; apply pays_silent; try done;
    apply silent_drive_outcome.
Qed.

Lemma pays_dispatch_and_verify id ep c started artifact s :
  logs (funded ep (command_audit_operation c)) s →
  pays (dispatch_and_verify (E := E) (RE := RE) w id ep c started artifact) s.
Proof.
  intros Hs. unfold dispatch_and_verify, gateway_execute, gateway_execute_update.
  destruct c as [| | | | | | | | | |[artifact_id uri|]|]; try (by apply pays_dispatch).
  destruct artifact; [by apply pays_dispatch|]. apply pays_silent; [apply silent_refuse|apply Hs].
Qed.

Lemma pays_execute_admitted id o ep s :
  logs paid s → pays (execute_admitted (E := E) (RE := RE) w base_actor base_origin id o ep) s.
Proof.
  intros Hs. unfold execute_admitted, execute_prepared. apply pays_start_audit; [done|].
  clear s Hs. intros started s Hs.
  assert (∀ failure s, logs (funded ep (command_audit_operation (op_command o))) s →
    pays (refuse (E := E) (RE := RE) w id started failure) s) as Hrefuse.
  { intros failure s' [Hs' _]. apply pays_silent; [apply silent_refuse | done]. }
  eapply pays_after; [unfold endpoint_exists; solve_silent|done|]. clear s Hs. intros known s Hs.
  destruct (negb known); [by apply Hrefuse|].
  eapply pays_after; [unfold capability_preflight, capability_query; solve_silent|done|].
  clear s Hs. intros [] s Hs.
  - eapply pays_after; [unfold prepare_artifact, resolve_update_artifact; solve_silent|done|].
    clear s Hs. intros [artifact|] s Hs; [|by apply Hrefuse].
    eapply pays_after; [|done|].
    + case_decide; [apply silent_bind; [apply silent_apply_step|intros ?]|]; apply silent_ret.
    + clear s Hs. intros _ s Hs. eapply pays_after; [apply silent_apply_step|done|].
      clear s Hs. intros _ s Hs. by apply pays_dispatch_and_verify.
  - eapply pays_after; [solve_silent|done|]. clear s Hs. intros _ s Hs. by apply Hrefuse.
  - by apply Hrefuse.
Qed.

Lemma pays_execute_operation id s :
  logs paid s → pays (execute_operation (E := E) (RE := RE) w base_actor base_origin id) s.
Proof.
  intros Hs. unfold execute_operation. apply wp_bind, pays_known; [solve_silent|done|].
  intros found s1 _ Hs1. apply wp_bind, pays_known; [solve_silent|done|]. intros o s2 _ Hs2.
  case_decide; [done|]. destruct (op_targets o) as [|target targets]; [done|].
  by apply pays_execute_admitted.
Qed.

Lemma run_drives_paid ds s :
  logs paid s → logs paid (run_drives (E := E) (RE := RE) w base_actor base_origin ds s).
Proof.
  revert s. induction ds as [|d ds IH]; intros s Hs; [done|]. apply IH.
  destruct d as [source targets command|id|id|id]; simpl.
  - apply (wp_state (submit w source targets command)), pays_silent; [|done].
    unfold submit, generate, clock_now. solve_silent.
  - apply (wp_state (execute_operation w base_actor base_origin id)). by apply pays_execute_operation.
  - apply (wp_state (recover_operation w base_actor base_origin id)), pays_silent; [|done].
    apply silent_recover_operation.
  - apply (wp_state (let! now := clock_now w in poll w base_actor base_origin id now)), pays_silent;
      [|done]. apply silent_bind; [apply silent_ask|intros now]. apply silent_poll.
Qed.

(** C5: Whatever is driven and whatever fails, at every moment the writes of one kind
    that were sent to one endpoint are not more than the start facts of that kind
    and endpoint that the audit log had accepted by then: a write whose start
    fact cannot be recorded is not sent. *)
Theorem writes_are_audited ds s l1 l2 ep op :
  rt_log s = [] →
  rt_log (run_drives (E := E) (RE := RE) w base_actor base_origin ds s) = l1 ++ l2 →
  sent ep op l1 ≤ started_facts ep op l1.
Proof.
  intros Hs Hlog. assert (logs paid s) as Hpaid.
  { intros ep' op' k1 k2 Heq. rewrite Hs in Heq. symmetry in Heq.
    apply app_eq_nil in Heq as [-> _]. unfold sent. simpl. lia. }
  apply (run_drives_paid ds) in Hpaid. by eapply Hpaid.
Qed.
End audited.
