(* ===== verification/DriveLiveness.v ===== *)
(** * DriveLiveness: what a drive on a working site comes to

    Where every call is answered, a drive always ends, and the state it leaves is
    a function of what the BMC said: the specification of one execution and of one
    poll, and the proof that [Executor] and [TaskMonitor] meet it. *)
From S2P Require Import Prelude Text Operation OperationEngine Capability Artifact AuditLog.
From S2P Require Import RedfishCommand RemoteTask Executor TaskMonitor DriveSafety.

(** The stores answer. *)
Class AnsweringStore (Command St E RE : Type)
    `{OperationStoreLaws Command St E, RemoteTaskStoreLaws St RE} := {
  ans_find id s : store_ok s → ∃ s' x, store_find_operation id s = (s', Ok x);
  ans_apply id st at_ s :
    store_ok s → stamp_ok (store_view s) id at_ →
    is_Some (row_step (v_operations (store_view s)) id st at_) →
    ∃ s', store_apply_transition id st at_ s = (s', Ok ());
  ans_apply_if id ex st at_ s :
    store_ok s → stamp_ok (store_view s) id at_ →
    is_Some (row_step_if (v_operations (store_view s)) id ex st at_) →
    ∃ s', store_apply_transition_if_current id ex st at_ s = (s', Ok ());
  ans_save t s : task_rows_ok s → task_ok t → ∃ s', save_remote_task t s = (s', Ok ());
  ans_find_task id s : task_rows_ok s → ∃ s' x, find_remote_task id s = (s', Ok x);
}.

(** ** Specifications *)

(** The state a re-read leads to, once the write is known to have landed. *)
Definition verified {X} (v : result VerificationVerdict X) : OperationState :=
  match v with
  | Ok Confirmed => Succeeded
  | Ok Mismatched => Failed
  | Err _ => Unknown
  end.

(** The state one execution leads to. *)
Definition executed {X} `{DispatchVerdictClassifier X} (a : result CommandOutcome X)
    (v : result VerificationVerdict X) : OperationState :=
  match a with
  | Ok (AsyncTaskAccepted _) => WaitingRemote
  | Ok Rejected => Failed
  | Ok Accepted => verified v
  | Err x => match dispatch_verdict x with NotExecuted => Failed | DispatchOutcomeUnknown => Unknown end
  end.

(** The state one poll leads to. *)
Definition polled {X} (r : result (option TaskObservation) X) (v : result VerificationVerdict X)
    : OperationState :=
  match r with
  | Err _ => WaitingRemote
  | Ok None => Unknown
  | Ok (Some obs) =>
      match to_state obs with
      | None => Unknown
      | Some st =>
          if task_is_terminal st
          then if decide (st = TaskCompleted) then verified v else Failed
          else WaitingRemote
      end
  end.

(** The state one recovery leads to, from the state a crash left and, for an
    operation that was running, whether a Task of it is on record. *)
Definition recovered {P X} (command : RedfishCommand P) (state : OperationState)
    (tracked : bool) (v : result VerificationVerdict X) : OperationState :=
  match state with
  | Running =>
      if tracked then WaitingRemote
      else match v with
           | Ok Confirmed => if recovery_judgement_proves_effect command then Succeeded else Unknown
           | Ok Mismatched => Failed
           | Err _ => Unknown
           end
  | _ => verified v
  end.

Section liveness.
Context {P St E RE X : Type} `{SeparateStores (RedfishCommand P) St E RE}.
Context `{!AnsweringStore (RedfishCommand P) St E RE} `{DispatchVerdictClassifier X}.
Context (w : Surroundings P X) (Hclock : clock_monotone w).
Context (base_actor : AuditActor) (base_origin : DeploymentPosture).
Abbreviation Command := (RedfishCommand P).
Implicit Types (o : Operation Command) (h : list (Effect P X)) (s : Runtime P St X).

(** The process lives, the audit log accepts, and the driver acts as itself. *)
Definition working : Prop :=
  (∀ n, dies w n = false) ∧ (∀ n, audit_fault_at w n = None) ∧ base_actor ≠ ActorUser.
Context (Hworking : working).

(** The call returns, in a state and with a value that satisfy [Q]. *)
Definition lives {A F} (m : M (Runtime P St X) F A) (Q : A → Runtime P St X → Prop) s : Prop :=
  ∃ s' a, m s = (s', Ok a) ∧ Q a s'.
(** The drive ends, whatever it reports, in a state that satisfies [Q]. *)
Definition ends_in {A F} (m : M (Runtime P St X) F A) (Q : Runtime P St X → Prop) s : Prop :=
  Q (m s).1.

Lemma lives_ends {A F} (m : M (Runtime P St X) F A) (Q : Runtime P St X → Prop) s :
  lives m (λ _, Q) s → ends_in m Q s.
Proof. intros (s' & a & Hm & HQ). unfold ends_in. by rewrite Hm. Qed.

Lemma ends_bind {A B F} (m : M (Runtime P St X) F A) (k : A → M _ F B) Q s :
  lives m (λ a s', ends_in (k a) Q s') s → ends_in (mbind m k) Q s.
Proof. intros (s' & a & Hm & HQ). unfold ends_in, mbind. by rewrite Hm. Qed.

Lemma lives_bind {A B F} (m : M (Runtime P St X) F A) (k : A → M _ F B) Q s :
  lives m (λ a s', lives (k a) Q s') s → lives (mbind m k) Q s.
Proof. intros (s' & a & Hm & HQ). unfold lives, mbind. by rewrite Hm. Qed.

Lemma lives_mapping {A F G} (f : F → G) (m : M (Runtime P St X) (abrupt F) A) Q s :
  lives m Q s → lives (mapping f m) Q s.
Proof. intros (s' & a & Hm & HQ). exists s', a. unfold mapping, mmap_err. by rewrite Hm. Qed.

Lemma ends_mapping {A F G} (f : F → G) (m : M (Runtime P St X) (abrupt F) A) Q s :
  ends_in m Q s → ends_in (mapping f m) Q s.
Proof. unfold ends_in, mapping, mmap_err. by destruct (m s). Qed.

Lemma lives_wp {A F} (m : M (Runtime P St X) F A) Q R s :
  is_ok (m s).2 = true → wp m Q R s → lives m Q s.
Proof. unfold wp, lives. destruct (m s) as [s' [a|e]]; [eauto | done]. Qed.

(** A quiet call that returns keeps the story. *)
Lemma lives_quiet {A F} (m : M (Runtime P St X) F A) (Q : A → Prop) id o task h s :
  quiet w m → tells w id o task h s → lives m (λ a _, Q a) s →
  lives m (λ a s', Q a ∧ tells w id o task h s') s.
Proof.
  intros Hm Hs (s' & a & Hrun & HQ). exists s', a. specialize (Hm _ _ _ _ _ Hs).
  rewrite Hrun in Hm. done.
Qed.

Lemma lives_call {A F} (f : nat → Runtime P St X → Runtime P St X * result A F) Q s :
  (∃ s' a, f (rt_calls s) (tick s) = (s', Ok a) ∧ Q a s') → lives (call w f) Q s.
Proof.
  intros (s' & a & Hf & HQ). exists s', a. unfold call.
  destruct Hworking as [-> _]. by rewrite Hf.
Qed.

Lemma lives_ask {A F} (f : nat → result A F) (Q : A → Runtime P St X → Prop) s a :
  f (rt_calls s) = Ok a → Q a (tick s) → lives (ask w f) Q s.
Proof. intros Hf HQ. apply lives_call. exists (tick s), a. by rewrite Hf. Qed.

Lemma lives_append e (Q : () → Runtime P St X → Prop) s :
  Q () (happened (Audited e) (tick s)) → lives (append_audit_event w e) Q s.
Proof.
  intros HQ. apply lives_call. destruct Hworking as (_ & -> & _). eauto.
Qed.

Lemma lives_attempt_call {A F G} (f : nat → Runtime P St X → Runtime P St X * result A F)
    (Q : result A F → Runtime P St X → Prop) s :
  (let '(s', r) := f (rt_calls s) (tick s) in Q r s') → lives (attempt (G := G) (call w f)) Q s.
Proof.
  intros HQ. unfold lives, attempt, call. destruct Hworking as [-> _].
  destruct (f _ _) as [s' [a|e]]; eexists _, _; eauto.
Qed.

Lemma attribution_accepted source : (execution_attribution base_actor base_origin source).1 ≠ ActorUser.
Proof. destruct Hworking as (_ & _ & ?). unfold execution_attribution. by repeat case_match. Qed.

Lemma lives_context {G} (f : AuditOperationContextError → G) ep op actor origin s Q :
  actor ≠ ActorUser → names_execution op = true → (∀ c, Q c) →
  lives (mapping f (operation_audit_context w ep op actor origin)) (λ c _, Q c) s.
Proof.
  intros Hactor Hop HQ. apply lives_mapping, lives_bind. eapply lives_ask; [done|].
  unfold lift, mlift, lives. unfold AuditOperationContext_try_new, try_new_with_actor_principal.
  rewrite bool_decide_false by done. rewrite bool_decide_false by (by intros [? ?]). simpl.
  destruct op; try discriminate Hop; simpl; eauto.
Qed.

Lemma lives_start_audit ep c source s :
  lives (start_audit (E := E) (RE := RE) w base_actor base_origin ep c source)
    (λ _ _, True) s.
Proof.
  unfold start_audit. pose proof (attribution_accepted source) as Hactor.
  destruct (execution_attribution _ _ _) as [actor origin]. simpl in Hactor.
  apply lives_bind. destruct (lives_context (λ e, ExAudit (E := E) (RE := RE) (X := X) StageStart (RecordContext e)) ep
    (command_audit_operation c) actor origin s (λ _, True)) as (s1 & context & Hrun & _);
    [done|apply command_audited|done|]. exists s1, context. split; [exact Hrun|].
  apply lives_bind. eexists _, _. split; [reflexivity|].
  apply lives_bind. eapply lives_ask; [done|]. apply lives_bind. eapply lives_ask; [done|].
  apply lives_bind, lives_mapping, lives_append. eexists _, _. split; [reflexivity|done].
Qed.

Lemma engine_apply_answers id ev now (st : St) o next :
  store_ok st → stamp_ok (store_view st) id now →
  v_operations (store_view st) !! id = Some o → transition (op_state o) ev = Ok next →
  is_ok (engine_apply (Command := Command) id ev now st).2 = true.
Proof.
  intros Hok Hst Ho Htr. unfold engine_apply, mbind, mmap_err, mlift, mret.
  destruct (ans_find id st Hok) as (st1 & x & Hf). rewrite Hf.
  apply law_find in Hf as (Hok1 & Hv1 & Hx); [|done]. rewrite (Hx _ eq_refl), Ho. simpl.
  unfold advance, Operation_apply. rewrite Htr. simpl.
  destruct (ans_apply id next now st1) as (st2 & ->); [done|by rewrite Hv1| |done].
  rewrite Hv1. unfold row_step. rewrite Ho, (transition_active _ _ _ Htr). by eexists.
Qed.

(** One step of the driven operation. *)
Lemma lives_engine_apply id ev now o task h s next :
  tells w id o task h s → (op_created_at o ≤ now)%Z → transition (op_state o) ev = Ok next →
  phase (event_target ev) o task h →
  lives (on_store w (engine_apply id ev now))
    (λ a s', a = set_state o next now ∧ tells w id a task h s') s.
Proof.
  intros Hs Hnow Htr Hp. eapply lives_wp.
  - pose proof Hs as ((Hok & _) & _ & Ho & _).
    pose proof (engine_apply_answers id ev now (rt_store s) o next Hok
      (tells_stamp w id o task h s now Hs Hnow) Ho Htr) as Hans.
    unfold on_store, call. destruct Hworking as [-> _]. simpl.
    by destruct (engine_apply id ev now (rt_store s)) as [st [a|e]].
  - eapply wp_engine_apply; [exact Hclock|exact Hs|exact Hnow|..].
    + intros st Htr'. by eapply moves.
    + intros st s' Htr' Hs'. assert (st = next) as -> by congruence. done.
Qed.

Lemma lives_step id ev o task h s next :
  tells w id o task h s → transition (op_state o) ev = Ok next → phase (event_target ev) o task h →
  lives (apply_step (RE := RE) w id ev)
    (λ a s', ∃ now, a = set_state o next now ∧ tells w id a task h s') s.
Proof.
  intros Hs Htr Hp. unfold apply_step. apply lives_bind. eapply lives_ask; [done|].
  apply lives_mapping.
  destruct (lives_engine_apply id ev (now_at w (rt_calls s)) o task h (tick s) next)
    as (s' & a & Hrun & -> & Hs'); [by apply tells_tick|by eapply tells_created|done|done|].
  exists s', (set_state o next (now_at w (rt_calls s))). split; [exact Hrun|]. by eexists.
Qed.

(** The driven operation ends in a state, with the effects [es] added. *)
Definition left_in (id : OperationId) o (task : option RemoteTask) h (st : OperationState) s : Prop :=
  ∃ now, tells w id (set_state o st now) task h s.

Lemma ends_quiet {A F} (m : M (Runtime P St X) F A) id o task h st now s :
  quiet w m → tells w id (set_state o st now) task h s → ends_in m (left_in id o task h st) s.
Proof. intros Hm Hs. exists now. by apply (Hm id _ task h). Qed.

(** A last step and the facts after it. *)
Lemma ends_step {B} id ev o o0 task h s next (k : Operation Command → M _ _ B) :
  tells w id o task h s → transition (op_state o) ev = Ok next → phase (event_target ev) o task h →
  (∀ now, set_state o next now = set_state o0 next now) → (∀ a, quiet w (k a)) →
  ends_in (mbind (apply_step (RE := RE) w id ev) k) (left_in id o0 task h next) s.
Proof.
  intros Hs Htr Hp Hset Hk. apply ends_bind.
  destruct (lives_step id ev o task h s next) as (s' & a & Hrun & now & -> & Hs'); [done..|].
  eexists _, _. split; [exact Hrun|]. rewrite Hset in Hs'. by eapply ends_quiet.
Qed.

(** *** One execution *)

(** The calls after the last step are quiet. *)
Ltac quiet_rest :=
  intros; repeat first
    [ done
    | apply quiet_record_failure | apply quiet_record_success
    | apply quiet_monitor_failure | apply quiet_monitor_success
    | apply quiet_ret | apply quiet_throw
    | apply quiet_bind; [|intros ?] ]; try done.

(** An answer of the BMC. *)
Lemma lives_reach {A F G} (f : nat → result A F) (effect : result A F → Effect P X) r id o task h s
    (Q : result A F → Runtime P St X → Prop) :
  tells w id o task h s → (∀ n, f n = r) → effect_of id (effect r) → story o task (h ++ [effect r]) →
  (∀ s', tells w id o task (h ++ [effect r]) s' → Q r s') →
  lives (attempt (G := G) (reach w f effect)) Q s.
Proof.
  intros Hs Hf Heff Hst HQ. apply lives_attempt_call. simpl. rewrite Hf. apply HQ.
  apply tells_happened; [by apply tells_tick|done|done].
Qed.

Lemma ends_verify_target id ep o o0 task h s started v :
  tells w id o task h s → op_state o = Verifying → first_endpoint o = Some ep →
  (∀ st now, set_state o st now = set_state o0 st now) →
  (∀ n, verify_at w n ep (op_command o) = v) →
  ends_in (verify_target (E := E) (RE := RE) w id ep (op_command o) started)
    (left_in id o0 task (h ++ [Reread id ep (op_command o) v]) (verified v)) s.
Proof.
  intros Hs Hst Hep Hset Hv. pose proof (tells_story _ _ _ _ _ _ Hs) as (_ & _ & _ & Hp).
  rewrite Hst in Hp. unfold verify_target. apply ends_bind. eapply lives_reach; [exact Hs|exact Hv|done|..].
  { by eapply reread_story. }
  clear s Hs. intros s Hs. destruct v as [[]|x].
  - eapply ends_step; [done|by rewrite Hst|by apply confirmed_success|done|quiet_rest].
  - eapply ends_step; [done|by rewrite Hst|by apply mismatched_failure|done|quiet_rest].
  - eapply ends_step; [done|by rewrite Hst|done|done|quiet_rest].
Qed.

(** The effects of one execution after the dispatch. *)
Definition followed (id : OperationId) (ep : EndpointId) (c : Command)
    (a : result CommandOutcome X) (v : result VerificationVerdict X) : list (Effect P X) :=
  match a with Ok Accepted => [Reread id ep c v] | _ => [] end.

Lemma ends_drive_outcome id ep o o0 h s started a v wrap :
  tells w id o None h s → op_state o = Running → first_endpoint o = Some ep → answers h = [a] →
  (∀ st now, set_state o st now = set_state o0 st now) →
  (∀ n, verify_at w n ep (op_command o) = v) →
  ends_in (drive_outcome (E := E) (RE := RE) w id ep (op_command o) started a wrap)
    (λ s', ∃ task, left_in id o0 task (h ++ followed id ep (op_command o) a v) (executed a v) s') s.
Proof.
  intros Hs Hst Hep Hans Hset Hv. destruct a as [[|uri|]|x]; simpl; rewrite ?app_nil_r.
  - apply ends_bind. destruct (lives_step id EvExecutionAccepted o None h s Verifying)
      as (s' & a & Hrun & now & -> & Hs'); [done|by rewrite Hst|by left; rewrite Hans; left|].
    eexists _, _. split; [exact Hrun|].
    pose proof (ends_verify_target id ep (set_state o Verifying now) o0 None h s' started v Hs'
      eq_refl Hep) as Hend.
    exists None. apply Hend; [|done]. intros st' now'. by rewrite <- Hset.
  - pose proof (tells_story _ _ _ _ _ _ Hs) as (Ha & Hl & _ & _).
    pose proof Hs as (_ & _ & _ & _ & _ & Hid & _).
    apply ends_bind. eapply lives_ask; [done|]. apply (tells_tick w Hclock) in Hs.
    set (t := RemoteTask_new id ep uri None (now_at w (rt_calls s))).
    assert (story o (Some t) h) as Hstory.
    { split; [done|]. split; [done|]. rewrite Hst. split; [|done]. intros t' [= <-]. simpl. by rewrite Hid. }
    apply ends_bind, lives_attempt_call.
    pose proof Hs as ((_ & Htok & _) & _).
    destruct (ans_save t (rt_store (tick (tick s))) Htok I) as [st Hsave].
    rewrite Hsave. apply (tells_tick w Hclock) in Hs.
    apply (tells_saved w id o None h (tick (tick s))) in Hsave; [|done..].
    destruct (lives_step id EvRemoteTaskStarted o (Some t) h _ WaitingRemote Hsave)
      as (s' & a & Hrun & now & -> & Hs'); [by rewrite Hst|by eexists|].
    unfold ends_in. rewrite Hrun. exists (Some t), now. by rewrite <- Hset.
  - exists None. eapply ends_step; [done|by rewrite Hst|by right; left|done|quiet_rest].
  - exists None. destruct (dispatch_verdict x) eqn:Hx; simpl;
      (eapply ends_step; [done|by rewrite Hst| |done|quiet_rest]).
    + right. right. left. by exists x.
    + done.
Qed.

(** Reading the row of the operation. *)
Lemma lives_find id o task h s :
  tells w id o task h s →
  lives (on_store w (store_find_operation id)) (λ r s', r = Some o ∧ tells w id o task h s') s.
Proof.
  intros Hs. apply lives_quiet; [by apply quiet_store_find|done|].
  pose proof Hs as ((Hok & _) & _ & Ho & _). apply lives_call.
  destruct (ans_find id (rt_store s) Hok) as (st & x & Hrun). simpl. rewrite Hrun.
  apply law_find in Hrun as (_ & _ & Hx); [|done]. eexists _, _. split; [reflexivity|].
  by rewrite (Hx _ eq_refl).
Qed.

(** Reading the task row of the operation. *)
Lemma lives_find_task id o task h s :
  tells w id o task h s →
  lives (on_store w (find_remote_task id)) (λ r s', r = task ∧ tells w id o task h s') s.
Proof.
  intros Hs. apply lives_quiet; [by apply quiet_find_task|done|].
  pose proof Hs as ((_ & Htok & _) & _ & _ & Ht & _). apply lives_call.
  destruct (ans_find_task id (rt_store s) Htok) as (st & x & Hrun). simpl. rewrite Hrun.
  apply law_find_task in Hrun as (_ & _ & Hx); [|done]. eexists _, _. split; [reflexivity|].
  rewrite (Hx _ eq_refl). exact Ht.
Qed.

(** What the site says of the endpoint and its capability, at any moment. *)
Definition usable (ep : EndpointId) (command : Command) : Prop :=
  (∀ n, endpoint_at w n ep = Ok true) ∧
  ∃ stored entries, (∀ n, capabilities_at w n ep = Ok (Some stored)) ∧
    merge_ledger stored = Ok entries ∧
    required_capability_state (required_capability command) entries = Some Supported.

(** What the BMC answers to the write, with the artifact of an update in hand. *)
Definition answers_with (ep : EndpointId) (command : Command) (a : result CommandOutcome X) : Prop :=
  match command with
  | Update (StartUpdate artifact_id push_uri) =>
      ∃ artifact bytes, (∀ n, artifact_at w n artifact_id = Ok (Some artifact)) ∧
        a_state artifact = Ready ∧ (∀ n, artifact_file_at w n (a_id artifact) = Some bytes) ∧
        ∀ n, execute_update_at w n ep (mk_update_payload (a_id artifact) (a_name artifact) bytes) push_uri = a
  | _ => ∀ n, execute_at w n ep command = a
  end.

Lemma lives_preflight ep command s :
  usable ep command →
  lives (capability_preflight (E := E) (RE := RE) w command ep) (λ r _, r = Usable) s.
Proof.
  intros (_ & stored & entries & Hstored & Hmerge & Hcap).
  unfold capability_preflight, capability_query. apply lives_bind, lives_mapping, lives_bind.
  apply lives_mapping. eapply lives_ask; [apply Hstored|]. cbv beta iota. rewrite Hmerge.
  eexists _, _. split; [reflexivity|]. eexists _, _. split; [reflexivity|]. simpl. by rewrite Hcap.
Qed.

(** The artifact that goes with a dispatch. *)
Definition carries (ep : EndpointId) (command : Command) (a : result CommandOutcome X)
    (artifact : option UpdateArtifactPayload) : Prop :=
  match command with
  | Update (StartUpdate _ push_uri) =>
      ∃ payload, artifact = Some payload ∧ ∀ n, execute_update_at w n ep payload push_uri = a
  | _ => ∀ n, execute_at w n ep command = a
  end.

Lemma lives_artifact ep command a s :
  answers_with ep command a →
  lives (prepare_artifact (E := E) (RE := RE) w command)
    (λ r _, ∃ artifact, r = Some artifact ∧ carries ep command a artifact) s.
Proof.
  intros Ha. unfold prepare_artifact.
  destruct command as [| | | | | | | | | |[artifact_id uri|]|];
    try (eexists _, _; split; [reflexivity|]; by exists None).
  destruct Ha as (artifact & bytes & Hfind & Hready & Hfile & Hexec).
  apply lives_bind. unfold resolve_update_artifact, lives, attempt, mbind, mapping, mmap_err, ask, call.
  pose proof Hworking as [Hdies _]. rewrite Hdies, Hfind. simpl. rewrite decide_False by (by intros []).
  rewrite Hdies, Hfile. simpl. eexists _, _. split; [reflexivity|].
  eexists _, _. split; [reflexivity|]. eexists. split; [reflexivity|]. by eexists.
Qed.

Lemma ends_dispatch id ep o o0 task h s started artifact a v :
  tells w id o task h s → op_state o = Running → first_endpoint o = Some ep → answers h = [] →
  carries ep (op_command o) a artifact → (∀ st now, set_state o st now = set_state o0 st now) →
  (∀ n, verify_at w n ep (op_command o) = v) →
  ends_in (dispatch_and_verify (E := E) (RE := RE) w id ep (op_command o) started artifact)
    (λ s', ∃ task, left_in id o0 task
       (h ++ Dispatched id ep (op_command o) a :: followed id ep (op_command o) a v) (executed a v) s') s.
Proof.
  intros Hs Hst Hep Hno Hcarries Hset Hv.
  pose proof (tells_story _ _ _ _ _ _ Hs) as Hstory.
  pose proof (story_untracked _ _ _ Hstory Hno) as ->.
  destruct (story_dispatched o h id ep a Hstory Hst Hno Hep) as [Hstory' Hans].
  assert (∀ (f : nat → result CommandOutcome X) wrap, (∀ n, f n = a) →
    ends_in (let! outcome := attempt (reach w f (Dispatched id ep (op_command o))) in
             drive_outcome (E := E) (RE := RE) w id ep (op_command o) started outcome wrap)
      (λ s', ∃ task, left_in id o0 task
         (h ++ Dispatched id ep (op_command o) a :: followed id ep (op_command o) a v)
         (executed a v) s') s) as Hgen.
  { intros f wrap Hf. apply ends_bind. eapply lives_reach; [exact Hs|exact Hf|done|done|].
    intros s' Hs'.
    pose proof (ends_drive_outcome id ep o o0 _ s' started a v wrap Hs' Hst Hep Hans Hset Hv) as Hend.
    by rewrite <- app_assoc in Hend. }
  clear Hs Hstory Hstory'. unfold dispatch_and_verify, gateway_execute, gateway_execute_update.
  revert Hgen Hcarries. generalize (op_command o). intros command Hgen Hcarries.
  destruct command as [| | | | | | | | | |[artifact_id uri|]|]; try (by apply Hgen).
  destruct Hcarries as (payload & -> & Hexec). by apply Hgen.
Qed.

Lemma ends_validated id ep o o0 task h s started artifact a v :
  tells w id o task h s → op_state o = Validating → first_endpoint o = Some ep → answers h = [] →
  carries ep (op_command o) a artifact → (∀ st now, set_state o st now = set_state o0 st now) →
  (∀ n, verify_at w n ep (op_command o) = v) →
  ends_in (do! apply_step (E := E) (RE := RE) w id EvValidationPassed in
           dispatch_and_verify w id ep (op_command o) started artifact)
    (λ s', ∃ task, left_in id o0 task
       (h ++ Dispatched id ep (op_command o) a :: followed id ep (op_command o) a v) (executed a v) s') s.
Proof.
  intros Hs Hst Hep Hno Hcarries Hset Hv. apply ends_bind.
  destruct (lives_step id EvValidationPassed o task h s Running)
    as (s' & o' & Hrun & now & -> & Hs'); [done|by rewrite Hst|done|].
  eexists _, _. split; [exact Hrun|].
  by apply (ends_dispatch id ep (set_state o Running now) o0 task h s' started artifact a v Hs').
Qed.

Lemma ends_prepared id ep o task h s started artifact a v :
  tells w id o task h s → op_state o ∈ [Queued; Validating] → first_endpoint o = Some ep →
  answers h = [] → carries ep (op_command o) a artifact →
  (∀ n, verify_at w n ep (op_command o) = v) →
  ends_in (execute_prepared (E := E) (RE := RE) w id (op_state o) ep (op_command o) started artifact)
    (λ s', ∃ task, left_in id o task
       (h ++ Dispatched id ep (op_command o) a :: followed id ep (op_command o) a v) (executed a v) s') s.
Proof.
  intros Hs Hst Hep Hno Hcarries Hv. unfold execute_prepared. apply ends_bind. case_decide as Hq.
  - apply lives_bind. destruct (lives_step id EvValidationStarted o task h s Validating)
      as (s' & o' & Hrun & now & -> & Hs'); [done|by rewrite Hq|done|].
    eexists _, _. split; [exact Hrun|]. eexists _, _. split; [reflexivity|].
    by apply (ends_validated id ep (set_state o Validating now) o task h s' started artifact a v Hs').
  - eexists _, _. split; [reflexivity|]. eapply ends_validated; try done. set_solver.
Qed.

(** A quiet call that returns, and then the rest. *)
Lemma ends_after {A B F} (m : M (Runtime P St X) F A) (k : A → M _ F B) (R : A → Prop) Q id o task h s :
  quiet w m → tells w id o task h s → lives m (λ a _, R a) s →
  (∀ a s', R a → tells w id o task h s' → ends_in (k a) Q s') → ends_in (mbind m k) Q s.
Proof.
  intros Hm Hs Hlives Hk. apply ends_bind.
  destruct (lives_quiet m R id o task h s Hm Hs Hlives) as (s' & a & Hrun & HR & Hs').
  exists s', a. split; [exact Hrun|]. by apply Hk.
Qed.

Lemma ends_admitted id ep o task h s a v :
  tells w id o task h s → op_state o ∈ [Queued; Validating] → first_endpoint o = Some ep →
  usable ep (op_command o) → answers_with ep (op_command o) a →
  (∀ n, verify_at w n ep (op_command o) = v) →
  ends_in (execute_admitted (E := E) (RE := RE) w base_actor base_origin id o ep)
    (λ s', ∃ task, left_in id o task
       (h ++ Dispatched id ep (op_command o) a :: followed id ep (op_command o) a v) (executed a v) s') s.
Proof.
  intros Hs Hst Hep Husable Hanswer Hv.
  assert (answers h = []) as Hno by by eapply tells_undispatched.
  unfold execute_admitted.
  eapply (ends_after _ _ (λ _, True)); [by apply quiet_start_audit|done|apply lives_start_audit|].
  clear s Hs. intros started s _ Hs. cbv beta.
  eapply (ends_after _ _ (λ known, known = true)); [by apply quiet_endpoint_exists|done| |].
  { pose proof Husable as [Hknown _]. apply lives_mapping. eapply lives_ask; [apply Hknown|done]. }
  clear s Hs. intros known s -> Hs. cbv beta. simpl negb. cbv iota.
  eapply (ends_after _ _ (λ r, r = Usable));
    [by apply quiet_capability_preflight|done|by apply lives_preflight|].
  clear s Hs. intros r s -> Hs. cbv beta iota.
  eapply ends_after; [by apply quiet_update_artifact|done|by apply lives_artifact|].
  clear s Hs. intros r s (artifact & -> & Hcarries) Hs. cbv beta iota. by eapply ends_prepared.
Qed.

(** C6: On a working site an execution of queued work, or of work a crash left in
    validation, always ends: the write is sent exactly once, with what the command
    carries, the result is re-read exactly if the BMC handled the write at once,
    and the operation is left in the state its two answers say. *)
Theorem execute_completes id o target targets s a v :
  coherent w s → operations s !! id = Some o → op_state o ∈ [Queued; Validating] →
  op_targets o = target :: targets → usable (endpoint_id target) (op_command o) →
  answers_with (endpoint_id target) (op_command o) a →
  (∀ n, verify_at w n (endpoint_id target) (op_command o) = v) →
  let s' := (execute_operation (E := E) (RE := RE) w base_actor base_origin id s).1 in
  coherent w s' ∧
  (∃ now, operations s' !! id = Some (set_state o (executed a v) now)) ∧
  history id (rt_log s') =
    history id (rt_log s) ++
    Dispatched id (endpoint_id target) (op_command o) a ::
    followed id (endpoint_id target) (op_command o) a v.
Proof.
  intros Hs Ho Hst Htargets Husable Hanswer Hv s'.
  apply (coherent_tells w id o s) in Hs; [|done]. apply head_endpoint in Htargets as Hep.
  enough (ends_in (execute_operation (E := E) (RE := RE) w base_actor base_origin id)
    (λ s', ∃ task, left_in id o task (history id (rt_log s) ++
       Dispatched id (endpoint_id target) (op_command o) a ::
       followed id (endpoint_id target) (op_command o) a v) (executed a v) s') s) as Hend.
  { destruct Hend as (task & now & Hend). fold s' in Hend.
    split; [by eapply tells_coherent|]. destruct Hend as (_ & _ & Ho' & _ & Hh & _).
    split; [by eexists|done]. }
  revert Hs. generalize (history id (rt_log s)), (tasks s !! id). intros h task Hs.
  clear s' Ho. unfold execute_operation. apply ends_bind, lives_mapping.
  destruct (lives_find id o task h s Hs) as (s1 & r & Hrun & -> & Hs1).
  eexists _, _. split; [exact Hrun|]. apply ends_bind. eexists _, _. split; [reflexivity|].
  cbv beta zeta. rewrite decide_False by tauto. rewrite Htargets. by eapply ends_admitted.
Qed.

(** *** One poll *)

(** The driven operation is left in a state, with a history. *)
Definition leaves (id : OperationId) h (st : OperationState) s : Prop :=
  ∃ o task, tells w id o task h s ∧ op_state o = st.

Lemma leaves_quiet {A F} (m : M (Runtime P St X) F A) id o task h s :
  quiet w m → tells w id o task h s → ends_in m (leaves id h (op_state o)) s.
Proof. intros Hm Hs. exists o, task. split; [by apply (Hm id o task h) | done]. Qed.

Lemma leaves_monitor_step {B} id ev now o task h s next (k : Operation Command → M _ _ B) :
  tells w id o task h s → (op_created_at o ≤ now)%Z → transition (op_state o) ev = Ok next →
  phase (event_target ev) o task h → (∀ a, quiet w (k a)) →
  ends_in (mbind (monitor_apply_step (RE := RE) w id ev now) k) (leaves id h next) s.
Proof.
  intros Hs Hnow Htr Hp Hk. apply ends_bind, lives_mapping.
  destruct (lives_engine_apply id ev now o task h s next) as (s' & a & Hrun & -> & Hs'); [done..|].
  eexists _, _. split; [exact Hrun|]. by apply (leaves_quiet _ id (set_state o next now) task).
Qed.

Lemma leaves_monitor_verify id ep o task h s source now v :
  tells w id o task h s → (op_created_at o ≤ now)%Z → op_state o = Verifying →
  first_endpoint o = Some ep → (∀ n, verify_at w n ep (op_command o) = v) →
  ends_in (monitor_verify_target (E := E) (RE := RE) w base_actor base_origin id ep (op_command o)
    source now) (leaves id (h ++ [Reread id ep (op_command o) v]) (verified v)) s.
Proof.
  intros Hs Hnow Hst Hep Hv. pose proof (tells_story _ _ _ _ _ _ Hs) as (_ & _ & _ & Hp).
  rewrite Hst in Hp. apply ends_bind. eapply lives_reach; [exact Hs|exact Hv|done|..].
  { by eapply reread_story. }
  clear s Hs. intros s Hs. destruct v as [[]|x];
    (eapply leaves_monitor_step; [done|done|by rewrite Hst| |quiet_rest]).
  - by apply confirmed_success.
  - by apply mismatched_failure.
  - done.
Qed.

(** The effects of one poll after the Task was read. *)
Definition polled_effects (id : OperationId) (ep : EndpointId) (c : Command)
    (r : result (option TaskObservation) X) (v : result VerificationVerdict X)
    : list (Effect P X) :=
  match r with
  | Ok (Some obs) => if decide (to_state obs = Some TaskCompleted) then [Reread id ep c v] else []
  | _ => []
  end.

Lemma leaves_observed id ep o task t h s st now v :
  tells w id o task h s → (op_created_at o ≤ now)%Z → op_state o = WaitingRemote →
  first_endpoint o = Some ep → task_endpoint_id t = ep → task_seen st h →
  (∀ n, verify_at w n ep (op_command o) = v) →
  ends_in (observed (E := E) (RE := RE) w base_actor base_origin o t st now)
    (leaves id (h ++ if decide (Some st = Some TaskCompleted)
                     then [Reread id ep (op_command o) v] else [])
       (if task_is_terminal st then if decide (st = TaskCompleted) then verified v else Failed
        else WaitingRemote)) s.
Proof.
  intros Hs Hnow Hst Hep Hept Hseen Hv. pose proof Hs as (_ & _ & _ & _ & _ & Hid & _).
  unfold observed. rewrite Hid, Hept. destruct (decide (st = TaskCompleted)) as [->|Hne]; simpl.
  - apply ends_bind, lives_mapping.
    destruct (lives_engine_apply id EvRemoteTaskCompleted now o task h s Verifying)
      as (s' & a & Hrun & -> & Hs'); [done|done|by rewrite Hst|by right; left|].
    eexists _, _. split; [exact Hrun|].
    by apply (leaves_monitor_verify id ep (set_state o Verifying now) task h s' _ now v Hs').
  - rewrite decide_False by congruence. rewrite app_nil_r.
    destruct (task_is_terminal st) eqn:Hterm; simpl.
    + eapply leaves_monitor_step; [done|done|by rewrite Hst| |quiet_rest]. do 4 right. by exists st.
    + exists o, task. done.
Qed.

Lemma updated_row_total t obs st now : ∃ t', updated_row t obs st now = Ok t'.
Proof.
  unfold updated_row, RemoteTask_try_from_parts. destruct (to_percent_complete obs) as [p|]; [|eauto].
  case_decide; [|eauto]. rewrite decide_False by lia. eauto.
Qed.

Lemma leaves_observe id ep o t h s obs now v :
  tells w id o (Some t) h s → (op_created_at o ≤ now)%Z → op_state o = WaitingRemote →
  first_endpoint o = Some ep → (∀ st, to_state obs = Some st → task_seen st h) →
  (∀ n, verify_at w n ep (op_command o) = v) →
  ends_in (observe (E := E) (RE := RE) w base_actor base_origin o t obs now)
    (leaves id (h ++ polled_effects id ep (op_command o) (Ok (Some obs)) v)
       (polled (Ok (Some obs)) v)) s.
Proof.
  intros Hs Hnow Hst Hep Hseen Hv. pose proof (tells_story _ _ _ _ _ _ Hs) as (Ha & Hl & Ht & _).
  destruct (Ht t eq_refl) as (Hans & Hept & Htid & _). rewrite Hep in Hept. injection Hept as Hept.
  pose proof Hs as (_ & _ & _ & _ & _ & Hid & _).
  unfold observe, polled_effects, polled. destruct (to_state obs) as [st|].
  - destruct (updated_row_total t obs st now) as [t' Hupd]. rewrite Hupd.
    apply updated_row_inv in Hupd as (Hi & He & Hu & _ & Hok).
    apply ends_bind. eexists _, _. split; [reflexivity|]. apply ends_bind, lives_mapping, lives_call.
    pose proof Hs as ((_ & Htok & _) & _).
    destruct (ans_save t' (rt_store s) Htok Hok) as [store' Hsave]. simpl. rewrite Hsave.
    eexists _, _. split; [reflexivity|].
    assert (story o (Some t') h) as Hstory.
    { split; [done|]. split; [done|]. rewrite Hst. split; [|by eexists].
      intros t1 [= <-]. rewrite Hu, He, Hi, Hep, <- Hept. done. }
    apply (tells_tick w Hclock) in Hs.
    apply (tells_saved w id o (Some t) h (tick s)) in Hsave; [|done|congruence|done..].
    eapply leaves_observed; [exact Hsave|done..|by apply Hseen|done].
  - rewrite decide_False by done. rewrite app_nil_r, Hid. unfold resolve_unknown.
    eapply leaves_monitor_step; [done|done|by rewrite Hst|done|quiet_rest].
Qed.

(** On a working site a poll of a waiting operation always ends: the Task on
    record is read once, the result is re-read exactly if the Task completed, and
    the operation is left in the state the answers say — still waiting if the
    Task is running or could not be read. *)
Theorem poll_completes id o target targets t now s r v :
  coherent w s → operations s !! id = Some o → op_state o = WaitingRemote →
  op_targets o = target :: targets → tasks s !! id = Some t → (op_created_at o ≤ now)%Z →
  (∀ n, read_task_at w n (endpoint_id target) (task_uri t) = r) →
  (∀ n, verify_at w n (endpoint_id target) (op_command o) = v) →
  let s' := (poll (E := E) (RE := RE) w base_actor base_origin id now s).1 in
  coherent w s' ∧ (op_state <$> operations s' !! id) = Some (polled r v) ∧
  history id (rt_log s') =
    history id (rt_log s) ++
    TaskRead id (endpoint_id target) (task_uri t) r ::
    polled_effects id (endpoint_id target) (op_command o) r v.
Proof.
  intros Hs Ho Hst Htargets Htask Hnow Hr Hv s'.
  apply (coherent_tells w id o s) in Hs; [|done]. apply head_endpoint in Htargets as Hep.
  enough (ends_in (poll (E := E) (RE := RE) w base_actor base_origin id now)
    (leaves id (history id (rt_log s) ++ TaskRead id (endpoint_id target) (task_uri t) r ::
       polled_effects id (endpoint_id target) (op_command o) r v) (polled r v)) s) as Hend.
  { destruct Hend as (o' & task & Hend & Hst'). fold s' in Hend.
    split; [by eapply tells_coherent|]. destruct Hend as (_ & _ & Ho' & _ & Hh & _).
    split; [by rewrite Ho', <- Hst'|done]. }
  rewrite Htask in Hs. revert Hs. generalize (history id (rt_log s)). intros h Hs.
  clear s' Ho Htask. unfold poll. apply ends_bind, lives_mapping.
  destruct (lives_find id o _ h s Hs) as (s1 & x & Hrun & -> & Hs1).
  eexists _, _. split; [exact Hrun|]. apply ends_bind. eexists _, _. split; [reflexivity|].
  cbv beta zeta. rewrite decide_False by tauto. rewrite Htargets. apply ends_bind, lives_mapping.
  destruct (lives_find_task id o _ h s1 Hs1) as (s2 & x & Hrun2 & -> & Hs2).
  eexists _, _. split; [exact Hrun2|]. clear s s1 Hs Hs1 Hrun Hrun2. cbv beta iota.
  pose proof (tells_story _ _ _ _ _ _ Hs2) as Hstory.
  pose proof Hstory as (_ & _ & Ht & _). destruct (Ht t eq_refl) as (Hans & _).
  apply ends_bind. eapply lives_reach; [exact Hs2|exact Hr|done|by apply story_read|].
  clear s2 Hs2. intros s Hs. rewrite cons_middle, app_assoc. destruct r as [[obs|]|x].
  - eapply leaves_observe; [done|done|done|done| |done]. intros st Hst'. eexists _, _, _, _.
    split; [apply elem_of_app; right; by left|]. split; [done|].
    rewrite answers_read, Hans by done. by left.
  - rewrite app_nil_r. eapply leaves_monitor_step; [done|done|by rewrite Hst|done|quiet_rest].
  - rewrite app_nil_r. exists o, (Some t). done.
Qed.

(** *** One recovery *)

Lemma engine_apply_if_answers id ev now (st : St) o next :
  store_ok st → stamp_ok (store_view st) id now →
  v_operations (store_view st) !! id = Some o → transition (op_state o) ev = Ok next →
  is_ok (engine_apply_if_current (Command := Command) (λ st, st) id (op_state o) ev now st).2 = true.
Proof.
  intros Hok Hst Ho Htr. unfold engine_apply_if_current, cas_commit, mbind, mmap_err, mlift.
  destruct (ans_find id st Hok) as (st1 & x & Hf). rewrite Hf.
  apply law_find in Hf as (Hok1 & Hv1 & Hx); [|done]. rewrite (Hx _ eq_refl), Ho. simpl.
  rewrite decide_False by tauto. unfold advance, Operation_apply. rewrite Htr. simpl.
  destruct (ans_apply_if id (op_state o) next now st1) as (st2 & ->); [done|by rewrite Hv1| |done].
  rewrite Hv1. unfold row_step_if, row_step. rewrite Ho, decide_True by done.
  rewrite (transition_active _ _ _ Htr). by eexists.
Qed.

Lemma leaves_recover_if {B} id ev o task h s next (k : Operation Command → M _ _ B) :
  tells w id o task h s → transition (op_state o) ev = Ok next → phase (event_target ev) o task h →
  (∀ a, quiet w (k a)) →
  ends_in (mbind (recover_step_if_current (E := E) (RE := RE) w id (op_state o) ev) k)
    (leaves id h next) s.
Proof.
  intros Hs Htr Hp Hk. apply ends_bind, lives_mapping. unfold apply_step_if_current.
  apply lives_bind. eapply lives_ask; [done|]. apply lives_mapping.
  pose proof (tells_created _ _ _ _ _ _ Hs) as Hnow. apply (tells_tick w Hclock) in Hs.
  eapply lives_wp.
  - pose proof Hs as ((Hok & _) & _ & Ho & _).
    pose proof (engine_apply_if_answers id ev (now_at w (rt_calls s)) (rt_store (tick s)) o next Hok
      (tells_stamp w id o task h (tick s) _ Hs Hnow) Ho Htr) as Hans.
    unfold on_store, call. destruct Hworking as [-> _].
    by destruct (engine_apply_if_current _ _ _ _ _ _) as [st [a|e]].
  - eapply wp_engine_apply_if; [exact Hclock|exact Hs|exact Hnow|..].
    + intros st Htr' _. by eapply moves.
    + intros st o' s' Htr' _ Hs'. assert (st = next) as -> by congruence.
      by apply (leaves_quiet _ id (set_state o next (now_at w (rt_calls s))) task).
Qed.

Lemma leaves_step {B} id ev o task h s next (k : Operation Command → M _ _ B) :
  tells w id o task h s → transition (op_state o) ev = Ok next → phase (event_target ev) o task h →
  (∀ a, quiet w (k a)) →
  ends_in (mbind (recover_step (E := E) (RE := RE) w id ev) k) (leaves id h next) s.
Proof.
  intros Hs Htr Hp Hk. apply ends_bind, lives_mapping.
  destruct (lives_step id ev o task h s next) as (s' & a & Hrun & now & -> & Hs'); [done..|].
  eexists _, _. split; [exact Hrun|]. by apply (leaves_quiet _ id (set_state o next now) task).
Qed.

Lemma leaves_judge id ep o h s started v :
  tells w id o None h s → op_state o = Running → first_endpoint o = Some ep →
  (∀ n, verify_at w n ep (op_command o) = v) →
  ends_in (judge_running (E := E) (RE := RE) w id ep (op_command o) started)
    (leaves id (h ++ [Reread id ep (op_command o) v]) (recovered (op_command o) Running false v)) s.
Proof.
  intros Hs Hst Hep Hv. unfold judge_running, recovered. apply ends_bind.
  eapply lives_reach; [exact Hs|exact Hv|done|by eapply reread_story|].
  clear s Hs. intros s Hs. rewrite <- Hst. destruct v as [[]|x].
  - destruct (recovery_judgement_proves_effect (op_command o)) eqn:Hproves.
    + assert (landed o (h ++ [Reread id ep (op_command o) (Ok Confirmed)])) as Hl.
      { right. right. split; [done|]. apply reread_confirmed. }
      apply ends_bind, lives_mapping.
      destruct (lives_step id EvExecutionAccepted o None _ s Verifying Hs)
        as (s' & a & Hrun & now & -> & Hs'); [by rewrite Hst|done|].
      eexists _, _. split; [exact Hrun|].
      eapply leaves_step; [exact Hs'|done| |quiet_rest]. split; [done|]. apply reread_confirmed.
    + eapply leaves_recover_if; [done|by rewrite Hst|done|quiet_rest].
  - eapply leaves_recover_if; [done|by rewrite Hst|by apply mismatched_failure|quiet_rest].
  - eapply leaves_recover_if; [done|by rewrite Hst|done|quiet_rest].
Qed.

(** The effects of one recovery. *)
Definition recovered_effects (id : OperationId) (ep : EndpointId) (c : Command)
    (state : OperationState) (tracked : bool) (v : result VerificationVerdict X)
    : list (Effect P X) :=
  match state, tracked with
  | Running, true => []
  | _, _ => [Reread id ep c v]
  end.

Lemma leaves_recover_admitted id ep o task h s v :
  tells w id o task h s → op_state o ∈ [Running; Verifying] → first_endpoint o = Some ep →
  (∀ n, verify_at w n ep (op_command o) = v) →
  let tracked := bool_decide (is_Some task) in
  ends_in (recover_admitted (E := E) (RE := RE) w base_actor base_origin id o ep)
    (leaves id (h ++ recovered_effects id ep (op_command o) (op_state o) tracked v)
       (recovered (op_command o) (op_state o) tracked v)) s.
Proof.
  intros Hs Hst Hep Hv tracked. unfold recover_admitted. case_decide as Hrun.
  - rewrite Hrun. apply ends_bind, lives_mapping.
    destruct (lives_find_task id o task h s Hs) as (s1 & x & Hfind & -> & Hs1).
    eexists _, _. split; [exact Hfind|]. clear s Hs Hfind. subst tracked.
    destruct task as [t|]; simpl.
    + rewrite app_nil_r. apply ends_mapping.
      destruct (lives_step id EvRemoteTaskStarted o (Some t) h s1 WaitingRemote)
        as (s' & a & Hstep & now & -> & Hs'); [done|by rewrite Hrun|by eexists|].
      unfold ends_in. rewrite Hstep. by eexists _, _.
    + eapply (ends_after _ _ (λ _, True)); [by apply quiet_start_audit|done|apply lives_start_audit|].
      intros started s _ Hs. by apply leaves_judge.
  - assert (op_state o = Verifying) as Hver by set_solver. rewrite Hver.
    eapply (ends_after _ _ (λ _, True)); [by apply quiet_start_audit|done|apply lives_start_audit|].
    clear s Hs. intros started s _ Hs. apply ends_mapping.
    destruct (ends_verify_target id ep o o task h s started v) as (now & Hend); [done..|].
    by eexists _, _.
Qed.

(** On a working site the recovery of an operation that a crash left running or
    verifying always ends, and nothing is sent: a Task on record is handed to the
    monitor, and otherwise the result is re-read once and decides; a confirmed
    result counts as success of a running operation only if it proves the
    effect. *)
Theorem recover_completes id o target targets s v :
  coherent w s → operations s !! id = Some o → op_state o ∈ [Running; Verifying] →
  op_targets o = target :: targets →
  (∀ n, verify_at w n (endpoint_id target) (op_command o) = v) →
  let tracked := bool_decide (is_Some (tasks s !! id)) in
  let s' := (recover_operation (E := E) (RE := RE) w base_actor base_origin id s).1 in
  coherent w s' ∧
  (op_state <$> operations s' !! id) = Some (recovered (op_command o) (op_state o) tracked v) ∧
  history id (rt_log s') =
    history id (rt_log s) ++
    recovered_effects id (endpoint_id target) (op_command o) (op_state o) tracked v.
Proof.
  intros Hs Ho Hst Htargets Hv tracked s'.
  apply (coherent_tells w id o s) in Hs; [|done]. apply head_endpoint in Htargets as Hep.
  enough (ends_in (recover_operation (E := E) (RE := RE) w base_actor base_origin id)
    (leaves id (history id (rt_log s) ++ recovered_effects id (endpoint_id target) (op_command o)
       (op_state o) tracked v) (recovered (op_command o) (op_state o) tracked v)) s) as Hend.
  { destruct Hend as (o' & task & Hend & Hst'). fold s' in Hend.
    split; [by eapply tells_coherent|]. destruct Hend as (_ & _ & Ho' & _ & Hh & _).
    split; [by rewrite Ho', <- Hst'|done]. }
  subst tracked. revert Hs. generalize (history id (rt_log s)), (tasks s !! id). intros h task Hs.
  clear s' Ho. unfold recover_operation. apply ends_bind, lives_mapping.
  destruct (lives_find id o task h s Hs) as (s1 & x & Hrun & -> & Hs1).
  eexists _, _. split; [exact Hrun|]. apply ends_bind. eexists _, _. split; [reflexivity|].
  cbv beta zeta. rewrite decide_False by tauto. rewrite Htargets. by apply leaves_recover_admitted.
Qed.
End liveness.
