(* ===== verification/DriveWitnesses.v ===== *)
(** * DriveWitnesses: the drivers on a concrete site

    The operation rows of [OperationRepository] and the task rows of
    [RemoteTask] side by side, as the two stores of one driver, with
    the proof that they are the separate stores the drivers need; and a site with
    a small BMC on which the theorems of [DriveSafety] apply. *)
From S2P Require Import Prelude Text Operation OperationEngine Capability CommandCipher Database.
From S2P Require Import OperationRepository OperationWitnesses Artifact AuditLog RedfishCommand.
From S2P Require Import RemoteTask Executor TaskMonitor DriveSafety DriveAudit DriveLiveness.

(** ** Two tables of one database *)

Definition on_fst {S1 S2 E A} (m : M S1 E A) : M (S1 * S2) E A :=
  λ s, let '(s1, r) := m s.1 in ((s1, s.2), r).
Definition on_snd {S1 S2 E A} (m : M S2 E A) : M (S1 * S2) E A :=
  λ s, let '(s2, r) := m s.2 in ((s.1, s2), r).

Lemma on_fst_inv {S1 S2 E A} (m : M S1 E A) (s s' : S1 * S2) r :
  on_fst m s = (s', r) → m s.1 = (s'.1, r) ∧ s'.2 = s.2.
Proof. unfold on_fst. destruct (m s.1) as [s1 r1]. by intros [= <- <-]. Qed.
Lemma on_snd_inv {S1 S2 E A} (m : M S2 E A) (s s' : S1 * S2) r :
  on_snd m s = (s', r) → m s.2 = (s'.2, r) ∧ s'.1 = s.1.
Proof. unfold on_snd. destruct (m s.2) as [s2 r1]. by intros [= <- <-]. Qed.

Section shared.
Context {Command S1 S2 E RE : Type}.
Context `{OperationStoreLaws Command S1 E, RemoteTaskStoreLaws S2 RE}.

#[export] Instance shared_operations : OperationStore Command (S1 * S2) E :=
  {| store_create_operation o := on_fst (store_create_operation o);
     store_find_operation id := on_fst (store_find_operation id);
     store_apply_transition id st at_ := on_fst (store_apply_transition id st at_);
     store_apply_transition_if_current id ex st at_ :=
       on_fst (store_apply_transition_if_current id ex st at_);
     store_record_failure_kind id k := on_fst (store_record_failure_kind id k);
     store_find_failure_kind id := on_fst (store_find_failure_kind id);
     store_list_operations f := on_fst (store_list_operations f);
     store_create_batch b children := on_fst (store_create_batch b children) |}.

#[export] Instance shared_tasks : RemoteTaskStore (S1 * S2) RE :=
  {| save_remote_task t := on_snd (save_remote_task t);
     find_remote_task id := on_snd (find_remote_task id);
     list_remote_tasks_by_state st := on_snd (list_remote_tasks_by_state st) |}.

#[export, refine] Instance shared_operation_laws : OperationStoreLaws Command (S1 * S2) E :=
  {| store_view s := store_view s.1; store_ok s := store_ok s.1 |}.
Proof.
  all: intros *; repeat lazymatch goal with |- _ = (_, _) → _ => fail | |- _ → _ => intros ? end;
    intros [Hrun _]%on_fst_inv.
  - by eapply law_create in Hrun.
  - by eapply law_find in Hrun.
  - by eapply law_apply in Hrun.
  - by eapply law_apply_if in Hrun.
  - by eapply law_record_kind in Hrun.
  - by eapply law_find_kind in Hrun.
  - by eapply law_list in Hrun.
  - by eapply law_create_batch in Hrun.
Defined.

#[export, refine] Instance shared_task_laws : RemoteTaskStoreLaws (S1 * S2) RE :=
  {| task_view s := task_view s.2; task_rows_ok s := task_rows_ok s.2 |}.
Proof.
  all: intros *; repeat lazymatch goal with |- _ = (_, _) → _ => fail | |- _ → _ => intros ? end;
    intros [Hrun _]%on_snd_inv.
  - by eapply law_save_task in Hrun.
  - by eapply law_find_task in Hrun.
  - by eapply law_list_tasks in Hrun.
Defined.

#[export] Instance shared_separate : SeparateStores Command (S1 * S2) E RE.
Proof.
  split; intros; intros s Hs; simpl; unfold on_fst, on_snd;
    match goal with |- context [let '(_, _) := ?m in _] => by destruct m end.
Qed.
End shared.

(** ** A database that answers *)

Section answering.
Context (env : Env) (Hhealthy : env_healthy env).
Context {Command Key : Type} `{CipherSuiteLaws Key, CommandJsonLaws Command} (command_key : option Key).

(** A call that returns on tables [t] answers in any world of them. *)
Lemma returns_answers {T E A} (m : M (World T) E A) t t' a w :
  returns m t t' a → w_db w = t → ∃ w', m w = (w', Ok a).
Proof. intros Hm <-. destruct w as [t c]. destruct (Hm c) as [c' Hc]. simpl in Hc. rewrite Hc. by eexists. Qed.

Lemma find_answers id w :
  tables_ok (Command := Command) command_key (w_db w) →
  ∃ w' x, find_operation env command_key (Command := Command) id w = (w', Ok x).
Proof.
  intros Hok. destruct (t_operations (w_db w) !! id) as [m|] eqn:Hrow.
  - destruct (lookup_view_ok command_key (w_db w) id m Hok Hrow) as (o & Hd & _).
    unfold decode in Hd. apply result_bind_ok in Hd as (parts & Hp & Ha).
    destruct (returns_answers (find_operation env command_key id) (w_db w) (w_db w) (Some o) w)
      as [w' Hw']; [|done|by eexists _, _].
    apply returns_transaction; [done|]. eapply returns_bind; [by apply returns_select|].
    rewrite Hrow. eapply returns_bind; [|apply returns_ret].
    eapply returns_bind; [by apply returns_lift|]. eapply returns_bind; [by apply returns_select|].
    by apply returns_lift.
  - destruct (returns_answers (find_operation env command_key (Command := Command) id)
      (w_db w) (w_db w) None w) as [w' Hw']; [|done|by eexists _, _].
    apply returns_transaction; [done|]. eapply returns_bind; [by apply returns_select|].
    rewrite Hrow. apply returns_ret.
Qed.

(** A row of the view in a known state. *)
Lemma view_row id w o :
  tables_ok command_key (w_db w) →
  v_operations (view_of (Command := Command) command_key (w_db w)) !! id = Some o →
  ∃ m, t_operations (w_db w) !! id = Some m ∧ m_id m = id ∧ stored_state id m = Ok (op_state o).
Proof.
  intros (Hops & _) Ho. rewrite lookup_view in Ho.
  destruct (t_operations (w_db w) !! id) as [m|] eqn:Hrow; [|done]. simpl in Ho.
  destruct (decode command_key (w_db w) id m) as [o'|] eqn:Hd; [|done]. simpl in Ho. simplify_eq.
  exists m. split; [done|]. split; [by destruct (Hops _ _ Hrow)|].
  apply decode_inv in Hd as (_ & _ & _ & _ & _ & Hst & _). unfold stored_state. rewrite Hst.
  by rewrite (proj2 (state_code_iff _ _) eq_refl).
Qed.

Lemma apply_answers id st at_ w :
  tables_ok command_key (w_db w) →
  is_Some (row_step (v_operations (view_of (Command := Command) command_key (w_db w))) id st at_) →
  ∃ w', apply_transition env id st at_ w = (w', Ok ()).
Proof.
  intros Hok [ops (o & Ho & Ht & _)%row_step_Some].
  destruct (view_row id w o Hok Ho) as (m & Hrow & Hid & Hst).
  eapply (returns_answers (T := Tables)); [|done].
  eapply returns_bind; [by apply returns_acquire|]. apply returns_transaction; [done|].
  eapply returns_bind; [by apply returns_select|]. rewrite Hrow.
  eapply returns_bind; [by apply returns_lift|]. eapply returns_bind; [by apply returns_lift|].
  rewrite Ht. apply returns_statement; [done|]. simpl. by rewrite Hid, Hrow.
Qed.

Lemma apply_if_answers id ex st at_ w :
  tables_ok command_key (w_db w) →
  is_Some (row_step_if (v_operations (view_of (Command := Command) command_key (w_db w))) id ex st at_) →
  ∃ w', apply_transition_if_current env id ex st at_ w = (w', Ok ()).
Proof.
  intros Hok [ops (o & Ho & <- & Ht & _)%row_step_if_Some].
  destruct (view_row id w o Hok Ho) as (m & Hrow & Hid & Hst).
  eapply (returns_answers (T := Tables)); [|done].
  eapply returns_bind; [by apply returns_acquire|]. apply returns_transaction; [done|].
  eapply returns_bind; [by apply returns_select|]. rewrite Hrow.
  eapply returns_bind; [by apply returns_lift|]. eapply returns_bind; [by apply returns_lift|].
  rewrite decide_False by tauto. rewrite Ht. apply returns_statement; [done|].
  simpl. by rewrite Hid, Hrow.
Qed.

Lemma save_answers t w : task_ok t → ∃ w', save_task env t w = (w', Ok ()).
Proof.
  intros Ht. eapply (returns_answers (T := TaskTable)); [|done].
  eapply returns_bind; [by apply returns_acquire|]. apply returns_transaction; [done|].
  eapply returns_bind; [by apply returns_select|].
  eapply (returns_bind _ _ _ _ _ (task_percent_complete t)).
  - apply returns_lift. unfold task_ok in Ht. destruct (task_percent_complete t) as [p|]; simpl; [|done].
    unfold percent_complete_i32. rewrite decide_True; [done|]. unfold I32_MAX. lia.
  - apply returns_statement; [done|]. simpl. by destruct (w_db w !! task_operation_id t).
Qed.

Lemma find_task_answers id w :
  task_table_ok (w_db w) → ∃ w' x, find_task env id w = (w', Ok x).
Proof.
  intros Hok. destruct (w_db w !! id) as [m|] eqn:Hrow.
  - destruct (Hok _ _ Hrow) as [_ [t Ht]]. unfold task_of in Ht.
    destruct (map_stored_remote_task id m) as [t'|] eqn:Hm; [|done].
    destruct (returns_answers (find_task env id) (w_db w) (w_db w) (Some t') w) as [w' Hw'];
      [|done|by eexists _, _].
    apply returns_transaction; [done|]. eapply returns_bind; [by apply returns_select|].
    rewrite Hrow. eapply returns_bind; [by apply returns_lift|]. apply returns_ret.
  - destruct (returns_answers (find_task env id) (w_db w) (w_db w) None w) as [w' Hw'];
      [|done|by eexists _, _].
    apply returns_transaction; [done|]. eapply returns_bind; [by apply returns_select|].
    rewrite Hrow. apply returns_ret.
Qed.
End answering.

(** ** A site with a small BMC *)

Abbreviation SiteCommand := (RedfishCommand ()).
Definition delete_account : SiteCommand := Account (DeleteAccount ()).
Definition reset_system : SiteCommand := System (SystemReset ()).

(** The JSON texts of the two commands the site uses. *)
#[export] Instance site_json : CommandJson SiteCommand :=
  { to_json c := match c with
                 | Account (DeleteAccount _) => Some (lit "A")
                 | System (SystemReset _) => Some (lit "S")
                 | _ => None
                 end;
    from_json s := if decide (s = lit "A") then Some delete_account
                   else if decide (s = lit "S") then Some reset_system else None }.

#[export, refine] Instance site_json_laws : CommandJsonLaws SiteCommand := {}.
Proof.
  - intros c text. destruct c as [[]|[]| | | | | | | | | |]; try done; intros [= <-];
      by repeat match goal with x : unit |- _ => destruct x end.
  - intros c text. destruct c as [[]|[]| | | | | | | | | |]; try done; intros [= <-];
      repeat constructor.
Defined.

Abbreviation SiteStore := (World Tables * World TaskTable)%type.
#[export] Instance site_operations :
  OperationStore SiteCommand (World Tables) OperationRepositoryError :=
  repository_store quiet_env (Some ()).
#[export] Instance site_operation_laws :
  OperationStoreLaws SiteCommand (World Tables) OperationRepositoryError :=
  repository_laws quiet_env (Some ()) toy_random.
#[export] Instance site_tasks : RemoteTaskStore (World TaskTable) RemoteTaskRepositoryError :=
  sqlite_tasks quiet_env.
#[export] Instance site_task_laws :
  RemoteTaskStoreLaws (World TaskTable) RemoteTaskRepositoryError := sqlite_task_laws quiet_env.

Lemma site_quiet_healthy : env_healthy quiet_env.
Proof. done. Qed.

#[export] Instance site_answering :
  AnsweringStore SiteCommand SiteStore OperationRepositoryError RemoteTaskRepositoryError.
Proof.
  split.
  - intros id [s1 s2] Hok. simpl in *. unfold on_fst. simpl.
    destruct (find_answers quiet_env site_quiet_healthy (Some ()) id s1 Hok) as (s1' & x & ->). eauto.
  - intros id st at_ [s1 s2] Hok _ Hrow. simpl in *. unfold on_fst. simpl.
    destruct (apply_answers quiet_env site_quiet_healthy (Some ()) id st at_ s1 Hok Hrow) as (s1' & ->). eauto.
  - intros id ex st at_ [s1 s2] Hok _ Hrow. simpl in *. unfold on_fst. simpl.
    destruct (apply_if_answers quiet_env site_quiet_healthy (Some ()) id ex st at_ s1 Hok Hrow)
      as (s1' & ->). eauto.
  - intros t [s1 s2] _ Ht. simpl in *. unfold on_snd. simpl.
    destruct (save_answers quiet_env site_quiet_healthy t s2 Ht) as (s2' & ->). eauto.
  - intros id [s1 s2] Hok. simpl in *. unfold on_snd. simpl.
    destruct (find_task_answers quiet_env site_quiet_healthy id s2 Hok) as (s2' & x & ->). eauto.
Qed.

(** A gateway error that proves nothing. *)
#[export] Instance unit_verdict : DispatchVerdictClassifier () := λ _, DispatchOutcomeUnknown.

Definition task_location : TaskUri := mk_task_uri (lit "/redfish/v1/Tasks/1") I.

(** The account deletion is handled at once, the reset as a Task that completes,
    and the process dies before its call number [crash], if at all. *)
Definition site (crash : option nat) : Surroundings () () :=
  {| dies n := match crash with Some k => Nat.eqb n k | None => false end;
     now_at n := (1000 + Z.of_nat n)%Z;
     uuid_at n := N.of_nat (500 + n);
     endpoint_at _ _ := Ok true;
     capabilities_at _ _ := Ok (Some [(CapSystems, Supported); (CapAccounts, Supported)]);
     artifact_at _ _ := Ok None;
     artifact_file_at _ _ := None;
     execute_at _ _ c := match c with
                         | System _ => Ok (AsyncTaskAccepted task_location)
                         | _ => Ok Accepted
                         end;
     execute_update_at _ _ _ _ := Err ();
     verify_at _ _ _ := Ok Confirmed;
     read_task_at _ _ _ := Ok (Some (mk_task_observation (Some TaskCompleted) None None None));
     audit_fault_at _ := None |}.

Definition site_start : Runtime () SiteStore () := mk_runtime (empty_world, mk_world ∅ 0) [] 0.

Lemma site_clock crash : clock_monotone (site crash).
Proof. intros n. simpl. lia. Qed.

Lemma site_fresh crash :
  fresh (E := OperationRepositoryError) (RE := RemoteTaskRepositoryError) (site crash) site_start.
Proof.
  split; [split; [done|split; [done|]]|split; [done|split; [done|]]]; intros id o Ho;
    vm_compute in Ho; discriminate Ho.
Qed.

(** The process dies right after the deletion was sent; the next process recovers
    it, and follows the Task of the reset to its end. *)
Definition site_drives : list (Drive (P := ())) :=
  [Submit SourceSite [mk_operation_target 1%N 20%N] delete_account;
   Submit SourceSite [mk_operation_target 2%N 20%N] reset_system;
   Execute 500%N; Execute 503%N; Recover 500%N; Poll 503%N].

Definition site_end : Runtime () SiteStore () :=
  run_drives (E := OperationRepositoryError) (RE := RemoteTaskRepositoryError) (site (Some 18))
    ActorSystem Site site_drives site_start.

Lemma never_sent_twice_witness :
  (op_state <$> (operations (E := OperationRepositoryError) site_end !! 500%N)) = Some Succeeded ∧
  (op_state <$> (operations (E := OperationRepositoryError) site_end !! 503%N)) = Some Succeeded ∧
  length (answers (history 500%N (rt_log site_end))) ≤ 1.
Proof.
  split; [vm_compute; reflexivity|]. split; [vm_compute; reflexivity|].
  exact (proj1 (never_sent_twice (site (Some 18)) (site_clock (Some 18)) ActorSystem Site site_drives site_start
    500%N (site_fresh (Some 18)))).
Defined.

Lemma writes_are_audited_witness :
  sent 20%N RedfishDeleteAccount (rt_log site_end) = 1 ∧
  sent 20%N RedfishDeleteAccount (rt_log site_end) ≤
    started_facts 20%N RedfishDeleteAccount (rt_log site_end).
Proof.
  split; [vm_compute; reflexivity|].
  exact (writes_are_audited (E := OperationRepositoryError) (RE := RemoteTaskRepositoryError)
    (site (Some 18)) ActorSystem Site site_drives site_start (rt_log site_end) [] 20%N
    RedfishDeleteAccount eq_refl (eq_sym (app_nil_r _))).
Defined.

(** ** Single drives of the site *)

Abbreviation site_run crash ds :=
  (run_drives (St := SiteStore) (E := OperationRepositoryError) (RE := RemoteTaskRepositoryError)
     (site crash) ActorSystem Site ds site_start).

Lemma site_coherent crash ds :
  coherent (E := OperationRepositoryError) (RE := RemoteTaskRepositoryError) (site crash)
    (site_run crash ds).
Proof.
  apply run_drives_coherent; [apply site_clock|]. apply fresh_coherent, site_fresh.
Qed.

Lemma site_working : working (site None) ActorSystem.
Proof. done. Qed.

(** Looks the only candidate of a computed lookup up. *)
Ltac look Ho := vm_compute in Ho; injection Ho as <-.

Definition submitted : list (Drive (P := ())) := take 2 site_drives.

Lemma execute_completes_witness :
  let s := site_run None submitted in
  let s' := (execute_operation (E := OperationRepositoryError) (RE := RemoteTaskRepositoryError)
               (site None) ActorSystem Site 500%N s).1 in
  ∃ o, operations (E := OperationRepositoryError) s !! 500%N = Some o ∧ op_state o = Queued ∧
  history 500%N (rt_log s') =
    history 500%N (rt_log s) ++
    [Dispatched 500%N 20%N delete_account (Ok Accepted);
     Reread 500%N 20%N delete_account (Ok Confirmed)].
Proof.
  intros s s'. destruct (operations (E := OperationRepositoryError) s !! 500%N) as [o|] eqn:Ho;
    [|vm_compute in Ho; discriminate].
  pose proof (execute_completes (site None) (site_clock None) ActorSystem Site site_working 500%N o
    (mk_operation_target 1%N 20%N) [] s (Ok Accepted) (Ok Confirmed) (site_coherent None submitted) Ho)
    as Hend.
  exists o. split; [reflexivity|]. look Ho. split; [reflexivity|]. apply Hend.
  - by left.
  - reflexivity.
  - split; [done|]. eexists _, _. split; [done|]. split; [reflexivity|]. vm_compute. reflexivity.
  - intros n. reflexivity.
  - intros n. reflexivity.
Defined.

Definition accepted : list (Drive (P := ())) := submitted ++ [Execute 503%N].

Lemma poll_completes_witness :
  let s := site_run None accepted in
  let s' := (poll (E := OperationRepositoryError) (RE := RemoteTaskRepositoryError)
               (site None) ActorSystem Site 503%N 2000%Z s).1 in
  ∃ o, operations (E := OperationRepositoryError) s !! 503%N = Some o ∧
  op_state o = WaitingRemote ∧
  (op_state <$> operations (E := OperationRepositoryError) s' !! 503%N) = Some Succeeded.
Proof.
  intros s s'. destruct (operations (E := OperationRepositoryError) s !! 503%N) as [o|] eqn:Ho;
    [|vm_compute in Ho; discriminate].
  destruct (tasks (RE := RemoteTaskRepositoryError) s !! 503%N) as [t|] eqn:Ht;
    [|vm_compute in Ht; discriminate].
  pose proof (poll_completes (site None) (site_clock None) ActorSystem Site site_working 503%N o
    (mk_operation_target 2%N 20%N) [] t 2000%Z s
    (Ok (Some (mk_task_observation (Some TaskCompleted) None None None))) (Ok Confirmed)
    (site_coherent None accepted) Ho) as Hend.
  exists o. split; [reflexivity|]. look Ho. split; [reflexivity|].
  refine (proj1 (proj2 (Hend _ _ Ht _ _ _))); reflexivity || (vm_compute; discriminate).
Defined.

(** The deletion was sent, and the process died before it saw the answer. *)
Definition interrupted : list (Drive (P := ())) := submitted ++ [Execute 500%N].

Lemma recover_completes_witness :
  let s := site_run (Some 18) interrupted in
  let s' := (recover_operation (E := OperationRepositoryError) (RE := RemoteTaskRepositoryError)
               (site None) ActorSystem Site 500%N s).1 in
  ∃ o, operations (E := OperationRepositoryError) s !! 500%N = Some o ∧ op_state o = Running ∧
  (op_state <$> operations (E := OperationRepositoryError) s' !! 500%N) = Some Succeeded.
Proof.
  intros s s'. destruct (operations (E := OperationRepositoryError) s !! 500%N) as [o|] eqn:Ho;
    [|vm_compute in Ho; discriminate].
  pose proof (recover_completes (site None) (site_clock None) ActorSystem Site site_working 500%N o
    (mk_operation_target 1%N 20%N) [] s (Ok Confirmed) (site_coherent (Some 18) interrupted) Ho) as Hend.
  exists o. split; [reflexivity|]. look Ho. split; [reflexivity|].
  destruct (tasks (RE := RemoteTaskRepositoryError) s !! 500%N) as [t|] eqn:Ht;
    [vm_compute in Ht; discriminate|].
  refine (proj1 (proj2 (Hend _ _ _))); [by left|reflexivity|reflexivity].
Defined.
