(* ===== verification/Accounts.v ===== *)
(** * Accounts: principals, roles, sessions, one-time codes and authenticators

    Models [domain/src/user.rs], [domain/src/session.rs], [domain/src/password.rs]
    and [domain/src/totp.rs] with [security/src/totp.rs], and then
    [security/src/session_token.rs], [bootstrap_code.rs] and [password_hash.rs].
    HMAC-SHA1, the hash functions, the random source and the Unicode case tables are
    parameters. *)
From S2P Require Import Prelude Text Operation CenterDomain.
From Stdlib Require Import ZifyBool.
Local Open Scope Z_scope.

Abbreviation PrincipalId := Uuid.
Abbreviation SessionId := Uuid.
Abbreviation BootstrapCodeId := Uuid.
Abbreviation TotpAuthenticatorId := Uuid.
Abbreviation InstanceId := Uuid.

(** ** Lower case *)

Definition ascii_lowercase (c : char) : char :=
  if ((65 <=? c) && (c <=? 90))%N then (c + 32)%N else c.

(** The Unicode tables: [char::to_lowercase] of one scalar value, and whether a
    capital sigma between two texts ends a word. *)
Class UnicodeCase := {
  char_to_lowercase : char → list char;
  is_word_final : str → str → bool;
}.

Class UnicodeCaseLaws `{UnicodeCase} := {
  lower_ascii c : (c < 128)%N → char_to_lowercase c = [ascii_lowercase c];
  lower_sigma : char_to_lowercase 931%N = [963%N];
  lower_fixed c : head (char_to_lowercase c) = Some c → char_to_lowercase c = [c];
}.

(** [str::to_lowercase]: character by character, but for the final sigma. *)
Fixpoint to_lowercase_go `{UnicodeCase} (before s : str) : str :=
  match s with
  | [] => []
  | c :: s =>
      (if decide (c = 931%N) then [if is_word_final before s then 962%N else 963%N]
       else char_to_lowercase c) ++ to_lowercase_go (before ++ [c]) s
  end.
Definition to_lowercase `{UnicodeCase} (s : str) : str := to_lowercase_go [] s.

(** ** Principals *)

Definition MAX_PRINCIPAL_NAME_CHARS : N := 64.

Inductive PrincipalNameError :=
| NameEmpty
| NameInvalidCharacter
| NameTooLong (maximum : N).

Definition is_name_start (character : char) : bool :=
  ((97 <=? character) && (character <=? 122))%N || is_ascii_digit character.

Definition is_name_character (character : char) : bool :=
  is_name_start character || (character =? 46)%N || (character =? 45)%N || (character =? 95)%N.

Definition PrincipalName_parse `{UnicodeCase} (value : str) : result str PrincipalNameError :=
  let normalized := to_lowercase (trim value) in
  match normalized with
  | [] => Err NameEmpty
  | first :: characters =>
      if negb (is_name_start first) then Err NameInvalidCharacter
      else if existsb (λ character, negb (is_name_character character)) characters
      then Err NameInvalidCharacter
      else if (MAX_PRINCIPAL_NAME_CHARS <? char_count normalized)%N
      then Err (NameTooLong MAX_PRINCIPAL_NAME_CHARS)
      else Ok normalized
  end.

Inductive PrincipalState := Enabled | Disabled.
#[export] Instance PrincipalState_eq_dec : EqDecision PrincipalState.
Proof. solve_decision. Defined.

Definition PrincipalState_as_str (s : PrincipalState) : str :=
  match s with Enabled => lit "enabled" | Disabled => lit "disabled" end.

Inductive PrincipalStateParseError := PrincipalStateParseErr.

Definition PrincipalState_from_str (value : str) : result PrincipalState PrincipalStateParseError :=
  ok_or (match_str value [("enabled", Enabled); ("disabled", Disabled)]%string)
    PrincipalStateParseErr.

#[export, refine] Instance PrincipalState_code : StableCode PrincipalState PrincipalStateParseError :=
  { code_str := PrincipalState_as_str; code_parse := PrincipalState_from_str }.
Proof. all: unfold PrincipalState_from_str; solve_code. Defined.

Record Principal := mk_principal {
  pr_id : PrincipalId;
  pr_name : str;
  pr_state : PrincipalState;
  pr_created_at : OffsetDateTime;
  pr_updated_at : OffsetDateTime;
}.

Inductive PrincipalRestoreError := PrincipalInvalidTimeline.

Definition Principal_new (id : PrincipalId) (name : str) (created_at : OffsetDateTime) : Principal :=
  mk_principal id name Enabled created_at created_at.

Definition Principal_try_from_parts (id : PrincipalId) (name : str) (state : PrincipalState)
    (created_at updated_at : OffsetDateTime) : result Principal PrincipalRestoreError :=
  if decide (updated_at < created_at) then Err PrincipalInvalidTimeline
  else Ok (mk_principal id name state created_at updated_at).

Definition Principal_set_state (p : Principal) (state : PrincipalState) (at_ : OffsetDateTime)
    : Principal :=
  mk_principal (pr_id p) (pr_name p) state (pr_created_at p) at_.

(** ** Roles *)

Inductive Role := Administrator | Operator | Viewer.
#[export] Instance Role_eq_dec : EqDecision Role.
Proof. solve_decision. Defined.

Definition Role_as_str (r : Role) : str :=
  match r with
  | Administrator => lit "administrator"
  | Operator => lit "operator"
  | Viewer => lit "viewer"
  end.

Inductive RoleParseError := RoleParseErr.

Definition Role_from_str (value : str) : result Role RoleParseError :=
  ok_or (match_str value
    [("administrator", Administrator); ("operator", Operator); ("viewer", Viewer)]%string)
    RoleParseErr.

#[export, refine] Instance Role_code : StableCode Role RoleParseError :=
  { code_str := Role_as_str; code_parse := Role_from_str }.
Proof. all: unfold Role_from_str; solve_code. Defined.

Record RoleAssignment := mk_role_assignment {
  ra_principal_id : PrincipalId;
  ra_role : Role;
  ra_assigned_by : option PrincipalId;
  ra_assigned_at : OffsetDateTime;
  ra_site_id : option InstanceId;
}.

(** ** The one-time bootstrap code *)

(** A [[u8; 32]]. *)
Abbreviation Digest := (list N).

Record BootstrapCode := mk_bootstrap_code {
  bc_id : BootstrapCodeId;
  bc_code_hash : Digest;
  bc_created_at : OffsetDateTime;
  bc_used_at : option OffsetDateTime;
  bc_used_by : option PrincipalId;
}.

Inductive BootstrapCodeError :=
| InvalidCodeHash
| InvalidConsumption
| CodeAlreadyUsed.

Definition BootstrapCode_new (id : BootstrapCodeId) (code_hash : Digest) (created_at : OffsetDateTime)
    : BootstrapCode :=
  mk_bootstrap_code id code_hash created_at None None.

Definition BootstrapCode_try_from_parts (id : BootstrapCodeId) (code_hash : list N)
    (created_at : OffsetDateTime) (used_at : option OffsetDateTime) (used_by : option PrincipalId)
    : result BootstrapCode BootstrapCodeError :=
  if decide (length code_hash ≠ 32%nat) then Err InvalidCodeHash
  else if decide (is_Some used_at ↔ is_Some used_by)
  then Ok (mk_bootstrap_code id code_hash created_at used_at used_by)
  else Err InvalidConsumption.

Definition BootstrapCode_consume (c : BootstrapCode) (used_by : PrincipalId) (at_ : OffsetDateTime)
    : result BootstrapCode BootstrapCodeError :=
  match bc_used_at c with
  | Some _ => Err CodeAlreadyUsed
  | None => Ok (mk_bootstrap_code (bc_id c) (bc_code_hash c) (bc_created_at c) (Some at_) (Some used_by))
  end.

(** ** Password credentials *)

Definition ARGON2ID_FORMAT : str := lit "argon2id-1".
Definition ARGON2ID_SALT_LENGTH : nat := 16.
Definition ARGON2ID_HASH_LENGTH : nat := 32.

Record Argon2IdHash := mk_argon2id_hash { ah_salt : list N; ah_hash : list N }.

Inductive PasswordCredentialError := InvalidHashParts.

Definition Argon2IdHash_from_parts (salt hash : list N) : result Argon2IdHash PasswordCredentialError :=
  if decide (length salt ≠ ARGON2ID_SALT_LENGTH ∨ length hash ≠ ARGON2ID_HASH_LENGTH)
  then Err InvalidHashParts else Ok (mk_argon2id_hash salt hash).

(** [Argon2IdHash::verify]; the derivation, which may fail, is a parameter. *)
Definition Argon2IdHash_verify (argon2 : list N → list N → option (list N)) (h : Argon2IdHash)
    (password : str) : bool :=
  match argon2 (as_bytes password) (ah_salt h) with
  | None => false
  | Some candidate => constant_time_eq candidate (ah_hash h)
  end.

Record PasswordCredential := mk_password_credential {
  pc_principal_id : PrincipalId;
  pc_hash : Argon2IdHash;
  pc_changed_at : OffsetDateTime;
}.

Definition PasswordCredential_try_from_parts (principal_id : PrincipalId) (hash : Argon2IdHash)
    (changed_at : OffsetDateTime) : result PasswordCredential PasswordCredentialError :=
  Ok (mk_password_credential principal_id hash changed_at).

(** ** Sessions *)

Record Session := mk_session {
  se_id : SessionId;
  se_principal_id : PrincipalId;
  se_token_hash : Digest;
  se_csrf_hash : Digest;
  se_created_at : OffsetDateTime;
  se_last_used_at : OffsetDateTime;
  se_expires_at : OffsetDateTime;
  se_revoked_at : option OffsetDateTime;
}.

Inductive SessionRestoreError := SessionInvalidTimeline.
Inductive SessionError := SessionAlreadyRevoked | SessionTimeline.

Definition Session_new (id : SessionId) (principal_id : PrincipalId) (token_hash csrf_hash : Digest)
    (created_at expires_at : OffsetDateTime) : Session :=
  mk_session id principal_id token_hash csrf_hash created_at created_at expires_at None.

(** [is_some_and(|revoked_at| revoked_at < created_at)]. *)
Definition revoked_before (revoked_at : option OffsetDateTime) (created_at : OffsetDateTime) : Prop :=
  match revoked_at with Some r => r < created_at | None => False end.
#[export] Instance revoked_before_dec r c : Decision (revoked_before r c).
Proof. destruct r; simpl; apply _. Defined.

Definition Session_try_from_parts (id : SessionId) (principal_id : PrincipalId)
    (token_hash csrf_hash : Digest) (created_at last_used_at expires_at : OffsetDateTime)
    (revoked_at : option OffsetDateTime) : result Session SessionRestoreError :=
  if decide (expires_at <= created_at) then Err SessionInvalidTimeline
  else if decide (last_used_at < created_at) then Err SessionInvalidTimeline
  else if decide (revoked_before revoked_at created_at) then Err SessionInvalidTimeline
  else Ok (mk_session id principal_id token_hash csrf_hash created_at last_used_at expires_at revoked_at).

Definition Session_touch (s : Session) (at_ : OffsetDateTime) : result Session SessionRestoreError :=
  if decide (at_ < se_last_used_at s) then Err SessionInvalidTimeline
  else Ok (mk_session (se_id s) (se_principal_id s) (se_token_hash s) (se_csrf_hash s)
             (se_created_at s) at_ (se_expires_at s) (se_revoked_at s)).

Definition Session_revoked_at (s : Session) (at_ : OffsetDateTime) : Session :=
  mk_session (se_id s) (se_principal_id s) (se_token_hash s) (se_csrf_hash s)
    (se_created_at s) (se_last_used_at s) (se_expires_at s) (Some at_).

Definition Session_revoke (s : Session) (at_ : OffsetDateTime) : result Session SessionError :=
  match se_revoked_at s with
  | Some _ => Err SessionAlreadyRevoked
  | None => if decide (at_ < se_created_at s) then Err SessionTimeline else Ok (Session_revoked_at s at_)
  end.

Definition Session_is_active (s : Session) (at_ : OffsetDateTime) : bool :=
  match se_revoked_at s with None => true | Some _ => false end && (at_ <? se_expires_at s).

(** ** Time-based one-time passwords *)

Definition TOTP_PERIOD_SECONDS : Z := 30.
Definition TOTP_WINDOW : Z := 1.
Definition TOTP_SECRET_LENGTH : nat := 20.
Definition TOTP_DIGITS : nat := 6.

Inductive TotpAuthenticatorError := InvalidCode | Replayed | NotActive | AlreadyActive.
#[export] Instance TotpAuthenticatorError_eq_dec : EqDecision TotpAuthenticatorError.
Proof. solve_decision. Defined.

(** [Hmac::<Sha1>]: keyed by any secret, the digest of a message. *)
Class HmacSha1 := hmac_sha1 : list N → list N → option (list N).
Class HmacSha1Laws `{HmacSha1} := {
  hmac_total secret message : ∃ digest, hmac_sha1 secret message = Some digest ∧ length digest = 20%nat;
}.

(** [u64::to_be_bytes]. *)
Definition step_bytes (step : Z) : list N :=
  (λ i, Z.to_N (Z.shiftr step (8 * Z.of_nat (7 - i)) mod 256)) <$> seq 0 8.

(** [digest[i]]. *)
Definition byte_at (digest : list N) (i : nat) : Z := Z.of_N (default 0%N (digest !! i)).

Definition hotp `{HmacSha1} (secret : list N) (step : Z) : result Z TotpAuthenticatorError :=
  let? digest := ok_or (hmac_sha1 secret (step_bytes step)) InvalidCode in
  let offset := Z.to_nat (Z.land (byte_at digest 19) 15) in
  let binary :=
    Z.lor (Z.lor (Z.lor (Z.shiftl (Z.land (byte_at digest offset) 127) 24)
                        (Z.shiftl (byte_at digest (offset + 1)) 16))
                 (Z.shiftl (byte_at digest (offset + 2)) 8))
          (byte_at digest (offset + 3)) in
  Ok (binary mod 1000000).

Definition current_step (now : OffsetDateTime) : Z :=
  default 0 (u64_try_from (Z.quot (unix_timestamp now) TOTP_PERIOD_SECONDS)).

Definition window_steps (current : Z) : list Z :=
  [saturating_sub_u64 current TOTP_WINDOW; current; saturating_add_u64 current TOTP_WINDOW].

Definition is_six_digit_code (code : str) : bool :=
  (str_len code =? N.of_nat TOTP_DIGITS)%N
  && forallb (λ byte, (48 <=? byte) && (byte <=? 57))%N (as_bytes code).

(** [format!("{expected:06}")]. *)
Definition six_digits (expected : Z) : str :=
  let digits := decimal (Z.to_N expected) in
  replicate (TOTP_DIGITS - length digits) 48%N ++ digits.

(** The comparison ends with the shorter text, as [zip] does. *)
Definition code_matches (code : str) (expected : Z) : bool :=
  constant_time_eq (as_bytes code) (as_bytes (six_digits expected)).

(** [last_used_step.is_some_and(|last| candidate <= last)]. *)
Definition step_spent (last_used_step : option Z) (candidate : Z) : bool :=
  match last_used_step with Some last => candidate <=? last | None => false end.

Section totp.
Context `{HmacSha1}.

(** The loop over the window: the first step whose code matches decides. *)
Fixpoint verify_window (secret : list N) (code : str) (last_used_step : option Z) (steps : list Z)
    : result Z TotpAuthenticatorError :=
  match steps with
  | [] => Err InvalidCode
  | candidate :: steps =>
      let? expected := hotp secret candidate in
      if negb (code_matches code expected) then verify_window secret code last_used_step steps
      else if step_spent last_used_step candidate then Err Replayed
      else Ok candidate
  end.

Definition verify_totp_code (secret : list N) (code : str) (now : OffsetDateTime)
    (last_used_step : option Z) : result Z TotpAuthenticatorError :=
  if negb (is_six_digit_code code) then Err InvalidCode
  else verify_window secret code last_used_step (window_steps (current_step now)).
End totp.

(** *** Authenticators *)

Inductive TotpState := Provisioning | Active.
#[export] Instance TotpState_eq_dec : EqDecision TotpState.
Proof. solve_decision. Defined.

Definition TotpState_as_str (s : TotpState) : str :=
  match s with Provisioning => lit "provisioning" | Active => lit "active" end.

Inductive TotpStateParseError := TotpStateParseErr.

Definition TotpState_from_str (value : str) : result TotpState TotpStateParseError :=
  ok_or (match_str value [("provisioning", Provisioning); ("active", Active)]%string)
    TotpStateParseErr.

#[export, refine] Instance TotpState_code : StableCode TotpState TotpStateParseError :=
  { code_str := TotpState_as_str; code_parse := TotpState_from_str }.
Proof. all: unfold TotpState_from_str; solve_code. Defined.

Record TotpAuthenticator := mk_totp {
  ta_id : TotpAuthenticatorId;
  ta_principal_id : PrincipalId;
  ta_secret : list N;
  ta_state : TotpState;
  ta_created_at : OffsetDateTime;
  ta_activated_at : option OffsetDateTime;
  ta_last_used_step : option Z;
}.

Inductive TotpRestoreError := InvalidSecretLength | InvalidShape.

Definition TotpAuthenticator_new (id : TotpAuthenticatorId) (principal_id : PrincipalId)
    (secret : list N) (created_at : OffsetDateTime) : TotpAuthenticator :=
  mk_totp id principal_id secret Provisioning created_at None None.

Definition TotpAuthenticator_try_from_parts (id : TotpAuthenticatorId) (principal_id : PrincipalId)
    (secret : list N) (state : TotpState) (created_at : OffsetDateTime)
    (activated_at : option OffsetDateTime) (last_used_step : option Z)
    : result TotpAuthenticator TotpRestoreError :=
  if decide (length secret ≠ TOTP_SECRET_LENGTH) then Err InvalidSecretLength
  else if decide ((state = Active ↔ is_Some activated_at) ∧ ¬ (state = Provisioning ∧ is_Some last_used_step))
  then Ok (mk_totp id principal_id secret state created_at activated_at last_used_step)
  else Err InvalidShape.

Definition with_step (a : TotpAuthenticator) (state : TotpState) (activated_at : option OffsetDateTime)
    (step : option Z) : TotpAuthenticator :=
  mk_totp (ta_id a) (ta_principal_id a) (ta_secret a) state (ta_created_at a) activated_at step.

Definition TotpAuthenticator_activate `{HmacSha1} (a : TotpAuthenticator) (code : str)
    (now : OffsetDateTime) : result TotpAuthenticator TotpAuthenticatorError :=
  if decide (ta_state a = Active) then Err AlreadyActive
  else
    let? step := verify_totp_code (ta_secret a) code now (ta_last_used_step a) in
    Ok (with_step a Active (Some now) (Some step)).

Definition TotpAuthenticator_verify `{HmacSha1} (a : TotpAuthenticator) (code : str)
    (now : OffsetDateTime) : result Z TotpAuthenticatorError :=
  if decide (ta_state a ≠ Active) then Err NotActive
  else verify_totp_code (ta_secret a) code now (ta_last_used_step a).

Definition TotpAuthenticator_record_step (a : TotpAuthenticator) (step : Z)
    : result TotpAuthenticator TotpAuthenticatorError :=
  if step_spent (ta_last_used_step a) step then Err Replayed
  else Ok (with_step a (ta_state a) (ta_activated_at a) (Some step)).

(** *** The enrollment address *)

Inductive TotpUriError := LabelEmpty | LabelTooLong (maximum : N) | LabelInvalidCharacter.

Definition MAX_LABEL_CHARS : N := 64.

Definition validate_label (label : str) : result str TotpUriError :=
  if decide (label = []) then Err LabelEmpty
  else if (MAX_LABEL_CHARS <? char_count label)%N then Err (LabelTooLong MAX_LABEL_CHARS)
  else if existsb (λ c, is_control c || existsb (N.eqb c) [58; 37; 63; 38]%N) label
  then Err LabelInvalidCharacter
  else Ok label.

(** [totp_uri]; the base32 encoding is a parameter. *)
Definition totp_uri (base32_encode : list N → str) (secret : list N) (issuer account : str)
    : result str TotpUriError :=
  let? issuer := validate_label issuer in
  let? account := validate_label account in
  Ok (lit "otpauth://totp/" ++ issuer ++ lit ":" ++ account ++ lit "?secret=" ++ base32_encode secret
      ++ lit "&issuer=" ++ issuer ++ lit "&algorithm=SHA1&digits=6&period=30").

Lemma principal_state_parse s : PrincipalState_from_str (PrincipalState_as_str s) = Ok s.
Proof. exact (code_parse_str (T := PrincipalState) s). Qed.
Lemma role_parse r : Role_from_str (Role_as_str r) = Ok r.
Proof. exact (code_parse_str (T := Role) r). Qed.
Lemma totp_state_parse s : TotpState_from_str (TotpState_as_str s) = Ok s.
Proof. exact (code_parse_str (T := TotpState) s). Qed.

(** ** Names *)

(** What the newtype [PrincipalName] holds. *)
Definition principal_name (n : str) : Prop :=
  (∃ c s, n = c :: s ∧ is_name_start c = true) ∧
  Forall (λ c, is_name_character c = true) n ∧ (length n ≤ 64)%nat.

Section names.
Context `{UnicodeCaseLaws}.

Lemma ascii_lowercase_fix c : is_name_character c = true → ascii_lowercase c = c ∧ (c < 128)%N.
Proof. unfold is_name_character, is_name_start, is_ascii_digit, ascii_lowercase. intros Hc. split; [case_match; lia | lia]. Qed.

Lemma name_is_lowercase before n :
  Forall (λ c, is_name_character c = true) n → to_lowercase_go before n = n.
Proof.
  intros Hn. revert before. induction Hn as [|c n Hc Hn IH]; intros before; [done|]. simpl.
  apply ascii_lowercase_fix in Hc as [Hl Hlt]. rewrite decide_False by lia.
  by rewrite lower_ascii, Hl, IH by done.
Qed.

Lemma principal_name_trimmed n : principal_name n → trim n = n.
Proof.
  intros (_ & Hn & _). apply trim_fix. split; unfold starts_plain.
  - destruct Hn as [|c n Hc Hn]; [done|].
    unfold is_name_character, is_name_start, is_ascii_digit, is_whitespace in *. lia.
  - apply Forall_reverse in Hn. destruct Hn as [|c m Hc Hm]; [done|].
    unfold is_name_character, is_name_start, is_ascii_digit, is_whitespace in *. lia.
Qed.

Lemma PrincipalName_parse_Ok value n :
  PrincipalName_parse value = Ok n → n = to_lowercase (trim value) ∧ principal_name n.
Proof.
  unfold PrincipalName_parse. destruct (to_lowercase (trim value)) as [|c s] eqn:Hl; [done|].
  destruct (is_name_start c) eqn:Hc; simpl; [|done].
  destruct (existsb _ s) eqn:Hs; [done|]. destruct (N.ltb_spec MAX_PRINCIPAL_NAME_CHARS (char_count (c :: s))); [done|].
  intros [= <-]. split; [done|]. split; [eauto|]. split.
  - constructor; [unfold is_name_character; by rewrite Hc|].
    apply existsb_false in Hs. eapply Forall_impl; [exact Hs|]. intros x. simpl. by destruct (is_name_character x).
  - unfold char_count, MAX_PRINCIPAL_NAME_CHARS in *. lia.
Qed.

(** A valid name parses to itself. *)
Lemma PrincipalName_parse_fix n : principal_name n → PrincipalName_parse n = Ok n.
Proof.
  intros Hn. unfold PrincipalName_parse. rewrite principal_name_trimmed by done.
  destruct Hn as ((c & s & -> & Hc) & Hn & Hlen). unfold to_lowercase. rewrite name_is_lowercase by done.
  rewrite Hc. simpl. apply Forall_cons in Hn as [_ Hn].
  replace (existsb (λ x, negb (is_name_character x)) s) with false; [|symmetry; apply existsb_false].
  - destruct (N.ltb_spec MAX_PRINCIPAL_NAME_CHARS (char_count (c :: s))) as [Hlt|]; [|done].
    unfold char_count, MAX_PRINCIPAL_NAME_CHARS in Hlt. lia.
  - eapply Forall_impl; [exact Hn|]. intros x Hx. by rewrite Hx.
Qed.
End names.

(** ** Codes *)

Section totp_spec.
Context `{HmacSha1Laws}.

(** The code of a step, as an authenticator application shows it. *)
Definition otp (secret : list N) (step : Z) : str :=
  match hotp secret step with Ok expected => six_digits expected | Err _ => [] end.

Lemma hotp_total secret step : ∃ expected, hotp secret step = Ok expected ∧ 0 <= expected < 1000000.
Proof.
  unfold hotp. destruct (hmac_total secret (step_bytes step)) as (digest & -> & _). simpl.
  eexists. split; [done|]. apply Z.mod_pos_bound. lia.
Qed.

Lemma six_digits_shape expected : 0 <= expected < 1000000 →
  length (six_digits expected) = TOTP_DIGITS ∧ Forall (λ c, is_ascii_digit c = true) (six_digits expected).
Proof.
  intros He. unfold six_digits. split.
  - rewrite length_app, length_replicate.
    pose proof (decimal_length (Z.to_N expected) 6 ltac:(done) ltac:(simpl; lia)).
    unfold TOTP_DIGITS. lia.
  - apply Forall_app. split; [|apply decimal_digits]. by apply Forall_replicate.
Qed.

Lemma digits_low s : Forall (λ c, is_ascii_digit c = true) s → Forall (λ c, c < 128)%N s.
Proof. intros Hs. eapply Forall_impl; [exact Hs|]. unfold is_ascii_digit. simpl. lia. Qed.

Lemma six_digit_code_shape code :
  is_six_digit_code code = true ↔ length code = TOTP_DIGITS ∧ Forall (λ c, is_ascii_digit c = true) code.
Proof.
  unfold is_six_digit_code. rewrite andb_true_iff, N.eqb_eq, str_len_bytes, forallb_forall. split.
  - intros [Hlen Hd]. assert (Forall (λ c, is_ascii_digit c = true) (as_bytes code)) as Hb.
    { apply Forall_forall. intros b Hb. apply Hd. by apply list_elem_of_In. }
    pose proof (as_bytes_low code (digits_low _ Hb)) as Heq. rewrite Heq in Hb, Hlen. split; [lia | done].
  - intros [Hlen Hd]. rewrite as_bytes_ascii by (by apply digits_low). split; [lia|].
    intros b Hb%list_elem_of_In. rewrite Forall_forall in Hd. by apply Hd.
Qed.

(** For a code of six digits the accumulated comparison is equality. *)
Lemma code_matches_otp secret step code expected :
  is_six_digit_code code = true → hotp secret step = Ok expected →
  code_matches code expected = true ↔ code = otp secret step.
Proof.
  intros [Hlen Hd]%six_digit_code_shape Hh. unfold otp. rewrite Hh.
  destruct (hotp_total secret step) as (e' & He' & Hr). assert (e' = expected) as -> by congruence.
  apply six_digits_shape in Hr as [Hlen' Hd']. unfold code_matches.
  rewrite !as_bytes_ascii by (by apply digits_low). apply constant_time_eq_spec. lia.
Qed.

Lemma otp_six_digits secret step : is_six_digit_code (otp secret step) = true.
Proof.
  apply six_digit_code_shape. unfold otp. destruct (hotp_total secret step) as (e & -> & He).
  by apply six_digits_shape.
Qed.

(** The first step of the window that shows [code]. *)
Definition first_shown (secret : list N) (code : str) (steps : list Z) : option Z :=
  snd <$> list_find (λ step, code = otp secret step) steps.

Lemma verify_window_spec secret code last steps :
  is_six_digit_code code = true →
  verify_window secret code last steps =
  match first_shown secret code steps with
  | None => Err InvalidCode
  | Some step => if step_spent last step then Err Replayed else Ok step
  end.
Proof.
  intros Hsix. unfold first_shown. induction steps as [|c steps IH]; [done|].
  cbn [verify_window list_find]. destruct (hotp_total secret c) as (e & He & _). rewrite He.
  cbn [result_bind]. pose proof (code_matches_otp secret c code e Hsix He) as Hm.
  destruct (code_matches code e); simpl.
  - by rewrite decide_True by by apply Hm.
  - rewrite decide_False, IH by (intros Ho; by apply Hm in Ho).
    by destruct (list_find _ steps) as [[i x]|].
Qed.

(** The verification of a code is decided by the first step of the window that
    shows it: that step is accepted unless it is at or before the last one used,
    and a code that no step shows is invalid. *)
Theorem totp_code_exact secret code now last :
  verify_totp_code secret code now last =
  match first_shown secret code (window_steps (current_step now)) with
  | None => Err InvalidCode
  | Some step => if step_spent last step then Err Replayed else Ok step
  end.
Proof.
  unfold verify_totp_code. destruct (is_six_digit_code code) eqn:Hsix; cbn [negb].
  - by rewrite verify_window_spec.
  - replace (first_shown secret code (window_steps (current_step now))) with (@None Z); [done|].
    unfold first_shown. symmetry. apply fmap_None, list_find_None, Forall_forall.
    intros step _ ->. by rewrite otp_six_digits in Hsix.
Qed.

(** An accepted step lies within one period of the instant, is new, and is a
    [u64] that fits the [i64] of its column. *)
Lemma accepted_step secret code now last step :
  verify_totp_code secret code now last = Ok step →
  0 <= unix_timestamp now <= I64_MAX →
  code = otp secret step ∧ (∀ l, last = Some l → l < step) ∧
  (0 <= step <= I64_MAX) ∧
  (step - 1) * TOTP_PERIOD_SECONDS <= unix_timestamp now < (step + 2) * TOTP_PERIOD_SECONDS.
Proof.
  intros Hv Hnow. rewrite totp_code_exact in Hv. unfold first_shown in Hv.
  destruct (list_find _ _) as [[i s]|] eqn:Hf; simpl in Hv; [|done].
  destruct (step_spent last s) eqn:Hs; [done|]. injection Hv as <-.
  apply list_find_Some in Hf as (Hi & Hc & _). apply list_elem_of_lookup_2 in Hi.
  assert (current_step now = unix_timestamp now / TOTP_PERIOD_SECONDS) as Hcur.
  { unfold current_step, TOTP_PERIOD_SECONDS. rewrite Z.quot_div_nonneg by lia.
    unfold u64_try_from. rewrite decide_True; [done|]. apply Z.div_pos; lia. }
  unfold window_steps in Hi. rewrite Hcur in Hi. unfold TOTP_PERIOD_SECONDS, TOTP_WINDOW, I64_MAX in *.
  pose proof (Z.div_mod (unix_timestamp now) 30 ltac:(done)).
  pose proof (Z.mod_pos_bound (unix_timestamp now) 30 ltac:(done)).
  set (q := unix_timestamp now / 30) in *. split; [done|]. split.
  - intros l ->. simpl in Hs. lia.
  - unfold saturating_sub_u64, saturating_add_u64, U64_MAX in Hi.
    rewrite !elem_of_cons, elem_of_nil in Hi. lia.
Qed.
End totp_spec.

(** ** Session tokens, one-time codes and password hashes

    [security/src/session_token.rs], [bootstrap_code.rs] and [password_hash.rs].
    The primitives are those of other crates and enter as the class
    [WebCrypto]; the system's random source is a parameter, which may fail. *)

(** [sha2], [base64], [base32] and [argon2]. *)
Class WebCrypto := {
  sha256 : list N → list N;
  base64url_encode : list N → str;
  base64url_decode : str → option (list N);
  base32_decode : str → option (list N);
  argon2id : list N → list N → option (list N);
}.

(** Their documented behaviour: the length of a digest and of a derivation, and
    that the unpadded encoding of bytes consists of letters, digits, [-] and [_]
    and decodes to them. *)
Definition base64url_character (c : char) : bool :=
  ((65 <=? c) && (c <=? 90) || (97 <=? c) && (c <=? 122) || (48 <=? c) && (c <=? 57)
   || (c =? 45) || (c =? 95))%N.

Class WebCryptoLaws `{WebCrypto} := {
  sha256_length bytes : length (sha256 bytes) = 32%nat;
  base64url_roundtrip bytes : Forall (λ b, b < 256)%N bytes →
    base64url_decode (base64url_encode bytes) = Some bytes;
  base64url_characters bytes : Forall (λ c, base64url_character c = true) (base64url_encode bytes);
  base64url_nonempty bytes : bytes ≠ [] → base64url_encode bytes ≠ [];
  base32_bytes text bytes : base32_decode text = Some bytes → Forall (λ b, b < 256)%N bytes;
  argon2id_length password salt hash : argon2id password salt = Some hash →
    length hash = ARGON2ID_HASH_LENGTH;
}.

Definition TOKEN_LENGTH : nat := 32.

Section secrets.
Context `{WebCrypto}.

(** ** Tokens *)

Inductive SessionTokenError := RandomnessUnavailable | InvalidEncoding.

Abbreviation SessionToken := (list N).

(** [SessionToken::generate] and [CsrfToken::generate], over what the random
    source answered. *)
Definition SessionToken_generate (random : option (list N)) : result SessionToken SessionTokenError :=
  ok_or random RandomnessUnavailable.
Definition CsrfToken_generate (random : option (list N)) : result SessionToken SessionTokenError :=
  ok_or random RandomnessUnavailable.

Definition SessionToken_from_base64url (value : str) : result SessionToken SessionTokenError :=
  let? decoded := ok_or (base64url_decode value) InvalidEncoding in
  if decide (length decoded = TOKEN_LENGTH) then Ok decoded else Err InvalidEncoding.

Definition SessionToken_hash (token : SessionToken) : Digest := sha256 token.
Definition SessionToken_as_base64url (token : SessionToken) : str := base64url_encode token.

(** ** One-time codes *)

Definition BOOTSTRAP_CODE_CHARACTERS : nat := 20.

Definition generate_bootstrap_code (random : option (list N)) : result str SessionTokenError :=
  let? indices := ok_or random RandomnessUnavailable in
  Ok ((λ index, default 0%N (CODE_ALPHABET !! (N.to_nat index mod length CODE_ALPHABET)%nat)) <$> indices).

Definition hash_bootstrap_code (code : str) : Digest := sha256 (as_bytes (to_ascii_uppercase (trim code))).

(** ** Passwords *)

Inductive PasswordHashError := HashRandomness | Derivation | HashParts.

(** [hash_password]; the parameters of [argon2()] are constants the derivation
    accepts. *)
Definition hash_password (random : option (list N)) (password : str)
    : result Argon2IdHash PasswordHashError :=
  let? salt := ok_or random HashRandomness in
  let? hash := ok_or (argon2id (as_bytes password) salt) Derivation in
  map_err (λ _, HashParts) (Argon2IdHash_from_parts salt hash).

Definition verify_password (hash : Argon2IdHash) (password : str) : bool :=
  Argon2IdHash_verify argon2id hash password.
End secrets.

(** ** Theorems *)

Section laws.
Context `{WebCryptoLaws}.

(** What the random source answers: that many bytes. *)
Definition random_bytes (n : nat) (random : option (list N)) : Prop :=
  ∀ bytes, random = Some bytes → length bytes = n ∧ Forall (λ b, b < 256)%N bytes.

(** A token survives the wire: its holder is recognised by its hash. *)
Lemma token_wire_roundtrip random token :
  random_bytes TOKEN_LENGTH random → SessionToken_generate random = Ok token →
  SessionToken_from_base64url (SessionToken_as_base64url token) = Ok token.
Proof.
  unfold SessionToken_generate, SessionToken_from_base64url, SessionToken_as_base64url.
  intros Hr Hg. destruct random as [bytes|]; [|done]. injection Hg as <-.
  destruct (Hr _ eq_refl) as [Hlen Hb]. rewrite base64url_roundtrip by done. simpl.
  by rewrite decide_True.
Qed.

(** The password a hash was derived from verifies. *)
Lemma hashed_password_verifies random password h :
  hash_password random password = Ok h → verify_password h password = true.
Proof.
  unfold hash_password, verify_password, Argon2IdHash_verify, Argon2IdHash_from_parts.
  destruct random as [salt|]; [|done]. simpl.
  destruct (argon2id (as_bytes password) salt) as [hash|] eqn:Ha; [|done]. simpl.
  case_decide; [done|]. intros [= <-]. simpl. rewrite Ha. by apply constant_time_eq_spec.
Qed.

(** Only a password with the same derivation verifies. *)
Lemma verified_derivation h password :
  length (ah_hash h) = ARGON2ID_HASH_LENGTH →
  verify_password h password = true ↔ argon2id (as_bytes password) (ah_salt h) = Some (ah_hash h).
Proof.
  unfold verify_password, Argon2IdHash_verify. intros Hlen.
  destruct (argon2id _ _) as [c|] eqn:Ha; [|naive_solver].
  rewrite constant_time_eq_spec by (rewrite (argon2id_length _ _ _ Ha); congruence). naive_solver.
Qed.

Lemma hashed_password_typed random password h :
  random_bytes ARGON2ID_SALT_LENGTH random → hash_password random password = Ok h →
  length (ah_salt h) = ARGON2ID_SALT_LENGTH ∧ length (ah_hash h) = ARGON2ID_HASH_LENGTH.
Proof.
  unfold hash_password, Argon2IdHash_from_parts. intros Hr.
  destruct random as [salt|]; [|done]. simpl. destruct (argon2id _ _) as [hash|] eqn:Ha; [|done]. simpl.
  case_decide as Hd; [done|]. intros [= <-]. simpl. split; [by apply Hr | by eapply argon2id_length].
Qed.
End laws.
