(* ===== verification/RateLimiter.v ===== *)
(** * RateLimiter: the sliding-window budgets of the sign-in surface

    Models [LoginRateLimiter], [BucketMap] and [bounded_username_key] of
    [web/src/auth.rs].  Each method runs under the mutex of one map; a poisoned
    mutex, which takes a panic inside these methods, is not modelled. *)
From S2P Require Import Prelude Text Accounts.
From Stdlib Require Import ZifyBool.
Local Open Scope Z_scope.

(** A monotonic [Instant], in nanoseconds. *)
Abbreviation Instant := Z.

Definition RATE_WINDOW : Z := 15 * 60 * 1000000000.
Definition USERNAME_FAILURE_LIMIT : nat := 5.
Definition IP_FAILURE_LIMIT : nat := 20.
Definition RATE_LIMIT_USERNAME_CHARS : nat := 64.
Definition ME_IP_QUERY_LIMIT : nat := 60.
Definition BUCKET_PRUNE_THRESHOLD : Z := 4096.

Record Entry := mk_entry { en_at : Instant; en_ip : str; en_token : Z }.

Record BucketMap := mk_buckets {
  bm_buckets : gmap str (list Entry);
  bm_inserts_since_prune : nat;
  bm_next_token : Z;
}.

Definition BucketMap_new : BucketMap := mk_buckets ∅ 0 0.

Record Reservation := mk_reservation { rs_username_token : Z; rs_ip_token : Z }.

Record LoginRateLimiter := mk_limiter { by_username : BucketMap; by_ip : BucketMap }.

Definition LoginRateLimiter_new : LoginRateLimiter := mk_limiter BucketMap_new BucketMap_new.

(** [now.duration_since(at) >= RATE_WINDOW]; the duration saturates at zero. *)
Definition expired (now : Instant) (e : Entry) : bool := RATE_WINDOW <=? Z.max 0 (now - en_at e).

Fixpoint prune_front (failures : list Entry) (now : Instant) : list Entry :=
  match failures with
  | [] => []
  | e :: rest => if expired now e then prune_front rest now else failures
  end.

(** [Self::bucket]: the bucket of the key, made when it is missing. *)
Definition bucket (m : BucketMap) (key : str) : BucketMap * list Entry :=
  match bm_buckets m !! key with
  | None =>
      (mk_buckets (<[key := []]> (bm_buckets m)) (S (bm_inserts_since_prune m)) (bm_next_token m), [])
  | Some failures => (m, failures)
  end.

Definition with_bucket (m : BucketMap) (key : str) (failures : list Entry) : BucketMap :=
  mk_buckets (<[key := failures]> (bm_buckets m)) (bm_inserts_since_prune m) (bm_next_token m).

Definition take_token (m : BucketMap) : BucketMap * Z :=
  (mk_buckets (bm_buckets m) (bm_inserts_since_prune m) (wrapping_add_u64 (bm_next_token m) 1),
   bm_next_token m).

Definition reserve_username_key (m : BucketMap) (key ip : str) (now : Instant) (limit : nat)
    : BucketMap * option Z :=
  let '(m, token) := take_token m in
  let '(m, failures) := bucket m key in
  let failures := prune_front failures now in
  if decide (length (filter (λ e, en_ip e = ip) failures) < limit)%nat
  then (with_bucket m key (failures ++ [mk_entry now ip token]), Some token)
  else (with_bucket m key failures, None).

Definition reserve_ip_key (m : BucketMap) (key : str) (now : Instant) (limit : nat)
    : BucketMap * option Z :=
  let '(m, token) := take_token m in
  let '(m, failures) := bucket m key in
  let failures := prune_front failures now in
  if decide (length failures < limit)%nat
  then (with_bucket m key (failures ++ [mk_entry now key token]), Some token)
  else (with_bucket m key failures, None).

(** [iter().position(..)] and [VecDeque::remove]: the first entry of the token. *)
Fixpoint remove_token (failures : list Entry) (token : Z) : list Entry :=
  match failures with
  | [] => []
  | e :: rest => if decide (en_token e = token) then rest else e :: remove_token rest token
  end.

Definition refund_key_by_token (m : BucketMap) (key : str) (token : Z) : BucketMap :=
  match bm_buckets m !! key with
  | None => m
  | Some failures => with_bucket m key (remove_token failures token)
  end.

Definition prune_expired (buckets : gmap str (list Entry)) (now : Instant) : gmap str (list Entry) :=
  omap (λ failures, match prune_front failures now with [] => None | l => Some l end) buckets.

Definition sweep_if_due (m : BucketMap) (now : Instant) : BucketMap :=
  if decide (BUCKET_PRUNE_THRESHOLD <= Z.of_nat (bm_inserts_since_prune m))
  then mk_buckets (prune_expired (bm_buckets m) now) 0 (bm_next_token m)
  else m.

(** [bounded_username_key]. *)
Definition bounded_username_key `{UnicodeCase} (username : str) : str :=
  let trimmed := trim username in
  let within_bound := (length trimmed <=? RATE_LIMIT_USERNAME_CHARS)%nat in
  let already_canonical :=
    (str_len trimmed =? str_len username)%N
    && negb (existsb (λ c, bool_decide (head (char_to_lowercase c) ≠ Some c)) trimmed) in
  if within_bound && already_canonical then username
  else take RATE_LIMIT_USERNAME_CHARS (to_lowercase trimmed).

(** [LoginRateLimiter::reserve]. *)
Definition reserve `{UnicodeCase} (l : LoginRateLimiter) (username ip : str) (now : Instant)
    : LoginRateLimiter * option Reservation :=
  let username_key := bounded_username_key username in
  match reserve_username_key (by_username l) username_key ip now USERNAME_FAILURE_LIMIT with
  | (u, None) => (mk_limiter u (by_ip l), None)
  | (u, Some username_token) =>
      match reserve_ip_key (by_ip l) ip now IP_FAILURE_LIMIT with
      | (i, None) =>
          let u := refund_key_by_token u username_key username_token in
          (mk_limiter (sweep_if_due u now) (sweep_if_due i now), None)
      | (i, Some ip_token) =>
          (mk_limiter (sweep_if_due u now) (sweep_if_due i now),
           Some (mk_reservation username_token ip_token))
      end
  end.

(** [LoginRateLimiter::refund]. *)
Definition refund `{UnicodeCase} (l : LoginRateLimiter) (username ip : str) (r : Reservation)
    : LoginRateLimiter :=
  mk_limiter (refund_key_by_token (by_username l) (bounded_username_key username) (rs_username_token r))
    (refund_key_by_token (by_ip l) ip (rs_ip_token r)).

(** [LoginRateLimiter::reserve_ip]. *)
Definition reserve_ip (l : LoginRateLimiter) (ip : str) (now : Instant) (limit : nat)
    : LoginRateLimiter * bool :=
  let '(i, token) := reserve_ip_key (by_ip l) ip now limit in
  (mk_limiter (by_username l) (sweep_if_due i now), match token with Some _ => true | None => false end).

(** ** A map against the ledger of its granted reservations *)

Abbreviation Ledger := (list (str * Entry)).

Definition entries (key : str) (ledger : Ledger) : list Entry :=
  snd <$> filter (λ p, p.1 = key) ledger.

Definition before (e e' : Entry) : Prop := en_at e <= en_at e' ∧ en_token e < en_token e'.

(** The map remembers of the [ledger] all but entries that left the window. *)
Record tracks (m : BucketMap) (now : Instant) (ledger : Ledger) : Prop := {
  tracks_entries key : ∃ dropped,
    entries key ledger = dropped ++ default [] (bm_buckets m !! key) ∧
    Forall (λ e, expired now e = true) dropped;
  tracks_sorted : StronglySorted (λ p q, before p.2 q.2) ledger;
  tracks_past : Forall (λ p, en_at p.2 <= now ∧ en_token p.2 < bm_next_token m) ledger;
}.

Lemma entries_app key l1 l2 : entries key (l1 ++ l2) = entries key l1 ++ entries key l2.
Proof. unfold entries. by rewrite filter_app, fmap_app. Qed.

Lemma entries_one key k e : entries key [(k, e)] = if decide (k = key) then [e] else [].
Proof. unfold entries. rewrite filter_cons. simpl. by case_decide. Qed.

Lemma entries_elem key ledger e : e ∈ entries key ledger ↔ (key, e) ∈ ledger.
Proof.
  unfold entries. rewrite list_elem_of_fmap. setoid_rewrite list_elem_of_filter. split.
  - by intros ([k x] & -> & Hk & Hin); simpl in *; subst.
  - intros Hin. by exists (key, e).
Qed.

Lemma StronglySorted_remove {A} (R : relation A) l1 x l2 :
  StronglySorted R (l1 ++ x :: l2) → StronglySorted R (l1 ++ l2).
Proof.
  induction l1 as [|y l1 IH]; simpl; [by inversion 1|].
  inversion 1 as [|? ? Hs Hf]; subst. constructor; [by apply IH|].
  apply Forall_app in Hf as [Hf1 Hf2]. apply Forall_app. split; [done|]. by inversion Hf2.
Qed.

Lemma StronglySorted_snoc {A} (R : relation A) l x :
  StronglySorted R l → Forall (λ y, R y x) l → StronglySorted R (l ++ [x]).
Proof.
  induction 1 as [|y l Hs IH Hf]; simpl; [repeat constructor|]. intros Hx. inversion Hx; subst.
  constructor; [by apply IH|]. apply Forall_app. split; [done | by constructor].
Qed.

Lemma entries_sorted key ledger :
  StronglySorted (λ p q, before p.2 q.2) ledger → StronglySorted before (entries key ledger).
Proof.
  intros Hs. unfold entries. apply (StronglySorted_filter _ (λ p, p.1 = key)) in Hs.
  induction Hs as [|p l Hl IH Hp]; simpl; constructor; [done|]. by apply Forall_fmap.
Qed.

Lemma expired_later now now' e : now <= now' → expired now e = true → expired now' e = true.
Proof. unfold expired, RATE_WINDOW. lia. Qed.

Lemma tracks_later m now now' ledger : now <= now' → tracks m now ledger → tracks m now' ledger.
Proof.
  intros Hle [He Hs Hp]. split; [|done|].
  - intros key. destruct (He key) as (d & Hd & Hf). exists d. split; [done|].
    eapply Forall_impl; [exact Hf|]. intros e. by apply expired_later.
  - eapply Forall_impl; [exact Hp|]. simpl. lia.
Qed.

(** Of a bucket in order, the pruning keeps exactly what is in the window. *)
Lemma prune_front_sorted l now :
  StronglySorted before l → prune_front l now = filter (λ e, expired now e = false) l.
Proof.
  induction 1 as [|e l Hs IH Hf]; [done|]. simpl. rewrite filter_cons.
  destruct (expired now e) eqn:He; [by rewrite decide_False, IH|]. rewrite decide_True by done.
  f_equal. clear IH Hs. induction Hf as [|x l [Hx _] Hl IH]; [done|]. rewrite filter_cons, decide_True.
  - by f_equal.
  - revert He. unfold expired, RATE_WINDOW. lia.
Qed.

Definition live (now : Instant) (key : str) (ledger : Ledger) : list Entry :=
  filter (λ e, expired now e = false) (entries key ledger).

Lemma filter_none_in {A} (P : A → Prop) `{∀ x, Decision (P x)} (l : list A) :
  Forall (λ x, ¬ P x) l → filter P l = [].
Proof. induction 1 as [|x l Hx Hl IH]; [done|]. by rewrite filter_cons_False. Qed.

Lemma tracks_live m now key ledger :
  tracks m now ledger → prune_front (default [] (bm_buckets m !! key)) now = live now key ledger.
Proof.
  intros [He Hs _]. apply (entries_sorted key) in Hs. destruct (He key) as (d & Hd & Hf).
  unfold live. rewrite Hd in *. rewrite filter_app, filter_none_in.
  - apply prune_front_sorted. clear -Hs. induction d as [|x d IH]; [done|]. inversion Hs; subst; auto.
  - eapply Forall_impl; [exact Hf|]. simpl. by intros e ->.
Qed.

(** Pruning a bucket changes nothing of what the map tracks. *)
Lemma tracks_pruned m now key ledger ins tok :
  tracks m now ledger → bm_next_token m <= tok →
  tracks (mk_buckets (<[key := live now key ledger]> (bm_buckets m)) ins tok) now ledger.
Proof.
  intros Ht Hle. pose proof (tracks_live _ _ key _ Ht) as Hl. destruct Ht as [He Hs Hp]. split; [|done|].
  - intros k. simpl. destruct (decide (k = key)) as [->|Hne].
    + rewrite lookup_insert_eq. simpl. rewrite <- Hl. destruct (He key) as (d & -> & Hf).
      set (b := default [] (bm_buckets m !! key)). clearbody b.
      assert (∃ d', b = d' ++ prune_front b now ∧ Forall (λ e, expired now e = true) d') as (d' & Hb & Hd').
      { clear. induction b as [|e b (d' & Hb & Hd')]; [by exists []|]. simpl.
        destruct (expired now e) eqn:Hx; [|by exists []]. exists (e :: d'). split; [by rewrite Hb at 1|].
        by constructor. }
      exists (d ++ d'). rewrite <- app_assoc, <- Hb. split; [done|]. by apply Forall_app.
    + rewrite lookup_insert_ne by done. apply He.
  - eapply Forall_impl; [exact Hp|]. simpl. lia.
Qed.

Lemma tracks_grant m now key e ledger :
  tracks m now ledger → en_at e = now →
  Forall (λ p, en_token p.2 < en_token e) ledger → en_token e < bm_next_token m →
  tracks (with_bucket m key (default [] (bm_buckets m !! key) ++ [e])) now (ledger ++ [(key, e)]).
Proof.
  intros [He Hs Hp] Hat Htok Hnext. split.
  - intros k. rewrite entries_app, entries_one. simpl. destruct (He k) as (d & -> & Hf). exists d.
    split; [|done]. case_decide as Hk.
    + subst k. rewrite lookup_insert_eq. simpl. by rewrite <- app_assoc.
    + by rewrite lookup_insert_ne, app_nil_r.
  - apply StronglySorted_snoc; [done|]. rewrite Forall_forall in *. intros p Hin.
    specialize (Hp p Hin). specialize (Htok p Hin). unfold before. simpl. lia.
  - apply Forall_app. split; [done|]. repeat constructor; simpl; lia.
Qed.

Lemma bucket_spec m key m1 failures :
  bucket m key = (m1, failures) →
  failures = default [] (bm_buckets m !! key) ∧
  ∀ l, ∃ ins, with_bucket m1 key l = mk_buckets (<[key := l]> (bm_buckets m)) ins (bm_next_token m).
Proof.
  unfold bucket, with_bucket. destruct (bm_buckets m !! key) as [b|] eqn:Hb; intros [= <- <-]; simpl.
  - split; [done|]. intros l. eauto.
  - split; [done|]. intros l. rewrite insert_insert_eq. eauto.
Qed.

(** Either way the bucket is pruned and the token is spent; a granted entry is
    put at its end. *)
Lemma tracks_reserved m now ledger key ip ins :
  tracks m now ledger →
  let e := mk_entry now ip (bm_next_token m) in
  tracks (mk_buckets (<[key := live now key ledger ++ [e]]> (bm_buckets m)) ins (bm_next_token m + 1))
    now (ledger ++ [(key, e)]).
Proof.
  intros Ht e.
  pose proof (tracks_pruned m now key ledger ins (bm_next_token m + 1) Ht ltac:(lia)) as Hp.
  apply (tracks_grant _ _ key e) in Hp; [|done| |simpl; lia].
  - revert Hp. unfold with_bucket. simpl. by rewrite lookup_insert_eq, insert_insert_eq.
  - destruct Ht as [_ _ Hpast]. eapply Forall_impl; [exact Hpast|]. simpl. lia.
Qed.

(** One reservation: granted exactly when the ledger leaves room for it. *)
Definition reserved (m m' : BucketMap) (now : Instant) (ledger : Ledger) (key ip : str)
    (room : Prop) (r : option Z) : Prop :=
  bm_next_token m' = bm_next_token m + 1 ∧
  ((room ∧ r = Some (bm_next_token m) ∧
    tracks m' now (ledger ++ [(key, mk_entry now ip (bm_next_token m))])) ∨
   (¬ room ∧ r = None ∧ tracks m' now ledger)).

Lemma next_token_small m : 0 <= bm_next_token m < 2 ^ 64 - 1 →
  wrapping_add_u64 (bm_next_token m) 1 = bm_next_token m + 1.
Proof. intros ?. unfold wrapping_add_u64. apply Z.mod_small. lia. Qed.

Lemma reserve_username_key_spec m now ledger key ip limit m' r :
  tracks m now ledger → 0 <= bm_next_token m < 2 ^ 64 - 1 →
  reserve_username_key m key ip now limit = (m', r) →
  reserved m m' now ledger key ip
    (length (filter (λ e, en_ip e = ip) (live now key ledger)) < limit)%nat r.
Proof.
  intros Ht Hn. unfold reserve_username_key, take_token. rewrite next_token_small by done.
  set (m0 := mk_buckets _ _ _).
  destruct (bucket m0 key) as [m1 f] eqn:Hb. apply bucket_spec in Hb as [-> Hw]. simpl in Hw.
  change (bm_buckets m0) with (bm_buckets m). rewrite (tracks_live _ _ _ _ Ht).
  case_decide; intros [= <- <-].
  - destruct (Hw (live now key ledger ++ [mk_entry now ip (bm_next_token m)])) as [ins ->].
    split; [done|]. left. eauto using tracks_reserved.
  - destruct (Hw (live now key ledger)) as [ins ->]. split; [done|]. right.
    repeat split_and; [done..|]. apply tracks_pruned; [done | lia].
Qed.

Lemma reserve_ip_key_spec m now ledger key limit m' r :
  tracks m now ledger → 0 <= bm_next_token m < 2 ^ 64 - 1 →
  reserve_ip_key m key now limit = (m', r) →
  reserved m m' now ledger key key (length (live now key ledger) < limit)%nat r.
Proof.
  intros Ht Hn. unfold reserve_ip_key, take_token. rewrite next_token_small by done.
  set (m0 := mk_buckets _ _ _).
  destruct (bucket m0 key) as [m1 f] eqn:Hb. apply bucket_spec in Hb as [-> Hw]. simpl in Hw.
  change (bm_buckets m0) with (bm_buckets m). rewrite (tracks_live _ _ _ _ Ht).
  case_decide; intros [= <- <-].
  - destruct (Hw (live now key ledger ++ [mk_entry now key (bm_next_token m)])) as [ins ->].
    split; [done|]. left. eauto using tracks_reserved.
  - destruct (Hw (live now key ledger)) as [ins ->]. split; [done|]. right.
    repeat split_and; [done..|]. apply tracks_pruned; [done | lia].
Qed.

(** A refund takes its own entry off the ledger and nothing else. *)
Lemma remove_token_split d e b :
  NoDup (en_token <$> d ++ e :: b) → remove_token (d ++ e :: b) (en_token e) = d ++ b.
Proof.
  induction d as [|x d IH]; simpl; [by rewrite decide_True|].
  rewrite NoDup_cons. intros [Hx Hd]. rewrite decide_False, IH; [done..|].
  intros Heq. apply Hx. rewrite Heq, fmap_app, elem_of_app. right. by left.
Qed.

Lemma remove_token_absent l token : token ∉ en_token <$> l → remove_token l token = l.
Proof.
  induction l as [|x l IH]; simpl; [done|]. rewrite not_elem_of_cons. intros [Hx Hl].
  rewrite decide_False by congruence. by rewrite IH.
Qed.

Lemma before_tokens_NoDup l : StronglySorted before l → NoDup (en_token <$> l).
Proof.
  induction 1 as [|e l Hs IH Hf]; simpl; constructor; [|done].
  intros (x & Heq & Hin)%list_elem_of_fmap. rewrite Forall_forall in Hf.
  apply Hf in Hin as [_ ?]. lia.
Qed.

Lemma refund_tracks m now key e l1 l2 :
  tracks m now (l1 ++ (key, e) :: l2) →
  tracks (refund_key_by_token m key (en_token e)) now (l1 ++ l2) ∧
  bm_next_token (refund_key_by_token m key (en_token e)) = bm_next_token m.
Proof.
  intros [He Hs Hp]. split; [|unfold refund_key_by_token, with_bucket; by case_match].
  pose proof (before_tokens_NoDup _ (entries_sorted key _ Hs)) as Hnd.
  assert (∀ k, entries k (l1 ++ (key, e) :: l2) =
    if decide (key = k) then entries k l1 ++ e :: entries k l2 else entries k (l1 ++ l2)) as Hsplit.
  { intros k. rewrite (entries_app _ l1), (entries_app _ l1 l2).
    change ((key, e) :: l2) with ([(key, e)] ++ l2). rewrite entries_app, entries_one. by case_decide. }
  split; [|by apply StronglySorted_remove in Hs|].
  - intros k. destruct (He k) as (d & Hd & Hf). rewrite Hsplit in Hd. case_decide as Hk.
    + subst k. set (b := default [] (bm_buckets m !! key)) in *. rewrite Hsplit, decide_True, Hd in Hnd by done.
      assert (remove_token (d ++ b) (en_token e) = entries key (l1 ++ l2)) as Hrem.
      { rewrite <- Hd, entries_app. apply remove_token_split. by rewrite Hd. }
      assert (default [] (bm_buckets (refund_key_by_token m key (en_token e)) !! key) =
              remove_token b (en_token e)) as ->.
      { unfold refund_key_by_token, b. destruct (bm_buckets m !! key) eqn:Hb; simpl; [|by rewrite Hb].
        by rewrite lookup_insert_eq. }
      rewrite <- Hrem. clear Hrem Hd Hsplit He.
      induction d as [|x d IH]; [by exists []|]. simpl in *. apply NoDup_cons in Hnd as [Hx Hnd].
      apply Forall_cons in Hf as [Hxe Hf]. case_decide as Heq.
      * exists d. split; [|done]. f_equal. symmetry. apply remove_token_absent.
        rewrite <- Heq. intros Hin. apply Hx. rewrite fmap_app. apply elem_of_app. by right.
      * destruct (IH Hnd Hf) as (d' & -> & Hd'). exists (x :: d'). split; [done | by constructor].
    + rewrite Hd. exists d. split; [|done]. f_equal. unfold refund_key_by_token.
      destruct (bm_buckets m !! key); [|done]. simpl. by rewrite lookup_insert_ne.
  - rewrite Forall_app, Forall_cons in Hp. destruct Hp as (Hp1 & _ & Hp2).
    assert (bm_next_token (refund_key_by_token m key (en_token e)) = bm_next_token m) as ->
      by (unfold refund_key_by_token, with_bucket; by case_match).
    by apply Forall_app.
Qed.

(** The sweep forgets only what left the window. *)
Lemma sweep_tracks m now ledger :
  tracks m now ledger →
  tracks (sweep_if_due m now) now ledger ∧ bm_next_token (sweep_if_due m now) = bm_next_token m.
Proof.
  intros Ht. unfold sweep_if_due. case_decide; [|done]. split; [|done].
  assert (∀ k, tracks (mk_buckets (<[k := live now k ledger]> (bm_buckets m)) 0 (bm_next_token m)) now ledger)
    as Hk by (intros k; by apply tracks_pruned).
  pose proof Ht as [_ Hs Hp]. split; [|done..]. intros k.
  destruct (tracks_entries _ _ _ (Hk k) k) as (d & Hd & Hf). exists d. split; [|done].
  rewrite Hd. f_equal. simpl. rewrite lookup_insert_eq. simpl. unfold prune_expired.
  rewrite lookup_omap. rewrite <- (tracks_live m now k ledger) by done.
  destruct (bm_buckets m !! k) as [b|]; simpl; [|done]. by destruct (prune_front b now).
Qed.

(** ** The limiter against a sliding window *)

Section limiter.
Context `{UnicodeCase}.

(** An attempt that holds its slots: granted, and not refunded yet. *)
Record Attempt := mk_attempt {
  at_username : str;
  at_ip : str;
  at_time : Instant;
}.

Inductive LimiterCall :=
| Reserve (username ip : str) (now : Instant)
| Refund (n : nat).

(** The calls of the handlers: a refund hands in the reservation of an attempt
    that holds one, with the name and the address it was made for. *)
Fixpoint limiter_run (l : LoginRateLimiter) (held : list (Attempt * Reservation))
    (calls : list LimiterCall) : list (Attempt * Reservation) * list bool :=
  match calls with
  | [] => (held, [])
  | Reserve username ip now :: calls =>
      match reserve l username ip now with
      | (l, None) =>
          let '(held, verdicts) := limiter_run l held calls in (held, false :: verdicts)
      | (l, Some r) =>
          let '(held, verdicts) := limiter_run l (held ++ [(mk_attempt username ip now, r)]) calls in
          (held, true :: verdicts)
      end
  | Refund n :: calls =>
      match held !! n with
      | None => limiter_run l held calls
      | Some (a, r) => limiter_run (refund l (at_username a) (at_ip a) r) (delete n held) calls
      end
  end.

(** The reference: an attempt is granted when fewer than five attempts of the
    same name and address and fewer than twenty of the address are held from the
    last fifteen minutes. *)
Definition in_window (now : Instant) (a : Attempt) : Prop := now - at_time a < RATE_WINDOW.
Definition same_name (username : str) (a : Attempt) : Prop :=
  bounded_username_key (at_username a) = bounded_username_key username.

#[export] Instance in_window_dec now a : Decision (in_window now a).
Proof. unfold in_window. apply _. Defined.
#[export] Instance same_name_dec username a : Decision (same_name username a).
Proof. unfold same_name. apply _. Defined.

Definition held_by_name (held : list Attempt) (username ip : str) (now : Instant) : nat :=
  length (filter (λ a, same_name username a ∧ at_ip a = ip ∧ in_window now a) held).
Definition held_by_ip (held : list Attempt) (ip : str) (now : Instant) : nat :=
  length (filter (λ a, at_ip a = ip ∧ in_window now a) held).

Definition granted (held : list Attempt) (username ip : str) (now : Instant) : Prop :=
  (held_by_name held username ip now < USERNAME_FAILURE_LIMIT)%nat ∧
  (held_by_ip held ip now < IP_FAILURE_LIMIT)%nat.

#[export] Instance granted_dec held username ip now : Decision (granted held username ip now).
Proof. unfold granted. apply _. Defined.

Fixpoint window_run (held : list Attempt) (calls : list LimiterCall) : list Attempt * list bool :=
  match calls with
  | [] => (held, [])
  | Reserve username ip now :: calls =>
      let verdict := bool_decide (granted held username ip now) in
      let held := if verdict then held ++ [mk_attempt username ip now] else held in
      let '(held, verdicts) := window_run held calls in (held, verdict :: verdicts)
  | Refund n :: calls => window_run (delete n held) calls
  end.

Fixpoint in_order (t : Instant) (calls : list LimiterCall) : Prop :=
  match calls with
  | [] => True
  | Reserve _ _ now :: calls => t <= now ∧ in_order now calls
  | Refund _ :: calls => in_order t calls
  end.

Definition name_ledger (held : list (Attempt * Reservation)) : Ledger :=
  (λ p, (bounded_username_key (at_username p.1),
         mk_entry (at_time p.1) (at_ip p.1) (rs_username_token p.2))) <$> held.
Definition ip_ledger (held : list (Attempt * Reservation)) : Ledger :=
  (λ p, (at_ip p.1, mk_entry (at_time p.1) (at_ip p.1) (rs_ip_token p.2))) <$> held.

Lemma expired_window now e : expired now e = false ↔ now - en_at e < RATE_WINDOW.
Proof. unfold expired, RATE_WINDOW. lia. Qed.

Lemma live_names now username ip held :
  length (filter (λ e, en_ip e = ip) (live now (bounded_username_key username) (name_ledger held))) =
  held_by_name held.*1 username ip now.
Proof.
  unfold held_by_name, live. induction held as [|[a r] held IH]; [done|].
  change (name_ledger ((a, r) :: held)) with
    ([(bounded_username_key (at_username a), mk_entry (at_time a) (at_ip a) (rs_username_token r))]
     ++ name_ledger held).
  rewrite entries_app, entries_one, !filter_app, length_app, IH. clear IH.
  rewrite fmap_cons, filter_cons. unfold same_name, in_window. cbn [fst].
  destruct (decide (bounded_username_key (at_username a) = bounded_username_key username)) as [Hk|Hk];
    [|rewrite decide_False by (intros (? & _); done); done].
  rewrite (filter_cons (λ e, expired now e = false)).
  destruct (decide (expired now _ = false)) as [Hx|Hx];
    rewrite expired_window in Hx; simpl in Hx; [|rewrite decide_False by (intros (? & ? & ?); done); done].
  rewrite filter_cons. simpl. destruct (decide (at_ip a = ip)) as [Hi|Hi].
  - by rewrite decide_True.
  - rewrite decide_False by (intros (? & ? & ?); done). done.
Qed.

Lemma live_ips now ip held :
  length (live now ip (ip_ledger held)) = held_by_ip held.*1 ip now.
Proof.
  unfold held_by_ip, live. induction held as [|[a r] held IH]; [done|].
  change (ip_ledger ((a, r) :: held)) with
    ([(at_ip a, mk_entry (at_time a) (at_ip a) (rs_ip_token r))] ++ ip_ledger held).
  rewrite entries_app, entries_one, filter_app, length_app, IH. clear IH.
  rewrite fmap_cons, filter_cons. unfold in_window. cbn [fst].
  destruct (decide (at_ip a = ip)) as [Hi|Hi];
    [|rewrite decide_False by (intros (? & _); done); done].
  rewrite filter_cons. destruct (decide (expired now _ = false)) as [Hx|Hx];
    rewrite expired_window in Hx; simpl in Hx; [|rewrite decide_False by (intros (? & ?); done); done].
  by rewrite decide_True.
Qed.

(** The two maps of a limiter against the attempts that hold slots. *)
Record limits (l : LoginRateLimiter) (t : Instant) (held : list (Attempt * Reservation)) (left : Z)
    : Prop := {
  limits_names : tracks (by_username l) t (name_ledger held);
  limits_ips : tracks (by_ip l) t (ip_ledger held);
  limits_tokens : 0 <= bm_next_token (by_username l) ∧ bm_next_token (by_username l) + left < 2 ^ 64 ∧
                  0 <= bm_next_token (by_ip l) ∧ bm_next_token (by_ip l) + left < 2 ^ 64;
}.

Lemma limits_reserve l t held left username ip now l' r :
  limits l t held (left + 1) → 0 <= left → t <= now → reserve l username ip now = (l', r) →
  (granted held.*1 username ip now ∧
   ∃ rs, r = Some rs ∧ limits l' now (held ++ [(mk_attempt username ip now, rs)]) left) ∨
  (¬ granted held.*1 username ip now ∧ r = None ∧ limits l' now held left).
Proof.
  intros [Hu Hi Htok] Hleft Hle. unfold reserve. apply (tracks_later _ _ _ _ Hle) in Hu, Hi.
  destruct (reserve_username_key _ _ _ _ _) as [u ru] eqn:Hru.
  apply (reserve_username_key_spec _ _ _ _ _ _ _ _ Hu ltac:(lia)) in Hru as [Hut Hru].
  rewrite live_names in Hru. unfold granted.
  destruct Hru as [(Hroom & -> & Hu')|(Hroom & -> & Hu')].
  2: { intros [= <- <-]. right. split; [by intros []|]. split; [done|].
       split; simpl; [done..|]. lia. }
  destruct (reserve_ip_key _ _ _ _) as [i ri] eqn:Hri.
  apply (reserve_ip_key_spec _ _ _ _ _ _ _ Hi ltac:(lia)) in Hri as [Hit Hri].
  rewrite live_ips in Hri. destruct Hri as [(Hroom' & -> & Hi')|(Hroom' & -> & Hi')].
  - intros [= <- <-]. left. split; [done|]. eexists. split; [done|].
    apply sweep_tracks in Hu' as [Hu' Hun], Hi' as [Hi' Hin].
    split; cbn [by_username by_ip]; unfold name_ledger, ip_ledger in *; rewrite ?fmap_app;
      [exact Hu' | exact Hi' | lia].
  - intros [= <- <-]. right. split; [by intros []|]. split; [done|].
    pose proof (refund_tracks u now (bounded_username_key username)
      (mk_entry now ip (bm_next_token (by_username l))) (name_ledger held) [] Hu') as [Hu'' Hun''].
    simpl in Hu'', Hun''. rewrite app_nil_r in Hu''.
    apply sweep_tracks in Hu'' as [Hu'' Hun], Hi' as [Hi' Hin].
    split; simpl; [done..|]. lia.
Qed.

Lemma delete_split {A B} (f : A → B) (l : list A) n x :
  l !! n = Some x → ∃ l1 l2, f <$> l = l1 ++ f x :: l2 ∧ f <$> delete n l = l1 ++ l2.
Proof.
  intros Hn. exists (f <$> take n l), (f <$> drop (S n) l).
  rewrite <- (take_drop_middle l n x Hn) at 1. rewrite delete_take_drop. by rewrite !fmap_app.
Qed.

Lemma limits_refund l t held left n a r :
  limits l t held left → held !! n = Some (a, r) →
  limits (refund l (at_username a) (at_ip a) r) t (delete n held) left.
Proof.
  intros [Hu Hi Htok] Hn. unfold name_ledger, ip_ledger in Hu, Hi.
  match type of Hu with tracks _ _ (?f <$> _) =>
    destruct (delete_split f held n _ Hn) as (u1 & u2 & Heu & Hdu); rewrite Heu in Hu end.
  match type of Hi with tracks _ _ (?f <$> _) =>
    destruct (delete_split f held n _ Hn) as (i1 & i2 & Hei & Hdi); rewrite Hei in Hi end.
  apply refund_tracks in Hu as [Hu Hun], Hi as [Hi Hin]. simpl in *.
  split; simpl; unfold name_ledger, ip_ledger; [by rewrite Hdu | by rewrite Hdi | by rewrite Hun, Hin].
Qed.

Lemma limiter_window l t held calls :
  limits l t held (Z.of_nat (length calls)) → in_order t calls →
  ((limiter_run l held calls).1.*1, (limiter_run l held calls).2) = window_run held.*1 calls.
Proof.
  revert l t held. induction calls as [|[username ip now|n] calls IH]; intros l t held Hl Ho; [done| |].
  - destruct Ho as [Hle Ho]. simpl. destruct (reserve l username ip now) as [l' r] eqn:Hr.
    apply (limits_reserve l t held (Z.of_nat (length calls))) in Hr; [| |lia|done].
    2: { simpl in Hl. by replace (Z.of_nat (length calls) + 1) with (Z.of_nat (S (length calls))) by lia. }
    destruct Hr as [(Hg & rs & -> & Hl')|(Hg & -> & Hl')].
    + rewrite bool_decide_true by done. specialize (IH _ _ _ Hl' Ho). rewrite fmap_app in IH.
      simpl in IH. rewrite <- IH. by destruct (limiter_run _ _ _).
    + rewrite bool_decide_false by done. specialize (IH _ _ _ Hl' Ho).
      rewrite <- IH. by destruct (limiter_run _ _ _).
  - simpl in *. assert (limits l t held (Z.of_nat (length calls))) as Hl'.
    { destruct Hl as [? ? ?]. split; [done..|]. lia. }
    destruct (held !! n) as [[a r]|] eqn:Hn.
    + specialize (IH _ _ _ (limits_refund _ _ _ _ _ _ _ Hl' Hn) Ho). rewrite IH. f_equal.
      rewrite !delete_take_drop. by rewrite fmap_app, fmap_take, fmap_drop.
    + rewrite (IH _ _ _ Hl' Ho). f_equal. rewrite delete_take_drop.
      apply lookup_ge_None_1 in Hn. rewrite take_ge, drop_ge by (rewrite length_fmap; lia).
      by rewrite app_nil_r.
Qed.

Lemma limits_new t left : left < 2 ^ 64 → limits LoginRateLimiter_new t [] left.
Proof.
  intros ?. assert (∀ m, m = BucketMap_new → tracks m t []) as Hm.
  { intros m ->. split; [|constructor..]. intros key. exists []. simpl. by rewrite lookup_empty. }
  split; [by apply Hm..|]. simpl. lia.
Qed.

(** C34: The limiter grants exactly what the sliding window leaves room for: neither
    the pruning of buckets, nor the sweeps, nor the undone half of a refused
    reservation, nor the refunds by token change a verdict. *)
Theorem limiter_exact t calls :
  Z.of_nat (length calls) < 2 ^ 64 → in_order t calls →
  ((limiter_run LoginRateLimiter_new [] calls).1.*1, (limiter_run LoginRateLimiter_new [] calls).2) =
  window_run [] calls.
Proof. intros Hlen Ho. apply (limiter_window _ t); [by apply limits_new | done]. Qed.

Definition within_budgets (t : Instant) (held : list Attempt) : Prop :=
  ∀ now username ip, t <= now →
    (held_by_name held username ip now <= USERNAME_FAILURE_LIMIT)%nat ∧
    (held_by_ip held ip now <= IP_FAILURE_LIMIT)%nat.

Lemma filter_length_sub {A} (P Q : A → Prop) `{∀ x, Decision (P x), ∀ x, Decision (Q x)} (l k : list A) :
  l `sublist_of` k → (∀ x, P x → Q x) → (length (filter P l) <= length (filter Q k))%nat.
Proof.
  intros Hsub Hpq. induction Hsub as [|x l k Hs IH|x l k Hs IH]; [done| |].
  - rewrite !filter_cons. destruct (decide (P x)), (decide (Q x)); simpl; try lia. naive_solver.
  - rewrite (filter_cons Q). destruct (decide (Q x)); simpl; lia.
Qed.

Lemma within_budgets_delete t held n : within_budgets t held → within_budgets t (delete n held).
Proof.
  intros Hb now username ip Hle. destruct (Hb now username ip Hle) as [Hn Hi].
  assert (delete n held `sublist_of` held) as Hsub by apply sublist_delete.
  split; [etransitivity; [|exact Hn] | etransitivity; [|exact Hi]];
    apply filter_length_sub; tauto.
Qed.

Lemma within_budgets_grant t held username ip now :
  within_budgets t held → t <= now → granted held username ip now →
  within_budgets now (held ++ [mk_attempt username ip now]).
Proof.
  intros Hb Hle [Hn Hi] now' username' ip' Hle'. destruct (Hb now' username' ip' ltac:(lia)) as [Hn' Hi'].
  assert (∀ a, in_window now' a → in_window now a) as Hwin by (unfold in_window; intros; lia).
  assert (same_name username (mk_attempt username' ip' now) →
    held_by_name held username' ip' now' <= held_by_name held username ip' now)%nat as Hname.
  { intros Hs. apply filter_length_sub; [done|]. unfold same_name in *. simpl in Hs.
    intros a (Ha & Hip & Hw). rewrite <- Hs. auto. }
  assert (held_by_ip held ip' now' <= held_by_ip held ip' now)%nat as Hip.
  { apply filter_length_sub; [done|]. intros a [Ha Hw]. auto. }
  unfold held_by_name, held_by_ip in *. rewrite !filter_app, !length_app, !filter_cons, !filter_nil.
  split; case_decide as Hd; simpl; try lia; simpl in Hd.
  - destruct Hd as (Hk & -> & Hw). specialize (Hname (eq_sym Hk)). lia.
  - destruct Hd as [-> Hw]. lia.
Qed.

Lemma window_run_budgets t held calls username ip now :
  within_budgets t held → in_order t (calls ++ [Reserve username ip now]) →
  within_budgets now (window_run held calls).1.
Proof.
  revert t held. induction calls as [|[u i at_|n] calls IH]; intros t held Hb Ho; simpl in Ho.
  - intros now' u i Hle. apply Hb. lia.
  - destruct Ho as [Hle Ho]. simpl. specialize (IH at_).
    destruct (window_run _ calls) as [held' vs] eqn:Hw. simpl.
    change held' with (held', vs).1. rewrite <- Hw. apply IH; [|done]. case_bool_decide.
    + by eapply within_budgets_grant.
    + intros now' u' i' Hle'. apply Hb. lia.
  - simpl. apply (IH t); [by apply within_budgets_delete | done].
Qed.

(** At no time are more than five attempts of one name from one address, or more
    than twenty attempts of one address, granted within fifteen minutes and not
    refunded. *)
Theorem budgets_hold t calls username ip now :
  Z.of_nat (length calls) < 2 ^ 64 → in_order t (calls ++ [Reserve username ip now]) →
  let held := (limiter_run LoginRateLimiter_new [] calls).1.*1 in
  (held_by_name held username ip now <= USERNAME_FAILURE_LIMIT)%nat ∧
  (held_by_ip held ip now <= IP_FAILURE_LIMIT)%nat.
Proof.
  intros Hlen Ho held.
  assert (in_order t calls) as Ho'.
  { clear -Ho. revert t Ho. induction calls as [|[u i n|n] calls IH]; intros t; simpl; [done| |apply IH].
    intros [Hle Ho]. split; [done | by apply IH]. }
  assert (held = (window_run [] calls).1) as ->.
  { pose proof (limiter_window _ t [] calls (limits_new t _ Hlen) Ho') as Hw. simpl in Hw. by rewrite <- Hw. }
  apply (window_run_budgets t [] calls username ip now); [|done|done].
  intros now' u i _. unfold held_by_name, held_by_ip. simpl. lia.
Qed.
End limiter.

(** ** One bucket per principal *)

Section keys.
Context `{UnicodeCaseLaws}.

Lemma len_utf8_pos c : (0 < len_utf8 c)%N.
Proof. unfold len_utf8. repeat case_match; lia. Qed.

Lemma str_len_app s t : str_len (s ++ t) = (str_len s + str_len t)%N.
Proof. rewrite !str_len_bytes. unfold as_bytes. rewrite fmap_app, concat_app, length_app. lia. Qed.

Lemma str_len_zero s : str_len s = 0%N → s = [].
Proof.
  destruct s as [|c s]; [done|]. change (str_len (c :: s)) with (len_utf8 c + str_len s)%N.
  pose proof (len_utf8_pos c). lia.
Qed.

(** Trimming a text to its own length leaves it as it was. *)
Lemma trim_same_length s : str_len (trim s) = str_len s → trim s = s.
Proof.
  destruct (trim_start_suffix s) as (p & Hs & _).
  destruct (trim_start_suffix (reverse (trim_start s))) as (q & Hq & _).
  assert (trim_start s = trim s ++ reverse q) as Ht.
  { unfold trim, trim_end. rewrite <- (reverse_involutive (trim_start s)) at 1.
    rewrite Hq at 1. by rewrite reverse_app. }
  assert (s = p ++ trim s ++ reverse q) as Hsplit by (rewrite Hs at 1; by rewrite Ht).
  intros Hlen. rewrite Hsplit in Hlen at 2. rewrite !str_len_app in Hlen.
  assert (p = []) as -> by (apply str_len_zero; lia).
  assert (reverse q = []) as Hq0 by (apply str_len_zero; lia).
  rewrite Hq0, app_nil_r in Hsplit. by symmetry.
Qed.

Lemma lowercase_fixed before s :
  Forall (λ c, head (char_to_lowercase c) = Some c) s → to_lowercase_go before s = s.
Proof.
  intros Hs. revert before. induction Hs as [|c s Hc Hs IH]; intros before; [done|]. simpl.
  rewrite decide_False; [by rewrite (lower_fixed _ Hc), IH|]. intros ->. by rewrite lower_sigma in Hc.
Qed.

(** Whatever the case and the padding a principal's name is typed with, it draws
    from the one bucket of that name. *)
Theorem spellings_share_a_bucket username name :
  PrincipalName_parse username = Ok name → bounded_username_key username = name.
Proof.
  intros (Hn & _ & _ & Hlen)%PrincipalName_parse_Ok. unfold bounded_username_key.
  destruct (_ && _) eqn:Hb.
  - apply andb_true_iff in Hb as [_ [Hl Hfix]%andb_true_iff].
    apply N.eqb_eq, trim_same_length in Hl. rewrite Hl in *. unfold to_lowercase in Hn.
    rewrite lowercase_fixed in Hn; [done|]. apply negb_true_iff, existsb_false in Hfix.
    eapply Forall_impl; [exact Hfix|]. intros c Hc. apply bool_decide_eq_false in Hc. by apply dec_stable.
  - rewrite <- Hn. apply take_ge. unfold RATE_LIMIT_USERNAME_CHARS. lia.
Qed.
End keys.
