(* ===== verification/AccountStore.v ===== *)
(** * AccountStore: what the accounts hold and how calls may change them

    The abstract state behind the store methods of [AuthServices]
    ([web/src/auth.rs]): the principals, their roles, password credentials,
    sessions and authenticators, and the one-time codes.  [account_step] is the
    effect of each write; the class [AccountStoreLaws] is what the web server
    relies on, and [AccountRepository] discharges it. *)
From S2P Require Import Prelude Text Database Accounts.
From Stdlib Require Import ZifyBool.
Local Open Scope Z_scope.

(** The six tables, over what their rows hold. *)
Record AccountMaps (P R W S T C : Type) := mk_accounts {
  ac_principals : gmap PrincipalId P;
  ac_roles : gmap PrincipalId R;
  ac_passwords : gmap PrincipalId W;
  ac_sessions : gmap SessionId S;
  ac_totps : gmap TotpAuthenticatorId T;
  ac_codes : gmap BootstrapCodeId C;
}.
Arguments mk_accounts {P R W S T C}.
Arguments ac_principals {P R W S T C}.
Arguments ac_roles {P R W S T C}.
Arguments ac_passwords {P R W S T C}.
Arguments ac_sessions {P R W S T C}.
Arguments ac_totps {P R W S T C}.
Arguments ac_codes {P R W S T C}.

Section maps.
Context {P R W S T C : Type}.
Implicit Types v : AccountMaps P R W S T C.
Definition with_principals v (m : gmap PrincipalId P) :=
  mk_accounts m (ac_roles v) (ac_passwords v) (ac_sessions v) (ac_totps v) (ac_codes v).
Definition with_roles v (m : gmap PrincipalId R) :=
  mk_accounts (ac_principals v) m (ac_passwords v) (ac_sessions v) (ac_totps v) (ac_codes v).
Definition with_passwords v (m : gmap PrincipalId W) :=
  mk_accounts (ac_principals v) (ac_roles v) m (ac_sessions v) (ac_totps v) (ac_codes v).
Definition with_sessions v (m : gmap SessionId S) :=
  mk_accounts (ac_principals v) (ac_roles v) (ac_passwords v) m (ac_totps v) (ac_codes v).
Definition with_totps v (m : gmap TotpAuthenticatorId T) :=
  mk_accounts (ac_principals v) (ac_roles v) (ac_passwords v) (ac_sessions v) m (ac_codes v).
Definition with_codes v (m : gmap BootstrapCodeId C) :=
  mk_accounts (ac_principals v) (ac_roles v) (ac_passwords v) (ac_sessions v) (ac_totps v) m.
End maps.

Abbreviation Accounts :=
  (AccountMaps Principal RoleAssignment PasswordCredential Session TotpAuthenticator BootstrapCode).

(** ** Writes *)

Inductive AccountWrite :=
| CreateSession (s : Session)
| TouchSession (id : SessionId) (at_ : OffsetDateTime)
| RevokeSession (id : SessionId) (at_ : OffsetDateTime)
| RevokeSessionsFor (principal : PrincipalId) (at_ : OffsetDateTime)
| CreatePrincipal (p : Principal)
| SetPrincipalState (id : PrincipalId) (state : PrincipalState) (at_ : OffsetDateTime)
| AssignRole (a : RoleAssignment)
| SavePassword (c : PasswordCredential)
| CreateTotp (a : TotpAuthenticator)
| ActivateTotp (id : TotpAuthenticatorId) (at_ : OffsetDateTime) (step : Z)
| RecordStep (id : TotpAuthenticatorId) (step : Z)
| CreateCode (c : BootstrapCode)
| ConsumeCode (code : BootstrapCodeId) (used_by : PrincipalId) (password : PasswordCredential)
    (authenticator : option TotpAuthenticator) (session : Session) (at_ : OffsetDateTime).

Definition token_free (token : Digest) (m : gmap SessionId Session) : Prop :=
  map_Forall (λ _ s, se_token_hash s ≠ token) m.
Definition name_free (name : str) (m : gmap PrincipalId Principal) : Prop :=
  map_Forall (λ _ p, pr_name p ≠ name) m.

Definition insert_session (m : gmap SessionId Session) (s : Session) : option (gmap SessionId Session) :=
  if decide (token_free (se_token_hash s) m) then insert_new m (se_id s) s else None.

(** The revocation of every session of a principal that is not revoked yet. *)
Definition revoke_for (principal : PrincipalId) (at_ : OffsetDateTime) (s : Session) : Session :=
  if decide (se_principal_id s = principal ∧ se_revoked_at s = None) then Session_revoked_at s at_ else s.

(** A role replaces the one before; the site of a scoped assignment stays. *)
Definition merge_role (old : option RoleAssignment) (a : RoleAssignment) : RoleAssignment :=
  match old with
  | None => a
  | Some o => mk_role_assignment (ra_principal_id a) (ra_role a) (ra_assigned_by a)
                (ra_assigned_at a) (ra_site_id o)
  end.

Definition ok_of {A E} (r : result A E) : option A :=
  match r with Ok a => Some a | Err _ => None end.

Definition account_step (v : Accounts) (w : AccountWrite) : option Accounts :=
  match w with
  | CreateSession s => with_sessions v <$> insert_session (ac_sessions v) s
  | TouchSession id at_ =>
      s ← ac_sessions v !! id; s ← ok_of (Session_touch s at_);
      Some (with_sessions v (<[id := s]> (ac_sessions v)))
  | RevokeSession id at_ =>
      s ← ac_sessions v !! id; s ← ok_of (Session_revoke s at_);
      Some (with_sessions v (<[id := s]> (ac_sessions v)))
  | RevokeSessionsFor principal at_ =>
      Some (with_sessions v (revoke_for principal at_ <$> ac_sessions v))
  | CreatePrincipal p =>
      if decide (name_free (pr_name p) (ac_principals v))
      then with_principals v <$> insert_new (ac_principals v) (pr_id p) p else None
  | SetPrincipalState id state at_ =>
      p ← ac_principals v !! id;
      Some (with_principals v (<[id := Principal_set_state p state at_]> (ac_principals v)))
  | AssignRole a =>
      Some (with_roles v (<[ra_principal_id a := merge_role (ac_roles v !! ra_principal_id a) a]> (ac_roles v)))
  | SavePassword c => Some (with_passwords v (<[pc_principal_id c := c]> (ac_passwords v)))
  | CreateTotp a => with_totps v <$> insert_new (ac_totps v) (ta_id a) a
  | ActivateTotp id at_ step =>
      a ← ac_totps v !! id;
      if step_spent (ta_last_used_step a) step then None
      else Some (with_totps v (<[id := with_step a Active (Some at_) (Some step)]> (ac_totps v)))
  | RecordStep id step =>
      a ← ac_totps v !! id;
      a ← ok_of (TotpAuthenticator_record_step a step);
      Some (with_totps v (<[id := a]> (ac_totps v)))
  | CreateCode c => with_codes v <$> insert_new (ac_codes v) (bc_id c) c
  | ConsumeCode code used_by password authenticator session at_ =>
      c ← ac_codes v !! code; c ← ok_of (BootstrapCode_consume c used_by at_);
      passwords ← insert_new (ac_passwords v) (pc_principal_id password) password;
      totps ← match authenticator with
              | Some a => insert_new (ac_totps v) (ta_id a) a
              | None => Some (ac_totps v)
              end;
      sessions ← insert_session (ac_sessions v) session;
      Some (mk_accounts (ac_principals v) (ac_roles v) passwords sessions totps
              (<[code := c]> (ac_codes v)))
  end.

(** What the types of the written values promise. *)
Definition session_typed (s : Session) : Prop :=
  length (se_token_hash s) = 32%nat ∧ length (se_csrf_hash s) = 32%nat.
Definition password_typed (c : PasswordCredential) : Prop :=
  length (ah_salt (pc_hash c)) = ARGON2ID_SALT_LENGTH ∧ length (ah_hash (pc_hash c)) = ARGON2ID_HASH_LENGTH.
Definition totp_typed (a : TotpAuthenticator) : Prop :=
  length (ta_secret a) = TOTP_SECRET_LENGTH ∧ Forall (λ b, b < 256)%N (ta_secret a) ∧
  ∀ step, ta_last_used_step a = Some step → 0 <= step <= I64_MAX.

Definition write_typed (w : AccountWrite) : Prop :=
  match w with
  | CreateSession s => session_typed s
  | CreatePrincipal p => principal_name (pr_name p)
  | SavePassword c => password_typed c
  | CreateTotp a => totp_typed a
  | ActivateTotp _ _ step | RecordStep _ step => 0 <= step
  | CreateCode c => length (bc_code_hash c) = 32%nat
  | ConsumeCode _ _ password authenticator session _ =>
      password_typed password ∧ session_typed session ∧
      match authenticator with Some a => totp_typed a | None => True end
  | _ => True
  end.

(** What any calls, of any requests, can do. *)
Definition evolves (v v' : Accounts) : Prop := rtc (λ v v', ∃ w, account_step v w = Some v') v v'.

#[export] Instance evolves_preorder : PreOrder evolves.
Proof. split; [intros v; apply rtc_refl|]. intros v1 v2 v3 H1 H2. by apply (transitivity (R := rtc _) H1). Qed.

Fixpoint account_run (v : Accounts) (ws : list AccountWrite) : option Accounts :=
  match ws with
  | [] => Some v
  | w :: ws => v' ← account_step v w; account_run v' ws
  end.

(** ** The contract *)

Inductive SessionRevocation := Revoked | RevocationNotFound | RevocationAlreadyRevoked.

(** The store methods of [AuthServices]. *)
Class AccountStore (St E : Type) := {
  find_session_by_token_hash : Digest → M St E (option Session);
  create_session : Session → M St E ();
  touch_session : SessionId → OffsetDateTime → M St E ();
  revoke_session : SessionId → OffsetDateTime → M St E SessionRevocation;
  revoke_sessions_for_principal : PrincipalId → OffsetDateTime → M St E Z;
  list_sessions : PrincipalId → M St E (list Session);
  find_principal : PrincipalId → M St E (option Principal);
  find_principal_by_name : str → M St E (option Principal);
  list_principals : M St E (list Principal);
  create_principal : Principal → M St E ();
  set_principal_state : PrincipalId → PrincipalState → OffsetDateTime → M St E ();
  assign_role : RoleAssignment → M St E ();
  find_role_assignment : PrincipalId → M St E (option RoleAssignment);
  list_role_assignments : M St E (list RoleAssignment);
  find_password_credential : PrincipalId → M St E (option PasswordCredential);
  save_password_credential : PasswordCredential → M St E ();
  list_totp_authenticators : PrincipalId → M St E (list TotpAuthenticator);
  record_totp_step : TotpAuthenticatorId → Z → M St E bool;
  find_bootstrap_code_by_hash : Digest → M St E (option BootstrapCode);
  has_unconsumed_bootstrap_code : M St E bool;
  consume_bootstrap_code : BootstrapCodeId → PrincipalId → PasswordCredential →
    option TotpAuthenticator → Session → OffsetDateTime → M St E ();
}.

Class AccountStoreLaws (St E : Type) `{AccountStore St E} := {
  accounts : St → Accounts;
  accounts_ok : St → Prop;
  law_sessions_typed s id a :
    accounts_ok s → ac_sessions (accounts s) !! id = Some a → session_typed a;
  law_find_session token s s' r :
    accounts_ok s → find_session_by_token_hash token s = (s', r) →
    reads accounts accounts_ok
      (λ v x, finds (ac_sessions v) (λ a, se_token_hash a = token) x) s s' r;
  law_create_session a s s' r :
    accounts_ok s → write_typed (CreateSession a) → create_session a s = (s', r) →
    writes accounts accounts_ok (λ v v', account_step v (CreateSession a) = Some v') s s' r;
  law_touch_session id at_ s s' r :
    accounts_ok s → touch_session id at_ s = (s', r) →
    writes accounts accounts_ok (λ v v', account_step v (TouchSession id at_) = Some v') s s' r;
  law_revoke_session id at_ s s' r :
    accounts_ok s → revoke_session id at_ s = (s', r) →
    accounts_ok s' ∧
    match r with
    | Ok Revoked => account_step (accounts s) (RevokeSession id at_) = Some (accounts s')
    | Ok RevocationNotFound => accounts s' = accounts s ∧ ac_sessions (accounts s) !! id = None
    | Ok RevocationAlreadyRevoked => accounts s' = accounts s ∧
        ∃ a, ac_sessions (accounts s) !! id = Some a ∧ is_Some (se_revoked_at a)
    | Err _ => accounts s' = accounts s
    end;
  law_revoke_sessions_for p at_ s s' r :
    accounts_ok s → revoke_sessions_for_principal p at_ s = (s', r) →
    accounts_ok s' ∧
    match r with
    | Ok _ => account_step (accounts s) (RevokeSessionsFor p at_) = Some (accounts s')
    | Err _ => accounts s' = accounts s
    end;
  law_list_sessions p s s' r :
    accounts_ok s → list_sessions p s = (s', r) →
    reads accounts accounts_ok
      (λ v l, lists (ac_sessions v) se_id (λ a, se_principal_id a = p) l) s s' r;
  law_find_principal id s s' r :
    accounts_ok s → find_principal id s = (s', r) →
    reads accounts accounts_ok (λ v x, x = ac_principals v !! id) s s' r;
  law_find_by_name name s s' r :
    accounts_ok s → find_principal_by_name name s = (s', r) →
    reads accounts accounts_ok
      (λ v x, finds (ac_principals v) (λ a, pr_name a = name) x) s s' r;
  law_list_principals s s' r :
    accounts_ok s → list_principals s = (s', r) →
    reads accounts accounts_ok (λ v l, lists (ac_principals v) pr_id (λ _, True) l) s s' r;
  law_create_principal p s s' r :
    accounts_ok s → write_typed (CreatePrincipal p) → create_principal p s = (s', r) →
    writes accounts accounts_ok (λ v v', account_step v (CreatePrincipal p) = Some v') s s' r;
  law_set_state id st at_ s s' r :
    accounts_ok s → set_principal_state id st at_ s = (s', r) →
    writes accounts accounts_ok (λ v v', account_step v (SetPrincipalState id st at_) = Some v') s s' r;
  law_assign_role a s s' r :
    accounts_ok s → assign_role a s = (s', r) →
    writes accounts accounts_ok (λ v v', account_step v (AssignRole a) = Some v') s s' r;
  law_find_role id s s' r :
    accounts_ok s → find_role_assignment id s = (s', r) →
    reads accounts accounts_ok (λ v x, x = ac_roles v !! id) s s' r;
  law_list_roles s s' r :
    accounts_ok s → list_role_assignments s = (s', r) →
    reads accounts accounts_ok (λ v l, lists (ac_roles v) ra_principal_id (λ _, True) l) s s' r;
  law_find_password id s s' r :
    accounts_ok s → find_password_credential id s = (s', r) →
    reads accounts accounts_ok (λ v x, x = ac_passwords v !! id) s s' r;
  law_save_password c s s' r :
    accounts_ok s → write_typed (SavePassword c) → save_password_credential c s = (s', r) →
    writes accounts accounts_ok (λ v v', account_step v (SavePassword c) = Some v') s s' r;
  law_list_totps p s s' r :
    accounts_ok s → list_totp_authenticators p s = (s', r) →
    reads accounts accounts_ok
      (λ v l, lists (ac_totps v) ta_id (λ a, ta_principal_id a = p) l) s s' r;
  law_record_step id step s s' r :
    accounts_ok s → write_typed (RecordStep id step) → record_totp_step id step s = (s', r) →
    accounts_ok s' ∧
    match r with
    | Ok true => account_step (accounts s) (RecordStep id step) = Some (accounts s')
    | Ok false => accounts s' = accounts s ∧ account_step (accounts s) (RecordStep id step) = None
    | Err _ => accounts s' = accounts s
    end;
  law_find_code hash s s' r :
    accounts_ok s → find_bootstrap_code_by_hash hash s = (s', r) →
    reads accounts accounts_ok (λ v x, finds (ac_codes v) (λ c, bc_code_hash c = hash) x) s s' r;
  law_unconsumed s s' r :
    accounts_ok s → has_unconsumed_bootstrap_code s = (s', r) →
    reads accounts accounts_ok
      (λ v b, b = true ↔ ∃ id c, ac_codes v !! id = Some c ∧ bc_used_at c = None) s s' r;
  law_consume code used_by password authenticator session at_ s s' r :
    accounts_ok s → write_typed (ConsumeCode code used_by password authenticator session at_) → consume_bootstrap_code code used_by password authenticator session at_ s = (s', r) →
    writes accounts accounts_ok (λ v v',
      account_step v (ConsumeCode code used_by password authenticator session at_) = Some v') s s' r;
}.

(** ** How the accounts evolve *)

(** Every row is under its identity, and no two sessions share a token. *)
Record keyed (v : Accounts) : Prop := {
  keyed_sessions id s : ac_sessions v !! id = Some s → se_id s = id;
  keyed_tokens id id' s s' : ac_sessions v !! id = Some s → ac_sessions v !! id' = Some s' →
    se_token_hash s = se_token_hash s' → id = id';
}.

(** The same sign-in: nothing but its activity and its revocation changes. *)
Definition same_session (s s' : Session) : Prop :=
  se_id s' = se_id s ∧ se_principal_id s' = se_principal_id s ∧
  se_token_hash s' = se_token_hash s ∧ se_csrf_hash s' = se_csrf_hash s ∧
  se_created_at s' = se_created_at s ∧ se_expires_at s' = se_expires_at s.

(** A session only ages: it stays, and it stays revoked. *)
Definition session_ages (s s' : Session) : Prop :=
  same_session s s' ∧ ∀ r, se_revoked_at s = Some r → se_revoked_at s' = Some r.

#[export] Instance session_ages_preorder : PreOrder session_ages.
Proof.
  split; [by split; [|auto]|]. intros s1 s2 s3 [H12 Hr12] [H23 Hr23].
  split; [unfold same_session in *; intuition congruence | auto].
Qed.

Lemma touch_ages s at_ s' : Session_touch s at_ = Ok s' → session_ages s s'.
Proof. unfold Session_touch. case_decide; [done|]. intros [= <-]. by split; [|auto]. Qed.

Lemma revoke_ages s at_ s' : Session_revoke s at_ = Ok s' → session_ages s s'.
Proof.
  unfold Session_revoke. destruct (se_revoked_at s) eqn:Hr; [done|]. case_decide; [done|].
  intros [= <-]. split; [done|]. by rewrite Hr.
Qed.

Lemma revoke_for_ages p at_ s : session_ages s (revoke_for p at_ s).
Proof.
  unfold revoke_for. case_decide as Hd; [|done]. destruct Hd as [_ Hr].
  split; [done|]. by rewrite Hr.
Qed.

Lemma ok_of_Some {A E} (r : result A E) a : ok_of r = Some a ↔ r = Ok a.
Proof. destruct r; simpl; naive_solver. Qed.

Lemma insert_session_Some m m' s :
  insert_session m s = Some m' ↔
  token_free (se_token_hash s) m ∧ m !! se_id s = None ∧ m' = <[se_id s := s]> m.
Proof. unfold insert_session. case_decide; [rewrite insert_new_Some|]; naive_solver. Qed.

(** Splits a successful step of the accounts into its cases. *)
Ltac inv_step H :=
  simpl in H;
  repeat match type of H with
  | context [decide (name_free ?n ?m)] => destruct (decide (name_free n m)); simpl in H; [|discriminate H]
  end;
  repeat (rewrite ?bind_Some, ?fmap_Some in H; destruct_and?;
    match type of H with ∃ _, _ => let x := fresh "x" in let Hx := fresh "Hx" in destruct H as (x & Hx & H) end);
  rewrite ?ok_of_Some in *; rewrite ?insert_new_Some in *; rewrite ?insert_session_Some in *;
  destruct_and?; simplify_eq/=.

(** What a write does to the sessions: ages them, and may add one with a new
    identity and a new token. *)
Definition sessions_evolve (m m' : gmap SessionId Session) : Prop :=
  (∀ id s, m !! id = Some s → ∃ s', m' !! id = Some s' ∧ session_ages s s') ∧
  ∀ id s', m' !! id = Some s' → m !! id = None → se_id s' = id ∧ token_free (se_token_hash s') m ∧
    ∀ id' s'', m' !! id' = Some s'' → m !! id' = None → id' = id.

Lemma sessions_evolve_refl m : sessions_evolve m m.
Proof.
  split; [|intros; congruence]. intros id s Hs. by exists s.
Qed.

Lemma sessions_evolve_insert m s :
  token_free (se_token_hash s) m → m !! se_id s = None → sessions_evolve m (<[se_id s := s]> m).
Proof.
  intros Hfree Hnone. split.
  - intros id s0 H0. exists s0. split; [|done]. by rewrite lookup_insert_ne by congruence.
  - intros id s' [[<- <-]|[? ?]]%lookup_insert_Some Hid; [|congruence]. split; [done|]. split; [done|].
    intros id' s'' [[<- <-]|[? ?]]%lookup_insert_Some ?; congruence.
Qed.

Lemma sessions_evolve_update m id s s' :
  m !! id = Some s → session_ages s s' → sessions_evolve m (<[id := s']> m).
Proof.
  intros Hs Ha. split.
  - intros id0 s0 H0. destruct (decide (id0 = id)) as [->|Hne].
    + rewrite lookup_insert_eq. simplify_eq. eauto.
    + rewrite lookup_insert_ne by done. by exists s0.
  - intros id0 s0 [[<- <-]|[? ?]]%lookup_insert_Some ?; congruence.
Qed.

Lemma step_sessions v w v' :
  account_step v w = Some v' → sessions_evolve (ac_sessions v) (ac_sessions v').
Proof.
  destruct w; intros Hw.
  4: { injection Hw as <-. simpl. split.
    - intros i s Hs. rewrite lookup_fmap, Hs. eexists. split; [done|]. apply revoke_for_ages.
    - intros i s'. rewrite lookup_fmap. by intros (? & ? & ?)%fmap_Some ?; congruence. }
  all: try (injection Hw as <-; apply sessions_evolve_refl).
  all: inv_step Hw; try apply sessions_evolve_refl.
  all: try (by apply sessions_evolve_insert).
  - by eapply sessions_evolve_update, touch_ages.
  - by eapply sessions_evolve_update, revoke_ages.
  - destruct (step_spent _ _); simplify_eq/=. apply sessions_evolve_refl.
Qed.

Lemma step_keyed v w v' : keyed v → account_step v w = Some v' → keyed v'.
Proof.
  intros [Hid Htok] [Hold Hnew]%step_sessions.
  assert (∀ id s', ac_sessions v' !! id = Some s' → se_id s' = id) as Hid'.
  { intros id s' Hs'. destruct (ac_sessions v !! id) as [s|] eqn:Hs; [|by destruct (Hnew _ _ Hs' Hs)].
    destruct (Hold _ _ Hs) as (s2 & Hs2 & [[He _] _]). simplify_eq. rewrite He. eauto. }
  split; [done|]. intros id1 id2 s1 s2 H1 H2 Heq.
  destruct (ac_sessions v !! id1) as [o1|] eqn:Ho1, (ac_sessions v !! id2) as [o2|] eqn:Ho2.
  - destruct (Hold _ _ Ho1) as (? & ? & [(_ & _ & Ht1 & _) _]), (Hold _ _ Ho2) as (? & ? & [(_ & _ & Ht2 & _) _]).
    simplify_eq. eapply Htok; [done..|congruence].
  - destruct (Hold _ _ Ho1) as (? & ? & [(_ & _ & Ht1 & _) _]). simplify_eq.
    destruct (Hnew _ _ H2 Ho2) as (_ & Hf & _). exfalso. apply (Hf _ _ Ho1). congruence.
  - destruct (Hold _ _ Ho2) as (? & ? & [(_ & _ & Ht2 & _) _]). simplify_eq.
    destruct (Hnew _ _ H1 Ho1) as (_ & Hf & _). exfalso. apply (Hf _ _ Ho2). congruence.
  - destruct (Hnew _ _ H2 Ho2) as (_ & _ & Hu). by eapply Hu.
Qed.

Lemma evolves_keyed v v' : evolves v v' → keyed v → keyed v'.
Proof. induction 1 as [|v v1 v2 [w Hw] _ IH]; [done|]. intros Hk. eapply IH, step_keyed; done. Qed.

(** A session once made is never forgotten, handed over, prolonged or revived. *)
Lemma evolves_session v v' id s :
  evolves v v' → ac_sessions v !! id = Some s →
  ∃ s', ac_sessions v' !! id = Some s' ∧ session_ages s s'.
Proof.
  intros Hev. revert s. induction Hev as [|v v1 v2 [w Hw] _ IH]; intros s Hs; [by exists s|].
  apply step_sessions in Hw as [Hold _]. destruct (Hold _ _ Hs) as (s1 & Hs1 & Ha).
  destruct (IH _ Hs1) as (s2 & Hs2 & Ha'). exists s2. split; [done|]. by trans s1.
Qed.

Lemma inactive_ages s s' t t' :
  session_ages s s' → t <= t' → Session_is_active s t = false → Session_is_active s' t' = false.
Proof.
  intros [(_ & _ & _ & _ & _ & He) Hr] Hle. unfold Session_is_active. rewrite He.
  destruct (se_revoked_at s) as [r|]; [by rewrite (Hr _ eq_refl)|]. simpl.
  intros Hx. apply andb_false_intro2. lia.
Qed.

(** Once the session of a token is revoked or expired, the token never again
    names an active session, whatever any request does. *)
Theorem dead_tokens_stay_dead v v' id s s' id' t t' :
  keyed v → evolves v v' → t <= t' →
  ac_sessions v !! id = Some s → Session_is_active s t = false →
  ac_sessions v' !! id' = Some s' → se_token_hash s' = se_token_hash s →
  Session_is_active s' t' = false.
Proof.
  intros Hk Hev Hle Hs Hdead Hs' Htok.
  destruct (evolves_session _ _ _ _ Hev Hs) as (s2 & Hs2 & Ha).
  assert (id' = id) as ->.
  { destruct (evolves_keyed _ _ Hev Hk) as [_ Ht]. eapply Ht; [done..|].
    destruct Ha as [(_ & _ & Ht2 & _) _]. congruence. }
  simplify_eq. by eapply inactive_ages.
Qed.

(** *** One-time codes *)

(** The steps recorded for an authenticator along a run. *)
Definition steps_of (id : TotpAuthenticatorId) (ws : list AccountWrite) : list Z :=
  omap (λ w, match w with
             | RecordStep i step | ActivateTotp i _ step => if decide (i = id) then Some step else None
             | _ => None
             end) ws.

Definition last_step (v : Accounts) (id : TotpAuthenticatorId) : option Z :=
  ac_totps v !! id ≫= ta_last_used_step.

Lemma step_last_step v w v' id :
  account_step v w = Some v' → is_Some (ac_totps v !! id) →
  is_Some (ac_totps v' !! id) ∧
  match steps_of id [w] with
  | [] => last_step v' id = last_step v id
  | step :: _ => last_step v' id = Some step ∧ step_spent (last_step v id) step = false
  end.
Proof.
  intros Hw [a Ha]. unfold last_step. destruct w; simpl.
  all: try (injection Hw as <-; simpl; by rewrite Ha; eauto).
  all: inv_step Hw; try (by rewrite Ha; eauto).
  - rewrite lookup_insert_ne by congruence. by rewrite Ha; eauto.
  - destruct (step_spent _ _) eqn:Hsp; [done|]. injection Hw as <-. simpl.
    case_decide as Hd; [subst|].
    + rewrite lookup_insert_eq, Ha. simpl. simplify_eq. eauto.
    + rewrite lookup_insert_ne, Ha by done. eauto.
  - match goal with H : TotpAuthenticator_record_step _ _ = _ |- _ =>
      unfold TotpAuthenticator_record_step in H; destruct (step_spent _ _) eqn:Hsp; [done|];
      injection H as <- end.
    case_decide as Hd; [subst|].
    + rewrite lookup_insert_eq, Ha. simpl. simplify_eq. eauto.
    + rewrite lookup_insert_ne, Ha by done. eauto.
  - destruct authenticator as [b|]; simplify_eq/=; [|by rewrite Ha; eauto].
    rewrite insert_new_Some in *. destruct_and?. simplify_eq/=.
    rewrite lookup_insert_ne, Ha by congruence. eauto.
Qed.

(** The steps accepted for an authenticator strictly increase: no step, and so no
    code, is accepted twice, however the requests interleave. *)
Theorem totp_steps_increase v ws v' id :
  account_run v ws = Some v' → is_Some (ac_totps v !! id) →
  StronglySorted Z.lt (steps_of id ws) ∧
  ∀ last, last_step v id = Some last → Forall (Z.lt last) (steps_of id ws).
Proof.
  revert v. induction ws as [|w ws IH]; intros v Hrun Hsome; [by split; constructor|].
  simpl in Hrun. apply bind_Some in Hrun as (v1 & Hw & Hrun).
  destruct (step_last_step _ _ _ _ Hw Hsome) as [Hsome1 Hlast].
  destruct (IH _ Hrun Hsome1) as [Hs Hf].
  change (w :: ws) with ([w] ++ ws). unfold steps_of in *. rewrite omap_app.
  destruct (omap _ [w]) as [|step rest] eqn:Ho.
  - split; [done|]. intros last Hl. apply Hf. by rewrite Hlast.
  - assert (rest = []) as -> by (simpl in Ho; destruct w; repeat case_decide; simplify_eq/=; done).
    destruct Hlast as [Hlast Hfresh]. specialize (Hf _ Hlast). split; [by constructor|].
    intros last Hl. rewrite Hl in Hfresh. simpl in Hfresh. constructor; [lia|].
    eapply Forall_impl; [exact Hf|]. simpl. lia.
Qed.

Definition claims_of (ws : list AccountWrite) : list BootstrapCodeId :=
  omap (λ w, match w with ConsumeCode code _ _ _ _ _ => Some code | _ => None end) ws.

Definition code_used (v : Accounts) (code : BootstrapCodeId) : Prop :=
  ∃ c, ac_codes v !! code = Some c ∧ is_Some (bc_used_at c).

Lemma step_codes v w v' :
  account_step v w = Some v' →
  (∀ code, code_used v code → code_used v' code) ∧
  ∀ code, code ∈ claims_of [w] → ¬ code_used v code ∧ code_used v' code.
Proof.
  unfold code_used. intros Hw. destruct w.
  all: try (injection Hw as <-; simpl; split; [done|]; intros ? []%elem_of_nil).
  all: inv_step Hw; try (split; [done|]; intros ? []%elem_of_nil).
  - destruct (step_spent _ _); simplify_eq/=. split; [done|]. intros ? []%elem_of_nil.
  - split; [|intros ? []%elem_of_nil]. intros k (c' & Hc' & Hu). exists c'.
    rewrite lookup_insert_ne by congruence. done.
  - match goal with H : BootstrapCode_consume _ _ _ = _ |- _ =>
      unfold BootstrapCode_consume in H; destruct (bc_used_at _) eqn:Hu; [done|]; injection H as <- end.
    split.
    + intros k (c' & Hc' & Hu'). destruct (decide (k = code)) as [->|Hne].
      * rewrite lookup_insert_eq. eexists. split; [done|]. simpl. eauto.
      * rewrite lookup_insert_ne by done. eauto.
    + intros k [->|[]%elem_of_nil]%elem_of_cons. split.
      * intros (c' & Hc' & Hu'). simplify_eq. rewrite Hu in Hu'. by destruct Hu'.
      * rewrite lookup_insert_eq. eexists. split; [done|]. simpl. eauto.
Qed.

(** A bootstrap code is consumed at most once. *)
Theorem bootstrap_code_once v ws v' :
  account_run v ws = Some v' →
  NoDup (claims_of ws) ∧ ∀ code, code ∈ claims_of ws → ¬ code_used v code ∧ code_used v' code.
Proof.
  revert v. induction ws as [|w ws IH]; intros v Hrun.
  { split; [constructor|]. intros ? []%elem_of_nil. }
  simpl in Hrun. apply bind_Some in Hrun as (v1 & Hw & Hrun).
  destruct (IH _ Hrun) as [Hnd Hcl]. destruct (step_codes _ _ _ Hw) as [Hkeep Hnew].
  assert (∀ ws v v', account_run v ws = Some v' → ∀ code, code_used v code → code_used v' code) as Hrun_keep.
  { clear. intros ws. induction ws as [|w ws IH]; intros v v' Hrun code Hu; simpl in Hrun; [by simplify_eq|].
    apply bind_Some in Hrun as (v1 & Hw & Hrun). eapply IH; [done|].
    destruct (step_codes _ _ _ Hw) as [Hk _]. by apply Hk. }
  change (w :: ws) with ([w] ++ ws). unfold claims_of in *. rewrite omap_app. split.
  - apply NoDup_app. split; [|split; [|done]].
    + simpl. destruct w; repeat constructor; apply not_elem_of_nil.
    + intros code Hin Hin'. apply Hcl in Hin' as [Hn _]. apply Hn. by apply Hnew.
  - intros code [Hin|Hin]%elem_of_app.
    + apply Hnew in Hin as [Hn Hu]. split; [done|]. by eapply Hrun_keep.
    + apply Hcl in Hin as [Hn Hu]. split; [|done]. intros Hx. by apply Hn, Hkeep.
Qed.
