(* ===== verification/AccountRepository.v ===== *)
(** * AccountRepository: the account tables in SQLite

    Models [persistence/src/principal_repository.rs], [password_repository.rs],
    [session_repository.rs], [totp_repository.rs] and [bootstrap_repository.rs]
    over the entities of [entity/src], and, as [app/src/standalone_runtime.rs]
    answers from them, discharges the contract of [AccountStore].  Nothing in the program deletes a principal, and a foreign key
    that is not met is one of the failures the environment may report. *)
From S2P Require Import Prelude Text Operation CommandCipher Database Accounts AccountStore.
Local Open Scope Z_scope.

(** ** Rows *)

Record principal_model := mk_principal_model {
  pm_id : Uuid;
  pm_name : str;
  pm_state : str;
  pm_created_at : OffsetDateTime;
  pm_updated_at : OffsetDateTime;
}.
Record role_assignment_model := mk_role_model {
  rl_principal_id : Uuid;
  rl_role : str;
  rl_assigned_by : option Uuid;
  rl_assigned_at : OffsetDateTime;
  rl_site_id : option Uuid;
}.
Record password_credential_model := mk_password_model {
  wm_principal_id : Uuid;
  wm_hash_format : str;
  wm_salt : list N;
  wm_hash : list N;
  wm_changed_at : OffsetDateTime;
}.
Record session_model := mk_session_model {
  sm_id : Uuid;
  sm_principal_id : Uuid;
  sm_token_hash : list N;
  sm_csrf_hash : list N;
  sm_created_at : OffsetDateTime;
  sm_last_used_at : OffsetDateTime;
  sm_expires_at : OffsetDateTime;
  sm_revoked_at : option OffsetDateTime;
}.
Record totp_authenticator_model := mk_totp_model {
  tm_id : Uuid;
  tm_principal_id : Uuid;
  tm_secret : list N;
  tm_state : str;
  tm_algorithm : str;
  tm_digits : Z;
  tm_period : Z;
  tm_created_at : OffsetDateTime;
  tm_activated_at : option OffsetDateTime;
  tm_last_used_step : option Z;
}.
Record bootstrap_code_model := mk_code_model {
  cm_id : Uuid;
  cm_code_hash : list N;
  cm_created_at : OffsetDateTime;
  cm_used_at : option OffsetDateTime;
  cm_used_by : option Uuid;
}.

Abbreviation AccountTables :=
  (AccountMaps principal_model role_assignment_model password_credential_model session_model
     totp_authenticator_model bootstrap_code_model).

(** ** Errors *)

Inductive StoredPrincipalError :=
| StoredInvalidName (source : PrincipalNameError)
| StoredInvalidPrincipalState
| StoredPrincipalTimeline
| StoredInvalidRole.
Inductive PrincipalRepositoryError :=
| PrincipalCoordinate
| PrincipalNotFound (principal_id : PrincipalId)
| DuplicateName (name : str)
| PrincipalCorrupt (principal_id : PrincipalId) (source : StoredPrincipalError)
| CorruptAssignment (principal_id : PrincipalId) (source : StoredPrincipalError)
| PrincipalDatabase.
#[export] Instance principal_errors : DbErrors PrincipalRepositoryError :=
  { err_coordinate := PrincipalCoordinate; err_database := PrincipalDatabase }.

Inductive PasswordRepositoryError :=
| PasswordCoordinate
| PasswordCorrupt (principal_id : PrincipalId) (source : PasswordCredentialError)
| PasswordDatabase.
#[export] Instance password_errors : DbErrors PasswordRepositoryError :=
  { err_coordinate := PasswordCoordinate; err_database := PasswordDatabase }.

Inductive StoredSessionError :=
| StoredTokenHash
| StoredCsrfHash
| StoredSessionTimeline (source : SessionRestoreError).
Inductive SessionRepositoryError :=
| SessionCoordinate
| SessionNotFound (session_id : SessionId)
| TokenHashTaken
| SessionWasRevoked (session_id : SessionId)
| StaleTouch (session_id : SessionId)
| SessionCorrupt (session_id : SessionId) (source : StoredSessionError)
| SessionDatabase.
#[export] Instance session_errors : DbErrors SessionRepositoryError :=
  { err_coordinate := SessionCoordinate; err_database := SessionDatabase }.

Inductive StoredTotpError :=
| StoredTotpState
| StoredTotpShape (source : TotpRestoreError)
| StoredTotpStep
| StoredTotpSecret (source : CredentialProtectionError).
Inductive TotpRepositoryError :=
| TotpCoordinate
| TotpNotFound (authenticator_id : TotpAuthenticatorId)
| StaleStep (authenticator_id : TotpAuthenticatorId)
| StepOutOfRange (authenticator_id : TotpAuthenticatorId)
| TotpProtect (source : CredentialProtectionError)
| TotpCorrupt (authenticator_id : TotpAuthenticatorId) (source : StoredTotpError)
| TotpDatabase.
#[export] Instance totp_errors : DbErrors TotpRepositoryError :=
  { err_coordinate := TotpCoordinate; err_database := TotpDatabase }.

Inductive BootstrapRepositoryError :=
| BootstrapCoordinate
| BootstrapNotFound (code_id : BootstrapCodeId)
| BootstrapAlreadyUsed (code_id : BootstrapCodeId)
| BootstrapCorrupt (code_id : BootstrapCodeId) (source : BootstrapCodeError)
| BootstrapProtect (source : CredentialProtectionError)
| BootstrapDatabase.
#[export] Instance bootstrap_errors : DbErrors BootstrapRepositoryError :=
  { err_coordinate := BootstrapCoordinate; err_database := BootstrapDatabase }.

(** ** Sessions *)

(** [active_model]. *)
Definition session_row (s : Session) : session_model :=
  mk_session_model (se_id s) (se_principal_id s) (se_token_hash s) (se_csrf_hash s) (se_created_at s)
    (se_last_used_at s) (se_expires_at s) (se_revoked_at s).

Definition map_stored_session (session_id : SessionId) (m : session_model)
    : result Session SessionRepositoryError :=
  if decide (length (sm_token_hash m) ≠ 32%nat) then Err (SessionCorrupt session_id StoredTokenHash)
  else if decide (length (sm_csrf_hash m) ≠ 32%nat) then Err (SessionCorrupt session_id StoredCsrfHash)
  else map_err (λ e, SessionCorrupt session_id (StoredSessionTimeline e))
    (Session_try_from_parts session_id (sm_principal_id m) (sm_token_hash m) (sm_csrf_hash m)
       (sm_created_at m) (sm_last_used_at m) (sm_expires_at m) (sm_revoked_at m)).

Definition session_model_le (l r : session_model) : Prop := sm_created_at l <= sm_created_at r.
#[export] Instance session_model_le_dec : RelDecision session_model_le.
Proof. intros l r. unfold session_model_le. apply _. Defined.

(** [INSERT INTO sessions] under its primary key and its unique token hash. *)
Definition insert_session_row (s : Session) (t : AccountTables) : option (AccountTables * ()) :=
  if decide (map_Forall (λ _ m, sm_token_hash m ≠ se_token_hash s) (ac_sessions t))
  then (λ m, (with_sessions t m, ())) <$> insert_new (ac_sessions t) (se_id s) (session_row s)
  else None.

Section sessions.
Context (env : Env).
Abbreviation Repo := (M (World AccountTables) SessionRepositoryError).

Definition sqlite_create_session (s : Session) : Repo () :=
  do! acquire env in
  transaction env (constrained env TokenHashTaken (insert_session_row s)).

Definition sqlite_find_session_by_token_hash (token : Digest) : Repo (option Session) :=
  let! row := select env (λ t, find_row (λ m, sm_token_hash m = token) (ac_sessions t)) in
  match row with
  | None => mret None
  | Some m => let! s := mlift (map_stored_session (sm_id m) m) in mret (Some s)
  end.

Definition sqlite_list_sessions (principal_id : PrincipalId) : Repo (list Session) :=
  let! models := select env
    (λ t, rows session_model_le (λ m, sm_principal_id m = principal_id) (ac_sessions t)) in
  mtraverse (λ m, mlift (map_stored_session (sm_id m) m)) models.

(** [find_by_id(..).one(..)?.ok_or(NotFound)?] and [map_stored_session]. *)
Definition load_session (session_id : SessionId) : Repo Session :=
  let! row := select env (λ t : AccountTables, ac_sessions t !! session_id) in
  let! m := mlift (ok_or row (SessionNotFound session_id)) in
  mlift (map_stored_session session_id m).

Definition update_session_row (s : Session) : Repo () :=
  statement env (λ t, Some (with_sessions t (<[se_id s := session_row s]> (ac_sessions t)), ())).

Definition sqlite_touch_session (session_id : SessionId) (at_ : OffsetDateTime) : Repo () :=
  do! acquire env in
  transaction env (
    let! domain := load_session session_id in
    let! domain := mlift (map_err (λ _, StaleTouch session_id) (Session_touch domain at_)) in
    update_session_row domain).

Definition sqlite_revoke_session (session_id : SessionId) (at_ : OffsetDateTime) : Repo () :=
  do! acquire env in
  transaction env (
    let! domain := load_session session_id in
    let! domain := mlift (map_err (λ e, match e with
        | SessionAlreadyRevoked => SessionWasRevoked session_id
        | SessionTimeline => SessionCorrupt session_id (StoredSessionTimeline SessionInvalidTimeline)
        end) (Session_revoke domain at_)) in
    update_session_row domain).

Definition revoked_row (principal_id : PrincipalId) (at_ : OffsetDateTime) (m : session_model)
    : session_model :=
  if decide (sm_principal_id m = principal_id ∧ sm_revoked_at m = None)
  then mk_session_model (sm_id m) (sm_principal_id m) (sm_token_hash m) (sm_csrf_hash m)
         (sm_created_at m) (sm_last_used_at m) (sm_expires_at m) (Some at_)
  else m.

(** One conditional [UPDATE]; the answer counts its rows. *)
Definition sqlite_revoke_sessions_for (principal_id : PrincipalId) (at_ : OffsetDateTime) : Repo Z :=
  do! acquire env in
  statement env (λ t : AccountTables,
    Some (with_sessions t (revoked_row principal_id at_ <$> ac_sessions t),
          Z.of_nat (length (filter (λ m, sm_principal_id m = principal_id ∧ sm_revoked_at m = None)
                              (map_to_list (ac_sessions t)).*2)))).

(** [StandaloneState::revoke_session]: the settled states are answers. *)
Definition classified_revoke_session (session_id : SessionId) (at_ : OffsetDateTime)
    : Repo SessionRevocation :=
  λ w, match sqlite_revoke_session session_id at_ w with
       | (w', Ok _) => (w', Ok Revoked)
       | (w', Err (SessionNotFound _)) => (w', Ok RevocationNotFound)
       | (w', Err (SessionWasRevoked _)) => (w', Ok RevocationAlreadyRevoked)
       | (w', Err e) => (w', Err e)
       end.
End sessions.

(** ** Principals and roles *)

Section principals.
Context (env : Env) `{UnicodeCase}.
Abbreviation Repo := (M (World AccountTables) PrincipalRepositoryError).

Definition principal_row (p : Principal) : principal_model :=
  mk_principal_model (pr_id p) (pr_name p) (PrincipalState_as_str (pr_state p)) (pr_created_at p)
    (pr_updated_at p).

Definition map_stored_principal (principal_id : PrincipalId) (m : principal_model)
    : result Principal PrincipalRepositoryError :=
  let? name := map_err (λ e, PrincipalCorrupt principal_id (StoredInvalidName e))
    (PrincipalName_parse (pm_name m)) in
  let? state := map_err (λ _, PrincipalCorrupt principal_id StoredInvalidPrincipalState)
    (PrincipalState_from_str (pm_state m)) in
  map_err (λ _, PrincipalCorrupt principal_id StoredPrincipalTimeline)
    (Principal_try_from_parts principal_id name state (pm_created_at m) (pm_updated_at m)).

Definition insert_principal_row (p : Principal) (t : AccountTables) : option (AccountTables * ()) :=
  if decide (map_Forall (λ _ m, pm_name m ≠ pr_name p) (ac_principals t))
  then (λ m, (with_principals t m, ())) <$> insert_new (ac_principals t) (pr_id p) (principal_row p)
  else None.

Definition sqlite_create_principal (p : Principal) : Repo () :=
  do! acquire env in
  transaction env (constrained env (DuplicateName (pr_name p)) (insert_principal_row p)).

Definition sqlite_find_principal (principal_id : PrincipalId) : Repo (option Principal) :=
  let! row := select env (λ t : AccountTables, ac_principals t !! principal_id) in
  match row with
  | None => mret None
  | Some m => let! p := mlift (map_stored_principal principal_id m) in mret (Some p)
  end.

Definition sqlite_find_principal_by_name (name : str) : Repo (option Principal) :=
  let! row := select env (λ t, find_row (λ m, pm_name m = name) (ac_principals t)) in
  match row with
  | None => mret None
  | Some m => let! p := mlift (map_stored_principal (pm_id m) m) in mret (Some p)
  end.

Definition principal_model_le (l r : principal_model) : Prop :=
  pm_created_at l < pm_created_at r ∨
  (pm_created_at l = pm_created_at r ∧ (pm_id l ≤ pm_id r)%N).
#[export] Instance principal_model_le_dec : RelDecision principal_model_le.
Proof. intros l r. unfold principal_model_le. apply _. Defined.

Definition sqlite_list_principals : Repo (list Principal) :=
  let! models := select env (λ t, rows principal_model_le (λ _, True) (ac_principals t)) in
  mtraverse (λ m, mlift (map_stored_principal (pm_id m) m)) models.

Definition sqlite_set_principal_state (principal_id : PrincipalId) (state : PrincipalState)
    (at_ : OffsetDateTime) : Repo () :=
  do! acquire env in
  transaction env (
    let! row := select env (λ t : AccountTables, ac_principals t !! principal_id) in
    let! m := mlift (ok_or row (PrincipalNotFound principal_id)) in
    statement env (λ t, Some (with_principals t (<[principal_id :=
      mk_principal_model (pm_id m) (pm_name m) (PrincipalState_as_str state) (pm_created_at m) at_]>
      (ac_principals t)), ()))).

(** The conflict clause updates the role, the assigner and the time. *)
Definition upsert_role (a : RoleAssignment) (old : option role_assignment_model) : role_assignment_model :=
  mk_role_model (ra_principal_id a) (Role_as_str (ra_role a)) (ra_assigned_by a) (ra_assigned_at a)
    (match old with None => ra_site_id a | Some o => rl_site_id o end).

Definition sqlite_assign_role (a : RoleAssignment) : Repo () :=
  do! acquire env in
  statement env (λ t, Some (with_roles t (<[ra_principal_id a :=
    upsert_role a (ac_roles t !! ra_principal_id a)]> (ac_roles t)), ())).

Definition map_stored_assignment (principal_id : PrincipalId) (m : role_assignment_model)
    : result RoleAssignment PrincipalRepositoryError :=
  let? role := map_err (λ _, CorruptAssignment principal_id StoredInvalidRole)
    (Role_from_str (rl_role m)) in
  Ok (mk_role_assignment principal_id role (rl_assigned_by m) (rl_assigned_at m) (rl_site_id m)).

Definition sqlite_find_role_assignment (principal_id : PrincipalId) : Repo (option RoleAssignment) :=
  let! row := select env (λ t : AccountTables, ac_roles t !! principal_id) in
  match row with
  | None => mret None
  | Some m => let! a := mlift (map_stored_assignment principal_id m) in mret (Some a)
  end.

Definition role_model_le (l r : role_assignment_model) : Prop := rl_assigned_at l <= rl_assigned_at r.
#[export] Instance role_model_le_dec : RelDecision role_model_le.
Proof. intros l r. unfold role_model_le. apply _. Defined.

Definition sqlite_list_role_assignments : Repo (list RoleAssignment) :=
  let! models := select env (λ t, rows role_model_le (λ _, True) (ac_roles t)) in
  mtraverse (λ m, mlift (map_stored_assignment (rl_principal_id m) m)) models.
End principals.

(** ** Password credentials *)

Definition password_row (c : PasswordCredential) : password_credential_model :=
  mk_password_model (pc_principal_id c) ARGON2ID_FORMAT (ah_salt (pc_hash c)) (ah_hash (pc_hash c))
    (pc_changed_at c).

Section passwords.
Context (env : Env).
Abbreviation Repo := (M (World AccountTables) PasswordRepositoryError).

Definition map_stored_password (principal_id : PrincipalId) (m : password_credential_model)
    : result PasswordCredential PasswordRepositoryError :=
  let? hash := map_err (PasswordCorrupt principal_id) (Argon2IdHash_from_parts (wm_salt m) (wm_hash m)) in
  map_err (PasswordCorrupt principal_id) (PasswordCredential_try_from_parts principal_id hash (wm_changed_at m)).

Definition sqlite_find_password_credential (principal_id : PrincipalId)
    : Repo (option PasswordCredential) :=
  let! row := select env (λ t : AccountTables, ac_passwords t !! principal_id) in
  match row with
  | None => mret None
  | Some m => let! c := mlift (map_stored_password principal_id m) in mret (Some c)
  end.

Definition sqlite_save_password_credential (c : PasswordCredential) : Repo () :=
  do! acquire env in
  statement env (λ t,
    Some (with_passwords t (<[pc_principal_id c := password_row c]> (ac_passwords t)), ())).
End passwords.

(** ** Authenticators *)

(** [i64::try_from] on a [u64]. *)
Definition i64_try_from (z : Z) : option Z := if decide (z <= I64_MAX) then Some z else None.

Section totps.
Context {Key : Type} `{CipherSuite Key} (env : Env) (master_key : Key).

(** The stored secret: the base64 text of the secret, encrypted under the
    authenticator's identity, behind its nonce. *)
Definition protect_secret (random : option (list N)) (a : TotpAuthenticator)
    : result (list N) CredentialProtectionError :=
  let? p := encrypt_credential random master_key (ta_id a) (ta_id a) (base64_encode (ta_secret a)) in
  Ok (pv_nonce p ++ pv_ciphertext p).

Definition decrypt_stored_secret (authenticator_id : TotpAuthenticatorId) (stored : list N)
    : result (list N) CredentialProtectionError :=
  if decide (length stored < CREDENTIAL_NONCE_LENGTH)%nat then Err CredentialCiphertextTooShort
  else
    let? p := protected_from_parts authenticator_id authenticator_id
                (take CREDENTIAL_NONCE_LENGTH stored) (drop CREDENTIAL_NONCE_LENGTH stored) in
    let? plaintext := decrypt_credential master_key p in
    ok_or (base64_decode plaintext) CredentialInvalidPlaintextEncoding.

Definition totp_row (stored_secret : list N) (a : TotpAuthenticator) : totp_authenticator_model :=
  mk_totp_model (ta_id a) (ta_principal_id a) stored_secret (TotpState_as_str (ta_state a))
    (lit "sha1") 6 TOTP_PERIOD_SECONDS (ta_created_at a) (ta_activated_at a)
    (ta_last_used_step a ≫= i64_try_from).

Definition insert_totp_row (row : totp_authenticator_model) (t : AccountTables)
    : option (AccountTables * ()) :=
  (λ m, (with_totps t m, ())) <$> insert_new (ac_totps t) (tm_id row) row.

(** [insert_authenticator], in the words of either repository. *)
Definition insert_authenticator {E} `{DbErrors E} (protect : CredentialProtectionError → E)
    (a : TotpAuthenticator) : M (World AccountTables) E () :=
  let! random := draw env in
  let! stored_secret := mlift (map_err protect (protect_secret random a)) in
  statement env (insert_totp_row (totp_row stored_secret a)).

Definition map_stored_authenticator (authenticator_id : TotpAuthenticatorId)
    (m : totp_authenticator_model) : result TotpAuthenticator TotpRepositoryError :=
  let corrupt := TotpCorrupt authenticator_id in
  let? state := map_err (λ _, corrupt StoredTotpState) (TotpState_from_str (tm_state m)) in
  let? last_used_step :=
    match tm_last_used_step m with
    | None => Ok None
    | Some step => let? s := ok_or (u64_try_from step) (corrupt StoredTotpStep) in Ok (Some s)
    end in
  let? secret := map_err (λ e, corrupt (StoredTotpSecret e))
    (decrypt_stored_secret authenticator_id (tm_secret m)) in
  map_err (λ e, corrupt (StoredTotpShape e))
    (TotpAuthenticator_try_from_parts authenticator_id (tm_principal_id m) secret state
       (tm_created_at m) (tm_activated_at m) last_used_step).

Abbreviation Repo := (M (World AccountTables) TotpRepositoryError).

Definition sqlite_create_totp_authenticator (a : TotpAuthenticator) : Repo () :=
  do! acquire env in transaction env (insert_authenticator TotpProtect a).

Definition sqlite_find_totp_authenticator (id : TotpAuthenticatorId) : Repo (option TotpAuthenticator) :=
  let! row := select env (λ t : AccountTables, ac_totps t !! id) in
  match row with
  | None => mret None
  | Some m => let! a := mlift (map_stored_authenticator id m) in mret (Some a)
  end.

Definition totp_model_le (l r : totp_authenticator_model) : Prop := tm_created_at l <= tm_created_at r.
#[export] Instance totp_model_le_dec : RelDecision totp_model_le.
Proof. intros l r. unfold totp_model_le. apply _. Defined.

Definition sqlite_list_totp_authenticators (principal_id : PrincipalId) : Repo (list TotpAuthenticator) :=
  let! models := select env
    (λ t, rows totp_model_le (λ m, tm_principal_id m = principal_id) (ac_totps t)) in
  mtraverse (λ m, mlift (map_stored_authenticator (tm_id m) m)) models.

(** The rows an update of a step matches: [last_used_step IS NULL OR < step]. *)
Definition step_open (m : totp_authenticator_model) (step : Z) : bool :=
  match tm_last_used_step m with None => true | Some last => last <? step end.

(** A conditional [UPDATE] of one authenticator; the answer counts the rows. *)
Definition update_totp_row (id : TotpAuthenticatorId) (step : Z)
    (f : totp_authenticator_model → totp_authenticator_model) (t : AccountTables)
    : option (AccountTables * Z) :=
  match ac_totps t !! id with
  | Some m => if step_open m step then Some (with_totps t (<[id := f m]> (ac_totps t)), 1)
              else Some (t, 0)
  | None => Some (t, 0)
  end.

Definition activated_row (at_ : OffsetDateTime) (step : Z) (m : totp_authenticator_model)
    : totp_authenticator_model :=
  mk_totp_model (tm_id m) (tm_principal_id m) (tm_secret m) (TotpState_as_str Active) (tm_algorithm m)
    (tm_digits m) (tm_period m) (tm_created_at m) (Some at_) (Some step).
Definition stepped_row (step : Z) (m : totp_authenticator_model) : totp_authenticator_model :=
  mk_totp_model (tm_id m) (tm_principal_id m) (tm_secret m) (tm_state m) (tm_algorithm m)
    (tm_digits m) (tm_period m) (tm_created_at m) (tm_activated_at m) (Some step).

Definition sqlite_activate_totp_authenticator (id : TotpAuthenticatorId) (at_ : OffsetDateTime)
    (step : Z) : Repo () :=
  do! acquire env in
  let! step := mlift (ok_or (i64_try_from step) (StepOutOfRange id)) in
  let! affected := statement env (update_totp_row id step (activated_row at_ step)) in
  if decide (affected = 0) then
    let! exists_ := select env (λ t : AccountTables, bool_decide (is_Some (ac_totps t !! id))) in
    if exists_ then mfail (StaleStep id) else mfail (TotpNotFound id)
  else mret ().

Definition sqlite_record_totp_step (id : TotpAuthenticatorId) (step : Z) : Repo bool :=
  do! acquire env in
  let! step := mlift (ok_or (i64_try_from step) (StepOutOfRange id)) in
  let! affected := statement env (update_totp_row id step (stepped_row step)) in
  mret (affected =? 1).
End totps.

(** ** Bootstrap codes *)

Definition code_row (c : BootstrapCode) : bootstrap_code_model :=
  mk_code_model (bc_id c) (bc_code_hash c) (bc_created_at c) (bc_used_at c) (bc_used_by c).

Section codes.
Context {Key : Type} `{CipherSuite Key} (env : Env) (master_key : Key).
Abbreviation Repo := (M (World AccountTables) BootstrapRepositoryError).

Definition map_stored_code (code_id : BootstrapCodeId) (m : bootstrap_code_model)
    : result BootstrapCode BootstrapRepositoryError :=
  map_err (BootstrapCorrupt code_id)
    (BootstrapCode_try_from_parts code_id (cm_code_hash m) (cm_created_at m) (cm_used_at m) (cm_used_by m)).

Definition sqlite_create_bootstrap_code (c : BootstrapCode) : Repo () :=
  do! acquire env in
  statement env (λ t : AccountTables,
    (λ m, (with_codes t m, ())) <$> insert_new (ac_codes t) (bc_id c) (code_row c)).

Definition sqlite_find_bootstrap_code (code_id : BootstrapCodeId) : Repo (option BootstrapCode) :=
  let! row := select env (λ t : AccountTables, ac_codes t !! code_id) in
  match row with
  | None => mret None
  | Some m => let! c := mlift (map_stored_code code_id m) in mret (Some c)
  end.

Definition sqlite_find_bootstrap_code_by_hash (hash : Digest) : Repo (option BootstrapCode) :=
  let! row := select env (λ t, find_row (λ m, cm_code_hash m = hash) (ac_codes t)) in
  match row with
  | None => mret None
  | Some m => let! c := mlift (map_stored_code (cm_id m) m) in mret (Some c)
  end.

Definition sqlite_has_unconsumed_bootstrap_code : Repo bool :=
  let! count := select env
    (λ t : AccountTables, length (filter (λ m, cm_used_at m = None) (map_to_list (ac_codes t)).*2)) in
  mret (bool_decide (0 < count)%nat).

Definition insert_password_credential (c : PasswordCredential) : Repo () :=
  statement env (λ t : AccountTables,
    (λ m, (with_passwords t m, ())) <$> insert_new (ac_passwords t) (pc_principal_id c) (password_row c)).

Definition insert_bootstrap_session (s : Session) : Repo () := statement env (insert_session_row s).

Definition sqlite_consume_bootstrap_code (code_id : BootstrapCodeId) (used_by : PrincipalId)
    (password : PasswordCredential) (authenticator : option TotpAuthenticator) (session : Session)
    (consumed_at : OffsetDateTime) : Repo () :=
  do! acquire env in
  transaction env (
    let! row := select env (λ t : AccountTables, ac_codes t !! code_id) in
    let! m := mlift (ok_or row (BootstrapNotFound code_id)) in
    match cm_used_at m with
    | Some _ => mfail (BootstrapAlreadyUsed code_id)
    | None =>
        do! statement env (λ t, Some (with_codes t (<[code_id :=
          mk_code_model (cm_id m) (cm_code_hash m) (cm_created_at m) (Some consumed_at) (Some used_by)]>
          (ac_codes t)), ())) in
        do! insert_password_credential password in
        do! match authenticator with
            | Some a => insert_authenticator env master_key BootstrapProtect a
            | None => mret ()
            end in
        insert_bootstrap_session session
    end).
End codes.

(** ** The rows as the contract sees them *)

Definition session_of (id : Uuid) (m : session_model) : option Session :=
  if decide (sm_id m = id ∧ length (sm_token_hash m) = 32%nat ∧ length (sm_csrf_hash m) = 32%nat)
  then Some (mk_session id (sm_principal_id m) (sm_token_hash m) (sm_csrf_hash m) (sm_created_at m)
               (sm_last_used_at m) (sm_expires_at m) (sm_revoked_at m))
  else None.

Definition principal_of `{UnicodeCase} (id : Uuid) (m : principal_model) : option Principal :=
  match PrincipalName_parse (pm_name m), PrincipalState_from_str (pm_state m) with
  | Ok name, Ok state =>
      if decide (pm_id m = id ∧ name = pm_name m)
      then Some (mk_principal id name state (pm_created_at m) (pm_updated_at m)) else None
  | _, _ => None
  end.

Definition role_of (id : Uuid) (m : role_assignment_model) : option RoleAssignment :=
  if decide (rl_principal_id m = id) then ok_of (map_stored_assignment id m) else None.

Definition password_of (id : Uuid) (m : password_credential_model) : option PasswordCredential :=
  if decide (wm_principal_id m = id) then ok_of (map_stored_password id m) else None.

Definition totp_of {Key} `{CipherSuite Key} (master_key : Key) (id : Uuid)
    (m : totp_authenticator_model) : option TotpAuthenticator :=
  match TotpState_from_str (tm_state m), decrypt_stored_secret master_key id (tm_secret m) with
  | Ok state, Ok secret =>
      if decide (tm_id m = id ∧ length secret = TOTP_SECRET_LENGTH ∧
                 0 <= default 0 (tm_last_used_step m))
      then Some (mk_totp id (tm_principal_id m) secret state (tm_created_at m) (tm_activated_at m)
                   (tm_last_used_step m))
      else None
  | _, _ => None
  end.

Definition code_of (id : Uuid) (m : bootstrap_code_model) : option BootstrapCode :=
  if decide (cm_id m = id ∧ length (cm_code_hash m) = 32%nat)
  then Some (mk_bootstrap_code id (cm_code_hash m) (cm_created_at m) (cm_used_at m) (cm_used_by m))
  else None.

Section sessions_laws.
Context (env : Env).
Implicit Types (w : World AccountTables) (m : session_model) (s : Session).

Abbreviation session_view := (decoded session_of).
Abbreviation sessions_ok := (decodable session_of).

Lemma session_of_inv id m s : session_of id m = Some s →
  sm_id m = id ∧ se_id s = id ∧ se_principal_id s = sm_principal_id m ∧
  se_token_hash s = sm_token_hash m ∧ se_revoked_at s = sm_revoked_at m.
Proof. unfold session_of. case_decide; [|done]. intros [= <-]. naive_solver. Qed.

Lemma session_of_row s : session_typed s → session_of (se_id s) (session_row s) = Some s.
Proof. intros [? ?]. unfold session_of. simpl. rewrite decide_True by done. by destruct s. Qed.

Lemma map_stored_session_of id m s :
  is_Some (session_of id m) → map_stored_session id m = Ok s →
  session_of id m = Some s ∧ session_typed s ∧ se_id s = id.
Proof.
  unfold session_of, map_stored_session. case_decide as Hd; [|by intros [? ?]]. intros _.
  destruct Hd as (Hid & Ht & Hc). rewrite !decide_False by auto.
  unfold Session_try_from_parts. repeat case_decide; simpl; try done. by intros [= <-].
Qed.

Lemma session_key id m s : session_of id m = Some s → sm_id m = id ∧ se_id s = id.
Proof. intros ?%session_of_inv. tauto. Qed.

Lemma token_free_rows t token : sessions_ok t →
  map_Forall (λ _ m, sm_token_hash m ≠ token) t ↔ token_free token (session_view t).
Proof.
  intros Hok. apply (decoded_map_Forall session_of t (λ m, sm_token_hash m ≠ token)
    (λ s, se_token_hash s ≠ token)); [done|].
  intros id m s (_ & _ & _ & -> & _)%session_of_inv. done.
Qed.

Lemma insert_session_decoded (t t' : AccountTables) s :
  sessions_ok (ac_sessions t) → session_typed s → insert_session_row s t = Some (t', ()) →
  sessions_ok (ac_sessions t') ∧ t' = with_sessions t (ac_sessions t') ∧
  insert_session (session_view (ac_sessions t)) s = Some (session_view (ac_sessions t')).
Proof.
  intros Hok Hty. unfold insert_session_row, insert_session. case_decide as Hfree; [|done].
  intros (m & Hm & [= ->])%fmap_Some. simpl.
  apply (insert_new_decoded session_of _ _ _ _ s) in Hm as [Hok' Hm]; [|done|by apply session_of_row].
  split; [done|]. split; [done|]. rewrite decide_True; [done|]. by apply token_free_rows.
Qed.

Lemma load_session_inv id w w' r :
  load_session env id w = (w', r) →
  w_db w' = w_db w ∧ ∀ s, r = Ok s → ∃ m, ac_sessions (w_db w) !! id = Some m ∧
    map_stored_session id m = Ok s.
Proof.
  intros Hl. unfold load_session in Hl. apply lookup_inv in Hl as [Hdb Hr].
  - split; [done|]. intros s Hs. destruct (Hr _ Hs) as [w1 Hw]. inv_run. eauto.
  - intros a w1 w2 r2 Hk. apply mbind_inv in Hk as [(? & ? & Hm & Hk)|(? & Hm & ?)];
      unfold mlift in *; by simplify_eq.
Qed.

(** A row rewritten from a session it held. *)
Lemma update_session_refines (t : AccountTables) id m s s' :
  sessions_ok (ac_sessions t) → ac_sessions t !! id = Some m → session_of id m = Some s →
  session_ages s s' → session_typed s →
  sessions_ok (<[se_id s' := session_row s']> (ac_sessions t)) ∧
  session_view (<[se_id s' := session_row s']> (ac_sessions t)) =
    <[id := s']> (session_view (ac_sessions t)) ∧ session_view (ac_sessions t) !! id = Some s.
Proof.
  intros Hok Hm Hs [(Hid & _ & Ht & Hc & _) _] [Hty1 Hty2].
  pose proof (session_key _ _ _ Hs) as [_ Hsid]. rewrite Hid, Hsid.
  assert (session_of id (session_row s') = Some s') as Hrow.
  { rewrite <- Hsid, <- Hid. apply session_of_row. split; congruence. }
  split; [by eapply decodable_insert|]. split; [by apply decoded_insert|].
  by rewrite decoded_lookup, Hm.
Qed.
End sessions_laws.

(** ** The contract, method by method *)

Section laws.
Context {Key : Type} `{CipherSuiteLaws Key} `{UnicodeCaseLaws}.
Context (env : Env) (master_key : Key).
Hypothesis Hrandom : ∀ n, random_ok (env_random env n).
Implicit Types (w : World AccountTables) (t : AccountTables).

Definition accounts_of t : Accounts :=
  mk_accounts (decoded principal_of (ac_principals t)) (decoded role_of (ac_roles t))
    (decoded password_of (ac_passwords t)) (decoded session_of (ac_sessions t))
    (decoded (totp_of master_key) (ac_totps t)) (decoded code_of (ac_codes t)).

Record tables_ok t : Prop := {
  ok_principals : decodable principal_of (ac_principals t);
  ok_roles : decodable role_of (ac_roles t);
  ok_passwords : decodable password_of (ac_passwords t);
  ok_sessions : decodable session_of (ac_sessions t);
  ok_totps : decodable (totp_of master_key) (ac_totps t);
  ok_codes : decodable code_of (ac_codes t);
}.

Abbreviation view := (λ w, accounts_of (w_db w)).
Abbreviation ok := (λ w, tables_ok (w_db w)).

Lemma reads_intro {A E} (P : Accounts → A → Prop) w w' (r : result A E) :
  ok w → w_db w' = w_db w → (∀ x, r = Ok x → P (view w) x) → reads view ok P w w' r.
Proof. intros Hok Hdb HP. unfold reads. rewrite Hdb. done. Qed.

Lemma writes_err {E} (P : Accounts → Accounts → Prop) w w' (e : E) :
  ok w → w_db w' = w_db w → writes view ok P w w' (Err e).
Proof. intros Hok Hdb. unfold writes. by rewrite Hdb. Qed.

Lemma pure_mlift {A B E} (f : A → result B E) (a : A) w w' (r : result B E) :
  mlift (f a) w = (w', r) → w' = w.
Proof. unfold mlift. congruence. Qed.

Lemma found_pure {A B E} (f : A → result B E) (o : option A) w w' (r : result (option B) E) :
  match o with None => mret None | Some m => let! b := mlift (f m) in mret (Some b) end w = (w', r) →
  w' = w.
Proof.
  destruct o as [m|]; [|unfold mret; congruence].
  intros [(? & ? & Hm & Hk)|(? & Hm & ?)]%mbind_inv; unfold mlift, mret in *; by simplify_eq.
Qed.

Lemma found_Ok {A B E} (f : A → result B E) (o : option A) w w' (x : option B) :
  match o with None => mret None | Some m => let! b := mlift (f m) in mret (Some b) end w
    = (w', Ok x) →
  match o with None => x = None | Some m => ∃ b, f m = Ok b ∧ x = Some b end.
Proof.
  destruct o as [m|]; [|unfold mret; congruence].
  intros (? & ? & Hm & Hk)%mbind_ok. unfold mlift, mret in *. simplify_eq. eauto.
Qed.

(** A read by a condition that at most names a row. *)
Lemma account_find_refines {Model A E} (decode : N → Model → option A) key akey
    (tbl : AccountTables → gmap N Model) (acc : Accounts → gmap N A) (load : Model → result A E)
    (P : Model → Prop) `{∀ m, Decision (P m)} (Q : A → Prop) `{DbErrors E} w w' r :
  (∀ id m a, decode id m = Some a → key m = id ∧ akey a = id) →
  (∀ m a, is_Some (decode (key m) m) → load m = Ok a → decode (key m) m = Some a) →
  (∀ id m a, decode id m = Some a → P m ↔ Q a) →
  (∀ t, acc (accounts_of t) = decoded decode (tbl t)) → decodable decode (tbl (w_db w)) → ok w →
  (let! row := select env (λ t, find_row P (tbl t)) in
   match row with None => mret None | Some m => let! a := mlift (load m) in mret (Some a) end) w
    = (w', r) →
  reads view ok (λ v x, finds (acc v) Q x) w w' r.
Proof.
  intros Hk Hl HPQ Hacc Hdec Hok Hrun.
  apply lookup_inv in Hrun as [Hdb Hr]; [|intros a ? ? ?; apply found_pure].
  apply reads_intro; [done..|]. intros x Hx. destruct (Hr _ Hx) as [w1 Hw1%found_Ok].
  rewrite Hacc. destruct (find_row P (tbl (w_db w))) as [m|] eqn:Hf.
  - destruct Hw1 as (a & Ha & ->). by eapply finds_row.
  - subst x. by eapply finds_no_row.
Qed.

(** A read by the key. *)
Lemma find_by_id_refines {Model A E} (decode : N → Model → option A)
    (tbl : AccountTables → gmap N Model) (acc : Accounts → gmap N A) (load : Model → result A E) id
    `{DbErrors E} w w' r :
  (∀ m a, is_Some (decode id m) → load m = Ok a → decode id m = Some a) →
  (∀ t, acc (accounts_of t) = decoded decode (tbl t)) → decodable decode (tbl (w_db w)) → ok w →
  (let! row := select env (λ t, tbl t !! id) in
   match row with None => mret None | Some m => let! a := mlift (load m) in mret (Some a) end) w
    = (w', r) →
  reads view ok (λ v x, x = acc v !! id) w w' r.
Proof.
  intros Hl Hacc Hdec Hok Hrun. apply lookup_inv in Hrun as [Hdb Hr]; [|intros a ? ? ?; apply found_pure].
  apply reads_intro; [done..|]. intros x Hx. destruct (Hr _ Hx) as [w1 Hw1%found_Ok].
  rewrite Hacc, decoded_lookup. destruct (tbl (w_db w) !! id) as [m|] eqn:Hm; [|done].
  destruct Hw1 as (a & Ha & ->). simpl. symmetry. apply Hl; [by eapply Hdec | done].
Qed.

(** A listing. *)
Lemma list_rows_refines {Model A E} (decode : N → Model → option A) key akey
    (tbl : AccountTables → gmap N Model) (acc : Accounts → gmap N A) (load : Model → result A E)
    (le : relation Model) `{∀ x y, Decision (le x y)}
    (P : Model → Prop) `{∀ m, Decision (P m)} (Q : A → Prop) `{DbErrors E} w w' r :
  (∀ id m a, decode id m = Some a → key m = id ∧ akey a = id) →
  (∀ m a, is_Some (decode (key m) m) → load m = Ok a → decode (key m) m = Some a) →
  (∀ id m a, decode id m = Some a → P m ↔ Q a) →
  (∀ t, acc (accounts_of t) = decoded decode (tbl t)) → decodable decode (tbl (w_db w)) → ok w →
  (let! models := select env (λ t, rows le P (tbl t)) in
   mtraverse (λ m, mlift (load m)) models) w = (w', r) →
  reads view ok (λ v l, lists (acc v) akey Q l) w w' r.
Proof.
  intros Hk Hl HPQ Hacc Hdec Hok Hrun. apply lookup_inv in Hrun as [Hdb Hr].
  2: { intros ms w1 w2 r1 Hm. by apply mtraverse_mlift in Hm as [-> _]. }
  apply reads_intro; [done..|]. intros l Hx. destruct (Hr _ Hx) as [w1 Hw1].
  apply mtraverse_mlift in Hw1 as [_ Hf]. rewrite Hacc. by eapply lists_rows, Hf.
Qed.

(** A gated write of one table. *)
Lemma gated_refines {E} `{DbErrors E} (q : AccountTables → option (AccountTables * ()))
    (wr : AccountWrite) w w' (r : result () E) :
  (∀ t t', q t = Some (t', ()) → tables_ok t →
    tables_ok t' ∧ account_step (accounts_of t) wr = Some (accounts_of t')) →
  ok w → mbind (acquire env) (λ _, statement env q) w = (w', r) →
  writes view ok (λ v v', account_step v wr = Some v') w w' r.
Proof.
  intros Hq Hok [(e & -> & Hdb)|([] & -> & Hs)]%gated_statement; [by apply writes_err|].
  destruct (Hq _ _ Hs Hok). done.
Qed.

Lemma transaction_refines {E} `{DbErrors E} (body : M (World AccountTables) E ())
    (wr : AccountWrite) w w' (r : result () E) :
  (∀ w1 w2, ok w1 → body w1 = (w2, Ok ()) →
    ok w2 ∧ account_step (view w1) wr = Some (view w2)) →
  ok w → mbind (acquire env) (λ _, transaction env body) w = (w', r) →
  writes view ok (λ v v', account_step v wr = Some v') w w' r.
Proof.
  intros Hb Hok [(e & -> & Hdb)|([] & w1 & w2 & -> & Hw1 & Hbody & Hdb)]%gated_write;
    [by apply writes_err|].
  unfold writes. rewrite Hdb, <- Hw1. apply Hb; [by rewrite Hw1 | done].
Qed.
(** *** Sessions *)

Lemma stored_session m s :
  is_Some (session_of (sm_id m) m) → map_stored_session (sm_id m) m = Ok s →
  session_of (sm_id m) m = Some s.
Proof. intros Hs Hm. by destruct (map_stored_session_of _ _ _ Hs Hm). Qed.

Lemma find_session_refines token w w' r :
  ok w → sqlite_find_session_by_token_hash env token w = (w', r) →
  reads view ok (λ v x, finds (ac_sessions v) (λ a, se_token_hash a = token) x) w w' r.
Proof.
  intros Hok. apply (account_find_refines session_of sm_id se_id ac_sessions ac_sessions
    (λ m, map_stored_session (sm_id m) m) (λ m, sm_token_hash m = token)); [|apply stored_session| |done|apply Hok|done].
  - apply session_key.
  - intros id m a (_ & _ & _ & -> & _)%session_of_inv. done.
Qed.

Lemma list_sessions_refines p w w' r :
  ok w → sqlite_list_sessions env p w = (w', r) →
  reads view ok (λ v l, lists (ac_sessions v) se_id (λ a, se_principal_id a = p) l) w w' r.
Proof.
  intros Hok. apply (list_rows_refines session_of sm_id se_id ac_sessions ac_sessions
    (λ m, map_stored_session (sm_id m) m) session_model_le (λ m, sm_principal_id m = p));
    [|apply stored_session| |done|apply Hok|done].
  - apply session_key.
  - intros id m a (_ & _ & -> & _)%session_of_inv. done.
Qed.

Lemma tables_with_sessions t m :
  tables_ok t → decodable session_of m → tables_ok (with_sessions t m).
Proof. by intros []. Qed.

Lemma create_session_refines s w w' r :
  ok w → write_typed (CreateSession s) → sqlite_create_session env s w = (w', r) →
  writes view ok (λ v v', account_step v (CreateSession s) = Some v') w w' r.
Proof.
  intros Hok Hty. apply transaction_refines; [|done]. intros w1 w2 Hok1 Hq%constrained_ok.
  apply insert_session_decoded in Hq as (Hs & Ht & Hi); [|apply Hok1|done].
  rewrite Ht. split; [by apply tables_with_sessions|]. simpl. by rewrite Hi.
Qed.

(** A session loaded, changed, and written back. *)
Lemma session_update_refines id (f : Session → result Session SessionRepositoryError) w1 w2 :
  (∀ s s', f s = Ok s' → session_ages s s') → ok w1 →
  (let! s := load_session env id in let! s := mlift (f s) in update_session_row env s) w1 = (w2, Ok ()) →
  ok w2 ∧ ∃ s s', f s = Ok s' ∧ ac_sessions (view w1) !! id = Some s ∧
    view w2 = with_sessions (view w1) (<[id := s']> (ac_sessions (view w1))).
Proof.
  intros Hf Hok Hrun. apply mbind_ok in Hrun as (s & wa & Hl & Hrun).
  apply load_session_inv in Hl as [Hdb Hl]. destruct (Hl _ eq_refl) as (m & Hm & Hs).
  apply mbind_ok in Hrun as (s' & wb & Hfs & Hrun). unfold mlift in Hfs. injection Hfs as <- Hfs.
  apply statement_ok in Hrun. rewrite Hdb in Hrun. injection Hrun as Hrun.
  apply map_stored_session_of in Hs as (Hs & Hty & _); [|by eapply (ok_sessions _ Hok)].
  destruct (update_session_refines (w_db w1) id m s s') as (Hok' & Hv & Hlk); [apply Hok|done..|by apply Hf|done|].
  rewrite <- Hrun. split; [by apply tables_with_sessions|]. exists s, s'. split; [done|]. split; [done|].
  unfold accounts_of at 1. simpl. by rewrite Hv.
Qed.

Lemma touch_session_refines id at_ w w' r :
  ok w → sqlite_touch_session env id at_ w = (w', r) →
  writes view ok (λ v v', account_step v (TouchSession id at_) = Some v') w w' r.
Proof.
  intros Hok. apply transaction_refines; [|done]. intros w1 w2 Hok1 Hb.
  apply session_update_refines in Hb as (Hok2 & s & s' & Hf%map_err_ok & Hs & Hv); [| |done].
  - split; [done|]. cbn [account_step]. rewrite Hs. cbn. rewrite Hf. cbn. by rewrite Hv.
  - intros x x' Hx%map_err_ok. by eapply touch_ages.
Qed.

Lemma revoke_session_writes id at_ w w' r :
  ok w → sqlite_revoke_session env id at_ w = (w', r) →
  writes view ok (λ v v', account_step v (RevokeSession id at_) = Some v') w w' r.
Proof.
  intros Hok. apply transaction_refines; [|done]. intros w1 w2 Hok1 Hb.
  apply session_update_refines in Hb as (Hok2 & s & s' & Hf%map_err_ok & Hs & Hv); [| |done].
  - split; [done|]. cbn [account_step]. rewrite Hs. cbn. rewrite Hf. cbn. by rewrite Hv.
  - intros x x' Hx%map_err_ok. by eapply revoke_ages.
Qed.

(** The errors of a revocation that the boundary answers. *)
Lemma revoke_session_errors id at_ w w' :
  ok w →
  (∀ i, sqlite_revoke_session env id at_ w = (w', Err (SessionNotFound i)) →
    ac_sessions (view w) !! id = None) ∧
  (∀ i, sqlite_revoke_session env id at_ w = (w', Err (SessionWasRevoked i)) →
    ∃ a, ac_sessions (view w) !! id = Some a ∧ is_Some (se_revoked_at a)).
Proof.
  intros Hok. unfold sqlite_revoke_session.
  assert (∀ e w2, mbind (acquire env) (λ _, transaction env
      (let! s := load_session env id in
       let! s := mlift (map_err (λ e, match e with
         | SessionAlreadyRevoked => SessionWasRevoked id
         | SessionTimeline => SessionCorrupt id (StoredSessionTimeline SessionInvalidTimeline)
         end) (Session_revoke s at_)) in update_session_row env s)) w = (w2, Err e) →
    match e with
    | SessionNotFound _ => ac_sessions (w_db w) !! id = None
    | SessionWasRevoked _ => ∃ m a, ac_sessions (w_db w) !! id = Some m ∧
        map_stored_session id m = Ok a ∧ is_Some (se_revoked_at a)
    | _ => True
    end) as Hcases.
  { intros e w2. unfold mbind at 1, acquire. destruct (env_gate_closed env); [by intros [= _ <-]|].
    unfold transaction, statement. destruct (env_fault _ _); [by intros [= _ <-]|]. simpl.
    set (w0 := mk_world _ _).
    destruct (mbind _ _ w0) as [w3 [[]|e3]] eqn:Hb.
    { destruct (env_fault _ _); by intros [= _ <-]. }
    intros [= _ ->]. apply mbind_inv in Hb as [(s & w4 & Hl & Hb)|(e' & Hl & [= ->])].
    - apply load_session_inv in Hl as [Hdb Hl]. destruct (Hl _ eq_refl) as (m & Hm & Hs).
      apply mbind_inv in Hb as [(s' & w5 & Hf & Hb)|(e' & Hf & [= ->])].
      + unfold update_session_row, statement in Hb. destruct (env_fault _ _); by simplify_eq.
      + unfold mlift in Hf. injection Hf as _ Hf. unfold Session_revoke in Hf.
        destruct (se_revoked_at s) eqn:Hr; simpl in Hf; [|case_decide; by simplify_eq/=].
        injection Hf as <-. exists m, s. rewrite Hr. eauto.
    - unfold load_session in Hl. apply mbind_inv in Hl as [(o & w5 & Hsel & Hl)|(e2 & Hsel & [= ->])].
      + apply select_inv in Hsel as [_ Ho]. rewrite (Ho _ eq_refl) in Hl.
        apply mbind_inv in Hl as [(m & w6 & Hm & Hl)|(e2 & Hm & [= ->])]; unfold mlift in *.
        * injection Hl as _ Hl. unfold map_stored_session in Hl. repeat case_decide; simplify_eq/=; try done.
          by apply (f_equal is_ok) in Hl as Hx; destruct (Session_try_from_parts _ _ _ _ _ _ _ _); simplify_eq/=.
        * injection Hm as _ Hm. by apply ok_or_err in Hm as [Hn ->].
      + unfold select, statement in Hsel. destruct (env_fault _ _); by simplify_eq. }
  split; intros i Hrun; apply Hcases in Hrun.
  - simpl. by rewrite decoded_lookup, Hrun.
  - destruct Hrun as (m & a & Hm & Ha & Hr). exists a. split; [|done]. simpl.
    rewrite decoded_lookup, Hm. simpl. apply map_stored_session_of in Ha as (? & _); [done|].
    by eapply (ok_sessions _ Hok).
Qed.

Lemma classified_revoke_refines id at_ w w' r :
  ok w → classified_revoke_session env id at_ w = (w', r) →
  ok w' ∧
  match r with
  | Ok Revoked => account_step (view w) (RevokeSession id at_) = Some (view w')
  | Ok RevocationNotFound => view w' = view w ∧ ac_sessions (view w) !! id = None
  | Ok RevocationAlreadyRevoked => view w' = view w ∧
      ∃ a, ac_sessions (view w) !! id = Some a ∧ is_Some (se_revoked_at a)
  | Err _ => view w' = view w
  end.
Proof.
  intros Hok. unfold classified_revoke_session.
  destruct (sqlite_revoke_session env id at_ w) as [w1 r1] eqn:Hrun.
  pose proof (revoke_session_writes _ _ _ _ _ Hok Hrun) as [Hok1 Hw].
  destruct (revoke_session_errors id at_ w w1 Hok) as [Hnf Har].
  destruct r1 as [[]|[]]; intros [= <- <-]; (split; [done|]); try done.
  - split; [done|]. by eapply Hnf.
  - split; [done|]. by eapply Har.
Qed.

Lemma revoke_sessions_for_refines p at_ w w' r :
  ok w → sqlite_revoke_sessions_for env p at_ w = (w', r) →
  ok w' ∧ match r with
          | Ok _ => account_step (view w) (RevokeSessionsFor p at_) = Some (view w')
          | Err _ => view w' = view w
          end.
Proof.
  intros Hok [(e & -> & Hdb)|(n & -> & Hs)]%gated_statement; [by rewrite Hdb|].
  injection Hs as Hs _. rewrite <- Hs.
  assert (∀ id m, ac_sessions (w_db w) !! id = Some m →
    session_of id (revoked_row p at_ m) = revoke_for p at_ <$> session_of id m) as Hrow.
  { intros id m _. unfold session_of, revoked_row.
    destruct (decide (sm_principal_id m = p ∧ sm_revoked_at m = None)) as [Hp|Hp]; simpl;
      (destruct (decide (sm_id m = id ∧ _)); simpl; [|done]); unfold revoke_for; simpl.
    - by rewrite decide_True.
    - by rewrite decide_False. }
  split; [apply tables_with_sessions; [done|]; eapply decodable_fmap; [done|apply Hok]|].
  simpl. f_equal. unfold accounts_of. simpl. by rewrite (decoded_fmap _ _ _ _ Hrow).
Qed.
(** *** Principals and roles *)

Lemma principal_of_inv id m p :
  principal_of id m = Some p → pm_id m = id ∧ pr_id p = id ∧ pr_name p = pm_name m.
Proof. unfold principal_of. repeat case_match; try done. intros [= <-]. naive_solver. Qed.

Lemma principal_key id m p : principal_of id m = Some p → pm_id m = id ∧ pr_id p = id.
Proof. intros ?%principal_of_inv. tauto. Qed.

Lemma principal_of_row p : principal_name (pr_name p) → principal_of (pr_id p) (principal_row p) = Some p.
Proof.
  intros Hn. unfold principal_of. simpl. rewrite PrincipalName_parse_fix by done.
  rewrite principal_state_parse. rewrite decide_True by done. by destruct p.
Qed.

Lemma stored_principal id m p :
  is_Some (principal_of id m) → map_stored_principal id m = Ok p → principal_of id m = Some p.
Proof.
  unfold principal_of, map_stored_principal. intros Hs Hm.
  destruct (PrincipalName_parse (pm_name m)) as [n|]; [|by destruct Hs].
  destruct (PrincipalState_from_str (pm_state m)) as [st|]; [|by destruct Hs].
  case_decide as Hd; [|by destruct Hs]. cbn in Hm. unfold Principal_try_from_parts in Hm.
  case_decide; simpl in Hm; [done|]. by injection Hm as <-.
Qed.

Lemma find_principal_refines id w w' r :
  ok w → sqlite_find_principal env id w = (w', r) →
  reads view ok (λ v x, x = ac_principals v !! id) w w' r.
Proof.
  intros Hok. apply (find_by_id_refines principal_of ac_principals ac_principals (map_stored_principal id));
    [apply stored_principal | done | apply Hok | done].
Qed.

Lemma find_by_name_refines name w w' r :
  ok w → sqlite_find_principal_by_name env name w = (w', r) →
  reads view ok (λ v x, finds (ac_principals v) (λ a, pr_name a = name) x) w w' r.
Proof.
  intros Hok. apply (account_find_refines principal_of pm_id pr_id ac_principals ac_principals
    (λ m, map_stored_principal (pm_id m) m) (λ m, pm_name m = name));
    [apply principal_key | intros m a; apply stored_principal | | done | apply Hok | done].
  intros i m a (_ & _ & ->)%principal_of_inv. done.
Qed.

Lemma list_principals_refines w w' r :
  ok w → sqlite_list_principals env w = (w', r) →
  reads view ok (λ v l, lists (ac_principals v) pr_id (λ _, True) l) w w' r.
Proof.
  intros Hok. by apply (list_rows_refines principal_of pm_id pr_id ac_principals ac_principals
    (λ m, map_stored_principal (pm_id m) m) principal_model_le (λ _, True));
    [apply principal_key | intros m a; apply stored_principal | | | apply Hok |].
Qed.

Lemma create_principal_refines p w w' r :
  ok w → write_typed (CreatePrincipal p) → sqlite_create_principal env p w = (w', r) →
  writes view ok (λ v v', account_step v (CreatePrincipal p) = Some v') w w' r.
Proof.
  intros Hok Hty. apply transaction_refines; [|done]. intros w1 w2 Hok1 Hq%constrained_ok.
  unfold insert_principal_row in Hq. case_decide as Hfree; [|done].
  apply fmap_Some in Hq as (m & Hm & Hq). injection Hq as ->.
  apply (insert_new_decoded principal_of _ _ _ _ p) in Hm as [Hok' Hm];
    [|apply Hok1|by apply principal_of_row].
  split; [by destruct Hok1|]. cbn [account_step]. rewrite decide_True.
  - cbn [accounts_of ac_principals]. by rewrite Hm.
  - revert Hfree. apply (decoded_map_Forall principal_of _ (λ m, pm_name m ≠ pr_name p)); [apply Hok1|].
    intros id x a (_ & _ & ->)%principal_of_inv. done.
Qed.

Lemma set_state_refines id st at_ w w' r :
  ok w → sqlite_set_principal_state env id st at_ w = (w', r) →
  writes view ok (λ v v', account_step v (SetPrincipalState id st at_) = Some v') w w' r.
Proof.
  intros Hok. apply transaction_refines; [|done]. intros w1 w2 Hok1 Hb.
  apply mbind_ok in Hb as (o & wa & [Hdb ->]%select_ok & Hb).
  apply mbind_ok in Hb as (m & wb & Hm & Hb). unfold mlift in Hm. injection Hm as <- Hm%ok_or_ok.
  apply statement_ok in Hb. rewrite Hdb in Hb. injection Hb as Hb.
  rewrite <- Hb. destruct (ok_principals _ Hok1 _ _ Hm) as [p Hp].
  match type of Hb with with_principals _ (<[_ := ?m']> _) = _ =>
    assert (principal_of id m' = Some (Principal_set_state p st at_)) as Hp' end.
  { unfold principal_of in *. simpl. rewrite principal_state_parse.
    destruct (PrincipalName_parse _) as [n|]; [|done].
    destruct (PrincipalState_from_str _); [|done]. case_decide; [|done]. by injection Hp as <-. }
  split; [destruct Hok1; split; simpl; try done; by eapply decodable_insert|].
  simpl. rewrite decoded_lookup, Hm. simpl. rewrite Hp. simpl. unfold accounts_of at 2. simpl.
  by rewrite (decoded_insert _ _ _ _ _ Hp').
Qed.

Lemma role_of_inv id m a : role_of id m = Some a → rl_principal_id m = id ∧ ra_principal_id a = id.
Proof.
  unfold role_of, map_stored_assignment. case_decide; [|done].
  destruct (Role_from_str (rl_role m)); [|done]. by intros [= <-].
Qed.

Lemma stored_role m a :
  is_Some (role_of (rl_principal_id m) m) → map_stored_assignment (rl_principal_id m) m = Ok a →
  role_of (rl_principal_id m) m = Some a.
Proof. unfold role_of. rewrite decide_True by done. by intros _ ->. Qed.

Lemma assign_role_refines a w w' r :
  ok w → sqlite_assign_role env a w = (w', r) →
  writes view ok (λ v v', account_step v (AssignRole a) = Some v') w w' r.
Proof.
  intros Hok. apply gated_refines; [|done]. intros t t' [= <-] Ht.
  assert (role_of (ra_principal_id a) (upsert_role a (ac_roles t !! ra_principal_id a)) =
    Some (merge_role (ac_roles (accounts_of t) !! ra_principal_id a) a)) as Ha.
  { unfold role_of. simpl. rewrite decide_True by done. unfold map_stored_assignment. simpl.
    rewrite role_parse. simpl. f_equal.
    rewrite decoded_lookup. destruct (ac_roles t !! ra_principal_id a) as [m|] eqn:Hm; simpl; [|by destruct a].
    destruct (ok_roles _ Ht _ _ Hm) as [o Ho]. rewrite Ho. simpl. f_equal.
    unfold role_of, map_stored_assignment in Ho. case_decide; [|done].
    destruct (Role_from_str (rl_role m)); [|done]. by injection Ho as <-. }
  split; [destruct Ht; split; simpl; try done; by eapply decodable_insert|].
  simpl. f_equal. unfold accounts_of, with_roles. simpl. by rewrite (decoded_insert _ _ _ _ _ Ha).
Qed.

Lemma find_role_refines id w w' r :
  ok w → sqlite_find_role_assignment env id w = (w', r) →
  reads view ok (λ v x, x = ac_roles v !! id) w w' r.
Proof.
  intros Hok. apply (find_by_id_refines role_of ac_roles ac_roles (map_stored_assignment id));
    [|done|apply Hok|done].
  intros m a Hs Hm. unfold role_of in *. case_decide; [by rewrite Hm | by destruct Hs].
Qed.

Lemma list_roles_refines w w' r :
  ok w → sqlite_list_role_assignments env w = (w', r) →
  reads view ok (λ v l, lists (ac_roles v) ra_principal_id (λ _, True) l) w w' r.
Proof.
  intros Hok. by apply (list_rows_refines role_of rl_principal_id ra_principal_id ac_roles ac_roles
    (λ m, map_stored_assignment (rl_principal_id m) m) role_model_le (λ _, True));
    [apply role_of_inv | apply stored_role | | | apply Hok |].
Qed.

(** *** Passwords *)

Lemma password_of_row c : password_typed c → password_of (pc_principal_id c) (password_row c) = Some c.
Proof.
  intros [Hs Hh]. unfold password_of. simpl. rewrite decide_True by done.
  unfold map_stored_password, Argon2IdHash_from_parts. simpl. rewrite decide_False by naive_solver.
  simpl. by destruct c as [? [] ?].
Qed.

Lemma find_password_refines id w w' r :
  ok w → sqlite_find_password_credential env id w = (w', r) →
  reads view ok (λ v x, x = ac_passwords v !! id) w w' r.
Proof.
  intros Hok. apply (find_by_id_refines password_of ac_passwords ac_passwords (map_stored_password id));
    [|done|apply Hok|done].
  intros m a Hs Hm. unfold password_of in *. case_decide; [by rewrite Hm | by destruct Hs].
Qed.

Lemma save_password_refines c w w' r :
  ok w → write_typed (SavePassword c) → sqlite_save_password_credential env c w = (w', r) →
  writes view ok (λ v v', account_step v (SavePassword c) = Some v') w w' r.
Proof.
  intros Hok Hty. apply gated_refines; [|done]. intros t t' [= <-] Ht.
  pose proof (password_of_row c Hty) as Hc.
  split; [destruct Ht; split; simpl; try done; by eapply decodable_insert|].
  simpl. f_equal. unfold accounts_of, with_passwords. simpl. by rewrite (decoded_insert _ _ _ _ _ Hc).
Qed.
(** *** Authenticators *)

Abbreviation totp_at := (totp_of master_key).

Lemma totp_of_inv id m a :
  totp_at id m = Some a → tm_id m = id ∧ ta_id a = id ∧ ta_principal_id a = tm_principal_id m ∧
  ta_last_used_step a = tm_last_used_step m.
Proof. unfold totp_of. repeat case_match; try done. intros [= <-]. naive_solver. Qed.

Lemma totp_key id m a : totp_at id m = Some a → tm_id m = id ∧ ta_id a = id.
Proof. intros ?%totp_of_inv. tauto. Qed.

Lemma protected_secret random a stored :
  random_ok random → totp_typed a → protect_secret master_key random a = Ok stored →
  decrypt_stored_secret master_key (ta_id a) stored = Ok (ta_secret a).
Proof.
  intros Hr (Hlen & Hb & _) Hp. unfold protect_secret in Hp. inv_ok.
  match goal with He : encrypt_credential _ _ _ _ _ = Ok ?p |- _ =>
    pose proof (credential_roundtrip _ _ _ _ _ _ (base64_scalars _ Hb) He) as Hrt;
    apply encrypt_credential_ok in He as (Hn & Hc & Hv & _ & Htag & _); rename p into pv end.
  destruct (Hr _ Hn) as [Hnl _]. unfold decrypt_stored_secret, CREDENTIAL_NONCE_LENGTH in *.
  unfold COMMAND_NONCE_LENGTH in Hnl.
  rewrite decide_False by (rewrite length_app; lia).
  rewrite take_app_length', drop_app_length' by done. unfold protected_from_parts.
  rewrite decide_False by lia. simpl.
  destruct pv as [c v nn ct]; simpl in *; subst c v. rewrite Hrt. simpl. by rewrite base64_roundtrip.
Qed.

Lemma totp_of_row random a stored :
  random_ok random → totp_typed a → protect_secret master_key random a = Ok stored →
  totp_at (ta_id a) (totp_row stored a) = Some a.
Proof.
  intros Hr Hty Hp. unfold totp_of. simpl. rewrite totp_state_parse.
  rewrite (protected_secret _ _ _ Hr Hty Hp). destruct Hty as (Hlen & _ & Hstep).
  assert (ta_last_used_step a ≫= i64_try_from = ta_last_used_step a) as ->.
  { destruct (ta_last_used_step a) as [s|]; [|done]. simpl. unfold i64_try_from.
    rewrite decide_True; [done|]. by apply Hstep. }
  rewrite decide_True; [by destruct a|]. split; [done|]. split; [done|].
  destruct (ta_last_used_step a) as [s|]; simpl; [|lia]. by apply Hstep.
Qed.

Lemma stored_totp m a :
  is_Some (totp_at (tm_id m) m) → map_stored_authenticator master_key (tm_id m) m = Ok a →
  totp_at (tm_id m) m = Some a.
Proof.
  unfold totp_of, map_stored_authenticator. intros Hs Hm.
  destruct (TotpState_from_str (tm_state m)) as [st|]; [|by destruct Hs].
  destruct (decrypt_stored_secret _ _ _) as [sec|]; [|by destruct Hs].
  case_decide as Hd; [|by destruct Hs]. destruct Hd as (_ & Hlen & Hstep). simpl in Hm.
  destruct (tm_last_used_step m) as [s|]; simpl in *;
    [unfold u64_try_from in Hm; rewrite decide_True in Hm by done; simpl in Hm|].
  all: unfold TotpAuthenticator_try_from_parts in Hm; rewrite decide_False in Hm by auto.
  all: case_decide; simpl in Hm; [by injection Hm as <- | done].
Qed.

Lemma list_totps_refines p w w' r :
  ok w → sqlite_list_totp_authenticators env master_key p w = (w', r) →
  reads view ok (λ v l, lists (ac_totps v) ta_id (λ a, ta_principal_id a = p) l) w w' r.
Proof.
  intros Hok. apply (list_rows_refines totp_at tm_id ta_id ac_totps ac_totps
    (λ m, map_stored_authenticator master_key (tm_id m) m) totp_model_le (λ m, tm_principal_id m = p));
    [apply totp_key | apply stored_totp | | done | apply Hok | done].
  intros id m a (_ & _ & -> & _)%totp_of_inv. done.
Qed.

Lemma insert_totp_refines {E} `{DbErrors E} protect a w w' :
  totp_typed a → decodable totp_at (ac_totps (w_db w)) →
  insert_authenticator env master_key protect a w = (w', Ok () : result () E) →
  ∃ m, w_db w' = with_totps (w_db w) m ∧ decodable totp_at m ∧
    insert_new (decoded totp_at (ac_totps (w_db w))) (ta_id a) a = Some (decoded totp_at m).
Proof.
  intros Hty Hok Hrun. apply mbind_ok in Hrun as (random & w1 & Hd & Hrun).
  unfold draw in Hd. injection Hd as <- <-.
  apply mbind_ok in Hrun as (stored & w2 & Hp & Hrun). unfold mlift in Hp. injection Hp as <- Hp%map_err_ok.
  apply statement_ok in Hrun. unfold insert_totp_row in Hrun.
  apply fmap_Some in Hrun as (m & Hm & [= Hdb]). exists m. split; [done|].
  apply (insert_new_decoded totp_at _ _ _ _ a) in Hm as [Hok' Hm];
    [done|done|by eapply totp_of_row].
Qed.

Lemma tables_with_totps t m : tables_ok t → decodable totp_at m → tables_ok (with_totps t m).
Proof. by intros []. Qed.

Lemma create_totp_refines a w w' r :
  ok w → write_typed (CreateTotp a) → sqlite_create_totp_authenticator env master_key a w = (w', r) →
  writes view ok (λ v v', account_step v (CreateTotp a) = Some v') w w' r.
Proof.
  intros Hok Hty. apply transaction_refines; [|done]. intros w1 w2 Hok1 Hb.
  apply insert_totp_refines in Hb as (m & -> & Hm & Hi); [|done|apply Hok1].
  split; [by apply tables_with_totps|]. simpl. by rewrite Hi.
Qed.

(** A conditional update of a step: it happens exactly when the step is new. *)
Lemma update_totp_refines id step f (g : TotpAuthenticator → TotpAuthenticator) t t' n :
  tables_ok t → (∀ m a, totp_at id m = Some a → totp_at id (f m) = Some (g a)) →
  update_totp_row id step f t = Some (t', n) →
  tables_ok t' ∧
  match ac_totps (accounts_of t) !! id with
  | Some a => if step_spent (ta_last_used_step a) step then t' = t ∧ n = 0
              else n = 1 ∧ accounts_of t' = with_totps (accounts_of t) (<[id := g a]> (ac_totps (accounts_of t)))
  | None => t' = t ∧ n = 0 ∧ ac_totps t !! id = None
  end.
Proof.
  intros Hok Hf. unfold update_totp_row. simpl. rewrite decoded_lookup.
  destruct (ac_totps t !! id) as [m|] eqn:Hm; [|by intros [= <- <-]]. simpl.
  destruct (ok_totps _ Hok _ _ Hm) as [a Ha]. rewrite Ha.
  pose proof (totp_of_inv _ _ _ Ha) as (_ & _ & _ & ->). unfold step_open, step_spent.
  assert (step_spent (tm_last_used_step m) step = negb (step_open m step)) as Hopen.
  { unfold step_spent, step_open. destruct (tm_last_used_step m); simpl; [lia | done]. }
  unfold step_open, step_spent in Hopen. rewrite Hopen.
  destruct (match tm_last_used_step m with None => true | Some last => last <? step end); simpl;
    intros [= <- <-]; [|done].
  pose proof (Hf _ _ Ha) as Hfa. split.
  - apply tables_with_totps; [done|]. eapply decodable_insert; [apply Hok | done].
  - split; [done|]. unfold accounts_of, with_totps. simpl. by rewrite (decoded_insert _ _ _ _ _ Hfa).
Qed.

Lemma totp_of_Some id m a :
  totp_at id m = Some a → ∃ st sec,
    TotpState_from_str (tm_state m) = Ok st ∧ decrypt_stored_secret master_key id (tm_secret m) = Ok sec ∧
    (tm_id m = id ∧ length sec = TOTP_SECRET_LENGTH ∧ 0 <= default 0 (tm_last_used_step m)) ∧
    a = mk_totp id (tm_principal_id m) sec st (tm_created_at m) (tm_activated_at m) (tm_last_used_step m).
Proof.
  unfold totp_of. destruct (TotpState_from_str _) as [st|]; [|done].
  destruct (decrypt_stored_secret _ _ _) as [sec|]; [|done].
  case_decide; [|done]. intros [= <-]. by exists st, sec.
Qed.

Lemma stepped_row_of id step m a :
  0 <= step → totp_at id m = Some a →
  totp_at id (stepped_row step m) = Some (with_step a (ta_state a) (ta_activated_at a) (Some step)).
Proof.
  intros Hs (st & sec & Hst & Hsec & Hd & ->)%totp_of_Some. unfold totp_of. simpl.
  rewrite Hst, Hsec, decide_True by tauto. done.
Qed.

Lemma activated_row_of id at_ step m a :
  0 <= step → totp_at id m = Some a →
  totp_at id (activated_row at_ step m) = Some (with_step a Active (Some at_) (Some step)).
Proof.
  intros Hs (st & sec & Hst & Hsec & Hd & ->)%totp_of_Some. unfold totp_of. simpl.
  rewrite Hsec, decide_True by tauto. done.
Qed.

Lemma i64_try_from_Some z z' : i64_try_from z = Some z' → z' = z ∧ z <= I64_MAX.
Proof. unfold i64_try_from. case_decide; naive_solver. Qed.

Lemma record_step_refines id step w w' r :
  ok w → write_typed (RecordStep id step) → sqlite_record_totp_step env id step w = (w', r) →
  ok w' ∧
  match r with
  | Ok true => account_step (view w) (RecordStep id step) = Some (view w')
  | Ok false => view w' = view w ∧ account_step (view w) (RecordStep id step) = None
  | Err _ => view w' = view w
  end.
Proof.
  intros Hok Hty Hrun. unfold sqlite_record_totp_step in Hrun.
  apply mbind_inv in Hrun as [([] & w1 & Ha & Hrun)|(e & Ha & ->)]; unfold acquire in Ha;
    injection Ha as <- _; [|done].
  apply mbind_inv in Hrun as [(st & w2 & Hs & Hrun)|(e & Hs & ->)]; unfold mlift in Hs;
    injection Hs as <- Hs; [|done].
  apply ok_or_ok, i64_try_from_Some in Hs as [-> _].
  apply mbind_inv in Hrun as [(n & w3 & Hq & Hrun)|(e & Hq & ->)].
  2: { apply statement_err in Hq. by rewrite Hq. }
  unfold mret in Hrun. injection Hrun as <- <-. apply statement_ok in Hq.
  apply (update_totp_refines _ _ _ (λ a, with_step a (ta_state a) (ta_activated_at a) (Some step))) in Hq
    as [Hok3 Hcase]; [|done|intros m a; by apply stepped_row_of].
  split; [done|]. cbn [account_step]. unfold TotpAuthenticator_record_step.
  destruct (ac_totps (accounts_of (w_db w)) !! id) as [a|] eqn:Hla; simpl.
  - destruct (step_spent (ta_last_used_step a) step); simpl.
    + destruct Hcase as [-> ->]. done.
    + destruct Hcase as [-> ->]. done.
  - destruct Hcase as (-> & -> & _). done.
Qed.

Lemma activate_totp_refines id at_ step w w' r :
  ok w → write_typed (ActivateTotp id at_ step) →
  sqlite_activate_totp_authenticator env id at_ step w = (w', r) →
  writes view ok (λ v v', account_step v (ActivateTotp id at_ step) = Some v') w w' r.
Proof.
  intros Hok Hty Hrun. unfold sqlite_activate_totp_authenticator in Hrun.
  apply mbind_inv in Hrun as [([] & w1 & Ha & Hrun)|(e & Ha & ->)]; unfold acquire in Ha;
    injection Ha as <- _; [|by apply writes_err].
  apply mbind_inv in Hrun as [(st & w2 & Hs & Hrun)|(e & Hs & ->)]; unfold mlift in Hs;
    injection Hs as <- Hs; [|by apply writes_err].
  apply ok_or_ok, i64_try_from_Some in Hs as [-> _].
  apply mbind_inv in Hrun as [(n & w3 & Hq & Hrun)|(e & Hq & ->)].
  2: { apply statement_err in Hq. by apply writes_err. }
  apply statement_ok in Hq.
  apply (update_totp_refines _ _ _ (λ a, with_step a Active (Some at_) (Some step))) in Hq
    as [Hok3 Hcase]; [|done|intros m a; by apply activated_row_of].
  destruct (ac_totps (accounts_of (w_db w)) !! id) as [a|] eqn:Hla; simpl.
  destruct (step_spent (ta_last_used_step a) step) eqn:Hsp.
  2: { destruct Hcase as [-> Hv]. rewrite decide_False in Hrun by done. unfold mret in Hrun.
       injection Hrun as <- <-. split; [done|]. cbn [account_step]. rewrite Hla. simpl. by rewrite Hsp, Hv. }
  1: destruct Hcase as [Hw ->]. 2: destruct Hcase as (Hw & -> & _).
  all: rewrite decide_True in Hrun by done.
  all: apply mbind_inv in Hrun as [(b & w4 & [Hdb _]%select_inv & Hrun)|(e & [Hdb _]%select_inv & ->)];
    [|apply writes_err; [done | congruence]].
  all: destruct b; unfold mfail in Hrun; injection Hrun as <- <-; apply writes_err; [done | congruence | done | congruence].
Qed.

(** *** Codes *)

Lemma code_of_inv id m c :
  code_of id m = Some c → cm_id m = id ∧ bc_id c = id ∧ bc_code_hash c = cm_code_hash m ∧
  bc_used_at c = cm_used_at m.
Proof. unfold code_of. case_decide; [|done]. intros [= <-]. naive_solver. Qed.

Lemma stored_code m c :
  is_Some (code_of (cm_id m) m) → map_stored_code (cm_id m) m = Ok c → code_of (cm_id m) m = Some c.
Proof.
  intros [c' Hc']. rewrite Hc'. pose proof Hc' as Hcode. unfold code_of in Hcode.
  case_decide as Hd; [|done]. injection Hcode as <-.
  unfold map_stored_code, BootstrapCode_try_from_parts. rewrite decide_False by naive_solver.
  case_decide; simpl; [by intros [= <-] | done].
Qed.

Lemma find_code_refines hash w w' r :
  ok w → sqlite_find_bootstrap_code_by_hash env hash w = (w', r) →
  reads view ok (λ v x, finds (ac_codes v) (λ c, bc_code_hash c = hash) x) w w' r.
Proof.
  intros Hok. apply (account_find_refines code_of cm_id bc_id ac_codes ac_codes
    (λ m, map_stored_code (cm_id m) m) (λ m, cm_code_hash m = hash));
    [| apply stored_code | | done | apply Hok | done].
  - intros id m a (? & ? & _)%code_of_inv. done.
  - intros id m a (_ & _ & -> & _)%code_of_inv. done.
Qed.

Lemma unconsumed_refines w w' r :
  ok w → sqlite_has_unconsumed_bootstrap_code env w = (w', r) →
  reads view ok (λ v b, b = true ↔ ∃ id c, ac_codes v !! id = Some c ∧ bc_used_at c = None) w w' r.
Proof.
  intros Hok Hrun. apply lookup_inv in Hrun as [Hdb Hr]; [|unfold mret; intros; congruence].
  apply reads_intro; [done..|]. intros b Hb. destruct (Hr _ Hb) as [w1 Hw1]. unfold mret in Hw1.
  injection Hw1 as <-. rewrite bool_decide_eq_true. simpl. setoid_rewrite decoded_lookup. split.
  - destruct (filter _ _) as [|m l] eqn:Hf; simpl; [lia|]. intros _.
    assert (m ∈ filter (λ m, cm_used_at m = None) (map_to_list (ac_codes (w_db w))).*2) as Hin
      by (rewrite Hf; by left).
    apply list_elem_of_filter in Hin as [Hu Hin].
    apply list_elem_of_fmap in Hin as ([id m'] & -> & Hin%elem_of_map_to_list). simpl in *.
    destruct (ok_codes _ Hok _ _ Hin) as [c Hc]. exists id, c. rewrite Hin. simpl. split; [done|].
    apply code_of_inv in Hc as (_ & _ & _ & ->). done.
  - intros (id & c & (m & Hm & Hc)%bind_Some & Hu).
    assert (m ∈ filter (λ m, cm_used_at m = None) (map_to_list (ac_codes (w_db w))).*2) as Hin.
    { apply list_elem_of_filter. apply code_of_inv in Hc as (_ & _ & _ & Hcu). split; [congruence|].
      apply list_elem_of_fmap. exists (id, m). split; [done|]. by apply elem_of_map_to_list. }
    destruct (filter _ _); [by apply not_elem_of_nil in Hin|]. simpl. lia.
Qed.

Lemma create_code_refines c w w' r :
  ok w → write_typed (CreateCode c) → sqlite_create_bootstrap_code env c w = (w', r) →
  writes view ok (λ v v', account_step v (CreateCode c) = Some v') w w' r.
Proof.
  intros Hok Hty. apply gated_refines; [|done]. intros t t' Hq Ht.
  apply fmap_Some in Hq as (m & Hm & [= ->]).
  apply (insert_new_decoded code_of _ _ _ _ c) in Hm as [Hok' Hm]; [|apply Ht|].
  - split; [by destruct Ht|]. simpl. by rewrite Hm.
  - unfold code_of. simpl. rewrite decide_True by done. by destruct c.
Qed.

Lemma consume_refines code used_by password authenticator session at_ w w' r :
  ok w → write_typed (ConsumeCode code used_by password authenticator session at_) →
  sqlite_consume_bootstrap_code env master_key code used_by password authenticator session at_ w = (w', r) →
  writes view ok (λ v v',
    account_step v (ConsumeCode code used_by password authenticator session at_) = Some v') w w' r.
Proof.
  intros Hok (Htp & Hts & Hta). apply transaction_refines; [|done]. intros w1 w2 Hok1 Hb.
  apply mbind_ok in Hb as (o & wa & [Hdb ->]%select_ok & Hb).
  apply mbind_ok in Hb as (m & wb & Hm & Hb). unfold mlift in Hm. injection Hm as <- Hm%ok_or_ok.
  destruct (cm_used_at m) eqn:Hu; [done|].
  apply mbind_ok in Hb as ([] & wc & [= Hc]%statement_ok & Hb). rewrite Hdb in Hc. clear Hdb.
  apply mbind_ok in Hb as ([] & wd & Hd%statement_ok & Hb).
  apply fmap_Some in Hd as (pw & Hpw & [= Hd]).
  apply mbind_ok in Hb as ([] & we & He & Hb). apply statement_ok in Hb.
  destruct (ok_codes _ Hok1 _ _ Hm) as [c Hcode]. pose proof (code_of_inv _ _ _ Hcode) as (Hcid & Hbid & _ & Hbu).
  assert (code_of code (mk_code_model (cm_id m) (cm_code_hash m) (cm_created_at m) (Some at_) (Some used_by))
    = Some (mk_bootstrap_code (bc_id c) (bc_code_hash c) (bc_created_at c) (Some at_) (Some used_by))) as Hcode'.
  { unfold code_of in *. simpl. case_decide; [|done]. by injection Hcode as <-. }
  rewrite <- Hc in Hpw, Hd. simpl in Hpw.
  apply (insert_new_decoded password_of _ _ _ _ password) in Hpw as [Hokp Hpw];
    [|apply Hok1|by apply password_of_row].
  assert (∃ mt, w_db we = with_totps (w_db wd) mt ∧ decodable totp_at mt ∧
    match authenticator with
    | Some a => insert_new (decoded totp_at (ac_totps (w_db w1))) (ta_id a) a
    | None => Some (decoded totp_at (ac_totps (w_db w1)))
    end = Some (decoded totp_at mt)) as (mt & Hwe & Hokt & Htot).
  { destruct authenticator as [a|].
    - apply insert_totp_refines in He; [|done|rewrite Hd; apply Hok1]. rewrite Hd in He |- *. exact He.
    - unfold mret in He. injection He as <-. exists (ac_totps (w_db w1)). rewrite Hd. split; [done|].
      split; [apply Hok1 | done]. }
  apply insert_session_decoded in Hb as (Hoks & Hw2 & Hses); [|rewrite Hwe, Hd; apply Hok1|done].
  rewrite Hwe, Hd in Hses, Hw2. simpl in Hses, Hw2.
  rewrite Hw2. split.
  - destruct Hok1. split; simpl; try done. by eapply decodable_insert.
  - cbn [account_step]. unfold accounts_of at 1. simpl. rewrite decoded_lookup, Hm. simpl. rewrite Hcode. simpl.
    unfold BootstrapCode_consume. rewrite Hbu, Hu. simpl. rewrite Hpw. simpl.
    rewrite Htot. simpl. rewrite Hses. simpl. unfold accounts_of. simpl.
    by rewrite (decoded_insert _ _ _ _ _ Hcode').
Qed.
End laws.

(** ** The runtime's authentication services

    [impl AuthServices for StandaloneState] ([app/src/standalone_runtime.rs]):
    every store method of the web server delegates to the SQLite store with the
    runtime's master key, and every repository error becomes the runtime's own. *)

Inductive StandaloneAuthError :=
| AuthSession (source : SessionRepositoryError)
| AuthPrincipal (source : PrincipalRepositoryError)
| AuthPassword (source : PasswordRepositoryError)
| AuthTotp (source : TotpRepositoryError)
| AuthBootstrap (source : BootstrapRepositoryError)
| AuthHash
| AuthHashWorker
| AuthHashGateBusy
| AuthTokens.

(** [StandaloneState::is_derivation_gate_busy]. *)
Definition is_derivation_gate_busy (e : StandaloneAuthError) : bool :=
  match e with AuthHashGateBusy => true | _ => false end.

Section standalone.
Context {Key : Type} `{CipherSuite Key, UnicodeCase} (env : Env) (master_key : Key).

Instance sqlite_accounts : AccountStore (World AccountTables) StandaloneAuthError := {
  find_session_by_token_hash token := mmap_err AuthSession (sqlite_find_session_by_token_hash env token);
  create_session s := mmap_err AuthSession (sqlite_create_session env s);
  touch_session id at_ := mmap_err AuthSession (sqlite_touch_session env id at_);
  revoke_session id at_ := mmap_err AuthSession (classified_revoke_session env id at_);
  revoke_sessions_for_principal p at_ := mmap_err AuthSession (sqlite_revoke_sessions_for env p at_);
  list_sessions p := mmap_err AuthSession (sqlite_list_sessions env p);
  find_principal id := mmap_err AuthPrincipal (sqlite_find_principal env id);
  find_principal_by_name name := mmap_err AuthPrincipal (sqlite_find_principal_by_name env name);
  list_principals := mmap_err AuthPrincipal (sqlite_list_principals env);
  create_principal p := mmap_err AuthPrincipal (sqlite_create_principal env p);
  set_principal_state id state at_ := mmap_err AuthPrincipal (sqlite_set_principal_state env id state at_);
  assign_role a := mmap_err AuthPrincipal (sqlite_assign_role env a);
  find_role_assignment id := mmap_err AuthPrincipal (sqlite_find_role_assignment env id);
  list_role_assignments := mmap_err AuthPrincipal (sqlite_list_role_assignments env);
  find_password_credential id := mmap_err AuthPassword (sqlite_find_password_credential env id);
  save_password_credential c := mmap_err AuthPassword (sqlite_save_password_credential env c);
  list_totp_authenticators p := mmap_err AuthTotp (sqlite_list_totp_authenticators env master_key p);
  record_totp_step id step := mmap_err AuthTotp (sqlite_record_totp_step env id step);
  find_bootstrap_code_by_hash hash := mmap_err AuthBootstrap (sqlite_find_bootstrap_code_by_hash env hash);
  has_unconsumed_bootstrap_code := mmap_err AuthBootstrap (sqlite_has_unconsumed_bootstrap_code env);
  consume_bootstrap_code code used_by password authenticator session at_ :=
    mmap_err AuthBootstrap
      (sqlite_consume_bootstrap_code env master_key code used_by password authenticator session at_);
}.
End standalone.

(** ** The contract holds *)

Section laws.
Context {Key : Type} `{CipherSuiteLaws Key, UnicodeCaseLaws} (env : Env) (master_key : Key).
Hypothesis Hrandom : ∀ n, random_ok (env_random env n).

Lemma reads_map_err {V St E F A} (view : St → V) ok (P : V → A → Prop) (f : E → F) s s' r :
  reads view ok P s s' r → reads view ok P s s' (map_err f r).
Proof. intros (Hok & Hv & Hr). split; [done|]. split; [done|]. destruct r; simpl; naive_solver. Qed.

Lemma writes_map_err {V St E F} (view : St → V) ok (P : V → V → Prop) (f : E → F) s s' r :
  writes view ok P s s' r → writes view ok P s s' (map_err f r).
Proof. intros (Hok & Hr). split; [done|]. by destruct r. Qed.

(** The refinement of one method, through the error of the runtime. *)
Tactic Notation "delegate" uconstr(refines) :=
  intros;
  let Hrun := match goal with H : _ = (_, _) |- _ => H end in
  let r := fresh "answer" in
  apply mmap_err_inv in Hrun as (r & Hrun & ->); eapply refines in Hrun;
  [first [by apply reads_map_err | by apply writes_map_err
         | simpl in *; destruct Hrun as [? Hrun]; split; [done|]; by destruct r]|done..].

#[export] Instance sqlite_account_laws :
  @AccountStoreLaws (World AccountTables) StandaloneAuthError (sqlite_accounts env master_key).
Proof.
  apply (@Build_AccountStoreLaws _ _ (sqlite_accounts env master_key)
    (λ w, accounts_of master_key (w_db w)) (λ w, tables_ok master_key (w_db w))); cbv beta.
  - intros s id a _. simpl. rewrite decoded_lookup. intros (m & _ & Hm)%bind_Some.
    unfold session_of in Hm. case_decide as Hd; [|done]. injection Hm as <-. split; apply Hd.
  - delegate find_session_refines.
  - delegate create_session_refines.
  - delegate touch_session_refines.
  - delegate classified_revoke_refines.
  - delegate revoke_sessions_for_refines.
  - delegate list_sessions_refines.
  - delegate find_principal_refines.
  - delegate find_by_name_refines.
  - delegate list_principals_refines.
  - delegate create_principal_refines.
  - delegate set_state_refines.
  - delegate assign_role_refines.
  - delegate find_role_refines.
  - delegate list_roles_refines.
  - delegate find_password_refines.
  - delegate save_password_refines.
  - delegate list_totps_refines.
  - delegate record_step_refines.
  - delegate find_code_refines.
  - delegate unconsumed_refines.
  - delegate consume_refines.
Defined.
End laws.
