(* ===== verification/WebRoutes.v ===== *)
(** * WebRoutes: which paths the console serves and who may reach them

    The route tables of [web/src/lib.rs] (the edge and the center surface), the
    method each handler is registered under, and the access table of
    [web/src/auth.rs] that the authentication middleware consults. *)
From S2P Require Import Prelude Text Accounts AuditLog ArtifactStore.
Local Open Scope N_scope.

(** [http::Method], compared by name. *)
Inductive Method := GET | POST | PUT | DELETE | HEAD | OtherMethod (name : str).
#[export] Instance Method_eq_dec : EqDecision Method.
Proof. solve_decision. Defined.

(** ** The surfaces *)

Inductive ConsoleScope := Edge | CenterConsole.
#[export] Instance ConsoleScope_eq_dec : EqDecision ConsoleScope.
Proof. solve_decision. Defined.

Definition ConsoleScope_of (origin : DeploymentPosture) : ConsoleScope :=
  match origin with Standalone | Site => Edge | Center => CenterConsole end.

(** How a handler is registered: its method, and the limit on its body when it
    has one of its own. *)
Record MethodRouter := mk_method_router { mr_method : Method; mr_body_limit : option N }.
Definition get_route := mk_method_router GET None.
Definition post_route := mk_method_router POST None.
Definition put_route := mk_method_router PUT None.
Definition delete_route := mk_method_router DELETE None.
Definition body_limited (limit : N) (r : MethodRouter) : MethodRouter :=
  mk_method_router (mr_method r) (Some limit).
Definition ARTIFACT_CHUNK_BODY_LIMIT_BYTES : N := Z.to_N ARTIFACT_CHUNK_BASE64_MAX_BYTES + 1024.

Inductive EdgeRouteKind :=
| Edge_Health
| Edge_About
| Edge_EndpointInventory
| Edge_Overview
| Edge_EndpointResources
| Edge_ResourceDiagnostics
| Edge_EndpointCapabilities
| Edge_CredentialInventory
| Edge_CreateCredential
| Edge_BeginEndpointTrust
| Edge_ConfirmEndpointTrust
| Edge_EnrollEndpoint
| Edge_ImportEndpointsCsv
| Edge_RefreshEndpoints
| Edge_AuditQuery
| Edge_EventQuery
| Edge_TelemetrySeries
| Edge_TelemetrySamples
| Edge_CreateOperation
| Edge_ListOperations
| Edge_OperationDetail
| Edge_ListBatches
| Edge_BatchDetail
| Edge_CreateArtifact
| Edge_ListArtifacts
| Edge_AppendArtifactChunk
| Edge_FinalizeArtifact
| Edge_ArtifactDetail
| Edge_GroupInventory
| Edge_CreateGroup
| Edge_GroupDetail
| Edge_DeleteGroup
| Edge_AddGroupMember
| Edge_RemoveGroupMember
| Edge_TagInventory
| Edge_AssignTag
| Edge_RemoveTag
| Edge_Login
| Edge_Logout
| Edge_BootstrapComplete
| Edge_ChangePassword
| Edge_Me
| Edge_ListSessions
| Edge_RevokeSession
| Edge_ListUsers
| Edge_CreateUser
| Edge_SetUserState
| Edge_AssignUserRole
| Edge_SetUserPassword.
#[export] Instance EdgeRouteKind_eq_dec : EqDecision EdgeRouteKind.
Proof. solve_decision. Defined.

Definition EDGE_ROUTES : list (Method * str * EdgeRouteKind) := [
  (GET, lit "/api/v1/health", Edge_Health);
  (GET, lit "/api/v1/about", Edge_About);
  (GET, lit "/api/v1/endpoints", Edge_EndpointInventory);
  (GET, lit "/api/v1/overview", Edge_Overview);
  (GET, lit "/api/v1/endpoints/{endpoint_id}/resources", Edge_EndpointResources);
  (GET, lit "/api/v1/endpoints/{endpoint_id}/resources/{resource_id}/diagnostics", Edge_ResourceDiagnostics);
  (GET, lit "/api/v1/endpoints/{endpoint_id}/capabilities", Edge_EndpointCapabilities);
  (GET, lit "/api/v1/credentials", Edge_CredentialInventory);
  (POST, lit "/api/v1/credentials", Edge_CreateCredential);
  (POST, lit "/api/v1/endpoints/trust", Edge_BeginEndpointTrust);
  (POST, lit "/api/v1/endpoints/trust/expect", Edge_ConfirmEndpointTrust);
  (POST, lit "/api/v1/endpoints", Edge_EnrollEndpoint);
  (POST, lit "/api/v1/endpoints/import", Edge_ImportEndpointsCsv);
  (POST, lit "/api/v1/endpoints/refresh", Edge_RefreshEndpoints);
  (GET, lit "/api/v1/audit", Edge_AuditQuery);
  (GET, lit "/api/v1/events", Edge_EventQuery);
  (GET, lit "/api/v1/telemetry", Edge_TelemetrySeries);
  (GET, lit "/api/v1/telemetry/{series_id}/samples", Edge_TelemetrySamples);
  (POST, lit "/api/v1/operations", Edge_CreateOperation);
  (GET, lit "/api/v1/operations", Edge_ListOperations);
  (GET, lit "/api/v1/operations/{operation_id}", Edge_OperationDetail);
  (GET, lit "/api/v1/batches", Edge_ListBatches);
  (GET, lit "/api/v1/batches/{batch_id}", Edge_BatchDetail);
  (POST, lit "/api/v1/artifacts", Edge_CreateArtifact);
  (GET, lit "/api/v1/artifacts", Edge_ListArtifacts);
  (POST, lit "/api/v1/artifacts/{artifact_id}/chunks", Edge_AppendArtifactChunk);
  (POST, lit "/api/v1/artifacts/{artifact_id}/finalize", Edge_FinalizeArtifact);
  (GET, lit "/api/v1/artifacts/{artifact_id}", Edge_ArtifactDetail);
  (GET, lit "/api/v1/groups", Edge_GroupInventory);
  (POST, lit "/api/v1/groups", Edge_CreateGroup);
  (GET, lit "/api/v1/groups/{group_id}", Edge_GroupDetail);
  (DELETE, lit "/api/v1/groups/{group_id}", Edge_DeleteGroup);
  (PUT, lit "/api/v1/groups/{group_id}/members/{endpoint_id}", Edge_AddGroupMember);
  (DELETE, lit "/api/v1/groups/{group_id}/members/{endpoint_id}", Edge_RemoveGroupMember);
  (GET, lit "/api/v1/tags", Edge_TagInventory);
  (PUT, lit "/api/v1/tags", Edge_AssignTag);
  (DELETE, lit "/api/v1/endpoints/{endpoint_id}/tags/{tag_name}", Edge_RemoveTag);
  (POST, lit "/api/v1/auth/login", Edge_Login);
  (POST, lit "/api/v1/auth/logout", Edge_Logout);
  (POST, lit "/api/v1/auth/bootstrap", Edge_BootstrapComplete);
  (POST, lit "/api/v1/auth/password", Edge_ChangePassword);
  (GET, lit "/api/v1/auth/me", Edge_Me);
  (GET, lit "/api/v1/admin/sessions", Edge_ListSessions);
  (POST, lit "/api/v1/admin/sessions", Edge_RevokeSession);
  (GET, lit "/api/v1/admin/users", Edge_ListUsers);
  (POST, lit "/api/v1/admin/users", Edge_CreateUser);
  (POST, lit "/api/v1/admin/users/{principal_id}/state", Edge_SetUserState);
  (POST, lit "/api/v1/admin/users/{principal_id}/role", Edge_AssignUserRole);
  (POST, lit "/api/v1/admin/users/{principal_id}/password", Edge_SetUserPassword)
].

Definition edge_route (kind : EdgeRouteKind) : MethodRouter :=
  match kind with
  | Edge_Health | Edge_About | Edge_EndpointInventory | Edge_Overview
  | Edge_EndpointResources | Edge_ResourceDiagnostics | Edge_EndpointCapabilities
  | Edge_CredentialInventory => get_route
  | Edge_CreateCredential | Edge_BeginEndpointTrust | Edge_ConfirmEndpointTrust
  | Edge_EnrollEndpoint | Edge_ImportEndpointsCsv | Edge_RefreshEndpoints => post_route
  | Edge_AuditQuery | Edge_EventQuery | Edge_TelemetrySeries | Edge_TelemetrySamples => get_route
  | Edge_CreateOperation => post_route
  | Edge_ListOperations | Edge_OperationDetail | Edge_ListBatches | Edge_BatchDetail => get_route
  | Edge_CreateArtifact => post_route
  | Edge_ListArtifacts => get_route
  | Edge_AppendArtifactChunk =>
      body_limited ARTIFACT_CHUNK_BODY_LIMIT_BYTES post_route
  | Edge_FinalizeArtifact => post_route
  | Edge_ArtifactDetail | Edge_GroupInventory => get_route
  | Edge_CreateGroup => post_route
  | Edge_GroupDetail => get_route
  | Edge_DeleteGroup => delete_route
  | Edge_AddGroupMember => put_route
  | Edge_RemoveGroupMember => delete_route
  | Edge_TagInventory => get_route
  | Edge_AssignTag => put_route
  | Edge_RemoveTag => delete_route
  | Edge_Login | Edge_Logout | Edge_BootstrapComplete | Edge_ChangePassword => post_route
  | Edge_Me | Edge_ListSessions => get_route
  | Edge_RevokeSession => post_route
  | Edge_ListUsers => get_route
  | Edge_CreateUser | Edge_SetUserState | Edge_AssignUserRole | Edge_SetUserPassword => post_route
  end.

Inductive CenterRouteKind :=
| Ctr_Health
| Ctr_About
| Ctr_AuditQuery
| Ctr_CenterSites
| Ctr_RegisterCenterSite
| Ctr_RevokeCenterBinding
| Ctr_CenterEndpoints
| Ctr_CenterOperations
| Ctr_SubmitCenterOperation
| Ctr_Login
| Ctr_Logout
| Ctr_BootstrapComplete
| Ctr_ChangePassword
| Ctr_Me
| Ctr_ListSessions
| Ctr_RevokeSession
| Ctr_ListUsers
| Ctr_CreateUser
| Ctr_SetUserState
| Ctr_AssignUserRole
| Ctr_SetUserPassword.
#[export] Instance CenterRouteKind_eq_dec : EqDecision CenterRouteKind.
Proof. solve_decision. Defined.

Definition CENTER_ROUTES : list (Method * str * CenterRouteKind) := [
  (GET, lit "/api/v1/health", Ctr_Health);
  (GET, lit "/api/v1/about", Ctr_About);
  (GET, lit "/api/v1/audit", Ctr_AuditQuery);
  (GET, lit "/api/v1/center/sites", Ctr_CenterSites);
  (POST, lit "/api/v1/center/bindings", Ctr_RegisterCenterSite);
  (POST, lit "/api/v1/center/bindings/revoke", Ctr_RevokeCenterBinding);
  (GET, lit "/api/v1/center/endpoints", Ctr_CenterEndpoints);
  (GET, lit "/api/v1/center/operations", Ctr_CenterOperations);
  (POST, lit "/api/v1/center/operations", Ctr_SubmitCenterOperation);
  (POST, lit "/api/v1/auth/login", Ctr_Login);
  (POST, lit "/api/v1/auth/logout", Ctr_Logout);
  (POST, lit "/api/v1/auth/bootstrap", Ctr_BootstrapComplete);
  (POST, lit "/api/v1/auth/password", Ctr_ChangePassword);
  (GET, lit "/api/v1/auth/me", Ctr_Me);
  (GET, lit "/api/v1/admin/sessions", Ctr_ListSessions);
  (POST, lit "/api/v1/admin/sessions", Ctr_RevokeSession);
  (GET, lit "/api/v1/admin/users", Ctr_ListUsers);
  (POST, lit "/api/v1/admin/users", Ctr_CreateUser);
  (POST, lit "/api/v1/admin/users/{principal_id}/state", Ctr_SetUserState);
  (POST, lit "/api/v1/admin/users/{principal_id}/role", Ctr_AssignUserRole);
  (POST, lit "/api/v1/admin/users/{principal_id}/password", Ctr_SetUserPassword)
].

Definition center_route (kind : CenterRouteKind) : MethodRouter :=
  match kind with
  | Ctr_Health | Ctr_About | Ctr_AuditQuery | Ctr_CenterSites => get_route
  | Ctr_RegisterCenterSite | Ctr_RevokeCenterBinding => post_route
  | Ctr_CenterEndpoints | Ctr_CenterOperations => get_route
  | Ctr_SubmitCenterOperation | Ctr_Login | Ctr_Logout | Ctr_BootstrapComplete
  | Ctr_ChangePassword => post_route
  | Ctr_Me | Ctr_ListSessions => get_route
  | Ctr_RevokeSession => post_route
  | Ctr_ListUsers => get_route
  | Ctr_CreateUser | Ctr_SetUserState | Ctr_AssignUserRole | Ctr_SetUserPassword => post_route
  end.

(** ** Access *)

(** [RoleMask]: one bit per role. *)
Abbreviation RoleMask := N.
Definition MASK_ADMINISTRATOR : N := 1.
Definition MASK_OPERATOR : N := N.shiftl 1 1.
Definition MASK_VIEWER : N := N.shiftl 1 2.
Definition ANY : RoleMask := N.lor (N.lor MASK_ADMINISTRATOR MASK_OPERATOR) MASK_VIEWER.
Definition ADMINISTRATOR_ONLY : RoleMask := MASK_ADMINISTRATOR.
Definition ADMINISTRATOR_OR_OPERATOR : RoleMask := N.lor MASK_ADMINISTRATOR MASK_OPERATOR.

Definition RoleMask_allows (mask : RoleMask) (role : Role) : bool :=
  let bit := match role with
             | Administrator => MASK_ADMINISTRATOR
             | Operator => MASK_OPERATOR
             | Viewer => MASK_VIEWER
             end in
  negb (N.land mask bit =? 0).

Inductive RouteAccess :=
| Public
| Always (roles : RoleMask) (mutation : bool)
| GuardedOnly (roles : RoleMask) (mutation : bool).
#[export] Instance RouteAccess_eq_dec : EqDecision RouteAccess.
Proof. solve_decision. Defined.

Definition ROUTE_TABLE : list (Method * str * RouteAccess) := [
  (GET, lit "/api/v1/health", Public);
  (GET, lit "/api/v1/about", Public);
  (POST, lit "/api/v1/auth/login", Public);
  (POST, lit "/api/v1/auth/bootstrap", Public);
  (GET, lit "/api/v1/auth/me", Public);
  (POST, lit "/api/v1/auth/logout", Always ANY true);
  (POST, lit "/api/v1/auth/password", Always ANY true);
  (GET, lit "/api/v1/admin/sessions", Always ADMINISTRATOR_ONLY false);
  (POST, lit "/api/v1/admin/sessions", Always ADMINISTRATOR_ONLY true);
  (GET, lit "/api/v1/admin/users", Always ADMINISTRATOR_ONLY false);
  (POST, lit "/api/v1/admin/users", Always ADMINISTRATOR_ONLY true);
  (POST, lit "/api/v1/admin/users*", Always ADMINISTRATOR_ONLY true);
  (GET, lit "/api/v1/audit", GuardedOnly ADMINISTRATOR_OR_OPERATOR false);
  (GET, lit "/api/v1/operations*", GuardedOnly ANY false);
  (GET, lit "/api/v1/batches*", GuardedOnly ANY false);
  (POST, lit "/api/v1/operations", GuardedOnly ADMINISTRATOR_OR_OPERATOR true);
  (GET, lit "/api/v1/artifacts*", GuardedOnly ANY false);
  (POST, lit "/api/v1/artifacts*", GuardedOnly ADMINISTRATOR_OR_OPERATOR true);
  (GET, lit "/api/v1/credentials", GuardedOnly ADMINISTRATOR_ONLY false);
  (POST, lit "/api/v1/credentials", GuardedOnly ADMINISTRATOR_ONLY true);
  (POST, lit "/api/v1/endpoints/trust*", GuardedOnly ADMINISTRATOR_ONLY true);
  (POST, lit "/api/v1/endpoints/import", GuardedOnly ADMINISTRATOR_ONLY true);
  (POST, lit "/api/v1/endpoints/refresh", GuardedOnly ADMINISTRATOR_ONLY true);
  (POST, lit "/api/v1/endpoints", GuardedOnly ADMINISTRATOR_ONLY true);
  (GET, lit "/api/v1/endpoints*", GuardedOnly ANY false);
  (DELETE, lit "/api/v1/endpoints*", GuardedOnly ADMINISTRATOR_ONLY true);
  (GET, lit "/api/v1/groups*", GuardedOnly ANY false);
  (GET, lit "/api/v1/tags", GuardedOnly ANY false);
  (POST, lit "/api/v1/groups", GuardedOnly ADMINISTRATOR_ONLY true);
  (PUT, lit "/api/v1/groups*", GuardedOnly ADMINISTRATOR_ONLY true);
  (DELETE, lit "/api/v1/groups*", GuardedOnly ADMINISTRATOR_ONLY true);
  (PUT, lit "/api/v1/tags", GuardedOnly ADMINISTRATOR_ONLY true);
  (GET, lit "/api/v1/events", GuardedOnly ANY false);
  (GET, lit "/api/v1/overview", GuardedOnly ANY false);
  (GET, lit "/api/v1/telemetry*", GuardedOnly ANY false);
  (GET, lit "/api/v1/center*", GuardedOnly ANY false);
  (POST, lit "/api/v1/center/bindings*", GuardedOnly ADMINISTRATOR_ONLY true);
  (POST, lit "/api/v1/center/operations", GuardedOnly ADMINISTRATOR_OR_OPERATOR true)
].

Definition CENTER_SURFACE_PREFIX : str := lit "/api/v1/center".

(** [str::strip_suffix] of one character. *)
Definition strip_star (pattern : str) : option str :=
  match last pattern with
  | Some c => if decide (c = 42) then Some (removelast pattern) else None
  | None => None
  end.

Definition pattern_covers (pattern path : str) : bool :=
  match strip_star pattern with Some prefix => starts_with prefix path | None => false end
  || bool_decide (path = pattern).

Fixpoint table_lookup (table : list (Method * str * RouteAccess)) (method : Method) (path : str)
    (scope : ConsoleScope) : option RouteAccess :=
  match table with
  | [] => None
  | (route_method, pattern, access) :: table =>
      if decide (route_method ≠ method) then table_lookup table method path scope
      else if starts_with CENTER_SURFACE_PREFIX pattern && bool_decide (scope ≠ CenterConsole)
      then table_lookup table method path scope
      else if pattern_covers pattern path then Some access else table_lookup table method path scope
  end.

Definition table_entry (method : Method) (path : str) (scope : ConsoleScope) : option RouteAccess :=
  table_lookup ROUTE_TABLE method path scope.

(** [HEAD] is answered by the handlers of [GET] and guarded like them. *)
Definition route_access (method : Method) (path : str) (scope : ConsoleScope) : RouteAccess :=
  let table_method := if decide (method = HEAD) then GET else method in
  default Public (table_entry table_method path scope).

(** [static_asset], over what the build embedded: the name of the asset served. *)
Fixpoint trim_start_slashes (path : str) : str :=
  match path with
  | c :: rest => if decide (c = 47) then trim_start_slashes rest else path
  | [] => []
  end.
Definition static_asset (embedded : str → bool) (path : str) : option str :=
  let path := trim_start_slashes path in
  if bool_decide (path = lit "api") || starts_with (lit "api/") path then None
  else
    let requested := if decide (path = []) then lit "index.html" else path in
    if embedded requested then Some requested
    else if bool_decide (46 ∉ requested) && embedded (lit "index.html") then Some (lit "index.html")
    else None.

(** ** The registered routes and the access table agree *)

(** The methods and patterns a surface answers. *)
Definition registered (scope : ConsoleScope) : list (Method * str) :=
  match scope with
  | Edge => (λ '(_, pattern, kind), (mr_method (edge_route kind), pattern)) <$> EDGE_ROUTES
  | CenterConsole => (λ '(_, pattern, kind), (mr_method (center_route kind), pattern)) <$> CENTER_ROUTES
  end.

(** The paths a route pattern matches: a [{parameter}] stands for one segment. *)
Inductive matches : str → str → Prop :=
| matches_end : matches [] []
| matches_char c p s : c ≠ 123 → matches p s → matches (c :: p) (c :: s)
| matches_param name segment p s :
    125 ∉ name → 47 ∉ segment → segment ≠ [] → matches p s →
    matches (123 :: name ++ 125 :: p) (segment ++ s).

(** The part of a pattern before its first parameter. *)
Fixpoint static_prefix (pattern : str) : str :=
  match pattern with
  | c :: rest => if decide (c = 123) then [] else c :: static_prefix rest
  | [] => []
  end.

Lemma matches_prefix p s : matches p s → ∃ rest, s = static_prefix p ++ rest ∧ (123 ∉ p → s = p).
Proof.
  induction 1 as [|c p s Hc _ IH|name seg p s _ _ _ _ _]; simpl.
  - by exists [].
  - destruct IH as (rest & -> & IH). rewrite decide_False by done. exists rest. split; [done|].
    rewrite not_elem_of_cons. intros [_ Hp]. f_equal. by apply IH.
  - eexists. split; [done|]. rewrite not_elem_of_cons. naive_solver.
Qed.

(** What the table answers for every path that begins with [prefix], when its
    entries settle that. *)
Definition must_cover (pattern prefix : str) : bool :=
  match strip_star pattern with Some q => starts_with q prefix | None => false end.
Definition could_cover (pattern prefix : str) : bool :=
  starts_with prefix pattern ||
  match strip_star pattern with Some q => starts_with prefix q | None => false end.

Fixpoint lookup_under (table : list (Method * str * RouteAccess)) (method : Method) (prefix : str)
    (scope : ConsoleScope) : option (option RouteAccess) :=
  match table with
  | [] => Some None
  | (route_method, pattern, access) :: table =>
      if decide (route_method ≠ method) then lookup_under table method prefix scope
      else if starts_with CENTER_SURFACE_PREFIX pattern && bool_decide (scope ≠ CenterConsole)
      then lookup_under table method prefix scope
      else if must_cover pattern prefix then Some (Some access)
      else if could_cover pattern prefix then None
      else lookup_under table method prefix scope
  end.

Lemma starts_with_app q s : starts_with q s = true ↔ ∃ rest, s = q ++ rest.
Proof.
  unfold starts_with. destruct (strip_prefix q s) as [rest|] eqn:Hs.
  - apply strip_prefix_Some in Hs. split; [eauto|done].
  - split; [done|]. intros [rest Hr]. apply strip_prefix_Some in Hr. congruence.
Qed.

Lemma prefix_split (q prefix rest other : str) :
  prefix ++ rest = q ++ other → (∃ k, prefix = q ++ k) ∨ ∃ k, q = prefix ++ k.
Proof.
  revert q. induction prefix as [|c prefix IH]; intros [|d q] Heq; simpl in *; eauto.
  injection Heq as -> Heq. destruct (IH _ Heq) as [[k ->]|[k ->]]; eauto.
Qed.

Lemma covers_under pattern prefix rest :
  (must_cover pattern prefix = true → pattern_covers pattern (prefix ++ rest) = true) ∧
  (must_cover pattern prefix = false → could_cover pattern prefix = false →
   pattern_covers pattern (prefix ++ rest) = false).
Proof.
  unfold must_cover, could_cover, pattern_covers. split.
  - destruct (strip_star pattern) as [q|]; [|done]. intros [k ->]%starts_with_app.
    apply orb_true_intro. left. apply starts_with_app. rewrite <- app_assoc. eauto.
  - intros Hm [Hp Hq]%orb_false_elim. apply orb_false_intro.
    + destruct (strip_star pattern) as [q|]; [|done]. apply not_true_is_false.
      intros [k Hk]%starts_with_app. apply prefix_split in Hk as [Hk|Hk]; apply starts_with_app in Hk; congruence.
    + apply bool_decide_eq_false_2. intros <-. apply not_true_iff_false in Hp. apply Hp, starts_with_app. eauto.
Qed.

Lemma lookup_under_sound table method prefix scope r rest :
  lookup_under table method prefix scope = Some r → table_lookup table method (prefix ++ rest) scope = r.
Proof.
  induction table as [|[[m p] a] table IH]; simpl; [congruence|].
  case_decide; [done|]. destruct (_ && _); [done|].
  destruct (covers_under p prefix rest) as [Hyes Hno].
  destruct (must_cover p prefix); [intros [= <-]; by rewrite Hyes|].
  destruct (could_cover p prefix); [done|]. by rewrite Hno.
Qed.

(** The access of every path of a registered route. *)
Definition row_access (scope : ConsoleScope) (row : Method * str) : option RouteAccess :=
  let '(method, pattern) := row in
  if decide (123 ∈ pattern)
  then lookup_under ROUTE_TABLE method (static_prefix pattern) scope ≫= id
  else table_entry method pattern scope.

Lemma row_access_sound scope method pattern path access :
  row_access scope (method, pattern) = Some access → matches pattern path →
  table_entry method path scope = Some access.
Proof.
  unfold row_access, table_entry. intros Hrow Hm. apply matches_prefix in Hm as (rest & Hpath & Hexact).
  case_decide as Hp; [|by rewrite Hexact].
  apply bind_Some in Hrow as (o & Hl & Ho). unfold id in Ho. subst o. rewrite Hpath.
  by apply lookup_under_sound.
Qed.

(** *** What the table grants *)

Definition access_mutation (a : RouteAccess) : bool :=
  match a with Public => false | Always _ mutation | GuardedOnly _ mutation => mutation end.
Definition access_roles (a : RouteAccess) : RoleMask :=
  match a with Public => ANY | Always roles _ | GuardedOnly roles _ => roles end.

Definition public_patterns : list str :=
  [lit "/api/v1/health"; lit "/api/v1/about"; lit "/api/v1/auth/login"; lit "/api/v1/auth/bootstrap";
   lit "/api/v1/auth/me"].
Definition own_account_patterns : list str := [lit "/api/v1/auth/logout"; lit "/api/v1/auth/password"].

Definition row_agrees (scope : ConsoleScope) (row : Method * str) : bool :=
  let '(method, pattern) := row in
  match row_access scope row with
  | None => false
  | Some access =>
      bool_decide (method ≠ HEAD) &&
      bool_decide (access = Public ↔ pattern ∈ public_patterns) &&
      bool_decide (access ≠ Public → (access_mutation access = true ↔ method ≠ GET)) &&
      bool_decide (access_mutation access = true → RoleMask_allows (access_roles access) Viewer = true →
                   pattern ∈ own_account_patterns) &&
      bool_decide (starts_with (lit "/api/v1/admin/") pattern = true →
                   access = Always ADMINISTRATOR_ONLY (access_mutation access))
  end.

Lemma rows_agree scope : forallb (row_agrees scope) (registered scope) = true.
Proof. by destruct scope; vm_compute. Qed.

(** Every path of every registered route has an entry of its own in the access
    table; only health, about, sign-in, bootstrap and the session state are
    public; exactly the methods that change something demand the CSRF token; a
    viewer changes nothing but its own session and password; the administration
    surface is the administrators', in every mode; and [HEAD] reaches nothing
    that [GET] does not. *)
Theorem registered_routes_guarded scope method pattern path :
  (method, pattern) ∈ registered scope → matches pattern path →
  ∃ access, table_entry method path scope = Some access ∧ route_access method path scope = access ∧
    (method = GET → route_access HEAD path scope = access) ∧
    (access = Public ↔ pattern ∈ public_patterns) ∧
    (access ≠ Public → (access_mutation access = true ↔ method ≠ GET)) ∧
    (access_mutation access = true → RoleMask_allows (access_roles access) Viewer = true →
     pattern ∈ own_account_patterns) ∧
    (starts_with (lit "/api/v1/admin/") pattern = true →
     access = Always ADMINISTRATOR_ONLY (access_mutation access)).
Proof.
  intros Hrow Hm. pose proof (proj1 (forallb_forall _ _) (rows_agree scope) _
    (proj1 (list_elem_of_In _ _) Hrow)) as Hag.
  unfold row_agrees in Hag. destruct (row_access scope (method, pattern)) as [access|] eqn:Ha; [|done].
  pose proof (row_access_sound _ _ _ _ _ Ha Hm) as Hentry. exists access.
  repeat (apply andb_prop in Hag as [Hag ?]). repeat match goal with H : bool_decide _ = true |- _ =>
    apply bool_decide_eq_true in H end.
  unfold route_access. rewrite decide_False, Hentry by done.
  destruct_and?. split_and!; try done. intros ->. simpl. by rewrite Hentry.
Qed.

Lemma registered_routes_guarded_witness :
  ∃ access, table_entry POST (lit "/api/v1/admin/users/7/password") Edge = Some access ∧
    access = Always ADMINISTRATOR_ONLY true.
Proof.
  destruct (registered_routes_guarded Edge POST (lit "/api/v1/admin/users/{principal_id}/password")
    (lit "/api/v1/admin/users/7/password")) as (access & He & _ & _ & _ & Hmut & _ & Hadmin).
  - apply (bool_decide_eq_true_1 _). vm_compute. reflexivity.
  - repeat (apply matches_char; [done|]).
    apply (matches_param (lit "principal_id") (lit "7")); [by apply (bool_decide_eq_true_1 _)|by apply (bool_decide_eq_true_1 _)|done|].
    repeat (apply matches_char; [done|]). apply matches_end.
  - exists access. split; [exact He|]. rewrite Hadmin by reflexivity. f_equal.
    apply Hmut; [|done]. rewrite Hadmin by reflexivity. done.
Defined.
