(* ===== verification/WebRuntime.v ===== *)
(** * WebRuntime: how a request meets what it shares

    A handler of [web/src/auth.rs] is a sequence of accesses to what all requests
    share (the account store, the rate limiters, the sign-in gate) and of calls
    to the outside.  Other requests run before every access; the future of a
    handler may be dropped at any [await], when the client leaves or the timeout
    of the server strikes, and what was done before stays done. *)
From S2P Require Import Prelude Text Accounts AuditLog AccountStore RateLimiter WebRoutes.
Local Open Scope Z_scope.

(** ** Requests and responses *)

(** An [IpAddr]: four bytes, or eight 16-bit segments. *)
Inductive IpAddr := V4 (octets : list N) | V6 (segments : list N).

Record WebRequest := mk_request {
  rq_method : Method;
  rq_path : str;
  rq_scheme : option str;
  (** The headers [Cookie], [X-CSRF-Token] and [X-Forwarded-Proto], when they are
      there and [to_str] reads them. *)
  rq_cookie : option str;
  rq_csrf_token : option str;
  rq_forwarded_proto : option str;
  rq_peer : option IpAddr;
}.

(** The wire states and roles are the domain's, one for one. *)
Inductive PrincipalStateResponse := WireEnabled | WireDisabled.
Inductive RoleResponse := WireAdministrator | WireOperator | WireViewer.
Definition wire_state (s : PrincipalState) : PrincipalStateResponse :=
  match s with Enabled => WireEnabled | Disabled => WireDisabled end.
Definition domain_state (s : PrincipalStateResponse) : PrincipalState :=
  match s with WireEnabled => Enabled | WireDisabled => Disabled end.
Definition wire_role (r : Role) : RoleResponse :=
  match r with Administrator => WireAdministrator | Operator => WireOperator | Viewer => WireViewer end.
Definition domain_role (r : RoleResponse) : Role :=
  match r with WireAdministrator => Administrator | WireOperator => Operator | WireViewer => Viewer end.

Record PrincipalSummaryResponse := mk_principal_summary {
  ps_id : str; ps_name : str; ps_state : PrincipalStateResponse; ps_role : option RoleResponse;
}.
Record SessionSummaryResponse := mk_session_summary {
  ss_id : str; ss_principal_id : str; ss_principal_name : str;
  ss_created_at : OffsetDateTime; ss_last_used_at : OffsetDateTime; ss_expires_at : OffsetDateTime;
  ss_revoked_at : option OffsetDateTime; ss_current : bool;
}.
Record UserSummaryResponse := mk_user_summary {
  us_id : str; us_name : str; us_state : PrincipalStateResponse; us_role : option RoleResponse;
  us_created_at : OffsetDateTime;
}.

Inductive ResponseBody :=
| EmptyBody
| ErrorResponse (message : str)
| LoginResponse (csrf_token : str)
| BootstrapCompleteResponse (csrf_token : str)
| MeResponse (authenticated bootstrap_pending : bool) (principal : option PrincipalSummaryResponse)
| SessionAdminResponse (sessions : list SessionSummaryResponse)
| UserAdminResponse (users : list UserSummaryResponse)
| OtherBody.

Record Response := mk_response {
  rsp_status : N;
  rsp_body : ResponseBody;
  rsp_set_cookie : option str;
  rsp_no_store : bool;
}.

Definition OK : N := 200.
Definition BAD_REQUEST : N := 400.
Definition UNAUTHORIZED : N := 401.
Definition FORBIDDEN : N := 403.
Definition NOT_FOUND : N := 404.
Definition CONFLICT : N := 409.
Definition TOO_MANY_REQUESTS : N := 429.
Definition INTERNAL_SERVER_ERROR : N := 500.
Definition SERVICE_UNAVAILABLE : N := 503.

Definition json (body : ResponseBody) : Response := mk_response OK body None false.
Definition no_store (r : Response) : Response :=
  mk_response (rsp_status r) (rsp_body r) (rsp_set_cookie r) true.
Definition json_ok (body : ResponseBody) : Response := no_store (json body).
Definition json_error (status : N) (message : str) : Response :=
  no_store (mk_response status (ErrorResponse message) None false).
Definition uncached_status (status : N) : Response := mk_response status EmptyBody None true.
Definition with_cookie (cookie : str) (r : Response) : Response :=
  mk_response (rsp_status r) (rsp_body r) (Some cookie) (rsp_no_store r).

(** ** What requests share *)

Inductive AuthPolicy := PolicyOpen | PolicyGuarded | PolicyPendingBootstrap.
#[export] Instance AuthPolicy_eq_dec : EqDecision AuthPolicy.
Proof. solve_decision. Defined.

(** [AuthState] and the store; the gate of [PendingBootstrap] is armed or not. *)
Record Shared (St : Type) := mk_shared {
  sh_store : St;
  sh_rate_limiter : LoginRateLimiter;
  sh_password_change_limiter : LoginRateLimiter;
  sh_bootstrap_limiter : LoginRateLimiter;
  sh_me_limiter : LoginRateLimiter;
  sh_gate : bool;
}.
Arguments mk_shared {St}.
Arguments sh_store {St}.
Arguments sh_rate_limiter {St}.
Arguments sh_password_change_limiter {St}.
Arguments sh_bootstrap_limiter {St}.
Arguments sh_me_limiter {St}.
Arguments sh_gate {St}.

(** [AuthState::new]. *)
Definition AuthState_new {St} (store : St) : Shared St :=
  mk_shared store LoginRateLimiter_new LoginRateLimiter_new LoginRateLimiter_new LoginRateLimiter_new false.

Inductive LimiterName := LimitLogin | LimitPasswordChange | LimitBootstrap | LimitMe.
#[export] Instance LimiterName_eq_dec : EqDecision LimiterName.
Proof. solve_decision. Defined.

(** What a request did, in order: what is not in the shared state, and its calls of
    the budgets with their answers. *)
Inductive WebEffect :=
| Audited (event : AuditEvent)
| PasswordChecked (hash : Argon2IdHash) (password : str) (verdict : bool)
| PasswordDerived (password : str)
| SlotsReserved (name : LimiterName) (username ip : str) (now : Instant) (answer : option Reservation)
| SlotsRefunded (name : LimiterName) (username ip : str) (reservation : Reservation).

Record WebRun (St : Type) := mk_run { wr_shared : Shared St; wr_log : list WebEffect; wr_calls : nat }.
Arguments mk_run {St}.
Arguments wr_shared {St}.
Arguments wr_log {St}.
Arguments wr_calls {St}.

(** The errors of [AuthServices] that are not the store's. *)
Class AuthErrors (E : Type) := {
  err_hash : E;
  err_hash_worker : E;
  err_hash_gate_busy : E;
  err_tokens : E;
  gate_busy : E → bool;
}.

(** [HeaderValue::from_str] accepts a text, and the text of an identity. *)
Class HttpText := {
  header_value : str → bool;
  uuid_str : Uuid → str;
  uuid_parse : str → option Uuid;
}.

Section runtime.
Context {St E : Type} `{AccountStore St E} `{AuthErrors E} `{WebCrypto} `{UnicodeCase}.

(** What is outside the handler, by the number of the access that meets it. *)
Record Surroundings := mk_surroundings {
  drops : nat → bool;
  others : nat → Shared St → Shared St;
  clock_at : nat → OffsetDateTime;
  wall_at : nat → OffsetDateTime;
  instant_at : nat → Z;
  uuid_at : nat → Uuid;
  (** The random source, asked for that many bytes. *)
  random_at : nat → nat → option (list N);
  slot_at : nat → bool;
  worker_at : nat → bool;
  audit_fault_at : nat → bool;
}.

Context (w : Surroundings).

(** A handler returns early with a response, or dies. *)
Abbreviation Handler := (M (WebRun St) (abrupt Response)).

Definition wr_tick (s : WebRun St) : WebRun St := mk_run (wr_shared s) (wr_log s) (S (wr_calls s)).
Definition with_shared (sh : Shared St) (s : WebRun St) : WebRun St := mk_run sh (wr_log s) (wr_calls s).
Definition happens (e : WebEffect) (s : WebRun St) : WebRun St :=
  mk_run (wr_shared s) (wr_log s ++ [e]) (wr_calls s).

(** A synchronous access to what is shared. *)
Definition access {A} (f : nat → Shared St → Shared St * A) : Handler A :=
  λ s, let n := wr_calls s in
    let '(sh, a) := f n (others w n (wr_shared s)) in
    (with_shared sh (wr_tick s), Ok a).

(** An awaited call. *)
Definition awaited {A} (f : nat → Shared St → Shared St * A) : Handler A :=
  λ s, if drops w (wr_calls s)
       then (with_shared (others w (wr_calls s) (wr_shared s)) (wr_tick s), Err Died)
       else access f s.

Definition draw {A} (f : nat → A) : Handler A := λ s, (wr_tick s, Ok (f (wr_calls s))).
Definition log (e : WebEffect) : Handler () := λ s, (happens e s, Ok ()).
Definition bail {A} (r : Response) : Handler A := mfail (Returned r).

(** [let Some(a) = o else { .. }]. *)
Definition require {A} (o : option A) (otherwise : Handler A) : Handler A :=
  match o with Some a => mret a | None => otherwise end.
(** [result.ok().flatten()]. *)
Definition flatten_ok {A F} (r : result (option A) F) : option A :=
  match r with Ok o => o | Err _ => None end.

(** ** Services *)

(** A method of the store. *)
Definition store {A} (m : M St E A) : Handler (result A E) :=
  awaited (λ _ sh,
    let '(st, r) := m (sh_store sh) in
    (mk_shared st (sh_rate_limiter sh) (sh_password_change_limiter sh) (sh_bootstrap_limiter sh)
       (sh_me_limiter sh) (sh_gate sh), r)).

Definition clock_now : Handler OffsetDateTime := draw (clock_at w).
Definition instant_now : Handler Z := draw (instant_at w).
Definition generate : Handler Uuid := draw (uuid_at w).

(** [append_audit_event]; the answer is never looked at. *)
Definition append_audit_event (e : AuditEvent) : Handler () :=
  let! fault := awaited (λ n sh, (sh, audit_fault_at w n)) in
  if fault then mret () else log (Audited e).

(** [StandaloneState::verify_password_async]: a slot, then a blocking worker. *)
Definition verify_password_async (hash : Argon2IdHash) (password : str) : Handler bool :=
  let! permit := awaited (λ n sh, (sh, slot_at w n)) in
  if negb permit then mret false
  else
    let verdict := verify_password hash password in
    let! joined := awaited (λ n sh, (sh, worker_at w n)) in
    do! log (PasswordChecked hash password (joined && verdict)) in
    mret (joined && verdict).

(** [StandaloneState::hash_password_async]. *)
Definition hash_password_async (password : str) : Handler (result Argon2IdHash E) :=
  let! permit := awaited (λ n sh, (sh, slot_at w n)) in
  if negb permit then mret (Err err_hash_gate_busy)
  else
    let! random := draw (λ n, random_at w n ARGON2ID_SALT_LENGTH) in
    let! joined := awaited (λ n sh, (sh, worker_at w n)) in
    do! log (PasswordDerived password) in
    mret (if joined then map_err (λ _, err_hash) (hash_password random password) else Err err_hash_worker).

Record IssuedSessionTokens := mk_tokens {
  it_session_token : str;
  it_session_token_hash : Digest;
  it_csrf_token : str;
  it_csrf_token_hash : Digest;
}.

(** [StandaloneState::issue_tokens]. *)
Definition issue_tokens : Handler (result IssuedSessionTokens E) :=
  let! session_random := draw (λ n, random_at w n TOKEN_LENGTH) in
  let! csrf_random := draw (λ n, random_at w n TOKEN_LENGTH) in
  mret
    (let? session_token := map_err (λ _, err_tokens) (SessionToken_generate session_random) in
     let? csrf_token := map_err (λ _, err_tokens) (CsrfToken_generate csrf_random) in
     Ok (mk_tokens (SessionToken_as_base64url session_token) (SessionToken_hash session_token)
           (SessionToken_as_base64url csrf_token) (SessionToken_hash csrf_token))).

(** [StandaloneState::token_hash]: what no token encodes hashes to zeros. *)
Definition token_hash (wire : str) : Digest :=
  match SessionToken_from_base64url wire with
  | Ok token => SessionToken_hash token
  | Err _ => replicate 32 0%N
  end.

(** *** Limiters and the gate *)

Definition limiter_of (name : LimiterName) (sh : Shared St) : LoginRateLimiter :=
  match name with
  | LimitLogin => sh_rate_limiter sh
  | LimitPasswordChange => sh_password_change_limiter sh
  | LimitBootstrap => sh_bootstrap_limiter sh
  | LimitMe => sh_me_limiter sh
  end.
Definition with_limiter (name : LimiterName) (l : LoginRateLimiter) (sh : Shared St) : Shared St :=
  let pick n old := if decide (n = name) then l else old in
  mk_shared (sh_store sh) (pick LimitLogin (sh_rate_limiter sh))
    (pick LimitPasswordChange (sh_password_change_limiter sh))
    (pick LimitBootstrap (sh_bootstrap_limiter sh)) (pick LimitMe (sh_me_limiter sh)) (sh_gate sh).

Definition limit {A} (name : LimiterName) (f : LoginRateLimiter → LoginRateLimiter * A) : Handler A :=
  access (λ _ sh, let '(l, a) := f (limiter_of name sh) in (with_limiter name l sh, a)).

(** [LoginRateLimiter::reserve] and [refund], each one step with its line in the
    log. *)
Definition reserve_slots (name : LimiterName) (username ip : str) (now : Instant) : Handler (option Reservation) :=
  let! granted := limit name (λ l, reserve l username ip now) in
  do! log (SlotsReserved name username ip now granted) in
  mret granted.
Definition refund_slots (name : LimiterName) (username ip : str) (reservation : Reservation) : Handler () :=
  do! limit name (λ l, (refund l username ip reservation, ())) in
  log (SlotsRefunded name username ip reservation).

(** [AuthPolicy::is_guarded] and [AuthGate::arm]. *)
Definition is_guarded (policy : AuthPolicy) : Handler bool :=
  access (λ _ sh, (sh, match policy with
                       | PolicyOpen => false
                       | PolicyGuarded => true
                       | PolicyPendingBootstrap => sh_gate sh
                       end)).
Definition arm : Handler () :=
  access (λ _ sh,
    (mk_shared (sh_store sh) (sh_rate_limiter sh) (sh_password_change_limiter sh)
       (sh_bootstrap_limiter sh) (sh_me_limiter sh) true, ())).
End runtime.
