(* ===== verification/WebAuth.v ===== *)
(** * WebAuth: signing in and the requests that need it

    [web/src/auth.rs]: the authentication middleware, sign-in and sign-out, the
    claim of the administrator, and the administration of users and sessions,
    as the code runs them against what all requests share ([WebRuntime]). *)
From S2P Require Import Prelude Text Accounts AuditLog AccountStore RateLimiter WebRoutes.
From S2P Require Import WebRuntime.
Local Open Scope Z_scope.

Definition SESSION_COOKIE_NAME : str := lit "rutilus_session".
Definition BOOTSTRAP_PRINCIPAL_NAME : str := lit "admin".
Definition SESSION_LIFETIME : Z := 8 * 3600 * 1000000000.
Definition TOUCH_INTERVAL : Z := 60 * 1000000000.
Definition MIN_PASSWORD_CHARS : nat := 12.
Definition DUMMY_SALT : list N := replicate ARGON2ID_SALT_LENGTH 26%N.
Definition DUMMY_HASH : list N := replicate ARGON2ID_HASH_LENGTH 43%N.
Definition DUMMY_ADMIN_DERIVATION_INPUT : str := lit "rutilus-dummy-admin-derivation".

(** ** Headers and addresses *)

(** [str::split] of one character. *)
Fixpoint split_char (separator : char) (s : str) : list str :=
  match s with
  | [] => [[]]
  | c :: rest =>
      if decide (c = separator) then [] :: split_char separator rest
      else match split_char separator rest with
           | first :: others => (c :: first) :: others
           | [] => [[c]]
           end
  end.

(** The loop of [cookie_value] over the pairs of the header. *)
Fixpoint cookie_pair (name : str) (pairs : list str) : option str :=
  match pairs with
  | [] => None
  | cookie :: pairs =>
      match strip_prefix name (trim cookie) with
      | Some value =>
          match strip_prefix (lit "=") value with
          | Some value => Some (trim value)
          | None => cookie_pair name pairs
          end
      | None => cookie_pair name pairs
      end
  end.
Definition cookie_value (header : option str) (name : str) : option str :=
  header ← header; cookie_pair name (split_char 59 header).

Definition is_https (rq : WebRequest) : bool :=
  if decide (rq_scheme rq = Some (lit "https")) then true
  else match rq_forwarded_proto rq with
       | Some proto =>
           match head (split_char 44 proto) with
           | Some first => bool_decide (trim first = lit "https")
           | None => false
           end
       | None => false
       end.

(** [session_cookie]; [now] is the wall clock. *)
Definition session_cookie `{HttpText} (token : str) (expires_at now : OffsetDateTime) (secure : bool) : str :=
  let max_age := Z.max 0 (Z.quot (expires_at - now) 1000000000) in
  let cookie :=
    SESSION_COOKIE_NAME ++ lit "=" ++ token ++ lit "; Path=/; HttpOnly; SameSite=Strict; Max-Age="
    ++ decimal (Z.to_N max_age) ++ (if secure then lit "; Secure" else []) in
  if header_value cookie then cookie else lit "rutilus_session=; Max-Age=0".
Definition clear_session_cookie : str :=
  lit "rutilus_session=; Path=/; HttpOnly; SameSite=Strict; Max-Age=0".

(** *** The text of an address *)

Definition ipv4_str (octets : list N) : str :=
  match octets with
  | [a; b; c; d] => decimal a ++ lit "." ++ decimal b ++ lit "." ++ decimal c ++ lit "." ++ decimal d
  | _ => []
  end.

(** Lower-case hexadecimal without leading zeros. *)
Definition hex_digit (d : N) : char := (if d <? 10 then 48 + d else 87 + d)%N.
Definition hex (n : N) : str :=
  let digits := [hex_digit (n / 4096); hex_digit ((n / 256) mod 16); hex_digit ((n / 16) mod 16);
                 hex_digit (n mod 16)]%N in
  if (n <? 16)%N then drop 3 digits else if (n <? 256)%N then drop 2 digits
  else if (n <? 4096)%N then drop 1 digits else digits.

(** The longest run of zero segments, the first of the longest: its start and
    its length, [current] being the run that ends here. *)
Fixpoint longest_zeros (segments : list N) (index : nat) (longest current : nat * nat) : nat * nat :=
  match segments with
  | [] => longest
  | s :: segments =>
      if decide (s = 0%N)
      then
        let current := if decide (current.2 = 0)%nat then (index, 1%nat) else (current.1, S current.2) in
        longest_zeros segments (S index)
          (if decide (longest.2 < current.2)%nat then current else longest) current
      else longest_zeros segments (S index) longest (0, 0)%nat
  end.

Fixpoint colon_separated (segments : list N) : str :=
  match segments with
  | [] => []
  | [s] => hex s
  | s :: segments => hex s ++ lit ":" ++ colon_separated segments
  end.

(** [Ipv6Addr::to_ipv4_mapped]. *)
Definition to_ipv4_mapped (segments : list N) : option (list N) :=
  match segments with
  | [a; b; c; d; e; f; x; y] =>
      if bool_decide ([a; b; c; d; e; f] = [0; 0; 0; 0; 0; 65535]%N)
      then Some [x / 256; x mod 256; y / 256; y mod 256]%N else None
  | _ => None
  end.

(** [Display] of an [Ipv6Addr]. *)
Definition ipv6_str (segments : list N) : str :=
  match to_ipv4_mapped segments with
  | Some octets => lit "::ffff:" ++ ipv4_str octets
  | None =>
      let '(start, len) := longest_zeros segments 0 (0, 0)%nat (0, 0)%nat in
      if decide (1 < len)%nat
      then colon_separated (take start segments) ++ lit "::" ++ colon_separated (drop (start + len) segments)
      else colon_separated segments
  end.

Definition request_ip (rq : WebRequest) : str :=
  match rq_peer rq with
  | Some (V4 octets) => ipv4_str octets
  | Some (V6 segments) =>
      match to_ipv4_mapped segments with Some octets => ipv4_str octets | None => ipv6_str segments end
  | None => lit "unknown"
  end.

Definition password_satisfies_policy (password : str) : bool := (MIN_PASSWORD_CHARS <=? length password)%nat.
Definition password_policy_error : Response :=
  json_error BAD_REQUEST (lit "the password must contain at least 12 characters").
Definition session_required : Response :=
  json_error UNAUTHORIZED (lit "a valid session is required").
Definition sign_in_failed : Response := json_error UNAUTHORIZED (lit "sign-in failed").
Definition bootstrap_failed : Response := json_error UNAUTHORIZED (lit "bootstrap failed").
Definition password_change_failed : Response := json_error UNAUTHORIZED (lit "password change failed").
Definition no_such_principal : Response := json_error NOT_FOUND (lit "the principal does not exist").

(** ** Requests *)

Record LoginRequest := mk_login { lr_username : str; lr_password : str; lr_totp_code : option str }.
Record BootstrapCompleteRequest := mk_bootstrap_request {
  br_code : str; br_password : str; br_totp_secret : option str; br_totp_code : option str;
}.
Definition has_complete_totp_pair (r : BootstrapCompleteRequest) : bool :=
  Bool.eqb (bool_decide (is_Some (br_totp_secret r))) (bool_decide (is_Some (br_totp_code r))).
Record SetPasswordRequest := mk_set_password { sp_current_password : str; sp_new_password : str }.

Record AuthContext := mk_auth_context {
  cx_actor : AuditActor;
  cx_actor_principal_id : option PrincipalId;
  cx_session_id : option SessionId;
  cx_role : option Role;
  cx_assignment_site_id : option Uuid;
}.
Definition AuthContext_unauthenticated (actor : AuditActor) : AuthContext :=
  mk_auth_context actor None None None None.

(** ** The handlers *)

Section handlers.
Context {St E : Type} `{AccountStore St E} `{AuthErrors E} `{WebCrypto} `{UnicodeCase} `{HmacSha1} `{HttpText}.
Context (w : @Surroundings St) (actor : AuditActor) (origin : DeploymentPosture) (policy : AuthPolicy).
Abbreviation Handler := (M (WebRun St) (abrupt Response)).

(** *** Audit *)

Definition audit_context (operation_id : Uuid) (actor : AuditActor) (actor_principal_id : option PrincipalId)
    (permission : ProductPermission) (action : AuditAction) (target_principal_id : option PrincipalId)
    : result AuditOperationContext AuditOperationContextError :=
  let? context := try_new_with_actor_principal operation_id actor origin TargetProduct EndpointRefresh
    permission action RedfishNone actor_principal_id in
  Ok match target_principal_id with
     | Some target => with_target_principal context target
     | None => context
     end.

Definition record_outcome (actor : AuditActor) (actor_principal_id : option PrincipalId)
    (permission : ProductPermission) (action : AuditAction) (succeeded : bool)
    (failure : option (AuditFailure * AuditFailureVerification))
    (target_principal_id : option PrincipalId) (now : OffsetDateTime) : Handler () :=
  let! operation_id := generate w in
  match audit_context operation_id actor actor_principal_id permission action target_principal_id with
  | Err _ => mret ()
  | Ok context =>
      let! started_id := generate w in
      do! append_audit_event w (AuditEvent_started started_id context now) in
      match AuditSequence_next SEQUENCE_FIRST with
      | Err _ => mret ()
      | Ok sequence =>
          let! terminal_id := generate w in
          let terminal :=
            if succeeded then Some (AuditEvent_succeeded terminal_id context sequence now)
            else match failure with
                 | Some (failure, verification) =>
                     Some (AuditEvent_failed terminal_id context sequence failure verification now)
                 | None => None
                 end in
          match terminal with
          | Some (Ok terminal) => append_audit_event w terminal
          | _ => mret ()
          end
      end
  end.

Definition record_login_failure (principal_id : option PrincipalId) (now : OffsetDateTime) : Handler () :=
  let actor := match principal_id with Some _ => ActorUser | None => ActorSystem end in
  record_outcome actor principal_id PermAuthenticate ActLogin false
    (Some (FailureAuthenticationFailed, FailureVerificationRejected)) None now.

Definition record_login_success (principal_id : PrincipalId) (now : OffsetDateTime) : Handler () :=
  record_outcome ActorUser (Some principal_id) PermAuthenticate ActLogin true None None now.

Definition record_management_event (actor : AuditActor) (actor_principal_id : option PrincipalId)
    (permission : ProductPermission) (action : AuditAction) (succeeded : bool) (now : OffsetDateTime)
    : Handler () :=
  record_outcome actor actor_principal_id permission action succeeded None None now.

(** *** Sessions of requests *)

Definition csrf_matches (rq : WebRequest) (expected_hash : Digest) : bool :=
  match rq_csrf_token rq with
  | None => false
  | Some presented => constant_time_eq (token_hash presented) expected_hash
  end.

Definition resolve_session (rq : WebRequest) (mutation : bool)
    : Handler (option (AuthContext * Session * str)) :=
  match cookie_value (rq_cookie rq) SESSION_COOKIE_NAME with
  | None => mret None
  | Some cookie =>
      let! found := store w (find_session_by_token_hash (token_hash cookie)) in
      match flatten_ok found with
      | None => mret None
      | Some session =>
          let! now := clock_now w in
          if negb (Session_is_active session now) then mret None
          else if mutation && negb (csrf_matches rq (se_csrf_hash session)) then mret None
          else
            let! found := store w (find_principal (se_principal_id session)) in
            match flatten_ok found with
            | None => mret None
            | Some principal =>
                if decide (pr_state principal ≠ Enabled) then mret None
                else
                  let! found := store w (find_role_assignment (se_principal_id session)) in
                  match found with
                  | Err _ => mret None
                  | Ok assignment =>
                      do! (if TOUCH_INTERVAL <=? now - se_last_used_at session
                           then let! _ := store w (touch_session (se_id session) now) in mret ()
                           else mret ()) in
                      mret (Some
                        (mk_auth_context ActorUser (Some (se_principal_id session)) (Some (se_id session))
                           (ra_role <$> assignment) (assignment ≫= ra_site_id), session, cookie))
                  end
            end
      end
  end.

(** What runs inside the middleware answers with a response, early or not. *)
Definition answer (h : Handler Response) : Handler Response :=
  λ s, match h s with
       | (s, Err (Returned r)) => (s, Ok r)
       | sr => sr
       end.

(** The cookie slides with every response that does not set one itself. *)
Definition slide_cookie (rq : WebRequest) (session : Session) (presented_token : str)
    (response : Response) : Handler Response :=
  match rsp_set_cookie response with
  | None =>
      let! wall := draw (wall_at w) in
      mret (with_cookie (session_cookie presented_token (se_expires_at session) wall (is_https rq)) response)
  | Some _ => mret response
  end.

(** The middleware where a session is required. *)
Definition session_gate (rq : WebRequest) (roles : RoleMask) (mutation : bool)
    (next : AuthContext → Handler Response) : Handler Response :=
  let! resolved := resolve_session rq mutation in
  match resolved with
  | None => bail session_required
  | Some (context, session, presented_token) =>
      if negb (RoleMask_allows roles (default Viewer (cx_role context)))
      then bail (json_error FORBIDDEN (lit "this role cannot reach the requested surface"))
      else
        let! response := answer (next context) in
        slide_cookie rq session presented_token response
  end.

Definition auth_middleware (rq : WebRequest) (next : AuthContext → Handler Response) : Handler Response :=
  let route := route_access (rq_method rq) (rq_path rq) (ConsoleScope_of origin) in
  let! guarded := is_guarded w policy in
  match route with
  | Public => next (AuthContext_unauthenticated actor)
  | Always roles mutation | GuardedOnly roles mutation =>
      let requires_session :=
        guarded || bool_decide (policy = PolicyPendingBootstrap)
        || match route with Always _ _ => true | _ => false end in
      if negb requires_session then next (AuthContext_unauthenticated actor)
      else session_gate rq roles mutation next
  end.

(** *** Sign-in *)

Definition dummy_password_verification (password : str) : Handler () :=
  match Argon2IdHash_from_parts DUMMY_SALT DUMMY_HASH with
  | Err _ => mret ()
  | Ok dummy => let! _ := verify_password_async w dummy password in mret ()
  end.

Definition dummy_admin_derivation (password : str) : Handler () :=
  let! _ := hash_password_async (E := E) w password in mret ().

Definition derivation_failure_response (e : E) : Response :=
  if gate_busy e then uncached_status SERVICE_UNAVAILABLE else uncached_status INTERNAL_SERVER_ERROR.

(** A refused sign-in: recorded, and answered like any other. *)
Definition refuse_login {A} (principal_id : option PrincipalId) (now : OffsetDateTime) : Handler A :=
  do! record_login_failure principal_id now in bail sign_in_failed.

(** The [find] and the steps on the authenticator of [login]. *)
Definition check_authenticator (principal : Principal) (request : LoginRequest) (now : OffsetDateTime)
    (authenticators : list TotpAuthenticator) : Handler () :=
  match snd <$> list_find (λ a, ta_state a = Active) authenticators with
  | None => mret ()
  | Some authenticator =>
      let! code := require (lr_totp_code request) (refuse_login (Some (pr_id principal)) now) in
      let! step := require
        (ok_of (verify_totp_code (ta_secret authenticator) code now (ta_last_used_step authenticator)))
        (refuse_login (Some (pr_id principal)) now) in
      let! recorded := store w (record_totp_step (ta_id authenticator) step) in
      if default false (ok_of recorded) then mret () else refuse_login (Some (pr_id principal)) now
  end.

(** The tail of a sign-in: the response with the session's cookie. *)
Definition signed_in (rq : WebRequest) (body : str → ResponseBody) (tokens : IssuedSessionTokens)
    (session : Session) : Handler Response :=
  let! wall := draw (wall_at w) in
  mret (no_store (with_cookie
    (session_cookie (it_session_token tokens) (se_expires_at session) wall (is_https rq))
    (json (body (it_csrf_token tokens))))).

(** [login] once its slots are reserved. *)
Definition login_reserved (rq : WebRequest) (request : LoginRequest) (now : OffsetDateTime)
    (ip : str) (reservation : Reservation) : Handler Response :=
  let username := lr_username request in
  let! name := require (ok_of (PrincipalName_parse username)) (refuse_login None now) in
  let! found := store w (find_principal_by_name name) in
  let! principal := require (flatten_ok found)
    (do! dummy_password_verification (lr_password request) in refuse_login None now) in
  if decide (pr_state principal ≠ Enabled)
  then do! dummy_password_verification (lr_password request) in refuse_login (Some (pr_id principal)) now
  else
    let! found := store w (find_password_credential (pr_id principal)) in
    let! credential := require (flatten_ok found)
      (do! dummy_password_verification (lr_password request) in
       refuse_login (Some (pr_id principal)) now) in
    let! verified := verify_password_async w (pc_hash credential) (lr_password request) in
    if negb verified then refuse_login (Some (pr_id principal)) now
    else
      let! listed := store w (list_totp_authenticators (pr_id principal)) in
      match listed with
      | Err e =>
          if gate_busy e then bail (uncached_status SERVICE_UNAVAILABLE)
          else refuse_login (Some (pr_id principal)) now
      | Ok authenticators =>
          do! check_authenticator principal request now authenticators in
          do! refund_slots w LimitLogin username ip reservation in
          let! issued := issue_tokens (E := E) w in
          let! tokens := require (ok_of issued) (bail (uncached_status INTERNAL_SERVER_ERROR)) in
          let! session_id := generate w in
          let session := Session_new session_id (pr_id principal) (it_session_token_hash tokens)
            (it_csrf_token_hash tokens) now (now + SESSION_LIFETIME) in
          let! created := store w (create_session session) in
          match created with
          | Err _ => bail (uncached_status INTERNAL_SERVER_ERROR)
          | Ok _ =>
              do! record_login_success (pr_id principal) now in
              signed_in rq LoginResponse tokens session
          end
      end.

Definition login (rq : WebRequest) (request : LoginRequest) : Handler Response :=
  let! now := clock_now w in
  if negb (password_satisfies_policy (lr_password request)) then bail password_policy_error
  else
    let ip := request_ip rq in
    let username := lr_username request in
    let! rate_now := instant_now w in
    let! granted := reserve_slots w LimitLogin username ip rate_now in
    let! reservation := require granted
      (bail (json_error TOO_MANY_REQUESTS (lit "too many sign-in attempts; try again later"))) in
    login_reserved rq request now ip reservation.

Definition sign_out_response : Response :=
  no_store (with_cookie clear_session_cookie (json (LoginResponse []))).
Definition ok_response : Response := json_ok (LoginResponse []).

Definition logout (context : AuthContext) : Handler Response :=
  let! now := clock_now w in
  let! session_id := require (cx_session_id context) (bail session_required) in
  let! revoked := store w (revoke_session session_id now) in
  match revoked with
  | Err _ => bail (uncached_status INTERNAL_SERVER_ERROR)
  | Ok _ =>
      do! record_management_event (cx_actor context) (cx_actor_principal_id context)
        PermAuthenticate ActLogout true now in
      mret sign_out_response
  end.

(** *** The claim of the administrator *)

(** The authenticator a claim brings, activated by its code. *)
Definition claimed_authenticator (principal : Principal) (request : BootstrapCompleteRequest)
    (now : OffsetDateTime) : Handler (option TotpAuthenticator) :=
  match br_totp_secret request with
  | None => mret None
  | Some encoded =>
      let! secret := require (base32_decode encoded)
        (bail (json_error BAD_REQUEST (lit "the TOTP secret is not valid base32"))) in
      if decide (length secret ≠ TOTP_SECRET_LENGTH)
      then bail (json_error BAD_REQUEST (lit "the TOTP secret must decode to 20 bytes"))
      else
        let! code := require (br_totp_code request)
          (bail (json_error BAD_REQUEST (lit "the TOTP activation code is required"))) in
        let! id := generate w in
        match TotpAuthenticator_activate (TotpAuthenticator_new id (pr_id principal) secret now) code now with
        | Err _ => bail (json_error BAD_REQUEST (lit "the TOTP activation code is invalid"))
        | Ok authenticator => mret (Some authenticator)
        end
  end.

Definition refuse_bootstrap {A} (principal_id : option PrincipalId) (now : OffsetDateTime) : Handler A :=
  do! record_login_failure principal_id now in bail bootstrap_failed.

Definition bootstrap_complete (rq : WebRequest) (request : BootstrapCompleteRequest) : Handler Response :=
  let! now := clock_now w in
  if negb (password_satisfies_policy (br_password request)) then bail password_policy_error
  else if negb (has_complete_totp_pair request)
  then bail (json_error BAD_REQUEST (lit "the TOTP secret and its activation code must travel together"))
  else
    let ip := request_ip rq in
    let! rate_now := instant_now w in
    let! granted := reserve_slots w LimitBootstrap BOOTSTRAP_PRINCIPAL_NAME ip rate_now in
    let! reservation := require granted
      (bail (json_error TOO_MANY_REQUESTS (lit "too many bootstrap attempts; try again later"))) in
    let! admin_name := require (ok_of (PrincipalName_parse BOOTSTRAP_PRINCIPAL_NAME))
      (bail (uncached_status INTERNAL_SERVER_ERROR)) in
    let! found := store w (find_principal_by_name admin_name) in
    let! principal := require (flatten_ok found) (refuse_bootstrap None now) in
    let! found := store w (find_bootstrap_code_by_hash (hash_bootstrap_code (br_code request))) in
    let! code := require (flatten_ok found) (refuse_bootstrap (Some (pr_id principal)) now) in
    match bc_used_at code with
    | Some _ => refuse_bootstrap (Some (pr_id principal)) now
    | None =>
        let! authenticator := claimed_authenticator principal request now in
        let! derived := hash_password_async w (br_password request) in
        match derived with
        | Err e => bail (derivation_failure_response e)
        | Ok hash =>
            let! credential := require (ok_of (PasswordCredential_try_from_parts (pr_id principal) hash now))
              (bail (uncached_status INTERNAL_SERVER_ERROR)) in
            let! issued := issue_tokens (E := E) w in
            let! tokens := require (ok_of issued) (bail (uncached_status INTERNAL_SERVER_ERROR)) in
            let! session_id := generate w in
            let session := Session_new session_id (pr_id principal) (it_session_token_hash tokens)
              (it_csrf_token_hash tokens) now (now + SESSION_LIFETIME) in
            let! consumed := store w
              (consume_bootstrap_code (bc_id code) (pr_id principal) credential authenticator session now) in
            match consumed with
            | Err _ => bail bootstrap_failed
            | Ok _ =>
                do! refund_slots w LimitBootstrap BOOTSTRAP_PRINCIPAL_NAME ip reservation in
                do! record_login_success (pr_id principal) now in
                do! (match authenticator with
                     | Some _ => record_management_event ActorUser (Some (pr_id principal))
                                   PermManageUsers ActManageTotp true now
                     | None => mret ()
                     end) in
                do! (if decide (policy = PolicyPendingBootstrap) then arm w else mret ()) in
                signed_in rq BootstrapCompleteResponse tokens session
            end
        end
    end.

(** *** The own account *)

Definition refuse_password_change {A} (context : AuthContext) (now : OffsetDateTime) : Handler A :=
  do! record_outcome (cx_actor context) (cx_actor_principal_id context) PermAuthenticate
    ActChangePassword false (Some (FailureAuthenticationFailed, FailureVerificationRejected)) None now in
  bail password_change_failed.

Definition change_password (rq : WebRequest) (context : AuthContext) (request : SetPasswordRequest)
    : Handler Response :=
  let! now := clock_now w in
  if negb (password_satisfies_policy (sp_new_password request)) then bail password_policy_error
  else
    let! principal_id := require (cx_actor_principal_id context) (bail session_required) in
    let ip := request_ip rq in
    let! rate_now := instant_now w in
    let! granted := reserve_slots w LimitPasswordChange (uuid_str principal_id) ip rate_now in
    let! _ := require granted
      (bail (json_error TOO_MANY_REQUESTS (lit "too many password-change attempts; try again later"))) in
    let! found := store w (find_password_credential principal_id) in
    let! credential := require (flatten_ok found) (refuse_password_change context now) in
    let! verified := verify_password_async w (pc_hash credential) (sp_current_password request) in
    if negb verified then refuse_password_change context now
    else
      let! derived := hash_password_async w (sp_new_password request) in
      match derived with
      | Err e => bail (derivation_failure_response e)
      | Ok hash =>
          let! updated := require (ok_of (PasswordCredential_try_from_parts principal_id hash now))
            (bail (uncached_status INTERNAL_SERVER_ERROR)) in
          let! saved := store w (save_password_credential updated) in
          match saved with
          | Err _ => bail (uncached_status INTERNAL_SERVER_ERROR)
          | Ok _ =>
              let! revoked := store w (revoke_sessions_for_principal principal_id now) in
              match revoked with
              | Err _ =>
                  do! record_outcome ActorUser (Some principal_id) PermAuthenticate ActChangePassword
                    false (Some (FailureSessionRevocationFailed, FailureVerificationInconclusive)) None now in
                  bail (uncached_status INTERNAL_SERVER_ERROR)
              | Ok _ =>
                  do! record_management_event ActorUser (Some principal_id) PermAuthenticate
                    ActChangePassword true now in
                  mret sign_out_response
              end
          end
      end.

Definition me_response (bootstrap_pending : bool) (principal : option (Principal * option Role)) : Response :=
  let summary := (λ '(p, role), mk_principal_summary (uuid_str (pr_id p)) (pr_name p)
    (wire_state (pr_state p)) (wire_role <$> role)) <$> principal in
  no_store (json (MeResponse (bool_decide (is_Some principal)) bootstrap_pending summary)).

Definition me (rq : WebRequest) : Handler Response :=
  let! rate_now := instant_now w in
  let! granted := limit w LimitMe (λ l, reserve_ip l (request_ip rq) rate_now ME_IP_QUERY_LIMIT) in
  if negb granted
  then bail (json_error TOO_MANY_REQUESTS (lit "too many session-state queries; try again later"))
  else
    let! unconsumed := store w has_unconsumed_bootstrap_code in
    let bootstrap_pending := default true (ok_of unconsumed) in
    let anonymous := bail (me_response bootstrap_pending None) in
    let! cookie := require (cookie_value (rq_cookie rq) SESSION_COOKIE_NAME) anonymous in
    let! found := store w (find_session_by_token_hash (token_hash cookie)) in
    let! session := require (flatten_ok found) (bail (me_response bootstrap_pending None)) in
    let! now := clock_now w in
    if negb (Session_is_active session now) then bail (me_response bootstrap_pending None)
    else
      let! found := store w (find_principal (se_principal_id session)) in
      let! principal := require (flatten_ok found) (bail (me_response bootstrap_pending None)) in
      if decide (pr_state principal ≠ Enabled) then bail (me_response bootstrap_pending None)
      else
        let! found := store w (find_role_assignment (pr_id principal)) in
        mret (me_response bootstrap_pending (Some (principal, ra_role <$> flatten_ok found))).

(** *** The administration *)

Definition list_sessions_of (context : AuthContext) (principal : Principal)
    : Handler (list SessionSummaryResponse) :=
  let! listed := store w (list_sessions (pr_id principal)) in
  match listed with
  | Err _ => bail (uncached_status INTERNAL_SERVER_ERROR)
  | Ok sessions =>
      mret ((λ s, mk_session_summary (uuid_str (se_id s)) (uuid_str (pr_id principal)) (pr_name principal)
        (se_created_at s) (se_last_used_at s) (se_expires_at s) (se_revoked_at s)
        (bool_decide (Some (se_id s) = cx_session_id context))) <$> sessions)
  end.

Definition list_sessions_handler (context : AuthContext) : Handler Response :=
  let! listed := store w list_principals in
  match listed with
  | Err _ => bail (uncached_status INTERNAL_SERVER_ERROR)
  | Ok principals =>
      let! sessions := mtraverse (list_sessions_of context) principals in
      mret (json_ok (SessionAdminResponse (concat sessions)))
  end.

Definition revoke_session_handler (context : AuthContext) (session_id : SessionId) : Handler Response :=
  let! now := clock_now w in
  let! revoked := store w (revoke_session session_id now) in
  match revoked with
  | Ok (Revoked | RevocationAlreadyRevoked) =>
      do! record_management_event (cx_actor context) (cx_actor_principal_id context)
        PermManageUsers ActManageSessions true now in
      mret ok_response
  | Ok RevocationNotFound => mret (json_error NOT_FOUND (lit "the session does not exist"))
  | Err _ =>
      do! record_outcome (cx_actor context) (cx_actor_principal_id context) PermManageUsers
        ActManageSessions false (Some (FailureSessionRevocationFailed, FailureVerificationInconclusive))
        None now in
      mret (uncached_status INTERNAL_SERVER_ERROR)
  end.

(** The roles by principal: a later assignment of the list replaces an earlier. *)
Definition role_by_principal (assignments : list RoleAssignment) : gmap PrincipalId Role :=
  foldl (λ m a, <[ra_principal_id a := ra_role a]> m) ∅ assignments.

Definition list_users : Handler Response :=
  let! principals := store w list_principals in
  let! assignments := store w list_role_assignments in
  match principals, assignments with
  | Ok principals, Ok assignments =>
      let roles := role_by_principal assignments in
      mret (json_ok (UserAdminResponse ((λ p, mk_user_summary (uuid_str (pr_id p)) (pr_name p)
        (wire_state (pr_state p)) (wire_role <$> (roles !! pr_id p)) (pr_created_at p)) <$> principals)))
  | _, _ => bail (uncached_status INTERNAL_SERVER_ERROR)
  end.

Definition managed (context : AuthContext) (now : OffsetDateTime) : Handler Response :=
  do! record_management_event (cx_actor context) (cx_actor_principal_id context)
    PermManageUsers ActManageUsers true now in
  mret ok_response.

Definition create_user (context : AuthContext) (name : str) (role : RoleResponse) : Handler Response :=
  let! now := clock_now w in
  let! name := require (ok_of (PrincipalName_parse name))
    (bail (json_error BAD_REQUEST (lit "the principal name is invalid"))) in
  let! found := store w (find_principal_by_name name) in
  match flatten_ok found with
  | Some _ => bail (json_error CONFLICT (lit "a principal with this name already exists"))
  | None =>
      let! id := generate w in
      let! created := store w (create_principal (Principal_new id name now)) in
      match created with
      | Err _ => bail (uncached_status INTERNAL_SERVER_ERROR)
      | Ok _ =>
          let! assigned := store w (assign_role
            (mk_role_assignment id (domain_role role) (cx_actor_principal_id context) now None)) in
          match assigned with
          | Err _ => bail (uncached_status INTERNAL_SERVER_ERROR)
          | Ok _ => managed context now
          end
      end
  end.

(** The beginning of every operation on another principal: the actor, the named
    principal, the budget, and the principal exists; [absent] runs when it does
    not. *)
Definition administer (rq : WebRequest) (context : AuthContext) (principal_id : str) (throttled : string)
    (absent : str) : Handler PrincipalId :=
  let! actor_principal_id := require (cx_actor_principal_id context) (bail session_required) in
  let! principal_id := require (uuid_parse principal_id)
    (bail (json_error BAD_REQUEST (lit "the principal id is invalid"))) in
  let! rate_now := instant_now w in
  let! granted := reserve_slots w LimitPasswordChange (uuid_str actor_principal_id) (request_ip rq) rate_now in
  let! _ := require granted (bail (json_error TOO_MANY_REQUESTS (lit throttled))) in
  let! found := store w (find_principal principal_id) in
  let! _ := require (flatten_ok found) (do! dummy_admin_derivation absent in bail no_such_principal) in
  mret principal_id.

Definition set_user_state (rq : WebRequest) (context : AuthContext) (principal_id : str)
    (state : PrincipalStateResponse) : Handler Response :=
  let! now := clock_now w in
  let! principal_id := administer rq context principal_id
    "too many administration attempts; try again later" DUMMY_ADMIN_DERIVATION_INPUT in
  let state_value := domain_state state in
  let! set := store w (set_principal_state principal_id state_value now) in
  match set with
  | Err _ => bail (uncached_status INTERNAL_SERVER_ERROR)
  | Ok _ =>
      do! (if decide (state_value = Disabled)
           then let! _ := store w (revoke_sessions_for_principal principal_id now) in mret ()
           else mret ()) in
      managed context now
  end.

Definition assign_user_role (rq : WebRequest) (context : AuthContext) (principal_id : str)
    (role : RoleResponse) : Handler Response :=
  let! now := clock_now w in
  let! principal_id := administer rq context principal_id
    "too many administration attempts; try again later" DUMMY_ADMIN_DERIVATION_INPUT in
  let! assigned := store w (assign_role
    (mk_role_assignment principal_id (domain_role role) (cx_actor_principal_id context) now None)) in
  match assigned with
  | Err _ => bail (uncached_status INTERNAL_SERVER_ERROR)
  | Ok _ =>
      let! _ := store w (revoke_sessions_for_principal principal_id now) in
      managed context now
  end.

Definition set_user_password (rq : WebRequest) (context : AuthContext) (principal_id : str)
    (new_password : str) : Handler Response :=
  let! now := clock_now w in
  if negb (password_satisfies_policy new_password) then bail password_policy_error
  else
    let! principal_id := administer rq context principal_id
      "too many password-change attempts; try again later" new_password in
    let! derived := hash_password_async w new_password in
    match derived with
    | Err e => bail (derivation_failure_response e)
    | Ok hash =>
        let! updated := require (ok_of (PasswordCredential_try_from_parts principal_id hash now))
          (bail (uncached_status INTERNAL_SERVER_ERROR)) in
        let! saved := store w (save_password_credential updated) in
        match saved with
        | Err _ => bail (uncached_status INTERNAL_SERVER_ERROR)
        | Ok _ =>
            let! revoked := store w (revoke_sessions_for_principal principal_id now) in
            match revoked with
            | Err _ =>
                do! record_outcome (cx_actor context) (cx_actor_principal_id context) PermAuthenticate
                  ActChangePassword false
                  (Some (FailureSessionRevocationFailed, FailureVerificationInconclusive))
                  (Some principal_id) now in
                bail (uncached_status INTERNAL_SERVER_ERROR)
            | Ok _ =>
                do! record_outcome (cx_actor context) (cx_actor_principal_id context) PermAuthenticate
                  ActChangePassword true None (Some principal_id) now in
                mret ok_response
            end
        end
    end.
End handlers.
