(* ===== verification/WebProgress.v ===== *)
(** * WebProgress: what every handler keeps, and what its steps say

    Whatever other requests do in between, a handler moves the accounts only by
    the writes of the store's contract, never closes the sign-in gate and only
    adds to what it did.  Each access is inverted into the state it left and what
    the contract says of its answer. *)
From S2P Require Import Prelude Text Database AuditLog Accounts RateLimiter AccountStore WebRoutes WebRuntime WebAuth.
Local Open Scope Z_scope.

Create HintDb web.

Section progress.
Context {St E : Type} `{AccountStoreLaws St E} `{AuthErrors E} `{WebCryptoLaws} `{UnicodeCaseLaws}.
Context `{HmacSha1Laws} `{HttpText}.
Context (w : @Surroundings St).
Implicit Types (s : WebRun St) (sh : Shared St).
Abbreviation Handler := (M (WebRun St) (abrupt Response)).

Definition view s : Accounts := accounts (sh_store (wr_shared s)).
Definition sound s : Prop := accounts_ok (sh_store (wr_shared s)).

(** What others may do between two accesses. *)
Definition shared_moves sh sh' : Prop :=
  accounts_ok (sh_store sh) →
  accounts_ok (sh_store sh') ∧ evolves (accounts (sh_store sh)) (accounts (sh_store sh')) ∧
  (sh_gate sh = true → sh_gate sh' = true).

Record surroundings_ok : Prop := {
  others_move n sh : shared_moves sh (others w n sh);
  random_good n len : random_bytes len (random_at w n len);
  clock_good n : 0 <= unix_timestamp (clock_at w n) <= I64_MAX;
}.

(** Progress of a run: of what is shared, and of its own log. *)
Definition advance s s' : Prop :=
  shared_moves (wr_shared s) (wr_shared s') ∧ ∃ new, wr_log s' = wr_log s ++ new.
Definition advances {A} (m : Handler A) : Prop := ∀ s, advance s (m s).1.

#[export] Instance shared_moves_preorder : PreOrder shared_moves.
Proof.
  split; [intros sh Hok; split; [done|]; split; [reflexivity|done]|]. intros sh1 sh2 sh3 H12 H23 Hok. destruct (H12 Hok) as (Hok2 & He & Hg).
  destruct (H23 Hok2) as (Hok3 & He' & Hg'). split; [done|]. split; [by etrans|auto].
Qed.

#[export] Instance advance_preorder : PreOrder advance.
Proof.
  split; [intros s; split; [reflexivity|]; exists []; by rewrite app_nil_r|].
  intros s1 s2 s3 [Hm (n1 & Hl1)] [Hm' (n2 & Hl2)]. split; [by etrans|].
  exists (n1 ++ n2). by rewrite Hl2, Hl1, app_assoc.
Qed.

Lemma advance_sound s s' : advance s s' → sound s → sound s'.
Proof. intros [Hm _] Hs. by apply Hm. Qed.
Lemma advance_view s s' : advance s s' → sound s → evolves (view s) (view s').
Proof. intros [Hm _] Hs. by apply Hm. Qed.

(** ** Progress of the combinators *)

Hypothesis Hw : surroundings_ok.

Lemma advances_ret {A} (a : A) : advances (mret a).
Proof. intros s. reflexivity. Qed.
Lemma advances_fail {A} e : advances (mfail e : Handler A).
Proof. intros s. reflexivity. Qed.
Lemma advances_bind {A B} (m : Handler A) (k : A → Handler B) :
  advances m → (∀ a s s', m s = (s', Ok a) → advances (k a)) → advances (mbind m k).
Proof.
  intros Hm Hk s. unfold mbind. specialize (Hm s). destruct (m s) as [s1 [a|e]] eqn:Hrun; [|done].
  etrans; [exact Hm|]. by eapply Hk.
Qed.
Lemma advances_draw {A} (f : nat → A) : advances (draw f).
Proof. intros s. split; [reflexivity | exists []; by rewrite app_nil_r]. Qed.
Lemma advances_log e : advances (log e).
Proof. intros s. split; [reflexivity | by eexists]. Qed.
Lemma advances_require {A} (o : option A) (otherwise : Handler A) :
  advances otherwise → advances (require o otherwise).
Proof. destruct o; [intros _; apply advances_ret | done]. Qed.

Lemma advances_access {A} (f : nat → Shared St → Shared St * A) :
  (∀ n sh, shared_moves sh (f n sh).1) → advances (access w f).
Proof.
  intros Hf s. unfold access. specialize (Hf (wr_calls s) (others w (wr_calls s) (wr_shared s))).
  destruct (f _ _) as [sh a]. split; [|exists []; by rewrite app_nil_r].
  etrans; [by apply (others_move Hw) | exact Hf].
Qed.

Lemma advances_awaited {A} (f : nat → Shared St → Shared St * A) :
  (∀ n sh, shared_moves sh (f n sh).1) → advances (awaited w f).
Proof.
  intros Hf s. unfold awaited. destruct (drops w (wr_calls s)); [|by apply advances_access].
  split; [|exists []; by rewrite app_nil_r]. by apply (others_move Hw).
Qed.

(** ** The store *)

(** A method of the store moves the accounts as others may. *)
Definition moves {A} (m : M St E A) : Prop :=
  ∀ st st' r, accounts_ok st → m st = (st', r) →
  accounts_ok st' ∧ evolves (accounts st) (accounts st').

Lemma evolves_step v v' a : account_step v a = Some v' → evolves v v'.
Proof. intros Ha. apply rtc_once. eauto. Qed.

Lemma reads_move {A} (m : M St E A) P :
  (∀ st st' r, accounts_ok st → m st = (st', r) → reads accounts accounts_ok P st st' r) → moves m.
Proof. intros Hm st st' r Hok Hr. destruct (Hm _ _ _ Hok Hr) as (Hok' & -> & _). done. Qed.

Lemma writes_move (m : M St E ()) a :
  (∀ st st' r, accounts_ok st → m st = (st', r) →
   writes accounts accounts_ok (λ v v', account_step v a = Some v') st st' r) → moves m.
Proof.
  intros Hm st st' r Hok Hr. destruct (Hm _ _ _ Hok Hr) as (Hok' & Hcase). split; [done|].
  destruct r; [by eapply evolves_step | by rewrite Hcase].
Qed.

Lemma move_find_session token : moves (find_session_by_token_hash token).
Proof. eapply reads_move. intros ? ? ?. apply law_find_session. Qed.
Lemma move_create_session a : session_typed a → moves (create_session a).
Proof. intros Ha. eapply writes_move. intros ? ? ? Hok. by apply law_create_session. Qed.
Lemma move_touch_session id at_ : moves (touch_session id at_).
Proof. eapply writes_move. intros ? ? ?. apply law_touch_session. Qed.
Lemma move_revoke_session id at_ : moves (revoke_session id at_).
Proof.
  intros st st' r Hok Hr. destruct (law_revoke_session _ _ _ _ _ Hok Hr) as [Hok' Hcase]. split; [done|].
  destruct r as [[]|]; [by eapply evolves_step|..];
    first [by destruct Hcase as [-> _] | by rewrite Hcase].
Qed.
Lemma move_revoke_for p at_ : moves (revoke_sessions_for_principal p at_).
Proof.
  intros st st' r Hok Hr. destruct (law_revoke_sessions_for _ _ _ _ _ Hok Hr) as [Hok' Hcase].
  split; [done|]. destruct r; [by eapply evolves_step | by rewrite Hcase].
Qed.
Lemma move_list_sessions p : moves (list_sessions p).
Proof. eapply reads_move. intros ? ? ?. apply law_list_sessions. Qed.
Lemma move_find_principal id : moves (find_principal id).
Proof. eapply reads_move. intros ? ? ?. apply law_find_principal. Qed.
Lemma move_find_by_name name : moves (find_principal_by_name name).
Proof. eapply reads_move. intros ? ? ?. apply law_find_by_name. Qed.
Lemma move_list_principals : moves list_principals.
Proof. eapply reads_move. intros ? ? ?. apply law_list_principals. Qed.
Lemma move_create_principal p : principal_name (pr_name p) → moves (create_principal p).
Proof. intros Hp. eapply writes_move. intros ? ? ? Hok. by apply law_create_principal. Qed.
Lemma move_set_state id state at_ : moves (set_principal_state id state at_).
Proof. eapply writes_move. intros ? ? ?. apply law_set_state. Qed.
Lemma move_assign_role a : moves (assign_role a).
Proof. eapply writes_move. intros ? ? ?. apply law_assign_role. Qed.
Lemma move_find_role id : moves (find_role_assignment id).
Proof. eapply reads_move. intros ? ? ?. apply law_find_role. Qed.
Lemma move_list_roles : moves list_role_assignments.
Proof. eapply reads_move. intros ? ? ?. apply law_list_roles. Qed.
Lemma move_find_password id : moves (find_password_credential id).
Proof. eapply reads_move. intros ? ? ?. apply law_find_password. Qed.
Lemma move_save_password c : password_typed c → moves (save_password_credential c).
Proof. intros Hc. eapply writes_move. intros ? ? ? Hok. by apply law_save_password. Qed.
Lemma move_list_totps p : moves (list_totp_authenticators p).
Proof. eapply reads_move. intros ? ? ?. apply law_list_totps. Qed.
Lemma move_record_step id step : 0 <= step → moves (record_totp_step id step).
Proof.
  intros Hs st st' r Hok Hr. destruct (law_record_step _ _ _ _ _ Hok Hs Hr) as [Hok' Hcase].
  split; [done|]. destruct r as [[]|]; [by eapply evolves_step|..];
    first [by destruct Hcase as [-> _] | by rewrite Hcase].
Qed.
Lemma move_find_code hash : moves (find_bootstrap_code_by_hash hash).
Proof. eapply reads_move. intros ? ? ?. apply law_find_code. Qed.
Lemma move_unconsumed : moves has_unconsumed_bootstrap_code.
Proof. eapply reads_move. intros ? ? ?. apply law_unconsumed. Qed.
Lemma move_consume code used_by password authenticator session at_ :
  write_typed (ConsumeCode code used_by password authenticator session at_) →
  moves (consume_bootstrap_code code used_by password authenticator session at_).
Proof. intros Ht. eapply writes_move. intros ? ? ? Hok. by apply law_consume. Qed.

Lemma advances_store {A} (m : M St E A) : moves m → advances (store w m).
Proof.
  intros Hm. apply advances_awaited. intros n sh Hok. simpl.
  destruct (m (sh_store sh)) as [st r] eqn:Hr. simpl. destruct (Hm _ _ _ Hok Hr) as [? ?]. done.
Qed.

(** A call of the store that answered ran on the accounts as they then were. *)
Lemma store_answered {A} (m : M St E A) (Q : Accounts → result A E → Accounts → Prop) s s' r :
  (∀ st st' r, accounts_ok st → m st = (st', r) → Q (accounts st) r (accounts st')) →
  store w m s = (s', Ok r) → sound s → ∃ v, evolves (view s) v ∧ Q v r (view s').
Proof.
  intros Hq. unfold store, awaited, access. destruct (drops w (wr_calls s)); [done|].
  intros Hrun Hs. destruct (others_move Hw (wr_calls s) _ Hs) as (Hok & Hev & _).
  destruct (m (sh_store (others w (wr_calls s) (wr_shared s)))) as [st x] eqn:Hm.
  injection Hrun as <- <-. exists (accounts (sh_store (others w (wr_calls s) (wr_shared s)))).
  split; [exact Hev|]. by apply Hq.
Qed.

(** A read answers of the accounts it leaves. *)
Lemma store_read {A} (m : M St E A) P s s' x :
  (∀ st st' r, accounts_ok st → m st = (st', r) → reads accounts accounts_ok P st st' r) →
  store w m s = (s', Ok (Ok x)) → sound s → P (view s') x.
Proof.
  intros Hm Hrun Hs.
  destruct (store_answered m (λ v r v', v' = v ∧ ∀ x, r = Ok x → P v x) s s' (Ok x)) as (v & _ & -> & HP); eauto.
  intros st st' r Hok Hr. destruct (Hm _ _ _ Hok Hr) as (_ & ? & ?). done.
Qed.

(** A write that succeeded is one step of the accounts. *)
Lemma store_wrote (m : M St E ()) a s s' x :
  (∀ st st' r, accounts_ok st → m st = (st', r) →
   writes accounts accounts_ok (λ v v', account_step v a = Some v') st st' r) →
  store w m s = (s', Ok (Ok x)) → sound s →
  ∃ v, evolves (view s) v ∧ account_step v a = Some (view s').
Proof.
  intros Hm Hrun Hs.
  destruct (store_answered m (λ v r v', match r with Ok _ => account_step v a = Some v' | _ => True end)
    s s' (Ok x)) as (v & Hev & Hv); eauto.
  intros st st' r Hok Hr. destruct (Hm _ _ _ Hok Hr) as (_ & Hcase). by destruct r.
Qed.

(** ** The other services *)

Lemma advances_ask {A} (f : nat → A) : advances (awaited w (λ n sh, (sh, f n))).
Proof. apply advances_awaited. intros n sh. reflexivity. Qed.

Lemma advances_limit {A} name (f : LoginRateLimiter → LoginRateLimiter * A) : advances (limit w name f).
Proof.
  apply advances_access. intros n sh Hok. destruct (f _) as [l a]. simpl. split; [done|].
  by split; [reflexivity|].
Qed.

Lemma advances_guarded policy : advances (is_guarded w policy).
Proof. apply advances_access. intros n sh. reflexivity. Qed.
Lemma advances_arm : advances (arm w).
Proof. apply advances_access. intros n sh Hok. simpl. by split; [|split; [reflexivity|]]. Qed.

(** ** What only dies

    A method that never answers with a response of its own. *)
Definition only_dies {A} (m : Handler A) : Prop := ∀ s s' e, m s = (s', Err e) → e = Died.

Lemma only_dies_bind {A B} (m : Handler A) (k : A → Handler B) :
  only_dies m → (∀ a, only_dies (k a)) → only_dies (mbind m k).
Proof. intros Hm Hk s s' e [(a & s1 & _ & Hr)|(e' & Hr & [= ->])]%mbind_inv; [by eapply Hk | by eapply Hm]. Qed.
Lemma only_dies_ret {A} (a : A) : only_dies (mret a).
Proof. by intros s s' e. Qed.
Lemma only_dies_draw {A} (f : nat → A) : only_dies (draw f).
Proof. by intros s s' e. Qed.
Lemma only_dies_log e : only_dies (log e).
Proof. by intros s s' e'. Qed.
Lemma only_dies_access {A} (f : nat → Shared St → Shared St * A) : only_dies (access w f).
Proof. intros s s' e. unfold access. by destruct (f _ _). Qed.
Lemma only_dies_awaited {A} (f : nat → Shared St → Shared St * A) : only_dies (awaited w f).
Proof. intros s s' e. unfold awaited. destruct (drops _ _); [congruence | apply only_dies_access]. Qed.
Lemma only_dies_store {A} (m : M St E A) : only_dies (store w m).
Proof. apply only_dies_awaited. Qed.
End progress.

#[export] Hint Resolve only_dies_ret only_dies_draw only_dies_log only_dies_access only_dies_awaited
  only_dies_store : web.
#[export] Hint Resolve advances_ret advances_fail advances_draw advances_log advances_ask
  advances_limit advances_guarded advances_arm advances_require advances_store
  move_find_session move_create_session move_touch_session move_revoke_session move_revoke_for
  move_list_sessions move_find_principal move_find_by_name move_list_principals move_create_principal
  move_set_state move_assign_role move_find_role move_list_roles move_find_password move_save_password
  move_list_totps move_record_step move_find_code move_unconsumed move_consume : web.

(** ** The handlers only move the accounts as the store allows

    Every handler of [WebAuth] advances: what it writes is of the types the store
    relies on, whatever the random source, the clock and other requests do. *)

(** Takes a handler apart: binds, tests and early returns. *)
Ltac advancing :=
  repeat (intros; first
    [ solve [eauto with web]
    | apply advances_bind; [first [solve [eauto with web] | idtac]|]
    | apply advances_require; first [done|idtac]
    | progress case_match
    | progress case_decide
    | done ]).

Section progress.
Context {St E : Type} `{AccountStoreLaws St E} `{AuthErrors E} `{WebCryptoLaws} `{UnicodeCaseLaws}.
Context `{HmacSha1Laws} `{HttpText}.
Context (w : @Surroundings St) (actor : AuditActor) (origin : DeploymentPosture) (policy : AuthPolicy).
Hypothesis Hw : surroundings_ok w.
Implicit Types (s : WebRun St).
Abbreviation Handler := (M (WebRun St) (abrupt Response)).


Lemma advances_traverse {A B} (f : A → Handler B) l : (∀ x, advances (f x)) → advances (mtraverse f l).
Proof. intros Hf. induction l as [|x l IH]; simpl; advancing. Qed.

(** ** What the services yield *)

Lemma issued_tokens s s' tokens :
  issue_tokens (E := E) w s = (s', Ok (Ok tokens)) →
  length (it_session_token_hash tokens) = 32%nat ∧ length (it_csrf_token_hash tokens) = 32%nat ∧
  token_hash (it_session_token tokens) = it_session_token_hash tokens ∧
  token_hash (it_csrf_token tokens) = it_csrf_token_hash tokens ∧
  Forall (λ c, base64url_character c = true) (it_session_token tokens) ∧ it_session_token tokens ≠ [].
Proof.
  unfold issue_tokens. intros Hrun. inv_calls. unfold draw in *. simplify_eq.
  match goal with Hr : result_bind _ _ = Ok _ |- _ => revert Hr end.
  pose proof (random_good w Hw) as Hgood.
  set (r1 := random_at w _ _). set (r2 := random_at w _ _).
  assert (random_bytes TOKEN_LENGTH r1) as Hr1 by apply Hgood.
  assert (random_bytes TOKEN_LENGTH r2) as Hr2 by apply Hgood.
  clearbody r1 r2. intros Hr. destruct r1 as [b1|], r2 as [b2|]; simpl in Hr; try done.
  injection Hr as <-. simpl. destruct (Hr1 _ eq_refl) as [Hlen _].
  unfold SessionToken_hash, token_hash. rewrite !sha256_length.
  rewrite (token_wire_roundtrip _ b1 Hr1 eq_refl), (token_wire_roundtrip _ b2 Hr2 eq_refl).
  split_and!; try done; [apply base64url_characters|].
  apply base64url_nonempty. by intros ->.
Qed.

Lemma derived_hash password s s' h :
  hash_password_async (E := E) w password s = (s', Ok (Ok h)) →
  length (ah_salt h) = ARGON2ID_SALT_LENGTH ∧ length (ah_hash h) = ARGON2ID_HASH_LENGTH ∧
  verify_password h password = true.
Proof.
  unfold hash_password_async. intros Hrun. inv_calls. case_match; inv_calls; try done.
  unfold draw, log in *. simplify_eq. case_match; [|done].
  match goal with Hd : map_err _ _ = Ok _ |- _ => apply map_err_ok in Hd; rename Hd into Hhash end.
  pose proof (hashed_password_typed _ _ _ (random_good w Hw _ _) Hhash) as [? ?].
  split_and!; [done..|]. by eapply hashed_password_verifies.
Qed.

Lemma verified_step_nonneg secret code now last step :
  verify_totp_code secret code now last = Ok step → 0 <= unix_timestamp now <= I64_MAX →
  0 <= step <= I64_MAX.
Proof. intros Hv Hn. by destruct (accepted_step _ _ _ _ _ Hv Hn) as (_ & _ & ? & _). Qed.

(** ** The handlers *)

Lemma advances_append e : advances (append_audit_event w e).
Proof. unfold append_audit_event. advancing. Qed.
Hint Resolve advances_append : web.

Lemma advances_record a p perm act ok failure target now :
  advances (record_outcome w origin a p perm act ok failure target now).
Proof. unfold record_outcome, generate. advancing. Qed.
Hint Resolve advances_record : web.

Lemma advances_verify hash password : advances (verify_password_async w hash password).
Proof. unfold verify_password_async. advancing. Qed.
Lemma advances_hash password : advances (hash_password_async (E := E) w password).
Proof. unfold hash_password_async. advancing. Qed.
Lemma advances_tokens : advances (issue_tokens (E := E) w).
Proof. unfold issue_tokens. advancing. Qed.
Hint Resolve advances_verify advances_hash advances_tokens : web.

Lemma advances_dummy password : advances (dummy_password_verification w password).
Proof. unfold dummy_password_verification. advancing. Qed.
Lemma advances_dummy_admin password : advances (dummy_admin_derivation (E := E) w password).
Proof. unfold dummy_admin_derivation. advancing. Qed.
Hint Resolve advances_dummy advances_dummy_admin : web.

Lemma advances_refuse {A} p now : advances (refuse_login w origin p now : Handler A).
Proof. unfold refuse_login, record_login_failure, bail. advancing. Qed.
Hint Resolve advances_refuse : web.

Lemma advances_bail {A} r : advances (bail r : Handler A).
Proof. apply advances_fail. Qed.
Hint Resolve advances_bail : web.

Lemma advances_resolve rq mutation : advances (resolve_session w rq mutation).
Proof. unfold resolve_session, clock_now. advancing. Qed.

Lemma advances_answer h : advances h → advances (answer h : Handler Response).
Proof.
  intros Hh s. unfold answer. specialize (Hh s). by destruct (h s) as [s' [r|[|r]]].
Qed.

Lemma advances_middleware rq next :
  (∀ context, advances (next context)) → advances (auth_middleware w actor origin policy rq next).
Proof.
  intros Hn. assert (∀ c, advances (answer (next c))) by (intros c; by apply advances_answer).
  pose proof advances_resolve. unfold auth_middleware, session_gate, slide_cookie. advancing.
Qed.

Lemma clock_read s s' now : clock_now w s = (s', Ok now) → 0 <= unix_timestamp now <= I64_MAX.
Proof. unfold clock_now, draw. intros [= _ <-]. apply (clock_good w Hw). Qed.

Lemma require_ok {A} (o : option A) (otherwise : Handler A) s s' a :
  (∀ s s', otherwise s ≠ (s', Ok a)) → require o otherwise s = (s', Ok a) → o = Some a ∧ s' = s.
Proof. intros Hn. destruct o as [x|]; simpl; [unfold mret; naive_solver|]. intros Hr. by apply Hn in Hr. Qed.

Lemma refuse_not_ok {A} p now (a : A) s s' : refuse_login w origin p now s ≠ (s', Ok a).
Proof. unfold refuse_login, bail. intros Hr. inv_calls. Qed.

Lemma ok_of_Ok {A F} (r : result A F) a : ok_of r = Some a → r = Ok a.
Proof. destruct r; simpl; congruence. Qed.

Lemma advances_check principal request now authenticators :
  0 <= unix_timestamp now <= I64_MAX →
  advances (check_authenticator w origin principal request now authenticators).
Proof.
  intros Hnow. unfold check_authenticator. case_match; [|advancing].
  apply advances_bind; [advancing|]. intros code s1 s2 _.
  apply advances_bind; [advancing|]. intros step s3 s4 Hstep.
  apply require_ok in Hstep as [Hstep%ok_of_Ok _]; [|intros ??; apply refuse_not_ok].
  assert (0 <= step) by by eapply verified_step_nonneg. advancing.
Qed.
Hint Resolve advances_check : web.

Lemma advances_success p now : advances (record_login_success w origin p now).
Proof. apply advances_record. Qed.
Lemma advances_failure p now : advances (record_login_failure w origin p now).
Proof. apply advances_record. Qed.
Lemma advances_managed a p perm act ok now : advances (record_management_event w origin a p perm act ok now).
Proof. apply advances_record. Qed.
Lemma advances_signed_in rq body tokens session : advances (signed_in w rq body tokens session).
Proof. unfold signed_in. advancing. Qed.
Hint Resolve advances_success advances_failure advances_managed advances_signed_in : web.

Lemma session_issued s s' issued id p now expires tokens :
  issue_tokens (E := E) w s = (s', Ok issued) → ok_of issued = Some tokens →
  session_typed (Session_new id p (it_session_token_hash tokens) (it_csrf_token_hash tokens) now expires).
Proof. intros Hi Ho%ok_of_Ok. subst. by destruct (issued_tokens _ _ _ Hi) as (? & ? & _). Qed.

Lemma bail_not_ok {A} r (a : A) s s' : (bail r : Handler A) s ≠ (s', Ok a).
Proof. done. Qed.

(** The values the services yielded, in the hypotheses of a handler taken apart. *)
Ltac yielded :=
  repeat match goal with
  | Hr : require _ (bail _) _ = (_, Ok _) |- _ =>
      apply require_ok in Hr as [Hr _]; [|intros ??; apply bail_not_ok]
  | Hr : require _ (refuse_login _ _ _ _) _ = (_, Ok _) |- _ =>
      apply require_ok in Hr as [Hr _]; [|intros ??; apply refuse_not_ok]
  | Hn : clock_now w _ = (_, Ok _) |- _ => apply clock_read in Hn
  end.

Lemma advances_login rq request : advances (login w origin rq request).
Proof.
  unfold login, login_reserved, generate, instant_now. apply advances_bind; [unfold clock_now; advancing|].
  intros now s1 s2 Hnow%clock_read. case_match; [advancing|]. advancing; yielded.
  apply advances_store, move_create_session; [done|]. by eapply session_issued.
Qed.

Lemma advances_logout context : advances (logout w origin context).
Proof. unfold logout, clock_now. advancing. Qed.

Lemma refuse_bootstrap_not_ok {A} p now (a : A) s s' : refuse_bootstrap w origin p now s ≠ (s', Ok a).
Proof. unfold refuse_bootstrap, bail. intros Hr. inv_calls. Qed.
Lemma advances_refuse_bootstrap {A} p now : advances (refuse_bootstrap w origin p now : Handler A).
Proof. unfold refuse_bootstrap. advancing. Qed.
Hint Resolve advances_refuse_bootstrap : web.

Lemma advances_claimed principal request now : advances (claimed_authenticator w principal request now).
Proof. unfold claimed_authenticator, generate. advancing. Qed.
Hint Resolve advances_claimed : web.

(** What a claim's authenticator is: new, of twenty bytes, and active. *)
Lemma claimed_ok principal request now s s' a :
  claimed_authenticator w principal request now s = (s', Ok (Some a)) →
  0 <= unix_timestamp now <= I64_MAX →
  ta_principal_id a = pr_id principal ∧ ta_state a = Active ∧ length (ta_secret a) = TOTP_SECRET_LENGTH ∧
  base32_decode (default [] (br_totp_secret request)) = Some (ta_secret a) ∧
  ∃ code step, br_totp_code request = Some code ∧ ta_last_used_step a = Some step ∧
    verify_totp_code (ta_secret a) code now None = Ok step ∧ 0 <= step <= I64_MAX.
Proof.
  unfold claimed_authenticator. destruct (br_totp_secret request) as [encoded|]; [|done].
  intros Hrun Hnow. inv_calls. yielded. case_decide as Hlen; [done|]. inv_calls. yielded.
  unfold TotpAuthenticator_activate in *. simpl in *. unfold generate, draw in *. simplify_eq.
  destruct (verify_totp_code _ _ _ _) as [step|] eqn:Hv; simpl in *; [|done].
  unfold mret in *. simplify_eq. simpl. split_and!; try done.
  eexists _, step. split_and!; try done; by eapply verified_step_nonneg.
Qed.

Lemma claimed_typed principal request now s s' a :
  claimed_authenticator w principal request now s = (s', Ok (Some a)) →
  0 <= unix_timestamp now <= I64_MAX → totp_typed a.
Proof.
  intros Hc Hnow. destruct (claimed_ok _ _ _ _ _ _ Hc Hnow) as (_ & _ & Hlen & Hb & code & step & _ & Hs & _ & Hr).
  split; [done|]. split; [by eapply base32_bytes|]. rewrite Hs. naive_solver.
Qed.

Lemma consumption_typed principal request now s s' authenticator hash sd sd' issued tokens st st' id code password :
  claimed_authenticator w principal request now s = (s', Ok authenticator) →
  hash_password_async (E := E) w password sd = (sd', Ok (Ok hash)) →
  issue_tokens (E := E) w st = (st', Ok issued) → ok_of issued = Some tokens →
  0 <= unix_timestamp now <= I64_MAX →
  write_typed (ConsumeCode code (pr_id principal) (mk_password_credential (pr_id principal) hash now)
    authenticator (Session_new id (pr_id principal) (it_session_token_hash tokens)
      (it_csrf_token_hash tokens) now (now + SESSION_LIFETIME)) now).
Proof.
  intros Hc Hh Hi Ho Hnow. split; [|split].
  - by destruct (derived_hash _ _ _ _ Hh) as (? & ? & _).
  - by eapply session_issued.
  - destruct authenticator as [a|]; [|done]. by eapply claimed_typed.
Qed.

Lemma advances_bootstrap rq request : advances (bootstrap_complete w origin policy rq request).
Proof.
  unfold bootstrap_complete, generate, instant_now. apply advances_bind; [unfold clock_now; advancing|].
  intros now s1 s2 Hnow%clock_read. advancing; yielded.
  apply advances_store; [done|]. apply move_consume. simplify_eq/=. by eapply consumption_typed with (code := 0%N).
Qed.

Lemma advances_refuse_change {A} context now : advances (refuse_password_change w origin context now : Handler A).
Proof. unfold refuse_password_change. advancing. Qed.
Hint Resolve advances_refuse_change : web.

Lemma advances_change_password rq context request : advances (change_password w origin rq context request).
Proof.
  unfold change_password, instant_now, clock_now. advancing; yielded.
  apply advances_store; [done|]. apply move_save_password. simplify_eq/=.
  by match goal with Hd : hash_password_async w _ _ = _ |- _ => destruct (derived_hash _ _ _ _ Hd) as (? & ? & _) end.
Qed.

Lemma advances_me rq : advances (me (E := E) w rq).
Proof. unfold me, instant_now, clock_now. advancing. Qed.

Lemma advances_administer rq context id throttled absent :
  advances (administer (E := E) w rq context id throttled absent).
Proof. unfold administer, instant_now. advancing. Qed.
Hint Resolve advances_administer : web.

Lemma advances_set_state rq context id state : advances (set_user_state w origin rq context id state).
Proof. unfold set_user_state, clock_now, managed. advancing. Qed.
Lemma advances_assign rq context id role : advances (assign_user_role w origin rq context id role).
Proof. unfold assign_user_role, clock_now, managed. advancing. Qed.
Lemma advances_set_password rq context id password : advances (set_user_password w origin rq context id password).
Proof.
  unfold set_user_password, clock_now. advancing; yielded.
  apply advances_store; [done|]. apply move_save_password. simplify_eq/=.
  by match goal with Hd : hash_password_async w _ _ = _ |- _ => destruct (derived_hash _ _ _ _ Hd) as (? & ? & _) end.
Qed.
Lemma advances_create_user context name role : advances (create_user w origin context name role).
Proof.
  unfold create_user, clock_now, generate, managed. advancing; yielded.
  apply advances_store; [done|]. apply move_create_principal.
  match goal with Hn : ok_of (PrincipalName_parse _) = _ |- _ => apply ok_of_Ok, PrincipalName_parse_Ok in Hn as [_ Hn] end.
  done.
Qed.
Lemma advances_revoke_session context id : advances (revoke_session_handler w origin context id).
Proof. unfold revoke_session_handler, clock_now. advancing. Qed.
Lemma advances_list_users : advances (list_users (E := E) w).
Proof. unfold list_users. advancing. Qed.
Lemma advances_list_sessions context : advances (list_sessions_handler (E := E) w context).
Proof.
  assert (∀ p, advances (list_sessions_of (E := E) w context p)) by (intros p; unfold list_sessions_of; advancing).
  pose proof (λ A B, @advances_traverse A B). unfold list_sessions_handler. advancing.
Qed.
End progress.

#[export] Hint Resolve advances_append advances_record advances_verify advances_hash advances_tokens
  advances_dummy advances_dummy_admin advances_refuse advances_bail advances_resolve advances_check
  advances_success advances_failure advances_managed advances_signed_in advances_refuse_bootstrap
  advances_claimed advances_refuse_change advances_administer : web.
