(* ===== verification/WebAuthBudget.v ===== *)
(** * WebAuthBudget: how many passwords anyone may try

    Sign-ins against the running server, any number of them at once, their steps
    interleaved in any way among any other requests: whatever becomes of them -
    refused, failed, dropped half way - at most five wrong passwords of one name from
    one address, and at most twenty from one address, are checked on the budget of
    fifteen minutes. *)
From S2P Require Import Prelude Text Database Accounts AuditLog AccountStore RateLimiter.
From S2P Require Import WebRoutes WebRuntime WebAuth WebProgress WebAuthSafety.
Local Open Scope Z_scope.

Create HintDb budget.

(** ** What one sign-in does to the budget *)

(** The effects the budget is about: its own calls and the wrong passwords. *)
Definition on_budget (e : WebEffect) : bool :=
  match e with
  | PasswordChecked _ _ verdict => negb verdict
  | SlotsReserved name _ _ _ _ | SlotsRefunded name _ _ _ => bool_decide (name = LimitLogin)
  | _ => false
  end.
Definition budget_log (log : list WebEffect) : list WebEffect := filter (λ e, on_budget e = true) log.

Section budget.
Context {St E : Type} `{AccountStore St E} `{AuthErrors E} `{WebCrypto} `{UnicodeCase}.
Context `{HmacSha1} `{HttpText}.
Context (w : @Surroundings St) (origin : DeploymentPosture).
Implicit Types (s : WebRun St) (es : list WebEffect).
Abbreviation Handler := (M (WebRun St) (abrupt Response)).

(** What a handler adds to the budget's log, whatever the surroundings do. *)
Definition spends {A} (P : list WebEffect → Prop) (m : Handler A) : Prop :=
  ∀ s, ∃ es, budget_log (wr_log (m s).1) = budget_log (wr_log s) ++ es ∧ P es.

Definition quiet es : Prop := es = [].
(** At most one wrong password. *)
Definition at_most_one es : Prop := es = [] ∨ ∃ hash password, es = [PasswordChecked hash password false].
Definition refunded (username ip : str) (res : Reservation) es : Prop := es = [SlotsRefunded LimitLogin username ip res].
(** A reservation is kept, with at most one wrong password checked, or it is
    refunded and none was. *)
Definition held_or_refunded (username ip : str) (res : Reservation) es : Prop :=
  at_most_one es ∨ refunded username ip res es.
(** A sign-in asks for its slots before anything else. *)
Definition one_sign_in (username ip : str) (now : Instant) es : Prop :=
  es = [] ∨ es = [SlotsReserved LimitLogin username ip now None] ∨
  ∃ res rest, es = SlotsReserved LimitLogin username ip now (Some res) :: rest ∧ held_or_refunded username ip res rest.

Lemma budget_log_snoc log e : budget_log (log ++ [e]) = budget_log log ++ if on_budget e then [e] else [].
Proof. unfold budget_log. rewrite filter_app, filter_cons, filter_nil. by destruct (on_budget e). Qed.

Lemma spends_mono {A} (P Q : list WebEffect → Prop) (m : Handler A) : spends P m → (∀ es, P es → Q es) → spends Q m.
Proof. intros Hm HPQ s. destruct (Hm s) as (es & Hes & HP). eauto. Qed.

(** A step and what follows it. *)
Lemma spends_bind {A B} (P Q R : list WebEffect → Prop) (m : Handler A) (k : A → Handler B) :
  spends P m → (∀ a, spends Q (k a)) → (∀ es, P es → R es) → (∀ es es', P es → Q es' → R (es ++ es')) →
  spends R (mbind m k).
Proof.
  intros Hm Hk HPR Happ s. unfold mbind. destruct (Hm s) as (es & Hes & HP).
  destruct (m s) as [s1 [a|e]]; simpl in *; [|by exists es; auto].
  destruct (Hk a s1) as (es' & Hes' & HQ). exists (es ++ es'). rewrite Hes', Hes, app_assoc. auto.
Qed.
Lemma idle_bind {A B} (P : list WebEffect → Prop) (m : Handler A) (k : A → Handler B) :
  spends quiet m → P [] → (∀ a, spends P (k a)) → spends P (mbind m k).
Proof. intros Hm HP Hk. eapply spends_bind; [exact Hm|exact Hk|by intros ? ->|by intros ? es ->]. Qed.
Lemma idle_after {A B} (P : list WebEffect → Prop) (m : Handler A) (k : A → Handler B) :
  spends P m → (∀ a, spends quiet (k a)) → spends P (mbind m k).
Proof. intros Hm Hk. eapply spends_bind; [exact Hm|exact Hk|done|]. intros es ? HP ->. by rewrite app_nil_r. Qed.

Lemma idle_here {A} (m : Handler A) : (∀ s, wr_log (m s).1 = wr_log s) → spends quiet m.
Proof. intros Hm s. exists []. by rewrite Hm, app_nil_r. Qed.
Lemma idle_ret {A} (a : A) : spends quiet (mret a).
Proof. by apply idle_here. Qed.
Lemma quiet_bail {A} r : spends quiet (bail r : Handler A).
Proof. by apply idle_here. Qed.
Lemma idle_draw {A} (f : nat → A) : spends quiet (draw f).
Proof. by apply idle_here. Qed.
Lemma spends_log e (P : list WebEffect → Prop) : P (if on_budget e then [e] else []) → spends P (log e).
Proof. intros HP s. eexists. simpl. rewrite budget_log_snoc. eauto. Qed.
Lemma idle_log e : on_budget e = false → spends quiet (log e).
Proof. intros He. apply spends_log. by rewrite He. Qed.
Lemma idle_access {A} (f : nat → Shared St → Shared St * A) : spends quiet (access w f).
Proof. apply idle_here. intros s. unfold access. by destruct (f _ _). Qed.
Lemma quiet_awaited {A} (f : nat → Shared St → Shared St * A) : spends quiet (awaited w f).
Proof. apply idle_here. intros s. unfold awaited, access. destruct (drops _ _); [done|]. by destruct (f _ _). Qed.
Lemma quiet_require {A} (o : option A) (otherwise : Handler A) :
  spends quiet otherwise → spends quiet (require o otherwise).
Proof. destruct o; [intros _; apply idle_ret | done]. Qed.

Hint Resolve idle_ret quiet_bail idle_draw idle_log idle_access quiet_awaited quiet_require : budget.

(** Takes a handler apart that neither checks a password nor touches the budget. *)
Ltac quieting :=
  repeat (intros; first
    [ solve [eauto with budget]
    | apply idle_bind; [|done|]
    | apply quiet_require
    | progress case_match | progress case_decide ]).

Lemma idle_append e : spends quiet (append_audit_event w e).
Proof. unfold append_audit_event. quieting. Qed.
Hint Resolve idle_append : budget.
Lemma quiet_record a p perm act ok failure target now :
  spends quiet (record_outcome w origin a p perm act ok failure target now).
Proof. unfold record_outcome, generate. quieting. Qed.
Hint Resolve quiet_record : budget.
Lemma quiet_refuse {A} p now : spends quiet (refuse_login w origin p now : Handler A).
Proof. unfold refuse_login, record_login_failure. quieting. Qed.
Hint Resolve quiet_refuse : budget.
Lemma quiet_tokens : spends quiet (issue_tokens (E := E) w).
Proof. unfold issue_tokens. quieting. Qed.
Lemma idle_store {A} (m : M St E A) : spends quiet (store w m).
Proof. apply quiet_awaited. Qed.
Hint Resolve idle_store : budget.
Lemma quiet_check p request now authenticators : spends quiet (check_authenticator w origin p request now authenticators).
Proof. unfold check_authenticator. quieting. Qed.
Hint Resolve quiet_tokens quiet_check : budget.

(** What a verification answers, and what it leaves in the log. *)
Lemma verify_runs hash password s :
  budget_log (wr_log (verify_password_async w hash password s).1) =
  budget_log (wr_log s) ++
    match (verify_password_async w hash password s).2 with
    | Ok true | Err _ => []
    | Ok false => if slot_at w (wr_calls s) then [PasswordChecked hash password false] else []
    end.
Proof.
  unfold verify_password_async, awaited, access, mbind. destruct (drops w _); [by rewrite app_nil_r|]. simpl.
  destruct (slot_at w (wr_calls s)); simpl; [|by rewrite app_nil_r].
  destruct (drops w _); [by rewrite app_nil_r|]. simpl. rewrite budget_log_snoc. simpl.
  by destruct (worker_at w _ && verify_password hash password).
Qed.

Lemma verify_one hash password : spends at_most_one (verify_password_async w hash password).
Proof.
  intros s. rewrite verify_runs. eexists. split; [done|].
  destruct (_ : result bool _) as [[|]|]; [by left| |by left]. destruct (slot_at w _); [by right; eauto|by left].
Qed.

Lemma dummy_spends password : spends at_most_one (dummy_password_verification w password).
Proof.
  unfold dummy_password_verification. destruct (Argon2IdHash_from_parts _ _).
  - apply idle_after; [apply verify_one|intros; apply idle_ret].
  - eapply spends_mono; [apply idle_ret|]. by left.
Qed.

(** What follows a verification keeps its own account once the password proved
    right. *)
Lemma verified_spends {B} (P : list WebEffect → Prop) hash password (k : bool → Handler B) :
  (∀ es, at_most_one es → P es) → spends P (k true) → spends quiet (k false) →
  spends P (mbind (verify_password_async w hash password) k).
Proof.
  intros HP Htrue Hfalse s. unfold mbind. pose proof (verify_runs hash password s) as Hv.
  destruct (verify_password_async w hash password s) as [s1 [[|]|e]]; simpl in *.
  - rewrite app_nil_r in Hv. rewrite <- Hv. apply Htrue.
  - destruct (Hfalse s1) as (es & Hes & ->). eexists. rewrite Hes, app_nil_r, Hv. split; [done|]. apply HP.
    destruct (slot_at w _); [by right; eauto|by left].
  - eexists. split; [exact Hv|]. apply HP. by left.
Qed.

Lemma refund_spends username ip res : spends (refunded username ip res) (refund_slots w LimitLogin username ip res).
Proof.
  unfold refund_slots. intros s. eexists. unfold limit, access, mbind, log, happens. simpl. by rewrite budget_log_snoc.
Qed.

Lemma require_spends {A B} (P : list WebEffect → Prop) (o : option A) (otherwise : Handler A) (k : A → Handler B) :
  (∀ s s' a, otherwise s ≠ (s', Ok a)) → spends P otherwise → (∀ a, spends P (k a)) →
  spends P (mbind (require o otherwise) k).
Proof.
  intros Hnot Ho Hk s. destruct o as [a|]; simpl; [by apply Hk|]. unfold mbind.
  destruct (Ho s) as (es & Hes & HP). destruct (otherwise s) as [s1 [a|e]] eqn:Hr; [by apply Hnot in Hr|].
  by exists es.
Qed.

Lemma dummy_refuse_not_ok {A} password p now (a : A) s s' :
  (do! dummy_password_verification w password in refuse_login w origin p now) s ≠ (s', Ok a).
Proof. intros (u & s1 & _ & Hr)%mbind_ok. by apply refuse_not_ok in Hr. Qed.

(** With its slots reserved, a sign-in keeps them, with at most one wrong password
    checked, or gives them back, with none. *)
Lemma reserved_spends rq request now ip res :
  spends (held_or_refunded (lr_username request) ip res) (login_reserved w origin rq request now ip res).
Proof.
  set (P := held_or_refunded (lr_username request) ip res).
  assert (P []) as Hnone by by left; left.
  assert (∀ es, at_most_one es → P es) as Hone by by left.
  assert (∀ {A} (m : Handler A), spends quiet m → spends P m) as Hquiet.
  { intros A m Hm. eapply spends_mono; [exact Hm|]. by intros es ->. }
  assert (∀ {A} p, spends P
    (do! dummy_password_verification w (lr_password request) in refuse_login w origin p now : Handler A)) as Hdummy.
  { intros A p. eapply spends_mono; [apply idle_after; [apply dummy_spends | intros; apply quiet_refuse]|done]. }
  unfold login_reserved. apply idle_bind; [quieting|done|]. intros name.
  apply idle_bind; [quieting|done|]. intros found.
  apply require_spends; [intros; apply dummy_refuse_not_ok|apply Hdummy|]. intros p.
  case_decide; [apply Hdummy|]. apply idle_bind; [quieting|done|]. intros stored.
  apply require_spends; [intros; apply dummy_refuse_not_ok|apply Hdummy|]. intros credential.
  apply verified_spends; [done| |apply quiet_refuse]. simpl.
  apply idle_bind; [quieting|done|]. intros [authenticators|e]; [|apply Hquiet; quieting].
  apply idle_bind; [quieting|done|]. intros _. eapply spends_mono.
  - apply idle_after; [apply refund_spends|]. intros _. unfold generate, record_login_success, signed_in. quieting.
  - intros es Hr. by right.
Qed.

(** A sign-in leaves the budget alone, is refused by it, or takes its slots and
    then either keeps them, with at most one wrong password checked, or gives them
    back, with none.  It asks with the instant it read. *)
Lemma login_spends rq request s :
  ∃ es, budget_log (wr_log (login w origin rq request s).1) = budget_log (wr_log s) ++ es ∧
    one_sign_in (lr_username request) (request_ip rq) (instant_at w (S (wr_calls s))) es.
Proof.
  unfold login. erewrite (mbind_run (clock_now w)) by reflexivity.
  destruct (negb (password_satisfies_policy _)).
  { exists []. simpl. rewrite app_nil_r. split; [done|by left]. }
  erewrite (mbind_run (instant_now w)) by reflexivity.
  set (now := clock_at w _). set (t := instant_at w _). set (s2 := wr_tick _).
  set (sh := others w (wr_calls s2) (wr_shared s2)).
  destruct (reserve (sh_rate_limiter sh) (lr_username request) (request_ip rq) t) as [l1 g] eqn:Hres.
  set (s3 := happens (SlotsReserved LimitLogin (lr_username request) (request_ip rq) t g)
    (with_shared (with_limiter LimitLogin l1 sh) (wr_tick s2))).
  erewrite (mbind_run (reserve_slots w LimitLogin _ _ _) _ s2 s3).
  2: { unfold reserve_slots, limit, access, mbind. simpl. unfold sh in *. simpl in Hres. rewrite Hres. reflexivity. }
  assert (budget_log (wr_log s3) = budget_log (wr_log s) ++ [SlotsReserved LimitLogin (lr_username request) (request_ip rq) t g])
    as Hw3 by (simpl; by rewrite budget_log_snoc).
  destruct g as [res|]; cbn [require].
  - erewrite (mbind_run (mret res)) by reflexivity.
    destruct (reserved_spends rq request now (request_ip rq) res s3) as (es & Hes & HP).
    eexists. rewrite Hes, Hw3, <- app_assoc. split; [done|]. right. right. eexists _, _. by split.
  - eexists. split; [exact Hw3|]. right. by left.
Qed.
End budget.

(** ** Sign-ins at the same time *)

(** What happened on the budget in the order it happened, and in which sign-in. *)
Abbreviation History := (list (nat * WebEffect)).

(** The part of one sign-in. *)
Definition own (i : nat) (h : History) : list WebEffect := (filter (λ e, e.1 = i) h).*2.

(** The instants the budget was asked with. *)
Definition asked (h : History) : list Instant :=
  omap (λ e, match e.2 with SlotsReserved _ _ _ now _ => Some now | _ => None end) h.

Lemma own_snoc i h j e : own i (h ++ [(j, e)]) = own i h ++ if decide (j = i) then [e] else [].
Proof. unfold own. rewrite filter_app, fmap_app, filter_cons, filter_nil. simpl. by destruct (decide (j = i)). Qed.

Lemma elem_of_delete_once {A B} (l : list (A * B)) n i b p :
  NoDup l.*1 → l !! n = Some (i, b) → p ∈ delete n l ↔ p ∈ l ∧ p.1 ≠ i.
Proof.
  intros Hnd Hn. assert (∃ l1 l2, l = l1 ++ (i, b) :: l2 ∧ delete n l = l1 ++ l2) as (l1 & l2 & -> & ->).
  { exists (take n l), (drop (S n) l). by rewrite take_drop_middle, delete_take_drop. }
  rewrite fmap_app, fmap_cons, NoDup_app, NoDup_cons in Hnd. simpl in Hnd.
  destruct Hnd as (_ & Hdis & Hni & _). rewrite !elem_of_app, elem_of_cons.
  assert (p ∈ l1 → p.1 ≠ i) as Hb.
  { intros Hp <-. eapply (Hdis (p.1)); [by apply list_elem_of_fmap_2|]. by left. }
  assert (p ∈ l2 → p.1 ≠ i) as Ha.
  { intros Hp <-. apply Hni. by apply list_elem_of_fmap_2. }
  split; [naive_solver|]. intros [[Hp|[->|Hp]] Hne]; auto. by destruct Hne.
Qed.

Section many.
Context {St E : Type} `{AccountStore St E} `{AuthErrors E} `{WebCrypto} `{UnicodeCase}.
Context `{HmacSha1} `{HttpText} (origin : DeploymentPosture).
Implicit Types (h : History) (l : LoginRateLimiter).

(** One sign-in, with all it meets. *)
Record SignIn := mk_sign_in {
  si_world : @Surroundings St;
  si_started : Shared St;
  si_request : WebRequest;
  si_login : LoginRequest;
}.
(** It asks with the instant of its second step. *)
Definition si_attempt (x : SignIn) : Attempt :=
  mk_attempt (lr_username (si_login x)) (request_ip (si_request x)) (instant_at (si_world x) 1).
Definition sign_in (x : SignIn) : WebRun St :=
  (login (si_world x) origin (si_request x) (si_login x) (mk_run (si_started x) [] 0)).1.

(** The history is an interleaving of what the sign-ins did; one still under way
    has done a part. *)
Definition interleaves (xs : list SignIn) h : Prop :=
  ∀ i, match xs !! i with
       | Some x => own i h `prefix_of` budget_log (wr_log (sign_in x))
       | None => own i h = []
       end.

(** One limiter answered them all, in this order; only [login] calls it. *)
Fixpoint answered l h : Prop :=
  match h with
  | [] => True
  | (_, SlotsReserved _ username ip now answer) :: h =>
      (reserve l username ip now).2 = answer ∧ answered (reserve l username ip now).1 h
  | (_, SlotsRefunded _ username ip reservation) :: h => answered (refund l username ip reservation) h
  | _ :: h => answered l h
  end.

(** The wrong passwords checked, each with the sign-in and its attempt. *)
Definition guessed (xs : list SignIn) h : list (nat * Attempt) :=
  omap (λ e, match e.2 with
             | PasswordChecked _ _ false => (λ x, (e.1, si_attempt x)) <$> xs !! e.1
             | _ => None
             end) h.
Definition guesses (xs : list SignIn) h : list Attempt := (guessed xs h).*2.

(** The slots a sign-in holds after what it did. *)
Definition slot (es : list WebEffect) : option Reservation :=
  match es with
  | [SlotsReserved _ _ _ _ (Some r)] | [SlotsReserved _ _ _ _ (Some r); PasswordChecked _ _ _] => Some r
  | _ => None
  end.
Definition has_checked (es : list WebEffect) : Prop :=
  ∃ name username ip now r hash password verdict,
    es = [SlotsReserved name username ip now (Some r); PasswordChecked hash password verdict].

(** A sign-in asks first; granted, it checks a wrong password or gives the slots back. *)
Inductive next_effect (a : Attempt) : list WebEffect → WebEffect → Prop :=
| next_asks answer : next_effect a [] (SlotsReserved LimitLogin (at_username a) (at_ip a) (at_time a) answer)
| next_refunds name username ip now r :
    next_effect a [SlotsReserved name username ip now (Some r)] (SlotsRefunded LimitLogin (at_username a) (at_ip a) r)
| next_checks name username ip now r hash password :
    next_effect a [SlotsReserved name username ip now (Some r)] (PasswordChecked hash password false).

Lemma next_of_sign_in x before e :
  before ++ [e] `prefix_of` budget_log (wr_log (sign_in x)) → next_effect (si_attempt x) before e.
Proof.
  intros Hp. destruct (login_spends (si_world x) origin (si_request x) (si_login x) (mk_run (si_started x) [] 0))
    as (es & Hes & Hone). fold (sign_in x) in Hes. rewrite Hes in Hp. simpl in Hp. clear Hes.
  destruct Hp as [after Hp]. rewrite <- app_assoc in Hp. simpl in Hp.
  destruct Hone as [->|[->|(res & rest & -> & Hrest)]].
  - by destruct before.
  - destruct before as [|? [|]]; [|done..]. injection Hp as <- _. exact (next_asks (si_attempt x) None).
  - destruct before as [|b before]; injection Hp as <- Hp; [exact (next_asks (si_attempt x) (Some res))|].
    destruct Hrest as [[->|(hash & password & ->)]| ->]; [by destruct before|..];
      (destruct before as [|? [|]]; [|done..]); injection Hp as <- _; [constructor|].
    apply (next_refunds (si_attempt x)).
Qed.

(** The sign-ins under way against the limiter: who holds which slots. *)
Record budget_state xs h l (t : Instant) (left : Z) (holders : list (nat * (Attempt * Reservation))) : Prop := {
  bs_limits : limits l t holders.*2 left;
  bs_within : within_budgets t holders.*2.*1;
  bs_once : NoDup holders.*1;
  bs_slots i a r : (i, (a, r)) ∈ holders ↔ ∃ x, xs !! i = Some x ∧ a = si_attempt x ∧ slot (own i h) = Some r;
  bs_guess_once : NoDup (guessed xs h).*1;
  bs_guessed i a : (i, a) ∈ guessed xs h → (∃ x, xs !! i = Some x ∧ a = si_attempt x) ∧ has_checked (own i h);
}.

Lemma guessed_snoc xs h i e :
  guessed xs (h ++ [(i, e)]) =
  guessed xs h ++ match e, xs !! i with PasswordChecked _ _ false, Some x => [(i, si_attempt x)] | _, _ => [] end.
Proof.
  unfold guessed. rewrite omap_app. f_equal. simpl. destruct e as [| ? ? [|]| | |], (xs !! i); done.
Qed.

(** Who did not act is where it was. *)
Lemma own_other i j h e : j ≠ i → own i (h ++ [(j, e)]) = own i h.
Proof. intros Hne. by rewrite own_snoc, decide_False, app_nil_r. Qed.
Lemma own_self i h e : own i (h ++ [(i, e)]) = own i h ++ [e].
Proof. by rewrite own_snoc, decide_True. Qed.

(** A step of the sign-in [i]. *)
Lemma asks_step xs h l t left holders i x answer :
  budget_state xs h l t (left + 1) holders → 0 <= left → xs !! i = Some x → own i h = [] →
  t <= at_time (si_attempt x) →
  let e := SlotsReserved LimitLogin (at_username (si_attempt x)) (at_ip (si_attempt x)) (at_time (si_attempt x)) answer in
  let reserved := reserve l (at_username (si_attempt x)) (at_ip (si_attempt x)) (at_time (si_attempt x)) in
  reserved.2 = answer →
  ∃ holders', budget_state xs (h ++ [(i, e)]) reserved.1 (at_time (si_attempt x)) left holders'.
Proof.
  intros [Hl Hw Ho Hs Hg Hd] Hleft Hx Hown Hle e reserved Hans.
  assert (∀ b, (i, b) ∉ holders) as Hfree by (intros [a r] (? & _ & _ & Hr)%Hs; by rewrite Hown in Hr).
  assert (guessed xs (h ++ [(i, e)]) = guessed xs h) as Hsame by (rewrite guessed_snoc; apply app_nil_r).
  assert (∀ j a, (j, a) ∈ guessed xs h → j ≠ i) as Hne.
  { intros j a Hj ->. apply Hd in Hj as [_ (? & ? & ? & ? & ? & ? & ? & ? & Hc)]. by rewrite Hown in Hc. }
  assert (∀ j a, (j, a) ∈ guessed xs (h ++ [(i, e)]) →
    (∃ x, xs !! j = Some x ∧ a = si_attempt x) ∧ has_checked (own j (h ++ [(i, e)]))) as Hd'.
  { intros j a Hj. rewrite Hsame in Hj. pose proof (Hne _ _ Hj). rewrite own_other by done. by apply Hd. }
  rewrite <- Hsame in Hg. destruct (reserve l _ _ _) as [l' r] eqn:Hres. simpl in Hans. subst r.
  apply (limits_reserve l t holders.*2 left) in Hres as [(Hgr & rs & -> & Hl')|(_ & -> & Hl')]; [| |done..].
  - exists (holders ++ [(i, (si_attempt x, rs))]). simpl.
    split; rewrite ?fmap_app; simpl; try done.
    + by eapply within_budgets_grant.
    + apply NoDup_app. split; [done|]. split; [|apply NoDup_singleton].
      intros j ([j' b] & Hj' & Hj)%list_elem_of_fmap Hi%list_elem_of_singleton. simpl in *. subst. by apply Hfree in Hj.
    + intros j a r. rewrite elem_of_app, list_elem_of_singleton, Hs. destruct (decide (j = i)) as [->|Hj].
      * rewrite own_self, Hown. simpl. split.
        -- intros [(y & ? & ? & ?)|[= -> ->]]; [done|]. by exists x.
        -- intros (y & Hy & -> & [= ->]). right. congruence.
      * rewrite own_other by done. split; [intros [?|[= ? _ _]]; [done|congruence]|by left].
  - exists holders. split; [done| |done| |done|done].
    + intros now u ip Hn. apply Hw. lia.
    + intros j a r. rewrite Hs. destruct (decide (j = i)) as [->|Hj]; [|by rewrite own_other].
      rewrite own_self, Hown. simpl. split; by intros (? & _ & _ & ?).
Qed.

Lemma refunds_step xs h l t left holders i x name u ip n r :
  let e := SlotsRefunded LimitLogin (at_username (si_attempt x)) (at_ip (si_attempt x)) r in
  budget_state xs h l t left holders → xs !! i = Some x →
  own i h = [SlotsReserved name u ip n (Some r)] →
  ∃ holders', budget_state xs (h ++ [(i, e)])
    (refund l (at_username (si_attempt x)) (at_ip (si_attempt x)) r) t left holders'.
Proof.
  intros e [Hl Hw Ho Hs Hg Hd] Hx Hown.
  assert ((i, (si_attempt x, r)) ∈ holders) as [k Hn]%list_elem_of_lookup by (apply Hs; exists x; by rewrite Hown).
  exists (delete k holders).
  assert (∀ A B (f : A → B) (m : list A), f <$> delete k m = delete k (f <$> m)) as Hdel.
  { intros A B f m. rewrite !delete_take_drop. by rewrite fmap_app, fmap_take, fmap_drop. }
  assert (guessed xs (h ++ [(i, e)]) = guessed xs h) as Hsame by (rewrite guessed_snoc; apply app_nil_r).
  split.
  - rewrite Hdel. apply limits_refund; [done|]. by rewrite list_lookup_fmap, Hn.
  - rewrite !Hdel. by apply within_budgets_delete.
  - rewrite Hdel. eapply sublist_NoDup; [exact Ho|]. apply sublist_delete.
  - intros j a r'. rewrite (elem_of_delete_once _ _ _ _ _ Ho Hn), Hs. simpl. destruct (decide (j = i)) as [->|Hj].
    + rewrite own_self, Hown. simpl. split; [by intros [_ []]|by intros (? & _ & _ & ?)].
    + rewrite own_other by done. naive_solver.
  - by rewrite Hsame.
  - intros j a Hj. rewrite Hsame in Hj. destruct (Hd _ _ Hj) as [? Hc]. rewrite own_other; [done|]. intros <-.
    destruct Hc as (? & ? & ? & ? & ? & ? & ? & ? & Hc). by rewrite Hown in Hc.
Qed.

Lemma checks_step xs h l t left holders i x name u ip n r hash password :
  budget_state xs h l t left holders → xs !! i = Some x →
  own i h = [SlotsReserved name u ip n (Some r)] →
  budget_state xs (h ++ [(i, PasswordChecked hash password false)]) l t left holders.
Proof.
  intros [Hl Hw Ho Hs Hg Hd] Hx Hown.
  assert (∀ j a, (j, a) ∈ guessed xs h → j ≠ i) as Hne.
  { intros j a Hj ->. apply Hd in Hj as [_ (? & ? & ? & ? & ? & ? & ? & ? & Hc)]. by rewrite Hown in Hc. }
  split; [done..| | |].
  - intros j a r'. rewrite Hs. destruct (decide (j = i)) as [->|Hj]; [|by rewrite own_other].
    rewrite own_self, Hown. done.
  - rewrite guessed_snoc, Hx, fmap_app. apply NoDup_app. split; [done|]. split; [|apply NoDup_singleton].
    intros j ([j' b] & Hj' & Hj)%list_elem_of_fmap Hi%list_elem_of_singleton. simpl in *. subst. by apply Hne in Hj.
  - intros j a. rewrite guessed_snoc, Hx, elem_of_app, list_elem_of_singleton. intros [Hj|[= -> ->]].
    + rewrite own_other by (intros <-; by apply Hne in Hj). by apply Hd.
    + rewrite own_self, Hown. split; [by exists x|]. eexists _, _, _, _, _, _, _, _. reflexivity.
Qed.

Lemma budget_state_weaken xs h l t left holders :
  budget_state xs h l t (left + 1) holders → budget_state xs h l t left holders.
Proof. intros [[? ? ?] ? ? ? ? ?]. split; [split; [done..|lia]|done..]. Qed.

(** The whole history. *)
Lemma budget_run xs before h l t holders now :
  budget_state xs before l t (Z.of_nat (length h)) holders →
  (∀ k, interleaves xs (before ++ take k h)) → answered l h → StronglySorted Z.le (t :: asked h ++ [now]) →
  ∃ l' t' holders', budget_state xs (before ++ h) l' t' 0 holders' ∧ t' <= now.
Proof.
  revert before l t holders. induction h as [|[i e] h IH]; intros before l t holders Hb Hi Ha Hs.
  { exists l, t, holders. rewrite app_nil_r. split; [done|]. inversion Hs as [|? ? _ Hf]; subst. by inversion Hf. }
  assert (∀ k, interleaves xs ((before ++ [(i, e)]) ++ take k h)) as Hi'.
  { intros k. rewrite <- app_assoc. exact (Hi (S k)). }
  assert (∃ x, xs !! i = Some x ∧ next_effect (si_attempt x) (own i before) e) as (x & Hx & Hnext).
  { pose proof (Hi 1%nat i) as Hown. simpl in Hown. rewrite take_0 in Hown. rewrite own_self in Hown.
    destruct (xs !! i) as [x|]; [|by destruct (own i before)]. exists x. split; [done|]. by apply next_of_sign_in. }
  replace (Z.of_nat (length ((i, e) :: h))) with (Z.of_nat (length h) + 1) in Hb by (simpl; lia).
  assert (∀ l' t' holders', budget_state xs (before ++ [(i, e)]) l' t' (Z.of_nat (length h)) holders' →
    answered l' h → StronglySorted Z.le (t' :: asked h ++ [now]) →
    ∃ l' t' holders', budget_state xs (before ++ (i, e) :: h) l' t' 0 holders' ∧ t' <= now) as Hgo.
  { intros l' t' holders' Hb' Ha' Hs'. rewrite cons_middle, app_assoc. by eapply IH. }
  inversion Hnext as [answer Heq|name u ip n r Heq|name u ip n r hash password Heq]; subst e; symmetry in Heq; simpl in Ha, Hs.
  - inversion Hs as [|? ? Hs' Hf]; subst. inversion Hf as [|? ? Hle _]; subst. destruct Ha as [Hans Ha].
    destruct (asks_step xs before l t (Z.of_nat (length h)) holders i x answer) as (holders' & Hb'); [done|lia|done..|].
    by eapply Hgo.
  - destruct (refunds_step xs before l t (Z.of_nat (length h)) holders i x name u ip n r) as (holders' & Hb');
      [by apply budget_state_weaken|done..|]. by eapply Hgo.
  - eapply Hgo; [|done..]. eapply (checks_step _ _ _ _ _ _ _ _ name u ip n); [by apply budget_state_weaken|done..].
Qed.

Lemma interleaves_prefix xs h k : interleaves xs h → interleaves xs (take k h).
Proof.
  intros Hi i. specialize (Hi i). rewrite <- (take_drop k h) in Hi. unfold own in *. rewrite filter_app, fmap_app in Hi.
  destruct (xs !! i); [by eapply prefix_app_l|]. by apply app_eq_nil in Hi as [? _].
Qed.

Lemma filter_length_submseteq {A} (P : A → Prop) `{∀ x, Decision (P x)} (l k : list A) :
  l ⊆+ k → (length (filter P l) <= length (filter P k))%nat.
Proof. intros Hs. induction Hs; rewrite ?filter_cons; repeat case_decide; simpl; lia. Qed.

(** C33: However many sign-ins are tried, at once or one after the other, their steps
    interleaved in any way and among any other requests: at most five wrong passwords
    of one name from one address, and at most twenty from one address, are checked on
    what the budget granted within fifteen minutes.  A sign-in may be under way,
    refused, failed or dropped half way; the limiter answers one call after the other,
    asked with instants that do not go back. *)
Theorem wrong_passwords_are_few xs h username ip now :
  interleaves xs h → answered LoginRateLimiter_new h → StronglySorted Z.le (asked h ++ [now]) →
  Z.of_nat (length h) < 2 ^ 64 →
  (held_by_name (guesses xs h) username ip now <= USERNAME_FAILURE_LIMIT)%nat ∧
  (held_by_ip (guesses xs h) ip now <= IP_FAILURE_LIMIT)%nat.
Proof.
  intros Hi Ha Hs Hlen.
  assert (∃ t, StronglySorted Z.le (t :: asked h ++ [now])) as [t Ht].
  { destruct (asked h ++ [now]) as [|t ts] eqn:Heq; [by destruct (asked h)|]. exists t. constructor; [done|].
    inversion Hs as [|? ? _ Hf]; subst. by constructor. }
  destruct (budget_run xs [] h LoginRateLimiter_new t [] now) as (l & t' & holders & [_ Hw _ Hslots Hgo Hg] & Hle); [|by intros; apply interleaves_prefix|done..|].
  { split; [by apply limits_new| |constructor| |constructor|].
    - intros n u i _. unfold held_by_name, held_by_ip. simpl. lia.
    - intros i a r. split; [by intros ?%elem_of_nil|]. by intros (? & _ & _ & ?).
    - by intros i a ?%elem_of_nil. }
  simpl in *. assert (guesses xs h ⊆+ holders.*2.*1) as Hsub.
  { assert (guessed xs h ⊆+ (λ p, (p.1, p.2.1)) <$> holders) as Hsub%(fmap_submseteq snd).
    2: { replace holders.*2.*1 with ((λ p : nat * (Attempt * Reservation), (p.1, p.2.1)) <$> holders).*2; [exact Hsub|].
         clear. induction holders as [|[? [? ?]] holders IH]; [done|]. simpl. by f_equal. }
    apply NoDup_submseteq; [by eapply NoDup_fmap_1|]. intros [i a] Hia.
    destruct (Hg _ _ Hia) as [(x & Hx & Hax) (? & ? & ? & ? & r & ? & ? & ? & Hc)].
    apply list_elem_of_fmap. exists (i, (a, r)). split; [done|]. apply Hslots. exists x. by rewrite Hc. }
  destruct (Hw now username ip Hle) as [Hn Hp].
  split; (etransitivity; [apply filter_length_submseteq, Hsub|done]).
Qed.
End many.
