(* ===== verification/WebWitnesses.v ===== *)
(** * WebWitnesses: a concrete console

    The theorems on accounts and on the authentication surface at concrete
    inputs: the SQLite store of the standalone runtime with one administrator, a
    second factor, a live and a dead session and an unused bootstrap code. *)
From S2P Require Import Prelude Text Operation CenterDomain CommandCipher Database OperationWitnesses.
From S2P Require Import AuditLog Accounts RateLimiter AccountStore AccountRepository.
From S2P Require Import WebRoutes WebRuntime WebAuth WebProgress.
From S2P Require Import WebAuthSafety WebAuthBudget.
Local Open Scope Z_scope.

(** ** The parameters *)

#[export] Instance ascii_case : UnicodeCase := {
  char_to_lowercase c := if decide (c = 931%N) then [963%N] else [ascii_lowercase c];
  is_word_final _ _ := false;
}.
#[export, refine] Instance ascii_case_laws : UnicodeCaseLaws := {}.
Proof.
  - intros c Hc. cbn. by rewrite decide_False by lia.
  - done.
  - intros c. cbn. case_decide; [by subst|]. cbn. by intros [= ->].
Defined.

#[export] Instance zero_hmac : HmacSha1 := λ _ _, Some (replicate 20 7%N).
#[export, refine] Instance zero_hmac_laws : HmacSha1Laws := {}.
Proof. intros secret message. by eexists. Defined.

(** Thirty-two bytes of a text, padded. *)
Definition pad (bytes : list N) : list N := take 32 (bytes ++ replicate 32 0%N).

Fixpoint nibbles (bytes : list N) : str :=
  match bytes with
  | [] => []
  | b :: bytes => (65 + b / 16 mod 16)%N :: (65 + b mod 16)%N :: nibbles bytes
  end.
Fixpoint of_nibbles (s : str) : option (list N) :=
  match s with
  | [] => Some []
  | h :: l :: s =>
      bytes ← of_nibbles s;
      if decide (65 <= h < 81 ∧ 65 <= l < 81)%N then Some (((h - 65) * 16 + (l - 65)) :: bytes)%N else None
  | _ => None
  end.

Lemma pad_length bytes : length (pad bytes) = 32%nat.
Proof. unfold pad. rewrite length_take, length_app, length_replicate. lia. Qed.

Lemma of_nibbles_roundtrip bytes : Forall (λ b, b < 256)%N bytes → of_nibbles (nibbles bytes) = Some bytes.
Proof.
  induction 1 as [|b bytes Hb _ IH]; [done|]. cbn [nibbles of_nibbles]. rewrite IH. cbv [base.mbind option_bind].
  assert (b / 16 < 16)%N by (apply N.Div0.div_lt_upper_bound; lia).
  pose proof (N.mod_lt b 16 ltac:(lia)) as Hl.
  rewrite (N.mod_small (b / 16)) by done. pose proof (N.div_mod b 16 ltac:(lia)) as Hb16.
  set (h := (b / 16)%N) in *. set (l := (b mod 16)%N) in *. clearbody h l.
  rewrite decide_True by lia. do 2 f_equal. lia.
Qed.

Lemma nibble_character n : (n < 16)%N → base64url_character (65 + n) = true.
Proof.
  intros Hn. unfold base64url_character. apply orb_true_iff. left. apply orb_true_iff. left.
  do 2 (apply orb_true_iff; left). apply andb_true_iff. split; apply N.leb_le; lia.
Qed.

Lemma nibbles_characters bytes : Forall (λ c, base64url_character c = true) (nibbles bytes).
Proof.
  induction bytes as [|b bytes IH]; cbn [nibbles]; [done|].
  repeat constructor; [| |done]; apply nibble_character, N.mod_lt; lia.
Qed.

#[export] Instance plain_crypto : WebCrypto := {
  sha256 := pad;
  base64url_encode := nibbles;
  base64url_decode := of_nibbles;
  base32_decode s := Some ((λ c, c mod 256)%N <$> s);
  argon2id password salt := Some (pad (password ++ salt));
}.
#[export, refine] Instance plain_crypto_laws : WebCryptoLaws := {}.
Proof.
  - apply pad_length.
  - apply of_nibbles_roundtrip.
  - apply nibbles_characters.
  - by intros [|b bytes].
  - intros text bytes [= <-]. apply Forall_fmap, Forall_true. intros c. apply N.mod_lt. lia.
  - intros password salt hash [= <-]. apply pad_length.
Defined.

#[export] Instance plain_http : HttpText := {
  header_value _ := true;
  uuid_str id := [id];
  uuid_parse s := head s;
}.

#[export] Instance standalone_errors : AuthErrors StandaloneAuthError := {
  err_hash := AuthHash;
  err_hash_worker := AuthHashWorker;
  err_hash_gate_busy := AuthHashGateBusy;
  err_tokens := AuthTokens;
  gate_busy := is_derivation_gate_busy;
}.
#[export] Instance console_store : AccountStore (World AccountTables) StandaloneAuthError :=
  sqlite_accounts quiet_env ().
#[export] Instance console_laws : AccountStoreLaws (World AccountTables) StandaloneAuthError :=
  sqlite_account_laws quiet_env () toy_random.

(** ** The console *)

Definition second : Z := 1000000000.
Definition noon : Z := 30 * second.
Definition password : str := lit "correct horse battery".
Definition new_password : str := lit "staple battery horse".
Definition salt : list N := replicate 16 1%N.
Definition hash_of (p : str) : Argon2IdHash := mk_argon2id_hash salt (pad (as_bytes p ++ salt)).
Definition wire_of (b : N) : str := nibbles (replicate 32 b).

Definition admin : Principal := mk_principal 1%N BOOTSTRAP_PRINCIPAL_NAME Enabled 0 0.
Definition live : Session :=
  mk_session 11%N 1%N (token_hash (wire_of 5)) (token_hash (wire_of 6)) 0 0 (1000 * second) None.
Definition ended : Session :=
  mk_session 12%N 1%N (token_hash (wire_of 8)) (token_hash (wire_of 9)) 0 0 (20 * second) None.
Definition authenticator : TotpAuthenticator :=
  mk_totp 21%N 1%N (replicate 20 3%N) Active 0 (Some 0) None.
Definition one_time : str := lit "ABCDEFGHJKMNPQRSTVWX".
Definition code : BootstrapCode := mk_bootstrap_code 31%N (hash_bootstrap_code one_time) 0 None None.

Definition bare : World AccountTables := mk_world (mk_accounts ∅ ∅ ∅ ∅ ∅ ∅) 0.

(** Before and after the administrator is claimed. *)
Definition prepare : M (World AccountTables) StandaloneAuthError () :=
  do! create_principal admin in
  do! assign_role (mk_role_assignment 1%N Administrator None 0 None) in
  mmap_err AuthBootstrap (sqlite_create_bootstrap_code quiet_env code).
Definition unclaimed : World AccountTables := (prepare bare).1.

Definition furnish : M (World AccountTables) StandaloneAuthError () :=
  do! save_password_credential (mk_password_credential 1%N (hash_of password) 0) in
  do! create_session live in
  create_session ended.
Definition console : World AccountTables := (furnish unclaimed).1.

(** The console with the second factor. *)
Definition guarded_console : World AccountTables :=
  (sqlite_create_totp_authenticator quiet_env () authenticator console).1.

Definition started (st : World AccountTables) : WebRun (World AccountTables) :=
  mk_run (AuthState_new st) [] 0.

(** Nobody else is there, the clock shows [t], and every draw succeeds. *)
Definition quiet (t : Z) : @Surroundings (World AccountTables) :=
  mk_surroundings (λ _, false) (λ _ sh, sh) (λ _, t) (λ _, t) (λ _, t) (λ n, N.of_nat (100 + n))
    (λ n len, Some (replicate len (N.of_nat (n mod 256)))) (λ _, true) (λ _, true) (λ _, false).

Definition sign_in_request : WebRequest :=
  mk_request POST (lit "/api/v1/auth/login") None None None None (Some (V4 [192; 0; 2; 1]%N)).
Definition credentials : LoginRequest := mk_login (lit " Admin ") password None.

Lemma holds `{Decision P} : bool_decide P = true → P.
Proof. apply bool_decide_eq_true_1. Qed.

#[export] Instance decodable_dec {M A} (decode : Uuid → M → option A) t : Decision (decodable decode t).
Proof. apply map_Forall_dec. intros id m. apply _. Defined.

#[export] Instance tables_ok_dec {Key} `{CipherSuite Key} (k : Key) t : Decision (tables_ok k t).
Proof.
  refine (cast_if_and6 (decide (decodable principal_of (ac_principals t)))
    (decide (decodable role_of (ac_roles t))) (decide (decodable password_of (ac_passwords t)))
    (decide (decodable session_of (ac_sessions t))) (decide (decodable (totp_of k) (ac_totps t)))
    (decide (decodable code_of (ac_codes t)))); first [by constructor | by intros []].
Defined.

Lemma console_sound : sound (started console).
Proof. apply (holds (P := tables_ok () (w_db console))). vm_compute. reflexivity. Qed.
Lemma unclaimed_sound : sound (started unclaimed).
Proof. apply (holds (P := tables_ok () (w_db unclaimed))). vm_compute. reflexivity. Qed.
Lemma guarded_sound : sound (started guarded_console).
Proof. apply (holds (P := tables_ok () (w_db guarded_console))). vm_compute. reflexivity. Qed.

Lemma quiet_ok t : 0 <= unix_timestamp t <= I64_MAX → surroundings_ok (quiet t).
Proof.
  intros Ht. split; [done| |done]. intros n len bytes [= <-]. split; [apply length_replicate|].
  apply Forall_replicate. lia.
Qed.

Lemma quiet_noon : surroundings_ok (quiet noon).
Proof. apply quiet_ok. vm_compute. split; discriminate. Qed.

(** ** Witnesses *)

Lemma login_sound_witness : ∃ s' r, login (quiet noon) Standalone sign_in_request
    (mk_login (lit " Admin ") password (Some (lit "901063"))) (started guarded_console) = (s', Ok r) ∧
  ∃ a p, pr_name p = BOOTSTRAP_PRINCIPAL_NAME ∧ se_principal_id a = pr_id p ∧
    se_expires_at a = noon + SESSION_LIFETIME.
Proof.
  destruct (login (quiet noon) Standalone sign_in_request
    (mk_login (lit " Admin ") password (Some (lit "901063"))) (started guarded_console)) as [s' [r|e]] eqn:Hrun;
    [|vm_compute in Hrun; discriminate Hrun].
  exists s', r. split; [reflexivity|].
  destruct (login_sound (quiet noon) Standalone quiet_noon _ _ _ _ _ guarded_sound Hrun)
    as (now & name & p & credential & a & v1 & v2 & v3 & v4 & v5 & (n & Hn) & Hname & _ & _ & Hp & _ & _ & _ & _
        & _ & _ & _ & _ & Ha & He & _).
  clear Hrun. exists a, p. rewrite Hp, He, Hn. vm_compute in Hname. by injection Hname as <-.
Defined.

Lemma totp_code_exact_witness :
  verify_totp_code (replicate 20 3%N) (lit "901063") noon None = Ok 0 ∧
  verify_totp_code (replicate 20 3%N) (lit "901063") noon (Some 0) = Err Replayed ∧
  verify_totp_code (replicate 20 3%N) (lit "901064") noon None = Err InvalidCode.
Proof. rewrite !totp_code_exact. vm_compute. done. Defined.

(** Six attempts, one of them refunded, and one more after the window. *)
Definition attempts : list LimiterCall :=
  [Reserve (lit "admin") (lit "a") 1; Reserve (lit "ADMIN") (lit "a") 2; Reserve (lit "admin") (lit "a") 3;
   Refund 1; Reserve (lit "admin ") (lit "a") 4; Reserve (lit "admin") (lit "a") 5;
   Reserve (lit "admin") (lit "a") 6; Reserve (lit "admin") (lit "a") 7; Reserve (lit "admin") (lit "b") 8;
   Reserve (lit "admin") (lit "a") (RATE_WINDOW + 1)].

Lemma limiter_exact_witness :
  (limiter_run LoginRateLimiter_new [] attempts).2 =
    [true; true; true; true; true; true; false; true; true] ∧
  ((limiter_run LoginRateLimiter_new [] attempts).1.*1, (limiter_run LoginRateLimiter_new [] attempts).2) =
    window_run [] attempts.
Proof.
  split; [vm_compute; reflexivity|]. apply (limiter_exact 0); [done|].
  apply holds. vm_compute. reflexivity.
Defined.

Definition furnished : Accounts := view (started guarded_console).
Lemma furnished_keyed : keyed furnished.
Proof.
  split.
  - assert (map_Forall (λ id s, se_id s = id) (ac_sessions furnished)) as Hf; [|exact Hf].
    apply holds. vm_compute. reflexivity.
  - assert (map_Forall (λ id s, map_Forall (λ id' s', se_token_hash s = se_token_hash s' → id = id')
      (ac_sessions furnished)) (ac_sessions furnished)) as Hf.
    { apply holds. vm_compute. reflexivity. }
    intros id id' s s' Hs Hs'. exact (Hf id s Hs id' s' Hs').
Qed.

Lemma evolves_run ws : ∀ v v', account_run v ws = Some v' → evolves v v'.
Proof.
  induction ws as [|x ws IH]; intros v v'; [by intros [= <-]|].
  simpl. intros (v1 & Hx & Hr)%bind_Some. eapply rtc_l; [by exists x | by apply IH].
Qed.

(** The dead session is touched, revoked with the others, and stays dead. *)
Definition housekeeping : list AccountWrite :=
  [TouchSession 12%N second; RevokeSessionsFor 1%N (25 * second)].

Lemma dead_tokens_stay_dead_witness :
  Session_is_active ended noon = false ∧
  ∃ v' s', account_run furnished housekeeping = Some v' ∧ ac_sessions v' !! 12%N = Some s' ∧
    Session_is_active s' (noon + 1) = false.
Proof.
  split; [vm_compute; reflexivity|].
  destruct (account_run furnished housekeeping) as [v'|] eqn:Hr; [|vm_compute in Hr; discriminate Hr].
  destruct (ac_sessions v' !! 12%N) as [s'|] eqn:Hs.
  2: { vm_compute in Hr. injection Hr as <-. vm_compute in Hs. discriminate Hs. }
  exists v', s'. split; [reflexivity|]. split; [exact Hs|].
  eapply (dead_tokens_stay_dead furnished v' 12%N ended s' 12%N noon (noon + 1));
    [exact furnished_keyed | exact (evolves_run _ _ _ Hr) | unfold noon; lia | | | exact Hs |].
  - vm_compute. reflexivity.
  - vm_compute. reflexivity.
  - vm_compute in Hr. injection Hr as <-. vm_compute in Hs. injection Hs as <-. vm_compute. reflexivity.
Defined.

Lemma totp_steps_increase_witness :
  let ws := [RecordStep 21%N 3; TouchSession 11%N second; RecordStep 21%N 4] in
  (∃ v', account_run furnished ws = Some v') ∧ StronglySorted Z.lt (steps_of 21%N ws).
Proof.
  intros ws. destruct (account_run furnished ws) as [v'|] eqn:Hr; [|vm_compute in Hr; discriminate Hr].
  split; [by eexists|]. apply (totp_steps_increase furnished ws v' 21%N Hr). eexists. vm_compute. reflexivity.
Defined.

Definition claim : AccountWrite :=
  ConsumeCode 31%N 1%N (mk_password_credential 1%N (hash_of new_password) noon) None
    (mk_session 13%N 1%N (token_hash (wire_of 3)) (token_hash (wire_of 4)) noon noon (noon + SESSION_LIFETIME) None)
    noon.

Lemma bootstrap_code_once_witness :
  let v := view (started unclaimed) in
  (∃ v', account_run v [claim] = Some v' ∧ code_used v' 31%N) ∧ NoDup (claims_of [claim]) ∧
  ¬ code_used v 31%N.
Proof.
  intros v. destruct (account_run v [claim]) as [v'|] eqn:Hr; [|vm_compute in Hr; discriminate Hr].
  destruct (bootstrap_code_once v [claim] v' Hr) as [Hnd Hc].
  destruct (Hc 31%N) as [Hfree Hused]; [by apply list_elem_of_singleton|]. eauto.
Defined.

(** *** Requests *)

Definition cookie_of (wire : str) : option str := Some (SESSION_COOKIE_NAME ++ lit "=" ++ wire).
Definition request (method : Method) (path : string) (cookie csrf : option str) : WebRequest :=
  mk_request method (lit path) None cookie csrf None (Some (V4 [192; 0; 2; 1]%N)).

Lemma dead_sessions_are_refused_witness :
  let rq := request GET "/api/v1/operations" (cookie_of (wire_of 8)) None in
  ∃ s' r, (r = Err (Returned session_required) ∨ r = Err Died) ∧
    ∀ next, auth_middleware (quiet noon) ActorSystem Standalone PolicyGuarded rq next
      (started guarded_console) = (s', r).
Proof.
  apply (dead_sessions_are_refused (quiet noon) ActorSystem Standalone PolicyGuarded quiet_noon _
    (wire_of 8) ended 12%N noon).
  - vm_compute. reflexivity.
  - exact guarded_sound.
  - exact furnished_keyed.
  - vm_compute. reflexivity.
  - vm_compute. reflexivity.
  - vm_compute. reflexivity.
  - vm_compute. reflexivity.
  - intros n. reflexivity.
Defined.

Definition as_admin : AuthContext := mk_auth_context ActorUser (Some 1%N) (Some 11%N) (Some Administrator) None.

Lemma only_admitted_requests_run_witness :
  let rq := request POST "/api/v1/auth/logout" (cookie_of (wire_of 5)) (Some (wire_of 6)) in
  ∃ context a s1, admission (quiet noon) rq true furnished (view s1) context a ∧
    cx_session_id context = Some 11%N.
Proof.
  intros rq.
  destruct (only_admitted_requests_run (quiet noon) ActorSystem Standalone PolicyGuarded quiet_noon rq
    (started guarded_console) ltac:(vm_compute; reflexivity) guarded_sound) as [(s' & r & Hr & Hrun)|Hadm].
  - specialize (Hrun (λ _, mret ok_response)).
    destruct Hr as [->|[->|[message ->]]]; vm_compute in Hrun; discriminate Hrun.
  - destruct Hadm as (context & a & token & s1 & _ & Hadm & _ & _ & Hrun).
    exists context, a, s1. split; [exact Hadm|].
    (* What the handler saw shows in its answer. *)
    specialize (Hrun (λ context, mret (uncached_status (default 0%N (cx_session_id context))))).
    destruct Hadm as (? & ? & ? & ? & ? & ? & ? & _ & _ & _ & _ & _ & _ & _ & _ & _ & _ & _ & _ & Hcontext).
    rewrite Hcontext in Hrun |- *.
    apply (f_equal (λ sr, match sr.2 with Ok r => rsp_status r | Err _ => 0%N end)) in Hrun.
    match type of Hrun with ?x = _ => change x with 11%N in Hrun end. simpl in Hrun |- *. by rewrite Hrun.
Defined.

Lemma password_change_ends_sessions_witness : ∃ s' r,
  change_password (quiet noon) Standalone sign_in_request as_admin (mk_set_password password new_password)
    (started console) = (s', Ok r) ∧
  sessions_ended 1%N (view (started console)) (view s').
Proof.
  destruct (change_password (quiet noon) Standalone sign_in_request as_admin
    (mk_set_password password new_password) (started console)) as [s' [r|e]] eqn:Hrun;
    [|vm_compute in Hrun; discriminate Hrun].
  exists s', r. split; [reflexivity|].
  apply (password_change_ends_sessions (quiet noon) Standalone quiet_noon sign_in_request as_admin
    (mk_set_password password new_password) (started console) s' r 1%N console_sound Hrun).
  reflexivity.
Defined.

Lemma bootstrap_claim_sound_witness : ∃ s' r,
  bootstrap_complete (quiet noon) Standalone PolicyPendingBootstrap sign_in_request
    (mk_bootstrap_request one_time new_password (Some (lit "SECRETSECRETSECRETSE")) (Some (lit "901063")))
    (started unclaimed) = (s', Ok r) ∧ sh_gate (wr_shared s') = true.
Proof.
  destruct (bootstrap_complete (quiet noon) Standalone PolicyPendingBootstrap sign_in_request
    (mk_bootstrap_request one_time new_password (Some (lit "SECRETSECRETSECRETSE")) (Some (lit "901063")))
    (started unclaimed)) as [s' [r|e]] eqn:Hrun; [|vm_compute in Hrun; discriminate Hrun].
  exists s', r. split; [reflexivity|].
  destruct (bootstrap_claim_sound (quiet noon) Standalone PolicyPendingBootstrap quiet_noon sign_in_request _
    (started unclaimed) s' r unclaimed_sound Hrun)
    as (now & p & c & credential & t & a & v1 & v2 & _ & _ & _ & _ & _ & _ & _ & _ & _ & _ & _ & _ & Hgate).
  exact (Hgate eq_refl).
Defined.

Lemma sign_ins_are_recorded_witness : ∃ s' r,
  login (quiet noon) Standalone sign_in_request (mk_login (lit "admin") new_password None)
    (started console) = (s', Err (Returned r)) ∧
  r = sign_in_failed ∧ refusal_recorded Standalone s' r.
Proof.
  destruct (login (quiet noon) Standalone sign_in_request (mk_login (lit "admin") new_password None)
    (started console)) as [s' [r|[|r]]] eqn:Hrun; [vm_compute in Hrun; discriminate Hrun..|].
  exists s', r. split; [reflexivity|]. split; [vm_compute in Hrun; by injection Hrun as _ <-|].
  exact (sign_ins_are_recorded (quiet noon) Standalone (λ n, eq_refl) _ _ _ _ _ Hrun).
Defined.

(** Seven wrong passwords at the same time: all ask for their slots before any is
    verified, and the verifications end in the opposite order.  Five are checked. *)
Definition guessed_at (n : nat) : Attempt := mk_attempt (lit "admin") (lit "192.0.2.1") (Z.of_nat n * second).
Fixpoint limiter_after (n : nat) : LoginRateLimiter :=
  match n with
  | O => LoginRateLimiter_new
  | S n => (reserve (limiter_after n) (at_username (guessed_at n)) (at_ip (guessed_at n)) (at_time (guessed_at n))).1
  end.
Definition guess (n : nat) : SignIn :=
  mk_sign_in (quiet (Z.of_nat n * second)) (with_limiter LimitLogin (limiter_after n) (AuthState_new console))
    sign_in_request (mk_login (lit "admin") new_password None).
Definition at_once : list SignIn := guess <$> seq 0 7.
Definition effects_at_once : list (list (nat * WebEffect)) :=
  imap (λ i x, (i,.) <$> budget_log (wr_log (sign_in Standalone x))) at_once.
Definition race : History :=
  concat (take 1 <$> effects_at_once) ++ concat (reverse (drop 1 <$> effects_at_once)).

Lemma wrong_passwords_are_few_witness :
  length (guesses at_once race) = 5%nat ∧
  (held_by_name (guesses at_once race) (lit "admin") (lit "192.0.2.1") noon <= USERNAME_FAILURE_LIMIT)%nat ∧
  (held_by_ip (guesses at_once race) (lit "192.0.2.1") noon <= IP_FAILURE_LIMIT)%nat.
Proof.
  split; [vm_compute; reflexivity|].
  apply (wrong_passwords_are_few Standalone at_once race).
  - intros i. destruct (decide (i < 7)%nat) as [Hi|Hi].
    + do 7 (destruct i as [|i]; [exists []; vm_compute; reflexivity|]). exfalso. lia.
    + assert (at_once !! i = None) as -> by (apply lookup_ge_None_2; change (length at_once) with 7%nat; lia).
      assert (Forall (λ e, e.1 < 7)%nat race) as Hrace by (apply (holds (P := Forall _ race)); vm_compute; reflexivity).
      unfold own. induction Hrace as [|e h He _ IH]; [reflexivity|]. rewrite filter_cons, decide_False by lia. exact IH.
  - vm_compute. repeat split; reflexivity.
  - apply (holds (P := StronglySorted Z.le _)). vm_compute. reflexivity.
  - vm_compute. reflexivity.
Defined.

(** ** A race *)

(** Another request changes the password at the access [k]. *)
Definition changed (sh : Shared (World AccountTables)) : Shared (World AccountTables) :=
  wr_shared (change_password (quiet noon) Standalone sign_in_request as_admin
    (mk_set_password password new_password) (mk_run sh [] 0)).1.
Definition meanwhile (k : nat) : @Surroundings (World AccountTables) :=
  let q := quiet noon in
  mk_surroundings (drops q) (λ n sh, if decide (n = k) then changed sh else sh) (clock_at q) (wall_at q)
    (instant_at q) (uuid_at q) (random_at q) (slot_at q) (worker_at q) (audit_fault_at q).

(** A sign-in that checked the old password before the change and creates its
    session after the revocation keeps a live session on a password that no longer
    verifies. *)
Theorem old_password_session_survives : ∃ s' r a c,
  login (meanwhile 12) Standalone sign_in_request credentials (started console) = (s', Ok r) ∧
  ac_sessions (view s') !! 111%N = Some a ∧ Session_is_active a (noon + second) = true ∧
  ac_passwords (view s') !! 1%N = Some c ∧ verify_password (pc_hash c) password = false ∧
  verify_password (pc_hash c) new_password = true ∧
  is_Some (ac_sessions (view s') !! 11%N ≫= se_revoked_at).
Proof.
  destruct (login (meanwhile 12) Standalone sign_in_request credentials (started console))
    as [s' [r|e]] eqn:Hrun; [|vm_compute in Hrun; discriminate Hrun].
  destruct (ac_sessions (view s') !! 111%N) as [a|] eqn:Ha.
  2: { vm_compute in Hrun. injection Hrun as <- _. vm_compute in Ha. discriminate Ha. }
  destruct (ac_passwords (view s') !! 1%N) as [c|] eqn:Hc.
  2: { vm_compute in Hrun. injection Hrun as <- _. vm_compute in Hc. discriminate Hc. }
  exists s', r, a, c. vm_compute in Hrun. injection Hrun as <- _.
  vm_compute in Ha. vm_compute in Hc. injection Ha as <-. injection Hc as <-.
  repeat split; try (vm_compute; reflexivity). eexists. vm_compute. reflexivity.
Qed.
