(* ===== verification/ResourceSnapshot.v ===== *)
(** * ResourceSnapshot: the features, texts and generations of stored resources

    Models [domain/src/resource_snapshot.rs].  [serde_json] is a parameter. *)
From S2P Require Import Prelude Text Operation.
From Stdlib Require Import ZifyBool.

Definition MAX_ODATA_ID_BYTES : N := 4 * 1024.
Definition MAX_ODATA_TYPE_BYTES : N := 512.
Definition MAX_ETAG_BYTES : N := 512.
Definition MAX_TYPED_PAYLOAD_BYTES : N := 4 * 1024 * 1024.

(** ** Features *)

Inductive ResourceFeature :=
| FeatureServiceRoot | FeatureSystems | FeatureChassis | FeatureManagers | FeatureOemDell
| FeatureOemSmcSysLockdown | FeatureOemSmcKcsInterface | FeatureOemNvidiaSystemConfigProfile
| FeatureOemNvidiaPowerCompliance | FeatureOemNvidiaManagedEntity | FeatureOemLenovoSecurityService
| FeatureOemAmiServiceRoot | FeatureOemAmiConfigBmc | FeatureOemHpeILoServiceExt
| FeatureOemHpeManager | FeatureOemLiteOnPowerSupply | FeatureOemDeltaPowerSupply
| FeatureProcessors | FeatureMemory | FeatureStorages | FeatureNetworkAdapters
| FeatureNetworkDeviceFunctions | FeatureEthernetInterfaces | FeatureAccounts | FeatureBios
| FeatureBootOptions | FeatureSecureBoot | FeaturePower | FeaturePowerEquipment
| FeaturePowerSupplies | FeatureThermal | FeatureSensors | FeatureControls
| FeatureEnvironmentMetrics | FeatureLogServices | FeatureManagerNetworkProtocol
| FeatureHostInterfaces | FeaturePcieDevices | FeatureAssembly | FeatureSoftwareInventory
| FeatureEventService | FeatureEventSubscription | FeatureTelemetryService
| FeatureMetricDefinition | FeatureMetricReport | FeatureTaskService | FeatureTask.
#[export] Instance ResourceFeature_eq_dec : EqDecision ResourceFeature.
Proof. solve_decision. Defined.

Definition ResourceFeature_as_str (feature : ResourceFeature) : str :=
  match feature with
  | FeatureServiceRoot => lit "service-root"
  | FeatureSystems => lit "systems"
  | FeatureChassis => lit "chassis"
  | FeatureManagers => lit "managers"
  | FeatureOemDell => lit "dell-attributes"
  | FeatureOemSmcSysLockdown => lit "supermicro-sys-lockdown"
  | FeatureOemSmcKcsInterface => lit "supermicro-kcs-interface"
  | FeatureOemNvidiaSystemConfigProfile => lit "nvidia-system-config-profile"
  | FeatureOemNvidiaPowerCompliance => lit "nvidia-power-compliance"
  | FeatureOemNvidiaManagedEntity => lit "nvidia-managed-entity"
  | FeatureOemLenovoSecurityService => lit "lenovo-security-service"
  | FeatureOemAmiServiceRoot => lit "ami-service-root"
  | FeatureOemAmiConfigBmc => lit "ami-config-bmc"
  | FeatureOemHpeILoServiceExt => lit "hpe-ilo-service-ext"
  | FeatureOemHpeManager => lit "hpe-manager"
  | FeatureOemLiteOnPowerSupply => lit "liteon-power-supply"
  | FeatureOemDeltaPowerSupply => lit "delta-power-supply"
  | FeatureProcessors => lit "processors"
  | FeatureMemory => lit "memory"
  | FeatureStorages => lit "storages"
  | FeatureNetworkAdapters => lit "network-adapters"
  | FeatureNetworkDeviceFunctions => lit "network-device-functions"
  | FeatureEthernetInterfaces => lit "ethernet-interfaces"
  | FeatureAccounts => lit "accounts"
  | FeatureBios => lit "bios"
  | FeatureBootOptions => lit "boot-options"
  | FeatureSecureBoot => lit "secure-boot"
  | FeaturePower => lit "power"
  | FeaturePowerEquipment => lit "power-equipment"
  | FeaturePowerSupplies => lit "power-supplies"
  | FeatureThermal => lit "thermal"
  | FeatureSensors => lit "sensors"
  | FeatureControls => lit "controls"
  | FeatureEnvironmentMetrics => lit "environment-metrics"
  | FeatureLogServices => lit "log-services"
  | FeatureManagerNetworkProtocol => lit "manager-network-protocol"
  | FeatureHostInterfaces => lit "host-interfaces"
  | FeaturePcieDevices => lit "pcie-devices"
  | FeatureAssembly => lit "assembly"
  | FeatureSoftwareInventory => lit "software-inventory"
  | FeatureEventService => lit "event-service"
  | FeatureEventSubscription => lit "event-subscription"
  | FeatureTelemetryService => lit "telemetry-service"
  | FeatureMetricDefinition => lit "metric-definition"
  | FeatureMetricReport => lit "metric-report"
  | FeatureTaskService => lit "task-service"
  | FeatureTask => lit "task"
  end.

Inductive ResourceFeatureParseError := ResourceFeatureParseErr.
Definition ResourceFeature_from_str (value : str) : result ResourceFeature ResourceFeatureParseError :=
  ok_or (match_str value
    [("service-root", FeatureServiceRoot);
     ("systems", FeatureSystems);
     ("chassis", FeatureChassis);
     ("managers", FeatureManagers);
     ("dell-attributes", FeatureOemDell);
     ("supermicro-sys-lockdown", FeatureOemSmcSysLockdown);
     ("supermicro-kcs-interface", FeatureOemSmcKcsInterface);
     ("nvidia-system-config-profile", FeatureOemNvidiaSystemConfigProfile);
     ("nvidia-power-compliance", FeatureOemNvidiaPowerCompliance);
     ("nvidia-managed-entity", FeatureOemNvidiaManagedEntity);
     ("lenovo-security-service", FeatureOemLenovoSecurityService);
     ("ami-service-root", FeatureOemAmiServiceRoot);
     ("ami-config-bmc", FeatureOemAmiConfigBmc);
     ("hpe-ilo-service-ext", FeatureOemHpeILoServiceExt);
     ("hpe-manager", FeatureOemHpeManager);
     ("liteon-power-supply", FeatureOemLiteOnPowerSupply);
     ("delta-power-supply", FeatureOemDeltaPowerSupply);
     ("processors", FeatureProcessors);
     ("memory", FeatureMemory);
     ("storages", FeatureStorages);
     ("network-adapters", FeatureNetworkAdapters);
     ("network-device-functions", FeatureNetworkDeviceFunctions);
     ("ethernet-interfaces", FeatureEthernetInterfaces);
     ("accounts", FeatureAccounts);
     ("bios", FeatureBios);
     ("boot-options", FeatureBootOptions);
     ("secure-boot", FeatureSecureBoot);
     ("power", FeaturePower);
     ("power-equipment", FeaturePowerEquipment);
     ("power-supplies", FeaturePowerSupplies);
     ("thermal", FeatureThermal);
     ("sensors", FeatureSensors);
     ("controls", FeatureControls);
     ("environment-metrics", FeatureEnvironmentMetrics);
     ("log-services", FeatureLogServices);
     ("manager-network-protocol", FeatureManagerNetworkProtocol);
     ("host-interfaces", FeatureHostInterfaces);
     ("pcie-devices", FeaturePcieDevices);
     ("assembly", FeatureAssembly);
     ("software-inventory", FeatureSoftwareInventory);
     ("event-service", FeatureEventService);
     ("event-subscription", FeatureEventSubscription);
     ("telemetry-service", FeatureTelemetryService);
     ("metric-definition", FeatureMetricDefinition);
     ("metric-report", FeatureMetricReport);
     ("task-service", FeatureTaskService);
     ("task", FeatureTask)]%string) ResourceFeatureParseErr.

#[export, refine] Instance ResourceFeature_code : StableCode ResourceFeature ResourceFeatureParseError :=
  { code_str := ResourceFeature_as_str; code_parse := ResourceFeature_from_str }.
Proof. all: unfold ResourceFeature_from_str; solve_code. Defined.

(** ** Exact texts *)

Inductive ExactTextError :=
| ExactEmpty | ExactSurroundingWhitespace | ExactControlCharacter | ExactTooLong (actual maximum : N).

Definition validate_exact_text (value : str) (maximum : N) : result () ExactTextError :=
  if decide (value = []) then Err ExactEmpty
  else if decide (trim value ≠ value) then Err ExactSurroundingWhitespace
  else if existsb is_control value then Err ExactControlCharacter
  else if (maximum <? str_len value)%N then Err (ExactTooLong (str_len value) maximum)
  else Ok ().

Inductive ResourceODataIdError :=
| ODataIdEmpty | ODataIdSurroundingWhitespace | ODataIdControlCharacter | ODataIdTooLong (actual maximum : N).
Definition map_odata_id_error (e : ExactTextError) : ResourceODataIdError :=
  match e with
  | ExactEmpty => ODataIdEmpty
  | ExactSurroundingWhitespace => ODataIdSurroundingWhitespace
  | ExactControlCharacter => ODataIdControlCharacter
  | ExactTooLong actual maximum => ODataIdTooLong actual maximum
  end.
(** A parsed id is its text. *)
Definition ResourceODataId_parse (value : str) : result str ResourceODataIdError :=
  let? _ := map_err map_odata_id_error (validate_exact_text value MAX_ODATA_ID_BYTES) in Ok value.

Inductive ResourceODataTypeError :=
| ODataTypeEmpty | ODataTypeSurroundingWhitespace | ODataTypeControlCharacter
| ODataTypeTooLong (actual maximum : N) | ODataTypeMissingTypeMarker.
Definition map_odata_type_error (e : ExactTextError) : ResourceODataTypeError :=
  match e with
  | ExactEmpty => ODataTypeEmpty
  | ExactSurroundingWhitespace => ODataTypeSurroundingWhitespace
  | ExactControlCharacter => ODataTypeControlCharacter
  | ExactTooLong actual maximum => ODataTypeTooLong actual maximum
  end.
Definition ResourceODataType_parse (value : str) : result str ResourceODataTypeError :=
  let? _ := map_err map_odata_type_error (validate_exact_text value MAX_ODATA_TYPE_BYTES) in
  if negb (starts_with (lit "#") value) then Err ODataTypeMissingTypeMarker else Ok value.

Inductive ResourceEtagError :=
| EtagEmpty | EtagSurroundingWhitespace | EtagControlCharacter | EtagTooLong (actual maximum : N).
Definition map_etag_error (e : ExactTextError) : ResourceEtagError :=
  match e with
  | ExactEmpty => EtagEmpty
  | ExactSurroundingWhitespace => EtagSurroundingWhitespace
  | ExactControlCharacter => EtagControlCharacter
  | ExactTooLong actual maximum => EtagTooLong actual maximum
  end.
Definition ResourceEtag_parse (value : str) : result str ResourceEtagError :=
  let? _ := map_err map_etag_error (validate_exact_text value MAX_ETAG_BYTES) in Ok value.

(** ** Payloads *)

(** [serde_json] on [Value]. *)
Class JsonValue := {
  Value : Type;
  value_from_str : str → option Value;
  is_object : Value → bool;
  value_to_string : Value → option str;
}.
(** What is written reads back as it. *)
Class JsonValueLaws `{JsonValue} :=
  value_roundtrip v text : value_to_string v = Some text → value_from_str text = Some v.

Inductive ResourceSnapshotPayloadError :=
| PayloadTooLarge (actual maximum : N) | PayloadInvalidJson | PayloadNotObject | PayloadCanonicalize.

(** A payload is its canonical text. *)
Definition ResourceSnapshotPayload_parse `{JsonValue} (value : str) : result str ResourceSnapshotPayloadError :=
  let actual := str_len value in
  if (MAX_TYPED_PAYLOAD_BYTES <? actual)%N then Err (PayloadTooLarge actual MAX_TYPED_PAYLOAD_BYTES)
  else
    let? parsed := ok_or (value_from_str value) PayloadInvalidJson in
    if negb (is_object parsed) then Err PayloadNotObject
    else
      let? canonical := ok_or (value_to_string parsed) PayloadCanonicalize in
      Ok canonical.

(** ** Generations *)

Inductive RefreshGenerationError := GenerationZero | GenerationTooLarge (value : Z).
(** [value] is a [u64]. *)
Definition RefreshGeneration_new (value : Z) : result Z RefreshGenerationError :=
  if decide (value = 0)%Z then Err GenerationZero
  else if (I64_MAX <? value)%Z then Err (GenerationTooLarge value)
  else Ok value.

(** ** Theorems *)

(** The texts each kind accepts: not empty, trimmed, free of control characters and
    within the bound; a type also begins with its marker.  The parsed value is the
    text, unchanged. *)
Definition exact_text (maximum : N) (value : str) : Prop :=
  value ≠ [] ∧ trim value = value ∧ Forall (λ c, is_control c = false) value ∧ (str_len value <= maximum)%N.

Lemma validate_exact_text_iff value maximum :
  validate_exact_text value maximum = Ok () ↔ exact_text maximum value.
Proof.
  unfold validate_exact_text, exact_text. case_decide as He; [by split; [|intros []]|].
  destruct (decide (trim value ≠ value)) as [Ht|Ht]; [by split; [|intros (_ & ? & _)]|].
  assert (trim value = value) as Htv by (by destruct (decide (trim value = value))).
  destruct (existsb is_control value) eqn:Hc.
  { split; [done|]. intros (_ & _ & Hall & _). apply existsb_exists in Hc as (c & Hin & Hcc).
    rewrite Forall_forall in Hall. rewrite Hall in Hcc; [done|]. by apply list_elem_of_In. }
  assert (Forall (λ c, is_control c = false) value) as Hall.
  { apply Forall_forall. intros c Hin. destruct (is_control c) eqn:Hcc; [|done].
    rewrite <- Hc. symmetry. apply existsb_exists. exists c. split; [by apply list_elem_of_In|done]. }
  destruct (N.ltb_spec maximum (str_len value)); (split; [done|]); [|done].
  intros (_ & _ & _ & ?). lia.
Qed.

Lemma parsed_exact {E} (f : ExactTextError → E) value maximum parsed :
  (let? _ := map_err f (validate_exact_text value maximum) in Ok value) = Ok parsed ↔
  parsed = value ∧ exact_text maximum value.
Proof.
  rewrite <- validate_exact_text_iff. destruct (validate_exact_text value maximum) as [[]|e]; simpl.
  - split; [by intros [= <-]|by intros [-> _]].
  - split; [done|by intros [_ ?]].
Qed.

Theorem resource_texts_exact value parsed :
  (ResourceODataId_parse value = Ok parsed ↔ parsed = value ∧ exact_text MAX_ODATA_ID_BYTES value) ∧
  (ResourceODataType_parse value = Ok parsed ↔
     parsed = value ∧ exact_text MAX_ODATA_TYPE_BYTES value ∧ head value = Some 35%N) ∧
  (ResourceEtag_parse value = Ok parsed ↔ parsed = value ∧ exact_text MAX_ETAG_BYTES value).
Proof.
  split; [apply parsed_exact|]. split; [|apply parsed_exact].
  unfold ResourceODataType_parse. rewrite <- validate_exact_text_iff.
  assert (starts_with (lit "#") value = true ↔ head value = Some 35%N) as Hhead.
  { destruct value as [|c value]; [done|]. cbn [head]. unfold starts_with. change (lit "#") with [35%N]. cbn [strip_prefix].
    destruct (decide (35%N = c)) as [<-|Hne]; [done|]. split; [done|]. congruence. }
  destruct (validate_exact_text value _) as [[]|e]; cbn [map_err result_bind];
    [|split; [done|by intros (_ & ? & _)]].
  destruct (starts_with (lit "#") value); cbn [negb].
  - split; [intros [= <-]; split; [done|]; split; [done|by apply Hhead]|by intros (-> & _)].
  - split; [done|]. intros (_ & _ & Hh). by apply Hhead in Hh.
Qed.

(** A payload is stored in its canonical text, which reads back as itself exactly
    while it stays within the bound the raw text was held to. *)
Theorem payload_canonical `{JsonValueLaws} value p :
  ResourceSnapshotPayload_parse value = Ok p →
  (str_len value <= MAX_TYPED_PAYLOAD_BYTES)%N ∧
  ResourceSnapshotPayload_parse p =
    if (MAX_TYPED_PAYLOAD_BYTES <? str_len p)%N then Err (PayloadTooLarge (str_len p) MAX_TYPED_PAYLOAD_BYTES)
    else Ok p.
Proof.
  unfold ResourceSnapshotPayload_parse. destruct (N.ltb_spec MAX_TYPED_PAYLOAD_BYTES (str_len value)) as [?|Hlen]; [done|].
  intros Hp. split; [done|]. destruct (value_from_str value) as [v|]; [|done]. simpl in Hp.
  destruct (is_object v) eqn:Hobj; [|done]. simpl in Hp. destruct (value_to_string v) as [c|] eqn:Hc; [|done].
  simpl in Hp. injection Hp as <-. case_match; [done|]. rewrite (value_roundtrip v c Hc). simpl.
  by rewrite Hobj, Hc.
Qed.

(** A generation is accepted exactly when it is positive and fits [i64]. *)
Theorem generation_bounds value g :
  (0 <= value)%Z → RefreshGeneration_new value = Ok g ↔ g = value ∧ (1 <= value <= I64_MAX)%Z.
Proof.
  intros Hv. unfold RefreshGeneration_new. case_decide; [split; [done|lia]|].
  destruct (Z.ltb_spec I64_MAX value); split; try done; try lia; [by intros [= <-]; lia|by intros [-> _]].
Qed.
