(* ===== verification/CenterOutbox.v ===== *)
(** * CenterOutbox: the durable queue of envelopes

    The contract of [CenterOutbox] ([application/src/center_sync.rs]): what each
    method promises of the entries, as the sites and the center rely on it. *)
From S2P Require Import Prelude Text Operation CenterDomain LinkMessages Database.
Local Open Scope Z_scope.

(** ** What an entry carries *)

Section payload.
Context `{EnvelopeJson} `{UuidText}.

(** The offer of a payload, if it carries one. *)
Definition payload_offer (payload_json : str) : option OperationOffer :=
  match envelope_from_json payload_json with
  | Some e => match en_message e with Some (MsgOffer offer) => Some offer | _ => None end
  | None => None
  end.

Definition payload_operation_id (payload_json : str) : option OperationId :=
  offer ← payload_offer payload_json; parse_uuid (of_operation_id offer).

Definition entry_operation_id (e : OutboxEntry) : option OperationId :=
  payload_operation_id (oe_payload_json e).
End payload.

(** The order of the queue: by sequence, then by identity. *)
Definition entry_le (l r : OutboxEntry) : Prop :=
  oe_sequence l < oe_sequence r ∨ (oe_sequence l = oe_sequence r ∧ (oe_id l <= oe_id r)%N).
#[export] Instance entry_le_dec : RelDecision entry_le.
Proof. intros l r. unfold entry_le. apply _. Defined.

#[export] Instance entry_le_trans : Transitive entry_le.
Proof. intros a b c. unfold entry_le. lia. Qed.
#[export] Instance entry_le_total : Total entry_le.
Proof. intros a b. unfold entry_le. lia. Qed.

Abbreviation Entries := (gmap OutboxEntryId OutboxEntry).

(** The pending entries of an instance, in order. *)
Definition is_pending_of (instance : InstanceId) (e : OutboxEntry) : Prop :=
  oe_instance_id e = instance ∧ oe_state e = OutboxPending.
#[export] Instance is_pending_of_dec instance e : Decision (is_pending_of instance e).
Proof. unfold is_pending_of. apply _. Defined.
Definition pending_of (instance : InstanceId) (v : Entries) : list OutboxEntry :=
  merge_sort entry_le (filter (is_pending_of instance) (map_to_list v).*2).

(** ** The contract *)

Section contract.
Context `{EnvelopeJson} `{UuidText}.

(** [e] is queued behind every entry of its instance. *)
Record enqueued (entry_id : OutboxEntryId) (instance : InstanceId) (message : EnvelopeMessage)
    (at_ : OffsetDateTime) (v v' : Entries) (e : OutboxEntry) : Prop := {
  enqueued_fresh : v !! entry_id = None;
  enqueued_view : v' = <[entry_id := e]> v;
  enqueued_entry : e = OutboxEntry_new entry_id instance (oe_sequence e) (oe_payload_json e) at_;
  enqueued_payload :
    envelope_from_json (oe_payload_json e) = Some (mk_envelope (oe_sequence e) 0 (Some message));
  enqueued_last id f : v !! id = Some f → oe_instance_id f = instance → oe_sequence f < oe_sequence e;
}.

Definition acked_entry (e : OutboxEntry) (at_ : OffsetDateTime) : OutboxEntry :=
  match oe_state e with OutboxPending => (ack e at_).1 | OutboxAcked => e end.

(** The acknowledged history of one offer that a newer acknowledged entry of the
    same instance makes superfluous. *)
Definition superseded (v : Entries) (e : OutboxEntry) : Prop :=
  oe_state e = OutboxAcked ∧
  ∃ id f, v !! id = Some f ∧ oe_instance_id f = oe_instance_id e ∧
    is_Some (entry_operation_id e) ∧ entry_operation_id f = entry_operation_id e ∧
    oe_state f = OutboxAcked ∧ oe_sequence e <= oe_sequence f.

(** The entry is acknowledged; what is gone is superseded by what is left. *)
Definition acknowledged (id : OutboxEntryId) (at_ : OffsetDateTime) (v v' : Entries) : Prop :=
  ∃ e, v !! id = Some e ∧
    let v1 := <[id := acked_entry e at_]> v in
    v' ⊆ v1 ∧ ∀ k f, v1 !! k = Some f → v' !! k = None → superseded v' f.

(** An answer about the offers of one operation. *)
Definition finds_offer (v : Entries) (P : OutboxEntry → Prop) (operation_id : OperationId)
    (x : option OutboxEntry) : Prop :=
  finds v (λ e, P e ∧ entry_operation_id e = Some operation_id) x.
End contract.

(** Identities are drawn by the caller's environment. *)
Class OutboxStore (St E : Type) := {
  enqueue : OutboxEntryId → InstanceId → EnvelopeMessage → OffsetDateTime → M St E OutboxEntry;
  list_pending : InstanceId → Z → M St E (list OutboxEntry);
  find_offer_by_operation : InstanceId → OperationId → M St E (option OutboxEntry);
  find_offer_by_operation_across_instances : OperationId → M St E (option OutboxEntry);
  acknowledge : OutboxEntryId → OffsetDateTime → M St E ();
}.

(** Stamping an entry before its creation would leave a row no read accepts, so the
    contract of [acknowledge] is about instants from the entry's creation on. *)
Class OutboxStoreLaws (St E : Type) `{OutboxStore St E} `{EnvelopeJson} `{UuidText} := {
  entries : St → Entries;
  entries_ok : St → Prop;
  law_entries_keyed s id e : entries_ok s → entries s !! id = Some e → oe_id e = id;
  law_enqueue entry_id instance message at_ s s' r :
    entries_ok s → enqueue entry_id instance message at_ s = (s', r) →
    entries_ok s' ∧
    match r with
    | Ok e => enqueued entry_id instance message at_ (entries s) (entries s') e
    | Err _ => entries s' = entries s
    end;
  law_list_pending instance limit s s' r :
    entries_ok s → list_pending instance limit s = (s', r) →
    reads entries entries_ok (λ v l, l = take (Z.to_nat limit) (pending_of instance v)) s s' r;
  law_find_offer instance operation_id s s' r :
    entries_ok s → find_offer_by_operation instance operation_id s = (s', r) →
    reads entries entries_ok
      (λ v, finds_offer v (λ e, oe_instance_id e = instance) operation_id) s s' r;
  law_find_offer_across operation_id s s' r :
    entries_ok s → find_offer_by_operation_across_instances operation_id s = (s', r) →
    reads entries entries_ok (λ v, finds_offer v (λ _, True) operation_id) s s' r;
  law_acknowledge id at_ s s' r :
    entries_ok s → (∀ e, entries s !! id = Some e → oe_created_at e <= at_) →
    acknowledge id at_ s = (s', r) →
    writes entries entries_ok (acknowledged id at_) s s' r;
}.

(** ** Lemmas on the contract *)

Section entries.
Context `{EnvelopeJson} `{UuidText}.
Implicit Types (v : Entries) (e : OutboxEntry).

Lemma acked_entry_same e at_ :
  oe_id (acked_entry e at_) = oe_id e ∧ oe_instance_id (acked_entry e at_) = oe_instance_id e ∧
  oe_sequence (acked_entry e at_) = oe_sequence e ∧
  oe_payload_json (acked_entry e at_) = oe_payload_json e ∧
  oe_created_at (acked_entry e at_) = oe_created_at e ∧ oe_state (acked_entry e at_) = OutboxAcked.
Proof. unfold acked_entry, ack, outbox_transition. by destruct (oe_state e) eqn:Hs; simpl. Qed.

(** Whatever is acknowledged: an operation that has an offer in an instance's queue
    keeps one, and the pending entries of the others stay. *)
Lemma acknowledged_keeps id at_ v v' k f o :
  acknowledged id at_ v v' → v !! k = Some f → entry_operation_id f = Some o →
  ∃ k' f', v' !! k' = Some f' ∧ oe_instance_id f' = oe_instance_id f ∧
    entry_operation_id f' = Some o.
Proof.
  intros (e & He & Hsub & Hgone) Hf Ho.
  assert (∃ g, <[id:=acked_entry e at_]> v !! k = Some g ∧ oe_instance_id g = oe_instance_id f ∧
    entry_operation_id g = Some o) as (g & Hg & Hi & Hgo).
  { destruct (decide (k = id)) as [->|Hne]; [|by exists f; rewrite lookup_insert_ne].
    exists (acked_entry e at_). rewrite lookup_insert_eq. assert (e = f) as -> by congruence.
    destruct (acked_entry_same f at_) as (_ & Hi & _ & Hp & _).
    split; [done|]. split; [done|]. unfold entry_operation_id. by rewrite Hp. }
  destruct (v' !! k) as [h|] eqn:Hh.
  - pose proof (lookup_weaken _ _ _ _ Hh Hsub). simplify_eq. exists k, g. by rewrite <- Hi.
  - destruct (Hgone _ _ Hg Hh) as (_ & k' & f' & Hf' & Hi' & _ & Ho' & _).
    exists k', f'. rewrite Hi', Hi, Ho'. done.
Qed.

(** What is left was there, but for its state. *)
Lemma acknowledged_from id at_ v v' k f :
  acknowledged id at_ v v' → v' !! k = Some f →
  ∃ g, v !! k = Some g ∧ oe_instance_id f = oe_instance_id g ∧ oe_sequence f = oe_sequence g ∧
    oe_payload_json f = oe_payload_json g ∧ oe_created_at f = oe_created_at g ∧
    (oe_state f = OutboxPending → f = g ∧ k ≠ id).
Proof.
  intros (e & He & Hsub & _) Hf. pose proof (lookup_weaken _ _ _ _ Hf Hsub) as Hf1.
  apply lookup_insert_Some in Hf1 as [[<- <-]|[Hne Hf1]]; [|by exists f].
  exists e. destruct (acked_entry_same e at_) as (_ & ? & ? & ? & ? & Hs).
  split; [done|]. rewrite Hs. done.
Qed.

Lemma acknowledged_pending id at_ v v' k f :
  acknowledged id at_ v v' → v !! k = Some f → oe_state f = OutboxPending → k ≠ id →
  v' !! k = Some f.
Proof.
  intros (e & He & Hsub & Hgone) Hf Hs Hne.
  destruct (v' !! k) as [h|] eqn:Hh.
  - pose proof (lookup_weaken _ _ _ _ Hh Hsub) as Hh1. rewrite lookup_insert_ne in Hh1 by done. congruence.
  - destruct (Hgone k f) as [Ha _]; [by rewrite lookup_insert_ne | done | congruence].
Qed.

(** ** The listing of what is pending *)

Definition entries_keyed (v : Entries) : Prop := ∀ k e, v !! k = Some e → oe_id e = k.

Lemma pending_of_spec instance v e :
  entries_keyed v → e ∈ pending_of instance v ↔ v !! oe_id e = Some e ∧ is_pending_of instance e.
Proof.
  intros Hk. unfold pending_of. rewrite merge_sort_Permutation, list_elem_of_filter, list_elem_of_fmap.
  split.
  - intros [Hp ([k e'] & -> & Hin)]. apply elem_of_map_to_list in Hin. simpl in *. by rewrite (Hk _ _ Hin).
  - intros [He Hp]. split; [done|]. exists (oe_id e, e). split; [done|]. by apply elem_of_map_to_list.
Qed.

Lemma pending_of_nodup instance v : entries_keyed v → NoDup (oe_id <$> pending_of instance v).
Proof.
  intros Hk. apply NoDup_fmap_2_strong.
  - intros a b Ha Hb Hab. apply pending_of_spec in Ha as [Ha _], Hb as [Hb _]; [|done..].
    rewrite Hab in Ha. congruence.
  - unfold pending_of. rewrite merge_sort_Permutation.
    apply NoDup_filter, NoDup_fmap_2_strong; [|apply NoDup_map_to_list].
    intros [i a] [j b] Ha Hb ?. simpl in *. subst b. apply elem_of_map_to_list in Ha, Hb.
    by rewrite <- (Hk _ _ Ha), <- (Hk _ _ Hb).
Qed.

Lemma pending_of_sorted instance v : StronglySorted entry_le (pending_of instance v).
Proof. apply Sorted_StronglySorted; [apply _|]. apply Sorted_merge_sort, _. Qed.
End entries.
