(* ===== verification/OutboxRepository.v ===== *)
(** * OutboxRepository: the SQLite rows of the queue

    Models [persistence/src/center_outbox_repository.rs] over the entity of
    [entity/src/center_outbox.rs], as [persistence/src/application_adapter.rs]
    hands it to the center and the sites, and discharges [OutboxStoreLaws].  The
    plaintext column [operation_id] was added later: rows written before it hold
    [NULL] and are found by their payload. *)
From S2P Require Import Prelude Text Operation CenterDomain CommandCipher LinkMessages Database CenterOutbox.
Local Open Scope Z_scope.

Record outbox_model := mk_outbox_model {
  om_id : Uuid;
  om_sequence : Z;
  om_instance_id : Uuid;
  om_payload_json : str;
  om_state : str;
  om_retry_count : Z;
  om_created_at : OffsetDateTime;
  om_acked_at : option OffsetDateTime;
  om_operation_id : option Uuid;
}.

Abbreviation OutboxTable := (gmap Uuid outbox_model).

Inductive StoredCenterOutboxError :=
| OutboxInvalidState
| InvalidPayloadCiphertext (source : CommandProtectionError)
| OutboxInvalid (source : OutboxEntryError).

Inductive CenterOutboxRepositoryError :=
| OutboxCoordinate
| SequenceOverflow (sequence : Z)
| OutboxKeyMissing
| OutboxPayload
| PayloadProtection (source : CommandProtectionError)
| OutboxNotFound (entry_id : OutboxEntryId)
| OutboxCorrupt (entry_id : OutboxEntryId) (source : StoredCenterOutboxError)
| OutboxDatabase.

#[export] Instance outbox_errors : DbErrors CenterOutboxRepositoryError :=
  { err_coordinate := OutboxCoordinate; err_database := OutboxDatabase }.

Inductive StoredOutboxPayloadError :=
| PayloadKeyMissing
| PayloadProtected (source : CommandProtectionError).

Inductive AckOutcome := AckAcknowledged | AlreadyAcknowledged.

Definition outbox_model_le (l r : outbox_model) : Prop :=
  om_sequence l < om_sequence r ∨ (om_sequence l = om_sequence r ∧ (om_id l <= om_id r)%N).
#[export] Instance outbox_model_le_dec : RelDecision outbox_model_le.
Proof. intros l r. unfold outbox_model_le. apply _. Defined.
(** Across instances the order is by creation. *)
Definition outbox_created_le (l r : outbox_model) : Prop :=
  om_created_at l < om_created_at r ∨ (om_created_at l = om_created_at r ∧ (om_id l <= om_id r)%N).
#[export] Instance outbox_created_le_dec : RelDecision outbox_created_le.
Proof. intros l r. unfold outbox_created_le. apply _. Defined.

Definition checked_add_i64 (a b : Z) : option Z :=
  if decide (- 2 ^ 63 <= a + b <= I64_MAX) then Some (a + b) else None.

(** [SELECT MAX(sequence)] of an instance. *)
Definition max_sequence (instance : InstanceId) (t : OutboxTable) : option Z :=
  foldr (λ m acc, Some (match acc with None => om_sequence m | Some x => Z.max (om_sequence m) x end))
    None (filter (λ m, om_instance_id m = instance) (map_to_list t).*2).

Section repository.
Context (env : Env) {Key : Type} `{CipherSuite Key} `{EnvelopeJson} `{UuidText}.
Context (command_key : option Key).
Abbreviation Repo := (M (World OutboxTable) CenterOutboxRepositoryError).

Definition outbox_command_key : Repo Key := mlift (ok_or command_key OutboxKeyMissing).

Definition protect_outbox_payload (entry_id : OutboxEntryId) (plaintext : str) : Repo str :=
  let! master_key := outbox_command_key in
  let! random := draw env in
  mlift (map_err PayloadProtection (encrypt_command random master_key (into_bytes entry_id) plaintext)).

Definition recover_outbox_payload (entry_id : OutboxEntryId) (stored : str)
    : result str StoredOutboxPayloadError :=
  if starts_with COMMAND_CIPHER_ENVELOPE_PREFIX stored then
    let? master_key := ok_or command_key PayloadKeyMissing in
    map_err PayloadProtected (decrypt_command master_key (into_bytes entry_id) stored)
  else Ok stored.

Definition recover_error (entry_id : OutboxEntryId) (e : StoredOutboxPayloadError)
    : CenterOutboxRepositoryError :=
  match e with
  | PayloadKeyMissing => OutboxKeyMissing
  | PayloadProtected source => OutboxCorrupt entry_id (InvalidPayloadCiphertext source)
  end.

Definition map_stored_outbox_entry (entry_id : OutboxEntryId) (m : outbox_model)
    : result OutboxEntry CenterOutboxRepositoryError :=
  let? payload_json := map_err (recover_error entry_id)
                         (recover_outbox_payload entry_id (om_payload_json m)) in
  let? state := map_err (λ _, OutboxCorrupt entry_id OutboxInvalidState)
                  (OutboxEntryState_from_str (om_state m)) in
  map_err (λ source, OutboxCorrupt entry_id (OutboxInvalid source))
    (OutboxEntry_try_from_parts entry_id (om_instance_id m) (om_sequence m) payload_json state
       (om_retry_count m) (om_created_at m) (om_acked_at m)).

(** ** Writes *)

Definition outbox_row (e : OutboxEntry) (payload_json : str) (operation_id : option OperationId)
    : outbox_model :=
  mk_outbox_model (oe_id e) (oe_sequence e) (oe_instance_id e) payload_json
    (OutboxEntryState_as_str (oe_state e)) (oe_retry_count e) (oe_created_at e) (oe_acked_at e)
    operation_id.

(** [insert_outbox_entry]: the identity, and the sequence in its instance, are
    unique. *)
Definition insert_outbox_entry (e : OutboxEntry) (payload_json : str)
    (operation_id : option OperationId) : Repo () :=
  statement env (λ t,
    if decide (map_Forall (λ _ m, ¬ (om_instance_id m = oe_instance_id e ∧
                                     om_sequence m = oe_sequence e)) t)
    then (λ t, (t, ())) <$> insert_new t (oe_id e) (outbox_row e payload_json operation_id)
    else None).

Definition sqlite_enqueue (entry_id : OutboxEntryId) (instance : InstanceId)
    (message : EnvelopeMessage) (created_at : OffsetDateTime) : Repo OutboxEntry :=
  do! outbox_command_key in
  do! acquire env in
  transaction env (
    let! found := select env (max_sequence instance) in
    let maximum := default 0 found in
    let! sequence := mlift (ok_or (checked_add_i64 maximum 1) (SequenceOverflow maximum)) in
    let! wire_sequence := mlift (ok_or (u64_try_from sequence) (SequenceOverflow sequence)) in
    let envelope := mk_envelope wire_sequence 0 (Some message) in
    let! payload_json := mlift (ok_or (envelope_to_json envelope) OutboxPayload) in
    let! protected := protect_outbox_payload entry_id payload_json in
    let entry := OutboxEntry_new entry_id instance sequence payload_json created_at in
    do! insert_outbox_entry entry protected (payload_operation_id payload_json) in
    mret entry).

(** [create_outbox_entry]: an entry built elsewhere. *)
Definition sqlite_create_outbox_entry (e : OutboxEntry) : Repo () :=
  do! outbox_command_key in
  do! acquire env in
  let! payload_json := protect_outbox_payload (oe_id e) (oe_payload_json e) in
  insert_outbox_entry e payload_json (payload_operation_id (oe_payload_json e)).

Definition sqlite_next_outbox_sequence (instance : InstanceId) : Repo Z :=
  do! acquire env in
  transaction env (
    let! found := select env (max_sequence instance) in
    mret (default 0 found + 1)).

(** ** Reads *)

Definition load_entries (models : list outbox_model) : Repo (list OutboxEntry) :=
  mtraverse (λ m, mlift (map_stored_outbox_entry (om_id m) m)) models.

Definition sqlite_find_outbox_entry (entry_id : OutboxEntryId) : Repo (option OutboxEntry) :=
  let! found := select env (λ t : OutboxTable, t !! entry_id) in
  match found with
  | None => mret None
  | Some m => let! e := mlift (map_stored_outbox_entry entry_id m) in mret (Some e)
  end.

Definition pending_row (instance : InstanceId) (m : outbox_model) : Prop :=
  om_instance_id m = instance ∧ om_state m = lit "pending".
#[local] Instance pending_row_dec instance m : Decision (pending_row instance m).
Proof. unfold pending_row. apply _. Defined.

Definition sqlite_list_pending (instance : InstanceId) (limit : Z) : Repo (list OutboxEntry) :=
  let! models := select env (λ t, take_limit limit (rows outbox_model_le (pending_row instance) t)) in
  load_entries models.

Definition sqlite_list_outbox_entries (instance : InstanceId) : Repo (list OutboxEntry) :=
  let! models := select env (rows outbox_model_le (λ m, om_instance_id m = instance)) in
  load_entries models.

(** The newest first. *)
Definition sqlite_list_outbox_entries_bounded (instance : InstanceId) (limit : Z)
    : Repo (list OutboxEntry) :=
  let! models := select env
    (λ t, take_limit limit (reverse (rows outbox_model_le (λ m, om_instance_id m = instance) t))) in
  load_entries models.

(** The column of one row is filled in. *)
Definition backfill (entry_id : OutboxEntryId) (operation_id : OperationId) : Repo () :=
  do! acquire env in
  statement env (λ t, Some
    (alter (λ m, mk_outbox_model (om_id m) (om_sequence m) (om_instance_id m) (om_payload_json m)
       (om_state m) (om_retry_count m) (om_created_at m) (om_acked_at m) (Some operation_id)) entry_id t,
     ())).

(** The scan of the rows without a column, newest first, to the first whose payload
    is about the operation. *)
Fixpoint scan_payloads (models : list outbox_model) (operation_id : OperationId)
    : Repo (option OutboxEntry) :=
  match models with
  | [] => mret None
  | m :: models =>
      let! entry := mlift (map_stored_outbox_entry (om_id m) m) in
      if decide (payload_operation_id (oe_payload_json entry) ≠ Some operation_id)
      then scan_payloads models operation_id
      else do! backfill (om_id m) operation_id in mret (Some entry)
  end.

(** [find_outbox_entry_by_operation] and
    [find_offer_by_operation_across_instances], which differ in the instance filter
    and in the order. *)
Definition directed_read (le : relation outbox_model) `{RelDecision _ _ le}
    (P : outbox_model → Prop) `{∀ m, Decision (P m)} (operation_id : OperationId)
    : Repo (option OutboxEntry) :=
  let! found := select env (λ t, last (rows le (λ m, P m ∧ om_operation_id m = Some operation_id) t)) in
  match found with
  | Some m => let! e := mlift (map_stored_outbox_entry (om_id m) m) in mret (Some e)
  | None =>
      let! null_row := select env (λ t, find_row (λ m, P m ∧ om_operation_id m = None) t) in
      match null_row with
      | None => mret None
      | Some _ =>
          let! models := select env
            (λ t, reverse (rows le (λ m, P m ∧ om_operation_id m = None) t)) in
          scan_payloads models operation_id
      end
  end.

Definition sqlite_find_outbox_entry_by_operation (instance : InstanceId)
    (operation_id : OperationId) : Repo (option OutboxEntry) :=
  directed_read outbox_model_le (λ m, om_instance_id m = instance) operation_id.

Definition sqlite_find_offer_across_instances (operation_id : OperationId)
    : Repo (option OutboxEntry) :=
  directed_read outbox_created_le (λ _, True) operation_id.

(** ** Acknowledgement *)

Definition acked_of (instance : InstanceId) (operation_id : OperationId) (m : outbox_model) : Prop :=
  om_instance_id m = instance ∧ om_operation_id m = Some operation_id ∧ om_state m = lit "acked".
#[local] Instance acked_of_dec instance operation_id m : Decision (acked_of instance operation_id m).
Proof. unfold acked_of. apply _. Defined.

Definition prune_acked_operation_history (instance : InstanceId) (operation_id : OperationId) : Repo () :=
  let! found := select env (λ t, last (rows outbox_model_le (acked_of instance operation_id) t)) in
  match found with
  | None => mret ()
  | Some keeper =>
      statement env (λ t,
        Some (filter (λ kv : Uuid * outbox_model,
                ¬ (acked_of instance operation_id kv.2 ∧ om_id kv.2 ≠ om_id keeper)) t, ()))
  end.

(** The conditional [UPDATE]; the answer counts the rows. *)
Definition update_acked (entry_id : OutboxEntryId) (acked_at : OffsetDateTime) (t : OutboxTable)
    : option (OutboxTable * Z) :=
  match t !! entry_id with
  | Some m =>
      if decide (om_state m = lit "pending")
      then Some (<[entry_id := mk_outbox_model (om_id m) (om_sequence m) (om_instance_id m)
                     (om_payload_json m) (lit "acked") (om_retry_count m) (om_created_at m)
                     (Some acked_at) (om_operation_id m)]> t, 1)
      else Some (t, 0)
  | None => Some (t, 0)
  end.

Definition sqlite_ack_outbox_entry (entry_id : OutboxEntryId) (acked_at : OffsetDateTime)
    : Repo AckOutcome :=
  do! acquire env in
  transaction env (
    let! affected := statement env (update_acked entry_id acked_at) in
    let! outcome :=
      if decide (affected = 1) then mret AckAcknowledged
      else
        let! found := select env (λ t : OutboxTable, t !! entry_id) in
        let! m := mlift (ok_or found (OutboxNotFound entry_id)) in
        let! _ := mlift (map_stored_outbox_entry entry_id m) in
        mret AlreadyAcknowledged in
    let! acked_row := select env (λ t : OutboxTable, t !! entry_id) in
    do! match acked_row ≫= (λ m, (λ o, (om_instance_id m, o)) <$> om_operation_id m) with
        | Some (instance, operation_id) => prune_acked_operation_history instance operation_id
        | None => mret ()
        end in
    mret outcome).

(** [impl CenterOutbox for SqliteStore]. *)
Instance sqlite_outbox : OutboxStore (World OutboxTable) CenterOutboxRepositoryError := {
  enqueue := sqlite_enqueue;
  list_pending := sqlite_list_pending;
  find_offer_by_operation := sqlite_find_outbox_entry_by_operation;
  find_offer_by_operation_across_instances := sqlite_find_offer_across_instances;
  acknowledge entry_id acked_at := let! _ := sqlite_ack_outbox_entry entry_id acked_at in mret ();
}.
End repository.

(** ** The rows as entries *)

Section laws.
Context (env : Env) {Key : Type} `{CipherSuiteLaws Key} `{EnvelopeJsonLaws} `{UuidText}.
Context (command_key : option Key).
Hypothesis Hrandom : ∀ n, random_ok (env_random env n).
Implicit Types (w : World OutboxTable) (t : OutboxTable) (m : outbox_model) (e : OutboxEntry).

(** A row is sound when it maps to an entry and its column, if it has one, names
    the operation of its payload. *)
Definition outbox_of (id : Uuid) m : option OutboxEntry :=
  match map_stored_outbox_entry command_key id m with
  | Ok e =>
      if decide (om_id m = id ∧ (om_operation_id m = None ∨ om_operation_id m = entry_operation_id e))
      then Some e else None
  | Err _ => None
  end.

Abbreviation view := (λ w, decoded outbox_of (w_db w)).
Abbreviation ok := (λ w, decodable outbox_of (w_db w)).

Lemma map_stored_fields id m e :
  map_stored_outbox_entry command_key id m = Ok e →
  oe_id e = id ∧ oe_instance_id e = om_instance_id m ∧ oe_sequence e = om_sequence m ∧
  OutboxEntryState_as_str (oe_state e) = om_state m ∧ oe_created_at e = om_created_at m ∧
  oe_acked_at e = om_acked_at m ∧
  recover_outbox_payload command_key id (om_payload_json m) = Ok (oe_payload_json e).
Proof.
  unfold map_stored_outbox_entry, OutboxEntry_try_from_parts. intros Hm. inv_ok.
  destruct (om_retry_count m <? 0); [done|].
  match goal with Hs : OutboxEntryState_from_str _ = Ok ?st |- _ =>
    pose proof (code_parse_sound (T := OutboxEntryState) (om_state m) st Hs) as Hst end.
  repeat case_match; simplify_eq; simpl; done.
Qed.

Lemma outbox_of_inv id m e :
  outbox_of id m = Some e →
  map_stored_outbox_entry command_key id m = Ok e ∧ om_id m = id ∧
  (om_operation_id m = None ∨ om_operation_id m = entry_operation_id e).
Proof. unfold outbox_of. destruct (map_stored_outbox_entry _ _ _); [|done]. case_decide; naive_solver. Qed.

Lemma outbox_key id m e : outbox_of id m = Some e → om_id m = id ∧ oe_id e = id.
Proof. intros (Hm & Hid & _)%outbox_of_inv. by apply map_stored_fields in Hm as [? _]. Qed.

Lemma outbox_load m e :
  is_Some (outbox_of (om_id m) m) → map_stored_outbox_entry command_key (om_id m) m = Ok e →
  outbox_of (om_id m) m = Some e.
Proof. unfold outbox_of. intros [f Hf] Hm. rewrite Hm in *. by case_decide. Qed.

Lemma outbox_total id m : is_Some (outbox_of id m) → ∃ e, map_stored_outbox_entry command_key id m = Ok e.
Proof. intros [e (Hm & _)%outbox_of_inv]. eauto. Qed.

(** The order of the rows is the order of the entries. *)
#[local] Instance outbox_le_trans : Transitive outbox_model_le.
Proof. intros a b c. unfold outbox_model_le. lia. Qed.
#[local] Instance outbox_le_total : Total outbox_model_le.
Proof. intros a b. unfold outbox_model_le. lia. Qed.

(** Every row of the table can be loaded. *)
Lemma rows_load (le : relation outbox_model) `{∀ x y, Decision (le x y)} (P : outbox_model → Prop)
    `{∀ m, Decision (P m)} t :
  decodable outbox_of t →
  ∃ l, Forall2 (λ m e, map_stored_outbox_entry command_key (om_id m) m = Ok e) (rows le P t) l.
Proof.
  intros Hok. assert (Forall (λ m, ∃ e, map_stored_outbox_entry command_key (om_id m) m = Ok e) (rows le P t)) as Hf.
  { apply Forall_forall. intros m Hm. apply (rows_spec om_id) in Hm as [Hm _].
    - eapply outbox_total. by eapply Hok.
    - intros id m' Hm'. destruct (Hok _ _ Hm') as [e He]. by apply outbox_key in He as [? _]. }
  induction Hf as [|m ms [e He] _ [l Hl]]; [by exists []|]. exists (e :: l). by constructor.
Qed.

Lemma load_entries_inv models w w' r :
  load_entries command_key models w = (w', r) →
  w' = w ∧ ∀ l, r = Ok l → Forall2 (λ m e, map_stored_outbox_entry command_key (om_id m) m = Ok e) models l.
Proof. apply mtraverse_mlift. Qed.

Lemma pending_rows_spec instance id m e :
  outbox_of id m = Some e → pending_row instance m ↔ is_pending_of instance e.
Proof.
  intros (Hm & _)%outbox_of_inv. apply map_stored_fields in Hm as (_ & Hi & _ & Hs & _).
  unfold pending_row, is_pending_of. rewrite Hi, <- Hs. destruct (oe_state e); naive_solver.
Qed.

Lemma list_pending_refines instance limit w w' r :
  ok w → sqlite_list_pending env command_key instance limit w = (w', r) →
  reads view ok (λ v l, l = take (Z.to_nat limit) (pending_of instance v)) w w' r.
Proof.
  intros Hok Hrun. unfold sqlite_list_pending in Hrun. apply lookup_inv in Hrun as [Hdb Hr].
  2: { intros a w1 w2 r2 Hl. by apply load_entries_inv in Hl as [? _]. }
  unfold reads. rewrite Hdb. split; [done|]. split; [done|]. intros l Hl.
  destruct (Hr _ Hl) as [w1 Hw]. rewrite take_limit_take in Hw.
  apply load_entries_inv in Hw as [_ Hf]. specialize (Hf _ eq_refl).
  destruct (rows_load outbox_model_le (pending_row instance) (w_db w) Hok) as [full Hfull].
  assert (full = pending_of instance (decoded outbox_of (w_db w))) as <-.
  { apply (rows_decoded outbox_of om_id oe_id outbox_key
      (λ m, map_stored_outbox_entry command_key (om_id m) m) outbox_load (pending_row instance)
      (is_pending_of instance) (pending_rows_spec instance) outbox_model_le entry_le); try done.
    - intros id m a id' m' a' Hm Hm'.
      destruct (outbox_key _ _ _ Hm) as [Hk Hk'], (outbox_key _ _ _ Hm') as [Hl1 Hl2].
      apply outbox_of_inv in Hm as (Hm & _), Hm' as (Hm' & _).
      apply map_stored_fields in Hm as (_ & _ & Hs & _), Hm' as (_ & _ & Hs' & _).
      unfold outbox_model_le, entry_le. rewrite Hs, Hs', Hk', Hl2, Hk, Hl1. done.
    - intros a a'. unfold entry_le. lia. }
  apply (Forall2_take _ _ _ (Z.to_nat limit)) in Hfull. eapply Forall2_functional; [|exact Hf|exact Hfull].
  intros m e e' He He'. congruence.
Qed.

(** *** The directed reads *)

Lemma backfill_inv id operation_id w w' r :
  backfill env id operation_id w = (w', r) → ok w →
  (∀ m e, w_db w !! id = Some m → outbox_of id m = Some e → entry_operation_id e = Some operation_id) →
  ok w' ∧ view w' = view w.
Proof.
  intros Hrun Hok Hop. apply gated_statement in Hrun as [(e & -> & ->)|([] & -> & [= Hdb])]; [done|].
  rewrite <- Hdb, alter_row. destruct (w_db w !! id) as [m|] eqn:Hm; [|done].
  destruct (Hok _ _ Hm) as [e He]. pose proof (Hop _ _ eq_refl He) as Heo.
  set (m' := mk_outbox_model _ _ _ _ _ _ _ _ _).
  assert (outbox_of id m' = Some e) as He'.
  { apply outbox_of_inv in He as (He & Hid & _). unfold outbox_of, m'.
    unfold map_stored_outbox_entry in *. simpl. rewrite He. rewrite decide_True; [done|]. split; [done|].
    right. by rewrite Heo. }
  split; [by eapply decodable_insert|].
  rewrite (decoded_insert outbox_of _ _ _ _ He'). apply insert_id. by rewrite decoded_lookup, Hm.
Qed.

Lemma scan_inv models operation_id w w' r :
  scan_payloads env command_key models operation_id w = (w', r) → ok w →
  (∀ m, m ∈ models → w_db w !! om_id m = Some m) →
  ok w' ∧ view w' = view w ∧
  match r with
  | Ok (Some e) => ∃ m, m ∈ models ∧ outbox_of (om_id m) m = Some e ∧ entry_operation_id e = Some operation_id
  | Ok None => ∀ m e, m ∈ models → outbox_of (om_id m) m = Some e → entry_operation_id e ≠ Some operation_id
  | Err _ => True
  end.
Proof.
  revert w. induction models as [|m models IH]; intros w Hrun Hok Hin; simpl in Hrun.
  { injection Hrun as <- <-. split; [done|]. split; [done|]. intros m e []%elem_of_nil. }
  pose proof (Hin m ltac:(by left)) as Hm. destruct (Hok _ _ Hm) as [e He].
  pose proof He as Hload. apply outbox_of_inv in Hload as (Hload & _).
  unfold mlift at 1 in Hrun. unfold mbind at 1 in Hrun. rewrite Hload in Hrun.
  case_decide as Hd.
  - apply IH in Hrun as (Hok' & Hv & Hr); [|done|intros; apply Hin; by right].
    split; [done|]. split; [done|]. destruct r as [[f|]|]; [| |done].
    + destruct Hr as (k & Hk & Hr). exists k. split; [by right|done].
    + intros k f [->|Hk]%elem_of_cons Hf; [|by eapply Hr]. unfold entry_operation_id. congruence.
  - apply mbind_inv in Hrun as [([] & w1 & Hb & Hrun)|(x & Hb & ->)].
    all: apply backfill_inv in Hb as [Hok' Hv]; [|done|intros k f Hk Hf; unfold entry_operation_id; congruence].
    + injection Hrun as <- <-. split; [done|]. split; [done|]. exists m. split; [by left|done].
    + done.
Qed.

Lemma directed_refines (le : relation outbox_model) `{RelDecision _ _ le} (P : outbox_model → Prop)
    `{∀ m, Decision (P m)} (Q : OutboxEntry → Prop) operation_id w w' r :
  (∀ id m e, outbox_of id m = Some e → P m ↔ Q e) →
  ok w → directed_read env command_key le P operation_id w = (w', r) →
  reads view ok (λ v, finds_offer v Q operation_id) w w' r.
Proof.
  intros HPQ Hok Hrun. unfold directed_read in Hrun.
  assert (rows_keyed om_id (w_db w)) as Hkeyed.
  { intros id m Hm. destruct (Hok _ _ Hm) as [e He]. by apply outbox_key in He as [? _]. }
  apply mbind_inv in Hrun as [(found & w1 & Hs & Hrun)|(x & Hs & ->)];
    apply select_inv in Hs as [Hdb Hf]; [|unfold reads; by rewrite Hdb].
  specialize (Hf _ eq_refl). destruct found as [m|].
  - apply mbind_inv in Hrun as [(e & w2 & Hl & Hrun)|(x & Hl & ->)]; injection Hl as -> Hl;
      unfold reads; [|by rewrite Hdb].
    injection Hrun as <- <-. rewrite Hdb. split; [done|]. split; [done|]. intros y [= <-].
    symmetry in Hf. apply last_Some_elem_of, (rows_spec om_id) in Hf as [Hm [HP Hop]]; [|done].
    assert (outbox_of (om_id m) m = Some e) as He by (apply outbox_load; [by eapply Hok|done]).
    split.
    + exists (om_id m). by rewrite decoded_lookup, Hm.
    + split; [by eapply HPQ|]. apply outbox_of_inv in He as (_ & _ & [Hn|Ho]); congruence.
  - symmetry in Hf. apply last_None in Hf.
    assert (∀ id m e, w_db w !! id = Some m → P m → outbox_of id m = Some e →
      om_operation_id m = None ∨ entry_operation_id e ≠ Some operation_id) as Hcol.
    { intros id m e Hm HP He. pose proof (outbox_key _ _ _ He) as [Hid _].
      assert (¬ (om_operation_id m = Some operation_id)) as Hne.
      { intros Ho. apply (elem_of_nil m). rewrite <- Hf. apply (rows_spec om_id); [done|]. by rewrite Hid. }
      apply outbox_of_inv in He as (_ & _ & [Hn|Ho]); [by left|right; congruence]. }
    apply mbind_inv in Hrun as [(null & w2 & Hs & Hrun)|(x & Hs & ->)];
      apply select_inv in Hs as [Hdb2 Hn]; [|unfold reads; by rewrite Hdb2, Hdb].
    specialize (Hn _ eq_refl). rewrite Hdb in Hn. destruct null as [mn|].
    + apply mbind_inv in Hrun as [(models & w3 & Hs & Hrun)|(x & Hs & ->)];
        apply select_inv in Hs as [Hdb3 Hms]; [|unfold reads; by rewrite Hdb3, Hdb2, Hdb].
      specialize (Hms _ eq_refl). rewrite Hdb2, Hdb in Hms.
      assert (∀ k, k ∈ models ↔ w_db w !! om_id k = Some k ∧ P k ∧ om_operation_id k = None) as Hmodels.
      { intros k. subst models. rewrite elem_of_reverse. by apply (rows_spec om_id). }
      apply scan_inv in Hrun as (Hok' & Hv & Hr).
      * rewrite Hdb3, Hdb2, Hdb in Hv. split; [done|]. split; [done|].
        intros [e|] ->.
        -- destruct Hr as (k & Hk & He & Ho). apply Hmodels in Hk as (Hk & HP & _). split.
           ++ exists (om_id k). by rewrite decoded_lookup, Hk.
           ++ split; [by eapply HPQ|done].
        -- intros id e He [HQ Ho]. rewrite decoded_lookup in He. apply bind_Some in He as (k & Hk & He).
           pose proof (outbox_key _ _ _ He) as [Hid _]. apply (HPQ _ _ _ He) in HQ.
           destruct (Hcol _ _ _ Hk HQ He) as [Hnull|]; [|done].
           eapply (Hr k e); [apply Hmodels; by rewrite Hid|by rewrite Hid|done].
      * by rewrite Hdb3, Hdb2, Hdb.
      * intros k Hk. rewrite Hdb3, Hdb2, Hdb. by apply Hmodels.
    + injection Hrun as <- <-. unfold reads. rewrite Hdb2, Hdb. split; [done|]. split; [done|].
      intros y [= <-]. intros id e He [HQ Ho]. rewrite decoded_lookup in He.
      apply bind_Some in He as (k & Hk & He). apply (HPQ _ _ _ He) in HQ.
      destruct (Hcol _ _ _ Hk HQ He) as [Hnull|]; [|done].
      symmetry in Hn. apply find_row_None in Hn. by apply (Hn _ _ Hk).
Qed.

(** *** Enqueuing *)

Lemma max_sequence_ge instance t id m x :
  t !! id = Some m → om_instance_id m = instance → max_sequence instance t = x → om_sequence m <= default 0 x.
Proof.
  intros Hm Hi <-. unfold max_sequence.
  assert (m ∈ filter (λ m, om_instance_id m = instance) (map_to_list t).*2) as Hin.
  { apply list_elem_of_filter. split; [done|]. apply list_elem_of_fmap. exists (id, m). split; [done|].
    by apply elem_of_map_to_list. }
  revert Hin. generalize (filter (λ m, om_instance_id m = instance) (map_to_list t).*2). intros l.
  induction l as [|k l IH]; [by intros []%elem_of_nil|]. intros [->|Hin]%elem_of_cons; simpl.
  - destruct (foldr _ _ _); simpl; lia.
  - specialize (IH Hin). destruct (foldr _ _ _) as [x|] eqn:Hx; simpl in *; [lia|].
    destruct l; [by apply elem_of_nil in Hin|done].
Qed.

Lemma protect_recover id plaintext protected w w' :
  protect_outbox_payload env command_key id plaintext w = (w', Ok protected) →
  Forall (λ x, is_scalar x = true) plaintext →
  w_db w' = w_db w ∧ recover_outbox_payload command_key id protected = Ok plaintext.
Proof.
  unfold protect_outbox_payload, outbox_command_key. intros Hrun Hs.
  apply mbind_ok in Hrun as (key & w1 & Hk & Hrun). injection Hk as <- Hk.
  apply mbind_ok in Hrun as (random & w2 & Hd & Hrun). injection Hd as <- <-.
  injection Hrun as <- He. split; [done|]. inv_ok.
  destruct command_key as [k|]; simplify_eq/=.
  destruct (command_envelope_roundtrip _ _ _ _ _ (Hrandom _) Hs He) as [Hdec Hp].
  unfold recover_outbox_payload. rewrite Hp. simpl. by rewrite Hdec.
Qed.

Lemma outbox_row_sound e protected :
  recover_outbox_payload command_key (oe_id e) protected = Ok (oe_payload_json e) →
  e = OutboxEntry_new (oe_id e) (oe_instance_id e) (oe_sequence e) (oe_payload_json e) (oe_created_at e) →
  outbox_of (oe_id e) (outbox_row e protected (entry_operation_id e)) = Some e.
Proof.
  intros Hr He. assert (map_stored_outbox_entry command_key (oe_id e)
    (outbox_row e protected (entry_operation_id e)) = Ok e) as Hm.
  { unfold map_stored_outbox_entry, outbox_row. simpl. rewrite Hr. rewrite He. reflexivity. }
  unfold outbox_of. rewrite Hm. rewrite decide_True; [done|]. split; [done|by right].
Qed.

Lemma enqueue_refines entry_id instance message at_ w w' r :
  ok w → sqlite_enqueue env command_key entry_id instance message at_ w = (w', r) →
  ok w' ∧ match r with
          | Ok e => enqueued entry_id instance message at_ (view w) (view w') e
          | Err _ => view w' = view w
          end.
Proof.
  intros Hok Hrun. unfold sqlite_enqueue in Hrun.
  apply mbind_inv in Hrun as [(key & w0 & Hk & Hrun)|(x & Hk & ->)]; injection Hk as -> Hk; [|done].
  apply gated_write in Hrun as [(x & -> & ->)|(e0 & w1 & w2 & -> & Hw1 & Hbody & ->)]; [done|].
  rewrite <- Hw1 in Hok |- *. clear Hw1.
  apply mbind_ok in Hbody as (maximum & w3 & Hs & Hbody). apply select_ok in Hs as [Hdb3 ->].
  apply mbind_ok in Hbody as (sequence & w4 & Hs & Hbody). injection Hs as <- Hseq.
  apply mbind_ok in Hbody as (wire & w5 & Hs & Hbody). injection Hs as <- Hwire.
  apply mbind_ok in Hbody as (payload & w6 & Hs & Hbody). injection Hs as <- Hpayload.
  apply mbind_ok in Hbody as (protected & w7 & Hprot & Hbody).
  apply mbind_ok in Hbody as ([] & w8 & Hins & Hbody). injection Hbody as <- <-.
  unfold checked_add_i64 in Hseq. unfold u64_try_from in Hwire. inv_ok.
  repeat (case_decide; [|done]). simplify_eq/=.
  apply protect_recover in Hprot as [Hdb7 Hrec]; [|by eapply envelope_scalars].
  unfold insert_outbox_entry in Hins. apply statement_ok in Hins. rewrite Hdb7, Hdb3 in Hins.
  case_decide as Hfree; [|done]. apply fmap_Some in Hins as (t' & Hnew & [= ->]).
  set (e := OutboxEntry_new _ _ _ _ _) in *.
  apply (insert_new_decoded outbox_of _ _ _ _ e) in Hnew as [Hok' Hv]; [|done|by apply outbox_row_sound].
  apply insert_new_Some in Hv as [Hnone Hv]. split; [done|]. split; [done|done|done| |].
  - simpl. by apply envelope_roundtrip.
  - intros id f Hf Hi. rewrite decoded_lookup in Hf. apply bind_Some in Hf as (m & Hm & Hf).
    apply outbox_of_inv in Hf as (Hf & _). apply map_stored_fields in Hf as (_ & Hfi & -> & _).
    pose proof (max_sequence_ge instance (w_db w1) id m _ Hm ltac:(congruence) eq_refl). simpl. lia.
Qed.
(** *** Acknowledging *)

Lemma pending_row_acked id m at_ e :
  outbox_of id m = Some e → om_state m = lit "pending" → om_created_at m <= at_ →
  outbox_of id (mk_outbox_model (om_id m) (om_sequence m) (om_instance_id m) (om_payload_json m)
    (lit "acked") (om_retry_count m) (om_created_at m) (Some at_) (om_operation_id m)) =
  Some (acked_entry e at_).
Proof.
  intros (Hm & Hid & Ho)%outbox_of_inv Hst Hat.
  assert (entry_operation_id (acked_entry e at_) = entry_operation_id e) as Hpay.
  { unfold entry_operation_id. by destruct (acked_entry_same e at_) as (_ & _ & _ & -> & _). }
  unfold outbox_of, map_stored_outbox_entry in *. simpl.
  destruct (recover_outbox_payload command_key id (om_payload_json m)) as [p|]; [|done].
  simpl in *. rewrite Hst in Hm. simpl in Hm. unfold OutboxEntry_try_from_parts in *. simpl in *.
  destruct (om_retry_count m <? 0)%Z; [done|]. destruct (om_acked_at m); [done|]. simpl in Hm.
  injection Hm as <-. replace (at_ <? om_created_at m) with false by lia. simpl.
  rewrite decide_True; [done|]. split; [done|]. by rewrite <- Hpay in Ho.
Qed.

Lemma acked_row_spec instance operation_id id m e :
  outbox_of id m = Some e → acked_of instance operation_id m →
  oe_instance_id e = instance ∧ oe_state e = OutboxAcked ∧ entry_operation_id e = Some operation_id ∧
  oe_sequence e = om_sequence m.
Proof.
  intros (Hm & _ & Ho)%outbox_of_inv (Hi & Hop & Hs).
  apply map_stored_fields in Hm as (_ & Hmi & Hseq & Hms & _).
  split; [congruence|]. rewrite Hs in Hms. split; [by destruct (oe_state e)|].
  split; [|done]. destruct Ho as [Ho|Ho]; congruence.
Qed.

(** What the pruning removes is superseded by the row it keeps. *)
Lemma prune_sound instance operation_id w w' :
  ok w → prune_acked_operation_history env instance operation_id w = (w', Ok ()) →
  ok w' ∧ view w' ⊆ view w ∧
  ∀ k f, view w !! k = Some f → view w' !! k = None → superseded (view w') f.
Proof.
  intros Hok Hrun. unfold prune_acked_operation_history in Hrun.
  assert (rows_keyed om_id (w_db w)) as Hkeyed.
  { intros id m Hm. destruct (Hok _ _ Hm) as [e He]. by apply outbox_key in He as [? _]. }
  apply mbind_ok in Hrun as (found & w1 & Hs & Hrun). apply select_ok in Hs as [Hdb ->].
  destruct (last _) as [keeper|] eqn:Hlast.
  - apply statement_ok in Hrun. rewrite Hdb in Hrun. simpl in Hrun. injection Hrun as Hdb'.
    pose proof Hlast as Hkeep. apply last_Some_elem_of, (rows_spec om_id) in Hkeep as [Hk Hka]; [|done].
    rewrite <- Hdb'. split; [eapply decodable_subseteq; [apply map_filter_subseteq|done]|].
    split; [apply decoded_subseteq, map_filter_subseteq|]. intros k f Hf Hnone.
    rewrite decoded_lookup in Hf. apply bind_Some in Hf as (m & Hm & Hf).
    assert (acked_of instance operation_id m ∧ om_id m ≠ om_id keeper) as [Ha Hne].
    { destruct (decide (acked_of instance operation_id m ∧ om_id m ≠ om_id keeper)) as [Hd|Hd]; [done|].
      rewrite decoded_lookup, (map_lookup_filter_Some_2 _ _ _ m) in Hnone by done. simpl in Hnone. congruence. }
    destruct (acked_row_spec _ _ _ _ _ Hf Ha) as (Hi & Hst & Ho & Hseq). split; [done|].
    destruct (Hok _ _ Hk) as [g Hg]. destruct (acked_row_spec _ _ _ _ _ Hg Hka) as (Hgi & Hgst & Hgo & Hgseq).
    exists (om_id keeper), g. split.
    { rewrite decoded_lookup, (map_lookup_filter_Some_2 _ _ _ keeper); [done|done|]. simpl. naive_solver. }
    rewrite Hgi, Hi, Ho, Hgo, Hgst, Hseq, Hgseq. repeat (split; [done|]).
    destruct (rows_last _ _ _ _ m Hlast) as [->|Hle]; [|done|unfold outbox_model_le in Hle; lia].
    apply (rows_spec om_id); [done|]. split; [|done]. by rewrite (Hkeyed _ _ Hm).
  - injection Hrun as <-. rewrite Hdb. split; [done|]. split; [done|]. intros k f Hf Hn. congruence.
Qed.
(** The conditional update, seen from the entries. *)
Lemma update_acked_sound id at_ t t' n e :
  decodable outbox_of t → update_acked id at_ t = Some (t', n) →
  decoded outbox_of t !! id = Some e → oe_created_at e <= at_ →
  decodable outbox_of t' ∧ decoded outbox_of t' = <[id := acked_entry e at_]> (decoded outbox_of t).
Proof.
  intros Hok Hrun He Hat. unfold update_acked in Hrun. pose proof He as Hd. rewrite decoded_lookup in Hd.
  apply bind_Some in Hd as (m & Hm & Hd). rewrite Hm in Hrun.
  pose proof Hd as Hf. apply outbox_of_inv in Hf as (Hf & _). apply map_stored_fields in Hf as (_ & _ & _ & Hs & Hc & _).
  case_decide as Hp; injection Hrun as <- <-.
  - assert (om_created_at m <= at_) as Hc' by lia. pose proof (pending_row_acked _ _ at_ _ Hd Hp Hc') as Hr.
    split; [by eapply decodable_insert|]. by apply decoded_insert.
  - split; [done|]. symmetry. apply insert_id. rewrite He. unfold acked_entry.
    destruct (oe_state e); [|done]. by rewrite <- Hs in Hp.
Qed.

Lemma ack_refines id at_ w w' r :
  ok w → (∀ e, view w !! id = Some e → oe_created_at e <= at_) →
  mbind (sqlite_ack_outbox_entry env command_key id at_) (λ _, mret ()) w = (w', r) →
  writes view ok (acknowledged id at_) w w' r.
Proof.
  intros Hok Hat Hrun. unfold writes. cbv beta in *.
  apply mbind_inv in Hrun as [(outcome & w0 & Hrun & Hret)|(x & Hrun & ->)];
    [injection Hret as <- <-|]; unfold sqlite_ack_outbox_entry in Hrun;
    apply gated_write in Hrun as [(x' & [=] & Hw)|(e0 & w1 & w2 & [=] & Hw1 & Hbody & Hw)];
    [|by rewrite Hw].
  rewrite <- Hw1 in Hok, Hat |- *. rewrite Hw. clear Hw1 Hw.
  apply mbind_ok in Hbody as (n & w3 & Hup & Hbody). apply statement_ok in Hup.
  apply mbind_ok in Hbody as (out & w4 & Hout & Hbody).
  assert (w_db w4 = w_db w3 ∧ ∃ m, w_db w3 !! id = Some m) as [Hdb4 [m Hm]].
  { case_decide as Hn.
    - injection Hout as <- <-. split; [done|]. unfold update_acked in Hup.
      destruct (w_db w1 !! id); [|naive_solver]. case_decide; [|naive_solver].
      injection Hup as <- _. rewrite lookup_insert_eq. eauto.
    - apply mbind_ok in Hout as (found & w5 & Hs & Hout). apply select_ok in Hs as [Hdb5 ->].
      apply mbind_ok in Hout as (m & w6 & Hs & Hout). injection Hs as <- Hs.
      apply mbind_ok in Hout as (e & w7 & Hl & Hout). injection Hl as <- Hl. injection Hout as <- <-.
      split; [done|]. exists m. by destruct (w_db w3 !! id); simplify_eq/=. }
  apply mbind_ok in Hbody as (acked_row & w5 & Hs & Hbody). apply select_ok in Hs as [Hdb5 ->].
  apply mbind_ok in Hbody as ([] & w6 & Hprune & Hbody). injection Hbody as <- <-.
  assert (∃ e, view w1 !! id = Some e) as [e He].
  { unfold update_acked in Hup. destruct (w_db w1 !! id) as [m1|] eqn:Hm1; [|injection Hup as Hup _; congruence].
    destruct (Hok _ _ Hm1) as [e He]. exists e. by rewrite decoded_lookup, Hm1. }
  apply (update_acked_sound _ _ _ _ _ _ Hok Hup) in He as Hv; [|by apply Hat]. destruct Hv as [Hok3 Hv3].
  rewrite <- Hdb4, <- Hdb5 in Hv3, Hok3.
  destruct (_ ≫= _) as [[instance operation_id]|].
  - apply prune_sound in Hprune as (Hok6 & Hsub & Hgone); [|done]. rewrite Hv3 in Hsub, Hgone.
    split; [done|]. by exists e.
  - injection Hprune as <-. split; [done|]. exists e. split; [done|]. simpl. rewrite Hv3.
    split; [done|]. intros k f Hf Hn. congruence.
Qed.

#[export] Instance sqlite_outbox_laws :
  @OutboxStoreLaws _ _ (sqlite_outbox env command_key) _ _.
Proof.
  apply (@Build_OutboxStoreLaws _ _ (sqlite_outbox env command_key) _ _ view ok).
  - intros w id e _ He. rewrite decoded_lookup in He. apply bind_Some in He as (m & _ & He).
    by apply outbox_key in He as [_ ?].
  - apply enqueue_refines.
  - apply list_pending_refines.
  - intros instance operation_id w w' r. apply directed_refines. intros id m e He.
    apply outbox_of_inv in He as (He & _). apply map_stored_fields in He as (_ & -> & _). done.
  - intros operation_id w w' r. by apply directed_refines.
  - apply ack_refines.
Defined.
End laws.
