(* ===== verification/CenterStores.v ===== *)
(** * CenterStores: what the center's operation services work on

    The services of [application/src/center/dispatch.rs] are generic in their
    stores: the operations ([OperationStore], with its listing by endpoint), the
    outbox, the accounts, the projections and the inbox.  Here the five side by
    side, each behind its contract, and each call seen from the whole. *)
From S2P Require Import Prelude Text Operation OperationEngine CommandCipher CenterDomain LinkMessages SiteSync Endpoints Accounts AccountStore ResourceSnapshot CenterOutbox.
Local Open Scope Z_scope.

(** ** Contracts of this file *)

Definition on_endpoint_of {Command} (endpoint : EndpointId) (o : Operation Command) : Prop :=
  Exists (λ t, endpoint_id t = endpoint) (op_targets o).

(** [OperationStore::list_operations_for_endpoint]. *)
Class EndpointListing (Command St E : Type) :=
  store_list_for_endpoint : option OperationState → EndpointId → M St E (list (Operation Command)).
Class EndpointListingLaws (Command St E : Type) `{OperationStoreLaws Command St E}
    `{!EndpointListing Command St E} :=
  law_list_for_endpoint f endpoint s s' r :
    store_ok s → store_list_for_endpoint f endpoint s = (s', r) →
    reads store_view store_ok (λ v l, ∀ o,
      o ∈ l ↔ v_operations v !! op_id o = Some o ∧ listed f o ∧ on_endpoint_of endpoint o) s s' r.

Record CenterEndpointProjection := mk_center_endpoint_projection {
  cp_endpoint_id : EndpointId;
  cp_site_id : option InstanceId;
}.

(** What the projections say: the site of each projected endpoint, and the
    resources known below it. *)
Record Projections := mk_projections {
  pj_endpoints : gmap EndpointId (option InstanceId);
  pj_resources : gset (EndpointId * str);
}.

(** The reads of [CenterProjectionRepository] the services make. *)
Class ProjectionReads (St E : Type) := {
  find_endpoint_projection : EndpointId → M St E (option CenterEndpointProjection);
  has_resource : EndpointId → str → M St E bool;
}.
Class ProjectionReadsLaws (St E : Type) `{ProjectionReads St E} := {
  projections : St → Projections;
  projections_ok : St → Prop;
  law_find_endpoint_projection endpoint s s' r :
    projections_ok s → find_endpoint_projection endpoint s = (s', r) →
    reads projections projections_ok
      (λ v x, x = mk_center_endpoint_projection endpoint <$> pj_endpoints v !! endpoint) s s' r;
  law_has_resource endpoint target s s' r :
    projections_ok s → has_resource endpoint target s = (s', r) →
    reads projections projections_ok
      (λ v x, x = bool_decide ((endpoint, target) ∈ pj_resources v)) s s' r;
}.

(** [CenterInbox], whose tables [SiteSync] describes. *)
Class InboxStore (St E : Type) := {
  inbox_store_insert : InboxEntry → M St E InboxInsertOutcome;
  inbox_store_advance : OperationId → InboxEvent → M St E ();
}.
Class InboxStoreLaws (St E : Type) `{InboxStore St E} := {
  inbox_entries : St → gmap OperationId InboxEntry;
  inbox_ok : St → Prop;
  law_inbox_insert e s s' r :
    Forall (λ x, is_scalar x = true) (ie_payload_json e) →
    inbox_ok s → inbox_store_insert e s = (s', r) →
    inbox_ok s' ∧
    match r with
    | Ok out => inbox_insert (inbox_entries s) e = (inbox_entries s', out)
    | Err _ => inbox_entries s' = inbox_entries s
    end;
  law_inbox_advance id ev s s' r :
    inbox_ok s → inbox_store_advance id ev s = (s', r) →
    writes inbox_entries inbox_ok
      (λ v v', ∃ out, inbox_advance v id ev = Some (v', out)) s s' r;
}.

(** ** The stores side by side *)

Record Center (Sop Sob Sac Spr Sin : Type) := mk_center {
  c_operations : Sop;
  c_outbox : Sob;
  c_accounts : Sac;
  c_projections : Spr;
  c_inbox : Sin;
}.
Arguments mk_center {Sop Sob Sac Spr Sin}.
Arguments c_operations {Sop Sob Sac Spr Sin}.
Arguments c_outbox {Sop Sob Sac Spr Sin}.
Arguments c_accounts {Sop Sob Sac Spr Sin}.
Arguments c_projections {Sop Sob Sac Spr Sin}.
Arguments c_inbox {Sop Sob Sac Spr Sin}.

(** The errors a call can end with. *)
Definition fails_with {S E A} (P : E → Prop) (m : M S E A) : Prop :=
  ∀ s s' x, m s = (s', Err x) → P x.

Lemma fails_ret {S E A} (P : E → Prop) (a : A) : fails_with P (mret a : M S E A).
Proof. intros s s' x [=]. Qed.
Lemma fails_lift {S E A} (P : E → Prop) (r : result A E) :
  (∀ x, r = Err x → P x) → fails_with P (mlift r : M S E A).
Proof. intros HP s s' x [= <- Hr]. auto. Qed.
Lemma fails_bind {S E A B} (P : E → Prop) (m : M S E A) (k : A → M S E B) :
  fails_with P m → (∀ a, fails_with P (k a)) → fails_with P (mbind m k).
Proof.
  intros Hm Hk s s' x Hrun. apply mbind_inv in Hrun as [(a & s1 & _ & Hrun)|(y & Hrun & [= ->])].
  - by eapply Hk. - by eapply Hm.
Qed.
Lemma fails_zoom {S T E F A} (get : S → T) (put : S → T → S) (err : E → F) (m : M T E A) (P : F → Prop) :
  (∀ x, P (err x)) → fails_with P (zoom get put err m).
Proof.
  intros HP s s' x Hrun. apply zoom_inv in Hrun as (t & r0 & _ & _ & Hr). destruct r0; simplify_eq/=. auto.
Qed.
Lemma fails_for {S E A} (P : E → Prop) (l : list A) (body : A → M S E ()) :
  (∀ a, fails_with P (body a)) → fails_with P (mfor l body).
Proof. intros Hb. induction l as [|a l IH]; [apply fails_ret|]. by apply fails_bind. Qed.
Lemma fails_traverse {S E A B} (P : E → Prop) (f : A → M S E B) (l : list A) :
  (∀ a, fails_with P (f a)) → fails_with P (mtraverse f l).
Proof.
  intros Hf. induction l as [|a l IH]; [apply fails_ret|]. apply fails_bind; [done|]. intros b.
  apply fails_bind; [done|]. intros bs. apply fails_ret.
Qed.

Create HintDb fails.
#[export] Hint Resolve fails_ret fails_lift fails_bind fails_zoom fails_for fails_traverse : fails.

(** What the center holds. *)
Record CenterView (Command : Type) := mk_center_view {
  cv_operations : View Command;
  cv_entries : Entries;
  cv_accounts : Accounts;
  cv_projections : Projections;
  cv_inbox : gmap OperationId InboxEntry;
}.
Arguments mk_center_view {Command}.
Arguments cv_operations {Command}.
Arguments cv_entries {Command}.
Arguments cv_accounts {Command}.
Arguments cv_projections {Command}.
Arguments cv_inbox {Command}.

Definition with_view {Command} (v : CenterView Command) (ops : View Command) : CenterView Command :=
  mk_center_view ops (cv_entries v) (cv_accounts v) (cv_projections v) (cv_inbox v).
Definition with_entries {Command} (v : CenterView Command) (es : Entries) : CenterView Command :=
  mk_center_view (cv_operations v) es (cv_accounts v) (cv_projections v) (cv_inbox v).
Definition with_inbox {Command} (v : CenterView Command) inbox : CenterView Command :=
  mk_center_view (cv_operations v) (cv_entries v) (cv_accounts v) (cv_projections v) inbox.

Section calls.
Context {Sop Sob Sac Spr Sin : Type}.
Abbreviation St := (Center Sop Sob Sac Spr Sin).

Definition put_operations (s : St) x : St :=
  mk_center x (c_outbox s) (c_accounts s) (c_projections s) (c_inbox s).
Definition put_outbox (s : St) x : St :=
  mk_center (c_operations s) x (c_accounts s) (c_projections s) (c_inbox s).
Definition put_accounts (s : St) x : St :=
  mk_center (c_operations s) (c_outbox s) x (c_projections s) (c_inbox s).
Definition put_projections (s : St) x : St :=
  mk_center (c_operations s) (c_outbox s) (c_accounts s) x (c_inbox s).
Definition put_inbox (s : St) x : St :=
  mk_center (c_operations s) (c_outbox s) (c_accounts s) (c_projections s) x.

Definition on_operations {E F A} (err : E → F) (m : M Sop E A) : M St F A :=
  zoom c_operations put_operations err m.
Definition on_outbox {E F A} (err : E → F) (m : M Sob E A) : M St F A :=
  zoom c_outbox put_outbox err m.
Definition on_accounts {E F A} (err : E → F) (m : M Sac E A) : M St F A :=
  zoom c_accounts put_accounts err m.
Definition on_projections {E F A} (err : E → F) (m : M Spr E A) : M St F A :=
  zoom c_projections put_projections err m.
Definition on_inbox {E F A} (err : E → F) (m : M Sin E A) : M St F A :=
  zoom c_inbox put_inbox err m.
End calls.

(** ** The calls, seen from the whole *)

Section laws.
Context {Command Sop Sob Sac Spr Sin Eop Eob Eac Epr Ein : Type}.
Context `{OperationStoreLaws Command Sop Eop} `{!EndpointListing Command Sop Eop}.
Context `{!EndpointListingLaws Command Sop Eop}.
Context `{EnvelopeJson} `{UuidText}.
Context `{!OutboxStore Sob Eob} `{!OutboxStoreLaws Sob Eob}.
Context `{AccountStoreLaws Sac Eac} `{ProjectionReadsLaws Spr Epr} `{InboxStoreLaws Sin Ein}.
Abbreviation St := (Center Sop Sob Sac Spr Sin).

Definition center_view (s : St) : CenterView Command :=
  mk_center_view (store_view (c_operations s)) (entries (c_outbox s)) (accounts (c_accounts s))
    (projections (c_projections s)) (inbox_entries (c_inbox s)).

Definition center_ok (s : St) : Prop :=
  store_ok (c_operations s) ∧ entries_ok (c_outbox s) ∧ accounts_ok (c_accounts s) ∧
  projections_ok (c_projections s) ∧ inbox_ok (c_inbox s).

Abbreviation center_reads P := (reads center_view center_ok P).
Abbreviation center_writes P := (writes center_view center_ok P).

Context {F : Type}.

(** A read of a part, by its law, is a read of the whole. *)
Ltac lift_read law :=
  let Hrun := fresh "Hrun" in let Hv := fresh "Hv" in let Hr := fresh "Hr" in let r0 := fresh "r0" in
  intros (? & ? & ? & ? & ?) Hrun; apply zoom_inv in Hrun as (? & r0 & Hrun & -> & ->);
  apply law in Hrun as (? & Hv & Hr); [|done];
  split; [done|]; split; [unfold center_view; simpl; by rewrite Hv|];
  intros ? ?; destruct r0; [|done]; by apply Hr; simplify_eq/=.

Lemma center_list_for_endpoint (err : Eop → F) f endpoint s s' r :
  center_ok s → on_operations err (store_list_for_endpoint f endpoint) s = (s', r) →
  center_reads (λ v l, ∀ o, o ∈ l ↔
    v_operations (cv_operations v) !! op_id o = Some o ∧ listed f o ∧ on_endpoint_of endpoint o) s s' r.
Proof. lift_read law_list_for_endpoint. Qed.

Lemma center_find_operation (err : Eop → F) id s s' r :
  center_ok s → on_operations err (store_find_operation id) s = (s', r) →
  center_reads (λ v x, x = v_operations (cv_operations v) !! id) s s' r.
Proof. lift_read law_find. Qed.

Lemma center_create_operation (err : Eop → F) o s s' r :
  center_ok s → timeline_ok o → on_operations err (store_create_operation o) s = (s', r) →
  center_writes (λ v v', v' = with_view v (view_create None (cv_operations v) o)) s s' r.
Proof.
  intros (Ho & Hb & Ha & Hp & Hi) Htl Hrun. apply zoom_inv in Hrun as (t & r0 & Hrun & -> & ->).
  apply law_create in Hrun as (Ht & Hv); [|done..]. split; [done|].
  destruct r0; unfold center_view, with_view; simpl; by rewrite Hv.
Qed.

Lemma center_record_kind (err : Eop → F) id k s s' r :
  center_ok s → on_operations err (store_record_failure_kind id k) s = (s', r) →
  center_writes (λ v v', is_Some (v_operations (cv_operations v) !! id) ∧
    v' = with_view v (mk_view (v_operations (cv_operations v)) (<[id := k]> (v_kinds (cv_operations v)))
           (v_batches (cv_operations v)) (v_batch_of (cv_operations v)))) s s' r.
Proof.
  intros (Ho & Hb & Ha & Hp & Hi) Hrun. apply zoom_inv in Hrun as (t & r0 & Hrun & -> & ->).
  apply law_record_kind in Hrun as (Ht & Hv); [|done]. split; [done|].
  destruct r0; unfold center_view, with_view; simpl in *; [|by rewrite Hv].
  destruct Hv as [? Hv]. by rewrite Hv.
Qed.

Lemma center_apply_transition (err : Eop → F) id new at_ s s' r :
  center_ok s → stamp_ok (store_view (c_operations s)) id at_ →
  on_operations err (store_apply_transition id new at_) s = (s', r) →
  center_writes (λ v v', ∃ ops, row_step (v_operations (cv_operations v)) id new at_ = Some ops ∧
    v' = with_view v (with_operations (cv_operations v) ops)) s s' r.
Proof.
  intros (Ho & Hb & Ha & Hp & Hi) Hst Hrun. apply zoom_inv in Hrun as (t & r0 & Hrun & -> & ->).
  apply law_apply in Hrun as (Ht & Hv); [|done..]. split; [done|].
  destruct r0; unfold center_view, with_view; simpl in *; [|by rewrite Hv].
  destruct Hv as (ops & Hops & Hv). exists ops. by rewrite Hv.
Qed.

Lemma center_list_pending (err : Eob → F) instance limit s s' r :
  center_ok s → on_outbox err (list_pending instance limit) s = (s', r) →
  center_reads (λ v l, l = take (Z.to_nat limit) (pending_of instance (cv_entries v))) s s' r.
Proof. lift_read law_list_pending. Qed.

Lemma center_find_offer (err : Eob → F) instance id s s' r :
  center_ok s → on_outbox err (find_offer_by_operation instance id) s = (s', r) →
  center_reads (λ v, finds_offer (cv_entries v) (λ e, oe_instance_id e = instance) id) s s' r.
Proof. lift_read law_find_offer. Qed.

Lemma center_find_offer_across (err : Eob → F) id s s' r :
  center_ok s → on_outbox err (find_offer_by_operation_across_instances id) s = (s', r) →
  center_reads (λ v, finds_offer (cv_entries v) (λ _, True) id) s s' r.
Proof. lift_read law_find_offer_across. Qed.

Lemma center_enqueue (err : Eob → F) entry_id instance message at_ s s' r :
  center_ok s → on_outbox err (enqueue entry_id instance message at_) s = (s', r) →
  center_ok s' ∧
  match r with
  | Ok e => ∃ es, enqueued entry_id instance message at_ (cv_entries (center_view s)) es e ∧
                  center_view s' = with_entries (center_view s) es
  | Err _ => center_view s' = center_view s
  end.
Proof.
  intros (Ho & Hb & Ha & Hp & Hi) Hrun. apply zoom_inv in Hrun as (t & r0 & Hrun & -> & ->).
  apply law_enqueue in Hrun as (Ht & Hv); [|done]. split; [done|].
  destruct r0; unfold center_view; simpl in *; [by eexists|by rewrite Hv].
Qed.

Lemma center_acknowledge (err : Eob → F) id at_ s s' r :
  center_ok s → (∀ e, cv_entries (center_view s) !! id = Some e → oe_created_at e <= at_) →
  on_outbox err (acknowledge id at_) s = (s', r) →
  center_writes (λ v v', ∃ es, acknowledged id at_ (cv_entries v) es ∧ v' = with_entries v es) s s' r.
Proof.
  intros (Ho & Hb & Ha & Hp & Hi) Hat Hrun. apply zoom_inv in Hrun as (t & r0 & Hrun & -> & ->).
  apply law_acknowledge in Hrun as (Ht & Hv); [|done..]. split; [done|].
  destruct r0; unfold center_view, with_entries; simpl in *; [by eexists|by rewrite Hv].
Qed.

Lemma center_find_role (err : Eac → F) id s s' r :
  center_ok s → on_accounts err (find_role_assignment id) s = (s', r) →
  center_reads (λ v x, x = ac_roles (cv_accounts v) !! id) s s' r.
Proof. lift_read law_find_role. Qed.

Lemma center_find_projection (err : Epr → F) endpoint s s' r :
  center_ok s → on_projections err (find_endpoint_projection endpoint) s = (s', r) →
  center_reads (λ v x, x = mk_center_endpoint_projection endpoint <$>
    pj_endpoints (cv_projections v) !! endpoint) s s' r.
Proof. lift_read law_find_endpoint_projection. Qed.

Lemma center_has_resource (err : Epr → F) endpoint target s s' r :
  center_ok s → on_projections err (has_resource endpoint target) s = (s', r) →
  center_reads (λ v x, x = bool_decide ((endpoint, target) ∈ pj_resources (cv_projections v))) s s' r.
Proof. lift_read law_has_resource. Qed.
End laws.

(** ** What the binding flow asks of its store

    The boundaries [InstanceRepository] and [CenterBindingRepository] of
    [application/src/center/binding.rs], with the revocation the runtime adds, and
    what they promise over the bindings by id. *)

Abbreviation Bindings := (gmap CenterBindingId CenterBinding).
Implicit Types (v : Bindings) (b : CenterBinding).

(** Pending and bound bindings are active. *)
Definition is_active_binding b : Prop := cb_state b ≠ BindingRevoked.
#[export] Instance is_active_binding_dec b : Decision (is_active_binding b).
Proof. unfold is_active_binding. apply _. Defined.

Definition bound_to (fp : CertificateFingerprint) b : Prop :=
  cb_state b = BindingBound ∧ cb_site_cert_fingerprint b = Some fp.

Definition fingerprint_ok (fp : CertificateFingerprint) : Prop :=
  length fp = FINGERPRINT_LENGTH ∧ byte_string fp.

Inductive RevokeOutcome := Revoked | AlreadyRevoked.

(** What a revocation does to a binding. *)
Definition revocation v (id : CenterBindingId) v' (out : RevokeOutcome) : Prop :=
  ∃ b, v !! id = Some b ∧
  match out with
  | Revoked => (revoke b).2 = Ok () ∧ v' = <[id := (revoke b).1]> v
  | AlreadyRevoked => cb_state b = BindingRevoked ∧ v' = v
  end.

(** A consumption of a code: the row was pending under this code, not expired,
    and no other bound row carries the fingerprint. *)
Definition consumption (sha256 : list N → list N) v (id : CenterBindingId) (code : str)
    (fp : option CertificateFingerprint) (now : OffsetDateTime) v' : Prop :=
  ∃ b, v !! id = Some b ∧ verify_code sha256 b code now = Ok () ∧ v' = <[id := (bind b fp now).1]> v ∧
  ∀ f, fp = Some f → ∀ k c, v !! k = Some c → bound_to f c → k = id.

(** A registration: a new row for a site with no active one. *)
Definition registration v b v' : Prop :=
  v !! cb_id b = None ∧ v' = <[cb_id b := b]> v ∧
  ∀ k c, v !! k = Some c → is_active_binding c → cb_site_instance_id c ≠ cb_site_instance_id b.

(** The newest binding of a fingerprint. *)
Definition newest_of (fp : CertificateFingerprint) v (x : option CenterBinding) : Prop :=
  match x with
  | Some b => v !! cb_id b = Some b ∧ cb_site_cert_fingerprint b = Some fp ∧
      ∀ k c, v !! k = Some c → cb_site_cert_fingerprint c = Some fp → cb_created_at c <= cb_created_at b
  | None => ∀ k c, v !! k = Some c → cb_site_cert_fingerprint c ≠ Some fp
  end.

(** The oldest pending binding under a code hash. *)
Definition outstanding (hash : list N) b : Prop :=
  cb_state b = BindingPending ∧ cb_binding_code_hash b = Some hash.
Definition oldest_outstanding (hash : list N) v (x : option CenterBinding) : Prop :=
  match x with
  | Some b => v !! cb_id b = Some b ∧ outstanding hash b ∧
      ∀ k c, v !! k = Some c → outstanding hash c → cb_created_at b <= cb_created_at c
  | None => ∀ k c, v !! k = Some c → ¬ outstanding hash c
  end.

Class BindingStore (St Ei Eb : Type) := {
  create_instance : SiteInstance → M St Ei ();
  create_binding : CenterBinding → M St Eb ();
  find_pending_binding_by_code_hash : list N → M St Eb (option CenterBinding);
  bind_with_code : CenterBindingId → str → option CertificateFingerprint → OffsetDateTime → M St Eb ();
  find_binding_by_site_fingerprint : CertificateFingerprint → M St Eb (option CenterBinding);
  revoke_binding : CenterBindingId → M St Eb RevokeOutcome;
}.

Class BindingStoreLaws (sha256 : list N → list N) (St Ei Eb : Type) `{BindingStore St Ei Eb} := {
  bindings : St → Bindings;
  bindings_ok : St → Prop;
  law_bindings_keyed s id b : bindings_ok s → bindings s !! id = Some b → cb_id b = id;
  law_create_instance i s s' r :
    bindings_ok s → create_instance i s = (s', r) → bindings_ok s' ∧ bindings s' = bindings s;
  law_create_binding b s s' r :
    bindings_ok s → binding_inv b → cb_site_cert_fingerprint b = None →
    create_binding b s = (s', r) →
    writes bindings bindings_ok (λ v v', registration v b v') s s' r;
  law_find_pending hash s s' r :
    bindings_ok s → find_pending_binding_by_code_hash hash s = (s', r) →
    reads bindings bindings_ok (oldest_outstanding hash) s s' r;
  law_bind_with_code id code fp now s s' r :
    bindings_ok s → (∀ b, bindings s !! id = Some b → cb_created_at b <= now) →
    (∀ f, fp = Some f → fingerprint_ok f) →
    bind_with_code id code fp now s = (s', r) →
    writes bindings bindings_ok (λ v v', consumption sha256 v id code fp now v') s s' r;
  law_find_by_fingerprint fp s s' r :
    bindings_ok s → fingerprint_ok fp → find_binding_by_site_fingerprint fp s = (s', r) →
    reads bindings bindings_ok (newest_of fp) s s' r;
  law_revoke_binding id s s' r :
    bindings_ok s → revoke_binding id s = (s', r) →
    bindings_ok s' ∧ match r with
                     | Ok out => revocation (bindings s) id (bindings s') out
                     | Err _ => bindings s' = bindings s
                     end;
}.

(** ** What the projections of a center promise

    The values and the write boundary of [application/src/center/projection.rs]. *)

Inductive CenterTrustMode := TrustSystemCa | TrustPinnedCertificate.
#[export] Instance CenterTrustMode_eq_dec : EqDecision CenterTrustMode.
Proof. solve_decision. Defined.

(** [refresh_generation] is a [u64]. *)
Record EndpointProjectionWrite := mk_endpoint_write {
  ew_endpoint_id : EndpointId;
  ew_display_name : str;
  ew_address : str;
  ew_trust_mode : CenterTrustMode;
  ew_refresh_generation : Z;
  ew_health : str;
}.

Record ResourceProjectionWrite := mk_resource_write {
  rw_endpoint_id : EndpointId;
  rw_odata_id : str;
  rw_feature : ResourceFeature;
  rw_odata_type : option str;
  rw_etag : option str;
  rw_generation : Z;
  rw_payload : option str;
  rw_observed_at : OffsetDateTime;
}.

Inductive ProjectionIgnoreReason :=
| EndpointBelongsToOtherSite | AddressAlreadyProjected | UnknownEndpoint | StaleGeneration.
#[export] Instance ProjectionIgnoreReason_eq_dec : EqDecision ProjectionIgnoreReason.
Proof. solve_decision. Defined.

Inductive ProjectionWriteOutcome := Applied | Ignored (reason : ProjectionIgnoreReason).
#[export] Instance ProjectionWriteOutcome_eq_dec : EqDecision ProjectionWriteOutcome.
Proof. solve_decision. Defined.
