(* ===== verification/InboxRepository.v ===== *)
(** * InboxRepository: the SQLite rows of the inbox

    Models [persistence/src/center_inbox_repository.rs] over the entity of
    [entity/src/center_inbox.rs], and discharges [InboxStoreLaws]: one row per
    operation, decided by the unique text of its id, moved by a guarded update. *)
From S2P Require Import Prelude Text Operation CenterDomain CommandCipher LinkMessages Database SiteSync CenterStores.
Local Open Scope Z_scope.

Record inbox_model := mk_inbox_model {
  im_id : Uuid;
  im_operation_id : str;
  im_instance_id : Uuid;
  im_payload_json : str;
  im_state : str;
  im_expires_at : OffsetDateTime;
  im_received_at : OffsetDateTime;
}.

Abbreviation InboxTable := (gmap Uuid inbox_model).

Inductive StoredCenterInboxError :=
| InboxInvalidOperationId
| InboxInvalidState
| InboxInvalidPayloadCiphertext (source : CommandProtectionError).

Inductive CenterInboxRepositoryError :=
| InboxCoordinate
| InboxKeyMissing
| InboxPayloadProtection (source : CommandProtectionError)
| InboxNotFound (operation_id : OperationId)
| InboxStateConflict (operation_id : OperationId) (event : InboxEvent) (current : InboxEntryState)
| InboxCorrupt (entry_id : InboxEntryId) (source : StoredCenterInboxError)
| InboxDatabase.

#[export] Instance inbox_errors : DbErrors CenterInboxRepositoryError :=
  { err_coordinate := InboxCoordinate; err_database := InboxDatabase }.

Inductive StoredInboxPayloadError :=
| InboxPayloadKeyMissing
| InboxPayloadProtected (source : CommandProtectionError).

Section repository.
Context (env : Env) {Key : Type} `{CipherSuite Key} `{UuidText}.
Context (command_key : option Key).
Abbreviation Repo := (M (World InboxTable) CenterInboxRepositoryError).

Definition inbox_command_key : Repo Key := mlift (ok_or command_key InboxKeyMissing).

Definition protect_inbox_payload (operation_id : OperationId) (plaintext : str) : Repo str :=
  let! master_key := inbox_command_key in
  let! random := draw env in
  mlift (map_err InboxPayloadProtection
    (encrypt_command random master_key (into_bytes operation_id) plaintext)).

Definition recover_inbox_payload (operation_id : OperationId) (stored : str)
    : result str StoredInboxPayloadError :=
  if starts_with COMMAND_CIPHER_ENVELOPE_PREFIX stored then
    let? master_key := ok_or command_key InboxPayloadKeyMissing in
    map_err InboxPayloadProtected (decrypt_command master_key (into_bytes operation_id) stored)
  else Ok stored.

Definition map_stored_inbox_entry (entry_id : InboxEntryId) (m : inbox_model)
    : result InboxEntry CenterInboxRepositoryError :=
  let? operation_id := ok_or (parse_uuid (im_operation_id m)) (InboxCorrupt entry_id InboxInvalidOperationId) in
  let? payload_json := map_err (λ e, match e with
      | InboxPayloadKeyMissing => InboxKeyMissing
      | InboxPayloadProtected source => InboxCorrupt entry_id (InboxInvalidPayloadCiphertext source)
      end) (recover_inbox_payload operation_id (im_payload_json m)) in
  let? state := map_err (λ _, InboxCorrupt entry_id InboxInvalidState)
                  (InboxEntryState_from_str (im_state m)) in
  Ok (mk_inbox_entry entry_id operation_id (im_instance_id m) payload_json state
        (im_expires_at m) (im_received_at m)).

(** The row of an operation, by the text of its id. *)
Definition by_operation (operation_id : OperationId) (t : InboxTable) : option inbox_model :=
  find_row (λ m, im_operation_id m = show_uuid operation_id) t.

Definition inbox_row (e : InboxEntry) (payload_json : str) : inbox_model :=
  mk_inbox_model (ie_id e) (show_uuid (ie_operation_id e)) (ie_instance_id e) payload_json
    (InboxEntryState_as_str (ie_state e)) (ie_expires_at e) (ie_received_at e).

(** [insert_inbox_entry]: the identity and the operation id are unique. *)
Definition insert_inbox_entry (e : InboxEntry) (payload_json : str) : Repo () :=
  statement env (λ t,
    if decide (map_Forall (λ _ m, im_operation_id m ≠ show_uuid (ie_operation_id e)) t)
    then (λ t, (t, ())) <$> insert_new t (ie_id e) (inbox_row e payload_json)
    else None).

Definition sqlite_create_inbox_entry (e : InboxEntry) : Repo InboxInsertOutcome :=
  do! inbox_command_key in
  do! acquire env in
  transaction env (
    let! existing := select env (by_operation (ie_operation_id e)) in
    match existing with
    | Some m =>
        let! stored := mlift (map_stored_inbox_entry (im_id m) m) in
        mret (match decide_inbox_duplicate (Some (ie_state stored)) with
              | Proceed => InboxCreated
              | InProgress => DuplicateInProgress
              | AlreadyResolved state => DuplicateResolved state
              end)
    | None =>
        let! payload_json := protect_inbox_payload (ie_operation_id e) (ie_payload_json e) in
        do! insert_inbox_entry e payload_json in
        mret InboxCreated
    end).

Definition sqlite_find_inbox_entry_by_operation (operation_id : OperationId) : Repo (option InboxEntry) :=
  let! found := select env (by_operation operation_id) in
  match found with
  | None => mret None
  | Some m => let! e := mlift (map_stored_inbox_entry (im_id m) m) in mret (Some e)
  end.

Definition with_inbox_row_state (m : inbox_model) (state : InboxEntryState) : inbox_model :=
  mk_inbox_model (im_id m) (im_operation_id m) (im_instance_id m) (im_payload_json m)
    (InboxEntryState_as_str state) (im_expires_at m) (im_received_at m).

(** The rows the guarded [UPDATE] of an event moves. *)
Definition moves (operation_id : OperationId) (event : InboxEvent) (m : inbox_model) : Prop :=
  im_operation_id m = show_uuid operation_id ∧ im_state m = InboxEntryState_as_str (from_state event).
#[export] Instance moves_dec operation_id event m : Decision (moves operation_id event m).
Proof. unfold moves. apply _. Defined.

(** The [UPDATE]; the answer counts the rows. *)
Definition update_inbox (operation_id : OperationId) (event : InboxEvent) (t : InboxTable) : InboxTable * Z :=
  ((λ m, if decide (moves operation_id event m) then with_inbox_row_state m (to_state event) else m) <$> t,
   Z.of_nat (size (filter (λ kv : Uuid * inbox_model, moves operation_id event kv.2) t))).

Definition sqlite_advance_inbox_entry (operation_id : OperationId) (event : InboxEvent)
    : Repo InboxAdvanceOutcome :=
  do! acquire env in
  transaction env (
    let! affected := statement env (λ t, Some (update_inbox operation_id event t)) in
    if decide (affected = 1) then mret (Advanced (to_state event))
    else
      let! found := select env (by_operation operation_id) in
      let! m := mlift (ok_or found (InboxNotFound operation_id)) in
      let! stored := mlift (map_stored_inbox_entry (im_id m) m) in
      if decide (ie_state stored = to_state event) then mret AlreadyInState
      else mfail (InboxStateConflict operation_id event (ie_state stored))).

(** [impl CenterInbox for SqliteStore]. *)
Instance sqlite_inbox : InboxStore (World InboxTable) CenterInboxRepositoryError := {
  inbox_store_insert := sqlite_create_inbox_entry;
  inbox_store_advance operation_id event :=
    let! _ := sqlite_advance_inbox_entry operation_id event in mret ();
}.
End repository.

(** ** The rows as entries *)

Section laws.
Context (env : Env) {Key : Type} `{CipherSuiteLaws Key} `{UuidText}.
Context (command_key : option Key).
Hypothesis Hrandom : ∀ n, random_ok (env_random env n).
Implicit Types (w : World InboxTable) (t : InboxTable) (m : inbox_model) (e : InboxEntry) (id : Uuid).

(** A row is sound when it maps to an entry and its id is in the text form the
    lookups ask for. *)
Definition inbox_of id m : option InboxEntry :=
  match map_stored_inbox_entry command_key id m with
  | Ok e => if decide (im_id m = id ∧ im_operation_id m = show_uuid (ie_operation_id e)) then Some e else None
  | Err _ => None
  end.

(** The unique index. *)
Definition inbox_unique t : Prop :=
  ∀ id m id' m', t !! id = Some m → t !! id' = Some m' → im_operation_id m = im_operation_id m' → id = id'.

Definition inbox_view t : gmap OperationId InboxEntry :=
  list_to_map ((λ e, (ie_operation_id e, e)) <$> (map_to_list (decoded inbox_of t)).*2).

Abbreviation view := (λ w, inbox_view (w_db w)).
Abbreviation ok := (λ w, decodable inbox_of (w_db w) ∧ inbox_unique (w_db w)).

Lemma inbox_of_inv id m e :
  inbox_of id m = Some e →
  map_stored_inbox_entry command_key id m = Ok e ∧ im_id m = id ∧ ie_id e = id ∧
  im_operation_id m = show_uuid (ie_operation_id e) ∧ InboxEntryState_as_str (ie_state e) = im_state m.
Proof.
  unfold inbox_of. destruct (map_stored_inbox_entry _ _ _) as [x|] eqn:Hm; [|done].
  case_decide as Hd; [|done]. intros [= <-]. destruct Hd as [Hid Ho]. split; [done|]. split; [done|].
  unfold map_stored_inbox_entry in Hm. inv_ok.
  match goal with Hs : InboxEntryState_from_str _ = Ok ?st |- _ =>
    pose proof (code_parse_sound (T := InboxEntryState) (im_state m) st Hs) as Hst end.
  simplify_eq/=. split; [done|]. split; [done|]. by rewrite Hst.
Qed.

Lemma inbox_view_lookup t o e :
  decodable inbox_of t → inbox_unique t →
  inbox_view t !! o = Some e ↔ ∃ id m, t !! id = Some m ∧ inbox_of id m = Some e ∧ ie_operation_id e = o.
Proof.
  intros Hok Hu. unfold inbox_view.
  assert (∀ e, e ∈ (map_to_list (decoded inbox_of t)).*2 ↔ ∃ id m, t !! id = Some m ∧ inbox_of id m = Some e) as Hin.
  { intros f. rewrite list_elem_of_fmap. split.
    - intros ([id x] & -> & Hx). apply elem_of_map_to_list in Hx. rewrite decoded_lookup in Hx.
      apply bind_Some in Hx as (m & Hm & Hx). by exists id, m.
    - intros (id & m & Hm & Hf). exists (id, f). split; [done|]. apply elem_of_map_to_list. by rewrite decoded_lookup, Hm. }
  rewrite <- elem_of_list_to_map.
  - rewrite list_elem_of_fmap. split.
    + intros (f & [= -> ->] & Hf). apply Hin in Hf as (id & m & Hm & Hf). by exists id, m.
    + intros (id & m & Hm & He & <-). exists e. split; [done|]. apply Hin. by exists id, m.
  - rewrite <- list_fmap_compose. apply NoDup_fmap_2_strong.
    + intros x y Hx Hy Hxy. simpl in Hxy. apply Hin in Hx as (id & m & Hm & Hx), Hy as (id' & m' & Hm' & Hy).
      pose proof (inbox_of_inv _ _ _ Hx) as (_ & _ & _ & Ho & _). pose proof (inbox_of_inv _ _ _ Hy) as (_ & _ & _ & Ho' & _).
      assert (id = id') as -> by (eapply Hu; [exact Hm|exact Hm'|congruence]). congruence.
    + apply NoDup_fmap_2_strong; [|apply NoDup_map_to_list].
      intros [i x] [j y] Hi Hj ?. simpl in *. subst y. apply elem_of_map_to_list in Hi, Hj.
      rewrite decoded_lookup in Hi, Hj. apply bind_Some in Hi as (m & _ & Hi), Hj as (m' & _ & Hj).
      apply inbox_of_inv in Hi as (_ & _ & Hi & _), Hj as (_ & _ & Hj & _). congruence.
Qed.

Lemma by_operation_spec t o :
  decodable inbox_of t → inbox_unique t →
  match by_operation o t with
  | Some m => ∃ e, t !! im_id m = Some m ∧ inbox_of (im_id m) m = Some e ∧ inbox_view t !! o = Some e
  | None => inbox_view t !! o = None
  end.
Proof.
  intros Hok Hu. unfold by_operation. destruct (find_row _ t) as [m|] eqn:Hf.
  - apply find_row_Some in Hf as (Ho & id & Hm). destruct (Hok _ _ Hm) as [e He].
    pose proof (inbox_of_inv _ _ _ He) as (_ & Hid & _ & Ho' & _). rewrite Hid. exists e.
    split; [done|]. split; [done|]. apply inbox_view_lookup; [done|done|]. exists id, m.
    split; [done|]. split; [done|]. apply show_uuid_inj. congruence.
  - apply eq_None_not_Some. intros [e (id & m & Hm & He & <-)%inbox_view_lookup]; [|done..].
    apply find_row_None in Hf. apply (Hf _ _ Hm). by apply inbox_of_inv in He as (_ & _ & _ & ? & _).
Qed.

Lemma protect_inbox_recover o plaintext protected w w' :
  protect_inbox_payload env command_key o plaintext w = (w', Ok protected) →
  Forall (λ x, is_scalar x = true) plaintext →
  w_db w' = w_db w ∧ recover_inbox_payload command_key o protected = Ok plaintext.
Proof.
  unfold protect_inbox_payload, inbox_command_key. intros Hrun Hs.
  apply mbind_ok in Hrun as (key & w1 & Hk & Hrun). injection Hk as <- Hk.
  apply mbind_ok in Hrun as (random & w2 & Hd & Hrun). injection Hd as <- <-.
  injection Hrun as <- He. split; [done|]. inv_ok.
  destruct command_key as [k|]; simplify_eq/=.
  destruct (command_envelope_roundtrip _ _ _ _ _ (Hrandom _) Hs He) as [Hdec Hp].
  unfold recover_inbox_payload. rewrite Hp. simpl. by rewrite Hdec.
Qed.

Lemma inbox_state_str st : InboxEntryState_from_str (InboxEntryState_as_str st) = Ok st.
Proof. exact (code_parse_str (T := InboxEntryState) st). Qed.

Lemma inbox_row_sound e protected :
  recover_inbox_payload command_key (ie_operation_id e) protected = Ok (ie_payload_json e) →
  inbox_of (ie_id e) (inbox_row e protected) = Some e.
Proof.
  intros Hr. assert (map_stored_inbox_entry command_key (ie_id e) (inbox_row e protected) = Ok e) as Hm.
  { unfold map_stored_inbox_entry, inbox_row. cbn [im_operation_id im_payload_json im_state im_instance_id
      im_expires_at im_received_at]. rewrite parse_show. simpl. rewrite Hr. simpl.
    rewrite inbox_state_str. simpl. by destruct e. }
  unfold inbox_of. rewrite Hm. by rewrite decide_True.
Qed.

(** A new row is a new entry. *)
Lemma insert_inbox_view t t' e protected :
  decodable inbox_of t → inbox_unique t →
  recover_inbox_payload command_key (ie_operation_id e) protected = Ok (ie_payload_json e) →
  map_Forall (λ _ m, im_operation_id m ≠ show_uuid (ie_operation_id e)) t →
  insert_new t (ie_id e) (inbox_row e protected) = Some t' →
  decodable inbox_of t' ∧ inbox_unique t' ∧ inbox_view t' = <[ie_operation_id e := e]> (inbox_view t).
Proof.
  intros Hok Hu Hr Hfree Hnew. pose proof (inbox_row_sound _ _ Hr) as He.
  pose proof (insert_new_decoded _ _ _ _ _ _ Hok He Hnew) as [Hok' _].
  apply insert_new_Some in Hnew as [Hnone ->].
  assert (inbox_unique (<[ie_id e := inbox_row e protected]> t)) as Hu'.
  { intros id m id' m' Hm Hm' Hmm. apply lookup_insert_Some in Hm as [[<- <-]|[_ Hm]], Hm' as [[<- <-]|[_ Hm']]; [done|..].
    - by destruct (Hfree _ _ Hm'). - by destruct (Hfree _ _ Hm). - by eapply Hu. }
  split; [done|]. split; [done|]. apply map_eq. intros o. apply option_eq. intros f.
  rewrite inbox_view_lookup by done. rewrite lookup_insert_Some, inbox_view_lookup by done. split.
  - intros (id & m & [[<- <-]|[Hne Hm]]%lookup_insert_Some & Hf & Hfo); [left; naive_solver|].
    right. split; [|by exists id, m]. intros Heo. apply (Hfree _ _ Hm).
    apply inbox_of_inv in Hf as (_ & _ & _ & -> & _). congruence.
  - intros [[<- <-]|(_ & id & m & Hm & Hf & <-)].
    + exists (ie_id e), (inbox_row e protected). by rewrite lookup_insert_eq.
    + exists id, m. split; [|done]. apply lookup_insert_Some. right. split; [|done]. congruence.
Qed.

Lemma insert_inbox_refines e w w' r :
  Forall (λ x, is_scalar x = true) (ie_payload_json e) → ok w →
  sqlite_create_inbox_entry env command_key e w = (w', r) →
  ok w' ∧ match r with
          | Ok out => inbox_insert (view w) e = (view w', out)
          | Err _ => view w' = view w
          end.
Proof.
  intros Hsc Hok Hrun. unfold sqlite_create_inbox_entry in Hrun.
  apply mbind_inv in Hrun as [(key & w0 & Hk & Hrun)|(x & Hk & ->)]; injection Hk as -> Hk; [|done].
  apply gated_write in Hrun as [(x & -> & ->)|(out & w1 & w2 & -> & Hw1 & Hbody & ->)]; [done|].
  rewrite <- Hw1 in Hok |- *. clear Hw1. destruct Hok as [Hok Hu].
  apply mbind_ok in Hbody as (found & w3 & Hs & Hbody). apply select_ok in Hs as [Hdb3 ->].
  pose proof (by_operation_spec _ (ie_operation_id e) Hok Hu) as Hby. unfold inbox_insert.
  destruct (by_operation _ _) as [m|] eqn:Hfind.
  - destruct Hby as (stored & Hm & Hst & ->).
    apply mbind_ok in Hbody as (stored' & w4 & Hl & Hbody). injection Hl as <- Hl. injection Hbody as <- <-.
    rewrite Hdb3. split; [done|]. apply inbox_of_inv in Hst as (Hst & _). assert (stored' = stored) as -> by congruence. done.
  - rewrite Hby. apply mbind_ok in Hbody as (protected & w4 & Hp & Hbody).
    apply protect_inbox_recover in Hp as [Hdb4 Hr]; [|done].
    apply mbind_ok in Hbody as ([] & w5 & Hins & Hbody). injection Hbody as <- <-.
    unfold insert_inbox_entry in Hins. apply statement_ok in Hins. rewrite Hdb4, Hdb3 in Hins.
    case_decide as Hfree; [|done]. apply fmap_Some in Hins as (t' & Hnew & [= ->]).
    by destruct (insert_inbox_view _ _ _ _ Hok Hu Hr Hfree Hnew) as (? & ? & ->).
Qed.

(** The guarded update moves the row of the operation and no other. *)
Lemma update_inbox_found t o event m :
  inbox_unique t → t !! im_id m = Some m → im_operation_id m = show_uuid o →
  update_inbox o event t =
  if decide (im_state m = InboxEntryState_as_str (from_state event))
  then (<[im_id m := with_inbox_row_state m (to_state event)]> t, 1) else (t, 0).
Proof.
  intros Hu Hm Ho. unfold update_inbox.
  assert (∀ k x, t !! k = Some x → im_operation_id x = show_uuid o → k = im_id m ∧ x = m) as Hsame.
  { intros k x Hx Hxo. assert (k = im_id m) as -> by (eapply Hu; [exact Hx|exact Hm|congruence]).
    split; [done|congruence]. }
  case_decide as Hst.
  - assert (filter (λ kv : Uuid * inbox_model, moves o event kv.2) t = {[im_id m := m]}) as ->.
    { apply map_eq. intros k. apply option_eq. intros x. rewrite map_lookup_filter_Some, lookup_singleton_Some. simpl. split.
      - intros [Hx [Hxo _]]. by destruct (Hsame _ _ Hx Hxo) as [-> ->].
      - by intros [<- <-]. }
    rewrite map_size_singleton. f_equal. apply map_eq. intros k. rewrite lookup_fmap.
    destruct (decide (k = im_id m)) as [->|Hne].
    + rewrite Hm, lookup_insert_eq. simpl. by rewrite decide_True.
    + rewrite lookup_insert_ne by done. destruct (t !! k) as [x|] eqn:Hx; [|done]. simpl.
      rewrite decide_False; [done|]. intros [Hxo _]. by destruct (Hsame _ _ Hx Hxo).
  - assert (∀ k x, t !! k = Some x → ¬ moves o event x) as Hno.
    { intros k x Hx [Hxo Hxs]. by destruct (Hsame _ _ Hx Hxo) as [-> ->]. }
    rewrite map_empty_filter_2 by (intros k x Hx; apply (Hno k x Hx)). rewrite map_size_empty.
    f_equal. rewrite <- (map_fmap_id t) at 2. apply map_fmap_ext. intros k x Hx. simpl. by rewrite decide_False by eauto.
Qed.

Lemma update_inbox_absent t o event :
  map_Forall (λ _ m, im_operation_id m ≠ show_uuid o) t → update_inbox o event t = (t, 0).
Proof.
  intros Hn. unfold update_inbox.
  rewrite map_empty_filter_2 by (intros k x Hx [Ho _]; by apply (Hn k x Hx)). rewrite map_size_empty.
  f_equal. rewrite <- (map_fmap_id t) at 2. apply map_fmap_ext. intros k x Hx. simpl.
  rewrite decide_False; [done|]. intros [Ho _]. by apply (Hn k x Hx).
Qed.

Lemma moved_row_sound id m e state :
  inbox_of id m = Some e → inbox_of id (with_inbox_row_state m state) = Some (with_inbox_state e state).
Proof.
  intros (Hm & Hid & _ & Ho & _)%inbox_of_inv. unfold inbox_of, map_stored_inbox_entry in *. simpl.
  destruct (parse_uuid _) as [o|]; [|done]. simpl in *.
  destruct (recover_inbox_payload _ _ _); simpl in *; [|done].
  rewrite inbox_state_str. simpl.
  destruct (InboxEntryState_from_str _); simplify_eq/=. by rewrite decide_True.
Qed.

Lemma move_inbox_view t o event m e :
  decodable inbox_of t → inbox_unique t → t !! im_id m = Some m → inbox_of (im_id m) m = Some e →
  ie_operation_id e = o → inbox_of (im_id m) (with_inbox_row_state m event) = Some (with_inbox_state e event) →
  let t' := <[im_id m := with_inbox_row_state m event]> t in
  decodable inbox_of t' ∧ inbox_unique t' ∧ inbox_view t' = <[o := with_inbox_state e event]> (inbox_view t).
Proof.
  intros Hok Hu Hm He <- He' t'. pose proof (decodable_insert _ _ _ _ _ Hok He') as Hok'.
  assert (inbox_unique t') as Hu'.
  { assert (∀ k x, t' !! k = Some x → ∃ y, t !! k = Some y ∧ im_operation_id y = im_operation_id x) as Hback.
    { intros k x [[<- <-]|[_ Hx]]%lookup_insert_Some; [by exists m|by exists x]. }
    intros id x id' y (x' & Hx & Hxo)%Hback (y' & Hy & Hyo)%Hback Hxy. eapply Hu; [exact Hx|exact Hy|congruence]. }
  split; [done|]. split; [done|]. apply map_eq. intros o. apply option_eq. intros f.
  rewrite inbox_view_lookup by done. rewrite lookup_insert_Some, inbox_view_lookup by done. split.
  - intros (id & x & [[<- <-]|[Hne Hx]]%lookup_insert_Some & Hf & Hfo); [left; naive_solver|].
    right. split; [|by exists id, x]. intros Heo. apply Hne. eapply Hu; [exact Hm|exact Hx|].
    apply inbox_of_inv in Hf as (_ & _ & _ & -> & _), He as (_ & _ & _ & -> & _). congruence.
  - intros [[<- <-]|(Hne & id & x & Hx & Hf & <-)].
    + exists (im_id m), (with_inbox_row_state m event). split; [apply lookup_insert_eq|]. done.
    + exists id, x. split; [|done]. apply lookup_insert_Some. right. split; [|done]. intros <-. apply Hne. congruence.
Qed.

Lemma advance_inbox_refines o event w w' r :
  ok w → mbind (sqlite_advance_inbox_entry env command_key o event) (λ _, mret ()) w = (w', r) →
  writes view ok (λ v v', ∃ out, inbox_advance v o event = Some (v', out)) w w' r.
Proof.
  intros Hok Hrun. unfold writes. cbv beta in *.
  apply mbind_inv in Hrun as [(outcome & w0 & Hrun & Hret)|(x & Hrun & ->)];
    [injection Hret as <- <-|]; unfold sqlite_advance_inbox_entry in Hrun;
    apply gated_write in Hrun as [(x' & [=] & Hw)|(out & w1 & w2 & [=] & Hw1 & Hbody & Hw)];
    [|by rewrite Hw].
  rewrite <- Hw1 in Hok |- *. rewrite Hw. clear Hw1 Hw. destruct Hok as [Hok Hu].
  apply mbind_ok in Hbody as (affected & w3 & Hup & Hbody). apply statement_ok in Hup. apply (inj Some) in Hup.
  pose proof (by_operation_spec _ o Hok Hu) as Hby. unfold inbox_advance. destruct (by_operation o _) as [m|] eqn:Hf.
  - destruct Hby as (e & Hm & He & Hv). rewrite Hv.
    pose proof He as Hinv. apply inbox_of_inv in Hinv as (Hload & _ & _ & _ & Hes).
    pose proof Hf as (Ho & _)%find_row_Some.
    rewrite (update_inbox_found _ _ _ _ Hu Hm Ho) in Hup.
    assert (im_state m = InboxEntryState_as_str (from_state event) ↔ ie_state e = from_state event) as Hiff.
    { rewrite <- Hes. split; [|by intros ->]. intros Heq. pose proof (inbox_state_str (ie_state e)) as Hx.
      rewrite Heq, inbox_state_str in Hx. congruence. }
    destruct (decide (im_state m = _)) as [Hd|Hd]; injection Hup as Hdb <-.
    + apply Hiff in Hd. rewrite (decide_True _ _ Hd). rewrite decide_True in Hbody by done. injection Hbody as <- _.
      rewrite <- Hdb.
      assert (ie_operation_id e = o) as Heo.
      { apply inbox_of_inv in He as (_ & _ & _ & He & _). apply show_uuid_inj. congruence. }
      destruct (move_inbox_view _ o (to_state event) m e Hok Hu Hm He Heo (moved_row_sound _ _ _ _ He)) as (? & ? & ->).
      split; [done|]. by eexists.
    + rewrite decide_False in Hbody by lia. rewrite decide_False by tauto.
      apply mbind_ok in Hbody as (found & w4 & Hs & Hbody). apply select_ok in Hs as [Hdb4 ->].
      apply mbind_ok in Hbody as (m' & w5 & Hs & Hbody). injection Hs as <- Hs.
      apply mbind_ok in Hbody as (e' & w6 & Hs' & Hbody). injection Hs' as <- Hs'.
      rewrite <- Hdb, Hf in Hs. injection Hs as <-. assert (e' = e) as -> by congruence.
      destruct (decide (ie_state e = to_state event)); [|done]. injection Hbody as <- _. rewrite Hdb4, <- Hdb. split; [done|]. by eexists.
  - rewrite update_inbox_absent in Hup by (by apply find_row_None in Hf). injection Hup as Hdb <-.
    rewrite decide_False in Hbody by lia.
    apply mbind_ok in Hbody as (found & w4 & Hs & Hbody). apply select_ok in Hs as [Hdb4 ->].
    apply mbind_ok in Hbody as (m' & w5 & Hs & Hbody). rewrite <- Hdb, Hf in Hs. done.
Qed.

(** The inbox of the contract, in SQLite. *)
#[export] Instance sqlite_inbox_laws : @InboxStoreLaws _ _ (sqlite_inbox env command_key).
Proof.
  apply (@Build_InboxStoreLaws _ _ (sqlite_inbox env command_key) view ok).
  - apply insert_inbox_refines.
  - apply advance_inbox_refines.
Defined.
End laws.
