(* ===== verification/BindingRepository.v ===== *)
(** * BindingRepository: the SQLite rows of instances and bindings

    Models [persistence/src/instance_repository.rs] and
    [persistence/src/center_binding_repository.rs] over their two tables, and
    discharges [BindingStoreLaws]. *)
From S2P Require Import Prelude Text Operation CommandCipher CenterDomain Artifact Endpoints Database CenterStores.
From Stdlib Require Import ZifyBool.
Local Open Scope Z_scope.

Record instance_model := mk_instance_model {
  nm_id : Uuid;
  nm_display_name : str;
  nm_instance_kind : str;
  nm_created_at : OffsetDateTime;
}.

Record binding_model := mk_binding_model {
  bm_id : Uuid;
  bm_center_url : str;
  bm_binding_code_hash : option (list N);
  bm_site_instance_id : Uuid;
  bm_site_cert_fingerprint : option str;
  bm_state : str;
  bm_bound_at : option OffsetDateTime;
  bm_expires_at : option OffsetDateTime;
  bm_created_at : OffsetDateTime;
}.

Record BindingTables := mk_binding_tables {
  bt_instances : gmap Uuid instance_model;
  bt_bindings : gmap Uuid binding_model;
}.

Inductive InstanceRepositoryError :=
| InstanceCoordinate
| InstanceCorrupt (instance_id : InstanceId) (source : InstanceKindParseError)
| InstanceDatabase.

Inductive StoredCenterBindingError :=
| StoredInvalidState (source : CenterBindingStateParseError)
| StoredInvalidFingerprint (source : CertificateFingerprintParseError)
| StoredInvalid (source : CenterBindingError).

Inductive CenterBindingRepositoryError :=
| BindingCoordinate
| BindingNotFound (binding_id : CenterBindingId)
| AlreadyActiveBinding (site : InstanceId)
| BindingNotPending (binding_id : CenterBindingId)
| BindingCodeExpired
| BindingCodeMismatch
| FingerprintAlreadyBound (fingerprint : CertificateFingerprint)
| BindingCorrupt (binding_id : CenterBindingId) (source : StoredCenterBindingError)
| BindingDatabase.

#[export] Instance instance_errors : DbErrors InstanceRepositoryError :=
  { err_coordinate := InstanceCoordinate; err_database := InstanceDatabase }.
#[export] Instance binding_errors : DbErrors CenterBindingRepositoryError :=
  { err_coordinate := BindingCoordinate; err_database := BindingDatabase }.

Section repository.
Context (env : Env) (sha256 : list N → list N).
Abbreviation Instances := (M (World BindingTables) InstanceRepositoryError).
Abbreviation Repo := (M (World BindingTables) CenterBindingRepositoryError).
Implicit Types (t : BindingTables) (m : binding_model).

(** ** Instances *)

Definition sqlite_create_instance (site : SiteInstance) : Instances () :=
  do! acquire env in
  statement env (λ t,
    (λ rows, (mk_binding_tables rows (bt_bindings t), ())) <$>
      insert_new (bt_instances t) (si_id site)
        (mk_instance_model (si_id site) (si_display_name site) (InstanceKind_as_str (si_kind site))
           (si_created_at site))).

Definition map_stored_instance (instance_id : InstanceId) (m : instance_model)
    : result SiteInstance InstanceRepositoryError :=
  let? kind := map_err (InstanceCorrupt instance_id) (InstanceKind_from_str (nm_instance_kind m)) in
  Ok (mk_site_instance instance_id (nm_display_name m) kind (nm_created_at m)).

Definition sqlite_find_instance (instance_id : InstanceId) : Instances (option SiteInstance) :=
  let! found := select env (λ t, bt_instances t !! instance_id) in
  match found with
  | None => mret None
  | Some m => let! site := mlift (map_stored_instance instance_id m) in mret (Some site)
  end.

Definition instance_le (l r : instance_model) : Prop :=
  nm_created_at l < nm_created_at r ∨ (nm_created_at l = nm_created_at r ∧ (nm_id l <= nm_id r)%N).
#[export] Instance instance_le_dec : RelDecision instance_le.
Proof. intros l r. unfold instance_le. apply _. Defined.

Definition sqlite_list_instances : Instances (list SiteInstance) :=
  let! models := select env (λ t, rows instance_le (λ _, True) (bt_instances t)) in
  mtraverse (λ m : instance_model, mlift (map_stored_instance (nm_id m) m)) models.

(** ** Bindings *)

Definition map_stored_binding (binding_id : CenterBindingId) m
    : result CenterBinding CenterBindingRepositoryError :=
  let? fingerprint := map_err (λ e, BindingCorrupt binding_id (StoredInvalidFingerprint e))
    (match bm_site_cert_fingerprint m with
     | None => Ok None
     | Some text => let? fp := fingerprint_from_str text in Ok (Some fp)
     end) in
  let? state := map_err (λ e, BindingCorrupt binding_id (StoredInvalidState e))
    (CenterBindingState_from_str (bm_state m)) in
  map_err (λ e, BindingCorrupt binding_id (StoredInvalid e))
    (CenterBinding_try_from_parts binding_id (bm_center_url m) (bm_site_instance_id m) state
       (bm_binding_code_hash m) fingerprint (bm_bound_at m) (bm_expires_at m) (bm_created_at m)).

Definition active_row m : Prop := bm_state m = lit "pending" ∨ bm_state m = lit "bound".
#[export] Instance active_row_dec m : Decision (active_row m).
Proof. unfold active_row. apply _. Defined.

(** [ck_center_bindings_state] and [ck_center_bindings_shape]. *)
Definition row_shape_ok m : Prop :=
  (bm_state m = lit "pending" ∧ is_Some (bm_binding_code_hash m) ∧ is_Some (bm_expires_at m) ∧
     bm_bound_at m = None) ∨
  (bm_state m = lit "bound" ∧ bm_binding_code_hash m = None ∧ bm_expires_at m = None ∧
     is_Some (bm_bound_at m)) ∨
  (bm_state m = lit "revoked" ∧ bm_binding_code_hash m = None ∧ bm_expires_at m = None).
#[export] Instance row_shape_ok_dec m : Decision (row_shape_ok m).
Proof. unfold row_shape_ok. apply _. Defined.

(** [uq_center_bindings_active_site]. *)
Definition active_site_free (site : Uuid) t : Prop :=
  map_Forall (λ _ m, active_row m → bm_site_instance_id m ≠ site) (bt_bindings t).

Definition with_bindings t (rows : gmap Uuid binding_model) : BindingTables :=
  mk_binding_tables (bt_instances t) rows.

Definition binding_row (b : CenterBinding) : binding_model :=
  mk_binding_model (cb_id b) (cb_center_url b) (cb_binding_code_hash b) (cb_site_instance_id b)
    (fingerprint_to_string <$> cb_site_cert_fingerprint b) (CenterBindingState_as_str (cb_state b))
    (cb_bound_at b) (cb_expires_at b) (cb_created_at b).

(** [insert_binding], under the table's constraints. *)
Definition insert_binding (b : CenterBinding) : Repo () :=
  statement env (λ t,
    if decide (row_shape_ok (binding_row b) ∧ is_Some (bt_instances t !! cb_site_instance_id b) ∧
               (active_row (binding_row b) → active_site_free (cb_site_instance_id b) t))
    then (λ rows, (with_bindings t rows, ())) <$> insert_new (bt_bindings t) (cb_id b) (binding_row b)
    else None).

Definition sqlite_create_binding (b : CenterBinding) : Repo () :=
  do! acquire env in
  transaction env (
    let! active := select env (λ t,
      find_row (λ m, bm_site_instance_id m = cb_site_instance_id b ∧ active_row m) (bt_bindings t)) in
    match active with
    | Some _ => do! rollback env in mfail (AlreadyActiveBinding (cb_site_instance_id b))
    | None => insert_binding b
    end).

Definition sqlite_find_binding (binding_id : CenterBindingId) : Repo (option CenterBinding) :=
  let! found := select env (λ t, bt_bindings t !! binding_id) in
  match found with
  | None => mret None
  | Some m => let! b := mlift (map_stored_binding binding_id m) in mret (Some b)
  end.

Definition created_earlier (l r : binding_model) : Prop := bm_created_at l <= bm_created_at r.
#[export] Instance created_earlier_dec : RelDecision created_earlier.
Proof. intros l r. unfold created_earlier. apply _. Defined.
Definition created_later (l r : binding_model) : Prop := bm_created_at r <= bm_created_at l.
#[export] Instance created_later_dec : RelDecision created_later.
Proof. intros l r. unfold created_later. apply _. Defined.

(** The first row of an ordered selection, as a binding. *)
Definition first_binding (models : BindingTables → list binding_model) : Repo (option CenterBinding) :=
  let! found := select env (λ t, head (models t)) in
  match found with
  | None => mret None
  | Some m => let! b := mlift (map_stored_binding (bm_id m) m) in mret (Some b)
  end.

Definition sqlite_find_binding_by_site (site : InstanceId) : Repo (option CenterBinding) :=
  first_binding (λ t, rows created_later (λ m, bm_site_instance_id m = site) (bt_bindings t)).

Definition sqlite_find_pending_by_code_hash (hash : list N) : Repo (option CenterBinding) :=
  first_binding (λ t, rows created_earlier
    (λ m, bm_state m = lit "pending" ∧ bm_binding_code_hash m = Some hash) (bt_bindings t)).

Definition sqlite_find_binding_by_fingerprint (fp : CertificateFingerprint) : Repo (option CenterBinding) :=
  first_binding (λ t, rows created_later
    (λ m, bm_site_cert_fingerprint m = Some (fingerprint_to_string fp)) (bt_bindings t)).

Definition verification_error (binding_id : CenterBindingId) (e : BindingCodeVerificationError)
    : CenterBindingRepositoryError :=
  match e with
  | NotPending => BindingNotPending binding_id
  | CodeExpired => BindingCodeExpired
  | CodeMismatch => BindingCodeMismatch
  end.

(** The guarded [UPDATE] of a row, and the rows it affects. *)
Definition update_binding (binding_id : CenterBindingId) (guard : binding_model → Prop)
    `{∀ m, Decision (guard m)} (f : binding_model → binding_model) t : BindingTables * Z :=
  match bt_bindings t !! binding_id with
  | Some m =>
      if decide (guard m) then (with_bindings t (<[binding_id := f m]> (bt_bindings t)), 1) else (t, 0)
  | None => (t, 0)
  end.

Definition bound_row (fp : option CertificateFingerprint) (now : OffsetDateTime) m : binding_model :=
  mk_binding_model (bm_id m) (bm_center_url m) None (bm_site_instance_id m)
    (fingerprint_to_string <$> fp) (lit "bound") (Some now) None (bm_created_at m).

Definition revoked_row m : binding_model :=
  mk_binding_model (bm_id m) (bm_center_url m) None (bm_site_instance_id m)
    (bm_site_cert_fingerprint m) (lit "revoked") (bm_bound_at m) None (bm_created_at m).

Definition competing (binding_id : CenterBindingId) (fp : CertificateFingerprint) t : option binding_model :=
  find_row (λ m, bm_site_cert_fingerprint m = Some (fingerprint_to_string fp) ∧
                 bm_state m = lit "bound" ∧ bm_id m ≠ binding_id) (bt_bindings t).

Definition sqlite_bind_with_code (binding_id : CenterBindingId) (code : str)
    (fp : option CertificateFingerprint) (now : OffsetDateTime) : Repo () :=
  do! acquire env in
  transaction env (
    let! found := select env (λ t, bt_bindings t !! binding_id) in
    let! m := mlift (ok_or found (BindingNotFound binding_id)) in
    let! b := mlift (map_stored_binding binding_id m) in
    do! mlift (map_err (verification_error binding_id) (verify_code sha256 b code now)) in
    do! match fp with
        | None => mret ()
        | Some f =>
            let! other := select env (competing binding_id f) in
            match other with
            | Some _ => do! rollback env in mfail (FingerprintAlreadyBound f)
            | None => mret ()
            end
        end in
    let! affected := statement env (λ t,
      Some (update_binding binding_id (λ m, bm_state m = lit "pending") (bound_row fp now) t)) in
    if decide (affected = 1) then mret () else do! rollback env in mfail (BindingNotPending binding_id)).

Definition sqlite_revoke_binding (binding_id : CenterBindingId) : Repo RevokeOutcome :=
  do! acquire env in
  transaction env (
    let! affected := statement env (λ t,
      Some (update_binding binding_id (λ m, bm_state m ≠ lit "revoked") revoked_row t)) in
    if decide (affected = 1) then mret Revoked
    else
      let! found := select env (λ t, bt_bindings t !! binding_id) in
      match found with
      | None => do! rollback env in mfail (BindingNotFound binding_id)
      | Some _ => mret AlreadyRevoked
      end).

Instance sqlite_bindings : BindingStore (World BindingTables) InstanceRepositoryError CenterBindingRepositoryError := {
  create_instance := sqlite_create_instance;
  create_binding := sqlite_create_binding;
  find_pending_binding_by_code_hash := sqlite_find_pending_by_code_hash;
  bind_with_code := sqlite_bind_with_code;
  find_binding_by_site_fingerprint := sqlite_find_binding_by_fingerprint;
  revoke_binding := sqlite_revoke_binding;
}.
End repository.

(** ** The rows as bindings *)

(** A rollback that succeeds is followed by the error. *)
Lemma rolled_back {A} (env : Env) (e : CenterBindingRepositoryError) (w w' : World BindingTables) (a : A) :
  mbind (rollback env) (λ _, mfail e) w ≠ (w', Ok a).
Proof. intros (u & w1 & _ & Hrun)%mbind_ok. done. Qed.

Section laws.
Context (env : Env) (sha256 : list N → list N).
Implicit Types (t : BindingTables) (m : binding_model) (b : CenterBinding) (w : World BindingTables).

(** A row is sound when it maps to a binding and writes its fingerprint as the
    lookups ask for it. *)
Definition binding_of (id : Uuid) m : option CenterBinding :=
  match map_stored_binding id m with
  | Ok b => if decide (bm_id m = id ∧ bm_site_cert_fingerprint m = fingerprint_to_string <$> cb_site_cert_fingerprint b)
            then Some b else None
  | Err _ => None
  end.

Definition binding_view t : Bindings := decoded binding_of (bt_bindings t).
Definition binding_tables_ok t : Prop := decodable binding_of (bt_bindings t).
Abbreviation view := (λ w, binding_view (w_db w)).
Abbreviation ok := (λ w, binding_tables_ok (w_db w)).

Lemma binding_state_str st : CenterBindingState_from_str (CenterBindingState_as_str st) = Ok st.
Proof. exact (code_parse_str (T := CenterBindingState) st). Qed.

Lemma state_str_inj st st' : CenterBindingState_as_str st = CenterBindingState_as_str st' → st = st'.
Proof. intros Heq. pose proof (binding_state_str st) as Hs. rewrite Heq, binding_state_str in Hs. congruence. Qed.

Lemma binding_parts_inv id url site st hash fp bound expires created b :
  CenterBinding_try_from_parts id url site st hash fp bound expires created = Ok b →
  b = mk_center_binding id url site st hash fp bound expires created ∧ hash = cb_binding_code_hash b ∧ binding_inv b.
Proof.
  unfold CenterBinding_try_from_parts. intros Hp. inv_ok.
  destruct (negb (shape_matches st _ bound expires)) eqn:Hs; [done|].
  destruct (is_some_and bound _) eqn:Hb; [done|]. destruct (is_some_and expires _) eqn:He; [done|].
  injection Hp as <-. match goal with Hh : hash_of_slice hash = Some ?a |- _ => assert (a = hash ∧ ∀ h, hash = Some h → length h = 32%nat) as [-> Hlen] end.
  { destruct hash as [h|]; simpl in *; [case_decide; [|done]|]; simplify_eq; [|done]. split; [done|]. naive_solver. }
  split; [done|]. split; [done|]. split; [done|]. simpl. split; [by destruct (shape_matches _ _ _ _)|].
  split; [intros x ->|intros x ->]; simpl in *; lia.
Qed.

(** The row a binding was read from is the row it would be written as. *)
Lemma binding_of_row id m b :
  binding_of id m = Some b → bm_id m = id ∧ cb_id b = id ∧ m = binding_row b ∧ binding_inv b ∧
  map_stored_binding id m = Ok b.
Proof.
  unfold binding_of. destruct (map_stored_binding id m) as [x|] eqn:Hm; [|done].
  case_decide as Hd; [|done]. intros [= <-]. destruct Hd as [Hid Hfp]. pose proof Hm as Hm0.
  unfold map_stored_binding in Hm. inv_ok.
  match goal with Hs : CenterBindingState_from_str _ = Ok ?st |- _ =>
    pose proof (code_parse_sound (T := CenterBindingState) (bm_state m) st Hs) as Hst end.
  match goal with Ht : CenterBinding_try_from_parts _ _ _ _ _ _ _ _ _ = Ok _ |- _ => rename Ht into Hparts end.
  pose proof (binding_parts_inv _ _ _ _ _ _ _ _ _ _ Hparts) as (-> & Hhash & Hinv).
  simpl in Hfp |- *. split; [done|]. split; [done|]. split; [|done].
  destruct m; simpl in *; unfold binding_row; simpl. by subst.
Qed.

Lemma binding_view_lookup t id b :
  binding_view t !! id = Some b ↔ ∃ m, bt_bindings t !! id = Some m ∧ binding_of id m = Some b.
Proof. unfold binding_view. rewrite decoded_lookup, bind_Some. done. Qed.

Lemma binding_row_sound b :
  binding_inv b → (∀ f, cb_site_cert_fingerprint b = Some f → fingerprint_ok f) →
  binding_of (cb_id b) (binding_row b) = Some b.
Proof.
  intros Hinv Hfp. assert (map_stored_binding (cb_id b) (binding_row b) = Ok b) as Hm.
  { unfold map_stored_binding, binding_row.
    cbn [bm_site_cert_fingerprint bm_state bm_center_url bm_site_instance_id bm_binding_code_hash bm_bound_at
      bm_expires_at bm_created_at]. rewrite binding_state_str. cbn [map_err result_bind].
    destruct (cb_site_cert_fingerprint b) as [f|] eqn:Hf; simpl.
    - destruct (Hfp f eq_refl) as [Hl Hb]. rewrite fingerprint_roundtrip by done. simpl.
      pose proof (binding_inv_rehydrates b Hinv) as Hr. rewrite Hf in Hr. by rewrite Hr.
    - pose proof (binding_inv_rehydrates b Hinv) as Hr. rewrite Hf in Hr. by rewrite Hr. }
  unfold binding_of. rewrite Hm. by rewrite decide_True.
Qed.

(** The fingerprints of the rows are fingerprints. *)
Lemma binding_of_fingerprint id m b f :
  binding_of id m = Some b → cb_site_cert_fingerprint b = Some f → fingerprint_ok f.
Proof.
  intros (_ & _ & _ & _ & Hm)%binding_of_row Hf. unfold map_stored_binding in Hm. inv_ok.
  match goal with Ht : CenterBinding_try_from_parts _ _ _ _ _ _ _ _ _ = Ok _ |- _ =>
    apply binding_parts_inv in Ht as (-> & _ & _) end. simpl in Hf. subst.
  destruct (bm_site_cert_fingerprint m) as [text|]; [|done]. inv_ok. by eapply fingerprint_from_str_ok.
Qed.

Lemma row_active_iff id m b : binding_of id m = Some b → active_row m ↔ is_active_binding b.
Proof.
  intros (_ & _ & -> & _)%binding_of_row. unfold active_row, is_active_binding. simpl.
  destruct (cb_state b); simpl; split; try tauto; intros [?|?]; done.
Qed.

Lemma row_state_iff id m b st :
  binding_of id m = Some b → bm_state m = CenterBindingState_as_str st ↔ cb_state b = st.
Proof. intros (_ & _ & -> & _)%binding_of_row. simpl. split; [apply state_str_inj|by intros ->]. Qed.

Lemma create_instance_refines i w w' r :
  ok w → sqlite_create_instance env i w = (w', r) → ok w' ∧ view w' = view w.
Proof.
  intros Hok Hrun. apply gated_statement in Hrun as [(e & -> & ->)|(a & -> & Hq)]; [done|].
  apply fmap_Some in Hq as (rows & _ & Hq). assert (w_db w' = mk_binding_tables rows (bt_bindings (w_db w))) as -> by congruence.
  done.
Qed.

Lemma active_site_view t site :
  binding_tables_ok t →
  (∀ m id, bt_bindings t !! id = Some m → active_row m → bm_site_instance_id m ≠ site) →
  ∀ k c, binding_view t !! k = Some c → is_active_binding c → cb_site_instance_id c ≠ site.
Proof.
  intros Hok Hfree k c (m & Hm & Hc)%binding_view_lookup Hact.
  pose proof (row_active_iff _ _ _ Hc) as Hiff. apply binding_of_row in Hc as (_ & _ & Hrow & _).
  pose proof (Hfree _ _ Hm (proj2 Hiff Hact)) as Hne. by rewrite Hrow in Hne.
Qed.

Lemma create_binding_refines b w w' r :
  ok w → binding_inv b → cb_site_cert_fingerprint b = None →
  sqlite_create_binding env b w = (w', r) →
  writes view ok (λ v v', registration v b v') w w' r.
Proof.
  intros Hok Hinv Hfp Hrun. unfold writes. cbv beta in *.
  apply gated_write in Hrun as [(e & -> & ->)|(u & w1 & w2 & -> & Hw1 & Hbody & ->)]; [done|].
  rewrite <- Hw1 in Hok |- *. clear Hw1.
  apply mbind_ok in Hbody as (active & w3 & Hs & Hbody). apply select_ok in Hs as [Hdb3 ->].
  destruct (find_row _ _) as [m|] eqn:Hf; [by apply rolled_back in Hbody|]. apply find_row_None in Hf.
  apply statement_ok in Hbody. rewrite Hdb3 in Hbody. case_decide; [|done].
  apply fmap_Some in Hbody as (rows & Hnew & Hdb).
  assert (w_db w2 = with_bindings (w_db w1) rows) as -> by congruence.
  pose proof (binding_row_sound b Hinv ltac:(congruence)) as Hrow.
  apply (insert_new_decoded binding_of _ _ _ _ b) in Hnew as [Hok' Hv]; [|done..].
  apply insert_new_Some in Hv as [Hnone Hv]. split; [done|]. split; [done|]. split; [done|].
  apply active_site_view; [done|]. intros m id Hm Hact Hsite. by apply (Hf _ _ Hm).
Qed.

(** The first row of an ordered lookup, as a binding. *)
Lemma first_binding_reads (le : relation binding_model) `{∀ x y, Decision (le x y)} `{!Transitive le, !Total le}
    (P : binding_model → Prop) `{∀ m, Decision (P m)} (Q : CenterBinding → Prop) (ale : relation CenterBinding) w w' r :
  (∀ id m b, binding_of id m = Some b → P m ↔ Q b) →
  (∀ id m b id' m' b', binding_of id m = Some b → binding_of id' m' = Some b' → le m m' → ale b b') →
  ok w → first_binding env (λ t, rows le P (bt_bindings t)) w = (w', r) →
  reads view ok (λ v x, match x with
    | Some b => v !! cb_id b = Some b ∧ Q b ∧ ∀ k c, v !! k = Some c → Q c → ale b c
    | None => ∀ k c, v !! k = Some c → ¬ Q c
    end) w w' r.
Proof.
  intros HPQ Hle Hok Hrun.
  assert (rows_keyed bm_id (bt_bindings (w_db w))) as Hkey.
  { intros id m Hm. destruct (Hok _ _ Hm) as [b Hb]. by apply binding_of_row in Hb as [? _]. }
  apply lookup_inv in Hrun as [Hdb Hx].
  2:{ intros [m|] s s' x; [|by intros [= <- _]].
      intros [(y & s1 & Hy & Hr)|(y & Hy & _)]%mbind_inv; [injection Hy as -> _; by injection Hr as <- _|by injection Hy as -> _]. }
  unfold reads. rewrite Hdb. split; [done|]. split; [done|].
  intros x ->. destruct (Hx x eq_refl) as [w1 Hk]. clear Hx.
  assert (∀ k c, view w !! k = Some c → Q c → ∃ m, m ∈ rows le P (bt_bindings (w_db w)) ∧ binding_of k m = Some c) as Hin.
  { intros k c (m & Hm & Hc)%binding_view_lookup HQ. exists m. split; [|done].
    apply (rows_spec bm_id); [done|]. rewrite (Hkey _ _ Hm). split; [done|]. by apply (HPQ _ _ _ Hc). }
  destruct (head (rows le P _)) as [m|] eqn:Hhead.
  - apply mbind_ok in Hk as (b & w2 & Hl & Hk). injection Hl as <- Hl. injection Hk as <-.
    assert (m ∈ rows le P (bt_bindings (w_db w))) as Hm by (apply head_Some_elem_of in Hhead; done).
    apply (rows_spec bm_id) in Hm as [Hm HP]; [|done]. destruct (Hok _ _ Hm) as [c Hc].
    pose proof Hc as Hc'. apply binding_of_row in Hc' as (_ & Hid & _ & _ & Hload).
    assert (c = b) as -> by congruence.
    split; [apply binding_view_lookup; exists m; by rewrite Hid|]. split; [by apply (HPQ _ _ _ Hc)|].
    intros k c Hkc HQ. destruct (Hin k c Hkc HQ) as (m' & Hm' & Hc').
    eapply Hle; [exact Hc|exact Hc'|]. by eapply rows_head.
  - injection Hk as <-. intros k c Hkc HQ. destruct (Hin k c Hkc HQ) as (m' & Hm' & _).
    apply head_None in Hhead. rewrite Hhead in Hm'. by apply elem_of_nil in Hm'.
Qed.

#[local] Instance created_earlier_trans : Transitive created_earlier.
Proof. intros x y z. unfold created_earlier. lia. Qed.
#[local] Instance created_earlier_total : Total created_earlier.
Proof. intros x y. unfold created_earlier. lia. Qed.
#[local] Instance created_later_trans : Transitive created_later.
Proof. intros x y z. unfold created_later. lia. Qed.
#[local] Instance created_later_total : Total created_later.
Proof. intros x y. unfold created_later. lia. Qed.

Lemma find_pending_refines hash w w' r :
  ok w → sqlite_find_pending_by_code_hash env hash w = (w', r) →
  reads view ok (oldest_outstanding hash) w w' r.
Proof.
  apply (first_binding_reads _ _ (outstanding hash) (λ b c, cb_created_at b <= cb_created_at c)).
  - intros id m b Hb. unfold outstanding. rewrite <- (row_state_iff _ _ _ BindingPending Hb).
    by apply binding_of_row in Hb as (_ & _ & -> & _).
  - intros id m b id' m' b' (_ & _ & -> & _)%binding_of_row (_ & _ & -> & _)%binding_of_row. done.
Qed.

Lemma row_fingerprint_iff id m b fp :
  fingerprint_ok fp → binding_of id m = Some b →
  bm_site_cert_fingerprint m = Some (fingerprint_to_string fp) ↔ cb_site_cert_fingerprint b = Some fp.
Proof.
  intros [Hl Hb] Hm. pose proof (λ f, binding_of_fingerprint _ _ _ f Hm) as Hok.
  apply binding_of_row in Hm as (_ & _ & -> & _). simpl. split; [|by intros ->].
  intros (f & Hf & Heq)%fmap_Some. rewrite Hf. f_equal. destruct (Hok f Hf).
  by apply fingerprint_to_string_inj.
Qed.

Lemma find_by_fingerprint_refines fp w w' r :
  ok w → fingerprint_ok fp → sqlite_find_binding_by_fingerprint env fp w = (w', r) →
  reads view ok (newest_of fp) w w' r.
Proof.
  intros Hok Hfp. revert Hok.
  apply (first_binding_reads _ _ (λ b, cb_site_cert_fingerprint b = Some fp) (λ b c, cb_created_at c <= cb_created_at b)).
  - intros id m b Hb. by eapply row_fingerprint_iff.
  - intros id m b id' m' b' (_ & _ & -> & _)%binding_of_row (_ & _ & -> & _)%binding_of_row. done.
Qed.

(** The guarded updates write the binding the domain's transition gives. *)
Lemma bound_row_sound id m b fp now :
  binding_of id m = Some b → cb_state b = BindingPending → cb_created_at b <= now →
  (∀ f, fp = Some f → fingerprint_ok f) →
  binding_of id (bound_row fp now m) = Some (bind b fp now).1.
Proof.
  intros (_ & Hid & -> & Hinv & _)%binding_of_row Hst Hnow Hfp. subst id.
  assert (bound_row fp now (binding_row b) = binding_row (bind b fp now).1) as ->.
  { unfold bind. rewrite Hst. done. }
  assert (cb_id (bind b fp now).1 = cb_id b) as <- by (unfold bind; by rewrite Hst).
  apply binding_row_sound.
  - by apply (binding_inv_act b (ActBind fp now)).
  - unfold bind. rewrite Hst. simpl. done.
Qed.

Lemma revoked_row_sound id m b :
  binding_of id m = Some b → cb_state b ≠ BindingRevoked →
  (revoke b).2 = Ok () ∧ binding_of id (revoked_row m) = Some (revoke b).1.
Proof.
  intros Hb Hst. pose proof (λ f, binding_of_fingerprint _ _ _ f Hb) as Hfp.
  apply binding_of_row in Hb as (_ & Hid & -> & Hinv & _). subst id.
  assert ((revoke b).2 = Ok () ∧ revoked_row (binding_row b) = binding_row (revoke b).1 ∧
          cb_id (revoke b).1 = cb_id b ∧ cb_site_cert_fingerprint (revoke b).1 = cb_site_cert_fingerprint b)
    as (Hr & -> & <- & Hf) by (unfold revoke; by destruct (cb_state b)).
  split; [done|]. apply binding_row_sound; [by apply (binding_inv_act b ActRevoke)|].
  rewrite Hf. exact Hfp.
Qed.

Lemma update_binding_view id (guard : binding_model → Prop) `{∀ m, Decision (guard m)} f g t t' n b m :
  binding_tables_ok t → bt_bindings t !! id = Some m → binding_of id m = Some b →
  (guard m → binding_of id (f m) = Some g) →
  update_binding id guard f t = (t', n) →
  binding_tables_ok t' ∧
  if decide (guard m) then n = 1 ∧ binding_view t' = <[id := g]> (binding_view t) else n = 0 ∧ t' = t.
Proof.
  intros Hok Hm Hb Hg. unfold update_binding. rewrite Hm. case_decide; intros [= <- <-]; [|done].
  split; [by eapply decodable_insert, Hg|]. split; [done|]. unfold binding_view. simpl.
  by apply decoded_insert, Hg.
Qed.

Lemma verified_pending b code now : verify_code sha256 b code now = Ok () → cb_state b = BindingPending.
Proof. unfold verify_code. case_decide as Hd; [done|]. intros _. by destruct (decide (cb_state b = BindingPending)). Qed.

Lemma bind_with_code_refines id code fp now w w' r :
  ok w → (∀ b, view w !! id = Some b → cb_created_at b <= now) →
  (∀ f, fp = Some f → fingerprint_ok f) →
  sqlite_bind_with_code env sha256 id code fp now w = (w', r) →
  writes view ok (λ v v', consumption sha256 v id code fp now v') w w' r.
Proof.
  intros Hok Hnow Hfp Hrun. unfold writes. cbv beta in *.
  apply gated_write in Hrun as [(e & -> & ->)|(u & w1 & w2 & -> & Hw1 & Hbody & ->)]; [done|].
  rewrite <- Hw1 in Hok, Hnow |- *. clear Hw1.
  apply mbind_ok in Hbody as (found & w3 & Hs & Hbody). apply select_ok in Hs as [Hdb3 ->].
  apply mbind_ok in Hbody as (m & w4 & Hs & Hbody). injection Hs as <- Hm.
  apply mbind_ok in Hbody as (b & w5 & Hs & Hbody). injection Hs as <- Hb.
  apply mbind_ok in Hbody as ([] & w6 & Hs & Hbody). injection Hs as <- Hv.
  apply mbind_ok in Hbody as ([] & w7 & Hs & Hbody).
  assert (bt_bindings (w_db w1) !! id = Some m) as Hrow by (destruct (bt_bindings (w_db w1) !! id); by simplify_eq/=).
  destruct (Hok _ _ Hrow) as [b' Hof]. pose proof Hof as Hof'. apply binding_of_row in Hof' as (Hbm & _ & _ & _ & Hload).
  assert (b' = b) as -> by congruence.
  assert (verify_code sha256 b code now = Ok ()) as Hver by (by destruct (verify_code _ _ _ _) as [[]|]).
  assert (w_db w7 = w_db w1 ∧ ∀ f, fp = Some f → competing id f (w_db w1) = None) as [Hdb7 Hcomp].
  { destruct fp as [f|].
    - apply mbind_ok in Hs as (other & w8 & Hs & Hk). apply select_ok in Hs as [Hdb8 ->].
      rewrite Hdb3 in Hk. destruct (competing id f (w_db w1)) eqn:Hc; [by apply rolled_back in Hk|].
      injection Hk as <-. split; [by rewrite Hdb8|]. by intros ? [= <-].
    - injection Hs as <-. done. }
  apply mbind_ok in Hbody as (affected & w8 & Hup & Hbody). apply statement_ok in Hup.
  apply (inj Some) in Hup. rewrite Hdb7 in Hup.
  pose proof (verified_pending _ _ _ Hver) as Hpend.
  assert (binding_view (w_db w1) !! id = Some b) as Hview by (apply binding_view_lookup; eauto).
  eapply (update_binding_view id _ _ (bind b fp now).1) in Hup as [Hok8 Hup]; [|done|exact Hrow|exact Hof|].
  2:{ intros _. apply bound_row_sound; [done..|by apply Hnow|done]. }
  rewrite decide_True in Hup by (by apply (row_state_iff _ _ _ BindingPending Hof)).
  destruct Hup as [-> Hv8]. simpl in Hbody. injection Hbody as <-.
  split; [done|]. exists b. split; [done|]. split; [done|]. split; [done|].
  intros f Hf k c Hc [Hbound Hcf]. apply binding_view_lookup in Hc as (mc & Hmc & Hoc).
  destruct (decide (k = id)) as [|Hne]; [done|]. exfalso.
  pose proof (find_row_None _ _ (Hcomp f Hf) k mc Hmc) as Hno. apply Hno.
  split; [by apply (row_fingerprint_iff _ _ _ f (Hfp f Hf) Hoc)|].
  split; [by apply (row_state_iff _ _ _ BindingBound Hoc)|].
  by apply binding_of_row in Hoc as [-> _].
Qed.

Lemma revoke_binding_refines id w w' r :
  ok w → sqlite_revoke_binding env id w = (w', r) →
  ok w' ∧ match r with
          | Ok out => revocation (view w) id (view w') out
          | Err _ => view w' = view w
          end.
Proof.
  intros Hok Hrun. cbv beta in *.
  apply gated_write in Hrun as [(e & -> & ->)|(out & w1 & w2 & -> & Hw1 & Hbody & ->)]; [done|].
  rewrite <- Hw1 in Hok |- *. clear Hw1.
  apply mbind_ok in Hbody as (affected & w3 & Hup & Hbody). apply statement_ok in Hup.
  apply (inj Some) in Hup. destruct (bt_bindings (w_db w1) !! id) as [m|] eqn:Hm.
  - destruct (Hok _ _ Hm) as [b Hb]. pose proof (row_state_iff _ _ _ BindingRevoked Hb) as Hst.
    assert (binding_view (w_db w1) !! id = Some b) as Hview by (apply binding_view_lookup; eauto).
    eapply (update_binding_view id _ _ (revoke b).1) in Hup as [Hok3 Hup]; [|done|exact Hm|exact Hb|].
    2:{ intros Hne. apply revoked_row_sound; [done|]. by rewrite <- Hst. }
    case_decide as Hd; destruct Hup as [-> Hv3].
    + simpl in Hbody. injection Hbody as <- <-. split; [done|]. exists b. split; [done|].
      split; [|done]. apply (revoked_row_sound _ _ _ Hb). by rewrite <- Hst.
    + rewrite decide_False in Hbody by lia.
      apply mbind_ok in Hbody as (found & w4 & Hs & Hbody). apply select_ok in Hs as [Hdb4 ->].
      rewrite Hv3, Hm in Hbody. injection Hbody as <- <-. rewrite Hdb4, Hv3. split; [done|].
      exists b. split; [done|]. split; [|done]. apply Hst. by destruct (decide (bm_state m = lit "revoked")).
  - unfold update_binding in Hup. rewrite Hm in Hup. injection Hup as Hdb <-. simpl in Hbody.
    apply mbind_ok in Hbody as (found & w4 & Hs & Hbody). apply select_ok in Hs as [Hdb4 ->].
    rewrite <- Hdb, Hm in Hbody. by apply rolled_back in Hbody.
Qed.

(** The store of the contract, in SQLite. *)
#[export] Instance sqlite_bindings_laws :
  @BindingStoreLaws sha256 _ _ _ (sqlite_bindings env sha256).
Proof.
  apply (@Build_BindingStoreLaws sha256 _ _ _ (sqlite_bindings env sha256) view ok).
  - intros w id b _ (m & _ & Hm)%binding_view_lookup. by apply binding_of_row in Hm as (_ & ? & _).
  - apply create_instance_refines.
  - apply create_binding_refines.
  - apply find_pending_refines.
  - apply bind_with_code_refines.
  - apply find_by_fingerprint_refines.
  - apply revoke_binding_refines.
Defined.
End laws.
