(* ===== verification/CenterDispatch.v ===== *)
(** * CenterDispatch: the center issues operations to its sites

    Models [application/src/center/dispatch.rs], its dispatch half: the
    authorisation and routing of a request, the search for an operation already on
    its way, the offer.  Generated identities and the clock are arguments. *)
From S2P Require Import Prelude Text Operation OperationEngine CenterDomain LinkMessages CenterOutbox Accounts AccountStore CenterStores.
Local Open Scope Z_scope.

(** [time::Duration], in nanoseconds. *)
Definition CENTER_OFFER_TTL : Z := 15 * 60 * 1000000000.

Definition IDEMPOTENCY_CANDIDATE_STATES : list OperationState :=
  [Queued; Validating; Running; WaitingRemote; Verifying].

Definition CENTER_DISPATCH_OFFER_SCAN_LIMIT : Z := 256.

Record CenterOperationRequest (Command : Type) := mk_center_request {
  rq_site_id : InstanceId;
  rq_endpoint_id : EndpointId;
  rq_target_odata_id : str;
  rq_command : Command;
  rq_actor : PrincipalId;
}.
Arguments mk_center_request {Command}.
Arguments rq_site_id {Command}.
Arguments rq_endpoint_id {Command}.
Arguments rq_target_odata_id {Command}.
Arguments rq_command {Command}.
Arguments rq_actor {Command}.

Record DispatchedOperation := mk_dispatched {
  do_operation_id : OperationId;
  do_expires_at : OffsetDateTime;
}.

Definition allows_dispatch (role : Role) (assignment_site : option InstanceId)
    (target_site : InstanceId) : bool :=
  match role with
  | Administrator => true
  | Operator => bool_decide (assignment_site = None) || bool_decide (assignment_site = Some target_site)
  | Viewer => false
  end.

Inductive CenterDispatchError (Epr Eop Eob Eac : Type) :=
| NotAuthorized
| UnknownEndpoint (endpoint_id : EndpointId)
| EndpointNotInSite (endpoint_id : EndpointId) (site_id : InstanceId)
| UnknownTarget (endpoint_id : EndpointId) (target : str)
| CommandSerialization
| UnknownOutcomePending (operation_id : OperationId)
| DispatchProjection (source : Epr)
| DispatchOperation (source : Eop)
| DispatchOutbox (source : Eob)
| DispatchRole (source : Eac).
Arguments NotAuthorized {Epr Eop Eob Eac}.
Arguments UnknownEndpoint {Epr Eop Eob Eac}.
Arguments EndpointNotInSite {Epr Eop Eob Eac}.
Arguments UnknownTarget {Epr Eop Eob Eac}.
Arguments CommandSerialization {Epr Eop Eob Eac}.
Arguments UnknownOutcomePending {Epr Eop Eob Eac}.
Arguments DispatchProjection {Epr Eop Eob Eac}.
Arguments DispatchOperation {Epr Eop Eob Eac}.
Arguments DispatchOutbox {Epr Eop Eob Eac}.
Arguments DispatchRole {Epr Eop Eob Eac}.

Inductive CandidateVerdict :=
| Resolved (dispatched : DispatchedOperation)
| NeverEnqueued
| DifferentTarget.

(** ** The key of a target *)

Definition hex_digit (byte : N) : option N :=
  (if (48 <=? byte) && (byte <=? 57) then Some (byte - 48)
   else if (97 <=? byte) && (byte <=? 102) then Some (byte - 97 + 10)
   else if (65 <=? byte) && (byte <=? 70) then Some (byte - 65 + 10)
   else None)%N.

(** The loop over the bytes: percent escapes are decoded, a malformed one stays. *)
Fixpoint percent_decode (bytes : list N) : list N :=
  match bytes with
  | [] => []
  | byte :: rest =>
      let plain := byte :: percent_decode rest in
      if (byte =? 37)%N then
        match rest with
        | high :: low :: rest' =>
            match hex_digit high, hex_digit low with
            | Some h, Some l => (h * 16 + l)%N :: percent_decode rest'
            | _, _ => plain
            end
        | _ => plain
        end
      else plain
  end.

(** [String::from_utf8_lossy]: every maximal prefix of a character that breaks off
    becomes one replacement character. *)
Definition broken_prefix (bytes : list N) : nat :=
  match bytes with
  | b0 :: b1 :: rest =>
      let second :=
        (if (b0 =? 224) then (160 <=? b1) && (b1 <? 192)
         else if (b0 =? 237) then (128 <=? b1) && (b1 <? 160)
         else if (b0 =? 240) then (144 <=? b1) && (b1 <? 192)
         else if (b0 =? 244) then (128 <=? b1) && (b1 <? 144)
         else if (225 <=? b0) && (b0 <? 244) then is_continuation b1
         else false)%N in
      if second then
        match rest with
        | b2 :: _ => if (240 <=? b0)%N && is_continuation b2 then 3 else 2
        | [] => 2
        end
      else 1
  | _ => 1
  end.
Fixpoint from_utf8_lossy_go (fuel : nat) (bytes : list N) : str :=
  match fuel, bytes with
  | S fuel, _ :: _ =>
      match utf8_next bytes with
      | Some (c, rest) => c :: from_utf8_lossy_go fuel rest
      | None => 65533%N :: from_utf8_lossy_go fuel (drop (broken_prefix bytes) bytes)
      end
  | _, _ => []
  end.
Definition from_utf8_lossy (bytes : list N) : str := from_utf8_lossy_go (length bytes) bytes.

Definition to_ascii_lowercase_char (c : char) : char :=
  (if (65 <=? c) && (c <=? 90) then c + 32 else c)%N.

(** The [while] loop that pops trailing slashes, on the reversed string. *)
Fixpoint strip_slashes (reversed : str) : str :=
  match reversed with
  | 47%N :: rest => strip_slashes rest
  | _ => reversed
  end.

Definition canonical_target_key (target : str) : str :=
  reverse (strip_slashes (reverse
    (to_ascii_lowercase_char <$> from_utf8_lossy (percent_decode (as_bytes target))))).

(** ** The facts of an offer *)

Record OfferFact := mk_offer_fact {
  fa_operation_id : OperationId;
  fa_site_id : option InstanceId;
  fa_target : str;
  fa_expires_at : OffsetDateTime;
  fa_entry_id : OutboxEntryId;
  fa_sequence : Z;
}.

Definition fact_le (l r : OfferFact) : Prop := fa_sequence l <= fa_sequence r.
#[export] Instance fact_le_dec : RelDecision fact_le.
Proof. intros l r. unfold fact_le. apply _. Defined.

(** [max_by_key]: the last of the greatest. *)
Definition newest_fact (facts : list OfferFact) : option OfferFact :=
  foldl (λ best fact, match best with
                      | None => Some fact
                      | Some b => if decide (fact_le b fact) then Some fact else Some b
                      end) None facts.

(** The order of the candidates: [created_at], then identity. *)
Definition operation_le {Command} (l r : Operation Command) : Prop :=
  op_created_at l < op_created_at r ∨ (op_created_at l = op_created_at r ∧ (op_id l <= op_id r)%N).
#[export] Instance operation_le_dec {Command} : RelDecision (operation_le (Command := Command)).
Proof. intros l r. unfold operation_le. apply _. Defined.

(** What one dispatch may generate. *)
Record DispatchIds := mk_dispatch_ids {
  di_operation : OperationId;
  di_target : TargetId;
  di_entry : OutboxEntryId;
}.

Section dispatch.
Context {Command Sop Sob Sac Spr Sin Eop Eob Eac Epr : Type} `{EqDecision Command}.
Context `{OperationStore Command Sop Eop} `{EndpointListing Command Sop Eop}.
Context `{EnvelopeJson} `{UuidText}.
Context `{OutboxStore Sob Eob} `{AccountStore Sac Eac} `{ProjectionReads Spr Epr}.
(** [serde_json::to_vec] on a command, [OffsetDateTime::from_unix_timestamp], and
    what the call generates. *)
Context (command_to_vec : Command → option (list N)) (from_unix_timestamp : Z → option OffsetDateTime)
  (ids : DispatchIds).
Abbreviation Dispatch := (M (Center Sop Sob Sac Spr Sin) (CenterDispatchError Epr Eop Eob Eac)).
Implicit Types (rq : CenterOperationRequest Command).

Definition offer_facts (entry : OutboxEntry) : option OfferFact :=
  envelope ← envelope_from_json (oe_payload_json entry);
  message ← en_message envelope;
  match message with
  | MsgOffer offer =>
      operation_id ← parse_uuid (of_operation_id offer);
      Some (mk_offer_fact operation_id (parse_uuid (of_site_id offer)) (of_target offer)
              (default 0 (from_unix_timestamp (of_expires_at_unix offer)))
              (oe_id entry) (oe_sequence entry))
  | _ => None
  end.

Definition same_target rq (target : str) : Prop :=
  canonical_target_key target = canonical_target_key (rq_target_odata_id rq).
#[export] Instance same_target_dec rq target : Decision (same_target rq target).
Proof. unfold same_target. apply _. Defined.

Definition on_request_endpoint rq (o : Operation Command) : Prop :=
  endpoint_id <$> head (op_targets o) = Some (rq_endpoint_id rq).
#[export] Instance on_request_endpoint_dec rq o : Decision (on_request_endpoint rq o).
Proof. unfold on_request_endpoint. apply _. Defined.

(** The offer of a request. *)
Definition offer_for rq (operation_id : OperationId) (command_json : list N)
    (expires_at : OffsetDateTime) : OperationOffer :=
  mk_offer (show_uuid operation_id) (show_uuid (rq_site_id rq)) (show_uuid (rq_endpoint_id rq))
    (rq_target_odata_id rq) command_json (unix_timestamp expires_at) (show_uuid (rq_actor rq)).

Definition enqueue_offer rq (operation_id : OperationId) (expires_at now : OffsetDateTime)
    : Dispatch OutboxEntry :=
  let! command_json := mlift (ok_or (command_to_vec (rq_command rq)) CommandSerialization) in
  let offer := offer_for rq operation_id command_json expires_at in
  on_outbox DispatchOutbox (enqueue (di_entry ids) (rq_site_id rq) (MsgOffer offer) now).

Definition facts_of (operation_id : OperationId) (facts : list OfferFact) : list OfferFact :=
  filter (λ fact, fa_operation_id fact = operation_id) facts.

Definition settle_duplicate_offers rq (operation_id : OperationId) (now : OffsetDateTime)
    : Dispatch () :=
  let! pending := on_outbox DispatchOutbox
    (list_pending (rq_site_id rq) CENTER_DISPATCH_OFFER_SCAN_LIMIT) in
  let rows := merge_sort fact_le (facts_of operation_id (omap offer_facts pending)) in
  mfor (drop 1 (reverse rows)) (λ fact,
    on_outbox DispatchOutbox (acknowledge (fa_entry_id fact) now)).

Definition deliver_retry rq (operation_id : OperationId) (now : OffsetDateTime)
    : Dispatch DispatchedOperation :=
  let expires_at := now + CENTER_OFFER_TTL in
  let! _ := enqueue_offer rq operation_id expires_at now in
  do! settle_duplicate_offers rq operation_id now in
  mret (mk_dispatched operation_id expires_at).

Definition resolve_candidate rq (operation_id : OperationId) (pending : list OfferFact)
    (now : OffsetDateTime) : Dispatch CandidateVerdict :=
  let rows := facts_of operation_id pending in
  let! found := match newest_fact rows with
                | Some newest => mret (Some newest, None)
                | None =>
                    let! entry := on_outbox DispatchOutbox
                      (find_offer_by_operation_across_instances operation_id) in
                    let directed := entry ≫= offer_facts in
                    mret (directed, directed)
                end in
  let '(newest, directed) := (found : option OfferFact * option OfferFact) in
  match newest with
  | None => mret NeverEnqueued
  | Some newest =>
      if decide (¬ same_target rq (fa_target newest)) then mret DifferentTarget
      else if fa_expires_at newest <? now then
        do! mfor rows (λ fact, on_outbox DispatchOutbox (acknowledge (fa_entry_id fact) now)) in
        do! match directed with
            | Some directed => on_outbox DispatchOutbox (acknowledge (fa_entry_id directed) now)
            | None => mret ()
            end in
        let! dispatched := deliver_retry rq operation_id now in
        mret (Resolved dispatched)
      else mret (Resolved (mk_dispatched operation_id (fa_expires_at newest)))
  end.

(** The loop over several candidates. *)
Fixpoint first_resolved rq (candidates : list OperationId) (facts : list OfferFact)
    (now : OffsetDateTime) : Dispatch (option DispatchedOperation) :=
  match candidates with
  | [] => mret None
  | operation_id :: candidates =>
      let! verdict := resolve_candidate rq operation_id facts now in
      match verdict with
      | Resolved dispatched =>
          do! settle_duplicate_offers rq operation_id now in
          mret (Some dispatched)
      | NeverEnqueued | DifferentTarget => first_resolved rq candidates facts now
      end
  end.

Definition is_candidate rq (o : Operation Command) : Prop :=
  op_source o = SourceCenter ∧ is_terminal (op_state o) = false ∧ on_request_endpoint rq o ∧
  op_command o = rq_command rq.
#[export] Instance is_candidate_dec rq o : Decision (is_candidate rq o).
Proof. unfold is_candidate. apply _. Defined.

Definition find_undecided rq (now : OffsetDateTime) : Dispatch (option DispatchedOperation) :=
  let! operations := mtraverse (λ state,
    on_operations DispatchOperation (store_list_for_endpoint (Some state) (rq_endpoint_id rq)))
    IDEMPOTENCY_CANDIDATE_STATES in
  let candidates := op_id <$> merge_sort operation_le (filter (is_candidate rq) (concat operations)) in
  if decide (candidates = []) then mret None
  else
    let! entries := on_outbox DispatchOutbox
      (list_pending (rq_site_id rq) CENTER_DISPATCH_OFFER_SCAN_LIMIT) in
    let facts := omap offer_facts entries in
    match candidates with
    | [operation_id] =>
        if decide (facts_of operation_id facts = []) then
          let! verdict := resolve_candidate rq operation_id facts now in
          match verdict with
          | Resolved dispatched =>
              do! settle_duplicate_offers rq operation_id now in
              mret (Some dispatched)
          | DifferentTarget => mret None
          | NeverEnqueued => let! d := deliver_retry rq operation_id now in mret (Some d)
          end
        else first_resolved rq candidates facts now
    | _ => first_resolved rq candidates facts now
    end.

(** The loop over the operations that ended [Unknown]. *)
Fixpoint first_confirmed rq (matches : list (Operation Command)) : Dispatch (option OperationId) :=
  match matches with
  | [] => mret None
  | o :: matches =>
      let! entry := on_outbox DispatchOutbox
        (find_offer_by_operation_across_instances (op_id o)) in
      match entry with
      | None => first_confirmed rq matches
      | Some entry =>
          match offer_facts entry with
          | Some fact =>
              if decide (same_target rq (fa_target fact)) then mret (Some (op_id o))
              else first_confirmed rq matches
          | None => first_confirmed rq matches
          end
      end
  end.

Definition is_unknown_match rq (o : Operation Command) : Prop :=
  op_source o = SourceCenter ∧ on_request_endpoint rq o ∧ op_command o = rq_command rq.
#[export] Instance is_unknown_match_dec rq o : Decision (is_unknown_match rq o).
Proof. unfold is_unknown_match. apply _. Defined.

Definition find_unknown_outcome rq : Dispatch (option OperationId) :=
  let! unknown := on_operations DispatchOperation
    (store_list_for_endpoint (Some Unknown) (rq_endpoint_id rq)) in
  first_confirmed rq (merge_sort operation_le (filter (is_unknown_match rq) unknown)).

(** [dispatch]. *)
Definition dispatch rq (now : OffsetDateTime) : Dispatch DispatchedOperation :=
  let! assignment := on_accounts DispatchRole (find_role_assignment (rq_actor rq)) in
  match assignment with
  | None => mfail NotAuthorized
  | Some assignment =>
  if negb (allows_dispatch (ra_role assignment) (ra_site_id assignment) (rq_site_id rq))
  then mfail NotAuthorized
  else
  let! endpoint := on_projections DispatchProjection (find_endpoint_projection (rq_endpoint_id rq)) in
  match endpoint with
  | None => mfail (UnknownEndpoint (rq_endpoint_id rq))
  | Some endpoint =>
  if decide (cp_site_id endpoint ≠ Some (rq_site_id rq))
  then mfail (EndpointNotInSite (rq_endpoint_id rq) (rq_site_id rq))
  else
  let target := rq_target_odata_id rq in
  let! known := on_projections DispatchProjection (has_resource (rq_endpoint_id rq) target) in
  if negb known then mfail (UnknownTarget (rq_endpoint_id rq) target)
  else
  let! existing := find_undecided rq now in
  match existing with
  | Some existing => mret existing
  | None =>
  let! unknown := find_unknown_outcome rq in
  match unknown with
  | Some operation_id => mfail (UnknownOutcomePending operation_id)
  | None =>
      let operation_id := di_operation ids in
      let expires_at := now + CENTER_OFFER_TTL in
      let operation := Operation_new operation_id SourceCenter
        [mk_operation_target (di_target ids) (rq_endpoint_id rq)] (rq_command rq) now in
      do! on_operations DispatchOperation (store_create_operation operation) in
      let! _ := enqueue_offer rq operation_id expires_at now in
      mret (mk_dispatched operation_id expires_at)
  end end end end.
End dispatch.
