(* ===== verification/DispatchSafety.v ===== *)
(** * DispatchSafety: one operation per decision, one target per operation

    What [dispatch] does to the queue and to the operations, and the invariant
    every outcome of it keeps. *)
From S2P Require Import Prelude Text Operation OperationEngine CenterDomain LinkMessages Database CenterOutbox Accounts AccountStore SiteSync CenterStores CenterDispatch.
Local Open Scope Z_scope.

(** ** Queues *)

Section queue.
Context `{EnvelopeJson} `{UuidText}.
Implicit Types (es : Entries) (e f : OutboxEntry).

(** What acknowledgements may do to a queue: the rows left were there, but for
    their state, and an operation that was offered to an instance still is. *)
Record shrinks es es' : Prop := {
  shrinks_from k f : es' !! k = Some f →
    ∃ g, es !! k = Some g ∧ oe_instance_id f = oe_instance_id g ∧ oe_sequence f = oe_sequence g ∧
      oe_payload_json f = oe_payload_json g ∧ oe_created_at f = oe_created_at g ∧
      (oe_state f = OutboxPending → f = g);
  shrinks_keeps k f o : es !! k = Some f → entry_operation_id f = Some o →
    ∃ k' f', es' !! k' = Some f' ∧ oe_instance_id f' = oe_instance_id f ∧ entry_operation_id f' = Some o;
  shrinks_top k f : es !! k = Some f →
    ∃ k' f', es' !! k' = Some f' ∧ oe_instance_id f' = oe_instance_id f ∧ oe_sequence f <= oe_sequence f';
}.

#[export] Instance shrinks_refl : Reflexive shrinks.
Proof.
  intros es. split; [intros k f Hf; by exists f | intros k f o Hf Ho; by exists k, f|].
  intros k f Hf. by exists k, f.
Qed.

#[export] Instance shrinks_trans : Transitive shrinks.
Proof.
  intros es1 es2 es3 [Hf1 Hk1 Ht1] [Hf2 Hk2 Ht2]. split.
  - intros k f (g & Hg & Hi & Hs & Hp & Hc & Hpend)%Hf2.
    apply Hf1 in Hg as (h & Hh & Hi' & Hs' & Hp' & Hc' & Hpend'). exists h.
    do 5 (split; [congruence|]). intros Hpe. pose proof (Hpend Hpe) as Heq. rewrite Heq in Hpe |- *.
    by apply Hpend'.
  - intros k f o Hf Ho. destruct (Hk1 _ _ _ Hf Ho) as (k1 & f1 & Hf1' & Hi1 & Ho1).
    destruct (Hk2 _ _ _ Hf1' Ho1) as (k2 & f2 & Hf2' & Hi2 & Ho2). exists k2, f2. by rewrite Hi2.
  - intros k f Hf. destruct (Ht1 _ _ Hf) as (k1 & f1 & Hf1' & Hi1 & Hle1).
    destruct (Ht2 _ _ Hf1') as (k2 & f2 & Hf2' & Hi2 & Hle2). exists k2, f2. rewrite Hi2.
    split; [done|]. split; [done|lia].
Qed.

Lemma acknowledged_shrinks id at_ es es' : acknowledged id at_ es es' → shrinks es es'.
Proof.
  intros Ha. split.
  - intros k f Hf. destruct (acknowledged_from _ _ _ _ _ _ Ha Hf) as (g & Hg & ? & ? & ? & ? & Hp).
    exists g. repeat (split; [done|]). intros Hs. by apply Hp.
  - intros k f o Hf Ho. by eapply acknowledged_keeps.
  - intros k f Hf. destruct Ha as (e & He & Hsub & Hgone).
    assert (∃ g, <[id:=acked_entry e at_]> es !! k = Some g ∧ oe_instance_id g = oe_instance_id f ∧
      oe_sequence g = oe_sequence f) as (g & Hg & Hi & Hs).
    { destruct (decide (k = id)) as [->|Hne]; [|by exists f; rewrite lookup_insert_ne].
      exists (acked_entry e at_). rewrite lookup_insert_eq. assert (e = f) as -> by congruence.
      by destruct (acked_entry_same f at_) as (_ & ? & ? & _). }
    destruct (es' !! k) as [h|] eqn:Hh.
    + pose proof (lookup_weaken _ _ _ _ Hh Hsub). simplify_eq. exists k, g. by rewrite Hi, Hs.
    + destruct (Hgone _ _ Hg Hh) as (_ & k' & f' & Hf' & Hi' & _ & _ & _ & Hle). exists k', f'.
      rewrite Hi', Hi. split; [done|]. split; [done|lia].
Qed.

Definition entry_key e : option str := canonical_target_key ∘ of_target <$> payload_offer (oe_payload_json e).

(** [o] has been offered; with the target key [t]. *)
Definition offered es (o : OperationId) : Prop := ∃ k e, es !! k = Some e ∧ entry_operation_id e = Some o.
Definition offered_at es (o : OperationId) (t : str) : Prop :=
  ∃ k e, es !! k = Some e ∧ entry_operation_id e = Some o ∧ entry_key e = Some t.

Lemma entry_operation_key e o : entry_operation_id e = Some o → ∃ t, entry_key e = Some t.
Proof.
  unfold entry_operation_id, payload_operation_id, entry_key. intros (offer & -> & _)%bind_Some. by eexists.
Qed.

Lemma offered_has_key es o : offered es o → ∃ t, offered_at es o t.
Proof. intros (k & e & He & Ho). destruct (entry_operation_key _ _ Ho) as [t Ht]. by exists t, k, e. Qed.

Lemma offered_at_offered es o t : offered_at es o t → offered es o.
Proof. intros (k & e & He & Ho & _). by exists k, e. Qed.

Lemma shrinks_offered_at es es' o t : shrinks es es' → offered_at es' o t → offered_at es o t.
Proof.
  intros [Hfrom _ _] (k & f & Hf & Ho & Ht). apply Hfrom in Hf as (g & Hg & _ & _ & Hp & _ & _).
  exists k, g. unfold entry_operation_id, entry_key in *. by rewrite <- Hp.
Qed.

Lemma shrinks_offered es es' o : shrinks es es' → offered es o → offered es' o.
Proof.
  intros [_ Hk _] (k & f & Hf & Ho). destruct (Hk _ _ _ Hf Ho) as (k' & f' & Hf' & _ & Ho'). by exists k', f'.
Qed.

(** No stamp of the queue is later than [now]. *)
Definition stamps_ok es (now : OffsetDateTime) : Prop := ∀ k e, es !! k = Some e → oe_created_at e <= now.

Lemma shrinks_stamps es es' now : shrinks es es' → stamps_ok es now → stamps_ok es' now.
Proof. intros [Hf _ _] Hs k f (g & Hg & _ & _ & _ & -> & _)%Hf. by eapply Hs. Qed.

Lemma enqueued_stamps entry instance message now es es' e :
  enqueued entry instance message now es es' e → stamps_ok es now → stamps_ok es' now.
Proof.
  intros [_ -> He _ _] Hs k f. rewrite lookup_insert_Some. intros [[_ <-]|[_ Hf]]; [|by eapply Hs].
  rewrite He. simpl. lia.
Qed.
End queue.

(** ** The calls *)

Section dispatch.
Context {Command Sop Sob Sac Spr Sin Eop Eob Eac Epr Ein : Type} `{EqDecision Command}.
Context `{OperationStoreLaws Command Sop Eop} `{!EndpointListing Command Sop Eop}.
Context `{!EndpointListingLaws Command Sop Eop}.
Context `{EnvelopeJsonLaws} `{UuidText}.
Context `{!OutboxStore Sob Eob} `{!OutboxStoreLaws Sob Eob}.
Context `{AccountStoreLaws Sac Eac} `{ProjectionReadsLaws Spr Epr} `{InboxStoreLaws Sin Ein}.
Context (command_to_vec : Command → option (list N)) (from_unix_timestamp : Z → option OffsetDateTime)
  (ids : DispatchIds).
Abbreviation St := (Center Sop Sob Sac Spr Sin).
Abbreviation Error := (CenterDispatchError Epr Eop Eob Eac).
Implicit Types (s : St) (rq : CenterOperationRequest Command) (es : Entries).

Abbreviation facts_in := (offer_facts from_unix_timestamp).

(** A call that changed the queue alone. *)
Definition queue_effect {A} (P : Entries → Entries → result A Error → Prop) s s' (r : result A Error) : Prop :=
  center_ok s' ∧ ∃ es, center_view s' = with_entries (center_view s) es ∧
    P (cv_entries (center_view s)) es r.

Lemma with_entries_same (v : CenterView Command) : with_entries v (cv_entries v) = v.
Proof. by destruct v. Qed.
Lemma with_entries_twice (v : CenterView Command) es es' :
  with_entries (with_entries v es) es' = with_entries v es'.
Proof. done. Qed.

Lemma offer_facts_inv e fact :
  facts_in e = Some fact →
  entry_operation_id e = Some (fa_operation_id fact) ∧
  entry_key e = Some (canonical_target_key (fa_target fact)) ∧
  fa_entry_id fact = oe_id e ∧ fa_sequence fact = oe_sequence e.
Proof.
  unfold offer_facts, entry_operation_id, payload_operation_id, entry_key, payload_offer.
  intros (envelope & -> & (message & -> & Hm)%bind_Some)%bind_Some.
  destruct message; try done. apply bind_Some in Hm as (o & Ho & [= <-]). simpl. by rewrite Ho.
Qed.

Lemma offer_facts_total e o : entry_operation_id e = Some o → ∃ fact, facts_in e = Some fact.
Proof.
  unfold offer_facts, entry_operation_id, payload_operation_id, payload_offer.
  intros (offer & Hoffer & Ho)%bind_Some.
  destruct (envelope_from_json (oe_payload_json e)) as [env|]; [|done]. simpl.
  destruct (en_message env) as [[]|]; try done. simplify_eq/=. rewrite Ho. by eexists.
Qed.

(** Facts that stand for rows of the queue. *)
Definition facts_sound es (site : InstanceId) (facts : list OfferFact) : Prop :=
  ∀ fact, fact ∈ facts → ∃ e, es !! fa_entry_id fact = Some e ∧ facts_in e = Some fact ∧
                              is_pending_of site e.

Lemma pending_of_elem s site e :
  entries_ok (c_outbox s) → e ∈ pending_of site (cv_entries (center_view s)) ↔
  cv_entries (center_view s) !! oe_id e = Some e ∧ is_pending_of site e.
Proof. intros Hok. apply pending_of_spec. intros k f. by apply law_entries_keyed. Qed.

Lemma listed_facts_sound s site limit :
  entries_ok (c_outbox s) →
  facts_sound (cv_entries (center_view s)) site
    (omap facts_in (take limit (pending_of site (cv_entries (center_view s))))).
Proof.
  intros Hok fact. rewrite list_elem_of_omap. intros (e & Hin & Hfact).
  apply elem_of_take in Hin as (i & Hi & _). apply list_elem_of_lookup_2 in Hi.
  apply pending_of_elem in Hi as [He Hp]; [|done].
  destruct (offer_facts_inv _ _ Hfact) as (_ & _ & Hid & _). exists e. by rewrite Hid.
Qed.

(** A loop of acknowledgements. *)
Lemma acknowledge_all (facts : list OfferFact) now s s' r :
  center_ok s → stamps_ok (cv_entries (center_view s)) now →
  mfor facts (λ fact, on_outbox (DispatchOutbox (Epr := Epr) (Eop := Eop) (Eac := Eac))
                        (acknowledge (fa_entry_id fact) now)) s = (s', r) →
  queue_effect (λ es es' r, shrinks es es' ∧
    (r = Ok () → ∀ fact e, fact ∈ facts → es' !! fa_entry_id fact = Some e → oe_state e = OutboxAcked))
    s s' r.
Proof.
  revert s. induction facts as [|fact facts IH]; intros s Hok Hst Hrun; simpl in Hrun.
  { injection Hrun as <- <-. split; [done|]. exists (cv_entries (center_view s)).
    rewrite with_entries_same. split; [done|]. split; [done|]. by intros _ ? ? []%elem_of_nil. }
  apply mbind_inv in Hrun as [([] & s1 & Ha & Hrun)|(x & Ha & ->)].
  all: apply center_acknowledge in Ha as (Hok1 & Hv1); [|done|by intros; eapply Hst].
  - destruct Hv1 as (es1 & Hack & Hv1). pose proof (acknowledged_shrinks _ _ _ _ Hack) as Hsh1.
    apply IH in Hrun as (Hok' & es' & Hv' & Hsh & Hrest); [|done|rewrite Hv1; by eapply shrinks_stamps].
    rewrite Hv1 in Hv', Hsh. split; [done|]. exists es'. split; [by rewrite Hv', with_entries_twice|].
    split; [by etrans|]. intros Hr g e Hg He. apply elem_of_cons in Hg as [->|Hg]; [|by eapply Hrest].
    apply (shrinks_from _ _ Hsh) in He as (h & Hh & _ & _ & _ & _ & Hpend).
    destruct (oe_state e) eqn:Hse; [|done]. specialize (Hpend eq_refl). subst h.
    destruct (acknowledged_from _ _ _ _ _ _ Hack Hh) as (? & ? & ? & ? & ? & ? & Hne).
    by destruct (Hne Hse) as [? Hkk].
  - split; [done|]. exists (cv_entries (center_view s)). rewrite with_entries_same. done.
Qed.

(** *** Settling *)

Definition pending_offer es (site : InstanceId) (o : OperationId) (k : OutboxEntryId) e : Prop :=
  es !! k = Some e ∧ is_pending_of site e ∧ entry_operation_id e = Some o.

Definition single_pending es (site : InstanceId) (o : OperationId) : Prop :=
  ∀ k k' e e', pending_offer es site o k e → pending_offer es site o k' e' → k = k'.

Definition pending_count es (site : InstanceId) : nat := length (pending_of site es).

Lemma pending_shrinks es es' site o k e :
  shrinks es es' → pending_offer es' site o k e → pending_offer es site o k e.
Proof.
  intros Hsh (He & [Hi Hs] & Ho). destruct (shrinks_from _ _ Hsh _ _ He) as (g & Hg & _ & _ & _ & _ & Heq).
  specialize (Heq Hs). by subst g.
Qed.

Lemma single_shrinks es es' site o : shrinks es es' → single_pending es site o → single_pending es' site o.
Proof. intros Hsh Hs k k' e e' Hk Hk'. eapply Hs; by eapply pending_shrinks. Qed.

Lemma settle_spec rq o now s s' r :
  center_ok s → stamps_ok (cv_entries (center_view s)) now →
  settle_duplicate_offers (Epr := Epr) (Eop := Eop) (Eac := Eac) from_unix_timestamp rq o now s = (s', r) →
  queue_effect (λ es es' r, shrinks es es' ∧
    (r = Ok () → (pending_count es (rq_site_id rq) <= Z.to_nat CENTER_DISPATCH_OFFER_SCAN_LIMIT)%nat →
     single_pending es' (rq_site_id rq) o)) s s' r.
Proof.
  intros Hok Hst Hrun. unfold settle_duplicate_offers in Hrun.
  apply mbind_inv in Hrun as [(l & s1 & Hl & Hrun)|(x & Hl & ->)];
    apply center_list_pending in Hl as (Hok1 & Hv1 & Hl); try done.
  2: { split; [done|]. exists (cv_entries (center_view s)). by rewrite with_entries_same, Hv1. }
  specialize (Hl _ eq_refl). set (rows := merge_sort fact_le _) in Hrun.
  apply acknowledge_all in Hrun as (Hok' & es' & Hv' & Hsh & Hacked); [|done|by rewrite Hv1].
  rewrite Hv1 in Hv', Hsh. split; [done|]. exists es'. split; [done|]. split; [done|].
  intros Hr Hcount. specialize (Hacked Hr).
  assert (∀ k e, pending_offer es' (rq_site_id rq) o k e →
    ∃ fact, head (reverse rows) = Some fact ∧ fa_entry_id fact = k) as Hhead.
  { intros k e Hp. pose proof Hp as (He' & [_ Hse] & _). apply (pending_shrinks _ _ _ _ _ _ Hsh) in Hp as (He & Hpe & Ho).
    pose proof Hok as (_ & Hob & _). pose proof (law_entries_keyed _ _ _ Hob He) as Hk.
    destruct (offer_facts_total _ _ Ho) as [fact Hfact].
    destruct (offer_facts_inv _ _ Hfact) as (Hfo & _ & Hfid & _).
    assert (fact ∈ reverse rows) as Hin.
    { rewrite elem_of_reverse. unfold rows. rewrite merge_sort_Permutation. apply list_elem_of_filter.
      split; [congruence|]. apply list_elem_of_omap. exists e. split; [|done].
      rewrite Hl, take_ge by done. apply pending_of_elem; [done|]. by rewrite Hk. }
    exists fact. split; [|congruence]. destruct (reverse rows) as [|g rest] eqn:Hrev; [by apply elem_of_nil in Hin|].
    simpl. apply elem_of_cons in Hin as [->|Hin]; [done|].
    specialize (Hacked fact e). simpl in Hacked. rewrite drop_0 in Hacked.
    rewrite Hfid, Hk in Hacked. by rewrite (Hacked Hin He') in Hse. }
  intros k k' e e' (g & Hg & <-)%Hhead (g' & Hg' & <-)%Hhead. congruence.
Qed.

(** *** Offering *)

Lemma enqueue_offer_spec rq o expires now s s' r :
  center_ok s → enqueue_offer (Epr := Epr) (Eop := Eop) (Eac := Eac) command_to_vec ids rq o expires now s = (s', r) →
  center_ok s' ∧
  match r with
  | Ok e => ∃ json es, command_to_vec (rq_command rq) = Some json ∧
      enqueued (di_entry ids) (rq_site_id rq) (MsgOffer (offer_for rq o json expires)) now
        (cv_entries (center_view s)) es e ∧ center_view s' = with_entries (center_view s) es
  | Err _ => center_view s' = center_view s
  end.
Proof.
  intros Hok Hrun. unfold enqueue_offer in Hrun.
  apply mbind_inv in Hrun as [(json & s1 & Hj & Hrun)|(x & Hj & ->)]; injection Hj as -> Hj; [|done].
  apply center_enqueue in Hrun as (Hok' & Hr); [|done]. split; [done|]. destruct r as [e|]; [|done].
  destruct Hr as (es & He & Hv). exists json, es. by destruct (command_to_vec (rq_command rq)); simplify_eq/=.
Qed.

Lemma enqueued_facts entry site offer o now es es' e :
  enqueued entry site (MsgOffer offer) now es es' e → parse_uuid (of_operation_id offer) = Some o →
  es' = <[entry := e]> es ∧ es !! entry = None ∧ entry_operation_id e = Some o ∧
  entry_key e = Some (canonical_target_key (of_target offer)) ∧
  payload_offer (oe_payload_json e) = Some offer ∧ is_pending_of site e ∧ oe_id e = entry.
Proof.
  intros [Hfresh -> He Hpay _] Ho.
  assert (payload_offer (oe_payload_json e) = Some offer) as Hoffer by (unfold payload_offer; by rewrite Hpay).
  unfold entry_operation_id, payload_operation_id, entry_key. rewrite Hoffer. simpl.
  repeat (split; [done|]). unfold is_pending_of. by rewrite He.
Qed.

(** The operation is offered once more: old offers may be acknowledged before and
    after. *)
Definition retried rq (o : OperationId) (now : OffsetDateTime) es es' : Prop :=
  ∃ json es1 es2 e, command_to_vec (rq_command rq) = Some json ∧ shrinks es es1 ∧
    enqueued (di_entry ids) (rq_site_id rq) (MsgOffer (offer_for rq o json (now + CENTER_OFFER_TTL)))
      now es1 es2 e ∧ shrinks es2 es'.

Definition settled_if rq (o : OperationId) es es' : Prop :=
  (pending_count es (rq_site_id rq) < Z.to_nat CENTER_DISPATCH_OFFER_SCAN_LIMIT)%nat →
  single_pending es' (rq_site_id rq) o.

Lemma pending_count_le es es' site (extra : list OutboxEntryId) :
  (∀ k e, es' !! k = Some e → oe_id e = k) →
  (∀ k e, es' !! k = Some e → is_pending_of site e → es !! k = Some e ∨ k ∈ extra) →
  (∀ k e, es !! k = Some e → oe_id e = k) →
  (pending_count es' site <= pending_count es site + length extra)%nat.
Proof.
  intros Hkey' Hin Hkey. unfold pending_count.
  assert (∀ v, entries_keyed v → ∀ k,
    k ∈ oe_id <$> pending_of site v ↔ ∃ e, v !! k = Some e ∧ is_pending_of site e) as Helem.
  { intros v Hv k. rewrite list_elem_of_fmap. split.
    - intros (e & -> & [He Hp]%pending_of_spec); [|done]. by exists e.
    - intros (e & He & Hp). exists e. rewrite (Hv _ _ He). split; [done|].
      apply pending_of_spec; [done|]. by rewrite (Hv _ _ He). }
  rewrite <- (length_fmap oe_id (pending_of site es')), <- (length_fmap oe_id (pending_of site es)), <- length_app.
  apply submseteq_length, NoDup_submseteq; [by apply pending_of_nodup|].
  intros k. rewrite elem_of_app, !Helem by done. intros (e & He & Hp).
  destruct (Hin _ _ He Hp); [left; by exists e|by right].
Qed.

Lemma deliver_retry_spec rq o now s s' r :
  center_ok s → stamps_ok (cv_entries (center_view s)) now →
  deliver_retry (Epr := Epr) (Eop := Eop) (Eac := Eac) command_to_vec from_unix_timestamp ids rq o now s = (s', r) →
  queue_effect (λ es es' r,
    match r with
    | Ok d => d = mk_dispatched o (now + CENTER_OFFER_TTL) ∧ retried rq o now es es' ∧ settled_if rq o es es'
    | Err _ => es' = es ∨ retried rq o now es es'
    end) s s' r.
Proof.
  intros Hok Hst Hrun. unfold deliver_retry in Hrun. cbv zeta in Hrun.
  apply mbind_inv in Hrun as [(e & s1 & He & Hrun)|(x & He & ->)];
    apply enqueue_offer_spec in He as (Hok1 & He); try done.
  2: { split; [done|]. exists (cv_entries (center_view s)). rewrite with_entries_same. auto. }
  destruct He as (json & es1 & Hj & Hen & Hv1).
  assert (∀ es', shrinks es1 es' → retried rq o now (cv_entries (center_view s)) es') as Hret.
  { intros es' Hsh. by exists json, (cv_entries (center_view s)), es1, e. }
  assert (stamps_ok (cv_entries (center_view s1)) now) as Hst1 by (rewrite Hv1; by eapply enqueued_stamps).
  apply mbind_inv in Hrun as [([] & s2 & Hs & Hrun)|(x & Hs & ->)];
    apply settle_spec in Hs as (Hok2 & es2 & Hv2 & Hsh & Hset); try done; rewrite Hv1 in *; simpl in *.
  - injection Hrun as <- <-. split; [done|]. exists es2. rewrite Hv2, with_entries_twice. split; [done|].
    split; [done|]. split; [by apply Hret|]. intros Hcount. apply Hset; [done|].
    pose proof Hok as (_ & Hob & _). pose proof Hok1 as (_ & Hob1 & _).
    assert (pending_count es1 (rq_site_id rq) <= pending_count (cv_entries (center_view s)) (rq_site_id rq) + 1)%nat.
    { apply (pending_count_le _ _ _ [di_entry ids]).
      - intros k f Hf. eapply (law_entries_keyed _ _ _ Hob1). change (entries (c_outbox s1)) with (cv_entries (center_view s1)). by rewrite Hv1.
      - intros k f Hf _. rewrite (enqueued_view _ _ _ _ _ _ _ Hen) in Hf.
        apply lookup_insert_Some in Hf as [[<- _]|[_ Hf]]; [right; by left|by left].
      - intros k f Hf. by eapply (law_entries_keyed _ _ _ Hob). }
    lia.
  - split; [done|]. exists es2. rewrite Hv2, with_entries_twice. split; [done|]. right. by apply Hret.
Qed.

(** *** Resolving a candidate *)

Abbreviation rq_key rq := (canonical_target_key (rq_target_odata_id rq)).

Lemma newest_fact_elem facts fact : newest_fact facts = Some fact → fact ∈ facts.
Proof.
  unfold newest_fact.
  assert (∀ best, foldl (λ best fact, match best with
      | None => Some fact
      | Some b => if decide (fact_le b fact) then Some fact else Some b end) best facts = Some fact →
    fact ∈ facts ∨ best = Some fact) as Hgen.
  { induction facts as [|g facts IH]; intros best Hf; simpl in Hf; [by right|].
    apply IH in Hf as [Hf|Hf]; [left; by right|].
    destruct best as [b|]; [case_decide|]; simplify_eq; [left; by left|by right|left; by left]. }
  intros Hf. apply Hgen in Hf as [Hf|Hf]; done.
Qed.

Lemma newest_fact_None facts : newest_fact facts = None → facts = [].
Proof.
  unfold newest_fact. destruct facts as [|g facts]; [done|]. simpl. revert g.
  induction facts as [|h facts IH]; intros b; simpl; [done|]. case_decide; intros Hf; by apply IH in Hf.
Qed.

Lemma retried_shrinks rq o now es es1 es' : retried rq o now es es1 → shrinks es1 es' → retried rq o now es es'.
Proof.
  intros (json & es2 & es3 & e & Hj & Hs & Hen & Hs') Hsh. exists json, es2, es3, e.
  repeat (split; [done|]). by etrans.
Qed.

Lemma shrinks_retried rq o now es es1 es' : shrinks es es1 → retried rq o now es1 es' → retried rq o now es es'.
Proof.
  intros Hsh (json & es2 & es3 & e & Hj & Hs & Hen & Hs'). exists json, es2, es3, e.
  split; [done|]. split; [by etrans|]. done.
Qed.

(** The operation has an offer for the target of the request that has not run out. *)
Definition live_offer rq (o : OperationId) (now : OffsetDateTime) es (d : DispatchedOperation) : Prop :=
  ∃ k e fact, es !! k = Some e ∧ facts_in e = Some fact ∧ fa_operation_id fact = o ∧
    same_target rq (fa_target fact) ∧ now <= fa_expires_at fact ∧
    d = mk_dispatched o (fa_expires_at fact).

Definition retried_with rq o now es es' (d : DispatchedOperation) : Prop :=
  d = mk_dispatched o (now + CENTER_OFFER_TTL) ∧ retried rq o now es es' ∧ settled_if rq o es es'.

Lemma settled_shrinks rq o es es1 es' :
  (∀ k e, es !! k = Some e → oe_id e = k) → (∀ k e, es1 !! k = Some e → oe_id e = k) →
  shrinks es es1 → settled_if rq o es1 es' → settled_if rq o es es'.
Proof.
  intros Hk Hk1 Hsh Hset Hc. apply Hset.
  pose proof (pending_count_le es es1 (rq_site_id rq) [] Hk1) as Hle. simpl in Hle.
  assert (pending_count es1 (rq_site_id rq) <= pending_count es (rq_site_id rq) + 0)%nat; [|lia].
  apply Hle; [|done]. intros k e He [_ Hs].
  destruct (shrinks_from _ _ Hsh _ _ He) as (g & Hg & _ & _ & _ & _ & Heq). left. by rewrite (Heq Hs).
Qed.

Lemma center_keyed s : center_ok s → ∀ k e, cv_entries (center_view s) !! k = Some e → oe_id e = k.
Proof. intros (_ & Hob & _) k e. by apply law_entries_keyed. Qed.

Lemma resolve_spec rq o facts now s s' r :
  center_ok s → stamps_ok (cv_entries (center_view s)) now →
  facts_sound (cv_entries (center_view s)) (rq_site_id rq) facts →
  resolve_candidate (Epr := Epr) (Eop := Eop) (Eac := Eac) command_to_vec from_unix_timestamp ids rq o facts now s = (s', r) →
  queue_effect (λ es es' r,
    match r with
    | Ok NeverEnqueued => es' = es ∧ ¬ offered es o
    | Ok DifferentTarget => es' = es ∧ ∃ t, offered_at es o t ∧ t ≠ rq_key rq
    | Ok (Resolved d) => offered_at es o (rq_key rq) ∧
        ((es' = es ∧ live_offer rq o now es d) ∨ retried_with rq o now es es' d)
    | Err _ => shrinks es es' ∨ (offered_at es o (rq_key rq) ∧ retried rq o now es es')
    end) s s' r.
Proof.
  intros Hok Hst Hfacts Hrun. unfold resolve_candidate in Hrun. cbv zeta in Hrun.
  set (rows := facts_of o facts) in *. set (es := cv_entries (center_view s)) in *.
  assert (center_view s = with_entries (center_view s) es) as Hself by (unfold es; by rewrite with_entries_same).
  apply mbind_inv in Hrun as [([newest directed] & s1 & Hfound & Hrun)|(x & Hfound & ->)].
  2: { destruct (newest_fact rows); [done|]. apply mbind_inv in Hfound as [(entry & s1 & _ & [=])|(y & Hf & _)].
       apply center_find_offer_across in Hf as (Hok1 & Hv1 & _); [|done].
       split; [done|]. exists es. rewrite Hv1. split; [done|]. by left. }
  assert (center_ok s1 ∧ center_view s1 = center_view s ∧
    match newest with
    | None => ¬ offered es o
    | Some n => ∃ k e, es !! k = Some e ∧ facts_in e = Some n ∧ fa_operation_id n = o
    end) as (Hok1 & Hv1 & Hnew).
  { destruct (newest_fact rows) as [n|] eqn:Hn.
    - injection Hfound as <- <- <-. split; [done|]. split; [done|].
      apply newest_fact_elem in Hn. unfold rows, facts_of in Hn. apply list_elem_of_filter in Hn as [Ho Hn].
      destruct (Hfacts _ Hn) as (e & He & Hf & _). by exists (fa_entry_id n), e.
    - apply mbind_ok in Hfound as (entry & s2 & Hf & Hret). injection Hret as <- <- <-.
      apply center_find_offer_across in Hf as (Hok1 & Hv1 & Hf); [|done]. split; [done|]. split; [done|].
      specialize (Hf _ eq_refl). unfold finds_offer, finds in Hf. destruct entry as [e|]; simpl.
      + destruct Hf as [[k He] [_ Ho]]. destruct (offer_facts_total _ _ Ho) as [n Hfn].
        rewrite Hfn. exists k, e. destruct (offer_facts_inv _ _ Hfn) as [Ho' _]. split; [done|].
        split; [done|]. congruence.
      + intros (k & e & He & Ho). by eapply Hf. }
  destruct newest as [n|].
  2: { injection Hrun as <- <-. split; [done|]. exists es. by rewrite Hv1. }
  destruct Hnew as (k & e & He & Hfn & Hno). destruct (offer_facts_inv _ _ Hfn) as (Hoe & Hke & _ & _).
  assert (offered_at es o (canonical_target_key (fa_target n))) as Hoff.
  { exists k, e. by rewrite <- Hno. }
  unfold same_target in Hrun. case_decide as Htgt.
  { injection Hrun as <- <-. split; [done|]. exists es. rewrite Hv1. split; [done|]. split; [done|]. by eexists. }
  rewrite Htgt in Hoff. destruct (fa_expires_at n <? now) eqn:Hexp.
  2: { injection Hrun as <- <-. split; [done|]. exists es. rewrite Hv1. split; [done|]. split; [done|].
       left. split; [done|]. exists k, e, n. repeat (split; [done|]). split; [lia|done]. }
  assert (stamps_ok (cv_entries (center_view s1)) now) as Hst1 by by rewrite Hv1.
  apply mbind_inv in Hrun as [([] & s2 & Ha & Hrun)|(x & Ha & ->)];
    apply acknowledge_all in Ha as (Hok2 & es2 & Hv2 & Hsh2 & _); try done; rewrite Hv1 in Hv2, Hsh2; fold es in Hsh2.
  2: { split; [done|]. exists es2. split; [done|]. by left. }
  assert (stamps_ok (cv_entries (center_view s2)) now) as Hst2 by (rewrite Hv2; by eapply shrinks_stamps).
  apply mbind_inv in Hrun as [([] & s3 & Hd & Hrun)|(x & Hd & ->)].
  - assert (center_ok s3 ∧ ∃ es3, center_view s3 = with_entries (center_view s) es3 ∧ shrinks es es3) as (Hok3 & es3 & Hv3 & Hsh3).
    { destruct directed as [g|]; [|injection Hd as <-; split; [done|]; by exists es2].
      apply center_acknowledge in Hd as (Hok3 & es3 & Hack & Hv3); [|done|by intros; eapply Hst2].
      split; [done|]. exists es3. rewrite Hv3, Hv2, with_entries_twice. split; [done|].
      etrans; [done|]. rewrite Hv2 in Hack. by eapply acknowledged_shrinks. }
    assert (stamps_ok (cv_entries (center_view s3)) now) as Hst3 by (rewrite Hv3; by eapply shrinks_stamps).
    apply mbind_inv in Hrun as [(d & s4 & Hr & Hrun)|(x & Hr & ->)];
      apply deliver_retry_spec in Hr as (Hok4 & es4 & Hv4 & Hr); try done; rewrite Hv3 in Hv4, Hr; simpl in Hr.
    + injection Hrun as <- <-. split; [done|]. exists es4. rewrite Hv4, with_entries_twice. split; [done|].
      split; [done|]. destruct Hr as (-> & Hret & Hset). right. split; [done|].
      split; [by eapply shrinks_retried|]. eapply settled_shrinks; [by apply center_keyed| |exact Hsh3|done].
      pose proof (center_keyed _ Hok3) as Hk3. by rewrite Hv3 in Hk3.
    + split; [done|]. exists es4. rewrite Hv4, with_entries_twice. split; [done|].
      destruct Hr as [->|Hret]; [by left|]. right. split; [done|]. by eapply shrinks_retried.
  - destruct directed as [g|]; [|done].
    apply center_acknowledge in Hd as (Hok3 & Hv3); [|done|by intros; eapply Hst2].
    split; [done|]. exists es2. rewrite Hv3, Hv2. split; [done|]. by left.
Qed.

(** *** The search for an operation on its way *)

(** The operation of a request stands: it has a live offer, or it was offered once
    more. *)
Definition stands rq (o : OperationId) now es es' (d : DispatchedOperation) : Prop :=
  (shrinks es es' ∧ live_offer rq o now es d ∨
   d = mk_dispatched o (now + CENTER_OFFER_TTL) ∧ retried rq o now es es') ∧
  settled_if rq o es es'.

Definition apart es (o : OperationId) (key : str) : Prop :=
  ¬ offered es o ∨ ∃ t, offered_at es o t ∧ t ≠ key.

Definition first_resolved_post rq (candidates : list OperationId) now es es'
    (r : result (option DispatchedOperation) Error) : Prop :=
  match r with
  | Ok None => es' = es ∧ ∀ o, o ∈ candidates → apart es o (rq_key rq)
  | Ok (Some d) => ∃ o, o ∈ candidates ∧ offered_at es o (rq_key rq) ∧ stands rq o now es es' d
  | Err _ => shrinks es es' ∨ ∃ o, o ∈ candidates ∧ offered_at es o (rq_key rq) ∧ retried rq o now es es'
  end.

Lemma first_resolved_skip rq o candidates now es es' r :
  apart es o (rq_key rq) → first_resolved_post rq candidates now es es' r →
  first_resolved_post rq (o :: candidates) now es es' r.
Proof.
  intros Hap. destruct r as [[d|]|x]; simpl.
  - intros (o' & Hin & Ho). exists o'. split; [by right|done].
  - intros [-> Hall]. split; [done|]. intros o' [->|Hin]%elem_of_cons; auto.
  - intros [Hsh|(o' & Hin & Ho)]; [by left|]. right. exists o'. split; [by right|done].
Qed.

(** The last step of the search: what was resolved is settled. *)
Lemma settle_resolved rq o d now s s1 s' es1 r :
  center_ok s1 → stamps_ok (cv_entries (center_view s)) now →
  center_view s1 = with_entries (center_view s) es1 →
  offered_at (cv_entries (center_view s)) o (rq_key rq) →
  (es1 = cv_entries (center_view s) ∧ live_offer rq o now (cv_entries (center_view s)) d ∨
   retried_with rq o now (cv_entries (center_view s)) es1 d) →
  (do! settle_duplicate_offers (Epr := Epr) (Eop := Eop) (Eac := Eac) from_unix_timestamp rq o now in mret (Some d)) s1
    = (s', r) →
  queue_effect (first_resolved_post rq [o] now) s s' r.
Proof.
  intros Hok1 Hst Hv1 Hoff Hr Hrun. set (es := cv_entries (center_view s)) in *.
  assert (stamps_ok (cv_entries (center_view s1)) now) as Hst1.
  { rewrite Hv1. simpl. destruct Hr as [[-> _]|(_ & (json & es2 & es3 & e & _ & Hs2 & Hen & Hs3) & _)]; [done|].
    by eapply shrinks_stamps, enqueued_stamps, shrinks_stamps. }
  assert (∀ es2, shrinks es1 es2 → (shrinks es es2 ∧ live_offer rq o now es d ∨
    d = mk_dispatched o (now + CENTER_OFFER_TTL) ∧ retried rq o now es es2)) as Hstand.
  { intros es2 Hsh. destruct Hr as [[-> Hl]|(-> & Hret & _)]; [by left|]. right. split; [done|].
    by eapply retried_shrinks. }
  apply mbind_inv in Hrun as [([] & s2 & Hs & Hrun)|(x & Hs & ->)];
    apply settle_spec in Hs as (Hok2 & es2 & Hv2 & Hsh & Hset); try done; rewrite Hv1 in *; simpl in *.
  - injection Hrun as <- <-. split; [done|]. exists es2. rewrite Hv2, with_entries_twice. split; [done|].
    exists o. split; [by left|]. split; [done|]. split; [by apply Hstand|]. intros Hc.
    destruct Hr as [[-> _]|(_ & _ & Hse)]; [apply Hset; [done|exact (Nat.lt_le_incl _ _ Hc)]|]. eapply single_shrinks; [done|by apply Hse].
  - split; [done|]. exists es2. rewrite Hv2, with_entries_twice. split; [done|].
    destruct (Hstand _ Hsh) as [[Hs' _]|[_ Hret]]; [by left|]. right. exists o. split; [by left|done].
Qed.

Lemma post_weaken rq l k now es es' r :
  (∀ o, o ∈ l → o ∈ k) → r ≠ Ok None → first_resolved_post rq l now es es' r → first_resolved_post rq k now es es' r.
Proof. intros Hlk Hr. destruct r as [[d|]|x]; simpl; naive_solver. Qed.

Lemma first_resolved_spec rq candidates facts now s s' r :
  center_ok s → stamps_ok (cv_entries (center_view s)) now →
  facts_sound (cv_entries (center_view s)) (rq_site_id rq) facts →
  first_resolved (Epr := Epr) (Eop := Eop) (Eac := Eac) command_to_vec from_unix_timestamp ids rq candidates facts now s = (s', r) →
  queue_effect (first_resolved_post rq candidates now) s s' r.
Proof.
  revert s. induction candidates as [|o candidates IH]; intros s Hok Hst Hfacts Hrun; simpl in Hrun.
  { injection Hrun as <- <-. split; [done|]. exists (cv_entries (center_view s)).
    rewrite with_entries_same. split; [done|]. split; [done|]. by intros o []%elem_of_nil. }
  apply mbind_inv in Hrun as [(v & s1 & Hv & Hrun)|(x & Hv & ->)];
    apply resolve_spec in Hv as (Hok1 & es1 & Hv1 & Hr); try done.
  2: { split; [done|]. exists es1. split; [done|]. destruct Hr as [Hsh|[Ho Hret]]; [by left|].
       right. exists o. split; [by left|done]. }
  destruct v as [d| |].
  1: { destruct Hr as [Hoff Hr]. pose proof (settle_resolved _ _ _ _ _ _ _ _ _ Hok1 Hst Hv1 Hoff Hr Hrun) as (Hok' & es' & Hv' & Hp).
       split; [done|]. exists es'. split; [done|]. eapply post_weaken; [|by intros ->; apply mbind_ok in Hrun as (? & ? & _ & [=])|exact Hp].
       intros o' ->%list_elem_of_singleton. by left. }
  all: destruct Hr as [-> Hr]; rewrite with_entries_same in Hv1;
    apply IH in Hrun as (Hok' & es' & Hv' & Hr'); [|done|by rewrite Hv1..]; rewrite Hv1 in *;
    (split; [done|]); exists es'; (split; [done|]); apply first_resolved_skip; [|done];
    unfold apart; by auto.
Qed.

Lemma traverse_listing (states : list OperationState) endpoint s s' r :
  center_ok s →
  mtraverse (λ state, on_operations (DispatchOperation (Epr := Epr) (Eob := Eob) (Eac := Eac))
    (store_list_for_endpoint (Some state) endpoint)) states s = (s', r) →
  reads (center_view (Command := Command)) center_ok (λ v ls, ∀ o, o ∈ concat ls ↔
    v_operations (cv_operations v) !! op_id o = Some o ∧ op_state o ∈ states ∧ on_endpoint_of endpoint o) s s' r.
Proof.
  revert s s' r. induction states as [|st states IH]; intros s s' r Hok Hrun; simpl in Hrun.
  { injection Hrun as <- <-. split; [done|]. split; [done|]. intros x [= <-] o. simpl.
    split; [by intros []%elem_of_nil|]. by intros (_ & []%elem_of_nil & _). }
  apply mbind_inv in Hrun as [(l & s1 & Hl & Hrun)|(x & Hl & ->)];
    apply center_list_for_endpoint in Hl as (Hok1 & Hv1 & Hl); try done.
  apply mbind_inv in Hrun as [(ls & s2 & Hls & Hrun)|(x & Hls & ->)];
    apply IH in Hls as (Hok2 & Hv2 & Hls); try done; rewrite Hv1 in *; [|done].
  injection Hrun as <- <-. split; [done|]. split; [done|]. intros x [= <-] o. simpl.
  rewrite elem_of_app, (Hl _ eq_refl), (Hls _ eq_refl), elem_of_cons. simpl. naive_solver.
Qed.

(** The operations a request may find on their way, and the one it may offer. *)
Definition candidate_in rq (v : CenterView Command) (o : Operation Command) : Prop :=
  v_operations (cv_operations v) !! op_id o = Some o ∧ is_candidate rq o.

Definition may_reoffer rq (v : CenterView Command) (o : Operation Command) : Prop :=
  candidate_in rq v o ∧
  (offered_at (cv_entries v) (op_id o) (rq_key rq) ∨
   ¬ offered (cv_entries v) (op_id o) ∧ ∀ o', candidate_in rq v o' → op_id o' = op_id o).

Lemma on_request_endpoint_any rq (o : Operation Command) :
  on_request_endpoint rq o → on_endpoint_of (rq_endpoint_id rq) o.
Proof.
  unfold on_request_endpoint, on_endpoint_of. destruct (op_targets o) as [|t l]; [done|].
  intros [= Ht]. by left.
Qed.

Lemma candidate_state (st : OperationState) : is_terminal st = false ↔ st ∈ IDEMPOTENCY_CANDIDATE_STATES.
Proof.
  split; [|by intros Hin; repeat (apply elem_of_cons in Hin as [->|Hin]; [done|]); apply elem_of_nil in Hin].
  unfold IDEMPOTENCY_CANDIDATE_STATES. destruct st; try done; intros _; repeat constructor.
Qed.

Lemma candidates_spec rq v (ls : list (list (Operation Command))) :
  (∀ o, o ∈ concat ls ↔ v_operations (cv_operations v) !! op_id o = Some o ∧
    op_state o ∈ IDEMPOTENCY_CANDIDATE_STATES ∧ on_endpoint_of (rq_endpoint_id rq) o) →
  ∀ id, id ∈ op_id <$> merge_sort operation_le (filter (is_candidate rq) (concat ls)) ↔
    ∃ o, op_id o = id ∧ candidate_in rq v o.
Proof.
  intros Hls id. rewrite list_elem_of_fmap. split.
  - intros (o & -> & Hin). rewrite merge_sort_Permutation in Hin.
    apply list_elem_of_filter in Hin as [Hc Hin]. apply Hls in Hin as [Ho _]. by exists o.
  - intros (o & <- & Ho & Hc). exists o. split; [done|]. rewrite merge_sort_Permutation.
    apply list_elem_of_filter. split; [done|]. apply Hls. split; [done|].
    destruct Hc as (_ & Hst & He & _). split; [by apply candidate_state|by apply on_request_endpoint_any].
Qed.

(** The search, on every outcome. *)
Definition undecided_post rq now v es' (r : result (option DispatchedOperation) Error) : Prop :=
  let es := cv_entries v in
  match r with
  | Ok None => es' = es ∧ ∀ o, candidate_in rq v o → apart es (op_id o) (rq_key rq)
  | Ok (Some d) => ∃ o, may_reoffer rq v o ∧ stands rq (op_id o) now es es' d
  | Err _ => shrinks es es' ∨ ∃ o, may_reoffer rq v o ∧ retried rq (op_id o) now es es'
  end.

Lemma post_undecided rq now v candidates es' r :
  (∀ id, id ∈ candidates ↔ ∃ o, op_id o = id ∧ candidate_in rq v o) →
  first_resolved_post rq candidates now (cv_entries v) es' r → undecided_post rq now v es' r.
Proof.
  intros Hc. destruct r as [[d|]|x]; simpl.
  - intros (id & (o & <- & Ho)%Hc & Hoff & Hst). exists o. split; [|done]. split; [done|by left].
  - intros [-> Hall]. split; [done|]. intros o Ho. apply Hall, Hc. by exists o.
  - intros [Hsh|(id & (o & <- & Ho)%Hc & Hoff & Hret)]; [by left|]. right. exists o.
    split; [|done]. split; [done|by left].
Qed.

Lemma find_undecided_spec rq now s s' r :
  center_ok s → stamps_ok (cv_entries (center_view s)) now →
  find_undecided (Epr := Epr) (Eop := Eop) (Eac := Eac) command_to_vec from_unix_timestamp ids rq now s = (s', r) →
  center_ok s' ∧ ∃ es, center_view s' = with_entries (center_view s) es ∧
    undecided_post rq now (center_view s) es r.
Proof.
  intros Hok Hst Hrun. unfold find_undecided in Hrun. cbv zeta in Hrun.
  apply mbind_inv in Hrun as [(ls & s1 & Hls & Hrun)|(x & Hls & ->)];
    apply traverse_listing in Hls as (Hok1 & Hv1 & Hls); try done.
  2: { split; [done|]. exists (cv_entries (center_view s)). rewrite with_entries_same. split; [done|]. by left. }
  pose proof (candidates_spec rq _ _ (Hls _ eq_refl)) as Hc. clear Hls.
  set (candidates := op_id <$> _) in *. case_decide as Hnil.
  { injection Hrun as <- <-. split; [done|]. exists (cv_entries (center_view s)). rewrite with_entries_same.
    split; [done|]. split; [done|]. intros o Ho. destruct (elem_of_nil (op_id o)) as [Hno _].
    destruct Hno. rewrite <- Hnil. apply Hc. by exists o. }
  apply mbind_inv in Hrun as [(entries & s2 & Hl & Hrun)|(x & Hl & ->)];
    apply center_list_pending in Hl as (Hok2 & Hv2 & Hl); try done; rewrite Hv1 in Hv2, Hl.
  2: { split; [done|]. exists (cv_entries (center_view s)). rewrite with_entries_same. split; [done|]. by left. }
  set (facts := omap _ entries) in *.
  assert (facts_sound (cv_entries (center_view s2)) (rq_site_id rq) facts) as Hfacts.
  { unfold facts. rewrite (Hl _ eq_refl), <- Hv2. apply listed_facts_sound. by destruct Hok2 as (_ & ? & _). }
  assert (stamps_ok (cv_entries (center_view s2)) now) as Hst2 by by rewrite Hv2.
  assert (first_resolved (Epr := Epr) (Eop := Eop) (Eac := Eac) command_to_vec from_unix_timestamp ids rq candidates facts now s2 = (s', r) →
    center_ok s' ∧ ∃ es, center_view s' = with_entries (center_view s) es ∧ undecided_post rq now (center_view s) es r) as Hloop.
  { intros (Hok' & es & Hv' & Hp)%first_resolved_spec; [|done..]. rewrite Hv2 in Hv', Hp.
    split; [done|]. exists es. split; [done|]. by eapply post_undecided. }
  clearbody candidates. destruct candidates as [|id [|]]; [done| |by apply Hloop].
  case_decide as Hdir; [|by apply Hloop]. clear Hloop.
  apply mbind_inv in Hrun as [(v & s3 & Hr & Hrun)|(x & Hr & ->)];
    apply resolve_spec in Hr as (Hok3 & es3 & Hv3 & Hr); try done; rewrite Hv2 in Hv3, Hr.
  2: { split; [done|]. exists es3. split; [done|]. apply (post_undecided _ _ _ _ _ _ Hc).
       destruct Hr as [Hsh|[Ho Hret]]; [by left|]. right. exists id. split; [by left|done]. }
  destruct v as [d| |].
  - destruct Hr as [Hoff Hr]. rewrite <- Hv2 in Hoff, Hr, Hv3.
    pose proof (settle_resolved _ _ _ _ _ _ _ _ _ Hok3 Hst2 Hv3 Hoff Hr Hrun) as (Hok' & es' & Hv' & Hp).
    rewrite Hv2 in Hv', Hp. split; [done|]. exists es'. split; [done|]. by eapply post_undecided.
  - destruct Hr as [-> Hno]. rewrite with_entries_same in Hv3.
    destruct (proj1 (Hc id) ltac:(by left)) as (o & <- & Ho).
    assert (may_reoffer rq (center_view s) o) as Hmay.
    { split; [done|]. right. split; [done|]. intros o' Ho'.
      assert (op_id o' ∈ [op_id o]) as Hin by (apply Hc; by exists o'). by apply list_elem_of_singleton in Hin. }
    apply mbind_inv in Hrun as [(d & s4 & Hd & Hrun)|(x & Hd & ->)];
      apply deliver_retry_spec in Hd as (Hok4 & es4 & Hv4 & Hd); try done; try (by rewrite Hv3); rewrite Hv3 in Hv4, Hd.
    + injection Hrun as <- <-. split; [done|]. exists es4. split; [done|]. exists o. split; [done|].
      destruct Hd as (-> & Hret & Hset). split; [by right|done].
    + split; [done|]. exists es4. split; [done|]. destruct Hd as [->|Hret]; [by left|right; by exists o].
  - destruct Hr as [-> (t & Ht & Hne)]. rewrite with_entries_same in Hv3. injection Hrun as <- <-.
    split; [done|]. exists (cv_entries (center_view s)). rewrite with_entries_same. split; [done|].
    apply (post_undecided _ _ _ _ _ _ Hc). split; [done|]. intros o ->%list_elem_of_singleton. right. by exists t.
Qed.

(** *** The operations that ended [Unknown] *)

Definition unknown_in rq (v : CenterView Command) (o : Operation Command) : Prop :=
  v_operations (cv_operations v) !! op_id o = Some o ∧ op_state o = Unknown ∧ is_unknown_match rq o.

Lemma first_confirmed_spec rq matches s s' r :
  center_ok s → first_confirmed (Epr := Epr) (Eop := Eop) (Eac := Eac) from_unix_timestamp rq matches s = (s', r) →
  reads (center_view (Command := Command)) center_ok (λ v x,
    match x with
    | Some id => ∃ o, o ∈ matches ∧ op_id o = id ∧ offered_at (cv_entries v) id (rq_key rq)
    | None => ∀ o, o ∈ matches → apart (cv_entries v) (op_id o) (rq_key rq)
    end) s s' r.
Proof.
  revert s. induction matches as [|o matches IH]; intros s Hok Hrun; simpl in Hrun.
  { injection Hrun as <- <-. split; [done|]. split; [done|]. intros x [= <-] o []%elem_of_nil. }
  apply mbind_inv in Hrun as [(entry & s1 & Hf & Hrun)|(x & Hf & ->)];
    apply center_find_offer_across in Hf as (Hok1 & Hv1 & Hf); try done.
  specialize (Hf _ eq_refl). unfold finds_offer, finds in Hf.
  assert (apart (cv_entries (center_view s)) (op_id o) (rq_key rq) →
    first_confirmed (Epr := Epr) (Eop := Eop) (Eac := Eac) from_unix_timestamp rq matches s1 = (s', r) →
    reads (center_view (Command := Command)) center_ok (λ v x,
      match x with
      | Some id => ∃ o', o' ∈ o :: matches ∧ op_id o' = id ∧ offered_at (cv_entries v) id (rq_key rq)
      | None => ∀ o', o' ∈ o :: matches → apart (cv_entries v) (op_id o') (rq_key rq)
      end) s s' r) as Hnext.
  { intros Hap (Hok' & Hv' & Hr)%IH; [|done]. split; [done|]. rewrite Hv1 in *. split; [done|].
    intros [id|] Hx; specialize (Hr _ Hx); simpl in Hr.
    - destruct Hr as (o' & Hin & Ho). exists o'. split; [by right|done].
    - intros o' [->|Hin]%elem_of_cons; auto. }
  destruct entry as [e|].
  - destruct Hf as [[k He] [_ Ho]]. destruct (offer_facts_total _ _ Ho) as [fact Hfact].
    rewrite Hfact in Hrun. destruct (offer_facts_inv _ _ Hfact) as (_ & Hkey & _ & _).
    assert (offered_at (cv_entries (center_view s)) (op_id o) (canonical_target_key (fa_target fact))) as Hoff
      by by exists k, e.
    unfold same_target in Hrun. case_decide as Ht.
    + injection Hrun as <- <-. split; [done|]. split; [done|]. intros x [= <-].
      exists o. rewrite <- Ht. split; [by left|done].
    + apply Hnext; [|done]. right. by eexists.
  - apply Hnext; [|done]. left. intros (k & e & He & Ho). by eapply Hf.
Qed.

Lemma find_unknown_spec rq s s' r :
  center_ok s → find_unknown_outcome (Epr := Epr) (Eop := Eop) (Eac := Eac) from_unix_timestamp rq s = (s', r) →
  reads (center_view (Command := Command)) center_ok (λ v x,
    match x with
    | Some id => ∃ o, op_id o = id ∧ unknown_in rq v o ∧ offered_at (cv_entries v) id (rq_key rq)
    | None => ∀ o, unknown_in rq v o → apart (cv_entries v) (op_id o) (rq_key rq)
    end) s s' r.
Proof.
  intros Hok Hrun. unfold find_unknown_outcome in Hrun.
  apply mbind_inv in Hrun as [(l & s1 & Hl & Hrun)|(x & Hl & ->)];
    apply center_list_for_endpoint in Hl as (Hok1 & Hv1 & Hl); try done.
  specialize (Hl _ eq_refl). apply first_confirmed_spec in Hrun as (Hok' & Hv' & Hr); [|done].
  rewrite Hv1 in *. split; [done|]. split; [done|].
  assert (∀ o, o ∈ merge_sort operation_le (filter (is_unknown_match rq) l) ↔ unknown_in rq (center_view s) o) as Hin.
  { intros o. rewrite merge_sort_Permutation, list_elem_of_filter, Hl. simpl. unfold unknown_in. split; [naive_solver|].
    intros (Ho & Hs & Hm). split; [done|]. split; [done|]. split; [done|].
    by apply on_request_endpoint_any, Hm. }
  intros [id|] Hx; specialize (Hr _ Hx); simpl in Hr.
  - destruct Hr as (o & Ho & <- & Hoff). exists o. split; [done|]. split; [by apply Hin|done].
  - intros o Ho. by apply Hr, Hin.
Qed.

(** ** The dispatch *)

Definition authorised rq (v : CenterView Command) : Prop :=
  ∃ a, ac_roles (cv_accounts v) !! rq_actor rq = Some a ∧
       (ra_role a = Administrator ∨
        ra_role a = Operator ∧ (ra_site_id a = None ∨ ra_site_id a = Some (rq_site_id rq))).

Lemma allows_dispatch_iff role assigned site :
  allows_dispatch role assigned site = true ↔
  role = Administrator ∨ role = Operator ∧ (assigned = None ∨ assigned = Some site).
Proof.
  destruct role; simpl; [naive_solver| |naive_solver].
  rewrite orb_true_iff, !bool_decide_eq_true. naive_solver.
Qed.

Definition routed rq (v : CenterView Command) : Prop :=
  pj_endpoints (cv_projections v) !! rq_endpoint_id rq = Some (Some (rq_site_id rq)) ∧
  (rq_endpoint_id rq, rq_target_odata_id rq) ∈ pj_resources (cv_projections v).

(** No operation for the request is on its way or may have landed. *)
Definition no_match rq (v : CenterView Command) : Prop :=
  ∀ o, candidate_in rq v o ∨ unknown_in rq v o → apart (cv_entries v) (op_id o) (rq_key rq).

Definition new_operation rq (now : OffsetDateTime) : Operation Command :=
  Operation_new (di_operation ids) SourceCenter [mk_operation_target (di_target ids) (rq_endpoint_id rq)]
    (rq_command rq) now.

Definition created rq now (v : CenterView Command) : CenterView Command :=
  with_view v (view_create None (cv_operations v) (new_operation rq now)).

(** What a dispatch may leave behind, whatever it returns. *)
Inductive dispatch_effect rq now (v : CenterView Command) : CenterView Command → Prop :=
| effect_acks es : shrinks (cv_entries v) es → dispatch_effect rq now v (with_entries v es)
| effect_again o es :
    may_reoffer rq v o → retried rq (op_id o) now (cv_entries v) es →
    dispatch_effect rq now v (with_entries v es)
| effect_created : no_match rq v → dispatch_effect rq now v (created rq now v)
| effect_issued es :
    no_match rq v → retried rq (di_operation ids) now (cv_entries v) es →
    dispatch_effect rq now v (with_entries (created rq now v) es).

(** What an accepted dispatch has done. *)
Definition accepted rq now (v v' : CenterView Command) (d : DispatchedOperation) : Prop :=
  (∃ o es, may_reoffer rq v o ∧ v' = with_entries v es ∧ stands rq (op_id o) now (cv_entries v) es d) ∨
  (no_match rq v ∧ d = mk_dispatched (di_operation ids) (now + CENTER_OFFER_TTL) ∧
   ∃ json es e, command_to_vec (rq_command rq) = Some json ∧
     enqueued (di_entry ids) (rq_site_id rq)
       (MsgOffer (offer_for rq (di_operation ids) json (now + CENTER_OFFER_TTL))) now (cv_entries v) es e ∧
     v' = with_entries (created rq now v) es).

Definition refused rq (v : CenterView Command) (x : Error) : Prop :=
  match x with
  | NotAuthorized => ¬ authorised rq v
  | UnknownEndpoint endpoint => endpoint = rq_endpoint_id rq ∧ authorised rq v ∧
      pj_endpoints (cv_projections v) !! endpoint = None
  | EndpointNotInSite endpoint site => endpoint = rq_endpoint_id rq ∧ site = rq_site_id rq ∧ authorised rq v ∧
      ∃ other, pj_endpoints (cv_projections v) !! endpoint = Some other ∧ other ≠ Some site
  | UnknownTarget endpoint target => endpoint = rq_endpoint_id rq ∧ target = rq_target_odata_id rq ∧
      authorised rq v ∧ (endpoint, target) ∉ pj_resources (cv_projections v)
  | UnknownOutcomePending id => authorised rq v ∧ routed rq v ∧
      ∃ o, op_id o = id ∧ unknown_in rq v o ∧ offered_at (cv_entries v) id (rq_key rq)
  | _ => False
  end.

Definition dispatch_post rq now (v v' : CenterView Command) (r : result DispatchedOperation Error) : Prop :=
  dispatch_effect rq now v v' ∧
  match r with
  | Ok d => authorised rq v ∧ routed rq v ∧ accepted rq now v v' d
  | Err (NotAuthorized | UnknownEndpoint _ | EndpointNotInSite _ _ | UnknownTarget _ _
         | UnknownOutcomePending _) as x => v' = v ∧ ∀ y, x = Err y → refused rq v y
  | Err (DispatchRole _ | DispatchProjection _) => v' = v
  | Err (CommandSerialization | DispatchOperation _ | DispatchOutbox _) => authorised rq v ∧ routed rq v
  end.

Lemma effect_none rq now v : dispatch_effect rq now v v.
Proof. rewrite <- (with_entries_same v) at 2. by constructor. Qed.

(** The end of a dispatch that found nothing: the operation is created, then
    offered. *)
Lemma issue_spec rq now s s' r :
  center_ok s → no_match rq (center_view s) →
  (do! on_operations (DispatchOperation (Epr := Epr) (Eob := Eob) (Eac := Eac))
         (store_create_operation (new_operation rq now)) in
   let! _ := enqueue_offer (Eac := Eac) command_to_vec ids rq (di_operation ids) (now + CENTER_OFFER_TTL) now in
   mret (mk_dispatched (di_operation ids) (now + CENTER_OFFER_TTL))) s = (s', r) →
  center_ok s' ∧ dispatch_effect rq now (center_view s) (center_view s') ∧
  match r with
  | Ok d => accepted rq now (center_view s) (center_view s') d
  | Err (CommandSerialization | DispatchOperation _ | DispatchOutbox _) => True
  | Err _ => False
  end.
Proof.
  intros Hok Hno Hrun. apply mbind_inv in Hrun as [([] & s1 & Hc & Hrun)|(x & Hc & ->)].
  2: { pose proof Hc as [y ->]%zoom_err.
       apply center_create_operation in Hc as [Hok1 Hv1]; [|done|unfold timeline_ok; simpl; lia].
       split; [done|]. simpl in Hv1. rewrite Hv1. split; [apply effect_none|done]. }
  apply center_create_operation in Hc as [Hok1 Hv1]; [|done|unfold timeline_ok; simpl; lia].
  change (center_view s1 = created rq now (center_view s)) in Hv1.
  apply mbind_inv in Hrun as [(e & s2 & He & Hrun)|(x & He & ->)].
  - apply enqueue_offer_spec in He as (Hok2 & json & es & Hj & Hen & Hv2); [|done].
    injection Hrun as <- <-. rewrite Hv1 in *. rewrite Hv2. split; [done|]. split.
    + constructor; [done|]. by exists json, (cv_entries (center_view s)), es, e.
    + right. split; [done|]. split; [done|]. by exists json, es, e.
  - pose proof He as Hx. apply enqueue_offer_spec in He as (Hok2 & Hv2); [|done]. simpl in Hv2.
    split; [done|]. rewrite Hv2, Hv1. split; [by constructor|].
    apply mbind_inv in Hx as [(y & s3 & _ & Hx)|(y & Hx & [= <-])].
    + by apply zoom_err in Hx as [z ->].
    + injection Hx as _ Hx. apply ok_or_err in Hx as [_ ->]. done.
Qed.

(** The errors of the search: never a refusal. *)
Definition store_error (x : Error) : Prop :=
  match x with CommandSerialization | DispatchOperation _ | DispatchOutbox _ => True | _ => False end.

Ltac fails_by tac :=
  repeat first [tac | apply fails_bind; [|intros] | apply fails_ret | by apply fails_zoom
               | apply fails_for; intros | apply fails_traverse; intros | case_match | done].
Ltac fails := fails_by fail.

Lemma settle_error rq o now : fails_with store_error
  (settle_duplicate_offers (Sop := Sop) (Sac := Sac) (Spr := Spr) (Sin := Sin) from_unix_timestamp rq o now).
Proof. unfold settle_duplicate_offers. fails. Qed.

Lemma deliver_error rq o now : fails_with store_error
  (deliver_retry (Sop := Sop) (Sac := Sac) (Spr := Spr) (Sin := Sin) command_to_vec from_unix_timestamp ids rq o now).
Proof.
  unfold deliver_retry, enqueue_offer. fails_by ltac:(first [apply settle_error]).
  apply fails_lift. by intros x [_ ->]%ok_or_err.
Qed.

Lemma resolve_error rq o facts now : fails_with store_error
  (resolve_candidate (Sop := Sop) (Sac := Sac) (Spr := Spr) (Sin := Sin) command_to_vec from_unix_timestamp ids rq o facts now).
Proof. unfold resolve_candidate. fails_by ltac:(first [apply deliver_error]). Qed.

Lemma first_resolved_error rq candidates facts now : fails_with store_error
  (first_resolved (Sop := Sop) (Sac := Sac) (Spr := Spr) (Sin := Sin) command_to_vec from_unix_timestamp ids rq candidates facts now).
Proof.
  induction candidates as [|o candidates IH]; simpl; [fails|].
  fails_by ltac:(first [apply resolve_error | apply settle_error | apply IH]).
Qed.

Lemma find_undecided_error rq now : fails_with store_error
  (find_undecided (Sop := Sop) (Sac := Sac) (Spr := Spr) (Sin := Sin) command_to_vec from_unix_timestamp ids rq now).
Proof.
  unfold find_undecided. cbv zeta.
  fails_by ltac:(first [apply first_resolved_error | apply resolve_error | apply settle_error | apply deliver_error]).
Qed.

Lemma find_unknown_error rq : fails_with store_error
  (find_unknown_outcome (Sop := Sop) (Sac := Sac) (Spr := Spr) (Sin := Sin) (Epr := Epr) (Eac := Eac) from_unix_timestamp rq).
Proof.
  unfold find_unknown_outcome. fails.
  generalize (merge_sort operation_le (filter (is_unknown_match rq) a)) as matches.
  intros matches. induction matches as [|o matches IH]; simpl; fails_by ltac:(apply IH).
Qed.

(** The search and the creation, past the guards. *)
Lemma decide_spec rq now s s' r :
  center_ok s → stamps_ok (cv_entries (center_view s)) now →
  (let! existing := find_undecided (Epr := Epr) (Eop := Eop) (Eac := Eac) command_to_vec from_unix_timestamp ids rq now in
   match existing with
   | Some existing => mret existing
   | None =>
   let! unknown := find_unknown_outcome from_unix_timestamp rq in
   match unknown with
   | Some operation_id => mfail (UnknownOutcomePending operation_id)
   | None =>
      do! on_operations DispatchOperation (store_create_operation (new_operation rq now)) in
      let! _ := enqueue_offer command_to_vec ids rq (di_operation ids) (now + CENTER_OFFER_TTL) now in
      mret (mk_dispatched (di_operation ids) (now + CENTER_OFFER_TTL))
   end end) s = (s', r) →
  center_ok s' ∧ dispatch_effect rq now (center_view s) (center_view s') ∧
  match r with
  | Ok d => accepted rq now (center_view s) (center_view s') d
  | Err (UnknownOutcomePending id) => center_view s' = center_view s ∧
      ∃ o, op_id o = id ∧ unknown_in rq (center_view s) o ∧ offered_at (cv_entries (center_view s)) id (rq_key rq)
  | Err x => store_error x
  end.
Proof.
  intros Hok Hst Hrun. apply mbind_inv in Hrun as [(existing & s1 & Hu & Hrun)|(x & Hu & ->)].
  2: { pose proof (find_undecided_error _ _ _ _ _ Hu) as Hx.
       apply find_undecided_spec in Hu as (Hok1 & es & Hv1 & Hp); [|done..]. split; [done|]. rewrite Hv1.
       split; [|by destruct x]. destruct Hp as [Hsh|(o & Ho & Hret)]; [by constructor|by eapply effect_again]. }
  apply find_undecided_spec in Hu as (Hok1 & es & Hv1 & Hp); [|done..]. destruct existing as [d|].
  { injection Hrun as <- <-. split; [done|]. rewrite Hv1. destruct Hp as (o & Ho & Hs). split.
    - destruct Hs as [[[Hsh _]|[_ Hret]] _]; [by constructor|by eapply effect_again].
    - left. by exists o, es. }
  destruct Hp as [-> Hno]. rewrite with_entries_same in Hv1.
  apply mbind_inv in Hrun as [(unknown & s2 & Hu & Hrun)|(x & Hu & ->)].
  2: { pose proof (find_unknown_error _ _ _ _ Hu) as Hx. apply find_unknown_spec in Hu as (Hok2 & Hv2 & _); [|done].
       split; [done|]. rewrite Hv2, Hv1. split; [apply effect_none|by destruct x]. }
  apply find_unknown_spec in Hu as (Hok2 & Hv2 & Hu); [|done]. specialize (Hu _ eq_refl). rewrite Hv1 in Hv2, Hu.
  destruct unknown as [id|].
  { injection Hrun as <- <-. split; [done|]. rewrite Hv2. split; [apply effect_none|done]. }
  apply issue_spec in Hrun as (Hok' & He & Hr); [|done|].
  - rewrite Hv2 in *. split; [done|]. split; [done|]. destruct r as [d|[]]; done.
  - rewrite Hv2. intros o [Ho|Ho]; auto.
Qed.

(** A dispatch that answers found its caller allowed, the endpoint at the site and
    the target on it; it answers with one operation whose offer is out, which is a
    new one exactly when none of the same request was undecided; a refusal changes
    nothing and says what was wrong; and whatever fails, what stays behind is one of
    the effects the queue and the operations may have. *)
Theorem dispatch_spec rq now s s' r :
  center_ok s → stamps_ok (cv_entries (center_view s)) now →
  dispatch command_to_vec from_unix_timestamp ids rq now s = (s', r) →
  center_ok s' ∧ dispatch_post rq now (center_view s) (center_view s') r.
Proof.
  intros Hok Hst Hrun. unfold dispatch in Hrun. cbv zeta in Hrun.
  apply mbind_inv in Hrun as [(assignment & s1 & Ha & Hrun)|(x & Ha & ->)]; pose proof Ha as Hx;
    apply center_find_role in Ha as (Hok1 & Hv1 & Ha); try done.
  2: { apply zoom_err in Hx as [y ->]. split; [done|]. rewrite Hv1. split; [apply effect_none|done]. }
  specialize (Ha _ eq_refl). clear Hx.
  assert (∀ x, ¬ authorised rq (center_view s) → (s1, Err NotAuthorized) = (s', r) → r = Err x →
    center_ok s' ∧ dispatch_post rq now (center_view s) (center_view s') r) as Hdeny.
  { intros x Hna [= <- <-] _. split; [done|]. rewrite Hv1. split; [apply effect_none|]. split; [done|]. by intros y [= <-]. }
  destruct assignment as [a|].
  2: { eapply Hdeny; [|exact Hrun|by injection Hrun as _ <-]. intros (a & Hr & _). congruence. }
  destruct (allows_dispatch _ _ _) eqn:Hallow; simpl in Hrun.
  2: { eapply Hdeny; [|exact Hrun|by injection Hrun as _ <-]. intros (b & Hr & Hb%allows_dispatch_iff). congruence. }
  assert (authorised rq (center_view s)) as Hauth by (exists a; split; [done|by apply allows_dispatch_iff]). clear Hdeny.
  apply mbind_inv in Hrun as [(endpoint & s2 & He & Hrun)|(x & He & ->)]; pose proof He as Hx;
    apply center_find_projection in He as (Hok2 & Hv2 & He); try done; rewrite Hv1 in Hv2.
  2: { apply zoom_err in Hx as [y ->]. split; [done|]. rewrite Hv2. split; [apply effect_none|done]. }
  specialize (He _ eq_refl). rewrite Hv1 in He. clear Hx.
  destruct (pj_endpoints (cv_projections (center_view s)) !! rq_endpoint_id rq) as [site|] eqn:Hsite; simpl in He; subst endpoint.
  2: { injection Hrun as <- <-. split; [done|]. rewrite Hv2. split; [apply effect_none|]. split; [done|].
       by intros y [= <-]. }
  simpl in Hrun. case_decide as Hown.
  { injection Hrun as <- <-. split; [done|]. rewrite Hv2. split; [apply effect_none|]. split; [done|].
    intros y [= <-]. split; [done|]. split; [done|]. split; [done|]. by exists site. }
  apply mbind_inv in Hrun as [(known & s3 & Hk & Hrun)|(x & Hk & ->)]; pose proof Hk as Hx;
    apply center_has_resource in Hk as (Hok3 & Hv3 & Hk); try done; rewrite Hv2 in Hv3.
  2: { apply zoom_err in Hx as [y ->]. split; [done|]. rewrite Hv3. split; [apply effect_none|done]. }
  specialize (Hk _ eq_refl). rewrite Hv2 in Hk. clear Hx.
  destruct known; simpl in Hrun; symmetry in Hk.
  2: { apply bool_decide_eq_false in Hk. injection Hrun as <- <-. split; [done|]. rewrite Hv3.
       split; [apply effect_none|]. split; [done|]. by intros y [= <-]. }
  apply bool_decide_eq_true in Hk. assert (routed rq (center_view s)) as Hrouted by (split; [congruence|done]).
  apply decide_spec in Hrun as (Hok' & Heff & Hr); [|done|by rewrite Hv3]. rewrite Hv3 in *.
  split; [done|]. split; [done|]. destruct r as [d|[]]; try done.
  destruct Hr as [Hsame Hr]. split; [done|]. intros y [= <-]. done.
Qed.
End dispatch.
