(* ===== verification/CenterTracking.v ===== *)
(** * CenterTracking: the center follows its operations by their replies

    The invariant of the operations and the queue, that the effects of a dispatch, of
    an acknowledgement and of a reply keep it, and the tracking half of
    [application/src/center/dispatch.rs]. *)
From S2P Require Import Prelude Text Operation OperationEngine Database CenterDomain LinkMessages SiteSync Accounts AccountStore CenterOutbox CenterStores CenterDispatch DispatchSafety.
Local Open Scope Z_scope.

Section invariant.
Context {Command : Type} `{EqDecision Command} `{EnvelopeJson} `{UuidText}.
Implicit Types (v : CenterView Command) (es : Entries) (id : OperationId) (t : str).

(** An operation the center issued and has no outcome of. *)
Definition undecided_in v (o : Operation Command) : Prop :=
  v_operations (cv_operations v) !! op_id o = Some o ∧ op_source o = SourceCenter ∧
  is_terminal (op_state o) = false.

(** Two operations that ask the same of the same endpoint. *)
Definition same_request (o1 o2 : Operation Command) : Prop :=
  is_Some (endpoint_id <$> head (op_targets o1)) ∧
  endpoint_id <$> head (op_targets o1) = endpoint_id <$> head (op_targets o2) ∧
  op_command o1 = op_command o2.

Record center_inv v : Prop := {
  inv_one_target id t t' :
    offered_at (cv_entries v) id t → offered_at (cv_entries v) id t' → t = t';
  inv_addressed k e offer :
    cv_entries v !! k = Some e → payload_offer (oe_payload_json e) = Some offer →
    of_site_id offer = show_uuid (oe_instance_id e);
  inv_known id : offered (cv_entries v) id → is_Some (v_operations (cv_operations v) !! id);
  inv_unique o1 o2 t :
    undecided_in v o1 → undecided_in v o2 → same_request o1 o2 →
    offered_at (cv_entries v) (op_id o1) t → offered_at (cv_entries v) (op_id o2) t → op_id o1 = op_id o2;
}.

(** Once offered for a target, an operation stays so. *)
Definition targets_kept v v' : Prop :=
  ∀ id t, offered_at (cv_entries v) id t → offered_at (cv_entries v') id t.

Lemma shrinks_keeps_target es es' o t :
  (∀ t', offered_at es o t → offered_at es o t' → t = t') →
  shrinks es es' → offered_at es o t → offered_at es' o t.
Proof.
  intros Hone Hsh Ht. destruct (offered_has_key es' o) as [t' Ht'].
  { eapply shrinks_offered; [done|by eapply offered_at_offered]. }
  by rewrite (Hone t' Ht (shrinks_offered_at _ _ _ _ Hsh Ht')).
Qed.

Lemma inv_shrinks v es :
  center_inv v → shrinks (cv_entries v) es → center_inv (with_entries v es) ∧ targets_kept v (with_entries v es).
Proof.
  intros [Hone Hadd Hkn Hun] Hsh.
  assert (∀ o t, offered_at es o t → offered_at (cv_entries v) o t) as Hback
    by (intros; by eapply shrinks_offered_at).
  split; [split; simpl|].
  - intros o t t' Ht Ht'. by apply (Hone o); apply Hback.
  - intros k e offer He Hp. destruct (shrinks_from _ _ Hsh _ _ He) as (g & Hg & -> & _ & Heq & _).
    eapply Hadd; [done|by rewrite <- Heq].
  - intros o (t & Ht)%offered_has_key. by eapply Hkn, offered_at_offered, Hback.
  - intros o1 o2 t Ho1 Ho2 Hs Ht1 Ht2. by eapply Hun; [..|apply Hback|apply Hback].
  - intros o t Ht. eapply shrinks_keeps_target; [|done..]. intros t' ? ?. by eapply Hone.
Qed.

(** An offer may join the queue when it does not retarget its operation, and no
    other operation is on its way with it. *)
Lemma inv_enqueue v entry site offer id now es e :
  center_inv v →
  enqueued entry site (MsgOffer offer) now (cv_entries v) es e →
  parse_uuid (of_operation_id offer) = Some id → of_site_id offer = show_uuid site →
  is_Some (v_operations (cv_operations v) !! id) →
  (offered (cv_entries v) id → offered_at (cv_entries v) id (canonical_target_key (of_target offer))) →
  (∀ o o', undecided_in v o → op_id o = id → undecided_in v o' → same_request o o' →
     offered_at (cv_entries v) (op_id o') (canonical_target_key (of_target offer)) → op_id o' = id) →
  center_inv (with_entries v es) ∧ targets_kept v (with_entries v es).
Proof.
  intros Hinv Hen Hid Hsite Hst Hkey Hother. pose proof Hinv as [Hone Hadd Hkn Hun].
  destruct (enqueued_facts _ _ _ _ _ _ _ _ Hen Hid) as (-> & Hfree & Heo & Hek & Hoffer & [Hei _] & Heid).
  set (key := canonical_target_key (of_target offer)) in *.
  assert (∀ o t, offered_at (<[entry := e]> (cv_entries v)) o t ↔
    offered_at (cv_entries v) o t ∨ (o = id ∧ t = key)) as Hoff.
  { intros o t. split.
    - intros (k & f & Hf & Hfo & Hft). apply lookup_insert_Some in Hf as [[<- <-]|[Hne Hf]].
      + right. by simplify_eq.
      + left. by exists k, f.
    - intros [(k & f & Hf & Hfo & Hft)|[-> ->]].
      + exists k, f. split; [|done]. rewrite lookup_insert_ne; [done|]. intros ->. congruence.
      + exists entry, e. by rewrite lookup_insert_eq. }
  assert (∀ t, offered_at (cv_entries v) id t → t = key) as Hsame.
  { intros t Ht. eapply Hone; [done|]. by eapply Hkey, offered_at_offered. }
  split; [split; simpl|].
  - intros o t t'. rewrite !Hoff. intros [Ht|[-> ->]] [Ht'|[? ->]]; subst; eauto. symmetry. auto.
  - intros k f g. rewrite lookup_insert_Some. intros [[_ <-]|[_ Hf]] Hg; [|by eapply Hadd].
    rewrite Hoffer in Hg. by simplify_eq.
  - intros o (t & [Ht|[-> _]]%Hoff)%offered_has_key; [|done]. by eapply Hkn, offered_at_offered.
  - intros o1 o2 t Ho1 Ho2 Hs. rewrite !Hoff.
    assert (same_request o2 o1) as Hs' by (destruct Hs as (? & Hse & ?); split; [by rewrite <- Hse|done]).
    intros [Ht1|[H1 ->]] [Ht2|[H2 Heq]]; subst; [by eapply Hun|..|congruence].
    + by eapply (Hother o2 o1).
    + symmetry. by eapply (Hother o1 o2).
  - intros o t Ht. apply Hoff. by left.
Qed.

(** A new operation has no offer. *)
Lemma inv_create v (o : Operation Command) :
  center_inv v → v_operations (cv_operations v) !! op_id o = None →
  let v' := with_view v (view_create None (cv_operations v) o) in
  center_inv v' ∧ targets_kept v v' ∧ ¬ offered (cv_entries v) (op_id o).
Proof.
  intros [Hone Hadd Hkn Hun] Hnew v'.
  assert (¬ offered (cv_entries v) (op_id o)) as Hno by (intros [x Hx]%Hkn; congruence).
  assert (v_operations (cv_operations v') = <[op_id o := canonical o]> (v_operations (cv_operations v))) as Hops.
  { unfold v', view_create. simpl. by rewrite Hnew. }
  split; [|split; [by intros ? ?|done]]. split; [done|done|..].
  - intros id Hid. rewrite Hops. apply lookup_insert_is_Some'. right. by apply Hkn.
  - assert (∀ x t, undecided_in v' x → offered_at (cv_entries v') (op_id x) t → undecided_in v x) as Hback.
    { intros x t (Hx & Hsrc & Hterm) Ht. split; [|done]. rewrite Hops in Hx.
      apply lookup_insert_Some in Hx as [[Heq _]|[_ Hx]]; [|done].
      destruct Hno. rewrite Heq. by eapply offered_at_offered. }
    intros o1 o2 t Ho1 Ho2 Hs Ht1 Ht2. by eapply Hun; [eapply Hback|eapply Hback|..].
Qed.

(** The operations move on: none is lost or changed but for its state, and none
    that is decided becomes undecided. *)
Definition operations_advance v v' : Prop :=
  cv_entries v' = cv_entries v ∧
  (∀ id o', v_operations (cv_operations v') !! id = Some o' →
     ∃ o, v_operations (cv_operations v) !! id = Some o ∧ op_id o' = op_id o ∧ op_source o' = op_source o ∧
       op_targets o' = op_targets o ∧ op_command o' = op_command o ∧
       (is_terminal (op_state o') = false → is_terminal (op_state o) = false)) ∧
  (∀ id, is_Some (v_operations (cv_operations v) !! id) → is_Some (v_operations (cv_operations v') !! id)).

Lemma inv_advance v v' :
  center_inv v → operations_advance v v' → center_inv v' ∧ targets_kept v v'.
Proof.
  intros [Hone Hadd Hkn Hun] (Hes & Hback & Hdom). split; [|by intros o t; rewrite Hes].
  split; rewrite Hes; [done|done|by intros o Ho; apply Hdom, Hkn|].
  intros o1 o2 t (Hl1 & Hs1 & Ht1) (Hl2 & Hs2 & Ht2) (Hh & Heq & Hc) Hoff1 Hoff2.
  apply Hback in Hl1 as (p1 & Hp1 & Hid1 & Hsrc1 & Htg1 & Hc1 & Hn1).
  apply Hback in Hl2 as (p2 & Hp2 & Hid2 & Hsrc2 & Htg2 & Hc2 & Hn2).
  rewrite Hid1, Hid2 in *. eapply (Hun p1 p2 t); [..|done|done].
  - split; [done|]. split; [congruence|auto].
  - split; [done|]. split; [congruence|auto].
  - unfold same_request. rewrite <- Htg1, <- Htg2, <- Hc1, <- Hc2. done.
Qed.
End invariant.

(** ** Dispatching *)

Section dispatch.
Context {Command : Type} `{EqDecision Command} `{EnvelopeJson} `{UuidText}.
Context (command_to_vec : Command → option (list N)) (ids : DispatchIds).
Implicit Types (v : CenterView Command) (es : Entries) (rq : CenterOperationRequest Command).

Lemma candidate_undecided rq v o : candidate_in rq v o → undecided_in v o.
Proof. by intros (Ho & Hs & Ht & _). Qed.

Lemma candidates_same_request rq v o o' :
  candidate_in rq v o → undecided_in v o' → same_request o o' → candidate_in rq v o'.
Proof.
  intros (Ho & Hs & Ht & He & Hc) (Ho' & Hs' & Ht') (_ & Heq & Hcc). split; [done|].
  split; [done|]. split; [done|]. unfold on_request_endpoint in *. split; congruence.
Qed.

(** An operation that no other undecided one shadows may be offered (again). *)
Lemma inv_retried rq now v id es :
  center_inv v → is_Some (v_operations (cv_operations v) !! id) →
  (offered (cv_entries v) id →
   offered_at (cv_entries v) id (canonical_target_key (rq_target_odata_id rq))) →
  (∀ o o', undecided_in v o → op_id o = id → undecided_in v o' → same_request o o' →
     offered_at (cv_entries v) (op_id o') (canonical_target_key (rq_target_odata_id rq)) → op_id o' = id) →
  retried command_to_vec ids rq id now (cv_entries v) es →
  center_inv (with_entries v es) ∧ targets_kept v (with_entries v es).
Proof.
  intros Hinv Hst Hkey Hother (json & es1 & es2 & e & _ & Hsh1 & Hen & Hsh2).
  destruct (inv_shrinks v es1 Hinv Hsh1) as [Hinv1 Hk1].
  assert (center_inv (with_entries v es2) ∧ targets_kept (with_entries v es1) (with_entries v es2)) as [Hinv2 Hk2].
  { apply (inv_enqueue (with_entries v es1) (di_entry ids) (rq_site_id rq)
      (offer_for rq id json (now + CENTER_OFFER_TTL)) id now es2 e); try done.
    - apply parse_show.
    - intros (t & Ht)%offered_has_key. apply Hk1, Hkey. by eapply offered_at_offered, shrinks_offered_at.
    - intros o o' Ho Heq Ho' Hs Hoff. apply (Hother o o' Ho Heq Ho' Hs). by eapply shrinks_offered_at. }
  destruct (inv_shrinks (with_entries v es2) es Hinv2 Hsh2) as [Hinv3 Hk3]. split; [done|].
  intros o t Ht. by apply Hk3, Hk2, Hk1.
Qed.

(** Every outcome of a dispatch keeps the invariant and the targets. *)
Lemma inv_effect rq now v v' :
  center_inv v → v_operations (cv_operations v) !! di_operation ids = None →
  dispatch_effect command_to_vec ids rq now v v' → center_inv v' ∧ targets_kept v v'.
Proof.
  intros Hinv Hfresh [es Hsh|o es [Ho Hoff] Hret|Hno|es Hno Hret].
  - by apply inv_shrinks.
  - eapply inv_retried; [done|exists o; apply Ho| | |done].
    + intros Hx. by destruct Hoff as [|[Hn _]].
    + intros o1 o2 Ho1 Heq Ho2 Hs Ht. destruct Hoff as [Hoff|[_ Hall]].
      * rewrite <- Heq. eapply inv_unique; [done|exact Ho2|exact Ho1| |done|by rewrite Heq].
        destruct Hs as (Hi & He & Hc). split; [by rewrite <- He|done].
      * apply Hall. eapply candidates_same_request; [exact Ho|done|].
        destruct Ho as [Ho _], Ho1 as [Ho1 _]. rewrite Heq in Ho1. by simplify_eq.
  - apply (inv_create _ (new_operation ids rq now)) in Hinv as (? & ? & _); done.
  - destruct (inv_create v (new_operation ids rq now) Hinv Hfresh) as (Hinv1 & Hk1 & Hnew).
    fold (created ids rq now v) in Hinv1, Hk1.
    assert (v_operations (cv_operations (created ids rq now v)) !! di_operation ids =
      Some (canonical (new_operation ids rq now))) as Hst.
    { unfold created, view_create. simpl. rewrite Hfresh. simpl. by rewrite lookup_insert_eq. }
    destruct (inv_retried rq now (created ids rq now v) (di_operation ids) es Hinv1) as [Hinv2 Hk2]; try done.
    + intros o1 o2 (Ho1 & _) Heq Ho2 Hs Ht. rewrite Heq, Hst in Ho1. simplify_eq.
      destruct (decide (op_id o2 = di_operation ids)) as [|Hne]; [done|]. exfalso.
      assert (candidate_in rq v o2) as Hc.
      { destruct Ho2 as (Hl2 & Hsrc & Hterm). split.
        - unfold created, view_create in Hl2. simpl in Hl2. rewrite Hfresh in Hl2. simpl in Hl2.
          by rewrite lookup_insert_ne in Hl2.
        - destruct Hs as (_ & He & Hcmd). split; [done|]. split; [done|]. unfold on_request_endpoint.
          by rewrite <- He, <- Hcmd. }
      destruct (Hno o2 (or_introl Hc)) as [Hn|(t & Ht' & Htne)]; [by apply Hn; eapply offered_at_offered|].
      apply Htne. by eapply inv_one_target.
Qed.
End dispatch.

(** ** The center follows its operations by their replies

    Models [application/src/center/dispatch.rs], its tracking half: which replies
    are credited, how a reply moves the operation, how its receipt is kept. *)

(** ** What a reply says *)

Inductive ReplyTarget :=
| TargetRunning | TargetWaitingRemote | TargetFailed | TargetUnsupported | TargetCancelled
| TargetUnknown | TargetSucceeded.
#[export] Instance ReplyTarget_eq_dec : EqDecision ReplyTarget.
Proof. solve_decision. Defined.

(** [ReplyTarget::events]. *)
Definition target_events (t : ReplyTarget) : list OperationEvent :=
  match t with
  | TargetRunning => [EvValidationStarted; EvValidationPassed]
  | TargetWaitingRemote => [EvValidationStarted; EvValidationPassed; EvRemoteTaskStarted]
  | TargetFailed | TargetUnsupported => [EvFailed]
  | TargetCancelled => [EvCancellationRequested]
  | TargetUnknown => [EvValidationStarted; EvValidationPassed; EvOutcomeUnknown]
  | TargetSucceeded => [EvValidationStarted; EvValidationPassed; EvRemoteTaskCompleted;
                        EvExecutionAccepted; EvVerificationPassed]
  end.

Definition UNSUPPORTED_SUMMARY_PREFIX : str := lit "failed-unsupported".

Definition is_unsupported_summary (summary : str) : bool :=
  match strip_prefix UNSUPPORTED_SUMMARY_PREFIX summary with
  | Some rest => bool_decide (rest = []) || starts_with (lit ":") rest
  | None => false
  end.

Definition raw_reply_operation_id (message : option EnvelopeMessage) : option str :=
  match message with Some (MsgReply reply) => Some (reply_id reply) | _ => None end.

Definition reply_target (message : option EnvelopeMessage) : option ReplyTarget :=
  match message with
  | Some (MsgReply (OperationAccepted _ _)) => Some TargetRunning
  | Some (MsgReply (OperationProgress _ state _)) =>
      match OperationState_from_str state with
      | Ok WaitingRemote => Some TargetWaitingRemote
      | _ => Some TargetRunning
      end
  | Some (MsgReply (OperationRejected _ _ _)) => Some TargetFailed
  | Some (MsgReply (OperationCompleted _ succeeded summary)) =>
      if succeeded then Some TargetSucceeded
      else if is_unsupported_summary summary then Some TargetUnsupported
      else match OperationState_from_str summary with
           | Ok Cancelled => Some TargetCancelled
           | Ok Unknown => Some TargetUnknown
           | _ => Some TargetFailed
           end
  | _ => None
  end.

Definition reply_events (message : option EnvelopeMessage) : list InboxEvent :=
  match message with
  | Some (MsgReply (OperationAccepted _ _ | OperationProgress _ _ _)) => [EvInboxAccepted]
  | Some (MsgReply (OperationRejected _ _ _)) => [EvInboxRejected]
  | Some (MsgReply (OperationCompleted _ _ _)) => [EvInboxAccepted; EvInboxCompleted]
  | _ => []
  end.

Inductive CenterTrackingError (Eop Epr Eob Ein : Type) :=
| TrackOperation (source : Eop)
| TrackProjection (source : Epr)
| TrackOutbox (source : Eob)
| TrackInbox (source : Ein)
| TrackPayload.
Arguments TrackOperation {Eop Epr Eob Ein}.
Arguments TrackProjection {Eop Epr Eob Ein}.
Arguments TrackOutbox {Eop Epr Eob Ein}.
Arguments TrackInbox {Eop Epr Eob Ein}.
Arguments TrackPayload {Eop Epr Eob Ein}.

(** What one reply may generate. *)
Record TrackIds := mk_track_ids { ti_entry : InboxEntryId; ti_operation : OperationId }.

(** The loop over the events; an event that does not apply is skipped. *)
Definition apply_events {Command} (o : Operation Command) (events : list OperationEvent)
    (now : OffsetDateTime) : Operation Command :=
  foldl (λ o event, (Operation_apply o event now).1) o events.

Section tracking.
Context {Command Sop Sob Sac Spr Sin Eop Eob Epr Ein : Type}.
Context `{OperationStore Command Sop Eop} `{EnvelopeJson} `{UuidText}.
Context `{OutboxStore Sob Eob} `{ProjectionReads Spr Epr} `{InboxStore Sin Ein}.
(** [OffsetDateTime::from_unix_timestamp] and [Uuid::new_v5] below the OID
    namespace. *)
Context (from_unix_timestamp : Z → option OffsetDateTime) (new_v5_oid : list N → Uuid) (ids : TrackIds).
Abbreviation Track := (M (Center Sop Sob Sac Spr Sin) (CenterTrackingError Eop Epr Eob Ein)).

Definition absorbed_receipt_operation_id (raw : str) : OperationId := new_v5_oid (as_bytes raw).

Definition reply_operation_id (message : option EnvelopeMessage) : option OperationId :=
  raw ← raw_reply_operation_id message; parse_uuid raw.

Definition record_reply (site : InstanceId) (envelope : Envelope) (operation_id : OperationId)
    (now : OffsetDateTime) : Track () :=
  let! payload_json := mlift (ok_or (envelope_to_json envelope) TrackPayload) in
  let entry := InboxEntry_new (ti_entry ids) operation_id site payload_json now now in
  let! _ := on_inbox TrackInbox (inbox_store_insert entry) in
  mret ().

Definition record_absorbed_reply (site : InstanceId) (envelope : Envelope) (raw : option str)
    (now : OffsetDateTime) : Track () :=
  let operation_id := match raw with
                      | Some raw => absorbed_receipt_operation_id raw
                      | None => ti_operation ids
                      end in
  record_reply site envelope operation_id now.

(** The receipt follows the events; the first that does not apply ends the loop,
    with a warning. *)
Fixpoint advance_receipt (operation_id : OperationId) (events : list InboxEvent) : Track () :=
  match events with
  | [] => mret ()
  | event :: events => λ s,
      match on_inbox (TrackInbox (Eop := Eop) (Epr := Epr) (Eob := Eob)) (inbox_store_advance operation_id event) s with
      | (s', Ok _) => advance_receipt operation_id events s'
      | (s', Err _) => (s', Ok ())
      end
  end.

Definition log_reply (site : InstanceId) (envelope : Envelope) (operation_id : OperationId)
    (message : option EnvelopeMessage) (now : OffsetDateTime) : Track () :=
  let! payload_json := mlift (ok_or (envelope_to_json envelope) TrackPayload) in
  let phase := match last (reply_events message) with
               | Some event => to_state event
               | None => InboxReceived
               end in
  let entry := mk_inbox_entry (ti_entry ids) operation_id site payload_json phase now now in
  let! outcome := on_inbox TrackInbox (inbox_store_insert entry) in
  match outcome with
  | InboxCreated => mret ()
  | _ => advance_receipt operation_id (reply_events message)
  end.

Definition offer_site_from_offer_facts (operation_id : OperationId) (site : InstanceId)
    : Track (option InstanceId) :=
  let! entry := on_outbox TrackOutbox (find_offer_by_operation site operation_id) in
  match entry with
  | None => mret None
  | Some entry => mret (offer_facts from_unix_timestamp entry ≫= fa_site_id)
  end.

Definition offer_site (o : Operation Command) (site : InstanceId) : Track (option InstanceId) :=
  match head (op_targets o) with
  | None => mret None
  | Some target =>
      let! projection := on_projections TrackProjection (find_endpoint_projection (endpoint_id target)) in
      match projection with
      | Some projection =>
          if decide (cp_site_id projection = Some site) then mret (cp_site_id projection)
          else offer_site_from_offer_facts (op_id o) site
      | None => offer_site_from_offer_facts (op_id o) site
      end
  end.

Definition on_reply (site : InstanceId) (envelope : Envelope) (now : OffsetDateTime) : Track () :=
  let message := en_message envelope in
  match reply_operation_id message with
  | None => record_absorbed_reply site envelope (raw_reply_operation_id message) now
  | Some operation_id =>
  match reply_target message with
  | None => mret ()
  | Some target =>
  let! found := on_operations TrackOperation (store_find_operation operation_id) in
  match found with
  | None => record_reply site envelope operation_id now
  | Some operation =>
  let! expected_site := offer_site operation site in
  if decide (expected_site ≠ Some site) then record_reply site envelope operation_id now
  else
    do! (if decide (target = TargetUnsupported)
         then on_operations TrackOperation (store_record_failure_kind operation_id CapabilityUnsupported)
         else mret ()) in
    let moved := apply_events operation (target_events target) now in
    do! (if decide (op_state moved ≠ op_state operation)
         then on_operations TrackOperation (store_apply_transition operation_id (op_state moved) now)
         else mret ()) in
    log_reply site envelope operation_id message now
  end end end.
End tracking.

(** ** What a reply does *)

Lemma mbind_assoc {S E A B C} (m : M S E A) (k : A → M S E B) (h : B → M S E C) s :
  mbind (mbind m k) h s = mbind m (λ a, mbind (k a) h) s.
Proof. unfold mbind. by destruct (m s) as [s1 [a|x]]. Qed.

(** The state a credited reply leads to. *)
Definition reply_state (st : OperationState) (t : ReplyTarget) : OperationState :=
  if is_terminal st then st else
  match t with
  | TargetSucceeded => Succeeded
  | TargetFailed | TargetUnsupported => Failed
  | TargetUnknown => Unknown
  | TargetCancelled => match st with Verifying => Verifying | _ => Cancelled end
  | TargetRunning => match st with Queued | Validating => Running | _ => st end
  | TargetWaitingRemote => match st with Queued | Validating | Running => WaitingRemote | _ => st end
  end.

Lemma apply_events_state {Command} (o : Operation Command) t now :
  op_state (apply_events o (target_events t) now) = reply_state (op_state o) t.
Proof. destruct o as [? ? ? ? st ? ?]. by destruct st, t. Qed.

Section spec.
Context {Command Sop Sob Sac Spr Sin Eop Eob Eac Epr Ein : Type} `{EqDecision Command}.
Context `{OperationStoreLaws Command Sop Eop} `{!EndpointListing Command Sop Eop}.
Context `{!EndpointListingLaws Command Sop Eop}.
Context `{EnvelopeJsonLaws} `{UuidText}.
Context `{!OutboxStore Sob Eob} `{!OutboxStoreLaws Sob Eob}.
Context `{AccountStoreLaws Sac Eac} `{ProjectionReadsLaws Spr Epr} `{InboxStoreLaws Sin Ein}.
Context (from_unix_timestamp : Z → option OffsetDateTime) (new_v5_oid : list N → Uuid) (ids : TrackIds).
Abbreviation St := (Center Sop Sob Sac Spr Sin).
Abbreviation Error := (CenterTrackingError Eop Epr Eob Ein).
Abbreviation Track := (M St Error).
Implicit Types (s : St) (v : CenterView Command) (site : InstanceId).

(** The site may speak for the operation: the endpoint is its own, or the
    operation was offered to it. *)
Definition credited v site (o : Operation Command) : Prop :=
  ∃ target, head (op_targets o) = Some target ∧
    (pj_endpoints (cv_projections v) !! endpoint_id target = Some (Some site) ∨
     ∃ k e, cv_entries v !! k = Some e ∧ oe_instance_id e = site ∧ entry_operation_id e = Some (op_id o)).

(** The operations after a credited reply. *)
Definition moved_view (V : View Command) (id : OperationId) (o : Operation Command) (t : ReplyTarget)
    (now : OffsetDateTime) : View Command :=
  let st := reply_state (op_state o) t in
  mk_view (if decide (st = op_state o) then v_operations V else <[id := set_state o st now]> (v_operations V))
    (if decide (t = TargetUnsupported) then <[id := CapabilityUnsupported]> (v_kinds V) else v_kinds V)
    (v_batches V) (v_batch_of V).

(** The reply the envelope carries is about [o] and leads to [t]. *)
Definition about v (envelope : Envelope) (id : OperationId) (o : Operation Command) (t : ReplyTarget) : Prop :=
  reply_operation_id (en_message envelope) = Some id ∧ reply_target (en_message envelope) = Some t ∧
  v_operations (cv_operations v) !! id = Some o.

(** The receipts alone changed. *)
Definition inbox_effect s s' : Prop :=
  center_ok s' ∧ ∃ inbox, center_view (Command := Command) s' = with_inbox (center_view s) inbox.

Lemma inbox_effect_refl s : center_ok s → inbox_effect s s.
Proof. intros Hok. split; [done|]. exists (cv_inbox (center_view (Command := Command) s)). done. Qed.

Lemma center_inbox_insert (e : InboxEntry) s s' r :
  Forall (λ x, is_scalar x = true) (ie_payload_json e) → center_ok s → on_inbox (TrackInbox (Eop := Eop) (Epr := Epr) (Eob := Eob)) (inbox_store_insert e) s = (s', r) →
  inbox_effect s s'.
Proof.
  intros Hsc (Ho & Hb & Ha & Hp & Hi) Hrun. apply zoom_inv in Hrun as (t & r0 & Hrun & -> & ->).
  apply law_inbox_insert in Hrun as (Ht & _); [|done..]. split; [done|]. by exists (inbox_entries t).
Qed.

Lemma center_inbox_advance id ev s s' r :
  center_ok s → on_inbox (TrackInbox (Eop := Eop) (Epr := Epr) (Eob := Eob)) (inbox_store_advance id ev) s = (s', r) →
  inbox_effect s s'.
Proof.
  intros (Ho & Hb & Ha & Hp & Hi) Hrun. apply zoom_inv in Hrun as (t & r0 & Hrun & -> & ->).
  apply law_inbox_advance in Hrun as (Ht & _); [|done]. split; [done|]. by exists (inbox_entries t).
Qed.

Lemma inbox_effect_trans s s1 s' : inbox_effect s s1 → inbox_effect s1 s' → inbox_effect s s'.
Proof. intros [_ [i Hi]] [Hok [j Hj]]. split; [done|]. exists j. by rewrite Hj, Hi. Qed.

Lemma record_reply_spec site envelope id now s s' r :
  center_ok s → record_reply (Eop := Eop) (Epr := Epr) (Eob := Eob) ids site envelope id now s = (s', r) → inbox_effect s s'.
Proof.
  intros Hok Hrun. unfold record_reply in Hrun.
  apply mbind_inv in Hrun as [(p & s1 & Hp & Hrun)|(x & Hp & ->)]; [|injection Hp as -> _; by apply inbox_effect_refl].
  injection Hp as -> Hp. inv_ok.
  apply mbind_inv in Hrun as [(o & s2 & Ho & Hrun)|(x & Ho & ->)]; (apply center_inbox_insert in Ho; [|by eapply envelope_scalars|done]); try done.
  by injection Hrun as <- _.
Qed.

Lemma advance_receipt_spec id events s s' r :
  center_ok s → advance_receipt (Eop := Eop) (Epr := Epr) (Eob := Eob) id events s = (s', r) → inbox_effect s s' ∧ r = Ok ().
Proof.
  revert s. induction events as [|event events IH]; intros s Hok Hrun; simpl in Hrun.
  { injection Hrun as <- <-. split; [by apply inbox_effect_refl|done]. }
  destruct (on_inbox _ _ s) as [s1 [a|x]] eqn:Ha; apply center_inbox_advance in Ha; try done.
  - apply IH in Hrun as [He ->]; [|by destruct Ha]. split; [by eapply inbox_effect_trans|done].
  - by injection Hrun as <- <-.
Qed.

Lemma log_reply_spec site envelope id message now s s' r :
  center_ok s → log_reply (Eop := Eop) (Epr := Epr) (Eob := Eob) ids site envelope id message now s = (s', r) → inbox_effect s s'.
Proof.
  intros Hok Hrun. unfold log_reply in Hrun.
  apply mbind_inv in Hrun as [(p & s1 & Hp & Hrun)|(x & Hp & ->)]; [|injection Hp as -> _; by apply inbox_effect_refl].
  injection Hp as -> Hp. inv_ok.
  cbv zeta in Hrun.
  apply mbind_inv in Hrun as [(o & s2 & Ho & Hrun)|(x & Ho & ->)]; (apply center_inbox_insert in Ho; [|by eapply envelope_scalars|done]); try done.
  destruct o; [by injection Hrun as <- _|..]; (apply advance_receipt_spec in Hrun as [He _]; [|by destruct Ho]);
    by eapply inbox_effect_trans.
Qed.

Lemma offer_facts_site e fact :
  offer_facts from_unix_timestamp e = Some fact →
  ∃ offer, payload_offer (oe_payload_json e) = Some offer ∧ fa_site_id fact = parse_uuid (of_site_id offer).
Proof.
  unfold offer_facts, payload_offer. intros (envelope & -> & (message & -> & Hm)%bind_Some)%bind_Some.
  destruct message; try done. apply bind_Some in Hm as (o & Ho & [= <-]). by eexists.
Qed.

Lemma offer_site_spec o site s s' r :
  center_ok s → center_inv (center_view (Command := Command) s) →
  offer_site (Eop := Eop) (Ein := Ein) from_unix_timestamp o site s = (s', r) →
  reads (center_view (Command := Command)) center_ok (λ v x, x = Some site ↔ credited v site o) s s' r.
Proof.
  intros Hok Hinv Hrun. unfold offer_site in Hrun. destruct (head (op_targets o)) as [target|] eqn:Ht.
  2: { injection Hrun as <- <-. split; [done|]. split; [done|]. intros x [= <-]. split; [done|].
       intros (t & Ht' & _). congruence. }
  apply mbind_inv in Hrun as [(projection & s1 & Hp & Hrun)|(x & Hp & ->)];
    apply center_find_projection in Hp as (Hok1 & Hv1 & Hp); try done.
  specialize (Hp _ eq_refl).
  assert (pj_endpoints (cv_projections (center_view (Command := Command) s)) !! endpoint_id target ≠ Some (Some site) →
    offer_site_from_offer_facts (Eop := Eop) (Epr := Epr) (Ein := Ein) from_unix_timestamp (op_id o) site s1 = (s', r) →
    reads (center_view (Command := Command)) center_ok (λ v x, x = Some site ↔ credited v site o) s s' r) as Hfacts.
  { intros Hno Hf. unfold offer_site_from_offer_facts in Hf.
    apply mbind_inv in Hf as [(entry & s2 & He & Hf)|(x & He & ->)];
      apply center_find_offer in He as (Hok2 & Hv2 & He); try done; rewrite Hv1 in Hv2, He; [|done].
    specialize (He _ eq_refl). unfold finds_offer, finds in He. destruct entry as [e|]; injection Hf as <- <-;
      (split; [done|]); (split; [done|]); intros x [= <-].
    - destruct He as [[k He] [Hi Hop]]. destruct (offer_facts_total from_unix_timestamp _ _ Hop) as [fact Hfact].
      rewrite Hfact. destruct (offer_facts_site _ _ Hfact) as (offer & Hoff & Hsite). simpl.
      rewrite Hsite, (inv_addressed _ Hinv _ _ _ He Hoff), parse_show, Hi. split; [|done]. intros _.
      exists target. split; [done|]. right. by exists k, e.
    - split; [done|]. intros (t & Ht' & [Hpj|(k & e & Hl & Hi & Hop)]); [by simplify_eq|].
      destruct (He _ _ Hl). done. }
  destruct (pj_endpoints (cv_projections (center_view (Command := Command) s)) !! endpoint_id target) as [other|] eqn:Hpj;
    simpl in Hp; subst projection; simpl in Hrun; [|by apply Hfacts].
  case_decide as Hd; [|apply Hfacts; [congruence|done]]. injection Hrun as <- <-.
  split; [done|]. split; [done|]. intros x [= <-]. split; [|done]. intros _. exists target. split; [done|].
  left. congruence.
Qed.

Definition clock_ok v (now : OffsetDateTime) : Prop :=
  ∀ id o, v_operations (cv_operations v) !! id = Some o → op_created_at o <= now.

(** The operations an interrupted reply may leave. *)
Definition partly_moved (V : View Command) (id : OperationId) (o : Operation Command) (t : ReplyTarget)
    (now : OffsetDateTime) (V' : View Command) : Prop :=
  V' = V ∨ V' = moved_view V id o t now ∨
  (t = TargetUnsupported ∧ V' = mk_view (v_operations V) (<[id := CapabilityUnsupported]> (v_kinds V)) (v_batches V) (v_batch_of V)).

(** The two writes of a credited reply. *)
Lemma credit_spec id (o : Operation Command) t now s s' r :
  center_ok s → clock_ok (center_view s) now →
  v_operations (cv_operations (center_view s)) !! id = Some o →
  (do! (if decide (t = TargetUnsupported)
        then on_operations (TrackOperation (Epr := Epr) (Eob := Eob) (Ein := Ein)) (store_record_failure_kind id CapabilityUnsupported)
        else mret ()) in
   (if decide (op_state (apply_events o (target_events t) now) ≠ op_state o)
    then on_operations TrackOperation
           (store_apply_transition id (op_state (apply_events o (target_events t) now)) now)
    else mret ())) s = (s', r) →
  center_ok s' ∧ ∃ V, center_view s' = with_view (center_view s) V ∧
    partly_moved (cv_operations (center_view s)) id o t now V ∧
    (r = Ok () → V = moved_view (cv_operations (center_view s)) id o t now).
Proof.
  intros Hok Hclock Ho Hrun. rewrite apply_events_state in Hrun. set (V := cv_operations (center_view s)) in *.
  set (Vk := mk_view (v_operations V)
    (if decide (t = TargetUnsupported) then <[id := CapabilityUnsupported]> (v_kinds V) else v_kinds V)
    (v_batches V) (v_batch_of V)).
  assert (partly_moved V id o t now Vk) as Hpart.
  { unfold Vk. case_decide; [right; by right|]. left. by destruct V. }
  assert (∀ W : View Command, with_view (center_view s) W = with_view (with_view (center_view s) Vk) W) as Htw by done.
  apply mbind_inv in Hrun as [([] & s1 & Hk & Hrun)|(x & Hk & ->)].
  2: { destruct (decide (t = TargetUnsupported)); [|done]. apply center_record_kind in Hk as [Hok1 Hv1]; [|done]. simpl in Hv1.
       split; [done|]. exists V. rewrite Hv1. split; [by destruct (center_view s)|]. split; [by left|done]. }
  assert (center_ok s1 ∧ center_view s1 = with_view (center_view s) Vk) as [Hok1 Hv1].
  { clear Hpart Htw. subst Vk. destruct (decide (t = TargetUnsupported)) as [Hu|Hu];
      [|injection Hk as <-; split; [done|by destruct (center_view s) as [[]]]].
    apply center_record_kind in Hk as [Hok1 [_ Hv1]]; [|done]. done. }
  assert (Vk = moved_view V id o t now ∨ reply_state (op_state o) t ≠ op_state o) as Hcase.
  { unfold moved_view, Vk. destruct (decide (reply_state (op_state o) t = op_state o)) as [He|]; [left|by right].
    done. }
  destruct (decide (reply_state (op_state o) t ≠ op_state o)) as [Hd|Hd].
  - apply center_apply_transition in Hrun as [Hok' Hv']; [|done|].
    2: { intros p Hp. change (store_view (c_operations s1)) with (cv_operations (center_view s1)) in Hp.
         rewrite Hv1 in Hp. simpl in Hp. by eapply Hclock. }
    split; [done|]. destruct r as [[]|x].
    + destruct Hv' as (ops & Hrow & Hv'). rewrite Hv1 in Hrow, Hv'. simpl in *. unfold row_step in Hrow.
      rewrite Ho in Hrow. destruct (is_terminal (op_state o)); [done|]. injection Hrow as <-.
      exists (moved_view V id o t now). split; [|split; [right; by left|done]].
      rewrite Hv', <- Htw. unfold moved_view. cbv zeta. by rewrite (decide_False (P := reply_state _ _ = _)) by done.
    + exists Vk. rewrite Hv', Hv1. split; [done|]. split; [done|done].
  - injection Hrun as <- <-. split; [done|]. exists Vk. split; [done|].
    split; [done|]. intros _. destruct Hcase as [|Hne]; [done|]. by destruct (Hd Hne).
Qed.

Definition reply_post site envelope now v v' (r : result () Error) : Prop :=
  ∃ V inbox, v' = with_inbox (with_view v V) inbox ∧
    (V = cv_operations v ∨ ∃ id o t, about v envelope id o t ∧ credited v site o ∧
                                     partly_moved (cv_operations v) id o t now V) ∧
    (r = Ok () →
     (∀ id o t, about v envelope id o t → credited v site o → V = moved_view (cv_operations v) id o t now) ∧
     ((∀ id o t, about v envelope id o t → ¬ credited v site o) → V = cv_operations v)).

Lemma reply_ignored site envelope now s s' r :
  inbox_effect s s' → (∀ id o t, about (center_view s) envelope id o t → ¬ credited (center_view s) site o) →
  center_ok s' ∧ reply_post site envelope now (center_view s) (center_view s') r.
Proof.
  intros [Hok [inbox Hv]] Hno. split; [done|]. exists (cv_operations (center_view s)), inbox.
  rewrite Hv. split; [by destruct (center_view s)|]. split; [by left|]. intros _. split; [|done].
  intros id o t Ha Hc. by destruct (Hno _ _ _ Ha).
Qed.

Lemma reply_failed site envelope now s s' x :
  inbox_effect s s' → center_ok s' ∧ reply_post site envelope now (center_view s) (center_view s') (Err x).
Proof.
  intros [Hok [inbox Hv]]. split; [done|]. exists (cv_operations (center_view s)), inbox.
  rewrite Hv. split; [by destruct (center_view s)|]. split; [by left|done].
Qed.

(** A reply moves the one operation it names, by the state the reply means, and only
    when the site that sent it is the one the operation was offered to; any other
    reply moves nothing; a failure leaves at most the part of the move that was
    already stored. *)
Theorem reply_spec site envelope now s s' r :
  center_ok s → center_inv (center_view s) → clock_ok (center_view s) now →
  on_reply from_unix_timestamp new_v5_oid ids site envelope now s = (s', r) →
  center_ok s' ∧ reply_post site envelope now (center_view s) (center_view s') r.
Proof.
  intros Hok Hinv Hclock Hrun. unfold on_reply in Hrun. cbv zeta in Hrun.
  destruct (reply_operation_id (en_message envelope)) as [id|] eqn:Hid.
  2: { apply record_reply_spec in Hrun; [|done]. apply reply_ignored; [done|]. intros id o t (Ha & _). congruence. }
  destruct (reply_target (en_message envelope)) as [t|] eqn:Ht.
  2: { injection Hrun as <- <-. apply reply_ignored; [by apply inbox_effect_refl|]. intros ? o t (_ & Ha & _). congruence. }
  apply mbind_inv in Hrun as [(found & s1 & Hf & Hrun)|(x & Hf & ->)];
    apply center_find_operation in Hf as (Hok1 & Hv1 & Hf); try done.
  2: { apply reply_failed. split; [done|]. rewrite Hv1. by exists (cv_inbox (center_view s)). }
  specialize (Hf _ eq_refl). symmetry in Hf. destruct found as [o|].
  2: { apply record_reply_spec in Hrun as [Hok' [inbox Hv']]; [|done]. apply reply_ignored.
       - split; [done|]. exists inbox. by rewrite Hv', Hv1.
       - intros id' o t' (Ha & _ & Ho). assert (id' = id) as -> by congruence. congruence. }
  assert (about (center_view s) envelope id o t) as Habout by done.
  assert (∀ id' o' t', about (center_view s) envelope id' o' t' → id' = id ∧ o' = o ∧ t' = t) as Honly.
  { intros id' o' t' (Ha & Hb & Hc). assert (id' = id) as -> by congruence. split; [done|]. split; congruence. }
  apply mbind_inv in Hrun as [(site' & s2 & Hs & Hrun)|(x & Hs & ->)];
    apply offer_site_spec in Hs as (Hok2 & Hv2 & Hs); try done; try (by rewrite Hv1); rewrite Hv1 in Hv2, Hs.
  2: { apply reply_failed. split; [done|]. rewrite Hv2. by exists (cv_inbox (center_view s)). }
  specialize (Hs _ eq_refl). simpl in Hs. case_decide as Hd.
  { apply record_reply_spec in Hrun as [Hok' [inbox Hv']]; [|done]. apply reply_ignored.
    - split; [done|]. exists inbox. by rewrite Hv', Hv2.
    - intros id' o' t' (-> & -> & ->)%Honly Hc. by apply Hd, Hs. }
  assert (credited (center_view s) site o) as Hcred by (apply Hs; by destruct (decide (site' = Some site))).
  clear Hs Hd. rewrite <- mbind_assoc in Hrun.
  apply mbind_inv in Hrun as [([] & s3 & Hcredit & Hlog)|(x & Hcredit & ->)];
    apply credit_spec in Hcredit as (Hok3 & V & Hv3 & Hpart & Hfull); try done; try (by rewrite Hv2);
    rewrite Hv2 in Hv3, Hpart, Hfull.
  - apply log_reply_spec in Hlog as [Hok' [inbox Hv']]; [|done]. split; [done|]. exists V, inbox.
    rewrite Hv', Hv3. split; [done|]. split; [right; by exists id, o, t|]. intros _. split.
    + intros id' o' t' (-> & -> & ->)%Honly _. by apply Hfull.
    + intros Hno. by destruct (Hno _ _ _ Habout).
  - split; [done|]. exists V, (cv_inbox (center_view s)). rewrite Hv3. split; [done|].
    split; [right; by exists id, o, t|done].
Qed.
End spec.
