(* ===== verification/CenterRuns.v ===== *)
(** * CenterRuns: the center over time

    Dispatches, replies, retired offers and changes of the other tables, in any
    order and each with any outcome, at the instants of a clock that does not go
    back. *)
From S2P Require Import Prelude Text Operation OperationEngine CenterDomain LinkMessages Database CenterOutbox Accounts AccountStore SiteSync CenterStores CenterDispatch DispatchSafety CenterTracking.
Local Open Scope Z_scope.

Section runs.
Context {Command Sop Sob Sac Spr Sin Eop Eob Eac Epr Ein : Type} `{EqDecision Command}.
Context `{OperationStoreLaws Command Sop Eop} `{!EndpointListing Command Sop Eop}.
Context `{!EndpointListingLaws Command Sop Eop}.
Context `{EnvelopeJsonLaws} `{UuidText}.
Context `{!OutboxStore Sob Eob} `{!OutboxStoreLaws Sob Eob}.
Context `{AccountStoreLaws Sac Eac} `{ProjectionReadsLaws Spr Epr} `{InboxStoreLaws Sin Ein}.
Context (command_to_vec : Command → option (list N)) (from_unix_timestamp : Z → option OffsetDateTime)
  (new_v5_oid : list N → Uuid).
Abbreviation St := (Center Sop Sob Sac Spr Sin).
Implicit Types (s : St) (v : CenterView Command).

Inductive center_step (now : OffsetDateTime) : St → St → Prop :=
| step_dispatch ids rq s s' r :
    v_operations (cv_operations (center_view s)) !! di_operation ids = None →
    dispatch command_to_vec from_unix_timestamp ids rq now s = (s', r) → center_step now s s'
| step_reply ids site envelope s s' r :
    on_reply from_unix_timestamp new_v5_oid ids site envelope now s = (s', r) → center_step now s s'
| step_retire id s s' r :
    on_outbox (λ e : Eob, e) (acknowledge id now) s = (s', r) → center_step now s s'
| step_elsewhere s ac pr inb :
    center_ok (mk_center (c_operations s) (c_outbox s) ac pr inb) →
    center_step now s (mk_center (c_operations s) (c_outbox s) ac pr inb)
| step_quiet s s' :
    center_ok s' → center_view (Command := Command) s' = center_view s → center_step now s s'.

(** A run between two instants. *)
Inductive center_run : OffsetDateTime → St → OffsetDateTime → St → Prop :=
| run_nil now s : center_run now s now s
| run_cons now s now1 s1 now' s' :
    now <= now1 → center_step now1 s s1 → center_run now1 s1 now' s' → center_run now s now' s'.

(** Every stamp of the state lies in the past. *)
Definition past s (now : OffsetDateTime) : Prop :=
  stamps_ok (cv_entries (center_view s)) now ∧ clock_ok (center_view s) now.

Lemma past_later s now now' : past s now → now <= now' → past s now'.
Proof. intros [Hs Hc] Hle. split; [intros k e He; specialize (Hs _ _ He)|intros id o Ho; specialize (Hc _ _ Ho)]; lia. Qed.

(** What is decided stays as it is. *)
Definition decided_kept v v' : Prop :=
  ∀ id o, v_operations (cv_operations v) !! id = Some o → is_terminal (op_state o) = true →
          v_operations (cv_operations v') !! id = Some o.

(** One step: the invariant, the targets, the decisions. *)
Definition progress v v' : Prop := center_inv v' ∧ targets_kept v v' ∧ decided_kept v v'.

Lemma created_lookup ids rq now v id :
  v_operations (cv_operations v) !! di_operation ids = None →
  v_operations (cv_operations (created ids rq now v)) !! id =
  if decide (id = di_operation ids) then Some (canonical (new_operation ids rq now))
  else v_operations (cv_operations v) !! id.
Proof.
  intros Hfresh. unfold created, view_create. simpl. rewrite Hfresh. simpl.
  case_decide as Hid; [subst; by rewrite lookup_insert_eq|by rewrite lookup_insert_ne].
Qed.

Lemma retried_stamps ids rq id now es es' :
  retried (Command := Command) command_to_vec ids rq id now es es' → stamps_ok es now → stamps_ok es' now.
Proof.
  intros (json & es1 & es2 & e & _ & Hs1 & Hen & Hs2) Hst.
  by eapply shrinks_stamps, enqueued_stamps, shrinks_stamps.
Qed.

Lemma dispatch_progress ids rq now s s' r :
  center_ok s → center_inv (center_view s) → past s now →
  v_operations (cv_operations (center_view s)) !! di_operation ids = None →
  dispatch command_to_vec from_unix_timestamp ids rq now s = (s', r) →
  center_ok s' ∧ progress (center_view s) (center_view s') ∧ past s' now.
Proof.
  intros Hok Hinv [Hst Hclock] Hfresh Hrun.
  destruct (dispatch_spec _ _ _ _ _ _ _ _ Hok Hst Hrun) as [Hok' [Heff _]]. split; [done|].
  destruct (inv_effect _ _ _ _ _ _ Hinv Hfresh Heff) as [Hinv' Hkept].
  split; [split; [done|split; [done|]]|]; unfold past, decided_kept.
  - intros id o Ho Ht.
    assert (v_operations (cv_operations (created ids rq now (center_view s))) !! id = Some o) as Hc.
    { rewrite created_lookup by done. case_decide; subst; congruence. }
    destruct Heff; done.
  - assert (clock_ok (created ids rq now (center_view s)) now) as Hclock'.
    { intros id o. rewrite created_lookup by done. case_decide; [intros [= <-]; simpl; lia|apply Hclock]. }
    destruct Heff; (split; [|done]); simpl; by eauto using shrinks_stamps, retried_stamps.
Qed.

Lemma moved_lookup (V : View Command) id o t now k p :
  v_operations V !! id = Some o → v_operations (moved_view V id o t now) !! k = Some p →
  v_operations V !! k = Some p ∨
  k = id ∧ p = set_state o (reply_state (op_state o) t) now ∧ is_terminal (op_state o) = false.
Proof.
  intros Ho. unfold moved_view. simpl. destruct (decide (reply_state (op_state o) t = op_state o)) as [|Hne]; [by left|].
  intros [[<- <-]|[_ Hp]]%lookup_insert_Some; [right|by left]. split; [done|]. split; [done|].
  unfold reply_state in Hne. by destruct (is_terminal (op_state o)).
Qed.

Lemma partly_moved_lookup (V V' : View Command) id o t now k p :
  v_operations V !! id = Some o → partly_moved V id o t now V' → v_operations V' !! k = Some p →
  v_operations V !! k = Some p ∨
  k = id ∧ p = set_state o (reply_state (op_state o) t) now ∧ is_terminal (op_state o) = false.
Proof.
  intros Ho [->|[->|[_ ->]]] Hp; [by left|by apply moved_lookup|by left].
Qed.

Lemma partly_moved_dom (V V' : View Command) id o t now k :
  partly_moved V id o t now V' → is_Some (v_operations V !! k) → is_Some (v_operations V' !! k).
Proof.
  intros [->|[->|[_ ->]]] Hk; [done| |done]. unfold moved_view. simpl.
  case_decide; [done|]. apply lookup_insert_is_Some'. by right.
Qed.

Lemma reply_progress ids site envelope now s s' r :
  center_ok s → center_inv (center_view s) → past s now →
  on_reply from_unix_timestamp new_v5_oid ids site envelope now s = (s', r) →
  center_ok s' ∧ progress (center_view s) (center_view s') ∧ past s' now.
Proof.
  intros Hok Hinv [Hst Hclock] Hrun.
  destruct (reply_spec _ _ _ _ _ _ _ _ _ Hok Hinv Hclock Hrun) as [Hok' (V & inbox & Hv & HV & _)].
  split; [done|]. set (v := center_view s) in *. rewrite Hv.
  assert (V = cv_operations v ∨ ∃ id o t, v_operations (cv_operations v) !! id = Some o ∧
    partly_moved (cv_operations v) id o t now V) as HV'.
  { destruct HV as [->|(id & o & t & (_ & _ & Ho) & _ & Hp)]; [by left|]. right. by exists id, o, t. }
  assert (∀ k p, v_operations V !! k = Some p → v_operations (cv_operations v) !! k = Some p ∨
    ∃ o t, v_operations (cv_operations v) !! k = Some o ∧ p = set_state o (reply_state (op_state o) t) now ∧
           is_terminal (op_state o) = false) as Hback.
  { intros k p Hp. destruct HV' as [->|(id & o & t & Ho & Hpart)]; [by left|].
    destruct (partly_moved_lookup _ _ _ _ _ _ _ _ Ho Hpart Hp) as [|(-> & -> & Ht)]; [by left|]. right. by exists o, t. }
  assert (∀ k, is_Some (v_operations (cv_operations v) !! k) → is_Some (v_operations V !! k)) as Hdom.
  { intros k Hk. destruct HV' as [->|(id & o & t & Ho & Hpart)]; [done|]. by eapply partly_moved_dom. }
  destruct (inv_advance v (with_inbox (with_view v V) inbox) Hinv) as [Hinv' Hkept].
  { split; [done|]. split; [|done]. simpl. intros id p Hp. destruct (Hback _ _ Hp) as [Hp'|(o & t & Ho & -> & Ht)].
    - by exists p.
    - exists o. do 5 (split; [done|]). done. }
  split; [split; [done|split; [done|]]|split].
  - intros id o Ho Ht. simpl. destruct (Hdom id (mk_is_Some _ _ Ho)) as [p Hp]. rewrite Hp.
    destruct (Hback _ _ Hp) as [|(o' & t & Ho' & _ & Ht')]; congruence.
  - by rewrite Hv.
  - rewrite Hv. intros id p Hp. destruct (Hback _ _ Hp) as [Hp'|(o & t & Ho & -> & _)]; [by eapply Hclock|].
    simpl. by eapply Hclock.
Qed.

Lemma retire_progress (id : OutboxEntryId) now s s' r :
  center_ok s → center_inv (center_view s) → past s now →
  on_outbox (λ e : Eob, e) (acknowledge id now) s = (s', r) →
  center_ok s' ∧ progress (center_view s) (center_view s') ∧ past s' now.
Proof.
  intros Hok Hinv [Hst Hclock] Hrun.
  apply center_acknowledge in Hrun as [Hok' Hv]; [|done|by intros e He; eapply Hst]. split; [done|].
  destruct r as [[]|x].
  - destruct Hv as (es & Hack & Hv). pose proof (acknowledged_shrinks _ _ _ _ Hack) as Hsh.
    destruct (inv_shrinks _ _ Hinv Hsh) as [Hinv' Hk]. unfold past. rewrite Hv.
    split; [split; [done|split; [done|by intros id' o Ho]]|]. split; [by eapply shrinks_stamps|done].
  - unfold past. simpl in Hv. rewrite Hv. split; [|done]. split; [done|]. split; by intros ?.
Qed.

Lemma step_progress now s s' :
  center_ok s → center_inv (center_view s) → past s now → center_step now s s' →
  center_ok s' ∧ progress (center_view s) (center_view s') ∧ past s' now.
Proof.
  intros Hok Hinv Hp Hstep. destruct Hstep as [ids rq s s' r Hf Hrun|ids site envelope s s' r Hrun|id s s' r Hrun|s ac pr inb Hok'|s s' Hok' Hsame].
  - by eapply dispatch_progress.
  - by eapply reply_progress.
  - by eapply retire_progress.
  - split; [done|]. split; [|done]. destruct Hinv as [H1' H2' H3' H4'].
    split; [by split|]. split; [by intros id t Ht|by intros id o Ho].
  - unfold past. rewrite Hsame. split; [done|]. split; [|done]. split; [done|]. split; [by intros id t Ht|by intros id o Ho].
Qed.

(** C13: Whatever the center does and wherever it is interrupted: of two operations
    that ask the same of the same target at most one is undecided with an offer out,
    an operation is never offered for a second target and never at a site other than
    the one its offer names, and a decided operation is never touched again. *)
Theorem center_run_safe now s now' s' :
  center_ok s → center_inv (center_view s) → past s now →
  center_run now s now' s' →
  center_ok s' ∧ center_inv (center_view s') ∧ targets_kept (center_view s) (center_view s') ∧
  decided_kept (center_view s) (center_view s').
Proof.
  intros Hok Hinv Hp Hrun. induction Hrun as [now s|now s now1 s1 now' s' Hle Hstep Hrun IH].
  { split; [done|]. split; [done|]. split; [by intros id t Ht|by intros id o Ho]. }
  destruct (step_progress now1 s s1) as (Hok1 & (Hinv1 & Hk1 & Hd1) & Hp1); [done..|by eapply past_later|exact Hstep|].
  destruct (IH Hok1 Hinv1 Hp1) as (Hok' & Hinv' & Hk' & Hd'). split; [done|]. split; [done|].
  split; [intros id t Ht; by apply Hk', Hk1|]. intros id o Ho Ht. apply Hd'; [|done]. by apply Hd1.
Qed.

(** ** The order of the queue over time *)

Definition distinct (es : Entries) : Prop :=
  ∀ k e k' e', es !! k = Some e → es !! k' = Some e' → oe_instance_id e = oe_instance_id e' →
    oe_sequence e = oe_sequence e' → k = k'.

(** What joins an instance's queue joins behind everything that was ever there. *)
Record queue_evolves (es es' : Entries) : Prop := {
  evolves_pending k e : es' !! k = Some e → oe_state e = OutboxPending →
    es !! k = Some e ∨
    ∀ k' f, es !! k' = Some f → oe_instance_id f = oe_instance_id e → oe_sequence f < oe_sequence e;
  evolves_top k f : es !! k = Some f →
    ∃ k' f', es' !! k' = Some f' ∧ oe_instance_id f' = oe_instance_id f ∧ oe_sequence f <= oe_sequence f';
  evolves_distinct : distinct es → distinct es';
}.

#[export] Instance queue_evolves_refl : Reflexive queue_evolves.
Proof. intros es. split; [by left|intros k f Hf; by exists k, f|done]. Qed.

#[export] Instance queue_evolves_trans : Transitive queue_evolves.
Proof.
  intros es1 es2 es3 [Hp1 Ht1 Hd1] [Hp2 Ht2 Hd2]. split; [|..|auto].
  - intros k e He Hs. destruct (Hp2 _ _ He Hs) as [He2|Hlast]; [by apply Hp1|]. right.
    intros k' f Hf Hi. destruct (Ht1 _ _ Hf) as (k2 & f2 & Hf2 & Hi2 & Hle).
    specialize (Hlast _ _ Hf2). rewrite Hi2 in Hlast. specialize (Hlast Hi). lia.
  - intros k f Hf. destruct (Ht1 _ _ Hf) as (k1 & f1 & Hf1 & Hi1 & Hle1).
    destruct (Ht2 _ _ Hf1) as (k2 & f2 & Hf2 & Hi2 & Hle2). exists k2, f2. rewrite Hi2.
    split; [done|]. split; [done|lia].
Qed.

Lemma shrinks_evolves es es' : shrinks es es' → queue_evolves es es'.
Proof.
  intros Hsh. split.
  - intros k e He Hs. destruct (shrinks_from _ _ Hsh _ _ He) as (g & Hg & _ & _ & _ & _ & Heq).
    left. by rewrite (Heq Hs).
  - apply (shrinks_top _ _ Hsh).
  - intros Hd k e k' e' He He' Hi Hs.
    destruct (shrinks_from _ _ Hsh _ _ He) as (g & Hg & Hgi & Hgs & _).
    destruct (shrinks_from _ _ Hsh _ _ He') as (g' & Hg' & Hgi' & Hgs' & _).
    eapply Hd; [exact Hg|exact Hg'|congruence|congruence].
Qed.

Lemma enqueued_evolves entry instance message now es es' e :
  enqueued entry instance message now es es' e → queue_evolves es es'.
Proof.
  intros [Hfree -> He _ Hlast].
  assert (oe_instance_id e = instance) as Hi by by rewrite He.
  split.
  - intros k f [[<- <-]|[_ Hf]]%lookup_insert_Some Hs; [|by left]. right. intros k' g Hg Hgi.
    eapply Hlast; [done|congruence].
  - intros k f Hf. exists k, f. rewrite lookup_insert_ne; [done|]. intros ->. congruence.
  - intros Hd k f k' f' [[<- <-]|[_ Hf]]%lookup_insert_Some [[<- <-]|[_ Hf']]%lookup_insert_Some Hii Hss;
      [done|..|by eapply Hd].
    + specialize (Hlast _ _ Hf'). rewrite <- Hii in Hlast. specialize (Hlast Hi). lia.
    + specialize (Hlast _ _ Hf). rewrite Hii in Hlast. specialize (Hlast Hi). lia.
Qed.

Lemma retried_evolves ids rq id now es es' :
  retried (Command := Command) command_to_vec ids rq id now es es' → queue_evolves es es'.
Proof.
  intros (json & es1 & es2 & e & _ & Hs1 & Hen & Hs2).
  etrans; [by apply shrinks_evolves|]. etrans; [by eapply enqueued_evolves|]. by apply shrinks_evolves.
Qed.

Lemma step_evolves now s s' :
  center_ok s → center_inv (center_view s) → past s now → center_step now s s' →
  queue_evolves (cv_entries (center_view s)) (cv_entries (center_view s')).
Proof.
  intros Hok Hinv [Hst Hclock] Hstep.
  destruct Hstep as [ids rq s s' r Hf Hrun|ids site envelope s s' r Hrun|id s s' r Hrun|s ac pr inb Hok'|s s' Hok' Hsame].
  - destruct (dispatch_spec _ _ _ _ _ _ _ _ Hok Hst Hrun) as [_ [Heff _]].
    destruct Heff; simpl; [by apply shrinks_evolves|by eapply retried_evolves|done|by eapply retried_evolves].
  - destruct (reply_spec _ _ _ _ _ _ _ _ _ Hok Hinv Hclock Hrun) as [_ (V & inbox & Hv & _)]. by rewrite Hv.
  - apply center_acknowledge in Hrun as [_ Hv]; [|done|by intros e He; eapply Hst]. destruct r as [[]|x].
    + destruct Hv as (es & Hack & Hv). rewrite Hv. by eapply shrinks_evolves, acknowledged_shrinks.
    + simpl in Hv. by rewrite Hv.
  - done.
  - by rewrite Hsame.
Qed.

Lemma run_evolves now s now' s' :
  center_ok s → center_inv (center_view s) → past s now → center_run now s now' s' →
  center_ok s' ∧ center_inv (center_view s') ∧ past s' now' ∧ now <= now' ∧
  queue_evolves (cv_entries (center_view s)) (cv_entries (center_view s')).
Proof.
  intros Hok Hinv Hp Hrun. induction Hrun as [now s|now s now1 s1 now' s' Hle Hstep Hrun IH].
  { split; [done|]. split; [done|]. split; [done|]. split; [lia|done]. }
  apply (past_later _ _ now1) in Hp; [|done].
  destruct (step_progress now1 s s1) as (Hok1 & (Hinv1 & _ & _) & Hp1); [done..|exact Hstep|].
  destruct (IH Hok1 Hinv1 Hp1) as (Hok' & Hinv' & Hp' & Hle' & Hev). split; [done|]. split; [done|]. split; [done|].
  split; [lia|]. etrans; [by eapply step_evolves|done].
Qed.
End runs.
