(* ===== verification/CenterSession.v ===== *)
(** * CenterSession: the sites online, and one connection of a site

    Models [application/src/center/session.rs]: the registry of the online sites
    and the engine of an admitted connection, generic in the outbox, the consumer
    and the transport as the code is; then [center/binding.rs], how a site is
    registered and bound and its connections are admitted. *)
From S2P Require Import Prelude Text Operation CommandCipher Database CenterDomain LinkMessages Endpoints CenterOutbox CenterStores CenterDispatch.
Local Open Scope Z_scope.

Record ResolvedSite := mk_resolved_site {
  rs_instance_id : InstanceId;
  rs_binding_id : Uuid;
  rs_site_fingerprint : CertificateFingerprint;
}.

(** ** The registry *)

Record OnlineSession := mk_online_session {
  os_site : ResolvedSite;
  os_last_seen : OffsetDateTime;
  os_generation : Z;
}.

(** The locked map (and whether a holder of its lock panicked), and the counter. *)
Record CenterSessionRegistry := mk_registry {
  rg_online : gmap InstanceId OnlineSession;
  rg_poisoned : bool;
  rg_next_generation : Z;
}.

Inductive CenterSessionRegistryError := AlreadyConnected (site : InstanceId) | Poisoned.

Implicit Types (reg : CenterSessionRegistry).

Definition registry_new : CenterSessionRegistry := mk_registry ∅ false 0.

Definition with_online reg (online : gmap InstanceId OnlineSession) : CenterSessionRegistry :=
  mk_registry online (rg_poisoned reg) (rg_next_generation reg).

(** [fetch_add] wraps; the generation is the saturating successor of what it
    returned. *)
Definition mark_connected reg (site : ResolvedSite) (now : OffsetDateTime)
    : CenterSessionRegistry * result Z CenterSessionRegistryError :=
  if rg_poisoned reg then (reg, Err Poisoned)
  else match rg_online reg !! rs_instance_id site with
  | Some _ => (reg, Err (AlreadyConnected (rs_instance_id site)))
  | None =>
      let generation := saturating_add_u64 (rg_next_generation reg) 1 in
      (mk_registry (<[rs_instance_id site := mk_online_session site now generation]> (rg_online reg))
         false (wrapping_add_u64 (rg_next_generation reg) 1), Ok generation)
  end.

(** [disconnect]; the answer is whether a session was notified. *)
Definition disconnect reg (site : InstanceId) : CenterSessionRegistry * bool :=
  if rg_poisoned reg then (reg, false)
  else (with_online reg (delete site (rg_online reg)), bool_decide (is_Some (rg_online reg !! site))).

Definition touch reg (site : InstanceId) (now : OffsetDateTime) : CenterSessionRegistry :=
  if rg_poisoned reg then reg
  else with_online reg
    (alter (λ s, mk_online_session (os_site s) now (os_generation s)) site (rg_online reg)).

Definition has_generation reg (site : InstanceId) (generation : Z) : bool :=
  match rg_online reg !! site with
  | Some session => bool_decide (os_generation session = generation)
  | None => false
  end.

Definition mark_disconnected reg (site : InstanceId) (generation : Z) : CenterSessionRegistry :=
  if rg_poisoned reg then reg
  else if has_generation reg site generation then with_online reg (delete site (rg_online reg)) else reg.

Definition is_current reg (site : InstanceId) (generation : Z) : bool :=
  negb (rg_poisoned reg) && has_generation reg site generation.

Definition is_online reg (site : InstanceId) : bool :=
  negb (rg_poisoned reg) && bool_decide (is_Some (rg_online reg !! site)).

Definition seen_later (l r : OnlineSession) : Prop := os_last_seen r <= os_last_seen l.
#[export] Instance seen_later_dec : RelDecision seen_later.
Proof. intros l r. unfold seen_later. apply _. Defined.

Definition list_online reg : list ResolvedSite :=
  if rg_poisoned reg then []
  else os_site <$> merge_sort seen_later (map_to_list (rg_online reg)).*2.

(** ** The engine *)

Definition FLUSH_LIMIT : Z := 64.

Inductive CenterInboundEngineError (Eob Eco : Type) :=
| EngineTransport
| EngineOutbox (source : Eob)
| EngineConsumer (source : Eco).
Arguments EngineTransport {Eob Eco}.
Arguments EngineOutbox {Eob Eco}.
Arguments EngineConsumer {Eob Eco}.

(** What [receive] yields. *)
Inductive Inbound := Frame (envelope : Envelope) | InboundClosed | InboundFailed.

(** The engine over the center's state: what it sent and reported on this
    connection, the frames it put on the wire, and how often it read the clock. *)
Record Engine (St : Type) := mk_engine {
  eg_center : St;
  eg_registry : CenterSessionRegistry;
  eg_sent : list (OutboxEntryId * Z);
  eg_reported : list OutboxEntryId;
  eg_wire : list Envelope;
  eg_peer_acked : Z;
  eg_reads : nat;
}.
Arguments mk_engine {St}.
Arguments eg_center {St}.
Arguments eg_registry {St}.
Arguments eg_sent {St}.
Arguments eg_reported {St}.
Arguments eg_wire {St}.
Arguments eg_peer_acked {St}.
Arguments eg_reads {St}.

Section engine.
Context {Sop Sob Sac Spr Sin Eob Eco : Type} `{EnvelopeJson} `{OutboxStore Sob Eob}.
Abbreviation St := (Center Sop Sob Sac Spr Sin).
(** [OffsetDateTime::from_unix_timestamp], the consumer, the clock by reading, and
    which sends fail. *)
Context (from_unix_timestamp : Z → option OffsetDateTime).
Context (on_frame : ResolvedSite → Envelope → OffsetDateTime → M St Eco ()).
Context (clock : nat → OffsetDateTime) (send_fails : nat → bool).
Context (site : ResolvedSite) (generation : Z).
Abbreviation Eng := (M (Engine St) (CenterInboundEngineError Eob Eco)).
Implicit Types (g : Engine St).

Definition set_center g (c : St) : Engine St :=
  mk_engine c (eg_registry g) (eg_sent g) (eg_reported g) (eg_wire g) (eg_peer_acked g) (eg_reads g).
Definition set_registry g (reg : CenterSessionRegistry) : Engine St :=
  mk_engine (eg_center g) reg (eg_sent g) (eg_reported g) (eg_wire g) (eg_peer_acked g) (eg_reads g).
Definition set_sent g (sent : list (OutboxEntryId * Z)) : Engine St :=
  mk_engine (eg_center g) (eg_registry g) sent (eg_reported g) (eg_wire g) (eg_peer_acked g) (eg_reads g).

Definition engine_outbox {A} (m : M Sob Eob A) : Eng A :=
  zoom eg_center set_center (λ e, e) (on_outbox EngineOutbox m).

Definition read_clock : Eng OffsetDateTime := λ g,
  (mk_engine (eg_center g) (eg_registry g) (eg_sent g) (eg_reported g) (eg_wire g) (eg_peer_acked g)
     (S (eg_reads g)), Ok (clock (eg_reads g))).

Definition get {A} (f : Engine St → A) : Eng A := λ g, (g, Ok (f g)).
Definition modify (f : Engine St → Engine St) : Eng () := λ g, (f g, Ok ()).

(** [session.send]. *)
Definition send (envelope : Envelope) : Eng () := λ g,
  if send_fails (length (eg_wire g)) then (g, Err EngineTransport)
  else (mk_engine (eg_center g) (eg_registry g) (eg_sent g) (eg_reported g) (eg_wire g ++ [envelope])
          (eg_peer_acked g) (eg_reads g), Ok ()).

(** [report_undeliverable]: the log remembers what it reported. *)
Definition report_undeliverable (entry_id : OutboxEntryId) : Eng () := modify (λ g,
  if decide (entry_id ∈ eg_reported g) then g
  else mk_engine (eg_center g) (eg_registry g) (eg_sent g) (eg_reported g ++ [entry_id]) (eg_wire g)
         (eg_peer_acked g) (eg_reads g)).

Definition offer_expiry (message : EnvelopeMessage) : option OffsetDateTime :=
  match message with
  | MsgOffer offer => Some (default 0 (from_unix_timestamp (of_expires_at_unix offer)))
  | _ => None
  end.

(** The loop of [flush_outbox] over the listed entries. *)
Fixpoint flush_entries (now : OffsetDateTime) (pending : list OutboxEntry) : Eng () :=
  match pending with
  | [] => mret ()
  | entry :: rest =>
      let! current := get (λ g, is_current (eg_registry g) (rs_instance_id site) generation) in
      if negb current then mret ()
      else
      let! sent := get eg_sent in
      if decide (oe_id entry ∈ sent.*1) then flush_entries now rest
      else match envelope_from_json (oe_payload_json entry) with
      | None => do! report_undeliverable (oe_id entry) in flush_entries now rest
      | Some envelope =>
          match u64_try_from (oe_sequence entry) with
          | None => do! report_undeliverable (oe_id entry) in flush_entries now rest
          | Some wire_sequence =>
              match en_message envelope with
              | None => do! report_undeliverable (oe_id entry) in flush_entries now rest
              | Some message =>
                  if is_some_and (offer_expiry message) (λ expires_at, expires_at <? now) then
                    do! engine_outbox (acknowledge (oe_id entry) now) in
                    flush_entries now rest
                  else
                    let! peer_acked := get eg_peer_acked in
                    do! send (mk_envelope wire_sequence peer_acked (Some message)) in
                    do! modify (λ g, set_sent g (eg_sent g ++ [(oe_id entry, oe_sequence entry)])) in
                    flush_entries now rest
              end
          end
      end
  end.

Definition flush_outbox : Eng () :=
  let! pending := engine_outbox (list_pending (rs_instance_id site) FLUSH_LIMIT) in
  let! now := read_clock in
  flush_entries now pending.

(** The [while] loop of [ack_outbox] over the entries sent, oldest first. *)
Fixpoint ack_sent (now : OffsetDateTime) (acked_sequence : Z) (sent : list (OutboxEntryId * Z)) : Eng () :=
  match sent with
  | [] => mret ()
  | (entry_id, sequence) :: rest =>
      match u64_try_from sequence with
      | None => do! modify (λ g, set_sent g rest) in ack_sent now acked_sequence rest
      | Some wire_sequence =>
          if acked_sequence <? wire_sequence then mret ()
          else
            do! modify (λ g, set_sent g rest) in
            do! engine_outbox (acknowledge entry_id now) in
            ack_sent now acked_sequence rest
      end
  end.

Definition ack_outbox (acked_sequence : Z) : Eng () :=
  let! now := read_clock in
  let! sent := get eg_sent in
  ack_sent now acked_sequence sent.

(** The body of the loop, for one frame. *)
Definition receive_frame (envelope : Envelope) : Eng () :=
  do! modify (λ g, mk_engine (eg_center g) (eg_registry g) (eg_sent g) (eg_reported g) (eg_wire g)
                     (Z.max (eg_peer_acked g) (en_sequence envelope)) (eg_reads g)) in
  let! now := read_clock in
  do! modify (λ g, set_registry g (touch (eg_registry g) (rs_instance_id site) now)) in
  let! delivery_ack :=
    match en_message envelope with
    | Some (MsgAck sequence) => do! ack_outbox sequence in mret false
    | Some (MsgHeartbeat _) => mret false
    | Some _ =>
        do! zoom eg_center set_center EngineConsumer (on_frame site envelope now) in mret true
    | None => mret false
    end in
  do! ack_outbox (en_acked_sequence envelope) in
  do! (if delivery_ack : bool then
         let! peer_acked := get eg_peer_acked in
         send (mk_envelope 0 peer_acked (Some (MsgAck (en_sequence envelope))))
       else mret ()) in
  flush_outbox.

Fixpoint receive_loop (inbound : list Inbound) : Eng () :=
  match inbound with
  | [] | InboundClosed :: _ => mret ()
  | InboundFailed :: _ => mfail EngineTransport
  | Frame envelope :: inbound => do! receive_frame envelope in receive_loop inbound
  end.

(** [connected_loop], until the connection ends or is stopped. *)
Definition connected_loop (inbound : list Inbound) : Eng () :=
  do! flush_outbox in receive_loop inbound.

(** [run]: the loop, then the presence ends with it. *)
Definition engine_run (inbound : list Inbound) : Eng () := λ g,
  let '(g', r) := connected_loop inbound (mk_engine (eg_center g) (eg_registry g) [] [] [] 0 (eg_reads g)) in
  (set_registry g' (mark_disconnected (eg_registry g') (rs_instance_id site) generation), r).
End engine.

(** ** Registering a site, binding it, admitting its connections

    Models [application/src/center/binding.rs], the admission of
    [application/src/center/session.rs], and [security/src/binding_code.rs].  The
    certificate issuer is the flow's own type parameter; identities, the drawn
    bytes and the clock are arguments. *)

(** ** The one-time code *)

Inductive BindingCodeError := BindingRandomnessUnavailable | BindingInvalidAlphabet.

(** [generate_binding_code]; [random] is what [getrandom::fill] delivered. *)
Definition generate_binding_code (random : option (list N)) : result str BindingCodeError :=
  let? indices := ok_or random BindingRandomnessUnavailable in
  let code := (λ index, default 0%N (CODE_ALPHABET !! (N.to_nat index mod length CODE_ALPHABET)%nat)) <$> indices in
  map_err (λ _, BindingInvalidAlphabet) (BindingCode_from_str code).

(** ** Identities *)

Record SiteIdentity := mk_site_identity {
  sid_fingerprint : CertificateFingerprint;
  sid_subject : option str;
  sid_bound_site_fingerprint : option CertificateFingerprint;
}.

Inductive IdentityValidationError := NotBound | ExtensionMissing | ExtensionMismatch | SubjectMismatch.

Definition validate_bound_identity `{UuidText} (binding : CenterBinding) (identity : SiteIdentity)
    : result () IdentityValidationError :=
  if decide (cb_state binding ≠ BindingBound) then Err NotBound
  else
    let? bound_fingerprint := ok_or (sid_bound_site_fingerprint identity) ExtensionMissing in
    if decide (cb_site_cert_fingerprint binding ≠ Some bound_fingerprint) then Err ExtensionMismatch
    else if decide (sid_subject identity ≠ Some (show_uuid (cb_site_instance_id binding)))
    then Err SubjectMismatch
    else Ok ().

Record IssuedSiteCertificate := mk_issued_certificate {
  ic_certificate_pem : str;
  ic_key_pem : str;
  ic_fingerprint : CertificateFingerprint;
}.

Record CenterTrustAnchor := mk_trust_anchor {
  ta_server_fingerprint : CertificateFingerprint;
  ta_ca_fingerprint : CertificateFingerprint;
}.

Record RegisteredSite := mk_registered_site {
  rgs_instance_id : InstanceId;
  rgs_binding_id : CenterBindingId;
  rgs_code : str;
  rgs_expires_at : OffsetDateTime;
}.

Record BindOutcome := mk_bind_outcome {
  bo_site_instance_id : InstanceId;
  bo_binding_id : CenterBindingId;
  bo_issued_certificate : IssuedSiteCertificate;
  bo_trust_anchor : CenterTrustAnchor;
}.

Inductive CenterBindingFlowError (Ei Eb Es : Type) :=
| FlowMalformedCode
| FlowCodeMismatch
| FlowCodeExpired
| FlowBindingNotPending
| FlowBindingStillInForce (site : InstanceId)
| FlowCodeGeneration (source : BindingCodeError)
| FlowInstance (source : Ei)
| FlowBinding (source : Eb)
| FlowIssuer (source : Es).
Arguments FlowMalformedCode {Ei Eb Es}.
Arguments FlowCodeMismatch {Ei Eb Es}.
Arguments FlowCodeExpired {Ei Eb Es}.
Arguments FlowBindingNotPending {Ei Eb Es}.
Arguments FlowBindingStillInForce {Ei Eb Es}.
Arguments FlowCodeGeneration {Ei Eb Es}.
Arguments FlowInstance {Ei Eb Es}.
Arguments FlowBinding {Ei Eb Es}.
Arguments FlowIssuer {Ei Eb Es}.

Inductive AdmissionRejection :=
| UnknownSite
| RejectedIdentity (reason : IdentityValidationError)
| HelloIdentityMismatch (declared : str) (bound : InstanceId).

Inductive AdmissionVerdict := Admits (site : ResolvedSite) | RejectedAdmission (reason : AdmissionRejection).

(** [15 * 60] seconds, in nanoseconds. *)
Definition BINDING_CODE_TTL : Z := 15 * 60 * 1000000000.

Section flow.
Context {Sb Sob Ei Eb Eob Es : Type} (sha256 : list N → list N) `{UuidText}.
Context `{BindingStore Sb Ei Eb} `{OutboxStore Sob Eob}.
(** The issuer, and its trust anchor. *)
Context (issue_site_certificate : InstanceId → CertificateFingerprint → result IssuedSiteCertificate Es).
Context (center_trust_anchor : CenterTrustAnchor).
Abbreviation St := (Sb * Sob)%type.
Abbreviation Flow := (M St (CenterBindingFlowError Ei Eb Es)).

(** The store of the flow keeps the bindings and the queues. *)
Definition put_bindings (s : St) (t : Sb) : St := (t, s.2).
Definition put_queues (s : St) (t : Sob) : St := (s.1, t).
Definition on_bindings {A E F} (err : E → F) (m : M Sb E A) : M St F A := zoom fst put_bindings err m.
Definition on_queues {A E F} (err : E → F) (m : M Sob E A) : M St F A := zoom snd put_queues err m.

Definition register_site (instance_id : InstanceId) (binding_id : CenterBindingId) (random : option (list N))
    (center_url display_name : str) (now : OffsetDateTime) : Flow RegisteredSite :=
  let! code := mlift (map_err FlowCodeGeneration (generate_binding_code random)) in
  let instance := mk_site_instance instance_id display_name KindSite now in
  do! on_bindings FlowInstance (create_instance instance) in
  let binding := new_pending sha256 binding_id center_url instance_id code (now + BINDING_CODE_TTL) now in
  do! on_bindings FlowBinding (create_binding binding) in
  mret (mk_registered_site instance_id binding_id code (default now (cb_expires_at binding))).

(** The loop of [retire_site_offers]: a failed acknowledgement is logged. *)
Fixpoint retire_entries (pending : list OutboxEntry) (now : OffsetDateTime) : Flow () :=
  match pending with
  | [] => mret ()
  | entry :: pending => λ s,
      let '(s', _) := on_queues (λ e : Eob, e) (acknowledge (oe_id entry) now) s in
      retire_entries pending now s'
  end.

Definition retire_site_offers (site : InstanceId) (now : OffsetDateTime) : Flow () := λ s,
  match on_queues (λ e : Eob, e) (list_pending site U64_MAX) s with
  | (s', Err _) => (s', Ok ())
  | (s', Ok pending) => retire_entries pending now s'
  end.

Definition flow_verification_error (e : BindingCodeVerificationError) : CenterBindingFlowError Ei Eb Es :=
  match e with
  | CodeMismatch => FlowCodeMismatch
  | CodeExpired => FlowCodeExpired
  | NotPending => FlowBindingNotPending
  end.

Definition bind_site (presented_code : str) (site_fingerprint : CertificateFingerprint)
    (now : OffsetDateTime) : Flow BindOutcome :=
  let! code := mlift (map_err (λ _, FlowMalformedCode) (BindingCode_from_str presented_code)) in
  let! found := on_bindings FlowBinding (find_pending_binding_by_code_hash (BindingCode_hash sha256 code)) in
  let! binding := mlift (ok_or found FlowCodeMismatch) in
  do! mlift (map_err flow_verification_error (verify_code sha256 binding code now)) in
  let! previous := on_bindings FlowBinding (find_binding_by_site_fingerprint site_fingerprint) in
  do! match previous with
      | None => mret ()
      | Some previous =>
          if decide (cb_state previous = BindingBound)
          then mfail (FlowBindingStillInForce (cb_site_instance_id previous))
          else retire_site_offers (cb_site_instance_id previous) now
      end in
  let! issued := mlift (map_err FlowIssuer
                   (issue_site_certificate (cb_site_instance_id binding) site_fingerprint)) in
  do! on_bindings FlowBinding (bind_with_code (cb_id binding) code (Some site_fingerprint) now) in
  mret (mk_bind_outcome (cb_site_instance_id binding) (cb_id binding) issued center_trust_anchor).

(** [CenterSessionAdmission::resolve]. *)
Definition resolve (identity : SiteIdentity) (declared_instance_id : str) : M Sb Eb AdmissionVerdict :=
  match sid_bound_site_fingerprint identity with
  | None => mret (RejectedAdmission (RejectedIdentity ExtensionMissing))
  | Some site_fingerprint =>
      let! found := find_binding_by_site_fingerprint site_fingerprint in
      match found with
      | None => mret (RejectedAdmission UnknownSite)
      | Some binding =>
          match validate_bound_identity binding identity with
          | Err reason => mret (RejectedAdmission (RejectedIdentity reason))
          | Ok _ =>
              let bound_site := cb_site_instance_id binding in
              if decide (declared_instance_id ≠ show_uuid bound_site)
              then mret (RejectedAdmission (HelloIdentityMismatch declared_instance_id bound_site))
              else mret (Admits (mk_resolved_site bound_site (cb_id binding) site_fingerprint))
          end
      end
  end.
End flow.
