(* ===== verification/SessionSafety.v ===== *)
(** * SessionSafety: presence, delivery, and the connection within a run *)
From S2P Require Import Prelude Text Operation OperationEngine CenterDomain LinkMessages Database CenterOutbox Accounts AccountStore SiteSync CenterStores CenterDispatch DispatchSafety CenterTracking CenterSession CenterRuns.
Local Open Scope Z_scope.

(** ** The registry over time *)

Inductive RegistryEvent :=
| RegConnect (site : ResolvedSite) (now : OffsetDateTime)
| RegDisconnect (site : InstanceId)
| RegTouch (site : InstanceId) (now : OffsetDateTime)
| RegMarkDisconnected (site : InstanceId) (generation : Z).

Definition registry_step (reg : CenterSessionRegistry) (ev : RegistryEvent) : CenterSessionRegistry :=
  match ev with
  | RegConnect site now => (mark_connected reg site now).1
  | RegDisconnect site => (disconnect reg site).1
  | RegTouch site now => touch reg site now
  | RegMarkDisconnected site generation => mark_disconnected reg site generation
  end.

Fixpoint connects (evs : list RegistryEvent) : Z :=
  match evs with
  | [] => 0
  | RegConnect _ _ :: evs => 1 + connects evs
  | _ :: evs => connects evs
  end.

Lemma connects_nonneg evs : 0 <= connects evs.
Proof. induction evs as [|[] evs IH]; simpl; lia. Qed.

(** Every session carries a generation handed out before. *)
Definition registry_ok (reg : CenterSessionRegistry) : Prop :=
  0 <= rg_next_generation reg ∧
  ∀ site session, rg_online reg !! site = Some session →
    rs_instance_id (os_site session) = site ∧ 1 <= os_generation session <= rg_next_generation reg.

(** From [least] on, the site's sessions are newer than [old]. *)
Definition newer (reg : CenterSessionRegistry) (site : InstanceId) (old : Z) : Prop :=
  old <= rg_next_generation reg ∧
  ∀ session, rg_online reg !! site = Some session → old < os_generation session.

(** The branches that leave the registry as it is. *)
Ltac unchanged := split; [done|]; split; [simpl; lia|]; split; [simpl; lia|done].

Lemma registry_step_ok reg ev :
  registry_ok reg → rg_next_generation reg + 1 <= U64_MAX →
  registry_ok (registry_step reg ev) ∧
  rg_next_generation reg <= rg_next_generation (registry_step reg ev) ∧
  rg_next_generation (registry_step reg ev) <=
    rg_next_generation reg + match ev with RegConnect _ _ => 1 | _ => 0 end ∧
  ∀ site old, newer reg site old → newer (registry_step reg ev) site old.
Proof.
  intros [Hn Hs] Hmax.
  assert (registry_ok reg) as Hok by done.
  destruct ev as [rsite now|site|site now|site generation]; simpl.
  - unfold mark_connected. destruct (rg_poisoned reg); [unchanged|].
    destruct (rg_online reg !! rs_instance_id rsite) as [old|] eqn:Ho; [unchanged|]. simpl.
    unfold saturating_add_u64, wrapping_add_u64, U64_MAX in *. rewrite Z.mod_small, Z.min_l by lia.
    split; [split; simpl; [lia|]|]. 2: split; [lia|split; [lia|]].
    + intros site session [[<- <-]|[_ Hl]]%lookup_insert_Some; simpl; [lia|]. destruct (Hs _ _ Hl). lia.
    + intros site old [Hle Hnew]. split; simpl; [lia|].
      intros session [[<- <-]|[_ Hl]]%lookup_insert_Some; simpl; [lia|by apply Hnew].
  - unfold disconnect. destruct (rg_poisoned reg); simpl; [unchanged|].
    split; [split; [done|]; simpl; intros k session [_ Hl]%lookup_delete_Some; by apply Hs|].
    split; [lia|split; [lia|]]. intros k old [Hle Hnew]. split; [done|]. simpl.
    intros session [_ Hl]%lookup_delete_Some. by apply Hnew.
  - unfold touch. destruct (rg_poisoned reg); simpl; [unchanged|].
    assert (∀ k session, alter (λ s, mk_online_session (os_site s) now (os_generation s)) site (rg_online reg) !! k = Some session →
      ∃ s, rg_online reg !! k = Some s ∧ os_site session = os_site s ∧ os_generation session = os_generation s) as Halter.
    { intros k session. destruct (decide (site = k)) as [<-|Hne].
      - rewrite lookup_alter_eq. intros (s & Hl & ->)%fmap_Some. by exists s.
      - rewrite lookup_alter_ne by done. intros Hl. by exists session. }
    split; [split; [done|]; simpl; intros k session (s & Hl & -> & ->)%Halter; by apply Hs|].
    split; [lia|split; [lia|]]. intros k old [Hle Hnew]. split; [done|]. simpl.
    intros session (s & Hl & _ & ->)%Halter. by apply Hnew.
  - unfold mark_disconnected. destruct (rg_poisoned reg); simpl; [unchanged|].
    destruct (has_generation reg site generation); [|unchanged].
    split; [split; [done|]; simpl; intros k session [_ Hl]%lookup_delete_Some; by apply Hs|].
    split; [simpl; lia|split; [simpl; lia|]]. intros k old [Hle Hnew]. split; [done|]. simpl.
    intros session [_ Hl]%lookup_delete_Some. by apply Hnew.
Qed.

(** A connection whose presence ended never counts as current again, and its late
    drop does not end the presence of a newer connection of the same site. *)
Theorem stale_connection_is_inert reg site old evs :
  registry_ok reg → newer reg site old → rg_next_generation reg + connects evs < U64_MAX →
  let reg' := foldl registry_step reg evs in
  is_current reg' site old = false ∧ mark_disconnected reg' site old = reg'.
Proof.
  intros Hok Hnew Hmax reg'.
  assert (newer reg' site old) as [_ Hlast].
  { unfold reg'. clear reg'. revert reg Hok Hnew Hmax. induction evs as [|ev evs IH]; intros reg Hok Hnew Hmax; [done|].
    pose proof (connects_nonneg evs) as Hpos.
    assert (rg_next_generation reg + 1 <= U64_MAX) as Hone by (destruct ev; simpl in Hmax; lia).
    destruct (registry_step_ok reg ev Hok Hone) as (Hok' & _ & Hgen & Hkeep).
    simpl. apply IH; [done|by apply Hkeep|]. destruct ev; simpl in *; lia. }
  assert (has_generation reg' site old = false) as Hgen.
  { unfold has_generation. destruct (rg_online reg' !! site) as [session|] eqn:Hl; [|done].
    apply bool_decide_eq_false. specialize (Hlast _ eq_refl). lia. }
  unfold is_current, mark_disconnected. rewrite Hgen, andb_false_r. by destruct (rg_poisoned reg').
Qed.

(** ** Delivery on one connection *)

Section delivery.
Context {Command Sop Sob Sac Spr Sin Eop Eob Eac Epr Ein Eco : Type} `{EqDecision Command}.
Context `{OperationStoreLaws Command Sop Eop} `{!EndpointListing Command Sop Eop}.
Context `{!EndpointListingLaws Command Sop Eop}.
Context `{EnvelopeJsonLaws} `{UuidText}.
Context `{!OutboxStore Sob Eob} `{!OutboxStoreLaws Sob Eob}.
Context `{AccountStoreLaws Sac Eac} `{ProjectionReadsLaws Spr Epr} `{InboxStoreLaws Sin Ein}.
Context (command_to_vec : Command → option (list N)) (from_unix_timestamp : Z → option OffsetDateTime)
  (new_v5_oid : list N → Uuid).
Abbreviation St := (Center Sop Sob Sac Spr Sin).
Context (on_frame : ResolvedSite → Envelope → OffsetDateTime → M St Eco ()).
Context (clock : nat → OffsetDateTime) (send_fails : nat → bool).
Context (site : ResolvedSite) (generation : Z).
Abbreviation run := (center_run command_to_vec from_unix_timestamp new_v5_oid).
Hypothesis Hclock : ∀ n m, (n <= m)%nat → clock n <= clock m.
(** The consumer works on the center as its services do. *)
Hypothesis Hconsumer : ∀ rsite envelope now s s' r,
  on_frame rsite envelope now s = (s', r) → run now s now s'.
Implicit Types (g : Engine St) (e : OutboxEntry).

Abbreviation self := (rs_instance_id site).
Abbreviation queue g := (cv_entries (center_view (Command := Command) (eg_center g))).

(** A row no flush sends. *)
Definition undeliverable e : Prop :=
  match envelope_from_json (oe_payload_json e) with
  | None => True
  | Some envelope => oe_sequence e < 0 ∨ en_message envelope = None
  end.

(** The sequences on the wire; an acknowledgement carries none. *)
Definition delivered g : list Z := filter (λ q, q ≠ 0) (en_sequence <$> eg_wire g).

Definition handled (g : Engine St) e : Prop := oe_id e ∈ (eg_sent g).*1 ∨ undeliverable e.

Record healthy g : Prop := {
  healthy_ok : center_ok (eg_center g);
  healthy_inv : center_inv (center_view (Command := Command) (eg_center g));
  healthy_past : past (Command := Command) (eg_center g) (clock (eg_reads g));
  healthy_distinct : distinct (queue g);
}.

(** Between two frames: what is pending up to the last sequence sent is in flight
    or never sent. *)
Record connected g (hi : Z) : Prop := {
  conn_healthy : healthy g;
  conn_handled k e : queue g !! k = Some e → is_pending_of self e → oe_sequence e <= hi → handled g e;
  conn_top : hi = -1 ∨ ∃ k e, queue g !! k = Some e ∧ oe_instance_id e = self ∧ hi <= oe_sequence e;
  conn_order : StronglySorted Z.lt (delivered g);
  conn_bound : Forall (λ q, q <= hi) (delivered g);
  conn_sent : Forall (λ p : OutboxEntryId * Z, 0 <= p.2) (eg_sent g);
}.

Lemma negative_undeliverable e : oe_sequence e < 0 → undeliverable e.
Proof. unfold undeliverable. destruct (envelope_from_json _); [by left|done]. Qed.

(** The center goes on while the connection waits. *)
Lemma connected_evolves g g' hi :
  connected g hi → healthy g' → queue_evolves (queue g) (queue g') →
  eg_sent g' = eg_sent g → eg_wire g' = eg_wire g → connected g' hi.
Proof.
  intros [Hh Hhan Htop Hord Hb Hnn] Hh' [Hp Ht Hd] Hsent Hwire.
  assert (delivered g' = delivered g) as Hdel by (unfold delivered; by rewrite Hwire).
  split; [done|..|by rewrite Hdel|by rewrite Hdel|by rewrite Hsent].
  - intros k e He [Hi Hs] Hle. unfold handled. rewrite Hsent. destruct (Hp _ _ He Hs) as [He0|Hlast].
    + by eapply Hhan.
    + destruct Htop as [->|(k0 & e0 & He0 & Hi0 & Hle0)].
      * right. apply negative_undeliverable. lia.
      * specialize (Hlast _ _ He0). rewrite Hi0, Hi in Hlast. specialize (Hlast eq_refl). lia.
  - destruct Htop as [->|(k0 & e0 & He0 & Hi0 & Hle0)]; [by left|]. right.
    destruct (Ht _ _ He0) as (k & e & He & Hi & Hle). exists k, e. split; [done|]. split; [congruence|lia].
Qed.

(** The rows still to be flushed. *)
Record flushing g (l : list OutboxEntry) : Prop := {
  fl_rows e : e ∈ l → queue g !! oe_id e = Some e ∧ is_pending_of self e;
  fl_nodup : NoDup (oe_id <$> l);
  fl_sorted : StronglySorted entry_le l;
  fl_complete k e : queue g !! k = Some e → is_pending_of self e →
    e ∈ l ∨ handled g e ∨ ∀ f, f ∈ l → entry_le f e;
}.

Lemma send_order g hi q :
  connected g hi → hi < q → StronglySorted Z.lt (filter (λ q, q ≠ 0) ((en_sequence <$> eg_wire g) ++ [q])) ∧
  Forall (λ p, p <= q) (filter (λ q, q ≠ 0) ((en_sequence <$> eg_wire g) ++ [q])).
Proof.
  intros [_ _ _ Hord Hb _] Hq. unfold delivered in *. rewrite filter_app.
  assert (Forall (λ p, p < q) (filter (λ q, q ≠ 0) (en_sequence <$> eg_wire g))) as Hlt.
  { eapply Forall_impl; [exact Hb|]. simpl. lia. }
  rewrite filter_cons, filter_nil. case_decide.
  - split.
    + apply StronglySorted_app. split; [|split; [done|by repeat constructor]].
      intros x y Hx ->%list_elem_of_singleton. rewrite Forall_forall in Hlt. by apply Hlt.
    + apply Forall_app. split; [eapply Forall_impl; [exact Hlt|]; simpl; lia|]. repeat constructor. lia.
  - rewrite app_nil_r. split; [done|]. eapply Forall_impl; [exact Hlt|]. simpl. lia.
Qed.

Lemma engine_outbox_inv {A} (m : M Sob Eob A) g g' r :
  engine_outbox (Eco := Eco) m g = (g', r) →
  ∃ c, on_outbox (EngineOutbox (Eco := Eco)) m (eg_center g) = (c, r) ∧ g' = set_center g c.
Proof.
  unfold engine_outbox. intros (c & r0 & Hrun & -> & ->)%zoom_inv. exists c. split; [|done].
  rewrite Hrun. by destruct r0.
Qed.

(** One acknowledgement. *)
Lemma retire_connected id now g g' hi r :
  connected g hi → past (Command := Command) (eg_center g) now →
  engine_outbox (Eco := Eco) (acknowledge id now) g = (g', r) →
  connected g' hi ∧ past (Command := Command) (eg_center g') now ∧ eg_reads g' = eg_reads g ∧
  eg_sent g' = eg_sent g ∧ eg_wire g' = eg_wire g ∧ eg_registry g' = eg_registry g ∧
  (r = Ok () → acknowledged id now (queue g) (queue g')).
Proof.
  intros Hc Hpast Hrun. apply engine_outbox_inv in Hrun as (c & Hrun & ->).
  pose proof (conn_healthy _ _ Hc) as [Hok Hinv Hp Hd]. destruct Hpast as [Hst Hcl].
  apply center_acknowledge in Hrun as [Hok' Hv]; [|done|by intros e He; eapply Hst].
  assert (∃ es, center_view (Command := Command) c = with_entries (center_view (eg_center g)) es ∧ shrinks (queue g) es ∧
    (r = Ok () → acknowledged id now (queue g) es)) as (es & Hes & Hsh & Hack).
  { destruct r as [[]|x].
    - destruct Hv as (es & Hack & Hv). exists es. split; [done|]. split; [by eapply acknowledged_shrinks|done].
    - exists (queue g). simpl in Hv. rewrite with_entries_same. done. }
  assert (past (Command := Command) c (clock (eg_reads g)) ∧ past (Command := Command) c now) as [Hp' Hp''].
  { unfold past. rewrite Hes. destruct Hp as [Hst0 Hcl0]. split; (split; [by eapply shrinks_stamps|done]). }
  destruct (inv_shrinks _ _ Hinv Hsh) as [Hinv' _].
  assert (queue (set_center g c) = es) as Hq.
  { change (cv_entries (center_view (Command := Command) c) = es). by rewrite Hes. }
  split; [|rewrite Hq; by repeat (split; [done|])].
  eapply connected_evolves; [exact Hc| |rewrite Hq; by apply shrinks_evolves|done|done].
  split; [done|change (center_inv (center_view (Command := Command) c)); by rewrite Hes|done|].
  rewrite Hq. by apply (evolves_distinct _ _ (shrinks_evolves _ _ Hsh)).
Qed.

Lemma flushing_retired id now g g' l e :
  center_ok (eg_center g) → flushing g (e :: l) → oe_id e = id → acknowledged id now (queue g) (queue g') →
  eg_sent g' = eg_sent g → flushing g' l.
Proof.
  intros Hok [Hrows Hnd Hs Hcomp] <- Hack Hsent. apply NoDup_cons in Hnd as [Hni Hnd].
  apply StronglySorted_cons in Hs as [Hle Hs]. split; [|done|done|].
  - intros f Hf. destruct (Hrows f ltac:(by right)) as [Hq Hp]. split; [|done].
    eapply acknowledged_pending; [done|done|apply Hp|]. intros Heq. apply Hni. rewrite <- Heq.
    by apply list_elem_of_fmap_2.
  - intros k f Hf Hp. destruct (acknowledged_from _ _ _ _ _ _ Hack Hf) as (h & Hh & _ & _ & _ & _ & Hpend).
    destruct (Hpend ltac:(apply Hp)) as [<- Hne].
    destruct (Hcomp _ _ Hh Hp) as [Hin|[Hhan|Hall]].
    + apply elem_of_cons in Hin as [->|Hin]; [|by left]. destruct Hne. symmetry. by eapply (center_keyed _ Hok).
    + right. left. unfold handled. by rewrite Hsent.
    + right. right. intros f' Hf'. apply Hall. by right.
Qed.

Lemma flushing_skip g l e : flushing g (e :: l) → handled g e → flushing g l.
Proof.
  intros [Hrows Hnd Hs Hcomp] Hhan. apply NoDup_cons in Hnd as [_ Hnd]. apply StronglySorted_cons in Hs as [_ Hs].
  split; [intros f Hf; apply Hrows; by right|done|done|].
  intros k f Hf Hp. destruct (Hcomp _ _ Hf Hp) as [[->|Hin]%elem_of_cons|[Hh|Hall]].
  - right. by left. - by left. - right. by left. - right. right. intros f' Hf'. apply Hall. by right.
Qed.

Lemma flushing_same g g' l :
  eg_center g' = eg_center g → (∀ x, x ∈ (eg_sent g).*1 → x ∈ (eg_sent g').*1) → flushing g l → flushing g' l.
Proof.
  intros Hc Hsent [Hrows Hnd Hs Hcomp]. split; rewrite ?Hc; [done|done|done|].
  intros k f Hf Hp. destruct (Hcomp _ _ Hf Hp) as [Hin|[[Hh|Hh]|Hall]]; [by left| | |by right; right].
  - right. left. left. by apply Hsent. - right. left. by right.
Qed.

Lemma connected_report g hi id :
  connected g hi →
  let g' := (report_undeliverable (Eob := Eob) (Eco := Eco) id g).1 in
  connected g' hi ∧ eg_center g' = eg_center g ∧ eg_sent g' = eg_sent g ∧ eg_wire g' = eg_wire g ∧
  eg_reads g' = eg_reads g.
Proof.
  intros Hc g'. assert (eg_center g' = eg_center g ∧ eg_sent g' = eg_sent g ∧ eg_wire g' = eg_wire g ∧
    eg_reads g' = eg_reads g) as (H1' & H2' & H3' & H4').
  { unfold g', report_undeliverable, modify. simpl. by case_decide. }
  split; [|done]. destruct (conn_healthy _ _ Hc) as [? ? ? ?].
  eapply connected_evolves; [exact Hc| |by rewrite H1'|done|done]. by split; rewrite ?H1', ?H4'.
Qed.

(** The state after one frame went out. *)
Definition after_send g e (frame : Envelope) : Engine St :=
  mk_engine (eg_center g) (eg_registry g) (eg_sent g ++ [(oe_id e, oe_sequence e)]) (eg_reported g)
    (eg_wire g ++ [frame]) (eg_peer_acked g) (eg_reads g).

Lemma connected_send g hi l e frame :
  connected g hi → flushing g (e :: l) → ¬ handled g e → 0 <= oe_sequence e →
  en_sequence frame = oe_sequence e →
  connected (after_send g e frame) (oe_sequence e) ∧ flushing (after_send g e frame) l.
Proof.
  intros Hc Hfl Hnot Hnn Hseq. pose proof (conn_healthy _ _ Hc) as Hh. pose proof Hfl as [Hrows Hnd Hs Hcomp].
  destruct (Hrows e ltac:(by left)) as [He Hpe].
  assert (hi < oe_sequence e) as Hlt.
  { destruct (decide (oe_sequence e <= hi)); [|lia]. by destruct Hnot; eapply (conn_handled _ _ Hc). }
  assert (handled (after_send g e frame) e) as Hself.
  { left. simpl. rewrite fmap_app. apply elem_of_app. right. by apply list_elem_of_singleton. }
  assert (∀ x, x ∈ (eg_sent g).*1 → x ∈ (eg_sent (after_send g e frame)).*1) as Hmono.
  { intros x Hx. simpl. rewrite fmap_app. apply elem_of_app. by left. }
  split; [|apply (flushing_skip _ _ e); [by apply (flushing_same g)|done]].
  destruct (send_order _ _ _ Hc Hlt) as [Hord Hb]. split.
  - by destruct Hh.
  - intros k f Hf Hp Hle. apply StronglySorted_cons in Hs as [Hall _]. rewrite Forall_forall in Hall.
    assert (entry_le e f → handled (after_send g e frame) f) as Hsame.
    { intros Hef. assert (oe_sequence e = oe_sequence f) as Heq by (unfold entry_le in Hef; lia).
      assert (oe_id e = k) as Hk.
      { eapply (healthy_distinct _ Hh); [exact He|exact Hf| |done]. destruct Hpe, Hp. congruence. }
      rewrite Hk in He. change (queue g !! k = Some f) in Hf. assert (f = e) as -> by congruence. done. }
    destruct (Hcomp _ _ Hf Hp) as [[->|Hin]%elem_of_cons|[[Hh'|Hh']|Hbeyond]].
    + done. + apply Hsame. by apply Hall. + left. by apply Hmono. + by right. + apply Hsame, Hbeyond. by left.
  - right. exists (oe_id e), e. split; [done|]. split; [apply Hpe|lia].
  - unfold delivered. simpl. rewrite fmap_app. simpl. by rewrite Hseq.
  - unfold delivered. simpl. rewrite fmap_app. simpl. by rewrite Hseq.
  - simpl. apply Forall_app. split; [apply Hc|by repeat constructor].
Qed.

Lemma flush_entries_spec now l g hi g' r :
  connected g hi → past (Command := Command) (eg_center g) now → flushing g l →
  flush_entries (Eco := Eco) from_unix_timestamp send_fails site generation now l g = (g', r) →
  StronglySorted Z.lt (delivered g') ∧ (r = Ok () → ∃ hi', connected g' hi').
Proof.
  revert g hi. induction l as [|e l IH]; intros g hi Hc Hpast Hfl Hrun; simpl in Hrun.
  { injection Hrun as <- <-. split; [apply Hc|by exists hi]. }
  unfold mbind at 1, get at 1 in Hrun. destruct (is_current _ _ _); simpl in Hrun.
  2: { injection Hrun as <- <-. split; [apply Hc|by exists hi]. }
  unfold mbind at 1, get at 1 in Hrun. case_decide as Hsent.
  { eapply IH; [exact Hc|done| |exact Hrun]. apply (flushing_skip _ _ e); [done|by left]. }
  assert (undeliverable e → mbind (report_undeliverable (oe_id e)) (λ _, flush_entries (Eco := Eco) from_unix_timestamp send_fails site generation now l) g = (g', r) →
    StronglySorted Z.lt (delivered g') ∧ (r = Ok () → ∃ hi', connected g' hi')) as Hskip.
  { intros Hund Hrep. destruct (connected_report g hi (oe_id e) Hc) as (Hc1 & Hce & Hse & _ & _).
    unfold mbind in Hrep. destruct (report_undeliverable (oe_id e) g) as [g1 [u|x]] eqn:Hg1; [|by unfold report_undeliverable, modify in Hg1].
    simpl in *. eapply (IH g1); [done|by rewrite Hce| |exact Hrep].
    eapply flushing_same; [exact Hce|by rewrite Hse|]. apply (flushing_skip _ _ e); [done|by right]. }
  destruct (envelope_from_json (oe_payload_json e)) as [envelope|] eqn:Henv.
  2: { apply Hskip; [|done]. unfold undeliverable. by rewrite Henv. }
  destruct (u64_try_from (oe_sequence e)) as [wire|] eqn:Hwire.
  2: { apply Hskip; [|done]. unfold undeliverable. rewrite Henv. left. by apply u64_try_from_None. }
  apply u64_try_from_Some in Hwire as [-> Hnonneg].
  destruct (en_message envelope) as [message|] eqn:Hmsg.
  2: { apply Hskip; [|done]. unfold undeliverable. rewrite Henv. by right. }
  clear Hskip. destruct (is_some_and _ _).
  - apply mbind_inv in Hrun as [([] & g1 & Hack & Hrun)|(x & Hack & ->)];
      pose proof (retire_connected _ _ _ _ _ _ Hc Hpast Hack) as (Hc1 & Hpast1 & _ & Hs1 & _ & _ & Ha1).
    + eapply IH; [exact Hc1|done| |exact Hrun].
      eapply flushing_retired; [apply (conn_healthy _ _ Hc)|exact Hfl|done|by apply Ha1|done].
    + split; [apply Hc1|done].
  - unfold mbind at 1, get at 1 in Hrun.
    apply mbind_inv in Hrun as [([] & g1 & Hsend & Hrun)|(x & Hsend & ->)]; unfold send in Hsend.
    + destruct (send_fails _); [done|]. injection Hsend as <-. unfold mbind at 1, modify at 1 in Hrun.
      destruct (connected_send g hi l e (mk_envelope (oe_sequence e) (eg_peer_acked g) (Some message)) Hc Hfl) as [Hc2 Hfl2];
        [|lia|done|].
      * intros [Hin|Hu]; [done|]. unfold undeliverable in Hu. rewrite Henv in Hu. destruct Hu as [|Hu]; [lia|congruence].
      * eapply (IH (after_send g e _)); [exact Hc2|exact Hpast|exact Hfl2|exact Hrun].
    + destruct (send_fails _); [|done]. injection Hsend as <- <-. split; [apply Hc|done].
Qed.

Lemma listed_flushing g limit :
  center_ok (eg_center g) → flushing g (take limit (pending_of self (queue g))).
Proof.
  intros Hok. assert (entries_keyed (queue g)) as Hk by (intros k e; by apply (center_keyed _ Hok)).
  pose proof (pending_of_sorted self (queue g)) as Hs. pose proof (pending_of_nodup self _ Hk) as Hnd.
  rewrite <- (take_drop limit (pending_of self (queue g))) in Hs, Hnd. rewrite fmap_app in Hnd.
  apply NoDup_app in Hnd as (Hnd & _). apply StronglySorted_app in Hs as (Hle & Hs & _). split; [|done|done|].
  - intros e Hin. apply (pending_of_spec self _ e Hk). apply elem_of_take in Hin as (i & Hi & _).
    by apply list_elem_of_lookup_2 in Hi.
  - intros k e He Hp. rewrite <- (Hk _ _ He) in He. pose proof (proj2 (pending_of_spec self _ e Hk) (conj He Hp)) as Hin.
    rewrite <- (take_drop limit (pending_of self (queue g))) in Hin. apply elem_of_app in Hin as [Hin|Hin]; [by left|].
    right. right. intros f Hf. by apply Hle.
Qed.

(** A step that only looks at the center. *)
Lemma connected_quiet g g' hi :
  connected g hi → center_ok (eg_center g') →
  center_view (Command := Command) (eg_center g') = center_view (eg_center g) →
  eg_sent g' = eg_sent g → eg_wire g' = eg_wire g → (eg_reads g <= eg_reads g')%nat → connected g' hi.
Proof.
  intros Hc Hok Hv Hs Hw Hr. destruct (conn_healthy _ _ Hc) as [_ Hinv Hp Hd].
  eapply connected_evolves; [exact Hc| |by rewrite Hv|done|done].
  split; [done|by rewrite Hv| |by rewrite Hv]. eapply past_later; [|by apply Hclock].
  unfold past in *. by rewrite Hv.
Qed.

Lemma flush_outbox_spec g hi g' r :
  connected g hi →
  flush_outbox (Eco := Eco) from_unix_timestamp clock send_fails site generation g = (g', r) →
  StronglySorted Z.lt (delivered g') ∧ (r = Ok () → ∃ hi', connected g' hi').
Proof.
  intros Hc Hrun. unfold flush_outbox in Hrun.
  apply mbind_inv in Hrun as [(l & g1 & Hl & Hrun)|(x & Hl & ->)];
    apply engine_outbox_inv in Hl as (c & Hl & ->);
    apply center_list_pending in Hl as (Hok & Hv & Hl); try apply (conn_healthy _ _ Hc).
  2: { split; [apply Hc|done]. }
  specialize (Hl _ eq_refl). unfold mbind at 1, read_clock at 1 in Hrun. simpl in Hrun.
  set (g2 := mk_engine c _ _ _ _ _ _) in Hrun.
  assert (connected g2 hi) as Hc2 by (eapply (connected_quiet g); [done|done|done|done|done|simpl; lia]).
  eapply flush_entries_spec; [exact Hc2| | |exact Hrun].
  - destruct (conn_healthy _ _ Hc) as [_ _ Hp _]. change (past (Command := Command) c (clock (eg_reads g))).
    unfold past in *. by rewrite Hv.
  - rewrite Hl, <- Hv. by apply (listed_flushing g2).
Qed.

(** The acknowledgements of a peer. *)
Lemma engine_outbox_sent {A} (m : M Sob Eob A) g g' r sent :
  engine_outbox (Eco := Eco) m (set_sent g sent) = (g', r) →
  ∃ g'', engine_outbox (Eco := Eco) m g = (g'', r) ∧ g' = set_sent g'' sent.
Proof.
  intros (c & Hrun & ->)%engine_outbox_inv. exists (set_center g c). split; [|done].
  unfold engine_outbox, zoom. simpl in *. rewrite Hrun. by destruct r.
Qed.

Lemma ack_sent_spec now acked sent g hi g' r :
  eg_sent g = sent → connected g hi → past (Command := Command) (eg_center g) now →
  ack_sent (Eco := Eco) now acked sent g = (g', r) →
  delivered g' = delivered g ∧ (r = Ok () → connected g' hi).
Proof.
  revert g. induction sent as [|[id seq] rest IH]; intros g Hsent Hc Hpast Hrun; simpl in Hrun.
  { by injection Hrun as <- <-. }
  pose proof (conn_sent _ _ Hc) as Hnn. rewrite Hsent in Hnn. apply Forall_cons in Hnn as [Hn Hnn]. simpl in Hn.
  destruct (u64_try_from seq) as [wire|] eqn:Hwire; [|apply u64_try_from_None in Hwire; lia].
  destruct (acked <? wire); [by injection Hrun as <- <-|].
  unfold mbind at 1, modify at 1 in Hrun.
  apply mbind_inv in Hrun as [([] & g1 & Hack & Hrun)|(x & Hack & ->)];
    apply engine_outbox_sent in Hack as (g2 & Hack & ->);
    pose proof (retire_connected _ _ _ _ _ _ Hc Hpast Hack) as (Hc2 & Hpast2 & Hr2 & Hs2 & Hw2 & _ & Ha2).
  2: { split; [|done]. unfold delivered. simpl. by rewrite Hw2. }
  specialize (Ha2 eq_refl). assert (connected (set_sent g2 rest) hi) as Hc3.
  { destruct Hc2 as [Hh Hhan Htop Hord Hb _]. split; [by destruct Hh| |done|done|done|done].
    intros k e He Hp Hle. destruct (Hhan k e He Hp Hle) as [Hin|]; [|by right]. left. simpl.
    rewrite Hs2, Hsent in Hin. simpl in Hin. apply elem_of_cons in Hin as [Heq|]; [|done]. exfalso.
    destruct (acknowledged_from _ _ _ _ _ _ Ha2 He) as (h & _ & _ & _ & _ & _ & Hpend).
    destruct (Hpend ltac:(apply Hp)) as [_ Hne]. apply Hne.
    rewrite <- Heq. symmetry. by eapply (center_keyed _ (healthy_ok _ Hh)). }
  apply IH in Hrun as [Hd Hok]; [|done|done|done]. split; [|done]. rewrite Hd. unfold delivered. simpl. by rewrite Hw2.
Qed.

Lemma ack_outbox_spec acked g hi g' r :
  connected g hi → ack_outbox (Eco := Eco) clock acked g = (g', r) →
  delivered g' = delivered g ∧ (r = Ok () → connected g' hi).
Proof.
  intros Hc Hrun. unfold ack_outbox, mbind, read_clock, get in Hrun. simpl in Hrun.
  set (g1 := mk_engine _ _ _ _ _ _ _) in Hrun.
  assert (connected g1 hi) as Hc1 by (eapply (connected_quiet g); [done|apply (conn_healthy _ _ Hc)|done|done|done|simpl; lia]).
  apply (ack_sent_spec _ _ _ _ hi) in Hrun; [done|done|done|]. apply (conn_healthy _ _ Hc).
Qed.

(** What leaves the center and the queue of the connection alone. *)
Lemma connected_engine g g' hi :
  connected g hi → eg_center g' = eg_center g → eg_sent g' = eg_sent g → delivered g' = delivered g →
  (eg_reads g <= eg_reads g')%nat → connected g' hi.
Proof.
  intros Hc He Hs Hd Hr. destruct Hc as [[Hok Hinv Hp Hdi] Hhan Htop Hord Hb Hnn].
  split; rewrite ?He, ?Hd, ?Hs; try done.
  - split; rewrite ?He; try done. eapply past_later; [exact Hp|by apply Hclock].
  - intros k e Hk Hpe Hle. unfold handled. rewrite Hs. by eapply Hhan.
Qed.

Lemma consumer_connected envelope now g hi g' r :
  connected g hi → past (Command := Command) (eg_center g) now → now <= clock (eg_reads g) →
  zoom eg_center set_center (EngineConsumer (Eob := Eob)) (on_frame site envelope now) g = (g', r) →
  connected g' hi ∧ delivered g' = delivered g ∧ eg_reads g' = eg_reads g.
Proof.
  intros Hc Hpast Hle Hrun. apply zoom_inv in Hrun as (c & r0 & Hrun & -> & ->). apply Hconsumer in Hrun.
  destruct (conn_healthy _ _ Hc) as [Hok Hinv Hp Hd].
  destruct (run_evolves _ _ _ _ _ _ _ Hok Hinv Hpast Hrun) as (Hok' & Hinv' & Hp' & _ & Hev).
  split; [|done]. eapply connected_evolves; [exact Hc| |exact Hev|done|done].
  split; [done|done|by eapply past_later|by apply (evolves_distinct _ _ Hev)].
Qed.

Lemma send_ack_connected g hi q p g' r :
  connected g hi → send (Eob := Eob) (Eco := Eco) send_fails (mk_envelope 0 p (Some (MsgAck q))) g = (g', r) →
  connected g' hi ∧ delivered g' = delivered g.
Proof.
  intros Hc Hrun. unfold send in Hrun. destruct (send_fails _); injection Hrun as <- <-; [done|].
  assert (∀ g1 : Engine St, eg_wire g1 = eg_wire g ++ [mk_envelope 0 p (Some (MsgAck q))] → delivered g1 = delivered g) as Hd.
  { intros g1 Hw. unfold delivered. rewrite Hw, fmap_app, filter_app. simpl. rewrite filter_cons_False by lia.
    by rewrite filter_nil, app_nil_r. }
  split; [|by apply Hd]. eapply connected_engine; [exact Hc|done|done|by apply Hd|done].
Qed.

Lemma receive_frame_spec envelope g hi g' r :
  connected g hi →
  receive_frame from_unix_timestamp on_frame clock send_fails site generation envelope g = (g', r) →
  StronglySorted Z.lt (delivered g') ∧ (r = Ok () → ∃ hi', connected g' hi').
Proof.
  intros Hc Hrun. unfold receive_frame in Hrun. unfold mbind at 1, modify at 1 in Hrun.
  unfold mbind at 1, read_clock at 1 in Hrun. unfold mbind at 1, modify at 1 in Hrun. simpl in Hrun.
  set (g1 := set_registry _ _) in Hrun. set (now := clock (eg_reads g)) in *.
  assert (connected g1 hi) as Hc1 by (eapply (connected_engine g); [done|done|done|done|simpl; lia]).
  assert (past (Command := Command) (eg_center g1) now) as Hpast1 by apply (conn_healthy _ _ Hc).
  assert (now <= clock (eg_reads g1)) as Hle1 by (apply Hclock; simpl; lia). clearbody g1 now. clear Hc g.
  apply mbind_inv in Hrun as [(ack & g2 & Hb & Hrun)|(x & Hb & ->)].
  2: { split; [|done]. destruct (en_message envelope) as [[]|]; try done.
       all: apply mbind_inv in Hb as [(u & g3 & _ & [=])|(y & Hb & _)].
       all: first [apply consumer_connected with (hi := hi) in Hb as (Hc2 & _); [apply Hc2|done|done|done]
                  |apply (ack_outbox_spec _ _ hi) in Hb as [-> _]; [apply Hc1|done]]. }
  assert (connected g2 hi) as Hc2.
  { destruct (en_message envelope) as [[]|]; try (by injection Hb as <- _).
    all: apply mbind_ok in Hb as (u & g3 & Hb & Hret); injection Hret as <- _; destruct u.
    all: first [apply consumer_connected with (hi := hi) in Hb as (Hc2 & _); done
               |apply (ack_outbox_spec _ _ hi) in Hb as [_ Hok]; [by apply Hok|done]]. }
  clear Hb Hc1 Hpast1 Hle1 g1 now.
  apply mbind_inv in Hrun as [([] & g3 & Ha & Hrun)|(x & Ha & ->)];
    apply (ack_outbox_spec _ _ hi) in Ha as [Hd3 Hc3]; try done.
  2: { split; [|done]. rewrite Hd3. apply Hc2. }
  specialize (Hc3 eq_refl). clear Hc2 Hd3 g2.
  apply mbind_inv in Hrun as [([] & g4 & Hs & Hrun)|(x & Hs & ->)].
  - assert (connected g4 hi) as Hc4.
    { destruct ack; [|by injection Hs as <-]. unfold mbind, get in Hs. by apply (send_ack_connected _ hi) in Hs as [? _]. }
    by eapply flush_outbox_spec.
  - split; [|done]. destruct ack; [|done]. unfold mbind, get in Hs.
    apply (send_ack_connected _ hi) in Hs as [_ ->]; [apply Hc3|done].
Qed.

(** The connection and the rest of the center take turns; time passes. *)
Inductive conn_step : Engine St → Engine St → Prop :=
| conn_frame g envelope g' :
    receive_frame from_unix_timestamp on_frame clock send_fails site generation envelope g = (g', Ok ()) →
    conn_step g g'
| conn_elsewhere g c reg n :
    (eg_reads g <= n)%nat → run (clock (eg_reads g)) (eg_center g) (clock n) c →
    conn_step g (mk_engine c reg (eg_sent g) (eg_reported g) (eg_wire g) (eg_peer_acked g) n).

Lemma conn_step_connected g g' : conn_step g g' → (∃ hi, connected g hi) → ∃ hi, connected g' hi.
Proof.
  intros [g1 envelope g2 Hrun|g1 c reg n Hn Hrun] [hi Hc]; [by eapply receive_frame_spec; eauto|].
  destruct (conn_healthy _ _ Hc) as [Hok Hinv Hp Hd].
  destruct (run_evolves _ _ _ _ _ _ _ Hok Hinv Hp Hrun) as (Hok' & Hinv' & Hp' & _ & Hev).
  exists hi. eapply connected_evolves; [exact Hc| |exact Hev|done|done].
  split; [done|done|done|by apply (evolves_distinct _ _ Hev)].
Qed.

Lemma connection_start g :
  healthy g → eg_sent g = [] → eg_wire g = [] → connected g (-1).
Proof.
  intros Hh Hs Hw. split; [done| |by left|by unfold delivered; rewrite Hw; constructor
                                 |by unfold delivered; rewrite Hw; constructor|by rewrite Hs; constructor].
  intros k e He Hp Hle. right. apply negative_undeliverable. lia.
Qed.

(** C17: On one connection the sequences of the queue go out in strictly increasing
    order, so no entry is sent twice and none overtakes another. *)
Theorem delivered_in_order g0 g1 g envelope g' r :
  healthy g0 → eg_sent g0 = [] → eg_wire g0 = [] →
  flush_outbox (Eco := Eco) from_unix_timestamp clock send_fails site generation g0 = (g1, Ok ()) →
  rtc conn_step g1 g →
  receive_frame from_unix_timestamp on_frame clock send_fails site generation envelope g = (g', r) →
  StronglySorted Z.lt (delivered g').
Proof.
  intros Hh Hs Hw Hflush Hsteps Hrun.
  assert (∃ hi, connected g1 hi) as Hc1.
  { eapply flush_outbox_spec; [by apply connection_start|exact Hflush|done]. }
  assert (∃ hi, connected g hi) as [hi Hc].
  { clear Hrun Hflush. induction Hsteps as [|x y z Hxy _ IH]; [done|]. apply IH. by eapply conn_step_connected. }
  by eapply receive_frame_spec.
Qed.
End delivery.
