(* ===== verification/BindingSafety.v ===== *)
(** * BindingSafety: what the binding flow keeps

    Each call of [CenterSession] over the contracts of its stores, then any sequence
    of registrations, bindings and revocations. *)
From S2P Require Import Prelude Text CommandCipher CenterDomain Endpoints LinkMessages CenterOutbox CenterStores CenterSession DispatchSafety.
From Stdlib Require Import ZifyBool.
Local Open Scope Z_scope.

(** ** Codes *)

Lemma alphabet_index index : ∃ c, CODE_ALPHABET !! (N.to_nat index mod length CODE_ALPHABET)%nat = Some c ∧ c ∈ CODE_ALPHABET.
Proof.
  assert (N.to_nat index mod length CODE_ALPHABET < length CODE_ALPHABET)%nat as Hl by (apply Nat.mod_upper_bound; done).
  destruct (lookup_lt_is_Some_2 _ _ Hl) as [c Hc]. exists c. split; [done|]. by eapply list_elem_of_lookup_2.
Qed.

(** Twenty drawn bytes make a code of the canonical shape. *)
Lemma generated_code random :
  length random = 20%nat →
  ∃ code, generate_binding_code (Some random) = Ok code ∧ binding_code code.
Proof.
  intros Hlen. unfold generate_binding_code. cbn [ok_or result_bind]. cbv zeta.
  set (code := _ <$> random).
  assert (binding_code code) as Hcode.
  { split; [unfold code; by rewrite length_fmap|]. apply Forall_fmap, Forall_true. intros index.
    change (default 0%N (CODE_ALPHABET !! (N.to_nat index mod length CODE_ALPHABET)%nat) ∈ CODE_ALPHABET).
    destruct (alphabet_index index) as (c & Hi & Hc). by rewrite Hi. }
  exists code. split; [|done].
  assert (BindingCode_from_str code = Ok code) as ->; [|done].
  apply BindingCode_from_str_Ok. split; [|done].
  rewrite trim_fix by (by apply binding_code_trimmed). symmetry. by apply binding_code_upper.
Qed.

Lemma generate_code_inv random code :
  (∀ r, random = Some r → length r = 20%nat) → generate_binding_code random = Ok code → binding_code code.
Proof.
  intros Hr Hg. destruct random as [r|]; [|done].
  destruct (generated_code r (Hr r eq_refl)) as (c & Hc & Hok). congruence.
Qed.

Section flow.
Context {Sb Sob Ei Eb Eob Es : Type} (sha256 : list N → list N) `{EnvelopeJson} `{UuidText}.
Context `{HBS : BindingStore Sb Ei Eb} `{HB : !BindingStoreLaws sha256 Sb Ei Eb} `{!OutboxStore Sob Eob} `{!OutboxStoreLaws Sob Eob}.
Context (issue_site_certificate : InstanceId → CertificateFingerprint → result IssuedSiteCertificate Es).
Context (center_trust_anchor : CenterTrustAnchor).
Hypothesis Hsha : ∀ m, length (sha256 m) = 32%nat.
Abbreviation St := (Sb * Sob)%type.
Implicit Types (s : St) (b : CenterBinding).

Abbreviation bound_by s := (bindings (BindingStoreLaws := HB) s.1).
Abbreviation queue_of s := (entries s.2).
Abbreviation flow_ok s := (bindings_ok (BindingStoreLaws := HB) s.1 ∧ entries_ok s.2).

(** Nothing stored was created after [now]. *)
Definition created_by s (now : OffsetDateTime) : Prop :=
  (∀ id b, bound_by s !! id = Some b → cb_created_at b <= now) ∧ stamps_ok (queue_of s) now.

(** *** Retiring a queue *)

(** Only entries of [site] are acknowledged. *)
Definition retires (site : InstanceId) (es es' : Entries) : Prop :=
  shrinks es es' ∧
  ∀ k e, es !! k = Some e → oe_instance_id e ≠ site → oe_state e = OutboxPending → es' !! k = Some e.

Lemma retires_refl site es : retires site es es.
Proof. split; [done|]. by intros. Qed.

Lemma retires_trans site es es1 es' : retires site es es1 → retires site es1 es' → retires site es es'.
Proof. intros [Hs Hk] [Hs' Hk']. split; [by etrans|]. eauto. Qed.

Lemma retire_entry s (entry : OutboxEntry) site now s' (r : result () Eob) :
  flow_ok s → created_by s now →
  (∀ f, queue_of s !! oe_id entry = Some f → oe_instance_id f = site) →
  on_queues (λ e : Eob, e) (acknowledge (oe_id entry) now) s = (s', r) →
  s'.1 = s.1 ∧ flow_ok s' ∧ created_by s' now ∧ retires site (queue_of s) (queue_of s').
Proof.
  intros [Hb Hq] [Hc Hst] Hsite Hrun. apply zoom_inv in Hrun as (t & r0 & Hrun & -> & ->). simpl.
  apply law_acknowledge in Hrun as [Ht Hr]; [|done|by intros e; apply Hst].
  split; [done|]. split; [done|].
  assert (retires site (queue_of s) (entries t)) as Hret.
  { destruct r0 as [u|x]; [|rewrite Hr; apply retires_refl]. split; [by eapply acknowledged_shrinks|].
    intros k e He Hne Hp. eapply acknowledged_pending; [done..|]. intros ->. by apply Hne, Hsite. }
  split; [|done]. split; [done|]. eapply shrinks_stamps; [apply Hret|done].
Qed.

Lemma retire_entries_spec (pending : list OutboxEntry) s site now s' (r : result () (CenterBindingFlowError Ei Eb Es)) :
  flow_ok s → created_by s now →
  (∀ e f, e ∈ pending → queue_of s !! oe_id e = Some f → oe_instance_id f = site) →
  retire_entries pending now s = (s', r) →
  r = Ok () ∧ s'.1 = s.1 ∧ flow_ok s' ∧ created_by s' now ∧ retires site (queue_of s) (queue_of s').
Proof.
  revert s. induction pending as [|entry pending IH]; intros s Hok Hc Hsite Hrun; simpl in Hrun.
  { injection Hrun as <- <-. repeat (split; [done|]). apply retires_refl. }
  destruct (on_queues _ _ s) as [s1 r1] eqn:Ha.
  apply (retire_entry _ _ site) in Ha as (H1 & Hok1 & Hc1 & Hr1); [|done|done|intros f; apply Hsite; by left].
  apply IH in Hrun as (-> & H' & Hok' & Hc' & Hr'); [|done|done|].
  - repeat (split; [done || congruence|]). by eapply retires_trans.
  - intros e f He Hf. apply (shrinks_from _ _ (proj1 Hr1)) in Hf as (g & Hg & -> & _).
    eapply Hsite; [by right|done].
Qed.

Lemma retire_site_offers_spec s site now s' (r : result () (CenterBindingFlowError Ei Eb Es)) :
  flow_ok s → created_by s now → retire_site_offers site now s = (s', r) →
  r = Ok () ∧ s'.1 = s.1 ∧ flow_ok s' ∧ created_by s' now ∧ retires site (queue_of s) (queue_of s').
Proof.
  intros Hok Hc Hrun. unfold retire_site_offers in Hrun.
  destruct (on_queues _ _ s) as [s1 r1] eqn:Hl.
  apply zoom_inv in Hl as (t & r0 & Hl & -> & ->). destruct Hok as [Hb Hq].
  apply law_list_pending in Hl as (Ht & Hv & Hx); [|done].
  assert (created_by (put_queues s t) now) as Hc1 by (split; [apply Hc|simpl; rewrite Hv; apply Hc]).
  destruct r0 as [pending|e]; simpl in Hrun.
  - apply (retire_entries_spec _ _ site) in Hrun as (-> & H' & Hok' & Hc' & Hr'); [|done|done|].
    + simpl in Hr'. rewrite Hv in Hr'. done.
    + intros e f He Hf. simpl in Hf. rewrite Hv in Hf. rewrite (Hx _ eq_refl) in He.
      apply elem_of_take in He as (i & He & _). apply list_elem_of_lookup_2 in He.
      apply pending_of_spec in He as [He [Hi _]]; [congruence|].
      intros k g Hg. by apply (law_entries_keyed s.2).
  - injection Hrun as <- <-. simpl. rewrite Hv. split; [done|]. split; [done|]. split; [done|]. split; [done|].
    apply retires_refl.
Qed.

(** *** Registering *)

Lemma new_pending_inv id url site code now :
  binding_inv (new_pending sha256 id url site code (now + BINDING_CODE_TTL) now).
Proof.
  split; [intros h [= <-]; apply Hsha|]. split; [done|]. simpl. split; [done|].
  intros t [= <-]. unfold BINDING_CODE_TTL. lia.
Qed.

Abbreviation Registered s s' url now reg :=
  (registration (bound_by s) (new_pending sha256 (rgs_binding_id reg) url (rgs_instance_id reg)
     (rgs_code reg) (now + BINDING_CODE_TTL) now) (bound_by s')).

Lemma register_site_spec iid bid random url name now s s' r :
  flow_ok s → (∀ x, random = Some x → length x = 20%nat) →
  register_site (Es := Es) sha256 iid bid random url name now s = (s', r) →
  flow_ok s' ∧ s'.2 = s.2 ∧
  match r with
  | Ok reg => Registered s s' url now reg ∧ binding_code (rgs_code reg) ∧
      rgs_instance_id reg = iid ∧ rgs_binding_id reg = bid ∧ rgs_expires_at reg = now + BINDING_CODE_TTL
  | Err _ => bound_by s' = bound_by s
  end.
Proof.
  intros [Hb Hq] Hr Hrun. unfold register_site in Hrun.
  apply mbind_inv in Hrun as [(code & s1 & Hg & Hrun)|(x & Hg & ->)]; injection Hg as -> Hg; [|done].
  assert (binding_code code) as Hcode.
  { destruct (generate_binding_code random) as [c|] eqn:Hgen; simplify_eq/=. by eapply generate_code_inv. }
  apply mbind_inv in Hrun as [(u & s2 & Hi & Hrun)|(x & Hi & ->)];
    apply zoom_inv in Hi as (t & r0 & Hi & -> & _); apply law_create_instance in Hi as [Ht Hv]; [|done| |done].
  2: { simpl. by rewrite Hv. }
  apply mbind_inv in Hrun as [(u' & s3 & Hc & Hrun)|(x & Hc & ->)];
    apply zoom_inv in Hc as (t' & r1 & Hc & -> & Hr1); simpl in Hc;
    (apply law_create_binding in Hc as [Ht' Hw]; [|done|apply new_pending_inv|done]).
  - injection Hrun as <- <-. destruct r1 as [u1|]; [|done]. simpl in *. rewrite Hv in Hw. done.
  - destruct r1 as [u1|]; [done|]. simpl in *. by rewrite Hw, Hv.
Qed.

(** *** Binding *)

Definition bound_with s s' (presented : str) (fp : CertificateFingerprint) (now : OffsetDateTime)
    (out : BindOutcome) : Prop :=
  ∃ code b, BindingCode_from_str presented = Ok code ∧
    oldest_outstanding (BindingCode_hash sha256 code) (bound_by s) (Some b) ∧
    consumption sha256 (bound_by s) (cb_id b) code (Some fp) now (bound_by s') ∧
    issue_site_certificate (cb_site_instance_id b) fp = Ok (bo_issued_certificate out) ∧
    bo_site_instance_id out = cb_site_instance_id b ∧ bo_binding_id out = cb_id b ∧
    bo_trust_anchor out = center_trust_anchor.

(** The queue of at most one site is retired: of the site the fingerprint was
    bound to before, and only when that binding is not in force. *)
Definition retired_for s s' (fp : CertificateFingerprint) : Prop :=
  queue_of s' = queue_of s ∨
  ∃ p, newest_of fp (bound_by s) (Some p) ∧ cb_state p ≠ BindingBound ∧
    retires (cb_site_instance_id p) (queue_of s) (queue_of s').

Definition unchanged s s' (now : OffsetDateTime) : Prop :=
  flow_ok s' ∧ created_by s' now ∧ bound_by s' = bound_by s ∧ queue_of s' = queue_of s.

Lemma read_bindings {A F} (err : Eb → F) (m : M Sb Eb A) P s s' r now :
  created_by s now → entries_ok s.2 →
  (∀ t r0, m s.1 = (t, r0) → reads (bindings (BindingStoreLaws := HB)) bindings_ok P s.1 t r0) →
  on_bindings err m s = (s', r) →
  unchanged s s' now ∧ ∀ x, r = Ok x → P (bound_by s) x.
Proof.
  intros Hc Hq Hm Hrun. apply zoom_inv in Hrun as (t & r0 & Hrun & -> & ->).
  destruct (Hm _ _ Hrun) as (Ht & Hv & Hx). split.
  - split; [done|]. split; [|done]. split; [|apply Hc]. simpl. rewrite Hv. apply Hc.
  - intros x Hr. apply Hx. by destruct r0; simplify_eq/=.
Qed.

(** The previous binding of the fingerprint, and what became of its queue. *)
Lemma previous_spec (previous : option CenterBinding) fp now s s' (r : result () (CenterBindingFlowError Ei Eb Es)) :
  flow_ok s → created_by s now → newest_of fp (bound_by s) previous →
  match previous with
  | None => mret ()
  | Some previous =>
      if decide (cb_state previous = BindingBound)
      then mfail (FlowBindingStillInForce (cb_site_instance_id previous))
      else retire_site_offers (cb_site_instance_id previous) now
  end s = (s', r) →
  flow_ok s' ∧ created_by s' now ∧ bound_by s' = bound_by s ∧ retired_for s s' fp.
Proof.
  intros Hok Hc Hnew Hrun. destruct previous as [p|].
  - case_decide as Hst.
    + injection Hrun as <- _. repeat (split; [done|]). by left.
    + apply retire_site_offers_spec in Hrun as (_ & Hs & Hok' & Hc' & Hret); [|done..].
      repeat (split; [done|]). split; [by rewrite Hs|]. right. by exists p.
  - injection Hrun as <- _. repeat (split; [done|]). by left.
Qed.

Lemma retired_same s s1 s' fp : bound_by s1 = bound_by s → queue_of s1 = queue_of s → retired_for s1 s' fp → retired_for s s' fp.
Proof. intros Hb Hq [Hr|(p & Hn & Hp & Hr)]; [left; congruence|right]. exists p. by rewrite <- Hb, <- Hq. Qed.

Lemma bind_site_spec presented fp now s s' r :
  flow_ok s → created_by s now → fingerprint_ok fp →
  bind_site sha256 issue_site_certificate center_trust_anchor presented fp now s = (s', r) →
  flow_ok s' ∧ created_by s' now ∧ retired_for s s' fp ∧
  match r with
  | Ok out => bound_with s s' presented fp now out
  | Err _ => bound_by s' = bound_by s
  end.
Proof.
  intros Hok Hc Hfp Hrun. unfold bind_site in Hrun.
  apply mbind_inv in Hrun as [(code & s0 & Hg & Hrun)|(x & Hg & ->)]; injection Hg as <- Hg;
    [|by repeat (split; [done|]); split; [left|]].
  assert (BindingCode_from_str presented = Ok code) as Hcode by (by destruct (BindingCode_from_str presented); simplify_eq/=).
  apply mbind_inv in Hrun as [(found & s1 & Hf & Hrun)|(x & Hf & ->)];
    (apply (read_bindings _ _ (oldest_outstanding (BindingCode_hash sha256 code)) _ _ _ now) in Hf
       as ((Hok1 & Hc1 & Hb1 & Hq1) & Hx); [|done|apply Hok|by intros t r0; apply law_find_pending, Hok]);
    [|by repeat (split; [done|]); split; [left|]].
  specialize (Hx _ eq_refl).
  apply mbind_inv in Hrun as [(b & s2 & Hgb & Hrun)|(x & Hf & ->)];
    [injection Hgb as <- Hb|injection Hf as <- _; by repeat (split; [done|]); split; [left|]].
  destruct found as [b0|]; [|done]. injection Hb as ->.
  apply mbind_inv in Hrun as [(u & s2b & Hv & Hrun)|(x & Hf & ->)];
    [injection Hv as <- _|injection Hf as <- _; by repeat (split; [done|]); split; [left|]].
  apply mbind_inv in Hrun as [(previous & s3 & Hf & Hrun)|(x & Hf & ->)];
    (apply (read_bindings _ _ (newest_of fp) _ _ _ now) in Hf
       as ((Hok3 & Hc3 & Hb3 & Hq3) & Hnew); [|done|apply Hok1|by intros t r0; apply law_find_by_fingerprint; [apply Hok1|]]);
    [|split; [done|]; split; [done|]; split; [left; congruence|congruence]].
  specialize (Hnew _ eq_refl).
  assert (newest_of fp (bound_by s3) previous) as Hnew3 by by rewrite Hb3.
  apply mbind_inv in Hrun as [(u2 & s4 & Hp & Hrun)|(x & Hp & ->)];
    apply (previous_spec _ fp now) in Hp as (Hok4 & Hc4 & Hb4 & Hr4); try done;
    apply (retired_same s) in Hr4; try congruence;
    [|split; [done|]; split; [done|]; split; [done|congruence]].
  apply mbind_inv in Hrun as [(issued & s5 & Hi & Hrun)|(x & Hi & ->)]; injection Hi as <- Hi;
    [|split; [done|]; split; [done|]; split; [done|congruence]].
  assert (bound_by s4 = bound_by s) as Hb by congruence.
  apply mbind_inv in Hrun as [(u3 & s6 & Hw & Hrun)|(x & Hw & ->)];
    apply zoom_inv in Hw as (t & r0 & Hw & -> & Hr0);
    (apply (law_bind_with_code (BindingStoreLaws := HB)) in Hw as [Ht Hw]; [|apply Hok4|apply Hc4|by intros f [= <-]]).
  - injection Hrun as <- <-. destruct r0 as [u4|]; [|done]. cbn [fst snd put_bindings] in *. rewrite Hb in Hw.
    split; [by split; [|apply Hok4]|]. split; [|split; [done|]].
    + split; [|apply Hc4]. intros id c Hcc. simpl in Hcc. destruct Hw as (b' & Hb' & _ & Hv' & _).
      rewrite Hv' in Hcc. apply lookup_insert_Some in Hcc as [[<- <-]|[_ Hcc]]; [|by eapply Hc].
      transitivity (cb_created_at b'); [|by eapply Hc]. unfold bind. by case_match.
    + exists code, b. split; [done|]. split; [done|]. split; [done|]. split; [|done].
      by destruct (issue_site_certificate (cb_site_instance_id b) fp); simplify_eq/=.
  - destruct r0 as [u4|]; [done|]. cbn [fst snd put_bindings] in *.
    split; [by split; [|apply Hok4]|]. split; [|split; [done|congruence]]. split; [|apply Hc4]. simpl. rewrite Hw. apply Hc4.
Qed.

(** *** Admitting *)

(** What each verdict says of the bindings. *)
Definition admission (v : Bindings) (identity : SiteIdentity) (declared : str) (verdict : AdmissionVerdict) : Prop :=
  match verdict with
  | RejectedAdmission (RejectedIdentity ExtensionMissing) => sid_bound_site_fingerprint identity = None
  | _ => ∃ fp, sid_bound_site_fingerprint identity = Some fp ∧
      match verdict with
      | RejectedAdmission UnknownSite => newest_of fp v None
      | RejectedAdmission (RejectedIdentity NotBound) =>
          ∃ b, newest_of fp v (Some b) ∧ cb_state b ≠ BindingBound
      | RejectedAdmission (RejectedIdentity SubjectMismatch) =>
          ∃ b, newest_of fp v (Some b) ∧ bound_to fp b ∧
            sid_subject identity ≠ Some (show_uuid (cb_site_instance_id b))
      | RejectedAdmission (HelloIdentityMismatch declared' site) =>
          ∃ b, newest_of fp v (Some b) ∧ bound_to fp b ∧ declared' = declared ∧
            site = cb_site_instance_id b ∧ declared ≠ show_uuid site
      | Admits site =>
          ∃ b, newest_of fp v (Some b) ∧ bound_to fp b ∧
            sid_subject identity = Some (show_uuid (cb_site_instance_id b)) ∧
            declared = show_uuid (cb_site_instance_id b) ∧
            site = mk_resolved_site (cb_site_instance_id b) (cb_id b) fp
      | _ => False
      end
  end.

Lemma validated (b : CenterBinding) identity fp :
  sid_bound_site_fingerprint identity = Some fp → cb_site_cert_fingerprint b = Some fp →
  match validate_bound_identity b identity with
  | Ok _ => bound_to fp b ∧ sid_subject identity = Some (show_uuid (cb_site_instance_id b))
  | Err NotBound => cb_state b ≠ BindingBound
  | Err SubjectMismatch => bound_to fp b ∧ sid_subject identity ≠ Some (show_uuid (cb_site_instance_id b))
  | Err _ => False
  end.
Proof.
  intros Hi Hb. unfold validate_bound_identity, bound_to. rewrite Hi, Hb. simpl.
  destruct (decide (cb_state b ≠ BindingBound)) as [Hst|Hst]; [done|].
  assert (cb_state b = BindingBound) by (by destruct (cb_state b); try done; destruct Hst).
  rewrite decide_False by tauto. case_decide as Hs; [done|]. split; [done|].
  by destruct (decide (sid_subject identity = Some (show_uuid (cb_site_instance_id b)))).
Qed.

Lemma resolve_admission identity declared (t t' : Sb) r :
  bindings_ok (BindingStoreLaws := HB) t →
  (∀ fp, sid_bound_site_fingerprint identity = Some fp → fingerprint_ok fp) →
  resolve (Ei := Ei) identity declared t = (t', r) →
  reads (bindings (BindingStoreLaws := HB)) bindings_ok (λ v, admission v identity declared) t t' r.
Proof.
  intros Ht Hfp Hrun. unfold resolve in Hrun. unfold reads.
  destruct (sid_bound_site_fingerprint identity) as [fp|] eqn:Hi.
  2: { injection Hrun as <- <-. split; [done|]. split; [done|]. by intros x [= <-]. }
  apply mbind_inv in Hrun as [(found & t1 & Hf & Hrun)|(e & Hf & ->)];
    (apply (law_find_by_fingerprint (BindingStoreLaws := HB)) in Hf as (Ht1 & Hv & Hx); [|done|by apply Hfp]);
    [|done].
  specialize (Hx _ eq_refl). destruct found as [b|].
  - pose proof Hx as (_ & Hbf & _). pose proof (validated b identity fp Hi Hbf) as Hval.
    destruct (validate_bound_identity b identity) as [u|reason].
    + destruct Hval as [Hb Hs]. case_decide as Hd; injection Hrun as <- <-; (split; [done|]; split; [done|]);
        intros x [= <-]; exists fp; (split; [done|]); exists b; repeat (split; [done|]).
      { exact Hd. }
      reflexivity.
    + injection Hrun as <- <-. split; [done|]. split; [done|]. intros x [= <-].
      destruct reason; try done; exists fp; (split; [done|]); by exists b.
  - injection Hrun as <- <-. split; [done|]. split; [done|]. intros x [= <-]. by exists fp.
Qed.

(** *** Runs *)

(** What happens to a center's bindings: an attempt to register, bind or revoke,
    each with any answers, and anything that leaves them alone. *)
Inductive flow_step s s' : Prop :=
| StepRegister iid bid random url name now r :
    (∀ x, random = Some x → length x = 20%nat) →
    register_site (Es := Es) sha256 iid bid random url name now s = (s', r) → flow_step s s'
| StepBind presented fp now r :
    created_by s now → fingerprint_ok fp →
    bind_site sha256 issue_site_certificate center_trust_anchor presented fp now s = (s', r) → flow_step s s'
| StepRevoke id r : on_bindings (λ e : Eb, e) (revoke_binding id) s = (s', r) → flow_step s s'
| StepElsewhere : s'.1 = s.1 → flow_ok s' → flow_step s s'.

(** One active binding per site, one bound binding per fingerprint. *)
Definition bindings_inv (v : Bindings) : Prop :=
  (∀ k b k' b', v !! k = Some b → v !! k' = Some b' → is_active_binding b → is_active_binding b' →
     cb_site_instance_id b = cb_site_instance_id b' → k = k') ∧
  (∀ k b k' b' fp, v !! k = Some b → v !! k' = Some b' → bound_to fp b → bound_to fp b' → k = k').

(** A binding keeps its registration; a bound one keeps its fingerprint until it is
    revoked, and a revoked one stays. *)
Definition binding_moves b b' : Prop :=
  cb_site_instance_id b' = cb_site_instance_id b ∧ cb_created_at b' = cb_created_at b ∧
  cb_center_url b' = cb_center_url b ∧
  match cb_state b with
  | BindingPending => True
  | BindingBound => cb_state b' ≠ BindingPending ∧
      cb_site_cert_fingerprint b' = cb_site_cert_fingerprint b ∧ cb_bound_at b' = cb_bound_at b
  | BindingRevoked => b' = b
  end.
Definition bindings_move (v v' : Bindings) : Prop :=
  ∀ k b, v !! k = Some b → ∃ b', v' !! k = Some b' ∧ binding_moves b b'.

Lemma binding_moves_refl b : binding_moves b b.
Proof. unfold binding_moves. by destruct (cb_state b). Qed.

Lemma bindings_move_refl v : bindings_move v v.
Proof. intros k b Hb. exists b. split; [done|]. apply binding_moves_refl. Qed.

Lemma bindings_move_trans v v1 v' : bindings_move v v1 → bindings_move v1 v' → bindings_move v v'.
Proof.
  intros H1 H2 k b Hb. destruct (H1 k b Hb) as (b1 & Hb1 & Hs1 & Hc1 & Hu1 & Hm1).
  destruct (H2 k b1 Hb1) as (b' & Hb' & Hs' & Hc' & Hu' & Hm'). exists b'. split; [done|].
  repeat (split; [congruence|]). destruct (cb_state b) eqn:Hst; [done| |].
  - destruct Hm1 as (Hne & Hf & Ht). destruct (cb_state b1) eqn:Hst1; [done| |].
    + destruct Hm' as (? & ? & ?). split; [done|]. split; congruence.
    + subst b'. by rewrite Hst1.
  - subst b1. by rewrite Hst in Hm'.
Qed.

Lemma insert_moves v k b b' : v !! k = Some b → binding_moves b b' → bindings_move v (<[k := b']> v).
Proof.
  intros Hb Hm j c Hc. destruct (decide (j = k)) as [->|Hne].
  - exists b'. rewrite lookup_insert_eq. assert (c = b) as -> by congruence. done.
  - exists c. rewrite lookup_insert_ne by done. split; [done|]. apply binding_moves_refl.
Qed.

Lemma registration_inv v b v' :
  registration v b v' → cb_site_cert_fingerprint b = None → bindings_inv v → bindings_inv v' ∧ bindings_move v v'.
Proof.
  intros (Hn & -> & Hfree) Hfp [Ha Hb]. split; [split|].
  - intros k c k' c' [[<- <-]|[_ Hc]]%lookup_insert_Some [[<- <-]|[_ Hc']]%lookup_insert_Some Hac Hac' Hs; [done|..].
    + by destruct (Hfree k' c' Hc' Hac'). + by destruct (Hfree k c Hc Hac). + by eapply Ha.
  - intros k c k' c' fp [[<- <-]|[_ Hc]]%lookup_insert_Some [[<- <-]|[_ Hc']]%lookup_insert_Some Hbc Hbc';
      [done|destruct Hbc; congruence|destruct Hbc'; congruence|]. by eapply (Hb k c k' c' fp).
  - intros k c Hc. exists c. rewrite lookup_insert_ne by congruence. split; [done|]. apply binding_moves_refl.
Qed.

Lemma verified b code now : verify_code sha256 b code now = Ok () → cb_state b = BindingPending.
Proof. unfold verify_code. case_decide as Hd; [done|]. intros _. by destruct (decide (cb_state b = BindingPending)). Qed.

Lemma consumption_inv v id code fp now v' :
  consumption sha256 v id code (Some fp) now v' → bindings_inv v → bindings_inv v' ∧ bindings_move v v'.
Proof.
  intros (b & Hid & Hver%verified & -> & Hcomp) [Ha Hb].
  assert (∃ b', (bind b (Some fp) now).1 = b' ∧ cb_site_instance_id b' = cb_site_instance_id b ∧
    cb_site_cert_fingerprint b' = Some fp ∧ binding_moves b b') as (b' & -> & Hs & Hf & Hm).
  { unfold bind, binding_moves. rewrite Hver. by eexists. }
  assert (is_active_binding b) as Hact by (unfold is_active_binding; by rewrite Hver).
  split; [split|by eapply insert_moves].
  - assert (∀ k c, <[id:=b']> v !! k = Some c → is_active_binding c →
      ∃ c0, v !! k = Some c0 ∧ is_active_binding c0 ∧ cb_site_instance_id c0 = cb_site_instance_id c) as Hback.
    { intros k c [[<- <-]|[_ Hc]]%lookup_insert_Some Hac; [by exists b|by exists c]. }
    intros k c k' c' Hc Hc' Hac Hac' Heq.
    destruct (Hback _ _ Hc Hac) as (c0 & H1 & H2 & H3), (Hback _ _ Hc' Hac') as (c0' & H1' & H2' & H3').
    eapply Ha; [exact H1|exact H1'|done|done|congruence].
  - intros k c k' c' f [[<- <-]|[_ Hc]]%lookup_insert_Some [[<- <-]|[_ Hc']]%lookup_insert_Some Hbc Hbc'; [done|..].
    + destruct Hbc as [_ Hbf]. assert (f = fp) as -> by congruence. symmetry. by apply (Hcomp fp eq_refl k' c').
    + destruct Hbc' as [_ Hbf]. assert (f = fp) as -> by congruence. by apply (Hcomp fp eq_refl k c).
    + by eapply (Hb k c k' c' f).
Qed.

Lemma revocation_inv v id v' out :
  revocation v id v' out → bindings_inv v → bindings_inv v' ∧ bindings_move v v'.
Proof.
  intros (b & Hid & Hout) Hinv. destruct out.
  2: { destruct Hout as [_ ->]. split; [done|]. apply bindings_move_refl. }
  destruct Hout as [Hr ->].
  assert (∃ b', (revoke b).1 = b' ∧ cb_state b' = BindingRevoked ∧ binding_moves b b') as (b' & -> & Hst & Hm).
  { exists (revoke b).1. unfold revoke, binding_moves in *. by destruct (cb_state b). }
  destruct Hinv as [Ha Hb]. split; [split|by eapply insert_moves].
  - intros k c k' c' [[<- <-]|[_ Hc]]%lookup_insert_Some [[<- <-]|[_ Hc']]%lookup_insert_Some Hac Hac' Heq; try done.
    by eapply Ha.
  - intros k c k' c' f [[<- <-]|[_ Hc]]%lookup_insert_Some [[<- <-]|[_ Hc']]%lookup_insert_Some Hbc Hbc'; try done.
    + destruct Hbc as [Hq _]. congruence. + destruct Hbc' as [Hq _]. congruence. + by eapply (Hb k c k' c' f).
Qed.

Lemma flow_step_inv s s' :
  flow_ok s → bindings_inv (bound_by s) → flow_step s s' →
  flow_ok s' ∧ bindings_inv (bound_by s') ∧ bindings_move (bound_by s) (bound_by s').
Proof.
  intros Hok Hinv Hstep. assert (∀ v, v = bound_by s → bindings_inv v ∧ bindings_move (bound_by s) v) as Hsame.
  { intros v ->. split; [done|]. apply bindings_move_refl. }
  destruct Hstep as [iid bid random url name now r Hr Hrun|presented fp now r Hc Hfp Hrun|id r Hrun|Hs Hok'].
  - apply register_site_spec in Hrun as (Hok' & _ & Hrun); [|done..]. split; [done|].
    destruct r as [reg|e]; [|by apply Hsame]. eapply registration_inv; [apply Hrun|done|done].
  - apply bind_site_spec in Hrun as (Hok' & _ & _ & Hrun); [|done..]. split; [done|].
    destruct r as [out|e]; [|by apply Hsame]. destruct Hrun as (code & b & _ & _ & Hcons & _).
    by eapply consumption_inv.
  - apply zoom_inv in Hrun as (t & r0 & Hrun & -> & _).
    apply (law_revoke_binding (BindingStoreLaws := HB)) in Hrun as [Ht Hv]; [|apply Hok].
    split; [by split; [|apply Hok]|]. simpl. destruct r0 as [out|e]; [|by apply Hsame]. by eapply revocation_inv.
  - split; [done|]. apply Hsame. by rewrite Hs.
Qed.

Lemma flow_run_inv s s' :
  rtc flow_step s s' → flow_ok s → bindings_inv (bound_by s) →
  flow_ok s' ∧ bindings_inv (bound_by s') ∧ bindings_move (bound_by s) (bound_by s').
Proof.
  induction 1 as [s|s s1 s' Hstep _ IH]; intros Hok Hinv.
  { split; [done|]. split; [done|]. apply bindings_move_refl. }
  destruct (flow_step_inv _ _ Hok Hinv Hstep) as (Hok1 & Hinv1 & Hm1).
  destruct (IH Hok1 Hinv1) as (Hok' & Hinv' & Hm'). split; [done|]. split; [done|]. by eapply bindings_move_trans.
Qed.

(** ** Theorems *)

(** C18: Under any sequence of registrations, presented codes and revocations, with
    failures of the store anywhere, a site has at most one active binding, a
    certificate identity at most one bound binding, a bound binding keeps its site
    and identity until it is revoked, and a revoked binding never changes again. *)
Theorem bindings_stay_sound s s' :
  flow_ok s → bindings_inv (bound_by s) → rtc flow_step s s' →
  bindings_inv (bound_by s') ∧ bindings_move (bound_by s) (bound_by s').
Proof. intros Hok Hinv Hrun. by apply (flow_run_inv s s'). Qed.

(** C19: An admitted connection belongs to the only binding in force for the identity
    its certificate carries; the certificate was issued for that site, and the
    site declares itself. *)
Theorem admission_is_sound s0 s identity declared t r :
  flow_ok s0 → bindings_inv (bound_by s0) → rtc flow_step s0 s →
  (∀ fp, sid_bound_site_fingerprint identity = Some fp → fingerprint_ok fp) →
  resolve (Ei := Ei) identity declared s.1 = (t, Ok r) →
  admission (bound_by s) identity declared r ∧
  ∀ site, r = Admits site →
    ∃ b, bound_by s !! rs_binding_id site = Some b ∧ bound_to (rs_site_fingerprint site) b ∧
      cb_site_instance_id b = rs_instance_id site ∧
      (∀ k c, bound_by s !! k = Some c → bound_to (rs_site_fingerprint site) c → k = rs_binding_id site) ∧
      (∀ k c, bound_by s !! k = Some c → is_active_binding c →
         cb_site_instance_id c = rs_instance_id site → k = rs_binding_id site).
Proof.
  intros Hok Hinv Hrun Hfp Hres. destruct (flow_run_inv _ _ Hrun Hok Hinv) as ([Hb _] & [Ha Hu] & _).
  apply resolve_admission in Hres as (_ & _ & Hres); [|done..]. specialize (Hres _ eq_refl). split; [done|].
  intros site ->. destruct Hres as (fp & _ & b & (Hlook & _) & Hbound & _ & _ & ->). exists b. simpl.
  split; [done|]. split; [done|]. split; [done|]. split.
  - intros k c Hc Hbc. by eapply (Hu k c (cb_id b) b fp).
  - intros k c Hc Hact Hs. eapply (Ha k c (cb_id b) b); try done. destruct Hbound as [Hst _].
    unfold is_active_binding. by rewrite Hst.
Qed.

(** Once a binding is revoked, no later connection is admitted under it. *)
Theorem revoked_never_admitted s s' id b identity declared t site :
  flow_ok s → bindings_inv (bound_by s) → bound_by s !! id = Some b → cb_state b = BindingRevoked →
  rtc flow_step s s' →
  (∀ fp, sid_bound_site_fingerprint identity = Some fp → fingerprint_ok fp) →
  resolve (Ei := Ei) identity declared s'.1 = (t, Ok (Admits site)) → rs_binding_id site ≠ id.
Proof.
  intros Hok Hinv Hb Hst Hrun Hfp Hres. destruct (flow_run_inv _ _ Hrun Hok Hinv) as ([Hok' _] & _ & Hm).
  apply resolve_admission in Hres as (_ & _ & Hres); [|done..]. specialize (Hres _ eq_refl).
  destruct Hres as (fp & _ & c & (Hlook & _) & [Hbound _] & _ & _ & ->). simpl. intros <-.
  destruct (Hm _ _ Hb) as (b' & Hb' & _ & _ & _ & Hm'). rewrite Hst in Hm'. congruence.
Qed.
End flow.
