(* ===== verification/EventRepository.v ===== *)
(** * EventRepository: the Redfish events and their rows

    Models [domain/src/event.rs] and [persistence/src/event_repository.rs].  The text of an instant is the [time] crate's,
    a parameter. *)
From S2P Require Import Prelude Text Operation Database CenterDomain.
Local Open Scope Z_scope.

Abbreviation EventId := Uuid.

Definition MAX_MESSAGE_ID_CHARS : N := 128.
(** U+001F, the unit separator. *)
Definition DEDUP_KEY_SEPARATOR : char := 31%N.

(** ** Message ids *)

(** [MessageIdError] has the three variants of the bounded names. *)
Definition MessageId_parse (value : str) : result str BoundedNameError :=
  parse_bounded_name MAX_MESSAGE_ID_CHARS value.
Definition message_id_ok (m : str) : Prop := bounded_name MAX_MESSAGE_ID_CHARS m.

(** ** Severities *)

Inductive EventSeverity := SeverityOk | SeverityWarning | SeverityCritical.
#[export] Instance EventSeverity_eq_dec : EqDecision EventSeverity.
Proof. solve_decision. Defined.

Definition EventSeverity_as_str (s : EventSeverity) : str :=
  match s with
  | SeverityOk => lit "ok" | SeverityWarning => lit "warning" | SeverityCritical => lit "critical"
  end.
Inductive EventSeverityParseError := EventSeverityParseErr.
Definition EventSeverity_from_str (value : str) : result EventSeverity EventSeverityParseError :=
  ok_or (match_str value
    [("ok", SeverityOk); ("warning", SeverityWarning); ("critical", SeverityCritical)]%string)
    EventSeverityParseErr.
#[export, refine] Instance EventSeverity_code : StableCode EventSeverity EventSeverityParseError :=
  { code_str := EventSeverity_as_str; code_parse := EventSeverity_from_str }.
Proof. all: unfold EventSeverity_from_str; solve_code. Defined.

Lemma EventSeverity_parse s : EventSeverity_from_str (EventSeverity_as_str s) = Ok s.
Proof. exact (code_parse_str (T := EventSeverity) s). Qed.

(** ** Events *)

Record Event := mk_event {
  ev_id : EventId;
  ev_endpoint_id : EndpointId;
  ev_message_id : str;
  ev_severity : EventSeverity;
  ev_message : option str;
  ev_event_timestamp : OffsetDateTime;
  ev_observed_at : OffsetDateTime;
  ev_dedup_key : str;
}.
#[export] Instance Event_eq_dec : EqDecision Event.
Proof. solve_decision. Defined.

Inductive EventTimelineError := EventTimelineErr.

(** [OffsetDateTime]'s text form. *)
Class TimestampText := { show_timestamp : OffsetDateTime → str }.
Class TimestampTextLaws `{TimestampText} := {
  show_timestamp_inj : Inj (=) (=) show_timestamp;
  show_timestamp_scalar t : Forall (λ c, is_scalar c = true) (show_timestamp t);
}.
#[export] Existing Instance show_timestamp_inj.

Section events.
Context `{TimestampText}.

Definition derive_dedup_key (message_id : str) (event_timestamp : OffsetDateTime) : str :=
  message_id ++ [DEDUP_KEY_SEPARATOR] ++ show_timestamp event_timestamp.

(** [build], the body of [Event::new] and of [Event::try_from_parts]. *)
Definition build_event (id : EventId) (endpoint_id : EndpointId) (message_id : str)
    (severity : EventSeverity) (message : option str) (event_timestamp observed_at : OffsetDateTime)
    : result Event EventTimelineError :=
  if observed_at <? event_timestamp then Err EventTimelineErr
  else Ok (mk_event id endpoint_id message_id severity message event_timestamp observed_at
             (derive_dedup_key message_id event_timestamp)).

(** What every constructed event is. *)
Definition event_ok (e : Event) : Prop :=
  message_id_ok (ev_message_id e) ∧ ev_event_timestamp e <= ev_observed_at e ∧
  ev_dedup_key e = derive_dedup_key (ev_message_id e) (ev_event_timestamp e).

Lemma build_event_Ok id endpoint m sev msg ts obs e :
  build_event id endpoint m sev msg ts obs = Ok e ↔
  ts <= obs ∧ e = mk_event id endpoint m sev msg ts obs (derive_dedup_key m ts).
Proof. unfold build_event. destruct (Z.ltb_spec obs ts); naive_solver lia. Qed.

Lemma build_event_ok id endpoint m sev msg ts obs e :
  message_id_ok m → build_event id endpoint m sev msg ts obs = Ok e → event_ok e.
Proof. by intros Hm [Hle ->]%build_event_Ok. Qed.

(** An event is rebuilt from its parts. *)
Lemma rebuild_event e :
  event_ok e →
  build_event (ev_id e) (ev_endpoint_id e) (ev_message_id e) (ev_severity e) (ev_message e)
    (ev_event_timestamp e) (ev_observed_at e) = Ok e.
Proof. intros (_ & Hle & Hk). apply build_event_Ok. split; [done|]. rewrite <- Hk. by destruct e. Qed.

Lemma MessageId_parse_Ok value m : MessageId_parse value = Ok m → message_id_ok m.
Proof. unfold MessageId_parse. by intros [-> Hm]%parse_bounded_name_Ok. Qed.

Lemma MessageId_parse_fix m : message_id_ok m → MessageId_parse m = Ok m.
Proof. apply parse_bounded_name_roundtrip. Qed.

(** A message id holds no separator. *)
Lemma message_id_separator m : message_id_ok m → DEDUP_KEY_SEPARATOR ∉ m.
Proof.
  intros (_ & _ & Hc & _) Hin. rewrite Forall_forall in Hc. by apply Hc in Hin.
Qed.

Lemma split_at_separator (x x' y y' : str) c :
  c ∉ x → c ∉ x' → x ++ [c] ++ y = x' ++ [c] ++ y' → x = x' ∧ y = y'.
Proof.
  revert x'. induction x as [|a x IH]; intros [|a' x'] Hx Hx' Heq; simplify_eq/=; [done|set_solver..|].
  destruct (IH x') as [-> ->]; [set_solver..|done|done].
Qed.

(** Two reports share their key exactly when they are of one message at one
    time. *)
Lemma dedup_key_inj `{!TimestampTextLaws} m m' ts ts' :
  message_id_ok m → message_id_ok m' →
  derive_dedup_key m ts = derive_dedup_key m' ts' → m = m' ∧ ts = ts'.
Proof.
  intros Hm%message_id_separator Hm'%message_id_separator Heq.
  apply split_at_separator in Heq as [-> Hts]; [|done..]. split; [done|]. by apply (inj show_timestamp).
Qed.
End events.

(** ** The event rows

    Models [persistence/src/event_repository.rs] over the entity of
    [entity/src/event.rs]: the append that drops what the endpoint already
    reported, alone, with the reporting site, and as one transaction of a batch;
    the lookup, the newest page and the page behind an anchor.  The conflict
    clause names the pair of endpoint and dedup key only, so that a stored
    identity under another key is a violated constraint. *)

Record event_model := mk_event_model {
  vm_id : Uuid;
  vm_endpoint_id : Uuid;
  vm_message_id : str;
  vm_severity : str;
  vm_message : option str;
  vm_event_timestamp : OffsetDateTime;
  vm_observed_at : OffsetDateTime;
  vm_dedup_key : str;
  vm_site_id : option Uuid;
}.
Abbreviation EventTable := (gmap Uuid event_model).

Inductive StoredEventError :=
| EventInvalidSeverity
| EventInvalidMessageId (source : BoundedNameError)
| EventInvalidTimeline.

Inductive EventRepositoryError :=
| EventCoordinate
| AnchorMissing (event_id : EventId)
| EventCorrupt (event_id : EventId) (source : StoredEventError)
| EventDatabase.
#[export] Instance event_errors : DbErrors EventRepositoryError :=
  { err_coordinate := EventCoordinate; err_database := EventDatabase }.

(** [ORDER BY observed_at, id], ascending and descending. *)
Definition event_before (l r : event_model) : Prop :=
  vm_observed_at l < vm_observed_at r ∨ (vm_observed_at l = vm_observed_at r ∧ (vm_id l <= vm_id r)%N).
#[export] Instance event_before_dec : RelDecision event_before.
Proof. intros l r. unfold event_before. apply _. Defined.
Definition event_after (l r : event_model) : Prop := event_before r l.
#[export] Instance event_after_dec : RelDecision event_after.
Proof. intros l r. unfold event_after. apply _. Defined.

Lemma Forall2_total {A B} (R : A → B → Prop) l : (∀ x, x ∈ l → ∃ y, R x y) → ∃ k, Forall2 R l k.
Proof.
  induction l as [|x l IH]; intros HR; [by exists []|].
  destruct (HR x) as [y Hy]; [by left|]. destruct IH as [k Hk]; [intros; apply HR; by right|].
  exists (y :: k). by constructor.
Qed.

Section repository.
Context (env : Env) `{TimestampText}.
Abbreviation Repo := (M (World EventTable) EventRepositoryError).

Definition project_event (e : Event) (site : option Uuid) : event_model :=
  mk_event_model (ev_id e) (ev_endpoint_id e) (ev_message_id e) (EventSeverity_as_str (ev_severity e))
    (ev_message e) (ev_event_timestamp e) (ev_observed_at e) (ev_dedup_key e) site.

Definition map_stored_event (m : event_model) : result Event StoredEventError :=
  let? severity := map_err (λ _, EventInvalidSeverity) (EventSeverity_from_str (vm_severity m)) in
  let? message_id := map_err EventInvalidMessageId (MessageId_parse (vm_message_id m)) in
  map_err (λ _, EventInvalidTimeline)
    (build_event (vm_id m) (vm_endpoint_id m) message_id severity (vm_message m)
       (vm_event_timestamp m) (vm_observed_at m)).

(** ** Writes *)

(** [INSERT ... ON CONFLICT (endpoint_id, dedup_key) DO NOTHING]: the conflict
    target is looked at before the primary key. *)
Definition insert_event (m : event_model) (t : EventTable) : option EventTable :=
  if decide (map_Forall (λ _ r, ¬ (vm_endpoint_id r = vm_endpoint_id m ∧ vm_dedup_key r = vm_dedup_key m)) t)
  then insert_new t (vm_id m) m
  else Some t.

Definition insert_event_row (e : Event) (site : option Uuid) : Repo () :=
  statement env (λ t, (λ t', (t', ())) <$> insert_event (project_event e site) t).

Definition sqlite_append_event (e : Event) : Repo () :=
  do! acquire env in insert_event_row e None.

Definition append_center_event (e : Event) (site : Uuid) : Repo () :=
  do! acquire env in insert_event_row e (Some site).

Definition append_center_events (events : list Event) (site : Uuid) : Repo () :=
  match events with
  | [] => mret ()
  | _ => do! acquire env in transaction env (mfor events (λ e, insert_event_row e (Some site)))
  end.

(** ** Reads *)

Definition load_event (event_id : EventId) (m : event_model) : result Event EventRepositoryError :=
  map_err (EventCorrupt event_id) (map_stored_event m).

Definition find_event (event_id : EventId) : Repo (option Event) :=
  let! model := select env (λ t, t !! event_id) in
  match model with
  | None => mret None
  | Some model => let! domain := mlift (load_event event_id model) in mret (Some domain)
  end.

Definition list_recent_events (limit : Z) : Repo (list Event) :=
  let! models := select env (λ t, take_limit limit (rows event_after (λ _, True) t)) in
  mtraverse (λ m, mlift (load_event (vm_id m) m)) models.

Definition behind (anchor : OffsetDateTime) (after : EventId) (m : event_model) : Prop :=
  anchor < vm_observed_at m ∨ (vm_observed_at m = anchor ∧ (after < vm_id m)%N).
#[export] Instance behind_dec anchor after m : Decision (behind anchor after m).
Proof. unfold behind. apply _. Defined.

Definition list_events_after (after : EventId) (limit : Z) : Repo (list Event) :=
  let! anchor := find_event after in
  let! anchor := mlift (ok_or anchor (AnchorMissing after)) in
  let! models := select env (λ t,
    take_limit limit (rows event_before (behind (ev_observed_at anchor) after) t)) in
  mtraverse (λ m, mlift (load_event (vm_id m) m)) models.

(** ** The rows as events *)

Abbreviation EventsView := (gmap EventId (Event * option InstanceId)).

(** A row the program wrote: stored under its identity, readable, its key the
    derived one. *)
Definition decode_event_row (id : Uuid) (m : event_model) : option Event :=
  match map_stored_event m with
  | Ok e => if decide (vm_id m = id ∧ vm_dedup_key m = ev_dedup_key e) then Some e else None
  | Err _ => None
  end.
Definition decode_reported (id : Uuid) (m : event_model) : option (Event * option InstanceId) :=
  (λ e, (e, vm_site_id m)) <$> decode_event_row id m.

Definition events_view (t : EventTable) : EventsView := decoded decode_reported t.
Definition events_ok (t : EventTable) : Prop := decodable decode_reported t.

(** The same report of the same endpoint. *)
Definition same_report (e e' : Event) : Prop :=
  ev_endpoint_id e = ev_endpoint_id e' ∧ ev_dedup_key e = ev_dedup_key e'.
#[export] Instance same_report_dec : RelDecision same_report.
Proof. intros e e'. unfold same_report. apply _. Defined.

(** What appending an event, and a batch, does; [None] is a violated constraint. *)
Definition append_event (site : option InstanceId) (v : EventsView) (e : Event) : option EventsView :=
  if decide (map_Forall (λ _ r, ¬ same_report r.1 e) v) then insert_new v (ev_id e) (e, site) else Some v.
Fixpoint append_events (site : option InstanceId) (v : EventsView) (events : list Event) : option EventsView :=
  match events with
  | [] => Some v
  | e :: events => v' ← append_event site v e; append_events site v' events
  end.

Lemma map_stored_event_inv m e :
  map_stored_event m = Ok e →
  ev_id e = vm_id m ∧ ev_endpoint_id e = vm_endpoint_id m ∧ ev_observed_at e = vm_observed_at m ∧ event_ok e.
Proof.
  unfold map_stored_event. intros Hm. inv_ok.
  match goal with Hb : build_event _ _ _ _ _ _ _ = Ok _ |- _ =>
    pose proof Hb as Hok; apply build_event_Ok in Hb as [_ ->] end.
  do 3 (split; [done|]). eapply build_event_ok; [|done]. by eapply MessageId_parse_Ok.
Qed.

Lemma map_stored_project e site : event_ok e → map_stored_event (project_event e site) = Ok e.
Proof.
  intros Hok. unfold map_stored_event. simpl.
  rewrite EventSeverity_parse, MessageId_parse_fix by apply Hok. simpl.
  by rewrite rebuild_event.
Qed.

Lemma decode_event_row_inv id m e :
  decode_event_row id m = Some e →
  map_stored_event m = Ok e ∧ vm_id m = id ∧ ev_id e = id ∧ ev_endpoint_id e = vm_endpoint_id m ∧
  ev_observed_at e = vm_observed_at m ∧ ev_dedup_key e = vm_dedup_key m ∧ event_ok e.
Proof.
  unfold decode_event_row. destruct (map_stored_event m) as [e'|] eqn:Hm; [|done].
  case_decide as Hd; [|done]. intros [= ->]. destruct Hd as [<- ->].
  by pose proof (map_stored_event_inv _ _ Hm) as (? & ? & ? & ?).
Qed.

Lemma decode_project e site : event_ok e → decode_reported (ev_id e) (project_event e site) = Some (e, site).
Proof.
  intros Hok. unfold decode_reported, decode_event_row. rewrite map_stored_project by done. simpl.
  by rewrite decide_True.
Qed.

Lemma decode_reported_inv id m r :
  decode_reported id m = Some r → decode_event_row id m = Some r.1 ∧ r.2 = vm_site_id m.
Proof. unfold decode_reported. by intros (e & He & ->)%fmap_Some. Qed.

Lemma insert_event_refines e site t t' :
  events_ok t → event_ok e → insert_event (project_event e site) t = Some t' →
  events_ok t' ∧ append_event site (events_view t) e = Some (events_view t').
Proof.
  intros Hok He. unfold insert_event, append_event.
  assert (map_Forall (λ _ r, ¬ (vm_endpoint_id r = ev_endpoint_id e ∧ vm_dedup_key r = ev_dedup_key e)) t ↔
          map_Forall (λ _ (r : Event * option InstanceId), ¬ same_report r.1 e) (events_view t)) as Hiff.
  { apply decoded_map_Forall; [done|]. intros id m r Hr. apply decode_reported_inv in Hr as [Hr _].
    apply decode_event_row_inv in Hr as (_ & _ & _ & He' & _ & Hk & _). unfold same_report. rewrite He', Hk. done. }
  case_decide as Hd; simpl in Hd.
  - rewrite decide_True by by apply Hiff. intros Hins.
    eapply insert_new_decoded; [done| |done]. by apply decode_project.
  - rewrite decide_False by (rewrite <- Hiff; done). by intros [= <-].
Qed.

(** The constraint the append can violate is the identity's, under another key. *)
Lemma append_event_None site v e :
  append_event site v e = None ↔ is_Some (v !! ev_id e) ∧ map_Forall (λ _ r, ¬ same_report r.1 e) v.
Proof.
  unfold append_event, insert_new. case_decide as Hd; [|naive_solver].
  destruct (v !! ev_id e) as [r|]; [naive_solver|]. split; [done|]. by intros [[? [=]] _].
Qed.

(** After an append the report is stored, whoever brought it, and everything
    stored before still is. *)
Lemma append_event_Some site v v' e :
  append_event site v e = Some v' →
  v ⊆ v' ∧ (∃ id r, v' !! id = Some r ∧ same_report r.1 e) ∧
  ∀ id r, v' !! id = Some r → v !! id = Some r ∨ r = (e, site).
Proof.
  unfold append_event. case_decide as Hd.
  - intros [Hn ->]%insert_new_Some. split; [by apply insert_subseteq|]. split.
    + exists (ev_id e), (e, site). rewrite lookup_insert_eq. done.
    + intros id r [[_ <-]|[_ Hr]]%lookup_insert_Some; auto.
  - intros [= <-]. split; [done|]. split; [|auto].
    apply map_not_Forall in Hd as (id & r & Hr & Hs); [|apply _]. apply dec_stable in Hs. eauto.
Qed.

Lemma append_events_Some site v v' events :
  append_events site v events = Some v' →
  v ⊆ v' ∧ (∀ e, e ∈ events → ∃ id r, v' !! id = Some r ∧ same_report r.1 e) ∧
  ∀ id r, v' !! id = Some r → v !! id = Some r ∨ ∃ e, e ∈ events ∧ r = (e, site).
Proof.
  revert v. induction events as [|e events IH]; intros v; cbn [append_events].
  { intros [= <-]. split; [done|]. split; [by intros e ?%elem_of_nil|auto]. }
  intros (v1 & H1 & H2)%bind_Some. apply append_event_Some in H1 as (Hs1 & Hin1 & Hof1).
  apply IH in H2 as (Hs2 & Hin2 & Hof2). split; [by transitivity v1|]. split.
  - intros e' [->|He']%elem_of_cons; [|by apply Hin2]. destruct Hin1 as (id & r & Hr & Hs).
    exists id, r. split; [by eapply lookup_weaken|done].
  - intros id r [Hr|(e' & He' & ->)]%Hof2; [|right; exists e'; split; [by right|done]].
    apply Hof1 in Hr as [Hr| ->]; [by left|]. right. exists e. split; [by left|done].
Qed.

Lemma insert_row_refines e site w w' :
  events_ok (w_db w) → event_ok e → insert_event_row e site w = (w', Ok ()) →
  events_ok (w_db w') ∧ append_event site (events_view (w_db w)) e = Some (events_view (w_db w')).
Proof.
  intros Hok He Hrun. apply statement_ok in Hrun.
  destruct (insert_event _ _) as [t|] eqn:Hins; [|done]. injection Hrun as <-. by eapply insert_event_refines.
Qed.

Lemma append_rows_refine events site w w' :
  events_ok (w_db w) → Forall event_ok events → mfor events (λ e, insert_event_row e site) w = (w', Ok ()) →
  events_ok (w_db w') ∧ append_events site (events_view (w_db w)) events = Some (events_view (w_db w')).
Proof.
  intros Hok Hev. revert w Hok. induction Hev as [|e events He Hev IH]; intros w Hok; cbn [mfor].
  { by intros [= <-]. }
  intros Hrun. apply mbind_ok in Hrun as ([] & w1 & H1 & Hrun).
  apply insert_row_refines in H1 as [Hok1 H1]; [|done..]. apply IH in Hrun as [Hok2 H2]; [|done].
  split; [done|]. simpl. by rewrite H1.
Qed.

(** A batch is appended whole or not at all. *)
Theorem append_center_events_spec events site w w' r :
  events_ok (w_db w) → Forall event_ok events → append_center_events events site w = (w', r) →
  events_ok (w_db w') ∧
  match r with
  | Ok _ => append_events (Some site) (events_view (w_db w)) events = Some (events_view (w_db w'))
  | Err _ => w_db w' = w_db w
  end.
Proof.
  intros Hok Hev Hrun. destruct events as [|e events]; [by injection Hrun as <- <-|].
  apply gated_write in Hrun as [(x & -> & Hdb)|([] & w1 & w2 & -> & Hdb & Hrun & ->)]; [by rewrite Hdb|].
  rewrite <- Hdb in *. by apply append_rows_refine in Hrun.
Qed.

(** ** The reads, as events *)

Definition newest_first (l r : Event) : Prop :=
  ev_observed_at r < ev_observed_at l ∨ (ev_observed_at r = ev_observed_at l ∧ (ev_id r <= ev_id l)%N).
#[export] Instance newest_first_dec : RelDecision newest_first.
Proof. intros l r. unfold newest_first. apply _. Defined.
Definition oldest_first (l r : Event) : Prop := newest_first r l.
#[export] Instance oldest_first_dec : RelDecision oldest_first.
Proof. intros l r. unfold oldest_first. apply _. Defined.

Definition stored_events (t : EventTable) : gmap EventId Event := decoded decode_event_row t.

Lemma stored_events_view t : stored_events t = fst <$> events_view t.
Proof.
  apply map_eq. intros id. unfold stored_events, events_view.
  rewrite lookup_fmap, !decoded_lookup. destruct (t !! id) as [m|]; [|done]. simpl.
  unfold decode_reported. by destruct (decode_event_row id m).
Qed.

Lemma events_ok_rows t : events_ok t → decodable decode_event_row t.
Proof.
  intros Hok id m Hm. destruct (Hok _ _ Hm) as [r Hr]. apply decode_reported_inv in Hr as [Hr _]. by eexists.
Qed.

#[local] Instance event_before_total : Total event_before.
Proof. intros l r. unfold event_before. lia. Qed.
#[local] Instance event_after_total : Total event_after.
Proof. intros l r. unfold event_after, event_before. lia. Qed.
#[local] Instance newest_total : Total newest_first.
Proof. intros l r. unfold newest_first. lia. Qed.
#[local] Instance newest_trans : Transitive newest_first.
Proof. intros l m r. unfold newest_first. lia. Qed.
#[local] Instance oldest_total : Total oldest_first.
Proof. intros l r. unfold oldest_first, newest_first. lia. Qed.
#[local] Instance oldest_trans : Transitive oldest_first.
Proof. intros l m r. unfold oldest_first, newest_first. lia. Qed.

Lemma stored_keyed t : decodable decode_event_row t → rows_keyed vm_id t.
Proof.
  intros Hok id m Hm. destruct (Hok _ _ Hm) as [e He]. by apply decode_event_row_inv in He as (_ & ? & _).
Qed.

(** A page of an ordered selection, decoded. *)
Lemma page_events (le : relation event_model) (ale : relation Event) `{∀ x y, Decision (le x y)}
    `{∀ x y, Decision (ale x y)} `{!Total le, !Transitive ale, !Total ale}
    (P : event_model → Prop) (Q : Event → Prop) `{∀ m, Decision (P m)} `{∀ e, Decision (Q e)} limit t
    (w w' : World EventTable) (r : result (list Event) EventRepositoryError) :
  (∀ id m e id' m' e', decode_event_row id m = Some e → decode_event_row id' m' = Some e' → le m m' → ale e e') →
  (∀ e e', ale e e' → ale e' e → ev_id e = ev_id e') →
  (∀ id m e, decode_event_row id m = Some e → P m ↔ Q e) →
  events_ok t →
  mtraverse (λ m, mlift (load_event (vm_id m) m)) (take_limit limit (rows le P t)) w = (w', r) →
  w' = w ∧ r = Ok (take_limit limit (merge_sort ale (filter Q (map_to_list (stored_events t)).*2))).
Proof.
  intros Hle Hanti HPQ Hok Hrun. apply events_ok_rows in Hok as Hrows.
  assert (∃ l, Forall2 (λ m e, load_event (vm_id m) m = Ok e) (rows le P t) l) as [l Hl].
  { apply Forall2_total. intros m Hm. apply (rows_spec vm_id) in Hm as [Hm _]; [|by apply stored_keyed].
    destruct (Hrows _ _ Hm) as [e He]. exists e. apply decode_event_row_inv in He as (He & _).
    unfold load_event. by rewrite He. }
  pose proof Hl as Hsorted.
  eapply (rows_decoded decode_event_row vm_id ev_id) with (Q := Q) (ale := ale) in Hsorted;
    [|intros id m e He; by apply decode_event_row_inv in He as (_ & ? & ? & _)| |done..].
  2: { intros m e [e' He'] Hload. pose proof He' as (Hm & _)%decode_event_row_inv.
       unfold load_event in Hload. rewrite Hm in Hload. by injection Hload as <-. }
  fold (stored_events t) in Hsorted. rewrite <- Hsorted, !take_limit_take in *.
  apply (Forall2_take _ _ _ (Z.to_nat limit)) in Hl. apply mtraverse_mlift in Hrun as Hinv.
  destruct Hinv as [-> _]. split; [done|]. clear -Hrun Hl. revert w r Hrun.
  induction Hl as [|m e ms es Hm Hms IH]; intros w r; cbn [mtraverse]; [by intros [= <-]|].
  unfold mbind at 1, mlift at 1. rewrite Hm. unfold mbind at 1.
  destruct (mtraverse _ ms w) as [w1 r1] eqn:Hr. apply mtraverse_mlift in Hr as Hw. destruct Hw as [-> _].
  apply IH in Hr as ->. by intros [= <-].
Qed.

Lemma filter_all {A} (l : list A) : filter (λ _, True) l = l.
Proof. induction l as [|x l IH]; [done|]. rewrite filter_cons_True by done. by rewrite IH. Qed.

(** The newest page: the stored events from the last received on. *)
Theorem list_recent_spec limit w w' l :
  events_ok (w_db w) → list_recent_events limit w = (w', Ok l) →
  w_db w' = w_db w ∧
  l = take_limit limit (merge_sort newest_first (map_to_list (fst <$> events_view (w_db w))).*2).
Proof.
  intros Hok Hrun. apply mbind_ok in Hrun as (models & w1 & Hs & Hrun). apply select_ok in Hs as [Hdb ->].
  apply (page_events event_after newest_first (λ _, True) (λ _, True)) in Hrun as [-> Hl]; [| | |done|done].
  - split; [done|]. injection Hl as ->. by rewrite filter_all, stored_events_view.
  - intros id m e id' m' e' (_ & Hid & Hid' & _ & Ho & _)%decode_event_row_inv
      (_ & Hid2 & Hid2' & _ & Ho' & _)%decode_event_row_inv.
    unfold event_after, event_before, newest_first. by rewrite Ho, Ho', Hid', Hid2', Hid, Hid2.
  - intros e e' H1 H2. unfold newest_first in *. lia.
Qed.

Lemma find_event_ok id w w' o :
  events_ok (w_db w) → find_event id w = (w', Ok o) → w_db w' = w_db w ∧ o = fst <$> events_view (w_db w) !! id.
Proof.
  intros Hok Hrun. apply mbind_ok in Hrun as (model & w1 & Hs & Hrun). apply select_ok in Hs as [Hdb ->].
  rewrite <- lookup_fmap, <- stored_events_view. unfold stored_events. rewrite decoded_lookup.
  destruct (w_db w !! id) as [m|] eqn:Hm; simpl; [|by injection Hrun as <- <-].
  destruct (events_ok_rows _ Hok _ _ Hm) as [e He]. rewrite He.
  apply decode_event_row_inv in He as (He & _). unfold load_event in Hrun. rewrite He in Hrun.
  by injection Hrun as <- <-.
Qed.

(** The page behind an anchor: the stored events received after it, in order; an
    anchor that is not stored is told apart. *)
Definition later_than (anchor e : Event) : Prop :=
  ev_observed_at anchor < ev_observed_at e ∨
  (ev_observed_at e = ev_observed_at anchor ∧ (ev_id anchor < ev_id e)%N).
#[export] Instance later_than_dec anchor e : Decision (later_than anchor e).
Proof. unfold later_than. apply _. Defined.

Theorem list_after_spec after limit w w' l :
  events_ok (w_db w) → list_events_after after limit w = (w', Ok l) →
  w_db w' = w_db w ∧ ∃ anchor, fst <$> events_view (w_db w) !! after = Some anchor ∧
  l = take_limit limit (merge_sort oldest_first
        (filter (later_than anchor) (map_to_list (fst <$> events_view (w_db w))).*2)).
Proof.
  intros Hok Hrun. apply mbind_ok in Hrun as (found & w1 & Hf & Hrun).
  apply find_event_ok in Hf as [Hdb ->]; [|done].
  apply mbind_ok in Hrun as (anchor & w2 & Ha & Hrun). injection Ha as <- Ha. apply ok_or_ok in Ha.
  apply mbind_ok in Hrun as (models & w2 & Hs & Hrun). apply select_ok in Hs as [Hdb2 ->].
  rewrite Hdb in Hdb2, Hrun.
  assert (ev_id anchor = after) as Hid.
  { rewrite <- lookup_fmap, <- stored_events_view in Ha. unfold stored_events in Ha. rewrite decoded_lookup in Ha.
    apply bind_Some in Ha as (m & _ & Hm). by apply decode_event_row_inv in Hm as (_ & _ & ? & _). }
  apply (page_events event_before oldest_first _ (later_than anchor)) in Hrun as [-> Hl]; [| | | |done].
  - split; [done|]. exists anchor. split; [done|]. injection Hl as ->. by rewrite stored_events_view.
  - intros id m e id' m' e' (_ & Hm & He & _ & Ho & _)%decode_event_row_inv
      (_ & Hm' & He' & _ & Ho' & _)%decode_event_row_inv.
    unfold event_before, oldest_first, newest_first. rewrite Ho, Ho', He, He', Hm, Hm'. lia.
  - intros e e' H1 H2. unfold oldest_first, newest_first in *. lia.
  - intros id m e (_ & Hm & He & _ & Ho & _)%decode_event_row_inv.
    unfold behind, later_than. by rewrite Ho, He, Hm, Hid.
Qed.
End repository.
