(* ===== verification/SyncCursors.v ===== *)
(** * SyncCursors: how far each stream of a site was processed

    The boundary [CenterCursor] of [application/src/center_sync.rs] and the rows
    of [persistence/src/sync_cursor_repository.rs], one per instance and stream. *)
From S2P Require Import Prelude Text Operation CenterDomain Database.
Local Open Scope Z_scope.

Definition stream_code (s : SyncStream) : nat :=
  match s with StreamEndpoint => 0 | StreamHealth => 1 | StreamEvent => 2 | StreamArtifact => 3 end%nat.
#[export] Instance SyncStream_countable : Countable SyncStream.
Proof.
  refine (inj_countable' stream_code (λ n, match n with
    | 0%nat => StreamEndpoint | 1%nat => StreamHealth | 2%nat => StreamEvent | _ => StreamArtifact end) _).
  by intros [].
Defined.

(** ** The boundary *)

Class CenterCursor (St E : Type) := {
  cursor_get : InstanceId → SyncStream → M St E (option SyncCursor);
  cursor_set : SyncCursor → M St E ();
}.

Abbreviation Cursors := (gmap (InstanceId * SyncStream) str).

Class CenterCursorLaws (St E : Type) `{CenterCursor St E} := {
  cursors : St → Cursors;
  cursors_ok : St → Prop;
  law_cursor_get instance stream s s' r :
    cursors_ok s → cursor_get instance stream s = (s', r) →
    reads cursors cursors_ok (λ v x, sc_cursor_value <$> x = v !! (instance, stream)) s s' r;
  law_cursor_set c s s' r :
    cursors_ok s → cursor_set c s = (s', r) →
    writes cursors cursors_ok
      (λ v v', v' = <[(sc_instance_id c, sc_stream c) := sc_cursor_value c]> v) s s' r;
}.

(** ** The rows *)

Record cursor_model := mk_cursor_model {
  cm_id : Uuid;
  cm_instance_id : Uuid;
  cm_stream : str;
  cm_cursor_value : str;
  cm_updated_at : OffsetDateTime;
}.

(** The rows, and the instances they reference. *)
Record CursorTables := mk_cursor_tables {
  ct_instances : gset Uuid;
  ct_rows : gmap Uuid cursor_model;
}.

Inductive SyncCursorRepositoryError :=
| CursorCoordinate
| CursorCorrupt (cursor_id : Uuid)
| CursorDatabase.
#[export] Instance cursor_errors : DbErrors SyncCursorRepositoryError :=
  { err_coordinate := CursorCoordinate; err_database := CursorDatabase }.

Section repository.
Context (env : Env).
Abbreviation Repo := (M (World CursorTables) SyncCursorRepositoryError).

Definition cursor_row (instance : InstanceId) (stream : SyncStream) (t : CursorTables) : option cursor_model :=
  find_row (λ m, cm_instance_id m = instance ∧ cm_stream m = SyncStream_as_str stream) (ct_rows t).

Definition map_stored_cursor (cursor_id : Uuid) (m : cursor_model)
    : result SyncCursor SyncCursorRepositoryError :=
  let? stream := map_err (λ _, CursorCorrupt cursor_id) (SyncStream_from_str (cm_stream m)) in
  Ok (mk_sync_cursor cursor_id (cm_instance_id m) stream (cm_cursor_value m) (cm_updated_at m)).

Definition get_sync_cursor (instance : InstanceId) (stream : SyncStream) : Repo (option SyncCursor) :=
  let! model := select env (cursor_row instance stream) in
  match model with
  | None => mret None
  | Some model => let! c := mlift (map_stored_cursor (cm_id model) model) in mret (Some c)
  end.

(** [UPDATE] by the identity of the row that was read. *)
Definition update_cursor (m : cursor_model) (t : CursorTables) : option (CursorTables * ()) :=
  match ct_rows t !! cm_id m with
  | Some _ => Some (mk_cursor_tables (ct_instances t) (<[cm_id m := m]> (ct_rows t)), ())
  | None => None
  end.

(** [INSERT]: the instance exists, and neither the identity nor the pair of
    instance and stream does. *)
Definition insert_cursor (m : cursor_model) (t : CursorTables) : option (CursorTables * ()) :=
  if decide (cm_instance_id m ∈ ct_instances t ∧
             map_Forall (λ _ r, ¬ (cm_instance_id r = cm_instance_id m ∧ cm_stream r = cm_stream m)) (ct_rows t))
  then (λ rows, (mk_cursor_tables (ct_instances t) rows, ())) <$> insert_new (ct_rows t) (cm_id m) m
  else None.

Definition set_sync_cursor (c : SyncCursor) : Repo () :=
  do! acquire env in
  transaction env (
    let! existing := select env (cursor_row (sc_instance_id c) (sc_stream c)) in
    match existing with
    | Some model =>
        statement env (update_cursor
          (mk_cursor_model (cm_id model) (cm_instance_id model) (cm_stream model) (sc_cursor_value c)
             (sc_updated_at c)))
    | None =>
        statement env (insert_cursor
          (mk_cursor_model (sc_id c) (sc_instance_id c) (SyncStream_as_str (sc_stream c)) (sc_cursor_value c)
             (sc_updated_at c)))
    end).

Definition sqlite_cursors : CenterCursor (World CursorTables) SyncCursorRepositoryError :=
  {| cursor_get := get_sync_cursor; cursor_set := set_sync_cursor |}.
End repository.

(** ** The rows as cursors *)

Lemma stream_parse st : SyncStream_from_str (SyncStream_as_str st) = Ok st.
Proof. exact (code_parse_str (T := SyncStream) st). Qed.
Lemma stream_inj x y : SyncStream_as_str x = SyncStream_as_str y → x = y.
Proof. exact (code_str_inj (T := SyncStream) x y). Qed.

(** Rows are keyed by their identity, name a stream, and are unique in their
    instance and stream. *)
Definition cursor_rows_ok (t : CursorTables) : Prop :=
  ∀ id m, ct_rows t !! id = Some m → cm_id m = id ∧ (∃ st, cm_stream m = SyncStream_as_str st) ∧
  ∀ id' m', ct_rows t !! id' = Some m' → cm_instance_id m' = cm_instance_id m → cm_stream m' = cm_stream m → id' = id.

Definition cursors_of (t : CursorTables) : Cursors :=
  list_to_map (omap (λ kv,
    match SyncStream_from_str (cm_stream kv.2) with
    | Ok st => Some ((cm_instance_id kv.2, st), cm_cursor_value kv.2)
    | Err _ => None
    end) (map_to_list (ct_rows t))).

Lemma cursors_lookup t i st v :
  cursor_rows_ok t →
  cursors_of t !! (i, st) = Some v ↔
  ∃ id m, ct_rows t !! id = Some m ∧ cm_instance_id m = i ∧ cm_stream m = SyncStream_as_str st ∧ cm_cursor_value m = v.
Proof.
  intros Hok. unfold cursors_of.
  set (f := λ kv : Uuid * cursor_model, match SyncStream_from_str (cm_stream kv.2) with
    | Ok st => Some ((cm_instance_id kv.2, st), cm_cursor_value kv.2) | Err _ => None end).
  assert (∀ v, (i, st, v) ∈ omap f (map_to_list (ct_rows t)) ↔
    ∃ id m, ct_rows t !! id = Some m ∧ cm_instance_id m = i ∧ cm_stream m = SyncStream_as_str st ∧ cm_cursor_value m = v) as Hin.
  { intros v'. rewrite list_elem_of_omap. split.
    - intros ([id m] & Hm%elem_of_map_to_list & Hf). unfold f in Hf. simpl in Hf.
      destruct (Hok _ _ Hm) as (_ & [st' Hst] & _). rewrite Hst, stream_parse in Hf. injection Hf as <- <- <-. eauto 10.
    - intros (id & m & Hm & <- & Hst & <-). exists (id, m). split; [by apply elem_of_map_to_list|].
      unfold f. simpl. by rewrite Hst, stream_parse. }
  rewrite <- Hin. symmetry. apply elem_of_list_to_map'. intros v1 Hv Hv1.
  apply Hin in Hv as (id & m & Hm & Hi & Hst & <-), Hv1 as (id' & m' & Hm' & Hi' & Hst' & <-).
  destruct (Hok _ _ Hm) as (_ & _ & Huniq). assert (id' = id) as -> by (eapply Huniq; [done|congruence..]).
  congruence.
Qed.

Lemma cursor_row_spec t i st :
  cursor_rows_ok t →
  match cursor_row i st t with
  | Some m => ct_rows t !! cm_id m = Some m ∧ cm_instance_id m = i ∧ cm_stream m = SyncStream_as_str st ∧
              cursors_of t !! (i, st) = Some (cm_cursor_value m)
  | None => cursors_of t !! (i, st) = None ∧
            map_Forall (λ _ m, ¬ (cm_instance_id m = i ∧ cm_stream m = SyncStream_as_str st)) (ct_rows t)
  end.
Proof.
  intros Hok. unfold cursor_row. destruct (find_row _ _) as [m|] eqn:Hr.
  - apply find_row_Some in Hr as ([Hi Hst] & id & Hm). destruct (Hok _ _ Hm) as [Hid _]. rewrite Hid.
    do 3 (split; [done|]). apply cursors_lookup; eauto 10.
  - apply find_row_None in Hr. split; [|done]. apply eq_None_not_Some. intros [v Hv].
    apply cursors_lookup in Hv as (id & m & Hm & Hi & Hst & _); [|done]. by apply (Hr id m).
Qed.

(** Writing the row of a pair: under the identity it has, or a new one. *)
Lemma cursors_write t id m st :
  cursor_rows_ok t → cm_id m = id → cm_stream m = SyncStream_as_str st →
  (∀ id' m', ct_rows t !! id' = Some m' → id' = id ↔ cm_instance_id m' = cm_instance_id m ∧ cm_stream m' = cm_stream m) →
  let t' := mk_cursor_tables (ct_instances t) (<[id := m]> (ct_rows t)) in
  cursor_rows_ok t' ∧ cursors_of t' = <[(cm_instance_id m, st) := cm_cursor_value m]> (cursors_of t).
Proof.
  intros Hok Hid Hst Hpair t'.
  assert (cursor_rows_ok t') as Hok'.
  { intros k r. simpl. intros [[<- <-]|[Hne Hr]]%lookup_insert_Some.
    - split; [done|]. split; [by exists st|].
      intros k' r' [[<- _]|[Hne Hr']]%lookup_insert_Some Hi Hs; [done|]. by apply (Hpair _ _ Hr').
    - destruct (Hok _ _ Hr) as (Hk & Hs & Huniq). split; [done|]. split; [done|].
      intros k' r' [[<- <-]|[_ Hr']]%lookup_insert_Some Hi Hs'; [|by eapply Huniq].
      symmetry. apply (Hpair _ _ Hr). by rewrite Hi, Hs'. }
  split; [done|]. apply map_eq. intros [i st']. apply option_eq. intros v.
  rewrite cursors_lookup by done. rewrite lookup_insert_Some, cursors_lookup by done. simpl. split.
  - intros (k & r & [[<- <-]|[Hne Hr]]%lookup_insert_Some & Hi & Hs & Hv).
    + left. split; [|done]. rewrite Hst in Hs. apply stream_inj in Hs. congruence.
    + right. split; [|eauto 10]. intros [= <- <-]. apply Hne. symmetry. apply (Hpair _ _ Hr). by rewrite Hst.
  - intros [[[= <- <-] <-]|[Hne (k & r & Hr & Hi & Hs & Hv)]].
    + exists id, m. by rewrite lookup_insert_eq.
    + exists k, r. rewrite lookup_insert_ne; [done|]. intros <-. apply Hne.
      destruct (proj1 (Hpair _ _ Hr) eq_refl) as [Hi' Hs']. rewrite Hs, Hst in Hs'. apply stream_inj in Hs'. congruence.
Qed.

Lemma set_cursor_refines env c w w' r :
  cursor_rows_ok (w_db w) → set_sync_cursor env c w = (w', r) →
  writes (λ w, cursors_of (w_db w)) (λ w, cursor_rows_ok (w_db w))
    (λ v v', v' = <[(sc_instance_id c, sc_stream c) := sc_cursor_value c]> v) w w' r.
Proof.
  intros Hok Hrun. unfold writes.
  apply gated_write in Hrun as [(x & -> & ->)|([] & w1 & w2 & -> & Hdb & Hrun & ->)]; [done|].
  rewrite <- Hdb in *. apply mbind_ok in Hrun as (existing & w3 & Hs & Hrun). apply select_ok in Hs as [Hdb3 ->].
  pose proof (cursor_row_spec (w_db w1) (sc_instance_id c) (sc_stream c) Hok) as Hrow.
  rewrite <- Hdb3 in *. destruct (cursor_row _ _ (w_db w3)) as [m|]; apply statement_ok in Hrun.
  - destruct Hrow as (Hm & Hi & Hst & _). unfold update_cursor in Hrun. simpl in Hrun. rewrite Hm in Hrun.
    injection Hrun as <-.
    destruct (cursors_write (w_db w3) (cm_id m)
      (mk_cursor_model (cm_id m) (cm_instance_id m) (cm_stream m) (sc_cursor_value c) (sc_updated_at c))
      (sc_stream c)) as [Hok' Hv]; [done..| |rewrite <- Hi; by split].
    intros id' m' Hm'. simpl. destruct (Hok _ _ Hm) as (_ & _ & Huniq). split; [|naive_solver].
    intros ->. by simplify_eq.
  - destruct Hrow as [_ Hnone]. unfold insert_cursor in Hrun. case_decide; [|done].
    apply fmap_Some in Hrun as (rows & [Hn ->]%insert_new_Some & [= ->]).
    destruct (cursors_write (w_db w3) (sc_id c)
      (mk_cursor_model (sc_id c) (sc_instance_id c) (SyncStream_as_str (sc_stream c)) (sc_cursor_value c) (sc_updated_at c))
      (sc_stream c)) as [Hok' Hv]; [done..| |by split].
    intros id' m' Hm'. simpl. split; [intros ->; simpl in Hn; congruence|]. intros Hpair. by destruct (Hnone _ _ Hm').
Qed.

#[export] Instance sqlite_cursors_laws env :
  @CenterCursorLaws (World CursorTables) SyncCursorRepositoryError (sqlite_cursors env).
Proof.
  refine {| cursors w := cursors_of (w_db w); cursors_ok w := cursor_rows_ok (w_db w) |}.
  - intros i st w w' r Hok Hrun. apply lookup_inv in Hrun as [Hdb Hr].
    + unfold reads. rewrite Hdb. split; [done|]. split; [done|]. intros x ->.
      destruct (Hr _ eq_refl) as [w1 Hx]. pose proof (cursor_row_spec (w_db w) i st Hok) as Hrow.
      destruct (cursor_row i st (w_db w)) as [m|].
      * destruct Hrow as (_ & _ & Hst & ->). unfold map_stored_cursor in Hx. rewrite Hst, stream_parse in Hx.
        by injection Hx as <-.
      * destruct Hrow as [-> _]. by injection Hx as <-.
    + intros [m|] w0 w1 r'; [|by intros [= <- _]]. unfold map_stored_cursor.
      by destruct (SyncStream_from_str _) as [st'|]; intros [= <- _].
  - intros c w w' r Hok Hrun. exact (set_cursor_refines env c w w' r Hok Hrun).
Defined.
