(* ===== verification/ProjectionRepository.v ===== *)
(** * ProjectionRepository: the SQLite rows of the projections

    Models [persistence/src/center_projection_repository.rs] over the endpoint,
    address, trust, resource and snapshot tables and the bindings, with the
    constraints of [migration/src] its statements meet: unique addresses, one
    active address per endpoint, one resource per endpoint and id, positive
    generations, known sites, and the cascades of a deletion. *)
From S2P Require Import Prelude Text Operation CenterDomain ResourceSnapshot Database EventRepository Artifact ArtifactRepository CenterStores BindingRepository.
From Stdlib Require Import ZifyBool.
Local Open Scope Z_scope.

Record endpoint_model := mk_endpoint_model {
  em_id : Uuid;
  em_display_name : str;
  em_created_at : OffsetDateTime;
  em_updated_at : OffsetDateTime;
  em_site_id : option Uuid;
  em_refresh_generation : Z;
  em_health : str;
}.

Record address_model := mk_address_model {
  am_id : Uuid;
  am_endpoint_id : Uuid;
  am_address : str;
  am_is_active : bool;
  am_created_at : OffsetDateTime;
  am_retired_at : option OffsetDateTime;
}.

(** [endpoint_trust::TrustMode]. *)
Record trust_model := mk_trust_model {
  tm_endpoint_id : Uuid;
  tm_trust_mode : CenterTrustMode;
  tm_certificate_sha256 : option (list N);
  tm_certificate_der : option (list N);
  tm_trusted_at : OffsetDateTime;
}.

Record resource_model := mk_resource_model {
  rm_id : Uuid;
  rm_endpoint_id : Uuid;
  rm_odata_id : str;
  rm_feature : str;
  rm_created_at : OffsetDateTime;
}.

Record snapshot_model := mk_snapshot_model {
  sm_resource_id : Uuid;
  sm_generation : Z;
  sm_odata_type : option str;
  sm_etag : option str;
  sm_typed_payload_json : str;
  sm_observed_at : OffsetDateTime;
}.

Record ProjectionTables := mk_projection_tables {
  pt_registry : BindingTables;
  pt_endpoints : gmap Uuid endpoint_model;
  pt_addresses : gmap Uuid address_model;
  pt_trust : gmap Uuid trust_model;
  pt_resources : gmap Uuid resource_model;
  pt_snapshots : gmap (Uuid * Z) snapshot_model;
}.

Inductive CenterProjectionRepositoryError :=
| ProjectionCoordinate
| ProjectionIntegerOverflow
| ProjectionEvent (source : EventRepositoryError)
| ProjectionArtifact (source : ArtifactRepositoryError)
| ProjectionDatabase.
#[export] Instance projection_errors : DbErrors CenterProjectionRepositoryError :=
  { err_coordinate := ProjectionCoordinate; err_database := ProjectionDatabase }.

Record ProjectedEndpointSummary := mk_endpoint_summary {
  ps_endpoint_id : EndpointId;
  ps_site_id : option InstanceId;
  ps_display_name : str;
  ps_address : str;
  ps_health : str;
  ps_refresh_generation : Z;
}.

(** The identities one write may generate. *)
Record ProjectionIds := mk_projection_ids { pi_address : Uuid; pi_resource : Uuid }.

Section repository.
Context (env : Env) (ids : ProjectionIds).
Abbreviation Repo := (M (World ProjectionTables) CenterProjectionRepositoryError).
Implicit Types (t : ProjectionTables).

Definition set_endpoints t (x : gmap Uuid endpoint_model) : ProjectionTables :=
  mk_projection_tables (pt_registry t) x (pt_addresses t) (pt_trust t) (pt_resources t) (pt_snapshots t).
Definition set_addresses t (x : gmap Uuid address_model) : ProjectionTables :=
  mk_projection_tables (pt_registry t) (pt_endpoints t) x (pt_trust t) (pt_resources t) (pt_snapshots t).
Definition set_trust t (x : gmap Uuid trust_model) : ProjectionTables :=
  mk_projection_tables (pt_registry t) (pt_endpoints t) (pt_addresses t) x (pt_resources t) (pt_snapshots t).
Definition set_resources t (x : gmap Uuid resource_model) : ProjectionTables :=
  mk_projection_tables (pt_registry t) (pt_endpoints t) (pt_addresses t) (pt_trust t) x (pt_snapshots t).
Definition set_snapshots t (x : gmap (Uuid * Z) snapshot_model) : ProjectionTables :=
  mk_projection_tables (pt_registry t) (pt_endpoints t) (pt_addresses t) (pt_trust t) (pt_resources t) x.

Definition stored_integer (value : Z) : Repo Z :=
  mlift (if decide (value <= I64_MAX) then Ok value else Err ProjectionIntegerOverflow).

(** [u64::try_from(..).unwrap_or(u64::MAX)]. *)
Definition stored_generation (value : Z) : Z := default U64_MAX (u64_try_from value).

(** [binding_revoked]: the statement orders nothing and takes one row. *)
Definition binding_revoked (site_id : option Uuid) : Repo bool :=
  match site_id with
  | None => mret false
  | Some site_id =>
      let! binding := select env (λ t,
        find_row (λ m, bm_site_instance_id m = site_id) (bt_bindings (pt_registry t))) in
      mret (is_some_and binding (λ row,
        bool_decide (bm_state row = CenterBindingState_as_str BindingRevoked)))
  end.

Definition known_site t (site : Uuid) : Prop := is_Some (bt_instances (pt_registry t) !! site).
#[export] Instance known_site_dec t site : Decision (known_site t site).
Proof. unfold known_site. apply _. Defined.

(** The row of an endpoint under its new site and cut. *)
Definition updated_endpoint (m : endpoint_model) (p : EndpointProjectionWrite) (site_id : option Uuid)
    (now : OffsetDateTime) : endpoint_model :=
  mk_endpoint_model (em_id m) (ew_display_name p) (em_created_at m) now site_id
    (ew_refresh_generation p) (ew_health p).
Definition new_endpoint (p : EndpointProjectionWrite) (site : InstanceId) (now : OffsetDateTime) : endpoint_model :=
  mk_endpoint_model (ew_endpoint_id p) (ew_display_name p) now now (Some site)
    (ew_refresh_generation p) (ew_health p).

(** [endpoint_address::Entity::insert]; the answer is whether a unique constraint
    let it through. *)
Definition insert_address (row : address_model) t : ProjectionTables * bool :=
  if decide (pt_addresses t !! am_id row = None ∧
             map_Forall (λ _ m, am_address m ≠ am_address row) (pt_addresses t) ∧
             map_Forall (λ _ m, ¬ (am_endpoint_id m = am_endpoint_id row ∧ am_is_active m = true)) (pt_addresses t))
  then (set_addresses t (<[am_id row := row]> (pt_addresses t)), true)
  else (t, false).

Definition active_address (endpoint : EndpointId) t : option address_model :=
  find_row (λ m, am_endpoint_id m = endpoint ∧ am_is_active m = true) (pt_addresses t).

(** The statements on the address, and whether they closed the write. *)
Definition write_address (p : EndpointProjectionWrite) (now : OffsetDateTime) : Repo bool :=
  let! active := select env (active_address (ew_endpoint_id p)) in
  if is_some_and active (λ row, bool_decide (am_address row = ew_address p)) then mret true
  else
    do! statement env (λ t, Some (set_addresses t
          (filter (λ kv, am_endpoint_id kv.2 ≠ ew_endpoint_id p) (pt_addresses t)), ())) in
    statement env (λ t, Some (insert_address
      (mk_address_model (pi_address ids) (ew_endpoint_id p) (ew_address p) true now None) t)).

Definition write_trust (p : EndpointProjectionWrite) (now : OffsetDateTime) : Repo () :=
  let! trust := select env (λ t, pt_trust t !! ew_endpoint_id p) in
  if is_some_and trust (λ row, bool_decide (tm_trust_mode row = ew_trust_mode p)) then mret ()
  else
    do! statement env (λ t, Some (set_trust t (delete (ew_endpoint_id p) (pt_trust t)), ())) in
    statement env (λ t,
      (λ rows, (set_trust t rows, ())) <$>
        insert_new (pt_trust t) (ew_endpoint_id p)
          (mk_trust_model (ew_endpoint_id p) (ew_trust_mode p) None None now)).

(** The endpoint row: the refusal, or the row written. *)
Definition write_endpoint (p : EndpointProjectionWrite) (site : InstanceId) (now : OffsetDateTime)
    : Repo (option ProjectionIgnoreReason) :=
  let! stored := select env (λ t, pt_endpoints t !! ew_endpoint_id p) in
  match stored with
  | Some stored =>
      let other := bool_decide (em_site_id stored ≠ Some site) in
      let! rehome := if other then binding_revoked (em_site_id stored) else mret false in
      if other && negb rehome then mret (Some EndpointBelongsToOtherSite)
      else if ew_refresh_generation p <? stored_generation (em_refresh_generation stored)
      then mret (Some StaleGeneration)
      else
        do! stored_integer (ew_refresh_generation p) in
        do! statement env (λ t,
              if decide (known_site t site)
              then Some (set_endpoints t (<[ew_endpoint_id p :=
                updated_endpoint stored p (if rehome then Some site else em_site_id stored) now]>
                (pt_endpoints t)), ())
              else None) in
        mret None
  | None =>
      do! stored_integer (ew_refresh_generation p) in
      do! statement env (λ t,
            if decide (known_site t site)
            then (λ rows, (set_endpoints t rows, ())) <$>
                   insert_new (pt_endpoints t) (ew_endpoint_id p) (new_endpoint p site now)
            else None) in
      mret None
  end.

Definition upsert_endpoint_projection (p : EndpointProjectionWrite) (site : InstanceId)
    (now : OffsetDateTime) : Repo ProjectionWriteOutcome :=
  do! acquire env in
  closing_transaction env (
    let! refused := write_endpoint p site now in
    match refused with
    | Some reason => mret (Rollback (Ignored reason))
    | None =>
        let! accepted := write_address p now in
        if negb accepted then mret (Rollback (Ignored AddressAlreadyProjected))
        else do! write_trust p now in mret (Commit Applied)
    end).

(** [ON DELETE CASCADE] of an endpoint and of its resources. *)
Definition resources_of (endpoint : EndpointId) t : gmap Uuid resource_model :=
  filter (λ kv, rm_endpoint_id kv.2 = endpoint) (pt_resources t).
Definition drop_resources (gone : gmap Uuid resource_model) t : ProjectionTables :=
  set_snapshots (set_resources t (pt_resources t ∖ gone))
    (filter (λ kv : (Uuid * Z) * snapshot_model, gone !! kv.1.1 = None) (pt_snapshots t)).
Definition drop_endpoint (endpoint : EndpointId) t : ProjectionTables :=
  let t := drop_resources (resources_of endpoint t) t in
  mk_projection_tables (pt_registry t) (delete endpoint (pt_endpoints t))
    (filter (λ kv, am_endpoint_id kv.2 ≠ endpoint) (pt_addresses t))
    (delete endpoint (pt_trust t)) (pt_resources t) (pt_snapshots t).

Definition delete_endpoint_projection (endpoint : EndpointId) (site : InstanceId) : Repo ProjectionWriteOutcome :=
  do! acquire env in
  closing_transaction env (
    let! stored := select env (λ t, pt_endpoints t !! endpoint) in
    match stored with
    | None => mret (Commit Applied)
    | Some stored =>
        let! revoked := if decide (em_site_id stored ≠ Some site)
                        then binding_revoked (em_site_id stored) else mret true in
        if negb revoked then mret (Rollback (Ignored EndpointBelongsToOtherSite))
        else
          do! statement env (λ t, Some (drop_endpoint endpoint t, ())) in
          mret (Commit Applied)
    end).

Definition resource_at (endpoint : EndpointId) (odata_id : str) t : option resource_model :=
  find_row (λ m, rm_endpoint_id m = endpoint ∧ rm_odata_id m = odata_id) (pt_resources t).

(** [MAX(generation)]. *)
Definition max_generation (resource_id : Uuid) t : option Z :=
  map_fold (λ k _ acc, if decide (k.1 = resource_id) then Some (Z.max k.2 (default k.2 acc)) else acc)
    None (pt_snapshots t).

Definition resource_row (p : ResourceProjectionWrite) (now : OffsetDateTime) : resource_model :=
  mk_resource_model (pi_resource ids) (rw_endpoint_id p) (rw_odata_id p)
    (ResourceFeature_as_str (rw_feature p)) now.
Definition snapshot_row (resource_id : Uuid) (p : ResourceProjectionWrite) : snapshot_model :=
  mk_snapshot_model resource_id (rw_generation p) (rw_odata_type p) (rw_etag p)
    (default [] (rw_payload p)) (rw_observed_at p).

(** The resource the snapshot goes below, which may be new. *)
Definition resource_id_of (p : ResourceProjectionWrite) (now : OffsetDateTime) : Repo Uuid :=
  let! found := select env (resource_at (rw_endpoint_id p) (rw_odata_id p)) in
  match found with
  | Some row => mret (rm_id row)
  | None =>
      do! statement env (λ t,
            (λ rows, (set_resources t rows, ())) <$>
              insert_new (pt_resources t) (pi_resource ids) (resource_row p now)) in
      mret (pi_resource ids)
  end.

Definition upsert_resource_projection (p : ResourceProjectionWrite) (site : InstanceId)
    (now : OffsetDateTime) : Repo ProjectionWriteOutcome :=
  do! acquire env in
  closing_transaction env (
    let! stored := select env (λ t, pt_endpoints t !! rw_endpoint_id p) in
    match stored with
    | None => mret (Rollback (Ignored UnknownEndpoint))
    | Some stored =>
        if decide (em_site_id stored ≠ Some site) then mret (Rollback (Ignored EndpointBelongsToOtherSite))
        else
          let! resource_id := resource_id_of p now in
          let! maximum := select env (max_generation resource_id) in
          if is_some_and maximum (λ m, rw_generation p <? stored_generation m)
          then mret (Rollback (Ignored StaleGeneration))
          else
            let! generation := stored_integer (rw_generation p) in
            do! statement env (λ t,
                  if decide (1 <= generation)
                  then Some (set_snapshots t
                    (<[(resource_id, generation) := snapshot_row resource_id p]> (pt_snapshots t)), ())
                  else None) in
            mret (Commit Applied)
    end).

Definition delete_resource_projection (endpoint : EndpointId) (odata_id : str) (site : InstanceId)
    : Repo ProjectionWriteOutcome :=
  do! acquire env in
  closing_transaction env (
    let! stored := select env (λ t, pt_endpoints t !! endpoint) in
    match stored with
    | None => mret (Commit Applied)
    | Some stored =>
        if decide (em_site_id stored ≠ Some site) then mret (Rollback (Ignored EndpointBelongsToOtherSite))
        else
          do! statement env (λ t, Some (drop_resources
                (filter (λ kv, rm_endpoint_id kv.2 = endpoint ∧ rm_odata_id kv.2 = odata_id) (pt_resources t)) t, ())) in
          mret (Commit Applied)
    end).

(** ** Reads *)

Definition sqlite_find_endpoint_projection (endpoint : EndpointId) : Repo (option CenterEndpointProjection) :=
  let! model := select env (λ t, pt_endpoints t !! endpoint) in
  mret ((λ m, mk_center_endpoint_projection endpoint (em_site_id m)) <$> model).

Definition has_resource_projection (endpoint : EndpointId) (odata_id : str) : Repo bool :=
  let! model := select env (resource_at endpoint odata_id) in
  mret (isSome model).

Definition sqlite_find_endpoint_projections (endpoints : list EndpointId)
    : Repo (gmap EndpointId CenterEndpointProjection) :=
  match endpoints with
  | [] => mret ∅
  | _ =>
      let! models := select env (λ t, filter (λ m, em_id m ∈ endpoints) (map_to_list (pt_endpoints t)).*2) in
      mret (list_to_map ((λ m, (em_id m, mk_center_endpoint_projection (em_id m) (em_site_id m))) <$> models))
  end.

(** [ORDER BY display_name, id], in the BINARY collation. *)
Definition listing_order (m m' : endpoint_model) : Prop :=
  if decide (em_display_name m = em_display_name m') then (em_id m <= em_id m')%N
  else str_leb (em_display_name m) (em_display_name m') = true.
#[export] Instance listing_order_dec m m' : Decision (listing_order m m').
Proof. unfold listing_order. case_decide; apply _. Defined.

Definition in_listing (site : option InstanceId) (m : endpoint_model) : Prop :=
  match site with Some site => em_site_id m = Some site | None => True end.
#[export] Instance in_listing_dec site m : Decision (in_listing site m).
Proof. unfold in_listing. destruct site; apply _. Defined.

Definition list_projected_endpoints (site : option InstanceId) : Repo (list ProjectedEndpointSummary) :=
  let! models := select env (λ t, rows listing_order (in_listing site) (pt_endpoints t)) in
  match models with
  | [] => mret []
  | _ =>
      let! addresses := select env (λ t, filter (λ m, am_is_active m = true ∧ am_endpoint_id m ∈ em_id <$> models)
                                           (map_to_list (pt_addresses t)).*2) in
      let addresses : gmap Uuid str :=
        foldl (λ acc m, <[am_endpoint_id m := am_address m]> acc) ∅ addresses in
      mret ((λ model, mk_endpoint_summary (em_id model) (em_site_id model) (em_display_name model)
               (default [] (addresses !! em_id model)) (em_health model)
               (stored_generation (em_refresh_generation model))) <$> models)
  end.

(** [COUNT(id)] and [MAX(updated_at)]. *)
Definition max_updated (models : list endpoint_model) : option OffsetDateTime :=
  foldr (λ m acc, Some (Z.max (em_updated_at m) (default (em_updated_at m) acc))) None models.
Definition center_site_projection_summary (site : InstanceId) : Repo (Z * option OffsetDateTime) :=
  let! row := select env (λ t,
    let models := filter (λ m, em_site_id m = Some site) (map_to_list (pt_endpoints t)).*2 in
    (Z.of_nat (length models), max_updated models)) in
  mret (stored_generation row.1, row.2).

Instance sqlite_projections : ProjectionReads (World ProjectionTables) CenterProjectionRepositoryError := {
  find_endpoint_projection := sqlite_find_endpoint_projection;
  has_resource := has_resource_projection;
}.
End repository.
