(* ===== verification/ProjectionSafety.v ===== *)
(** * ProjectionSafety: what a site's reports can change

    The projections of [ProjectionRepository], taken apart by endpoint: a report
    of one site reaches only the endpoint it names, and that endpoint only while
    it is the site's own, nobody's, or left behind by a revoked binding; an older
    cut never replaces a newer one and older snapshots are history.  The reads
    answer what the tables hold, as the services expect of them. *)
From S2P Require Import Prelude Text Operation CenterDomain ResourceSnapshot Database CenterStores BindingRepository ProjectionRepository.
From Stdlib Require Import ZifyBool.
Local Open Scope Z_scope.

(** Everything the tables hold of one endpoint. *)
Record Projected := mk_projected {
  pd_row : option endpoint_model;
  pd_addresses : gmap Uuid address_model;
  pd_trust : option trust_model;
  pd_resources : gmap Uuid resource_model;
  pd_snapshots : gmap (Uuid * Z) snapshot_model;
}.

Definition snapshots_of (resources : gmap Uuid resource_model) (snapshots : gmap (Uuid * Z) snapshot_model)
    : gmap (Uuid * Z) snapshot_model :=
  filter (λ kv, is_Some (resources !! kv.1.1)) snapshots.

Definition projected (endpoint : EndpointId) (t : ProjectionTables) : Projected :=
  mk_projected (pt_endpoints t !! endpoint)
    (filter (λ kv, am_endpoint_id kv.2 = endpoint) (pt_addresses t))
    (pt_trust t !! endpoint) (resources_of endpoint t)
    (snapshots_of (resources_of endpoint t) (pt_snapshots t)).

(** Rows are stored under their identity. *)
Definition projections_keyed (t : ProjectionTables) : Prop :=
  (∀ id m, pt_resources t !! id = Some m → rm_id m = id) ∧ ∀ e m, pt_endpoints t !! e = Some m → em_id m = e.

(** Besides one endpoint the tables hold what they held. *)
Definition touches (endpoint : EndpointId) (t t' : ProjectionTables) : Prop :=
  pt_registry t' = pt_registry t ∧ (projections_keyed t → projections_keyed t') ∧
  ∀ other, other ≠ endpoint → projected other t' = projected other t.

(** The binding of the site was revoked. *)
Definition site_revoked (t : ProjectionTables) (site : InstanceId) : Prop :=
  ∃ id m, bt_bindings (pt_registry t) !! id = Some m ∧ bm_site_instance_id m = site ∧
          bm_state m = CenterBindingState_as_str BindingRevoked.

(** The endpoint is another site's, which is still in force. *)
Definition foreign_to (site : InstanceId) (m : endpoint_model) (t : ProjectionTables) : Prop :=
  em_site_id m ≠ Some site ∧ ∀ owner, em_site_id m = Some owner → ¬ site_revoked t owner.

(** A write never takes an endpoint or a resource back to an older cut, and
    leaves every snapshot below the newest as it was. *)
Definition forward (t t' : ProjectionTables) : Prop :=
  (∀ e m, pt_endpoints t !! e = Some m →
     ∃ m', pt_endpoints t' !! e = Some m' ∧ em_refresh_generation m <= em_refresh_generation m') ∧
  (∀ id m, pt_resources t !! id = Some m → pt_resources t' !! id = Some m) ∧
  (∀ k s, pt_snapshots t !! k = Some s →
     is_Some (pt_snapshots t' !! k) ∧
     (∀ g, k.2 < g → is_Some (pt_snapshots t !! (k.1, g)) → pt_snapshots t' !! k = Some s)) ∧
  (∀ k, is_Some (pt_snapshots t' !! k) → pt_snapshots t !! k = None →
     ∀ g, is_Some (pt_snapshots t !! (k.1, g)) → g < k.2).

(** What an accepted report of an endpoint leaves. *)
Definition endpoint_reported (p : EndpointProjectionWrite) (site : InstanceId) (t : ProjectionTables) : Prop :=
  (∃ m, pt_endpoints t !! ew_endpoint_id p = Some m ∧ em_site_id m = Some site ∧
        em_display_name m = ew_display_name p ∧ em_health m = ew_health p ∧
        em_refresh_generation m = ew_refresh_generation p) ∧
  (∃ a, active_address (ew_endpoint_id p) t = Some a ∧ am_address a = ew_address p) ∧
  (∃ m, pt_trust t !! ew_endpoint_id p = Some m ∧ tm_trust_mode m = ew_trust_mode p).

(** What an accepted report of a resource leaves. *)
Definition resource_reported (p : ResourceProjectionWrite) (t : ProjectionTables) : Prop :=
  ∃ m, resource_at (rw_endpoint_id p) (rw_odata_id p) t = Some m ∧
       max_generation (rm_id m) t = Some (rw_generation p) ∧
       pt_snapshots t !! (rm_id m, rw_generation p) = Some (snapshot_row (rm_id m) p).

(** ** The pieces *)

Lemma touches_refl e t : touches e t t.
Proof. done. Qed.
Lemma touches_trans e t1 t2 t3 : touches e t1 t2 → touches e t2 t3 → touches e t1 t3.
Proof.
  intros (Hr1 & Hk1 & H1) (Hr2 & Hk2 & H2). split; [congruence|]. split; [auto|].
  intros o Ho. by rewrite H2, H1.
Qed.

Lemma touches_endpoints e t m :
  (projections_keyed t → em_id m = e) → touches e t (set_endpoints t (<[e := m]> (pt_endpoints t))).
Proof.
  intros Hid. split; [done|]. split.
  { intros Hk. split; [apply Hk|]. intros o m'. simpl. intros [[<- <-]|[_ Hm]]%lookup_insert_Some; [by apply Hid|by apply Hk]. }
  intros o Ho. unfold projected. simpl. by rewrite lookup_insert_ne.
Qed.

Lemma touches_addresses e t x :
  (∀ o, o ≠ e → filter (λ kv, am_endpoint_id kv.2 = o) x = filter (λ kv, am_endpoint_id kv.2 = o) (pt_addresses t)) →
  touches e t (set_addresses t x).
Proof. intros Hx. split; [done|]. split; [done|]. intros o Ho. unfold projected. simpl. by rewrite Hx. Qed.

Lemma touches_trust e t x : (∀ o, o ≠ e → x !! o = pt_trust t !! o) → touches e t (set_trust t x).
Proof. intros Hx. split; [done|]. split; [done|]. intros o Ho. unfold projected. simpl. by rewrite Hx. Qed.

Lemma set_addresses_same t : set_addresses t (pt_addresses t) = t.
Proof. by destruct t. Qed.
Lemma set_trust_same t : set_trust t (pt_trust t) = t.
Proof. by destruct t. Qed.

Lemma addresses_insert o id (row : address_model) (x : gmap Uuid address_model) :
  am_endpoint_id row ≠ o → x !! id = None →
  filter (λ kv, am_endpoint_id kv.2 = o) (<[id := row]> x) = filter (λ kv, am_endpoint_id kv.2 = o) x.
Proof. intros Hne Hn. rewrite map_filter_insert_False by done. by rewrite delete_id by done. Qed.

Lemma addresses_dropped o e (x : gmap Uuid address_model) :
  o ≠ e → filter (λ kv, am_endpoint_id kv.2 = o) (filter (λ kv, am_endpoint_id kv.2 ≠ e) x) =
          filter (λ kv, am_endpoint_id kv.2 = o) x.
Proof. intros Hne. rewrite map_filter_filter. apply map_filter_ext. intros k a _. naive_solver. Qed.

Lemma touches_new_resource e t id m :
  rm_endpoint_id m = e → rm_id m = id → pt_resources t !! id = None →
  touches e t (set_resources t (<[id := m]> (pt_resources t))).
Proof.
  intros <- <- Hn. split; [done|]. split.
  - intros [Hk He]. split; [|done]. intros k m'. simpl. intros [[<- <-]|[_ Hm']]%lookup_insert_Some; auto.
  - intros o Ho. unfold projected, resources_of. simpl.
    rewrite map_filter_insert_False by (simpl; congruence). by rewrite delete_id by done.
Qed.

Lemma touches_snapshot e t id m g s :
  pt_resources t !! id = Some m → rm_endpoint_id m = e →
  touches e t (set_snapshots t (<[(id, g) := s]> (pt_snapshots t))).
Proof.
  intros Hm He. split; [done|]. split; [done|]. intros o Ho. unfold projected, snapshots_of. simpl. f_equal.
  rewrite map_filter_insert_False; [apply map_filter_delete_not|].
  - intros y Hy [x [Hx Hxo]%map_lookup_filter_Some]. simpl in *. congruence.
  - simpl. intros [x [Hx Hxo]%map_lookup_filter_Some]. simpl in *. congruence.
Qed.

(** Dropping resources of one endpoint, with their snapshots. *)
Lemma touches_drop e t (gone : gmap Uuid resource_model) :
  gone ⊆ resources_of e t → touches e t (drop_resources gone t).
Proof.
  intros Hsub. split; [done|]. split.
  { intros [Hk He]. split; [|done]. intros k m. simpl. intros [Hm _]%lookup_difference_Some. auto. }
  intros o Ho.
  assert (∀ id m, pt_resources t !! id = Some m → rm_endpoint_id m = o → gone !! id = None) as Hkept.
  { intros id m Hm Hmo. destruct (gone !! id) as [x|] eqn:Hg; [|done].
    apply (lookup_weaken _ _ _ _ Hg) in Hsub. unfold resources_of in Hsub.
    apply map_lookup_filter_Some in Hsub as [Hx Hxe]. simpl in *. congruence. }
  assert (resources_of o (drop_resources gone t) = resources_of o t) as Hres.
  { apply map_eq. intros k. unfold resources_of, drop_resources. simpl. apply option_eq. intros m.
    rewrite !map_lookup_filter_Some, lookup_difference_Some. simpl. naive_solver. }
  unfold projected. rewrite Hres. simpl. f_equal. unfold snapshots_of. rewrite map_filter_filter.
  apply map_filter_ext. intros [id g] s _. simpl. split; [naive_solver|].
  intros [m Hm]. split; [by eexists|]. apply map_lookup_filter_Some in Hm as [Hm Hmo]. by eapply Hkept.
Qed.

Lemma max_generation_spec id t :
  match max_generation id t with
  | Some g => is_Some (pt_snapshots t !! (id, g)) ∧ ∀ g', is_Some (pt_snapshots t !! (id, g')) → g' <= g
  | None => ∀ g', pt_snapshots t !! (id, g') = None
  end.
Proof.
  unfold max_generation.
  refine (map_fold_weak_ind (λ acc (m : gmap (Uuid * Z) snapshot_model),
    match acc with
    | Some g => is_Some (m !! (id, g)) ∧ ∀ g', is_Some (m !! (id, g')) → g' <= g
    | None => ∀ g', m !! (id, g') = None
    end) _ None _ _ (pt_snapshots t)).
  - intros g'. apply lookup_empty.
  - intros [i g] s m acc Hn IH. simpl. destruct (decide (i = id)) as [->|Hne].
    + destruct acc as [a|]; simpl.
      * destruct IH as [[s' Hs'] Hmax]. destruct (Z.max_spec g a) as [[Hlt ->]|[Hle ->]].
        -- split; [rewrite lookup_insert_ne by (intros [=]; lia); by eexists|].
           intros g' [s'' [[[= <-] _]|[_ Hs'']]%lookup_insert_Some]; [lia|]. apply Hmax. by eexists.
        -- split; [rewrite lookup_insert_eq; by eexists|].
           intros g' [s'' [[[= <-] _]|[_ Hs'']]%lookup_insert_Some]; [lia|].
           assert (g' <= a) by (apply Hmax; by eexists). lia.
      * rewrite Z.max_id. split; [rewrite lookup_insert_eq; by eexists|].
        intros g' [s'' [[[= <-] _]|[_ Hs'']]%lookup_insert_Some]; [lia|]. by rewrite IH in Hs''.
    + assert (∀ g', <[(i, g):=s]> m !! (id, g') = m !! (id, g')) as Hl by
        (intros g'; apply lookup_insert_ne; congruence).
      destruct acc as [a|]; [|intros g'; by rewrite Hl]. rewrite Hl. split; [apply IH|].
      intros g'. rewrite Hl. apply IH.
Qed.

Lemma max_generation_is id g t :
  is_Some (pt_snapshots t !! (id, g)) → (∀ g', is_Some (pt_snapshots t !! (id, g')) → g' <= g) →
  max_generation id t = Some g.
Proof.
  intros Hg Hmax. pose proof (max_generation_spec id t) as Hs. destruct (max_generation id t) as [m|].
  - destruct Hs as [Hm Hge]. apply Hmax in Hm. apply Hge in Hg. f_equal. lia.
  - rewrite Hs in Hg. by destruct Hg.
Qed.

Lemma resource_at_new e odata id m t :
  resource_at e odata t = None → rm_endpoint_id m = e → rm_odata_id m = odata →
  resource_at e odata (set_resources t (<[id := m]> (pt_resources t))) = Some m.
Proof.
  intros Hn <- <-. apply find_row_None in Hn. unfold resource_at. simpl. destruct (find_row _ _) as [x|] eqn:Hx.
  - apply find_row_Some in Hx as (HP & k & [[_ <-]|[_ Hk]]%lookup_insert_Some); [done|].
    by destruct (Hn k x).
  - apply find_row_None in Hx. exfalso. by eapply (Hx id); [apply lookup_insert_eq|].
Qed.

(** A snapshot at or above the newest of its resource goes forward. *)
Lemma forward_snapshot t id g s :
  (∀ g', is_Some (pt_snapshots t !! (id, g')) → g' <= g) →
  forward t (set_snapshots t (<[(id, g) := s]> (pt_snapshots t))).
Proof.
  intros Hmax. split; [|split; [done|split]]; simpl.
  - intros e m Hm. exists m. split; [done|lia].
  - intros k x Hk. split; [rewrite lookup_insert_is_Some; destruct (decide ((id, g) = k)); eauto|].
    intros g' Hlt Hg'. rewrite lookup_insert_ne; [done|]. intros <-. apply Hmax in Hg'. simpl in *. lia.
  - intros k [x [[<- _]|[_ Hk]]%lookup_insert_Some] Hn; [|congruence]. simpl.
    intros g' Hg'. assert (g' ≠ g) by (intros ->; rewrite Hn in Hg'; by destruct Hg').
    apply Hmax in Hg'. lia.
Qed.

Lemma forward_resource t t1 t' :
  pt_snapshots t1 = pt_snapshots t → pt_endpoints t1 = pt_endpoints t →
  (∀ k m, pt_resources t !! k = Some m → pt_resources t1 !! k = Some m) →
  forward t1 t' → forward t t'.
Proof. intros Hs He Hr (He' & Hr' & Hk & Hg). rewrite Hs, He in *. split; [done|]. split; [auto|done]. Qed.

Lemma forward_endpoints t t' :
  pt_resources t' = pt_resources t → pt_snapshots t' = pt_snapshots t →
  (∀ e m, pt_endpoints t !! e = Some m →
     ∃ m', pt_endpoints t' !! e = Some m' ∧ em_refresh_generation m <= em_refresh_generation m') →
  forward t t'.
Proof.
  intros Hr Hs He. split; [done|]. rewrite Hr, Hs. split; [done|]. split.
  - intros k s Hk. by split; [eexists|].
  - intros k [s Hk] Hn. congruence.
Qed.

(** ** The operations *)

Section operations.
Context (env : Env) (ids : ProjectionIds).
Abbreviation W := (World ProjectionTables).
Implicit Types (w : W) (t : ProjectionTables).

Lemma binding_revoked_ok site w w' b :
  binding_revoked env site w = (w', Ok b) →
  w_db w' = w_db w ∧ (b = true → ∃ s, site = Some s ∧ site_revoked (w_db w) s).
Proof.
  unfold binding_revoked. destruct site as [s|]; [|intros [= <- <-]; done].
  intros Hrun. inv_run. split; [done|].
  destruct (find_row _ _) as [m|] eqn:Hm; [|done]. simpl. intros Hb%bool_decide_eq_true.
  apply find_row_Some in Hm as (Hs & id & Hm). exists s. split; [done|]. by exists id, m.
Qed.

Lemma stored_generation_le m g : ¬ g < stored_generation m → g <= I64_MAX → m <= g.
Proof.
  unfold stored_generation, u64_try_from, U64_MAX, I64_MAX. case_decide; simpl; lia.
Qed.

Lemma write_endpoint_ok p site now w w' r :
  write_endpoint env p site now w = (w', Ok r) →
  match r with
  | Some _ => w_db w' = w_db w
  | None => ∃ row, w_db w' = set_endpoints (w_db w) (<[ew_endpoint_id p := row]> (pt_endpoints (w_db w))) ∧
      em_site_id row = Some site ∧ em_display_name row = ew_display_name p ∧
      em_health row = ew_health p ∧ em_refresh_generation row = ew_refresh_generation p ∧
      (projections_keyed (w_db w) → em_id row = ew_endpoint_id p) ∧
      ∀ m, pt_endpoints (w_db w) !! ew_endpoint_id p = Some m →
        ¬ foreign_to site m (w_db w) ∧ em_refresh_generation m <= em_refresh_generation row
  end.
Proof.
  unfold write_endpoint, stored_integer. intros Hrun. inv_run.
  destruct (pt_endpoints (w_db w) !! ew_endpoint_id p) as [m|] eqn:Hm.
  - case_bool_decide as Hs; cbn [andb] in Hrun.
    + apply mbind_ok in Hrun as (b & w2 & Hb & Hrun). apply binding_revoked_ok in Hb as [Hdb Hrev].
      destruct b; simpl in Hrun; [|by inv_run; congruence].
      destruct (Z.ltb_spec (ew_refresh_generation p) (stored_generation (em_refresh_generation m)));
        [by inv_run; congruence|].
      inv_run. destruct (decide (ew_refresh_generation p <= I64_MAX)); [|done].
      case_decide; [|done]. simplify_eq/=.
      destruct (Hrev eq_refl) as (s & Hms & Hrv).
      exists (updated_endpoint m p (Some site) now). split; [congruence|].
      repeat (split; [done|]). split; [intros [_ Hk]; simpl; apply Hk; congruence|]. intros m' [= <-]. simpl.
      split; [intros [_ Hf]; apply (Hf s Hms); congruence|].
      apply stored_generation_le; [lia|done].
    + inv_run.
      destruct (Z.ltb_spec (ew_refresh_generation p) (stored_generation (em_refresh_generation m)));
        [by inv_run; congruence|].
      inv_run. destruct (decide (ew_refresh_generation p <= I64_MAX)); [|done].
      case_decide; [|done]. simplify_eq/=.
      exists (updated_endpoint m p (em_site_id m) now). split; [congruence|].
      repeat (split; [done|]). split; [intros [_ Hk]; simpl; apply Hk; congruence|]. intros m' [= <-]. simpl. split; [by intros [Hf _]|]. apply stored_generation_le; [lia|done].
  - inv_run. case_decide; [|done]. case_decide; [|done].
    match goal with H : _ <$> insert_new _ _ _ = Some _ |- _ => apply fmap_Some in H as (rows & Hins & Hr) end.
    apply insert_new_Some in Hins as [_ ->]. simplify_eq/=.
    exists (new_endpoint p site now). split; [congruence|]. done.
Qed.

Lemma insert_address_spec row t t' b :
  insert_address row t = (t', b) →
  (t' = t ∧ b = false) ∨
  (b = true ∧ pt_addresses t !! am_id row = None ∧ t' = set_addresses t (<[am_id row := row]> (pt_addresses t))).
Proof. unfold insert_address. case_decide; naive_solver. Qed.

Lemma write_address_ok p now w w' b :
  write_address env ids p now w = (w', Ok b) →
  touches (ew_endpoint_id p) (w_db w) (w_db w') ∧
  (∃ x, w_db w' = set_addresses (w_db w) x) ∧
  (b = true → ∃ a, active_address (ew_endpoint_id p) (w_db w') = Some a ∧ am_address a = ew_address p).
Proof.
  unfold write_address. intros Hrun. apply mbind_ok in Hrun as (active & w1 & Hs & Hrun).
  apply select_ok in Hs as [Hdb ->]. rewrite <- Hdb in Hrun |- *.
  clear Hdb w. set (t := w_db w1) in *.
  match type of Hrun with (if ?c then _ else _) _ = _ => destruct c eqn:Hsame end.
  - injection Hrun as <- <-. split; [apply touches_refl|]. split; [exists (pt_addresses t); by rewrite set_addresses_same|].
    intros _. unfold t in *. destruct (active_address _ _) as [a|]; [|done]. simpl in Hsame.
    apply bool_decide_eq_true in Hsame. eauto.
  - inv_run. rename x0 into w2.
    match goal with H : _ = w_db w2 |- _ => rename H into Hdrop end.
    assert (touches (ew_endpoint_id p) t (w_db w2)) as Htouch.
    { rewrite <- Hdrop. apply (touches_addresses _ t). intros. by apply addresses_dropped. }
    apply insert_address_spec in Hrun as [[-> ->]|(-> & Hn & ->)].
    + split; [done|]. split; [|done]. rewrite <- Hdrop. by eexists.
    + split; [eapply touches_trans; [done|]; apply touches_addresses; intros; by rewrite addresses_insert|].
      split; [rewrite <- Hdrop; by eexists|]. intros _. unfold active_address. simpl.
      destruct (find_row _ _) as [a|] eqn:Ha.
      * apply find_row_Some in Ha as ([He Hact] & id & [[_ <-]|[_ Hid]]%lookup_insert_Some); [eauto|].
        rewrite <- Hdrop in Hid. simpl in Hid. apply map_lookup_filter_Some in Hid as [_ Hid]. done.
      * apply find_row_None in Ha. exfalso. eapply (Ha (pi_address ids)); [apply lookup_insert_eq|done].
Qed.

Lemma write_trust_ok p now w w' :
  write_trust env p now w = (w', Ok ()) →
  touches (ew_endpoint_id p) (w_db w) (w_db w') ∧
  (∃ x, w_db w' = set_trust (w_db w) x) ∧
  ∃ m, pt_trust (w_db w') !! ew_endpoint_id p = Some m ∧ tm_trust_mode m = ew_trust_mode p.
Proof.
  unfold write_trust. intros Hrun. apply mbind_ok in Hrun as (trust & w1 & Hs & Hrun).
  apply select_ok in Hs as [Hdb ->]. rewrite <- Hdb in Hrun |- *.
  clear Hdb w. set (t := w_db w1) in *.
  match type of Hrun with (if ?c then _ else _) _ = _ => destruct c eqn:Hsame end.
  - injection Hrun as <-. split; [apply touches_refl|]. split; [exists (pt_trust t); by rewrite set_trust_same|].
    unfold t in *. destruct (pt_trust _ !! _) as [a|]; [|done]. simpl in Hsame.
    apply bool_decide_eq_true in Hsame. eauto.
  - inv_run.
    match goal with H : _ <$> insert_new _ _ _ = Some _ |- _ => apply fmap_Some in H as (rows & Hins & Hr) end.
    apply insert_new_Some in Hins as [_ ->]. simplify_eq/=.
    match goal with H : _ = w_db x0 |- _ => rewrite <- H in *; clear H end. simpl in *.
    match goal with H : w_db w' = _ |- _ => rewrite H end.
    split; [|split; [by eexists|]].
    + apply (touches_trust _ t). intros o Ho. by rewrite lookup_insert_ne, lookup_delete_ne.
    + simpl. rewrite lookup_insert_eq. by eexists.
Qed.

(** What a report of an endpoint, and what its withdrawal, may do. *)
Theorem upsert_endpoint_spec p site now w w' r :
  upsert_endpoint_projection env ids p site now w = (w', r) →
  match r with
  | Ok Applied =>
      touches (ew_endpoint_id p) (w_db w) (w_db w') ∧ forward (w_db w) (w_db w') ∧
      endpoint_reported p site (w_db w') ∧
      ∀ m, pt_endpoints (w_db w) !! ew_endpoint_id p = Some m → ¬ foreign_to site m (w_db w)
  | _ => w_db w' = w_db w
  end.
Proof.
  intros [(e & -> & Hdb)|(close & w1 & w2 & Hw1 & Hrun & Hclose)]%gated_closing; [done|].
  apply mbind_ok in Hrun as (refused & w3 & He & Hrun). apply write_endpoint_ok in He.
  destruct refused as [reason|]; [inv_run; by destruct Hclose as [-> ->]|].
  destruct He as (row & Hw3 & Hsite & Hname & Hhealth & Hgen & Hid & Hold).
  apply mbind_ok in Hrun as (accepted & w4 & Ha & Hrun). apply write_address_ok in Ha as (Ht4 & [x Hw4] & Hact).
  destruct accepted; simpl in Hrun; [|inv_run; by destruct Hclose as [-> ->]].
  apply mbind_ok in Hrun as ([] & w5 & Htr & Hrun). apply write_trust_ok in Htr as (Ht5 & [y Hw5] & Htrust).
  injection Hrun as <- <-. destruct Hclose as [-> ->]. rewrite <- Hw1.
  split; [|split; [|split]].
  - apply (touches_trans _ _ (w_db w3)); [rewrite Hw3; by apply touches_endpoints|].
    by apply (touches_trans _ _ (w_db w4)).
  - rewrite Hw5, Hw4, Hw3. apply forward_endpoints; [done|done|]. simpl.
    intros e m Hm. destruct (decide (e = ew_endpoint_id p)) as [->|Hne].
    + exists row. rewrite lookup_insert_eq. split; [done|]. by apply Hold.
    + exists m. rewrite lookup_insert_ne by done. split; [done|lia].
  - split; [|split; [|done]].
    + exists row. rewrite Hw5, Hw4, Hw3. simpl. by rewrite lookup_insert_eq.
    + destruct (Hact eq_refl) as (a & Haa & Had). exists a. by rewrite Hw5.
  - intros m Hm. by apply Hold.
Qed.

Theorem delete_endpoint_spec e site w w' r :
  delete_endpoint_projection env e site w = (w', r) →
  match r with
  | Ok Applied =>
      touches e (w_db w) (w_db w') ∧ pt_endpoints (w_db w') !! e = None ∧
      ∀ m, pt_endpoints (w_db w) !! e = Some m → ¬ foreign_to site m (w_db w)
  | _ => w_db w' = w_db w
  end.
Proof.
  intros [(x & -> & Hdb)|(close & w1 & w2 & Hw1 & Hrun & Hclose)]%gated_closing; [done|].
  apply mbind_ok in Hrun as (stored & w3 & Hs & Hrun). apply select_ok in Hs as [Hw3 ->].
  rewrite <- Hw1. destruct (pt_endpoints (w_db w1) !! e) as [m|] eqn:Hm.
  - apply mbind_ok in Hrun as (revoked & w4 & Hr & Hrun).
    assert (w_db w4 = w_db w1 ∧ (revoked = true → ¬ foreign_to site m (w_db w1))) as [Hw4 Hown].
    { destruct (decide (em_site_id m ≠ Some site)) as [Hne|Heq].
      - apply binding_revoked_ok in Hr as [Hw4 Hrv]. split; [congruence|]. intros ->.
        destruct (Hrv eq_refl) as (s & Hms & Hrev). intros [_ Hf]. apply (Hf s Hms). congruence.
      - injection Hr as <- <-. split; [congruence|]. by intros _ [Hf _]. }
    destruct revoked; simpl in Hrun; [|inv_run; destruct Hclose as [-> ->]; congruence].
    inv_run. destruct Hclose as [-> ->].
    match goal with H : _ = w_db w2 |- _ => rewrite <- H; clear H end. rewrite Hw4.
    split; [|split; [apply lookup_delete_eq|by intros m' [= <-]; apply Hown]].
    apply (touches_trans e _ (drop_resources (resources_of e (w_db w1)) (w_db w1))); [by apply touches_drop|].
    split; [done|]. split.
    { intros [Hk He]. split; [exact Hk|]. intros o x. simpl. intros [_ Hx]%lookup_delete_Some. auto. }
    intros o Ho. unfold projected, resources_of. simpl.
    rewrite !lookup_delete_ne by done. f_equal. by apply addresses_dropped.
  - inv_run. destruct Hclose as [-> ->]. rewrite Hw3. split; [apply touches_refl|]. split; [done|].
    intros m' Hm'. congruence.
Qed.

(** The row a report of a resource writes its snapshot below. *)
Lemma resource_row_ok p now w w' rid :
  resource_id_of env ids p now w = (w', Ok rid) →
  projections_keyed (w_db w) →
  touches (rw_endpoint_id p) (w_db w) (w_db w') ∧ pt_snapshots (w_db w') = pt_snapshots (w_db w) ∧
  pt_endpoints (w_db w') = pt_endpoints (w_db w) ∧
  (∀ k m, pt_resources (w_db w) !! k = Some m → pt_resources (w_db w') !! k = Some m) ∧
  ∃ m, resource_at (rw_endpoint_id p) (rw_odata_id p) (w_db w') = Some m ∧ rm_id m = rid ∧
       pt_resources (w_db w') !! rid = Some m ∧ rm_endpoint_id m = rw_endpoint_id p.
Proof.
  intros Hrun Hk. apply mbind_ok in Hrun as (found & w1 & Hs & Hrun). apply select_ok in Hs as [Hdb ->].
  rewrite <- Hdb in *. destruct (resource_at _ _ (w_db w1)) as [row|] eqn:Hrow.
  - injection Hrun as <- <-. split; [apply touches_refl|]. do 3 (split; [done|]). exists row. split; [done|].
    split; [done|]. apply find_row_Some in Hrow as ([He _] & id & Hid). by rewrite (proj1 Hk _ _ Hid).
  - inv_run.
    match goal with H : _ <$> insert_new _ _ _ = Some _ |- _ => apply fmap_Some in H as (rows & Hins & Hr) end.
    apply insert_new_Some in Hins as [Hn ->]. simplify_eq/=.
    match goal with H : w_db w' = _ |- _ => rewrite H; clear H end.
    split; [by apply touches_new_resource|]. do 2 (split; [done|]). simpl.
    split; [intros k m Hm; rewrite lookup_insert_ne; congruence|].
    exists (resource_row ids p now). split; [by apply resource_at_new|]. split; [done|].
    by rewrite lookup_insert_eq.
Qed.

Theorem upsert_resource_spec p site now w w' r :
  projections_keyed (w_db w) → upsert_resource_projection env ids p site now w = (w', r) →
  match r with
  | Ok Applied =>
      touches (rw_endpoint_id p) (w_db w) (w_db w') ∧ forward (w_db w) (w_db w') ∧
      resource_reported p (w_db w') ∧
      ∃ m, pt_endpoints (w_db w) !! rw_endpoint_id p = Some m ∧ em_site_id m = Some site
  | _ => w_db w' = w_db w
  end.
Proof.
  intros Hk [(x & -> & Hdb)|(close & w1 & w2 & Hw1 & Hrun & Hclose)]%gated_closing; [done|].
  rewrite <- Hw1 in Hk |- *.
  apply mbind_ok in Hrun as (stored & w3 & Hs & Hrun). apply select_ok in Hs as [Hw3 ->].
  destruct (pt_endpoints (w_db w1) !! _) as [m|] eqn:Hm; [|inv_run; destruct Hclose as [-> ->]; congruence].
  destruct (decide (em_site_id m ≠ Some site)) as [Hne|Hsite%dec_stable];
    [inv_run; destruct Hclose as [-> ->]; congruence|].
  apply mbind_ok in Hrun as (rid & w4 & Hr & Hrun).
  rewrite <- Hw3 in Hk. apply resource_row_ok in Hr as (Ht & Hsn & Hen & Hre & row & Hat & Hid & Hrow & He); [|done].
  apply mbind_ok in Hrun as (maximum & w5 & Hmx & Hrun). apply select_ok in Hmx as [Hw5 ->].
  pose proof (max_generation_spec rid (w_db w4)) as Hmax.
  destruct (is_some_and _ _) eqn:Hstale; [inv_run; destruct Hclose as [-> ->]; congruence|].
  unfold stored_integer in Hrun. inv_run. destruct Hclose as [-> ->].
  destruct (decide (rw_generation p <= I64_MAX)) as [Hle|]; [|done]. case_decide; [|done]. simplify_eq/=.
  match goal with H : _ = w_db w2 |- _ => rewrite <- H, Hw5; clear H end. rewrite <- Hw3.
  assert (∀ g, is_Some (pt_snapshots (w_db w4) !! (rm_id row, g)) → g <= rw_generation p) as Hnew.
  { intros g Hg. destruct (max_generation _ _) as [top|]; [|rewrite Hmax in Hg; by destruct Hg].
    simpl in Hstale. transitivity top; [by apply Hmax|]. apply stored_generation_le; [lia|done]. }
  split; [eapply touches_trans; [done|]; by eapply touches_snapshot|].
  split; [|split; [|by exists m]].
  - eapply forward_resource; [done..|]. by apply forward_snapshot.
  - exists row. split; [done|]. simpl. split; [|apply lookup_insert_eq].
    apply max_generation_is; simpl; [rewrite lookup_insert_eq; by eexists|].
    intros g [s [[[= <-] _]|[_ Hs]]%lookup_insert_Some]; [lia|]. apply Hnew. by eexists.
Qed.

Theorem delete_resource_spec e odata site w w' r :
  delete_resource_projection env e odata site w = (w', r) →
  match r with
  | Ok Applied =>
      touches e (w_db w) (w_db w') ∧
      ((w_db w' = w_db w ∧ pt_endpoints (w_db w) !! e = None) ∨
       (resource_at e odata (w_db w') = None ∧
        ∃ m, pt_endpoints (w_db w) !! e = Some m ∧ em_site_id m = Some site))
  | _ => w_db w' = w_db w
  end.
Proof.
  intros [(x & -> & Hdb)|(close & w1 & w2 & Hw1 & Hrun & Hclose)]%gated_closing; [done|].
  rewrite <- Hw1.
  apply mbind_ok in Hrun as (stored & w3 & Hs & Hrun). apply select_ok in Hs as [Hw3 ->].
  destruct (pt_endpoints (w_db w1) !! _) as [m|] eqn:Hm.
  - destruct (decide (em_site_id m ≠ Some site)) as [Hne|Hsite%dec_stable];
      [inv_run; destruct Hclose as [-> ->]; congruence|].
    inv_run. destruct Hclose as [-> ->].
    match goal with H : _ = w_db w2 |- _ => rewrite <- H; clear H end. rewrite Hw3.
    split; [|right; split; [|by eexists]].
    + apply touches_drop. unfold resources_of. apply map_subseteq_spec. intros k x.
      rewrite !map_lookup_filter_Some. naive_solver.
    + unfold resource_at, drop_resources. simpl. destruct (find_row _ _) as [x|] eqn:Hx; [|done].
      apply find_row_Some in Hx as (HP & k & [Hk Hn]%lookup_difference_Some).
      rewrite map_lookup_filter_None in Hn. destruct Hn as [Hn|Hn]; [congruence|]. by destruct (Hn x).
  - inv_run. destruct Hclose as [-> ->]. rewrite Hw3. split; [apply touches_refl|by left].
Qed.
End operations.

(** ** Any sequence of reports *)

(** A report that may refresh or withdraw, and one that only refreshes; calls of
    either kind may fail. *)
Inductive refresh_call (site : InstanceId) : relation ProjectionTables :=
| refresh_endpoint env ids p now w w' r :
    upsert_endpoint_projection env ids p site now w = (w', r) → refresh_call site (w_db w) (w_db w')
| refresh_resource env ids p now w w' r :
    upsert_resource_projection env ids p site now w = (w', r) → refresh_call site (w_db w) (w_db w').
Inductive report_call (site : InstanceId) : relation ProjectionTables :=
| report_refresh t t' : refresh_call site t t' → report_call site t t'
| withdraw_endpoint env e w w' r :
    delete_endpoint_projection env e site w = (w', r) → report_call site (w_db w) (w_db w')
| withdraw_resource env e odata w w' r :
    delete_resource_projection env e odata site w = (w', r) → report_call site (w_db w) (w_db w').

Lemma forward_refl t : forward t t.
Proof. apply forward_endpoints; [done|done|]. intros e m Hm. exists m. split; [done|lia]. Qed.

Lemma forward_trans t1 t2 t3 : forward t1 t2 → forward t2 t3 → forward t1 t3.
Proof.
  intros (He1 & Hr1 & Hk1 & Hn1) (He2 & Hr2 & Hk2 & Hn2). split; [|split; [auto|split]].
  - intros e m (m' & Hm' & Hle)%He1. destruct (He2 _ _ Hm') as (m'' & Hm'' & Hle'). exists m''. split; [done|lia].
  - intros k s Hs. destruct (Hk1 _ _ Hs) as [[s' Hs'] Hsame]. split; [by eapply Hk2|].
    intros g Hlt [x Hg]. eapply Hk2; [by eapply Hsame; [|eexists]|done|]. by eapply Hk1.
  - intros k Hk Hn g [x Hg]. destruct (pt_snapshots t2 !! k) as [s|] eqn:Hs.
    + eapply Hn1; [by eexists|done|by eexists].
    + eapply Hn2; [done|done|]. by eapply Hk1.
Qed.

(** One report: at most the endpoint it names changes, and not one that is
    another site's in force. *)
Lemma report_call_spec site t t' :
  projections_keyed t → report_call site t t' →
  t' = t ∨ ∃ e, touches e t t' ∧ ∀ m, pt_endpoints t !! e = Some m → ¬ foreign_to site m t.
Proof.
  assert (∀ m u, em_site_id m = Some site → ¬ foreign_to site m u) as Hown by (by intros m u Hs [Hne _]).
  intros Hk Hcall. revert Hk.
  destruct Hcall as [? ? [env ids p now w w' r Hrun|env ids p now w w' r Hrun]|env e w w' r Hrun|env e odata w w' r Hrun];
    intros Hk.
  - apply upsert_endpoint_spec in Hrun. destruct r as [[|]|]; [|by left..]. right. naive_solver.
  - apply upsert_resource_spec in Hrun; [|done]. destruct r as [[|]|]; [|by left..]. right.
    destruct Hrun as (Ht & _ & _ & m & Hm & Hs). exists (rw_endpoint_id p). split; [done|].
    intros m' Hm'. simplify_eq. auto.
  - apply delete_endpoint_spec in Hrun. destruct r as [[|]|]; [|by left..]. right. naive_solver.
  - apply delete_resource_spec in Hrun. destruct r as [[|]|]; [|by left..].
    destruct Hrun as (Ht & [[Hsame _]|(_ & m & Hm & Hs)]); [by left|]. right. exists e. split; [done|].
    intros m' Hm'. simplify_eq. auto.
Qed.

(** Whatever other sites report or withdraw, in any order and with any failures,
    the endpoints of a site in force keep everything stored of them: row,
    address, trust, resources and snapshots. *)
Theorem foreign_reports_inert owner e m t t' :
  projections_keyed t → pt_endpoints t !! e = Some m → em_site_id m = Some owner → ¬ site_revoked t owner →
  rtc (λ t t', ∃ site, site ≠ owner ∧ report_call site t t') t t' →
  projected e t' = projected e t.
Proof.
  intros Hk Hm Hs Hrev Hrun. induction Hrun as [|t t1 t' (site & Hne & Hcall) _ IH]; [done|].
  apply report_call_spec in Hcall as [->|(e1 & (Hreg & Hk1 & Hsame) & Hmine)]; [auto| |done].
  assert (e ≠ e1) as He.
  { intros ->. apply (Hmine _ Hm). split; [congruence|]. intros o Ho. congruence. }
  pose proof (Hsame _ He) as Hp.
  rewrite IH; [done|auto| |].
  - apply (f_equal pd_row) in Hp. simpl in Hp. congruence.
  - unfold site_revoked in *. by rewrite Hreg.
Qed.

(** C27: However sites refresh their projections, no endpoint falls back to an older
    cut, no resource and no snapshot is lost, a snapshot below the newest is never
    rewritten, and a new one is newer than all of its resource. *)
Theorem reports_go_forward t t' :
  projections_keyed t → rtc (λ t t', ∃ site, refresh_call site t t') t t' → forward t t'.
Proof.
  intros Hk Hrun. induction Hrun as [t|t t1 t' (site & Hcall) _ IH]; [apply forward_refl|].
  assert (forward t t1 ∧ projections_keyed t1) as [Hf Hk1]; [|by eapply forward_trans; [|apply IH]].
  revert Hk. destruct Hcall as [env ids p now w w' r Hrun|env ids p now w w' r Hrun]; intros Hk.
  - apply upsert_endpoint_spec in Hrun. destruct r as [[|]|]; [|by rewrite Hrun; split; [apply forward_refl|]..].
    destruct Hrun as ((_ & Hk1 & _) & Hf & _). auto.
  - apply upsert_resource_spec in Hrun; [|done].
    destruct r as [[|]|]; [|by rewrite Hrun; split; [apply forward_refl|]..].
    destruct Hrun as ((_ & Hk1 & _) & Hf & _). auto.
Qed.

(** ** The reads *)

Definition projections_view (t : ProjectionTables) : Projections :=
  mk_projections (em_site_id <$> pt_endpoints t)
    (list_to_set ((λ kv, (rm_endpoint_id kv.2, rm_odata_id kv.2)) <$> map_to_list (pt_resources t))).

Lemma resource_at_known e odata t :
  isSome (resource_at e odata t) = bool_decide ((e, odata) ∈ pj_resources (projections_view t)).
Proof.
  apply eq_bool_prop_intro. rewrite bool_decide_spec. simpl. rewrite elem_of_list_to_set, list_elem_of_fmap.
  destruct (resource_at e odata t) as [m|] eqn:Hm; simpl.
  - apply find_row_Some in Hm as ([<- <-] & id & Hm). split; [|done]. intros _. exists (id, m).
    split; [done|]. by apply elem_of_map_to_list.
  - apply find_row_None in Hm. split; [done|]. intros ([id m] & [= -> ->] & Hin%elem_of_map_to_list).
    by destruct (Hm id m).
Qed.

#[export] Instance sqlite_projections_laws env :
  @ProjectionReadsLaws (World ProjectionTables) CenterProjectionRepositoryError (sqlite_projections env).
Proof.
  refine {| projections w := projections_view (w_db w); projections_ok _ := True |}.
  - intros endpoint s s' r _ Hrun. apply lookup_inv in Hrun as [Hdb Hr]; [|by intros ???? [= <- _]].
    split; [done|]. rewrite Hdb. split; [done|]. intros x ->. destruct (Hr _ eq_refl) as [w1 [= <-]].
    simpl. rewrite lookup_fmap. by destruct (pt_endpoints _ !! _).
  - intros endpoint target s s' r _ Hrun. apply lookup_inv in Hrun as [Hdb Hr]; [|by intros ???? [= <- _]].
    split; [done|]. rewrite Hdb. split; [done|]. intros x ->. destruct (Hr _ eq_refl) as [w1 [= <-]].
    apply resource_at_known.
Defined.
