(* ===== verification/CenterIntake.v ===== *)
(** * CenterIntake: the consumer of a site's reports

    Models [application/src/center/projection.rs]: the content frames a site
    delivers at least once, gated by the cursor of their stream, decoded, checked
    against the reporting site and written to the projections, the events, the
    artifact rows and the artifact files.  Generic in the store and the cursor as
    the code is; the file system, the fresh identities, SHA-256 and the [time]
    crate's conversion are parameters. *)
From S2P Require Import Prelude Text Operation CenterDomain ResourceSnapshot LinkMessages Database EventRepository SyncCursors Artifact ArtifactRepository ArtifactStore CenterStores ProjectionRepository CenterSession.
Local Open Scope Z_scope.

Definition CENTER_ABSORBED_EVENT_MESSAGE_ID : str := lit "Center.1.0.EventAbsorbed".
Definition CENTER_ARTIFACT_CHUNK_SIZE : Z := 1024 * 1024.

(** ** The boundary *)

(** [CenterProjectionRepository]; the reads the services share are in
    [CenterStores.ProjectionReads], the identities a write draws its argument. *)
Class CenterProjectionRepository (St E : Type) := {
  cpr_upsert_endpoint : ProjectionIds → EndpointProjectionWrite → InstanceId → OffsetDateTime → M St E ProjectionWriteOutcome;
  cpr_delete_endpoint : EndpointId → InstanceId → M St E ProjectionWriteOutcome;
  cpr_upsert_resource : ProjectionIds → ResourceProjectionWrite → InstanceId → OffsetDateTime → M St E ProjectionWriteOutcome;
  cpr_delete_resource : EndpointId → str → InstanceId → M St E ProjectionWriteOutcome;
  cpr_upsert_events : list Event → InstanceId → M St E ();
  cpr_declare_artifact : Artifact → InstanceId → M St E ();
  cpr_find_artifact_site : ArtifactId → M St E (option InstanceId);
  cpr_find_endpoint_projections : list EndpointId → M St E (gmap EndpointId CenterEndpointProjection);
}.

(** ** The wire enumerations

    The numbers of [center.proto]. *)
Definition TlsTrust_try_from (value : Z) : option WireTlsTrust :=
  match value with
  | 0 => Some TrustUnspecified | 1 => Some LinkMessages.TrustSystemCa
  | 2 => Some LinkMessages.TrustPinnedCertificate | _ => None
  end.
Inductive ResourceDeltaOp := OpUnspecified | OpUpsert | OpDelete.
Definition ResourceDeltaOp_try_from (value : Z) : option ResourceDeltaOp :=
  match value with 0 => Some OpUnspecified | 1 => Some OpUpsert | 2 => Some OpDelete | _ => None end.
(** The unspecified severity, [0], is none of the domain's. *)
Definition wire_severity (value : Z) : option EventSeverity :=
  match value with 1 => Some SeverityOk | 2 => Some SeverityWarning | 3 => Some SeverityCritical | _ => None end.

(** ** Decoding *)

Inductive DecodedDelta :=
| DeleteEndpoint (endpoint_id : EndpointId)
| DeleteResource (endpoint_id : EndpointId) (odata_id : str)
| UpsertResource (projection : ResourceProjectionWrite).

(** [(!text.is_empty()).then(..)]. *)
Definition non_empty (text : str) : option str := if decide (text = []) then None else Some text.

Section decoding.
Context `{UuidText} `{TimestampText} (from_unix_timestamp : Z → option OffsetDateTime).

Definition decode_endpoint (snapshot : EndpointSnapshot) : result EndpointProjectionWrite str :=
  let? endpoint_id := ok_or (parse_uuid (es_endpoint_id snapshot)) (lit "unparseable endpoint id") in
  let? trust_mode :=
    match TlsTrust_try_from (es_trust snapshot) with
    | Some LinkMessages.TrustSystemCa => Ok TrustSystemCa
    | Some LinkMessages.TrustPinnedCertificate => Ok TrustPinnedCertificate
    | _ => Err (lit "unspecified or unknown trust mode")
    end in
  Ok (mk_endpoint_write endpoint_id (es_display_name snapshot) (es_address snapshot) trust_mode
        (es_refresh_generation snapshot) (es_health snapshot)).

Definition decode_resource (endpoint_id : EndpointId) (resource : ResourceSummary) (delta : ResourceDelta)
    : result ResourceProjectionWrite str :=
  let? feature := map_err (λ _, lit "unknown resource feature code")
                    (ResourceFeature_from_str (rs_feature resource)) in
  let? payload := ok_or (from_utf8 (rd_payload_json delta)) (lit "resource payload is not valid UTF-8") in
  let? observed_at := ok_or (from_unix_timestamp (rd_observed_at_unix delta))
                        (lit "unparseable observation timestamp") in
  Ok (mk_resource_write endpoint_id (rs_odata_id resource) feature (non_empty (rs_odata_type resource))
        (non_empty (rs_etag resource)) (rs_generation resource) (Some payload) observed_at).

Definition decode_delta (delta : ResourceDelta) : result DecodedDelta str :=
  let? endpoint_id := ok_or (parse_uuid (rd_endpoint_id delta)) (lit "unparseable endpoint id") in
  match ResourceDeltaOp_try_from (rd_op delta), rd_resource delta with
  | Some OpDelete, None => Ok (DeleteEndpoint endpoint_id)
  | Some OpDelete, Some resource => Ok (DeleteResource endpoint_id (rs_odata_id resource))
  | Some OpUpsert, Some resource =>
      let? projection := decode_resource endpoint_id resource delta in Ok (UpsertResource projection)
  | Some OpUpsert, None => Err (lit "an upsert delta must carry its resource")
  | Some OpUnspecified, _ => Err (lit "unspecified delta operation")
  | None, _ => Err (lit "unknown delta operation code")
  end.

Definition decode_event (record : EventRecord) (now : OffsetDateTime) : result Event str :=
  let? id := ok_or (parse_uuid (er_event_id record)) (lit "unparseable event id") in
  let? endpoint_id := ok_or (parse_uuid (er_endpoint_id record)) (lit "unparseable endpoint id") in
  let? message_id := map_err (λ _, lit "unusable message id") (MessageId_parse (er_message_id record)) in
  if starts_with (lit "Center.") message_id then Err (lit "reserved message id namespace")
  else
    let? severity := ok_or (wire_severity (er_severity record)) (lit "unspecified or unknown severity") in
    let? event_timestamp := ok_or (from_unix_timestamp (er_occurred_at_unix record))
                              (lit "unparseable occurrence timestamp") in
    map_err (λ _, lit "event timestamp is after the receive time")
      (build_event id endpoint_id message_id severity None event_timestamp now).

Definition absorption_dead_letter (id : EventId) (e : Event) (site : InstanceId) (reason : str) : result Event str :=
  let? message_id := map_err (λ _, lit "the reserved absorption message id is not usable")
                       (MessageId_parse CENTER_ABSORBED_EVENT_MESSAGE_ID) in
  map_err (λ _, lit "the absorption dead-letter row cannot be built")
    (build_event id (ev_endpoint_id e) message_id SeverityWarning
       (Some (lit "event absorbed: endpoint " ++ show_uuid (ev_endpoint_id e) ++ lit ", message id " ++
              ev_message_id e ++ lit ", reported by site " ++ show_uuid site ++ lit ": " ++ reason))
       (ev_event_timestamp e) (ev_observed_at e)).

Definition decode_manifest (manifest : WireArtifactManifest) (now : OffsetDateTime) : result Artifact str :=
  let? artifact_id := ok_or (parse_uuid (LinkMessages.am_artifact_id manifest)) (lit "unparseable artifact id") in
  if decide (am_total_bytes manifest = 0) then Err (lit "a zero-byte artifact cannot be transferred")
  else if ARTIFACT_MAX_SIZE_BYTES <? am_total_bytes manifest
  then Err (lit "the artifact exceeds the 2 GiB declared-size cap")
  else
    let? name := map_err (λ _, lit "unusable artifact name") (ArtifactName_parse (LinkMessages.am_name manifest)) in
    let? sha256 := if decide (length (LinkMessages.am_sha256 manifest) = SHA256_DIGEST_LENGTH)
                   then Ok (Sha256Hex_from_bytes (LinkMessages.am_sha256 manifest))
                   else Err (lit "the digest is not 32 bytes") in
    Ok (Artifact_new artifact_id name (am_total_bytes manifest) sha256 now).
End decoding.

(** ** The consumer *)

Inductive CenterProjectionError (Epr Ear Ecu : Type) :=
| ProjectionFailed (source : Epr)
| ArtifactRowFailed (source : Ear)
| ArtifactFile (artifact_id : ArtifactId)
| CursorFailed (source : Ecu).
Arguments ProjectionFailed {Epr Ear Ecu}.
Arguments ArtifactRowFailed {Epr Ear Ecu}.
Arguments ArtifactFile {Epr Ear Ecu}.
Arguments CursorFailed {Epr Ear Ecu}.

(** The answers of the file system, by the number of calls made so far. *)
Record FileEnv := mk_file_env {
  fe_open_fails : nat → bool;
  fe_write : nat → WriteOutcome;
  fe_read_fails : nat → bool;
}.

(** The store, the cursors, the artifact files, the open one, the number of file
    calls. *)
Record Intake (St Sc : Type) := mk_intake {
  ik_store : St;
  ik_cursors : Sc;
  ik_files : gmap ArtifactId (list N);
  ik_handle : option ArtifactId;
  ik_io : nat;
}.
Arguments mk_intake {St Sc}.
Arguments ik_store {St Sc}.
Arguments ik_cursors {St Sc}.
Arguments ik_files {St Sc}.
Arguments ik_handle {St Sc}.
Arguments ik_io {St Sc}.

(** What one frame may draw. *)
Record IntakeIds := mk_intake_ids {
  ii_projection : ProjectionIds;
  ii_dead_letter : nat → EventId;
  ii_cursor : Uuid;
}.

Section consumer.
Context {St Sc Epr Ear Ecu : Type} `{CenterProjectionRepository St Epr} `{ArtifactRepository St Ear}.
Context `{CenterCursor Sc Ecu} `{UuidText} `{TimestampText}.
Context (from_unix_timestamp : Z → option OffsetDateTime) (sha256 : list N → list N).
Context (io : FileEnv) (ids : IntakeIds).
Abbreviation Op := (M (Intake St Sc) (CenterProjectionError Epr Ear Ecu)).
Implicit Types (s : Intake St Sc).

Definition put_store s x : Intake St Sc := mk_intake x (ik_cursors s) (ik_files s) (ik_handle s) (ik_io s).
Definition put_cursors s x : Intake St Sc := mk_intake (ik_store s) x (ik_files s) (ik_handle s) (ik_io s).
Definition at_files s files handle : Intake St Sc :=
  mk_intake (ik_store s) (ik_cursors s) files handle (S (ik_io s)).

Definition at_store {A} (m : M St Epr A) : Op A := zoom ik_store put_store ProjectionFailed m.
Definition at_artifacts {A} (m : M St Ear A) : Op A := zoom ik_store put_store ArtifactRowFailed m.
Definition at_cursor {A} (m : M Sc Ecu A) : Op A := zoom ik_cursors put_cursors CursorFailed m.

(** *** The cursor *)

(** A stored value that is no number is logged and passes. *)
Definition passes_cursor (site : InstanceId) (stream : SyncStream) (sequence : Z) : Op bool :=
  let! cursor := at_cursor (cursor_get site stream) in
  mret (match cursor with
        | None => true
        | Some cursor =>
            match parse_u64 (sc_cursor_value cursor) with
            | None => true
            | Some processed => Z.of_N processed <? sequence
            end
        end).

Definition advance_cursor (site : InstanceId) (stream : SyncStream) (sequence : Z) (now : OffsetDateTime) : Op () :=
  at_cursor (cursor_set (mk_sync_cursor (ii_cursor ids) site stream (decimal (Z.to_N sequence)) now)).

(** [absorb_frame] and [settle_outcome] log, and advance. *)
Definition absorb_frame (site : InstanceId) (sequence : Z) (stream : SyncStream) (now : OffsetDateTime)
    (reason : str) : Op () := advance_cursor site stream sequence now.
Definition settle_outcome (outcome : ProjectionWriteOutcome) (site : InstanceId) (sequence : Z)
    (stream : SyncStream) (now : OffsetDateTime) : Op () := advance_cursor site stream sequence now.

(** *** Projections *)

Definition consume_endpoint (site : ResolvedSite) (sequence : Z) (snapshot : EndpointSnapshot)
    (now : OffsetDateTime) : Op () :=
  let site := rs_instance_id site in
  let! passes := passes_cursor site StreamEndpoint sequence in
  if negb passes then mret ()
  else match decode_endpoint snapshot with
  | Err reason => absorb_frame site sequence StreamEndpoint now reason
  | Ok projection =>
      let! outcome := at_store (cpr_upsert_endpoint (ii_projection ids) projection site now) in
      settle_outcome outcome site sequence StreamEndpoint now
  end.

Definition consume_resource_delta (site : ResolvedSite) (sequence : Z) (delta : ResourceDelta)
    (now : OffsetDateTime) : Op () :=
  let site := rs_instance_id site in
  let! passes := passes_cursor site StreamEndpoint sequence in
  if negb passes then mret ()
  else match decode_delta from_unix_timestamp delta with
  | Err reason => absorb_frame site sequence StreamEndpoint now reason
  | Ok decoded =>
      let! outcome :=
        match decoded with
        | DeleteEndpoint endpoint_id => at_store (cpr_delete_endpoint endpoint_id site)
        | DeleteResource endpoint_id odata_id => at_store (cpr_delete_resource endpoint_id odata_id site)
        | UpsertResource projection => at_store (cpr_upsert_resource (ii_projection ids) projection site now)
        end in
      settle_outcome outcome site sequence StreamEndpoint now
  end.

(** *** Events *)

(** The records of a batch that decode. *)
Definition decode_events (batch : list EventRecord) (now : OffsetDateTime) : list Event :=
  omap (λ record, match decode_event from_unix_timestamp record now with Ok e => Some e | Err _ => None end) batch.

(** One decoded record against the owner of its endpoint: itself, or its dead
    letter; [None] when there is no dead letter to be had. *)
Definition settle_record (site : InstanceId) (projections : gmap EndpointId CenterEndpointProjection)
    (id : EventId) (e : Event) : option Event :=
  let dead reason := match absorption_dead_letter id e site reason with Ok d => Some d | Err _ => None end in
  match projections !! ev_endpoint_id e with
  | Some projection =>
      if decide (cp_site_id projection = Some site) then Some e
      else dead (lit "the endpoint belongs to another site")
  | None => dead (lit "the endpoint is not projected")
  end.

(** The loop over the decoded records; [i] counts them. *)
Fixpoint settle_records (site : InstanceId) (projections : gmap EndpointId CenterEndpointProjection)
    (i : nat) (events : list Event) : list Event :=
  match events with
  | [] => []
  | e :: events =>
      match settle_record site projections (ii_dead_letter ids i) e with
      | Some record => record :: settle_records site projections (S i) events
      | None => settle_records site projections (S i) events
      end
  end.

Definition consume_event_batch (site : ResolvedSite) (sequence : Z) (batch : list EventRecord)
    (now : OffsetDateTime) : Op () :=
  let site := rs_instance_id site in
  let! passes := passes_cursor site StreamEvent sequence in
  if negb passes then mret ()
  else
    let events := decode_events batch now in
    let! projections := at_store (cpr_find_endpoint_projections (remove_dups (ev_endpoint_id <$> events))) in
    let records := settle_records site projections 0 events in
    do! (if decide (records = []) then mret () else at_store (cpr_upsert_events records site)) in
    advance_cursor site StreamEvent sequence now.

(** *** Artifacts *)

Definition consume_artifact_manifest (site : ResolvedSite) (sequence : Z) (manifest : WireArtifactManifest)
    (now : OffsetDateTime) : Op () :=
  let site := rs_instance_id site in
  let! passes := passes_cursor site StreamArtifact sequence in
  if negb passes then mret ()
  else match decode_manifest manifest now with
  | Err reason => absorb_frame site sequence StreamArtifact now reason
  | Ok artifact =>
      do! at_store (cpr_declare_artifact artifact site) in
      advance_cursor site StreamArtifact sequence now
  end.

(** Seek to [offset] and write all of [data]; nothing written leaves the file as
    it is. *)
Definition write_bytes (offset : Z) (data f : list N) : list N :=
  match data with [] => f | _ => write_at (Z.to_nat offset) data f end.

(** [seek] and [write_all] through the open handle. *)
Definition write_open (artifact_id : ArtifactId) (offset : Z) (data : list N) : Op () :=
  λ s,
    let f := file_of (ik_files s) artifact_id in
    let after d := at_files s (<[artifact_id := write_bytes offset d f]> (ik_files s)) (ik_handle s) in
    match fe_write io (ik_io s) with
    | WriteDone => (after data, Ok ())
    | WriteRefused => (at_files s (ik_files s) (ik_handle s), Err (ArtifactFile artifact_id))
    | WriteTorn written => (after (take written data), Err (ArtifactFile artifact_id))
    end.

(** The slot of the open handle: another artifact's is dropped, and [open] creates
    the file. *)
Definition open_artifact_file (artifact_id : ArtifactId) : Op () :=
  λ s,
    if decide (ik_handle s = Some artifact_id) then (s, Ok ())
    else if fe_open_fails io (ik_io s)
    then (at_files s (ik_files s) None, Err (ArtifactFile artifact_id))
    else (at_files s (<[artifact_id := file_of (ik_files s) artifact_id]> (ik_files s)) (Some artifact_id), Ok ()).

Definition write_chunk_at (artifact_id : ArtifactId) (offset : Z) (data : list N) : Op () :=
  do! open_artifact_file artifact_id in write_open artifact_id offset data.

Definition hash_artifact_file (artifact_id : ArtifactId) : Op (list N) :=
  λ s,
    let s' := at_files s (ik_files s) (ik_handle s) in
    match ik_files s !! artifact_id with
    | Some f => if fe_read_fails io (ik_io s) then (s', Err (ArtifactFile artifact_id)) else (s', Ok (sha256 f))
    | None => (s', Err (ArtifactFile artifact_id))
    end.

Definition finalize_artifact (artifact_id : ArtifactId) (size_bytes : Z) (now : OffsetDateTime) : Op () :=
  let! digest := hash_artifact_file artifact_id in
  let! found := at_artifacts (ar_find_artifact artifact_id) in
  let! artifact := mlift (ok_or found (ArtifactFile artifact_id)) in
  let state := if decide (digest = Sha256Hex_into_bytes (a_sha256 artifact)) then Ready else ArtifactFailed in
  at_artifacts (ar_update_artifact artifact_id size_bytes state now).

(** What a chunk is to the transfer it belongs to. *)
Inductive ChunkFate :=
| ChunkAbsorbed (reason : str)
| ChunkCovered
| ChunkContinues (offset end_ : Z).

Definition chunk_fate (artifact : Artifact) (chunk : WireArtifactChunk) : ChunkFate :=
  if artifact_terminal (a_state artifact) then ChunkAbsorbed (lit "a chunk arrived for a finished artifact")
  else if decide (ac_data chunk = []) then ChunkCovered
  else
    let received := Z.of_nat (length (ac_data chunk)) in
    let offset := ac_index chunk * CENTER_ARTIFACT_CHUNK_SIZE in
    match checked_add_u64 offset received with
    | None => ChunkAbsorbed (lit "the chunk would overflow the progress")
    | Some end_ =>
        if a_size_bytes artifact <? end_ then ChunkAbsorbed (lit "the chunk would exceed the declared size")
        else
          let uploaded := a_uploaded_bytes artifact in
          if end_ <=? uploaded then ChunkCovered
          else if decide (offset ≠ uploaded)
          then ChunkAbsorbed (lit "the chunk is out of order or straddles the persisted progress")
          else ChunkContinues offset end_
    end.

Definition consume_artifact_chunk (site : ResolvedSite) (sequence : Z) (chunk : WireArtifactChunk)
    (now : OffsetDateTime) : Op () :=
  let site := rs_instance_id site in
  let! passes := passes_cursor site StreamArtifact sequence in
  if negb passes then mret ()
  else match parse_uuid (ac_artifact_id chunk) with
  | None => absorb_frame site sequence StreamArtifact now (lit "unparseable artifact id")
  | Some artifact_id =>
      let! found := at_artifacts (ar_find_artifact artifact_id) in
      match found with
      | None => absorb_frame site sequence StreamArtifact now (lit "a chunk arrived before its manifest")
      | Some artifact =>
          let! owner := at_store (cpr_find_artifact_site artifact_id) in
          if decide (owner ≠ Some site)
          then absorb_frame site sequence StreamArtifact now (lit "the artifact belongs to another site")
          else match chunk_fate artifact chunk with
          | ChunkAbsorbed reason => absorb_frame site sequence StreamArtifact now reason
          | ChunkCovered => advance_cursor site StreamArtifact sequence now
          | ChunkContinues offset end_ =>
              do! write_chunk_at artifact_id offset (ac_data chunk) in
              do! (if end_ <? a_size_bytes artifact
                   then at_artifacts (ar_update_artifact artifact_id end_ Uploading now)
                   else finalize_artifact artifact_id end_ now) in
              advance_cursor site StreamArtifact sequence now
          end
      end
  end.

(** [on_frame]: what is not content is left alone. *)
Definition intake_frame (site : ResolvedSite) (sequence : Z) (message : EnvelopeMessage)
    (now : OffsetDateTime) : Op () :=
  match message with
  | MsgContent (MsgEndpointSnapshot snapshot) => consume_endpoint site sequence snapshot now
  | MsgContent (MsgResourceDelta delta) => consume_resource_delta site sequence delta now
  | MsgContent (MsgEventBatch batch) => consume_event_batch site sequence batch now
  | MsgContent (MsgArtifactManifest manifest) => consume_artifact_manifest site sequence manifest now
  | MsgContent (MsgArtifactChunk chunk) => consume_artifact_chunk site sequence chunk now
  | _ => mret ()
  end.
End consumer.
