(* ===== verification/IntakeContract.v ===== *)
(** * IntakeContract: what the consumer of reports expects of its store

    The effects of the calls of [CenterIntake.CenterProjectionRepository] and of
    [ArtifactRepository] on what the center holds, and what each call of the
    consumer does to the whole of its state. *)
From S2P Require Import Prelude Text Operation CenterDomain ResourceSnapshot LinkMessages Database EventRepository SyncCursors Artifact ArtifactRepository ArtifactStore CenterStores ProjectionRepository ProjectionSafety CenterSession CenterIntake.
Local Open Scope Z_scope.

(** The projections as [ProjectionRepository] describes them, the events and the
    artifacts with the site that reported each. *)
Record ContentView := mk_content_view {
  nv_projections : ProjectionTables;
  nv_events : gmap EventId (Event * option InstanceId);
  nv_artifacts : gmap ArtifactId (Artifact * option InstanceId);
}.
Definition with_projections (v : ContentView) x : ContentView := mk_content_view x (nv_events v) (nv_artifacts v).
Definition with_events (v : ContentView) x : ContentView := mk_content_view (nv_projections v) x (nv_artifacts v).
Definition with_artifacts (v : ContentView) x : ContentView := mk_content_view (nv_projections v) (nv_events v) x.

(** ** The effects on the projections *)

Definition not_foreign (site : InstanceId) (e : EndpointId) (t : ProjectionTables) : Prop :=
  ∀ m, pt_endpoints t !! e = Some m → ¬ foreign_to site m t.

Definition endpoint_upserted (p : EndpointProjectionWrite) (site : InstanceId) (t t' : ProjectionTables) : Prop :=
  touches (ew_endpoint_id p) t t' ∧ forward t t' ∧ endpoint_reported p site t' ∧ not_foreign site (ew_endpoint_id p) t.
Definition endpoint_withdrawn (e : EndpointId) (site : InstanceId) (t t' : ProjectionTables) : Prop :=
  touches e t t' ∧ pt_endpoints t' !! e = None ∧ not_foreign site e t.
Definition resource_upserted (p : ResourceProjectionWrite) (site : InstanceId) (t t' : ProjectionTables) : Prop :=
  touches (rw_endpoint_id p) t t' ∧ forward t t' ∧ resource_reported p t' ∧
  ∃ m, pt_endpoints t !! rw_endpoint_id p = Some m ∧ em_site_id m = Some site.
Definition resource_withdrawn (e : EndpointId) (odata : str) (site : InstanceId) (t t' : ProjectionTables) : Prop :=
  touches e t t' ∧
  ((t' = t ∧ pt_endpoints t !! e = None) ∨
   (resource_at e odata t' = None ∧ ∃ m, pt_endpoints t !! e = Some m ∧ em_site_id m = Some site)).

Definition owner_of (t : ProjectionTables) (e : EndpointId) : option CenterEndpointProjection :=
  (λ m, mk_center_endpoint_projection e (em_site_id m)) <$> pt_endpoints t !! e.

(** A projection call: an applied write has its effect, an ignored one and a
    failure have none. *)
Definition projects {St E} (view : St → ContentView) (ok : St → Prop) (P : ProjectionTables → ProjectionTables → Prop)
    (s s' : St) (r : result ProjectionWriteOutcome E) : Prop :=
  ok s' ∧ match r with
  | Ok Applied => ∃ t', P (nv_projections (view s)) t' ∧ view s' = with_projections (view s) t'
  | _ => view s' = view s
  end.

Class ContentStoreLaws (St Epr Ear : Type) `{CenterProjectionRepository St Epr} `{ArtifactRepository St Ear}
    `{TimestampText} := {
  content : St → ContentView;
  content_ok : St → Prop;
  content_keyed s : content_ok s → projections_keyed (nv_projections (content s));
  content_events s id e o : content_ok s → nv_events (content s) !! id = Some (e, o) → event_ok e ∧ ev_id e = id;
  law_upsert_endpoint ids p site now s s' r :
    content_ok s → cpr_upsert_endpoint ids p site now s = (s', r) →
    projects content content_ok (endpoint_upserted p site) s s' r;
  law_delete_endpoint e site s s' r :
    content_ok s → cpr_delete_endpoint e site s = (s', r) →
    projects content content_ok (endpoint_withdrawn e site) s s' r;
  law_upsert_resource ids p site now s s' r :
    content_ok s → cpr_upsert_resource ids p site now s = (s', r) →
    projects content content_ok (resource_upserted p site) s s' r;
  law_delete_resource e odata site s s' r :
    content_ok s → cpr_delete_resource e odata site s = (s', r) →
    projects content content_ok (resource_withdrawn e odata site) s s' r;
  law_upsert_events events site s s' r :
    content_ok s → Forall event_ok events → cpr_upsert_events events site s = (s', r) →
    writes content content_ok (λ v v', ∃ es, append_events (Some site) (nv_events v) events = Some es ∧
      v' = with_events v es) s s' r;
  law_find_projections endpoints s s' r :
    content_ok s → cpr_find_endpoint_projections endpoints s = (s', r) →
    reads content content_ok (λ v m, ∀ e, e ∈ endpoints → m !! e = owner_of (nv_projections v) e) s s' r;
  law_declare_artifact a site s s' r :
    content_ok s → declarable a → cpr_declare_artifact a site s = (s', r) →
    writes content content_ok (λ v v', v' =
      match nv_artifacts v !! a_id a with
      | Some _ => v
      | None => with_artifacts v (<[a_id a := (a, Some site)]> (nv_artifacts v))
      end) s s' r;
  law_find_artifact_site id s s' r :
    content_ok s → cpr_find_artifact_site id s = (s', r) →
    reads content content_ok (λ v x, x = nv_artifacts v !! id ≫= snd) s s' r;
  law_find_artifact id s s' r :
    content_ok s → ar_find_artifact id s = (s', r) →
    reads content content_ok (λ v x, x = fst <$> nv_artifacts v !! id) s s' r;
  law_update_artifact id uploaded st at_ s s' r :
    content_ok s → 0 <= uploaded → ar_update_artifact id uploaded st at_ s = (s', r) →
    writes content content_ok (λ v v', ∃ a owner, nv_artifacts v !! id = Some (a, owner) ∧
      update_allowed a uploaded st ∧
      v' = with_artifacts v (<[id := (artifact_updated a uploaded st at_, owner)]> (nv_artifacts v))) s s' r;
}.

(** ** The calls of the consumer *)

(** What the consumer keeps. *)
Record IntakeView := mk_intake_view {
  iv_content : ContentView;
  iv_cursors : Cursors;
  iv_files : gmap ArtifactId (list N);
}.

Section calls.
Context {St Sc Epr Ear Ecu : Type} `{ContentStoreLaws St Epr Ear} `{CenterCursorLaws Sc Ecu} `{UuidText}.
Abbreviation Op := (M (Intake St Sc) (CenterProjectionError Epr Ear Ecu)).
Implicit Types (s : Intake St Sc).

Definition intake_view s : IntakeView :=
  mk_intake_view (content (ik_store s)) (cursors (ik_cursors s)) (ik_files s).
Definition intake_ok s : Prop := content_ok (ik_store s) ∧ cursors_ok (ik_cursors s).

Definition with_content (v : IntakeView) c : IntakeView := mk_intake_view c (iv_cursors v) (iv_files v).
Definition with_cursors (v : IntakeView) c : IntakeView := mk_intake_view (iv_content v) c (iv_files v).
Definition with_files (v : IntakeView) f : IntakeView := mk_intake_view (iv_content v) (iv_cursors v) f.

(** A call of the store, by its law. *)
Lemma store_reads {E A} (err : E → CenterProjectionError Epr Ear Ecu) (m : M St E A) P s s' r :
  (∀ x x' r, content_ok x → m x = (x', r) → reads content content_ok P x x' r) →
  intake_ok s → zoom ik_store put_store err m s = (s', r) →
  intake_ok s' ∧ intake_view s' = intake_view s ∧ ∀ x, r = Ok x → P (iv_content (intake_view s)) x.
Proof.
  intros Hlaw [Ho Hc] Hrun. apply zoom_inv in Hrun as (t & r0 & Hrun & -> & ->).
  apply Hlaw in Hrun as (Ht & Hv & Hx); [|done]. split; [done|].
  split; [unfold intake_view; simpl; by rewrite Hv|]. intros x Hr. destruct r0; simplify_eq/=. by apply Hx.
Qed.

Lemma store_writes {E} (err : E → CenterProjectionError Epr Ear Ecu) (m : M St E ()) P s s' r :
  (∀ x x' r, content_ok x → m x = (x', r) → writes content content_ok P x x' r) →
  intake_ok s → zoom ik_store put_store err m s = (s', r) →
  intake_ok s' ∧
  match r with
  | Ok _ => ∃ c, P (iv_content (intake_view s)) c ∧ intake_view s' = with_content (intake_view s) c
  | Err _ => intake_view s' = intake_view s
  end.
Proof.
  intros Hlaw [Ho Hc] Hrun. apply zoom_inv in Hrun as (t & r0 & Hrun & -> & ->).
  apply Hlaw in Hrun as (Ht & Hv); [|done]. split; [done|].
  destruct r0; simpl; [by exists (content t)|]. unfold intake_view. simpl. by rewrite Hv.
Qed.

Lemma store_projects (err : Epr → CenterProjectionError Epr Ear Ecu) (m : M St Epr ProjectionWriteOutcome) P s s' r :
  (∀ x x' r, content_ok x → m x = (x', r) → projects content content_ok P x x' r) →
  intake_ok s → zoom ik_store put_store err m s = (s', r) →
  intake_ok s' ∧
  ((∃ t, r = Ok Applied ∧ P (nv_projections (iv_content (intake_view s))) t ∧
         intake_view s' = with_content (intake_view s) (with_projections (iv_content (intake_view s)) t)) ∨
   (r ≠ Ok Applied ∧ intake_view s' = intake_view s)).
Proof.
  intros Hlaw [Ho Hc] Hrun. apply zoom_inv in Hrun as (t & r0 & Hrun & -> & ->).
  apply Hlaw in Hrun as (Ht & Hv); [|done]. split; [done|].
  destruct r0 as [[|reason]|x]; simpl.
  - destruct Hv as (t' & HP & Hv). left. exists t'. split; [done|]. split; [done|].
    unfold intake_view, with_content. simpl. by rewrite Hv.
  - right. split; [done|]. unfold intake_view. simpl. by rewrite Hv.
  - right. split; [done|]. unfold intake_view. simpl. by rewrite Hv.
Qed.

Lemma cursor_reads site stream s s' r :
  intake_ok s → at_cursor (Epr := Epr) (Ear := Ear) (cursor_get site stream) s = (s', r) →
  intake_ok s' ∧ intake_view s' = intake_view s ∧
  ∀ x, r = Ok x → sc_cursor_value <$> x = iv_cursors (intake_view s) !! (site, stream).
Proof.
  intros [Ho Hc] Hrun. apply zoom_inv in Hrun as (t & r0 & Hrun & -> & ->).
  apply law_cursor_get in Hrun as (Ht & Hv & Hx); [|done]. split; [done|].
  split; [unfold intake_view; simpl; by rewrite Hv|]. intros x Hr. destruct r0; simplify_eq/=. by apply Hx.
Qed.

Lemma cursor_writes c s s' r :
  intake_ok s → at_cursor (Epr := Epr) (Ear := Ear) (cursor_set c) s = (s', r) →
  intake_ok s' ∧
  match r with
  | Ok _ => intake_view s' = with_cursors (intake_view s)
              (<[(sc_instance_id c, sc_stream c) := sc_cursor_value c]> (iv_cursors (intake_view s)))
  | Err _ => intake_view s' = intake_view s
  end.
Proof.
  intros [Ho Hc] Hrun. apply zoom_inv in Hrun as (t & r0 & Hrun & -> & ->).
  apply law_cursor_set in Hrun as (Ht & Hv); [|done]. split; [done|].
  destruct r0; simpl; unfold intake_view; simpl; by rewrite Hv.
Qed.
End calls.
