(* ===== verification/IntakeSpec.v ===== *)
(** * IntakeSpec: what one report frame does

    Each frame of [CenterIntake] against what the center keeps: skipped below the
    cursor of its stream, and otherwise one change of the projections, the events
    or one artifact, after which the cursor moves, and only then. *)
From S2P Require Import Prelude Text Operation CenterDomain ResourceSnapshot LinkMessages Database EventRepository SyncCursors Artifact ArtifactRepository ArtifactStore CenterStores ProjectionRepository ProjectionSafety CenterSession CenterIntake IntakeContract.
Local Open Scope Z_scope.

Definition stream_of (message : Content) : SyncStream :=
  match message with
  | MsgEndpointSnapshot _ | MsgResourceDelta _ => StreamEndpoint
  | MsgEventBatch _ => StreamEvent
  | MsgArtifactManifest _ | MsgArtifactChunk _ => StreamArtifact
  end.

(** What the types of the wire say: bytes, and unsigned integers. *)
Definition wire_ok (message : Content) : Prop :=
  match message with
  | MsgArtifactManifest m => 0 <= am_total_bytes m ∧ Forall (λ b, b < 256)%N (LinkMessages.am_sha256 m)
  | MsgArtifactChunk k => 0 <= ac_index k <= U32_MAX
  | _ => True
  end.

(** A sequence the cursor of its stream does not cover. *)
Definition passes (v : IntakeView) (site : InstanceId) (stream : SyncStream) (sequence : Z) : bool :=
  match iv_cursors v !! (site, stream) with
  | None => true
  | Some text => match parse_u64 text with None => true | Some processed => Z.of_N processed <? sequence end
  end.

(** ** The change of one frame *)

Abbreviation Files := (gmap ArtifactId (list N)).

(** The bytes of a chunk in its file. *)
Definition chunk_file (id : ArtifactId) (offset : Z) (data : list N) (f : Files) : Files :=
  <[id := write_bytes offset data (file_of f id)]> f.

Section change.
Context `{UuidText} `{TimestampText}.
Context (from_unix_timestamp : Z → option OffsetDateTime) (sha256 : list N → list N) (ids : IntakeIds).
Context (site : InstanceId) (now : OffsetDateTime).
Implicit Types (c : ContentView) (f : Files) (completed : bool).

(** The phase a row takes on when its progress reaches [end_]. *)
Definition chunk_state (a : Artifact) (id : ArtifactId) (end_ : Z) f : ArtifactState :=
  if end_ <? a_size_bytes a then Uploading
  else if decide (sha256 (file_of f id) = Sha256Hex_into_bytes (a_sha256 a)) then Ready else ArtifactFailed.

(** A chunk that continues its transfer: its bytes and the progress, or a part of
    its bytes and no progress. *)
Definition chunk_change (id : ArtifactId) (a : Artifact) (offset end_ : Z) (data : list N) c f c' f' completed : Prop :=
  (completed = false ∧ c' = c ∧ (f' = f ∨ ∃ k, f' = chunk_file id offset (take k data) f)) ∨
  (f' = chunk_file id offset data f ∧ update_allowed a end_ (chunk_state a id end_ f') ∧
   c' = with_artifacts c
     (<[id := (artifact_updated a end_ (chunk_state a id end_ f') now, Some site)]> (nv_artifacts c))).

(** [completed] says that nothing but the cursor was left to write. *)
Definition changes (message : Content) c f c' f' completed : Prop :=
  match message with
  | MsgEndpointSnapshot snapshot =>
      f' = f ∧ (c' = c ∨ ∃ p t, decode_endpoint snapshot = Ok p ∧
        endpoint_upserted p site (nv_projections c) t ∧ c' = with_projections c t)
  | MsgResourceDelta delta =>
      f' = f ∧ (c' = c ∨ ∃ d t, decode_delta from_unix_timestamp delta = Ok d ∧
        match d with
        | DeleteEndpoint e => endpoint_withdrawn e site (nv_projections c) t
        | DeleteResource e odata => resource_withdrawn e odata site (nv_projections c) t
        | UpsertResource p => resource_upserted p site (nv_projections c) t
        end ∧ c' = with_projections c t)
  | MsgEventBatch batch =>
      let events := decode_events from_unix_timestamp batch now in
      f' = f ∧ ((completed = false ∧ c' = c) ∨
        ∃ owners es,
          (∀ e, e ∈ events → owners !! ev_endpoint_id e = owner_of (nv_projections c) (ev_endpoint_id e)) ∧
          append_events (Some site) (nv_events c) (settle_records ids site owners 0 events) = Some es ∧
          c' = with_events c es)
  | MsgArtifactManifest manifest =>
      f' = f ∧ ((completed = false ∧ c' = c) ∨
        match decode_manifest manifest now with
        | Err _ => c' = c
        | Ok a => c' = match nv_artifacts c !! a_id a with
                       | Some _ => c
                       | None => with_artifacts c (<[a_id a := (a, Some site)]> (nv_artifacts c))
                       end
        end)
  | MsgArtifactChunk chunk =>
      (completed = false ∧ c' = c ∧ f' = f) ∨
      match id ← parse_uuid (ac_artifact_id chunk); pair id <$> nv_artifacts c !! id with
      | Some (id, (a, owner)) =>
          if decide (owner = Some site)
          then match chunk_fate a chunk with
               | ChunkContinues offset end_ => chunk_change id a offset end_ (ac_data chunk) c f c' f' completed
               | _ => c' = c ∧ f' = f
               end
          else c' = c ∧ f' = f
      | None => c' = c ∧ f' = f
      end
  end.
End change.

(** The change, and the cursor. *)
Definition consumed (site : InstanceId) (stream : SyncStream) (sequence : Z)
    (P : ContentView → Files → bool → Prop) {E} (v v' : IntakeView) (r : result () E) : Prop :=
  ∃ c f completed, P c f completed ∧
  match r with
  | Ok _ => completed = true ∧
      v' = mk_intake_view c (<[(site, stream) := decimal (Z.to_N sequence)]> (iv_cursors v)) f
  | Err _ => v' = mk_intake_view c (iv_cursors v) f
  end.

(** ** The frames *)

Section frames.
Context {St Sc Epr Ear Ecu : Type} `{ContentStoreLaws St Epr Ear} `{CenterCursorLaws Sc Ecu} `{UuidText}.
Context (from_unix_timestamp : Z → option OffsetDateTime) (sha256 : list N → list N).
Context (io : FileEnv) (ids : IntakeIds).
Abbreviation Op := (M (Intake St Sc) (CenterProjectionError Epr Ear Ecu)).
Implicit Types (s : Intake St Sc).

Lemma advance_spec site stream sequence now P v s s' r :
  intake_ok s → advance_cursor (Epr := Epr) (Ear := Ear) ids site stream sequence now s = (s', r) →
  iv_cursors (intake_view s) = iv_cursors v → P (iv_content (intake_view s)) (iv_files (intake_view s)) true →
  intake_ok s' ∧ consumed site stream sequence P v (intake_view s') r.
Proof.
  intros Hok Hrun Hc HP. apply cursor_writes in Hrun as [Hok' Hv]; [|done]. split; [done|].
  exists (iv_content (intake_view s)), (iv_files (intake_view s)), true. split; [done|].
  rewrite <- Hc. destruct r; [split; [done|]|]; by rewrite Hv.
Qed.

Lemma failed_spec site stream sequence (P : ContentView → Files → bool → Prop) v s (x : CenterProjectionError Epr Ear Ecu) :
  iv_cursors (intake_view s) = iv_cursors v → P (iv_content (intake_view s)) (iv_files (intake_view s)) false →
  consumed site stream sequence P v (intake_view s) (Err x).
Proof.
  intros Hc HP. exists (iv_content (intake_view s)), (iv_files (intake_view s)), false. by rewrite <- Hc.
Qed.

(** The gate in front of every frame. *)
Definition gated site stream sequence P v v' (r : result () (CenterProjectionError Epr Ear Ecu)) : Prop :=
  (v' = v ∧ (r = Ok () → passes v site stream sequence = false)) ∨
  (passes v site stream sequence = true ∧ consumed site stream sequence P v v' r).

Lemma gate_spec site stream sequence P (body : Op ()) s s' r :
  (∀ s1 s' r, intake_ok s1 → intake_view s1 = intake_view s → body s1 = (s', r) →
     intake_ok s' ∧ consumed site stream sequence P (intake_view s) (intake_view s') r) →
  intake_ok s →
  (let! passes := passes_cursor site stream sequence in if negb passes then mret () else body) s = (s', r) →
  intake_ok s' ∧ gated site stream sequence P (intake_view s) (intake_view s') r.
Proof.
  intros Hbody Hok [(b & s1 & Hp & Hrun)|(x & Hp & ->)]%mbind_inv.
  - apply mbind_ok in Hp as (cursor & s2 & Hg & Hp). injection Hp as <- Hp.
    apply cursor_reads in Hg as (Hok1 & Hv & Hc); [|done]. specialize (Hc _ eq_refl).
    assert (b = passes (intake_view s) site stream sequence) as ->.
    { unfold passes. rewrite <- Hc, <- Hp. by destruct cursor. }
    destruct (passes _ _ _ _) eqn:Hpass; simpl in Hrun.
    + apply Hbody in Hrun as [Hok' Hd]; [|done..]. split; [done|]. by right.
    + injection Hrun as <- <-. split; [done|]. by left.
  - apply mbind_inv in Hp as [(cursor & s2 & Hg & [=])|(y & Hg & [= ->])].
    apply cursor_reads in Hg as (Hok1 & Hv & _); [|done]. split; [done|]. by left.
Qed.

(** A projection write, and the cursor behind it. *)
Lemma projection_spec (m : M St Epr ProjectionWriteOutcome) P site stream sequence now Q v s s' r :
  (∀ x x' r, content_ok x → m x = (x', r) → projects content content_ok P x x' r) →
  (∀ c f completed, (∃ t, P (nv_projections (iv_content v)) t ∧ c = with_projections (iv_content v) t) ∨ c = iv_content v →
     f = iv_files v → Q c f completed) →
  intake_ok s → intake_view s = v →
  (let! outcome := at_store m in settle_outcome ids outcome site sequence stream now : Op ()) s = (s', r) →
  intake_ok s' ∧ consumed site stream sequence Q v (intake_view s') r.
Proof.
  intros Hlaw HQ Hok <- [(out & s1 & Hw & Hrun)|(x & Hw & ->)]%mbind_inv;
    (apply (store_projects _ _ P) in Hw as [Hok1 Hw]; [|exact Hlaw|exact Hok]).
  - eapply advance_spec; [exact Hok1|exact Hrun|by destruct Hw as [(t & _ & _ & ->)|[_ ->]]|].
    apply HQ; destruct Hw as [(t & _ & HP & ->)|[_ ->]]; eauto.
  - destruct Hw as [(t & [=] & _)|[_ Hw]]. split; [done|]. apply failed_spec; rewrite Hw; [done|]. apply HQ; auto.
Qed.

(** A frame that is absorbed. *)
Lemma absorbed_spec site stream sequence now reason (Q : ContentView → Files → bool → Prop) v s s' r :
  Q (iv_content v) (iv_files v) true → intake_ok s → intake_view s = v →
  absorb_frame (Epr := Epr) (Ear := Ear) ids site sequence stream now reason s = (s', r) →
  intake_ok s' ∧ consumed site stream sequence Q v (intake_view s') r.
Proof. intros HQ Hok <- Hrun. by eapply advance_spec; [exact Hok|exact Hrun|..]. Qed.

Lemma consume_endpoint_spec site sequence snapshot now s s' r :
  intake_ok s → consume_endpoint ids site sequence snapshot now s = (s', r) →
  intake_ok s' ∧ gated (rs_instance_id site) StreamEndpoint sequence
    (changes from_unix_timestamp sha256 ids (rs_instance_id site) now (MsgEndpointSnapshot snapshot)
       (iv_content (intake_view s)) (iv_files (intake_view s))) (intake_view s) (intake_view s') r.
Proof.
  intros Hok. apply gate_spec; [|done]. clear s' r. intros s1 s' r Hok1 Hv1 Hrun.
  destruct (decode_endpoint snapshot) as [p|reason] eqn:Hd.
  - eapply (projection_spec _ (endpoint_upserted p (rs_instance_id site))); [..|exact Hok1|exact Hv1|exact Hrun].
    + intros ???? Hr. by eapply law_upsert_endpoint.
    + simpl. naive_solver.
  - eapply absorbed_spec; [|exact Hok1|exact Hv1|exact Hrun]. split; [done|by left].
Qed.

Lemma consume_delta_spec site sequence delta now s s' r :
  intake_ok s → consume_resource_delta from_unix_timestamp ids site sequence delta now s = (s', r) →
  intake_ok s' ∧ gated (rs_instance_id site) StreamEndpoint sequence
    (changes from_unix_timestamp sha256 ids (rs_instance_id site) now (MsgResourceDelta delta)
       (iv_content (intake_view s)) (iv_files (intake_view s))) (intake_view s) (intake_view s') r.
Proof.
  intros Hok. apply gate_spec; [|done]. clear s' r. intros s1 s' r Hok1 Hv1 Hrun.
  destruct (decode_delta from_unix_timestamp delta) as [d|reason] eqn:Hd.
  - destruct d as [e|e odata|p].
    + eapply (projection_spec _ (endpoint_withdrawn e (rs_instance_id site))); [..|exact Hok1|exact Hv1|exact Hrun].
      * intros ???? Hr. by eapply law_delete_endpoint.
      * simpl. naive_solver.
    + eapply (projection_spec _ (resource_withdrawn e odata (rs_instance_id site))); [..|exact Hok1|exact Hv1|exact Hrun].
      * intros ???? Hr. by eapply law_delete_resource.
      * simpl. naive_solver.
    + eapply (projection_spec _ (resource_upserted p (rs_instance_id site))); [..|exact Hok1|exact Hv1|exact Hrun].
      * intros ???? Hr. by eapply law_upsert_resource.
      * simpl. naive_solver.
  - eapply absorbed_spec; [|exact Hok1|exact Hv1|exact Hrun]. split; [done|by left].
Qed.

(** *** Events *)

Lemma dead_letter_id_ok : MessageId_parse CENTER_ABSORBED_EVENT_MESSAGE_ID = Ok CENTER_ABSORBED_EVENT_MESSAGE_ID.
Proof. by vm_compute. Qed.

Lemma decode_event_inv record now e :
  decode_event from_unix_timestamp record now = Ok e →
  event_ok e ∧ starts_with (lit "Center.") (ev_message_id e) = false ∧ ev_observed_at e = now ∧ ev_message e = None ∧
  parse_uuid (er_event_id record) = Some (ev_id e) ∧ parse_uuid (er_endpoint_id record) = Some (ev_endpoint_id e) ∧
  from_unix_timestamp (er_occurred_at_unix record) = Some (ev_event_timestamp e).
Proof.
  unfold decode_event. intros Hd. inv_ok.
  destruct (starts_with _ _) eqn:Hs; [done|]. inv_ok.
  match goal with Hb : build_event _ _ _ _ _ _ _ = Ok _ |- _ =>
    pose proof Hb as Hok; apply build_event_Ok in Hb as [_ ->] end.
  match goal with Hm : MessageId_parse _ = Ok _ |- _ => apply MessageId_parse_Ok in Hm end.
  split; [by eapply build_event_ok|]. by split_and!.
Qed.

Lemma dead_letter_inv id e site reason d :
  absorption_dead_letter id e site reason = Ok d →
  event_ok d ∧ ev_id d = id ∧ ev_endpoint_id d = ev_endpoint_id e ∧
  ev_message_id d = CENTER_ABSORBED_EVENT_MESSAGE_ID ∧ ev_event_timestamp d = ev_event_timestamp e.
Proof.
  unfold absorption_dead_letter. rewrite dead_letter_id_ok. cbn [map_err result_bind]. intros Hd.
  apply map_err_ok in Hd. pose proof Hd as Hok. apply build_event_Ok in Hd as [_ ->].
  split; [|done]. eapply build_event_ok; [|done]. by eapply MessageId_parse_Ok, dead_letter_id_ok.
Qed.

(** An absorbed record always has a dead letter. *)
Lemma dead_letter_exists id e site reason :
  ev_event_timestamp e <= ev_observed_at e → ∃ d, absorption_dead_letter id e site reason = Ok d.
Proof.
  intros Hle. unfold absorption_dead_letter. rewrite dead_letter_id_ok. cbn [map_err result_bind].
  unfold build_event. destruct (Z.ltb_spec (ev_observed_at e) (ev_event_timestamp e)); [lia|]. by eexists.
Qed.

Definition owned_in (site : InstanceId) (owners : gmap EndpointId CenterEndpointProjection) (e : Event) : Prop :=
  cp_site_id <$> owners !! ev_endpoint_id e = Some (Some site).

(** What the records of a batch become. *)
Lemma settle_record_spec site owners id e x :
  settle_record site owners id e = Some x →
  (owned_in site owners e ∧ x = e) ∨
  (¬ owned_in site owners e ∧ ∃ reason, absorption_dead_letter id e site reason = Ok x).
Proof.
  unfold settle_record, owned_in. destruct (owners !! ev_endpoint_id e) as [p|]; simpl.
  - case_decide as Hs; [intros [= ->]; left; by rewrite Hs|].
    destruct (absorption_dead_letter _ _ _ _) as [d|] eqn:Hd; [|done]. intros [= ->]. right.
    split; [congruence|eauto].
  - destruct (absorption_dead_letter _ _ _ _) as [d|] eqn:Hd; [|done]. intros [= ->]. right. eauto.
Qed.

Lemma settle_record_exists site owners id e :
  ev_event_timestamp e <= ev_observed_at e → is_Some (settle_record site owners id e).
Proof.
  intros Hle. unfold settle_record. destruct (owners !! ev_endpoint_id e) as [p|]; [case_decide; [by eexists|]|];
    match goal with |- context [absorption_dead_letter id e site ?reason] =>
      destruct (dead_letter_exists id e site reason Hle) as [d ->]; by eexists end.
Qed.

Lemma settle_records_elem site owners i events x :
  x ∈ settle_records ids site owners i events →
  ∃ j e, e ∈ events ∧ settle_record site owners (ii_dead_letter ids j) e = Some x.
Proof.
  revert i. induction events as [|e events IH]; intros i; cbn [settle_records]; [by intros ?%elem_of_nil|].
  destruct (settle_record _ _ _ _) as [y|] eqn:Hy.
  - intros [->|Hx]%elem_of_cons; [exists i, e; split; [by left|done]|].
    apply IH in Hx as (j & e' & He & Hs). exists j, e'. split; [by right|done].
  - intros Hx. apply IH in Hx as (j & e' & He & Hs). exists j, e'. split; [by right|done].
Qed.

Lemma settle_records_all site owners i events e :
  e ∈ events → ev_event_timestamp e <= ev_observed_at e →
  ∃ j x, settle_record site owners (ii_dead_letter ids j) e = Some x ∧ x ∈ settle_records ids site owners i events.
Proof.
  intros He Hle. revert i. induction events as [|e' events IH]; intros i; [by apply elem_of_nil in He|].
  cbn [settle_records]. apply elem_of_cons in He as [<-|He].
  - destruct (settle_record_exists site owners (ii_dead_letter ids i) e Hle) as [x Hx]. exists i, x.
    rewrite Hx. split; [done|by left].
  - destruct (IH He (S i)) as (j & x & Hx & Hin). exists j, x. split; [done|].
    destruct (settle_record _ _ _ e'); [by right|done].
Qed.

Lemma decode_events_elem batch now e :
  e ∈ decode_events from_unix_timestamp batch now ↔
  ∃ record, record ∈ batch ∧ decode_event from_unix_timestamp record now = Ok e.
Proof.
  unfold decode_events. rewrite list_elem_of_omap. split.
  - intros (record & Hin & Hd). exists record. split; [done|]. destruct (decode_event _ _ _); congruence.
  - intros (record & Hin & Hd). exists record. by rewrite Hd.
Qed.

Lemma settled_ok site owners i batch now :
  Forall event_ok (settle_records ids site owners i (decode_events from_unix_timestamp batch now)).
Proof.
  apply Forall_forall. intros x Hx. apply settle_records_elem in Hx as (j & e & He & Hs).
  apply decode_events_elem in He as (record & _ & Hd). apply decode_event_inv in Hd as (Hok & _).
  apply settle_record_spec in Hs as [[_ ->]|(_ & reason & Hd)]; [done|]. by apply dead_letter_inv in Hd as (? & _).
Qed.

Lemma consume_batch_spec site sequence batch now s s' r :
  intake_ok s → consume_event_batch from_unix_timestamp ids site sequence batch now s = (s', r) →
  intake_ok s' ∧ gated (rs_instance_id site) StreamEvent sequence
    (changes from_unix_timestamp sha256 ids (rs_instance_id site) now (MsgEventBatch batch)
       (iv_content (intake_view s)) (iv_files (intake_view s))) (intake_view s) (intake_view s') r.
Proof.
  intros Hok. apply gate_spec; [|done]. clear s' r. intros s1 s' r Hok1 Hv1 Hrun.
  apply mbind_inv in Hrun as [(owners & s2 & Hw & Hrun)|(x & Hw & ->)].
  2: { apply (store_reads _ _ _ _ _ _ (law_find_projections _)) in Hw as (Hok2 & Hv2 & _); [|exact Hok1].
       split; [done|]. apply failed_spec; rewrite Hv2, Hv1; [done|]. split; [done|by left]. }
  apply (store_reads _ _ _ _ _ _ (law_find_projections _)) in Hw as (Hok2 & Hv2 & Howners); [|exact Hok1].
  specialize (Howners _ eq_refl). rewrite Hv1 in Howners, Hv2. simpl in Howners.
  assert (∀ e, e ∈ decode_events from_unix_timestamp batch now →
    owners !! ev_endpoint_id e = owner_of (nv_projections (iv_content (intake_view s))) (ev_endpoint_id e)) as Hown.
  { intros e He. apply Howners, elem_of_remove_dups, list_elem_of_fmap. eauto. }
  apply mbind_inv in Hrun as [([] & s3 & Hw & Hrun)|(x & Hw & ->)].
  - assert (∃ es, append_events (Some (rs_instance_id site)) (nv_events (iv_content (intake_view s)))
        (settle_records ids (rs_instance_id site) owners 0 (decode_events from_unix_timestamp batch now)) = Some es ∧
        intake_ok s3 ∧ intake_view s3 = with_content (intake_view s) (with_events (iv_content (intake_view s)) es))
      as (es & Hes & Hok3 & Hv3).
    { case_decide as Hempty.
      - rewrite Hempty. injection Hw as <-. eexists. split; [done|]. split; [done|]. rewrite Hv2.
        by destruct (intake_view s) as [[] ? ?].
      - apply (store_writes _ _ _ _ _ _ (λ x x' r Hx, law_upsert_events _ _ x x' r Hx (settled_ok _ _ _ _ _))) in Hw
          as (Hok3 & c & (es & Hes & ->) & Hv3); [|exact Hok2].
        rewrite Hv2 in Hes, Hv3. eauto. }
    eapply advance_spec; [exact Hok3|exact Hrun|by rewrite Hv3|]. rewrite Hv3. split; [done|]. right.
    exists owners, es. done.
  - case_decide as Hempty; [done|].
    apply (store_writes _ _ _ _ _ _ (λ x x' r Hx, law_upsert_events _ _ x x' r Hx (settled_ok _ _ _ _ _))) in Hw
      as (Hok3 & Hv3); [|exact Hok2].
    split; [done|]. apply failed_spec; rewrite Hv3, Hv2; [done|]. split; [done|by left].
Qed.

(** *** Artifacts *)

Lemma decode_manifest_inv manifest now a :
  wire_ok (MsgArtifactManifest manifest) → decode_manifest manifest now = Ok a →
  declarable a ∧ a_state a = Uploading ∧ a_uploaded_bytes a = 0 ∧ 0 < a_size_bytes a <= ARTIFACT_MAX_SIZE_BYTES ∧
  a_size_bytes a = am_total_bytes manifest ∧ parse_uuid (LinkMessages.am_artifact_id manifest) = Some (a_id a) ∧
  Sha256Hex_into_bytes (a_sha256 a) = LinkMessages.am_sha256 manifest.
Proof.
  intros [Htotal Hbytes] Hd. unfold decode_manifest in Hd. inv_ok.
  case_decide as Hz; [done|]. destruct (Z.ltb_spec ARTIFACT_MAX_SIZE_BYTES (am_total_bytes manifest)); [done|].
  inv_ok. case_decide as Hlen; [|done]. inv_ok.
  match goal with Hn : ArtifactName_parse _ = Ok _ |- _ => apply parse_bounded_name_Ok in Hn as [-> Hname] end.
  destruct (proj1 digest_roundtrip _ Hlen Hbytes) as [Hinto _].
  split; [|simpl; by split_and!; try lia].
  unfold ARTIFACT_MAX_SIZE_BYTES in *.
  split; [unfold artifact_ok, U64_MAX; simpl; by split_and!; try lia|]. split; [by apply from_bytes_canonical|done].
Qed.

Lemma consume_manifest_spec site sequence manifest now s s' r :
  wire_ok (MsgArtifactManifest manifest) → intake_ok s →
  consume_artifact_manifest ids site sequence manifest now s = (s', r) →
  intake_ok s' ∧ gated (rs_instance_id site) StreamArtifact sequence
    (changes from_unix_timestamp sha256 ids (rs_instance_id site) now (MsgArtifactManifest manifest)
       (iv_content (intake_view s)) (iv_files (intake_view s))) (intake_view s) (intake_view s') r.
Proof.
  intros Hwire Hok. apply gate_spec; [|done]. clear s' r. intros s1 s' r Hok1 Hv1 Hrun.
  destruct (decode_manifest manifest now) as [a|reason] eqn:Hd.
  - pose proof Hd as (Hdecl & _)%decode_manifest_inv; [|done].
    apply mbind_inv in Hrun as [([] & s2 & Hw & Hrun)|(x & Hw & ->)];
      (apply (store_writes _ _ _ _ _ _ (λ x x' r Hx, law_declare_artifact _ _ x x' r Hx Hdecl)) in Hw
        as (Hok2 & Hw); [|exact Hok1]); rewrite Hv1 in Hw.
    + destruct Hw as (c & -> & Hv2). eapply advance_spec; [exact Hok2|exact Hrun|by rewrite Hv2|].
      rewrite Hv2. split; [done|]. right. rewrite Hd. done.
    + split; [done|]. apply failed_spec; rewrite Hw; [done|]. split; [done|by left].
  - eapply absorbed_spec; [|exact Hok1|exact Hv1|exact Hrun]. split; [done|]. right. by rewrite Hd.
Qed.

(** The file calls, on the view. *)
Lemma write_chunk_spec id offset data s s' r :
  write_chunk_at (Epr := Epr) (Ear := Ear) (Ecu := Ecu) io id offset data s = (s', r) →
  ik_store s' = ik_store s ∧ ik_cursors s' = ik_cursors s ∧
  match r with
  | Ok _ => ik_files s' = chunk_file id offset data (ik_files s)
  | Err _ => ik_files s' = ik_files s ∨ ∃ k, ik_files s' = chunk_file id offset (take k data) (ik_files s)
  end.
Proof.
  intros [([] & s1 & Ho & Hw)|(x & Ho & ->)]%mbind_inv.
  - assert (ik_store s1 = ik_store s ∧ ik_cursors s1 = ik_cursors s ∧
      (ik_files s1 = ik_files s ∨ ik_files s1 = chunk_file id offset [] (ik_files s))) as (Hs & Hc & Hf).
    { unfold open_artifact_file in Ho. case_decide; [injection Ho as <-; auto|].
      destruct (fe_open_fails io _); [done|]. injection Ho as <-. simpl. auto. }
    assert (∀ d, chunk_file id offset d (ik_files s1) = chunk_file id offset d (ik_files s)) as Hsame.
    { intros d. unfold chunk_file. destruct Hf as [-> | ->]; [done|]. unfold chunk_file, file_of.
      rewrite lookup_insert_eq, insert_insert_eq. done. }
    unfold write_open in Hw. destruct (fe_write io _) as [| |k]; injection Hw as <- <-; simpl;
      (split; [done|split; [done|]]).
    + by rewrite <- Hsame.
    + destruct Hf as [-> | ->]; [by left|right; by exists 0%nat].
    + right. exists k. by rewrite <- Hsame.
  - unfold open_artifact_file in Ho. case_decide; [done|]. destruct (fe_open_fails io _); [|done].
    injection Ho as <- _. simpl. auto.
Qed.

Lemma hash_spec id s s' r :
  hash_artifact_file (Epr := Epr) (Ear := Ear) (Ecu := Ecu) sha256 io id s = (s', r) →
  ik_store s' = ik_store s ∧ ik_cursors s' = ik_cursors s ∧ ik_files s' = ik_files s ∧
  ∀ d, r = Ok d → d = sha256 (file_of (ik_files s) id).
Proof.
  unfold hash_artifact_file, file_of. destruct (ik_files s !! id) as [f|]; [destruct (fe_read_fails _ _)|];
    intros [= <- <-]; (do 3 (split; [done|])); intros d [=]; done.
Qed.

Lemma files_view s s' f :
  ik_store s' = ik_store s → ik_cursors s' = ik_cursors s → ik_files s' = f →
  (intake_ok s → intake_ok s') ∧ intake_view s' = with_files (intake_view s) f.
Proof. intros Hs Hc <-. unfold intake_ok, intake_view. by rewrite Hs, Hc. Qed.

Lemma chunk_fate_continues a chunk offset end_ :
  0 <= ac_index chunk <= U32_MAX → chunk_fate a chunk = ChunkContinues offset end_ →
  a_state a = Uploading ∧ offset = ac_index chunk * CENTER_ARTIFACT_CHUNK_SIZE ∧ offset = a_uploaded_bytes a ∧
  end_ = offset + Z.of_nat (length (ac_data chunk)) ∧ ac_data chunk ≠ [] ∧ a_uploaded_bytes a < end_ <= a_size_bytes a.
Proof.
  intros Hi. unfold chunk_fate. destruct (artifact_terminal (a_state a)) eqn:Ht; [done|].
  case_decide as Hne; [done|]. destruct (checked_add_u64 _ _) as [e|] eqn:He; [|done].
  apply checked_add_u64_Some in He as [-> _]. destruct (Z.ltb_spec (a_size_bytes a) (ac_index chunk * CENTER_ARTIFACT_CHUNK_SIZE + Z.of_nat (length (ac_data chunk)))); [done|].
  destruct (Z.leb_spec (ac_index chunk * CENTER_ARTIFACT_CHUNK_SIZE + Z.of_nat (length (ac_data chunk))) (a_uploaded_bytes a)); [done|].
  case_decide as Hoff; [done|]. intros [= <- <-].
  split; [by destruct (a_state a)|]. by split_and!.
Qed.

(** The row update behind a written chunk: the progress, or the verdict on the
    whole file. *)
Lemma record_chunk_spec id a owner end_ now s s' r :
  intake_ok s → 0 <= end_ → nv_artifacts (iv_content (intake_view s)) !! id = Some (a, owner) →
  ((if end_ <? a_size_bytes a then at_artifacts (ar_update_artifact id end_ Uploading now)
    else finalize_artifact sha256 io id end_ now) : Op ()) s = (s', r) →
  intake_ok s' ∧
  match r with
  | Ok _ => update_allowed a end_ (chunk_state sha256 a id end_ (iv_files (intake_view s))) ∧
      intake_view s' = with_content (intake_view s) (with_artifacts (iv_content (intake_view s))
        (<[id := (artifact_updated a end_ (chunk_state sha256 a id end_ (iv_files (intake_view s))) now, owner)]>
           (nv_artifacts (iv_content (intake_view s)))))
  | Err _ => intake_view s' = intake_view s
  end.
Proof.
  intros Hok Hpos Ha Hrun.
  assert (∀ st s1 s' r, intake_ok s1 → intake_view s1 = intake_view s →
    at_artifacts (Epr := Epr) (Ecu := Ecu) (ar_update_artifact id end_ st now) s1 = (s', r) →
    intake_ok s' ∧ match r with
    | Ok _ => update_allowed a end_ st ∧ intake_view s' = with_content (intake_view s)
        (with_artifacts (iv_content (intake_view s)) (<[id := (artifact_updated a end_ st now, owner)]>
           (nv_artifacts (iv_content (intake_view s)))))
    | Err _ => intake_view s' = intake_view s
    end) as Hupdate.
  { intros st s1 s2 r' Hok1 Hv1 Hw.
    apply (store_writes _ _ _ _ _ _ (λ x x' r Hx, law_update_artifact _ _ _ _ x x' r Hx Hpos)) in Hw as (Hok2 & Hw);
      [|exact Hok1]. split; [done|]. rewrite Hv1 in Hw. destruct r' as [[]|]; [|done].
    destruct Hw as (c & (a' & o & Ha' & Hall & ->) & Hv2). rewrite Ha in Ha'. injection Ha' as <- <-. done. }
  unfold chunk_state. destruct (Z.ltb_spec end_ (a_size_bytes a)); [by eapply Hupdate|].
  apply mbind_inv in Hrun as [(d & s1 & Hh & Hrun)|(x & Hh & ->)]; apply hash_spec in Hh as (Hs & Hc & Hf & Hd).
  2: { destruct (files_view s s' _ Hs Hc Hf) as [Hok1 Hv1]. split; [auto|]. rewrite Hv1. by destruct s. }
  destruct (files_view s s1 _ Hs Hc Hf) as [Hok1 Hv1]. specialize (Hok1 Hok).
  assert (intake_view s1 = intake_view s) as Hsame by (rewrite Hv1; by destruct s).
  specialize (Hd _ eq_refl).
  apply mbind_inv in Hrun as [(found & s2 & Hw & Hrun)|(x & Hw & ->)];
    (apply (store_reads _ _ _ _ _ _ (law_find_artifact _)) in Hw as (Hok2 & Hv2 & Hfound); [|exact Hok1]);
    rewrite Hsame in Hv2, Hfound; [|by split].
  specialize (Hfound _ eq_refl). simpl in Hfound.
  apply mbind_inv in Hrun as [(a' & s3 & Hl & Hrun)|(x & Hl & ->)]; [|by injection Hl as <-].
  injection Hl as <- Hl. rewrite Hfound in Hl. simpl in Ha. rewrite Ha in Hl. injection Hl as <-.
  rewrite Hd in Hrun. exact (Hupdate _ _ _ _ Hok2 Hv2 Hrun).
Qed.

Lemma consume_chunk_spec site sequence chunk now s s' r :
  wire_ok (MsgArtifactChunk chunk) → intake_ok s →
  consume_artifact_chunk sha256 io ids site sequence chunk now s = (s', r) →
  intake_ok s' ∧ gated (rs_instance_id site) StreamArtifact sequence
    (changes from_unix_timestamp sha256 ids (rs_instance_id site) now (MsgArtifactChunk chunk)
       (iv_content (intake_view s)) (iv_files (intake_view s))) (intake_view s) (intake_view s') r.
Proof.
  intros Hwire Hok. apply gate_spec; [|done]. clear s' r. intros s1 s' r Hok1 Hv1 Hrun.
  remember (intake_view s) as v eqn:Hvdef. clear Hvdef. unfold changes.
  destruct (parse_uuid (ac_artifact_id chunk)) as [id|]; simpl; [|eapply absorbed_spec; [|exact Hok1|exact Hv1|exact Hrun]; by right].
  apply mbind_inv in Hrun as [(found & s2 & Hw & Hrun)|(x & Hw & ->)];
    (apply (store_reads _ _ _ _ _ _ (law_find_artifact _)) in Hw as (Hok2 & Hv2 & Hfound); [|exact Hok1]);
    rewrite Hv1 in Hv2, Hfound; [|split; [done|]; apply failed_spec; rewrite Hv2; [done|by left]].
  specialize (Hfound _ eq_refl). simpl in Hfound.
  destruct (nv_artifacts (iv_content v) !! id) as [[a owner]|] eqn:Ha; simpl in Hfound; subst found; simpl;
    [|eapply absorbed_spec; [|exact Hok2|exact Hv2|exact Hrun]; by right].
  apply mbind_inv in Hrun as [(o & s3 & Hw & Hrun)|(x & Hw & ->)];
    (apply (store_reads _ _ _ _ _ _ (law_find_artifact_site _)) in Hw as (Hok3 & Hv3 & Ho); [|exact Hok2]);
    rewrite Hv2 in Hv3, Ho; [|split; [done|]; apply failed_spec; rewrite Hv3; [done|by left]].
  specialize (Ho _ eq_refl). simpl in Ho. rewrite Ha in Ho. simpl in Ho. subst o.
  destruct (decide (owner = Some (rs_instance_id site))) as [->|Hne].
  2: { rewrite decide_True in Hrun by done. eapply absorbed_spec; [|exact Hok3|exact Hv3|exact Hrun]. by right. }
  rewrite decide_False in Hrun by auto. destruct (chunk_fate a chunk) as [reason| |offset end_] eqn:Hfate.
  { eapply absorbed_spec; [|exact Hok3|exact Hv3|exact Hrun]. by right. }
  { eapply (absorbed_spec _ _ _ _ []); [|exact Hok3|exact Hv3|exact Hrun]. by right. }
  apply mbind_inv in Hrun as [([] & s4 & Hw & Hrun)|(x & Hw & ->)];
    apply write_chunk_spec in Hw as (Hs & Hc & Hf).
  2: { destruct (files_view s3 s' _ Hs Hc eq_refl) as [Hok4 Hv4]. split; [auto|].
       apply failed_spec; rewrite Hv4, Hv3; [done|]. right. left. split; [done|]. split; [done|].
       assert (ik_files s3 = iv_files v) as <- by (by rewrite <- Hv3). done. }
  destruct (files_view s3 s4 _ Hs Hc Hf) as [Hok4 Hv4]. specialize (Hok4 Hok3). rewrite Hv3 in Hv4.
  assert (ik_files s3 = iv_files v) as Hf3 by (by rewrite <- Hv3). rewrite Hf3 in Hv4.
  apply chunk_fate_continues in Hfate as (_ & Hoff & _ & -> & _); [|done].
  assert (nv_artifacts (iv_content (intake_view s4)) !! id = Some (a, Some (rs_instance_id site))) as Ha4
    by (rewrite Hv4; exact Ha).
  assert (0 <= offset + Z.of_nat (length (ac_data chunk))) as Hpos.
  { simpl in Hwire. unfold CENTER_ARTIFACT_CHUNK_SIZE in *. lia. }
  apply mbind_inv in Hrun as [([] & s5 & Hw & Hrun)|(x & Hw & ->)];
    (apply (record_chunk_spec id a (Some (rs_instance_id site))) in Hw as [Hok5 Hw]; [|exact Hok4|exact Hpos|exact Ha4]);
    rewrite Hv4 in Hw.
  - destruct Hw as [Hall Hv5]. eapply advance_spec; [exact Hok5|exact Hrun|by rewrite Hv5|].
    rewrite Hv5. right. right. split; [done|]. split; [exact Hall|done].
  - split; [done|]. apply failed_spec; rewrite Hw; [done|]. right. left. split; [done|]. split; [done|].
    right. exists (length (ac_data chunk)). simpl. by rewrite firstn_all.
Qed.

(** ** Every frame *)

(** A content frame the cursor of its stream covers changes nothing; any other
    makes its change, or a failing call cuts it short, and the cursor moves to
    the sequence exactly when the frame is answered [Ok]. *)
Lemma intake_frame_spec site sequence message now s s' r :
  wire_ok message → intake_ok s →
  intake_frame from_unix_timestamp sha256 io ids site sequence (MsgContent message) now s = (s', r) →
  intake_ok s' ∧ gated (rs_instance_id site) (stream_of message) sequence
    (changes from_unix_timestamp sha256 ids (rs_instance_id site) now message
       (iv_content (intake_view s)) (iv_files (intake_view s))) (intake_view s) (intake_view s') r.
Proof.
  intros Hwire Hok Hrun. destruct message; simpl in Hrun.
  - by eapply consume_endpoint_spec.
  - by eapply consume_delta_spec.
  - by eapply consume_batch_spec.
  - by eapply consume_manifest_spec.
  - by eapply consume_chunk_spec.
Qed.
End frames.
