(* ===== verification/IntakeSafety.v ===== *)
(** * IntakeSafety: what the reports of the sites can and cannot do

    Over any frames of any sites, failing anywhere: a frame takes effect once; a
    site reaches nothing of another's; an artifact is ready only with the bytes
    it was declared with; a transfer whose chunks are delivered until they are
    answered completes; every decodable event of an answered batch is accounted
    for. *)
From S2P Require Import Prelude Text Operation CenterDomain ResourceSnapshot LinkMessages Database EventRepository SyncCursors Artifact ArtifactRepository ArtifactStore CenterStores ProjectionRepository ProjectionSafety CenterSession CenterIntake IntakeContract IntakeSpec.
Local Open Scope Z_scope.

(** The stored cursor covers a sequence. *)
Definition covered (v : IntakeView) (site : InstanceId) (stream : SyncStream) (sequence : Z) : Prop :=
  ∃ text processed, iv_cursors v !! (site, stream) = Some text ∧ parse_u64 text = Some processed ∧
    sequence <= Z.of_N processed.

(** The artifacts that were verified are what they were declared to be. *)
Definition ready_verified (sha256 : list N → list N) (c : ContentView) (f : Files) : Prop :=
  ∀ id a o, nv_artifacts c !! id = Some (a, o) → a_state a = Ready →
    sha256 (file_of f id) = Sha256Hex_into_bytes (a_sha256 a).

Lemma covered_passes v site stream sequence :
  covered v site stream sequence → passes v site stream sequence = false.
Proof. intros (text & p & Ht & Hp & Hle). unfold passes. rewrite Ht, Hp. apply Z.ltb_ge. lia. Qed.

Lemma covered_decimal v site stream sequence c f :
  0 <= sequence <= U64_MAX →
  covered (mk_intake_view c (<[(site, stream) := decimal (Z.to_N sequence)]> (iv_cursors v)) f) site stream sequence.
Proof.
  intros Hs. exists (decimal (Z.to_N sequence)), (Z.to_N sequence). simpl. rewrite lookup_insert_eq.
  split; [done|]. split; [|lia]. apply parse_u64_decimal. unfold U64_MAX in Hs. lia.
Qed.

Section safety.
Context {St Sc Epr Ear Ecu : Type} `{ContentStoreLaws St Epr Ear} `{CenterCursorLaws Sc Ecu} `{UuidText}.
Context `{!TimestampTextLaws} (from_unix_timestamp : Z → option OffsetDateTime) (sha256 : list N → list N).
Implicit Types (s : Intake St Sc).

(** One frame of a site, whatever the environment and the clock. *)
Inductive frame_step (site : InstanceId) : relation (Intake St Sc) :=
| step_frame io ids sender sequence message now s s' (r : result () (CenterProjectionError Epr Ear Ecu)) :
    rs_instance_id sender = site → 0 <= sequence <= U64_MAX → wire_ok message →
    intake_frame from_unix_timestamp sha256 io ids sender sequence (MsgContent message) now s = (s', r) →
    frame_step site s s'.
Definition any_frame : relation (Intake St Sc) := λ s s', ∃ site, frame_step site s s'.

(** A frame on the view: nothing, or a change under the cursor. *)
Lemma frame_view site s s' :
  intake_ok s → frame_step site s s' →
  intake_ok s' ∧
  (intake_view s' = intake_view s ∨
   ∃ ids now message sequence c f completed cursors,
     wire_ok message ∧ 0 <= sequence <= U64_MAX ∧
     passes (intake_view s) site (stream_of message) sequence = true ∧
     changes from_unix_timestamp sha256 ids site now message (iv_content (intake_view s)) (iv_files (intake_view s))
       c f completed ∧
     (cursors = iv_cursors (intake_view s) ∨
      completed = true ∧
      cursors = <[(site, stream_of message) := decimal (Z.to_N sequence)]> (iv_cursors (intake_view s))) ∧
     intake_view s' = mk_intake_view c cursors f).
Proof.
  intros Hok Hstep. revert Hok.
  destruct Hstep as [io ids sender sequence message now s s' r <- Hs Hwire Hrun]. intros Hok.
  apply intake_frame_spec in Hrun as [Hok' Hg]; [|done..]. split; [done|].
  destruct Hg as [[Hv _]|(Hp & c & f & completed & Hc & Hv)]; [by left|].
  right. exists ids, now, message, sequence, c, f, completed. destruct r; [destruct Hv as [Hcomp Hv]|]; eexists;
    (split; [done|split; [done|split; [done|split; [done|split; [|exact Hv]]]]]); auto.
Qed.

Lemma frame_ok site s s' : intake_ok s → frame_step site s s' → intake_ok s'.
Proof. intros Hok Hstep. by apply frame_view in Hstep as [? _]. Qed.

(** ** Once *)

Lemma covered_step site stream sequence s s' :
  intake_ok s → any_frame s s' → covered (intake_view s) site stream sequence →
  covered (intake_view s') site stream sequence.
Proof.
  intros Hok [other Hstep] Hcov. apply frame_view in Hstep as [_ Hv]; [|done]. destruct Hv as [-> |Hv]; [done|].
  destruct Hv as (ids & now & message & q & c & f & completed & cursors & _ & Hq & Hp & _ & [-> |[_ ->]] & ->); [done|].
  destruct (decide ((other, stream_of message) = (site, stream))) as [[= -> <-]|Hne].
  - destruct Hcov as (text & p & Ht & Hpt & Hle). unfold passes in Hp. rewrite Ht, Hpt in Hp.
    apply Z.ltb_lt in Hp. destruct (covered_decimal (intake_view s) site (stream_of message) q c f Hq)
      as (text' & p' & Ht' & Hp' & Hle'). exists text', p'. split; [done|]. split; [done|lia].
  - destruct Hcov as (text & p & Ht & Hpt & Hle). exists text, p. simpl. by rewrite lookup_insert_ne.
Qed.

(** A consumed frame leaves the cursor covering it. *)
Lemma frame_covers io ids site sequence content now s s' :
  intake_ok s → 0 <= sequence <= U64_MAX → wire_ok content →
  intake_frame (Epr := Epr) (Ear := Ear) (Ecu := Ecu) from_unix_timestamp sha256 io ids site sequence
    (MsgContent content) now s = (s', Ok ()) →
  covered (intake_view s') (rs_instance_id site) (stream_of content) sequence.
Proof.
  intros Hok Hseq Hwire Hrun. apply intake_frame_spec in Hrun as [_ Hg]; [|done..].
  destruct Hg as [[-> Hp]|(_ & c & f & completed & _ & _ & ->)]; [|by apply covered_decimal].
  specialize (Hp eq_refl). unfold passes in Hp. unfold covered.
  destruct (iv_cursors _ !! _) as [text|]; [|done]. destruct (parse_u64 text) as [p|] eqn:Hpt; [|done].
  exists text, p. split; [done|]. split; [done|]. by apply Z.ltb_ge.
Qed.

(** C21: Whatever happens after a frame was answered, delivering it again, or an
    older one of its stream, changes nothing. *)
Theorem delivered_once io ids site sequence message now s s1 s2 s3 io' ids' sequence' message' now'
    (r : result () (CenterProjectionError Epr Ear Ecu)) :
  intake_ok s → 0 <= sequence <= U64_MAX → wire_ok message → wire_ok message' →
  intake_frame (Epr := Epr) (Ear := Ear) (Ecu := Ecu) from_unix_timestamp sha256 io ids site sequence
    (MsgContent message) now s = (s1, Ok ()) →
  rtc any_frame s1 s2 → stream_of message' = stream_of message → sequence' <= sequence →
  intake_frame from_unix_timestamp sha256 io' ids' site sequence' (MsgContent message') now' s2 = (s3, r) →
  intake_view s3 = intake_view s2.
Proof.
  intros Hok Hseq Hwire Hwire' Hrun Hsteps Hstream Hle Hagain.
  pose proof Hrun as Hcov. apply frame_covers in Hcov; [|done..].
  apply intake_frame_spec in Hrun as [Hok1 _]; [|done..].
  assert (intake_ok s2 ∧ covered (intake_view s2) (rs_instance_id site) (stream_of message) sequence) as [Hok2 Hcov2].
  { clear Hagain Hok s. induction Hsteps as [|s s1 s2 [other Hstep] _ IH]; [done|]. apply IH; [by eapply frame_ok|].
    eapply covered_step; [done|by exists other|done]. }
  apply intake_frame_spec in Hagain as [_ Hg']; [|done..]. destruct Hg' as [[Hv _]|[Hp _]]; [done|].
  rewrite Hstream, covered_passes in Hp; [done|]. destruct Hcov2 as (text & p & ? & ? & ?). exists text, p. split; [done|].
  split; [done|lia].
Qed.

(** ** The scope of a site *)

(** What a frame of a site can change: one endpoint that is not another's, events
    of its own under its own endpoints or as dead letters, its own artifacts. *)
Definition in_scope (site : InstanceId) (c : ContentView) (f : Files) (c' : ContentView) (f' : Files) : Prop :=
  (nv_projections c' = nv_projections c ∨
   ∃ e, touches e (nv_projections c) (nv_projections c') ∧ not_foreign site e (nv_projections c)) ∧
  nv_events c ⊆ nv_events c' ∧
  (∀ id e o, nv_events c' !! id = Some (e, o) → nv_events c !! id = Some (e, o) ∨
     o = Some site ∧
     (ev_message_id e = CENTER_ABSORBED_EVENT_MESSAGE_ID ∨
      ∃ m, pt_endpoints (nv_projections c) !! ev_endpoint_id e = Some m ∧ em_site_id m = Some site)) ∧
  (∀ id a o, nv_artifacts c !! id = Some (a, o) → o ≠ Some site →
     nv_artifacts c' !! id = Some (a, o) ∧ f' !! id = f !! id) ∧
  (∀ id a o, nv_artifacts c' !! id = Some (a, o) → nv_artifacts c !! id = None → o = Some site).

Lemma scope_refl site c f : in_scope site c f c f.
Proof. split; [by left|]. split; [done|]. split; [by left|]. split; [done|]. intros; congruence. Qed.

Lemma scope_projected site e c f t :
  touches e (nv_projections c) t → not_foreign site e (nv_projections c) → in_scope site c f (with_projections c t) f.
Proof.
  intros Ht Hn. split; [right; by exists e|]. split; [done|]. split; [by left|]. split; [done|].
  intros; simpl in *; congruence.
Qed.

Lemma own_not_foreign site e m t :
  pt_endpoints t !! e = Some m → em_site_id m = Some site → not_foreign site e t.
Proof. intros Hm Hs m' Hm'. simplify_eq. by intros [Hne _]. Qed.

Lemma settled_scope ids site owners (t : ProjectionTables) batch now x :
  (∀ e, e ∈ decode_events from_unix_timestamp batch now → owners !! ev_endpoint_id e = owner_of t (ev_endpoint_id e)) →
  x ∈ settle_records ids site owners 0 (decode_events from_unix_timestamp batch now) →
  ev_message_id x = CENTER_ABSORBED_EVENT_MESSAGE_ID ∨
  ∃ m, pt_endpoints t !! ev_endpoint_id x = Some m ∧ em_site_id m = Some site.
Proof.
  intros Hown Hx. apply settle_records_elem in Hx as (j & e & He & Hs). specialize (Hown _ He).
  apply settle_record_spec in Hs as [[Ho ->]|(_ & reason & Hd)].
  - right. unfold owned_in in Ho. rewrite Hown in Ho. unfold owner_of in Ho.
    destruct (pt_endpoints t !! ev_endpoint_id e) as [m|]; [|done]. exists m. split; [done|]. by injection Ho.
  - left. by apply dead_letter_inv in Hd as (_ & _ & _ & ? & _).
Qed.

Lemma chunk_scope site id a c f c' f' :
  nv_artifacts c !! id = Some (a, Some site) →
  (f' = f ∨ ∃ x, f' = <[id := x]> f) →
  (c' = c ∨ ∃ a', c' = with_artifacts c (<[id := (a', Some site)]> (nv_artifacts c))) →
  in_scope site c f c' f'.
Proof.
  intros Ha Hf Hc.
  assert (nv_projections c' = nv_projections c ∧ nv_events c' = nv_events c) as [Hp He]
    by (destruct Hc as [-> |[a' ->]]; done).
  split; [by left|]. rewrite He. split; [done|]. split; [by left|].
  assert (∀ k a' o, nv_artifacts c !! k = Some (a', o) → o ≠ Some site → k ≠ id) as Hne by (intros; congruence).
  split.
  - intros k a' o Hk Ho. pose proof (Hne _ _ _ Hk Ho). split.
    + destruct Hc as [-> |[x ->]]; [done|]. simpl. by rewrite lookup_insert_ne.
    + destruct Hf as [-> |[x ->]]; [done|]. by rewrite lookup_insert_ne.
  - intros k a' o Hk Hn. destruct Hc as [-> |[x ->]]; [congruence|]. simpl in Hk.
    apply lookup_insert_Some in Hk as [[<- [= _ <-]]|[_ Hk]]; congruence.
Qed.

Lemma changes_scope ids site now message c f c' f' completed :
  changes from_unix_timestamp sha256 ids site now message c f c' f' completed → in_scope site c f c' f'.
Proof.
  destruct message as [snapshot|delta|batch|manifest|chunk]; simpl.
  - intros [-> [-> |(p & t & _ & (Ht & _ & _ & Hn) & ->)]]; [apply scope_refl|]. by eapply scope_projected.
  - intros [-> [-> |(d & t & _ & Hd & ->)]]; [apply scope_refl|]. destruct d.
    + destruct Hd as (Ht & _ & Hn). by eapply scope_projected.
    + destruct Hd as (Ht & [[-> _]|(_ & m & Hm & Hs)]).
      * assert (with_projections c (nv_projections c) = c) as -> by (by destruct c). apply scope_refl.
      * eapply scope_projected; [done|]. by eapply own_not_foreign.
    + destruct Hd as (Ht & _ & _ & m & Hm & Hs). eapply scope_projected; [done|]. by eapply own_not_foreign.
  - intros [-> [[_ ->]|(owners & es & Hown & Hes & ->)]]; [apply scope_refl|].
    apply append_events_Some in Hes as (Hsub & _ & Hof). split; [by left|]. split; [done|]. split.
    + intros id e o He. apply Hof in He as [He|(x & Hx & [= -> ->])]; [by left|]. right. split; [done|].
      by eapply settled_scope.
    + split; [done|]. intros; simpl in *; congruence.
  - intros [-> [[_ ->]|Hd]]; [apply scope_refl|]. destruct (decode_manifest manifest now) as [a|]; [|subst; apply scope_refl].
    destruct (nv_artifacts c !! a_id a) as [e|] eqn:Ha; subst c'; [apply scope_refl|].
    split; [by left|]. split; [done|]. split; [by left|]. simpl. split.
    + intros id a' o Hid _. split; [|done]. rewrite lookup_insert_ne; [done|]. congruence.
    + intros id a' o Hid Hn. apply lookup_insert_Some in Hid as [[_ [= _ <-]]|[_ Hid]]; [done|congruence].
  - intros [(_ & -> & ->)|Hd]; [apply scope_refl|].
    destruct (parse_uuid (ac_artifact_id chunk)) as [id|]; simpl in Hd; [|destruct Hd as [-> ->]; apply scope_refl].
    destruct (nv_artifacts c !! id) as [[a o]|] eqn:Ha; simpl in Hd; [|destruct Hd as [-> ->]; apply scope_refl].
    case_decide as Ho; [subst o|destruct Hd as [-> ->]; apply scope_refl].
    destruct (chunk_fate a chunk); [destruct Hd as [-> ->]; apply scope_refl..|].
    eapply chunk_scope; [exact Ha|..].
    + destruct Hd as [(_ & _ & [-> |[k ->]])|(-> & _)]; unfold chunk_file; eauto.
    + destruct Hd as [(_ & -> & _)|(_ & _ & ->)]; eauto.
Qed.

(** The endpoints in force of a site. *)
Definition holds_endpoint (owner : InstanceId) (c : ContentView) (e : EndpointId) : Prop :=
  (∃ m, pt_endpoints (nv_projections c) !! e = Some m ∧ em_site_id m = Some owner) ∧
  ¬ site_revoked (nv_projections c) owner.

(** What frames of others leave of a site: its endpoints, its artifacts and their
    bytes, its cursors; of its events none is lost and none is made up, and only
    dead letters appear under its endpoints. *)
Definition preserved (owner : InstanceId) (v v' : IntakeView) : Prop :=
  let c := iv_content v in let c' := iv_content v' in
  (∀ e, holds_endpoint owner c e → holds_endpoint owner c' e ∧
     projected e (nv_projections c') = projected e (nv_projections c)) ∧
  nv_events c ⊆ nv_events c' ∧
  (∀ id e, nv_events c' !! id = Some (e, Some owner) → nv_events c !! id = Some (e, Some owner)) ∧
  (∀ id e o, nv_events c' !! id = Some (e, o) → nv_events c !! id = None → holds_endpoint owner c (ev_endpoint_id e) →
     ev_message_id e = CENTER_ABSORBED_EVENT_MESSAGE_ID) ∧
  (∀ id a, nv_artifacts c !! id = Some (a, Some owner) →
     nv_artifacts c' !! id = Some (a, Some owner) ∧ iv_files v' !! id = iv_files v !! id) ∧
  ∀ stream, iv_cursors v' !! (owner, stream) = iv_cursors v !! (owner, stream).

Lemma preserved_refl owner v : preserved owner v v.
Proof. unfold preserved. split_and!; intros; try done; congruence. Qed.

Lemma preserved_trans owner v1 v2 v3 : preserved owner v1 v2 → preserved owner v2 v3 → preserved owner v1 v3.
Proof.
  intros (He1 & Hs1 & Hm1 & Hd1 & Ha1 & Hc1) (He2 & Hs2 & Hm2 & Hd2 & Ha2 & Hc2). split_and!.
  - intros e Hh. destruct (He1 _ Hh) as [Hh' Hp]. destruct (He2 _ Hh') as [Hh'' Hp']. split; [done|congruence].
  - by transitivity (nv_events (iv_content v2)).
  - auto.
  - intros id e o Hid Hn Hh. destruct (nv_events (iv_content v2) !! id) as [[e' o']|] eqn:Hmid.
    + pose proof (lookup_weaken _ _ _ _ Hmid Hs2). simplify_eq. by eapply Hd1.
    + eapply Hd2; [done|done|]. by apply He1.
  - intros id a Hid. destruct (Ha1 _ _ Hid) as [Hmid Hf]. destruct (Ha2 _ _ Hmid) as [Hend Hf']. split; [done|congruence].
  - intros stream. by rewrite Hc2.
Qed.

Lemma scope_preserved owner site c f c' f' cursors cursors' :
  site ≠ owner → in_scope site c f c' f' → (∀ stream, cursors' !! (owner, stream) = cursors !! (owner, stream)) →
  preserved owner (mk_intake_view c cursors f) (mk_intake_view c' cursors' f').
Proof.
  intros Hne (Hp & Hs & Hm & Ha & _) Hc. unfold preserved. simpl. split_and!; [|done| | | |done].
  - intros e [(m & Hm' & Ho) Hrev]. unfold holds_endpoint. destruct Hp as [-> |(e1 & (Hreg & _ & Hsame) & Hmine)]; [split; [|done]; split; [by exists m|done]|].
    assert (e ≠ e1) as He.
    { intros ->. apply (Hmine _ Hm'). split; [congruence|]. intros o Hoo. congruence. }
    pose proof (Hsame _ He) as Hpr. split; [|done]. split.
    + exists m. apply (f_equal pd_row) in Hpr. simpl in Hpr. split; [congruence|done].
    + unfold site_revoked in *. by rewrite Hreg.
  - intros id e He. apply Hm in He as [He|([= ->] & _)]; done.
  - intros id e o He Hn [(m & Hm' & Ho) _]. apply Hm in He as [He|(-> & [He|(m' & Hm'' & Ho')])]; [congruence|done|].
    simplify_eq.
  - intros id a Hid. apply Ha; [done|congruence].
Qed.

(** C20: Whatever frames other sites send, in any order and with any failures. *)
Theorem foreign_frames_inert owner s s' :
  intake_ok s → rtc (λ s s', ∃ site, site ≠ owner ∧ frame_step site s s') s s' →
  preserved owner (intake_view s) (intake_view s').
Proof.
  intros Hok Hrun. induction Hrun as [s|s s1 s' (site & Hne & Hstep) _ IH]; [apply preserved_refl|].
  apply frame_view in Hstep as [Hok1 Hv]; [|done]. eapply preserved_trans; [|by apply IH].
  destruct Hv as [-> |(ids & now & message & q & c & f & completed & cursors & _ & _ & _ & Hc & Hcur & ->)];
    [apply preserved_refl|].
  destruct (intake_view s) as [c0 cursors0 f0] eqn:Hv0. eapply scope_preserved; [exact Hne|by eapply changes_scope|].
  intros stream. simpl in Hcur. destruct Hcur as [-> |[_ ->]]; [done|]. rewrite lookup_insert_ne; congruence.
Qed.

(** ** Verified artifacts *)

Lemma ready_other c f c' f' id :
  ready_verified sha256 c f →
  (∀ k, k ≠ id → nv_artifacts c' !! k = nv_artifacts c !! k ∧ f' !! k = f !! k) →
  (∀ a o, nv_artifacts c' !! id = Some (a, o) → a_state a = Ready →
     sha256 (file_of f' id) = Sha256Hex_into_bytes (a_sha256 a)) →
  ready_verified sha256 c' f'.
Proof.
  intros Hr Hother Hid k a o Hk Hst. destruct (decide (k = id)) as [->|Hne]; [by eapply Hid|].
  destruct (Hother _ Hne) as [Ha Hf]. rewrite Ha in Hk. unfold file_of. rewrite Hf. by eapply Hr.
Qed.

Lemma changes_verified ids site now message c f c' f' completed :
  wire_ok message → changes from_unix_timestamp sha256 ids site now message c f c' f' completed →
  ready_verified sha256 c f → ready_verified sha256 c' f'.
Proof.
  intros Hwire Hc Hr. destruct message as [snapshot|delta|batch|manifest|chunk]; simpl in Hc.
  - destruct Hc as [-> [-> |(p & t & _ & _ & ->)]]; exact Hr.
  - destruct Hc as [-> [-> |(d & t & _ & _ & ->)]]; exact Hr.
  - destruct Hc as [-> [[_ ->]|(owners & es & _ & _ & ->)]]; exact Hr.
  - destruct Hc as [-> [[_ ->]|Hd]]; [exact Hr|].
    destruct (decode_manifest manifest now) as [a|] eqn:Hdec; [|by subst c'].
    apply decode_manifest_inv in Hdec as (_ & Hst & _); [|done].
    destruct (nv_artifacts c !! a_id a) as [x|]; subst c'; [exact Hr|].
    apply (ready_other c f _ _ (a_id a)); [exact Hr|..]; simpl.
    + intros k Hk. by rewrite lookup_insert_ne.
    + intros a' o. rewrite lookup_insert_eq. intros [= <- _]. congruence.
  - destruct Hc as [(_ & -> & ->)|Hd]; [exact Hr|].
    destruct (parse_uuid (ac_artifact_id chunk)) as [id|]; simpl in Hd; [|by destruct Hd as [-> ->]].
    destruct (nv_artifacts c !! id) as [[a o]|] eqn:Ha; simpl in Hd; [|by destruct Hd as [-> ->]].
    case_decide as Ho; [subst o|by destruct Hd as [-> ->]].
    destruct (chunk_fate a chunk) as [| |offset end_] eqn:Hfate; [by destruct Hd as [-> ->]..|].
    apply chunk_fate_continues in Hfate as (Hst & _); [|done].
    destruct Hd as [(_ & -> & Hf)|(Hf & _ & ->)].
    + apply (ready_other c f _ _ id); [exact Hr|..]; [|intros a' o'; congruence].
      intros k Hk. split; [done|]. destruct Hf as [-> |[n ->]]; [done|]. unfold chunk_file. by rewrite lookup_insert_ne.
    + apply (ready_other c f _ _ id); [exact Hr|..].
      * intros k Hk. subst f'. unfold chunk_file. simpl. by rewrite !lookup_insert_ne.
      * intros a' o'. simpl. rewrite lookup_insert_eq. intros [= <- _]. simpl. unfold chunk_state.
        destruct (end_ <? a_size_bytes a); [done|]. by case_decide.
Qed.

(** C23: Whatever the sites send, and however writes are torn, an artifact that is
    ready has a file with the digest it was declared with. *)
Theorem verified_artifacts s s' :
  intake_ok s → ready_verified sha256 (iv_content (intake_view s)) (iv_files (intake_view s)) →
  rtc any_frame s s' → ready_verified sha256 (iv_content (intake_view s')) (iv_files (intake_view s')).
Proof.
  intros Hok Hr Hrun. induction Hrun as [s|s s1 s' [site Hstep] _ IH]; [done|].
  apply frame_view in Hstep as [Hok1 Hv]; [|done]. apply IH; [done|].
  destruct Hv as [-> |(ids & now & message & q & c & f & completed & cursors & Hwire & _ & _ & Hc & _ & ->)]; [done|].
  by eapply changes_verified.
Qed.

(** ** Events *)

(** A report of a message of an endpoint at a time is stored. *)
Definition stored_report (c : ContentView) (endpoint : EndpointId) (message_id : str) (ts : OffsetDateTime) : Prop :=
  ∃ id e o, nv_events c !! id = Some (e, o) ∧ ev_endpoint_id e = endpoint ∧ ev_message_id e = message_id ∧
    ev_event_timestamp e = ts.

Lemma stored_same c x :
  (∀ id e o, nv_events c !! id = Some (e, o) → event_ok e) → event_ok x →
  (∃ id r, nv_events c !! id = Some r ∧ same_report r.1 x) →
  stored_report c (ev_endpoint_id x) (ev_message_id x) (ev_event_timestamp x).
Proof.
  intros Hev (Hm & _ & Hk) (id & [e o] & He & [Hend Hkey]). simpl in *.
  destruct (Hev _ _ _ He) as (Hm' & _ & Hk'). rewrite Hk, Hk' in Hkey. apply dedup_key_inj in Hkey as [Hmm Hts]; [|done..].
  by exists id, e, o.
Qed.

(** C25: A batch that was answered accounts for every record it could decode: a
    record of an endpoint of the site is stored under its message and time, any
    other as a dead letter of its endpoint and time. *)
Theorem batch_accounted io ids site sequence batch now s s' :
  intake_ok s → passes (intake_view s) (rs_instance_id site) StreamEvent sequence = true →
  intake_frame (Epr := Epr) (Ear := Ear) (Ecu := Ecu) from_unix_timestamp sha256 io ids site sequence
    (MsgContent (MsgEventBatch batch)) now s = (s', Ok ()) →
  ∀ record e, record ∈ batch → decode_event from_unix_timestamp record now = Ok e →
  stored_report (iv_content (intake_view s')) (ev_endpoint_id e)
    (if decide (owner_of (nv_projections (iv_content (intake_view s))) (ev_endpoint_id e) ≫= cp_site_id =
                Some (rs_instance_id site))
     then ev_message_id e else CENTER_ABSORBED_EVENT_MESSAGE_ID) (ev_event_timestamp e).
Proof.
  intros Hok Hp Hrun record e Hrecord Hd. apply intake_frame_spec in Hrun as [Hok' Hg]; [|done..].
  destruct Hg as [[_ Hg]|(_ & c & f & completed & Hc & -> & Hv)].
  { specialize (Hg eq_refl). simpl in Hg. congruence. }
  destruct Hc as [_ [[[=] _]|(owners & es & Hown & Hes & ->)]].
  assert (e ∈ decode_events from_unix_timestamp batch now) as He by (apply decode_events_elem; eauto).
  specialize (Hown _ He). apply decode_event_inv in Hd as (Hevent & _).
  apply append_events_Some in Hes as (_ & Hall & _).
  destruct (settle_records_all ids (rs_instance_id site) owners 0 _ e He) as (j & x & Hx & Hin); [apply Hevent|].
  assert (∀ id e o, nv_events (iv_content (intake_view s')) !! id = Some (e, o) → event_ok e) as Hevs.
  { intros id e' o He'. by eapply content_events; [apply Hok'|]. }
  specialize (Hall _ Hin). assert (event_ok x) as Hxok.
  { pose proof (settled_ok from_unix_timestamp ids (rs_instance_id site) owners 0 batch now) as Hs.
    rewrite Forall_forall in Hs. by apply Hs. }
  apply (stored_same (iv_content (intake_view s'))) in Hxok; [|done|rewrite Hv; exact Hall].
  apply settle_record_spec in Hx. unfold owned_in in Hx. rewrite Hown in Hx.
  destruct Hx as [[Ho ->]|(Hno & reason & Hdead)].
  - rewrite decide_True; [done|]. destruct (owner_of _ _); [|done]. simpl in *. congruence.
  - rewrite decide_False; [|destruct (owner_of _ _); simpl in *; congruence].
    apply dead_letter_inv in Hdead as (_ & _ & Hend & Hm & Hts). by rewrite <- Hend, <- Hm, <- Hts.
Qed.

(** An event whose identity another report took stops its whole batch. *)
Lemma append_events_blocked site v e events :
  is_Some (v !! ev_id e) → (∀ id r, v !! id = Some r → ¬ same_report r.1 e) →
  (∀ x, x ∈ events → same_report x e → x = e) → e ∈ events → append_events site v events = None.
Proof.
  intros Hid Hv Hx He. revert v Hid Hv. induction events as [|x events IH]; intros v Hid Hv; [by apply elem_of_nil in He|].
  cbn [append_events]. destruct (append_event site v x) as [v1|] eqn:Hstep1; [|done]. simpl.
  destruct (decide (x = e)) as [->|Hne].
  { rewrite (proj2 (append_event_None site v e) (conj Hid Hv)) in Hstep1. done. }
  apply append_event_Some in Hstep1 as (Hsub & _ & Hof). apply IH.
  - intros y Hy. apply Hx. by right.
  - by apply elem_of_cons in He as [->|He].
  - destruct Hid as [r Hr]. exists r. by eapply lookup_weaken.
  - intros id r [Hr| ->]%Hof; [by eapply Hv|]. simpl. intros Hs. apply Hne, Hx; [by left|done].
Qed.

Lemma decoded_not_dead e d :
  event_ok e → event_ok d → starts_with (lit "Center.") (ev_message_id e) = false →
  ev_message_id d = CENTER_ABSORBED_EVENT_MESSAGE_ID → ¬ same_report d e.
Proof.
  intros (Hm & _ & Hk) (Hm' & _ & Hk') Hs Hd [_ Hkey]. rewrite Hk, Hk' in Hkey.
  apply dedup_key_inj in Hkey as [Heq _]; [|done..]. rewrite <- Heq, Hd in Hs. by vm_compute in Hs.
Qed.

(** C26: A batch with a record of the site whose identity is stored for another
    report is never answered: every delivery fails and changes nothing, the
    records next to it included. *)
Theorem reused_event_id_blocks io ids site sequence batch now s s' r record e :
  intake_ok s → passes (intake_view s) (rs_instance_id site) StreamEvent sequence = true →
  record ∈ batch → decode_event from_unix_timestamp record now = Ok e →
  owner_of (nv_projections (iv_content (intake_view s))) (ev_endpoint_id e) ≫= cp_site_id = Some (rs_instance_id site) →
  is_Some (nv_events (iv_content (intake_view s)) !! ev_id e) →
  (∀ id x, nv_events (iv_content (intake_view s)) !! id = Some x → ¬ same_report x.1 e) →
  (∀ record' e', record' ∈ batch → decode_event from_unix_timestamp record' now = Ok e' → same_report e' e → e' = e) →
  intake_frame (Epr := Epr) (Ear := Ear) (Ecu := Ecu) from_unix_timestamp sha256 io ids site sequence
    (MsgContent (MsgEventBatch batch)) now s = (s', r) →
  r ≠ Ok () ∧ intake_view s' = intake_view s.
Proof.
  intros Hok Hp Hrecord Hd Howner Hid Hnew Hone Hrun. apply intake_frame_spec in Hrun as [_ Hg]; [|done..].
  destruct Hg as [[-> Hg]|(_ & c & f & completed & [-> Hc] & Hv)].
  { split; [|done]. intros ->. specialize (Hg eq_refl). simpl in Hg. congruence. }
  assert (e ∈ decode_events from_unix_timestamp batch now) as He by (apply decode_events_elem; eauto).
  pose proof (decode_event_inv _ _ _ _ Hd) as (Hevent & Hcenter & _).
  destruct Hc as [[-> ->]|(owners & es & Hown & Hes & _)].
  - destruct r as [[]|x]; [by destruct Hv|]. split; [done|]. rewrite Hv. by destruct (intake_view s).
  - exfalso. rewrite (append_events_blocked _ _ e) in Hes; [done|done|done| |].
    + intros x Hx Hsame. apply settle_records_elem in Hx as (j & e' & He' & Hs).
      apply decode_events_elem in He' as (record' & Hr' & Hd').
      apply settle_record_spec in Hs as [[_ ->]|(_ & reason & (Hxok & _ & _ & Hm & _)%dead_letter_inv)]; [by eapply Hone|].
      by destruct (decoded_not_dead e x).
    + destruct (settle_records_all ids (rs_instance_id site) owners 0 _ e He) as (j & x & Hx & Hin); [apply Hevent|].
      apply settle_record_spec in Hx as [[_ ->]|[Hno _]]; [done|]. destruct Hno. unfold owned_in.
      rewrite (Hown _ He). destruct (owner_of _ _); [|done]. simpl in *. congruence.
Qed.

(** Dead letters of one endpoint and one time are one report. *)
Lemma dead_letters_same id1 id2 e1 e2 site reason1 reason2 d1 d2 :
  absorption_dead_letter id1 e1 site reason1 = Ok d1 → absorption_dead_letter id2 e2 site reason2 = Ok d2 →
  ev_endpoint_id e1 = ev_endpoint_id e2 → ev_event_timestamp e1 = ev_event_timestamp e2 → same_report d1 d2.
Proof.
  intros ((_ & _ & Hk1) & _ & He1 & Hm1 & Ht1)%dead_letter_inv ((_ & _ & Hk2) & _ & He2 & Hm2 & Ht2)%dead_letter_inv He Ht.
  split; [congruence|]. by rewrite Hk1, Hk2, Hm1, Hm2, Ht1, Ht2, Ht.
Qed.

(** Of two records of one endpoint and one second that are not the site's, the
    dead letter of the first is the only trace: the second's is dropped, and the
    batch is answered. *)
Theorem twin_dead_letter_lost io ids site sequence record1 record2 now s s' e1 e2 :
  intake_ok s → passes (intake_view s) (rs_instance_id site) StreamEvent sequence = true →
  decode_event from_unix_timestamp record1 now = Ok e1 → decode_event from_unix_timestamp record2 now = Ok e2 →
  ev_endpoint_id e2 = ev_endpoint_id e1 → ev_event_timestamp e2 = ev_event_timestamp e1 →
  owner_of (nv_projections (iv_content (intake_view s))) (ev_endpoint_id e1) ≫= cp_site_id ≠ Some (rs_instance_id site) →
  intake_frame (Epr := Epr) (Ear := Ear) (Ecu := Ecu) from_unix_timestamp sha256 io ids site sequence
    (MsgContent (MsgEventBatch [record1; record2])) now s = (s', Ok ()) →
  ∃ d reason, absorption_dead_letter (ii_dead_letter ids 0) e1 (rs_instance_id site) reason = Ok d ∧
    append_event (Some (rs_instance_id site)) (nv_events (iv_content (intake_view s))) d =
      Some (nv_events (iv_content (intake_view s'))).
Proof.
  intros Hok Hp Hd1 Hd2 Hend Hts Howner Hrun. apply intake_frame_spec in Hrun as [_ Hg]; [|done..].
  destruct Hg as [[_ Hg]|(_ & c & f & completed & Hc & -> & ->)].
  { specialize (Hg eq_refl). simpl in Hg. congruence. }
  destruct Hc as [_ [[[=] _]|(owners & es & Hown & Hes & ->)]]. simpl.
  unfold decode_events in *. simpl in Hown, Hes. rewrite Hd1, Hd2 in Hown, Hes.
  pose proof (decode_event_inv _ _ _ _ Hd1) as (Hev1 & _). pose proof (decode_event_inv _ _ _ _ Hd2) as (Hev2 & _).
  assert (∀ e, e ∈ [e1; e2] → ev_endpoint_id e = ev_endpoint_id e1 → event_ok e → ∀ id, ∃ d reason,
    settle_record (rs_instance_id site) owners id e = Some d ∧
    absorption_dead_letter id e (rs_instance_id site) reason = Ok d) as Hdead.
  { intros e He Hee Hevent id. destruct (settle_record_exists (rs_instance_id site) owners id e) as [d Hd]; [apply Hevent|].
    pose proof (settle_record_spec _ _ _ _ _ Hd) as [[Ho _]|(_ & reason & Hr)]; [|eauto].
    unfold owned_in in Ho. rewrite (Hown _ He), Hee in Ho. destruct (owner_of _ _); simpl in *; congruence. }
  destruct (Hdead e1 ltac:(set_solver) eq_refl Hev1 (ii_dead_letter ids 0)) as (x1 & reason1 & Hs1 & Hx1).
  destruct (Hdead e2 ltac:(set_solver) Hend Hev2 (ii_dead_letter ids 1)) as (x2 & reason2 & Hs2 & Hx2).
  cbn [settle_records] in Hes. rewrite Hs1, Hs2 in Hes. exists x1, reason1. split; [done|].
  cbn [append_events] in Hes. apply bind_Some in Hes as (v1 & H1' & Hes). rewrite H1'. f_equal.
  apply bind_Some in Hes as (v2 & Hv2 & [= <-]).
  apply append_event_Some in H1' as (_ & (id & r & Hr & [Hre Hrk]) & _).
  destruct (dead_letters_same _ _ _ _ _ _ _ _ _ Hx1 Hx2) as [Hee Hkk]; [done..|].
  unfold append_event in Hv2. rewrite decide_False in Hv2; [by injection Hv2|].
  intros Hall. apply (Hall id r Hr). split; congruence.
Qed.
End safety.
