(* ===== verification/TransferSafety.v ===== *)
(** * TransferSafety: an artifact sent chunk by chunk arrives

    A site sends the chunks of an artifact in order, each again and again until it
    is answered, while writes fail or are torn, other sites send what they like
    and the site's own projections and events go on.  When the last chunk has been
    answered the file is the artifact and the row is ready. *)
From S2P Require Import Prelude Text Operation CenterDomain ResourceSnapshot LinkMessages Database EventRepository SyncCursors Artifact ArtifactRepository ArtifactStore CenterStores ProjectionRepository ProjectionSafety CenterSession CenterIntake IntakeContract IntakeSpec IntakeSafety.
Local Open Scope Z_scope.

Definition chunk_size : nat := Z.to_nat CENTER_ARTIFACT_CHUNK_SIZE.

(** The [i]-th chunk of [source]. *)
Definition chunk_bytes (source : list N) (i : nat) : list N := take chunk_size (drop (i * chunk_size) source).
(** How much of [source] the first [k] chunks hold. *)
Definition chunks_end (source : list N) (k : nat) : Z := Z.of_nat (Nat.min (k * chunk_size) (length source)).

(** The artifact of a transfer: its bytes so far are the start of [source] up to a
    chunk boundary, or it is verified and whole. *)
Definition transfer (sha256 : list N → list N) (source : list N) (id : ArtifactId) (site : InstanceId) (k : nat)
    (c : ContentView) (f : Files) : Prop :=
  ∃ a, nv_artifacts c !! id = Some (a, Some site) ∧ a_size_bytes a = Z.of_nat (length source) ∧
    Sha256Hex_into_bytes (a_sha256 a) = sha256 source ∧
    ((a_state a = Ready ∧ file_of f id = source) ∨
     (a_state a = Uploading ∧ (∃ j, a_uploaded_bytes a = Z.of_nat (j * chunk_size)) ∧
      chunks_end source k <= a_uploaded_bytes a < a_size_bytes a ∧
      begins source (file_of f id) ∧ a_uploaded_bytes a <= Z.of_nat (length (file_of f id)))).

Lemma chunk_size_pos : (0 < chunk_size)%nat.
Proof. unfold chunk_size, CENTER_ARTIFACT_CHUNK_SIZE. lia. Qed.
Lemma chunk_size_Z : Z.of_nat chunk_size = CENTER_ARTIFACT_CHUNK_SIZE.
Proof. unfold chunk_size, CENTER_ARTIFACT_CHUNK_SIZE. lia. Qed.
#[local] Opaque chunk_size.

Lemma length_chunk source i :
  length (chunk_bytes source i) = Nat.min chunk_size (length source - i * chunk_size).
Proof. unfold chunk_bytes. rewrite length_take, length_drop. done. Qed.

Lemma chunks_end_S source k :
  chunks_end source (S k) = chunks_end source k + Z.of_nat (length (chunk_bytes source k)).
Proof. unfold chunks_end. rewrite length_chunk. lia. Qed.

(** A part of a chunk, written where the chunk belongs, keeps the file a start of
    the source. *)
Lemma write_chunk_begins source i n f :
  begins source f → (i * chunk_size ≤ length f)%nat →
  let data := take n (chunk_bytes source i) in
  let g := write_bytes (Z.of_nat (i * chunk_size)) data f in
  begins source g ∧ (length f ≤ length g)%nat ∧ (i * chunk_size + length data ≤ length g)%nat.
Proof.
  intros Hf Ho data g. subst g. unfold write_bytes. destruct data as [|b data0] eqn:Hdata.
  - simpl. split; [done|]. lia.
  - rewrite <- Hdata. rewrite Nat2Z.id.
    destruct (write_at_begins source f (i * chunk_size) data) as [Hb Hl]; [done|done| |].
    + unfold data, chunk_bytes. rewrite take_take. rewrite length_take, length_drop.
      rewrite <- (firstn_all (drop (i * chunk_size) source)) at 1. rewrite take_take, length_drop.
      f_equal; lia.
    + split; [done|]. rewrite Hl. lia.
Qed.

Lemma transfer_weaken sha256 source id site k k' c f :
  (k' ≤ k)%nat → transfer sha256 source id site k c f → transfer sha256 source id site k' c f.
Proof.
  intros Hk (a & Ha & Hsz & Hsha & Hst). exists a. do 3 (split; [done|]).
  destruct Hst as [?|(Hup & Hj & Hend & Hb & Hl)]; [by left|]. right. do 2 (split; [done|]). split; [|done].
  unfold chunks_end in *. nia.
Qed.

(** The verdict on the [i]-th chunk of an open transfer that has the chunks before
    it. *)
Lemma honest_fate source i chunk a j :
  ac_index chunk = Z.of_nat i → ac_data chunk = chunk_bytes source i → (i * chunk_size < length source)%nat →
  Z.of_nat (length source) <= ARTIFACT_MAX_SIZE_BYTES →
  a_state a = Uploading → a_size_bytes a = Z.of_nat (length source) →
  a_uploaded_bytes a = Z.of_nat (j * chunk_size) → Z.of_nat (i * chunk_size) <= a_uploaded_bytes a →
  if chunks_end source (S i) <=? a_uploaded_bytes a then chunk_fate a chunk = ChunkCovered
  else a_uploaded_bytes a = Z.of_nat (i * chunk_size) ∧
       chunk_fate a chunk = ChunkContinues (Z.of_nat (i * chunk_size)) (chunks_end source (S i)).
Proof.
  intros Hi Hd Hlt Hmax Hst Hsz Hj Hle. pose proof chunk_size_pos as Hpos.
  pose proof (length_chunk source i) as Hlen.
  assert (chunks_end source (S i) = Z.of_nat (i * chunk_size) + Z.of_nat (length (chunk_bytes source i))) as Hend.
  { rewrite chunks_end_S. unfold chunks_end. lia. }
  assert (ac_index chunk * CENTER_ARTIFACT_CHUNK_SIZE = Z.of_nat (i * chunk_size)) as Hoff
    by (rewrite Hi, <- chunk_size_Z; lia).
  unfold chunk_fate. rewrite Hst, Hd, Hoff, Hsz. cbn [artifact_terminal].
  rewrite decide_False by (intros He; rewrite He in Hlen; simpl in Hlen; lia).
  unfold checked_add_u64. rewrite decide_True by (unfold ARTIFACT_MAX_SIZE_BYTES, U64_MAX in *; lia).
  rewrite <- Hend. destruct (Z.ltb_spec (Z.of_nat (length source)) (chunks_end source (S i))) as [Hbad|Hsize];
    [unfold chunks_end in *; lia|].
  destruct (Z.leb_spec (chunks_end source (S i)) (a_uploaded_bytes a)) as [|Hup]; [done|].
  assert (j = i) as -> by (rewrite Hj in *; unfold chunks_end in Hup; nia).
  rewrite decide_False by auto. by rewrite Hj.
Qed.

Lemma chunk_file_of id offset data f :
  file_of (chunk_file id offset data f) id = write_bytes offset data (file_of f id).
Proof. unfold chunk_file, file_of at 1. by rewrite lookup_insert_eq. Qed.

Lemma begins_whole source f : begins source f → (length source ≤ length f)%nat → f = source.
Proof.
  intros Hb Hl. apply (begins_eq source); [done|unfold begins; by rewrite firstn_all|].
  unfold begins in Hb. apply (f_equal length) in Hb. rewrite length_take in Hb. lia.
Qed.

Section transfers.
Context {St Sc Epr Ear Ecu : Type} `{ContentStoreLaws St Epr Ear} `{CenterCursorLaws Sc Ecu} `{UuidText}.
Context `{!TimestampTextLaws} (from_unix_timestamp : Z → option OffsetDateTime) (sha256 : list N → list N).
Context (source : list N) (id : ArtifactId) (site : InstanceId).
Hypothesis Hmax : Z.of_nat (length source) <= ARTIFACT_MAX_SIZE_BYTES.

Abbreviation transfer_at := (transfer sha256 source id site).

(** The [i]-th chunk of the source, as the site sends it. *)
Definition honest (i : nat) (chunk : WireArtifactChunk) : Prop :=
  parse_uuid (ac_artifact_id chunk) = Some id ∧ ac_index chunk = Z.of_nat i ∧ ac_data chunk = chunk_bytes source i ∧
  (i * chunk_size < length source)%nat.

Lemma honest_change ids now i chunk c f c' f' completed :
  honest i chunk → transfer_at i c f →
  changes from_unix_timestamp sha256 ids site now (MsgArtifactChunk chunk) c f c' f' completed →
  transfer_at i c' f' ∧ (completed = true → transfer_at (S i) c' f').
Proof.
  intros (Hid & Hi & Hd & Hlt) Ht Hc. simpl in Hc. destruct Hc as [(-> & -> & ->)|Hc]; [done|].
  pose proof Ht as (a & Ha & Hsz & Hsha & Hst). rewrite Hid in Hc. simpl in Hc. rewrite Ha in Hc. simpl in Hc.
  rewrite decide_True in Hc by done. destruct Hst as [[Hready Hfile]|(Hup & [j Hj] & Hend & Hb & Hl)].
  { unfold chunk_fate in Hc. rewrite Hready in Hc. simpl in Hc. destruct Hc as [-> ->]. split; [done|]. intros _.
    exists a. do 3 (split; [done|]). by left. }
  pose proof (honest_fate source i chunk a j Hi Hd Hlt Hmax Hup Hsz Hj) as Hfate.
  assert (chunks_end source i = Z.of_nat (i * chunk_size)) as Hstart by (unfold chunks_end; lia).
  specialize (Hfate ltac:(lia)).
  destruct (Z.leb_spec (chunks_end source (S i)) (a_uploaded_bytes a)) as [Hcov|Hnew].
  { rewrite Hfate in Hc. destruct Hc as [-> ->]. split; [done|]. intros _. exists a. do 3 (split; [done|]). right.
    by split_and!; [|exists j|..]; try lia. }
  destruct Hfate as [Hupi Hfate]. rewrite Hfate in Hc.
  assert (∀ n, let g := file_of (chunk_file id (Z.of_nat (i * chunk_size)) (take n (ac_data chunk)) f) id in
    begins source g ∧ (length (file_of f id) ≤ length g)%nat ∧
    (i * chunk_size + length (take n (chunk_bytes source i)) ≤ length g)%nat) as Hwrite.
  { intros n. rewrite chunk_file_of, Hd. apply write_chunk_begins; [done|lia]. }
  destruct Hc as [(-> & -> & Hf)|(Hf & _ & ->)].
  - split; [|done]. destruct Hf as [-> |[n ->]]; [done|]. destruct (Hwrite n) as (Hb' & Hl' & _).
    exists a. do 3 (split; [done|]). right. by split_and!; [|exists j|..]; try lia.
  - destruct (Hwrite (length (ac_data chunk))) as (Hb' & Hl' & Hlen). rewrite firstn_all, <- Hf in Hb', Hl', Hlen.
    rewrite Hd, firstn_all in Hlen.
    assert (transfer_at (S i) (with_artifacts c (<[id := (artifact_updated a (chunks_end source (S i))
      (chunk_state sha256 a id (chunks_end source (S i)) f') now, Some site)]> (nv_artifacts c))) f') as HS.
    { eexists. simpl. rewrite lookup_insert_eq. split; [done|]. do 2 (split; [done|]). simpl. unfold chunk_state.
      rewrite Hsz. rewrite chunks_end_S in *. destruct (Z.ltb_spec (chunks_end source i + Z.of_nat (length (chunk_bytes source i))) (Z.of_nat (length source))) as [Hmore|Hdone].
      - right. split; [done|]. split; [exists (S i); rewrite length_chunk in *; lia|]. split_and!; [lia|lia|done|lia].
      - left. assert (file_of f' id = source) as Hfile by (apply begins_whole; [done|lia]).
        rewrite Hfile, Hsha. by rewrite decide_True. }
    split; [by eapply transfer_weaken; [|exact HS]; lia|done].
Qed.

(** A change that is not of the artifact stream leaves artifacts and files alone. *)
Lemma other_stream_change ids now message c f c' f' completed :
  stream_of message ≠ StreamArtifact →
  changes from_unix_timestamp sha256 ids site now message c f c' f' completed →
  nv_artifacts c' = nv_artifacts c ∧ f' = f.
Proof.
  destruct message as [snapshot|delta|batch|manifest|chunk]; simpl; intros Hs Hc; try done.
  - destruct Hc as [-> [-> |(p & t & _ & _ & ->)]]; done.
  - destruct Hc as [-> [-> |(d & t & _ & _ & ->)]]; done.
  - destruct Hc as [-> [[_ ->]|(owners & es & _ & _ & ->)]]; done.
Qed.

Lemma transfer_same k c f c' f' :
  nv_artifacts c' !! id = nv_artifacts c !! id → f' !! id = f !! id → transfer_at k c f → transfer_at k c' f'.
Proof. intros Ha Hf (a & Hrow & Hst). exists a. unfold file_of in *. by rewrite Ha, Hf. Qed.

(** ** The delivery *)

(** The sequences of the chunks. *)
Context (sequences : nat → Z).
Hypothesis Hsequences : ∀ k, (k * chunk_size < length source)%nat →
  0 <= sequences k < sequences (S k) ∧ sequences (S k) <= U64_MAX.

Inductive delivery : relation (nat * Intake St Sc) :=
| deliver_chunk io ids sender now k chunk s s' (r : result () (CenterProjectionError Epr Ear Ecu)) :
    rs_instance_id sender = site → honest k chunk →
    intake_frame from_unix_timestamp sha256 io ids sender (sequences k) (MsgContent (MsgArtifactChunk chunk)) now s = (s', r) →
    delivery (k, s) (match r with Ok _ => S k | Err _ => k end, s')
| deliver_foreign other k s s' :
    other ≠ site → frame_step (Epr := Epr) (Ear := Ear) (Ecu := Ecu) from_unix_timestamp sha256 other s s' →
    delivery (k, s) (k, s')
| deliver_stream io ids sender sequence message now k s s' (r : result () (CenterProjectionError Epr Ear Ecu)) :
    rs_instance_id sender = site → wire_ok message → stream_of message ≠ StreamArtifact →
    intake_frame from_unix_timestamp sha256 io ids sender sequence (MsgContent message) now s = (s', r) →
    delivery (k, s) (k, s').

(** The next chunk passes the cursor, and the ones before it have arrived. *)
Definition delivering (k : nat) (s : Intake St Sc) : Prop :=
  intake_ok s ∧ passes (intake_view s) site StreamArtifact (sequences k) = true ∧
  transfer_at k (iv_content (intake_view s)) (iv_files (intake_view s)).

Lemma passes_same v v' stream q :
  iv_cursors v' !! (site, stream) = iv_cursors v !! (site, stream) → passes v' site stream q = passes v site stream q.
Proof. unfold passes. by intros ->. Qed.

Lemma honest_wire k chunk : honest k chunk → wire_ok (MsgArtifactChunk chunk).
Proof.
  intros (_ & Hi & _ & Hlt). pose proof chunk_size_pos. unfold ARTIFACT_MAX_SIZE_BYTES in Hmax.
  simpl. rewrite Hi. unfold U32_MAX. nia.
Qed.

Lemma chunk_step io ids sender now k chunk s s' (r : result () (CenterProjectionError Epr Ear Ecu)) :
  rs_instance_id sender = site → honest k chunk →
  intake_frame from_unix_timestamp sha256 io ids sender (sequences k) (MsgContent (MsgArtifactChunk chunk)) now s = (s', r) →
  delivering k s → delivering (match r with Ok _ => S k | Err _ => k end) s'.
Proof.
  intros Hs Hh Hrun (Hok & Hp & Ht). apply intake_frame_spec in Hrun as [Hok' Hg]; [|by eapply honest_wire|done].
  rewrite Hs in Hg.
  destruct Hg as [[Hv Hpass]|(_ & c & f & completed & Hc & Hv)].
  { unfold delivering. rewrite Hv. destruct r as [[]|]; [|done]. specialize (Hpass eq_refl). simpl in Hpass. congruence. }
  destruct (honest_change _ _ _ _ _ _ _ _ _ Hh Ht Hc) as [Hk HS].
  destruct r as [u|x]; [destruct Hv as [-> Hv]|]; unfold delivering; rewrite Hv; simpl; split; [done| |done|].
  - split; [|auto]. unfold passes. simpl. rewrite lookup_insert_eq. destruct (Hsequences k) as [Hlt Hle]; [apply Hh|].
    rewrite parse_u64_decimal by (unfold U64_MAX in Hle; lia). apply Z.ltb_lt. lia.
  - split; [|done]. by erewrite passes_same.
Qed.

Lemma delivery_step k s k' s' : delivery (k, s) (k', s') → delivering k s → delivering k' s'.
Proof.
  intros Hstep. remember (k, s) as x eqn:Hx. remember (k', s') as y eqn:Hy. revert Hx Hy.
  destruct Hstep as [io ids sender now k0 chunk s0 s0' r Hs Hh Hrun|other k0 s0 s0' Hne Hstep|
    io ids sender sequence message now k0 s0 s0' r Hs Hwire Hne Hrun]; intros [= <- <-] [= <- <-].
  - by eapply chunk_step.
  - intros (Hok & Hp & Ht). apply frame_view in Hstep as [Hok' Hv]; [|done].
    destruct Hv as [Hv|(ids & now & message & q & c & f & completed & cursors & _ & _ & _ & Hc & Hcur & Hv)];
      [unfold delivering; by rewrite Hv|].
    apply changes_scope in Hc as (_ & _ & _ & Hscope & _). split; [done|]. split.
    + rewrite <- Hp. apply passes_same. rewrite Hv. simpl. destruct Hcur as [-> |[_ ->]]; [done|].
      rewrite lookup_insert_ne; [done|]. intros [= Heq _]. by apply Hne.
    + destruct Ht as (a & Ha & Hst). destruct (Hscope _ _ _ Ha) as [Ha' Hf']; [congruence|].
      apply (transfer_same k0 (iv_content (intake_view s0)) (iv_files (intake_view s0)));
        [by rewrite Hv, Ha, <- Ha'|by rewrite Hv|by exists a].
  - intros (Hok & Hp & Ht). apply intake_frame_spec in Hrun as [Hok' Hg]; [|done..].
    destruct Hg as [[Hv _]|(_ & c & f & completed & Hc & Hv)]; [unfold delivering; by rewrite Hv|].
    rewrite Hs in *. destruct (other_stream_change _ _ _ _ _ _ _ _ Hne Hc) as [Ha Hf]. split; [done|].
    assert (iv_content (intake_view s0') = c ∧ iv_files (intake_view s0') = f ∧
      iv_cursors (intake_view s0') !! (site, StreamArtifact) = iv_cursors (intake_view s0) !! (site, StreamArtifact)) as (-> & -> & Hcur).
    { destruct r as [u|x]; [destruct Hv as [_ Hv]|]; rewrite Hv; simpl; split; try done; split; try done.
      rewrite lookup_insert_ne; [done|]. intros [= Heq]. by apply Hne. }
    split; [by rewrite <- Hp; apply passes_same|]. eapply transfer_same; [..|done]; congruence.
Qed.

Lemma delivery_steps x y : rtc delivery x y → delivering x.1 x.2 → delivering y.1 y.2.
Proof.
  induction 1 as [|[k s] [k1 s1] y Hstep _ IH]; [done|]. intros Hd. apply IH. by eapply delivery_step.
Qed.

(** The manifest the site announces the artifact with. *)
Definition announces (manifest : WireArtifactManifest) : Prop :=
  parse_uuid (LinkMessages.am_artifact_id manifest) = Some id ∧ am_total_bytes manifest = Z.of_nat (length source) ∧
  LinkMessages.am_sha256 manifest = sha256 source ∧ wire_ok (MsgArtifactManifest manifest).

(** The artifact is unknown and has no bytes. *)
Definition unknown (v : IntakeView) : Prop :=
  nv_artifacts (iv_content v) !! id = None ∧ file_of (iv_files v) id = [].

Lemma manifest_opens io ids sender sequence manifest now s s' :
  intake_ok s → rs_instance_id sender = site → announces manifest → is_ok (decode_manifest manifest now) = true →
  passes (intake_view s) site StreamArtifact sequence = true → 0 <= sequence < sequences 0 → unknown (intake_view s) →
  intake_frame (Epr := Epr) (Ear := Ear) (Ecu := Ecu) from_unix_timestamp sha256 io ids sender sequence
    (MsgContent (MsgArtifactManifest manifest)) now s = (s', Ok ()) →
  delivering 0 s'.
Proof.
  intros Hok Hs (Hid & Htotal & Hsha & Hwire) [a Hd]%is_ok_true Hp Hq [Hnone Hfile] Hrun.
  apply intake_frame_spec in Hrun as [Hok' Hg]; [|done..]. rewrite Hs in Hg.
  destruct Hg as [[_ Hpass]|(_ & c & f & completed & [-> Hc] & -> & Hv)].
  { specialize (Hpass eq_refl). simpl in Hpass. congruence. }
  rewrite Hd in Hc. destruct Hc as [[[=] _]|Hc].
  pose proof Hd as (_ & Hst & Hup & Hsz & Hsize & Haid & Hdigest)%decode_manifest_inv; [|done].
  rewrite Hid in Haid. injection Haid as Haid. rewrite <- Haid, Hnone in Hc. unfold delivering. rewrite Hv, Hc.
  split; [done|]. simpl. split.
  - unfold passes. simpl. rewrite lookup_insert_eq. pose proof (Hsequences 0 ltac:(lia)).
    rewrite parse_u64_decimal by (unfold U64_MAX in *; lia). apply Z.ltb_lt. lia.
  - exists a. simpl. rewrite lookup_insert_eq. split; [done|]. split; [congruence|]. split; [congruence|]. right.
    simpl in Hfile. rewrite Hfile, Hup. split; [done|]. split; [by exists 0%nat|]. unfold chunks_end. split; [lia|].
    by split; [|simpl; lia].
Qed.

(** C24: A site announces an artifact the center does not know, and sends its chunks
    until each is answered: whatever fails, is torn, is repeated or comes in
    between, the file is the artifact and the row is ready. *)
Theorem transfer_completes io ids sender sequence manifest now s s1 k s' :
  intake_ok s → rs_instance_id sender = site → announces manifest → is_ok (decode_manifest manifest now) = true →
  passes (intake_view s) site StreamArtifact sequence = true → 0 <= sequence < sequences 0 → unknown (intake_view s) →
  intake_frame (Epr := Epr) (Ear := Ear) (Ecu := Ecu) from_unix_timestamp sha256 io ids sender sequence
    (MsgContent (MsgArtifactManifest manifest)) now s = (s1, Ok ()) →
  rtc delivery (0%nat, s1) (k, s') → (length source ≤ k * chunk_size)%nat →
  file_of (iv_files (intake_view s')) id = source ∧
  ∃ a, nv_artifacts (iv_content (intake_view s')) !! id = Some (a, Some site) ∧ a_state a = Ready.
Proof.
  intros Hok Hs Ha Hd Hp Hq Hu Hman Hrun Hk. apply delivery_steps in Hrun; [|by eapply manifest_opens].
  destruct Hrun as (_ & _ & a & Hrow & Hsz & _ & [[Hst Hf]|(_ & _ & Hend & _)]); [eauto|].
  exfalso. simpl in Hend. unfold chunks_end in Hend. lia.
Qed.
End transfers.
