(* ===== verification/IntakeSqlite.v ===== *)
(** * IntakeSqlite: the store of reports is the SQLite store

    [CenterProjectionRepository] and [ArtifactRepository] as
    [persistence/src/application_adapter.rs] implements them on one database, and
    the proof that its tables keep the contract of [IntakeContract]. *)
From S2P Require Import Prelude Text Operation OperationEngine CommandCipher Database OperationRepository CenterDomain LinkMessages Artifact ArtifactRepository ArtifactStore ResourceSnapshot CenterStores BindingRepository.
From S2P Require Import CenterSession EventRepository SyncCursors ProjectionRepository ProjectionSafety CenterIntake IntakeContract.
Local Open Scope Z_scope.

Record ContentTables := mk_content_tables {
  xt_projections : ProjectionTables;
  xt_events : EventTable;
  xt_artifacts : ArtifactTable;
}.

Section store.
Context (env : Env) `{TimestampText}.

Definition put_projections_table t x : ContentTables := mk_content_tables x (xt_events t) (xt_artifacts t).
Definition put_events_table t x : ContentTables := mk_content_tables (xt_projections t) x (xt_artifacts t).
Definition put_artifacts_table t x : ContentTables := mk_content_tables (xt_projections t) (xt_events t) x.

Abbreviation Err_ := CenterProjectionRepositoryError.
Definition with_projection_tables {A} (m : M (World ProjectionTables) Err_ A) : M (World ContentTables) Err_ A :=
  on_tables xt_projections put_projections_table id m.
Definition with_event_table {A} (m : M (World EventTable) EventRepositoryError A) : M (World ContentTables) Err_ A :=
  on_tables xt_events put_events_table ProjectionEvent m.
Definition with_artifact_table {E A} (err : ArtifactRepositoryError → E) (m : M (World ArtifactTable) ArtifactRepositoryError A)
    : M (World ContentTables) E A :=
  on_tables xt_artifacts put_artifacts_table err m.

#[export] Instance sqlite_content : CenterProjectionRepository (World ContentTables) Err_ := {
  cpr_upsert_endpoint ids p site now := with_projection_tables (upsert_endpoint_projection env ids p site now);
  cpr_delete_endpoint e site := with_projection_tables (delete_endpoint_projection env e site);
  cpr_upsert_resource ids p site now := with_projection_tables (upsert_resource_projection env ids p site now);
  cpr_delete_resource e odata site := with_projection_tables (delete_resource_projection env e odata site);
  cpr_upsert_events events site := with_event_table (append_center_events env events site);
  cpr_declare_artifact a site := with_artifact_table ProjectionArtifact (declare_center_artifact env a site);
  cpr_find_artifact_site id := with_artifact_table ProjectionArtifact (find_artifact_site env id);
  cpr_find_endpoint_projections endpoints := with_projection_tables (sqlite_find_endpoint_projections env endpoints);
}.
#[export] Instance sqlite_content_artifacts : ArtifactRepository (World ContentTables) ArtifactRepositoryError := {
  ar_create_artifact a := with_artifact_table (λ e, e) (create_artifact env a);
  ar_find_artifact id := with_artifact_table (λ e, e) (find_artifact env id);
  ar_list_artifacts_by_state st := with_artifact_table (λ e, e) (list_artifacts_by_state env st);
  ar_update_artifact id uploaded st at_ := with_artifact_table (λ e, e) (update_artifact env id uploaded st at_);
}.

(** ** What the tables say *)

Definition reported_artifacts (t : ArtifactTable) : gmap ArtifactId (Artifact * option InstanceId) :=
  map_imap (λ id a, Some (a, t !! id ≫= am_site_id)) (artifact_view_of t).
Definition content_of (t : ContentTables) : ContentView :=
  mk_content_view (xt_projections t) (events_view (xt_events t)) (reported_artifacts (xt_artifacts t)).
Definition content_tables_ok (t : ContentTables) : Prop :=
  projections_keyed (xt_projections t) ∧ events_ok (xt_events t) ∧ artifact_table_ok (xt_artifacts t).

Lemma reported_lookup t id :
  reported_artifacts t !! id = (λ a, (a, t !! id ≫= am_site_id)) <$> artifact_view_of t !! id.
Proof. unfold reported_artifacts. rewrite map_lookup_imap. by destruct (artifact_view_of t !! id). Qed.

Lemma reported_insert t id a m :
  artifact_view_of (<[id := m]> t) = <[id := a]> (artifact_view_of t) →
  reported_artifacts (<[id := m]> t) = <[id := (a, am_site_id m)]> (reported_artifacts t).
Proof.
  intros Hv. apply map_eq. intros k. rewrite reported_lookup, Hv. destruct (decide (k = id)) as [->|Hne].
  - by rewrite !lookup_insert_eq.
  - by rewrite !lookup_insert_ne, reported_lookup by done.
Qed.

(** A declaration writes at most its own row, under its site. *)
Lemma declare_row site a w w' :
  declare_artifact env site a w = (w', Ok ()) →
  (w_db w' = w_db w ∧ is_Some (w_db w !! a_id a)) ∨
  (w_db w !! a_id a = None ∧ ∃ m, w_db w' = <[a_id a := m]> (w_db w) ∧ am_site_id m = site).
Proof.
  intros Hrun. apply gated_write in Hrun as [(e & [=] & _)|([] & w1 & w2 & _ & Hw1 & Hbody & ->)].
  rewrite <- Hw1. apply mbind_ok in Hbody as (row & w3 & Hs & Hbody). apply select_ok in Hs as [Hdb ->].
  destruct (w_db w1 !! a_id a) as [m|] eqn:Hrow.
  - injection Hbody as <-. left. by split.
  - right. split; [done|]. unfold insert_artifact_model in Hbody. inv_run. rewrite Hdb, Hrow in Hbody.
    injection Hbody as <-. by eexists.
Qed.

(** An update keeps the site of the row. *)
Lemma update_row id uploaded st at_ w w' :
  artifact_table_ok (w_db w) → update_artifact env id uploaded st at_ w = (w', Ok ()) →
  ∃ m m', w_db w !! id = Some m ∧ w_db w' = <[id := m']> (w_db w) ∧ am_site_id m' = am_site_id m.
Proof.
  intros Hok Hrun. apply gated_write in Hrun as [(e & [=] & _)|([] & w1 & w2 & _ & Hw1 & Hbody & ->)].
  rewrite <- Hw1 in *. unfold find_artifact_model, update_artifact_model in Hbody. inv_run.
  match goal with Hr : w_db w1 !! id = Some ?m0 |- _ => rename Hr into Hrow; rename m0 into m end.
  match goal with Hx : w_db _ = w_db w1 |- _ => rename Hx into Hdb end.
  exists m. destruct (Hok _ _ Hrow) as [Hid _].
  destruct (artifact_terminal _); [inv_run|]. inv_run.
  revert Hbody. destruct (uploaded <? _); [intros; inv_run|]. destruct (_ <? uploaded); [intros; inv_run|].
  destruct (decide _); [intros; inv_run|]. intros Hbody. inv_run.
  rewrite Hdb, Hrow in Hbody. injection Hbody as <-. by eexists.
Qed.

(** ** The contract, discharged *)

Lemma content_same t x : xt_projections t = x → put_projections_table t x = t.
Proof. intros <-. by destruct t. Qed.
Lemma events_same t x : xt_events t = x → put_events_table t x = t.
Proof. intros <-. by destruct t. Qed.
Lemma artifacts_same t x : xt_artifacts t = x → put_artifacts_table t x = t.
Proof. intros <-. by destruct t. Qed.

(** A write of the projections, from its specification on their tables. *)
Lemma projection_law (m : M (World ProjectionTables) Err_ ProjectionWriteOutcome) (P : relation ProjectionTables) e :
  (∀ w w' r, projections_keyed (w_db w) → m w = (w', r) →
     match r with Ok Applied => touches e (w_db w) (w_db w') ∧ P (w_db w) (w_db w') | _ => w_db w' = w_db w end) →
  ∀ w w' r, content_tables_ok (w_db w) → with_projection_tables m w = (w', r) →
  projects (λ w, content_of (w_db w)) (λ w, content_tables_ok (w_db w)) P w w' r.
Proof.
  intros Hm w w' r (Hk & He & Ha) Hrun. apply on_tables_inv in Hrun as (t & r0 & Hrun & Hdb & ->).
  apply Hm in Hrun; [|done]. simpl in Hrun. unfold projects. rewrite Hdb.
  destruct r0 as [[|reason]|x]; simpl; [|by rewrite content_same..].
  destruct Hrun as [(Hreg & Hkeyed & _) HP]. split; [|by exists (w_db t)]. split; [by apply Hkeyed|done].
Qed.

Lemma find_projections_ok endpoints w w' r :
  projections_keyed (w_db w) → sqlite_find_endpoint_projections env endpoints w = (w', r) →
  w_db w' = w_db w ∧ ∀ m, r = Ok m → ∀ e, e ∈ endpoints → m !! e = owner_of (w_db w) e.
Proof.
  intros [_ Hk] Hrun. unfold sqlite_find_endpoint_projections in Hrun. destruct endpoints as [|e0 es].
  { injection Hrun as <- <-. split; [done|]. by intros ? _ ? ?%elem_of_nil. }
  apply lookup_inv in Hrun as [Hdb Hr]; [|by intros ???? [= <- _]]. split; [done|]. intros m ->.
  destruct (Hr _ eq_refl) as [w1 Hm]. injection Hm as <-. intros e He. apply option_eq. intros x.
  unfold owner_of. rewrite fmap_Some. rewrite <- elem_of_list_to_map'.
  - rewrite list_elem_of_fmap. split.
    + intros (row & [= -> ->] & [_ Hin]%list_elem_of_filter). apply list_elem_of_fmap in Hin as ([k row'] & -> & Hin).
      apply elem_of_map_to_list in Hin. simpl. exists row'. rewrite (Hk _ _ Hin) in *. done.
    + intros (row & Hrow & ->). exists row. rewrite (Hk _ _ Hrow). split; [done|]. apply list_elem_of_filter.
      rewrite (Hk _ _ Hrow). split; [done|]. apply list_elem_of_fmap. exists (e, row). split; [done|]. by apply elem_of_map_to_list.
  - intros x' Hx Hx'. apply list_elem_of_fmap in Hx as (row & [= -> ->] & [_ Hin]%list_elem_of_filter).
    apply list_elem_of_fmap in Hx' as (row' & [= Heq ->] & [_ Hin']%list_elem_of_filter).
    apply list_elem_of_fmap in Hin as ([k r1] & -> & Hin), Hin' as ([k' r2] & -> & Hin').
    apply elem_of_map_to_list in Hin, Hin'. simpl in *. rewrite (Hk _ _ Hin), (Hk _ _ Hin') in Heq. subst k'. congruence.
Qed.

#[export, refine] Instance sqlite_content_laws `{!TimestampTextLaws} :
  @ContentStoreLaws (World ContentTables) Err_ ArtifactRepositoryError sqlite_content sqlite_content_artifacts _ :=
  {| content w := content_of (w_db w); content_ok w := content_tables_ok (w_db w) |}.
Proof.
  - by intros w (Hk & _).
  - intros w id e o (_ & He & _) Hid. simpl in Hid. unfold events_view in Hid. rewrite decoded_lookup in Hid.
    apply bind_Some in Hid as (m & _ & Hm). apply decode_reported_inv in Hm as [Hm _].
    by apply decode_event_row_inv in Hm as (_ & _ & ? & _ & _ & _ & ?).
  - intros ids p site now. apply (projection_law _ _ (ew_endpoint_id p)). intros w w' r _ Hrun.
    apply upsert_endpoint_spec in Hrun. destruct r as [[|]|]; [|done..]. destruct Hrun as (Ht & Hf & Hr & Hn). done.
  - intros e site. apply (projection_law _ _ e). intros w w' r _ Hrun.
    apply delete_endpoint_spec in Hrun. destruct r as [[|]|]; [|done..]. destruct Hrun as (Ht & Hr & Hn). done.
  - intros ids p site now. apply (projection_law _ _ (rw_endpoint_id p)). intros w w' r Hk Hrun.
    apply upsert_resource_spec in Hrun; [|done]. destruct r as [[|]|]; [|done..]. by destruct Hrun as (Ht & Hf & Hr & Hn).
  - intros e odata site. apply (projection_law _ _ e). intros w w' r _ Hrun.
    apply delete_resource_spec in Hrun. destruct r as [[|]|]; [|done..]. by destruct Hrun as (Ht & Hr).
  - intros events site w w' r (Hk & He & Ha) Hev Hrun. apply on_tables_inv in Hrun as (t & r0 & Hrun & Hdb & ->).
    eapply append_center_events_spec in Hrun as [Hok Hr]; [|done..]. unfold writes. rewrite Hdb. split; [done|].
    destruct r0 as [[]|x]; simpl in *; [eauto|]. by rewrite events_same.
  - intros endpoints w w' r (Hk & He & Ha) Hrun. apply on_tables_inv in Hrun as (t & r0 & Hrun & Hdb & ->).
    apply find_projections_ok in Hrun as [Ht Hr]; [|done]. unfold reads. rewrite Hdb, content_same by done.
    split; [done|]. split; [done|]. intros m Hm. destruct r0; simplify_eq/=. by apply Hr.
  - intros a site w w' r (Hk & He & Ha) Hdecl Hrun. apply on_tables_inv in Hrun as (t & r0 & Hrun & Hdb & ->).
    pose proof Hrun as Href. apply declare_refines in Href as [Hok Href]; [|done..]. unfold writes. rewrite Hdb.
    split; [done|]. destruct r0 as [[]|x]; simpl in *.
    + apply declare_row in Hrun. simpl in Hrun. unfold content_of. simpl. rewrite reported_lookup.
      destruct Hrun as [[Hsame [m Hm]]|(Hnone & m & Ht & Hsite)].
      * destruct (artifact_view_row _ _ _ Ha Hm) as (b & _ & Hb & _). rewrite Hb. simpl. by rewrite Hsame.
      * rewrite (artifact_view_none _ _ Hnone) in Href |- *. simpl. unfold with_artifacts. simpl. f_equal.
        rewrite Ht in Href |- *. apply reported_insert in Href. simpl. by rewrite Href, Hsite.
    + apply gated_write in Hrun as [(? & _ & Ht)|(? & ? & ? & [=] & _)]. by rewrite Ht, artifacts_same.
  - intros id w w' r (Hk & He & Ha) Hrun. apply on_tables_inv in Hrun as (t & r0 & Hrun & Hdb & ->).
    apply lookup_inv in Hrun as [Ht Hr]; [|by intros ???? [= <- _]]. unfold reads. rewrite Hdb, artifacts_same by done.
    split; [done|]. split; [done|]. intros x Hx. destruct r0 as [y|]; simplify_eq/=.
    destruct (Hr _ eq_refl) as [w1 [= <-]]. rewrite reported_lookup.
    destruct (xt_artifacts (w_db w) !! id) as [m|] eqn:Hm.
    + by destruct (artifact_view_row _ _ _ Ha Hm) as (b & _ & -> & _).
    + by rewrite (artifact_view_none _ _ Hm).
  - intros id w w' r (Hk & He & Ha) Hrun. apply on_tables_inv in Hrun as (t & r0 & Hrun & Hdb & ->).
    apply find_artifact_refines in Hrun as [Ht Hr]; [|done]. unfold reads. rewrite Hdb, artifacts_same by done.
    split; [done|]. split; [done|]. intros x Hx. destruct r0 as [y|]; simplify_eq/=.
    rewrite reported_lookup. by destruct (artifact_view_of _ !! id).
  - intros id uploaded st at_ w w' r (Hk & He & Ha) Hpos Hrun. apply on_tables_inv in Hrun as (t & r0 & Hrun & Hdb & ->).
    pose proof Hrun as Href. apply update_artifact_refines in Href as [Hok Href]; [|done..]. unfold writes. rewrite Hdb.
    split; [done|]. destruct r0 as [[]|x]; simpl in *.
    + apply update_row in Hrun as (m & m' & Hm & Ht & Hsite); [|done]. simpl in Hm.
      destruct Href as (a & Hv & Hall & Hv'). exists a, (am_site_id m). unfold content_of. simpl.
      rewrite reported_lookup, Hv, Hm. split; [done|]. split; [done|]. unfold with_artifacts. simpl. f_equal.
      rewrite Ht in Hv' |- *. apply reported_insert in Hv'. simpl. by rewrite Hv', Hsite.
    + apply gated_write in Hrun as [(? & _ & Ht)|(? & ? & ? & [=] & _)]. by rewrite Ht, artifacts_same.
Defined.
End store.

(** ** The center's stores are its SQLite tables

    The services of the center are proved against the contracts of [CenterStores];
    the tables of the repositories keep them.  Here the one that was left, the
    listing by endpoint of [persistence/src/operation_repository.rs]. *)

Section listing.
Context (env : Env) {Command Key : Type} `{CipherSuiteLaws Key, CommandJsonLaws Command} (command_key : option Key).
Context (Hrandom : ∀ n, random_ok (env_random env n)).

Definition repository_listing : EndpointListing Command (World Tables) OperationRepositoryError :=
  list_operations_for_endpoint env command_key.

Definition repository_listing_laws :
  @EndpointListingLaws Command (World Tables) OperationRepositoryError (repository_store env command_key)
    (repository_laws env command_key Hrandom) repository_listing.
Proof.
  intros f endpoint w w' r Hok Hrun. unfold store_list_for_endpoint, repository_listing in Hrun.
  destruct r as [l|x].
  - apply (list_for_endpoint_listing env command_key) in Hrun as [Hdb (_ & _ & Hl)]; [|done].
    split; [simpl; by rewrite Hdb|]. split; [simpl; by rewrite Hdb|]. intros l' [= <-]. exact Hl.
  - pose proof (transaction_err env _ _ _ _ Hrun) as Hdb. split; [simpl; by rewrite Hdb|].
    split; [simpl; by rewrite Hdb|done].
Defined.
End listing.
