(* ===== verification/CenterProcessor.v ===== *)
(** * CenterProcessor: the consumer behind a connection

    Models [CenterFrameProcessor] of [application/src/center/dispatch.rs]: replies
    go to the tracking, everything else to the projection.  Both read the
    projections of one store, which is the store of [CenterIntake]; a connection
    of [CenterSession] with this consumer acknowledges no content frame that the
    cursor of its stream does not cover. *)
From S2P Require Import Prelude Text Operation OperationEngine CenterDomain LinkMessages Database EventRepository SyncCursors Artifact ArtifactRepository ArtifactStore CenterOutbox SiteSync CenterStores CenterDispatch CenterTracking ProjectionRepository ProjectionSafety CenterSession SessionSafety CenterIntake IntakeContract IntakeSpec IntakeSafety.
Local Open Scope Z_scope.

(** The reads of the services, in the store of the consumer. *)
Section reads.
Context {St Sc E : Type}.

#[export] Instance intake_reads `{ProjectionReads St E} : ProjectionReads (Intake St Sc) E := {
  find_endpoint_projection endpoint := zoom ik_store put_store (λ e, e) (find_endpoint_projection endpoint);
  has_resource endpoint target := zoom ik_store put_store (λ e, e) (has_resource endpoint target);
}.

#[export] Instance intake_reads_laws `{ProjectionReadsLaws St E} : ProjectionReadsLaws (Intake St Sc) E.
Proof.
  refine {| projections s := projections (ik_store s); projections_ok s := projections_ok (ik_store s) |}.
  - intros endpoint s s' r Hok Hrun. apply zoom_inv in Hrun as (t & r0 & Hrun & -> & ->).
    apply law_find_endpoint_projection in Hrun as (? & ? & Hr); [|done]. split; [done|]. split; [done|].
    intros x Hx. destruct r0; simplify_eq/=. by apply Hr.
  - intros endpoint target s s' r Hok Hrun. apply zoom_inv in Hrun as (t & r0 & Hrun & -> & ->).
    apply law_has_resource in Hrun as (? & ? & Hr); [|done]. split; [done|]. split; [done|].
    intros x Hx. destruct r0; simplify_eq/=. by apply Hr.
Defined.
End reads.

Inductive CenterFrameProcessorError (Epr Etr : Type) :=
| ProcessorProjection (source : Epr)
| ProcessorTracking (source : Etr).
Arguments ProcessorProjection {Epr Etr}.
Arguments ProcessorTracking {Epr Etr}.

Section processor.
Context {Command Sop Sob Sac St Sc Sin Eop Eob Epr Ear Ecu Ein : Type}.
Context `{OperationStore Command Sop Eop} `{EnvelopeJson} `{UuidText}.
Context `{OutboxStore Sob Eob} `{InboxStore Sin Ein}.
Context `{!ProjectionReads St Epr} `{!CenterProjectionRepository St Epr} `{!ArtifactRepository St Ear}.
Context `{!CenterCursor Sc Ecu} `{TimestampText}.
Context (from_unix_timestamp : Z → option OffsetDateTime) (new_v5_oid : list N → Uuid) (sha256 : list N → list N).

(** The environment of one frame: its fresh identities and the file system. *)
Record FrameEnv := mk_frame_env { fr_track : TrackIds; fr_intake : IntakeIds; fr_files : FileEnv }.

Abbreviation Node := (Center Sop Sob Sac (Intake St Sc) Sin).
Abbreviation ProcessorError :=
  (CenterFrameProcessorError (CenterProjectionError Epr Ear Ecu) (CenterTrackingError Eop Epr Eob Ein)).

(** [CenterFrameProcessor::on_frame]. *)
Definition process_frame (fr : FrameEnv) (site : ResolvedSite) (envelope : Envelope) (now : OffsetDateTime)
    : M Node ProcessorError () :=
  match en_message envelope with
  | Some (MsgReply _) =>
      mmap_err ProcessorTracking
        (on_reply (Command := Command) from_unix_timestamp new_v5_oid (fr_track fr) (rs_instance_id site) envelope now)
  | Some message =>
      on_projections ProcessorProjection
        (intake_frame from_unix_timestamp sha256 (fr_files fr) (fr_intake fr) site (en_sequence envelope) message now)
  | None => mret ()
  end.
End processor.

(** ** Acknowledged frames are covered *)

Section session.
Context {Command Sop Sob Sac St Sc Sin Eop Eob Epr Ear Ecu Ein : Type}.
Context `{OperationStore Command Sop Eop} `{EnvelopeJson} `{OutboxStore Sob Eob} `{InboxStore Sin Ein}.
Context `{!ProjectionReads St Epr} `{ContentStoreLaws St Epr Ear} `{CenterCursorLaws Sc Ecu} `{UuidText}.
Context (from_unix_timestamp : Z → option OffsetDateTime) (new_v5_oid : list N → Uuid) (sha256 : list N → list N).
Context (fr : FrameEnv) (clock : nat → OffsetDateTime) (send_fails : nat → bool) (site : ResolvedSite) (generation : Z).
Abbreviation Node := (Center Sop Sob Sac (Intake St Sc) Sin).
Abbreviation ProcessorError :=
  (CenterFrameProcessorError (CenterProjectionError Epr Ear Ecu) (CenterTrackingError Eop Epr Eob Ein)).
Abbreviation Eng := (M (Engine Node) (CenterInboundEngineError Eob ProcessorError)).
Implicit Types (g : Engine Node).

Definition consumer_of g : Intake St Sc := c_projections (eg_center g).

(** What the connection does besides the consumer leaves the consumer's state. *)
Lemma keeps_outbox {A} (x : Intake St Sc) (m : M Sob Eob A) :
  keeps (λ g, consumer_of g = x) (engine_outbox m : Eng A).
Proof.
  intros g Hx. destruct (engine_outbox m g) as [g' r] eqn:Hrun. apply zoom_inv in Hrun as (t & r0 & Hrun & -> & _).
  apply zoom_inv in Hrun as (t1 & r1 & _ & -> & _). exact Hx.
Qed.
Lemma keeps_get {A} (P : Engine Node → Prop) (f : Engine Node → A) : keeps P (get f : Eng A).
Proof. by intros g. Qed.
Lemma keeps_modify (P : Engine Node → Prop) f : (∀ g, P g → P (f g)) → keeps P (modify f : Eng ()).
Proof. intros Hf g. apply Hf. Qed.
Lemma keeps_clock (x : Intake St Sc) : keeps (λ g, consumer_of g = x) (read_clock clock : Eng OffsetDateTime).
Proof. by intros g. Qed.
Lemma keeps_send (x : Intake St Sc) envelope : keeps (λ g, consumer_of g = x) (send send_fails envelope : Eng ()).
Proof. intros g Hx. unfold send. by destruct (send_fails _). Qed.
Lemma keeps_report (x : Intake St Sc) entry : keeps (λ g, consumer_of g = x) (report_undeliverable entry : Eng ()).
Proof. apply keeps_modify. intros g Hx. by case_decide. Qed.

Lemma keeps_ack_sent (x : Intake St Sc) now acked sent :
  keeps (λ g, consumer_of g = x) (ack_sent now acked sent : Eng ()).
Proof.
  induction sent as [|[entry sequence] sent IH]; [apply keeps_ret|]. cbn [ack_sent].
  destruct (u64_try_from sequence) as [q|]; [destruct (acked <? q); [apply keeps_ret|]|];
    repeat (apply keeps_bind; [first [by apply keeps_modify|apply keeps_outbox]|intros _]); apply IH.
Qed.

Lemma keeps_ack_outbox (x : Intake St Sc) acked : keeps (λ g, consumer_of g = x) (ack_outbox clock acked : Eng ()).
Proof.
  apply keeps_bind; [apply keeps_clock|]. intros now. apply keeps_bind; [apply keeps_get|]. intros sent.
  apply keeps_ack_sent.
Qed.

Lemma keeps_flush_entries (x : Intake St Sc) now pending :
  keeps (λ g, consumer_of g = x) (flush_entries from_unix_timestamp send_fails site generation now pending : Eng ()).
Proof.
  induction pending as [|entry rest IH]; [apply keeps_ret|]. cbn [flush_entries].
  apply keeps_bind; [apply keeps_get|]. intros [|]; [|apply keeps_ret]. simpl.
  apply keeps_bind; [apply keeps_get|]. intros sent. case_decide; [done|].
  destruct (envelope_from_json _) as [e|]; [|apply keeps_bind; [apply keeps_report|done]].
  destruct (u64_try_from _) as [q|]; [|apply keeps_bind; [apply keeps_report|done]].
  destruct (en_message e) as [m|]; [|apply keeps_bind; [apply keeps_report|done]].
  destruct (is_some_and _ _); [apply keeps_bind; [apply keeps_outbox|done]|].
  apply keeps_bind; [apply keeps_get|]. intros peer. apply keeps_bind; [apply keeps_send|]. intros _.
  by apply keeps_bind; [apply keeps_modify|].
Qed.

Lemma keeps_flush (x : Intake St Sc) :
  keeps (λ g, consumer_of g = x) (flush_outbox from_unix_timestamp clock send_fails site generation : Eng ()).
Proof.
  apply keeps_bind; [apply keeps_outbox|]. intros pending. apply keeps_bind; [apply keeps_clock|]. intros now.
  apply keeps_flush_entries.
Qed.

(** C22: Nothing goes out on a connection behind a content frame until the cursor of
    its stream covers it: the frame is covered when it has been handled, or its
    consumer failed, and then the wire is as it was and the connection ends. *)
Theorem covered_before_answered envelope content g g' r :
  intake_ok (consumer_of g) → en_message envelope = Some (MsgContent content) →
  0 <= en_sequence envelope <= U64_MAX → wire_ok content →
  receive_frame (Eob := Eob) from_unix_timestamp
    (process_frame (Command := Command) (Eop := Eop) (Eob := Eob) (Epr := Epr) (Ear := Ear) (Ecu := Ecu) (Ein := Ein)
       from_unix_timestamp new_v5_oid sha256 fr)
    clock send_fails site generation envelope g = (g', r) →
  covered (intake_view (consumer_of g')) (rs_instance_id site) (stream_of content) (en_sequence envelope) ∨
  (eg_wire g' = eg_wire g ∧ ∃ x, r = Err (EngineConsumer (ProcessorProjection x))).
Proof.
  intros Hok Hm Hseq Hwire Hrun. unfold receive_frame in Hrun. rewrite Hm in Hrun.
  unfold mbind at 1, modify at 1 in Hrun. unfold mbind at 1, read_clock at 1 in Hrun.
  unfold mbind at 1, modify at 1 in Hrun. cbn beta iota in Hrun. rewrite mbind_assoc in Hrun.
  apply mbind_inv in Hrun as [([] & g1 & Hf & Hrun)|(x & Hf & ->)];
    apply zoom_inv in Hf as (c & r0 & Hf & -> & Hr); unfold process_frame in Hf; rewrite Hm in Hf;
    apply zoom_inv in Hf as (s & r1 & Hf & -> & ->).
  - destruct r1 as [[]|y]; [|done]. left. apply frame_covers in Hf; [|done..].
    match type of Hrun with ?m ?g0 = _ => assert (consumer_of (m g0).1 = s) as Hkeep end.
    { clear Hf Hr. match goal with |- consumer_of (?m ?g0).1 = s =>
        assert (keeps (λ g, consumer_of g = s) m) as Hkeeps; [|by apply Hkeeps] end.
      apply keeps_bind; [apply keeps_ret|]. intros ack. apply keeps_bind; [apply keeps_ack_outbox|]. intros _.
      apply keeps_bind; [|intros _; apply keeps_flush]. destruct ack; [|apply keeps_ret].
      apply keeps_bind; [apply keeps_get|]. intros peer. apply keeps_send. }
    rewrite Hrun in Hkeep. simpl in Hkeep. by rewrite Hkeep.
  - right. destruct r1 as [[]|y]; [done|]. injection Hr as ->. split; [done|]. by eexists.
Qed.
End session.
