(* ===== verification/CenterWitnesses.v ===== *)
(** * CenterWitnesses: a concrete center

    The theorems on the center's services at concrete inputs: every store is its
    SQLite tables in a database that answers, the queue's JSON is a binary text of
    the offers, and one site with one endpoint and one resource is projected. *)
From S2P Require Import Prelude Text Operation OperationEngine CommandCipher Database OperationRepository OperationWitnesses.
From S2P Require Import CenterDomain LinkMessages SiteSync Endpoints Accounts AccountStore AccountRepository WebWitnesses.
From S2P Require Import ResourceSnapshot CenterOutbox OutboxRepository CenterStores InboxRepository BindingRepository IntakeSqlite.
From S2P Require Import ProjectionRepository ProjectionSafety CenterDispatch DispatchSafety CenterTracking CenterRuns CenterSession SessionSafety BindingSafety.
Local Open Scope Z_scope.

(** ** The parameters *)

(** A positive number in binary digits. *)
Fixpoint digits (p : positive) : str :=
  match p with xH => [] | xO p => 48%N :: digits p | xI p => 49%N :: digits p end.
Fixpoint of_digits (s : str) : option positive :=
  match s with
  | [] => Some xH
  | 48%N :: s => xO <$> of_digits s
  | 49%N :: s => xI <$> of_digits s
  | _ => None
  end.
Lemma of_digits_digits p : of_digits (digits p) = Some p.
Proof. induction p as [p IH|p IH|]; simpl; [by rewrite IH..|done]. Qed.
Lemma digits_scalar p : Forall (λ x, is_scalar x = true) (digits p).
Proof. induction p; simpl; by repeat constructor. Qed.

(** What is queued or journalled here: offers, acceptances and completions. *)
Definition z_field (z : Z) : list N := [(if decide (z < 0)%Z then 1 else 0)%N; Z.abs_N z].
Definition of_z_field (x : list N) : Z :=
  match x with [1%N; n] => - Z.of_N n | [_; n] => Z.of_N n | _ => 0 end.
Lemma of_z_field_z z : of_z_field (z_field z) = z.
Proof. unfold z_field. case_decide; simpl; lia. Qed.
#[local] Arguments z_field : simpl never.
#[local] Arguments of_z_field : simpl never.

Definition to_fields (m : EnvelopeMessage) : option (list (list N)) :=
  match m with
  | MsgOffer o => Some [of_operation_id o; of_site_id o; of_endpoint_id o; of_target o; of_command_json o;
                        z_field (of_expires_at_unix o); of_actor_context o]
  | MsgReply (OperationAccepted id at_) => Some [id; z_field at_]
  | MsgReply (OperationCompleted id succeeded summary) => Some [id; if succeeded then [1%N] else []; summary]
  | _ => None
  end.
Definition of_fields (x : list (list N)) : option EnvelopeMessage :=
  match x with
  | [a; b; c; d; e; f; g] => Some (MsgOffer (mk_offer a b c d e (of_z_field f) g))
  | [id; at_] => Some (MsgReply (OperationAccepted id (of_z_field at_)))
  | [id; succeeded; summary] => Some (MsgReply (OperationCompleted id (bool_decide (succeeded ≠ [])) summary))
  | _ => None
  end.
Lemma of_to_fields m x : to_fields m = Some x → of_fields x = Some m.
Proof.
  destruct m as [| | | |[]|[? ?|?|?|? [] ?]| |]; intros [= <-]; cbn [of_fields]; rewrite ?of_z_field_z; done.
Qed.

#[export] Instance message_json : EnvelopeJson := {
  envelope_to_json e :=
    m ← en_message e; x ← to_fields m;
    Some (digits (countable.encode (z_field (en_sequence e) :: z_field (en_acked_sequence e) :: x)));
  envelope_from_json text :=
    p ← of_digits text;
    match countable.decode p with
    | Some (a :: b :: x) => m ← of_fields x; Some (mk_envelope (of_z_field a) (of_z_field b) (Some m))
    | _ => None
    end;
}.
#[export, refine] Instance message_json_laws : EnvelopeJsonLaws := {}.
Proof.
  - intros [a b [m|]] text; [|done]. cbn [envelope_to_json message_json en_message]. simpl.
    intros (x & Hx & [= <-])%bind_Some. rewrite of_digits_digits. simpl.
    rewrite countable.decode_encode, (of_to_fields _ _ Hx). simpl. by rewrite !of_z_field_z.
  - intros [a b [m|]] text; [|done]. simpl. intros (x & Hx & [= <-])%bind_Some. apply digits_scalar.
Defined.

#[export] Instance queue_store : OutboxStore (World OutboxTable) CenterOutboxRepositoryError :=
  sqlite_outbox quiet_env (Some ()).
#[export] Instance queue_laws : OutboxStoreLaws (World OutboxTable) CenterOutboxRepositoryError :=
  sqlite_outbox_laws quiet_env (Some ()) toy_random.
#[export] Instance journal_store : InboxStore (World InboxTable) CenterInboxRepositoryError :=
  sqlite_inbox quiet_env (Some ()).
#[export] Instance journal_laws : InboxStoreLaws (World InboxTable) CenterInboxRepositoryError :=
  sqlite_inbox_laws quiet_env (Some ()) toy_random.
#[export] Instance site_projections : ProjectionReads (World ProjectionTables) CenterProjectionRepositoryError :=
  sqlite_projections quiet_env.
#[export] Instance site_projection_laws : ProjectionReadsLaws (World ProjectionTables) CenterProjectionRepositoryError :=
  sqlite_projections_laws quiet_env.
#[export] Instance endpoint_operations : EndpointListing () (World Tables) OperationRepositoryError :=
  repository_listing quiet_env (Some ()).
#[export] Instance endpoint_operation_laws : EndpointListingLaws () (World Tables) OperationRepositoryError :=
  repository_listing_laws quiet_env (Some ()) toy_random.

Abbreviation DemoCenter :=
  (Center (World Tables) (World OutboxTable) (World AccountTables) (World ProjectionTables) (World InboxTable)).

(** ** The center *)

Definition branch : InstanceId := 5%N.
Definition machine : EndpointId := 40%N.
Definition spare : EndpointId := 45%N.
Definition system : str := lit "/redfish/v1/Systems/1".

Definition branch_row : instance_model := mk_instance_model branch (lit "branch") (lit "site") 0.
Definition machine_row (id : EndpointId) : endpoint_model :=
  mk_endpoint_model id (lit "machine") 0 0 (Some branch) 3 (lit "ok").
Definition machine_address (id : EndpointId) (address : str) : address_model :=
  mk_address_model (id + 1)%N id address true 0 None.
Definition machine_trust (id : EndpointId) : trust_model := mk_trust_model id TrustSystemCa None None 0.
Definition system_row (id : EndpointId) : resource_model := mk_resource_model (id + 2)%N id system (lit "system") 0.
Definition system_snapshot (id : EndpointId) : snapshot_model := mk_snapshot_model (id + 2)%N 3 None None (lit "{}") 0.
Definition two_machines : ProjectionTables :=
  mk_projection_tables (mk_binding_tables {[branch := branch_row]} ∅)
    {[machine := machine_row machine; spare := machine_row spare]}
    {[41%N := machine_address machine (lit "192.0.2.7"); 46%N := machine_address spare (lit "192.0.2.8")]}
    {[machine := machine_trust machine; spare := machine_trust spare]}
    {[42%N := system_row machine; 47%N := system_row spare]}
    {[(42%N, 3) := system_snapshot machine; (47%N, 3) := system_snapshot spare]}.

Definition center : DemoCenter :=
  mk_center empty_world (mk_world ∅ 0) unclaimed (mk_world two_machines 0) (mk_world ∅ 0).

Definition empty_object (_ : ()) : option (list N) := Some [123; 125]%N.
Definition seconds (t : Z) : option OffsetDateTime := Some (t * second).

Definition restart : CenterOperationRequest () := mk_center_request branch machine system () 1%N.
Definition first_ids : DispatchIds := mk_dispatch_ids 60%N 61%N 62%N.
Definition second_ids : DispatchIds := mk_dispatch_ids 70%N 71%N 72%N.

Lemma center_sound : center_ok center.
Proof.
  split; [exact empty_tables_ok|]. split; [by intros ??|]. split; [exact unclaimed_sound|].
  split; [exact I|]. split; by intros ??.
Qed.

Lemma center_empty : cv_entries (center_view center) = ∅.
Proof. vm_compute. reflexivity. Qed.

Lemma center_fresh id : v_operations (cv_operations (center_view center)) !! id = None.
Proof.
  assert (v_operations (cv_operations (center_view center)) = ∅) as -> by (vm_compute; reflexivity).
  apply lookup_empty.
Qed.

(** A center without operations and offers. *)
Lemma empty_center_inv {Command} (v : CenterView Command) :
  (∀ id, v_operations (cv_operations v) !! id = None) → cv_entries v = ∅ → center_inv v.
Proof.
  intros Ho He. split; rewrite He.
  - intros id t t' (k & e & Hk & _). by rewrite lookup_empty in Hk.
  - intros k e offer Hk. by rewrite lookup_empty in Hk.
  - intros id (k & e & Hk & _). by rewrite lookup_empty in Hk.
  - intros o1 o2 t _ _ _ (k & e & Hk & _). by rewrite lookup_empty in Hk.
Qed.

Lemma center_keeps : center_inv (center_view center).
Proof. apply empty_center_inv; [apply center_fresh|apply center_empty]. Qed.

Lemma center_past now : past (Command := ()) center now.
Proof.
  split; [intros k e He|intros id o Ho].
  - rewrite center_empty in He. by rewrite lookup_empty in He.
  - by rewrite center_fresh in Ho.
Qed.

(** ** Dispatch *)

Definition dispatched : DemoCenter := (dispatch empty_object seconds first_ids restart noon center).1.
Definition dispatched_answer : result DispatchedOperation
    (CenterDispatchError CenterProjectionRepositoryError OperationRepositoryError CenterOutboxRepositoryError
       StandaloneAuthError) :=
  Ok (mk_dispatched 60%N (noon + CENTER_OFFER_TTL)).

Lemma dispatched_run :
  dispatch empty_object seconds first_ids restart noon center = (dispatched, dispatched_answer).
Proof. vm_compute. reflexivity. Qed.

Lemma dispatch_spec_witness :
  center_ok dispatched ∧
  dispatch_post empty_object seconds first_ids restart noon (center_view center) (center_view dispatched) dispatched_answer.
Proof.
  exact (dispatch_spec empty_object seconds first_ids restart noon center dispatched dispatched_answer
    center_sound (proj1 (center_past noon)) dispatched_run).
Defined.

(** ** The center over time *)

Abbreviation TrackError := (CenterTrackingError OperationRepositoryError CenterProjectionRepositoryError
  CenterOutboxRepositoryError CenterInboxRepositoryError).

(** The site accepts, a second dispatch finds the operation running, and the site
    completes it. *)
Definition nothing_v5 (_ : list N) : Uuid := 0%N.
Definition reply_at (n : Uuid) (envelope : Envelope) (now : OffsetDateTime) (s : DemoCenter) : DemoCenter :=
  (on_reply seconds nothing_v5 (mk_track_ids n (n + 1)%N) branch envelope now s).1.
Definition accepted_reply : Envelope := mk_envelope 1 0 (Some (MsgReply (OperationAccepted (show_uuid 60%N) 31))).
Definition completed_reply : Envelope :=
  mk_envelope 2 1 (Some (MsgReply (OperationCompleted (show_uuid 60%N) true (lit "done")))).
Definition running : DemoCenter := reply_at 80%N accepted_reply (noon + second) dispatched.
Definition redispatched : DemoCenter :=
  (dispatch empty_object seconds second_ids restart (noon + 2 * second) running).1.
Definition settled : DemoCenter := reply_at 90%N completed_reply (noon + 3 * second) redispatched.

Abbreviation demo_run := (center_run empty_object seconds nothing_v5).
Lemma settled_run : demo_run noon center (noon + 3 * second) settled.
Proof.
  apply run_cons with (now1 := noon) (s1 := dispatched); [lia| |].
  { eapply step_dispatch; [apply center_fresh|exact dispatched_run]. }
  apply run_cons with (now1 := noon + second) (s1 := running); [unfold second; lia| |].
  { eapply step_reply, surjective_pairing. }
  apply run_cons with (now1 := noon + 2 * second) (s1 := redispatched); [unfold second; lia| |].
  { apply (step_dispatch _ _ _ _ second_ids restart _ _
      (dispatch empty_object seconds second_ids restart (noon + 2 * second) running).2);
      [vm_compute; reflexivity|apply surjective_pairing]. }
  apply run_cons with (now1 := noon + 3 * second) (s1 := settled); [unfold second; lia| |].
  { eapply step_reply, surjective_pairing. }
  apply run_nil.
Qed.

Lemma center_run_safe_witness :
  op_state <$> v_operations (cv_operations (center_view settled)) !! 60%N = Some Succeeded ∧
  center_inv (center_view settled) ∧ targets_kept (center_view center) (center_view settled).
Proof.
  split; [vm_compute; reflexivity|].
  destruct (center_run_safe empty_object seconds nothing_v5 noon center (noon + 3 * second) settled
    center_sound center_keeps (center_past noon) settled_run) as (_ & Hinv & Hkept & _).
  split; [exact Hinv|exact Hkept].
Defined.

(** One step more from a sound state. *)
Lemma reached_sound now s :
  demo_run noon center now s →
  center_ok s ∧ center_inv (center_view s) ∧ past s now ∧ distinct (cv_entries (center_view s)).
Proof.
  intros Hrun. destruct (run_evolves empty_object seconds nothing_v5 noon center now s
    center_sound center_keeps (center_past noon) Hrun) as (Hok & Hinv & Hp & _ & Hev).
  split; [exact Hok|]. split; [exact Hinv|]. split; [exact Hp|]. apply (evolves_distinct _ _ Hev).
  intros k e k' e' He. rewrite center_empty in He. by rewrite lookup_empty in He.
Qed.

Lemma dispatched_reached : demo_run noon center noon dispatched.
Proof.
  apply run_cons with (now1 := noon) (s1 := dispatched); [lia| |apply run_nil].
  eapply step_dispatch; [apply center_fresh|exact dispatched_run].
Qed.

Lemma reply_spec_witness :
  (on_reply seconds nothing_v5 (mk_track_ids 80%N 81%N) branch accepted_reply (noon + second) dispatched).2 = Ok () ∧
  center_ok running ∧
  reply_post branch accepted_reply (noon + second) (center_view dispatched) (center_view running)
    (Ok () : result () TrackError).
Proof.
  destruct (reached_sound noon dispatched dispatched_reached) as (Hok & Hinv & Hp & _).
  assert (on_reply seconds nothing_v5 (mk_track_ids 80%N 81%N) branch accepted_reply (noon + second) dispatched =
    (running, Ok ())) as Hrun by (vm_compute; reflexivity).
  split; [exact (f_equal snd Hrun)|].
  assert (clock_ok (center_view dispatched) (noon + second)) as Hclock.
  { intros id o Ho. pose proof (proj2 Hp id o Ho). unfold second. lia. }
  exact (reply_spec seconds nothing_v5 (mk_track_ids 80%N 81%N) branch accepted_reply (noon + second)
    dispatched running (Ok ()) Hok Hinv Hclock Hrun).
Defined.

(** ** One connection *)

Definition restart_spare : CenterOperationRequest () := mk_center_request branch spare system () 1%N.
Definition busy : DemoCenter := (dispatch empty_object seconds second_ids restart_spare (noon + second) dispatched).1.
Lemma busy_reached : demo_run noon center (noon + second) busy.
Proof.
  apply run_cons with (now1 := noon) (s1 := dispatched); [lia| |].
  { eapply step_dispatch; [apply center_fresh|exact dispatched_run]. }
  apply run_cons with (now1 := noon + second) (s1 := busy); [unfold second; lia| |apply run_nil].
  apply (step_dispatch _ _ _ _ second_ids restart_spare _ _
    (dispatch empty_object seconds second_ids restart_spare (noon + second) dispatched).2);
    [vm_compute; reflexivity|apply surjective_pairing].
Qed.

Definition tick (n : nat) : OffsetDateTime := noon + Z.of_nat (S n) * second.
Definition no_send_fails (_ : nat) : bool := false.
Definition consume (site : ResolvedSite) (envelope : Envelope) (now : OffsetDateTime) :=
  on_reply (Sac := World AccountTables) seconds nothing_v5 (mk_track_ids 80%N 81%N) (rs_instance_id site) envelope now.
Definition branch_site : ResolvedSite := mk_resolved_site branch 50%N (replicate 32 9%N).
Definition registry : CenterSessionRegistry := (mark_connected registry_new branch_site noon).1.
Definition engine_start : Engine DemoCenter := mk_engine busy registry [] [] [] 0 0.

Abbreviation demo_flush := (flush_outbox (Eco := TrackError)
  seconds tick no_send_fails branch_site 1).
Abbreviation demo_frame := (receive_frame seconds consume tick no_send_fails branch_site 1).
Definition flushed : Engine DemoCenter := (demo_flush engine_start).1.
Definition answered : Engine DemoCenter := (demo_frame accepted_reply flushed).1.
Definition completed : Engine DemoCenter := (demo_frame completed_reply answered).1.

Lemma tick_forward n m : (n <= m)%nat → tick n <= tick m.
Proof. unfold tick, second. lia. Qed.

Lemma consume_runs rsite envelope now s s' r :
  consume rsite envelope now s = (s', r) → demo_run now s now s'.
Proof.
  intros Hrun. apply run_cons with (now1 := now) (s1 := s'); [lia| |apply run_nil]. by eapply step_reply.
Qed.

Lemma delivered_in_order_witness :
  delivered completed = [1; 2] ∧ StronglySorted Z.lt (delivered completed).
Proof.
  split; [vm_compute; reflexivity|].
  destruct (reached_sound _ _ busy_reached) as (Hok & Hinv & Hp & Hd).
  assert (healthy (Command := ()) tick engine_start) as Hhealthy.
  { split; [exact Hok|exact Hinv| |exact Hd].
    change (past (Command := ()) busy (tick 0)). eapply past_later; [exact Hp|unfold tick, second; lia]. }
  assert (demo_flush engine_start = (flushed, Ok ())) as Hflush by (vm_compute; reflexivity).
  assert (demo_frame accepted_reply flushed = (answered, Ok ())) as Hframe by (vm_compute; reflexivity).
  exact (delivered_in_order empty_object seconds nothing_v5 consume tick no_send_fails branch_site 1
    tick_forward consume_runs engine_start flushed answered completed_reply completed
    (demo_frame completed_reply answered).2 Hhealthy eq_refl eq_refl Hflush
    (rtc_l _ _ _ _ (conn_frame _ _ _ _ _ _ _ _ _ _ _ Hframe) (rtc_refl _ _))
    (surjective_pairing _)).
Defined.
