(* ===== verification/BindingWitnesses.v ===== *)
(** * BindingWitnesses: sites bound, revoked and bound again

    The theorems on bindings, admission, connections and projections at concrete
    inputs: two codes issued for one machine, of which the later is used first,
    over the SQLite tables in a database that answers. *)
From S2P Require Import Prelude Text Operation CommandCipher Database OperationWitnesses CenterDomain LinkMessages SiteSync Endpoints WebWitnesses.
From S2P Require Import CenterOutbox OutboxRepository CenterStores BindingRepository CenterSession SessionSafety BindingSafety.
From S2P Require Import ResourceSnapshot ProjectionRepository ProjectionSafety CenterWitnesses.
Local Open Scope Z_scope.

#[export] Instance branch_bindings :
  BindingStore (World BindingTables) InstanceRepositoryError CenterBindingRepositoryError :=
  sqlite_bindings quiet_env pad.
#[export] Instance branch_binding_laws :
  BindingStoreLaws pad (World BindingTables) InstanceRepositoryError CenterBindingRepositoryError :=
  sqlite_bindings_laws quiet_env pad.

Abbreviation Bound := (World BindingTables * World OutboxTable)%type.

(** The certificate authority signs everything. *)
Definition certificate (fp : CertificateFingerprint) : IssuedSiteCertificate :=
  mk_issued_certificate (lit "cert") (lit "key") fp.
Definition sign (_ : InstanceId) (fp : CertificateFingerprint) : result IssuedSiteCertificate () := Ok (certificate fp).
Definition anchor : CenterTrustAnchor := mk_trust_anchor (replicate 32 1%N) (replicate 32 2%N).

Definition machine_key : CertificateFingerprint := replicate 32 171%N.
Definition draw_of (n : N) : option (list N) := Some (replicate 20 n).
Definition code_of (n : N) : str :=
  match generate_binding_code (draw_of n) with Ok code => code | Err _ => [] end.
Definition center_url : str := lit "https://center.example".

Abbreviation demo_register id bid n now :=
  (register_site (Sob := World OutboxTable) (Es := ()) pad id bid (draw_of n) center_url (lit "site") now).
Abbreviation demo_bind n now := (bind_site pad sign anchor (code_of n) machine_key now).

Definition unbound : Bound := (mk_world (mk_binding_tables ∅ ∅) 0, mk_world ∅ 0).
Definition one_code : Bound := (demo_register 5%N 200%N 1%N (1 * second) unbound).1.
Definition two_codes : Bound := (demo_register 6%N 201%N 2%N (2 * second) one_code).1.
Definition later_bound : Bound := (demo_bind 2%N (3 * second) two_codes).1.
Definition later_revoked : Bound :=
  (on_bindings (Sob := World OutboxTable) (λ e : CenterBindingRepositoryError, e) (revoke_binding 201%N) later_bound).1.
Definition earlier_bound : Bound := (demo_bind 1%N (4 * second) later_revoked).1.

Definition presented (site : InstanceId) : SiteIdentity :=
  mk_site_identity (replicate 32 3%N) (Some (show_uuid site)) (Some machine_key).
Abbreviation demo_resolve identity declared s :=
  (resolve (Ei := InstanceRepositoryError) identity declared s.1).

(** A machine that was given two codes, bound with the later one and revoked, binds
    with the earlier one, which is still good, and is told that it is bound; its
    connections are refused all the same, because the admission takes the binding
    of its identity that was created last, which is the revoked one. *)
Theorem earlier_code_is_shadowed :
  (demo_bind 1%N (4 * second) later_revoked).2 =
    Ok (mk_bind_outcome 5%N 200%N (certificate machine_key) anchor) ∧
  (∃ b, bindings earlier_bound.1 !! 200%N = Some b ∧ bound_to machine_key b) ∧
  (demo_resolve (presented 5%N) (show_uuid 5%N) earlier_bound).2 = Ok (RejectedAdmission (RejectedIdentity NotBound)).
Proof.
  split; [vm_compute; reflexivity|]. split; [|vm_compute; reflexivity].
  eexists. split; [vm_compute; reflexivity|split; vm_compute; reflexivity].
Qed.

(** ** Runs *)

Abbreviation demo_step := (flow_step (Eob := CenterOutboxRepositoryError) pad sign anchor).
Abbreviation demo_ok s := (bindings_ok s.1 ∧ entries_ok s.2).

Lemma pad_exact m : length (pad m) = 32%nat.
Proof. apply pad_length. Qed.

Lemma unbound_ok : demo_ok unbound.
Proof. split; by intros ??. Qed.

Lemma unbound_inv : bindings_inv (bindings unbound.1).
Proof.
  assert (bindings unbound.1 = ∅) as -> by (vm_compute; reflexivity).
  split; intros k b k' b'; [|intros fp]; intros Hb; by rewrite lookup_empty in Hb.
Qed.

Lemma drawn n x : draw_of n = Some x → length x = 20%nat.
Proof. intros [= <-]. reflexivity. Qed.

Lemma machine_key_ok : fingerprint_ok machine_key.
Proof. split; [reflexivity|]. apply Forall_replicate. lia. Qed.

Lemma two_codes_created : created_by pad two_codes (3 * second).
Proof.
  split.
  - assert (map_Forall (λ _ b, cb_created_at b <= 3 * second) (bindings two_codes.1)) as Hf; [|exact Hf].
    apply holds. vm_compute. reflexivity.
  - intros k e He. assert (entries two_codes.2 = ∅) as Hn by (vm_compute; reflexivity).
    rewrite Hn, lookup_empty in He. discriminate He.
Qed.

Lemma later_bound_run : rtc demo_step unbound later_bound.
Proof.
  apply (rtc_l _ _ one_code).
  { eapply StepRegister with (iid := 5%N) (bid := 200%N) (random := draw_of 1); [apply drawn|apply surjective_pairing]. }
  apply (rtc_l _ _ two_codes).
  { eapply StepRegister with (iid := 6%N) (bid := 201%N) (random := draw_of 2); [apply drawn|apply surjective_pairing]. }
  apply (rtc_l _ _ later_bound); [|apply rtc_refl].
  eapply StepBind with (presented := code_of 2); [exact two_codes_created|exact machine_key_ok|apply surjective_pairing].
Qed.

Lemma later_revoked_run : rtc demo_step unbound later_revoked.
Proof. apply (rtc_r _ later_bound); [exact later_bound_run|]. eapply StepRevoke, surjective_pairing. Qed.

Lemma bindings_stay_sound_witness :
  cb_state <$> bindings later_bound.1 !! 201%N = Some BindingBound ∧
  bindings_inv (bindings later_bound.1) ∧ bindings_move (bindings unbound.1) (bindings later_bound.1).
Proof.
  split; [vm_compute; reflexivity|].
  exact (bindings_stay_sound pad sign anchor pad_exact unbound later_bound unbound_ok unbound_inv later_bound_run).
Defined.

Lemma presents_machine_key site fp :
  sid_bound_site_fingerprint (presented site) = Some fp → fingerprint_ok fp.
Proof. intros [= <-]. exact machine_key_ok. Qed.

Lemma admission_is_sound_witness :
  let site := mk_resolved_site 6%N 201%N machine_key in
  (demo_resolve (presented 6%N) (show_uuid 6%N) later_bound).2 = Ok (Admits site) ∧
  ∃ b, bindings later_bound.1 !! 201%N = Some b ∧ bound_to machine_key b.
Proof.
  intros site.
  assert (demo_resolve (presented 6%N) (show_uuid 6%N) later_bound =
    ((demo_resolve (presented 6%N) (show_uuid 6%N) later_bound).1, Ok (Admits site))) as Hres by (vm_compute; reflexivity).
  split; [exact (f_equal snd Hres)|].
  destruct (admission_is_sound pad sign anchor pad_exact unbound later_bound (presented 6%N) (show_uuid 6%N) _ _
    unbound_ok unbound_inv later_bound_run (presents_machine_key 6%N) Hres) as [_ Hsite].
  destruct (Hsite site eq_refl) as (b & Hb & Hbound & _). exists b. split; [exact Hb|exact Hbound].
Defined.

(** The machine is given a third code after the revocation. *)
Definition third_code : Bound := (demo_register 7%N 202%N 3%N (5 * second) later_revoked).1.
Definition rebound : Bound := (demo_bind 3%N (6 * second) third_code).1.

Lemma third_code_created : created_by pad third_code (6 * second).
Proof.
  split.
  - assert (map_Forall (λ _ b, cb_created_at b <= 6 * second) (bindings third_code.1)) as Hf; [|exact Hf].
    apply holds. vm_compute. reflexivity.
  - intros k e He. assert (entries third_code.2 = ∅) as Hn by (vm_compute; reflexivity).
    rewrite Hn, lookup_empty in He. discriminate He.
Qed.

Lemma rebound_run : rtc demo_step later_revoked rebound.
Proof.
  apply (rtc_l _ _ third_code).
  { eapply StepRegister with (iid := 7%N) (bid := 202%N) (random := draw_of 3); [apply drawn|apply surjective_pairing]. }
  apply (rtc_l _ _ rebound); [|apply rtc_refl].
  eapply StepBind with (presented := code_of 3); [exact third_code_created|exact machine_key_ok|apply surjective_pairing].
Qed.

Lemma later_revoked_sound :
  demo_ok later_revoked ∧ bindings_inv (bindings later_revoked.1).
Proof.
  pose proof (flow_run_inv pad sign anchor pad_exact unbound later_revoked
    later_revoked_run unbound_ok unbound_inv) as (Hok & Hinv & _).
  split; [exact Hok|exact Hinv].
Qed.

Lemma revoked_never_admitted_witness :
  let site := mk_resolved_site 7%N 202%N machine_key in
  (demo_resolve (presented 7%N) (show_uuid 7%N) rebound).2 = Ok (Admits site) ∧
  rs_binding_id site ≠ 201%N.
Proof.
  intros site.
  assert (demo_resolve (presented 7%N) (show_uuid 7%N) rebound =
    ((demo_resolve (presented 7%N) (show_uuid 7%N) rebound).1, Ok (Admits site))) as Hres by (vm_compute; reflexivity).
  split; [exact (f_equal snd Hres)|].
  destruct (bindings later_revoked.1 !! 201%N) as [b|] eqn:Hb; [|vm_compute in Hb; discriminate Hb].
  assert (cb_state b = BindingRevoked) as Hst by (vm_compute in Hb; injection Hb as <-; reflexivity).
  exact (revoked_never_admitted pad sign anchor pad_exact later_revoked rebound 201%N b (presented 7%N) (show_uuid 7%N)
    _ site (proj1 later_revoked_sound) (proj2 later_revoked_sound) Hb Hst rebound_run (presents_machine_key 7%N) Hres).
Defined.

(** ** Connections and fingerprints *)

Lemma stale_connection_is_inert_witness :
  let evs := [RegDisconnect branch; RegConnect branch_site (2 * second); RegMarkDisconnected branch 1] in
  let reg := foldl registry_step registry evs in
  is_current reg branch 2 = true ∧ is_current reg branch 1 = false ∧ mark_disconnected reg branch 1 = reg.
Proof.
  intros evs reg. split; [vm_compute; reflexivity|].
  set (gone := registry_step registry (RegDisconnect branch)).
  assert (rg_online gone = ∅) as Hnone by (vm_compute; reflexivity).
  assert (registry_ok gone) as Hok.
  { split; [vm_compute; discriminate|]. intros k session Hs. by rewrite Hnone, lookup_empty in Hs. }
  assert (newer gone branch 1) as Hnew.
  { split; [vm_compute; discriminate|]. intros session Hs. by rewrite Hnone, lookup_empty in Hs. }
  assert (rg_next_generation gone + connects (tl evs) < U64_MAX) as Hmax by (vm_compute; reflexivity).
  exact (stale_connection_is_inert gone branch 1 (tl evs) Hok Hnew Hmax).
Defined.

Lemma fingerprint_roundtrip_witness :
  length (fingerprint_to_string machine_key) = 95%nat ∧
  fingerprint_from_str (fingerprint_to_string machine_key) = Ok machine_key.
Proof.
  split; [vm_compute; reflexivity|].
  exact (fingerprint_roundtrip machine_key (proj1 machine_key_ok) (proj2 machine_key_ok)).
Defined.

(** ** Projections *)

Definition rival_site : InstanceId := 8%N.
Definition two_sites : ProjectionTables :=
  mk_projection_tables
    (mk_binding_tables {[branch := branch_row; rival_site := mk_instance_model rival_site (lit "rival") (lit "site") 0]} ∅)
    (pt_endpoints two_machines) (pt_addresses two_machines) (pt_trust two_machines)
    (pt_resources two_machines) (pt_snapshots two_machines).

Definition claim_of (id : EndpointId) (address : str) (generation : Z) : EndpointProjectionWrite :=
  mk_endpoint_write id (lit "claimed") address TrustPinnedCertificate generation (lit "ok").
Definition claim (id : EndpointId) (address : str) (generation : Z) (site : InstanceId) (t : ProjectionTables) :
    World ProjectionTables * result ProjectionWriteOutcome CenterProjectionRepositoryError :=
  upsert_endpoint_projection quiet_env (mk_projection_ids 500%N 501%N) (claim_of id address generation) site noon
    (mk_world t 0).
Definition report_resource (generation : Z) (t : ProjectionTables) :
    World ProjectionTables * result ProjectionWriteOutcome CenterProjectionRepositoryError :=
  upsert_resource_projection quiet_env (mk_projection_ids 500%N 501%N)
    (mk_resource_write machine system FeatureSystems None None generation (Some (lit "{}")) noon) branch noon
    (mk_world t 0).

Lemma two_sites_keyed : projections_keyed two_sites.
Proof.
  assert (map_Forall (λ id m, rm_id m = id) (pt_resources two_sites)) as Hf by (apply holds; vm_compute; reflexivity).
  assert (map_Forall (λ e m, em_id m = e) (pt_endpoints two_sites)) as He by (apply holds; vm_compute; reflexivity).
  split; [exact Hf|exact He].
Qed.

(** The rival claims the branch's machine and reports one of its own. *)
Definition claimed : ProjectionTables := w_db (claim machine (lit "192.0.2.66") 9 rival_site two_sites).1.
Definition extended : ProjectionTables := w_db (claim 55%N (lit "192.0.2.9") 1 rival_site claimed).1.

Lemma claims_step id address generation site t :
  report_call site t (w_db (claim id address generation site t).1).
Proof. apply report_refresh. eapply (refresh_endpoint site _ _ _ _ (mk_world t 0)), surjective_pairing. Qed.

Lemma foreign_reports_inert_witness :
  (claim machine (lit "192.0.2.66") 9 rival_site two_sites).2 = Ok (Ignored EndpointBelongsToOtherSite) ∧
  is_Some (pt_endpoints extended !! 55%N) ∧ projected machine extended = projected machine two_sites.
Proof.
  split; [vm_compute; reflexivity|]. split; [vm_compute; by eexists|].
  assert (¬ site_revoked two_sites branch) as Hnot.
  { intros (id & m & Hm & _). vm_compute in Hm. discriminate Hm. }
  assert (rival_site ≠ branch) as Hne by (vm_compute; discriminate).
  exact (foreign_reports_inert branch machine (machine_row machine) two_sites extended two_sites_keyed
    eq_refl eq_refl Hnot
    (rtc_l _ _ _ _ (ex_intro _ rival_site (conj Hne (claims_step machine (lit "192.0.2.66") 9 rival_site two_sites)))
    (rtc_l _ _ _ _ (ex_intro _ rival_site (conj Hne (claims_step 55%N (lit "192.0.2.9") 1 rival_site claimed))) (rtc_refl _ _)))).
Defined.

(** The branch refreshes its resource, and an old frame comes late. *)
Definition refreshed : ProjectionTables := w_db (report_resource 4 two_sites).1.
Definition late : ProjectionTables := w_db (report_resource 2 refreshed).1.

Lemma reports_step generation t : refresh_call branch t (w_db (report_resource generation t).1).
Proof. eapply (refresh_resource branch _ _ _ _ (mk_world t 0)), surjective_pairing. Qed.

Lemma reports_go_forward_witness :
  ((report_resource 4 two_sites).2, (report_resource 2 refreshed).2) = (Ok Applied, Ok (Ignored StaleGeneration)) ∧
  forward two_sites late.
Proof.
  split; [vm_compute; reflexivity|].
  exact (reports_go_forward two_sites late two_sites_keyed
    (rtc_l _ _ _ _ (ex_intro _ branch (reports_step 4 two_sites))
    (rtc_l _ _ _ _ (ex_intro _ branch (reports_step 2 refreshed)) (rtc_refl _ _)))).
Defined.
