(* ===== verification/IntakeWitnesses.v ===== *)
(** * IntakeWitnesses: two sites report

    The theorems on the reports of sites at concrete inputs: the SQLite tables of
    a center that knows two sites, of which one has a machine. *)
From S2P Require Import Prelude Text Operation OperationEngine CommandCipher Database OperationRepository OperationWitnesses CenterDomain LinkMessages SiteSync Accounts AccountRepository WebWitnesses CenterOutbox OutboxRepository InboxRepository.
From S2P Require Import ResourceSnapshot EventRepository SyncCursors Artifact ArtifactRepository ArtifactStore CenterStores BindingRepository ProjectionRepository ProjectionSafety CenterSession SessionSafety.
From S2P Require Import CenterDispatch CenterTracking CenterIntake IntakeContract IntakeSpec IntakeSafety TransferSafety IntakeSqlite CenterProcessor CenterWitnesses BindingWitnesses.
Local Open Scope Z_scope.

(** ** The parameters *)

#[export] Instance binary_timestamp : TimestampText := { show_timestamp t := digits (countable.encode t) }.
#[export, refine] Instance binary_timestamp_laws : TimestampTextLaws := {}.
Proof.
  - intros t t' Heq%(f_equal of_digits). simpl in Heq. rewrite !of_digits_digits in Heq.
    injection Heq as Heq. by apply (inj countable.encode).
  - intros t. apply digits_scalar.
Defined.

#[export] Instance center_content : CenterProjectionRepository (World ContentTables) CenterProjectionRepositoryError :=
  sqlite_content quiet_env.
#[export] Instance center_artifacts : ArtifactRepository (World ContentTables) ArtifactRepositoryError :=
  sqlite_content_artifacts quiet_env.
#[export] Instance center_content_laws :
  ContentStoreLaws (World ContentTables) CenterProjectionRepositoryError ArtifactRepositoryError :=
  sqlite_content_laws quiet_env.
#[export] Instance center_cursors : CenterCursor (World CursorTables) SyncCursorRepositoryError :=
  sqlite_cursors quiet_env.
#[export] Instance center_cursors_laws : CenterCursorLaws (World CursorTables) SyncCursorRepositoryError :=
  sqlite_cursors_laws quiet_env.

Abbreviation DemoIntake := (Intake (World ContentTables) (World CursorTables)).
Abbreviation DemoIntakeError :=
  (CenterProjectionError CenterProjectionRepositoryError ArtifactRepositoryError SyncCursorRepositoryError).

Definition steady_files : FileEnv := mk_file_env (λ _, false) (λ _, WriteDone) (λ _, false).
(** The write of the second file call is torn. *)
Definition tearing_files : FileEnv :=
  mk_file_env (λ _, false) (λ n, if decide (n = 1%nat) then WriteTorn 1 else WriteDone) (λ _, false).
Definition drawn_ids (n : N) : IntakeIds :=
  mk_intake_ids (mk_projection_ids n (n + 1)%N) (λ i, (n + 2 + N.of_nat i)%N) (n + 9)%N.
Definition rival : ResolvedSite := mk_resolved_site rival_site 51%N (replicate 32 8%N).

Definition quiet_center : DemoIntake :=
  mk_intake (mk_world (mk_content_tables two_sites ∅ ∅) 0)
    (mk_world (mk_cursor_tables {[branch; rival_site]} ∅) 0) ∅ None 0.

Abbreviation demo_intake io n site sequence content s :=
  (intake_frame (Epr := CenterProjectionRepositoryError) (Ear := ArtifactRepositoryError) (Ecu := SyncCursorRepositoryError)
     seconds pad io (drawn_ids n) site sequence (MsgContent content) noon (s : DemoIntake)).

Lemma quiet_center_ok : intake_ok quiet_center.
Proof.
  split; [|by intros ??]. split; [exact two_sites_keyed|]. split; by intros ??.
Qed.

Lemma demo_step io n site sequence content (s : DemoIntake) :
  0 <= sequence <= U64_MAX → wire_ok content →
  frame_step (Epr := CenterProjectionRepositoryError) (Ear := ArtifactRepositoryError) (Ecu := SyncCursorRepositoryError)
    seconds pad (rs_instance_id site) s (demo_intake io n site sequence content s).1.
Proof. intros Hs Hw. eapply step_frame; [reflexivity|exact Hs|exact Hw|apply surjective_pairing]. Qed.

(** ** Frames *)

Definition renamed (generation : Z) : Content :=
  MsgEndpointSnapshot (mk_endpoint_snapshot (show_uuid machine) (lit "renamed") (lit "192.0.2.7") 1 generation [] (lit "ok")).
Definition after_snapshot : DemoIntake := (demo_intake steady_files 600%N branch_site 1 (renamed 4) quiet_center).1.
Definition after_rival : DemoIntake := (demo_intake steady_files 620%N rival 1 (renamed 9) after_snapshot).1.
Definition after_replay : DemoIntake := (demo_intake steady_files 640%N branch_site 1 (renamed 5) after_rival).1.

Lemma in_range n : 0 <= n <= 1000 → 0 <= n <= U64_MAX.
Proof. unfold U64_MAX. lia. Qed.

Lemma rival_frame : any_frame seconds pad after_snapshot after_rival.
Proof. exists rival_site. apply (demo_step steady_files 620%N rival 1 (renamed 9)); [apply in_range; lia|exact I]. Qed.

Lemma delivered_once_witness :
  (demo_intake steady_files 640%N branch_site 1 (renamed 5) after_rival).2 = Ok () ∧
  intake_view after_replay = intake_view after_rival.
Proof.
  split; [vm_compute; reflexivity|].
  assert (demo_intake steady_files 600%N branch_site 1 (renamed 4) quiet_center = (after_snapshot, Ok ())) as Hrun
    by (vm_compute; reflexivity).
  exact (delivered_once seconds pad steady_files (drawn_ids 600%N) branch_site 1 (renamed 4) noon
    quiet_center after_snapshot after_rival after_replay steady_files (drawn_ids 640%N) 1 (renamed 5) noon
    (demo_intake steady_files 640%N branch_site 1 (renamed 5) after_rival).2
    quiet_center_ok (in_range 1 ltac:(lia)) I I Hrun
    (rtc_l _ _ _ _ rival_frame (rtc_refl _ _)) eq_refl (Z.le_refl 1) (surjective_pairing _)).
Defined.

Lemma foreign_frames_inert_witness :
  holds_endpoint branch (iv_content (intake_view after_snapshot)) machine ∧
  preserved branch (intake_view after_snapshot) (intake_view after_rival).
Proof.
  split.
  - split; [eexists; split; [vm_compute; reflexivity|reflexivity]|].
    intros (id & m & Hm & _). vm_compute in Hm. discriminate Hm.
  - assert (rival_site ≠ branch) as Hne by (vm_compute; discriminate).
    assert (demo_intake steady_files 600%N branch_site 1 (renamed 4) quiet_center = (after_snapshot, Ok ())) as Hrun
      by (vm_compute; reflexivity).
    apply intake_frame_spec in Hrun as [Hok _]; [|exact I|exact quiet_center_ok].
    refine (foreign_frames_inert seconds pad branch after_snapshot after_rival Hok (rtc_l _ _ _ _ _ (rtc_refl _ _))).
    exists rival_site. split; [exact Hne|].
    apply (demo_step steady_files 620%N rival 1 (renamed 9)); [apply in_range; lia|exact I].
Defined.

(** ** Events *)

Definition nowhere : EndpointId := 99%N.
Definition alert (id : EventId) (message : string) (endpoint : EndpointId) : EventRecord :=
  mk_event_record (show_uuid id) (lit message) 2 [] 30 [] (show_uuid endpoint).
Definition mixed_batch : list EventRecord := [alert 700%N "Fan.1.0.Failed" machine; alert 701%N "Fan.1.0.Lost" nowhere].
Definition after_batch : DemoIntake := (demo_intake steady_files 660%N branch_site 1 (MsgEventBatch mixed_batch) quiet_center).1.

Lemma batch_accounted_witness :
  let c := iv_content (intake_view after_batch) in
  stored_report c machine (lit "Fan.1.0.Failed") (30 * second) ∧
  stored_report c nowhere CENTER_ABSORBED_EVENT_MESSAGE_ID (30 * second).
Proof.
  intros c.
  assert (demo_intake steady_files 660%N branch_site 1 (MsgEventBatch mixed_batch) quiet_center = (after_batch, Ok ())) as Hrun
    by (vm_compute; reflexivity).
  assert (passes (intake_view quiet_center) branch StreamEvent 1 = true) as Hp by (vm_compute; reflexivity).
  pose proof (batch_accounted seconds pad steady_files (drawn_ids 660%N) branch_site 1 mixed_batch noon
    quiet_center after_batch quiet_center_ok Hp Hrun) as Hall.
  split.
  - refine (Hall (alert 700%N "Fan.1.0.Failed" machine)
      (mk_event 700%N machine (lit "Fan.1.0.Failed") SeverityWarning None (30 * second) noon
         (derive_dedup_key (lit "Fan.1.0.Failed") (30 * second))) _ _); [left|vm_compute; reflexivity].
  - refine (Hall (alert 701%N "Fan.1.0.Lost" nowhere)
      (mk_event 701%N nowhere (lit "Fan.1.0.Lost") SeverityWarning None (30 * second) noon
         (derive_dedup_key (lit "Fan.1.0.Lost") (30 * second))) _ _); [right; left|vm_compute; reflexivity].
Defined.

(** The site reports under an identity it has used before. *)
Definition reused_batch : list EventRecord := [alert 702%N "Fan.1.0.Restored" machine; alert 700%N "Fan.1.0.Stopped" machine].
Definition reused_event : Event :=
  mk_event 700%N machine (lit "Fan.1.0.Stopped") SeverityWarning None (30 * second) noon
    (derive_dedup_key (lit "Fan.1.0.Stopped") (30 * second)).
Definition after_reuse : DemoIntake := (demo_intake steady_files 680%N branch_site 2 (MsgEventBatch reused_batch) after_batch).1.

Lemma after_batch_ok : intake_ok after_batch.
Proof.
  assert (demo_intake steady_files 660%N branch_site 1 (MsgEventBatch mixed_batch) quiet_center = (after_batch, Ok ())) as Hrun
    by (vm_compute; reflexivity).
  apply intake_frame_spec in Hrun as [Hok _]; [exact Hok|exact I|exact quiet_center_ok].
Qed.

Lemma after_batch_new :
  map_Forall (λ _ x, ¬ same_report x.1 reused_event) (nv_events (iv_content (intake_view after_batch))).
Proof. apply holds. vm_compute. reflexivity. Qed.

Lemma reused_alone record e :
  record ∈ reused_batch → decode_event seconds record noon = Ok e → same_report e reused_event → e = reused_event.
Proof.
  intros Hin Hd [_ Hkey]. unfold reused_batch in Hin. apply elem_of_cons in Hin as [-> |Hin].
  - vm_compute in Hd. injection Hd as <-. vm_compute in Hkey. discriminate Hkey.
  - apply list_elem_of_singleton in Hin as ->. vm_compute in Hd. injection Hd as <-. vm_compute. reflexivity.
Qed.

Lemma reused_event_id_blocks_witness :
  (demo_intake steady_files 680%N branch_site 2 (MsgEventBatch reused_batch) after_batch).2 ≠ Ok () ∧
  intake_view after_reuse = intake_view after_batch.
Proof.
  assert (passes (intake_view after_batch) branch StreamEvent 2 = true) as Hp by (vm_compute; reflexivity).
  assert (decode_event seconds (alert 700%N "Fan.1.0.Stopped" machine) noon = Ok reused_event) as Hd
    by (vm_compute; reflexivity).
  assert (alert 700%N "Fan.1.0.Stopped" machine ∈ reused_batch) as Hin by (right; left).
  exact (reused_event_id_blocks seconds pad steady_files (drawn_ids 680%N) branch_site 2 reused_batch noon
    after_batch after_reuse (demo_intake steady_files 680%N branch_site 2 (MsgEventBatch reused_batch) after_batch).2
    (alert 700%N "Fan.1.0.Stopped" machine) reused_event after_batch_ok Hp Hin Hd
    ltac:(vm_compute; reflexivity) ltac:(vm_compute; by eexists) after_batch_new reused_alone (surjective_pairing _)).
Defined.

Definition twins : list EventRecord := [alert 703%N "Fan.1.0.Failed" nowhere; alert 704%N "Disk.1.0.Failed" nowhere].
Definition after_twins : DemoIntake := (demo_intake steady_files 660%N branch_site 1 (MsgEventBatch twins) quiet_center).1.
Definition twin_event (id : EventId) (message : string) : Event :=
  mk_event id nowhere (lit message) SeverityWarning None (30 * second) noon (derive_dedup_key (lit message) (30 * second)).

Lemma twin_dead_letter_lost_witness :
  size (nv_events (iv_content (intake_view after_twins))) = 1%nat ∧
  ∃ d reason, absorption_dead_letter 662%N (twin_event 703%N "Fan.1.0.Failed") branch reason = Ok d ∧
    append_event (Some branch) (nv_events (iv_content (intake_view quiet_center))) d =
      Some (nv_events (iv_content (intake_view after_twins))).
Proof.
  split; [vm_compute; reflexivity|].
  assert (demo_intake steady_files 660%N branch_site 1 (MsgEventBatch twins) quiet_center = (after_twins, Ok ())) as Hrun
    by (vm_compute; reflexivity).
  assert (passes (intake_view quiet_center) branch StreamEvent 1 = true) as Hp by (vm_compute; reflexivity).
  assert (decode_event seconds (alert 703%N "Fan.1.0.Failed" nowhere) noon = Ok (twin_event 703%N "Fan.1.0.Failed")) as H1
    by (vm_compute; reflexivity).
  assert (decode_event seconds (alert 704%N "Disk.1.0.Failed" nowhere) noon = Ok (twin_event 704%N "Disk.1.0.Failed")) as H2
    by (vm_compute; reflexivity).
  exact (twin_dead_letter_lost seconds pad steady_files (drawn_ids 660%N) branch_site 1
    (alert 703%N "Fan.1.0.Failed" nowhere) (alert 704%N "Disk.1.0.Failed" nowhere) noon quiet_center after_twins
    (twin_event 703%N "Fan.1.0.Failed") (twin_event 704%N "Disk.1.0.Failed")
    quiet_center_ok Hp H1 H2 eq_refl eq_refl ltac:(vm_compute; discriminate) Hrun).
Defined.

(** ** Artifacts *)

Definition log_file : list N := [76; 79; 71]%N.
Definition log_id : ArtifactId := 800%N.
Definition log_manifest : WireArtifactManifest := mk_wire_manifest (show_uuid log_id) (lit "boot.log") 3 (pad log_file).
Definition log_chunk : WireArtifactChunk := mk_wire_chunk (show_uuid log_id) 0 log_file.
Definition declared : DemoIntake :=
  (demo_intake steady_files 720%N branch_site 1 (MsgArtifactManifest log_manifest) quiet_center).1.
Definition torn : DemoIntake := (demo_intake tearing_files 740%N branch_site 2 (MsgArtifactChunk log_chunk) declared).1.
Definition received : DemoIntake := (demo_intake steady_files 760%N branch_site 2 (MsgArtifactChunk log_chunk) torn).1.
Definition chunk_sequence (k : nat) : Z := Z.of_nat k + 2.

Lemma log_wire : wire_ok (MsgArtifactManifest log_manifest).
Proof. split; [vm_compute; discriminate|]. apply holds. vm_compute. reflexivity. Qed.

Lemma log_chunk_wire : wire_ok (MsgArtifactChunk log_chunk).
Proof. split; vm_compute; discriminate. Qed.

Lemma verified_artifacts_witness :
  (∃ a, nv_artifacts (iv_content (intake_view received)) !! log_id = Some (a, Some branch) ∧ a_state a = Ready) ∧
  ready_verified pad (iv_content (intake_view received)) (iv_files (intake_view received)).
Proof.
  split; [eexists; split; vm_compute; reflexivity|].
  assert (ready_verified pad (iv_content (intake_view quiet_center)) (iv_files (intake_view quiet_center))) as Hstart.
  { intros id a o Ha. vm_compute in Ha. discriminate Ha. }
  refine (verified_artifacts seconds pad quiet_center received quiet_center_ok Hstart
    (rtc_l _ _ declared _ _ (rtc_l _ _ torn _ _ (rtc_l _ _ received _ _ (rtc_refl _ _))))); exists branch.
  - apply (demo_step steady_files 720%N branch_site 1); [apply in_range; lia|exact log_wire].
  - apply (demo_step tearing_files 740%N branch_site 2); [apply in_range; lia|exact log_chunk_wire].
  - apply (demo_step steady_files 760%N branch_site 2); [apply in_range; lia|exact log_chunk_wire].
Defined.

#[local] Opaque chunk_size.

Lemma log_chunks_sequences k :
  (k * chunk_size < length log_file)%nat →
  0 <= chunk_sequence k < chunk_sequence (S k) ∧ chunk_sequence (S k) <= U64_MAX.
Proof.
  intros Hk. pose proof chunk_size_Z as Hc. unfold CENTER_ARTIFACT_CHUNK_SIZE in Hc. simpl in Hk.
  assert (k = 0%nat) as -> by nia. vm_compute. repeat split; discriminate.
Qed.

Lemma log_honest : honest log_file log_id 0 log_chunk.
Proof.
  split; [vm_compute; reflexivity|]. split; [reflexivity|]. split; [|simpl; lia].
  unfold chunk_bytes. rewrite Nat.mul_0_l. symmetry. apply (take_ge log_file). pose proof chunk_size_Z as Hc.
  unfold CENTER_ARTIFACT_CHUNK_SIZE in Hc. simpl. lia.
Qed.

(** The first delivery of the chunk is torn after a byte, the second completes. *)
Lemma transfer_completes_witness :
  (demo_intake tearing_files 740%N branch_site 2 (MsgArtifactChunk log_chunk) declared).2 = Err (ArtifactFile log_id) ∧
  file_of (iv_files (intake_view torn)) log_id = [76]%N ∧
  file_of (iv_files (intake_view received)) log_id = log_file ∧
  ∃ a, nv_artifacts (iv_content (intake_view received)) !! log_id = Some (a, Some branch) ∧ a_state a = Ready.
Proof.
  split; [vm_compute; reflexivity|]. split; [vm_compute; reflexivity|].
  assert (demo_intake steady_files 720%N branch_site 1 (MsgArtifactManifest log_manifest) quiet_center = (declared, Ok ()))
    as Hman by (vm_compute; reflexivity).
  assert (demo_intake tearing_files 740%N branch_site 2 (MsgArtifactChunk log_chunk) declared =
    (torn, Err (ArtifactFile log_id))) as H1 by (vm_compute; reflexivity).
  assert (demo_intake steady_files 760%N branch_site 2 (MsgArtifactChunk log_chunk) torn = (received, Ok ())) as H2
    by (vm_compute; reflexivity).
  assert (announces pad log_file log_id log_manifest) as Ha.
  { split; [vm_compute; reflexivity|]. split; [reflexivity|]. split; [reflexivity|exact log_wire]. }
  assert (passes (intake_view quiet_center) branch StreamArtifact 1 = true) as Hp by (vm_compute; reflexivity).
  assert (unknown log_id (intake_view quiet_center)) as Hu by (split; vm_compute; reflexivity).
  assert (0 <= 1 < chunk_sequence 0) as Hq by (vm_compute; split; [discriminate|reflexivity]).
  assert (Z.of_nat (length log_file) <= ARTIFACT_MAX_SIZE_BYTES) as Hmax by (vm_compute; discriminate).
  assert (length log_file ≤ 1 * chunk_size)%nat as Hk.
  { rewrite Nat.mul_1_l. apply Nat2Z.inj_le. rewrite chunk_size_Z. vm_compute. discriminate. }
  exact (transfer_completes seconds pad log_file log_id branch Hmax chunk_sequence log_chunks_sequences
    steady_files (drawn_ids 720%N) branch_site 1 log_manifest noon quiet_center declared 1 received
    quiet_center_ok eq_refl Ha ltac:(vm_compute; reflexivity) Hp Hq Hu Hman
    (rtc_l _ _ _ _ (deliver_chunk seconds pad log_file log_id branch chunk_sequence tearing_files (drawn_ids 740%N)
       branch_site noon 0 log_chunk declared torn _ eq_refl log_honest H1)
    (rtc_l _ _ _ _ (deliver_chunk seconds pad log_file log_id branch chunk_sequence steady_files (drawn_ids 760%N)
       branch_site noon 0 log_chunk torn received _ eq_refl log_honest H2) (rtc_refl _ _))) Hk).
Defined.

(** ** One connection *)

Abbreviation ReportingCenter :=
  (Center (World Tables) (World OutboxTable) (World AccountTables) DemoIntake (World InboxTable)).
#[export] Instance content_reads : ProjectionReads (World ContentTables) CenterProjectionRepositoryError := {
  find_endpoint_projection e :=
    with_projection_tables (find_endpoint_projection (ProjectionReads := site_projections) e);
  has_resource e target := with_projection_tables (has_resource (ProjectionReads := site_projections) e target);
}.

Definition one_frame : FrameEnv := mk_frame_env (mk_track_ids 80%N 81%N) (drawn_ids 780%N) steady_files.
Definition reporting : Engine ReportingCenter :=
  mk_engine (mk_center empty_world (mk_world ∅ 0) unclaimed quiet_center (mk_world ∅ 0)) registry [] [] [] 0 0.
Abbreviation demo_report envelope g :=
  (receive_frame (Eob := CenterOutboxRepositoryError) seconds
     (process_frame (Command := ()) (Eop := OperationRepositoryError) (Eob := CenterOutboxRepositoryError)
        (Epr := CenterProjectionRepositoryError) (Ear := ArtifactRepositoryError) (Ecu := SyncCursorRepositoryError)
        (Ein := CenterInboxRepositoryError) seconds nothing_v5 pad one_frame)
     tick no_send_fails branch_site 1 envelope g).
Definition snapshot_envelope : Envelope := mk_envelope 7 0 (Some (MsgContent (renamed 4))).
Definition reported_once : Engine ReportingCenter := (demo_report snapshot_envelope reporting).1.

Lemma covered_before_answered_witness :
  (en_acked_sequence <$> eg_wire reported_once) = [7] ∧
  covered (intake_view (consumer_of reported_once)) branch StreamEndpoint 7.
Proof.
  split; [vm_compute; reflexivity|].
  assert (0 <= 7 <= U64_MAX) as Hs by (apply in_range; lia).
  destruct (covered_before_answered seconds nothing_v5 pad one_frame tick no_send_fails branch_site 1 snapshot_envelope
    (renamed 4) reporting reported_once (demo_report snapshot_envelope reporting).2 quiet_center_ok eq_refl Hs I
    (surjective_pairing _)) as [Hc|[Hw _]]; [exact Hc|].
  vm_compute in Hw. discriminate Hw.
Defined.
