(* ===== verification/EndpointInventory.v ===== *)
(** * EndpointInventory: the endpoints with their last known resources

    Models [application/src/endpoint_inventory.rs] and the [ResourceSnapshot] of
    [domain/src/resource_snapshot.rs]. *)
From S2P Require Import Prelude Text Operation ResourceSnapshot Endpoints.
Local Open Scope Z_scope.

Record ResourceSnapshot := mk_resource_snapshot {
  sn_resource_id : Uuid;
  sn_endpoint_id : EndpointId;
  sn_feature : ResourceFeature;
  sn_odata_id : str;
  sn_odata_type : option str;
  sn_etag : option str;
  sn_payload : str;
  sn_observed_at : OffsetDateTime;
  sn_generation : Z;
}.

(** One member that failed to decode, [ResourceDecodeFailure] of
    [resource_diagnostics.rs] with its [ResourceExtendedInfo]. *)
Record ResourceExtendedInfo := mk_extended_info {
  xi_message_id : str;
  xi_message : option str;
  xi_severity : option str;
  xi_resolution : option str;
  xi_related_properties : list str;
}.
Record ResourceDecodeFailure := mk_decode_failure {
  df_odata_uri : str;
  df_odata_type : option str;
  df_feature : ResourceFeature;
  df_oem_namespace : option str;
  df_error_summary : str;
  df_extended_info : list ResourceExtendedInfo;
}.

Definition RESOURCE_DECODE_FAILURE_OEM_NAMESPACE_MAX_CHARS : N := 512.
Definition RESOURCE_DECODE_FAILURE_SUMMARY_MAX_CHARS : N := 2048.

Inductive ResourceDecodeFailureError :=
| EmptyOemNamespace | OemNamespaceTooLong (max : N) | EmptyErrorSummary | ErrorSummaryTooLong (max : N).

(** [len] counts bytes. *)
Definition ResourceDecodeFailure_try_new (odata_uri : str) (odata_type : option str) (feature : ResourceFeature)
    (oem_namespace : option str) (error_summary : str) (extended_info : list ResourceExtendedInfo)
    : result ResourceDecodeFailure ResourceDecodeFailureError :=
  let? _ :=
    match oem_namespace with
    | Some namespace =>
        if decide (namespace = []) then Err EmptyOemNamespace
        else if (RESOURCE_DECODE_FAILURE_OEM_NAMESPACE_MAX_CHARS <? str_len namespace)%N
        then Err (OemNamespaceTooLong RESOURCE_DECODE_FAILURE_OEM_NAMESPACE_MAX_CHARS)
        else Ok ()
    | None => Ok ()
    end in
  if decide (error_summary = []) then Err EmptyErrorSummary
  else if (RESOURCE_DECODE_FAILURE_SUMMARY_MAX_CHARS <? str_len error_summary)%N
  then Err (ErrorSummaryTooLong RESOURCE_DECODE_FAILURE_SUMMARY_MAX_CHARS)
  else Ok (mk_decode_failure odata_uri odata_type feature oem_namespace error_summary extended_info).

(** ** One endpoint *)

Record EndpointInventoryItem := mk_inventory_item {
  it_endpoint : Endpoint;
  it_resources : list ResourceSnapshot;
  it_decode_failures : list ResourceDecodeFailure;
}.

Inductive EndpointInventoryItemError :=
| ForeignResource (endpoint_id : EndpointId) (resource_id : Uuid)
| MixedGeneration (endpoint_id : EndpointId)
| MixedObservationTime (endpoint_id : EndpointId)
| DuplicateResourceId (endpoint_id : EndpointId) (resource_id : Uuid)
| DuplicateODataId (endpoint_id : EndpointId)
| ServiceRootMissing (endpoint_id : EndpointId)
| MultipleServiceRoots (endpoint_id : EndpointId).

Definition odata_le (l r : ResourceSnapshot) : Prop := str_le (sn_odata_id l) (sn_odata_id r).
#[export] Instance odata_le_dec : RelDecision odata_le.
Proof. intros l r. unfold odata_le, str_le. apply _. Defined.
#[export] Instance odata_le_total : Total odata_le.
Proof. intros l r. apply str_le_total. Qed.
#[export] Instance odata_le_trans : Transitive odata_le.
Proof. intros a b c. apply str_le_trans. Qed.

(** The loop over the resources: what was seen, and the service roots so far. *)
Fixpoint check_resources (endpoint_id : EndpointId) (generation : Z) (observed_at : OffsetDateTime)
    (resource_ids : list Uuid) (odata_ids : list str) (service_roots : nat) (resources : list ResourceSnapshot)
    : result nat EndpointInventoryItemError :=
  match resources with
  | [] => Ok service_roots
  | resource :: resources =>
      if decide (sn_endpoint_id resource ≠ endpoint_id)
      then Err (ForeignResource endpoint_id (sn_resource_id resource))
      else if decide (sn_generation resource ≠ generation) then Err (MixedGeneration endpoint_id)
      else if decide (sn_observed_at resource ≠ observed_at) then Err (MixedObservationTime endpoint_id)
      else if decide (sn_resource_id resource ∈ resource_ids)
      then Err (DuplicateResourceId endpoint_id (sn_resource_id resource))
      else if decide (sn_odata_id resource ∈ odata_ids) then Err (DuplicateODataId endpoint_id)
      else
        check_resources endpoint_id generation observed_at (sn_resource_id resource :: resource_ids)
          (sn_odata_id resource :: odata_ids)
          (if decide (sn_feature resource = FeatureServiceRoot) then S service_roots else service_roots) resources
  end.

Definition EndpointInventoryItem_try_new (endpoint : Endpoint) (resources : list ResourceSnapshot)
    : result EndpointInventoryItem EndpointInventoryItemError :=
  match resources with
  | [] => Ok (mk_inventory_item endpoint resources [])
  | first :: _ =>
      let? service_roots :=
        check_resources (ep_id endpoint) (sn_generation first) (sn_observed_at first) [] [] 0 resources in
      match service_roots with
      | 1%nat => Ok (mk_inventory_item endpoint (merge_sort odata_le resources) [])
      | 0%nat => Err (ServiceRootMissing (ep_id endpoint))
      | _ => Err (MultipleServiceRoots (ep_id endpoint))
      end
  end.

Definition with_decode_failures (item : EndpointInventoryItem) (failures : list ResourceDecodeFailure)
    : EndpointInventoryItem := mk_inventory_item (it_endpoint item) (it_resources item) failures.
Definition it_generation (item : EndpointInventoryItem) : option Z := sn_generation <$> head (it_resources item).
Definition last_successful_refresh_at (item : EndpointInventoryItem) : option OffsetDateTime :=
  sn_observed_at <$> head (it_resources item).
Definition resource_count (item : EndpointInventoryItem) (feature : ResourceFeature) : nat :=
  length (filter (λ r, sn_feature r = feature) (it_resources item)).

(** The resources of one refresh: all of the endpoint, of one generation and one
    time, without repetition, with one service root. *)
Definition coherent (endpoint_id : EndpointId) (resources : list ResourceSnapshot) : Prop :=
  resources = [] ∨
  ∃ generation observed_at,
    Forall (λ r, sn_endpoint_id r = endpoint_id ∧ sn_generation r = generation ∧ sn_observed_at r = observed_at) resources ∧
    NoDup (sn_resource_id <$> resources) ∧ NoDup (sn_odata_id <$> resources) ∧
    length (filter (λ r, sn_feature r = FeatureServiceRoot) resources) = 1%nat.

Lemma check_resources_Ok e g o ids odatas n resources m :
  check_resources e g o ids odatas n resources = Ok m ↔
  Forall (λ r, sn_endpoint_id r = e ∧ sn_generation r = g ∧ sn_observed_at r = o) resources ∧
  NoDup (sn_resource_id <$> resources) ∧ Forall (λ x, x ∉ ids) (sn_resource_id <$> resources) ∧
  NoDup (sn_odata_id <$> resources) ∧ Forall (λ x, x ∉ odatas) (sn_odata_id <$> resources) ∧
  m = (n + length (filter (λ r, sn_feature r = FeatureServiceRoot) resources))%nat.
Proof.
  revert ids odatas n. induction resources as [|r rs IH]; intros ids odatas n; cbn [check_resources fmap list_fmap].
  { rewrite filter_nil. simpl. rewrite Nat.add_0_r. split; [|by intros (_ & _ & _ & _ & _ & ->)].
    intros [= <-]. by repeat split; constructor. }
  rewrite !Forall_cons, !NoDup_cons, filter_cons.
  destruct (decide (sn_endpoint_id r ≠ e)) as [|He]; [naive_solver|apply dec_stable in He].
  destruct (decide (sn_generation r ≠ g)) as [|Hg]; [naive_solver|apply dec_stable in Hg].
  destruct (decide (sn_observed_at r ≠ o)) as [|Ho]; [naive_solver|apply dec_stable in Ho].
  destruct (decide (sn_resource_id r ∈ ids)); [naive_solver|].
  destruct (decide (sn_odata_id r ∈ odatas)); [naive_solver|].
  rewrite IH, !Forall_forall. setoid_rewrite not_elem_of_cons.
  assert (∀ (x : nat), ((if decide (sn_feature r = FeatureServiceRoot) then S n else n) + x =
    n + if decide (sn_feature r = FeatureServiceRoot) then S x else x)%nat) as Hcount by (intros; case_decide; lia).
  assert (length (if decide (sn_feature r = FeatureServiceRoot) then r :: filter (λ r0, sn_feature r0 = FeatureServiceRoot) rs
    else filter (λ r0, sn_feature r0 = FeatureServiceRoot) rs) =
    if decide (sn_feature r = FeatureServiceRoot) then S (length (filter (λ r0, sn_feature r0 = FeatureServiceRoot) rs))
    else length (filter (λ r0, sn_feature r0 = FeatureServiceRoot) rs)) as -> by by case_decide.
  rewrite Hcount. split.
  - intros (H1 & H2 & H3 & H4 & H5 & H6). split_and!; try done; try naive_solver.
  - intros ((_ & H1) & (H2 & H3) & (_ & H4) & (H5 & H6) & (_ & H7) & H8). split_and!; try done.
    + intros x Hx. split; [by intros ->|by apply H4].
    + intros x Hx. split; [by intros ->|by apply H7].
Qed.

(** An item is accepted exactly for coherent resources, and lists them by their
    identifier. *)
Theorem inventory_item_coherent endpoint resources item :
  EndpointInventoryItem_try_new endpoint resources = Ok item ↔
  coherent (ep_id endpoint) resources ∧
  item = mk_inventory_item endpoint (merge_sort odata_le resources) [].
Proof.
  unfold EndpointInventoryItem_try_new, coherent. destruct resources as [|first rest].
  { assert (merge_sort odata_le [] = []) as -> by (vm_compute; reflexivity). naive_solver. }
  remember (first :: rest) as resources eqn:Hrs.
  destruct (check_resources _ _ _ _ _ _ _) as [n|x] eqn:Hcheck; cbn [result_bind].
  - apply check_resources_Ok in Hcheck as (Hall & Hids & _ & Hod & _ & ->). simpl.
    destruct (length (filter _ resources)) as [|[|k]] eqn:Hlen; split; try done.
    + intros [[->|(g & o & _ & _ & _ & ?)] _]; [done|lia].
    + intros [= <-]. split; [|done]. right. eauto 10.
    + by intros [_ ->].
    + intros [[->|(g & o & _ & _ & _ & ?)] _]; [done|lia].
  - split; [done|]. intros [[->|(g & o & Hall & Hids & Hod & Hlen)] _]; [done|]. exfalso.
    assert (g = sn_generation first ∧ o = sn_observed_at first) as [-> ->].
    { rewrite Hrs in Hall. by apply Forall_cons in Hall as [(_ & -> & ->) _]. }
    enough (check_resources (ep_id endpoint) (sn_generation first) (sn_observed_at first) [] [] 0 resources = Ok 1%nat) by congruence.
    apply check_resources_Ok. rewrite Hlen. split_and!; try done; apply Forall_forall; intros ??; apply not_elem_of_nil.
Qed.

(** ** All endpoints *)

Class EndpointInventoryRepository (St E : Type) := {
  list_endpoint_inventory : M St E (list EndpointInventoryItem);
}.

Inductive EndpointInventoryQueryError (E : Type) :=
| InventoryRepository (source : E)
| DuplicateEndpoint (endpoint_id : EndpointId).
Arguments InventoryRepository {E}.
Arguments DuplicateEndpoint {E}.

Definition it_id (item : EndpointInventoryItem) : EndpointId := ep_id (it_endpoint item).

(** The order of the listing: by display name, then by identity. *)
Definition name_le (l r : EndpointInventoryItem) : Prop :=
  if decide (ep_display_name (it_endpoint l) = ep_display_name (it_endpoint r)) then (it_id l <= it_id r)%N
  else str_le (ep_display_name (it_endpoint l)) (ep_display_name (it_endpoint r)).
#[export] Instance name_le_dec : RelDecision name_le.
Proof. intros l r. unfold name_le, str_le. case_decide; apply _. Defined.
#[export] Instance name_le_total : Total name_le.
Proof.
  intros l r. unfold name_le. destruct (decide _) as [Heq|Hne].
  - rewrite decide_True by done. lia.
  - rewrite decide_False by congruence. apply str_le_total.
Qed.
#[export] Instance name_le_trans : Transitive name_le.
Proof.
  intros a b c. unfold name_le.
  destruct (decide (ep_display_name (it_endpoint a) = ep_display_name (it_endpoint b))) as [Hab|Hab],
    (decide (ep_display_name (it_endpoint b) = ep_display_name (it_endpoint c))) as [Hbc|Hbc]; intros H1 H2.
  - rewrite decide_True by congruence. lia.
  - rewrite decide_False by congruence. by rewrite Hab.
  - rewrite decide_False by congruence. by rewrite <- Hbc.
  - destruct (decide _) as [Hac|Hac]; [|by etransitivity].
    destruct Hab. apply str_le_antisym; [done|]. by rewrite Hac.
Qed.

(** The first endpoint that the list repeats. *)
Fixpoint repeated (seen : list EndpointId) (items : list EndpointInventoryItem) : option EndpointId :=
  match items with
  | [] => None
  | item :: items => if decide (it_id item ∈ seen) then Some (it_id item) else repeated (it_id item :: seen) items
  end.

Definition EndpointInventoryQuery_execute {St E} `{EndpointInventoryRepository St E}
    : M St (EndpointInventoryQueryError E) (list EndpointInventoryItem) :=
  let! items := mmap_err InventoryRepository list_endpoint_inventory in
  match repeated [] items with
  | Some endpoint_id => mfail (DuplicateEndpoint endpoint_id)
  | None => mret (merge_sort name_le items)
  end.

Lemma repeated_None seen items :
  repeated seen items = None ↔ NoDup (it_id <$> items) ∧ Forall (λ e, e ∉ seen) (it_id <$> items).
Proof.
  revert seen. induction items as [|item items IH]; intros seen; cbn [repeated fmap list_fmap].
  { split; [intros _; by repeat constructor|done]. }
  rewrite NoDup_cons, Forall_cons. case_decide as Hin; [naive_solver|].
  rewrite IH, !Forall_forall. setoid_rewrite not_elem_of_cons. split.
  - intros [Hnd Hall]. split; [split; [|done]|split; [done|]]; [intros Hx; by destruct (Hall _ Hx)|].
    intros x Hx. by destruct (Hall _ Hx).
  - intros [[Hne Hnd] [_ Hall]]. split; [done|]. intros x Hx. split; [by intros ->|by apply Hall].
Qed.

(** An answer lists the repository's items, each endpoint once, by name. *)
Lemma execute_inv {St E} `{EndpointInventoryRepository St E} s s' items :
  EndpointInventoryQuery_execute s = (s', Ok items) →
  ∃ listed, list_endpoint_inventory s = (s', Ok listed) ∧ items ≡ₚ listed ∧ NoDup (it_id <$> items) ∧
    Sorted name_le items.
Proof.
  unfold EndpointInventoryQuery_execute. intros Hrun.
  apply mbind_ok in Hrun as (listed & s1 & Hl & Hrun). apply mmap_err_inv in Hl as (r & Hl & Hr).
  destruct r as [x|]; [|done]. simplify_eq/=.
  destruct (repeated [] x) eqn:Hrep; [done|]. injection Hrun as <- <-.
  apply repeated_None in Hrep as [Hnd _]. exists x. split; [done|].
  pose proof (merge_sort_Permutation name_le x) as Hperm. split; [done|]. split; [by rewrite Hperm|].
  apply Sorted_merge_sort, _.
Qed.
