(* ===== verification/SiteReports.v ===== *)
(** * SiteReports: what a site tells its center

    Models the reporting half of [application/src/center_sync.rs]: first the cursor
    of the endpoint stream ([parse_endpoint_cursor], [format_endpoint_cursor]), the
    watermark of every reported endpoint as [id:generation] pairs in the order of
    the identities, joined by commas; then the endpoint, event and artifact reports. *)
From S2P Require Import Prelude Text Operation Database CenterDomain LinkMessages Artifact Endpoints ArtifactRepository ArtifactStore ResourceSnapshot CenterOutbox CenterStores EventRepository SyncCursors CenterIntake.
From S2P Require Import EndpointInventory.
Local Open Scope Z_scope.

(** A UUID's text is hexadecimal digits and hyphens: it holds no separator. *)
Class UuidTextLaws `{UuidText} := {
  show_uuid_comma u : 44%N ∉ show_uuid u;
  show_uuid_colon u : 58%N ∉ show_uuid u;
}.

(** ** Separated texts *)

(** [str::split] at one character. *)
Fixpoint split_at (c : char) (s : str) : list str :=
  match s with
  | [] => [[]]
  | x :: s =>
      if decide (x = c) then [] :: split_at c s
      else match split_at c s with y :: ys => (x :: y) :: ys | [] => [[x]] end
  end.

(** [str::split_once] at one character. *)
Fixpoint split_once (c : char) (s : str) : option (str * str) :=
  match s with
  | [] => None
  | x :: s => if decide (x = c) then Some ([], s) else (λ p, (x :: p.1, p.2)) <$> split_once c s
  end.

(** [[T]::join] with one character. *)
Fixpoint join_with (c : char) (l : list str) : str :=
  match l with
  | [] => []
  | [x] => x
  | x :: l => x ++ [c] ++ join_with c l
  end.

Lemma split_at_app c x s : c ∉ x → split_at c (x ++ c :: s) = x :: split_at c s.
Proof.
  induction x as [|y x IH]; intros Hx; simpl; [by rewrite decide_True|].
  apply not_elem_of_cons in Hx as [Hy Hx]. rewrite decide_False by congruence. by rewrite IH.
Qed.

Lemma split_at_plain c x : c ∉ x → split_at c x = [x].
Proof.
  induction x as [|y x IH]; intros Hx; simpl; [done|].
  apply not_elem_of_cons in Hx as [Hy Hx]. rewrite decide_False by congruence. by rewrite IH.
Qed.

Lemma split_join c l : l ≠ [] → Forall (λ x, c ∉ x) l → split_at c (join_with c l) = l.
Proof.
  induction l as [|x [|y l] IH]; intros Hne Hl; [done|..]; apply Forall_cons in Hl as [Hx Hl].
  - by apply split_at_plain.
  - cbn [join_with app]. rewrite split_at_app by done. f_equal. by apply IH.
Qed.

Lemma split_once_app c x s : c ∉ x → split_once c (x ++ c :: s) = Some (x, s).
Proof.
  induction x as [|y x IH]; intros Hx; simpl; [by rewrite decide_True|].
  apply not_elem_of_cons in Hx as [Hy Hx]. rewrite decide_False by congruence. by rewrite IH.
Qed.

Lemma decimal_not_in c n : is_ascii_digit c = false → c ∉ decimal n.
Proof. intros Hc Hin. pose proof (decimal_digits n) as Hd. rewrite Forall_forall in Hd. apply Hd in Hin. congruence. Qed.

(** ** The watermark *)

Inductive StoredCursorError := InvalidEndpointPair | UnknownStream | InvalidId.

Abbreviation Watermark := (gmap EndpointId Z).

Definition key_le (l r : EndpointId * Z) : Prop := (l.1 <= r.1)%N.
#[export] Instance key_le_dec : RelDecision key_le.
Proof. intros l r. unfold key_le. apply _. Defined.
#[export] Instance key_le_total : Total key_le.
Proof. intros l r. unfold key_le. lia. Qed.
#[export] Instance key_le_trans : Transitive key_le.
Proof. intros a b c. unfold key_le. lia. Qed.

(** [BTreeMap]'s iteration. *)
Definition watermark_list (w : Watermark) : list (EndpointId * Z) := merge_sort key_le (map_to_list w).

Section text.
Context `{UuidText}.

Definition endpoint_pair (p : EndpointId * Z) : str := show_uuid p.1 ++ [58%N] ++ decimal (Z.to_N p.2).
Definition format_endpoint_cursor (w : Watermark) : str := join_with 44%N (endpoint_pair <$> watermark_list w).

(** The loop over the pairs. *)
Fixpoint parse_pairs (w : Watermark) (pairs : list str) : result Watermark StoredCursorError :=
  match pairs with
  | [] => Ok w
  | first :: pairs =>
      let? parts := ok_or (split_once 58%N first) InvalidEndpointPair in
      let? endpoint_id := ok_or (parse_uuid parts.1) InvalidId in
      let? generation := ok_or (parse_u64 parts.2) InvalidEndpointPair in
      parse_pairs (<[endpoint_id := Z.of_N generation]> w) pairs
  end.

Definition parse_endpoint_cursor (value : str) : result Watermark StoredCursorError :=
  if decide (value = []) then Ok ∅ else parse_pairs ∅ (split_at 44%N value).

Context `{!UuidTextLaws}.

(** The generations are [u64]. *)
Definition watermark_ok (w : Watermark) : Prop := ∀ e g, w !! e = Some g → 0 <= g <= U64_MAX.

Definition insert_pair (w : Watermark) (p : EndpointId * Z) : Watermark := <[p.1 := p.2]> w.

Lemma parse_pairs_pairs w l :
  Forall (λ p, 0 <= p.2 <= U64_MAX) l → parse_pairs w (endpoint_pair <$> l) = Ok (foldl insert_pair w l).
Proof.
  revert w. induction l as [|[e g] l IH]; intros w Hl; [done|]. apply Forall_cons in Hl as [Hg Hl].
  simpl in Hg. cbn [fmap list_fmap parse_pairs foldl]. unfold endpoint_pair at 1. simpl.
  rewrite split_once_app by apply show_uuid_colon. simpl. rewrite parse_show. simpl.
  rewrite parse_u64_decimal by (unfold U64_MAX in Hg; lia). simpl. rewrite Z2N.id by lia. by apply IH.
Qed.

Lemma foldl_pairs l : NoDup l.*1 → foldl insert_pair ∅ l = list_to_map l.
Proof.
  intros Hl. rewrite <- (list_to_map_proper (reverse l) l); [| |apply reverse_Permutation].
  2: { by rewrite reverse_Permutation. }
  clear Hl. induction l as [|p l IH] using rev_ind; [done|].
  rewrite foldl_snoc, reverse_snoc, IH. by destruct p.
Qed.

Lemma endpoint_pair_plain p : 44%N ∉ endpoint_pair p.
Proof.
  unfold endpoint_pair. rewrite !not_elem_of_app. split; [apply show_uuid_comma|].
  split; [by rewrite list_elem_of_singleton|by apply decimal_not_in].
Qed.

Lemma endpoint_pair_nonempty p : endpoint_pair p ≠ [].
Proof. unfold endpoint_pair. by destruct (show_uuid p.1). Qed.

(** A stored watermark is read back as it was. *)
Lemma endpoint_cursor_roundtrip w :
  watermark_ok w → parse_endpoint_cursor (format_endpoint_cursor w) = Ok w.
Proof.
  intros Hw. unfold parse_endpoint_cursor, format_endpoint_cursor.
  pose proof (merge_sort_Permutation key_le (map_to_list w)) as Hperm. change (merge_sort key_le (map_to_list w)) with (watermark_list w) in Hperm.
  assert (foldl insert_pair ∅ (watermark_list w) = w) as Hfold.
  { assert (NoDup (watermark_list w).*1) as Hnd by (rewrite Hperm; apply NoDup_fst_map_to_list).
    rewrite foldl_pairs by done. rewrite (list_to_map_proper _ _ Hnd Hperm). apply list_to_map_to_list. }
  assert (Forall (λ p, 0 <= p.2 <= U64_MAX) (watermark_list w)) as Hall.
  { rewrite Hperm. apply Forall_forall. intros [e g] Hin%elem_of_map_to_list. by apply Hw in Hin. }
  destruct (watermark_list w) as [|p l] eqn:Hl; [simpl in *; by rewrite Hfold|].
  rewrite decide_False.
  - rewrite split_join; [by rewrite parse_pairs_pairs, Hfold|done|].
    apply Forall_forall. intros x (q & -> & _)%list_elem_of_fmap. apply endpoint_pair_plain.
  - destruct l as [|q l]; simpl; [apply endpoint_pair_nonempty|].
    intros [Hnil _]%app_nil. by apply endpoint_pair_nonempty in Hnil.
Qed.

Lemma parse_digits_bound acc s n : parse_digits acc s = Some n → (acc < 2 ^ 64)%N → (n < 2 ^ 64)%N.
Proof.
  revert acc. induction s as [|c s IH]; intros acc; simpl; [by intros [= ->]|].
  destruct (is_ascii_digit c); [|done]. destruct (N.ltb_spec (acc * 10 + (c - 48)) (2 ^ 64)); [|done]. intros Hp _. by eapply IH.
Qed.

Lemma parse_u64_bound s n : parse_u64 s = Some n → (n < 2 ^ 64)%N.
Proof.
  unfold parse_u64. destruct s as [|c s]; [done|]. destruct (c =? 43)%N; [destruct s; [done|]|];
    intros Hp; by eapply parse_digits_bound; [exact Hp|].
Qed.

(** Whatever is read is a watermark of [u64] generations. *)
Lemma parse_endpoint_cursor_ok value w : parse_endpoint_cursor value = Ok w → watermark_ok w.
Proof.
  unfold parse_endpoint_cursor. case_decide; [by intros [= <-] e g|].
  assert (watermark_ok ∅) as Hw by (by intros e g). revert Hw. generalize (∅ : Watermark). generalize (split_at 44%N value).
  intros l. induction l as [|x l IH]; intros acc Hacc; cbn [parse_pairs]; [by intros [= <-]|].
  intros Hp. inv_ok. eapply IH; [|exact Hp].
  match goal with Hn : parse_u64 _ = Some ?g |- _ => apply parse_u64_bound in Hn; rename g into n end.
  intros e g. intros [[_ <-]|[_ ?]]%lookup_insert_Some; [unfold U64_MAX; lia|by eapply Hacc].
Qed.

(** C37: What a cursor's text says is kept by storing it again: a watermark that was
    read from any text, or that the reports made, is one of [u64] generations, and
    its text in the order of the identities is read back as it. *)
Theorem endpoint_cursor_codec value w :
  parse_endpoint_cursor value = Ok w ∨ watermark_ok w →
  watermark_ok w ∧ parse_endpoint_cursor (format_endpoint_cursor w) = Ok w.
Proof.
  intros Hw. assert (watermark_ok w) as Hok by (destruct Hw; [by eapply parse_endpoint_cursor_ok|done]).
  split; [done|by apply endpoint_cursor_roundtrip].
Qed.
End text.

(** ** The reports

    Models the reporting half of [CenterSync] in [application/src/center_sync.rs]:
    the endpoint projections behind their watermark, the tail of the events and
    the ready artifacts, each queued in the durable outbox.  Generic in the
    stores as the code is; the clock, the fresh identities, the disk and SHA-256
    are parameters. *)

(** [CenterEventTail]. *)
Class CenterEventTail (St E : Type) := {
  et_list_recent : Z → M St E (list Event);
  et_list_after : EventId → Z → M St E (list Event);
  et_contains : EventId → M St E bool;
}.

(** The options the reports read. *)
Record ReportOptions := mk_report_options {
  ro_flush_limit : Z;
  ro_event_batch_limit : Z;
  ro_artifact_chunk_bytes : nat;
}.
Definition ReportOptions_default : ReportOptions :=
  mk_report_options 64 256 (Z.to_nat CENTER_ARTIFACT_CHUNK_SIZE).

(** [std::io::ErrorKind], as far as the reports tell kinds apart. *)
Inductive IoErrorKind := NotFound | PermissionDenied | IsADirectory | OtherIo.

Inductive ArtifactReadFailure :=
| ReadIo (kind : IoErrorKind)
| ReadSizeMismatch (read_bytes declared_bytes : Z)
| ReadDigestMismatch (expected actual : list N).

Inductive ReportError (Ein Ear Eev Eob Ecu : Type) :=
| RepInventory (source : EndpointInventoryQueryError Ein)
| RepArtifact (source : Ear)
| RepEvents (source : Eev)
| RepOutbox (source : Eob)
| RepCursor (source : Ecu)
| RepInvalidCursor (stream : SyncStream) (source : StoredCursorError)
| RepSequenceOverflow (sequence : Z)
| ArtifactFileMissing (artifact_id : ArtifactId)
| ArtifactFileUnreadable (artifact_id : ArtifactId)
| ArtifactSizeMismatch (artifact_id : ArtifactId) (read_bytes declared_bytes : Z)
| ArtifactDigestMismatch (artifact_id : ArtifactId) (expected actual : list N)
| ArtifactRead (artifact_id : ArtifactId).
Arguments RepInventory {Ein Ear Eev Eob Ecu}.
Arguments RepArtifact {Ein Ear Eev Eob Ecu}.
Arguments RepEvents {Ein Ear Eev Eob Ecu}.
Arguments RepOutbox {Ein Ear Eev Eob Ecu}.
Arguments RepCursor {Ein Ear Eev Eob Ecu}.
Arguments RepInvalidCursor {Ein Ear Eev Eob Ecu}.
Arguments RepSequenceOverflow {Ein Ear Eev Eob Ecu}.
Arguments ArtifactFileMissing {Ein Ear Eev Eob Ecu}.
Arguments ArtifactFileUnreadable {Ein Ear Eev Eob Ecu}.
Arguments ArtifactSizeMismatch {Ein Ear Eev Eob Ecu}.
Arguments ArtifactDigestMismatch {Ein Ear Eev Eob Ecu}.
Arguments ArtifactRead {Ein Ear Eev Eob Ecu}.

(** The outcome of the artifact stream. *)
Inductive ArtifactStreamOutcome := StreamComplete | StreamStalled (artifact_id : ArtifactId).

(** The site: its store, its outbox, its cursors, the artifact files, the entries
    of the distribution in progress, and how much it drew, asked the clock and
    read from disk. *)
Record Reporter (St Sob Scu : Type) := mk_reporter {
  rp_store : St;
  rp_outbox : Sob;
  rp_cursors : Scu;
  rp_files : gmap ArtifactId (list N);
  rp_distribution : list OutboxEntryId;
  rp_drawn : nat;
  rp_reads : nat;
  rp_io : nat;
}.
Arguments mk_reporter {St Sob Scu}.
Arguments rp_store {St Sob Scu}.
Arguments rp_outbox {St Sob Scu}.
Arguments rp_cursors {St Sob Scu}.
Arguments rp_files {St Sob Scu}.
Arguments rp_distribution {St Sob Scu}.
Arguments rp_drawn {St Sob Scu}.
Arguments rp_reads {St Sob Scu}.
Arguments rp_io {St Sob Scu}.

(** What the disk does to one distribution: whether the file opens, what its
    length is said to be, the bytes it then yields, and the read that fails. *)
Record DiskEnv := mk_disk_env {
  dk_open_fails : nat → option IoErrorKind;
  dk_metadata : nat → list N → result Z IoErrorKind;
  dk_content : nat → list N → list N;
  dk_read_fails : nat → option (nat * IoErrorKind);
}.

Definition trust_code (t : TlsTrust) : Z := match t with SystemCa _ _ => 1 | PinnedCertificate _ _ => 2 end.
Definition severity_code (s : EventSeverity) : Z :=
  match s with SeverityOk => 1 | SeverityWarning => 2 | SeverityCritical => 3 end.

(** ** Reading a file in chunks *)

Section reader.
Context (chunk_bytes : nat).

(** The chunks of the bytes, up to the read that fails: the full ones and the
    last, shorter one. *)
Fixpoint read_chunks (fuel : nat) (fails : option (nat * IoErrorKind)) (bytes : list N)
    : list (list N) * result () IoErrorKind :=
  match fuel with
  | O => ([], Ok ())
  | S fuel =>
      match fails with
      | Some (O, kind) => ([], Err kind)
      | _ =>
          let chunk := take chunk_bytes bytes in
          if decide (chunk = []) then ([], Ok ())
          else if decide (length chunk < chunk_bytes)%nat then ([chunk], Ok ())
          else
            let '(chunks, r) := read_chunks fuel (prod_map pred id <$> fails) (drop chunk_bytes bytes) in
            (chunk :: chunks, r)
      end
  end.

Definition total_bytes (chunks : list (list N)) : Z := Z.of_nat (length (concat chunks)).

(** The blocking reader of [distribute_artifact]: the chunks it sends, and its
    verdict. *)
Definition read_artifact (sha256 : list N → list N) (dk : DiskEnv) (io : nat) (file : option (list N))
    (declared_bytes : Z) (expected_digest : list N) : list (list N) * result () ArtifactReadFailure :=
  match dk_open_fails dk io, file with
  | Some kind, _ => ([], Err (ReadIo kind))
  | None, None => ([], Err (ReadIo NotFound))
  | None, Some file =>
      match dk_metadata dk io file with
      | Err kind => ([], Err (ReadIo kind))
      | Ok actual_len =>
          if decide (actual_len ≠ declared_bytes)
          then ([], Err (ReadSizeMismatch actual_len declared_bytes))
          else
            let bytes := dk_content dk io file in
            let '(chunks, r) := read_chunks (S (length bytes)) (dk_read_fails dk io) bytes in
            (chunks,
             match r with
             | Err kind => Err (ReadIo kind)
             | Ok _ =>
                 if decide (total_bytes chunks ≠ declared_bytes)
                 then Err (ReadSizeMismatch (total_bytes chunks) declared_bytes)
                 else if decide (sha256 (concat chunks) ≠ expected_digest)
                 then Err (ReadDigestMismatch expected_digest (sha256 (concat chunks)))
                 else Ok ()
             end)
      end
  end.
End reader.

(** [artifact_set_size_bound]. *)
Definition artifact_set_size_bound (chunk_bytes : nat) : Z :=
  (ARTIFACT_MAX_SIZE_BYTES + Z.of_nat chunk_bytes - 1) / Z.of_nat chunk_bytes + 1.

Section reports.
Context {St Sob Scu Ein Ear Eev Eob Ecu : Type}.
Context `{EndpointInventoryRepository St Ein} `{ArtifactRepository St Ear} `{CenterEventTail St Eev}.
Context `{OutboxStore Sob Eob} `{CenterCursor Scu Ecu} `{EnvelopeJson} `{UuidText}.
Context (sha256 : list N → list N) (dk : DiskEnv) (clock : nat → OffsetDateTime) (fresh : nat → Uuid).
Context (instance_id : InstanceId) (options : ReportOptions) (fuel : nat).
Abbreviation Rep := (Reporter St Sob Scu).
Abbreviation Error := (ReportError Ein Ear Eev Eob Ecu).
Abbreviation Op := (M Rep Error).
Implicit Types (s : Rep).

(** *** The parts of the state *)

Definition put_rp_store s x : Rep :=
  mk_reporter x (rp_outbox s) (rp_cursors s) (rp_files s) (rp_distribution s) (rp_drawn s) (rp_reads s) (rp_io s).
Definition put_rp_outbox s x : Rep :=
  mk_reporter (rp_store s) x (rp_cursors s) (rp_files s) (rp_distribution s) (rp_drawn s) (rp_reads s) (rp_io s).
Definition put_rp_cursors s x : Rep :=
  mk_reporter (rp_store s) (rp_outbox s) x (rp_files s) (rp_distribution s) (rp_drawn s) (rp_reads s) (rp_io s).
Definition put_distribution s x : Rep :=
  mk_reporter (rp_store s) (rp_outbox s) (rp_cursors s) (rp_files s) x (rp_drawn s) (rp_reads s) (rp_io s).

Definition in_store {E A} (err : E → Error) (m : M St E A) : Op A := zoom rp_store put_rp_store err m.
Definition in_outbox {A} (m : M Sob Eob A) : Op A := zoom rp_outbox put_rp_outbox RepOutbox m.
Definition in_cursors {A} (m : M Scu Ecu A) : Op A := zoom rp_cursors put_rp_cursors RepCursor m.

Definition now_ : Op OffsetDateTime := λ s,
  (mk_reporter (rp_store s) (rp_outbox s) (rp_cursors s) (rp_files s) (rp_distribution s) (rp_drawn s)
     (S (rp_reads s)) (rp_io s), Ok (clock (rp_reads s))).
Definition draw_id : Op Uuid := λ s,
  (mk_reporter (rp_store s) (rp_outbox s) (rp_cursors s) (rp_files s) (rp_distribution s) (S (rp_drawn s))
     (rp_reads s) (rp_io s), Ok (fresh (rp_drawn s))).
Definition distribution : Op (list OutboxEntryId) := λ s, (s, Ok (rp_distribution s)).
Definition set_distribution (x : list OutboxEntryId) : Op () := λ s, (put_distribution s x, Ok ()).

(** [enqueue_outbox_entry]. *)
Definition enqueue_entry (message : EnvelopeMessage) : Op OutboxEntry :=
  let! at_ := now_ in
  let! id := draw_id in
  in_outbox (enqueue id instance_id message at_).

(** [self.cursor.set] of a fresh row. *)
Definition store_cursor (stream : SyncStream) (value : str) (now : OffsetDateTime) : Op () :=
  let! id := draw_id in
  in_cursors (cursor_set (mk_sync_cursor id instance_id stream value now)).

(** *** Endpoints *)

Definition resource_summary (generation : Z) (r : ResourceSnapshot) : ResourceSummary :=
  mk_resource_summary (ResourceFeature_as_str (sn_feature r)) (sn_odata_id r) (default [] (sn_odata_type r))
    (default [] (sn_etag r)) generation.

Definition snapshot_of (item : EndpointInventoryItem) (generation : Z) : EndpointSnapshot :=
  let endpoint := it_endpoint item in
  mk_endpoint_snapshot (show_uuid (ep_id endpoint)) (ep_display_name endpoint) (ep_address endpoint)
    (trust_code (ep_trust endpoint)) generation (resource_summary generation <$> it_resources item)
    (if decide (generation = 0) then lit "unknown" else lit "ok").

Definition delta_of (item : EndpointInventoryItem) (generation : Z) (r : ResourceSnapshot) : ResourceDelta :=
  mk_resource_delta (show_uuid (it_id item)) 1 (Some (resource_summary generation r))
    (as_bytes (sn_payload r)) (unix_timestamp (sn_observed_at r)).

Definition deletion_of (endpoint_id : EndpointId) (now : OffsetDateTime) : ResourceDelta :=
  mk_resource_delta (show_uuid endpoint_id) 2 None [] (unix_timestamp now).

Definition enqueue_endpoint_snapshot (item : EndpointInventoryItem) (generation : Z) : Op () :=
  do! enqueue_entry (MsgContent (MsgEndpointSnapshot (snapshot_of item generation))) in mret ().
Definition enqueue_resource_delta (item : EndpointInventoryItem) (r : ResourceSnapshot) (generation : Z) : Op () :=
  do! enqueue_entry (MsgContent (MsgResourceDelta (delta_of item generation r))) in mret ().

Definition generation_of (item : EndpointInventoryItem) : Z := default 0 (it_generation item).

(** [reported.is_none() || reported < Some(generation)]. *)
Definition advanced (w : Watermark) (item : EndpointInventoryItem) : bool :=
  match w !! it_id item with None => true | Some reported => reported <? generation_of item end.

(** The loop over the inventory: the watermark, and whether something changed. *)
Fixpoint report_items (items : list EndpointInventoryItem) (w : Watermark) (changed : bool) : Op (Watermark * bool) :=
  match items with
  | [] => mret (w, changed)
  | item :: items =>
      if advanced w item then
        let generation := generation_of item in
        do! enqueue_endpoint_snapshot item generation in
        do! mfor (it_resources item) (λ r, enqueue_resource_delta item r generation) in
        report_items items (<[it_id item := generation]> w) true
      else report_items items w changed
  end.

(** The loop over the endpoints that are gone. *)
Fixpoint report_deleted (deleted : list EndpointId) (w : Watermark) (changed : bool) : Op (Watermark * bool) :=
  match deleted with
  | [] => mret (w, changed)
  | endpoint_id :: deleted =>
      let! now := now_ in
      do! enqueue_entry (MsgContent (MsgResourceDelta (deletion_of endpoint_id now))) in
      report_deleted deleted (delete endpoint_id w) true
  end.

Definition stored_watermark (cursor : option SyncCursor) : Watermark :=
  match cursor with
  | Some cursor => match parse_endpoint_cursor (sc_cursor_value cursor) with Ok w => w | Err _ => ∅ end
  | None => ∅
  end.

Definition report_endpoint_projection : Op () :=
  let! cursor := in_cursors (cursor_get instance_id StreamEndpoint) in
  let watermark := stored_watermark cursor in
  let! items := in_store RepInventory EndpointInventoryQuery_execute in
  let! reported := report_items items watermark false in
  let deleted := filter (λ e, e ∉ it_id <$> items) (watermark_list reported.1).*1 in
  let! final := report_deleted deleted reported.1 reported.2 in
  if final.2 : bool then
    let! now := now_ in
    store_cursor StreamEndpoint (format_endpoint_cursor final.1) now
  else mret ().

(** *** Events *)

Definition record_of (e : Event) : EventRecord :=
  mk_event_record (show_uuid (ev_id e)) (ev_message_id e) (severity_code (ev_severity e)) []
    (unix_timestamp (ev_event_timestamp e)) [] (show_uuid (ev_endpoint_id e)).

Definition report_event_batch : Op () :=
  let! cursor := in_cursors (cursor_get instance_id StreamEvent) in
  let anchor := cursor ≫= λ c, parse_uuid (sc_cursor_value c) in
  let recent := 
    let! events := in_store RepEvents (et_list_recent (ro_event_batch_limit options)) in
    mret (events, ev_id <$> head events) in
  let! found :=
    match anchor with
    | Some anchor =>
        let! stored := in_store RepEvents (et_contains anchor) in
        if stored : bool then
          let! events := in_store RepEvents (et_list_after anchor (ro_event_batch_limit options)) in
          mret (events, ev_id <$> last events)
        else recent
    | None => recent
    end in
  let '(events, newest_id) := found in
  match events with
  | [] => mret ()
  | _ =>
      do! enqueue_entry (MsgContent (MsgEventBatch (record_of <$> events))) in
      let! now := now_ in
      let! value := mlift (ok_or (show_uuid <$> newest_id) (RepInvalidCursor StreamEvent InvalidId)) in
      store_cursor StreamEvent value now
  end.

(** *** Artifacts *)

(** A corrupt payload carries no artifact. *)
Definition entry_carries_artifact (entry : OutboxEntry) (artifact_id : ArtifactId) : bool :=
  match envelope_from_json (oe_payload_json entry) ≫= en_message with
  | Some (MsgContent (MsgArtifactManifest manifest)) =>
      bool_decide (LinkMessages.am_artifact_id manifest = show_uuid artifact_id)
  | Some (MsgContent (MsgArtifactChunk chunk)) => bool_decide (ac_artifact_id chunk = show_uuid artifact_id)
  | _ => false
  end.

(** One pass over the listed entries. *)
Fixpoint retire_pass (artifact_id : ArtifactId) (now : OffsetDateTime) (retired_any : bool)
    (pending : list OutboxEntry) : Op bool :=
  match pending with
  | [] => mret retired_any
  | entry :: pending =>
      if entry_carries_artifact entry artifact_id then
        do! in_outbox (acknowledge (oe_id entry) now) in retire_pass artifact_id now true pending
      else retire_pass artifact_id now retired_any pending
  end.

(** The loop, for at most [n] passes. *)
Fixpoint retire_passes (n : nat) (artifact_id : ArtifactId) (now : OffsetDateTime) : Op bool :=
  match n with
  | O => mret false
  | S n =>
      let bound := artifact_set_size_bound (ro_artifact_chunk_bytes options) in
      let! pending := in_outbox (list_pending instance_id bound) in
      let! retired_any := retire_pass artifact_id now false pending in
      if negb retired_any || (Z.of_nat (length pending) <? bound) then mret true
      else retire_passes n artifact_id now
  end.

Definition retire_pending_artifact_entries (artifact_id : ArtifactId) : Op () :=
  let! now := now_ in
  do! retire_passes fuel artifact_id now in mret ().

(** [classify_artifact_read_error]. *)
Definition classify_artifact_read_error (artifact_id : ArtifactId) (kind : IoErrorKind) : Error :=
  match kind with
  | NotFound => ArtifactFileMissing artifact_id
  | PermissionDenied | IsADirectory => ArtifactFileUnreadable artifact_id
  | OtherIo => ArtifactRead artifact_id
  end.

Definition map_artifact_read_failure (artifact_id : ArtifactId) (failure : ArtifactReadFailure) : Error :=
  match failure with
  | ReadSizeMismatch read_bytes declared_bytes => ArtifactSizeMismatch artifact_id read_bytes declared_bytes
  | ReadDigestMismatch expected actual => ArtifactDigestMismatch artifact_id expected actual
  | ReadIo kind => classify_artifact_read_error artifact_id kind
  end.

(** An entry of the distribution in progress, recorded. *)
Definition enqueue_recorded (content : Content) : Op () :=
  let! entry := enqueue_entry (MsgContent content) in
  let! recorded := distribution in
  set_distribution (recorded ++ [oe_id entry]).

Definition manifest_of (artifact : Artifact) : WireArtifactManifest :=
  mk_wire_manifest (show_uuid (a_id artifact)) (a_name artifact) (a_size_bytes artifact)
    (Sha256Hex_into_bytes (a_sha256 artifact)).
Definition chunk_of (artifact : Artifact) (index : Z) (data : list N) : WireArtifactChunk :=
  mk_wire_chunk (show_uuid (a_id artifact)) index data.

Fixpoint enqueue_chunks (artifact : Artifact) (index : nat) (chunks : list (list N)) : Op () :=
  match chunks with
  | [] => mret ()
  | chunk :: chunks =>
      let! wire_index :=
        mlift (ok_or (u32_try_from (Z.of_nat index)) (RepSequenceOverflow (Z.of_nat index))) in
      do! enqueue_recorded (MsgArtifactChunk (chunk_of artifact wire_index chunk)) in
      enqueue_chunks artifact (S index) chunks
  end.

(** [spawn_blocking] of the reader. *)
Definition run_reader (artifact : Artifact) : Op (list (list N) * result () ArtifactReadFailure) := λ s,
  (mk_reporter (rp_store s) (rp_outbox s) (rp_cursors s) (rp_files s) (rp_distribution s) (rp_drawn s)
     (rp_reads s) (S (rp_io s)),
   Ok (read_artifact (ro_artifact_chunk_bytes options) sha256 dk (rp_io s) (rp_files s !! a_id artifact)
         (a_size_bytes artifact) (Sha256Hex_into_bytes (a_sha256 artifact)))).

(** The enqueueing half: the manifest behind the first chunk. *)
Definition enqueue_artifact (artifact : Artifact) : Op () :=
  let! read := run_reader artifact in
  let verdict := map_err (map_artifact_read_failure (a_id artifact)) read.2 in
  match read.1 with
  | [] => mlift verdict
  | chunks =>
      do! enqueue_recorded (MsgArtifactManifest (manifest_of artifact)) in
      do! enqueue_chunks artifact 0 chunks in
      mlift verdict
  end.

(** The entries of a failed round are retired; a failing retire is the failure. *)
Definition retire_round : Op () :=
  let! enqueued := distribution in
  do! set_distribution [] in
  match enqueued with
  | [] => mret ()
  | _ => let! now := now_ in mfor enqueued (λ entry_id, in_outbox (acknowledge entry_id now))
  end.

Definition on_failure (m : Op ()) (cleanup : Op ()) : Op () := λ s,
  match m s with
  | (s', Ok a) => (s', Ok a)
  | (s', Err e) => let '(s'', r) := cleanup s' in (s'', match r with Ok _ => Err e | Err e' => Err e' end)
  end.

Definition distribute_artifact (artifact : Artifact) : Op () :=
  do! set_distribution [] in
  do! retire_pending_artifact_entries (a_id artifact) in
  on_failure (enqueue_artifact artifact) retire_round.

(** The failures that stall the stream instead of ending the round. *)
Definition persistent_failure (e : Error) : bool :=
  match e with
  | ArtifactFileMissing _ | ArtifactSizeMismatch _ _ _ | ArtifactDigestMismatch _ _ _ | ArtifactFileUnreadable _ => true
  | _ => false
  end.

(** The anchor of the cursor, and when it was declared. *)
Definition after_anchor (anchor : option ArtifactId) (anchor_created_at : option OffsetDateTime)
    (artifact : Artifact) : bool :=
  match anchor_created_at, anchor with
  | Some created_at, Some id =>
      (created_at <? a_created_at artifact) || ((a_created_at artifact =? created_at) && (id <? a_id artifact)%N)
  | _, _ => true
  end.

(** The loop over the ready artifacts: the newest one distributed, or where the
    stream stalls. *)
Fixpoint distribute_ready (selects : Artifact → bool) (ready : list Artifact) (newest : option ArtifactId)
    : Op (option ArtifactId + ArtifactId) :=
  match ready with
  | [] => mret (inl newest)
  | artifact :: ready =>
      if negb (selects artifact) then distribute_ready selects ready newest
      else λ s,
        match distribute_artifact artifact s with
        | (s', Ok _) => distribute_ready selects ready (Some (a_id artifact)) s'
        | (s', Err e) =>
            if persistent_failure e then (s', Ok (inr (a_id artifact))) else (s', Err e)
        end
  end.

Definition report_artifacts : Op ArtifactStreamOutcome :=
  let! cursor := in_cursors (cursor_get instance_id StreamArtifact) in
  let anchor := cursor ≫= λ c, parse_uuid (sc_cursor_value c) in
  let! anchor_created_at :=
    match anchor with
    | Some anchor =>
        let! found := in_store RepArtifact (ar_find_artifact anchor) in mret (a_created_at <$> found)
    | None => mret None
    end in
  let! ready := in_store RepArtifact (ar_list_artifacts_by_state Ready) in
  let! distributed := distribute_ready (after_anchor anchor anchor_created_at) ready None in
  match distributed with
  | inr artifact_id => mret (StreamStalled artifact_id)
  | inl None => mret StreamComplete
  | inl (Some newest) =>
      let! now := now_ in
      do! store_cursor StreamArtifact (show_uuid newest) now in
      mret StreamComplete
  end.

(** [report_incremental_sync]. *)
Definition report_incremental_sync : Op ArtifactStreamOutcome :=
  do! report_endpoint_projection in
  do! report_event_batch in
  report_artifacts.
End reports.
