(* ===== verification/SiteReportsSpec.v ===== *)
(** * SiteReportsSpec: what a report queues

    Each report of [SiteReports] against the entries of the outbox and the
    cursors: what is queued, in which order, and when the cursor moves. *)
From S2P Require Import Prelude Text Operation CenterDomain ResourceSnapshot LinkMessages Database EventRepository SyncCursors Artifact ArtifactRepository ArtifactStore CenterOutbox CenterStores CenterIntake Endpoints EndpointInventory SiteReports.
Local Open Scope Z_scope.

Record RepView := mk_rep_view {
  rv_entries : Entries;
  rv_cursors : Cursors;
  rv_files : gmap ArtifactId (list N);
  rv_distribution : list OutboxEntryId;
}.
Definition with_queue (v : RepView) x : RepView := mk_rep_view x (rv_cursors v) (rv_files v) (rv_distribution v).
Definition with_cursor_rows (v : RepView) x : RepView := mk_rep_view (rv_entries v) x (rv_files v) (rv_distribution v).
Definition with_recorded (v : RepView) x : RepView := mk_rep_view (rv_entries v) (rv_cursors v) (rv_files v) x.

(** Messages queued one after the other, with their entries. *)
Inductive queued `{EnvelopeJson} `{UuidText} (instance : InstanceId)
    : Entries → Entries → list EnvelopeMessage → list OutboxEntry → Prop :=
| queued_nil v : queued instance v v [] []
| queued_cons v v1 v2 id message at_ e messages es :
    enqueued id instance message at_ v v1 e → queued instance v1 v2 messages es →
    queued instance v v2 (message :: messages) (e :: es).

Section queue.
Context `{EnvelopeJson} `{UuidText} (instance : InstanceId).

Lemma queued_app v v1 v2 m1 m2 e1 e2 :
  queued instance v v1 m1 e1 → queued instance v1 v2 m2 e2 → queued instance v v2 (m1 ++ m2) (e1 ++ e2).
Proof. induction 1; intros Hq; [done|]. simpl. econstructor; eauto. Qed.

Lemma queued_one v v' id message at_ e :
  enqueued id instance message at_ v v' e → queued instance v v' [message] [e].
Proof. intros He. econstructor; [done|constructor]. Qed.

(** Nothing that was queued changes. *)
Lemma queued_subseteq v v' ms es : queued instance v v' ms es → v ⊆ v'.
Proof.
  induction 1 as [|v v1 v2 id m at_ e ms es [Hf Hv _ _ _] _ IH]; [done|].
  etransitivity; [|exact IH]. rewrite Hv. by apply insert_subseteq.
Qed.
End queue.

Section spec.
Context {St Sob Scu Ein Ear Eev Eob Ecu : Type}.
Context `{EndpointInventoryRepository St Ein} `{ArtifactRepository St Ear} `{CenterEventTail St Eev}.
Context `{OutboxStoreLaws Sob Eob} `{CenterCursorLaws Scu Ecu}.
Context (sha256 : list N → list N) (dk : DiskEnv) (clock : nat → OffsetDateTime) (fresh : nat → Uuid).
Context (instance_id : InstanceId) (options : ReportOptions) (fuel : nat).
Context (Hclock : ∀ n m, (n <= m)%nat → clock n <= clock m).
Abbreviation Rep := (Reporter St Sob Scu).
Abbreviation Error := (ReportError Ein Ear Eev Eob Ecu).
Abbreviation Op := (M Rep Error).
Implicit Types (s : Rep).

Definition rep_view s : RepView :=
  mk_rep_view (entries (rp_outbox s)) (cursors (rp_cursors s)) (rp_files s) (rp_distribution s).

(** No entry was created later than the clock is. *)
Definition timely s : Prop := ∀ k e, entries (rp_outbox s) !! k = Some e → oe_created_at e <= clock (rp_reads s).
Definition rep_ok s : Prop := entries_ok (rp_outbox s) ∧ cursors_ok (rp_cursors s) ∧ timely s.

Lemma timely_later s s' :
  entries (rp_outbox s') = entries (rp_outbox s) → (rp_reads s <= rp_reads s')%nat → timely s → timely s'.
Proof. intros He Hr Ht k e Hk. rewrite He in Hk. pose proof (Ht _ _ Hk). pose proof (Hclock _ _ Hr). lia. Qed.

(** *** Calls *)

Lemma store_quiet {E A} (err : E → Error) (m : M St E A) s s' r :
  rep_ok s → in_store err m s = (s', r) → rep_ok s' ∧ rep_view s' = rep_view s ∧ ∀ x, r = Err x → ∃ y, x = err y.
Proof.
  intros Hok Hrun. apply zoom_inv in Hrun as (t & r0 & _ & -> & ->). split; [exact Hok|]. split; [done|].
  intros x Hx. destruct r0; simplify_eq/=. eauto.
Qed.

Lemma now_quiet s s' (r : result OffsetDateTime Error) :
  rep_ok s → now_ clock s = (s', r) → rep_ok s' ∧ rep_view s' = rep_view s ∧ is_ok r = true.
Proof.
  intros (? & ? & Ht) [= <- <-]. split; [|done]. split; [done|]. split; [done|].
  eapply timely_later; [..|exact Ht]; simpl; [done|lia].
Qed.

Lemma enqueue_entry_spec message s s' r :
  rep_ok s → enqueue_entry clock fresh instance_id message s = (s', r : result _ Error) →
  rep_ok s' ∧
  match r with
  | Ok e => ∃ id at_ v, enqueued id instance_id message at_ (rv_entries (rep_view s)) v e ∧
      rep_view s' = with_queue (rep_view s) v
  | Err x => rep_view s' = rep_view s ∧ ∃ y, x = RepOutbox y
  end.
Proof.
  intros (Ho & Hc & Ht) Hrun. unfold enqueue_entry in Hrun. unfold mbind at 1 2, now_, draw_id in Hrun. simpl in Hrun.
  apply zoom_inv in Hrun as (t & r0 & Hrun & -> & ->). simpl in Hrun.
  apply law_enqueue in Hrun as [Ho' Hr]; [|done]. simpl. destruct r0 as [e|y]; simpl in *.
  - split; [|exists (fresh (rp_drawn s)), (clock (rp_reads s)), (entries t); by split].
    split; [done|]. split; [done|]. intros k f Hk. simpl in *. destruct Hr as [Hf Hv He _ _].
    pose proof (Hclock (rp_reads s) (S (rp_reads s)) ltac:(lia)) as Hm.
    rewrite Hv in Hk. apply lookup_insert_Some in Hk as [[_ <-]|[_ Hk]]; [rewrite He; simpl; lia|].
    pose proof (Ht _ _ Hk). simpl in *. lia.
  - split; [|split; [unfold rep_view; simpl; by rewrite Hr|by eexists]].
    split; [done|]. split; [done|]. eapply (timely_later s); simpl; [done|lia|done].
Qed.

Lemma cursor_get_spec stream s s' r :
  rep_ok s → in_cursors (cursor_get instance_id stream) s = (s', r : result _ Error) →
  rep_ok s' ∧ rep_view s' = rep_view s ∧
  ∀ x, r = Ok x → sc_cursor_value <$> x = rv_cursors (rep_view s) !! (instance_id, stream).
Proof.
  intros (Ho & Hc & Ht) Hrun. apply zoom_inv in Hrun as (t & r0 & Hrun & -> & ->).
  apply law_cursor_get in Hrun as (Hok & Hv & Hr); [|done].
  split; [done|]. split; [unfold rep_view; simpl; by rewrite Hv|]. intros x Hx. destruct r0; simplify_eq/=. by apply Hr.
Qed.

Lemma store_cursor_spec stream value now s s' r :
  rep_ok s → store_cursor fresh instance_id stream value now s = (s', r : result _ Error) →
  rep_ok s' ∧
  match r with
  | Ok _ => rep_view s' = with_cursor_rows (rep_view s) (<[(instance_id, stream) := value]> (rv_cursors (rep_view s)))
  | Err _ => rep_view s' = rep_view s
  end.
Proof.
  intros (Ho & Hc & Ht) Hrun. unfold store_cursor in Hrun. unfold mbind at 1, draw_id in Hrun. simpl in Hrun.
  apply zoom_inv in Hrun as (t & r0 & Hrun & -> & ->). simpl in Hrun.
  apply law_cursor_set in Hrun as [Hok Hr]; [|done]. split; [done|].
  destruct r0; simpl in *; unfold rep_view, with_cursor_rows; simpl; by rewrite Hr.
Qed.

(** *** What a computation queues *)

(** Messages are queued and nothing else changes; [Q] says which on success, [F]
    on failure. *)
Definition queues {A} (m : Op A) (Q : A → list EnvelopeMessage → Prop) (F : list EnvelopeMessage → Prop) : Prop :=
  ∀ s s' r, rep_ok s → m s = (s', r) → rep_ok s' ∧
  ∃ v ms es, queued instance_id (rv_entries (rep_view s)) v ms es ∧ rep_view s' = with_queue (rep_view s) v ∧
  match r with Ok a => Q a ms | Err _ => F ms end.

Lemma with_queue_same v : with_queue v (rv_entries v) = v.
Proof. by destruct v. Qed.

Lemma queues_ret {A} (a : A) Q F : Q a [] → queues (mret a) Q F.
Proof.
  intros Hq s s' r Hok [= <- <-]. split; [done|]. exists (rv_entries (rep_view s)), [], [].
  split; [constructor|]. by rewrite with_queue_same.
Qed.

Lemma queues_quiet {A} (m : Op A) Q F :
  (∀ s s' r, rep_ok s → m s = (s', r) →
     rep_ok s' ∧ rep_view s' = rep_view s ∧ match r with Ok a => Q a [] | Err _ => F [] end) →
  queues m Q F.
Proof.
  intros Hm s s' r Hok Hrun. apply Hm in Hrun as (Hok' & Hv & Hr); [|done]. split; [done|].
  exists (rv_entries (rep_view s)), [], []. split; [constructor|]. by rewrite with_queue_same.
Qed.

Lemma queues_bind {A B} (m : Op A) (k : A → Op B) Q1 F1 Q F :
  queues m Q1 F1 → (∀ ms, F1 ms → F ms) →
  (∀ a ms, Q1 a ms → queues (k a) (λ b ms', Q b (ms ++ ms')) (λ ms', F (ms ++ ms'))) →
  queues (mbind m k) Q F.
Proof.
  intros Hm Hf Hk s s' r Hok Hrun. apply mbind_inv in Hrun as [(a & s1 & H1' & Hrun)|(x & H1' & ->)].
  - apply Hm in H1' as (Hok1 & v1 & ms1 & es1 & Hq1 & Hv1 & HQ1); [|done].
    apply (Hk a ms1 HQ1) in Hrun as (Hok' & v & ms & es & Hq & Hv & Hr); [|done]. split; [done|].
    exists v, (ms1 ++ ms), (es1 ++ es). rewrite Hv1 in Hq, Hv. simpl in Hq. split; [by eapply queued_app|].
    split; [by rewrite Hv|]. by destruct r.
  - apply Hm in H1' as (Hok1 & v1 & ms1 & es1 & Hq1 & Hv1 & HF); [|done]. split; [done|].
    exists v1, ms1, es1. split; [done|]. split; [done|]. by apply Hf.
Qed.

Lemma queues_weaken {A} (m : Op A) (Q Q' : A → list EnvelopeMessage → Prop) (F F' : list EnvelopeMessage → Prop) :
  queues m Q F → (∀ a ms, Q a ms → Q' a ms) → (∀ ms, F ms → F' ms) → queues m Q' F'.
Proof.
  intros Hm HQ HF s s' r Hok Hrun. apply Hm in Hrun as (Hok' & v & ms & es & Hq & Hv & Hr); [|done].
  split; [done|]. exists v, ms, es. split; [done|]. split; [done|]. destruct r; auto.
Qed.

Lemma queues_entry message :
  queues (enqueue_entry clock fresh instance_id message) (λ _ ms, ms = [message]) (λ ms, ms = []).
Proof.
  intros s s' r Hok Hrun. apply enqueue_entry_spec in Hrun as [Hok' Hr]; [|done]. split; [done|]. destruct r as [e|x].
  - destruct Hr as (id & at_ & v & He & Hv). exists v, [message], [e]. split; [by eapply queued_one|]. by split.
  - destruct Hr as [Hv _]. exists (rv_entries (rep_view s)), [], []. split; [constructor|]. by rewrite with_queue_same.
Qed.

Lemma queues_now Q F : (∀ t, Q t []) → queues (now_ clock) Q F.
Proof.
  intros HQ. apply queues_quiet. intros s s' r Hok Hrun. apply now_quiet in Hrun as (? & ? & Hr); [|done].
  split; [done|]. split; [done|]. by destruct r.
Qed.

(** *** Endpoints *)

Definition resource_messages (item : EndpointInventoryItem) (rs : list ResourceSnapshot) : list EnvelopeMessage :=
  (λ r, MsgContent (MsgResourceDelta (delta_of item (generation_of item) r))) <$> rs.

Definition endpoint_messages (item : EndpointInventoryItem) : list EnvelopeMessage :=
  MsgContent (MsgEndpointSnapshot (snapshot_of item (generation_of item))) ::
  resource_messages item (it_resources item).

(** The messages of the endpoints that advanced, and the watermark behind them. *)
Fixpoint items_messages (items : list EndpointInventoryItem) (w : Watermark) : list EnvelopeMessage :=
  match items with
  | [] => []
  | item :: items =>
      if advanced w item then endpoint_messages item ++ items_messages items (<[it_id item := generation_of item]> w)
      else items_messages items w
  end.
Fixpoint items_watermark (items : list EndpointInventoryItem) (w : Watermark) : Watermark :=
  match items with
  | [] => w
  | item :: items =>
      items_watermark items (if advanced w item then <[it_id item := generation_of item]> w else w)
  end.

(** The endpoints that were reported and are gone. *)
Definition deleted_endpoints (items : list EndpointInventoryItem) (w : Watermark) : list EndpointId :=
  filter (λ e, e ∉ it_id <$> items) (watermark_list w).*1.

Definition is_deletion (e : EndpointId) (m : EnvelopeMessage) : Prop :=
  ∃ at_, m = MsgContent (MsgResourceDelta (deletion_of e at_)).

Lemma queues_resources item rs :
  queues (mfor rs (λ r, enqueue_resource_delta clock fresh instance_id item r (generation_of item)))
    (λ _ ms, ms = resource_messages item rs) (λ ms, ms `prefix_of` resource_messages item rs).
Proof.
  induction rs as [|r rs IH]; [by apply queues_ret|]. cbn [mfor].
  apply queues_bind with (F1 := λ ms, ms = []) (Q1 := λ _ ms, ms = resource_messages item [r]).
  - unfold enqueue_resource_delta. eapply queues_bind; [apply queues_entry|done|]. intros e ms ->. by apply queues_ret.
  - intros ms ->. apply prefix_nil.
  - intros [] ms ->. eapply queues_weaken; [exact IH|..].
    + intros [] ms ->. done.
    + intros ms Hp. by apply prefix_cons.
Qed.

Lemma queues_items items w changed :
  queues (report_items clock fresh instance_id items w changed)
    (λ p ms, ms = items_messages items w ∧
       p = (items_watermark items w, changed || negb (bool_decide (items_messages items w = []))))
    (λ ms, ms `prefix_of` items_messages items w).
Proof.
  revert w changed. induction items as [|item items IH]; intros w changed; cbn [report_items items_messages items_watermark].
  { apply queues_ret. split; [done|]. by rewrite orb_false_r. }
  destruct (advanced w item); [|apply IH].
  eapply queues_bind with (F1 := λ ms, ms = [])
    (Q1 := λ _ ms, ms = [MsgContent (MsgEndpointSnapshot (snapshot_of item (generation_of item)))]).
  - unfold enqueue_endpoint_snapshot. eapply queues_bind; [apply queues_entry|done|]. intros e ms ->. by apply queues_ret.
  - intros ms ->. apply prefix_nil.
  - intros [] ms ->. eapply queues_bind; [apply queues_resources|..].
    + intros ms Hp. simpl. apply prefix_cons. by apply prefix_app_r.
    + intros [] ms ->. eapply queues_weaken; [apply IH|..].
      * intros p ms [-> ->]. simpl. split; [done|]. simpl. by rewrite orb_true_r.
      * intros ms Hp. simpl. apply prefix_cons, prefix_app. exact Hp.
Qed.

Lemma queues_deleted deleted w changed :
  queues (report_deleted clock fresh instance_id deleted w changed)
    (λ p ms, Forall2 is_deletion deleted ms ∧
       p = (foldl (λ w e, delete e w) w deleted, changed || negb (bool_decide (deleted = []))))
    (λ _, True).
Proof.
  revert w changed. induction deleted as [|e deleted IH]; intros w changed; cbn [report_deleted foldl].
  { apply queues_ret. split; [constructor|]. by rewrite orb_false_r. }
  eapply queues_bind with (F1 := λ _, True) (Q1 := λ _ ms, ms = []); [by apply queues_now|done|].
  intros now ms ->. eapply queues_bind with (F1 := λ _, True); [eapply queues_weaken; [apply queues_entry|exact (λ _ _ H, H)|done]|done|].
  intros entry ms ->. eapply queues_weaken; [apply IH|..]; [|done].
  intros p ms [Hms ->]. simpl. split; [constructor; [by eexists|done]|]. by rewrite orb_true_r.
Qed.

(** The watermark the stored cursor says. *)
Definition watermark_at (v : RepView) : Watermark :=
  match rv_cursors v !! (instance_id, StreamEndpoint) with
  | Some text => match parse_endpoint_cursor text with Ok w => w | Err _ => ∅ end
  | None => ∅
  end.

Lemma stored_watermark_at s (x : option SyncCursor) :
  sc_cursor_value <$> x = rv_cursors (rep_view s) !! (instance_id, StreamEndpoint) →
  stored_watermark x = watermark_at (rep_view s).
Proof. unfold watermark_at. intros <-. by destruct x. Qed.

(** The watermark behind a complete report. *)
Definition report_watermark (items : list EndpointInventoryItem) (w : Watermark) : Watermark :=
  let w' := items_watermark items w in foldl (λ w e, delete e w) w' (deleted_endpoints items w').

(** What a complete report queues. *)
Definition report_queues (items : list EndpointInventoryItem) (w : Watermark) (ms : list EnvelopeMessage) : Prop :=
  ∃ deletions, Forall2 is_deletion (deleted_endpoints items (items_watermark items w)) deletions ∧
    ms = items_messages items w ++ deletions.

(** A report that succeeds queues every endpoint that advanced, its snapshot before
    its resources, and the endpoints that are gone, and its cursor says so; one that
    fails leaves the cursor, so that the next report starts where it did. *)
Theorem endpoint_report_spec s s' (r : result () Error) :
  rep_ok s → report_endpoint_projection clock fresh instance_id s = (s', r) →
  rep_ok s' ∧ ∃ v ms es, queued instance_id (rv_entries (rep_view s)) v ms es ∧
  match r with
  | Err _ => rep_view s' = with_queue (rep_view s) v
  | Ok _ => ∃ items t, EndpointInventoryQuery_execute (rp_store s) = (t, Ok items : result _ (EndpointInventoryQueryError Ein)) ∧
      report_queues items (watermark_at (rep_view s)) ms ∧
      rep_view s' = with_cursor_rows (with_queue (rep_view s) v)
        (if decide (ms = []) then rv_cursors (rep_view s)
         else <[(instance_id, StreamEndpoint) :=
                format_endpoint_cursor (report_watermark items (watermark_at (rep_view s)))]> (rv_cursors (rep_view s)))
  end.
Proof.
  intros Hok Hrun. unfold report_endpoint_projection in Hrun.
  apply mbind_inv in Hrun as [(cursor & s1 & Hget & Hrun)|(x & Hget & ->)].
  2: { apply cursor_get_spec in Hget as (Hok' & Hv & _); [|done]. split; [done|].
       exists (rv_entries (rep_view s)), [], []. split; [constructor|]. by rewrite with_queue_same. }
  assert (rp_store s1 = rp_store s) as Hstore by (apply zoom_inv in Hget as (? & ? & _ & -> & _); done).
  apply cursor_get_spec in Hget as (Hok1 & Hv1 & Hcur); [|done]. specialize (Hcur _ eq_refl).
  apply stored_watermark_at in Hcur. rewrite Hcur, <- Hv1 in *. clear Hcur cursor.
  apply mbind_inv in Hrun as [(items & s2 & Hget & Hrun)|(x & Hget & ->)].
  2: { apply store_quiet in Hget as (Hok' & Hv & _); [|done]. split; [done|].
       exists (rv_entries (rep_view s1)), [], []. split; [constructor|]. by rewrite with_queue_same. }
  pose proof Hget as (t & r0 & Hexec & -> & Hr0)%zoom_inv. destruct r0 as [x|]; [|done]. injection Hr0 as <-.
  apply store_quiet in Hget as (Hok2 & Hv2 & _); [|done]. rewrite <- Hv2, Hstore in *. clear Hstore.
  set (s2 := put_rp_store s1 t) in *. clearbody s2. clear s1 Hok1 Hv1 Hv2 Hok.
  apply mbind_inv in Hrun as [(p & s3 & Hitems & Hrun)|(x & Hitems & ->)].
  2: { apply queues_items in Hitems as (Hok' & v & ms & es & Hq & Hv & _); [|done]. eauto 10. }
  apply queues_items in Hitems as (Hok3 & v1 & ms1 & es1 & Hq1 & Hv1 & -> & ->); [|done]. simpl in Hrun.
  apply mbind_inv in Hrun as [(p & s4 & Hdel & Hrun)|(x & Hdel & ->)];
    apply queues_deleted in Hdel as (Hok4 & v2 & ms2 & es2 & Hq2 & Hv2 & Hdel); [|done|..|done]; rewrite Hv1 in *; simpl in Hq2, Hv2.
  2: { split; [done|]. exists v2, (items_messages items (watermark_at (rep_view s2)) ++ ms2), (es1 ++ es2).
       split; [by eapply queued_app|done]. }
  destruct Hdel as [Hdel ->]. simpl in Hrun. fold (deleted_endpoints items (items_watermark items (watermark_at (rep_view s2)))) in Hdel.
  set (ms := items_messages items (watermark_at (rep_view s2)) ++ ms2) in *.
  assert (report_queues items (watermark_at (rep_view s2)) ms) as Hms by (exists ms2; by split).
  assert (queued instance_id (rv_entries (rep_view s2)) v2 ms (es1 ++ es2)) as Hq by (by eapply queued_app).
  assert (negb (bool_decide (items_messages items (watermark_at (rep_view s2)) = [])) ||
    negb (bool_decide (deleted_endpoints items (items_watermark items (watermark_at (rep_view s2))) = [])) =
    negb (bool_decide (ms = []))) as Hchanged.
  { apply eq_bool_prop_intro. rewrite orb_True, !negb_True, !bool_decide_spec. unfold ms. rewrite app_nil.
    assert (deleted_endpoints items (items_watermark items (watermark_at (rep_view s2))) = [] ↔ ms2 = []) as ->; [|].
    { split; intros Heq; rewrite Heq in Hdel; by inversion Hdel. }
    destruct (decide (ms2 = [])), (decide (items_messages items (watermark_at (rep_view s2)) = [])); naive_solver. }
  fold (deleted_endpoints items (items_watermark items (watermark_at (rep_view s2)))) in Hrun.
  rewrite Hchanged in Hrun. destruct (decide (ms = [])) as [Hnil|Hnil];
    [rewrite bool_decide_eq_true_2 in Hrun by done|rewrite bool_decide_eq_false_2 in Hrun by done]; simpl in Hrun.
  - unfold mret in Hrun. injection Hrun as <- <-. split; [done|]. exists v2, ms, (es1 ++ es2). split; [done|]. exists items, t.
    split; [done|]. split; [done|]. rewrite decide_True by done. rewrite Hv2. by destruct (rep_view s2).
  - apply mbind_inv in Hrun as [(now & s5 & Hnow & Hrun)|(x & Hnow & ->)];
      (apply now_quiet in Hnow as (Hok5 & Hv5 & Hr5); [|done]); [|done].
    apply store_cursor_spec in Hrun as [Hok' Hr]; [|done]. split; [done|]. exists v2, ms, (es1 ++ es2). split; [done|].
    rewrite Hv5, Hv2 in Hr. destruct r as [[]|x]; [|by rewrite Hr]. exists items, t. split; [done|]. split; [done|].
    rewrite decide_False by done. rewrite Hr. done.
Qed.

(** *** The watermark behind a report *)

Lemma items_watermark_other items w e : e ∉ it_id <$> items → items_watermark items w !! e = w !! e.
Proof.
  revert w. induction items as [|item items IH]; intros w He; [done|].
  apply not_elem_of_cons in He as [Hne He]. cbn [items_watermark]. rewrite IH by done.
  destruct (advanced w item); [|done]. by rewrite lookup_insert_ne.
Qed.

Lemma advanced_other w item e g : it_id item ≠ e → advanced (<[e := g]> w) item = advanced w item.
Proof. intros Hne. unfold advanced. by rewrite lookup_insert_ne. Qed.

(** Every listed endpoint is covered, at its generation or a later one. *)
Lemma items_watermark_covers items w item :
  item ∈ items → ∃ g, items_watermark items w !! it_id item = Some g ∧ generation_of item <= g.
Proof.
  revert w. induction items as [|x items IH]; intros w Hin; [by apply elem_of_nil in Hin|]. cbn [items_watermark].
  apply elem_of_cons in Hin as [->|Hin]; [|by apply IH].
  set (w1 := if advanced w x then _ else _).
  assert (∃ g, w1 !! it_id x = Some g ∧ generation_of x <= g) as Hw1.
  { unfold w1, advanced. destruct (w !! it_id x) as [g|] eqn:Hg.
    - destruct (Z.ltb_spec g (generation_of x)); [rewrite lookup_insert_eq; eexists; split; [done|lia]|by exists g].
    - rewrite lookup_insert_eq. eexists. split; [done|lia]. }
  clearbody w1. clear IH w. revert w1 Hw1. induction items as [|y items IH]; intros w1 (g & Hg & Hle); [by exists g|].
  cbn [items_watermark]. apply IH. unfold advanced. destruct (decide (it_id y = it_id x)) as [Heq|Hne].
  - rewrite Heq, Hg. destruct (Z.ltb_spec g (generation_of y)); [|by exists g].
    rewrite lookup_insert_eq. eexists. split; [done|lia].
  - destruct (match w1 !! it_id y with None => true | Some _ => _ end); [rewrite lookup_insert_ne by done|]; by exists g.
Qed.

Lemma foldl_delete (es : list EndpointId) (w : Watermark) e :
  foldl (λ w e, delete e w) w es !! e = if decide (e ∈ es) then None else w !! e.
Proof.
  revert w. induction es as [|x es IH]; intros w; cbn [foldl]; [by rewrite decide_False by apply not_elem_of_nil|].
  rewrite IH. destruct (decide (e ∈ es)) as [Hin|Hin]; [by rewrite decide_True by (by right)|].
  destruct (decide (e = x)) as [->|Hne]; [rewrite decide_True by left; by rewrite lookup_delete_eq|].
  rewrite decide_False by (apply not_elem_of_cons; by split). by rewrite lookup_delete_ne.
Qed.

Lemma watermark_list_keys (w : Watermark) e : e ∈ (watermark_list w).*1 ↔ is_Some (w !! e).
Proof.
  unfold watermark_list. rewrite merge_sort_Permutation, list_elem_of_fmap. split.
  - intros ([k g] & -> & Hin%elem_of_map_to_list). by exists g.
  - intros [g Hg]. exists (e, g). split; [done|]. by apply elem_of_map_to_list.
Qed.

(** The watermark says of the listed endpoints, and of no others, how far they were
    reported. *)
Lemma report_watermark_spec items w :
  (∀ e, e ∉ it_id <$> items → report_watermark items w !! e = None) ∧
  ∀ item, item ∈ items → ∃ g, report_watermark items w !! it_id item = Some g ∧ generation_of item <= g.
Proof.
  unfold report_watermark, deleted_endpoints. split.
  - intros e He. rewrite foldl_delete. case_decide as Hin; [done|].
    destruct (items_watermark items w !! e) as [g|] eqn:Hg; [|done]. destruct Hin. apply list_elem_of_filter. split; [done|].
    apply watermark_list_keys. by eexists.
  - intros item Hin. rewrite foldl_delete, decide_False; [by apply items_watermark_covers|].
    intros [Hne _]%list_elem_of_filter. apply Hne. apply list_elem_of_fmap. by exists item.
Qed.

Lemma items_watermark_ok items w :
  watermark_ok w → Forall (λ item, 0 <= generation_of item <= U64_MAX) items → watermark_ok (items_watermark items w).
Proof.
  revert w. induction items as [|item items IH]; intros w Hw Hall; [done|]. apply Forall_cons in Hall as [Hg Hall].
  apply IH; [|done]. destruct (advanced w item); [|done].
  intros e g [[_ <-]|[_ ?]]%lookup_insert_Some; [done|by eapply Hw].
Qed.

Lemma report_watermark_ok items w :
  watermark_ok w → Forall (λ item, 0 <= generation_of item <= U64_MAX) items → watermark_ok (report_watermark items w).
Proof.
  intros Hw Hall e g. unfold report_watermark. rewrite foldl_delete. case_decide; [done|]. by eapply items_watermark_ok.
Qed.

(** Behind it, nothing has advanced and nothing is gone. *)
Lemma settled_messages items w ms :
  (∀ e, e ∉ it_id <$> items → w !! e = None) →
  (∀ item, item ∈ items → ∃ g, w !! it_id item = Some g ∧ generation_of item <= g) →
  report_queues items w ms → ms = [].
Proof.
  intros Hnone Hsome (deletions & Hdel & ->).
  assert (items_messages items w = [] ∧ items_watermark items w = w) as [-> Hw].
  { clear Hdel Hnone. induction items as [|item items IH]; [done|]. cbn [items_messages items_watermark].
    assert (advanced w item = false) as ->.
    { destruct (Hsome item) as (g & Hg & Hle); [by left|]. unfold advanced. rewrite Hg. apply Z.ltb_ge. lia. }
    apply IH. intros y Hy. apply Hsome. by right. }
  rewrite Hw in Hdel. simpl. assert (deleted_endpoints items w = []) as Hnil.
  { apply elem_of_nil_inv. intros e [Hne Hin%watermark_list_keys]%list_elem_of_filter. rewrite Hnone in Hin by done.
    by destruct Hin. }
  rewrite Hnil in Hdel. by inversion Hdel.
Qed.

Context `{!UuidTextLaws}.

Lemma watermark_at_ok v : watermark_ok (watermark_at v).
Proof.
  assert (watermark_ok ∅) as Hnil by (intros e g Hg; by rewrite lookup_empty in Hg).
  unfold watermark_at. destruct (rv_cursors v !! _) as [text|]; [|exact Hnil].
  destruct (parse_endpoint_cursor text) as [w|] eqn:Hp; [by eapply parse_endpoint_cursor_ok|exact Hnil].
Qed.

(** Once the inventory was reported, reporting the same inventory again queues
    nothing and leaves the cursor, whatever happened to the rest of the site in
    between. *)
Theorem report_settles s1 s1' s2 s2' items t1 t2 :
  rep_ok s1 → rep_ok s2 →
  EndpointInventoryQuery_execute (rp_store s1) = (t1, Ok items : result _ (EndpointInventoryQueryError Ein)) →
  EndpointInventoryQuery_execute (rp_store s2) = (t2, Ok items : result _ (EndpointInventoryQueryError Ein)) →
  Forall (λ item, 0 <= generation_of item <= U64_MAX) items →
  report_endpoint_projection clock fresh instance_id s1 = (s1', Ok () : result () Error) →
  rv_cursors (rep_view s2) !! (instance_id, StreamEndpoint) = rv_cursors (rep_view s1') !! (instance_id, StreamEndpoint) →
  report_endpoint_projection clock fresh instance_id s2 = (s2', Ok () : result () Error) →
  rep_view s2' = rep_view s2.
Proof.
  intros Hok1 Hok2 Hex1 Hex2 Hgen Hrun1 Hcur Hrun2.
  apply endpoint_report_spec in Hrun1 as (_ & v1 & ms1 & es1 & Hq1 & items1 & t & Hex & Hms1 & Hv1); [|done].
  rewrite Hex1 in Hex. injection Hex as <- <-.
  apply endpoint_report_spec in Hrun2 as (_ & v2 & ms2 & es2 & Hq2 & items2 & t & Hex & Hms2 & Hv2); [|done].
  rewrite Hex2 in Hex. injection Hex as <- <-.
  pose proof (watermark_at_ok (rep_view s1)) as Hw1. set (w1 := watermark_at (rep_view s1)) in *.
  assert (∃ w, watermark_at (rep_view s2) = w ∧ (∀ e, e ∉ it_id <$> items → w !! e = None) ∧
    ∀ item, item ∈ items → ∃ g, w !! it_id item = Some g ∧ generation_of item <= g) as (w & Hw & Hnone & Hsome).
  { destruct (report_watermark_spec items w1) as [Hnone Hsome]. destruct (decide (ms1 = [])) as [Hnil|Hne].
    - exists w1. split; [unfold w1, watermark_at; rewrite Hcur, Hv1; done|].
      destruct Hms1 as (deletions & Hdel & Hms1). rewrite Hnil in Hms1. symmetry in Hms1. apply app_nil in Hms1 as [Hitems ->].
      inversion Hdel as [Hd|]. unfold report_watermark in *. rewrite <- Hd in *. simpl in *.
      assert (items_watermark items w1 = w1) as Heq; [|by rewrite Heq in *].
      clear -Hitems. revert Hitems. generalize w1. intros w. induction items as [|item items IH]; [done|].
      cbn [items_messages items_watermark]. destruct (advanced w item); [done|apply IH].
    - exists (report_watermark items w1). split; [|by split]. unfold watermark_at. rewrite Hcur, Hv1. simpl.
      rewrite lookup_insert_eq, endpoint_cursor_roundtrip; [done|]. by apply report_watermark_ok. }
  rewrite Hw in *. apply settled_messages in Hms2 as ->; [|done..]. inversion Hq2; subst v2 es2.
  rewrite Hv2. by destruct (rep_view s2).
Qed.
End spec.
