(* ===== verification/ArtifactReports.v ===== *)
(** * ArtifactReports: what the distribution of an artifact queues

    [distribute_artifact] of [SiteReports] against the outbox: a distribution that
    succeeds queues one set of frames of the artifact, of the bytes that were
    declared, and one that fails on the file none; of the frames queued before, both
    retire those the scan reaches. *)
From S2P Require Import Prelude Text Operation CenterDomain ResourceSnapshot LinkMessages Database EventRepository SyncCursors Artifact ArtifactRepository ArtifactStore CenterOutbox CenterStores ProjectionRepository ProjectionSafety CenterIntake IntakeContract IntakeSpec TransferSafety Endpoints EndpointInventory SiteReports SiteReportsSpec.
Local Open Scope Z_scope.

(** ** The reader *)

Section reader.
Context (chunk_bytes : nat).

(** The [i]-th piece of some bytes. *)
Definition piece (source : list N) (i : nat) : list N := take chunk_bytes (drop (i * chunk_bytes) source).

(** The chunks of a read that did not fail are the pieces of the bytes, none of
    them empty. *)
Lemma read_chunks_ok n fails bytes chunks :
  (0 < chunk_bytes)%nat → (length bytes < n)%nat → read_chunks chunk_bytes n fails bytes = (chunks, Ok ()) →
  concat chunks = bytes ∧ ∀ i c, chunks !! i = Some c → c = piece bytes i ∧ (i * chunk_bytes < length bytes)%nat.
Proof.
  intros Hpos. revert fails bytes chunks. induction n as [|n IH]; intros fails bytes chunks Hn Hrun; [lia|].
  cbn [read_chunks] in Hrun.
  set (rest := prod_map pred id <$> fails) in Hrun.
  assert ((if decide (take chunk_bytes bytes = []) then ([], Ok ())
           else if decide (length (take chunk_bytes bytes) < chunk_bytes)%nat then ([take chunk_bytes bytes], Ok ())
           else let '(cs, r) := read_chunks chunk_bytes n rest (drop chunk_bytes bytes) in
                (take chunk_bytes bytes :: cs, r)) = (chunks, Ok ())) as Hrun'.
  { destruct fails as [[[|k] kind]|]; [done|exact Hrun..]. }
  clear Hrun. clearbody rest. destruct (decide (take chunk_bytes bytes = [])) as [Hnil|Hne].
  { injection Hrun' as <-. destruct bytes; [|by destruct chunk_bytes; [lia|]]. split; [done|]. by intros i c. }
  assert (0 < length bytes)%nat as Hlen by (destruct bytes; [by rewrite take_nil in Hne|simpl; lia]).
  destruct (decide (length (take chunk_bytes bytes) < chunk_bytes)%nat) as [Hshort|Hfull].
  - injection Hrun' as <-. rewrite length_take in Hshort. simpl. rewrite app_nil_r, take_ge by lia. split; [done|].
    intros [|i] c [= <-]. unfold piece. simpl. rewrite drop_0, take_ge by lia. split; [done|lia].
  - destruct (read_chunks chunk_bytes n rest (drop chunk_bytes bytes)) as [cs r] eqn:Hrest. injection Hrun' as <- ->.
    rewrite length_take in Hfull. apply IH in Hrest as [Hcat Hnth]; [|rewrite length_drop; lia]. simpl. split.
    + rewrite Hcat. apply take_drop.
    + intros [|i] c Hc; simpl in Hc.
      * injection Hc as <-. unfold piece. simpl. rewrite drop_0. split; [done|lia].
      * apply Hnth in Hc as [-> Hlt]. rewrite length_drop in Hlt. unfold piece. rewrite drop_drop. split; [done|simpl; lia].
Qed.

(** What a read that succeeds sends: the pieces of bytes of the declared length and
    digest. *)
Lemma read_artifact_ok sha256 dk io file declared digest chunks :
  (0 < chunk_bytes)%nat →
  read_artifact chunk_bytes sha256 dk io file declared digest = (chunks, Ok ()) →
  ∃ source, concat chunks = source ∧ Z.of_nat (length source) = declared ∧ sha256 source = digest ∧
    ∀ i c, chunks !! i = Some c → c = piece source i ∧ (i * chunk_bytes < length source)%nat.
Proof.
  intros Hpos Hrun. unfold read_artifact in Hrun.
  destruct (dk_open_fails dk io); [done|]. destruct file as [file|]; [|done].
  destruct (dk_metadata dk io file) as [len|]; [|done]. destruct (decide (len ≠ declared)); [done|].
  destruct (read_chunks chunk_bytes _ _ _) as [cs r] eqn:Hread. injection Hrun as -> Hr.
  destruct r as [[]|]; [|done]. apply read_chunks_ok in Hread as [Hcat Hnth]; [|done|lia].
  unfold total_bytes in Hr. rewrite Hcat in Hr.
  destruct (decide (Z.of_nat (length (dk_content dk io file)) ≠ declared)) as [|Hsize%dec_stable]; [done|].
  destruct (decide (sha256 (dk_content dk io file) ≠ digest)) as [|Hsha%dec_stable]; [done|].
  exists (dk_content dk io file). by rewrite Hcat.
Qed.
End reader.

(** ** The queue *)

Section leaves.
Context `{EnvelopeJson} `{UuidText} (instance_id : InstanceId).
Implicit Types (v : Entries).

(** [e] waits to be sent. *)
Definition pends v (e : OutboxEntry) : Prop := v !! oe_id e = Some e ∧ is_pending_of instance_id e.

Definition older (now : OffsetDateTime) v : Prop := ∀ k e, v !! k = Some e → oe_created_at e <= now.

(** What is left of the queue when the entries [gone] went. *)
Definition leaves (gone : OutboxEntry → Prop) v v' : Prop := ∀ e, pends v' e ↔ pends v e ∧ ¬ gone e.

Definition carries_b (a : ArtifactId) (e : OutboxEntry) : Prop := entry_carries_artifact e a = true.
#[export] Instance carries_dec a e : Decision (carries_b a e).
Proof. unfold carries_b. apply _. Defined.

Lemma leaves_refl v : leaves (λ _, False) v v.
Proof. intros e. naive_solver. Qed.

(** What went carries the artifact. *)
Definition retires (a : ArtifactId) v v' : Prop :=
  ∃ gone, (∀ e, gone e → carries_b a e) ∧ leaves gone v v'.

Lemma retires_steps a v1 v2 v3 : retires a v1 v2 → retires a v2 v3 → retires a v1 v3.
Proof.

  intros (g1 & Hg1 & H12) (g2 & Hg2 & H23). exists (λ e, g1 e ∨ g2 e). split; [naive_solver|].
  intros e. rewrite (H23 e), (H12 e). naive_solver.
Qed.

(** An entry more, in the list of what went. *)
Lemma leaves_cons id ids v v1 v2 :
  leaves (λ e, oe_id e = id) v v1 → leaves (λ e, oe_id e ∈ ids) v1 v2 → leaves (λ e, oe_id e ∈ id :: ids) v v2.
Proof. intros H1 H2 e. rewrite (H2 e), (H1 e), elem_of_cons. naive_solver. Qed.

Lemma leaves_none v : leaves (λ e, oe_id e ∈ []) v v.
Proof. intros e. rewrite elem_of_nil. naive_solver. Qed.

Lemma pends_length v v' x :
  entries_keyed v → entries_keyed v' → (∀ e, pends v' e → pends v e) → pends v x → ¬ pends v' x →
  (length (pending_of instance_id v') < length (pending_of instance_id v))%nat.
Proof.
  intros Hk Hk' Hsub Hx Hnx.
  assert (x :: pending_of instance_id v' ⊆+ pending_of instance_id v) as Hlen%submseteq_length; [|simpl in Hlen; lia].
  apply NoDup_submseteq.
  - apply NoDup_cons. split; [by rewrite pending_of_spec|]. by eapply NoDup_fmap_1, pending_of_nodup.
  - intros e [->|He]%elem_of_cons; apply pending_of_spec; [done..|done|]. apply Hsub. by apply pending_of_spec.
Qed.

Lemma queued_pends v v' ms es :
  queued instance_id v v' ms es →
  (∀ e, e ∈ es → v !! oe_id e = None) ∧ ∀ e, pends v' e ↔ pends v e ∨ e ∈ es.
Proof.
  induction 1 as [v|v v1 v2 id m at_ e ms es [Hf Hv Hnew _ _] _ [IHf IH]].
  { split; [by intros e ?%elem_of_nil|]. intros e. rewrite elem_of_nil. naive_solver. }
  assert (oe_id e = id ∧ is_pending_of instance_id e) as [Hid Hp] by (rewrite Hnew; done).
  split.
  - intros f [->|Hin]%elem_of_cons; [by rewrite Hid|]. apply IHf in Hin. rewrite Hv in Hin.
    by apply lookup_insert_None in Hin as [? _].
  - intros f. rewrite (IH f), elem_of_cons. unfold pends. rewrite Hv. destruct (decide (oe_id f = id)) as [Heq|Hne].
    + rewrite Heq, lookup_insert_eq, Hf. naive_solver.
    + rewrite lookup_insert_ne by done. naive_solver.
Qed.

End leaves.

Section retire.
Context {St Sob Scu Ein Ear Eev Eob Ecu : Type}.
Context `{EndpointInventoryRepository St Ein} `{ArtifactRepository St Ear} `{CenterEventTail St Eev}.
Context `{OutboxStoreLaws Sob Eob} `{CenterCursorLaws Scu Ecu}.
Context (sha256 : list N → list N) (dk : DiskEnv) (clock : nat → OffsetDateTime) (fresh : nat → Uuid).
Context (instance_id : InstanceId) (options : ReportOptions) (fuel : nat).
Context (Hclock : ∀ n m, (n <= m)%nat → clock n <= clock m).
Abbreviation Rep := (Reporter St Sob Scu).
Abbreviation Error := (ReportError Ein Ear Eev Eob Ecu).
Abbreviation Op := (M Rep Error).
Implicit Types (s : Rep) (v : Entries).
Abbreviation pends := (pends instance_id).
Abbreviation leaves := (leaves instance_id).
Abbreviation retires := (retires instance_id).



Lemma rep_keyed s : rep_ok clock s → entries_keyed (rv_entries (rep_view s)).
Proof. intros (Ho & _ & _) k e. by apply law_entries_keyed. Qed.

Lemma pending_pends s e :
  rep_ok clock s → e ∈ pending_of instance_id (rv_entries (rep_view s)) ↔ pends (rv_entries (rep_view s)) e.
Proof. intros Hok. apply pending_of_spec. by apply rep_keyed. Qed.



Lemma acknowledge_spec id now s s' r :
  rep_ok clock s → older now (rv_entries (rep_view s)) →
  in_outbox (acknowledge id now) s = (s', r : result () Error) →
  rep_ok clock s' ∧ ∃ v, rep_view s' = with_queue (rep_view s) v ∧ older now v ∧
  match r with
  | Ok _ => leaves (λ e, oe_id e = id) (rv_entries (rep_view s)) v
  | Err x => v = rv_entries (rep_view s) ∧ ∃ y, x = RepOutbox y
  end.
Proof.
  intros Hok Hold Hrun. pose proof (rep_keyed s Hok) as Hkey. destruct Hok as (Ho & Hc & Ht).
  apply zoom_inv in Hrun as (t & r0 & Hrun & -> & ->).
  apply law_acknowledge in Hrun as [Ho' Hr]; [|done|by intros e He; eapply Hold].
  assert (r0 = Ok () → acknowledged id now (rv_entries (rep_view s)) (entries t)) as Hack by (by intros ->).
  destruct r0 as [[]|y]; simpl in *.
  - specialize (Hack eq_refl).
    assert (∀ k f, entries t !! k = Some f → ∃ g, rv_entries (rep_view s) !! k = Some g ∧ oe_created_at f = oe_created_at g)
      as Hcreated.
    { intros k f Hf. eapply acknowledged_from in Hf as (g & Hg & _ & _ & _ & Hat & _); [|exact Hack]. eauto. }
    split; [split; [done|split; [done|]]|].
    { intros k f Hf. apply Hcreated in Hf as (g & Hg & ->). by eapply Ht. }
    exists (entries t). split; [done|]. split.
    { intros k f Hf. apply Hcreated in Hf as (g & Hg & ->). by eapply Hold. }
    intros e. split.
    + intros [He Hp]. pose proof He as Hf. eapply acknowledged_from in Hf as (g & Hg & _ & _ & _ & _ & Hs); [|exact Hack].
      destruct Hs as [<- Hne]; [by destruct Hp|]. by split; [split|].
    + intros [[He Hp] Hne]. split; [|done]. eapply acknowledged_pending; [done..|by destruct Hp|done].
  - split; [split; [done|split; [done|]]|].
    { intros k f Hf. eapply Ht. rewrite <- Hr. exact Hf. }
    exists (rv_entries (rep_view s)). split; [unfold rep_view, with_queue; simpl; by rewrite Hr|].
    split; [done|]. split; [done|]. by eexists.
Qed.

(** The acknowledgements of a list of entries. *)
Lemma acknowledge_entries ids now s s' r :
  rep_ok clock s → older now (rv_entries (rep_view s)) →
  mfor ids (λ id, in_outbox (acknowledge id now)) s = (s', r : result () Error) →
  rep_ok clock s' ∧ ∃ v, rep_view s' = with_queue (rep_view s) v ∧ older now v ∧ ∃ done_, done_ `prefix_of` ids ∧
  leaves (λ e, oe_id e ∈ done_) (rv_entries (rep_view s)) v ∧
  match r with Ok _ => done_ = ids | Err x => ∃ y, x = RepOutbox y end.
Proof.
  revert s. induction ids as [|id ids IH]; intros s Hok Hold Hrun; cbn [mfor] in Hrun.
  { unfold mret in Hrun. injection Hrun as <- <-. split; [done|]. exists (rv_entries (rep_view s)). rewrite with_queue_same.
    split; [done|]. split; [done|]. exists []. split; [done|]. split; [|done]. apply leaves_none. }
  apply mbind_inv in Hrun as [([] & s1 & Hack & Hrun)|(x & Hack & ->)];
    (apply acknowledge_spec in Hack as (Hok1 & v1 & Hv1 & Hold1 & Hr1); [|done..]).
  - apply IH in Hrun as (Hok' & v & Hv & Hold' & done_ & Hpre & Hleft & Hr); [|done|by rewrite Hv1].
    split; [done|]. rewrite Hv1 in Hv, Hleft. simpl in *. exists v. split; [done|]. split; [done|]. exists (id :: done_).
    split; [by apply prefix_cons|]. split; [|by destruct r; [f_equal|]].
    by eapply leaves_cons.
  - destruct Hr1 as [-> Hx]. split; [done|]. exists (rv_entries (rep_view s)). split; [done|]. split; [done|].
    exists []. split; [apply prefix_nil|]. split; [|done]. apply leaves_none.
Qed.

(** *** The stale set *)





(** A pass acknowledges the entries that carry the artifact, and says whether there
    were any. *)
Lemma retire_pass_acknowledges a now any pending s :
  (retire_pass a now any pending : Op bool) s =
  (do! mfor (oe_id <$> filter (carries_b a) pending) (λ id, in_outbox (acknowledge id now)) in
   mret (any || negb (bool_decide (filter (carries_b a) pending = [])))) s.
Proof.
  revert any s. induction pending as [|e pending IH]; intros any s; cbn [retire_pass].
  { rewrite filter_nil. simpl. unfold mbind, mret. simpl. by rewrite orb_false_r. }
  rewrite filter_cons. destruct (decide (carries_b a e)) as [He|He]; unfold carries_b in He.
  - rewrite He. cbn [fmap list_fmap mfor]. unfold mbind in *.
    destruct (in_outbox (acknowledge (oe_id e) now) s) as [s1 [[]|x]]; [|done]. rewrite IH.
    destruct (mfor _ _ s1) as [s2 [[]|y]]; [|done]. unfold mret. simpl. by rewrite orb_true_r.
  - apply not_true_is_false in He. rewrite He. apply IH.
Qed.

(** The listing of a step of the site. *)
Lemma list_pending_spec bound s s' r :
  rep_ok clock s → in_outbox (list_pending instance_id bound) s = (s', r : result _ Error) →
  rep_ok clock s' ∧ rep_view s' = rep_view s ∧
  match r with
  | Ok l => l = take (Z.to_nat bound) (pending_of instance_id (rv_entries (rep_view s)))
  | Err x => ∃ y, x = RepOutbox y
  end.
Proof.
  intros (Ho & Hc & Ht) Hrun. apply zoom_inv in Hrun as (t & r0 & Hrun & -> & ->).
  apply law_list_pending in Hrun as (Hok & Hv & Hr); [|done].
  split; [split; [done|split; [done|]]|].
  { intros k e He. eapply Ht. rewrite <- Hv. exact He. }
  split; [unfold rep_view; simpl; by rewrite Hv|]. destruct r0; simpl; [by apply Hr|by eexists].
Qed.




(** A pass over what was listed. *)
Lemma retire_pass_spec a now bound s s' r :
  rep_ok clock s → older now (rv_entries (rep_view s)) →
  let pending := take (Z.to_nat bound) (pending_of instance_id (rv_entries (rep_view s))) in
  (retire_pass a now false pending : Op bool) s = (s', r) →
  rep_ok clock s' ∧ ∃ v, rep_view s' = with_queue (rep_view s) v ∧ older now v ∧ retires a (rv_entries (rep_view s)) v ∧
  match r with
  | Ok any => leaves (λ e, e ∈ pending ∧ carries_b a e) (rv_entries (rep_view s)) v ∧
      any = negb (bool_decide (filter (carries_b a) pending = []))
  | Err x => ∃ y, x = RepOutbox y
  end.
Proof.
  intros Hok Hold pending Hrun. rewrite retire_pass_acknowledges in Hrun.
  assert (∀ e, e ∈ pending → pends (rv_entries (rep_view s)) e) as Hin.
  { intros e He. apply pending_pends; [done|]. by eapply elem_of_take in He as (i & Hi & _); eapply list_elem_of_lookup_2. }
  assert (∀ done_ e, done_ `prefix_of` (oe_id <$> filter (carries_b a) pending) → pends (rv_entries (rep_view s)) e →
    oe_id e ∈ done_ → e ∈ pending ∧ carries_b a e) as Hgone.
  { intros done_ e Hpre [He _] Hid. assert (oe_id e ∈ oe_id <$> filter (carries_b a) pending) as Hid'.
    { destruct Hpre as [rest ->]. apply elem_of_app. by left. }
    apply list_elem_of_fmap in Hid' as (f & Hef & [Hca Hf]%list_elem_of_filter). destruct (Hin f Hf) as [Hf' _].
    rewrite <- Hef in Hf'. assert (f = e) as -> by congruence. done. }
  apply mbind_inv in Hrun as [([] & s1 & Hall & Hrun)|(x & Hall & ->)];
    (apply acknowledge_entries in Hall as (Hok1 & v & Hv & Hold1 & done_ & Hpre & Hleft & Hr); [|done..]).
  - unfold mret in Hrun. injection Hrun as <- <-. subst done_. split; [done|]. exists v. do 2 (split; [done|]).
    assert (leaves (λ e, e ∈ pending ∧ carries_b a e) (rv_entries (rep_view s)) v) as Hl; [|split; [|by split]].
    + intros e. rewrite (Hleft e). split; intros [He Hn]; (split; [done|]); intros Hg; apply Hn.
      * destruct Hg as [Hp Hca]. apply list_elem_of_fmap. exists e. split; [done|]. by apply list_elem_of_filter.
      * by eapply Hgone.
    + eexists. split; [|exact Hl]. by intros e [_ ?].
  - split; [done|]. exists v. do 2 (split; [done|]). split; [|done].
    exists (λ e, oe_id e ∈ done_ ∧ carries_b a e). split; [by intros e [_ ?]|]. intros e. rewrite (Hleft e).
    split; intros [He Hn]; (split; [done|]); [by intros [? _]; apply Hn|]. intros Hd. apply Hn. split; [done|]. by eapply Hgone.
Qed.



(** A pass that finds nothing does nothing. *)
Lemma retire_pass_none a now pending s s' (r : result bool Error) :
  filter (carries_b a) pending = [] → (retire_pass a now false pending : Op bool) s = (s', r) → s' = s ∧ r = Ok false.
Proof. intros Hf Hrun. rewrite retire_pass_acknowledges, Hf in Hrun. by injection Hrun as <- <-. Qed.

(** How far the scan for the stale frames of an artifact looks. *)
Definition scan_bound : Z := artifact_set_size_bound (ro_artifact_chunk_bytes options).
Definition none_in_reach a v : Prop :=
  Forall (λ e, ¬ carries_b a e) (take (Z.to_nat scan_bound) (pending_of instance_id v)).

(** The scan: it goes through in as many passes as there are pending entries, leaves
    no entry of the artifact among the first ones of its bound, and none at all when
    the whole queue fits the bound. *)
Lemma retire_passes_spec n a now s s' (r : result bool Error) :
  let bound := artifact_set_size_bound (ro_artifact_chunk_bytes options) in
  rep_ok clock s → older now (rv_entries (rep_view s)) →
  retire_passes instance_id options n a now s = (s', r) →
  rep_ok clock s' ∧ ∃ v, rep_view s' = with_queue (rep_view s) v ∧ retires a (rv_entries (rep_view s)) v ∧
  match r with
  | Ok through =>
      ((length (pending_of instance_id (rv_entries (rep_view s))) < n)%nat → through = true ∧ none_in_reach a v) ∧
      (n ≠ O → Z.of_nat (length (pending_of instance_id (rv_entries (rep_view s)))) < bound →
       leaves (carries_b a) (rv_entries (rep_view s)) v)
  | Err x => ∃ y, x = RepOutbox y
  end.
Proof.
  intros bound. revert s. induction n as [|n IH]; intros s Hok Hold Hrun; cbn [retire_passes] in Hrun.
  { unfold mret in Hrun. injection Hrun as <- <-. split; [done|]. exists (rv_entries (rep_view s)). rewrite with_queue_same.
    split; [done|]. split; [exists (λ _, False); split; [done|apply leaves_refl]|]. split; [lia|done]. }
  fold bound in Hrun. apply mbind_inv in Hrun as [(pending & s1 & Hl & Hrun)|(x & Hl & ->)];
    (apply list_pending_spec in Hl as (Hok1 & Hv1 & Hl); [|done]).
  2: { split; [done|]. exists (rv_entries (rep_view s)). rewrite with_queue_same. split; [done|].
       split; [exists (λ _, False); split; [done|apply leaves_refl]|done]. }
  rewrite <- Hv1 in *. clear s Hok Hv1. rename s1 into s. subst pending.
  set (pending := take _ _) in Hrun. pose proof (rep_keyed s Hok1) as Hkey.
  assert (filter (carries_b a) pending = [] → none_in_reach a (rv_entries (rep_view s))) as Hnone.
  { intros Hf. apply Forall_forall. intros e He Hc. assert (e ∈ filter (carries_b a) pending) as Hin by (by apply list_elem_of_filter).
    rewrite Hf in Hin. by apply elem_of_nil in Hin. }
  apply mbind_inv in Hrun as [(any & s1 & Hp & Hrun)|(x & Hp & ->)]; pose proof Hp as Hpass;
    (apply retire_pass_spec in Hp as (Hok2 & v1 & Hv1 & Hold1 & Hret & Hr); [|done..]).
  2: { split; [done|]. by exists v1. }
  destruct Hr as [Hleft Hany]. fold pending in Hleft, Hany.
  assert (Z.of_nat (length (pending_of instance_id (rv_entries (rep_view s)))) < bound →
    pending = pending_of instance_id (rv_entries (rep_view s))) as Hall by (intros; apply take_ge; lia).
  assert (∀ e, e ∈ pending → pends (rv_entries (rep_view s)) e) as Hin.
  { intros e He. apply pending_pends; [done|]. by eapply elem_of_take in He as (i & Hi & _); eapply list_elem_of_lookup_2. }
  destruct (negb any || (Z.of_nat (length pending) <? bound)) eqn:Hstop.
  - unfold mret in Hrun. injection Hrun as <- <-. split; [done|]. exists v1. do 2 (split; [done|]). split.
    { intros _. split; [done|]. destruct (decide (filter (carries_b a) pending = [])) as [Hf|Hf].
      - destruct (retire_pass_none _ _ _ _ _ _ Hf Hpass) as [-> _]. apply (f_equal rv_entries) in Hv1. simpl in Hv1. by rewrite <- Hv1; apply Hnone.
      - rewrite bool_decide_false in Hany by done. subst any. simpl in Hstop. apply Z.ltb_lt in Hstop.
        apply Forall_forall. intros e He Hc. assert (pends v1 e) as He1%Hleft.
        { pose proof (rep_keyed s1 Hok2) as Hk. rewrite Hv1 in Hk. apply (pending_of_spec instance_id); [done|].
          by eapply elem_of_take in He as (i & Hi & _); eapply list_elem_of_lookup_2. }
        destruct He1 as [He1 Hn]. apply Hn. split; [|done]. rewrite (Hall ltac:(unfold pending in Hstop; rewrite length_take in Hstop; lia)).
        by apply pending_pends. }
    intros _ Hlen. intros e. rewrite (Hleft e). rewrite (Hall Hlen). split; intros [He Hn]; (split; [done|]); [|by intros [_ ?]; apply Hn].
    intros Hca. apply Hn. split; [|done]. by apply pending_pends.
  - apply orb_false_iff in Hstop as [->%negb_false_iff Hlen%Z.ltb_ge].
    apply IH in Hrun as (Hok' & v & Hv & Hret' & Hr); [|done|by rewrite Hv1]. rewrite Hv1 in Hv, Hret', Hr. simpl in *.
    split; [done|]. exists v. split; [done|]. split; [by eapply retires_steps|]. destruct r as [through|x]; [|done].
    destruct Hr as [Hthrough _]. split.
    + intros Hn. apply Hthrough. symmetry in Hany. apply negb_true_iff, bool_decide_eq_false in Hany.
      destruct (filter (carries_b a) pending) as [|x l] eqn:Hf; [done|].
      assert (x ∈ filter (carries_b a) pending) as [Hca Hx]%list_elem_of_filter by (rewrite Hf; left).
      cut (length (pending_of instance_id v1) < length (pending_of instance_id (rv_entries (rep_view s))))%nat;
          [simpl; lia|]. apply (pends_length instance_id _ _ x); [done|..|by apply Hin|].
      * pose proof (rep_keyed s1 Hok2) as Hk. by rewrite Hv1 in Hk.
      * intros e [He _]%Hleft. done.
      * intros [_ Hn']%Hleft. by apply Hn'.
    + intros _ Hlt. exfalso. rewrite (Hall Hlt) in Hlen. lia.
Qed.

(** *** The fresh set *)

Lemma with_recorded_same (v : RepView) : with_recorded v (rv_distribution v ++ []) = v.
Proof. rewrite app_nil_r. by destruct v. Qed.



(** Queued and recorded. *)
Definition recorded s s' (ms : list EnvelopeMessage) : Prop :=
  rep_ok clock s' ∧ ∃ v es, queued instance_id (rv_entries (rep_view s)) v ms es ∧
  rep_view s' = with_recorded (with_queue (rep_view s) v) (rv_distribution (rep_view s) ++ (oe_id <$> es)).

Lemma recorded_nil s s' : rep_ok clock s' → rep_view s' = rep_view s → recorded s s' [].
Proof.
  intros Hok Hv. split; [done|]. exists (rv_entries (rep_view s)), []. split; [constructor|].
  rewrite with_queue_same, with_recorded_same. done.
Qed.

Lemma recorded_trans s1 s2 s3 ms ms' : recorded s1 s2 ms → recorded s2 s3 ms' → recorded s1 s3 (ms ++ ms').
Proof.
  intros (_ & v & es & Hq & Hv) (Hok & v' & es' & Hq' & Hv'). split; [done|]. exists v', (es ++ es').
  rewrite Hv in Hq', Hv'. simpl in *. split; [by eapply queued_app|]. rewrite Hv'. by rewrite fmap_app, app_assoc.
Qed.

Lemma enqueue_recorded_spec content s s' (r : result () Error) :
  rep_ok clock s → enqueue_recorded clock fresh instance_id content s = (s', r) →
  match r with Ok _ => recorded s s' [MsgContent content] | Err x => recorded s s' [] ∧ ∃ y, x = RepOutbox y end.
Proof.
  intros Hok Hrun. unfold enqueue_recorded in Hrun.
  apply mbind_inv in Hrun as [(e & s1 & Hq & Hrun)|(x & Hq & ->)];
    (apply enqueue_entry_spec in Hq as [Hok1 Hr]; [|done..]).
  - destruct Hr as (id & at_ & v & He & Hv). unfold mbind, SiteReports.distribution, set_distribution in Hrun.
    injection Hrun as <- <-. split; [done|]. exists v, [e]. split; [by eapply queued_one|].
    assert (rp_distribution s1 = rp_distribution s) as -> by (by apply (f_equal rv_distribution) in Hv).
    assert (∀ l, rep_view (put_distribution s1 l) = with_recorded (rep_view s1) l) as Hput by done.
    rewrite Hput, Hv. done.
  - destruct Hr as [Hv Hx]. split; [by apply recorded_nil|done].
Qed.

Definition chunk_messages (a : Artifact) (index : nat) (chunks : list (list N)) : list EnvelopeMessage :=
  imap (λ i c, MsgContent (MsgArtifactChunk (chunk_of a (Z.of_nat (index + i)) c))) chunks.

(** A frame of the artifact. *)
Definition of_artifact (a : ArtifactId) (m : EnvelopeMessage) : Prop :=
  match m with
  | MsgContent (MsgArtifactManifest manifest) => LinkMessages.am_artifact_id manifest = show_uuid a
  | MsgContent (MsgArtifactChunk chunk) => ac_artifact_id chunk = show_uuid a
  | _ => False
  end.

Lemma chunk_messages_of a index chunks : Forall (of_artifact (a_id a)) (chunk_messages a index chunks).
Proof. apply Forall_forall. intros m (i & c & -> & _)%elem_of_lookup_imap. done. Qed.

Lemma chunk_messages_cons a index c chunks :
  chunk_messages a index (c :: chunks) =
  MsgContent (MsgArtifactChunk (chunk_of a (Z.of_nat index) c)) :: chunk_messages a (S index) chunks.
Proof.
  unfold chunk_messages. simpl. rewrite Nat.add_0_r. f_equal. apply imap_ext. intros i x _. simpl. do 4 f_equal. lia.
Qed.

Lemma enqueue_chunks_spec a index chunks s s' (r : result () Error) :
  rep_ok clock s → enqueue_chunks clock fresh instance_id a index chunks s = (s', r) →
  match r with
  | Ok _ => recorded s s' (chunk_messages a index chunks) ∧ (chunks ≠ [] → Z.of_nat (index + length chunks) - 1 <= U32_MAX)
  | Err x => persistent_failure x = false ∧ ∃ ms, recorded s s' ms ∧ Forall (of_artifact (a_id a)) ms
  end.
Proof.
  revert index s. induction chunks as [|c chunks IH]; intros index s Hok Hrun; cbn [enqueue_chunks] in Hrun.
  { unfold mret in Hrun. injection Hrun as <- <-. split; [by apply recorded_nil|done]. }
  apply mbind_inv in Hrun as [(wire & s1 & Hw & Hrun)|(x & Hw & ->)]; unfold mlift, u32_try_from in Hw;
    injection Hw as -> Hw.
  2: { destruct (decide _); [done|]. injection Hw as <-. split; [done|]. exists []. split; [by apply recorded_nil|done]. }
  destruct (decide (Z.of_nat index <= U32_MAX)) as [Hmax|]; [|done]. injection Hw as <-.
  apply mbind_inv in Hrun as [([] & s2 & He & Hrun)|(x & He & ->)];
    (apply enqueue_recorded_spec in He; [|done]).
  2: { destruct He as [He [y ->]]. split; [done|]. by exists []. }
  apply IH in Hrun; [|by destruct He]. destruct r as [[]|x].
  - destruct Hrun as [Hrec Hlen]. rewrite chunk_messages_cons. split; [by apply (recorded_trans _ _ _ [_] _ He)|].
    intros _. simpl. destruct chunks; [simpl; lia|]. specialize (Hlen ltac:(done)). simpl in *. lia.
  - destruct Hrun as (Hx & ms & Hms & Hof). split; [done|]. eexists. split; [by eapply recorded_trans|]. by constructor.
Qed.

(** The frames of an artifact of these chunks. *)
Definition frames (a : Artifact) (chunks : list (list N)) : list EnvelopeMessage :=
  MsgContent (MsgArtifactManifest (manifest_of a)) :: chunk_messages a 0 chunks.

Lemma enqueue_artifact_spec a s s' (r : result () Error) :
  rep_ok clock s → enqueue_artifact sha256 dk clock fresh instance_id options a s = (s', r) →
  match r with
  | Ok _ => ∃ io file chunks,
      read_artifact (ro_artifact_chunk_bytes options) sha256 dk io file (a_size_bytes a)
        (Sha256Hex_into_bytes (a_sha256 a)) = (chunks, Ok ()) ∧
      Z.of_nat (length chunks) - 1 <= U32_MAX ∧ recorded s s' (if decide (chunks = []) then [] else frames a chunks)
  | Err _ => ∃ ms, recorded s s' ms ∧ Forall (of_artifact (a_id a)) ms
  end.
Proof.
  intros Hok Hrun. unfold enqueue_artifact in Hrun. unfold mbind at 1, run_reader in Hrun.
  set (s1 := mk_reporter _ _ _ _ _ _ _ _) in Hrun. assert (rep_ok clock s1) as Hok1 by exact Hok.
  assert (∀ s2 ms, recorded s1 s2 ms → recorded s s2 ms) as Hsame by done.
  destruct (read_artifact _ _ _ _ _ _ _) as [chunks verdict] eqn:Hread. cbn [fst snd] in Hrun. clearbody s1. clear Hok.
  destruct chunks as [|c chunks].
  - unfold mlift in Hrun. injection Hrun as <- <-. assert (recorded s s1 []) as Hnil by (by apply Hsame, recorded_nil).
    destruct verdict as [[]|x]; simpl; [|by exists []]. eexists _, _, []. split; [exact Hread|]. split; [done|].
    by rewrite decide_True.
  - apply mbind_inv in Hrun as [([] & s2 & He & Hrun)|(x & He & ->)];
      (apply enqueue_recorded_spec in He; [|done]); [|exists []; split; [by apply Hsame; destruct He|done]].
    apply mbind_inv in Hrun as [([] & s3 & Hc & Hrun)|(x & Hc & ->)];
      (apply enqueue_chunks_spec in Hc; [|by destruct He]).
    2: { destruct Hc as (_ & ms & Hms & Hof). eexists. split; [apply Hsame; by eapply recorded_trans|]. by constructor. }
    destruct Hc as [Hc Hlen]. pose proof (Hsame _ _ (recorded_trans _ _ _ _ _ He Hc)) as Hrec.
    unfold mlift in Hrun. injection Hrun as <- <-. destruct verdict as [[]|x]; simpl;
      [|eexists; split; [exact Hrec|]; constructor; [done|apply chunk_messages_of]].
    eexists _, _, (c :: chunks). split; [exact Hread|]. rewrite decide_False by done. split; [|exact Hrec].
    by apply Hlen.
Qed.

Lemma timely_older s : rep_ok clock s → older (clock (rp_reads s)) (rv_entries (rep_view s)).
Proof. intros (_ & _ & Ht) k e He. by eapply Ht. Qed.

Lemma now_older s s' now :
  rep_ok clock s → now_ clock s = (s', Ok now : result _ Error) →
  rep_ok clock s' ∧ rep_view s' = rep_view s ∧ older now (rv_entries (rep_view s')).
Proof.
  intros Hok Hrun. pose proof Hrun as Hq. apply now_quiet in Hq as (Hok' & Hv & _); [|done..].
  split; [done|]. split; [done|]. rewrite Hv. injection Hrun as _ <-. by apply timely_older.
Qed.

Lemma prefix_in {A} (l k : list A) x : l `prefix_of` k → x ∈ l → x ∈ k.
Proof. intros [rest ->] Hx. apply elem_of_app. by left. Qed.

Lemma retire_round_spec s s' (r : result () Error) :
  rep_ok clock s → retire_round clock s = (s', r) →
  rep_ok clock s' ∧ (∀ e, pends (rv_entries (rep_view s')) e → pends (rv_entries (rep_view s)) e) ∧
  (∀ e, pends (rv_entries (rep_view s)) e → oe_id e ∉ rv_distribution (rep_view s) → pends (rv_entries (rep_view s')) e) ∧
  match r with
  | Ok _ => leaves (λ e, oe_id e ∈ rv_distribution (rep_view s)) (rv_entries (rep_view s)) (rv_entries (rep_view s'))
  | Err x => persistent_failure x = false
  end.
Proof.
  intros Hok Hrun. unfold retire_round in Hrun. unfold mbind at 1, SiteReports.distribution in Hrun.
  unfold mbind at 1, set_distribution in Hrun. set (s1 := put_distribution s []) in Hrun.
  assert (rep_ok clock s1) as Hok1 by exact Hok.
  assert (rv_entries (rep_view s1) = rv_entries (rep_view s)) as Hs1 by done.
  change (rv_distribution (rep_view s)) with (rp_distribution s). rewrite <- Hs1. clearbody s1.
  destruct (rp_distribution s) as [|id ids].
  { unfold mret in Hrun. injection Hrun as <- <-. split; [done|]. split; [done|]. split; [done|]. apply leaves_none. }
  apply mbind_inv in Hrun as [(now & s2 & Hnow & Hrun)|(x & Hnow & ->)]; [|by injection Hnow].
  apply now_older in Hnow as (Hok2 & Hv2 & Hold); [|done].
  apply acknowledge_entries in Hrun as (Hok' & v & Hv & _ & done_ & Hpre & Hl & Hr); [|done..].
  split; [done|]. rewrite Hv, <- Hv2. split; [by intros e [He _]%Hl|].
  split; [intros e He Hne; apply Hl; split; [done|]; intros Hin; apply Hne; by eapply prefix_in|].
  destruct r as [[]|x]; [|by destruct Hr as [y ->]]. subst done_. exact Hl.
Qed.

(** The stale frames of an artifact are retired: nothing else went, none is left in
    reach of the scan, and none at all when the whole queue was in reach. *)
Definition stale_retired a v v' : Prop :=
  retires a v v' ∧ none_in_reach a v' ∧
  (Z.of_nat (length (pending_of instance_id v)) < scan_bound → leaves (carries_b a) v v').

Lemma retire_pending_spec a s s' (r : result () Error) :
  rep_ok clock s → retire_pending_artifact_entries clock instance_id options fuel a s = (s', r) →
  rep_ok clock s' ∧ rv_distribution (rep_view s') = rv_distribution (rep_view s) ∧
  retires a (rv_entries (rep_view s)) (rv_entries (rep_view s')) ∧
  match r with
  | Ok _ =>
      (length (pending_of instance_id (rv_entries (rep_view s))) < fuel)%nat →
      stale_retired a (rv_entries (rep_view s)) (rv_entries (rep_view s'))
  | Err x => persistent_failure x = false
  end.
Proof.
  intros Hok Hrun. unfold retire_pending_artifact_entries in Hrun.
  apply mbind_inv in Hrun as [(now & s1 & Hnow & Hrun)|(x & Hnow & ->)]; [|by injection Hnow].
  apply now_older in Hnow as (Hok1 & Hv1 & Hold); [|done]. rewrite <- Hv1.
  apply mbind_inv in Hrun as [(through & s2 & Hp & Hrun)|(x & Hp & ->)];
    (apply retire_passes_spec in Hp as (Hok2 & v & Hv & Hret & Hr); [|done..]); rewrite ?Hv.
  - unfold mret in Hrun. injection Hrun as <- <-. rewrite Hv. split; [done|]. split; [done|]. split; [done|]. intros Hfuel.
    destruct Hr as [Hall Hsmall]. split; [done|]. split; [by apply Hall|]. apply Hsmall. lia.
  - split; [done|]. split; [done|]. split; [done|]. by destruct Hr as [y ->].
Qed.

Lemma on_failure_inv (m cleanup : Op ()) s s' (r : result () Error) :
  on_failure m cleanup s = (s', r) →
  (m s = (s', Ok ()) ∧ r = Ok ()) ∨
  ∃ s1 x r1, m s = (s1, Err x) ∧ cleanup s1 = (s', r1) ∧ r = Err (match r1 with Ok _ => x | Err y => y end).
Proof.
  unfold on_failure. destruct (m s) as [s1 [[]|x]].
  - intros [= <- <-]. by left.
  - destruct (cleanup s1) as [s2 r1] eqn:Hc. intros [= <- <-]. right. exists s1, x, r1. split; [done|]. split; [done|].
    by destruct r1.
Qed.

(** The bytes of the artifact and its frames, as a distribution queues them. *)
Definition declared_frames a (chunks : list (list N)) : Prop :=
  Z.of_nat (length (concat chunks)) = a_size_bytes a ∧ sha256 (concat chunks) = Sha256Hex_into_bytes (a_sha256 a) ∧
  Z.of_nat (length chunks) - 1 <= U32_MAX ∧
  ∀ i c, chunks !! i = Some c → c = piece (ro_artifact_chunk_bytes options) (concat chunks) i ∧
    (i * ro_artifact_chunk_bytes options < length (concat chunks))%nat.

(** What a distribution does, once the stale frames are retired: one that succeeds
    queues the frames of bytes of the declared length and digest behind all that
    pends, one that fails on the file takes back what it had queued. *)
Lemma distribution_queues a s s' (r : result () Error) :
  rep_ok clock s → (0 < ro_artifact_chunk_bytes options)%nat → 0 < a_size_bytes a →
  distribute_artifact sha256 dk clock fresh instance_id options fuel a s = (s', r) →
  rep_ok clock s' ∧ ∃ v, retires (a_id a) (rv_entries (rep_view s)) v ∧
  match r with
  | Ok _ => ((length (pending_of instance_id (rv_entries (rep_view s))) < fuel)%nat →
        stale_retired (a_id a) (rv_entries (rep_view s)) v) ∧
      ∃ chunks es, declared_frames a chunks ∧ queued instance_id v (rv_entries (rep_view s')) (frames a chunks) es
  | Err x => persistent_failure x = true →
      ((length (pending_of instance_id (rv_entries (rep_view s))) < fuel)%nat →
        stale_retired (a_id a) (rv_entries (rep_view s)) v) ∧ ∀ e, pends (rv_entries (rep_view s')) e ↔ pends v e
  end.
Proof.
  intros Hok Hpos Hsize Hrun. unfold distribute_artifact in Hrun.
  unfold mbind at 1, set_distribution in Hrun. set (s0 := put_distribution s []) in Hrun.
  assert (rep_ok clock s0) as Hok0 by exact Hok. assert (rv_distribution (rep_view s0) = []) as Hd0 by done.
  change (rv_entries (rep_view s)) with (rv_entries (rep_view s0)) in *. clearbody s0. clear s Hok.
  apply mbind_inv in Hrun as [([] & s1 & Hret & Hrun)|(x & Hret & ->)];
    (apply retire_pending_spec in Hret as (Hok1 & Hd1 & Hgone & Hl); [|done]).
  2: { split; [done|]. eexists. split; [exact Hgone|]. by rewrite Hl. }
  rewrite Hd0 in Hd1.
  apply on_failure_inv in Hrun as [[Henq ->]|(s2 & x & r1 & Henq & Hclean & ->)];
    (apply enqueue_artifact_spec in Henq; [|done]).
  - destruct Henq as (io & file & chunks & Hread & Hlen & Hok' & v & es & Hq & Hv). split; [done|].
    apply read_artifact_ok in Hread as (source & <- & Hsz & Hsha & Hnth); [|done].
    rewrite decide_False in Hq by (intros ->; simpl in Hsz; lia).
    eexists. split; [exact Hgone|]. split; [done|]. exists chunks, es. rewrite Hv. by split_and!.
  - destruct Henq as (ms & (Hok2 & v & es & Hq & Hv) & _). apply retire_round_spec in Hclean as (Hok' & _ & _ & Hr); [|done].
    split; [done|]. eexists. split; [exact Hgone|]. destruct r1 as [[]|y]; [|by rewrite Hr]. intros _. split; [done|].
    rewrite Hv, Hd1 in Hr. simpl in Hr. apply queued_pends in Hq as [Hnew Hp].
    intros e. rewrite (Hr e), (Hp e). split.
    + intros [[He|He] Hn]; [done|]. destruct Hn. apply list_elem_of_fmap. by exists e.
    + intros He. split; [by left|]. intros (f & Hid & Hf)%list_elem_of_fmap. apply Hnew in Hf. rewrite <- Hid in Hf.
      destruct He as [He _]. congruence.
Qed.

(** ** What the center is sent *)

#[local] Opaque chunk_size.

(** What is pending carries the artifact when it is one of its frames. *)
Lemma queued_frames v v' ms es :
  queued instance_id v v' ms es →
  Forall2 (λ e m, envelope_from_json (oe_payload_json e) = Some (mk_envelope (oe_sequence e) 0 (Some m))) es ms.
Proof. induction 1 as [|v v1 v2 id m at_ e ms es [_ _ _ Hp _] _ IH]; by constructor. Qed.

(** C11: With the default chunk size, a distribution that succeeds first retires frames
    of the artifact and nothing else - all of them when the whole queue is in reach of
    the scan, and in any case those in reach, a deeper residue staying for a later
    round - and then queues, behind everything that pends, exactly the manifest that
    announces some bytes of the declared length and digest and, in order, all their
    chunks as the center assembles them; one that fails on the file retires the same
    and leaves nothing new. *)
Theorem distribution_feeds_transfer a s s' (r : result () Error) :
  rep_ok clock s → ro_artifact_chunk_bytes options = chunk_size → 0 < a_size_bytes a →
  (∀ bytes, Forall (λ b, b < 256)%N (sha256 bytes)) →
  (length (pending_of instance_id (rv_entries (rep_view s))) < fuel)%nat →
  distribute_artifact sha256 dk clock fresh instance_id options fuel a s = (s', r) →
  match r with
  | Ok _ => ∃ source manifest chunks v es,
      stale_retired (a_id a) (rv_entries (rep_view s)) v ∧
      queued instance_id v (rv_entries (rep_view s'))
        (MsgContent (MsgArtifactManifest manifest) :: ((λ c, MsgContent (MsgArtifactChunk c)) <$> chunks)) es ∧
      announces sha256 source (a_id a) manifest ∧
      (∀ i c, chunks !! i = Some c → honest source (a_id a) i c ∧ wire_ok (MsgArtifactChunk c)) ∧
      ∀ i, (i * chunk_size < length source)%nat → is_Some (chunks !! i)
  | Err x => persistent_failure x = true →
      ∃ v, stale_retired (a_id a) (rv_entries (rep_view s)) v ∧ ∀ e, pends (rv_entries (rep_view s')) e ↔ pends v e
  end.
Proof.
  intros Hok Hsize Hpos Hsha Hfuel Hrun. pose proof chunk_size_pos as Hcs.
  apply distribution_queues in Hrun as (_ & v & _ & Hr); [|done|by rewrite Hsize|done..].
  destruct r as [[]|x]; [|intros Hx; destruct (Hr Hx); by exists v; auto].
  destruct Hr as (Hst & chunks & es & (Hsz & Hdig & Hlen & Hnth) & Hq). rewrite Hsize in Hnth.
  exists (concat chunks), (manifest_of a), (imap (λ i c, chunk_of a (Z.of_nat i) c) chunks), v, es.
  split; [by apply Hst|]. split.
  { unfold frames, chunk_messages in Hq. rewrite fmap_imap. exact Hq. }
  split; [|split].
  - unfold announces, manifest_of. simpl. rewrite parse_show, <- Hdig. split_and!; auto; lia.
  - intros i c Hc. apply list_lookup_imap_Some in Hc as (b & Hb & ->). pose proof (lookup_lt_Some _ _ _ Hb) as Hi.
    apply Hnth in Hb as [-> Hlt]. unfold honest, chunk_of. simpl. rewrite parse_show. split; [by split_and!|lia].
  - intros i Hi. rewrite list_lookup_imap, fmap_is_Some. apply lookup_lt_is_Some.
    assert (length (concat chunks) ≤ length chunks * chunk_size)%nat as Hcover; [|nia].
    assert (Forall (λ c, length c ≤ chunk_size)%nat chunks) as Hall.
    { apply Forall_lookup. intros j c [-> _]%Hnth. unfold piece. rewrite length_take. lia. }
    clear -Hall. induction Hall as [|c chunks Hc _ IH]; simpl; [lia|]. rewrite length_app. lia.
Qed.
End retire.
