(* ===== verification/ArtifactStream.v ===== *)
(** * ArtifactStream: which artifacts are reported

    [report_artifacts] of [SiteReports] behind its cursor: how the cursor moves, and
    which artifacts no report ever sends. *)
From S2P Require Import Prelude Text Operation CenterDomain ResourceSnapshot LinkMessages Database EventRepository SyncCursors Artifact ArtifactRepository ArtifactStore CenterOutbox CenterStores CenterIntake Endpoints EndpointInventory SiteReports SiteReportsSpec ArtifactReports.
Local Open Scope Z_scope.

Lemma keeps_zoom {S T E F A} (P : S → Prop) (get : S → T) (put : S → T → S) (err : F → E) (m : M T F A) :
  (∀ s t, P s → P (put s t)) → keeps P (zoom get put err m).
Proof. intros Hp s Hs. unfold zoom. destruct (m (get s)) as [t r]. by apply Hp. Qed.

Section stream.
Context {St Sob Scu Ein Ear Eev Eob Ecu : Type}.
Context `{EndpointInventoryRepository St Ein} `{ArtifactRepositoryLaws St Ear} `{CenterEventTail St Eev}.
Context `{OutboxStoreLaws Sob Eob} `{CenterCursorLaws Scu Ecu}.
Context (sha256 : list N → list N) (dk : DiskEnv) (clock : nat → OffsetDateTime) (fresh : nat → Uuid).
Context (instance_id : InstanceId) (options : ReportOptions) (fuel : nat).
Context (Hclock : ∀ n m, (n <= m)%nat → clock n <= clock m).
Abbreviation Rep := (Reporter St Sob Scu).
Abbreviation Error := (ReportError Ein Ear Eev Eob Ecu).
Abbreviation Op := (M Rep Error).
Implicit Types (s : Rep) (v : Entries).

(** What a distribution never touches: the store and the cursors. *)
Definition kept s : St * Scu := (rp_store s, rp_cursors s).

Lemma enqueue_recorded_keeps x content : keeps (λ s, kept s = x) (enqueue_recorded clock fresh instance_id content : Op ()).
Proof.
  apply keeps_bind.
  - apply keeps_bind; [by intros s|]. intros at_. apply keeps_bind; [by intros s|].
    intros id. by apply keeps_zoom; intros.
  - intros e. apply keeps_bind; [by intros s|]. intros l. by intros s.
Qed.

Lemma enqueue_keeps x a : keeps (λ s, kept s = x) (enqueue_artifact sha256 dk clock fresh instance_id options a : Op ()).
Proof.
  apply keeps_bind; [by intros s|]. intros [chunks verdict]. cbn [fst snd].
  destruct chunks as [|c chunks]; [apply keeps_lift|]. generalize (c :: chunks). clear c chunks. intros chunks.
  apply keeps_bind; [apply enqueue_recorded_keeps|]. intros _. apply keeps_bind; [|intros; apply keeps_lift].
  generalize O. induction chunks as [|c chunks IH]; intros index; [apply keeps_ret|]. cbn [enqueue_chunks].
  apply keeps_bind; [apply keeps_lift|]. intros wire. apply keeps_bind; [apply enqueue_recorded_keeps|]. intros _. apply IH.
Qed.

Lemma retire_round_keeps x : keeps (λ s, kept s = x) (retire_round clock : Op ()).
Proof.
  apply keeps_bind; [by intros s|]. intros ids. apply keeps_bind; [by intros s|]. intros _.
  destruct ids; [apply keeps_ret|]. apply keeps_bind; [by intros s|]. intros now. apply keeps_for.
  intros id _. by apply keeps_zoom; intros.
Qed.

Lemma distribute_keeps x a :
  keeps (λ s, kept s = x) (distribute_artifact sha256 dk clock fresh instance_id options fuel a : Op ()).
Proof.
  apply keeps_bind; [by intros s|]. intros _. apply keeps_bind.
  - apply keeps_bind; [by intros s|]. intros now. apply keeps_bind; [|by intros; apply keeps_ret].
    induction fuel as [|n IH]; [apply keeps_ret|]. apply keeps_bind; [by apply keeps_zoom; intros|]. intros pending.
    apply keeps_bind.
    + generalize false. induction pending as [|e pending IHp]; intros any; [apply keeps_ret|]. cbn [retire_pass].
      destruct (entry_carries_artifact e (a_id a)); [|apply IHp]. apply keeps_bind; [by apply keeps_zoom; intros|]. intros _. apply IHp.
    + intros any. by destruct (_ || _); [apply keeps_ret|].
  - intros _ s Hs. unfold on_failure. pose proof (enqueue_keeps _ (a) s Hs) as Hk.
    destruct (enqueue_artifact _ _ _ _ _ _ a s) as [s1 [[]|e]]; [exact Hk|].
    pose proof (retire_round_keeps _ s1 Hk) as Hk'. by destruct (retire_round clock s1) as [s2 r].
Qed.

Lemma distribute_kept a s s' (r : result () Error) :
  distribute_artifact sha256 dk clock fresh instance_id options fuel a s = (s', r) → kept s' = kept s.
Proof. intros Hrun. pose proof (distribute_keeps (kept s) a s eq_refl) as Hk. by rewrite Hrun in Hk. Qed.

(** *** One distribution and the others' entries *)

Abbreviation pending_in s := (pends instance_id (rv_entries (rep_view s))).

Lemma queued_carries v v' ms es a e x :
  queued instance_id v v' ms es → Forall (of_artifact a) ms → e ∈ es → carries_b x e → x = a.
Proof.
  intros Hq%queued_frames Hof [i Hi]%list_elem_of_lookup_1 Hc. apply Forall2_lookup_l with (i := i) (x := e) in Hq as (m & Hm & Hp); [|done].
  eapply Forall_lookup_1 in Hof; [|exact Hm]. unfold carries_b, entry_carries_artifact in Hc. rewrite Hp in Hc. simpl in Hc.
  destruct m as [| | |[]| | | |]; try done; apply bool_decide_eq_true in Hc; simpl in Hof;
    apply show_uuid_inj; congruence.
Qed.

Lemma distribute_others a s s' (r : result () Error) :
  rep_ok clock s → distribute_artifact sha256 dk clock fresh instance_id options fuel a s = (s', r) →
  rep_ok clock s' ∧ ∀ e x, x ≠ a_id a → carries_b x e → pending_in s' e → pending_in s e.
Proof.
  intros Hok Hrun. unfold distribute_artifact in Hrun. unfold mbind at 1, set_distribution in Hrun.
  set (s0 := put_distribution s []) in Hrun. assert (rep_ok clock s0) as Hok0 by exact Hok.
  change (rv_entries (rep_view s)) with (rv_entries (rep_view s0)). clearbody s0. clear s Hok.
  apply mbind_inv in Hrun as [([] & s1 & Hret & Hrun)|(x & Hret & ->)];
    (apply retire_pending_spec in Hret as (Hok1 & _ & (gone & _ & Hl) & _); [|done..]).
  2: { split; [done|]. intros e x' _ _ [He _]%Hl. done. }
  assert (∀ s2 ms, recorded clock instance_id s1 s2 ms → Forall (of_artifact (a_id a)) ms →
    rep_ok clock s2 ∧ ∀ e x, x ≠ a_id a → carries_b x e → pending_in s2 e → pending_in s0 e) as Hrec.
  { intros s2 ms (Hok2 & v & es & Hq & Hv) Hof. split; [done|]. intros e x Hne Hc He. rewrite Hv in He. simpl in He.
    pose proof Hq as [_ Hp]%queued_pends. apply Hp in He as [[He _]%Hl|He]; [done|]. destruct Hne. by eapply queued_carries. }
  apply on_failure_inv in Hrun as [[Henq ->]|(s2 & x & r1 & Henq & Hclean & ->)];
    (apply enqueue_artifact_spec in Henq; [|done..]).
  - destruct Henq as (io & file & chunks & _ & _ & Hr). eapply Hrec; [exact Hr|].
    case_decide; [done|]. constructor; [done|apply chunk_messages_of].
  - destruct Henq as (ms & Hr & Hof). destruct (Hrec _ _ Hr Hof) as [Hok2 Hothers].
    apply (retire_round_spec clock instance_id) in Hclean as (Hok' & Hsub & _ & _); [|done..]. split; [done|]. intros e x' Hne Hc He. eauto.
Qed.

Lemma distribute_retains a s s' (r : result () Error) :
  rep_ok clock s → distribute_artifact sha256 dk clock fresh instance_id options fuel a s = (s', r) →
  ∀ e, ¬ carries_b (a_id a) e → pending_in s e → pending_in s' e.
Proof.
  intros Hok Hrun e Hc. unfold distribute_artifact in Hrun. unfold mbind at 1, set_distribution in Hrun.
  set (s0 := put_distribution s []) in Hrun. assert (rep_ok clock s0) as Hok0 by exact Hok.
  change (rv_entries (rep_view s)) with (rv_entries (rep_view s0)).
  assert (rv_distribution (rep_view s0) = []) as Hd0 by done. clearbody s0. clear s Hok. intros He.
  assert (∀ s1, retires instance_id (a_id a) (rv_entries (rep_view s0)) (rv_entries (rep_view s1)) → pending_in s1 e) as Hkeep.
  { intros s1 (gone & Hgone & Hl). apply Hl. split; [done|]. by intros ?%Hgone. }
  apply mbind_inv in Hrun as [([] & s1 & Hret & Hrun)|(x & Hret & ->)];
    (apply retire_pending_spec in Hret as (Hok1 & Hd1 & Hret & _); [|done..]); apply Hkeep in Hret; [|done].
  apply on_failure_inv in Hrun as [[Henq ->]|(s2 & x & r1 & Henq & Hclean & ->)];
    (apply enqueue_artifact_spec in Henq; [|done..]).
  - destruct Henq as (io & file & chunks & _ & _ & _ & v & es & Hq & Hv). rewrite Hv. simpl.
    apply queued_pends in Hq as [_ Hp]. apply Hp. by left.
  - destruct Henq as (ms & (Hok2 & v & es & Hq & Hv) & _).
    apply (retire_round_spec clock instance_id) in Hclean as (_ & _ & Hround & _); [|done..].
    rewrite Hv, Hd1, Hd0 in Hround. simpl in Hround. apply queued_pends in Hq as [Hnew Hp].
    apply Hround; [apply Hp; by left|]. intros (f & Hid & Hf)%list_elem_of_fmap. apply Hnew in Hf. rewrite <- Hid in Hf.
    destruct Hret as [Hret _]. congruence.
Qed.

(** The frames of an artifact wait to be sent: the manifest and all the chunks of bytes
    of the declared length and digest, in the order they will be sent. *)
Definition waits a s : Prop :=
  ∃ chunks es, declared_frames sha256 options a chunks ∧
    Forall2 (λ e m, envelope_from_json (oe_payload_json e) = Some (mk_envelope (oe_sequence e) 0 (Some m))) es (frames a chunks) ∧
    StronglySorted (λ e f, oe_sequence e < oe_sequence f) es ∧ Forall (λ e, pending_in s e) es.

Lemma waits_same a s s' : rv_entries (rep_view s') = rv_entries (rep_view s) → waits a s → waits a s'.
Proof. unfold waits. by intros ->. Qed.

Lemma queued_ascending v v' ms es :
  queued instance_id v v' ms es →
  (∀ e id f, e ∈ es → v !! id = Some f → oe_instance_id f = instance_id → oe_sequence f < oe_sequence e) ∧
  StronglySorted (λ e f, oe_sequence e < oe_sequence f) es.
Proof.
  induction 1 as [v|v v1 v2 id m at_ e ms es [Hf Hv Hnew _ Hlast] _ [IHb IHs]].
  { split; [by intros e id f ?%elem_of_nil|constructor]. }
  split.
  - intros g k f [->|Hg]%elem_of_cons Hk Hi; [by eapply Hlast|]. apply (IHb g k f Hg); [|done].
    rewrite Hv, lookup_insert_ne; [done|]. intros ->. congruence.
  - constructor; [done|]. apply Forall_forall. intros g Hg. apply (IHb g id e Hg); [|by rewrite Hnew].
    by rewrite Hv, lookup_insert_eq.
Qed.

Lemma distribute_waits a s s' :
  rep_ok clock s → (0 < ro_artifact_chunk_bytes options)%nat → 0 < a_size_bytes a →
  distribute_artifact sha256 dk clock fresh instance_id options fuel a s = (s', Ok () : result () Error) → waits a s'.
Proof.
  intros Hok Hpos Hsize Hrun. apply distribution_queues in Hrun as (_ & v & _ & _ & chunks & es & Hd & Hq); [|done..].
  exists chunks, es. split; [done|]. split; [by eapply queued_frames|].
  split; [by eapply queued_ascending|]. apply queued_pends in Hq as [_ Hp]. apply Forall_forall. intros e He. apply Hp. by right.
Qed.

Lemma frame_carries e m x : 
  envelope_from_json (oe_payload_json e) = Some (mk_envelope (oe_sequence e) 0 (Some m)) →
  ∀ a, of_artifact a m → carries_b x e → x = a.
Proof.
  intros Hp a Hof Hc. unfold carries_b, entry_carries_artifact in Hc. rewrite Hp in Hc. simpl in Hc.
  destruct m as [| | |[]| | | |]; try done; apply bool_decide_eq_true in Hc; simpl in Hof; apply show_uuid_inj; congruence.
Qed.

(** The distribution of another artifact leaves them. *)
Lemma waits_retained a b s s' (r : result () Error) :
  rep_ok clock s → a_id b ≠ a_id a →
  distribute_artifact sha256 dk clock fresh instance_id options fuel b s = (s', r) → waits a s → waits a s'.
Proof.
  intros Hok Hne Hrun (chunks & es & Hd & Hes & Hsorted & Hp). exists chunks, es. split_and!; [done..|].
  apply Forall_forall. intros e He. rewrite Forall_forall in Hp. eapply distribute_retains; [done..| |by apply Hp].
  intros Hc. apply Hne. apply list_elem_of_lookup in He as [i Hi].
  eapply Forall2_lookup_l in Hes as (m & Hm & Hm'); [|exact Hi]. eapply frame_carries; [exact Hm'| |exact Hc].
  assert (Forall (of_artifact (a_id a)) (frames a chunks)) as Hall by (constructor; [done|apply chunk_messages_of]).
  by eapply Forall_lookup_1 in Hall.
Qed.

(** *** The loop *)

Definition selected (selects : Artifact → bool) (ready : list Artifact) : list Artifact :=
  filter (λ a, selects a = true) ready.

Lemma distribute_ready_spec selects ready newest s s' (r : result _ Error) :
  rep_ok clock s → distribute_ready sha256 dk clock fresh instance_id options fuel selects ready newest s = (s', r) →
  rep_ok clock s' ∧ kept s' = kept s ∧
  (∀ e x, (∀ a, a ∈ selected selects ready → a_id a ≠ x) → carries_b x e → pending_in s' e → pending_in s e) ∧
  ∀ n, r = Ok (inl n) → n = match last (selected selects ready) with Some a => Some (a_id a) | None => newest end.
Proof.
  revert newest s. induction ready as [|a ready IH]; intros newest s Hok Hrun; cbn [distribute_ready] in Hrun.
  { unfold mret in Hrun. injection Hrun as <- <-. split; [done|]. split; [done|]. split; [done|]. by intros n [= <-]. }
  unfold selected in *. rewrite filter_cons. destruct (selects a) eqn:Hs; cbn [negb] in Hrun.
  2: { rewrite decide_False by done. by apply IH in Hrun. }
  rewrite decide_True by done.
  destruct (distribute_artifact _ _ _ _ _ _ _ a s) as [s1 [[]|x]] eqn:Hd.
  - pose proof (distribute_kept _ _ _ _ Hd) as Hk. apply distribute_others in Hd as [Hok1 Hothers]; [|done].
    apply IH in Hrun as (Hok' & Hk' & Hrest & Hn); [|done]. split; [done|]. split; [congruence|]. split.
    + intros e x Hne Hc He. apply (Hothers e x); [|done|apply (Hrest e x); [|done..]].
      * intros ->. by apply (Hne a); [left|].
      * intros b Hb. apply Hne. by right.
    + intros n Hr. rewrite (Hn _ Hr). rewrite last_cons. by destruct (last _).
  - pose proof (distribute_kept _ _ _ _ Hd) as Hk. apply distribute_others in Hd as [Hok1 Hothers]; [|done].
    assert (s' = s1 ∧ ∀ n, r ≠ Ok (inl n)) as [-> Hr] by (destruct (persistent_failure x); injection Hrun as <- <-; done).
    split; [done|]. split; [done|]. split; [|by intros n Hn%Hr].
    intros e y Hne Hc. apply (Hothers e y); [|done]. intros ->. by apply (Hne a); [left|].
Qed.

(** What was distributed waits, up to where the stream stalls. *)
Lemma distribute_ready_waits selects ready newest s s' (r : result _ Error) :
  rep_ok clock s → (0 < ro_artifact_chunk_bytes options)%nat → NoDup (a_id <$> ready) →
  distribute_ready sha256 dk clock fresh instance_id options fuel selects ready newest s = (s', r) →
  (∀ a, waits a s → (∀ b, b ∈ ready → a_id b ≠ a_id a) → waits a s') ∧
  match r with
  | Ok (inl _) => ∀ a, a ∈ selected selects ready → 0 < a_size_bytes a → waits a s'
  | Ok (inr id) => ∃ before a after, selected selects ready = before ++ a :: after ∧ a_id a = id ∧
      ∀ b, b ∈ before → 0 < a_size_bytes b → waits b s'
  | Err _ => True
  end.
Proof.
  intros Hok Hpos. revert newest s Hok. induction ready as [|a ready IH]; intros newest s Hok Hnd Hrun; cbn [distribute_ready] in Hrun.
  { unfold mret in Hrun. injection Hrun as <- <-. split; [done|]. by intros a ?%elem_of_nil. }
  rewrite fmap_cons, NoDup_cons in Hnd. destruct Hnd as [Hni Hnd].
  unfold selected in *. rewrite filter_cons. destruct (selects a) eqn:Hs; cbn [negb] in Hrun.
  2: { rewrite decide_False by done. apply IH in Hrun as [Hkeep Hr]; [|done..]. split; [|done].
       intros b Hb Hne. apply Hkeep; [done|]. intros c Hc. apply Hne. by right. }
  rewrite decide_True by done.
  assert (∀ b, b ∈ ready → a_id b ≠ a_id a) as Hother.
  { intros b Hb Heq. apply Hni. rewrite <- Heq. by apply list_elem_of_fmap_2. }
  destruct (distribute_artifact _ _ _ _ _ _ _ a s) as [s1 [[]|x]] eqn:Hd; pose proof Hd as [Hok1 _]%distribute_others; [|done| |done].
  - apply IH in Hrun as [Hkeep Hr]; [|done..].
    assert (∀ b, waits b s → (∀ c, c ∈ a :: ready → a_id c ≠ a_id b) → waits b s') as Hall.
    { intros b Hb Hne. apply Hkeep; [|intros c Hc; apply Hne; by right].
      eapply waits_retained; [exact Hok| |exact Hd|done]. apply Hne. by left. }
    split; [done|]. assert (0 < a_size_bytes a → waits a s') as Ha.
    { intros Hsize. apply Hkeep; [|done]. by apply (distribute_waits a s s1). }
    destruct r as [[n|id]|]; [|destruct Hr as (before & b & after & -> & Hid & Hb)|done].
    + intros b [->|Hb]%elem_of_cons; auto.
    + exists (a :: before), b, after. split; [done|]. split; [done|]. intros c [->|Hc]%elem_of_cons; auto.
  - assert (s' = s1) as -> by (destruct (persistent_failure x); by injection Hrun).
    split.
    { intros b Hb Hne. eapply waits_retained; [exact Hok| |exact Hd|done]. apply Hne. by left. }
    destruct (persistent_failure x); injection Hrun as <-; [|done]. eexists [], a, _. split; [done|]. split; [done|].
    by intros b ?%elem_of_nil.
Qed.

(** *** The cursor *)

(** The artifact the cursor says was reported last, when there is one. *)
Definition anchor_artifact s : option Artifact :=
  match option_bind _ _ parse_uuid (rv_cursors (rep_view s) !! (instance_id, StreamArtifact)) with
  | Some id => artifact_view (rp_store s) !! id
  | None => None
  end.

(** Declared after [anchor]. *)
Definition newer (anchor : option Artifact) (a : Artifact) : bool :=
  match anchor with
  | Some b => (a_created_at b <? a_created_at a) || ((a_created_at a =? a_created_at b) && (a_id b <? a_id a)%N)
  | None => true
  end.

Definition reporter_ok s : Prop := rep_ok clock s ∧ artifact_rows_ok (rp_store s).

Lemma anchor_read s s1 s2 cursor (r : result _ Error) :
  reporter_ok s →
  in_cursors (cursor_get instance_id StreamArtifact) s = (s1, Ok cursor : result _ Error) →
  match cursor ≫= λ c, parse_uuid (sc_cursor_value c) with
  | Some anchor => let! found := in_store RepArtifact (ar_find_artifact anchor) in mret (a_created_at <$> found)
  | None => mret None
  end s1 = (s2, r) →
  reporter_ok s2 ∧ rep_view s2 = rep_view s ∧ artifact_view (rp_store s2) = artifact_view (rp_store s) ∧
  ∀ created, r = Ok created →
    after_anchor (cursor ≫= λ c, parse_uuid (sc_cursor_value c)) created = newer (anchor_artifact s).
Proof.
  intros [Hok Hrows] Hget Hfind.
  assert (rp_store s1 = rp_store s) as Hstore by (apply zoom_inv in Hget as (? & ? & _ & -> & _); done).
  apply (cursor_get_spec clock) in Hget as (Hok1 & Hv1 & Hcur); [|done]. specialize (Hcur _ eq_refl).
  unfold anchor_artifact. rewrite <- Hcur, <- Hstore, <- Hv1 in *. clear s Hstore Hv1 Hcur Hok.
  destruct cursor as [c|]; simpl in *; [destruct (parse_uuid (sc_cursor_value c)) as [id|] eqn:Hid; simpl in *|].
  - unfold mbind in Hfind. destruct (in_store _ _ s1) as [s3 x] eqn:Hf.
    assert (s2 = s3) as -> by (by destruct x; injection Hfind).
    pose proof Hf as (t & r0 & Hrun & -> & Hr)%zoom_inv. apply ar_find_spec in Hrun as (Hrows' & Hav & Hfound); [|done].
    split; [by split|]. split; [done|]. split; [done|]. intros created ->. destruct r0 as [o|y]; subst x; [|done]. injection Hfind as <-. rewrite Hfound.
    destruct o as [b|]; [|done]. by apply ar_view_key in Hfound as <-.
  - unfold mret in Hfind. injection Hfind as <- <-. by split_and!; [..|intros created [= <-]].
  - unfold mret in Hfind. injection Hfind as <- <-. by split_and!; [..|intros created [= <-]].
Qed.

(** A report of the stream from [s] to [s']: the ready artifacts newer than the one
    the cursor is at are all that may be queued; the cursor goes to the last of them
    when all were distributed, and stays when the stream stalls or fails, whatever
    was distributed before. *)
Definition reports_stream s s' (r : result ArtifactStreamOutcome Error) : Prop :=
  reporter_ok s' ∧ artifact_view (rp_store s') = artifact_view (rp_store s) ∧ ∃ ready,
  (∀ a, a ∈ ready → artifact_view (rp_store s) !! a_id a = Some a ∧ a_state a = Ready) ∧ Sorted artifact_le ready ∧
  (is_ok r = true → ∀ a, artifact_view (rp_store s) !! a_id a = Some a → a_state a = Ready → a ∈ ready) ∧
  (∀ e x, (∀ a, a ∈ selected (newer (anchor_artifact s)) ready → a_id a ≠ x) →
     carries_b x e → pending_in s' e → pending_in s e) ∧
  ((0 < ro_artifact_chunk_bytes options)%nat →
   match r with
   | Ok StreamComplete => ∀ a, a ∈ selected (newer (anchor_artifact s)) ready → 0 < a_size_bytes a → waits a s'
   | Ok (StreamStalled id) => ∃ before a after, selected (newer (anchor_artifact s)) ready = before ++ a :: after ∧
       a_id a = id ∧ ∀ b, b ∈ before → 0 < a_size_bytes b → waits b s'
   | Err _ => True
   end) ∧
  rv_cursors (rep_view s') =
    match r, last (selected (newer (anchor_artifact s)) ready) with
    | Ok StreamComplete, Some a => <[(instance_id, StreamArtifact) := show_uuid (a_id a)]> (rv_cursors (rep_view s))
    | _, _ => rv_cursors (rep_view s)
    end.

Lemma reports_stream_quiet s s' x :
  reporter_ok s' → rep_view s' = rep_view s → artifact_view (rp_store s') = artifact_view (rp_store s) →
  reports_stream s s' (Err x).
Proof.
  intros Hok Hv Hav. split; [done|]. split; [done|]. exists []. rewrite Hv.
  split; [by intros a ?%elem_of_nil|]. split; [constructor|]. by split.
Qed.

Lemma report_artifacts_spec s s' (r : result _ Error) :
  reporter_ok s → report_artifacts sha256 dk clock fresh instance_id options fuel s = (s', r) →
  reports_stream s s' r.
Proof.
  intros Hok Hrun. unfold report_artifacts in Hrun.
  apply mbind_inv in Hrun as [(cursor & s1 & Hget & Hrun)|(x & Hget & ->)].
  2: { assert (rp_store s' = rp_store s) as Hstore by (apply zoom_inv in Hget as (? & ? & _ & -> & _); done).
       destruct Hok as [Hok Hrows]. apply (cursor_get_spec clock) in Hget as (Hok1 & Hv1 & _); [|done].
       apply reports_stream_quiet; [split; [done|by rewrite Hstore]|done|by rewrite Hstore]. }
  apply mbind_inv in Hrun as [(created & s2 & Hfind & Hrun)|(x & Hfind & ->)].
  2: { destruct (anchor_read _ _ _ _ _ Hok Hget Hfind) as (? & ? & ? & _). by apply reports_stream_quiet. }
  destruct (anchor_read _ _ _ _ _ Hok Hget Hfind) as ([Hok2 Hrows2] & Hv2 & Hav2 & Hsel). specialize (Hsel _ eq_refl).
  rewrite Hsel in Hrun. clear Hget Hfind Hsel s1 cursor created.
  apply mbind_inv in Hrun as [(ready & s3 & Hl & Hrun)|(x & Hl & ->)].
  2: { pose proof Hl as (t & r0 & Hl1 & -> & Hr0)%zoom_inv. apply ar_list_spec in Hl1 as (Hrows3 & Hav3 & _); [|done].
       apply reports_stream_quiet; [by split|done|by rewrite <- Hav2, <- Hav3]. }
  assert (reporter_ok s3 ∧ rep_view s3 = rep_view s ∧ artifact_view (rp_store s3) = artifact_view (rp_store s) ∧
    (∀ a, a ∈ ready → artifact_view (rp_store s) !! a_id a = Some a ∧ a_state a = Ready) ∧ Sorted artifact_le ready ∧
    NoDup ready ∧ ∀ a, artifact_view (rp_store s) !! a_id a = Some a → a_state a = Ready → a ∈ ready)
    as ([Hok3 Hrows3] & Hv3 & Hav3 & Hready & Hsorted & Hnd & Hall).
  { apply zoom_inv in Hl as (t & r0 & Hl1 & -> & Hr0). apply ar_list_spec in Hl1 as (Hrows3 & Hav3 & Hr); [|done].
    rewrite Hav2 in *. destruct r0 as [l|]; [|done]. injection Hr0 as ->. destruct Hr as (Hs & Hnd & Hin).
    split; [by split|]. split; [done|]. split; [done|]. split; [by intros a Ha%Hin|]. split; [done|]. split; [done|]. intros a Ha Hst. by apply Hin. }
  assert (NoDup (a_id <$> ready)) as Hids.
  { apply NoDup_fmap_2_strong; [|done]. intros a b [Ha _]%Hready [Hb _]%Hready Hab. congruence. }
  clear Hl Hv2 Hav2 Hrows2 Hok2 s2.
  apply mbind_inv in Hrun as [(out & s4 & Hd & Hrun)|(x & Hd & ->)];
    pose proof (λ Hpos, proj2 (distribute_ready_waits _ _ _ _ _ _ Hok3 Hpos Hids Hd)) as Hwaits;
    (apply distribute_ready_spec in Hd as (Hok4 & [= Hst4 Hcu4] & Hothers & Hn); [|done]).
  2: { split; [split; [done|by rewrite Hst4]|]. split; [by rewrite Hst4|]. exists ready. rewrite Hv3 in Hothers.
       split_and!; [done..|]. rewrite <- Hv3. unfold rep_view. simpl. by rewrite Hcu4. }
  rewrite Hv3 in Hothers. rewrite <- Hst4 in Hrows3, Hav3.
  assert (rv_cursors (rep_view s4) = rv_cursors (rep_view s)) as Hcur4 by (rewrite <- Hv3; unfold rep_view; simpl; by rewrite Hcu4).
  assert (∀ s5 r, rep_view s5 = rep_view s4 → rp_store s5 = rp_store s4 → rep_ok clock s5 →
    (∀ a, last (selected (newer (anchor_artifact s)) ready) = Some a → r ≠ Ok StreamComplete) →
    match out, r with
    | inl _, Ok StreamComplete | _, Err _ => True
    | inr id, Ok (StreamStalled id') => id' = id
    | _, _ => False
    end → reports_stream s s5 r) as Hstill.
  { intros s5 r5 Hv5 Hst5 Hok5 Hr5 Hout. split; [split; [done|by rewrite Hst5]|]. split; [by rewrite Hst5|]. exists ready.
    assert (∀ a, waits a s4 → waits a s5) as Hsame by (intros a; apply waits_same; by rewrite Hv5).
    rewrite Hv5. split_and!; [done..| |].
    { intros Hpos. specialize (Hwaits Hpos). destruct out as [n|id], r5 as [[|id']|]; try done; simpl in Hwaits; [by auto|].
      subst id'. destruct Hwaits as (before & a & after & ? & ? & Hb). exists before, a, after. by auto. }
    rewrite Hcur4. destruct r5 as [[|]|]; [|done..].
    destruct (last _) as [a|]; [|done]. by destruct (Hr5 a). }
  destruct out as [newest|id]; [specialize (Hn _ eq_refl); destruct newest as [newest|]|].
  - apply mbind_inv in Hrun as [(now & s5 & Hnow & Hrun)|(x & Hnow & ->)]; [|by injection Hnow].
    assert (rp_store s5 = rp_store s4) as Hst5 by (by injection Hnow as <-).
    apply now_quiet in Hnow as (Hok5 & Hv5 & _); [|done..].
    apply mbind_inv in Hrun as [([] & s6 & Hset & Hrun)|(x & Hset & ->)];
      pose proof Hset as (t & r0 & _ & -> & _)%zoom_inv; (apply (store_cursor_spec clock) in Hset as [Hok6 Hv6]; [|done]).
    + unfold mret in Hrun. injection Hrun as <- <-. rewrite Hv5 in Hv6.
      split; [split; [done|by rewrite Hst5 in *]|]. split; [simpl; by rewrite Hst5|]. exists ready. rewrite Hv6.
      split_and!; [done..| |].
      { intros Hpos a Ha Hsize. apply (waits_same a s4); [by rewrite Hv6|]. by apply Hwaits. }
      cbn [with_cursor_rows rv_cursors]. rewrite Hcur4. destruct (last _) as [a|]; [|done]. by injection Hn as ->.
    + apply Hstill; [by rewrite Hv6|done..].
  - unfold mret in Hrun. injection Hrun as <- <-. apply Hstill; [done..| |done]. intros a Ha. by rewrite Ha in Hn.
  - unfold mret in Hrun. injection Hrun as <- <-. by apply Hstill.
Qed.

(** ** What the cursor passes over *)

(** The stream has reported an artifact that was declared no earlier than the
    artifact [id]. *)
Definition passed_over (id : ArtifactId) s : Prop :=
  ∃ b x, anchor_artifact s = Some b ∧ artifact_view (rp_store s) !! id = Some x ∧ newer (Some b) x = false.

(** A report of the stream; or what else the site does: artifacts are uploaded and
    become ready, other reports are queued, entries are sent and answered. *)
Inductive stream_step s s' : Prop :=
| step_report (r : result ArtifactStreamOutcome Error) :
    report_artifacts sha256 dk clock fresh instance_id options fuel s = (s', r) → stream_step s s'
| step_elsewhere :
    reporter_ok s' →
    (∀ id a, artifact_view (rp_store s) !! id = Some a →
       ∃ a', artifact_view (rp_store s') !! id = Some a' ∧ a_created_at a' = a_created_at a) →
    rv_cursors (rep_view s') !! (instance_id, StreamArtifact) = rv_cursors (rep_view s) !! (instance_id, StreamArtifact) →
    (∀ e id, carries_b id e → pending_in s' e → pending_in s e) →
    stream_step s s'.

Lemma selected_spec anchor ready a : a ∈ selected (newer anchor) ready ↔ a ∈ ready ∧ newer anchor a = true.
Proof. unfold selected. rewrite list_elem_of_filter. naive_solver. Qed.

Lemma anchor_key s b : reporter_ok s → anchor_artifact s = Some b → artifact_view (rp_store s) !! a_id b = Some b.
Proof.
  intros [_ Hrows] Hb. unfold anchor_artifact in Hb. destruct (option_bind _ _ _ _) as [id|]; [|done].
  by rewrite (ar_view_key _ _ _ Hrows Hb).
Qed.

(** The order of the stream looks at the declarations only. *)
Lemma newer_same b x b' x' :
  a_id b' = a_id b → a_created_at b' = a_created_at b → a_id x' = a_id x → a_created_at x' = a_created_at x →
  newer (Some b') x' = newer (Some b) x.
Proof. unfold newer. by intros -> -> -> ->. Qed.

Lemma last_sorted {A} (R : relation A) l a x : StronglySorted R l → last l = Some a → x ∈ l → x = a ∨ R x a.
Proof.
  induction 1 as [|y l _ IH Hall]; [done|]. intros Hlast [->|Hin]%elem_of_cons.
  - rewrite last_cons in Hlast. destruct (last l) as [z|] eqn:Hz; [|left; congruence]. injection Hlast as ->. right.
    rewrite Forall_forall in Hall. apply Hall. by apply last_Some_elem_of.
  - rewrite last_cons in Hlast. destruct (last l) as [z|] eqn:Hz; [by apply IH|].
    apply last_None in Hz as ->. by apply elem_of_nil in Hin.
Qed.

Lemma newer_older b x a : newer (Some b) x = false → newer (Some b) a = true → newer (Some a) x = false.
Proof.
  unfold newer. rewrite !orb_false_iff, orb_true_iff, !andb_false_iff, andb_true_iff. rewrite !Z.ltb_ge, !Z.eqb_neq, !N.ltb_ge.
  rewrite Z.ltb_lt, Z.eqb_eq, N.ltb_lt. lia.
Qed.

Lemma le_not_newer a b : artifact_le a b → newer (Some b) a = false.
Proof.
  unfold newer, artifact_le. rewrite orb_false_iff, andb_false_iff, !Z.ltb_ge, Z.eqb_neq, N.ltb_ge. lia.
Qed.

Lemma passed_over_step id s s' :
  reporter_ok s → passed_over id s → stream_step s s' →
  reporter_ok s' ∧ passed_over id s' ∧ ∀ e, carries_b id e → pending_in s' e → pending_in s e.
Proof.
  intros Hok (b & x & Hb & Hx & Hnew) [r Hrun|Hok' Hrows Hcur Hpend].
  - apply report_artifacts_spec in Hrun as (Hok' & Hav & ready & Hready & _ & _ & Hothers & _ & Hcur); [|done].
    split; [done|]. rewrite Hb in Hothers, Hcur. split.
    + destruct r as [[|stalled]|err]; [destruct (last (selected _ ready)) as [a|] eqn:Hlast|..].
      2-4: exists b, x; unfold anchor_artifact in *; rewrite Hcur, Hav; done.
      apply last_Some_elem_of, selected_spec in Hlast as [[Ha _]%Hready Hsel].
      exists a, x. unfold anchor_artifact. rewrite Hcur, lookup_insert_eq, Hav. simpl. rewrite parse_show.
      split; [done|]. split; [done|]. by eapply newer_older.
    + intros e Hc. apply (Hothers e id); [|done]. intros a [[Ha _]%Hready Hsel]%selected_spec <-.
      rewrite Hx in Ha. injection Ha as ->. by rewrite Hsel in Hnew.
  - split; [done|]. split; [|by intros e Hc; eapply Hpend].
    destruct (Hrows _ _ (anchor_key _ _ Hok Hb)) as (b' & Hb' & Hcb). destruct (Hrows _ _ Hx) as (x' & Hx' & Hcx).
    pose proof (ar_view_key _ _ _ (proj2 Hok) Hx) as Hidx. pose proof (ar_view_key _ _ _ (proj2 Hok') Hx') as Hidx'.
    pose proof (ar_view_key _ _ _ (proj2 Hok') Hb') as Hidb'.
    exists b', x'. split; [|split; [done|]].
    + unfold anchor_artifact in *. rewrite Hcur. destruct (option_bind _ _ _ _) as [k|]; [|done].
      by rewrite (ar_view_key _ _ _ (proj2 Hok) Hb) in Hb'.
    + rewrite <- Hnew. apply newer_same; congruence.
Qed.

(** C12: Once the stream has reported an artifact declared after [id], nothing ever
    queues a frame of [id]: an upload that becomes ready late never reaches the
    center. *)
Theorem late_artifact_never_reported id s s' :
  reporter_ok s → passed_over id s → rtc stream_step s s' →
  passed_over id s' ∧ ∀ e, carries_b id e → pending_in s' e → pending_in s e.
Proof.
  intros Hok Hp Hsteps. revert Hok Hp. induction Hsteps as [s|s s1 s' Hstep _ IH]; intros Hok Hp; [done|].
  destruct (passed_over_step _ _ _ Hok Hp Hstep) as (Hok1 & Hp1 & Hpend).
  destruct (IH Hok1 Hp1) as [Hp' Hpend']. split; [done|]. auto.
Qed.

(** C35: A complete report leaves nothing ready newer than its cursor, and of every
    artifact it passed the manifest and all the chunks of bytes of the declared length
    and digest wait in the queue, in order.  One that stalls at an artifact leaves the
    cursor where it was, with the frames of the ready artifacts before that one waiting;
    one that fails leaves the cursor too: the next report sends them again.  Artifacts
    are declared with a positive size. *)
Theorem stream_cursor_moves s s' (r : result _ Error) :
  reporter_ok s → (0 < ro_artifact_chunk_bytes options)%nat →
  report_artifacts sha256 dk clock fresh instance_id options fuel s = (s', r) →
  match r with
  | Ok StreamComplete => ∀ a, artifact_view (rp_store s) !! a_id a = Some a → a_state a = Ready →
      newer (anchor_artifact s') a = false ∧
      (newer (anchor_artifact s) a = true → 0 < a_size_bytes a → waits a s')
  | Ok (StreamStalled id) => anchor_artifact s' = anchor_artifact s ∧
      ∃ x, artifact_view (rp_store s) !! id = Some x ∧ a_state x = Ready ∧ newer (anchor_artifact s) x = true ∧
      ∀ a, artifact_view (rp_store s) !! a_id a = Some a → a_state a = Ready → 0 < a_size_bytes a →
        newer (anchor_artifact s) a = true → newer (Some a) x = true → waits a s'
  | Err _ => anchor_artifact s' = anchor_artifact s
  end.
Proof.
  intros Hok Hpos Hrun.
  apply report_artifacts_spec in Hrun as (Hok' & Hav & ready & Hready & Hsorted & Hall & _ & Hwaits & Hcur); [|done].
  specialize (Hwaits Hpos).
  assert (StronglySorted artifact_le (selected (newer (anchor_artifact s)) ready)) as Hsel.
  { apply StronglySorted_filter, Sorted_StronglySorted; [|done]. intros x y z. unfold artifact_le. lia. }
  destruct r as [[|id]|err]; [..|unfold anchor_artifact; by rewrite Hcur, Hav].
  - intros a Ha Hst. specialize (Hall eq_refl a Ha Hst). split; [|intros Hnew; apply Hwaits; by apply selected_spec].
    apply not_true_is_false. intros Hnew.
    destruct (last (selected (newer (anchor_artifact s)) ready)) as [b|] eqn:Hlast.
    + assert (anchor_artifact s' = Some b) as Hb.
      { apply last_Some_elem_of, selected_spec in Hlast as [[Hb _]%Hready _].
        unfold anchor_artifact. by rewrite Hcur, lookup_insert_eq, Hav; simpl; rewrite parse_show. }
      rewrite Hb in Hnew. assert (a ∈ selected (newer (anchor_artifact s)) ready) as Hin.
      { apply selected_spec. split; [done|]. apply last_Some_elem_of, selected_spec in Hlast as [_ Hbn].
        destruct (anchor_artifact s) as [c|]; [|done]. destruct (newer (Some c) a) eqn:Hca; [done|].
        by rewrite (newer_older _ _ _ Hca Hbn) in Hnew. }
      apply (last_sorted artifact_le) with (x := a) in Hlast; [|done..]. by destruct Hlast as [<-|Hle]; [rewrite le_not_newer in Hnew by (right; split; [done|lia])|rewrite le_not_newer in Hnew].
    + apply last_None in Hlast. assert (anchor_artifact s' = anchor_artifact s) as Heq by (unfold anchor_artifact; by rewrite Hcur, Hav).
      rewrite Heq in Hnew. assert (a ∈ selected (newer (anchor_artifact s)) ready) as Hin by (by apply selected_spec).
      rewrite Hlast in Hin. by apply elem_of_nil in Hin.
  - split; [unfold anchor_artifact; by rewrite Hcur, Hav|]. destruct Hwaits as (before & x & after & Hs & <- & Hb).
    assert (x ∈ selected (newer (anchor_artifact s)) ready) as [Hx Hxn]%selected_spec
      by (rewrite Hs; apply elem_of_app; right; by left).
    pose proof (Hready _ Hx) as [Hxv Hxs]. exists x. split_and!; [done..|]. intros a Ha Hst Hsize Hnew Hlt. apply Hb; [|done].
    assert (a ∈ selected (newer (anchor_artifact s)) ready) as Hin by (apply selected_spec; split; [by apply Hall|done]).
    rewrite Hs in Hin, Hsel. apply elem_of_app in Hin as [|[->|Hin]%elem_of_cons]; [done|..].
    + rewrite le_not_newer in Hlt; [done|]. right. split; [done|lia].
    + apply StronglySorted_app_1_r in Hsel. inversion Hsel as [|? ? _ Hle]; subst. rewrite Forall_forall in Hle.
      rewrite le_not_newer in Hlt by (by apply Hle). done.
Qed.
End stream.
