(* ===== verification/SiteConnection.v ===== *)
(** * SiteConnection: the site's side of the link

    Models the connection half of [CenterSync] in [application/src/center_sync.rs]:
    the connect loop with its refusal counts, one connection with its flush, its
    acknowledgements and its stall timer.  Generic in the transport as the code is:
    a connection is what the transport and the timers make of it, event by event. *)
From S2P Require Import Prelude Text Operation CenterDomain ResourceSnapshot LinkMessages Database EventRepository SyncCursors Artifact ArtifactRepository ArtifactStore CenterOutbox CenterStores CenterIntake CenterSession Endpoints EndpointInventory SiteReports.
Local Open Scope Z_scope.

(** What [CenterTransport::connect] fails with, as [is_not_bound] and
    [is_identity_mismatch] tell it apart. *)
Inductive ConnectFailure := NotBoundRefusal | IdentityMismatchRefusal | OtherFailure.

(** The errors of a connection: the site's own, or one of the link. *)
Inductive LinkError (Ein Ear Eev Eob Ecu : Type) :=
| LinkSite (source : ReportError Ein Ear Eev Eob Ecu)
| LinkTransport
| LinkClosed
| ArtifactStreamStalled (artifact_id : ArtifactId)
| NotBound
| IdentityMismatch.
Arguments LinkSite {Ein Ear Eev Eob Ecu}.
Arguments LinkTransport {Ein Ear Eev Eob Ecu}.
Arguments LinkClosed {Ein Ear Eev Eob Ecu}.
Arguments ArtifactStreamStalled {Ein Ear Eev Eob Ecu}.
Arguments NotBound {Ein Ear Eev Eob Ecu}.
Arguments IdentityMismatch {Ein Ear Eev Eob Ecu}.

(** What [select!] wakes up with: the stop signal, the heartbeat, the stall timer, or
    what [receive] yields. *)
Inductive LinkEvent := Stop | HeartbeatTick | StallElapsed | Received (inbound : Inbound).

(** One connection over the site: the entries sent and not yet answered, the frames
    put on the wire, and the watermark of the peer. *)
Record Connection (Rep : Type) := mk_connection {
  cn_site : Rep;
  cn_sent : list (OutboxEntryId * Z);
  cn_wire : list Envelope;
  cn_peer_acked : Z;
}.
Arguments mk_connection {Rep}.
Arguments cn_site {Rep}.
Arguments cn_sent {Rep}.
Arguments cn_wire {Rep}.
Arguments cn_peer_acked {Rep}.

(** The limits of [CenterSyncOptions] the connect loop reads, with their defaults. *)
Record ConnectOptions := mk_connect_options {
  co_not_bound_abort_after : option Z;
  co_identity_mismatch_abort_after : option Z;
}.
Definition ConnectOptions_default : ConnectOptions := mk_connect_options (Some 3) (Some 3).

Section connection.
Context {St Sob Scu Ein Ear Eev Eob Ecu : Type}.
Context `{OutboxStore Sob Eob} `{EnvelopeJson}.
Abbreviation Rep := (Reporter St Sob Scu).
Abbreviation SiteError := (ReportError Ein Ear Eev Eob Ecu).
Abbreviation Error := (LinkError Ein Ear Eev Eob Ecu).
Abbreviation Conn := (Connection Rep).
Abbreviation Op := (M Conn Error).
(** The clock, which sends fail, the reports before the first flush and the handling
    of an offer. *)
Context (clock : nat → OffsetDateTime) (send_fails : nat → bool).
Context (instance_id : InstanceId) (options : ReportOptions) (connect_options : ConnectOptions).
Context (report_center_operations : M Rep SiteError ()).
Context (report_incremental_sync : M Rep SiteError ArtifactStreamOutcome).
Context (handle_offer : OperationOffer → Envelope → M Rep SiteError ()).
Implicit Types (c : Conn).

Definition put_cn_site c x : Conn := mk_connection x (cn_sent c) (cn_wire c) (cn_peer_acked c).
Definition put_cn_sent c x : Conn := mk_connection (cn_site c) x (cn_wire c) (cn_peer_acked c).
Definition put_cn_peer c x : Conn := mk_connection (cn_site c) (cn_sent c) (cn_wire c) x.

Definition at_site {A} (m : M Rep SiteError A) : Op A := zoom cn_site put_cn_site LinkSite m.
Definition cn_get {A} (f : Conn → A) : Op A := λ c, (c, Ok (f c)).
Definition cn_modify (f : Conn → Conn) : Op () := λ c, (f c, Ok ()).

(** [session.send]. *)
Definition cn_send (envelope : Envelope) : Op () := λ c,
  if send_fails (length (cn_wire c)) then (c, Err LinkTransport)
  else (mk_connection (cn_site c) (cn_sent c) (cn_wire c ++ [envelope]) (cn_peer_acked c), Ok ()).

(** The loop of [flush_outbox] over the listed entries; an entry with a payload that
    does not parse or a sequence that does not fit the wire is skipped. *)
Fixpoint site_flush_entries (pending : list OutboxEntry) : Op () :=
  match pending with
  | [] => mret ()
  | entry :: rest =>
      let! sent := cn_get cn_sent in
      if decide (oe_id entry ∈ sent.*1) then site_flush_entries rest
      else match envelope_from_json (oe_payload_json entry), u64_try_from (oe_sequence entry) with
      | Some envelope, Some wire_sequence =>
          let! peer_acked := cn_get cn_peer_acked in
          do! cn_send (mk_envelope wire_sequence peer_acked (en_message envelope)) in
          do! cn_modify (λ c, put_cn_sent c (cn_sent c ++ [(oe_id entry, oe_sequence entry)])) in
          site_flush_entries rest
      | _, _ => site_flush_entries rest
      end
  end.

(** [flush_outbox]. *)
Definition site_flush_outbox : Op () :=
  let! pending := at_site (in_outbox (list_pending instance_id (ro_flush_limit options))) in
  site_flush_entries pending.

(** The [while let] of [ack_outbox], over what was sent. *)
Fixpoint site_ack_sent (now : OffsetDateTime) (acked_sequence : Z) (sent : list (OutboxEntryId * Z)) : Op () :=
  match sent with
  | [] => mret ()
  | (entry_id, sequence) :: rest =>
      let! wire_sequence := mlift (ok_or (u64_try_from sequence) (LinkSite (RepSequenceOverflow sequence))) in
      if acked_sequence <? wire_sequence then mret ()
      else
        do! cn_modify (λ c, put_cn_sent c rest) in
        do! at_site (in_outbox (acknowledge entry_id now)) in
        site_ack_sent now acked_sequence rest
  end.

(** [ack_outbox]. *)
Definition site_ack_outbox (acked_sequence : Z) : Op () :=
  let! now := at_site (now_ clock) in
  let! sent := cn_get cn_sent in
  site_ack_sent now acked_sequence sent.

(** The arm of a received frame. *)
Definition site_receive (envelope : Envelope) : Op () :=
  do! cn_modify (λ c, put_cn_peer c (Z.max (cn_peer_acked c) (en_sequence envelope))) in
  match en_message envelope with
  | Some (MsgAck sequence) => do! site_ack_outbox sequence in site_flush_outbox
  | Some (MsgOffer offer) => do! at_site (handle_offer offer envelope) in site_flush_outbox
  | _ => mret ()
  end.

(** The heartbeat arm. *)
Definition site_heartbeat : Op () :=
  let! now := at_site (now_ clock) in
  let! peer_acked := cn_get cn_peer_acked in
  cn_send (mk_envelope 0 peer_acked (Some (MsgHeartbeat (unix_timestamp now)))).

(** The loop; [true] says it was stopped, [false] that nothing woke it up since.  The
    stall arm is only enabled when the stream is stalled. *)
Fixpoint site_loop (stalled_artifact : option ArtifactId) (events : list LinkEvent) : Op bool :=
  match events with
  | [] => mret false
  | Stop :: _ => mret true
  | HeartbeatTick :: events => do! site_heartbeat in site_loop stalled_artifact events
  | StallElapsed :: events =>
      match stalled_artifact with
      | Some artifact_id => mfail (ArtifactStreamStalled artifact_id)
      | None => site_loop stalled_artifact events
      end
  | Received (Frame envelope) :: events => do! site_receive envelope in site_loop stalled_artifact events
  | Received InboundClosed :: _ => mfail LinkClosed
  | Received InboundFailed :: _ => mfail LinkTransport
  end.

(** [connected_loop], on a fresh connection. *)
Definition site_connected_loop (events : list LinkEvent) : Op bool :=
  do! at_site report_center_operations in
  let! artifact_outcome := at_site report_incremental_sync in
  do! site_flush_outbox in
  site_loop
    (match artifact_outcome with StreamComplete => None | StreamStalled artifact_id => Some artifact_id end) events.

(** *** The connect loop *)

(** What becomes of one attempt: stopped while it was made, a session with what
    happens on it, or a failure; then whether the stop signal ends the wait for the
    next one. *)
Inductive Attempt :=
| Stopped
| Connected (events : list LinkEvent) (stopped_after : bool)
| Failed (failure : ConnectFailure) (stopped_after : bool).

(** The refusals counted so far, and whether the limit of one is reached. *)
Record Refusals := mk_refusals { rf_not_bound : Z; rf_identity_mismatch : Z }.
Definition count_refusal (f : ConnectFailure) (n : Refusals) : Refusals :=
  match f with
  | NotBoundRefusal => mk_refusals (rf_not_bound n + 1) 0
  | IdentityMismatchRefusal => mk_refusals 0 (rf_identity_mismatch n + 1)
  | OtherFailure => n
  end.
Definition reached (limit : option Z) (count : Z) : bool :=
  match limit with Some limit => limit <=? count | None => false end.

(** The verdict a failure ends the loop with. *)
Definition refusal_verdict (f : ConnectFailure) (n : Refusals) : option Error :=
  match f with
  | NotBoundRefusal => if reached (co_not_bound_abort_after connect_options) (rf_not_bound n) then Some NotBound else None
  | IdentityMismatchRefusal =>
      if reached (co_identity_mismatch_abort_after connect_options) (rf_identity_mismatch n)
      then Some IdentityMismatch else None
  | OtherFailure => None
  end.

(** [connect_loop]; [Ok true] says it was stopped, [Ok false] that it still runs. *)
Fixpoint connect_loop (n : Refusals) (attempts : list Attempt) : M Rep Error bool :=
  match attempts with
  | [] => mret false
  | Stopped :: _ => mret true
  | Connected events stopped_after :: attempts => λ s,
      match site_connected_loop events (mk_connection s [] [] 0) with
      | (c, Ok true) => (cn_site c, Ok true)
      | (c, Ok false) => (cn_site c, Ok false)
      | (c, Err _) =>
          if stopped_after then (cn_site c, Ok true) else connect_loop (mk_refusals 0 0) attempts (cn_site c)
      end
  | Failed failure stopped_after :: attempts =>
      let n := count_refusal failure n in
      match refusal_verdict failure n with
      | Some error => mfail error
      | None => if stopped_after then mret true else connect_loop n attempts
      end
  end.

(** [run]. *)
Definition run (attempts : list Attempt) : M Rep Error bool := connect_loop (mk_refusals 0 0) attempts.
End connection.
