(* ===== verification/LinkSafety.v ===== *)
(** * LinkSafety: nothing a site queues is lost on the way

    Both ends of the link: the connection of [SiteConnection] over the durable queue
    of the site, the consumer of [CenterIntake] behind it, and the frames in flight,
    lost whenever the connection breaks. *)
From S2P Require Import Prelude Text Operation CenterDomain ResourceSnapshot LinkMessages Database EventRepository SyncCursors Artifact ArtifactRepository ArtifactStore CenterOutbox CenterStores CenterDispatch DispatchSafety CenterRuns ProjectionRepository ProjectionSafety CenterSession CenterIntake IntakeContract IntakeSpec IntakeSafety Endpoints EndpointInventory SiteReports SiteReportsSpec ArtifactReports SiteConnection.
Local Open Scope Z_scope.

(** ** The site's connection *)

Section site.
Context {St Sob Scu Ein Ear Eev Eob Ecu : Type}.
Context `{OutboxStoreLaws Sob Eob} `{CenterCursorLaws Scu Ecu}.
Context (clock : nat → OffsetDateTime) (send_fails : nat → bool).
Context (instance_id : InstanceId) (options : ReportOptions).
Context (Hclock : ∀ n m, (n <= m)%nat → clock n <= clock m).
Abbreviation Rep := (Reporter St Sob Scu).
Abbreviation Error := (LinkError Ein Ear Eev Eob Ecu).
Abbreviation Conn := (Connection Rep).
Abbreviation Op := (M Conn Error).
Implicit Types (c : Conn).

Definition queue c : Entries := rv_entries (rep_view (cn_site c)).
Abbreviation pending c := (pends instance_id (queue c)).

(** An entry no flush sends. *)
Definition unsendable (e : OutboxEntry) : Prop := envelope_from_json (oe_payload_json e) = None ∨ oe_sequence e < 0.

(** A liveness frame: the only one that is not an entry of the queue, and the only
    one the center does not answer. *)
Definition is_beat (f : Envelope) : bool := match en_message f with Some (MsgHeartbeat _) => true | _ => false end.

(** The sequences sent, in order. *)
Definition flushed c : list Z := en_sequence <$> filter (λ f, is_beat f = false) (cn_wire c).

(** The entry is on the wire. *)
Definition on_wire c (e : OutboxEntry) : Prop :=
  ∃ envelope f, envelope_from_json (oe_payload_json e) = Some envelope ∧ f ∈ cn_wire c ∧
    en_sequence f = oe_sequence e ∧ en_message f = en_message envelope.

(** A connection between two events: what is pending up to the last sequence sent is
    in flight or never sent; what was sent is still pending. *)
Record linked c (hi : Z) : Prop := {
  li_ok : rep_ok clock (cn_site c);
  li_distinct : distinct (queue c);
  li_handled e : pending c e → oe_sequence e <= hi → oe_id e ∈ (cn_sent c).*1 ∨ unsendable e;
  li_top : hi = -1 ∨ ∃ k e, queue c !! k = Some e ∧ oe_instance_id e = instance_id ∧ hi <= oe_sequence e;
  li_order : StronglySorted Z.lt (flushed c);
  li_bound : Forall (λ q, q <= hi) (flushed c);
  li_sent p : p ∈ cn_sent c → ∃ e, oe_id e = p.1 ∧ oe_sequence e = p.2 ∧ 0 <= p.2 ∧ pending c e ∧ on_wire c e;
  li_nodup : NoDup (cn_sent c).*1;
}.

Lemma fresh_linked s : rep_ok clock s → distinct (rv_entries (rep_view s)) → linked (mk_connection s [] [] 0) (-1).
Proof.
  intros Hok Hd. split; [done|done|..].
  - intros e _ Hle. right. right. lia.
  - by left.
  - constructor.
  - constructor.
  - intros p Hp. by apply elem_of_nil in Hp.
  - constructor.
Qed.

Lemma at_site_inv {A} (m : M Rep (ReportError Ein Ear Eev Eob Ecu) A) c c' (r : result A Error) :
  at_site m c = (c', r) → ∃ s r0, m (cn_site c) = (s, r0) ∧ c' = put_cn_site c s ∧ r = map_err LinkSite r0.
Proof. apply zoom_inv. Qed.

(** The site goes on: what joins the queue joins behind. *)
Lemma linked_evolves c hi s :
  linked c hi → rep_ok clock s → queue_evolves (queue c) (rv_entries (rep_view s)) →
  (∀ e, pending c e → pends instance_id (rv_entries (rep_view s)) e ∨ cn_sent c = []) →
  linked (put_cn_site c s) hi.
Proof.
  intros [_ Hd Hhan Htop Hord Hb Hsent Hnd] Hok [Hp Ht Hdist] Hkeep.
  split; [done|by apply Hdist| | |done|done| |done].
  - intros e [He [Hi Hst]] Hle. destruct (Hp _ _ He Hst) as [He0|Hlast]; [by apply Hhan|].
    destruct Htop as [->|(k0 & e0 & He0 & Hi0 & Hle0)]; [right; right; lia|].
    specialize (Hlast _ _ He0). rewrite Hi0, Hi in Hlast. specialize (Hlast eq_refl). lia.
  - destruct Htop as [->|(k0 & e0 & He0 & Hi0 & Hle0)]; [by left|]. right.
    destruct (Ht _ _ He0) as (k & e & He & Hi & Hle). exists k, e. split; [done|]. split; [congruence|lia].
  - intros p Hin. destruct (Hsent p Hin) as (e & Hid & Hs & H0' & He & Hw). exists e. do 3 (split; [done|]).
    split; [|done]. destruct (Hkeep e He) as [|Hnil]; [done|]. simpl in Hin. rewrite Hnil in Hin. by apply elem_of_nil in Hin.
Qed.

(** *** The flush *)

(** The rows still to be flushed. *)
Record flushes c (l : list OutboxEntry) : Prop := {
  fs_rows e : e ∈ l → pending c e;
  fs_sorted : StronglySorted entry_le l;
  fs_complete e : pending c e → e ∈ l ∨ oe_id e ∈ (cn_sent c).*1 ∨ unsendable e ∨ ∀ f, f ∈ l → entry_le f e;
}.

Lemma flushes_skip c e l :
  flushes c (e :: l) → oe_id e ∈ (cn_sent c).*1 ∨ unsendable e → flushes c l.
Proof.
  intros [Hr Hs Hc] Hh. apply StronglySorted_inv in Hs as [Hs _]. split; [|done|].
  - intros f Hf. apply Hr. by right.
  - intros f Hf. destruct (Hc f Hf) as [[->|Hin]%elem_of_cons|[Hin|[Hin|Hle]]]; [|by left|by right; left|by do 2 right; left|].
    + destruct Hh; [by right; left|by do 2 right; left].
    + do 3 right. intros g Hg. apply Hle. by right.
Qed.

Lemma linked_unique c hi e f :
  linked c hi → pending c e → pending c f → oe_sequence e = oe_sequence f → e = f.
Proof.
  intros Hc [He [Hie _]] [Hf [Hif _]] Hs. assert (oe_id e = oe_id f) as Hid; [|rewrite Hid in He; congruence].
  eapply (li_distinct _ _ Hc); [exact He|exact Hf|congruence|done].
Qed.

(** A frame after the last one keeps the order. *)
Lemma order_snoc l hi q : StronglySorted Z.lt l → Forall (λ p, p <= hi) l → hi < q →
  StronglySorted Z.lt (l ++ [q]) ∧ Forall (λ p, p <= q) (l ++ [q]).
Proof.
  intros Hs Hb Hq. rewrite Forall_forall in Hb. split.
  - apply StronglySorted_app. split; [|split; [done|by repeat constructor]].
    intros x y Hx ->%list_elem_of_singleton. specialize (Hb x Hx). lia.
  - apply Forall_app. split; [|by constructor]. apply Forall_forall. intros x Hx. specialize (Hb x Hx). simpl in Hb. lia.
Qed.

Lemma flushed_snoc c f sent peer s :
  flushed (mk_connection s sent (cn_wire c ++ [f]) peer) = flushed c ++ (if is_beat f then [] else [en_sequence f]).
Proof. unfold flushed. simpl. rewrite filter_app, fmap_app. f_equal. rewrite filter_cons, filter_nil. by destruct (is_beat f). Qed.

Lemma linked_send c hi e l envelope f :
  linked c hi → flushes c (e :: l) → oe_id e ∉ (cn_sent c).*1 →
  envelope_from_json (oe_payload_json e) = Some envelope → 0 <= oe_sequence e →
  f = mk_envelope (oe_sequence e) (cn_peer_acked c) (en_message envelope) →
  let c' := mk_connection (cn_site c) (cn_sent c ++ [(oe_id e, oe_sequence e)]) (cn_wire c ++ [f]) (cn_peer_acked c) in
  linked c' (oe_sequence e) ∧ flushes c' l.
Proof.
  intros Hc Hl Hnew Hpay Hseq -> c'. pose proof (fs_rows _ _ Hl e ltac:(by left)) as He.
  assert (hi < oe_sequence e) as Hhi.
  { destruct (Z.lt_ge_cases hi (oe_sequence e)) as [|Hle]; [done|].
    destruct (li_handled _ _ Hc e He Hle) as [|[Hbad|Hbad]]; [done|congruence|lia]. }
  assert (∀ p, p ∈ (cn_sent c).*1 → p ∈ (cn_sent c').*1) as Hold.
  { intros p Hp. simpl. rewrite fmap_app. apply elem_of_app. by left. }
  assert (∀ g, on_wire c g → on_wire c' g) as Hwire.
  { intros g (env & f & Hp & Hin & Hs & Hm). exists env, f. split; [done|]. split; [apply elem_of_app; by left|done]. }
  split.
  - split; [apply Hc|apply Hc| | | | | |].
    + intros g Hg Hle. assert (entry_le e g → oe_id g ∈ (cn_sent c').*1) as Hbehind.
      { intros Hle'. unfold entry_le in Hle'. assert (e = g) as <- by (eapply linked_unique; [done..|lia]).
        simpl. rewrite fmap_app. apply elem_of_app. right. by left. }
      destruct (fs_complete _ _ Hl g Hg) as [[->|Hin]%elem_of_cons|[Hin|[Hin|Hall]]].
      * left. apply Hbehind. unfold entry_le. lia.
      * left. apply Hbehind. pose proof (fs_sorted _ _ Hl) as [_ Hfa]%StronglySorted_inv.
        rewrite Forall_forall in Hfa. by apply Hfa.
      * left. by apply Hold.
      * by right.
      * left. apply Hbehind, Hall. by left.
    + right. destruct He as [He [Hi _]]. exists (oe_id e), e. split; [done|]. split; [done|lia].
    + subst c'. rewrite flushed_snoc. destruct (is_beat _); [rewrite app_nil_r; apply Hc|].
      apply (order_snoc _ hi); [apply Hc|apply Hc|done].
    + subst c'. rewrite flushed_snoc. destruct (is_beat _).
      * rewrite app_nil_r. eapply Forall_impl; [apply Hc|]. simpl. lia.
      * apply (order_snoc _ hi); [apply Hc|apply Hc|done].
    + intros p [Hin| ->%list_elem_of_singleton]%elem_of_app.
      * destruct (li_sent _ _ Hc p Hin) as (g & Hid & Hs & H0' & Hg & Hw). exists g. do 4 (split; [done|]). by apply Hwire.
      * exists e. do 4 (split; [done|]). exists envelope. eexists. split; [done|]. split; [apply elem_of_app; right; by left|done].
    + simpl. rewrite fmap_app. apply NoDup_app. split; [apply Hc|]. split; [|apply NoDup_singleton].
      intros x Hx ->%list_elem_of_singleton. done.
  - destruct Hl as [Hr Hs Hcomp]. apply StronglySorted_inv in Hs as [Hs _]. split; [|done|].
    + intros g Hg. apply (Hr g). by right.
    + intros g Hg. destruct (Hcomp g Hg) as [[->|Hin]%elem_of_cons|[Hin|[Hin|Hle]]]; [| by left| | by do 2 right; left|].
      * right. left. simpl. rewrite fmap_app. apply elem_of_app. right. by left.
      * right. left. by apply Hold.
      * do 3 right. intros x Hx. apply Hle. by right.
Qed.

(** What a flush sends are entries of the queue, in order; it leaves the site. *)
Lemma flush_entries_linked l c hi c' (r : result () Error) :
  linked c hi → flushes c l → site_flush_entries send_fails l c = (c', r) →
  cn_site c' = cn_site c ∧ cn_wire c `prefix_of` cn_wire c' ∧ (r = Ok () → ∃ hi', linked c' hi').
Proof.
  revert c hi. induction l as [|e l IH]; intros c hi Hc Hl Hrun; cbn [site_flush_entries] in Hrun.
  { unfold mret in Hrun. injection Hrun as <- <-. split; [done|]. split; [done|]. by exists hi. }
  unfold mbind at 1, cn_get in Hrun. destruct (decide (oe_id e ∈ (cn_sent c).*1)) as [Hin|Hnew].
  { eapply IH; [done| |done]. eapply flushes_skip; [done|by left]. }
  destruct (envelope_from_json (oe_payload_json e)) as [envelope|] eqn:Hpay.
  2: { eapply IH; [done| |done]. eapply flushes_skip; [done|by right; left]. }
  destruct (u64_try_from (oe_sequence e)) as [q|] eqn:Hq.
  2: { apply u64_try_from_None in Hq. eapply IH; [done| |done]. eapply flushes_skip; [done|right; right; lia]. }
  unfold u64_try_from in Hq. destruct (decide (0 ≤ oe_sequence e)) as [Hseq|]; [|done]. injection Hq as <-.
  unfold mbind at 1, cn_get in Hrun. unfold mbind at 1, cn_send in Hrun. destruct (send_fails _).
  { injection Hrun as <- <-. done. }
  unfold mbind at 1, cn_modify in Hrun.
  destruct (linked_send _ _ _ _ _ _ Hc Hl Hnew Hpay Hseq eq_refl) as [Hc' Hl'].
  eapply IH in Hrun as (Hs & Hp & Hr); [|exact Hc'|exact Hl']. split; [exact Hs|]. split; [|done].
  etransitivity; [|exact Hp]. by eexists.
Qed.

(** *** The calls of the connection *)

Lemma linked_same c hi s :
  linked c hi → rep_ok clock s → rep_view s = rep_view (cn_site c) → linked (put_cn_site c s) hi.
Proof.
  intros Hc Hok Hv. apply (linked_evolves _ _ _ Hc Hok); rewrite Hv; [reflexivity|]. intros e He. by left.
Qed.

Lemma listed_flushes c hi n : linked c hi → flushes c (take n (pending_of instance_id (queue c))).
Proof.
  intros Hc. pose proof (rep_keyed clock _ (li_ok _ _ Hc)) as Hk. pose proof (pending_of_sorted instance_id (queue c)) as Hs.
  rewrite <- (take_drop n (pending_of instance_id (queue c))) in Hs. apply StronglySorted_app in Hs as (Hle & Hs & _).
  split; [|done|].
  - intros e Hin. apply (pending_of_spec instance_id _ e Hk). apply elem_of_take in Hin as (i & Hi & _).
    by apply list_elem_of_lookup_2 in Hi.
  - intros e Hpend. assert (e ∈ pending_of instance_id (queue c)) as He by (by apply pending_of_spec).
    rewrite <- (take_drop n (pending_of instance_id (queue c))) in He. apply elem_of_app in He as [He|He]; [by left|].
    do 3 right. intros f Hf. by apply Hle.
Qed.

(** A flush changes the wire and what was sent, and nothing at the site. *)
Lemma flush_linked c hi c' (r : result () Error) :
  linked c hi → site_flush_outbox send_fails instance_id options c = (c', r) →
  rep_ok clock (cn_site c') ∧ rep_view (cn_site c') = rep_view (cn_site c) ∧ cn_wire c `prefix_of` cn_wire c' ∧
  (r = Ok () → ∃ hi', linked c' hi').
Proof.
  intros Hc Hrun. unfold site_flush_outbox in Hrun.
  apply mbind_inv in Hrun as [(l & c1 & Hl & Hrun)|(x & Hl & ->)];
    apply at_site_inv in Hl as (s & r0 & Hl & -> & Hr);
    (apply (list_pending_spec clock) in Hl as (Hok & Hv & Hl); [|apply Hc]); [|done].
  destruct r0 as [l0|]; [|done]. injection Hr as <-. subst l.
  pose proof (linked_same _ _ _ Hc Hok Hv) as Hc1.
  eapply flush_entries_linked in Hrun as (Hs & Hp & Hr); [|exact Hc1|].
  - rewrite Hs. done.
  - change (rv_entries (rep_view (cn_site c))) with (queue c).
    assert (queue c = queue (put_cn_site c s)) as -> by (unfold queue; cbn [put_cn_site cn_site]; by rewrite Hv). by eapply listed_flushes.
Qed.

Lemma acknowledge_evolves id now (s s' : Rep) (r : result () (ReportError Ein Ear Eev Eob Ecu)) :
  rep_ok clock s → older now (rv_entries (rep_view s)) → in_outbox (acknowledge id now) s = (s', r) →
  queue_evolves (rv_entries (rep_view s)) (rv_entries (rep_view s')).
Proof.
  intros (Ho & _ & _) Hold Hrun. apply zoom_inv in Hrun as (t & r0 & Hrun & -> & ->).
  apply law_acknowledge in Hrun as [_ Hr]; [|done|by intros e He; eapply Hold]. simpl. destruct r0.
  - by eapply shrinks_evolves, acknowledged_shrinks.
  - by rewrite Hr.
Qed.

(** What an acknowledgement retires was sent on this connection, no later than what
    it acknowledges. *)
Definition retires_upto (acked : Z) c c' : Prop :=
  rep_ok clock (cn_site c') ∧ queue_evolves (queue c) (queue c') ∧ cn_wire c' = cn_wire c ∧
  ∀ e, pending c e → pending c' e ∨ (on_wire c e ∧ 0 <= oe_sequence e <= acked).

Lemma linked_pop c hi p rest :
  linked c hi → cn_sent c = p :: rest → ∀ s, rep_ok clock s → queue_evolves (queue c) (rv_entries (rep_view s)) →
  leaves instance_id (λ e, oe_id e = p.1) (queue c) (rv_entries (rep_view s)) →
  linked (mk_connection s rest (cn_wire c) (cn_peer_acked c)) hi.
Proof.
  intros [_ Hd Hhan Htop Hord Hb Hsent Hnd] Hc s Hok [Hp Ht Hdist] Hleft. rewrite Hc in Hnd.
  apply NoDup_cons in Hnd as [Hnew Hnd]. split; [done|by apply Hdist| | |done|done| |done].
  - intros e [He Hne]%Hleft Hle. destruct (Hhan e He Hle) as [Hin|]; [|by right]. rewrite Hc in Hin.
    apply elem_of_cons in Hin as [Heq|Hin]; [done|by left].
  - destruct Htop as [->|(k0 & e0 & He0 & Hi0 & Hle0)]; [by left|]. right.
    destruct (Ht _ _ He0) as (k & e & He & Hi & Hle). exists k, e. split; [done|]. split; [congruence|lia].
  - intros q Hin. simpl in Hin. destruct (Hsent q) as (e & Hid & Hs & H0' & He & Hw); [rewrite Hc; by right|].
    exists e. do 3 (split; [done|]). split; [|done]. apply Hleft. split; [done|]. intros Heq. apply Hnew.
    apply list_elem_of_fmap. exists q. split; [congruence|done].
Qed.

Lemma retires_upto_refl acked c : rep_ok clock (cn_site c) → retires_upto acked c c.
Proof. intros Hok. split; [done|]. split; [done|]. split; [done|]. intros e He. by left. Qed.

Lemma ack_sent_linked now acked sent c hi c' (r : result () Error) :
  cn_sent c = sent → linked c hi → older now (queue c) → site_ack_sent now acked sent c = (c', r) →
  retires_upto acked c c' ∧ (r = Ok () → linked c' hi).
Proof.
  revert c. induction sent as [|[id sequence] rest IH]; intros c Hsent Hc Hold Hrun; cbn [site_ack_sent] in Hrun.
  { unfold mret in Hrun. injection Hrun as <- <-. split; [by apply retires_upto_refl, Hc|done]. }
  destruct (li_sent _ _ Hc (id, sequence)) as (e & Hid & Hs & Hseq & He & Hw); [rewrite Hsent; by left|]. simpl in *.
  unfold mbind at 1, mlift, u64_try_from in Hrun. rewrite decide_True in Hrun by done. simpl in Hrun.
  destruct (Z.ltb_spec acked sequence) as [|Hacked].
  { unfold mret in Hrun. injection Hrun as <- <-. split; [by apply retires_upto_refl, Hc|done]. }
  unfold mbind at 1, cn_modify in Hrun.
  apply mbind_inv in Hrun as [([] & c1 & Hack & Hrun)|(x & Hack & ->)];
    apply at_site_inv in Hack as (s & r0 & Hack & -> & Hr); simpl in Hack;
    pose proof (acknowledge_evolves _ _ _ _ _ (li_ok _ _ Hc) Hold Hack) as Hev;
    (apply (acknowledge_spec clock instance_id) in Hack as (Hok & v & Hv & Hold1 & Hr1); [|apply Hc|done]).
  - destruct r0 as [[]|]; [|done]. assert (rv_entries (rep_view s) = v) as Hqueue by (by rewrite Hv).
    set (c1 := put_cn_site (put_cn_sent c rest) s) in Hrun.
    assert (queue c1 = v) as Hq1 by done.
    assert (linked c1 hi) as Hc1.
    { apply (linked_pop c hi (id, sequence) rest Hc Hsent s Hok Hev). by rewrite Hqueue. }
    apply IH in Hrun as [(Hok' & Hev' & Hwire & Hpend) Hlink]; [|done|done|by rewrite Hq1].
    split; [|done]. split; [done|]. split; [by etrans|]. split; [done|]. intros f Hf.
    destruct (decide (oe_id f = id)) as [Heq|Hne].
    + right. assert (f = e) as -> by (destruct Hf as [Hf _], He as [He _]; congruence). split; [done|lia].
    + destruct (Hpend f) as [|[Hwf Hle]]; [rewrite Hq1; by apply Hr1|by left|by right].
  - split; [|done]. split; [done|]. split; [done|]. split; [done|]. intros f Hf. left. unfold queue. simpl.
    destruct r0; [done|]. destruct Hr1 as [-> _]. change (pends instance_id (rv_entries (rep_view s)) f). by rewrite Hv.
Qed.

Lemma queued_evolves v v' ms es : queued instance_id v v' ms es → queue_evolves v v'.
Proof.
  induction 1 as [|v v1 v2 id m at_ e ms es He _ IH]; [reflexivity|]. etrans; [by eapply enqueued_evolves|exact IH].
Qed.

(** One event of the connection: what leaves the queue was acknowledged. *)
Definition event_effect (acked : option Z) c c' : Prop :=
  rep_ok clock (cn_site c') ∧ queue_evolves (queue c) (queue c') ∧ cn_wire c `prefix_of` cn_wire c' ∧
  ∀ e, pending c e → pending c' e ∨ ∃ q, acked = Some q ∧ on_wire c e ∧ 0 <= oe_sequence e <= q.

Lemma event_quiet acked c c' :
  rep_ok clock (cn_site c') → rep_view (cn_site c') = rep_view (cn_site c) → cn_wire c `prefix_of` cn_wire c' →
  event_effect acked c c'.
Proof.
  intros Hok Hv Hw. split; [done|]. unfold queue. rewrite Hv. split; [reflexivity|]. split; [done|]. intros e He. by left.
Qed.

Lemma linked_peer c hi x : linked c hi → linked (put_cn_peer c x) hi.
Proof. by intros []; split. Qed.

Lemma heartbeat_linked c hi c' (r : result () Error) :
  linked c hi → site_heartbeat clock send_fails c = (c', r) →
  event_effect None c c' ∧ (r = Ok () → linked c' hi).
Proof.
  intros Hc Hrun. unfold site_heartbeat in Hrun.
  apply mbind_inv in Hrun as [(now & c1 & Hnow & Hrun)|(x & Hnow & ->)];
    apply at_site_inv in Hnow as (s & r0 & Hnow & -> & Hr); (apply now_quiet in Hnow as (Hok & Hv & Hr0); [|done|apply Hc]).
  2: { by destruct r0. }
  pose proof (linked_same _ _ _ Hc Hok Hv) as Hc1. unfold mbind, cn_get, cn_send in Hrun.
  destruct (send_fails _); injection Hrun as <- <-.
  - split; [by apply event_quiet|done].
  - split; [apply event_quiet; [done|done|by eexists]|]. intros _. destruct Hc1 as [H1' H2' H3' H4' H5' H6' H7' H8'].
    split; [done|done|done|done|..|done].
    + by rewrite (flushed_snoc (put_cn_site c s)), app_nil_r.
    + by rewrite (flushed_snoc (put_cn_site c s)), app_nil_r.
    + intros p Hp. destruct (H7' p Hp) as (e & ? & ? & ? & ? & env & f & ? & Hin & ?). exists e. do 4 (split; [done|]).
      exists env, f. split; [done|]. split; [apply elem_of_app; by left|done].
Qed.

Lemma ack_outbox_linked acked c hi c' (r : result () Error) :
  linked c hi → site_ack_outbox clock acked c = (c', r) → event_effect (Some acked) c c' ∧ (r = Ok () → linked c' hi).
Proof.
  intros Hc Hrun. unfold site_ack_outbox in Hrun.
  apply mbind_inv in Hrun as [(now & c1 & Hnow & Hrun)|(x & Hnow & ->)];
    apply at_site_inv in Hnow as (s & r0 & Hnow & -> & Hr).
  2: { injection Hnow as _ <-. done. }
  destruct r0 as [t|]; [|done]. injection Hr as <-. apply (now_older clock Hclock) in Hnow as (Hok & Hv & Hold); [|apply Hc].
  pose proof (linked_same _ _ _ Hc Hok Hv) as Hc1. unfold mbind, cn_get in Hrun.
  eapply ack_sent_linked in Hrun as [(Hok' & Hev & Hw & Hp) Hl]; [|done|exact Hc1|exact Hold]. split; [|done].
  assert (queue (put_cn_site c s) = queue c) as Hq by (unfold queue; cbn [put_cn_site cn_site]; by rewrite Hv).
  rewrite Hq in Hev, Hp. split; [done|]. split; [done|]. split; [by rewrite Hw|]. intros e He.
  destruct (Hp e He) as [|[? ?]]; [by left|]. right. by exists acked.
Qed.

(** An offer is answered through the queue. *)
Context (handle_offer : OperationOffer → Envelope → M Rep (ReportError Ein Ear Eev Eob Ecu) ()).
Context (Hoffer : ∀ offer envelope s s' r, rep_ok clock s → handle_offer offer envelope s = (s', r) →
  rep_ok clock s' ∧ ∃ v ms es, queued instance_id (rv_entries (rep_view s)) v ms es ∧
    rep_view s' = with_queue (rep_view s) v).

Definition acked_by (f : Envelope) : option Z := match en_message f with Some (MsgAck q) => Some q | _ => None end.

Lemma event_flush acked c c1 hi c' (r : result () Error) :
  event_effect acked c c1 → linked c1 hi → site_flush_outbox send_fails instance_id options c1 = (c', r) →
  event_effect acked c c' ∧ (r = Ok () → ∃ hi', linked c' hi').
Proof.
  intros (Hok & Hev & Hw & Hp) Hc1 Hrun. apply (flush_linked _ hi) in Hrun as (Hok' & Hv & Hw' & Hl); [|done]. split; [|done].
  split; [done|]. unfold queue. rewrite Hv. split; [done|]. split; [by etrans|done].
Qed.

Lemma receive_linked f c hi c' (r : result () Error) :
  linked c hi → site_receive clock send_fails instance_id options handle_offer f c = (c', r) →
  event_effect (acked_by f) c c' ∧ (r = Ok () → ∃ hi', linked c' hi').
Proof.
  intros Hc Hrun. unfold site_receive in Hrun. unfold mbind at 1, cn_modify in Hrun.
  set (c0 := put_cn_peer c _) in Hrun. assert (linked c0 hi) as Hc0 by (by apply linked_peer).
  assert (∀ acked c1, event_effect acked c0 c1 → event_effect acked c c1) as Heff by done. clearbody c0.
  unfold acked_by. destruct (en_message f) as [m|]; [|unfold mret in Hrun; injection Hrun as <- <-].
  2: { split; [apply Heff, event_quiet; [apply Hc0|done|done]|by exists hi]. }
  destruct m; try (unfold mret in Hrun; injection Hrun as <- <-;
    split; [apply Heff, event_quiet; [apply Hc0|done|done]|by exists hi]).
  - apply mbind_inv in Hrun as [([] & c1 & Ho & Hrun)|(x & Ho & ->)];
      apply at_site_inv in Ho as (s & r0 & Ho & -> & Hr); (apply Hoffer in Ho as (Hok & v & ms & es & Hq & Hv); [|apply Hc0]).
    all: assert (rv_entries (rep_view s) = v) as Hqueue by (by rewrite Hv).
    all: pose proof (queued_evolves _ _ _ _ Hq) as Hev; apply queued_pends in Hq as [_ Hpend].
    all: assert (event_effect None c0 (put_cn_site c0 s)) as Hsite.
    1, 3: split; [done|]; unfold queue; cbn [put_cn_site cn_site cn_wire]; rewrite Hqueue; split; [done|]; split; [done|]; intros e He; left; apply Hpend; by left.
    + eapply event_flush in Hrun as [He Hl]; [|exact Hsite|].
      * split; [by apply Heff|done].
      * apply linked_evolves; [exact Hc0|done|by rewrite Hqueue|]. intros e He. left. rewrite Hqueue. apply Hpend. by left.
    + split; [by apply Heff|done].
  - apply mbind_inv in Hrun as [([] & c1 & Ho & Hrun)|(x & Ho & ->)];
      (apply (ack_outbox_linked _ _ hi) in Ho as [He Hl]; [|done]).
    + eapply event_flush in Hrun as [He' Hl']; [|exact He|by apply Hl]. split; [by apply Heff|done].
    + split; [by apply Heff|done].
Qed.
End site.

(** ** Both ends *)

(** The link: the site's connection, whether it is up, the frames the center took
    from it, what the center keeps, and the frames the center sent with how many the
    site took. *)
Record Link (Rep Intk : Type) := mk_link {
  ln_conn : Connection Rep;
  ln_open : bool;
  ln_taken : nat;
  ln_intake : Intk;
  ln_down : list Envelope;
  ln_heard : nat;
}.
Arguments mk_link {Rep Intk}.
Arguments ln_conn {Rep Intk}.
Arguments ln_open {Rep Intk}.
Arguments ln_taken {Rep Intk}.
Arguments ln_intake {Rep Intk}.
Arguments ln_down {Rep Intk}.
Arguments ln_heard {Rep Intk}.

Section link.
Context {St Sob Scu Ein Ear Eev Eob Ecu Stc Scc Epr Eac Ecc : Type}.
Context `{OutboxStoreLaws Sob Eob} `{!CenterCursor Scu Ecu} `{!CenterCursorLaws Scu Ecu}.
Context `{ContentStoreLaws Stc Epr Eac} `{!CenterCursor Scc Ecc} `{!CenterCursorLaws Scc Ecc} `{!TimestampTextLaws}.
Context (clock : nat → OffsetDateTime) (send_fails : nat → bool).
Context (instance_id : InstanceId) (options : ReportOptions).
Context (Hclock : ∀ n m, (n <= m)%nat → clock n <= clock m).
Context (from_unix_timestamp : Z → option OffsetDateTime) (sha256 : list N → list N).
Abbreviation Rep := (Reporter St Sob Scu).
Abbreviation SiteError := (ReportError Ein Ear Eev Eob Ecu).
Abbreviation Error := (LinkError Ein Ear Eev Eob Ecu).
Abbreviation CenterError := (CenterProjectionError Epr Eac Ecc).
Abbreviation Ln := (Link Rep (Intake Stc Scc)).
Context (handle_offer : OperationOffer → Envelope → M Rep SiteError ()).
Context (Hoffer : ∀ offer envelope s s' r, rep_ok clock s → handle_offer offer envelope s = (s', r) →
  rep_ok clock s' ∧ ∃ v ms es, queued instance_id (rv_entries (rep_view s)) v ms es ∧
    rep_view s' = with_queue (rep_view s) v).
Implicit Types (L : Ln).

Abbreviation pending_at L := (pends instance_id (queue (ln_conn L))).

Definition after_event L (c : Connection Rep) (r : result () Error) (heard : nat) : Ln :=
  mk_link c (is_ok r) (ln_taken L) (ln_intake L) (ln_down L) heard.

(** The answer to a frame: its acknowledgement, unless the send fails. *)
Definition answer_of (q : Z) (answer : list Envelope) : Prop :=
  answer = [] ∨ ∃ peer, answer = [mk_envelope 0 peer (Some (MsgAck q))].

(** What happens on the link, one event at a time, in any order. *)
Inductive link_step L : Ln → Prop :=
| link_flush c (r : result () Error) :
    ln_open L = true → site_flush_outbox send_fails instance_id options (ln_conn L) = (c, r) →
    link_step L (after_event L c r (ln_heard L))
| link_beat c (r : result () Error) :
    ln_open L = true → site_heartbeat clock send_fails (ln_conn L) = (c, r) →
    link_step L (after_event L c r (ln_heard L))
| link_hear f c (r : result () Error) :
    ln_open L = true → ln_down L !! ln_heard L = Some f →
    site_receive clock send_fails instance_id options handle_offer f (ln_conn L) = (c, r) →
    link_step L (after_event L c r (S (ln_heard L)))
| link_take f message io ids sender now x (r : result () CenterError) answer :
    ln_open L = true → cn_wire (ln_conn L) !! ln_taken L = Some f → en_message f = Some (MsgContent message) →
    0 <= en_sequence f <= U64_MAX → wire_ok message → rs_instance_id sender = instance_id →
    intake_frame from_unix_timestamp sha256 io ids sender (en_sequence f) (MsgContent message) now (ln_intake L) = (x, r) →
    answer_of (en_sequence f) answer →
    link_step L
      (match r with
       | Ok _ => mk_link (ln_conn L) true (S (ln_taken L)) x (ln_down L ++ answer) (ln_heard L)
       | Err _ => mk_link (ln_conn L) false (ln_taken L) x (ln_down L) (ln_heard L)
       end)
| link_take_other f answer :
    ln_open L = true → cn_wire (ln_conn L) !! ln_taken L = Some f →
    (∀ message, en_message f ≠ Some (MsgContent message)) →
    (answer = [] ∨ is_beat f = false ∧ answer_of (en_sequence f) answer) →
    link_step L (mk_link (ln_conn L) true (S (ln_taken L)) (ln_intake L) (ln_down L ++ answer) (ln_heard L))
| link_center x sent :
    rtc (any_frame from_unix_timestamp sha256) (ln_intake L) x →
    Forall (λ f, ∀ q, en_message f ≠ Some (MsgAck q)) sent →
    link_step L (mk_link (ln_conn L) (ln_open L) (ln_taken L) x (ln_down L ++ sent) (ln_heard L))
| link_site s :
    rep_ok clock s → queue_evolves (queue (ln_conn L)) (rv_entries (rep_view s)) →
    (∀ e, pending_at L e → pends instance_id (rv_entries (rep_view s)) e ∨
       cn_sent (ln_conn L) = [] ∧ ∃ a, carries_b a e) →
    link_step L (mk_link (put_cn_site (ln_conn L) s) (ln_open L) (ln_taken L) (ln_intake L) (ln_down L) (ln_heard L))
| link_break :
    link_step L (mk_link (ln_conn L) false (ln_taken L) (ln_intake L) (ln_down L) (ln_heard L))
| link_connect :
    link_step L (mk_link (mk_connection (cn_site (ln_conn L)) [] [] 0) true O (ln_intake L) [] O).

Record link_ok L : Prop := {
  lo_intake : intake_ok (ln_intake L);
  lo_site : rep_ok clock (cn_site (ln_conn L));
  lo_distinct : distinct (queue (ln_conn L));
  lo_conn : ln_open L = true → ∃ hi, linked clock instance_id (ln_conn L) hi;
  lo_bound : (ln_taken L <= length (cn_wire (ln_conn L)))%nat;
  lo_taken i f m : (i < ln_taken L)%nat → cn_wire (ln_conn L) !! i = Some f → en_message f = Some (MsgContent m) →
    covered (intake_view (ln_intake L)) instance_id (stream_of m) (en_sequence f);
  lo_down g q : g ∈ ln_down L → en_message g = Some (MsgAck q) →
    ∃ i f, (i < ln_taken L)%nat ∧ cn_wire (ln_conn L) !! i = Some f ∧ is_beat f = false ∧ en_sequence f = q;
}.

(** The entry is reported: the cursor of its stream at the center covers it. *)
Definition reported_at L (e : OutboxEntry) : Prop :=
  ∃ envelope m, envelope_from_json (oe_payload_json e) = Some envelope ∧ en_message envelope = Some (MsgContent m) ∧
    covered (intake_view (ln_intake L)) instance_id (stream_of m) (oe_sequence e).

Definition carries_content (e : OutboxEntry) : Prop :=
  ∃ envelope m, envelope_from_json (oe_payload_json e) = Some envelope ∧ en_message envelope = Some (MsgContent m).

(** Frames of the wire are in order. *)
Lemma wire_order (c : Connection Rep) hi i j f g :
  linked clock instance_id c hi → cn_wire c !! i = Some f → cn_wire c !! j = Some g → (i < j)%nat →
  is_beat f = false → is_beat g = false → en_sequence f < en_sequence g.
Proof.
  intros Hc Hf Hg Hij Hbf Hbg. pose proof (li_order _ _ _ _ Hc) as Hs. unfold flushed in Hs.
  rewrite <- (take_drop (S i) (cn_wire c)) in Hs. rewrite filter_app, fmap_app in Hs.
  apply StronglySorted_app in Hs as (Hlt & _ & _). apply Hlt; apply list_elem_of_fmap.
  - exists f. split; [done|]. apply list_elem_of_filter. split; [done|]. apply list_elem_of_lookup_2 with i.
    rewrite lookup_take_lt by lia. done.
  - exists g. split; [done|]. apply list_elem_of_filter. split; [done|]. apply list_elem_of_lookup_2 with (j - S i)%nat.
    rewrite lookup_drop. by replace (S i + (j - S i))%nat with j by lia.
Qed.

(** An entry the site lets go on an acknowledgement is reported. *)
Lemma acknowledged_reported L g q e :
  link_ok L → ln_open L = true → g ∈ ln_down L → en_message g = Some (MsgAck q) →
  on_wire (ln_conn L) e → oe_sequence e <= q → carries_content e → reported_at L e.
Proof.
  intros HL Hopen Hg Hq (env & f & Hpay & Hf & Hseq & Hm) Hle (env' & m & Hpay' & Hcm).
  assert (env' = env) as -> by congruence. exists env, m. split; [done|]. split; [done|].
  destruct (lo_conn _ HL Hopen) as [hi Hc]. destruct (lo_down _ HL _ _ Hg Hq) as (i & h & Hi & Hh & Hbeat & Hhq).
  apply list_elem_of_lookup_1 in Hf as [j Hj]. rewrite <- Hseq. rewrite <- Hm in Hcm.
  apply (lo_taken _ HL j f m); [|done|done]. destruct (decide (j < ln_taken L)%nat) as [|Hge]; [done|].
  assert (en_sequence h < en_sequence f); [|lia].
  eapply (wire_order _ hi i j); [done..|lia|done|]. unfold is_beat. by rewrite Hcm.
Qed.

Lemma after_event_ok L acked c (r : result () Error) heard :
  link_ok L → event_effect clock instance_id acked (ln_conn L) c →
  (r = Ok () → ∃ hi, linked clock instance_id c hi) → link_ok (after_event L c r heard).
Proof.
  intros HL (Hok & Hev & Hw & _) Hl. split; simpl; [apply HL|done|by apply Hev, HL|..].
  - intros Hr. apply Hl. by destruct r as [[]|].
  - pose proof (lo_bound _ HL). apply prefix_length in Hw. lia.
  - intros i f m Hi Hf Hm. apply (lo_taken _ HL i f m); [done| |done].
    destruct Hw as [rest Hw]. rewrite Hw in Hf. apply lookup_app_Some in Hf as [Hf|[Hlen Hf]]; [done|].
    exfalso. pose proof (lo_bound _ HL). simpl in *. lia.
  - intros g q Hg Hq. destruct (lo_down _ HL _ _ Hg Hq) as (i & f & Hi & Hf & Hb). exists i, f. split; [done|].
    split; [by eapply prefix_lookup_Some|done].
Qed.

Lemma event_reports L acked c (r : result () Error) heard e :
  link_ok L → ln_open L = true → event_effect clock instance_id acked (ln_conn L) c →
  (∀ q, acked = Some q → ∃ g, g ∈ ln_down L ∧ en_message g = Some (MsgAck q)) →
  pending_at L e → carries_content e →
  pending_at (after_event L c r heard) e ∨ reported_at (after_event L c r heard) e.
Proof.
  intros HL Hopen (_ & _ & _ & Hp) Hack He Hcont. destruct (Hp e He) as [|(q & Hq & Hw & _ & Hle)]; [by left|]. right.
  destruct (Hack q Hq) as (g & Hg & Hgq). by eapply acknowledged_reported in Hw as (? & ? & ? & ? & ?); [eexists _, _|..].
Qed.

Lemma covered_runs x y site stream q :
  intake_ok x → rtc (any_frame from_unix_timestamp sha256) x y → covered (intake_view x) site stream q →
  intake_ok y ∧ covered (intake_view y) site stream q.
Proof.
  intros Hok Hsteps Hc. induction Hsteps as [|x y z [other Hstep] _ IH]; [done|]. apply IH; [by eapply frame_ok|].
  eapply covered_step; [done|by exists other|done].
Qed.

Lemma runs_ok x y : intake_ok x → rtc (any_frame from_unix_timestamp sha256) x y → intake_ok y.
Proof. intros Hok Hsteps. induction Hsteps as [|x y z [other Hstep] _ IH]; [done|]. apply IH. by eapply frame_ok. Qed.

(** The center's side goes on: what it covered stays covered. *)
Lemma link_center_ok L x taken down :
  link_ok L → rtc (any_frame from_unix_timestamp sha256) (ln_intake L) x →
  (ln_taken L <= taken <= length (cn_wire (ln_conn L)))%nat →
  (∀ i f m, (ln_taken L <= i < taken)%nat → cn_wire (ln_conn L) !! i = Some f → en_message f = Some (MsgContent m) →
     covered (intake_view x) instance_id (stream_of m) (en_sequence f)) →
  (∀ g q, g ∈ down → en_message g = Some (MsgAck q) →
     ∃ i f, (i < taken)%nat ∧ cn_wire (ln_conn L) !! i = Some f ∧ is_beat f = false ∧ en_sequence f = q) →
  ∀ open, (open = true → ln_open L = true) →
  link_ok (mk_link (ln_conn L) open taken x (ln_down L ++ down) (ln_heard L)).
Proof.
  intros HL Hx Ht Hcov Hdown open Hopen. pose proof (runs_ok _ _ (lo_intake _ HL) Hx) as Hok.
  split; simpl; [done|apply HL|apply HL|by intros Ho; apply HL, Hopen|lia|..].
  - intros i f m Hi Hf Hm. destruct (decide (i < ln_taken L)%nat) as [Hlt|Hge]; [|apply (Hcov i f m); [lia|done|done]].
    pose proof (lo_taken _ HL i f m Hlt Hf Hm) as Hc. by eapply covered_runs in Hc as [_ Hc]; [|apply HL|exact Hx].
  - intros g q [Hg|Hg]%elem_of_app Hq; [|by eapply Hdown].
    destruct (lo_down _ HL _ _ Hg Hq) as (i & f & Hi & Hf & Hb). exists i, f. split; [lia|done].
Qed.

Lemma reported_runs L x open taken down heard e :
  link_ok L → rtc (any_frame from_unix_timestamp sha256) (ln_intake L) x → reported_at L e →
  reported_at (mk_link (ln_conn L) open taken x down heard) e.
Proof.
  intros HL Hx (env & m & Hp & Hm & Hc). exists env, m. split; [done|]. split; [done|].
  by eapply covered_runs in Hc as [_ Hc]; [|apply HL|exact Hx].
Qed.

(** One event: an entry of the queue stays, is reported, or was a frame of an
    artifact the site sends anew. *)
Definition kept_or_reported L L' : Prop := ∀ e, pending_at L e → carries_content e →
  pending_at L' e ∨ reported_at L' e ∨ ∃ a, carries_b a e.

Lemma kept_quiet L L' : queue (ln_conn L') = queue (ln_conn L) → kept_or_reported L L'.
Proof. intros Hq e He _. left. by rewrite Hq. Qed.

Lemma event_step L acked c (r : result () Error) heard :
  link_ok L → ln_open L = true → event_effect clock instance_id acked (ln_conn L) c →
  (r = Ok () → ∃ hi, linked clock instance_id c hi) →
  (∀ q, acked = Some q → ∃ g, g ∈ ln_down L ∧ en_message g = Some (MsgAck q)) →
  link_ok (after_event L c r heard) ∧ kept_or_reported L (after_event L c r heard).
Proof.
  intros HL Hopen Heff Hl Hack. split; [by eapply after_event_ok|]. intros e He Hc.
  destruct (event_reports _ _ _ r heard e HL Hopen Heff Hack He Hc) as [?|?]; auto.
Qed.

Lemma answer_acks q answer g p : answer_of q answer → g ∈ answer → en_message g = Some (MsgAck p) → p = q.
Proof. intros [->|[peer ->]] Hg; [by apply elem_of_nil in Hg|]. apply list_elem_of_singleton in Hg as ->. by intros [= <-]. Qed.

Lemma take_step L f message io ids sender now x (r : result () CenterError) answer :
  link_ok L → ln_open L = true → cn_wire (ln_conn L) !! ln_taken L = Some f → en_message f = Some (MsgContent message) →
  0 <= en_sequence f <= U64_MAX → wire_ok message → rs_instance_id sender = instance_id →
  intake_frame from_unix_timestamp sha256 io ids sender (en_sequence f) (MsgContent message) now (ln_intake L) = (x, r) →
  answer_of (en_sequence f) answer →
  link_ok (match r with
           | Ok _ => mk_link (ln_conn L) true (S (ln_taken L)) x (ln_down L ++ answer) (ln_heard L)
           | Err _ => mk_link (ln_conn L) false (ln_taken L) x (ln_down L) (ln_heard L)
           end).
Proof.
  intros HL Hopen Hf Hm Hseq Hwire Hsender Hrun Hans. pose proof (lookup_lt_Some _ _ _ Hf) as Hlen.
  assert (any_frame from_unix_timestamp sha256 (ln_intake L) x) as Hstep by (exists instance_id; by eapply step_frame).
  destruct r as [[]|y].
  - apply link_center_ok; [done|by apply rtc_once|lia| | |done].
    + intros i g m Hi Hg Hgm. assert (i = ln_taken L) as -> by lia. rewrite Hf in Hg. injection Hg as <-.
      rewrite Hm in Hgm. injection Hgm as <-. rewrite <- Hsender. eapply frame_covers; [apply HL|done|done|exact Hrun].
    + intros g q Hg Hq. exists (ln_taken L), f. split; [lia|]. split; [done|]. split; [unfold is_beat; by rewrite Hm|].
      symmetry. by eapply answer_acks.
  - rewrite <- (app_nil_r (ln_down L)). apply link_center_ok; [done|by apply rtc_once|lia|lia| |done].
    intros g q Hg. by apply elem_of_nil in Hg.
Qed.

Lemma link_step_keeps L L' : link_ok L → link_step L L' → link_ok L' ∧ kept_or_reported L L'.
Proof.
  intros HL Hstep.
  destruct Hstep as [c r Hopen Hrun|c r Hopen Hrun|f c r Hopen Hf Hrun|f message io ids sender now x r answer Hopen Hf Hm Hq Hw Hs Hrun Hans
    |f answer Hopen Hf Hm Hans|x sent Hx Hsent|s Hok Hev Hkeep| |].
  - destruct (lo_conn _ HL Hopen) as [hi Hc]. destruct (flush_linked _ _ _ _ _ _ _ _ Hc Hrun) as (Hok & Hv & Hwire & Hl).
    apply (event_step L None); [done|done|by apply event_quiet|done|done].
  - destruct (lo_conn _ HL Hopen) as [hi Hc]. destruct (heartbeat_linked _ _ _ Hclock _ _ _ _ Hc Hrun) as [Heff Hl].
    apply (event_step L None); [done|done|done|by exists hi; auto|done].
  - destruct (lo_conn _ HL Hopen) as [hi Hc].
    destruct (receive_linked _ _ _ _ Hclock _ Hoffer _ _ _ _ _ Hc Hrun) as [Heff Hl].
    apply (event_step L (acked_by f)); [done|done|done|done|]. intros q Hq. exists f.
    split; [by eapply list_elem_of_lookup_2|]. unfold acked_by in Hq. destruct (en_message f) as [[]|]; by simplify_eq.
  - split; [by eapply take_step|]. apply kept_quiet. by destruct r.
  - split; [|by apply kept_quiet]. pose proof (lookup_lt_Some _ _ _ Hf) as Hlen.
    apply link_center_ok; [done|reflexivity|lia| | |done].
    + intros i g m Hi Hg Hgm. assert (i = ln_taken L) as -> by lia. rewrite Hf in Hg. injection Hg as <-. by apply Hm in Hgm.
    + intros g q Hg Hq. destruct Hans as [->|[Hbeat Hans]]; [by apply elem_of_nil in Hg|].
      exists (ln_taken L), f. split; [lia|]. split; [done|]. split; [done|]. symmetry. by eapply answer_acks.
  - split; [|by apply kept_quiet]. pose proof (lo_bound _ HL). apply link_center_ok; [done|done|lia|lia| |done].
    intros g q Hg Hq. rewrite Forall_forall in Hsent. by apply Hsent in Hq.
  - split.
    + split; simpl; [apply HL|done|by apply Hev, HL| |apply HL|apply HL|apply HL].
      intros Hopen. destruct (lo_conn _ HL Hopen) as [hi Hc]. exists hi. apply linked_evolves; [done..|].
      intros e He. destruct (Hkeep e He) as [|[? _]]; auto.
    + intros e He _. destruct (Hkeep e He) as [|[_ ?]]; auto.
  - split; [|by apply kept_quiet]. split; simpl; [apply HL..|done|apply HL|apply HL|apply HL].
  - split; [|by apply kept_quiet]. split; simpl; [apply HL|apply HL|apply HL| |lia|lia|].
    + intros _. exists (-1). apply fresh_linked; apply HL.
    + intros g q Hg. by apply elem_of_nil in Hg.
Qed.

Lemma reported_stays L L' e : link_ok L → link_step L L' → reported_at L e → reported_at L' e.
Proof.
  intros HL Hstep (env & m & Hp & Hm & Hc). exists env, m. split; [done|]. split; [done|].
  assert (∃ x, rtc (any_frame from_unix_timestamp sha256) (ln_intake L) x ∧ ln_intake L' = x) as (x & Hx & ->).
  { destruct Hstep as [| | |f message io ids sender now x r answer Hopen Hf Hfm Hq Hw Hs Hrun Hans| |x sent Hx _| | |].
    4: { exists x. split; [|by destruct r]. apply rtc_once. exists instance_id. by eapply step_frame. }
    5: { by exists x. }
    all: eexists; split; reflexivity. }
  by eapply covered_runs in Hc as [_ Hc]; [|apply HL|exact Hx].
Qed.

(** C4: Whatever the link does -- frames and answers lost at any point, sends and reads
    failing, connections broken and made again, other sites and other reports in
    between -- an entry the site queued with something to report is in its queue
    until the center's cursor covers it; only the frames of an artifact may be taken
    back, to be sent anew. *)
Theorem no_report_is_lost L L' e :
  link_ok L → rtc link_step L L' → pending_at L e → carries_content e → (∀ a, ¬ carries_b a e) →
  pending_at L' e ∨ reported_at L' e.
Proof.
  intros HL Hsteps He Hc Ha. assert (pending_at L e ∨ reported_at L e) as Hcase by (by left). clear He. revert HL Hcase.
  induction Hsteps as [L|L L1 L' Hstep _ IH]; intros HL Hcase; [done|].
  destruct (link_step_keeps _ _ HL Hstep) as [HL1 Hkept]. apply IH; [done|].
  destruct Hcase as [He|Hr]; [|right; exact (reported_stays _ _ _ HL Hstep Hr)].
  destruct (Hkept e He Hc) as [?|[?|[a Hbad]]]; [by left|by right|]. by destruct (Ha a).
Qed.
End link.
