(* ===== verification/SiteLoop.v ===== *)
(** * SiteLoop: what the reports and the engine do to the queue

    Every report of [SiteReports], whatever its outcome, queues behind what is
    queued and takes back only frames of artifacts: it is a step of the site in
    [LinkSafety].  Then the connect loop over any number of attempts. *)
From S2P Require Import Prelude Text Operation Database CenterDomain LinkMessages Artifact ArtifactRepository ArtifactStore ResourceSnapshot CenterOutbox CenterStores CenterDispatch DispatchSafety CenterRuns CenterSession.
From S2P Require Import EventRepository SyncCursors CenterIntake Endpoints EndpointInventory SiteReports SiteReportsSpec ArtifactReports ArtifactStream SiteConnection LinkSafety.
Local Open Scope Z_scope.

Section moves.
Context {St Sob Scu Ein Ear Eev Eob Ecu : Type}.
Context `{EndpointInventoryRepository St Ein} `{ArtifactRepository St Ear} `{CenterEventTail St Eev}.
Context `{OutboxStoreLaws Sob Eob} `{CenterCursorLaws Scu Ecu}.
Context (sha256 : list N → list N) (dk : DiskEnv) (clock : nat → OffsetDateTime) (fresh : nat → Uuid).
Context (instance_id : InstanceId) (options : ReportOptions) (fuel : nat).
Context (Hclock : ∀ n m, (n <= m)%nat → clock n <= clock m).
Abbreviation Rep := (Reporter St Sob Scu).
Abbreviation Error := (ReportError Ein Ear Eev Eob Ecu).
Abbreviation Op := (M Rep Error).
Implicit Types (s : Rep) (v : Entries).

(** What a report does to the queue. *)
Definition moved v v' : Prop :=
  queue_evolves v v' ∧ ∀ e, pends instance_id v e → pends instance_id v' e ∨ ∃ a, carries_b a e.

Lemma moved_refl v : moved v v.
Proof. split; [reflexivity|by left]. Qed.
Lemma moved_trans v1 v2 v3 : moved v1 v2 → moved v2 v3 → moved v1 v3.
Proof. intros [He1 H1'] [He2 H2']. split; [by etrans|]. intros e He. destruct (H1' e He); eauto. Qed.
Lemma moved_queued v v' ms es : queued instance_id v v' ms es → moved v v'.
Proof.
  intros Hq. split; [by eapply queued_evolves|]. intros e He. left. apply queued_pends in Hq as [_ Hp]. apply Hp. by left.
Qed.

Definition moves {A} (m : Op A) : Prop :=
  ∀ s s' r, rep_ok clock s → m s = (s', r) →
    rep_ok clock s' ∧ moved (rv_entries (rep_view s)) (rv_entries (rep_view s')).

Lemma moves_ret {A} (a : A) : moves (mret a).
Proof. intros s s' r Hok [= <- _]. split; [done|apply moved_refl]. Qed.
Lemma moves_lift {A} (x : result A Error) : moves (mlift x).
Proof. intros s s' r Hok [= <- _]. split; [done|apply moved_refl]. Qed.
Lemma moves_bind {A B} (m : Op A) (k : A → Op B) : moves m → (∀ a, moves (k a)) → moves (mbind m k).
Proof.
  intros Hm Hk s s' r Hok Hrun. apply mbind_inv in Hrun as [(a & s1 & H1' & H2')|(x & H1' & _)];
    apply Hm in H1' as [Hok1 Hm1]; [|done|done|done].
  apply Hk in H2' as [Hok2 Hm2]; [|done]. split; [done|]. by eapply moved_trans.
Qed.

(** A call that leaves the view. *)
Lemma moves_quiet {A} (m : Op A) :
  (∀ s s' r, rep_ok clock s → m s = (s', r) → rep_ok clock s' ∧ rep_view s' = rep_view s) → moves m.
Proof. intros Hm s s' r Hok Hrun. apply Hm in Hrun as [Hok' ->]; [|done]. split; [done|apply moved_refl]. Qed.

Lemma moves_store {A E} (err : E → Error) (m : M St E A) : moves (in_store err m).
Proof. apply moves_quiet. intros s s' r Hok Hrun. by apply store_quiet with (clock := clock) in Hrun as (? & ? & _). Qed.

Lemma moves_now : moves (now_ clock).
Proof. apply moves_quiet. intros s s' r Hok Hrun. by apply now_quiet in Hrun as (? & ? & _). Qed.

Lemma moves_cursor_get stream : moves (in_cursors (cursor_get instance_id stream)).
Proof. apply moves_quiet. intros s s' r Hok Hrun. by apply (cursor_get_spec clock) in Hrun as (? & ? & _). Qed.

Lemma moves_store_cursor stream value now : moves (store_cursor fresh instance_id stream value now).
Proof.
  intros s s' r Hok Hrun. apply (store_cursor_spec clock) in Hrun as [Hok' Hv]; [|done]. split; [done|].
  destruct r; rewrite Hv; apply moved_refl.
Qed.

Lemma moves_enqueue message : moves (enqueue_entry clock fresh instance_id message).
Proof.
  intros s s' r Hok Hrun. apply enqueue_entry_spec in Hrun as [Hok' Hr]; [|done..]. split; [done|]. destruct r as [e|x].
  - destruct Hr as (id & at_ & v & He & ->). by eapply moved_queued, queued_one.
  - destruct Hr as [-> _]. apply moved_refl.
Qed.

Lemma moves_endpoints : moves (report_endpoint_projection clock fresh instance_id).
Proof.
  intros s s' r Hok Hrun. apply endpoint_report_spec in Hrun as (Hok' & v & ms & es & Hq & Hr); [|done..].
  split; [done|]. apply moved_queued in Hq. destruct r as [u|x].
  - destruct Hr as (items & t & _ & _ & ->). exact Hq.
  - by rewrite Hr.
Qed.

Lemma moves_events : moves (report_event_batch clock fresh instance_id options).
Proof.
  apply moves_bind; [apply moves_cursor_get|]. intros cursor. apply moves_bind.
  - assert (moves (let! events := in_store RepEvents (et_list_recent (ro_event_batch_limit options)) in
      mret (events, ev_id <$> head events))) as Hrecent.
    { apply moves_bind; [apply moves_store|]. intros events. apply moves_ret. }
    destruct (cursor ≫= _) as [anchor|]; [|exact Hrecent]. apply moves_bind; [apply moves_store|]. intros [|]; [|exact Hrecent].
    apply moves_bind; [apply moves_store|]. intros events. apply moves_ret.
  - intros [[|event events] newest]; [apply moves_ret|]. apply moves_bind; [apply moves_enqueue|]. intros _.
    apply moves_bind; [apply moves_now|]. intros now. apply moves_bind; [apply moves_lift|]. intros value. apply moves_store_cursor.
Qed.

(** *** Artifacts *)

(** Acknowledgements at an instant: the queue only loses. *)
Definition held now v0 s : Prop :=
  rep_ok clock s ∧ older now (rv_entries (rep_view s)) ∧ queue_evolves v0 (rv_entries (rep_view s)).

Lemma held_acknowledge now v0 id : keeps (held now v0) (in_outbox (acknowledge id now) : Op ()).
Proof.
  intros s (Hok & Hold & Hev). destruct (in_outbox (acknowledge id now) s) as [s' r] eqn:Hrun. simpl.
  pose proof (acknowledge_evolves clock _ _ _ _ _ Hok Hold Hrun) as Hev'.
  apply (acknowledge_spec clock instance_id) in Hrun as (Hok' & v & Hv & Hold' & _); [|done..].
  split; [done|]. split; [by rewrite Hv|]. by etrans.
Qed.

Lemma held_list now v0 bound : keeps (held now v0) (in_outbox (list_pending instance_id bound) : Op _).
Proof.
  intros s (Hok & Hold & Hev). destruct (in_outbox (list_pending instance_id bound) s) as [s' r] eqn:Hrun. simpl.
  apply (list_pending_spec clock) in Hrun as (Hok' & Hv & _); [|done]. unfold held. by rewrite Hv.
Qed.

Lemma held_passes now v0 n a : keeps (held now v0) (retire_passes instance_id options n a now : Op bool).
Proof.
  induction n as [|n IH]; [apply keeps_ret|]. apply keeps_bind; [apply held_list|]. intros pending. apply keeps_bind.
  - generalize false. induction pending as [|e pending IHp]; intros any; [apply keeps_ret|]. cbn [retire_pass].
    destruct (entry_carries_artifact e a); [|apply IHp]. apply keeps_bind; [apply held_acknowledge|]. intros _. apply IHp.
  - intros any. by destruct (_ || _); [apply keeps_ret|].
Qed.

Lemma held_start s s' now : rep_ok clock s → now_ clock s = (s', Ok now : result _ Error) →
  held now (rv_entries (rep_view s)) s' ∧ rep_view s' = rep_view s.
Proof. intros Hok Hrun. apply (now_older clock Hclock) in Hrun as (Hok' & Hv & Hold); [|done]. unfold held. by rewrite <- Hv. Qed.

Lemma retire_pending_evolves a s s' (r : result () Error) :
  rep_ok clock s → retire_pending_artifact_entries clock instance_id options fuel a s = (s', r) →
  queue_evolves (rv_entries (rep_view s)) (rv_entries (rep_view s')).
Proof.
  intros Hok Hrun. unfold retire_pending_artifact_entries in Hrun.
  apply mbind_inv in Hrun as [(now & s1 & Hnow & Hrun)|(x & Hnow & ->)]; [|by injection Hnow].
  apply held_start in Hnow as [Hheld _]; [|done].
  pose proof (keeps_bind _ _ _ (held_passes now (rv_entries (rep_view s)) fuel a) (λ _, keeps_ret _ ()) s1 Hheld) as (_ & _ & Hev).
  by rewrite Hrun in Hev.
Qed.

Lemma retire_round_evolves s s' (r : result () Error) :
  rep_ok clock s → retire_round clock s = (s', r) → queue_evolves (rv_entries (rep_view s)) (rv_entries (rep_view s')).
Proof.
  intros Hok Hrun. unfold retire_round in Hrun. unfold mbind at 1, SiteReports.distribution in Hrun.
  unfold mbind at 1, set_distribution in Hrun. set (s1 := put_distribution s []) in Hrun.
  assert (rep_ok clock s1) as Hok1 by exact Hok.
  change (rv_entries (rep_view s)) with (rv_entries (rep_view s1)). clearbody s1.
  destruct (rp_distribution s) as [|id ids]; [unfold mret in Hrun; by injection Hrun as <- <-|].
  apply mbind_inv in Hrun as [(now & s2 & Hnow & Hrun)|(x & Hnow & ->)]; [|by injection Hnow].
  apply held_start in Hnow as [Hheld _]; [|done].
  pose proof (keeps_for _ (id :: ids) (λ entry_id, in_outbox (acknowledge entry_id now))
    (λ entry_id _, held_acknowledge now (rv_entries (rep_view s1)) entry_id) s2 Hheld) as (_ & _ & Hev).
  by rewrite Hrun in Hev.
Qed.

Lemma moves_distribute a : moves (distribute_artifact sha256 dk clock fresh instance_id options fuel a).
Proof.
  intros s s' r Hok Hrun. unfold distribute_artifact in Hrun. unfold mbind at 1, set_distribution in Hrun.
  set (s0 := put_distribution s []) in Hrun. assert (rep_ok clock s0) as Hok0 by exact Hok.
  change (rv_entries (rep_view s)) with (rv_entries (rep_view s0)).
  assert (rv_distribution (rep_view s0) = []) as Hd0 by done. clearbody s0. clear s Hok.
  apply mbind_inv in Hrun as [([] & s1 & Hret & Hrun)|(x & Hret & ->)];
    pose proof (retire_pending_evolves _ _ _ _ Hok0 Hret) as Hev1;
    (apply retire_pending_spec in Hret as (Hok1 & Hd1 & (gone & Hgone & Hl) & _); [|done..]).
  all: assert (moved (rv_entries (rep_view s0)) (rv_entries (rep_view s1))) as Hm1 || assert (moved (rv_entries (rep_view s0)) (rv_entries (rep_view s'))) as Hm1.
  1, 3: split; [done|]; intros e He; destruct (decide (carries_b (a_id a) e)) as [Hc|Hc]; [right; by eexists|]; left; apply Hl; split; [done|]; by intros Hg%Hgone.
  2: by split.
  rewrite Hd0 in Hd1. apply on_failure_inv in Hrun as [[Henq ->]|(s2 & x & r1 & Henq & Hclean & ->)];
    (apply enqueue_artifact_spec in Henq; [|done..]).
  - destruct Henq as (io & file & chunks & _ & _ & Hok' & v & es & Hq & Hv). split; [done|].
    eapply moved_trans; [exact Hm1|]. rewrite Hv. by eapply moved_queued.
  - destruct Henq as (ms & (Hok2 & v & es & Hq & Hv) & _).
    pose proof (retire_round_evolves _ _ _ Hok2 Hclean) as Hev2.
    apply (retire_round_spec clock instance_id) in Hclean as (Hok' & _ & Hkeep & _); [|done..]. split; [done|].
    eapply moved_trans; [exact Hm1|]. split.
    + etrans; [|exact Hev2]. rewrite Hv. by eapply queued_evolves.
    + intros e He. left. rewrite Hv, Hd1 in Hkeep. simpl in Hkeep. apply queued_pends in Hq as [Hnew Hp].
      apply Hkeep; [apply Hp; by left|]. intros (f & Hid & Hf)%list_elem_of_fmap. apply Hnew in Hf. rewrite <- Hid in Hf.
      destruct He as [He _]. congruence.
Qed.

Lemma moves_ready selects ready newest :
  moves (distribute_ready sha256 dk clock fresh instance_id options fuel selects ready newest).
Proof.
  revert newest. induction ready as [|a ready IH]; intros newest; cbn [distribute_ready]; [apply moves_ret|].
  destruct (negb (selects a)); [apply IH|]. intros s s' r Hok Hrun.
  destruct (distribute_artifact _ _ _ _ _ _ _ a s) as [s1 [u|x]] eqn:Hd; apply moves_distribute in Hd as [Hok1 Hm1]; [|done| |done].
  - apply IH in Hrun as [Hok' Hm']; [|done]. split; [done|]. by eapply moved_trans.
  - by destruct (persistent_failure x); injection Hrun as <- <-.
Qed.

Lemma moves_artifacts : moves (report_artifacts sha256 dk clock fresh instance_id options fuel).
Proof.
  apply moves_bind; [apply moves_cursor_get|]. intros cursor. apply moves_bind.
  - destruct (cursor ≫= _) as [anchor|]; [|apply moves_ret]. apply moves_bind; [apply moves_store|]. intros found. apply moves_ret.
  - intros created. apply moves_bind; [apply moves_store|]. intros ready. apply moves_bind; [apply moves_ready|].
    intros [[newest|]|stalled]; [|apply moves_ret..]. apply moves_bind; [apply moves_now|]. intros now.
    apply moves_bind; [apply moves_store_cursor|]. intros _. apply moves_ret.
Qed.

Lemma moves_reports : moves (report_incremental_sync sha256 dk clock fresh instance_id options fuel).
Proof.
  apply moves_bind; [apply moves_endpoints|]. intros _. apply moves_bind; [apply moves_events|]. intros _. apply moves_artifacts.
Qed.
End moves.

(** ** The site's engine from connection to connection

    The connect loop of [SiteConnection]: when it gives up, and what its
    connections take from the queue. *)

(** ** The refusals *)

#[export] Instance ConnectFailure_eq_dec : EqDecision ConnectFailure.
Proof. solve_decision. Defined.

(** How often the center said [k] since it last said something else or let the site
    connect, failures without a verdict left out. *)
Fixpoint said_last (k : ConnectFailure) (newest_first : list Attempt) : Z :=
  match newest_first with
  | Failed OtherFailure _ :: l => said_last k l
  | Failed f _ :: l => if decide (f = k) then 1 + said_last k l else 0
  | _ => 0
  end.

(** The verdict after the attempts [l]. *)
Definition verdict_after {Ein Ear Eev Eob Ecu} (options : ConnectOptions) (l : list Attempt)
    : option (LinkError Ein Ear Eev Eob Ecu) :=
  match last l with
  | Some (Failed NotBoundRefusal _) =>
      if reached (co_not_bound_abort_after options) (said_last NotBoundRefusal (reverse l)) then Some NotBound else None
  | Some (Failed IdentityMismatchRefusal _) =>
      if reached (co_identity_mismatch_abort_after options) (said_last IdentityMismatchRefusal (reverse l))
      then Some IdentityMismatch else None
  | _ => None
  end.

Definition refusals_after (l : list Attempt) : Refusals :=
  mk_refusals (said_last NotBoundRefusal (reverse l)) (said_last IdentityMismatchRefusal (reverse l)).

Lemma count_refusal_after l f stopped : count_refusal f (refusals_after l) = refusals_after (l ++ [Failed f stopped]).
Proof. unfold refusals_after. rewrite reverse_app. simpl. destruct f; simpl; f_equal; lia. Qed.

Lemma connected_after l events stopped : refusals_after (l ++ [Connected events stopped]) = mk_refusals 0 0.
Proof. unfold refusals_after. by rewrite reverse_app. Qed.

Lemma refusal_verdict_after {Ein Ear Eev Eob Ecu} options l f stopped :
  refusal_verdict options f (refusals_after (l ++ [Failed f stopped])) =
  verdict_after (Ein := Ein) (Ear := Ear) (Eev := Eev) (Eob := Eob) (Ecu := Ecu) options (l ++ [Failed f stopped]).
Proof. unfold verdict_after. rewrite last_snoc. by destruct f. Qed.

Section refusals.
Context {St Sob Scu Ein Ear Eev Eob Ecu : Type}.
Context `{OutboxStore Sob Eob} `{EnvelopeJson}.
Context (clock : nat → OffsetDateTime) (send_fails : nat → bool).
Context (instance_id : InstanceId) (options : ReportOptions) (connect_options : ConnectOptions).
Context (report_center_operations : M (Reporter St Sob Scu) (ReportError Ein Ear Eev Eob Ecu) ()).
Context (report_incremental_sync : M (Reporter St Sob Scu) (ReportError Ein Ear Eev Eob Ecu) ArtifactStreamOutcome).
Context (handle_offer : OperationOffer → Envelope → M (Reporter St Sob Scu) (ReportError Ein Ear Eev Eob Ecu) ()).
Implicit Types (s : Reporter St Sob Scu).
Abbreviation Verdict := (LinkError Ein Ear Eev Eob Ecu).
Abbreviation loop := (connect_loop clock send_fails instance_id options connect_options
  report_center_operations report_incremental_sync handle_offer).

(** What one attempt leaves, and whether the engine ends with it: stopped ([true]),
    or still on the connection ([false]). *)
Definition attempted (a : Attempt) s : Reporter St Sob Scu * option bool :=
  match a with
  | Stopped => (s, Some true)
  | Failed _ stopped => (s, if stopped then Some true else None)
  | Connected events stopped =>
      match site_connected_loop clock send_fails instance_id options report_center_operations report_incremental_sync
              handle_offer events (mk_connection s [] [] 0) with
      | (c, Ok b) => (cn_site c, Some b)
      | (c, Err _) => (cn_site c, if stopped then Some true else None)
      end
  end.
Definition site_after s (l : list Attempt) : Reporter St Sob Scu := foldl (λ s a, (attempted a s).1) s l.

(** After [seen], none of the attempts [l] ends the loop: no verdict, no stop. *)
Definition goes_on (seen : list Attempt) s (l : list Attempt) : Prop :=
  ∀ q a, q ++ [a] `prefix_of` l →
    verdict_after (Ein := Ein) (Ear := Ear) (Eev := Eev) (Eob := Eob) (Ecu := Ecu) connect_options (seen ++ q ++ [a]) = None ∧
    (attempted a (site_after s q)).2 = None.

Lemma goes_on_nil seen s : goes_on seen s [].
Proof. intros q a Hp. apply prefix_nil_inv in Hp. by destruct q. Qed.

Lemma goes_on_cons seen s a l :
  verdict_after (Ein := Ein) (Ear := Ear) (Eev := Eev) (Eob := Eob) (Ecu := Ecu) connect_options (seen ++ [a]) = None →
  (attempted a s).2 = None → goes_on (seen ++ [a]) (attempted a s).1 l → goes_on seen s (a :: l).
Proof.
  intros Hv Ha Hl [|b q] c Hp; simpl in Hp.
  - by apply prefix_cons_inv_1 in Hp as ->.
  - pose proof (prefix_cons_inv_1 _ _ _ _ Hp) as ->. apply prefix_cons_inv_2, Hl in Hp. by rewrite <- app_assoc in Hp.
Qed.

(** How the loop ends: with the first attempt that brings a verdict or a stop. *)
Definition ends seen s (attempts : list Attempt) s' (r : result bool Verdict) : Prop :=
  (r = Ok false ∧ s' = site_after s attempts ∧ goes_on seen s attempts) ∨
  ∃ l a rest, attempts = l ++ a :: rest ∧ goes_on seen s l ∧ s' = site_after s (l ++ [a]) ∧
    match verdict_after connect_options (seen ++ l ++ [a]) with
    | Some x => r = Err x
    | None => ∃ b, (attempted a (site_after s l)).2 = Some b ∧ r = Ok b
    end.

Lemma ends_here seen s a attempts s' r :
  s' = (attempted a s).1 →
  match verdict_after connect_options (seen ++ [a]) with
  | Some x => r = Err x
  | None => ∃ b, (attempted a s).2 = Some b ∧ r = Ok b
  end → ends seen s (a :: attempts) s' r.
Proof. intros -> Hr. right. exists [], a, attempts. split; [done|]. split; [apply goes_on_nil|]. by split. Qed.

Lemma ends_later seen s a attempts s' r :
  verdict_after (Ein := Ein) (Ear := Ear) (Eev := Eev) (Eob := Eob) (Ecu := Ecu) connect_options (seen ++ [a]) = None →
  (attempted a s).2 = None → ends (seen ++ [a]) (attempted a s).1 attempts s' r → ends seen s (a :: attempts) s' r.
Proof.
  intros Hv Ha [(-> & -> & Hg)|(l & b & rest & -> & Hg & -> & Hr)]; [left|right].
  - split; [done|]. split; [done|]. by apply goes_on_cons.
  - exists (a :: l), b, rest. split; [done|]. split; [by apply goes_on_cons|]. split; [done|].
    by rewrite <- app_assoc in Hr.
Qed.

Lemma connect_loop_from seen attempts s s' r :
  loop (refusals_after seen) attempts s = (s', r) → ends seen s attempts s' r.
Proof.
  revert seen s. induction attempts as [|a attempts IH]; intros seen s Hrun.
  { injection Hrun as <- <-. left. split; [done|]. split; [done|]. apply goes_on_nil. }
  destruct a as [|events stopped|f stopped]; cbn [connect_loop] in Hrun.
  - injection Hrun as <- <-. apply ends_here; [done|]. unfold verdict_after. rewrite last_snoc. by eexists.
  - assert (verdict_after (Ein := Ein) (Ear := Ear) (Eev := Eev) (Eob := Eob) (Ecu := Ecu) connect_options
      (seen ++ [Connected events stopped]) = None) as Hv by (unfold verdict_after; by rewrite last_snoc).
    destruct (site_connected_loop _ _ _ _ _ _ _ events _) as [c [b|x]] eqn:Hc.
    + assert (s' = cn_site c ∧ r = Ok b) as [-> ->] by (by destruct b; injection Hrun).
      apply ends_here; rewrite ?Hv; simpl; rewrite Hc; [done|]. by eexists.
    + destruct stopped.
      * injection Hrun as <- <-. apply ends_here; rewrite ?Hv; simpl; rewrite Hc; [done|]. by eexists.
      * rewrite <- (connected_after seen events false) in Hrun. apply ends_later; [done|simpl; by rewrite Hc|].
        simpl. rewrite Hc. by apply IH.
  - rewrite (count_refusal_after _ _ stopped), (refusal_verdict_after _ _ _ stopped) in Hrun.
    destruct (verdict_after connect_options (seen ++ [Failed f stopped])) as [x|] eqn:Hv.
    + injection Hrun as <- <-. apply ends_here; [done|]. by rewrite Hv.
    + destruct stopped.
      * injection Hrun as <- <-. apply ends_here; [done|]. rewrite Hv. by eexists.
      * apply ends_later; [done..|]. by apply IH.
Qed.

(** C36: The two counters of the connect loop are the reference count, over any attempts:
    the engine gives up at the first failure at which the center has said the same
    refusal as often as its limit allows since it last said the other one or let the
    site connect, failures that say nothing left out; it ends otherwise only when it is
    stopped or stays connected, and until then, and without a limit, it goes on. *)
Theorem connect_loop_gives_up attempts s s' r :
  run clock send_fails instance_id options connect_options report_center_operations report_incremental_sync
    handle_offer attempts s = (s', r) →
  (r = Ok false ∧ s' = site_after s attempts ∧ goes_on [] s attempts) ∨
  ∃ l a rest, attempts = l ++ a :: rest ∧ goes_on [] s l ∧ s' = site_after s (l ++ [a]) ∧
    match verdict_after connect_options (l ++ [a]) with
    | Some x => r = Err x
    | None => ∃ b, (attempted a (site_after s l)).2 = Some b ∧ r = Ok b
    end.
Proof. apply (connect_loop_from []). Qed.
End refusals.

(** ** What the connections take from the queue *)

Section runs.
Context {St Sob Scu Ein Ear Eev Eob Ecu : Type}.
Context `{OutboxStoreLaws Sob Eob} `{CenterCursorLaws Scu Ecu}.
Context (clock : nat → OffsetDateTime) (send_fails : nat → bool).
Context (instance_id : InstanceId) (options : ReportOptions) (connect_options : ConnectOptions).
Context (Hclock : ∀ n m, (n <= m)%nat → clock n <= clock m).
Abbreviation Rep := (Reporter St Sob Scu).
Abbreviation SiteError := (ReportError Ein Ear Eev Eob Ecu).
Context (report_center_operations : M Rep SiteError ()).
Context (report_incremental_sync : M Rep SiteError ArtifactStreamOutcome).
Context (handle_offer : OperationOffer → Envelope → M Rep SiteError ()).
(** The reports move the queue as [SiteLoop] says, and offers are answered through
    it. *)
Context (Hoperations : moves clock instance_id report_center_operations).
Context (Hreports : moves clock instance_id report_incremental_sync).
Context (Hoffer : ∀ offer envelope s s' r, rep_ok clock s → handle_offer offer envelope s = (s', r) →
  rep_ok clock s' ∧ ∃ v ms es, queued instance_id (rv_entries (rep_view s)) v ms es ∧
    rep_view s' = with_queue (rep_view s) v).
Implicit Types (s : Rep).

(** An acknowledgement the site received. *)
Definition acknowledges (events : list LinkEvent) (q : Z) : Prop :=
  ∃ f, Received (Frame f) ∈ events ∧ en_message f = Some (MsgAck q).

(** The entries [v] to [v'] lost were acknowledged, or are frames of artifacts. *)
Definition acked_only (acks : Z → Prop) v v' : Prop :=
  queue_evolves v v' ∧ ∀ e, pends instance_id v e →
    pends instance_id v' e ∨ (∃ a, carries_b a e) ∨ ∃ q, acks q ∧ 0 <= oe_sequence e <= q.

Lemma acked_only_trans acks v1 v2 v3 : acked_only acks v1 v2 → acked_only acks v2 v3 → acked_only acks v1 v3.
Proof.
  intros [He1 H1'] [He2 H2']. split; [by etrans|]. intros e He. destruct (H1' e He) as [He'|[?|?]]; [|by auto..].
  by apply H2'.
Qed.
Lemma acked_only_weaken (P Q : Z → Prop) v v' : (∀ q, P q → Q q) → acked_only P v v' → acked_only Q v v'.
Proof. intros HPQ [Hev Hp]. split; [done|]. intros e He. destruct (Hp e He) as [?|[?|(q & ? & ?)]]; eauto 6. Qed.
Lemma moved_acked acks v v' : moved instance_id v v' → acked_only acks v v'.
Proof. intros [Hev Hp]. split; [done|]. intros e He. destruct (Hp e He); auto. Qed.

Lemma event_acked acked (c c' : Connection Rep) :
  event_effect clock instance_id acked c c' → acked_only (λ q, acked = Some q) (queue c) (queue c').
Proof. intros (_ & Hev & _ & Hp). split; [done|]. intros e He. destruct (Hp e He) as [|(q & ? & _ & ?)]; eauto. Qed.

(** The loop of a connection. *)
Lemma site_loop_acked stalled events (c : Connection Rep) hi c' (r : result _ (LinkError Ein Ear Eev Eob Ecu)) :
  linked clock instance_id c hi →
  site_loop clock send_fails instance_id options handle_offer stalled events c = (c', r) →
  rep_ok clock (cn_site c') ∧ acked_only (acknowledges events) (queue c) (queue c').
Proof.
  revert c hi. induction events as [|ev events IH]; intros c hi Hc Hrun; cbn [site_loop] in Hrun.
  { unfold mret in Hrun. injection Hrun as <- <-. split; [apply Hc|]. apply moved_acked, moved_refl. }
  assert (∀ v v', acked_only (acknowledges events) v v' → acked_only (acknowledges (ev :: events)) v v') as Hcons.
  { intros v v'. apply acked_only_weaken. intros q (f & Hf & Hq). exists f. split; [by right|done]. }
  assert (rep_ok clock (cn_site c) ∧ acked_only (acknowledges (ev :: events)) (queue c) (queue c)) as Hsame.
  { split; [apply Hc|]. apply moved_acked, moved_refl. }
  assert (∀ acked c1, event_effect clock instance_id acked c c1 →
    (∀ q, acked = Some q → acknowledges (ev :: events) q) →
    rep_ok clock (cn_site c1) ∧ acked_only (acknowledges (ev :: events)) (queue c) (queue c1)) as Heffect.
  { intros acked c1 Heff Hq. split; [apply Heff|]. eapply acked_only_weaken; [exact Hq|by eapply event_acked]. }
  destruct ev as [| | |[f| |]].
  - unfold mret in Hrun. by injection Hrun as <- <-.
  - apply mbind_inv in Hrun as [([] & c1 & Hb & Hrun)|(x & Hb & ->)];
      destruct (heartbeat_linked _ _ _ Hclock _ _ _ _ Hc Hb) as [Heff Hl]; apply Heffect in Heff as [Hok Ha]; [|done| |done].
    + destruct (IH c1 hi (Hl eq_refl) Hrun) as [Hok' Ha']. split; [done|]. eapply acked_only_trans; [exact Ha|by apply Hcons].
    + by split.
  - destruct stalled as [a|]; [unfold mfail in Hrun; by injection Hrun as <- <-|].
    destruct (IH c hi Hc Hrun) as [Hok' Ha']. split; [done|by apply Hcons].
  - assert (∀ q, acked_by f = Some q → acknowledges (Received (Frame f) :: events) q) as Hq.
    { intros q Hq. exists f. split; [by left|]. unfold acked_by in Hq. destruct (en_message f) as [[]|]; by simplify_eq. }
    apply mbind_inv in Hrun as [([] & c1 & Hb & Hrun)|(x & Hb & ->)];
      destruct (receive_linked _ _ _ _ Hclock _ Hoffer _ _ _ _ _ Hc Hb) as [Heff Hl]; apply Heffect in Heff as [Hok Ha]; [|done| |done].
    + destruct (Hl eq_refl) as [hi' Hc1]. destruct (IH c1 hi' Hc1 Hrun) as [Hok' Ha']. split; [done|].
      eapply acked_only_trans; [exact Ha|by apply Hcons].
    + by split.
  - unfold mfail in Hrun. by injection Hrun as <- <-.
  - unfold mfail in Hrun. by injection Hrun as <- <-.
Qed.

(** A whole connection. *)
Lemma connected_acked events s c (r : result _ (LinkError Ein Ear Eev Eob Ecu)) :
  rep_ok clock s → distinct (rv_entries (rep_view s)) →
  site_connected_loop clock send_fails instance_id options report_center_operations report_incremental_sync handle_offer
    events (mk_connection s [] [] 0) = (c, r) →
  rep_ok clock (cn_site c) ∧ acked_only (acknowledges events) (rv_entries (rep_view s)) (queue c).
Proof.
  intros Hok Hd Hrun. unfold site_connected_loop in Hrun.
  assert (∀ {A} (m : M Rep SiteError A) s0 c0 (r0 : result A (LinkError Ein Ear Eev Eob Ecu)),
    moves clock instance_id m → rep_ok clock s0 →
    at_site m (mk_connection s0 [] [] 0) = (c0, r0) → ∃ s1, c0 = mk_connection s1 [] [] 0 ∧ rep_ok clock s1 ∧
    moved instance_id (rv_entries (rep_view s0)) (rv_entries (rep_view s1))) as Hmove.
  { intros A m s0 c0 r0 Hm Hok0 Ha. apply at_site_inv in Ha as (s1 & r1 & Ha & -> & _).
    apply Hm in Ha as [Hok1 Hm1]; [|done]. by exists s1. }
  apply mbind_inv in Hrun as [([] & c1 & Hops & Hrun)|(x & Hops & ->)];
    apply Hmove in Hops as (s1 & -> & Hok1 & Hm1); [|done|done| |done|done]; [|split; [done|by apply moved_acked]].
  apply mbind_inv in Hrun as [(outcome & c2 & Hrep & Hrun)|(x & Hrep & ->)];
    apply Hmove in Hrep as (s2 & -> & Hok2 & Hm2); [|done|done| |done|done];
    pose proof (moved_trans _ _ _ _ Hm1 Hm2) as Hm; [|split; [done|by apply moved_acked]].
  assert (linked clock instance_id (mk_connection s2 [] [] 0) (-1)) as Hc2 by (apply fresh_linked; [done|by apply Hm]).
  apply mbind_inv in Hrun as [([] & c3 & Hfl & Hrun)|(x & Hfl & ->)];
    destruct (flush_linked _ _ _ _ _ _ _ _ Hc2 Hfl) as (Hok3 & Hv3 & _ & Hl).
  2: { split; [done|]. unfold queue. rewrite Hv3. by apply moved_acked. }
  destruct (Hl eq_refl) as [hi Hc3]. destruct (site_loop_acked _ _ _ _ _ _ Hc3 Hrun) as [Hok' Ha]. split; [done|].
  unfold queue in Ha at 1. rewrite Hv3 in Ha. eapply acked_only_trans; [by apply moved_acked|exact Ha].
Qed.

Definition events_of (attempts : list Attempt) : list LinkEvent :=
  attempts ≫= λ a, match a with Connected events _ => events | _ => [] end.

(** C10: Over any number of connections, whatever breaks them, the engine takes nothing
    from the queue that no acknowledgement it received covers, save the frames of
    artifacts; and what joins the queue joins behind it. *)
Theorem engine_retires_acknowledged n attempts s s' (r : result bool (LinkError Ein Ear Eev Eob Ecu)) :
  rep_ok clock s → distinct (rv_entries (rep_view s)) →
  connect_loop clock send_fails instance_id options connect_options report_center_operations report_incremental_sync
    handle_offer n attempts s = (s', r) →
  rep_ok clock s' ∧ acked_only (acknowledges (events_of attempts)) (rv_entries (rep_view s)) (rv_entries (rep_view s')).
Proof.
  revert n s. induction attempts as [|[|events stopped|f stopped] attempts IH]; intros n s Hok Hd Hrun; cbn [connect_loop] in Hrun.
  - unfold mret in Hrun. injection Hrun as <- <-. split; [done|]. apply moved_acked, moved_refl.
  - unfold mret in Hrun. injection Hrun as <- <-. split; [done|]. apply moved_acked, moved_refl.
  - destruct (site_connected_loop _ _ _ _ _ _ _ events _) as [c r1] eqn:Hconn.
    apply connected_acked in Hconn as [Hok1 Ha1]; [|done..].
    assert (acked_only (acknowledges (events_of (Connected events stopped :: attempts))) (rv_entries (rep_view s)) (queue c)) as Ha.
    { eapply acked_only_weaken; [|exact Ha1]. intros q (f & Hf & Hq). exists f. split; [|done]. simpl. apply elem_of_app. by left. }
    assert (s' = cn_site c ∨ connect_loop clock send_fails instance_id options connect_options report_center_operations
      report_incremental_sync handle_offer (mk_refusals 0 0) attempts (cn_site c) = (s', r)) as [->|Hrest].
    { destruct r1 as [[|]|x]; [by left; injection Hrun..|]. destruct stopped; [by left; injection Hrun|by right]. }
    { by split. }
    apply IH in Hrest as [Hok' Ha']; [|done|by apply Ha1]. split; [done|]. eapply acked_only_trans; [exact Ha|].
    eapply acked_only_weaken; [|exact Ha']. intros q (f & Hf & Hq). exists f. split; [|done]. simpl. apply elem_of_app. by right.
  - destruct (refusal_verdict connect_options f (count_refusal f n)).
    { unfold mfail in Hrun. injection Hrun as <- <-. split; [done|]. apply moved_acked, moved_refl. }
    destruct stopped; [unfold mret in Hrun; injection Hrun as <- <-; split; [done|]; apply moved_acked, moved_refl|].
    by apply IH in Hrun.
Qed.
End runs.
