(* ===== verification/SiteWitnesses.v ===== *)
(** * SiteWitnesses: a site that reports

    The theorems on the reports and the connection of a site at concrete inputs: its
    SQLite tables in a database that answers, one machine and two artifacts, and the
    center of [IntakeWitnesses] at the other end. *)
From S2P Require Import Prelude Text Operation OperationEngine CommandCipher Database OperationRepository OperationWitnesses CenterDomain LinkMessages SiteSync Accounts AccountRepository WebWitnesses CenterOutbox OutboxRepository InboxRepository.
From S2P Require Import ResourceSnapshot EventRepository SyncCursors Artifact ArtifactRepository ArtifactStore CenterStores BindingRepository ProjectionRepository ProjectionSafety CenterSession SessionSafety.
From S2P Require Import CenterDispatch DispatchSafety CenterTracking CenterRuns CenterIntake IntakeContract IntakeSpec IntakeSafety TransferSafety IntakeSqlite CenterProcessor CenterWitnesses BindingWitnesses IntakeWitnesses.
From S2P Require Import Endpoints EndpointInventory SiteReports SiteReportsSpec ArtifactReports ArtifactStream SiteConnection LinkSafety SiteLoop.
Local Open Scope Z_scope.

(** ** The parameters *)

#[local, refine] Instance offset_uuid : UuidText := {
  show_uuid u := [(u + 100)%N];
  parse_uuid t := match t with [c] => if decide (100 <= c)%N then Some (c - 100)%N else None | _ => None end;
}.
Proof. intros u. simpl. rewrite decide_True by lia. f_equal. lia. Defined.
#[local, refine] Instance offset_uuid_laws : UuidTextLaws := {}.
Proof. - intros u Hin%list_elem_of_singleton. lia. - intros u Hin%list_elem_of_singleton. lia. Defined.

(** What a site queues here: snapshots without resources, deletions and artifacts. *)
Definition content_fields (m : EnvelopeMessage) : option (list (list N)) :=
  match m with
  | MsgContent (MsgEndpointSnapshot (mk_endpoint_snapshot id name address trust generation [] health)) =>
      Some [[0%N]; id; name; address; z_field trust; z_field generation; health]
  | MsgContent (MsgResourceDelta (mk_resource_delta id op None [] at_)) => Some [[1%N]; id; z_field op; z_field at_]
  | MsgContent (MsgArtifactManifest (mk_wire_manifest id name total sha)) => Some [[2%N]; id; name; z_field total; sha]
  | MsgContent (MsgArtifactChunk (mk_wire_chunk id index data)) => Some [[3%N]; id; z_field index; data]
  | _ => None
  end.
Definition fields_content (x : list (list N)) : option EnvelopeMessage :=
  match x with
  | [[0%N]; id; name; address; trust; generation; health] =>
      Some (MsgContent (MsgEndpointSnapshot
        (mk_endpoint_snapshot id name address (of_z_field trust) (of_z_field generation) [] health)))
  | [[1%N]; id; op; at_] => Some (MsgContent (MsgResourceDelta (mk_resource_delta id (of_z_field op) None [] (of_z_field at_))))
  | [[2%N]; id; name; total; sha] => Some (MsgContent (MsgArtifactManifest (mk_wire_manifest id name (of_z_field total) sha)))
  | [[3%N]; id; index; data] => Some (MsgContent (MsgArtifactChunk (mk_wire_chunk id (of_z_field index) data)))
  | _ => None
  end.
#[local] Arguments z_field : simpl never.
#[local] Arguments of_z_field : simpl never.

Lemma fields_content_fields m x : content_fields m = Some x → fields_content x = Some m.
Proof.
  destruct m as [| | |[s|d| |a|k]| | | |]; try done.
  - destruct s as [? ? ? ? ? [|] ?]; [|done]. intros [= <-]. cbn [fields_content]. by rewrite !of_z_field_z.
  - destruct d as [? ? [|] [|] ?]; try done. intros [= <-]. cbn [fields_content]. by rewrite !of_z_field_z.
  - destruct a. intros [= <-]. cbn [fields_content]. by rewrite of_z_field_z.
  - destruct k. intros [= <-]. cbn [fields_content]. by rewrite of_z_field_z.
Qed.

#[local] Instance content_json : EnvelopeJson := {
  envelope_to_json e :=
    m ← en_message e; x ← content_fields m;
    Some (digits (countable.encode (z_field (en_sequence e) :: z_field (en_acked_sequence e) :: x)));
  envelope_from_json text :=
    p ← of_digits text;
    match countable.decode p with
    | Some (a :: b :: x) => m ← fields_content x; Some (mk_envelope (of_z_field a) (of_z_field b) (Some m))
    | _ => None
    end;
}.
#[local, refine] Instance content_json_laws : EnvelopeJsonLaws := {}.
Proof.
  - intros [a b [m|]] text; [|done]. cbn [envelope_to_json content_json en_message]. simpl.
    intros (x & Hx & [= <-])%bind_Some. rewrite of_digits_digits. simpl.
    rewrite countable.decode_encode, (fields_content_fields _ _ Hx). simpl. by rewrite !of_z_field_z.
  - intros [a b [m|]] text; [|done]. simpl. intros (x & Hx & [= <-])%bind_Some. apply digits_scalar.
Defined.

#[local] Instance site_queue : OutboxStore (World OutboxTable) CenterOutboxRepositoryError :=
  sqlite_outbox quiet_env (Some ()).
#[local] Instance site_queue_laws : OutboxStoreLaws (World OutboxTable) CenterOutboxRepositoryError :=
  sqlite_outbox_laws quiet_env (Some ()) toy_random.
#[local] Instance site_artifacts : ArtifactRepository (World ArtifactTable) ArtifactRepositoryError :=
  sqlite_artifacts quiet_env.
#[local] Instance site_artifacts_laws : ArtifactRepositoryLaws (World ArtifactTable) ArtifactRepositoryError :=
  sqlite_artifact_laws quiet_env.

(** ** The site *)

Definition local_machine : EndpointInventoryItem :=
  mk_inventory_item
    (mk_endpoint machine (lit "machine") (lit "192.0.2.7") (SystemCa (mk_tls_certificate [48%N] (replicate 32 7%N)) 0) 9%N 0 0)
    [] [].
#[local] Instance one_machine : EndpointInventoryRepository (World ArtifactTable) () :=
  { list_endpoint_inventory := mret [local_machine] }.
#[local] Instance no_events : CenterEventTail (World ArtifactTable) () := {
  et_list_recent _ := mret []; et_list_after _ _ := mret []; et_contains _ := mret false;
}.

Definition bytes_sha256 (bytes : list N) : list N := (λ b, b `mod` 256)%N <$> take 32 (bytes ++ replicate 32 0%N).
Definition steady_disk : DiskEnv := mk_disk_env (λ _, None) (λ _ f, Ok (Z.of_nat (length f))) (λ _ f, f) (λ _, None).
Definition wall_clock (n : nat) : OffsetDateTime := noon + Z.of_nat n.
Definition fresh_id (n : nat) : Uuid := (1000 + N.of_nat n)%N.

Abbreviation DemoSite := (Reporter (World ArtifactTable) (World OutboxTable) (World CursorTables)).
Abbreviation DemoSiteError :=
  (ReportError () ArtifactRepositoryError () CenterOutboxRepositoryError SyncCursorRepositoryError).

Lemma wall_clock_forward n m : (n <= m)%nat → wall_clock n <= wall_clock m.
Proof. unfold wall_clock. lia. Qed.

Definition site_of (artifacts : ArtifactTable) (files : gmap ArtifactId (list N)) : DemoSite :=
  mk_reporter (mk_world artifacts 0) (mk_world ∅ 0) (mk_world (mk_cursor_tables {[branch]} ∅) 0) files [] 0 0 0.
Definition quiet_site : DemoSite := site_of ∅ ∅.

Lemma site_of_ok artifacts files : rep_ok wall_clock (site_of artifacts files).
Proof. split; [by intros ??|]. split; [by intros ??|]. by intros ??. Qed.

(** ** The inventory *)

Abbreviation demo_report := (report_endpoint_projection (Ein := ()) (Ear := ArtifactRepositoryError) (Eev := ())
  (Eob := CenterOutboxRepositoryError) (Ecu := SyncCursorRepositoryError) wall_clock fresh_id branch).
Definition reported_site : DemoSite := (demo_report quiet_site).1.
Definition settled_site : DemoSite := (demo_report reported_site).1.

Lemma report_settles_witness :
  length (pending_of branch (rv_entries (rep_view reported_site))) = 1%nat ∧
  rep_view settled_site = rep_view reported_site.
Proof.
  split; [vm_compute; reflexivity|].
  assert (demo_report quiet_site = (reported_site, Ok ())) as H1 by (vm_compute; reflexivity).
  assert (demo_report reported_site = (settled_site, Ok ())) as H2 by (vm_compute; reflexivity).
  assert (rep_ok wall_clock reported_site) as Hok.
  { apply (endpoint_report_spec wall_clock fresh_id branch wall_clock_forward) in H1 as [Hok _]; [exact Hok|].
    apply site_of_ok. }
  refine (report_settles wall_clock fresh_id branch wall_clock_forward quiet_site reported_site reported_site settled_site
    [local_machine] (rp_store quiet_site) (rp_store reported_site) (site_of_ok ∅ ∅) Hok _ _ _ H1 eq_refl H2).
  - reflexivity.
  - reflexivity.
  - constructor; [|constructor]. split; vm_compute; discriminate.
Defined.

(** ** Artifacts *)

Definition ready_artifact (id : ArtifactId) (created : OffsetDateTime) (bytes : list N) : Artifact :=
  mk_artifact id (lit "boot.log") (Z.of_nat (length bytes)) (Sha256Hex_from_bytes (bytes_sha256 bytes)) Ready
    (Z.of_nat (length bytes)) created created.
Definition older_log : Artifact := ready_artifact 800%N 10 [76; 79]%N.
Definition newer_log : Artifact := ready_artifact 700%N 20 [79; 75]%N.
Definition one_log_site : DemoSite := site_of {[800%N := row_of older_log]} {[800%N := [76; 79]%N]}.

Abbreviation demo_distribute := (distribute_artifact (Ein := ()) (Ear := ArtifactRepositoryError) (Eev := ())
  (Eob := CenterOutboxRepositoryError) (Ecu := SyncCursorRepositoryError) bytes_sha256 steady_disk wall_clock fresh_id branch
  ReportOptions_default 9).
Definition distributed_site : DemoSite := (demo_distribute older_log one_log_site).1.

Lemma bytes_sha256_bytes bytes : Forall (λ b, b < 256)%N (bytes_sha256 bytes).
Proof. apply Forall_fmap, Forall_forall. intros b _. simpl. apply N.mod_lt. lia. Qed.

Lemma default_chunk : ro_artifact_chunk_bytes ReportOptions_default = chunk_size.
Proof. unfold ReportOptions_default, chunk_size. cbn [ro_artifact_chunk_bytes]. reflexivity. Qed.

Lemma distribution_feeds_transfer_witness :
  length (pending_of branch (rv_entries (rep_view distributed_site))) = 2%nat ∧
  ∃ source manifest chunks v es,
    stale_retired branch ReportOptions_default 800%N ∅ v ∧
    queued branch v (rv_entries (rep_view distributed_site))
      (MsgContent (MsgArtifactManifest manifest) :: ((λ c, MsgContent (MsgArtifactChunk c)) <$> chunks)) es ∧
    announces bytes_sha256 source 800%N manifest ∧
    (∀ i c, chunks !! i = Some c → honest source 800%N i c ∧ wire_ok (MsgArtifactChunk c)) ∧
    ∀ i, (i * chunk_size < length source)%nat → is_Some (chunks !! i).
Proof.
  split; [vm_compute; reflexivity|].
  assert (demo_distribute older_log one_log_site = (distributed_site, Ok ())) as Hrun by (vm_compute; reflexivity).
  refine (distribution_feeds_transfer bytes_sha256 steady_disk wall_clock fresh_id branch ReportOptions_default 9
    wall_clock_forward older_log one_log_site distributed_site (Ok ()) (site_of_ok _ _) default_chunk _ bytes_sha256_bytes _ Hrun).
  - vm_compute. reflexivity.
  - apply (bool_decide_unpack _). vm_compute. exact I.
Defined.

(** The newer artifact is ready first; the older one becomes ready after it was
    reported. *)
Definition uploading_log : Artifact :=
  mk_artifact 800%N (lit "boot.log") 2 (Sha256Hex_from_bytes (bytes_sha256 [76; 79]%N)) Uploading 0 10 10.
Definition two_files : gmap ArtifactId (list N) := {[800%N := [76; 79]%N; 700%N := [79; 75]%N]}.
Definition early_table : ArtifactTable := {[800%N := row_of uploading_log; 700%N := row_of newer_log]}.
Definition late_table : ArtifactTable := {[800%N := row_of older_log; 700%N := row_of newer_log]}.

Abbreviation demo_stream := (report_artifacts (Ein := ()) (Ear := ArtifactRepositoryError) (Eev := ())
  (Eob := CenterOutboxRepositoryError) (Ecu := SyncCursorRepositoryError) bytes_sha256 steady_disk wall_clock fresh_id branch
  ReportOptions_default 9).
Definition streamed_site : DemoSite := (demo_stream (site_of early_table two_files)).1.
Definition late_site : DemoSite := put_rp_store streamed_site (mk_world late_table 0).
Definition passed_site : DemoSite := (demo_stream late_site).1.

Lemma early_table_ok : artifact_table_ok early_table.
Proof.
  assert (map_Forall (λ id m, ArtifactRepository.am_id m = id ∧ is_ok (stored_artifact_parts id m) = true) early_table) as Hall
    by (apply holds; vm_compute; reflexivity).
  exact Hall.
Qed.
Lemma late_table_ok : artifact_table_ok late_table.
Proof.
  assert (map_Forall (λ id m, ArtifactRepository.am_id m = id ∧ is_ok (stored_artifact_parts id m) = true) late_table) as Hall
    by (apply holds; vm_compute; reflexivity).
  exact Hall.
Qed.
Lemma early_site_ok : reporter_ok wall_clock (site_of early_table two_files).
Proof. split; [apply site_of_ok|exact early_table_ok]. Qed.
Lemma streamed_run : demo_stream (site_of early_table two_files) = (streamed_site, Ok StreamComplete).
Proof. vm_compute. reflexivity. Qed.
Lemma streamed_site_ok : reporter_ok wall_clock streamed_site.
Proof.
  exact (proj1 (report_artifacts_spec bytes_sha256 steady_disk wall_clock fresh_id branch ReportOptions_default 9
    wall_clock_forward _ _ _ early_site_ok streamed_run)).
Qed.

Lemma rows_replaced (s : DemoSite) (t : ArtifactTable) :
  reporter_ok wall_clock s → artifact_table_ok t →
  map_Forall (λ id a, bool_decide (a_created_at <$> artifact_view_of t !! id = Some (a_created_at a)) = true)
    (artifact_view (rp_store s)) →
  stream_step (Ein := ()) (Ear := ArtifactRepositoryError) (Eev := ())
    (Eob := CenterOutboxRepositoryError) (Ecu := SyncCursorRepositoryError) bytes_sha256 steady_disk wall_clock fresh_id branch ReportOptions_default 9 s (put_rp_store s (mk_world t 0)).
Proof.
  intros [Hok _] Ht Hall. apply step_elsewhere; [split; [exact Hok|exact Ht]| |done|done].
  intros id a Ha. specialize (Hall id a Ha). apply bool_decide_eq_true, fmap_Some in Hall as (a' & Ha' & Hc). by exists a'.
Qed.

Lemma late_artifact_never_reported_witness :
  a_state <$> artifact_view (rp_store late_site) !! 800%N = Some Ready ∧
  (demo_stream late_site).2 = Ok StreamComplete ∧
  passed_over branch 800%N passed_site ∧
  ∀ e, carries_b 800%N e → pends branch (rv_entries (rep_view passed_site)) e →
    pends branch (rv_entries (rep_view streamed_site)) e.
Proof.
  split; [vm_compute; reflexivity|]. split; [vm_compute; reflexivity|].
  assert (passed_over branch 800%N streamed_site) as Hpassed.
  { exists newer_log, uploading_log. split; [vm_compute; reflexivity|]. split; vm_compute; reflexivity. }
  assert (demo_stream late_site = (passed_site, Ok StreamComplete)) as Hrun by (vm_compute; reflexivity).
  refine (late_artifact_never_reported bytes_sha256 steady_disk wall_clock fresh_id branch ReportOptions_default 9
    wall_clock_forward 800%N streamed_site passed_site streamed_site_ok Hpassed
    (rtc_l _ _ late_site _ _ (rtc_l _ _ passed_site _ _ (rtc_refl _ _)))).
  - apply (rows_replaced _ _ streamed_site_ok late_table_ok). apply holds. vm_compute. reflexivity.
  - by eapply step_report.
Defined.

(** Both are ready: both are sent. *)
Definition both_site : DemoSite := site_of late_table two_files.
Definition both_sent : DemoSite := (demo_stream both_site).1.

Lemma stream_cursor_moves_witness :
  demo_stream both_site = (both_sent, Ok StreamComplete) ∧
  length (pending_of branch (rv_entries (rep_view both_sent))) = 4%nat ∧
  newer (anchor_artifact branch both_sent) older_log = false ∧
  waits bytes_sha256 branch ReportOptions_default older_log both_sent ∧
  waits bytes_sha256 branch ReportOptions_default newer_log both_sent.
Proof.
  assert (demo_stream both_site = (both_sent, Ok StreamComplete)) as Hrun by (vm_compute; reflexivity).
  split; [exact Hrun|]. split; [vm_compute; reflexivity|].
  assert (reporter_ok wall_clock both_site) as Hok by (split; [apply site_of_ok|exact late_table_ok]).
  assert (0 < ro_artifact_chunk_bytes ReportOptions_default)%nat as Hpos by (rewrite default_chunk; apply chunk_size_pos).
  pose proof (stream_cursor_moves bytes_sha256 steady_disk wall_clock fresh_id branch ReportOptions_default 9
    wall_clock_forward both_site both_sent (Ok StreamComplete) Hok Hpos Hrun) as Hsent.
  destruct (Hsent older_log) as [Hlast Holder]; [vm_compute; reflexivity|reflexivity|].
  destruct (Hsent newer_log) as [_ Hnewer]; [vm_compute; reflexivity|reflexivity|].
  split; [exact Hlast|]. split; [apply Holder|apply Hnewer]; vm_compute; reflexivity.
Defined.

(** ** The link *)

Definition no_offers (_ : OperationOffer) (_ : Envelope) : M DemoSite DemoSiteError () := mret ().
Definition reliable (_ : nat) : bool := false.

Lemma no_offers_queue offer envelope (s s' : DemoSite) (r : result () DemoSiteError) :
  rep_ok wall_clock s → no_offers offer envelope s = (s', r) →
  rep_ok wall_clock s' ∧ ∃ v ms es, queued branch (rv_entries (rep_view s)) v ms es ∧ rep_view s' = with_queue (rep_view s) v.
Proof.
  intros Hok [= <- <-]. split; [done|]. exists (rv_entries (rep_view s)), [], []. split; [constructor|].
  by rewrite with_queue_same.
Qed.

Lemma reported_run : demo_report quiet_site = (reported_site, Ok ()).
Proof. vm_compute. reflexivity. Qed.
Lemma reported_moved :
  rep_ok wall_clock reported_site ∧ moved branch (rv_entries (rep_view quiet_site)) (rv_entries (rep_view reported_site)).
Proof. exact (moves_endpoints wall_clock fresh_id branch wall_clock_forward _ _ _ (site_of_ok ∅ ∅) reported_run). Qed.
Lemma nothing_distinct : distinct ∅.
Proof. by intros k e k' e' He. Qed.
Lemma reported_distinct : distinct (rv_entries (rep_view reported_site)).
Proof. destruct reported_moved as [_ [Hev _]]. apply (evolves_distinct _ _ Hev). exact nothing_distinct. Qed.

Abbreviation DemoLink := (Link DemoSite DemoIntake).
Abbreviation LinkErr := (LinkError () ArtifactRepositoryError () CenterOutboxRepositoryError SyncCursorRepositoryError).
Abbreviation demo_link_step := (link_step (Ein := ()) (Ear := ArtifactRepositoryError) (Eev := ())
  (Eob := CenterOutboxRepositoryError) (Ecu := SyncCursorRepositoryError) (Epr := CenterProjectionRepositoryError)
  (Eac := ArtifactRepositoryError) (Ecc := SyncCursorRepositoryError)
  wall_clock reliable branch ReportOptions_default seconds pad no_offers).

Definition connected_link : DemoLink := mk_link (mk_connection reported_site [] [] 0) true 0 quiet_center [] 0.

Lemma connected_link_ok : link_ok wall_clock branch connected_link.
Proof.
  destruct reported_moved as [Hok _]. split.
  - exact quiet_center_ok.
  - exact Hok.
  - exact reported_distinct.
  - intros _. exists (-1). exact (fresh_linked wall_clock branch _ Hok reported_distinct).
  - apply Nat.le_refl.
  - intros i f m Hi. inversion Hi.
  - intros g q Hg. apply elem_of_nil in Hg. destruct Hg.
Qed.

Definition flushed_conn : Connection DemoSite :=
  (site_flush_outbox (Ein := ()) (Ear := ArtifactRepositoryError) (Eev := ()) (Eob := CenterOutboxRepositoryError)
     (Ecu := SyncCursorRepositoryError) reliable branch ReportOptions_default (ln_conn connected_link)).1.
Definition flushed_link : DemoLink := after_event (Ein := ()) (Ear := ArtifactRepositoryError) (Eev := ())
  (Eob := CenterOutboxRepositoryError) (Ecu := SyncCursorRepositoryError) connected_link flushed_conn (Ok ()) 0.
Definition first_frame : Envelope := default (mk_envelope 0 0 None) (head (cn_wire flushed_conn)).
Definition first_snapshot : Content := MsgEndpointSnapshot (snapshot_of local_machine 0).
Definition taken_intake : DemoIntake :=
  (demo_intake steady_files 900%N branch_site (en_sequence first_frame) first_snapshot quiet_center).1.
Definition ack_frame : Envelope := mk_envelope 0 0 (Some (MsgAck (en_sequence first_frame))).
Definition taken_link : DemoLink := mk_link flushed_conn true 1 taken_intake ([] ++ [ack_frame]) 0.
Definition heard_conn : Connection DemoSite :=
  (site_receive (Ein := ()) (Ear := ArtifactRepositoryError) (Eev := ()) (Eob := CenterOutboxRepositoryError)
     (Ecu := SyncCursorRepositoryError) wall_clock reliable branch ReportOptions_default no_offers ack_frame flushed_conn).1.
Definition heard_link : DemoLink := after_event (Ein := ()) (Ear := ArtifactRepositoryError) (Eev := ())
  (Eob := CenterOutboxRepositoryError) (Ecu := SyncCursorRepositoryError) taken_link heard_conn (Ok ()) 1.
Definition first_entry : OutboxEntry :=
  default (OutboxEntry_new 0%N 0%N 0 [] 0) (head (pending_of branch (rv_entries (rep_view reported_site)))).

Lemma flush_happens : demo_link_step connected_link flushed_link.
Proof.
  apply (link_flush _ _ _ _ _ _ _ connected_link flushed_conn (Ok ())); [reflexivity|]. vm_compute. reflexivity.
Qed.
Lemma take_happens : demo_link_step flushed_link taken_link.
Proof.
  refine (link_take _ _ _ _ _ _ _ flushed_link first_frame first_snapshot steady_files (drawn_ids 900%N) branch_site noon
    taken_intake (Ok ()) [ack_frame] eq_refl _ _ _ _ eq_refl _ _).
  - vm_compute. reflexivity.
  - vm_compute. reflexivity.
  - split; vm_compute; discriminate.
  - exact I.
  - vm_compute. reflexivity.
  - right. exists 0. reflexivity.
Qed.
Lemma hear_happens : demo_link_step taken_link heard_link.
Proof.
  apply (link_hear _ _ _ _ _ _ _ taken_link ack_frame heard_conn (Ok ())); [reflexivity|reflexivity|]. vm_compute. reflexivity.
Qed.

Lemma no_report_is_lost_witness :
  pending_of branch (queue (ln_conn heard_link)) = [] ∧
  (pends branch (queue (ln_conn heard_link)) first_entry ∨ reported_at branch heard_link first_entry).
Proof.
  split; [vm_compute; reflexivity|].
  refine (no_report_is_lost wall_clock reliable branch ReportOptions_default wall_clock_forward seconds pad no_offers
    no_offers_queue connected_link heard_link first_entry connected_link_ok
    (rtc_l _ _ _ _ flush_happens (rtc_l _ _ _ _ take_happens (rtc_l _ _ _ _ hear_happens (rtc_refl _ _)))) _ _ _).
  - split; [vm_compute; reflexivity|]. split; vm_compute; reflexivity.
  - eexists. eexists. split; vm_compute; reflexivity.
  - intros a Ha. vm_compute in Ha. discriminate Ha.
Defined.

(** ** The engine *)

Definition link_history : list Attempt :=
  [Failed NotBoundRefusal false;
   Connected [HeartbeatTick; Received (Frame ack_frame); Received InboundClosed] false;
   Failed OtherFailure false].
Abbreviation demo_engine := (connect_loop (Ein := ()) (Ear := ArtifactRepositoryError) (Eev := ())
  (Eob := CenterOutboxRepositoryError) (Ecu := SyncCursorRepositoryError) wall_clock reliable branch ReportOptions_default
  ConnectOptions_default (mret ())
  (report_incremental_sync bytes_sha256 steady_disk wall_clock fresh_id branch ReportOptions_default 9) no_offers).
Definition engine_site : DemoSite := (demo_engine (mk_refusals 0 0) link_history quiet_site).1.

Lemma engine_retires_acknowledged_witness :
  map_size (rv_entries (rep_view engine_site)) = 1%nat ∧ pending_of branch (rv_entries (rep_view engine_site)) = [] ∧
  rep_ok wall_clock engine_site ∧
  acked_only branch (acknowledges (events_of link_history)) (rv_entries (rep_view quiet_site)) (rv_entries (rep_view engine_site)).
Proof.
  split; [vm_compute; reflexivity|]. split; [vm_compute; reflexivity|].
  assert (demo_engine (mk_refusals 0 0) link_history quiet_site = (engine_site, Ok false)) as Hrun
    by (vm_compute; reflexivity).
  exact (engine_retires_acknowledged wall_clock reliable branch ReportOptions_default ConnectOptions_default
    wall_clock_forward (mret ())
    (report_incremental_sync bytes_sha256 steady_disk wall_clock fresh_id branch ReportOptions_default 9) no_offers
    (moves_ret wall_clock branch ())
    (moves_reports bytes_sha256 steady_disk wall_clock fresh_id branch ReportOptions_default 9 wall_clock_forward)
    no_offers_queue (mk_refusals 0 0) link_history quiet_site engine_site (Ok false) (site_of_ok ∅ ∅) nothing_distinct Hrun).
Defined.

(** A center that refuses once, lets the site connect, and then refuses twice: the
    limit of two is reached at the fifth attempt, not before. *)
Definition two_refusals : ConnectOptions := mk_connect_options (Some 2) None.
Definition refused_attempts : list Attempt :=
  [Failed NotBoundRefusal false; Connected [Received InboundClosed] false; Failed NotBoundRefusal false;
   Failed OtherFailure false; Failed NotBoundRefusal false; Failed NotBoundRefusal false].
Abbreviation refused_engine := (SiteConnection.run (Ein := ()) (Ear := ArtifactRepositoryError) (Eev := ())
  (Eob := CenterOutboxRepositoryError) (Ecu := SyncCursorRepositoryError) wall_clock reliable branch ReportOptions_default
  two_refusals (mret ())
  (report_incremental_sync bytes_sha256 steady_disk wall_clock fresh_id branch ReportOptions_default 9) no_offers).
Definition refused_site : DemoSite := (refused_engine refused_attempts quiet_site).1.

Lemma connect_loop_gives_up_witness :
  refused_engine refused_attempts quiet_site = (refused_site, Err NotBound) ∧
  ∃ l a rest, refused_attempts = l ++ a :: rest ∧ length l = 4%nat ∧
    verdict_after (Ein := ()) (Ear := ArtifactRepositoryError) (Eev := ())
      (Eob := CenterOutboxRepositoryError) (Ecu := SyncCursorRepositoryError) two_refusals (l ++ [a]) = Some NotBound.
Proof.
  assert (refused_engine refused_attempts quiet_site = (refused_site, Err NotBound)) as Hrun by (vm_compute; reflexivity).
  split; [exact Hrun|].
  destruct (connect_loop_gives_up wall_clock reliable branch ReportOptions_default two_refusals (mret ())
    (report_incremental_sync bytes_sha256 steady_disk wall_clock fresh_id branch ReportOptions_default 9) no_offers
    refused_attempts quiet_site refused_site (Err NotBound) Hrun) as [(Hr & _)|(l & a & rest & Hl & Hg & _ & Hv)];
    [discriminate Hr|].
  exists l, a, rest. split; [exact Hl|].
  destruct (verdict_after two_refusals (l ++ [a])) as [x|] eqn:Hx; [|destruct Hv as (b & _ & [=])].
  injection Hv as <-. split; [|reflexivity].
  assert (length l < 5)%nat as Hlen.
  { destruct (decide (length l < 5)%nat) as [|Hn]; [assumption|]. exfalso.
    assert (take 5 refused_attempts `prefix_of` l) as Hp.
    { rewrite Hl, take_app_le by lia. apply prefix_take. }
    destruct (Hg (take 4 refused_attempts) (Failed NotBoundRefusal false) Hp) as [Hno _]. vm_compute in Hno. discriminate Hno. }
  unfold refused_attempts in Hl.
  do 5 (destruct l as [|? l];
    [simpl in Hl; injection Hl as <- <-; vm_compute in Hx; first [discriminate Hx|reflexivity]
    |simpl in Hl; injection Hl as <- Hl]).
  simpl in Hlen. lia.
Defined.

(** ** The cursor of the endpoints *)

(** The endpoints 7 and 2, in this order, with a leading plus. *)
Definition stored_cursor_text : str := show_uuid 7%N ++ lit ":+3," ++ show_uuid 2%N ++ lit ":18446744073709551615".
Definition stored_watermark_two : Watermark := <[2%N := U64_MAX]> {[7%N := 3]}.

Lemma endpoint_cursor_codec_witness :
  parse_endpoint_cursor stored_cursor_text = Ok stored_watermark_two ∧
  parse_endpoint_cursor (format_endpoint_cursor stored_watermark_two) = Ok stored_watermark_two ∧
  format_endpoint_cursor stored_watermark_two ≠ stored_cursor_text.
Proof.
  assert (parse_endpoint_cursor stored_cursor_text = Ok stored_watermark_two) as Hp by (vm_compute; reflexivity).
  split; [exact Hp|]. split; [apply (endpoint_cursor_codec stored_cursor_text); left; exact Hp|].
  apply (bool_decide_unpack _). vm_compute. exact I.
Defined.
