(* ===== verification/BackupPackage.v ===== *)
(** * BackupPackage: the encrypted backup package

    Models [security/src/backup_package.rs]: the framed header, the manifest as
    associated data, the sealed payload and the verification of every entry.  The
    cipher, [serde_json] and SHA-256 are parameters; a [usize] has 64 bits. *)
From S2P Require Import Prelude Text Operation CommandCipher Framing Artifact.

Definition BACKUP_PACKAGE_MAGIC : list N := lit "RUTBK001".
Definition BACKUP_PACKAGE_FORMAT_VERSION : N := 1.
Definition MAX_ENTRY_NAME_LENGTH : nat := 255.
Definition MAX_ENTRIES : nat := 1024.
Definition MAX_MANIFEST_LENGTH : Z := 1024 * 1024.
Definition FORMAT_VERSION_BYTES : nat := 1.
Definition MANIFEST_LENGTH_BYTES : nat := 4.
Definition NONCE_LENGTH : nat := 24.
Definition HEADER_LENGTH : nat := length BACKUP_PACKAGE_MAGIC + FORMAT_VERSION_BYTES + MANIFEST_LENGTH_BYTES.
Definition MINIMUM_PACKAGE_LENGTH : nat := HEADER_LENGTH + NONCE_LENGTH + AUTHENTICATION_TAG_LENGTH.

Inductive BackupEntryKind :=
| KindDatabase | KindDatabaseWal | KindMasterKey | KindSystemMasterKey | KindInstanceMarker
| KindTlsCertificate | KindTlsPrivateKey | KindArtifactFile.
#[export] Instance BackupEntryKind_eq_dec : EqDecision BackupEntryKind.
Proof. solve_decision. Defined.

Record BackupEntry := mk_backup_entry { be_name : str; be_kind : BackupEntryKind; be_content : list N }.
Record DecryptedEntry := mk_decrypted_entry { de_name : str; de_kind : BackupEntryKind; de_content : list N }.
Record DecryptedBackup := mk_decrypted_backup {
  db_product_version : str;
  db_schema_version : Z;
  db_entries : list DecryptedEntry;
}.
#[export] Instance DecryptedEntry_eq_dec : EqDecision DecryptedEntry.
Proof. solve_decision. Defined.
#[export] Instance DecryptedBackup_eq_dec : EqDecision DecryptedBackup.
Proof. solve_decision. Defined.

Record BackupManifestEntry := mk_manifest_entry {
  me_name : str;
  me_kind : BackupEntryKind;
  me_length : Z;
  me_sha256 : str;
}.
Record BackupManifest := mk_backup_manifest {
  bm_product_version : str;
  bm_schema_version : Z;
  bm_entries : list BackupManifestEntry;
}.

#[export] Instance BackupManifestEntry_eq_dec : EqDecision BackupManifestEntry.
Proof. solve_decision. Defined.
#[export] Instance BackupManifest_eq_dec : EqDecision BackupManifest.
Proof. solve_decision. Defined.

Inductive BackupPackageError :=
| EmptyProductVersion
| EmptyEntryName
| EntryNameTooLong (length : nat)
| InvalidEntryName (name : str)
| DuplicateEntryName (name : str)
| TooManyEntries (count : nat)
| ManifestTooLong (length : nat)
| PayloadTooLarge
| BackupRandomnessUnavailable
| BackupInvalidMasterKeyLength
| BackupEncryptionFailed
| PackageTooShort (length : nat)
| UnsupportedFormat
| InvalidManifestLength (length : Z)
| InvalidManifest
| BackupAuthenticationFailed
| PayloadLengthMismatch (declared : Z) (payload : nat)
| Sha256Mismatch (name : str).

(** [serde_json] on the manifest. *)
Class ManifestJson := {
  manifest_to_vec : BackupManifest → option (list N);
  manifest_from_slice : list N → option BackupManifest;
}.

(** The manifests whose lengths are [u64]. *)
Definition manifest_ok (m : BackupManifest) : Prop := Forall (λ e, 0 ≤ me_length e ≤ U64_MAX)%Z (bm_entries m).

(** What is documented of it: a manifest is read back, a length is a [u64], and no text
    of a structure of a string, a number and a list is shorter than nine bytes, those
    of the array of an empty string, a digit and an empty list. *)
Class ManifestJsonLaws `{ManifestJson} := {
  manifest_roundtrip m bytes : manifest_ok m → manifest_to_vec m = Some bytes → manifest_from_slice bytes = Some m;
  manifest_bytes m bytes : manifest_to_vec m = Some bytes → byte_string bytes;
  manifest_lengths bytes m : manifest_from_slice bytes = Some m → manifest_ok m;
  manifest_shortest bytes m : manifest_from_slice bytes = Some m → 9 ≤ length bytes;
}.

(** ** Names *)

Definition validate_entry_name (name : str) : result () BackupPackageError :=
  if decide (name = []) then Err EmptyEntryName
  else if decide (MAX_ENTRY_NAME_LENGTH < length (as_bytes name)) then Err (EntryNameTooLong (length (as_bytes name)))
  else if decide (0%N ∈ as_bytes name) then Err (InvalidEntryName name)
  else Ok ().

(** [BackupEntry::new]. *)
Definition BackupEntry_new (name : str) (kind : BackupEntryKind) (content : list N)
    : result BackupEntry BackupPackageError :=
  let? _ := validate_entry_name name in Ok (mk_backup_entry name kind content).

(** The set of the names seen so far. *)
Fixpoint unseen_names (seen : list str) (names : list str) : result () BackupPackageError :=
  match names with
  | [] => Ok ()
  | name :: names => if decide (name ∈ seen) then Err (DuplicateEntryName name) else unseen_names (name :: seen) names
  end.
Definition ensure_unique_names (entries : list BackupEntry) : result () BackupPackageError :=
  unseen_names [] (be_name <$> entries).
Definition ensure_unique_manifest_names (entries : list BackupManifestEntry) : result () BackupPackageError :=
  unseen_names [] (me_name <$> entries).

(** The loop that validates the names of a manifest. *)
Fixpoint validate_names (entries : list BackupManifestEntry) : result () BackupPackageError :=
  match entries with
  | [] => Ok ()
  | entry :: entries => let? _ := validate_entry_name (me_name entry) in validate_names entries
  end.

(** [try_fold] of [checked_add] over the lengths. *)
Fixpoint add_lengths (overflow : Z → BackupPackageError) (total : Z) (lengths : list Z)
    : result Z BackupPackageError :=
  match lengths with
  | [] => Ok total
  | length :: lengths =>
      let? total := ok_or (checked_add_u64 total length) (overflow total) in add_lengths overflow total lengths
  end.

(** [u32::to_le_bytes] and [u32::from_le_bytes]. *)
Definition to_le_bytes (n : Z) : list N := Z.to_N <$> reverse (to_be_bytes n).
Definition from_le_bytes (bytes : list N) : Z :=
  match bytes with
  | [b0; b1; b2; b3] => from_be_bytes (Z.of_N b3) (Z.of_N b2) (Z.of_N b1) (Z.of_N b0)
  | _ => 0
  end.

Definition framed_header_and_manifest (manifest_bytes : list N) : result (list N) BackupPackageError :=
  let? manifest_length :=
    ok_or (u32_try_from (Z.of_nat (length manifest_bytes))) (ManifestTooLong (length manifest_bytes)) in
  Ok (BACKUP_PACKAGE_MAGIC ++ [BACKUP_PACKAGE_FORMAT_VERSION] ++ to_le_bytes manifest_length ++ manifest_bytes).

Definition read_manifest_length (package : list N) : result Z BackupPackageError :=
  let length :=
    from_le_bytes (take MANIFEST_LENGTH_BYTES
      (drop (length BACKUP_PACKAGE_MAGIC + FORMAT_VERSION_BYTES) package)) in
  if (MAX_MANIFEST_LENGTH <? length)%Z then Err (InvalidManifestLength length) else Ok length.

Section package.
Context {Key : Type} `{CipherSuite Key} `{ManifestJson}.
Context (sha256 : list N → list N).

Definition hex_sha256 (content : list N) : str := Sha256Hex_from_bytes (sha256 content).

Definition manifest_entry (entry : BackupEntry) : BackupManifestEntry :=
  mk_manifest_entry (be_name entry) (be_kind entry) (Z.of_nat (length (be_content entry)))
    (hex_sha256 (be_content entry)).

Definition backup_cipher (master_key : Key) : result Key BackupPackageError :=
  if aead_key_ok master_key then Ok master_key else Err BackupInvalidMasterKeyLength.

(** [create_backup_package]; [random] is what [getrandom::fill] delivered. *)
Definition create_backup_package (random : option (list N)) (master_key : Key) (product_version : str)
    (schema_version : Z) (entries : list BackupEntry) : result (list N) BackupPackageError :=
  if decide (product_version = []) then Err EmptyProductVersion
  else if decide (MAX_ENTRIES < length entries) then Err (TooManyEntries (length entries))
  else
    let? _ := ensure_unique_names entries in
    let manifest := mk_backup_manifest product_version schema_version (manifest_entry <$> entries) in
    let? manifest_bytes := ok_or (manifest_to_vec manifest) InvalidManifest in
    if (MAX_MANIFEST_LENGTH <? Z.of_nat (length manifest_bytes))%Z
    then Err (ManifestTooLong (length manifest_bytes))
    else
      let? payload_length :=
        add_lengths (λ _, PayloadTooLarge) 0 ((λ e, Z.of_nat (length (be_content e))) <$> entries) in
      let payload := concat (be_content <$> entries) in
      let? nonce := ok_or random BackupRandomnessUnavailable in
      let? cipher := backup_cipher master_key in
      let? associated_data := framed_header_and_manifest manifest_bytes in
      let? ciphertext := ok_or (aead_encrypt cipher nonce associated_data payload) BackupEncryptionFailed in
      Ok (associated_data ++ nonce ++ ciphertext).

(** The loop that cuts the payload into the entries of the manifest and verifies
    each. *)
Fixpoint verify_entries (plaintext : list N) (entries : list BackupManifestEntry)
    : result (list DecryptedEntry) BackupPackageError :=
  match entries with
  | [] => Ok []
  | entry :: entries =>
      let content := take (Z.to_nat (me_length entry)) plaintext in
      if decide (hex_sha256 content ≠ me_sha256 entry) then Err (Sha256Mismatch (me_name entry))
      else
        let? rest := verify_entries (drop (Z.to_nat (me_length entry)) plaintext) entries in
        Ok (mk_decrypted_entry (me_name entry) (me_kind entry) content :: rest)
  end.

Definition open_backup_package (master_key : Key) (package : list N)
    : result DecryptedBackup BackupPackageError :=
  if decide (length package < MINIMUM_PACKAGE_LENGTH) then Err (PackageTooShort (length package))
  else if negb (starts_with BACKUP_PACKAGE_MAGIC package) then Err UnsupportedFormat
  else if decide (package !! length BACKUP_PACKAGE_MAGIC ≠ Some BACKUP_PACKAGE_FORMAT_VERSION)
  then Err UnsupportedFormat
  else
    let? manifest_length := read_manifest_length package in
    let manifest_end := HEADER_LENGTH + Z.to_nat manifest_length in
    if decide (length package < manifest_end + NONCE_LENGTH + AUTHENTICATION_TAG_LENGTH)
    then Err (PackageTooShort (length package))
    else
      let? manifest :=
        ok_or (manifest_from_slice (drop HEADER_LENGTH (take manifest_end package))) InvalidManifest in
      if decide (MAX_ENTRIES < length (bm_entries manifest))
      then Err (TooManyEntries (length (bm_entries manifest)))
      else
        let? _ := validate_names (bm_entries manifest) in
        let? _ := ensure_unique_manifest_names (bm_entries manifest) in
        let? cipher := backup_cipher master_key in
        let nonce := take NONCE_LENGTH (drop manifest_end package) in
        let? plaintext :=
          ok_or (aead_decrypt cipher nonce (take manifest_end package) (drop (manifest_end + NONCE_LENGTH) package))
            BackupAuthenticationFailed in
        let? declared_total :=
          add_lengths (λ total, PayloadLengthMismatch total (length plaintext)) 0
            (me_length <$> bm_entries manifest) in
        if decide (declared_total ≠ Z.of_nat (length plaintext))
        then Err (PayloadLengthMismatch declared_total (length plaintext))
        else
          let? entries := verify_entries plaintext (bm_entries manifest) in
          Ok (mk_decrypted_backup (bm_product_version manifest) (bm_schema_version manifest) entries).
End package.

(** ** The parts *)

Lemma unseen_names_Ok seen names :
  unseen_names seen names = Ok () ↔ NoDup names ∧ Forall (λ n, n ∉ seen) names.
Proof.
  revert seen. induction names as [|name names IH]; intros seen; cbn [unseen_names].
  { split; [intros _; by repeat constructor|done]. }
  rewrite NoDup_cons, Forall_cons. case_decide as Hin; [naive_solver|].
  rewrite IH, !Forall_forall. setoid_rewrite not_elem_of_cons. split.
  - intros [Hnd Hall]. split; [split; [|done]|split; [done|]]; [intros Hx; by destruct (Hall _ Hx)|].
    intros x Hx. by destruct (Hall _ Hx).
  - intros [[Hne Hnd] [_ Hall]]. split; [done|]. intros x Hx. split; [by intros ->|by apply Hall].
Qed.

Lemma unique_names_Ok names : unseen_names [] names = Ok () ↔ NoDup names.
Proof.
  rewrite unseen_names_Ok. split; [by intros [? _]|]. intros Hn. split; [done|].
  apply Forall_forall. intros x _. apply not_elem_of_nil.
Qed.

Lemma validate_names_Ok entries :
  validate_names entries = Ok () ↔ Forall (λ e, validate_entry_name (me_name e) = Ok ()) entries.
Proof.
  induction entries as [|e entries IH]; cbn [validate_names]; [split; [constructor|done]|].
  rewrite Forall_cons, <- IH. destruct (validate_entry_name (me_name e)) as [[]|]; cbn [result_bind]; naive_solver.
Qed.

Definition sum_lengths (lengths : list Z) : Z := foldr Z.add 0%Z lengths.

Lemma sum_lengths_nonneg lengths : Forall (λ n, 0 ≤ n)%Z lengths → (0 ≤ sum_lengths lengths)%Z.
Proof. induction 1; simpl; [done|lia]. Qed.

Lemma add_lengths_Ok overflow total lengths n :
  Forall (λ n, 0 ≤ n)%Z lengths → (total ≤ U64_MAX)%Z →
  add_lengths overflow total lengths = Ok n ↔ n = (total + sum_lengths lengths)%Z ∧ (n ≤ U64_MAX)%Z.
Proof.
  intros Hl. revert total. induction Hl as [|x lengths Hx Hl IH]; intros total Ht; cbn [add_lengths sum_lengths foldr].
  { rewrite Z.add_0_r. naive_solver. }
  pose proof (sum_lengths_nonneg _ Hl) as Hs. unfold sum_lengths in *.
  destruct (checked_add_u64 total x) as [t|] eqn:Hc; cbn [ok_or result_bind].
  - apply checked_add_u64_Some in Hc as [-> Hc]. rewrite IH by done. by rewrite Z.add_assoc.
  - apply checked_add_u64_None in Hc. split; [done|]. intros [-> Hn]. lia.
Qed.

Lemma le_bytes_roundtrip n : (0 ≤ n ≤ U32_MAX)%Z →
  length (to_le_bytes n) = MANIFEST_LENGTH_BYTES ∧ from_le_bytes (to_le_bytes n) = n.
Proof.
  intros Hn. destruct (be_digits n Hn) as (b0 & b1 & b2 & b3 & Hb & <-). unfold to_le_bytes. rewrite Hb.
  cbn. split; [done|]. unfold to_be_bytes in Hb. injection Hb as <- <- <- <-.
  rewrite !Z2N.id by (apply Z.mod_pos; lia). done.
Qed.

Lemma le_bytes_inverse bytes : length bytes = MANIFEST_LENGTH_BYTES → byte_string bytes →
  (0 ≤ from_le_bytes bytes ≤ U32_MAX)%Z ∧ to_le_bytes (from_le_bytes bytes) = bytes.
Proof.
  destruct bytes as [|b0 [|b1 [|b2 [|b3 [|? ?]]]]]; try done. intros _ Hb.
  unfold byte_string in Hb. rewrite !Forall_cons in Hb. destruct Hb as (? & ? & ? & ? & _).
  assert (0 ≤ Z.of_N b0 < 256 ∧ 0 ≤ Z.of_N b1 < 256 ∧ 0 ≤ Z.of_N b2 < 256 ∧ 0 ≤ Z.of_N b3 < 256)%Z
    as (? & ? & ? & ?) by lia. cbn [from_le_bytes].
  split; [unfold from_be_bytes, U32_MAX; lia|].
  unfold to_le_bytes. rewrite (from_be_inj (Z.of_N b3) (Z.of_N b2) (Z.of_N b1) (Z.of_N b0) _) by done.
  cbn. by rewrite !N2Z.id.
Qed.

(** The authenticated prefix. *)
Definition prefix_of_manifest (manifest_bytes : list N) : list N :=
  BACKUP_PACKAGE_MAGIC ++ [BACKUP_PACKAGE_FORMAT_VERSION] ++
  to_le_bytes (Z.of_nat (length manifest_bytes)) ++ manifest_bytes.

Lemma framed_Ok bytes : (Z.of_nat (length bytes) ≤ MAX_MANIFEST_LENGTH)%Z →
  framed_header_and_manifest bytes = Ok (prefix_of_manifest bytes).
Proof.
  intros Hl. unfold framed_header_and_manifest, u32_try_from. rewrite decide_True; [done|].
  unfold MAX_MANIFEST_LENGTH, U32_MAX in *. lia.
Qed.

Lemma prefix_length bytes : (Z.of_nat (length bytes) ≤ MAX_MANIFEST_LENGTH)%Z →
  length (prefix_of_manifest bytes) = HEADER_LENGTH + length bytes.
Proof.
  intros Hl. unfold prefix_of_manifest. rewrite !length_app.
  destruct (le_bytes_roundtrip (Z.of_nat (length bytes))) as [-> _].
  { unfold MAX_MANIFEST_LENGTH, U32_MAX in *. lia. }
  cbn. lia.
Qed.

(** The first thirteen bytes. *)
Lemma header_split package :
  HEADER_LENGTH ≤ length package → starts_with BACKUP_PACKAGE_MAGIC package = true →
  package !! length BACKUP_PACKAGE_MAGIC = Some BACKUP_PACKAGE_FORMAT_VERSION →
  ∃ le rest, length le = MANIFEST_LENGTH_BYTES ∧
    package = (BACKUP_PACKAGE_MAGIC ++ [BACKUP_PACKAGE_FORMAT_VERSION] ++ le) ++ rest.
Proof.
  unfold starts_with. destruct (strip_prefix _ _) as [rest|] eqn:Hs; [|done]. intros Hl _ Hv.
  apply strip_prefix_Some in Hs as ->. rewrite lookup_app_r, Nat.sub_diag in Hv by done.
  destruct rest as [|v rest]; [done|]. injection Hv as ->. rewrite length_app in Hl. cbn in Hl.
  exists (take MANIFEST_LENGTH_BYTES rest), (drop MANIFEST_LENGTH_BYTES rest).
  split; [apply length_take_le; cbn; lia|]. rewrite <- !app_assoc. do 2 f_equal. by rewrite take_drop.
Qed.

Lemma take_drop_app {A} (h rest : list A) n m :
  take (length h + n) (h ++ rest) = h ++ take n rest ∧
  drop (length h) (take (length h + n) (h ++ rest)) = take n rest ∧
  drop (length h + n) (h ++ rest) = drop n rest ∧ drop (length h + n + m) (h ++ rest) = drop (n + m) rest.
Proof.
  rewrite take_app_add. rewrite drop_app_length. rewrite drop_app_add. by rewrite <- Nat.add_assoc, drop_app_add.
Qed.

(** ** What opens *)

Section exact.
Context {Key : Type} `{CipherSuiteLaws Key} `{ManifestJsonLaws}.
Context (sha256 : list N → list N).
Implicit Types (k : Key) (backup : DecryptedBackup).

(** A line of the manifest describes an entry. *)
Definition describes (line : BackupManifestEntry) (entry : DecryptedEntry) : Prop :=
  line = mk_manifest_entry (de_name entry) (de_kind entry) (Z.of_nat (length (de_content entry)))
           (hex_sha256 sha256 (de_content entry)).

(** A package that is a sealed backup: its framed manifest describes the entries
    and is bound, with the nonce, to their contents. *)
Definition sealed k backup (manifest_bytes nonce ciphertext : list N) : Prop :=
  ∃ lines, manifest_from_slice manifest_bytes =
      Some (mk_backup_manifest (db_product_version backup) (db_schema_version backup) lines) ∧
    length lines ≤ MAX_ENTRIES ∧ Forall (λ l, validate_entry_name (me_name l) = Ok ()) lines ∧
    NoDup (me_name <$> lines) ∧ aead_key_ok k = true ∧
    aead_encrypt k nonce (prefix_of_manifest manifest_bytes) (concat (de_content <$> db_entries backup)) =
      Some ciphertext ∧
    (Z.of_nat (length (concat (de_content <$> db_entries backup))) ≤ U64_MAX)%Z ∧
    Forall2 describes lines (db_entries backup).

(** The rest of [open_backup_package], once the package is cut. *)
Definition open_parts k (manifest_bytes nonce ciphertext : list N) : result DecryptedBackup BackupPackageError :=
  let? manifest := ok_or (manifest_from_slice manifest_bytes) InvalidManifest in
  if decide (MAX_ENTRIES < length (bm_entries manifest))
  then Err (TooManyEntries (length (bm_entries manifest)))
  else
    let? _ := validate_names (bm_entries manifest) in
    let? _ := ensure_unique_manifest_names (bm_entries manifest) in
    let? cipher := backup_cipher k in
    let? plaintext :=
      ok_or (aead_decrypt cipher nonce (prefix_of_manifest manifest_bytes) ciphertext) BackupAuthenticationFailed in
    let? declared_total :=
      add_lengths (λ total, PayloadLengthMismatch total (length plaintext)) 0 (me_length <$> bm_entries manifest) in
    if decide (declared_total ≠ Z.of_nat (length plaintext))
    then Err (PayloadLengthMismatch declared_total (length plaintext))
    else
      let? entries := verify_entries sha256 plaintext (bm_entries manifest) in
      Ok (mk_decrypted_backup (bm_product_version manifest) (bm_schema_version manifest) entries).

Lemma open_cut k manifest_bytes nonce ciphertext :
  (Z.of_nat (length manifest_bytes) ≤ MAX_MANIFEST_LENGTH)%Z → length nonce = NONCE_LENGTH →
  AUTHENTICATION_TAG_LENGTH ≤ length ciphertext →
  open_backup_package sha256 k (prefix_of_manifest manifest_bytes ++ nonce ++ ciphertext) =
  open_parts k manifest_bytes nonce ciphertext.
Proof.
  intros Hm Hn Hc. set (le := to_le_bytes (Z.of_nat (length manifest_bytes))).
  destruct (le_bytes_roundtrip (Z.of_nat (length manifest_bytes))) as [Hle Hlen].
  { unfold MAX_MANIFEST_LENGTH, U32_MAX in *. lia. }
  fold le in Hle, Hlen. unfold open_backup_package, open_parts.
  set (package := prefix_of_manifest manifest_bytes ++ nonce ++ ciphertext).
  assert (package = (BACKUP_PACKAGE_MAGIC ++ [BACKUP_PACKAGE_FORMAT_VERSION] ++ le) ++ manifest_bytes ++ nonce ++ ciphertext) as Hp.
  { unfold package, prefix_of_manifest. by rewrite <- !app_assoc. }
  assert (length (BACKUP_PACKAGE_MAGIC ++ [BACKUP_PACKAGE_FORMAT_VERSION] ++ le) = HEADER_LENGTH) as Hh
    by (rewrite !length_app, Hle; done).
  assert (length package = HEADER_LENGTH + length manifest_bytes + NONCE_LENGTH + length ciphertext) as Hpl
    by (rewrite Hp, !length_app, Hn, <- Hh, !length_app; lia).
  rewrite decide_False by (unfold MINIMUM_PACKAGE_LENGTH; lia).
  assert (starts_with BACKUP_PACKAGE_MAGIC package = true) as ->
    by (unfold starts_with; by rewrite Hp, <- !app_assoc, strip_prefix_app).
  assert (read_manifest_length package = Ok (Z.of_nat (length manifest_bytes))) as Hrd.
  { unfold read_manifest_length. rewrite Hp.
    change (length BACKUP_PACKAGE_MAGIC + FORMAT_VERSION_BYTES) with (length (BACKUP_PACKAGE_MAGIC ++ [BACKUP_PACKAGE_FORMAT_VERSION])).
    rewrite (app_assoc BACKUP_PACKAGE_MAGIC), <- (app_assoc _ le), drop_app_length, take_app_length' by done.
    rewrite Hlen. destruct (Z.ltb_spec MAX_MANIFEST_LENGTH (Z.of_nat (length manifest_bytes))); [lia|done]. }
  cbn [negb]. rewrite decide_False.
  2: { rewrite Hp, <- !app_assoc, lookup_app_r, Nat.sub_diag by done. by intros Hne; apply Hne. }
  rewrite Hrd. cbn [result_bind]. rewrite Nat2Z.id, decide_False by lia.
  destruct (take_drop_app (BACKUP_PACKAGE_MAGIC ++ [BACKUP_PACKAGE_FORMAT_VERSION] ++ le)
    (manifest_bytes ++ nonce ++ ciphertext) (length manifest_bytes) NONCE_LENGTH) as (T1 & T2 & T3 & T4).
  rewrite Hh, <- Hp in T1, T2, T3, T4.
  rewrite take_app_length in T1, T2. rewrite drop_app_length in T3. rewrite drop_app_add, drop_app_length' in T4 by done.
  rewrite T2, T3, T4, T1, take_app_length' by done.
  unfold prefix_of_manifest. rewrite <- !app_assoc. done.
Qed.

(** Whatever opens has this form. *)
Lemma open_form k package backup :
  byte_string package → open_backup_package sha256 k package = Ok backup →
  ∃ manifest_bytes nonce ciphertext,
    package = prefix_of_manifest manifest_bytes ++ nonce ++ ciphertext ∧
    (Z.of_nat (length manifest_bytes) ≤ MAX_MANIFEST_LENGTH)%Z ∧ length nonce = NONCE_LENGTH ∧
    AUTHENTICATION_TAG_LENGTH ≤ length ciphertext.
Proof.
  unfold open_backup_package. intros Hb Ho. case_decide as Hmin; [done|].
  destruct (starts_with _ _) eqn:Hs; [|done]. cbn [negb] in Ho.
  destruct (decide _) as [|Hv]; [done|]. apply dec_stable in Hv.
  apply result_bind_ok in Ho as (n & Hn & Ho).
  destruct (header_split package) as (le & rest & Hle & Hp); [unfold MINIMUM_PACKAGE_LENGTH in Hmin; lia|done..|].
  assert (byte_string le ∧ byte_string rest) as [Hlb Hrb].
  { unfold byte_string in *. rewrite Hp, !Forall_app in Hb. naive_solver. }
  destruct (le_bytes_inverse le Hle Hlb) as [Hr Hinv].
  assert (n = from_le_bytes le ∧ (n ≤ MAX_MANIFEST_LENGTH)%Z) as [-> Hmax].
  { unfold read_manifest_length in Hn. rewrite Hp in Hn.
    change (length BACKUP_PACKAGE_MAGIC + FORMAT_VERSION_BYTES) with (length (BACKUP_PACKAGE_MAGIC ++ [BACKUP_PACKAGE_FORMAT_VERSION])) in Hn.
    rewrite (app_assoc BACKUP_PACKAGE_MAGIC), <- (app_assoc _ le), drop_app_length, take_app_length' in Hn by done.
    destruct (Z.ltb_spec MAX_MANIFEST_LENGTH (from_le_bytes le)); [done|]. injection Hn as <-. done. }
  case_decide as Hlen; [done|].
  assert (length package = HEADER_LENGTH + length rest) as Hpl by (rewrite Hp, !length_app, Hle; cbn; lia).
  set (m := Z.to_nat (from_le_bytes le)) in *.
  exists (take m rest), (take NONCE_LENGTH (drop m rest)), (drop NONCE_LENGTH (drop m rest)).
  assert (length (take m rest) = m) as Hm by (apply length_take_le; lia).
  split_and!.
  - rewrite take_drop. unfold prefix_of_manifest. rewrite Hm. unfold m at 1. rewrite Z2Nat.id, Hinv by lia.
    rewrite <- !app_assoc, take_drop. by rewrite Hp, <- !app_assoc.
  - rewrite Hm. unfold m. lia.
  - apply length_take_le. rewrite length_drop. lia.
  - rewrite !length_drop. lia.
Qed.

Lemma verify_entries_Ok lines plaintext entries :
  Forall (λ l, 0 ≤ me_length l)%Z lines → sum_lengths (me_length <$> lines) = Z.of_nat (length plaintext) →
  verify_entries sha256 plaintext lines = Ok entries ↔
  Forall2 describes lines entries ∧ concat (de_content <$> entries) = plaintext.
Proof.
  intros Hl. revert plaintext entries. induction Hl as [|l lines Hl Hls IH]; intros plaintext entries Hsum.
  { cbn in *. assert (plaintext = []) as -> by (by destruct plaintext). split.
    - intros [= <-]. by split.
    - by intros [->%Forall2_nil_inv_l _]. }
  cbn [verify_entries fmap list_fmap sum_lengths foldr] in *.
  assert (0 ≤ sum_lengths (me_length <$> lines))%Z as Hpos by (apply sum_lengths_nonneg, Forall_fmap, Hls).
  unfold sum_lengths in Hpos, Hsum. set (n := Z.to_nat (me_length l)).
  assert (length (take n plaintext) = n) as Hn by (apply length_take_le; lia).
  specialize (IH (drop n plaintext)). rewrite length_drop in IH. split.
  - case_decide as Hsha; [done|]. intros (rest & Hrest & [= <-])%result_bind_ok.
    apply IH in Hrest as [Hall Hcat]; [|unfold sum_lengths; lia]. split.
    + constructor; [|done]. unfold describes. cbn. rewrite Hn, Hsha. unfold n. rewrite Z2Nat.id by done. by destruct l.
    + cbn. by rewrite Hcat, take_drop.
  - intros [(e & rest & Hd & Hall & ->)%Forall2_cons_inv_l Hcat]. unfold describes in Hd.
    cbn in Hcat. assert (n = length (de_content e)) as Hne by (unfold n; rewrite Hd; cbn; lia).
    assert (take n plaintext = de_content e ∧ drop n plaintext = concat (de_content <$> rest)) as [-> Hdrop]
      by (rewrite <- Hcat, Hne, take_app_length, drop_app_length; done).
    rewrite decide_False by (rewrite Hd; cbn; intros Hx; by apply Hx).
    rewrite (proj2 (IH rest ltac:(unfold sum_lengths; lia)) (conj Hall (eq_sym Hdrop))). cbn [result_bind].
    rewrite Hd. by destruct e.
Qed.

Lemma described_lengths lines entries :
  Forall2 describes lines entries →
  sum_lengths (me_length <$> lines) = Z.of_nat (length (concat (de_content <$> entries))).
Proof.
  induction 1 as [|l e lines entries -> _ IH]; [done|]. unfold sum_lengths in *. cbn. rewrite IH, length_app. lia.
Qed.

Lemma open_parts_sealed k backup manifest_bytes nonce ciphertext :
  open_parts k manifest_bytes nonce ciphertext = Ok backup ↔ sealed k backup manifest_bytes nonce ciphertext.
Proof.
  unfold open_parts, sealed, backup_cipher. split.
  - intros Ho. apply result_bind_ok in Ho as (m & Hm%ok_or_ok & Ho). case_decide as Hcount; [done|].
    apply result_bind_ok in Ho as ([] & Hv%validate_names_Ok & Ho).
    apply result_bind_ok in Ho as ([] & Hu & Ho). unfold ensure_unique_manifest_names in Hu. apply unique_names_Ok in Hu.
    destruct (aead_key_ok k) eqn:Hk; [|done]. cbn [result_bind] in Ho.
    apply result_bind_ok in Ho as (plaintext & Hdec%ok_or_ok & Ho).
    apply result_bind_ok in Ho as (total & Htot & Ho).
    pose proof (manifest_lengths _ _ Hm) as Hok. unfold manifest_ok in Hok.
    assert (Forall (λ l, 0 ≤ me_length l)%Z (bm_entries m)) as Hpos by (eapply Forall_impl; [exact Hok|]; cbn; lia).
    apply add_lengths_Ok in Htot as [-> Hmax]; [|by apply Forall_fmap|done]. rewrite Z.add_0_l in *.
    case_decide as Hsum; [done|].
    apply result_bind_ok in Ho as (entries & Hent & [= <-]). apply verify_entries_Ok in Hent as [Hall Hcat]; [|done..].
    exists (bm_entries m). cbn. rewrite Hcat. split_and!; try done; [by destruct m|lia|by apply decrypt_authentic|lia].
  - intros (lines & Hm & Hcount & Hv & Hu & Hk & Henc & Hmax & Hall). rewrite Hm. cbn [ok_or result_bind bm_entries].
    rewrite decide_False by lia. rewrite (proj2 (validate_names_Ok _) Hv). cbn [result_bind].
    unfold ensure_unique_manifest_names. rewrite (proj2 (unique_names_Ok _) Hu). cbn [result_bind]. rewrite Hk.
    cbn [result_bind]. rewrite (decrypt_encrypt _ _ _ _ _ Henc). cbn [ok_or result_bind].
    pose proof (manifest_lengths _ _ Hm) as Hok. unfold manifest_ok in Hok. cbn in Hok.
    assert (Forall (λ l, 0 ≤ me_length l)%Z lines) as Hpos by (eapply Forall_impl; [exact Hok|]; cbn; lia).
    pose proof (described_lengths _ _ Hall) as Hsum.
    rewrite (proj2 (add_lengths_Ok _ 0 (me_length <$> lines) (sum_lengths (me_length <$> lines)) ltac:(by apply Forall_fmap) ltac:(done))).
    2: { rewrite Hsum. split; [done|lia]. }
    cbn [result_bind]. rewrite decide_False by (rewrite Hsum; intros Hx; by apply Hx).
    rewrite (proj2 (verify_entries_Ok lines _ (db_entries backup) Hpos Hsum) (conj Hall eq_refl)). cbn. by destruct backup.
Qed.

(** What opens is a sealed backup and nothing else. *)
Lemma open_sealed k package backup :
  byte_string package →
  open_backup_package sha256 k package = Ok backup ↔
  ∃ manifest_bytes nonce ciphertext,
    package = prefix_of_manifest manifest_bytes ++ nonce ++ ciphertext ∧
    (Z.of_nat (length manifest_bytes) ≤ MAX_MANIFEST_LENGTH)%Z ∧ length nonce = NONCE_LENGTH ∧
    sealed k backup manifest_bytes nonce ciphertext.
Proof.
  intros Hb. split.
  - intros Ho. destruct (open_form _ _ _ Hb Ho) as (mb & nonce & c & -> & Hm & Hn & Hc).
    exists mb, nonce, c. rewrite open_cut in Ho by done. by rewrite open_parts_sealed in Ho.
  - intros (mb & nonce & c & -> & Hm & Hn & Hs).
    assert (AUTHENTICATION_TAG_LENGTH ≤ length c) as Hc.
    { destruct Hs as (? & _ & _ & _ & _ & _ & Henc & _). destruct (encrypt_bytes _ _ _ _ _ Henc) as [_ ->]. lia. }
    rewrite open_cut by done. by apply open_parts_sealed.
Qed.

(** What a package restores to. *)
Definition restored (product_version : str) (schema_version : Z) (entries : list BackupEntry) : DecryptedBackup :=
  mk_decrypted_backup product_version schema_version
    ((λ e, mk_decrypted_entry (be_name e) (be_kind e) (be_content e)) <$> entries).

Lemma create_sealed random k product_version schema_version entries package :
  random_ok random → Forall (λ e, validate_entry_name (be_name e) = Ok ()) entries →
  create_backup_package sha256 random k product_version schema_version entries = Ok package →
  byte_string package ∧ ∃ manifest_bytes nonce ciphertext,
    package = prefix_of_manifest manifest_bytes ++ nonce ++ ciphertext ∧
    (Z.of_nat (length manifest_bytes) ≤ MAX_MANIFEST_LENGTH)%Z ∧ length nonce = NONCE_LENGTH ∧
    sealed k (restored product_version schema_version entries) manifest_bytes nonce ciphertext.
Proof.
  unfold create_backup_package, backup_cipher. intros Hr Hv Hc. case_decide; [done|]. case_decide as Hcount; [done|].
  apply result_bind_ok in Hc as ([] & Hu & Hc). unfold ensure_unique_names in Hu. apply unique_names_Ok in Hu.
  apply result_bind_ok in Hc as (mb & Hmb%ok_or_ok & Hc).
  destruct (Z.ltb_spec MAX_MANIFEST_LENGTH (Z.of_nat (length mb))) as [|Hmax]; [done|].
  apply result_bind_ok in Hc as (total & Htot & Hc). apply result_bind_ok in Hc as (nonce & Hn%ok_or_ok & Hc).
  destruct (aead_key_ok k) eqn:Hk; [|done]. cbn [result_bind] in Hc. rewrite (framed_Ok mb Hmax) in Hc. cbn [result_bind] in Hc.
  apply result_bind_ok in Hc as (c & Henc%ok_or_ok & Hc).
  assert (package = prefix_of_manifest mb ++ nonce ++ c) as -> by congruence. clear Hc.
  apply add_lengths_Ok in Htot as [-> Htot]; [|apply Forall_fmap, Forall_forall; intros; cbn; lia|done].
  assert (Forall2 describes (manifest_entry sha256 <$> entries) (db_entries (restored product_version schema_version entries))) as Hd.
  { cbn. clear. induction entries as [|e entries IH]; constructor; [done|exact IH]. }
  assert (concat (de_content <$> db_entries (restored product_version schema_version entries)) = concat (be_content <$> entries)) as Hcat.
  { cbn. by rewrite <- list_fmap_compose. }
  pose proof (described_lengths _ _ Hd) as Hsum. rewrite Hcat in Hsum.
  assert (sum_lengths (me_length <$> (manifest_entry sha256 <$> entries)) =
    sum_lengths ((λ e, Z.of_nat (length (be_content e))) <$> entries)) as Hsame by (by rewrite <- list_fmap_compose).
  destruct (Hr _ Hn) as [Hnl Hnb]. destruct (encrypt_bytes _ _ _ _ _ Henc) as [Hcb _].
  assert (manifest_ok (mk_backup_manifest product_version schema_version (manifest_entry sha256 <$> entries))) as Hok.
  { unfold manifest_ok. cbn. apply Forall_fmap, Forall_forall. intros e He. cbn. split; [lia|].
    assert (Z.of_nat (length (be_content e)) ≤ Z.of_nat (length (concat (be_content <$> entries))))%Z; [|lia].
    apply list_elem_of_split in He as (l1 & l2 & ->). rewrite fmap_app, concat_app, length_app. cbn. rewrite length_app. lia. }
  split.
  - unfold byte_string, prefix_of_manifest in *. rewrite !Forall_app. split_and!; try done.
    + repeat constructor.
    + repeat constructor.
    + unfold to_le_bytes. apply Forall_fmap, Forall_forall. intros z Hz. cbn.
      rewrite elem_of_reverse in Hz. unfold to_be_bytes in Hz.
      repeat (apply elem_of_cons in Hz as [->|Hz];
        [pose proof (Z.mod_pos_bound (Z.of_nat (length mb)) 256); match goal with |- (Z.to_N (?x `mod` _) < _)%N =>
           pose proof (Z.mod_pos_bound x 256 ltac:(done)); lia end|]).
      by apply elem_of_nil in Hz.
    + by eapply manifest_bytes.
  - exists mb, nonce, c. split; [done|]. split; [done|]. split; [done|].
    exists (manifest_entry sha256 <$> entries). split_and!; try done.
    + by apply manifest_roundtrip.
    + rewrite length_fmap. lia.
    + by apply Forall_fmap.
    + by rewrite <- list_fmap_compose.
    + by rewrite Hcat.
    + rewrite Hcat. lia.
Qed.

(** C29: A backup is restored as it was taken: a package that was created opens, under
    the key it was created with, to the product version, the schema version and
    every entry with its name, its kind and its content, in order. *)
Theorem backup_roundtrip random k product_version schema_version entries package :
  random_ok random → Forall (λ e, validate_entry_name (be_name e) = Ok ()) entries →
  create_backup_package sha256 random k product_version schema_version entries = Ok package →
  open_backup_package sha256 k package = Ok (restored product_version schema_version entries).
Proof.
  intros Hr Hv Hc. destruct (create_sealed _ _ _ _ _ _ Hr Hv Hc) as [Hb Hs]. by apply open_sealed.
Qed.

(** The uses of the instance key: packages, the versions of credentials and of TOTP
    secrets ([encrypt_credential]), and the commands and payloads of rows, bound to an
    identity ([encrypt_command]). *)
Inductive KeyUse :=
| MadePackage (random : option (list N)) (product_version : str) (schema_version : Z) (entries : list BackupEntry)
| MadeCredential (random : option (list N)) (credential_id version_id : Uuid) (plaintext : str)
| MadeCommand (random : option (list N)) (identity : Uuid) (plaintext : str).

(** A UUID of version 7, as [CredentialId::generate] and [TotpAuthenticatorId::generate]
    make them: the high half of the seventh byte. *)
Definition is_v7 (u : Uuid) : Prop := (λ b, N.shiftr b 4) <$> into_bytes u !! 6 = Some 7%N.

Definition use_ok (u : KeyUse) : Prop :=
  match u with
  | MadePackage random _ _ entries => random_ok random ∧ Forall (λ e, validate_entry_name (be_name e) = Ok ()) entries
  | MadeCredential _ credential_id _ _ => is_v7 credential_id
  | MadeCommand _ _ _ => True
  end.

(** What a use sealed: the associated data, the nonce and the ciphertext. *)
Definition seals k (u : KeyUse) (aad nonce c : list N) : Prop :=
  match u with
  | MadePackage random product_version schema_version entries =>
      create_backup_package sha256 random k product_version schema_version entries = Ok (aad ++ nonce ++ c)
  | MadeCredential random credential_id version_id plaintext =>
      aad = associated_data credential_id version_id ∧ ∃ p,
      encrypt_credential random k credential_id version_id plaintext = Ok p ∧ pv_nonce p = nonce ∧ pv_ciphertext p = c
  | MadeCommand random identity plaintext =>
      aad = into_bytes identity ∧ random = Some nonce ∧
      encrypt_command random k aad plaintext = Ok (COMMAND_CIPHER_ENVELOPE_PREFIX ++ base64_encode (nonce ++ c))
  end.

(** Where [open_backup_package] cuts a package. *)
Definition package_parts (package : list N) : list N * list N * list N :=
  let manifest_end := HEADER_LENGTH + Z.to_nat (from_le_bytes (take MANIFEST_LENGTH_BYTES (drop 9 package))) in
  (take manifest_end package, take NONCE_LENGTH (drop manifest_end package), drop (manifest_end + NONCE_LENGTH) package).

Lemma parts_of_package manifest_bytes nonce c :
  (Z.of_nat (length manifest_bytes) ≤ MAX_MANIFEST_LENGTH)%Z → length nonce = NONCE_LENGTH →
  package_parts (prefix_of_manifest manifest_bytes ++ nonce ++ c) = (prefix_of_manifest manifest_bytes, nonce, c).
Proof.
  intros Hm Hn. unfold package_parts. pose proof (prefix_length _ Hm) as Hl.
  destruct (le_bytes_roundtrip (Z.of_nat (length manifest_bytes))) as [Hle Hlen].
  { unfold MAX_MANIFEST_LENGTH, U32_MAX in *. lia. }
  assert (take MANIFEST_LENGTH_BYTES (drop 9 (prefix_of_manifest manifest_bytes ++ nonce ++ c)) =
    to_le_bytes (Z.of_nat (length manifest_bytes))) as ->.
  { unfold prefix_of_manifest. change 9 with (length (BACKUP_PACKAGE_MAGIC ++ [BACKUP_PACKAGE_FORMAT_VERSION])).
    rewrite <- !app_assoc, (app_assoc BACKUP_PACKAGE_MAGIC), drop_app_length. by apply take_app_length'. }
  rewrite Hlen, Nat2Z.id, <- Hl, drop_app_length, take_app_length, take_app_length' by done.
  by rewrite drop_app_add, drop_app_length' by done.
Qed.

(** No other use of the key is bound to what a package is bound to. *)
Lemma prefix_not_identity manifest_bytes identity :
  (Z.of_nat (length manifest_bytes) ≤ MAX_MANIFEST_LENGTH)%Z → 9 ≤ length manifest_bytes →
  prefix_of_manifest manifest_bytes ≠ into_bytes identity.
Proof. intros Hm Hs Heq%(f_equal length). rewrite (prefix_length _ Hm) in Heq. change HEADER_LENGTH with 13 in Heq. cbn in Heq. lia. Qed.

Lemma prefix_not_credential manifest_bytes credential_id version_id :
  is_v7 credential_id → prefix_of_manifest manifest_bytes ≠ associated_data credential_id version_id.
Proof.
  unfold is_v7. intros Hv Heq%(f_equal (λ l, l !! 6)). unfold associated_data in Heq.
  rewrite (lookup_app_l (into_bytes credential_id)) in Heq by (cbn; lia). rewrite <- Heq in Hv. discriminate Hv.
Qed.

(** C30: Among everything the instance key ever sealed - packages, credentials, commands -
    a package that opens is one of the packages, and it opens as the backup that one
    was created from, provided that it is no forgery: what its parts hold authenticates
    under the key only when the key sealed it.  No credential and no command, although
    the key is the same, is taken for a package, and no changed package opens. *)
Theorem only_created_packages_open k history package backup :
  byte_string package → Forall use_ok history →
  (let '(aad, nonce, c) := package_parts package in
   ∀ plaintext, aead_decrypt k nonce aad c = Some plaintext → ∃ u, u ∈ history ∧ seals k u aad nonce c) →
  open_backup_package sha256 k package = Ok backup →
  ∃ random product_version schema_version entries,
    MadePackage random product_version schema_version entries ∈ history ∧
    create_backup_package sha256 random k product_version schema_version entries = Ok package ∧
    backup = restored product_version schema_version entries.
Proof.
  intros Hb Hall Huse Hopen. pose proof Hopen as Ho. apply open_sealed in Ho as (mb & nonce & c & -> & Hm & Hn & Hs); [|done].
  rewrite parts_of_package in Huse by done.
  destruct Hs as (lines & Hj & _ & _ & _ & _ & Henc & _). apply manifest_shortest in Hj.
  destruct (Huse _ (decrypt_encrypt _ _ _ _ _ Henc)) as (u & Hu & Hseals).
  rewrite Forall_forall in Hall. specialize (Hall u Hu). destruct u as [random pv sv entries|random id version plaintext|random identity plaintext].
  - destruct Hall as [Hr Hv]. exists random, pv, sv, entries. split; [done|]. split; [done|].
    destruct (create_sealed _ _ _ _ _ _ Hr Hv Hseals) as [_ Hsealed]. apply open_sealed in Hsealed; [|done].
    simpl in Hseals. congruence.
  - destruct Hseals as [Haad _]. by apply prefix_not_credential in Haad.
  - destruct Hseals as [Haad _]. by apply prefix_not_identity in Haad.
Qed.
End exact.

(** ** A concrete package

    A serialization that knows one manifest, and a cipher that only ever seals one
    payload. *)

Definition sum_digest (bytes : list N) : list N := replicate 32 (foldr N.add 0 bytes mod 256)%N.

Definition taken_entries : list BackupEntry :=
  [mk_backup_entry (lit "rutilus.db") KindDatabase (lit "sqlite bytes");
   mk_backup_entry (lit "rutilus.db-wal") KindDatabaseWal [];
   mk_backup_entry (lit "artifacts/7") KindArtifactFile [7; 255; 0]%N].
Definition taken_manifest : BackupManifest :=
  mk_backup_manifest (lit "0.7.0") 21 (manifest_entry sum_digest <$> taken_entries).
Definition taken_manifest_bytes : list N := replicate 20 123%N.

#[local] Instance one_manifest : ManifestJson := {
  manifest_to_vec m := if decide (m = taken_manifest) then Some taken_manifest_bytes else None;
  manifest_from_slice bytes := if decide (bytes = taken_manifest_bytes) then Some taken_manifest else None;
}.
Lemma taken_manifest_ok : manifest_ok taken_manifest.
Proof. unfold manifest_ok. cbn. repeat constructor; vm_compute; intros [=]. Qed.
#[local, refine] Instance one_manifest_laws : ManifestJsonLaws := {}.
Proof.
  - intros m bytes _. cbn [manifest_to_vec one_manifest]. case_decide as Hm; [|done]. intros [= <-].
    cbn [manifest_from_slice one_manifest]. rewrite decide_True by done. by rewrite Hm.
  - intros m bytes. cbn [manifest_to_vec one_manifest]. case_decide; [|done]. intros [= <-]. repeat constructor.
  - intros bytes m. cbn [manifest_from_slice one_manifest]. case_decide; [|done]. intros [= <-]. apply taken_manifest_ok.
  - intros bytes m. cbn [manifest_from_slice one_manifest]. case_decide as Hb; [|done]. rewrite Hb. cbn. lia.
Defined.

Lemma taken_names_ok : Forall (λ e, validate_entry_name (be_name e) = Ok ()) taken_entries.
Proof. repeat constructor. Qed.
Lemma toy_nonce_ok : random_ok (Some toy_nonce).
Proof. intros nonce [= <-]. split; [done|]. apply Forall_replicate. lia. Qed.

Definition taken_package : list N :=
  prefix_of_manifest taken_manifest_bytes ++ toy_nonce ++ concat (be_content <$> taken_entries) ++ replicate 16 0%N.

Lemma backup_roundtrip_witness :
  create_backup_package (Key := ()) sum_digest (Some toy_nonce) tt (lit "0.7.0") 21 taken_entries = Ok taken_package ∧
  open_backup_package (Key := ()) sum_digest tt taken_package = Ok (restored (lit "0.7.0") 21 taken_entries).
Proof.
  assert (create_backup_package (Key := ()) sum_digest (Some toy_nonce) tt (lit "0.7.0") 21 taken_entries = Ok taken_package)
    as Hc by (vm_compute; reflexivity).
  split; [exact Hc|].
  exact (backup_roundtrip sum_digest (Some toy_nonce) tt (lit "0.7.0") 21 taken_entries taken_package toy_nonce_ok
    taken_names_ok Hc).
Defined.

(** The same key also sealed a credential and a command. *)
Definition taken_identity : Uuid := 7 * 2 ^ 76 + 1.
Definition taken_history : list KeyUse :=
  [MadeCredential (Some toy_nonce) taken_identity 2 (lit "calvin"); MadeCommand (Some toy_nonce) 3 (lit "{}");
   MadePackage (Some toy_nonce) (lit "0.7.0") 21 taken_entries].

Lemma only_created_packages_open_witness :
  open_backup_package (Key := ()) sum_digest tt taken_package = Ok (restored (lit "0.7.0") 21 taken_entries) ∧
  ∃ random product_version schema_version entries,
    MadePackage random product_version schema_version entries ∈ taken_history ∧
    create_backup_package (Key := ()) sum_digest random tt product_version schema_version entries = Ok taken_package ∧
    restored (lit "0.7.0") 21 taken_entries = restored product_version schema_version entries.
Proof.
  assert (open_backup_package (Key := ()) sum_digest tt taken_package = Ok (restored (lit "0.7.0") 21 taken_entries)) as Ho
    by (vm_compute; reflexivity).
  split; [exact Ho|]. refine (only_created_packages_open sum_digest tt taken_history taken_package _ _ _ _ Ho).
  - apply (bool_decide_unpack _). vm_compute. exact I.
  - constructor; [vm_compute; reflexivity|]. constructor; [exact I|]. constructor; [|constructor].
    exact (conj toy_nonce_ok taken_names_ok).
  - destruct (package_parts taken_package) as [[aad nonce] c] eqn:Hparts. intros plaintext _.
    exists (MadePackage (Some toy_nonce) (lit "0.7.0") 21 taken_entries).
    split; [right; right; left|]. vm_compute in Hparts. injection Hparts as <- <- <-. vm_compute. reflexivity.
Defined.
