(* ===== verification/Submission.v ===== *)
(** * Submission: operations and batches are submitted and reported

    Models [application/src/operation_submission.rs] and
    [application/src/batch_query.rs]: the shared validation of the targets, single
    and batch submission through the engine, and the reports that are derived from
    the stored children.  The reads of batches join the contract of the store; the
    SQLite repository discharges it. *)
From S2P Require Import Prelude Text Operation OperationEngine CommandCipher Database OperationRepository OperationWitnesses.
From S2P Require Import CenterDomain Endpoints Accounts AccountStore CenterStores.

(** ** The contract of the batch reads *)

Section views.
Context {Command : Type}.
Implicit Types (v : View Command).

(** An operation with the classification of its failure. *)
Definition classified v (o : Operation Command) : Operation Command * option FailureKind :=
  (o, v_kinds v !! op_id o).
Definition view_children v (batch : BatchOperationId) : list (Operation Command * option FailureKind) :=
  classified v <$> filter (λ o, v_batch_of v !! op_id o = Some batch) (view_rows v).

Definition batch_acceptance_le (l r : BatchOperation Command) : Prop :=
  (batch_created_at l < batch_created_at r)%Z ∨
  (batch_created_at l = batch_created_at r ∧ (batch_id l ≤ batch_id r)%N).
End views.

(** The reads of batches of [OperationStore], and [ClassifiedOperationListing]. *)
Class BatchReads (Command St E : Type) := {
  store_find_batch : BatchOperationId → M St E (option (BatchOperation Command));
  store_list_batches : M St E (list (BatchOperation Command));
  store_list_batch_children : BatchOperationId → M St E (list (Operation Command * option FailureKind));
  store_list_classified : option OperationState → M St E (list (Operation Command * option FailureKind));
}.

Class BatchReadsLaws (Command St E : Type) `{OperationStoreLaws Command St E} `{!BatchReads Command St E} := {
  law_row_keys s id o : store_ok s → v_operations (store_view s) !! id = Some o → op_id o = id;
  law_find_batch id s s' r :
    store_ok s → store_find_batch id s = (s', r) →
    reads store_view store_ok (λ v x, x = v_batches v !! id) s s' r;
  law_list_batches s s' r :
    store_ok s → store_list_batches s = (s', r) →
    reads store_view store_ok (λ v l, l ≡ₚ (map_to_list (v_batches v)).*2 ∧ Sorted batch_acceptance_le l) s s' r;
  law_batch_children batch s s' r :
    store_ok s → store_list_batch_children batch s = (s', r) →
    reads store_view store_ok (λ v l, l ≡ₚ view_children v batch ∧ Sorted child_le l) s s' r;
  law_list_classified f s s' r :
    store_ok s → store_list_classified f s = (s', r) →
    reads store_view store_ok (λ v l, l ≡ₚ classified v <$> view_list v f ∧ Sorted acceptance_le l.*1) s s' r;
}.

(** The lookup half of [EndpointRefreshRepository], and that it answers with the
    managed endpoints. *)
Class EndpointLookup (Sl El : Type) := find_endpoint : EndpointId → M Sl El (option Endpoint).
Class EndpointLookupLaws (Sl El : Type) `{EndpointLookup Sl El} := {
  managed : Sl → gset EndpointId;
  law_find_endpoint e l l' r :
    find_endpoint e l = (l', r) →
    managed l' = managed l ∧ ∀ x, r = Ok x → is_Some x ↔ e ∈ managed l;
}.

(** ** Submissions *)

Inductive SubmissionError (E El : Type) :=
| SubEmptyTargets
| SubTooManyTargets (limit : nat)
| MultipleTargets
| DuplicateTarget (endpoint : EndpointId)
| UnknownEndpoint (endpoint : EndpointId)
| SubInventory (source : El)
| SubStore (source : EngineError E).
Arguments SubEmptyTargets {E El}.
Arguments SubTooManyTargets {E El}.
Arguments MultipleTargets {E El}.
Arguments DuplicateTarget {E El}.
Arguments UnknownEndpoint {E El}.
Arguments SubInventory {E El}.
Arguments SubStore {E El}.

Record BatchSummary (Command : Type) := mk_batch_summary {
  bs_batch : BatchOperation Command;
  bs_state : BatchOperationState;
  bs_outcomes : BatchOutcomeCounts;
}.
Arguments mk_batch_summary {Command}.
Arguments bs_batch {Command}.
Arguments bs_state {Command}.
Arguments bs_outcomes {Command}.
Record BatchDetail (Command : Type) := mk_batch_detail {
  bd_summary : BatchSummary Command;
  bd_children : list (Operation Command * option FailureKind);
}.
Arguments mk_batch_detail {Command}.
Arguments bd_summary {Command}.
Arguments bd_children {Command}.

(** [OperationSubmission]: the store and the lookup. *)
Record Submission (St Sl : Type) := mk_submission { sb_store : St; sb_lookup : Sl }.
Arguments mk_submission {St Sl}.
Arguments sb_store {St Sl}.
Arguments sb_lookup {St Sl}.

Section submission.
Context {Command St Sl E El : Type} `{OperationStore Command St E} `{!BatchReads Command St E} `{EndpointLookup Sl El}.
Abbreviation Error := (SubmissionError E El).
Abbreviation Op := (M (Submission St Sl) Error).

Definition at_store {F A} (err : F → Error) (m : M St F A) : Op A :=
  zoom sb_store (λ s x, mk_submission x (sb_lookup s)) err m.
Definition at_lookup {A} (m : M Sl El A) : Op A :=
  zoom sb_lookup (λ s x, mk_submission (sb_store s) x) SubInventory m.

(** The loop over the targets that remembers the endpoints seen. *)
Fixpoint first_duplicate (seen : list EndpointId) (targets : list OperationTarget) : option EndpointId :=
  match targets with
  | [] => None
  | target :: targets =>
      if decide (endpoint_id target ∈ seen) then Some (endpoint_id target)
      else first_duplicate (endpoint_id target :: seen) targets
  end.

Definition check_managed (target : OperationTarget) : Op () :=
  let! found := at_lookup (find_endpoint (endpoint_id target)) in
  match found with None => mfail (UnknownEndpoint (endpoint_id target)) | Some _ => mret () end.

Definition validate_targets (targets : list OperationTarget) : Op () :=
  if decide (targets = []) then mfail SubEmptyTargets
  else if decide (MAX_BATCH_TARGETS < length targets) then mfail (SubTooManyTargets MAX_BATCH_TARGETS)
  else match first_duplicate [] targets with
  | Some endpoint => mfail (DuplicateTarget endpoint)
  | None => mfor targets check_managed
  end.

(** [submit]; [fresh] is the generated id. *)
Definition submit (fresh : OperationId) (source : OperationSource) (targets : list OperationTarget)
    (command : Command) (now : OffsetDateTime) : Op (Operation Command) :=
  do! validate_targets targets in
  if decide (1 < length targets) then mfail MultipleTargets
  else at_store SubStore (engine_create fresh source targets command now).

(** [submit_batch]; [fresh] generates the ids, the batch's first. *)
Definition submit_batch (fresh : nat → OperationId) (source : OperationSource)
    (targets : list OperationTarget) (command : Command) (now : OffsetDateTime)
    : Op (BatchOperation Command * list (Operation Command)) :=
  do! validate_targets targets in
  at_store SubStore (engine_create_batch fresh source targets command now).

(** [OperationSubmission::list]. *)
Definition submission_list (state : option OperationState) : Op (list (Operation Command * option FailureKind)) :=
  at_store (λ source, SubStore (EngineStore source)) (store_list_classified state).

(** [OperationSubmission::find]. *)
Definition submission_find (operation_id : OperationId) : Op (option (Operation Command * option FailureKind)) :=
  let! found := at_store (λ source, SubStore (EngineStore source)) (store_find_operation operation_id) in
  match found with
  | None => mret None
  | Some operation =>
      let! kind := at_store (λ source, SubStore (EngineStore source)) (store_find_failure_kind operation_id) in
      mret (Some (operation, kind))
  end.

(** [BatchQuery]: the facts derived from the children that were read. *)
Definition derived_summary (batch : BatchOperation Command)
    (children : list (Operation Command * option FailureKind)) : BatchSummary Command :=
  mk_batch_summary batch (derive_batch_state ((λ c, op_state c.1) <$> children))
    (summarize ((λ c, mk_operation_outcome (op_state c.1) c.2) <$> children)).

Inductive BatchQueryError := BatchQueryStore (source : E).
Abbreviation Query := (M St BatchQueryError).

Definition summarize_batch (batch : BatchOperation Command) : Query (BatchSummary Command) :=
  let! children := mmap_err BatchQueryStore (store_list_batch_children (batch_id batch)) in
  mret (derived_summary batch children).

Definition query_list_batches : Query (list (BatchSummary Command)) :=
  let! batches := mmap_err BatchQueryStore store_list_batches in mtraverse summarize_batch batches.

Definition batch_detail (batch : BatchOperationId) : Query (option (BatchDetail Command)) :=
  let! found := mmap_err BatchQueryStore (store_find_batch batch) in
  match found with
  | None => mret None
  | Some parent =>
      let! children := mmap_err BatchQueryStore (store_list_batch_children batch) in
      mret (Some (mk_batch_detail (derived_summary parent children) children))
  end.
End submission.

(** The blanket [ClassifiedOperationListing] of a store: one lookup per row. *)
Section fallback.
Context {Command St E : Type} `{OperationStore Command St E}.

Fixpoint classify_each (operations : list (Operation Command)) : M St E (list (Operation Command * option FailureKind)) :=
  match operations with
  | [] => mret []
  | operation :: operations =>
      let! kind := store_find_failure_kind (op_id operation) in
      let! rest := classify_each operations in
      mret ((operation, kind) :: rest)
  end.
Definition list_classified_fallback (state : option OperationState)
    : M St E (list (Operation Command * option FailureKind)) :=
  let! operations := store_list_operations state in classify_each operations.
End fallback.

(** ** What a submission does *)

Section submissions.
Context {Command St Sl E El : Type} `{OperationStoreLaws Command St E} `{!BatchReads Command St E} `{EndpointLookupLaws Sl El}.
Implicit Types (s : Submission St Sl).

Lemma first_duplicate_None seen targets :
  first_duplicate seen targets = None ↔
  NoDup (endpoint_id <$> targets) ∧ Forall (λ e, e ∉ seen) (endpoint_id <$> targets).
Proof.
  revert seen. induction targets as [|t targets IH]; intros seen; cbn [first_duplicate fmap list_fmap].
  { split; [intros _; by repeat constructor|done]. }
  rewrite NoDup_cons, Forall_cons. case_decide as Hin; [naive_solver|].
  rewrite IH, !Forall_forall. setoid_rewrite not_elem_of_cons. split.
  - intros [Hnd Hall]. split; [split; [|done]|split; [done|]]; [intros Hx; by destruct (Hall _ Hx)|].
    intros x Hx. by destruct (Hall _ Hx).
  - intros [[Hne Hnd] [_ Hall]]. split; [done|]. intros x Hx. split; [by intros ->|by apply Hall].
Qed.

(** The endpoint that is reported is named by an earlier target, or was seen. *)
Lemma first_duplicate_Some seen targets e :
  first_duplicate seen targets = Some e →
  ∃ l t l', targets = l ++ t :: l' ∧ endpoint_id t = e ∧ e ∈ seen ++ (endpoint_id <$> l).
Proof.
  revert seen. induction targets as [|t targets IH]; intros seen; cbn [first_duplicate]; [done|].
  case_decide as Hin.
  - intros [= <-]. exists [], t, targets. rewrite app_nil_r. done.
  - intros Hf. apply IH in Hf as (l & t' & l' & -> & Ht & He). exists (t :: l), t', l'. split; [done|]. split; [done|].
    cbn. set_solver.
Qed.

Lemma check_managed_spec t s s' r :
  check_managed (E := E) t s = (s', r) →
  sb_store s' = sb_store s ∧ managed (sb_lookup s') = managed (sb_lookup s) ∧
  match r with
  | Ok _ => endpoint_id t ∈ managed (sb_lookup s)
  | Err (UnknownEndpoint e) => e = endpoint_id t ∧ e ∉ managed (sb_lookup s)
  | Err (SubInventory _) => True
  | Err _ => False
  end.
Proof.
  unfold check_managed, at_lookup. intros Hrun. apply mbind_inv in Hrun as [(found & s1 & Hf & Hrun)|(x & Hf & ->)];
    apply zoom_inv in Hf as (l & r0 & Hf & -> & Hr); apply law_find_endpoint in Hf as [Hm Hx].
  - destruct r0 as [y|]; [|done]. injection Hr as ->. specialize (Hx _ eq_refl).
    destruct y as [y|]; unfold mret, mfail in Hrun; injection Hrun as <- <-; cbn.
    + split; [done|]. split; [done|]. by apply Hx.
    + split; [done|]. split; [done|]. split; [done|]. intros Hin. by apply Hx in Hin as [? [=]].
  - destruct r0 as [y|y]; [done|]. injection Hr as ->. by cbn.
Qed.

Lemma check_all_spec targets s s' r :
  mfor targets (check_managed (E := E)) s = (s', r) →
  sb_store s' = sb_store s ∧ managed (sb_lookup s') = managed (sb_lookup s) ∧
  match r with
  | Ok _ => Forall (λ t, endpoint_id t ∈ managed (sb_lookup s)) targets
  | Err (UnknownEndpoint e) => e ∈ endpoint_id <$> targets ∧ e ∉ managed (sb_lookup s)
  | Err (SubInventory _) => True
  | Err _ => False
  end.
Proof.
  revert s. induction targets as [|t targets IH]; intros s Hrun; cbn [mfor] in Hrun.
  { unfold mret in Hrun. injection Hrun as <- <-. by repeat split; constructor. }
  apply mbind_inv in Hrun as [([] & s1 & Hc & Hrun)|(x & Hc & ->)]; apply check_managed_spec in Hc as (Hs & Hm & Hr).
  - apply IH in Hrun as (Hs' & Hm' & Hr'). rewrite Hs', Hm', Hs, Hm. split; [done|]. split; [done|].
    rewrite Hm in Hr'. destruct r as [|[]]; try done; [by constructor|]. destruct Hr' as [? ?]. split; [by right|done].
  - split; [done|]. split; [done|]. destruct x; try done. destruct Hr as [-> ?]. split; [by left|done].
Qed.

(** Why a list of targets is refused. *)
Definition refused (endpoints : gset EndpointId) (targets : list OperationTarget) (x : SubmissionError E El) : Prop :=
  match x with
  | SubEmptyTargets => targets = []
  | SubTooManyTargets limit => limit = MAX_BATCH_TARGETS ∧ limit < length targets
  | MultipleTargets => 1 < length targets
  | DuplicateTarget e => ∃ l t l', targets = l ++ t :: l' ∧ endpoint_id t = e ∧ e ∈ endpoint_id <$> l
  | UnknownEndpoint e => e ∈ endpoint_id <$> targets ∧ e ∉ endpoints
  | SubInventory _ => True
  | SubStore x => ∃ y, x = EngineStore y
  end.

Lemma validate_spec targets s s' r :
  validate_targets (E := E) targets s = (s', r) →
  sb_store s' = sb_store s ∧ managed (sb_lookup s') = managed (sb_lookup s) ∧
  match r with
  | Ok _ => targets ≠ [] ∧ length targets ≤ MAX_BATCH_TARGETS ∧ NoDup (endpoint_id <$> targets) ∧
      Forall (λ t, endpoint_id t ∈ managed (sb_lookup s)) targets
  | Err x => refused (managed (sb_lookup s)) targets x
  end.
Proof.
  unfold validate_targets. case_decide as Hnil; [by intros [= <- <-]|].
  case_decide as Hmax; [by intros [= <- <-]|]. destruct (first_duplicate [] targets) as [e|] eqn:Hd.
  { intros [= <- <-]. apply first_duplicate_Some in Hd. by cbn in *. }
  apply first_duplicate_None in Hd as [Hnd _]. intros Hrun. apply check_all_spec in Hrun as (-> & -> & Hr).
  split; [done|]. split; [done|]. destruct r as [|[]]; try done. split; [done|]. split; [lia|done].
Qed.

(** A single submission is accepted exactly for one managed endpoint and then is one
    queued operation in the store; whatever is refused or fails leaves the store as
    it was, and the refusal says why. *)
Theorem submission_checked fresh source targets command now s s' r :
  store_ok (sb_store s) →
  submit (Command := Command) fresh source targets command now s = (s', r) →
  store_ok (sb_store s') ∧ managed (sb_lookup s') = managed (sb_lookup s) ∧
  match r with
  | Ok o => ∃ t, targets = [t] ∧ endpoint_id t ∈ managed (sb_lookup s) ∧
      o = Operation_new fresh source [t] command now ∧
      store_view (sb_store s') = view_create None (store_view (sb_store s)) o
  | Err x => store_view (sb_store s') = store_view (sb_store s) ∧ refused (managed (sb_lookup s)) targets x
  end.
Proof.
  unfold submit. intros Hok Hrun. apply mbind_inv in Hrun as [([] & s1 & Hv & Hrun)|(x & Hv & ->)];
    apply validate_spec in Hv as (Hs & Hm & Hr); [|by rewrite Hs, Hm].
  destruct Hr as (Hne & _ & _ & Hall). destruct targets as [|t [|t2 targets]]; [done|..].
  2: { rewrite decide_True in Hrun by (cbn; lia). injection Hrun as <- <-. rewrite Hs, Hm.
       split; [done|]. split; [done|]. split; [done|]. cbn. lia. }
  rewrite decide_False in Hrun by (cbn; lia). unfold at_store in Hrun.
  apply zoom_inv in Hrun as (st & r0 & Hc & -> & ->). rewrite Hs in Hc. cbn [sb_store sb_lookup]. rewrite Hm.
  unfold engine_create in Hc. rewrite decide_False in Hc by done.
  assert (timeline_ok (Operation_new fresh source [t] command now)) as Htl by (unfold timeline_ok; cbn; lia).
  apply mbind_inv in Hc as [([] & st1 & Hc & Hret)|(x & Hc & ->)];
    apply mmap_err_inv in Hc as (r1 & Hc & Hr1); destruct r1 as [[]|y]; try done;
    apply law_create in Hc as [Hok' Hv]; try done.
  - unfold mret in Hret. injection Hret as <- <-. split; [done|]. split; [done|]. exists t. apply Forall_cons in Hall as [? _]. by repeat split.
  - injection Hr1 as ->. split; [done|]. split; [done|]. split; [done|]. by exists y.
Qed.

(** *** A batch over time *)

(** The store holds the batch [b] with exactly the children [cs], each as it was
    submitted but for its state. *)
Definition batch_stored (b : BatchOperation Command) (cs : list (Operation Command)) (v : View Command) : Prop :=
  v_batches v !! batch_id b = Some b ∧
  (∀ id, v_batch_of v !! id = Some (batch_id b) ↔ id ∈ op_id <$> cs) ∧
  ∀ c, c ∈ cs → ∃ o, v_operations v !! op_id c = Some o ∧ op_id o = op_id c ∧ op_targets o = op_targets c ∧
    op_source o = op_source c ∧ op_command o = op_command c ∧ op_created_at o = op_created_at c.

Lemma batch_stored_create b cs v o p :
  batch_stored b cs v → p ≠ Some (batch_id b) → batch_stored b cs (view_create p v o).
Proof.
  intros (Hb & Hof & Hcs) Hp. unfold view_create. destruct (v_operations v !! op_id o) eqn:Ho; [done|].
  assert (op_id o ∉ op_id <$> cs) as Hnew.
  { intros (c & Hc & Hin)%list_elem_of_fmap. destruct (Hcs _ Hin) as (? & Hl & _). congruence. }
  split; [done|]. cbn. split.
  - intros id. destruct p as [p|]; [|apply Hof]. destruct (decide (id = op_id o)) as [->|Hne].
    + rewrite lookup_insert_eq. split; [intros [= ->]; by destruct Hp|done].
    + rewrite lookup_insert_ne by done. apply Hof.
  - intros c Hc. destruct (Hcs c Hc) as (x & Hx & Hsame). exists x. split; [|done].
    rewrite lookup_insert_ne; [done|]. congruence.
Qed.

Lemma batch_stored_step b cs v id new at_ ops :
  batch_stored b cs v → row_step (v_operations v) id new at_ = Some ops → batch_stored b cs (with_operations v ops).
Proof.
  intros (Hb & Hof & Hcs) (o & Ho & _ & ->)%row_step_Some. split; [done|]. split; [done|]. cbn.
  intros c Hc. destruct (Hcs c Hc) as (x & Hx & Hsame). destruct (decide (op_id c = id)) as [<-|Hne].
  - rewrite lookup_insert_eq. exists (set_state o new at_). split; [done|]. cbn. congruence.
  - rewrite lookup_insert_ne by done. by exists x.
Qed.

Lemma batch_stored_call b cs v c v' :
  batch_stored b cs v → spec_call v c = Some v' → batch_stored b cs v'.
Proof.
  intros Hb Hc. destruct c as [o|id new at_|id expected new at_|id k|b' children]; cbn in Hc.
  - injection Hc as <-. by apply batch_stored_create.
  - apply fmap_Some in Hc as (ops & Hops & ->). by eapply batch_stored_step.
  - apply fmap_Some in Hc as (ops & Hops & ->). by eapply batch_stored_step, row_step_if_step.
  - destruct (v_operations v !! id); [|done]. by injection Hc as <-.
  - injection Hc as <-. unfold view_create_batch. destruct (v_batches v !! batch_id b') eqn:Hb'; [done|].
    assert (batch_id b' ≠ batch_id b) as Hne by (intros Heq; destruct Hb as [Hb _]; congruence).
    assert (batch_stored b cs (mk_view (v_operations v) (v_kinds v) (<[batch_id b' := b']> (v_batches v)) (v_batch_of v))) as Hnew.
    { destruct Hb as (Hb & Hof & Hcs). split; [cbn; by rewrite lookup_insert_ne|]. by split. }
    revert Hnew. generalize (mk_view (v_operations v) (v_kinds v) (<[batch_id b' := b']> (v_batches v)) (v_batch_of v)).
    induction children as [|x children IH]; intros v0 Hv0; [done|]. cbn. apply IH. apply batch_stored_create; congruence.
Qed.

Lemma batch_stored_replay b cs v calls rs v' :
  batch_stored b cs v → replay v calls rs = Some v' → batch_stored b cs v'.
Proof.
  revert v rs. induction calls as [|c calls IH]; intros v [|[|] rs] Hb Hr; cbn in Hr; try (by injection Hr as <-).
  - apply bind_Some in Hr as (v1 & Hc & Hr). eapply IH; [|exact Hr]. by eapply batch_stored_call.
  - by eapply IH.
Qed.

(** What is new to a store. *)
Definition unused (fresh : nat → OperationId) (v : View Command) : Prop :=
  (∀ i j, fresh i = fresh j → i = j) ∧ v_batches v !! fresh 0 = None ∧
  (∀ i, v_operations v !! fresh i = None) ∧ ∀ id, v_batch_of v !! id ≠ Some (fresh 0).

Lemma batch_stored_new fresh source targets command now v :
  unused fresh v →
  let b := mk_batch_operation (fresh 0) source command now in
  let cs := batch_children fresh source targets command now in
  batch_stored b cs (view_create_batch v b cs).
Proof.
  intros (Hinj & Hb & Hnew & Hof) b cs. unfold view_create_batch. cbn. rewrite Hb.
  set (v0 := mk_view _ _ _ _).
  assert (NoDup (op_id <$> cs)) as Hnd.
  { unfold cs. rewrite batch_children_ids. apply NoDup_fmap_2_strong; [|apply NoDup_seq]. intros i j _ _. apply Hinj. }
  assert (∀ c, c ∈ cs → v_operations v0 !! op_id c = None) as Hnone.
  { intros c Hc. apply (list_elem_of_fmap_2 op_id) in Hc. unfold cs in Hc. rewrite batch_children_ids in Hc.
    apply list_elem_of_fmap in Hc as (i & -> & _). apply Hnew. }
  assert (∀ c, c ∈ cs → canonical c = c) as Hcan.
  { intros c Hc. apply list_elem_of_lookup in Hc as [i Hc]. unfold cs, batch_children in Hc.
    rewrite list_lookup_imap in Hc. destruct (targets !! i); [|done]. by injection Hc as <-. }
  split; [|split].
  - clear. assert (v_batches v0 !! fresh 0 = Some b) as Hv0 by (cbn; apply lookup_insert_eq). revert Hv0. generalize v0.
    induction cs as [|c cs IH]; intros w Hw; [done|]. cbn. apply IH. unfold view_create. by case_match.
  - intros id. destruct (decide (id ∈ op_id <$> cs)) as [Hin|Hout].
    + split; [done|]. intros _. apply list_elem_of_fmap in Hin as (c & -> & Hc).
      by apply (foldl_create_child (fresh 0) cs v0 c Hnd Hnone Hc).
    + destruct (foldl_create_other (Some (fresh 0)) cs v0 id Hout) as [_ ->]. split; [|done]. intros Heq. by destruct (Hof id).
  - intros c Hc. destruct (foldl_create_child (fresh 0) cs v0 c Hnd Hnone Hc) as [-> _]. exists (canonical c).
    by rewrite Hcan.
Qed.
End submissions.

Section reports.
Context {Command St Sl E El : Type} `{OperationStoreLaws Command St E} `{!BatchReads Command St E} `{!BatchReadsLaws Command St E} `{EndpointLookupLaws Sl El}.
Implicit Types (s : Submission St Sl).

(** An accepted batch is stored, whole. *)
Lemma submit_batch_stored fresh source targets command now T s s' b cs :
  store_ok (sb_store s) → unused fresh (store_view (sb_store s)) →
  created_by T (store_view (sb_store s)) → (now ≤ T)%Z →
  submit_batch (Command := Command) fresh source targets command now s = (s', Ok (b, cs) : result _ (SubmissionError E El)) →
  store_ok (sb_store s') ∧ created_by T (store_view (sb_store s')) ∧ batch_id b = fresh 0 ∧
  cs = batch_children fresh source targets command now ∧ batch_stored b cs (store_view (sb_store s')).
Proof.
  unfold submit_batch. intros Hok Hnew Hcb Hnow Hrun. apply mbind_ok in Hrun as ([] & s1 & Hv & Hrun).
  apply validate_spec in Hv as (Hs & _ & Hne & Hmax & _). unfold at_store in Hrun.
  apply zoom_inv in Hrun as (st & r0 & Hc & -> & Hr). rewrite Hs in Hc. cbn [sb_store].
  unfold engine_create_batch in Hc. rewrite decide_False in Hc by done. rewrite decide_False in Hc by lia.
  apply mbind_inv in Hc as [([] & st1 & Hc & Hret)|(x & _ & ->)]; [|done].
  unfold mret in Hret. injection Hret as <- <-. injection Hr as -> ->. cbn [batch_command] in *.
  apply mmap_err_inv in Hc as ([[]|y] & Hc & Hr1); [|done].
  apply law_create_batch in Hc as [Hok' Hview]; [|done|apply batch_children_timeline].
  split; [done|]. rewrite Hview. split; [|split; [done|]; split; [done|by apply batch_stored_new]].
  unfold view_create_batch. case_match; [done|]. apply created_by_children; [done|].
  pose proof (batch_children_timeline fresh source targets command now) as Htl. apply Forall_lookup_2. intros i o Ho.
  split; [by eapply Forall_lookup_1 in Htl|]. unfold batch_children in Ho. rewrite list_lookup_imap in Ho.
  destruct (targets !! i); [|done]. injection Ho as <-. cbn. done.
Qed.

(** The children a store reports of a stored batch. *)
Lemma stored_children (b : BatchOperation Command) cs v l :
  (∀ id o, v_operations v !! id = Some o → op_id o = id) → NoDup (op_id <$> cs) →
  batch_stored b cs v → l ≡ₚ view_children v (batch_id b) →
  ((λ c, op_id c.1) <$> l) ≡ₚ op_id <$> cs ∧
  ∀ o k, (o, k) ∈ l → v_operations v !! op_id o = Some o ∧ k = v_kinds v !! op_id o ∧
    ∃ c, c ∈ cs ∧ op_id o = op_id c ∧ op_targets o = op_targets c ∧ op_command o = op_command c.
Proof.
  intros Hkeys Hnd (_ & Hof & Hcs) Hl.
  assert (∀ o, o ∈ view_rows v ↔ v_operations v !! op_id o = Some o) as Hrow.
  { intros o. unfold view_rows. rewrite list_elem_of_fmap. split.
    - intros ([id o'] & -> & Hin). apply elem_of_map_to_list in Hin. cbn. by rewrite (Hkeys _ _ Hin).
    - intros Ho. exists (op_id o, o). split; [done|]. by apply elem_of_map_to_list. }
  assert (∀ o k, (o, k) ∈ l → v_operations v !! op_id o = Some o ∧ k = v_kinds v !! op_id o ∧ op_id o ∈ op_id <$> cs) as Hin.
  { intros o k. rewrite Hl. unfold view_children, classified. intros (o' & [= -> ->] & Ho)%list_elem_of_fmap.
    apply list_elem_of_filter in Ho as [Hb Ho]. rewrite Hrow in Ho. split; [done|]. split; [done|]. by apply Hof. }
  split.
  - apply NoDup_Permutation; [|done|].
    + rewrite Hl. unfold view_children. rewrite <- list_fmap_compose. apply NoDup_fmap_2_strong.
      * intros x y [_ Hx%Hrow]%list_elem_of_filter [_ Hy%Hrow]%list_elem_of_filter. cbn. congruence.
      * apply NoDup_filter. unfold view_rows. apply NoDup_fmap_2_strong; [|apply NoDup_map_to_list].
        intros [i x] [j y] Hi%elem_of_map_to_list Hj%elem_of_map_to_list. cbn. intros ->.
        by rewrite <- (Hkeys _ _ Hi), <- (Hkeys _ _ Hj).
    + intros id. split.
      * intros ([o k] & -> & Ho)%list_elem_of_fmap. by apply Hin in Ho as (_ & _ & ?).
      * intros Hid. apply list_elem_of_fmap in Hid as (c & -> & Hc). destruct (Hcs c Hc) as (o & Ho & Heq & _).
        apply list_elem_of_fmap. exists (classified v o). split; [by cbn|]. rewrite Hl. apply list_elem_of_fmap.
        exists o. split; [done|]. apply list_elem_of_filter. rewrite Heq. split; [apply Hof, list_elem_of_fmap; by exists c|].
        apply Hrow. by rewrite Heq.
  - intros o k Ho. destruct (Hin _ _ Ho) as (Hv & Hk & (c & Heq & Hc)%list_elem_of_fmap). split; [done|]. split; [done|].
    exists c. split; [done|]. split; [done|]. destruct (Hcs c Hc) as (o' & Ho' & _ & Ht & _ & Hcmd & _).
    rewrite Heq, Ho' in Hv. by injection Hv as ->.
Qed.

(** C14: A batch that was accepted is reported whole for good: whatever the store is
    asked to write afterwards, a report lists exactly its children, each with its one
    submitted target, its current state and its classification, in the order of the
    targets, and the batch's state and counts are those of the listed children. *)
Theorem batch_report_follows fresh source targets command now T (calls : list (StoreCall Command)) s s1 b cs u rs u' r :
  store_ok (sb_store s) → unused fresh (store_view (sb_store s)) →
  created_by T (store_view (sb_store s)) → (now ≤ T)%Z → Forall (admissible T) calls →
  submit_batch (Command := Command) fresh source targets command now s = (s1, Ok (b, cs) : result _ (SubmissionError E El)) →
  exec_all calls (sb_store s1) = (u, rs) →
  batch_detail (batch_id b) u = (u', Ok r) →
  ∃ d, r = Some d ∧ bd_summary d = derived_summary b (bd_children d) ∧
    ((λ c, op_id c.1) <$> bd_children d) ≡ₚ op_id <$> cs ∧
    length (bd_children d) = length targets ∧ total (bs_outcomes (bd_summary d)) = length targets ∧
    Sorted child_le (bd_children d) ∧
    ∀ o k, (o, k) ∈ bd_children d →
      v_operations (store_view u) !! op_id o = Some o ∧ k = v_kinds (store_view u) !! op_id o ∧
      ∃ t, t ∈ targets ∧ op_targets o = [t] ∧ op_command o = command.
Proof.
  intros Hok Hnew Hcb Hnow Had Hsub Hexec Hrun.
  destruct (submit_batch_stored _ _ _ _ _ T _ _ _ _ Hok Hnew Hcb Hnow Hsub) as (Hok1 & Hcb1 & _ & Hcs & Hst).
  destruct (exec_all_refines T _ _ _ _ Hok1 Hcb1 Had Hexec) as [Hok2 Hre].
  pose proof (batch_stored_replay _ _ _ _ _ _ Hst Hre) as Hst2. unfold batch_detail in Hrun.
  apply mbind_ok in Hrun as (found & s4 & Hf & Hrun). apply mmap_err_inv in Hf as ([x|] & Hf & [= ->]).
  apply law_find_batch in Hf as (Hok4 & Hv4 & Hf); [|done]. specialize (Hf _ eq_refl).
  rewrite (proj1 Hst2) in Hf. subst x. apply mbind_ok in Hrun as (l & s5 & Hl & Hrun).
  apply mmap_err_inv in Hl as ([x|] & Hl & [= ->]). apply law_batch_children in Hl as (_ & _ & Hl); [|done].
  specialize (Hl _ eq_refl) as [Hperm Hsorted]. rewrite Hv4 in Hperm. unfold mret in Hrun. injection Hrun as <- <-.
  assert (NoDup (op_id <$> cs)) as Hnd.
  { rewrite Hcs, batch_children_ids. apply NoDup_fmap_2_strong; [|apply NoDup_seq]. intros i j _ _. apply Hnew. }
  destruct (stored_children b cs _ x (λ id o, law_row_keys u id o Hok2) Hnd Hst2 Hperm) as [Hids Hall].
  assert (length x = length targets) as Hlen.
  { rewrite <- (length_fmap (λ c : Operation Command * option FailureKind, op_id c.1) x), Hids, Hcs, batch_children_ids.
    by rewrite length_fmap, length_seq. }
  exists (mk_batch_detail (derived_summary b x) x). cbn [bd_summary bd_children]. split_and!; try done.
  - cbn. rewrite summarize_buckets. cbn. by rewrite length_fmap.
  - intros o k Ho. destruct (Hall _ _ Ho) as (Hv & Hk & c & Hc & _ & Ht & Hcmd). split; [done|]. split; [done|].
    rewrite Hcs in Hc. apply list_elem_of_lookup in Hc as [i Hc]. unfold batch_children in Hc. rewrite list_lookup_imap in Hc.
    destruct (targets !! i) as [t|] eqn:Hti; [|done]. injection Hc as <-. exists t. split; [by eapply list_elem_of_lookup_2|].
    by rewrite Ht, Hcmd.
Qed.
End reports.

(** ** The SQLite repository reports batches *)

Section sqlite.
Context (env : Env) {Command Key : Type} `{CipherSuiteLaws Key, CommandJsonLaws Command} (command_key : option Key).
Context (Hrandom : ∀ n, random_ok (env_random env n)).
Implicit Types (w : World Tables) (t : Tables).

Definition sqlite_batch_reads : BatchReads Command (World Tables) OperationRepositoryError :=
  {| store_find_batch := find_batch env command_key;
     store_list_batches := list_batches env command_key;
     store_list_batch_children := list_batch_children env command_key;
     store_list_classified := list_operations_classified env command_key |}.

Abbreviation reads_tables := (reads (λ w, view_of command_key (w_db w)) (λ w, tables_ok command_key (w_db w))).

Lemma lookup_batches t id :
  v_batches (view_of command_key t) !! id = t_batches t !! id ≫= λ m, to_option (map_stored_batch command_key id m).
Proof. apply map_lookup_imap. Qed.

Lemma lookup_kinds t id :
  v_kinds (view_of command_key t) !! id = t_operations t !! id ≫= λ m, to_option (stored_failure_kind id m) ≫= λ k, k.
Proof. apply map_lookup_imap. Qed.

Lemma find_batch_refines id w w' r :
  tables_ok command_key (w_db w) → find_batch env command_key id w = (w', r) →
  reads_tables (λ v x, x = v_batches v !! id) w w' r.
Proof.
  intros Hok. apply read_refines; [done|]. intros w1 w2 x Hw1 Hrun. inv_run. rewrite Hw1 in *. rewrite map_lookup_imap.
  destruct (t_batches (w_db w) !! id) as [m|] eqn:Hm; inv_run; [|split; congruence].
  split; [congruence|]. cbn. by match goal with Hx : map_stored_batch _ _ _ = Ok _ |- _ => rewrite Hx end.
Qed.

Lemma traverse_lift_ok {A B} (f : A → result B OperationRepositoryError) models w w' l :
  mtraverse (λ m, mlift (f m)) models w = (w', Ok l) → w' = w ∧ Forall2 (λ m b, f m = Ok b) models l.
Proof.
  revert w l. induction models as [|m models IH]; intros w l Hrun; cbn [mtraverse] in Hrun; inv_run.
  - split; [done|constructor].
  - match goal with Ht : mtraverse _ _ _ = _ |- _ => apply IH in Ht as [-> ?] end. split; [done|]. by constructor.
Qed.

#[local] Instance batch_model_le_trans : Transitive batch_model_le.
Proof. intros x y z. unfold batch_model_le. lia. Qed.
#[local] Instance batch_model_le_total : Total batch_model_le.
Proof. intros x y. unfold batch_model_le. lia. Qed.

Lemma map_stored_batch_inv id m b :
  map_stored_batch command_key id m = Ok b → batch_id b = id ∧ batch_created_at b = bm_created_at m.
Proof. unfold map_stored_batch. intros Hm. inv_ok. done. Qed.

Lemma list_batches_refines w w' r :
  tables_ok command_key (w_db w) → list_batches env command_key w = (w', r) →
  reads_tables (λ v l, l ≡ₚ (map_to_list (v_batches v)).*2 ∧ Sorted batch_acceptance_le l) w w' r.
Proof.
  intros Hok. apply read_refines; [done|]. intros w1 w2 l Hw1 Hrun. inv_run.
  apply traverse_lift_ok in Hrun as [-> Hf]. rewrite Hw1 in *.
  match goal with Hx : w_db _ = w_db w |- _ => split; [exact Hx|] end.
  set (rows := (map_to_list (t_batches (w_db w))).*2) in *. destruct Hok as (_ & Hb & _).
  assert (∀ m, m ∈ rows ↔ t_batches (w_db w) !! bm_id m = Some m) as Hrows.
  { intros m. unfold rows. rewrite list_elem_of_fmap. split.
    - intros ([id m'] & -> & Hin). apply elem_of_map_to_list in Hin. cbn. by destruct (Hb _ _ Hin) as [-> _].
    - intros Hm. exists (bm_id m, m). split; [done|]. by apply elem_of_map_to_list. }
  assert (NoDup rows) as Hnd.
  { unfold rows. apply NoDup_fmap_2_strong; [|apply NoDup_map_to_list].
    intros [i m] [j m'] Hi%elem_of_map_to_list Hj%elem_of_map_to_list. cbn. intros ->.
    destruct (Hb _ _ Hi) as [<- _], (Hb _ _ Hj) as [<- _]. done. }
  assert (batch_id <$> l = bm_id <$> merge_sort batch_model_le rows) as Hids.
  { clear -Hf. induction Hf as [|m b models l Hm _ IH]; [done|]. cbn. f_equal; [|done]. by apply map_stored_batch_inv in Hm as [-> _]. }
  split.
  - apply NoDup_Permutation.
    + apply (NoDup_fmap_1 batch_id). rewrite Hids. apply NoDup_fmap_2_strong.
      * intros x y. rewrite !merge_sort_Permutation. intros Hx%Hrows Hy%Hrows Heq. rewrite Heq in Hx. congruence.
      * by rewrite merge_sort_Permutation.
    + apply NoDup_fmap_2_strong; [|apply NoDup_map_to_list].
      assert (∀ i b, v_batches (view_of command_key (w_db w)) !! i = Some b → batch_id b = i) as Hkey.
      { intros i b Hi. rewrite lookup_batches in Hi. destruct (t_batches (w_db w) !! i) as [m|]; [|done]. cbn in Hi.
        destruct (map_stored_batch command_key i m) eqn:Hm; [|done]. cbn in Hi. simplify_eq. by apply map_stored_batch_inv in Hm as [? _]. }
      intros [i b] [j b'] Hi%elem_of_map_to_list Hj%elem_of_map_to_list. cbn. intros ->.
      by rewrite <- (Hkey _ _ Hi), <- (Hkey _ _ Hj).
    + intros b. rewrite list_elem_of_fmap. split.
      * intros Hin. apply list_elem_of_lookup in Hin as [k Hk]. destruct (Forall2_lookup_r _ _ _ _ _ Hf Hk) as (m & Hm & Hd).
        apply list_elem_of_lookup_2 in Hm. rewrite merge_sort_Permutation in Hm. apply Hrows in Hm.
        exists (bm_id m, b). split; [done|]. apply elem_of_map_to_list. cbn [snd].
        change (v_batches (view_of command_key (w_db w)) !! bm_id m = Some b). rewrite lookup_batches, Hm. cbn. by rewrite Hd.
      * intros ([i b'] & -> & Hin%elem_of_map_to_list). cbn [snd].
        change (v_batches (view_of command_key (w_db w)) !! i = Some b') in Hin. rewrite lookup_batches in Hin.
        destruct (t_batches (w_db w) !! i) as [m|] eqn:Hm; [|done]. cbn in Hin.
        destruct (map_stored_batch command_key i m) eqn:Hd; [|done]. cbn in Hin. simplify_eq.
        destruct (Hb _ _ Hm) as [Hmid _]. assert (m ∈ merge_sort batch_model_le rows) as Hmr.
        { rewrite merge_sort_Permutation. apply Hrows. by rewrite Hmid. }
        apply list_elem_of_lookup in Hmr as [k Hk]. destruct (Forall2_lookup_l _ _ _ _ _ Hf Hk) as (b & Hbk & Hdb).
        rewrite Hmid, Hd in Hdb. simplify_eq. by eapply list_elem_of_lookup_2.
  - pose proof (Sorted_merge_sort batch_model_le rows) as Hs. revert Hs. clear -Hf.
    induction Hf as [|m b models l Hm Hf IH]; intros Hs; [constructor|]. apply Sorted_inv in Hs as [Hs Hhd].
    constructor; [by apply IH|]. destruct Hf as [|m' b' models l Hm' Hf]; constructor. apply HdRel_inv in Hhd.
    unfold batch_acceptance_le. apply map_stored_batch_inv in Hm as [-> ->], Hm' as [-> ->]. exact Hhd.
Qed.

Lemma traverse_classified_ok models w w' l :
  mtraverse (load_classified env command_key) models w = (w', Ok l) →
  w_db w' = w_db w ∧
  Forall2 (λ m c, decode command_key (w_db w) (m_id m) m = Ok c.1 ∧ stored_failure_kind (m_id m) m = Ok c.2) models l.
Proof.
  revert w l. induction models as [|m models IH]; intros w l Hrun; cbn [mtraverse] in Hrun; inv_run.
  { split; [done|constructor]. }
  match goal with Hl : load_classified _ _ _ _ = _ |- _ => unfold load_classified, load in Hl; inv_run end.
  match goal with Hl : map_stored_operation _ _ _ _ _ = _ |- _ => apply map_stored_operation_ok in Hl as [Hdb Hd] end.
  match goal with Ht : mtraverse _ _ _ = _ |- _ => apply IH in Ht as [Hdb' Hf] end.
  rewrite Hdb in *. split; [congruence|]. by constructor.
Qed.

(** What the loop over rows answers: the operations of the rows, classified. *)
Lemma loaded_rows t (P : operation_model → Prop) (Q : Operation Command → Prop) `{∀ o, Decision (Q o)} models l :
  tables_ok command_key t → NoDup models →
  (∀ m, m ∈ models ↔ t_operations t !! m_id m = Some m ∧ P m) →
  (∀ id m o, t_operations t !! id = Some m → decode command_key t id m = Ok o → P m ↔ Q o) →
  Forall2 (λ m c, decode command_key t (m_id m) m = Ok c.1 ∧ stored_failure_kind (m_id m) m = Ok c.2) models l →
  l ≡ₚ classified (view_of command_key t) <$> filter Q (view_rows (view_of command_key t)).
Proof.
  intros Hok Hnd Hin HPQ Hf.
  assert (l = classified (view_of command_key t) <$> l.*1) as Hcl.
  { clear Hnd HPQ. assert (∀ m, m ∈ models → t_operations t !! m_id m = Some m) as Hrow by (intros m Hm; by apply Hin in Hm as [? _]).
    clear Hin. induction Hf as [|m [o k] models l [Hd Hk] Hf IH]; [done|]. cbn [fmap list_fmap fst] in *. f_equal.
    - unfold classified. f_equal. assert (op_id o = m_id m) as -> by (by apply decode_inv in Hd as [-> _]).
      rewrite lookup_kinds, Hrow by (by left). cbn in *. by rewrite Hk.
    - apply IH. intros m' Hm'. apply Hrow. by right. }
  assert (op_id <$> l.*1 = m_id <$> models) as Hids.
  { clear -Hf. induction Hf as [|m c models l [Hd _] _ IH]; [done|]. cbn. f_equal; [|done]. by apply decode_inv in Hd as [-> _]. }
  rewrite Hcl. apply fmap_Permutation, NoDup_Permutation.
  - apply (NoDup_fmap_1 op_id). rewrite Hids. apply NoDup_fmap_2_strong; [|done].
    intros x y [Hx _]%Hin [Hy _]%Hin Heq. rewrite Heq in Hx. congruence.
  - apply NoDup_filter, view_rows_NoDup; done.
  - intros o. rewrite list_elem_of_filter, view_rows_elem by done. split.
    + intros ([o' k] & -> & Ho)%list_elem_of_fmap. apply list_elem_of_lookup in Ho as [i Ho].
      destruct (Forall2_lookup_r _ _ _ _ _ Hf Ho) as (m & Hm & Hd & _). cbn [fst snd] in *.
      apply list_elem_of_lookup_2, Hin in Hm as [Hm HP]. pose proof Hd as (Hid & _)%decode_inv.
      split; [by eapply HPQ|]. rewrite Hid, lookup_view, Hm. cbn. by rewrite Hd.
    + intros [HQ Hv]. rewrite lookup_view in Hv. destruct (t_operations t !! op_id o) as [m|] eqn:Hm; [|done]. cbn in Hv.
      destruct (decode command_key t (op_id o) m) as [o'|] eqn:Hd; [|done]. cbn in Hv. injection Hv as ->.
      pose proof Hok as (Hops & _). destruct (Hops _ _ Hm) as (Hmid & _).
      assert (m ∈ models) as Hmm by (apply Hin; rewrite Hmid; split; [done|by eapply HPQ]).
      apply list_elem_of_lookup in Hmm as [i Hi]. destruct (Forall2_lookup_l _ _ _ _ _ Hf Hi) as ([o' k] & Ho' & Hd' & _).
      cbn in Hd'. rewrite Hmid, Hd in Hd'. injection Hd' as <-. apply list_elem_of_fmap. exists (o, k). split; [done|]. by eapply list_elem_of_lookup_2.
Qed.

#[local] Instance stored_le_trans : Transitive model_le.
Proof. intros x y z. unfold model_le. lia. Qed.
#[local] Instance stored_le_total : Total model_le.
Proof. intros x y. unfold model_le. lia. Qed.
#[local] Instance child_le_total : Total (child_le (Command := Command)).
Proof. intros l r. unfold child_le. repeat case_match; naive_solver lia. Qed.

Lemma list_batch_children_refines batch w w' r :
  tables_ok command_key (w_db w) → list_batch_children env command_key batch w = (w', r) →
  reads_tables (λ v l, l ≡ₚ view_children v batch ∧ Sorted child_le l) w w' r.
Proof.
  intros Hok. apply read_refines; [done|]. intros w1 w2 l Hw1 Hrun. inv_run. rewrite Hw1 in *.
  match goal with Ht : mtraverse _ _ _ = _ |- _ => apply traverse_classified_ok in Ht as [Hdb Hf] end.
  match goal with Hx : w_db ?y = w_db w, Hy : w_db w2 = w_db ?y |- _ => rewrite Hx in *; split; [congruence|] end.
  split; [|apply Sorted_merge_sort, _]. rewrite merge_sort_Permutation. unfold view_children.
  eapply (loaded_rows _ (λ m, m_batch_id m = Some batch)); [done| | | |exact Hf].
  - by apply NoDup_filter, (rows_NoDup command_key).
  - intros m. rewrite list_elem_of_filter, (rows_elem command_key) by done. tauto.
  - intros id m o Hm Hd. apply decode_inv in Hd as [-> _]. cbn. rewrite lookup_omap, Hm. done.
Qed.

Lemma list_classified_refines f w w' r :
  tables_ok command_key (w_db w) → list_operations_classified env command_key f w = (w', r) →
  reads_tables (λ v l, l ≡ₚ classified v <$> view_list v f ∧ Sorted acceptance_le l.*1) w w' r.
Proof.
  intros Hok. apply read_refines; [done|]. intros w1 w2 l Hw1 Hrun. inv_run. rewrite Hw1 in *.
  match goal with Ht : mtraverse _ _ _ = _ |- _ => apply traverse_classified_ok in Ht as [Hdb Hf] end.
  match goal with Hx : w_db ?y = w_db w, Hy : w_db w2 = w_db ?y |- _ => rewrite Hx in *; split; [congruence|] end.
  split.
  - unfold view_list. eapply (loaded_rows _ (state_matches f)); [done| | | |exact Hf].
    + unfold query_rows. rewrite merge_sort_Permutation. by apply NoDup_filter, (rows_NoDup command_key).
    + intros m. unfold query_rows. rewrite merge_sort_Permutation, list_elem_of_filter, (rows_elem command_key) by done. tauto.
    + intros id m o _ Hd. by eapply state_matches_listed.
  - apply (decoded_sorted command_key (w_db w) (query_rows (state_matches f) (w_db w))); [|apply Sorted_merge_sort, _].
    revert Hf. generalize (query_rows (state_matches f) (w_db w)). intros ms Hf.
    induction Hf as [|m c models l [Hd _] _ IH]; by constructor.
Qed.

(** The repository keeps the contract of the batch reads. *)
Definition sqlite_batch_laws :
  @BatchReadsLaws Command (World Tables) OperationRepositoryError (repository_store env command_key)
    (repository_laws env command_key Hrandom) sqlite_batch_reads.
Proof.
  refine (@Build_BatchReadsLaws _ _ _ (repository_store env command_key) (repository_laws env command_key Hrandom)
    sqlite_batch_reads _ _ _ _ _).
  - intros w id o Hok Ho. change (v_operations (view_of command_key (w_db w)) !! id = Some o) in Ho.
    rewrite lookup_view in Ho. destruct (t_operations (w_db w) !! id) as [m|]; [|done]. cbn in Ho.
    destruct (decode command_key (w_db w) id m) eqn:Hd; [|done]. cbn in Ho. simplify_eq. by apply decode_inv in Hd as [-> _].
  - exact find_batch_refines.
  - exact list_batches_refines.
  - exact list_batch_children_refines.
  - exact list_classified_refines.
Defined.
End sqlite.

(** ** Concrete submissions *)

#[local] Instance demo_batch_reads : BatchReads () (World Tables) OperationRepositoryError :=
  sqlite_batch_reads quiet_env (Some ()).
#[local] Instance demo_batch_laws : BatchReadsLaws () (World Tables) OperationRepositoryError :=
  sqlite_batch_laws quiet_env (Some ()) toy_random.

(** A lookup in a set of managed endpoints. *)
Definition demo_endpoint (e : EndpointId) : Endpoint :=
  mk_endpoint e (lit "node") (lit "192.0.2.7") (SystemCa (mk_tls_certificate [48%N] (replicate 32 7%N)) 0) 9%N 0 0.
#[local] Instance set_lookup : EndpointLookup (gset EndpointId) () :=
  λ e l, (l, Ok (if decide (e ∈ l) then Some (demo_endpoint e) else None)).
#[local, refine] Instance set_lookup_laws : EndpointLookupLaws (gset EndpointId) () := {| managed l := l |}.
Proof.
  intros e l l' r [= <- <-]. split; [done|]. intros x [= <-]. case_decide as He.
  - split; [done|by exists (demo_endpoint e)].
  - split; [by intros [? [=]]|done].
Defined.

Definition demo_submission : Submission (World Tables) (gset EndpointId) :=
  mk_submission empty_world {[20%N; 30%N; 50%N]}.

Lemma submission_checked_witness :
  let run := submit (Command := ()) 1%N SourceSite [mk_operation_target 3%N 30%N] () 100%Z demo_submission in
  is_ok run.2 = true ∧ store_ok (sb_store run.1) ∧
  (submit (Command := ()) 1%N SourceSite [mk_operation_target 3%N 31%N] () 100%Z demo_submission).2 =
    Err (UnknownEndpoint 31%N).
Proof.
  intros run. split; [vm_compute; reflexivity|]. split; [|vm_compute; reflexivity].
  exact (proj1 (submission_checked 1%N SourceSite [mk_operation_target 3%N 30%N] () 100%Z demo_submission run.1 run.2
    empty_tables_ok (surjective_pairing run))).
Defined.

Definition demo_targets : list OperationTarget :=
  [mk_operation_target 3%N 30%N; mk_operation_target 2%N 20%N; mk_operation_target 5%N 50%N].
Definition batch_run := submit_batch (Command := ()) demo_ids SourceSite demo_targets () 130%Z demo_submission.
Definition later_calls : list (StoreCall ()) :=
  [CallApply 101%N Validating 140%Z; CallCreate demo_operation; CallApply 103%N Validating 141%Z;
   CallApply 103%N Running 142%Z; CallApply 103%N Failed 143%Z; CallKind 103%N CapabilityUnsupported; CallApply 102%N Succeeded 144%Z].

Lemma demo_ids_unused : unused demo_ids (store_view (sb_store demo_submission)).
Proof.
  split; [intros i j; unfold demo_ids; lia|].
  assert (store_view (sb_store demo_submission) = mk_view ∅ ∅ ∅ ∅) as -> by (vm_compute; reflexivity).
  cbn. setoid_rewrite lookup_empty. done.
Qed.

Lemma later_admissible : Forall (admissible 130%Z) later_calls.
Proof. unfold later_calls. rewrite !Forall_cons. unfold admissible, new_ok, timeline_ok. cbn. split_and!; try done; lia. Qed.

Lemma batch_report_follows_witness :
  ∃ b cs u r, batch_run.2 = Ok (b, cs) ∧ (exec_all later_calls (sb_store batch_run.1)).1 = u ∧
    (batch_detail (Command := ()) (batch_id b) u).2 = Ok (Some r) ∧
    length (bd_children r) = 3 ∧ Sorted child_le (bd_children r) ∧
    (λ c : Operation () * option FailureKind, (endpoint_id <$> op_targets c.1, op_state c.1, c.2)) <$> bd_children r =
      [([20%N], Succeeded, None); ([30%N], Validating, None); ([50%N], Failed, Some CapabilityUnsupported)].
Proof.
  destruct batch_run.2 as [[b cs]|x] eqn:Hb; [|vm_compute in Hb; discriminate].
  set (u := (exec_all later_calls (sb_store batch_run.1)).1).
  destruct (batch_detail (Command := ()) (batch_id b) u).2 as [[r|]|x] eqn:Hr;
    [|vm_compute in Hb; injection Hb as <- <-; vm_compute in Hr; discriminate ..].
  destruct (batch_report_follows (Command := ()) demo_ids SourceSite demo_targets () 130%Z 130%Z later_calls
    demo_submission batch_run.1 b cs u (exec_all later_calls (sb_store batch_run.1)).2
    (batch_detail (Command := ()) (batch_id b) u).1 (Some r))
    as (d & Hd & _ & _ & Hl & _ & Hs & _).
  - exact empty_tables_ok.
  - exact demo_ids_unused.
  - intros id o Ho. vm_compute in Ho. discriminate.
  - lia.
  - exact later_admissible.
  - rewrite <- Hb. apply surjective_pairing.
  - apply surjective_pairing.
  - rewrite <- Hr. apply surjective_pairing.
  - injection Hd as <-. exists b, cs, u, r. split; [done|]. split; [done|]. split; [done|]. split; [exact Hl|].
    split; [exact Hs|]. vm_compute in Hb. injection Hb as <- <-. vm_compute in Hr. injection Hr as <-. reflexivity.
Defined.
