(* ===== verification/SnapshotRepository.v ===== *)
(** * SnapshotRepository: the generations of an endpoint's resources

    Models [persistence/src/resource_snapshot_repository.rs] over the endpoint,
    resource, snapshot and decode-failure tables, with the keys of [migration/src]
    its statements meet.  The list of allowed features is the enum's
    ([m20260812_000002]), so its check never fails; [serde_json] is a parameter. *)
From S2P Require Import Prelude Text Operation CenterDomain ResourceSnapshot Database Endpoints EndpointInventory.
From S2P Require Import ProjectionRepository.
Local Open Scope Z_scope.

Record NewResourceSnapshot := mk_new_snapshot {
  ns_feature : ResourceFeature;
  ns_odata_id : str;
  ns_odata_type : option str;
  ns_etag : option str;
  ns_payload : str;
}.

(** [resource_decode_failure::Model]. *)
Record failure_model := mk_failure_model {
  fm_endpoint_id : Uuid;
  fm_generation : Z;
  fm_odata_uri : str;
  fm_odata_type : option str;
  fm_feature : str;
  fm_oem_namespace : option str;
  fm_error_summary : str;
  fm_extended_info_json : str;
}.

Record SnapshotTables := mk_snapshot_tables {
  st_endpoints : gmap Uuid endpoint_model;
  st_resources : gmap Uuid resource_model;
  st_snapshots : gmap (Uuid * Z) snapshot_model;
  st_failures : gmap (Uuid * Z * str) failure_model;
}.

(** [serde_json] on the stored list of [ExtendedInfo] entries. *)
Class ExtendedInfoJson := {
  info_to_string : list ResourceExtendedInfo → option str;
  info_from_str : str → option (list ResourceExtendedInfo);
}.
Class ExtendedInfoJsonLaws `{ExtendedInfoJson} :=
  info_roundtrip l text : info_to_string l = Some text → info_from_str text = Some l.

Inductive StoredResourceSnapshotError :=
| StoredUnknownFeature (source : ResourceFeatureParseError)
| StoredInvalidODataId (source : ResourceODataIdError)
| StoredInvalidODataType (source : ResourceODataTypeError)
| StoredInvalidEtag (source : ResourceEtagError)
| StoredInvalidPayload (source : ResourceSnapshotPayloadError)
| StoredInvalidGenerationValue
| StoredInvalidGeneration (source : RefreshGenerationError)
| ResourcePredatesEndpoint
| SnapshotPredatesResource (resource_id : Uuid)
| ResourceMissing (resource_id : Uuid)
| StoredEmptyGeneration
| MixedObservationTimes
| InvalidServiceRootCount (actual : nat).

Inductive StoredResourceDecodeFailureError :=
| FailureUnknownFeature (source : ResourceFeatureParseError)
| FailureInvalidODataUri (source : ResourceODataIdError)
| FailureInvalidODataType (source : ResourceODataTypeError)
| FailureInvalidExtendedInfo
| FailureInvalidDecodeFailure (source : ResourceDecodeFailureError).

Inductive ResourceSnapshotRepositoryError :=
| SnapshotCoordinate
| SnapshotEmptyGeneration (endpoint_id : EndpointId)
| SnapshotDuplicateODataId (endpoint_id : EndpointId) (odata_id : str)
| SnapshotServiceRootMissing (endpoint_id : EndpointId)
| SnapshotMultipleServiceRoots (endpoint_id : EndpointId)
| SnapshotEndpointNotFound (endpoint_id : EndpointId)
| ObservationPredatesEndpoint (endpoint_id : EndpointId)
| FeatureChanged (endpoint_id : EndpointId) (odata_id : str) (stored observed : ResourceFeature)
| GenerationExhausted (endpoint_id : EndpointId)
| SnapshotCorrupt (endpoint_id : EndpointId) (source : StoredResourceSnapshotError)
| CorruptDecodeFailures (endpoint_id : EndpointId) (source : StoredResourceDecodeFailureError)
| SnapshotDatabase.
#[export] Instance snapshot_errors : DbErrors ResourceSnapshotRepositoryError :=
  { err_coordinate := SnapshotCoordinate; err_database := SnapshotDatabase }.

(** ** The checks before the transaction *)

(** The loop of [validate_observations]: the identities seen and the service roots. *)
Fixpoint count_service_roots (endpoint_id : EndpointId) (identities : list str) (service_roots : nat)
    (observations : list NewResourceSnapshot) : result nat ResourceSnapshotRepositoryError :=
  match observations with
  | [] => Ok service_roots
  | observation :: observations =>
      if decide (ns_odata_id observation ∈ identities)
      then Err (SnapshotDuplicateODataId endpoint_id (ns_odata_id observation))
      else
        count_service_roots endpoint_id (ns_odata_id observation :: identities)
          (if decide (ns_feature observation = FeatureServiceRoot) then S service_roots else service_roots)
          observations
  end.

Definition validate_observations (endpoint_id : EndpointId) (observations : list NewResourceSnapshot)
    : result () ResourceSnapshotRepositoryError :=
  if decide (observations = []) then Err (SnapshotEmptyGeneration endpoint_id)
  else
    let? service_roots := count_service_roots endpoint_id [] 0 observations in
    match service_roots with
    | 0%nat => Err (SnapshotServiceRootMissing endpoint_id)
    | 1%nat => Ok ()
    | _ => Err (SnapshotMultipleServiceRoots endpoint_id)
    end.

Fixpoint validate_stable_features (endpoint_id : EndpointId) (observations : list NewResourceSnapshot)
    (existing : gmap str resource_model) : result () ResourceSnapshotRepositoryError :=
  match observations with
  | [] => Ok ()
  | observation :: observations =>
      match existing !! ns_odata_id observation with
      | None => validate_stable_features endpoint_id observations existing
      | Some model =>
          let? stored :=
            map_err (λ e, SnapshotCorrupt endpoint_id (StoredUnknownFeature e))
              (ResourceFeature_from_str (rm_feature model)) in
          if decide (stored ≠ ns_feature observation)
          then Err (FeatureChanged endpoint_id (ns_odata_id observation) stored (ns_feature observation))
          else validate_stable_features endpoint_id observations existing
      end
  end.

(** ** The rows *)

(** A snapshot row with its resource, when it is of the endpoint: the join of the
    queries, whose filter is a column of the resource. *)
Definition joined_row (endpoint_id : EndpointId) (t : SnapshotTables) (m : snapshot_model)
    : option (snapshot_model * resource_model) :=
  r ← st_resources t !! sm_resource_id m;
  if decide (rm_endpoint_id r = endpoint_id) then Some (m, r) else None.
Definition joined (endpoint_id : EndpointId) (t : SnapshotTables) : list (snapshot_model * resource_model) :=
  omap (joined_row endpoint_id t) (map_to_list (st_snapshots t)).*2.

(** The generation of [latest_snapshot]: descending order, first row. *)
Definition latest_generation (endpoint_id : EndpointId) (t : SnapshotTables) : option Z :=
  last (merge_sort Z.le ((λ row, sm_generation row.1) <$> joined endpoint_id t)).

Definition row_le (a b : snapshot_model * resource_model) : Prop := str_le (rm_odata_id a.2) (rm_odata_id b.2).
#[export] Instance row_le_dec : RelDecision row_le.
Proof. intros a b. unfold row_le, str_le. apply _. Defined.
#[export] Instance row_le_total : Total row_le.
Proof. intros a b. apply str_le_total. Qed.
#[export] Instance row_le_trans : Transitive row_le.
Proof. intros a b c. apply str_le_trans. Qed.

Definition generation_rows (endpoint_id : EndpointId) (generation : Z) (t : SnapshotTables)
    : list (snapshot_model * resource_model) :=
  merge_sort row_le (filter (λ row, sm_generation row.1 = generation) (joined endpoint_id t)).

Definition map_generation (endpoint_id : EndpointId) (value : Z) : result Z ResourceSnapshotRepositoryError :=
  let? value := ok_or (u64_try_from value) (SnapshotCorrupt endpoint_id StoredInvalidGenerationValue) in
  map_err (λ e, SnapshotCorrupt endpoint_id (StoredInvalidGeneration e)) (RefreshGeneration_new value).

(** [next_generation], from the generation of the latest snapshot. *)
Definition following_generation (endpoint_id : EndpointId) (latest : option Z)
    : result Z ResourceSnapshotRepositoryError :=
  match latest with
  | None => map_err (λ e, SnapshotCorrupt endpoint_id (StoredInvalidGeneration e)) (RefreshGeneration_new 1)
  | Some latest =>
      let? current := map_generation endpoint_id latest in
      let? next := ok_or (checked_add_u64 current 1) (GenerationExhausted endpoint_id) in
      map_err (λ _, GenerationExhausted endpoint_id) (RefreshGeneration_new next)
  end.

(** [existing]: the endpoint's resources by their id. *)
Definition existing_resources (endpoint_id : EndpointId) (t : SnapshotTables) : gmap str resource_model :=
  list_to_map ((λ m, (rm_odata_id m, m)) <$> filter (λ m, rm_endpoint_id m = endpoint_id) (map_to_list (st_resources t)).*2).

Definition resource_row_of (resource_id : Uuid) (endpoint_id : EndpointId) (observation : NewResourceSnapshot)
    (created_at : OffsetDateTime) : resource_model :=
  mk_resource_model resource_id endpoint_id (ns_odata_id observation)
    (ResourceFeature_as_str (ns_feature observation)) created_at.
Definition snapshot_row_of (resource_id : Uuid) (generation : Z) (observation : NewResourceSnapshot)
    (observed_at : OffsetDateTime) : snapshot_model :=
  mk_snapshot_model resource_id generation (ns_odata_type observation) (ns_etag observation)
    (ns_payload observation) observed_at.

Definition to_domain_snapshot (resource_id : Uuid) (endpoint_id : EndpointId) (generation : Z)
    (observation : NewResourceSnapshot) (observed_at : OffsetDateTime) : ResourceSnapshot :=
  mk_resource_snapshot resource_id endpoint_id (ns_feature observation) (ns_odata_id observation)
    (ns_odata_type observation) (ns_etag observation) (ns_payload observation) observed_at generation.

(** ** The repository *)

Section repository.
Context (env : Env) `{JsonValue} `{ExtendedInfoJson} (fresh : nat → Uuid).
Abbreviation Repo := (M (World SnapshotTables) ResourceSnapshotRepositoryError).
Implicit Types (t : SnapshotTables).

Definition with_resources t (x : gmap Uuid resource_model) : SnapshotTables :=
  mk_snapshot_tables (st_endpoints t) x (st_snapshots t) (st_failures t).
Definition with_snapshots t (x : gmap (Uuid * Z) snapshot_model) : SnapshotTables :=
  mk_snapshot_tables (st_endpoints t) (st_resources t) x (st_failures t).
Definition with_failures t (x : gmap (Uuid * Z * str) failure_model) : SnapshotTables :=
  mk_snapshot_tables (st_endpoints t) (st_resources t) (st_snapshots t) x.

Definition next_generation (endpoint_id : EndpointId) : Repo Z :=
  let! latest := select env (latest_generation endpoint_id) in
  mlift (following_generation endpoint_id latest).

(** The insertion of a resource: its key and the pair of its endpoint and id are
    new. *)
Definition add_resource (row : resource_model) t : option (SnapshotTables * ()) :=
  if decide (map_Forall (λ _ m, ¬ (rm_endpoint_id m = rm_endpoint_id row ∧ rm_odata_id m = rm_odata_id row))
               (st_resources t))
  then (λ rows, (with_resources t rows, ())) <$> insert_new (st_resources t) (rm_id row) row
  else None.
(** [insert_resource]; [resource_id] is the generated id. *)
Definition insert_resource (resource_id : Uuid) (endpoint_id : EndpointId) (observation : NewResourceSnapshot)
    (created_at : OffsetDateTime) : Repo Uuid :=
  do! statement env (add_resource (resource_row_of resource_id endpoint_id observation created_at)) in
  mret resource_id.

(** The insertion of a snapshot: its key is new, its resource known and its
    generation positive. *)
Definition add_snapshot (row : snapshot_model) t : option (SnapshotTables * ()) :=
  if decide (st_snapshots t !! (sm_resource_id row, sm_generation row) = None ∧
             is_Some (st_resources t !! sm_resource_id row) ∧ 1 <= sm_generation row)
  then Some (with_snapshots t (<[(sm_resource_id row, sm_generation row) := row]> (st_snapshots t)), ())
  else None.
Definition insert_snapshot (resource_id : Uuid) (generation : Z) (observation : NewResourceSnapshot)
    (observed_at : OffsetDateTime) : Repo () :=
  statement env (add_snapshot (snapshot_row_of resource_id generation observation observed_at)).

(** The loop over the observations; observation [i] may draw the id [fresh i]. *)
Fixpoint store_observations (existing : gmap str resource_model) (endpoint_id : EndpointId) (generation : Z)
    (observed_at : OffsetDateTime) (i : nat) (observations : list NewResourceSnapshot)
    : Repo (list ResourceSnapshot) :=
  match observations with
  | [] => mret []
  | observation :: observations =>
      let! resource_id :=
        match existing !! ns_odata_id observation with
        | Some model => mret (rm_id model)
        | None => insert_resource (fresh i) endpoint_id observation observed_at
        end in
      do! insert_snapshot resource_id generation observation observed_at in
      let! snapshots := store_observations existing endpoint_id generation observed_at (S i) observations in
      mret (to_domain_snapshot resource_id endpoint_id generation observation observed_at :: snapshots)
  end.

Definition serialize_extended_info (failure : ResourceDecodeFailure) : result str ResourceSnapshotRepositoryError :=
  ok_or (info_to_string (df_extended_info failure)) SnapshotDatabase.
Definition failure_row (endpoint_id : EndpointId) (generation : Z) (failure : ResourceDecodeFailure) (json : str)
    : failure_model :=
  mk_failure_model endpoint_id generation (df_odata_uri failure) (df_odata_type failure)
    (ResourceFeature_as_str (df_feature failure)) (df_oem_namespace failure) (df_error_summary failure) json.
Definition failure_key (row : failure_model) : Uuid * Z * str :=
  (fm_endpoint_id row, fm_generation row, fm_odata_uri row).
Definition add_failure (row : failure_model) t : option (SnapshotTables * ()) :=
  if decide (st_failures t !! failure_key row = None ∧ is_Some (st_endpoints t !! fm_endpoint_id row) ∧
             1 <= fm_generation row)
  then Some (with_failures t (<[failure_key row := row]> (st_failures t)), ())
  else None.
Definition insert_decode_failure (endpoint_id : EndpointId) (generation : Z) (failure : ResourceDecodeFailure)
    : Repo () :=
  let! json := mlift (serialize_extended_info failure) in
  statement env (add_failure (failure_row endpoint_id generation failure json)).

Definition commit_resource_generation (endpoint_id : EndpointId) (observations : list NewResourceSnapshot)
    (decode_failures : list ResourceDecodeFailure) (observed_at : OffsetDateTime) : Repo (list ResourceSnapshot) :=
  do! mlift (validate_observations endpoint_id observations) in
  do! acquire env in
  transaction env (
    let! found := select env (λ t, st_endpoints t !! endpoint_id) in
    let! endpoint_model := mlift (ok_or found (SnapshotEndpointNotFound endpoint_id)) in
    if observed_at <? em_created_at endpoint_model then mfail (ObservationPredatesEndpoint endpoint_id)
    else
      let! generation := next_generation endpoint_id in
      let! existing := select env (existing_resources endpoint_id) in
      do! mlift (validate_stable_features endpoint_id observations existing) in
      let! snapshots := store_observations existing endpoint_id generation observed_at 0 observations in
      do! mfor decode_failures (insert_decode_failure endpoint_id generation) in
      mret (merge_sort odata_le snapshots)).

(** ** Reads *)

Definition corrupt {A} (endpoint_id : EndpointId) (r : result A StoredResourceSnapshotError)
    : result A ResourceSnapshotRepositoryError := map_err (SnapshotCorrupt endpoint_id) r.

Definition map_stored_snapshot (endpoint_id : EndpointId) (endpoint_created_at : OffsetDateTime) (generation : Z)
    (row : snapshot_model * resource_model) : result ResourceSnapshot ResourceSnapshotRepositoryError :=
  let '(snapshot, resource) := row in
  if rm_created_at resource <? endpoint_created_at then corrupt endpoint_id (Err ResourcePredatesEndpoint)
  else if sm_observed_at snapshot <? rm_created_at resource
  then corrupt endpoint_id (Err (SnapshotPredatesResource (rm_id resource)))
  else
    let? feature := corrupt endpoint_id (map_err StoredUnknownFeature (ResourceFeature_from_str (rm_feature resource))) in
    let? odata_id := corrupt endpoint_id (map_err StoredInvalidODataId (ResourceODataId_parse (rm_odata_id resource))) in
    let? payload :=
      corrupt endpoint_id (map_err StoredInvalidPayload (ResourceSnapshotPayload_parse (sm_typed_payload_json snapshot))) in
    let? odata_type :=
      transpose (λ value, corrupt endpoint_id (map_err StoredInvalidODataType (ResourceODataType_parse value))) (sm_odata_type snapshot) in
    let? etag :=
      transpose (λ value, corrupt endpoint_id (map_err StoredInvalidEtag (ResourceEtag_parse value))) (sm_etag snapshot) in
    Ok (mk_resource_snapshot (rm_id resource) endpoint_id feature odata_id odata_type etag payload
          (sm_observed_at snapshot) generation).

Definition validate_loaded_generation (endpoint_id : EndpointId) (snapshots : list ResourceSnapshot)
    : result () ResourceSnapshotRepositoryError :=
  match snapshots with
  | [] => corrupt endpoint_id (Err StoredEmptyGeneration)
  | first :: _ =>
      let service_roots := length (filter (λ s, sn_feature s = FeatureServiceRoot) snapshots) in
      if existsb (λ s, negb (sn_observed_at s =? sn_observed_at first)) snapshots
      then corrupt endpoint_id (Err MixedObservationTimes)
      else if decide (service_roots ≠ 1%nat) then corrupt endpoint_id (Err (InvalidServiceRootCount service_roots))
      else Ok ()
  end.

Definition find_current_resource_generation (endpoint_id : EndpointId) : Repo (option (list ResourceSnapshot)) :=
  transaction env (
    let! found := select env (λ t, st_endpoints t !! endpoint_id) in
    match found with
    | None => mret None
    | Some endpoint_model =>
        let! latest := select env (latest_generation endpoint_id) in
        match latest with
        | None => mret (Some [])
        | Some latest =>
            let! generation := mlift (map_generation endpoint_id latest) in
            let! rows := select env (generation_rows endpoint_id latest) in
            let! snapshots := mtraverse (λ row, mlift (map_stored_snapshot endpoint_id (em_created_at endpoint_model) generation row)) rows in
            do! mlift (validate_loaded_generation endpoint_id snapshots) in
            mret (Some snapshots)
        end
    end).

Definition failure_le (a b : failure_model) : Prop := str_le (fm_odata_uri a) (fm_odata_uri b).
#[export] Instance failure_le_dec : RelDecision failure_le.
Proof. intros a b. unfold failure_le, str_le. apply _. Defined.

Definition failure_rows (endpoint_id : EndpointId) (generation : Z) t : list failure_model :=
  merge_sort failure_le
    (filter (λ m, fm_endpoint_id m = endpoint_id ∧ fm_generation m = generation) (map_to_list (st_failures t)).*2).

Definition corrupt_decode_failures {A} (endpoint_id : EndpointId) (r : result A StoredResourceDecodeFailureError)
    : result A ResourceSnapshotRepositoryError := map_err (CorruptDecodeFailures endpoint_id) r.

Definition map_stored_decode_failure (endpoint_id : EndpointId) (row : failure_model)
    : result ResourceDecodeFailure ResourceSnapshotRepositoryError :=
  corrupt_decode_failures endpoint_id (
    let? feature := map_err FailureUnknownFeature (ResourceFeature_from_str (fm_feature row)) in
    let? odata_uri := map_err FailureInvalidODataUri (ResourceODataId_parse (fm_odata_uri row)) in
    let? odata_type :=
      transpose (λ value, map_err FailureInvalidODataType (ResourceODataType_parse value)) (fm_odata_type row) in
    let? extended_info := ok_or (info_from_str (fm_extended_info_json row)) FailureInvalidExtendedInfo in
    map_err FailureInvalidDecodeFailure
      (ResourceDecodeFailure_try_new odata_uri odata_type feature (fm_oem_namespace row) (fm_error_summary row) extended_info)).

Definition find_current_decode_failures (endpoint_id : EndpointId) (generation : Z) : Repo (list ResourceDecodeFailure) :=
  transaction env (
    let! rows := select env (failure_rows endpoint_id generation) in
    mtraverse (λ row, mlift (map_stored_decode_failure endpoint_id row)) rows).
End repository.

(** ** The checks *)

Lemma count_service_roots_Ok e seen n observations m :
  count_service_roots e seen n observations = Ok m ↔
  NoDup (ns_odata_id <$> observations) ∧ Forall (λ x, x ∉ seen) (ns_odata_id <$> observations) ∧
  m = (n + length (filter (λ o, ns_feature o = FeatureServiceRoot) observations))%nat.
Proof.
  revert seen n. induction observations as [|o os IH]; intros seen n; cbn [count_service_roots fmap list_fmap].
  { rewrite filter_nil. simpl. rewrite Nat.add_0_r. split; [|by intros (_ & _ & ->)]. intros [= <-]. by repeat split; constructor. }
  rewrite NoDup_cons, Forall_cons, filter_cons. case_decide as Hin; [naive_solver|].
  rewrite IH, !Forall_forall. setoid_rewrite not_elem_of_cons.
  assert (((if decide (ns_feature o = FeatureServiceRoot) then S n else n) +
    length (filter (λ o, ns_feature o = FeatureServiceRoot) os))%nat =
    (n + length (if decide (ns_feature o = FeatureServiceRoot) then o :: filter (λ o, ns_feature o = FeatureServiceRoot) os
      else filter (λ o, ns_feature o = FeatureServiceRoot) os))%nat) as -> by (case_decide; cbn [length]; lia).
  split.
  - intros (Hnd & Hall & ->). split_and!; try done; [|intros x Hx; by apply Hall].
    intros Hx. by destruct (Hall _ Hx).
  - intros ([Hni Hnd] & [_ Hall] & ->). split_and!; try done. intros x Hx. split; [by intros ->|by apply Hall].
Qed.

(** What a generation may hold: each id once, and one service root. *)
Lemma validate_observations_Ok e observations :
  validate_observations e observations = Ok () ↔
  NoDup (ns_odata_id <$> observations) ∧
  length (filter (λ o, ns_feature o = FeatureServiceRoot) observations) = 1%nat.
Proof.
  unfold validate_observations. case_decide as Hnil.
  { split; [done|]. intros [_ Hl]. by rewrite Hnil in Hl. }
  destruct (count_service_roots e [] 0 observations) as [n|x] eqn:Hc; cbn [result_bind].
  - apply count_service_roots_Ok in Hc as (Hnd & _ & ->). cbn [Nat.add]. destruct (length _) as [|[|k]]; naive_solver lia.
  - split; [done|]. intros [Hnd Hl]. assert (count_service_roots e [] 0 observations = Ok 1%nat); [|congruence].
    apply count_service_roots_Ok. rewrite Hl. split_and!; [done| |done]. apply Forall_forall. intros ??. apply not_elem_of_nil.
Qed.

Lemma feature_parsed value f : ResourceFeature_from_str value = Ok f → value = ResourceFeature_as_str f.
Proof. exact (@code_parse_sound _ _ ResourceFeature_code value f). Qed.
Lemma feature_parse f : ResourceFeature_from_str (ResourceFeature_as_str f) = Ok f.
Proof. exact (@code_parse_str _ _ ResourceFeature_code f). Qed.

Lemma validate_stable_Ok e observations existing :
  validate_stable_features e observations existing = Ok () →
  ∀ o m, o ∈ observations → existing !! ns_odata_id o = Some m → rm_feature m = ResourceFeature_as_str (ns_feature o).
Proof.
  induction observations as [|o os IH]; intros Hv o' m Hin Hm; [by apply elem_of_nil in Hin|].
  cbn [validate_stable_features] in Hv. apply elem_of_cons in Hin as [->|Hin].
  - rewrite Hm in Hv. destruct (ResourceFeature_from_str (rm_feature m)) as [f|] eqn:Hf; [|done]. cbn in Hv.
    case_decide as Hne; [done|]. subst f. by apply feature_parsed in Hf.
  - destruct (existing !! ns_odata_id o) as [m'|]; [|by eapply IH].
    destruct (ResourceFeature_from_str (rm_feature m')) as [f|]; [|done]. cbn in Hv. case_decide; [done|]. by eapply IH.
Qed.

(** ** The tables *)

Record snapshots_ok (t : SnapshotTables) : Prop := {
  ok_resources id r : st_resources t !! id = Some r → rm_id r = id ∧ ∃ f, rm_feature r = ResourceFeature_as_str f;
  ok_unique id id' r r' :
    st_resources t !! id = Some r → st_resources t !! id' = Some r' → rm_endpoint_id r = rm_endpoint_id r' →
    rm_odata_id r = rm_odata_id r' → id = id';
  ok_snapshots k m :
    st_snapshots t !! k = Some m →
    k = (sm_resource_id m, sm_generation m) ∧ is_Some (st_resources t !! sm_resource_id m) ∧ 1 <= sm_generation m <= I64_MAX;
  ok_failures k m : st_failures t !! k = Some m → k = failure_key m;
}.

Section rows_lemmas.
Context (t : SnapshotTables) (Hok : snapshots_ok t).

Lemma joined_elem e m r :
  (m, r) ∈ joined e t ↔
  st_snapshots t !! (sm_resource_id m, sm_generation m) = Some m ∧ st_resources t !! sm_resource_id m = Some r ∧
  rm_endpoint_id r = e.
Proof.
  unfold joined. rewrite list_elem_of_omap. unfold joined_row. split.
  - intros (m' & Hm & (r' & Hr & Hx)%bind_Some). case_decide as He; [|done]. injection Hx as -> ->.
    apply list_elem_of_fmap in Hm as ([k m'] & -> & Hm). apply elem_of_map_to_list in Hm. cbn in *.
    destruct (ok_snapshots _ Hok _ _ Hm) as [-> _]. done.
  - intros (Hm & Hr & He). exists m. split.
    + apply list_elem_of_fmap. exists ((sm_resource_id m, sm_generation m), m). split; [done|]. by apply elem_of_map_to_list.
    + rewrite Hr. cbn. by rewrite decide_True.
Qed.

Lemma NoDup_joined e : NoDup (joined e t).
Proof.
  unfold joined. assert (∀ m row, joined_row e t m = Some row → row.1 = m) as Hfst.
  { unfold joined_row. intros m row (r & _ & Hx)%bind_Some. case_decide; [|done]. by injection Hx as <-. }
  assert (NoDup (map_to_list (st_snapshots t)).*2) as Hnd.
  { apply NoDup_fmap_2_strong; [|apply NoDup_map_to_list]. intros [k m] [k' m'] Hk Hk'. cbn. intros <-.
    apply elem_of_map_to_list in Hk, Hk'. destruct (ok_snapshots _ Hok _ _ Hk) as [-> _], (ok_snapshots _ Hok _ _ Hk') as [-> _]. done. }
  induction Hnd as [|m ms Hni Hnd IH]; [constructor|]. cbn. destruct (joined_row e t m) as [row|] eqn:Hrow; [|done].
  constructor; [|done]. intros (m' & Hm' & Hr')%list_elem_of_omap.
  pose proof (Hfst _ _ Hrow) as <-. by rewrite (Hfst _ _ Hr') in Hni.
Qed.

Lemma generation_rows_elem e g m r :
  (m, r) ∈ generation_rows e g t ↔ sm_generation m = g ∧ (m, r) ∈ joined e t.
Proof. unfold generation_rows. by rewrite merge_sort_Permutation, list_elem_of_filter. Qed.

Lemma generation_rows_NoDup e g : NoDup (generation_rows e g t).
Proof. unfold generation_rows. rewrite merge_sort_Permutation. apply NoDup_filter, NoDup_joined. Qed.

(** The rows of one generation are told apart by the ids of their resources. *)
Lemma generation_rows_inj e g x y :
  x ∈ generation_rows e g t → y ∈ generation_rows e g t → rm_odata_id x.2 = rm_odata_id y.2 → x = y.
Proof.
  destruct x as [m r], y as [m' r']. rewrite !generation_rows_elem, !joined_elem.
  intros (<- & Hm & Hr & <-) (Hg & Hm' & Hr' & He) Hod. cbn in Hod.
  assert (sm_resource_id m = sm_resource_id m') as Hid by (eapply (ok_unique _ Hok); [exact Hr|exact Hr'|congruence|done]).
  rewrite <- Hg, Hid in *. congruence.
Qed.

Lemma latest_spec e :
  match latest_generation e t with
  | Some g => (∃ row, row ∈ joined e t ∧ sm_generation row.1 = g) ∧ ∀ row, row ∈ joined e t → sm_generation row.1 <= g
  | None => joined e t = []
  end.
Proof.
  clear Hok. unfold latest_generation. set (gs := (λ row, sm_generation row.1) <$> joined e t).
  assert (StronglySorted Z.le (merge_sort Z.le gs)) as Hs by (apply Sorted_StronglySorted, Sorted_merge_sort; apply _).
  pose proof (merge_sort_Permutation Z.le gs) as Hp.
  destruct (last (merge_sort Z.le gs)) as [g|] eqn:Hl.
  - apply last_Some in Hl as [l Hl]. rewrite Hl in Hs, Hp. split.
    + assert (g ∈ gs) as (row & -> & Hin)%list_elem_of_fmap by (rewrite <- Hp; set_solver). by exists row.
    + intros row Hin. assert (sm_generation row.1 ∈ l ++ [g]) as [Hx|Hx%list_elem_of_singleton]%elem_of_app
        by (rewrite Hp; apply list_elem_of_fmap; by exists row).
      * eapply (StronglySorted_app_1_elem_of Z.le l [g]); [done..|]. by apply list_elem_of_singleton.
      * lia.
  - apply last_None in Hl. rewrite Hl in Hp. apply Permutation_nil_l in Hp. symmetry in Hp. by apply fmap_nil_inv in Hp.
Qed.
End rows_lemmas.

(** ** The view: what the rows say *)

Definition feature_of (r : resource_model) : ResourceFeature :=
  match ResourceFeature_from_str (rm_feature r) with Ok f => f | Err _ => FeatureServiceRoot end.
(** A row as the snapshot it stores. *)
Definition snapshot_of (e : EndpointId) (row : snapshot_model * resource_model) : ResourceSnapshot :=
  mk_resource_snapshot (rm_id row.2) e (feature_of row.2) (rm_odata_id row.2) (sm_odata_type row.1) (sm_etag row.1)
    (sm_typed_payload_json row.1) (sm_observed_at row.1) (sm_generation row.1).
Definition generation_view (e : EndpointId) (g : Z) (t : SnapshotTables) : list ResourceSnapshot :=
  snapshot_of e <$> generation_rows e g t.
(** The current generation of an endpoint, when it has one. *)
Definition current_view (e : EndpointId) (t : SnapshotTables) : option (list ResourceSnapshot) :=
  (λ g, generation_view e g t) <$> latest_generation e t.

Lemma NoDup_fmap_eq {A B} (f : A → B) (l : list A) x y :
  NoDup (f <$> l) → x ∈ l → y ∈ l → f x = f y → x = y.
Proof.
  intros Hnd [i Hx]%list_elem_of_lookup [j Hy]%list_elem_of_lookup Heq.
  assert (i = j) as ->; [|congruence].
  eapply (NoDup_lookup (f <$> l)); [done|by rewrite list_lookup_fmap, Hx|]. rewrite list_lookup_fmap, Hy. cbn. by f_equal.
Qed.

Lemma odata_sorted_eq (l l' : list ResourceSnapshot) :
  Sorted odata_le l → Sorted odata_le l' → NoDup (sn_odata_id <$> l) → l ≡ₚ l' → l = l'.
Proof.
  intros Hs Hs' Hnd Hp. apply (Sorted_unique_strong odata_le); [|done..]. intros x y Hx Hy Hxy Hyx. rewrite <- Hp in Hy.
  apply (NoDup_fmap_eq sn_odata_id l); [done..|]. by apply str_le_antisym.
Qed.

(** ** What a commit leaves *)

Section commits.
Context (env : Env) `{JsonValue} `{ExtendedInfoJson} (fresh : nat → Uuid).
Implicit Types (t : SnapshotTables) (w : World SnapshotTables) (o : NewResourceSnapshot) (s : ResourceSnapshot).

Lemma add_resource_ok row t t' :
  add_resource row t = Some (t', ()) → (∃ f, rm_feature row = ResourceFeature_as_str f) → snapshots_ok t →
  st_resources t !! rm_id row = None ∧ t' = with_resources t (<[rm_id row := row]> (st_resources t)) ∧ snapshots_ok t'.
Proof.
  unfold add_resource. case_decide as Hu; [|done]. intros (rows & [Hn ->]%insert_new_Some & Ht)%fmap_Some Hf Hok.
  injection Ht as ->. split; [done|]. split; [done|]. split; cbn.
  - intros id r [[<- <-]|[_ Hr]]%lookup_insert_Some; [done|by eapply ok_resources].
  - intros id id' r r' [[<- <-]|[_ Hr]]%lookup_insert_Some [[<- <-]|[_ Hr']]%lookup_insert_Some He Hod; [done|..].
    + destruct (Hu _ _ Hr'). done.
    + destruct (Hu _ _ Hr). done.
    + by eapply (ok_unique _ Hok).
  - intros k m Hm. destruct (ok_snapshots _ Hok _ _ Hm) as (? & Hr & ?). split_and!; [done| |lia..].
    apply lookup_insert_is_Some'. by right.
  - exact (ok_failures _ Hok).
Qed.

Lemma add_snapshot_ok row t t' :
  add_snapshot row t = Some (t', ()) → sm_generation row <= I64_MAX → snapshots_ok t →
  st_snapshots t !! (sm_resource_id row, sm_generation row) = None ∧
  t' = with_snapshots t (<[(sm_resource_id row, sm_generation row) := row]> (st_snapshots t)) ∧ snapshots_ok t'.
Proof.
  unfold add_snapshot. case_decide as Hc; [|done]. destruct Hc as (Hn & Hr & Hg). intros Ht Hmax Hok. injection Ht as <-.
  split; [done|]. split; [done|]. split; cbn; [exact (ok_resources _ Hok)|exact (ok_unique _ Hok)| |exact (ok_failures _ Hok)].
  intros k m [[<- <-]|[_ Hm]]%lookup_insert_Some; [done|by eapply ok_snapshots].
Qed.

(** The rows of one observation, and what was answered for it. *)
Definition stored_as e g now t o s : Prop :=
  s = to_domain_snapshot (sn_resource_id s) e g o now ∧
  st_snapshots t !! (sn_resource_id s, g) = Some (snapshot_row_of (sn_resource_id s) g o now) ∧
  ∃ r, st_resources t !! sn_resource_id s = Some r ∧ rm_endpoint_id r = e ∧ rm_odata_id r = ns_odata_id o ∧
    rm_feature r = ResourceFeature_as_str (ns_feature o).

Definition grows t t' : Prop :=
  st_endpoints t' = st_endpoints t ∧ st_resources t ⊆ st_resources t' ∧ st_snapshots t ⊆ st_snapshots t'.

Lemma stored_as_grows e g now t t' o s : stored_as e g now t o s → grows t t' → stored_as e g now t' o s.
Proof.
  intros (Hs & Hm & r & Hr & Hrest) (_ & Hres & Hsn). split; [done|]. split; [by eapply lookup_weaken|].
  exists r. split; [by eapply lookup_weaken|done].
Qed.

(** Every other resource was there before. *)
Definition new_resources e now t t' : Prop :=
  ∀ id r, st_resources t' !! id = Some r → st_resources t !! id = Some r ∨ rm_endpoint_id r = e ∧ rm_created_at r = now.

(** What the loop may rely on for the observations that name known resources. *)
Definition known (existing : gmap str resource_model) e t o : Prop :=
  ∀ m, existing !! ns_odata_id o = Some m →
    st_resources t !! rm_id m = Some m ∧ rm_endpoint_id m = e ∧ rm_odata_id m = ns_odata_id o ∧
    rm_feature m = ResourceFeature_as_str (ns_feature o).

(** The id an observation is stored below. *)
Lemma resource_of_observation existing e now i o w w1 id :
  snapshots_ok (w_db w) → known existing e (w_db w) o →
  match existing !! ns_odata_id o with
  | Some model => mret (rm_id model)
  | None => insert_resource env (fresh i) e o now
  end w = (w1, Ok id) →
  snapshots_ok (w_db w1) ∧ grows (w_db w) (w_db w1) ∧ st_snapshots (w_db w1) = st_snapshots (w_db w) ∧
  st_failures (w_db w1) = st_failures (w_db w) ∧
  (∃ r, st_resources (w_db w1) !! id = Some r ∧ rm_endpoint_id r = e ∧ rm_odata_id r = ns_odata_id o ∧
    rm_feature r = ResourceFeature_as_str (ns_feature o)) ∧
  new_resources e now (w_db w) (w_db w1).
Proof.
  intros Hok Hknown Hrun. destruct (existing !! ns_odata_id o) as [m|] eqn:Hm.
  - unfold mret in Hrun. injection Hrun as <- <-. split_and!; try done; [by exists m; apply Hknown|by left].
  - unfold insert_resource in Hrun. inv_run. match goal with Ha : add_resource _ _ = Some _ |- _ => rename Ha into Hadd end.
    match type of Hadd with _ = Some (_, ?u) => destruct u end.
    apply add_resource_ok in Hadd as (Hn & Ht & Hok1); [|by exists (ns_feature o)|done]. rewrite Ht in *. cbn in *.
    split; [done|]. split; [split_and!; [done|by apply insert_subseteq|done]|]. split; [done|]. split; [done|].
    split; [eexists; split; [apply lookup_insert_eq|done]|].
    intros k r Hr. cbn in Hr. apply lookup_insert_Some in Hr as [[_ <-]|[_ Hr]]; [by right|by left].
Qed.

Lemma store_observations_ok existing e g now i observations w w' l :
  snapshots_ok (w_db w) → g <= I64_MAX → Forall (known existing e (w_db w)) observations →
  store_observations env fresh existing e g now i observations w = (w', Ok l) →
  snapshots_ok (w_db w') ∧ grows (w_db w) (w_db w') ∧ st_failures (w_db w') = st_failures (w_db w) ∧
  Forall2 (stored_as e g now (w_db w')) observations l ∧
  (∀ k m, st_snapshots (w_db w') !! k = Some m →
    st_snapshots (w_db w) !! k = Some m ∨ ∃ s, s ∈ l ∧ k = (sn_resource_id s, g)) ∧
  new_resources e now (w_db w) (w_db w').
Proof.
  revert i w l. induction observations as [|o os IH]; intros i w l Hok Hg Hknown Hrun; cbn [store_observations] in Hrun.
  { unfold mret in Hrun. injection Hrun as <- <-. split; [done|]. split; [done|]. split; [done|]. split; [constructor|]. split; by left. }
  apply Forall_cons in Hknown as [Hko Hkos]. apply mbind_ok in Hrun as (id & w1 & Hid & Hrun).
  apply resource_of_observation in Hid as (Hok1 & (He1 & Hr1 & Hs1) & Hsn1 & Hf1 & (r & Hr & Hre & Hrod & Hrf) & Hnew1); [|done..].
  apply mbind_ok in Hrun as ([] & w2 & Hins & Hrun). unfold insert_snapshot in Hins. apply statement_ok in Hins.
  apply add_snapshot_ok in Hins as (Hnew & Ht2 & Hok2); [|done|done]. cbn [sm_resource_id sm_generation snapshot_row_of] in *.
  apply mbind_ok in Hrun as (rest & w3 & Hrest & Hrun). unfold mret in Hrun. injection Hrun as <- <-.
  apply IH in Hrest as (Hok3 & (He3 & Hr3 & Hs3) & Hf3 & Hall & Hback & Hnew3); [|done|done|].
  2: { rewrite Ht2. cbn. eapply Forall_impl; [exact Hkos|]. intros o' Ho' m Hm. destruct (Ho' m Hm) as (Hm1 & Hrest').
       split; [|done]. by eapply lookup_weaken. }
  rewrite Ht2 in *. cbn [st_endpoints st_resources st_snapshots st_failures with_snapshots] in *.
  split; [done|]. split; [split_and!; [congruence|by etrans| ]|].
  { etrans; [|exact Hs3]. rewrite <- Hsn1. by apply insert_subseteq. }
  split; [congruence|]. split; [|split].
  - constructor; [|done]. split; [done|]. split.
    + eapply lookup_weaken; [|exact Hs3]. apply lookup_insert_eq.
    + exists r. split; [by eapply lookup_weaken|done].
  - intros k m Hm. destruct (Hback _ _ Hm) as [Hm'|(s & Hs & ->)]; [|right; exists s; split; [by right|done]].
    apply lookup_insert_Some in Hm' as [[<- _]|[_ Hm']]; [right; eexists; split; [by left|done]|left; by rewrite <- Hsn1].
  - intros k r' Hr'. destruct (Hnew3 _ _ Hr') as [Hr''|?]; [by apply Hnew1|by right].
Qed.

(** The records of the members that did not decode. *)
Lemma insert_failures_ok e g failures w w' :
  snapshots_ok (w_db w) → mfor failures (insert_decode_failure env e g) w = (w', Ok ()) →
  snapshots_ok (w_db w') ∧ st_endpoints (w_db w') = st_endpoints (w_db w) ∧
  st_resources (w_db w') = st_resources (w_db w) ∧ st_snapshots (w_db w') = st_snapshots (w_db w) ∧
  (∀ k m, st_failures (w_db w') !! k = Some m ↔
    st_failures (w_db w) !! k = Some m ∨
    ∃ f json, f ∈ failures ∧ info_to_string (df_extended_info f) = Some json ∧ m = failure_row e g f json ∧ k = failure_key m) ∧
  NoDup (df_odata_uri <$> failures) ∧
  ∀ f, f ∈ failures → st_failures (w_db w) !! (e, g, df_odata_uri f) = None ∧ is_Some (info_to_string (df_extended_info f)).
Proof.
  revert w. induction failures as [|f failures IH]; intros w Hok Hrun; cbn [mfor] in Hrun.
  { unfold mret in Hrun. injection Hrun as <-. split_and!; try done; [|constructor|by intros f Hf%elem_of_nil]. intros k m. split; [by left|].
    intros [?|(f & json & Hf & _)]; [done|]. by apply elem_of_nil in Hf. }
  apply mbind_ok in Hrun as ([] & w1 & Hf & Hrun). unfold insert_decode_failure in Hf.
  apply mbind_ok in Hf as (json & w0 & Hj & Hf). unfold mlift, serialize_extended_info in Hj. injection Hj as <- Hj.
  apply ok_or_ok in Hj. apply statement_ok in Hf. unfold add_failure in Hf. case_decide as Hc; [|done].
  destruct Hc as (Hnew & _ & _). injection Hf as Hw1. pose proof (f_equal st_endpoints Hw1) as He1.
  pose proof (f_equal st_resources Hw1) as Hr1. pose proof (f_equal st_snapshots Hw1) as Hs1.
  pose proof (f_equal st_failures Hw1) as Hf1. cbn in He1, Hr1, Hs1, Hf1.
  assert (snapshots_ok (w_db w1)) as Hok1.
  { split; rewrite <- ?Hr1, <- ?Hs1, <- ?Hf1; [exact (ok_resources _ Hok)|exact (ok_unique _ Hok)|exact (ok_snapshots _ Hok)|].
    intros k m [[<- <-]|[_ Hm]]%lookup_insert_Some; [done|by eapply ok_failures]. }
  apply IH in Hrun as (Hok2 & He2 & Hr2 & Hs2 & Hf2 & Hnd & Hfree); [|done].
  split; [done|]. split; [congruence|]. split; [congruence|]. split; [congruence|]. split; [|split].
  - intros k m. rewrite Hf2, <- Hf1. split.
    + intros [[[<- <-]|[_ Hm]]%lookup_insert_Some|(f' & j' & Hin & Hrest)]; [right|by left|right].
      * exists f, json. split; [by left|done].
      * exists f', j'. split; [by right|done].
    + intros [Hm|(f' & j' & [->|Hin]%elem_of_cons & Hj' & -> & ->)].
      * left. rewrite lookup_insert_ne; [done|]. intros Heq. rewrite <- Heq in Hm. cbn in Hnew. congruence.
      * left. rewrite Hj in Hj'. injection Hj' as <-. apply lookup_insert_eq.
      * right. by exists f', j'.
  - cbn. constructor; [|done]. intros (f' & Hu & Hin)%list_elem_of_fmap. destruct (Hfree _ Hin) as [Hfree' _]. rewrite <- Hu in Hfree'. clear Hfree. rename Hfree' into Hfree.
    change (e, g, df_odata_uri f) with (failure_key (failure_row e g f json)) in Hfree. by rewrite <- Hf1, lookup_insert_eq in Hfree.
  - intros f' [->|Hin]%elem_of_cons; [by split|]. destruct (Hfree _ Hin) as [Hnone Hjson]. split; [|done].
    rewrite <- Hf1 in Hnone. by apply lookup_insert_None in Hnone as [? _].
Qed.

Lemma following_generation_Ok e latest g :
  following_generation e latest = Ok g →
  1 <= g <= I64_MAX ∧ match latest with None => g = 1 | Some n => g = n + 1 end.
Proof.
  assert (∀ z h, 0 <= z → RefreshGeneration_new z = Ok h → h = z ∧ 1 <= z <= I64_MAX) as Hnew
    by (intros z h Hz Hh; by apply generation_bounds).
  unfold following_generation. destruct latest as [n|].
  - unfold map_generation. destruct (u64_try_from n) as [z|] eqn:Hz; [|done]. apply u64_try_from_Some in Hz as [-> Hz].
    cbn [ok_or result_bind]. destruct (RefreshGeneration_new n) as [z|] eqn:Hz1; [|done]. cbn [map_err result_bind].
    apply Hnew in Hz1 as [-> Hb]; [|done]. destruct (checked_add_u64 n 1) as [z|] eqn:Hz2; [|done].
    apply checked_add_u64_Some in Hz2 as [-> _]. cbn [ok_or result_bind].
    destruct (RefreshGeneration_new (n + 1)) as [z|] eqn:Hz3; [|done]. apply Hnew in Hz3 as [-> Hb3]; [|lia].
    cbn. by intros [= <-].
  - intros Hr. vm_compute in Hr. injection Hr as <-. done.
Qed.

Lemma existing_known e t o : snapshots_ok t →
  (∀ m, existing_resources e t !! ns_odata_id o = Some m → rm_feature m = ResourceFeature_as_str (ns_feature o)) →
  known (existing_resources e t) e t o.
Proof.
  intros Hok Hf m Hm. pose proof (Hf _ Hm) as Hfeat. apply elem_of_list_to_map_2 in Hm.
  apply list_elem_of_fmap in Hm as (m' & Heq & Hm). injection Heq as Hod ->. apply list_elem_of_filter in Hm as [He Hm].
  apply list_elem_of_fmap in Hm as ([id m] & -> & Hm). apply elem_of_map_to_list in Hm. cbn in *.
  destruct (ok_resources _ Hok _ _ Hm) as [-> _]. done.
Qed.

(** A commit that succeeds: the generation after the latest one, stored whole. *)
Record committed e observations failures now t t' g (l0 : list ResourceSnapshot) : Prop := {
  co_endpoint : ∃ em, st_endpoints t !! e = Some em ∧ em_created_at em <= now;
  co_valid : validate_observations e observations = Ok ();
  co_generation : following_generation e (latest_generation e t) = Ok g;
  co_ok : snapshots_ok t';
  co_grows : grows t t';
  co_stored : Forall2 (stored_as e g now t') observations l0;
  co_only k m : st_snapshots t' !! k = Some m → st_snapshots t !! k = Some m ∨ ∃ s, s ∈ l0 ∧ k = (sn_resource_id s, g);
  co_failures k m : st_failures t' !! k = Some m ↔
    st_failures t !! k = Some m ∨
    ∃ f json, f ∈ failures ∧ info_to_string (df_extended_info f) = Some json ∧ m = failure_row e g f json ∧ k = failure_key m;
  co_resources : new_resources e now t t';
  co_uris : NoDup (df_odata_uri <$> failures);
  co_serialized : Forall (λ f, is_Some (info_to_string (df_extended_info f))) failures;
}.

Lemma commit_inv e observations failures now w w' r :
  snapshots_ok (w_db w) →
  commit_resource_generation env fresh e observations failures now w = (w', r) →
  match r with
  | Ok l => ∃ g l0, l = merge_sort odata_le l0 ∧ committed e observations failures now (w_db w) (w_db w') g l0
  | Err _ => w_db w' = w_db w
  end.
Proof.
  intros Hok Hrun. unfold commit_resource_generation in Hrun.
  apply mbind_inv in Hrun as [([] & w0 & Hv & Hrun)|(x & Hv & ->)]; unfold mlift in Hv; injection Hv as -> Hv; [|done].
  apply gated_write in Hrun as [(x & -> & Hdb)|(l & w1 & w2 & -> & Hw1 & Hrun & Hdb)]; [done|]. rewrite Hdb, <- Hw1 in *. clear Hdb.
  apply mbind_ok in Hrun as (found & w3 & Hs & Hrun). apply select_ok in Hs as [Hw3 ->]. rewrite <- Hw3 in *.
  apply mbind_ok in Hrun as (em & w4 & Hs & Hrun). unfold mlift in Hs. injection Hs as <- Hem. apply ok_or_ok in Hem.
  destruct (Z.ltb_spec now (em_created_at em)) as [|Hnow]; [done|].
  apply mbind_ok in Hrun as (g & w5 & Hg & Hrun). unfold next_generation in Hg.
  apply mbind_ok in Hg as (latest & w6 & Hs & Hg). apply select_ok in Hs as [Hw6 ->]. unfold mlift in Hg. injection Hg as <- Hg.
  apply mbind_ok in Hrun as (existing & w7 & Hs & Hrun). apply select_ok in Hs as [Hw7 ->]. rewrite Hw6 in *.
  apply mbind_ok in Hrun as ([] & w8 & Hst & Hrun). unfold mlift in Hst. injection Hst as <- Hst.
  apply mbind_ok in Hrun as (l0 & w9 & Hstore & Hrun). rewrite <- Hw7 in *.
  destruct (following_generation_Ok _ _ _ Hg) as [[_ Hmax] _].
  apply store_observations_ok in Hstore as (Hok9 & (He9 & Hr9 & Hs9) & Hf9 & Hall & Hback & Hnew); [|done|done|].
  2: { apply Forall_forall. intros o Ho. apply existing_known; [done|]. intros m Hm. by eapply validate_stable_Ok. }
  apply mbind_ok in Hrun as ([] & w10 & Hfail & Hrun). unfold mret in Hrun. injection Hrun as <- <-.
  apply insert_failures_ok in Hfail as (Hok10 & He10 & Hr10 & Hs10 & Hf10 & Hnd & Hser); [|done].
  exists g, l0. split; [done|]. split; try done.
  - exists em. done.
  - split; [congruence|]. by rewrite Hr10, Hs10.
  - eapply Forall2_impl; [exact Hall|]. intros o s (? & Hm & Hr). split; [done|]. by rewrite Hs10, Hr10.
  - intros k m. rewrite Hs10. apply Hback.
  - intros k m. by rewrite Hf10, Hf9.
  - intros id r. rewrite Hr10. apply Hnew.
  - apply Forall_forall. intros f Hf. by apply Hser.
Qed.
End commits.

(** ** The view after a commit *)

Lemma generation_rows_ext e g t t' :
  snapshots_ok t → snapshots_ok t' →
  (∀ m r, sm_generation m = g → (m, r) ∈ joined e t ↔ (m, r) ∈ joined e t') →
  generation_rows e g t = generation_rows e g t'.
Proof.
  intros Hok Hok' Hsame.
  assert (∀ x, x ∈ generation_rows e g t ↔ x ∈ generation_rows e g t') as Hin.
  { intros [m r]. rewrite !generation_rows_elem. naive_solver. }
  apply (Sorted_unique_strong row_le); [|by apply Sorted_merge_sort, _..|].
  - intros x y Hx Hy Hxy Hyx. apply Hin in Hy. eapply (generation_rows_inj t Hok); [exact Hx|exact Hy|].
    by apply str_le_antisym.
  - by apply NoDup_Permutation; [apply generation_rows_NoDup..|].
Qed.

Lemma generation_view_sorted e g t : Sorted odata_le (generation_view e g t).
Proof.
  unfold generation_view. assert (Sorted row_le (generation_rows e g t)) as Hs by apply Sorted_merge_sort, _.
  induction Hs as [|row rows Hs IH Hhd]; [constructor|]. cbn. constructor; [done|]. destruct Hhd; by constructor.
Qed.

Lemma generation_view_NoDup e g t : snapshots_ok t → NoDup (sn_odata_id <$> generation_view e g t).
Proof.
  intros Hok. unfold generation_view. rewrite <- list_fmap_compose. apply NoDup_fmap_2_strong; [|by apply generation_rows_NoDup].
  intros x y Hx Hy Heq. by eapply (generation_rows_inj t Hok).
Qed.

Section committed.
Context `{ExtendedInfoJson} {e : EndpointId} {observations : list NewResourceSnapshot}.
Context {failures : list ResourceDecodeFailure} {now : OffsetDateTime} {t t' : SnapshotTables} {g : Z} {l0 : list ResourceSnapshot}.
Context (Hok : snapshots_ok t) (Hc : committed e observations failures now t t' g l0).

Lemma committed_older row : row ∈ joined e t → sm_generation row.1 < g.
Proof.
  intros Hin. pose proof (latest_spec t e) as Hl. pose proof (co_generation _ _ _ _ _ _ _ _ Hc) as Hg.
  apply following_generation_Ok in Hg as [_ Hg]. destruct (latest_generation e t) as [n|].
  - destruct Hl as [_ Hl]. specialize (Hl _ Hin). lia.
  - rewrite Hl in Hin. by apply elem_of_nil in Hin.
Qed.

Lemma joined_kept e' m r : (m, r) ∈ joined e' t → (m, r) ∈ joined e' t'.
Proof.
  destruct (co_grows _ _ _ _ _ _ _ _ Hc) as (_ & Hr & Hs). rewrite (joined_elem t Hok), (joined_elem t' (co_ok _ _ _ _ _ _ _ _ Hc)).
  intros (? & ? & ?). split_and!; [by eapply lookup_weaken..|done].
Qed.

Lemma joined_stored s : s ∈ l0 → ∃ m r, (m, r) ∈ joined e t' ∧ snapshot_of e (m, r) = s ∧ sm_generation m = g.
Proof.
  intros [i Hi]%list_elem_of_lookup. pose proof (co_ok _ _ _ _ _ _ _ _ Hc) as Hok'.
  destruct (Forall2_lookup_r _ _ _ _ _ (co_stored _ _ _ _ _ _ _ _ Hc) Hi) as (o & _ & Hs & Hm & r & Hr & He & Hod & Hf).
  exists (snapshot_row_of (sn_resource_id s) g o now), r. split; [by rewrite (joined_elem t' Hok')|]. split; [|done].
  destruct (ok_resources _ Hok' _ _ Hr) as [Hid _]. rewrite Hs. unfold snapshot_of, to_domain_snapshot, feature_of. cbn.
  by rewrite Hf, feature_parse, Hid, Hod.
Qed.

Lemma joined_back e' m r :
  (m, r) ∈ joined e' t' → (m, r) ∈ joined e' t ∨ e' = e ∧ sm_generation m = g ∧ snapshot_of e (m, r) ∈ l0.
Proof.
  pose proof (co_ok _ _ _ _ _ _ _ _ Hc) as Hok'. destruct (co_grows _ _ _ _ _ _ _ _ Hc) as (_ & Hgr & _).
  rewrite (joined_elem t Hok), (joined_elem t' Hok'). intros (Hm & Hr & He).
  destruct (co_only _ _ _ _ _ _ _ _ Hc _ _ Hm) as [Hm'|(s & Hs & Hkey)].
  - left. destruct (ok_snapshots _ Hok _ _ Hm') as (_ & [r' Hr'] & _).
    pose proof (lookup_weaken _ _ _ _ Hr' Hgr) as Hr''. rewrite Hr in Hr''. injection Hr'' as <-. done.
  - right. injection Hkey as Hid Hg. destruct (joined_stored s Hs) as (m' & r' & Hj & Hsn & Hg').
    apply (joined_elem t' Hok') in Hj as (Hm' & Hr' & He').
    assert (sm_resource_id m' = sn_resource_id s) as Hid'.
    { rewrite <- Hsn. cbn. destruct (ok_resources _ Hok' _ _ Hr') as [-> _]. done. }
    rewrite Hid', Hg' in Hm'. rewrite Hid, Hg in Hm. rewrite Hm in Hm'. injection Hm' as <-.
    rewrite Hr in Hr'. injection Hr' as <-. split; [congruence|]. split; [done|]. by rewrite Hsn.
Qed.

(** The new generation reads as what the commit answered, and is the latest. *)
Lemma committed_generation : generation_view e g t' = merge_sort odata_le l0.
Proof.
  pose proof (co_ok _ _ _ _ _ _ _ _ Hc) as Hok'.
  assert (NoDup (sn_odata_id <$> l0)) as Hnd.
  { pose proof (co_valid _ _ _ _ _ _ _ _ Hc) as [Hnd _]%validate_observations_Ok.
    pose proof (co_stored _ _ _ _ _ _ _ _ Hc) as Hall.
    assert (sn_odata_id <$> l0 = ns_odata_id <$> observations) as ->; [|done].
    clear -Hall. induction Hall as [|o s os l [Hs _] _ IH]; [done|]. cbn. rewrite IH. f_equal. by rewrite Hs. }
  apply odata_sorted_eq; [apply generation_view_sorted|apply Sorted_merge_sort, _|by apply generation_view_NoDup|].
  rewrite merge_sort_Permutation. apply NoDup_Permutation; [by eapply NoDup_fmap_1, generation_view_NoDup|by eapply NoDup_fmap_1|].
  intros s. unfold generation_view. rewrite list_elem_of_fmap. split.
  - intros ([m r] & -> & Hin). apply generation_rows_elem in Hin as [Hg Hj]. apply joined_back in Hj as [Hj|(_ & _ & ?)]; [|done].
    apply committed_older in Hj. cbn in Hj. lia.
  - intros Hs. destruct (joined_stored s Hs) as (m & r & Hj & Hsn & Hg). exists (m, r). split; [done|].
    by apply generation_rows_elem.
Qed.

Lemma committed_latest : latest_generation e t' = Some g.
Proof.
  pose proof (latest_spec t' e) as Hl. pose proof (co_valid _ _ _ _ _ _ _ _ Hc) as [_ Hroot]%validate_observations_Ok.
  assert (∃ s, s ∈ l0) as [s Hs].
  { pose proof (co_stored _ _ _ _ _ _ _ _ Hc) as Hall. destruct Hall as [|o s ? ? _ _]; [done|]. exists s. by left. }
  destruct (joined_stored s Hs) as (m & r & Hj & _ & Hg). destruct (latest_generation e t') as [n|].
  - destruct Hl as [([m' r'] & Hj' & Hn) Hmax]. f_equal. specialize (Hmax _ Hj). cbn in Hmax, Hn.
    apply joined_back in Hj' as [Hj'|(_ & ? & _)]; [|lia]. apply committed_older in Hj'. cbn in Hj'. lia.
  - rewrite Hl in Hj. by apply elem_of_nil in Hj.
Qed.

(** Every other generation stays as it was. *)
Lemma committed_elsewhere e' g' : e' ≠ e ∨ g' ≠ g → generation_rows e' g' t' = generation_rows e' g' t.
Proof.
  intros Hother. apply generation_rows_ext; [apply (co_ok _ _ _ _ _ _ _ _ Hc)|done|]. intros m r Hg. split.
  - intros [Hj|(-> & Hg' & _)]%joined_back; [done|]. destruct Hother; [done|congruence].
  - apply joined_kept.
Qed.

Lemma committed_latest_elsewhere e' : e' ≠ e → latest_generation e' t' = latest_generation e' t.
Proof.
  intros Hne. assert (∀ row, row ∈ joined e' t' ↔ row ∈ joined e' t) as Hsame.
  { intros [m r]. split; [|apply joined_kept]. by intros [Hj|(-> & _)]%joined_back. }
  pose proof (latest_spec t e') as Hl. pose proof (latest_spec t' e') as Hl'.
  destruct (latest_generation e' t') as [n|], (latest_generation e' t) as [k|]; try done.
  - destruct Hl as [(r1 & H1 & <-) Hm], Hl' as [(r2 & H2 & <-) Hm']. f_equal. apply Hsame in H2. apply Hm in H2.
    apply Hsame in H1. apply Hm' in H1. lia.
  - destruct Hl' as [(r2 & H2 & _) _]. apply Hsame in H2. rewrite Hl in H2. by apply elem_of_nil in H2.
  - destruct Hl as [(r2 & H2 & _) _]. apply Hsame in H2. rewrite Hl' in H2. by apply elem_of_nil in H2.
Qed.
End committed.

(** ** What a read answers *)

Section reads.
Context `{JsonValue} `{ExtendedInfoJsonLaws}.
Implicit Types (t : SnapshotTables) (o : NewResourceSnapshot) (f : ResourceDecodeFailure).

(** The texts of an observation read back as themselves; for a payload this is the
    bound on its canonical text ([payload_canonical]). *)
Definition texts_ok (odata_id : str) (odata_type etag : option str) : Prop :=
  ResourceODataId_parse odata_id = Ok odata_id ∧
  match odata_type with Some v => ResourceODataType_parse v = Ok v | None => True end ∧
  match etag with Some v => ResourceEtag_parse v = Ok v | None => True end.
Definition observation_ok o : Prop :=
  texts_ok (ns_odata_id o) (ns_odata_type o) (ns_etag o) ∧ ResourceSnapshotPayload_parse (ns_payload o) = Ok (ns_payload o).
Definition failure_ok f : Prop :=
  ResourceODataId_parse (df_odata_uri f) = Ok (df_odata_uri f) ∧
  match df_odata_type f with Some v => ResourceODataType_parse v = Ok v | None => True end ∧
  ResourceDecodeFailure_try_new (df_odata_uri f) (df_odata_type f) (df_feature f) (df_oem_namespace f)
    (df_error_summary f) (df_extended_info f) = Ok f.

(** A row that reads back. *)
Definition row_legible (created_at : OffsetDateTime) (row : snapshot_model * resource_model) : Prop :=
  created_at <= rm_created_at row.2 <= sm_observed_at row.1 ∧
  texts_ok (rm_odata_id row.2) (sm_odata_type row.1) (sm_etag row.1) ∧
  ResourceSnapshotPayload_parse (sm_typed_payload_json row.1) = Ok (sm_typed_payload_json row.1).

Lemma transpose_self {E F} (f : E → F) (parse : str → result str E) (v : option str) :
  match v with Some v => parse v = Ok v | None => True end →
  transpose (λ x, map_err f (parse x)) v = Ok v.
Proof. destruct v as [v|]; cbn; [|done]. by intros ->. Qed.

Lemma map_err_twice {A E F G} (f : F → G) (h : E → F) (r : result A E) : map_err f (map_err h r) = map_err (λ e, f (h e)) r.
Proof. by destruct r. Qed.

Lemma map_legible e t created_at g row :
  snapshots_ok t → row ∈ generation_rows e g t → row_legible created_at row →
  map_stored_snapshot e created_at g row = Ok (snapshot_of e row).
Proof.
  destruct row as [m r]. intros Hok Hin ([Hc1 Hc2] & (Hid & Hty & Hetag) & Hp).
  apply (generation_rows_elem t) in Hin as [Hg Hj]. apply (joined_elem t Hok) in Hj as (_ & Hr & _).
  destruct (ok_resources _ Hok _ _ Hr) as [_ [f Hf]]. cbn [fst snd] in *. unfold map_stored_snapshot.
  destruct (Z.ltb_spec (rm_created_at r) created_at) as [|_]; [lia|].
  destruct (Z.ltb_spec (sm_observed_at m) (rm_created_at r)) as [|_]; [lia|].
  unfold corrupt. rewrite Hf, feature_parse. cbn [map_err result_bind]. rewrite Hid. cbn [map_err result_bind].
  rewrite Hp. cbn [map_err result_bind].
  assert (transpose (λ value, map_err (SnapshotCorrupt e) (map_err StoredInvalidODataType (ResourceODataType_parse value)))
    (sm_odata_type m) = Ok (sm_odata_type m)) as ->.
  { destruct (sm_odata_type m); cbn; [by rewrite Hty|done]. }
  cbn [result_bind].
  assert (transpose (λ value, map_err (SnapshotCorrupt e) (map_err StoredInvalidEtag (ResourceEtag_parse value)))
    (sm_etag m) = Ok (sm_etag m)) as ->.
  { destruct (sm_etag m); cbn; [by rewrite Hetag|done]. }
  cbn [result_bind]. unfold snapshot_of, feature_of. cbn. by rewrite Hf, feature_parse, Hg.
Qed.

(** The rows of a generation decode to its view. *)
Lemma generation_decodes e t created_at g :
  snapshots_ok t → Forall (row_legible created_at) (generation_rows e g t) →
  Forall2 (λ row s, map_stored_snapshot e created_at g row = Ok s) (generation_rows e g t) (generation_view e g t).
Proof.
  intros Hok Hall. unfold generation_view. apply Forall2_fmap_r, Forall_Forall2_diag, Forall_forall. intros row Hin.
  apply (map_legible _ t); [done..|]. by eapply Forall_forall in Hall.
Qed.

Definition uri_le (a b : ResourceDecodeFailure) : Prop := str_le (df_odata_uri a) (df_odata_uri b).
#[export] Instance uri_le_dec : RelDecision uri_le.
Proof. intros a b. unfold uri_le, str_le. apply _. Defined.
#[export] Instance uri_le_total : Total uri_le.
Proof. intros a b. apply str_le_total. Qed.
#[export] Instance uri_le_trans : Transitive uri_le.
Proof. intros a b c. apply str_le_trans. Qed.
#[export] Instance failure_le_total : Total failure_le.
Proof. intros a b. apply str_le_total. Qed.
#[export] Instance failure_le_trans : Transitive failure_le.
Proof. intros a b c. apply str_le_trans. Qed.

(** The records of one generation are those of [failures]. *)
Definition failures_are e g t (failures : list ResourceDecodeFailure) : Prop :=
  ∀ m, (st_failures t !! failure_key m = Some m ∧ fm_endpoint_id m = e ∧ fm_generation m = g) ↔
    ∃ f json, f ∈ failures ∧ info_to_string (df_extended_info f) = Some json ∧ m = failure_row e g f json.

Lemma map_failure e g f json :
  failure_ok f → info_to_string (df_extended_info f) = Some json →
  map_stored_decode_failure e (failure_row e g f json) = Ok f.
Proof.
  intros (Hid & Hty & Hnew) Hj. unfold map_stored_decode_failure, corrupt_decode_failures. cbn.
  rewrite feature_parse. cbn [map_err result_bind]. rewrite Hid. cbn [map_err result_bind].
  rewrite transpose_self by done. cbn [map_err result_bind]. rewrite (info_roundtrip _ _ Hj). cbn [ok_or result_bind].
  by rewrite Hnew.
Qed.

Lemma failure_rows_elem e g t m : snapshots_ok t →
  m ∈ failure_rows e g t ↔ st_failures t !! failure_key m = Some m ∧ fm_endpoint_id m = e ∧ fm_generation m = g.
Proof.
  intros Hok. unfold failure_rows. rewrite merge_sort_Permutation, list_elem_of_filter, list_elem_of_fmap. split.
  - intros [[He Hg] ([k m'] & -> & Hin)]. apply elem_of_map_to_list in Hin. cbn in *.
    by rewrite <- (ok_failures _ Hok _ _ Hin).
  - intros (Hm & He & Hg). split; [done|]. exists (failure_key m, m). split; [done|]. by apply elem_of_map_to_list.
Qed.

(** The records of a generation decode to those that were given with it. *)
Lemma failures_decode e g t failures :
  snapshots_ok t → failures_are e g t failures → Forall failure_ok failures → NoDup (df_odata_uri <$> failures) →
  Forall (λ f, is_Some (info_to_string (df_extended_info f))) failures →
  Forall2 (λ row f, map_stored_decode_failure e row = Ok f) (failure_rows e g t) (merge_sort uri_le failures).
Proof.
  intros Hok Hare Hall Hnd Hser.
  assert (∀ row, row ∈ failure_rows e g t → ∃ f json, f ∈ failures ∧ info_to_string (df_extended_info f) = Some json ∧
    row = failure_row e g f json ∧ map_stored_decode_failure e row = Ok f) as Hrow.
  { intros row Hin. apply failure_rows_elem in Hin; [|done]. apply Hare in Hin as (f & json & Hf & Hj & ->).
    exists f, json. split_and!; try done. apply map_failure; [by eapply Forall_forall in Hall|done]. }
  assert (∃ l, Forall2 (λ row f, map_stored_decode_failure e row = Ok f ∧ fm_odata_uri row = df_odata_uri f ∧ f ∈ failures)
    (failure_rows e g t) l) as [l Hl].
  { clear -Hrow. induction (failure_rows e g t) as [|row rows IH]; [by exists []|].
    destruct (Hrow row) as (f & json & Hf & _ & Heq & Hm); [by left|]. destruct IH as [l Hl]; [intros r Hr; apply Hrow; by right|].
    exists (f :: l). constructor; [|done]. split; [done|]. split; [by rewrite Heq|done]. }
  assert (merge_sort uri_le failures = l) as ->; [|eapply Forall2_impl; [exact Hl|by intros ? ? [? _]]].
  assert (Sorted failure_le (failure_rows e g t)) as Hs by apply Sorted_merge_sort, _.
  assert (df_odata_uri <$> l = fm_odata_uri <$> failure_rows e g t) as Huris.
  { clear -Hl. induction Hl as [|row f rows l (_ & Hu & _) _ IH]; [done|]. cbn. by rewrite IH, Hu. }
  assert (NoDup (df_odata_uri <$> l)) as Hndl.
  { rewrite Huris. apply NoDup_fmap_2_strong.
    - intros x y Hx Hy Heq. apply failure_rows_elem in Hx as (Hx & Hex & Hgx), Hy as (Hy & Hey & Hgy); [|done..].
      assert (failure_key x = failure_key y) as Hk by (unfold failure_key; congruence). rewrite Hk in Hx. congruence.
    - unfold failure_rows. rewrite merge_sort_Permutation. apply NoDup_filter.
      apply NoDup_fmap_2_strong; [|apply NoDup_map_to_list]. intros [k m] [k' m'] Hk Hk'. cbn. intros <-.
      apply elem_of_map_to_list in Hk, Hk'. by rewrite (ok_failures _ Hok _ _ Hk), (ok_failures _ Hok _ _ Hk'). }
  symmetry. apply (Sorted_unique_strong uri_le).
  - intros x y Hx Hy Hxy Hyx. rewrite merge_sort_Permutation in Hy. apply (NoDup_fmap_eq df_odata_uri failures); [done| |done|by apply str_le_antisym].
    apply list_elem_of_lookup in Hx as [i Hi]. by destruct (Forall2_lookup_r _ _ _ _ _ Hl Hi) as (? & _ & _ & _ & ?).
  - clear -Hl Hs. induction Hl as [|row f rows l (_ & Hu & _) Hl IH]; [constructor|]. apply Sorted_inv in Hs as [Hs Hhd].
    constructor; [by apply IH|]. destruct Hl as [|row' f' ? ? (_ & Hu' & _) _]; constructor. apply HdRel_inv in Hhd.
    unfold uri_le. rewrite <- Hu, <- Hu'. done.
  - apply Sorted_merge_sort, _.
  - rewrite merge_sort_Permutation. apply NoDup_Permutation; [by eapply NoDup_fmap_1|by eapply NoDup_fmap_1|]. intros f. split.
    + intros [i Hi]%list_elem_of_lookup. by destruct (Forall2_lookup_r _ _ _ _ _ Hl Hi) as (? & _ & _ & _ & ?).
    + intros Hf. destruct (proj1 (Forall_forall _ _) Hser _ Hf) as [json Hj].
      assert (failure_row e g f json ∈ failure_rows e g t) as Hin by (apply failure_rows_elem; [done|]; apply Hare; eauto).
      apply list_elem_of_lookup in Hin as [i Hi]. destruct (Forall2_lookup_l _ _ _ _ _ Hl Hi) as (f' & Hf' & _ & Hu & Hin').
      assert (f = f') as -> by (by apply (NoDup_fmap_eq df_odata_uri failures)). by eapply list_elem_of_lookup_2.
Qed.
End reads.

(** ** Refreshes over time *)

Record RefreshCall := mk_refresh_call {
  rc_endpoint : EndpointId;
  rc_observations : list NewResourceSnapshot;
  rc_failures : list ResourceDecodeFailure;
  rc_at : OffsetDateTime;
}.

Section traces.
Context `{JsonValue} `{ExtendedInfoJsonLaws}.
Implicit Types (t : SnapshotTables) (w : World SnapshotTables).

Fixpoint run_commits (env : Env) (fresh : nat → nat → Uuid) (i : nat) (calls : list RefreshCall) w
    : World SnapshotTables * list (result (list ResourceSnapshot) ResourceSnapshotRepositoryError) :=
  match calls with
  | [] => (w, [])
  | c :: calls =>
      let '(w1, r) :=
        commit_resource_generation env (fresh i) (rc_endpoint c) (rc_observations c) (rc_failures c) (rc_at c) w in
      let '(w2, rs) := run_commits env fresh (S i) calls w1 in (w2, r :: rs)
  end.

(** The specification: each endpoint's last refresh that succeeded. *)
Abbreviation Current := (gmap EndpointId (list ResourceSnapshot * list ResourceDecodeFailure)).
Definition refreshed (cur : Current) (c : RefreshCall)
    (r : result (list ResourceSnapshot) ResourceSnapshotRepositoryError) : Current :=
  match r with Ok l => <[rc_endpoint c := (l, rc_failures c)]> cur | Err _ => cur end.
Fixpoint replay_commits (cur : Current) (calls : list RefreshCall)
    (rs : list (result (list ResourceSnapshot) ResourceSnapshotRepositoryError)) : Current :=
  match calls, rs with
  | c :: calls, r :: rs => replay_commits (refreshed cur c r) calls rs
  | _, _ => cur
  end.

(** The clock of the refreshes does not step back. *)
Fixpoint clocked (T : OffsetDateTime) (calls : list RefreshCall) : Prop :=
  match calls with [] => True | c :: calls => T <= rc_at c ∧ clocked (rc_at c) calls end.
Definition call_ok (c : RefreshCall) : Prop := Forall observation_ok (rc_observations c) ∧ Forall failure_ok (rc_failures c).

(** What the tables hold of an endpoint's current generation. *)
Record holds t (e : EndpointId) (l : list ResourceSnapshot) (failures : list ResourceDecodeFailure) (g : Z) : Prop := {
  ho_latest : latest_generation e t = Some g;
  ho_view : generation_view e g t = l;
  ho_legible em : st_endpoints t !! e = Some em → Forall (row_legible (em_created_at em)) (generation_rows e g t);
  ho_valid : validate_loaded_generation e l = Ok ();
  ho_generation : Forall (λ s, sn_generation s = g) l;
  ho_failures : failures_are e g t failures;
  ho_failures_ok : Forall failure_ok failures ∧ NoDup (df_odata_uri <$> failures) ∧
    Forall (λ f, is_Some (info_to_string (df_extended_info f))) failures;
}.

Record trace_inv (T : OffsetDateTime) (cur : Current) t : Prop := {
  ti_ok : snapshots_ok t;
  ti_created id r : st_resources t !! id = Some r →
    rm_created_at r <= T ∧ ∃ em, st_endpoints t !! rm_endpoint_id r = Some em ∧ em_created_at em <= rm_created_at r;
  ti_failures k m : st_failures t !! k = Some m →
    ∃ g, latest_generation (fm_endpoint_id m) t = Some g ∧ fm_generation m <= g;
  ti_none e : cur !! e = None → latest_generation e t = None;
  ti_some e l failures : cur !! e = Some (l, failures) → ∃ g, holds t e l failures g;
}.

Section one_commit.
Context {T : OffsetDateTime} {cur : Current} {t t' : SnapshotTables} {e : EndpointId}.
Context {observations : list NewResourceSnapshot} {failures : list ResourceDecodeFailure} {now : OffsetDateTime}.
Context {g : Z} {l0 : list ResourceSnapshot}.
Context (Hi : trace_inv T cur t) (HT : T <= now).
Context (Hobs : Forall observation_ok observations) (Hfok : Forall failure_ok failures).
Context (Hc : committed e observations failures now t t' g l0).

Lemma committed_created id r : st_resources t' !! id = Some r →
  rm_created_at r <= now ∧ ∃ em, st_endpoints t' !! rm_endpoint_id r = Some em ∧ em_created_at em <= rm_created_at r.
Proof.
  destruct (co_grows _ _ _ _ _ _ _ _ Hc) as (-> & _ & _). intros Hr.
  destruct (co_resources _ _ _ _ _ _ _ _ Hc _ _ Hr) as [Hr'|[-> ->]].
  - destruct (ti_created _ _ _ Hi _ _ Hr') as (? & Hem). split; [lia|done].
  - split; [lia|]. apply (co_endpoint _ _ _ _ _ _ _ _ Hc).
Qed.

(** Every stored snapshot is one of the observations. *)
Lemma stored_observation s : s ∈ l0 → ∃ o, o ∈ observations ∧ s = to_domain_snapshot (sn_resource_id s) e g o now.
Proof.
  intros [i Hs]%list_elem_of_lookup. destruct (Forall2_lookup_r _ _ _ _ _ (co_stored _ _ _ _ _ _ _ _ Hc) Hs) as (o & Ho & Heq & _).
  exists o. split; [by eapply list_elem_of_lookup_2|done].
Qed.

Lemma committed_legible em : st_endpoints t' !! e = Some em →
  Forall (row_legible (em_created_at em)) (generation_rows e g t').
Proof.
  intros Hem. apply Forall_forall. intros [m r] Hin. pose proof (ti_ok _ _ _ Hi) as Hok.
  pose proof (co_ok _ _ _ _ _ _ _ _ Hc) as Hok'.
  assert (snapshot_of e (m, r) ∈ l0) as Hs.
  { rewrite <- (merge_sort_Permutation odata_le l0), <- (committed_generation Hok Hc). by apply list_elem_of_fmap_2. }
  destruct (stored_observation _ Hs) as (o & Ho & Heq). unfold snapshot_of, to_domain_snapshot in Heq. cbn in Heq.
  apply (proj1 (Forall_forall _ _) Hobs) in Ho as [Ht Hp]. injection Heq as Hf Hod Hty Het Hpl Hat _.
  apply (generation_rows_elem t') in Hin as [_ Hj]. apply (joined_elem t' Hok') in Hj as (_ & Hr & He).
  destruct (committed_created _ _ Hr) as (Hle & em' & Hem' & Hcr). rewrite He, Hem in Hem'. injection Hem' as <-.
  split; cbn; [lia|]. by rewrite Hod, Hty, Het, Hpl.
Qed.

Lemma committed_validates : validate_loaded_generation e (merge_sort odata_le l0) = Ok ().
Proof.
  pose proof (co_valid _ _ _ _ _ _ _ _ Hc) as [_ Hroot]%validate_observations_Ok.
  assert (length (filter (λ s, sn_feature s = FeatureServiceRoot) (merge_sort odata_le l0)) = 1%nat) as Hlen.
  { rewrite merge_sort_Permutation, <- Hroot. pose proof (co_stored _ _ _ _ _ _ _ _ Hc) as Hall. clear -Hall.
    induction Hall as [|o s os l (Hs & _) _ IH]; [done|]. rewrite !filter_cons.
    assert (sn_feature s = ns_feature o) as -> by by rewrite Hs. case_decide; cbn; by rewrite IH. }
  unfold validate_loaded_generation. remember (merge_sort odata_le l0) as l eqn:Hl. destruct l as [|first rest]; [done|].
  assert (∀ s, s ∈ first :: rest → sn_observed_at s = now) as Hat.
  { intros s Hs. rewrite Hl, merge_sort_Permutation in Hs. by destruct (stored_observation _ Hs) as (o & _ & ->). }
  assert (existsb (λ s, negb (sn_observed_at s =? sn_observed_at first)) (first :: rest) = false) as ->.
  { apply existsb_false, Forall_forall. intros s Hs. rewrite (Hat s Hs), (Hat first) by by left. by rewrite Z.eqb_refl. }
  by rewrite decide_False by (rewrite Hlen; auto).
Qed.

Lemma committed_failures : failures_are e g t' failures.
Proof.
  intros m. rewrite (co_failures _ _ _ _ _ _ _ _ Hc). split.
  - intros ([Hm|(f & json & Hf & Hj & -> & _)] & He & Hg); [|by exists f, json]. exfalso.
    destruct (ti_failures _ _ _ Hi _ _ Hm) as (n & Hn & Hle). rewrite He in Hn.
    pose proof (co_generation _ _ _ _ _ _ _ _ Hc) as Hgen. rewrite Hn in Hgen. apply following_generation_Ok in Hgen as [_ Hgen]. lia.
  - intros (f & json & Hf & Hj & ->). split; [right; by exists f, json|done].
Qed.

Lemma committed_holds : holds t' e (merge_sort odata_le l0) failures g.
Proof.
  pose proof (ti_ok _ _ _ Hi) as Hok. split.
  - exact (committed_latest Hok Hc).
  - exact (committed_generation Hok Hc).
  - exact committed_legible.
  - exact committed_validates.
  - apply Forall_forall. intros s Hs. rewrite merge_sort_Permutation in Hs. by destruct (stored_observation _ Hs) as (o & _ & ->).
  - exact committed_failures.
  - split; [done|]. split; [apply (co_uris _ _ _ _ _ _ _ _ Hc)|apply (co_serialized _ _ _ _ _ _ _ _ Hc)].
Qed.

(** Another endpoint's generation stays. *)
Lemma holds_elsewhere e' l fs g' : e' ≠ e → holds t e' l fs g' → holds t' e' l fs g'.
Proof.
  intros Hne []. pose proof (ti_ok _ _ _ Hi) as Hok. pose proof (committed_elsewhere Hok Hc e' g' (or_introl Hne)) as Hrows.
  split; try done.
  - by rewrite (committed_latest_elsewhere Hok Hc).
  - unfold generation_view. by rewrite Hrows.
  - intros em. destruct (co_grows _ _ _ _ _ _ _ _ Hc) as (-> & _ & _). rewrite Hrows. auto.
  - intros m. rewrite (co_failures _ _ _ _ _ _ _ _ Hc), <- (ho_failures0 m). split.
    + intros ([Hm|(f & json & _ & _ & -> & _)] & He & Hg); done.
    + intros (Hm & He & Hg). split; [by left|done].
Qed.

Lemma trace_inv_step : trace_inv now (<[e := (merge_sort odata_le l0, failures)]> cur) t'.
Proof.
  pose proof (ti_ok _ _ _ Hi) as Hok. split.
  - exact (co_ok _ _ _ _ _ _ _ _ Hc).
  - exact committed_created.
  - intros k m Hm. apply (co_failures _ _ _ _ _ _ _ _ Hc) in Hm as [Hm|(f & json & _ & _ & -> & _)].
    + destruct (ti_failures _ _ _ Hi _ _ Hm) as (n & Hn & Hle). destruct (decide (fm_endpoint_id m = e)) as [He|Hne].
      * exists g. rewrite He in *. split; [exact (committed_latest Hok Hc)|].
        pose proof (co_generation _ _ _ _ _ _ _ _ Hc) as Hgen. rewrite Hn in Hgen. apply following_generation_Ok in Hgen as [_ Hgen]. lia.
      * exists n. by rewrite (committed_latest_elsewhere Hok Hc).
    + exists g. split; [exact (committed_latest Hok Hc)|done].
  - intros e' [Hcur Hne]%lookup_insert_None. rewrite (committed_latest_elsewhere Hok Hc) by done. by apply (ti_none _ _ _ Hi).
  - intros e' l fs [[<- Heq]|[Hne Hcur]]%lookup_insert_Some.
    + injection Heq as <- <-. exists g. exact committed_holds.
    + destruct (ti_some _ _ _ Hi _ _ _ Hcur) as [g' Hh]. exists g'. by apply holds_elsewhere.
Qed.
End one_commit.

Lemma trace_inv_later T T' cur t : trace_inv T cur t → T <= T' → trace_inv T' cur t.
Proof. intros [] HT. split; try done. intros id r Hr. destruct (ti_created0 _ _ Hr) as (? & ?). split; [lia|done]. Qed.

Lemma trace_inv_run env fresh T cur i calls w w' rs :
  trace_inv T cur (w_db w) → clocked T calls → Forall call_ok calls → run_commits env fresh i calls w = (w', rs) →
  st_endpoints (w_db w') = st_endpoints (w_db w) ∧ ∃ T', trace_inv T' (replay_commits cur calls rs) (w_db w').
Proof.
  revert T cur i w rs. induction calls as [|c calls IH]; intros T cur i w rs Hi Hclock Hall Hrun; cbn [run_commits] in Hrun.
  { injection Hrun as <- <-. split; [done|]. by exists T. }
  destruct Hclock as [HT Hclock]. apply Forall_cons in Hall as [[Hobs Hf] Hall].
  destruct (commit_resource_generation env (fresh i) _ _ _ _ w) as [w1 r] eqn:Hcommit.
  destruct (run_commits env fresh (S i) calls w1) as [w2 rs2] eqn:Hrest. injection Hrun as <- <-. cbn [replay_commits].
  apply commit_inv in Hcommit; [|apply (ti_ok _ _ _ Hi)].
  assert (st_endpoints (w_db w1) = st_endpoints (w_db w) ∧ trace_inv (rc_at c) (refreshed cur c r) (w_db w1)) as [He1 Hi1].
  { destruct r as [l|x]; cbn [refreshed].
    - destruct Hcommit as (g & l0 & -> & Hc). split; [apply (co_grows _ _ _ _ _ _ _ _ Hc)|].
      by apply (trace_inv_step Hi HT Hobs Hf Hc).
    - rewrite Hcommit. split; [done|]. by apply (trace_inv_later T). }
  destruct (IH _ _ _ _ _ Hi1 Hclock Hall Hrest) as (He2 & Hfinal). by rewrite He2.
Qed.

(** What a read answers on tables [t]: under any failures nothing else, and without
    failures that. *)
Definition reads_back {A} (read : Env → M (World SnapshotTables) ResourceSnapshotRepositoryError A) t (a : A) : Prop :=
  (∀ env w w' x, w_db w = t → read env w = (w', Ok x) → x = a) ∧
  ∀ env w, env_healthy env → w_db w = t → ∃ w', read env w = (w', Ok a) ∧ w_db w' = t.

Lemma mapped_rows {A B} (f : A → result B ResourceSnapshotRepositoryError) rows l w w' x :
  Forall2 (λ row y, f row = Ok y) rows l → mtraverse (λ row, mlift (f row)) rows w = (w', Ok x) → x = l ∧ w' = w.
Proof.
  intros Hall Hrun. apply mtraverse_mlift in Hrun as [-> Hx]. specialize (Hx _ eq_refl). split; [|done].
  clear -Hall Hx. revert x Hx. induction Hall as [|row y rows l Hy _ IH]; intros x Hx; inversion Hx; [done|].
  subst. f_equal; [congruence|by apply IH].
Qed.

Lemma returns_rows (env : Env) {A B} (f : A → result B ResourceSnapshotRepositoryError) rows l t :
  Forall2 (λ row y, f row = Ok y) rows l → returns (mtraverse (λ row, mlift (f row)) rows) t t l.
Proof.
  induction 1 as [|row y rows l Hy _ IH]; cbn [mtraverse]; [apply returns_ret|].
  eapply returns_bind; [by apply returns_lift|]. eapply returns_bind; [exact IH|apply returns_ret].
Qed.

Lemma returns_reads {A} (read : Env → M (World SnapshotTables) ResourceSnapshotRepositoryError A) t a :
  (∀ env, env_healthy env → returns (read env) t t a) →
  ∀ env w, env_healthy env → w_db w = t → ∃ w', read env w = (w', Ok a) ∧ w_db w' = t.
Proof.
  intros Hr env w Henv Hw. destruct (Hr env Henv (w_clock w)) as [c Hc]. exists (mk_world t c). destruct w as [db k]. cbn in *. by subst.
Qed.

Lemma map_generation_id e g : 1 <= g <= I64_MAX → map_generation e g = Ok g.
Proof.
  intros Hg. unfold map_generation. assert (u64_try_from g = Some g) as -> by (apply u64_try_from_Some; split; [done|lia]).
  cbn [ok_or result_bind]. assert (RefreshGeneration_new g = Ok g) as -> by (apply generation_bounds; [lia|split; [done|lia]]). done.
Qed.

Lemma latest_bounds t e g : snapshots_ok t → latest_generation e t = Some g → 1 <= g <= I64_MAX.
Proof.
  intros Hok Hl. pose proof (latest_spec t e) as Hs. rewrite Hl in Hs. destruct Hs as [([m r] & Hj & <-) _].
  apply (joined_elem t Hok) in Hj as (Hm & _). by destruct (ok_snapshots _ Hok _ _ Hm) as (_ & _ & ?).
Qed.

(** The read of an endpoint without a generation. *)
Lemma find_current_empty e em t :
  st_endpoints t !! e = Some em → latest_generation e t = None →
  reads_back (λ env : Env, find_current_resource_generation env e) t (Some []).
Proof.
  intros He Hl. split.
  - intros env w w' x <- Hrun. apply transaction_ok in Hrun as (w1 & w2 & Hw1 & Hrun & _). rewrite <- Hw1 in *.
    apply mbind_ok in Hrun as (found & w3 & Hs & Hrun). apply select_ok in Hs as [Hw3 ->]. rewrite He in Hrun.
    apply mbind_ok in Hrun as (latest & w4 & Hs & Hrun). apply select_ok in Hs as [_ ->]. rewrite Hw3, Hl in Hrun.
    unfold mret in Hrun. by injection Hrun as _ <-.
  - apply returns_reads. intros env Henv. apply returns_transaction; [done|].
    eapply returns_bind; [by apply returns_select|]. cbn beta. rewrite He.
    eapply returns_bind; [by apply returns_select|]. cbn beta. rewrite Hl. apply returns_ret.
Qed.

(** The reads of an endpoint's current generation. *)
Lemma find_current_holds e em t l failures g :
  snapshots_ok t → st_endpoints t !! e = Some em → holds t e l failures g →
  reads_back (λ env : Env, find_current_resource_generation env e) t (Some l).
Proof.
  intros Hok He Hh. pose proof (ho_latest _ _ _ _ _ Hh) as Hl.
  pose proof (map_generation_id e g (latest_bounds t e g Hok Hl)) as Hg.
  pose proof (generation_decodes e t _ g Hok (ho_legible _ _ _ _ _ Hh em He)) as Hall. rewrite (ho_view _ _ _ _ _ Hh) in Hall.
  pose proof (ho_valid _ _ _ _ _ Hh) as Hv. split.
  - intros env w w' x <- Hrun. apply transaction_ok in Hrun as (w1 & w2 & Hw1 & Hrun & _). rewrite <- Hw1 in *.
    apply mbind_ok in Hrun as (found & w3 & Hs & Hrun). apply select_ok in Hs as [Hw3 ->]. rewrite He in Hrun.
    apply mbind_ok in Hrun as (latest & w4 & Hs & Hrun). apply select_ok in Hs as [Hw4 ->]. rewrite Hw3, Hl in Hrun.
    rewrite Hg in Hrun. apply mbind_ok in Hrun as (n & w5 & Hs & Hrun). unfold mlift in Hs. injection Hs as <- <-.
    apply mbind_ok in Hrun as (rows & w6 & Hs & Hrun). apply select_ok in Hs as [Hw6 ->]. rewrite Hw4, Hw3 in Hrun.
    apply mbind_ok in Hrun as (snapshots & w7 & Hs & Hrun). apply (mapped_rows _ _ _ _ _ _ Hall) in Hs as [-> ->].
    apply mbind_ok in Hrun as ([] & w8 & _ & Hrun). unfold mret in Hrun. by injection Hrun as _ <-.
  - apply returns_reads. intros env Henv. apply returns_transaction; [done|].
    eapply returns_bind; [by apply returns_select|]. cbn beta. rewrite He.
    eapply returns_bind; [by apply returns_select|]. cbn beta. rewrite Hl.
    eapply returns_bind; [by apply returns_lift|]. eapply returns_bind; [by apply returns_select|]. cbn beta.
    eapply returns_bind; [by apply returns_rows|]. eapply returns_bind; [by apply returns_lift|]. apply returns_ret.
Qed.

Lemma find_failures_holds e t l failures g :
  snapshots_ok t → holds t e l failures g →
  reads_back (λ env : Env, find_current_decode_failures env e g) t (merge_sort uri_le failures).
Proof.
  intros Hok Hh. destruct (ho_failures_ok _ _ _ _ _ Hh) as (Hfok & Hnd & Hser).
  pose proof (failures_decode e g t failures Hok (ho_failures _ _ _ _ _ Hh) Hfok Hnd Hser) as Hall. split.
  - intros env w w' x <- Hrun. apply transaction_ok in Hrun as (w1 & w2 & Hw1 & Hrun & _). rewrite <- Hw1 in *.
    apply mbind_ok in Hrun as (rows & w3 & Hs & Hrun). apply select_ok in Hs as [_ ->].
    by apply (mapped_rows _ _ _ _ _ _ Hall) in Hrun as [-> _].
  - apply returns_reads. intros env Henv. apply returns_transaction; [done|].
    eapply returns_bind; [by apply returns_select|]. cbn beta. by apply returns_rows.
Qed.

(** C15: Refreshes of any endpoints in any order, any of which may fail at any statement or
    at the commit, leave for every endpoint what its last successful refresh answered:
    a later read returns exactly those snapshots and the records of the members that
    did not decode with them, never a mixture and never anything of a refresh that
    failed; an endpoint that was never refreshed has no resources.  The clock of the
    refreshes must not step back, and the observations must be texts that read back. *)
Theorem last_refresh_is_read env fresh T calls w w' rs e em :
  st_resources (w_db w) = ∅ → st_snapshots (w_db w) = ∅ → st_failures (w_db w) = ∅ →
  st_endpoints (w_db w) !! e = Some em →
  clocked T calls → Forall call_ok calls → run_commits env fresh 0 calls w = (w', rs) →
  match replay_commits ∅ calls rs !! e with
  | None => reads_back (λ env : Env, find_current_resource_generation env e) (w_db w') (Some [])
  | Some (l, failures) =>
      reads_back (λ env : Env, find_current_resource_generation env e) (w_db w') (Some l) ∧
      ∃ g, Forall (λ s, sn_generation s = g) l ∧
        reads_back (λ env : Env, find_current_decode_failures env e g) (w_db w') (merge_sort uri_le failures)
  end.
Proof.
  intros Hr Hs Hf He Hclock Hall Hrun.
  assert (∀ e, joined e (w_db w) = []) as Hj by (intros e'; unfold joined; by rewrite Hs).
  assert (trace_inv T ∅ (w_db w)) as Hi.
  { split; [split|..]; try (rewrite ?Hr, ?Hs, ?Hf; intros; by simplify_map_eq).
    intros e' _. unfold latest_generation. by rewrite Hj. }
  destruct (trace_inv_run env fresh T ∅ 0 calls w w' rs Hi Hclock Hall Hrun) as (Hends & T' & Hi').
  rewrite <- Hends in He. destruct (replay_commits ∅ calls rs !! e) as [[l failures]|] eqn:Hcur.
  - destruct (ti_some _ _ _ Hi' _ _ _ Hcur) as [g Hh]. pose proof (ti_ok _ _ _ Hi') as Hok.
    split; [by eapply find_current_holds|]. exists g. split; [apply (ho_generation _ _ _ _ _ Hh)|by eapply find_failures_holds].
  - eapply find_current_empty; [done|]. by apply (ti_none _ _ _ Hi').
Qed.
End traces.

(** ** Concrete refreshes *)

Module Demo.
(** Objects are the texts; a list of entries is written when it is empty. *)
#[local] Instance text_json : JsonValue :=
  {| Value := str; value_from_str s := Some s; is_object _ := true; value_to_string v := Some v |}.
#[local] Instance empty_info : ExtendedInfoJson :=
  {| info_to_string l := match l with [] => Some (lit "[]") | _ => None end; info_from_str _ := Some [] |}.
#[local, refine] Instance empty_info_laws : ExtendedInfoJsonLaws := _.
Proof. intros [|? ?] text Ht; [by injection Ht as <-|done]. Defined.

Definition quiet : Env := {| env_fault _ := false; env_gate_closed := false; env_random _ := None |}.
(** Call 14 of the world fails. *)
Definition faulty : Env := {| env_fault n := Nat.eqb n 14; env_gate_closed := false; env_random _ := None |}.
Definition node : endpoint_model := mk_endpoint_model 1%N (lit "node") 0 0 None 0 (lit "unknown").
Definition start : World SnapshotTables := mk_world (mk_snapshot_tables {[1%N := node]} ∅ ∅ ∅) 0.
Definition ids (i j : nat) : Uuid := N.of_nat (100 * S i + j).

Definition root_at (payload : string) : NewResourceSnapshot :=
  mk_new_snapshot FeatureServiceRoot (lit "/redfish/v1") (Some (lit "#ServiceRoot")) None (lit payload).
Definition system : NewResourceSnapshot :=
  mk_new_snapshot FeatureSystems (lit "/redfish/v1/Systems/1") None (Some (lit "W/1")) (lit "{}").
Definition odd_member : ResourceDecodeFailure :=
  mk_decode_failure (lit "/redfish/v1/Chassis/9") None FeatureChassis None (lit "missing field") [].
(** Three refreshes; under [faulty] the second one fails. *)
Definition refreshes : list RefreshCall :=
  [mk_refresh_call 1%N [system; root_at "{}"] [odd_member] 10;
   mk_refresh_call 1%N [root_at "{2}"] [] 20;
   mk_refresh_call 1%N [root_at "{3}"; system] [odd_member] 30].

Lemma refreshes_ok : Forall call_ok refreshes.
Proof.
  assert (observation_ok system ∧ ∀ p, p ∈ ["{}"; "{2}"; "{3}"]%string → observation_ok (root_at p)) as [Hsys Hroot].
  { split; [by repeat split|]. intros p Hp. repeat (apply elem_of_cons in Hp as [->|Hp]; [by repeat split|]). by apply elem_of_nil in Hp. }
  assert (failure_ok odd_member) as Hf by (by repeat split).
  unfold refreshes. repeat constructor; cbn [rc_observations rc_failures]; try done; try (apply Hroot; set_solver).
Qed.

Lemma last_refresh_is_read_witness :
  let run := run_commits faulty ids 0 refreshes start in
  is_ok <$> run.2 = [true; false; true] ∧
  ∃ l, reads_back (λ env : Env, find_current_resource_generation env 1%N) (w_db run.1) (Some l) ∧
    (λ s, (sn_generation s, sn_odata_id s, sn_payload s)) <$> l =
      [(2, lit "/redfish/v1", lit "{3}"); (2, lit "/redfish/v1/Systems/1", lit "{}")].
Proof.
  intros run. split; [vm_compute; reflexivity|].
  pose proof (last_refresh_is_read faulty ids 0 refreshes start run.1 run.2 1%N node eq_refl eq_refl eq_refl eq_refl
    ltac:(cbn; lia) refreshes_ok (surjective_pairing run)) as Hread.
  destruct (replay_commits ∅ refreshes run.2 !! 1%N) as [[l failures]|] eqn:Hcur; [|vm_compute in Hcur; discriminate].
  destruct Hread as [Hread _]. exists l. split; [exact Hread|].
  vm_compute in Hcur. injection Hcur as <- <-. reflexivity.
Defined.

(** A refresh whose clock stepped back behind the creation of a known resource is
    committed, and from then on the endpoint's current generation cannot be read. *)
Example stepped_clock_hides_generation :
  let run := run_commits quiet ids 0
    [mk_refresh_call 1%N [root_at "{}"] [] 10; mk_refresh_call 1%N [root_at "{}"] [] 5] start in
  is_ok <$> run.2 = [true; true] ∧
  (find_current_resource_generation quiet 1%N run.1).2 = Err (SnapshotCorrupt 1%N (SnapshotPredatesResource 100%N)).
Proof. split; vm_compute; reflexivity. Qed.
End Demo.
