(* ===== verification/Enrollment.v ===== *)
(** * Enrollment: how an endpoint becomes managed, and how it is refreshed

    Models [application/src/endpoint_trust.rs], [endpoint_onboarding.rs],
    [endpoint_refresh.rs] and [endpoint_enrollment.rs]: trust before credentials,
    discovery, the persisted aggregate, the first generation, each inside its audit
    lifecycle.  The log records what reached the outside, in order. *)
From S2P Require Import Prelude Text Operation Capability Artifact AuditLog RedfishCommand RemoteTask Executor.
From S2P Require Import CenterDomain ResourceSnapshot Endpoints EndpointInventory Database ProjectionRepository SnapshotRepository.
Local Open Scope Z_scope.

(** ** Trust *)

Inductive SystemCaEvaluation := CaVerified | CaRejected.
Record TlsIdentityObservation := mk_tls_observation {
  to_certificate : TlsCertificate;
  to_system_ca : SystemCaEvaluation;
}.
Inductive EndpointTrustExpectation := SystemCaOnly | ExplicitPin (expected : CertificateFingerprint).

Record TrustedEndpoint := mk_trusted_endpoint { te_address : str; te_trust : TlsTrust }.
Record PendingEndpointTrust := mk_pending_trust {
  pt_address : str;
  pt_certificate : TlsCertificate;
  pt_observed_at : OffsetDateTime;
}.
Inductive EndpointTrustChallenge :=
| SystemCaTrusted (trusted : TrustedEndpoint)
| ExplicitPinRequired (pending : PendingEndpointTrust).

Inductive EndpointTrustTimelineError := EndpointTrustTimelineErr.
(** [PendingEndpointTrust::accept_pin_at]. *)
Definition accept_pin_at (pending : PendingEndpointTrust) (trusted_at : OffsetDateTime)
    : result TrustedEndpoint EndpointTrustTimelineError :=
  if trusted_at <? pt_observed_at pending then Err EndpointTrustTimelineErr
  else Ok (mk_trusted_endpoint (pt_address pending) (PinnedCertificate (pt_certificate pending) trusted_at)).

Inductive EndpointTrustExpectationError :=
| SystemCaRejected (observed : CertificateFingerprint)
| FingerprintMismatch (expected observed : CertificateFingerprint).

Definition verify_expected_pin (expected observed : CertificateFingerprint) : result () EndpointTrustExpectationError :=
  if decide (expected ≠ observed) then Err (FingerprintMismatch expected observed) else Ok ().

Definition pin_system_ca_identity (trusted : TrustedEndpoint) (expected : CertificateFingerprint)
    : result TrustedEndpoint EndpointTrustExpectationError :=
  let certificate := TlsTrust_certificate (te_trust trusted) in
  let? _ := verify_expected_pin expected (tc_fingerprint certificate) in
  Ok (mk_trusted_endpoint (te_address trusted) (PinnedCertificate certificate (TlsTrust_established_at (te_trust trusted)))).

Definition pin_pending_identity (pending : PendingEndpointTrust) (expected : CertificateFingerprint)
    : result TrustedEndpoint EndpointTrustExpectationError :=
  let? _ := verify_expected_pin expected (tc_fingerprint (pt_certificate pending)) in
  Ok (mk_trusted_endpoint (pt_address pending) (PinnedCertificate (pt_certificate pending) (pt_observed_at pending))).

Definition complete_with_expectation (challenge : EndpointTrustChallenge) (expectation : EndpointTrustExpectation)
    : result TrustedEndpoint EndpointTrustExpectationError :=
  match challenge, expectation with
  | SystemCaTrusted trusted, SystemCaOnly => Ok trusted
  | ExplicitPinRequired pending, SystemCaOnly => Err (SystemCaRejected (tc_fingerprint (pt_certificate pending)))
  | SystemCaTrusted trusted, ExplicitPin expected => pin_system_ca_identity trusted expected
  | ExplicitPinRequired pending, ExplicitPin expected => pin_pending_identity pending expected
  end.

(** ** The boundaries *)

Record ResourceObservation := mk_resource_observation {
  ro_feature : ResourceFeature;
  ro_odata_id : str;
  ro_odata_type : option str;
  ro_etag : option str;
  ro_payload : str;
}.
Record CoreResourceReadOutcome := mk_read_outcome {
  cr_observations : list ResourceObservation;
  cr_decode_failures : list ResourceDecodeFailure;
}.
Record ResolvedCredential := mk_resolved_credential { rc_username : str; rc_password : str }.

(** The repository the use cases write to: [DiscoveredEndpointRepository],
    [EndpointRefreshRepository] and [CapabilitySnapshotRepository]. *)
Class EndpointStore (St DE RE KE : Type) := {
  create_discovered_endpoint : Endpoint → list StoredCapability → M St DE Endpoint;
  find_managed_endpoint : EndpointId → M St RE (option Endpoint);
  commit_generation : EndpointId → list ResourceObservation → list ResourceDecodeFailure → OffsetDateTime →
    M St RE (list ResourceSnapshot);
  replace_capabilities : EndpointId → list StoredCapability → OffsetDateTime → M St KE ();
}.

(** What the types of an endpoint's address and name say: texts of a URL and of a
    parsed name. *)
Definition endpoint_valid `{UrlText} (e : Endpoint) : Prop :=
  (∃ url, EndpointAddress_parse (ep_address e) = Ok url ∧ ep_address e = url_to_string url) ∧
  EndpointDisplayName_parse (ep_display_name e) = Ok (ep_display_name e) ∧ endpoint_timeline e.

(** The contract: an endpoint is created whole under a new identity or not at all,
    never changes afterwards, and is found as it was created. *)
Class EndpointStoreLaws (St DE RE KE : Type) `{UrlText} `{EndpointStore St DE RE KE} := {
  store_ok : St → Prop;
  enrolled : St → gmap EndpointId Endpoint;
  law_create e capabilities st st' r :
    store_ok st → create_discovered_endpoint e capabilities st = (st', r) →
    store_ok st' ∧
    match r with
    | Ok created => created = e ∧ enrolled st !! ep_id e = None ∧ enrolled st' = <[ep_id e := e]> (enrolled st)
    | Err _ => enrolled st' = enrolled st
    end;
  law_find id st st' r :
    store_ok st → find_managed_endpoint id st = (st', r) →
    store_ok st' ∧ enrolled st' = enrolled st ∧
    match r with
    | Ok None => enrolled st !! id = None
    | Ok (Some found) => ∃ e, enrolled st !! id = Some e ∧ (endpoint_valid e → found = e)
    | Err _ => True
    end;
  law_commit id observations failures now st st' r :
    store_ok st → commit_generation id observations failures now st = (st', r) →
    store_ok st' ∧ enrolled st' = enrolled st;
  law_replace id capabilities now st st' r :
    store_ok st → replace_capabilities id capabilities now st = (st', r) →
    store_ok st' ∧ enrolled st' = enrolled st;
}.

Inductive OnboardEndpointError (CE GE DE : Type) :=
| OnboardCredentialNotFound (credential_id : Uuid)
| OnboardCredential (source : CE)
| OnboardDiscovery (source : GE)
| OnboardInvalidTimeline (source : EndpointTimelineError)
| OnboardRepository (source : DE).
Arguments OnboardCredentialNotFound {CE GE DE}.
Arguments OnboardCredential {CE GE DE}.
Arguments OnboardDiscovery {CE GE DE}.
Arguments OnboardInvalidTimeline {CE GE DE}.
Arguments OnboardRepository {CE GE DE}.

Inductive OnboardingAuditStage := OnboardStart | OnboardEndpointCreated | OnboardCompletion.
Inductive AuditedOnboardEndpointError (CE GE DE AE : Type) :=
| OnboardAudit (stage : OnboardingAuditStage) (endpoint_id : option EndpointId) (source : AuditRecordError AE)
| OnboardFailed (source : OnboardEndpointError CE GE DE)
| OnboardingAndAudit (onboarding : OnboardEndpointError CE GE DE) (audit : AuditRecordError AE).
Arguments OnboardAudit {CE GE DE AE}.
Arguments OnboardFailed {CE GE DE AE}.
Arguments OnboardingAndAudit {CE GE DE AE}.

Definition persisted_endpoint_id {CE GE DE AE} (e : AuditedOnboardEndpointError CE GE DE AE) : option EndpointId :=
  match e with
  | OnboardAudit _ endpoint_id _ => endpoint_id
  | OnboardFailed _ | OnboardingAndAudit _ _ => None
  end.

Inductive EndpointRefreshError (RE KE CE RdE GE : Type) :=
| LoadEndpoint (source : RE)
| RefreshEndpointNotFound (endpoint_id : EndpointId)
| RefreshCredential (source : CE)
| RefreshCredentialNotFound (credential_id : Uuid)
| RefreshRead (source : RdE)
| RefreshCommit (source : RE)
| CapabilityProbe (source : GE)
| CapabilityCommit (source : KE).
Arguments LoadEndpoint {RE KE CE RdE GE}.
Arguments RefreshEndpointNotFound {RE KE CE RdE GE}.
Arguments RefreshCredential {RE KE CE RdE GE}.
Arguments RefreshCredentialNotFound {RE KE CE RdE GE}.
Arguments RefreshRead {RE KE CE RdE GE}.
Arguments RefreshCommit {RE KE CE RdE GE}.
Arguments CapabilityProbe {RE KE CE RdE GE}.
Arguments CapabilityCommit {RE KE CE RdE GE}.

Inductive RefreshAuditStage := RefreshStart | RefreshCompletion.
Inductive AuditedEndpointRefreshError (RE KE CE RdE GE AE : Type) :=
| RefreshAudit (stage : RefreshAuditStage) (endpoint_id : EndpointId) (resources_committed : bool)
    (source : AuditRecordError AE)
| RefreshFailed (endpoint_id : EndpointId) (source : EndpointRefreshError RE KE CE RdE GE)
| RefreshAndAudit (endpoint_id : EndpointId) (refresh : EndpointRefreshError RE KE CE RdE GE)
    (audit : AuditRecordError AE).
Arguments RefreshAudit {RE KE CE RdE GE AE}.
Arguments RefreshFailed {RE KE CE RdE GE AE}.
Arguments RefreshAndAudit {RE KE CE RdE GE AE}.

Definition resources_committed {RE KE CE RdE GE AE} (e : AuditedEndpointRefreshError RE KE CE RdE GE AE) : bool :=
  match e with RefreshAudit _ _ committed _ => committed | _ => false end.

Inductive EndpointReadGateError := RegistryUnavailable | GateClosed.
Inductive EndpointEnrollmentError (CE GE DE RE KE RdE AE : Type) :=
| EnrollOnboarding (source : AuditedOnboardEndpointError CE GE DE AE)
| OnboardingAuditAfterCreation (endpoint_id : EndpointId) (source : AuditedOnboardEndpointError CE GE DE AE)
| InitialRefreshCoordination (endpoint_id : EndpointId) (source : EndpointReadGateError)
| InitialRefresh (endpoint_id : EndpointId) (source : AuditedEndpointRefreshError RE KE CE RdE GE AE)
| InitialRefreshAuditAfterCommit (endpoint_id : EndpointId) (source : AuditedEndpointRefreshError RE KE CE RdE GE AE).
Arguments EnrollOnboarding {CE GE DE RE KE RdE AE}.
Arguments OnboardingAuditAfterCreation {CE GE DE RE KE RdE AE}.
Arguments InitialRefreshCoordination {CE GE DE RE KE RdE AE}.
Arguments InitialRefresh {CE GE DE RE KE RdE AE}.
Arguments InitialRefreshAuditAfterCommit {CE GE DE RE KE RdE AE}.

Record OnboardEndpointRequest := mk_onboard_request {
  or_display_name : str;
  or_target : TrustedEndpoint;
  or_credential_id : Uuid;
}.
Record OnboardedEndpoint := mk_onboarded { oe_endpoint : Endpoint; oe_capabilities : list StoredCapability }.
Record EnrolledEndpoint := mk_enrolled { en_onboarded : OnboardedEndpoint; en_snapshots : list ResourceSnapshot }.

(** ** The runtime *)

Section enrollment.
Context {St PE CE GE DE RE KE RdE AE : Type} `{EndpointStore St DE RE KE}.

(** What is outside, by the number of the call that asks: the clock, new
    identities, the TLS probe, the credentials, the gateway, the failures of the audit
    log, whether the process-wide read gate can be had, and what other requests did to
    the store before the call. *)
Record NodeWorld := mk_node_world {
  nw_now : nat → OffsetDateTime;
  nw_uuid : nat → Uuid;
  nw_observe : nat → str → result TlsIdentityObservation PE;
  nw_resolve : nat → Uuid → result (option ResolvedCredential) CE;
  nw_probe : nat → str → TlsTrust → ResolvedCredential → result (list StoredCapability) GE;
  nw_read : nat → str → TlsTrust → ResolvedCredential → result CoreResourceReadOutcome RdE;
  nw_audit_fault : nat → option AE;
  nw_gate : nat → EndpointId → option EndpointReadGateError;
  nw_others : nat → St → St;
}.

(** What reached the outside, in order; the last two carry a credential. *)
Inductive NodeEffect :=
| NodeAudited (event : AuditEvent)
| NodeObserved (address : str) (answer : result TlsIdentityObservation PE)
| NodeProbed (address : str) (trust : TlsTrust) (credential : ResolvedCredential)
| NodeRead (address : str) (trust : TlsTrust) (credential : ResolvedCredential).

Record Node := mk_node { nd_store : St; nd_log : list NodeEffect; nd_calls : nat }.
Implicit Types (s : Node).

Context (w : NodeWorld).

Definition node_call {A F} (f : nat → result A F) : M Node F A :=
  λ s, (mk_node (nd_store s) (nd_log s) (S (nd_calls s)), f (nd_calls s)).
Definition node_reach {A F} (effect : nat → NodeEffect) (f : nat → result A F) : M Node F A :=
  λ s, (mk_node (nd_store s) (nd_log s ++ [effect (nd_calls s)]) (S (nd_calls s)), f (nd_calls s)).
Definition node_store {A F G} (err : F → G) (m : M St F A) : M Node G A :=
  zoom (λ s, nw_others w (nd_calls s) (nd_store s)) (λ s st, mk_node st (nd_log s) (S (nd_calls s))) err m.

Definition now {F} : M Node F OffsetDateTime := node_call (λ n, Ok (nw_now w n)).
Definition new_id {F} : M Node F Uuid := node_call (λ n, Ok (nw_uuid w n)).
Definition resolve {F} (err : CE → F) (credential_id : Uuid) : M Node F (option ResolvedCredential) :=
  node_call (λ n, map_err err (nw_resolve w n credential_id)).
Definition observe {F} (err : PE → F) (address : str) : M Node F TlsIdentityObservation :=
  node_reach (λ n, NodeObserved address (nw_observe w n address)) (λ n, map_err err (nw_observe w n address)).
Definition probe_core_capabilities {F} (err : GE → F) (address : str) (trust : TlsTrust) (credential : ResolvedCredential)
    : M Node F (list StoredCapability) :=
  node_reach (λ _, NodeProbed address trust credential) (λ n, map_err err (nw_probe w n address trust credential)).
Definition read_core_resources {F} (err : RdE → F) (address : str) (trust : TlsTrust) (credential : ResolvedCredential)
    : M Node F CoreResourceReadOutcome :=
  node_reach (λ _, NodeRead address trust credential) (λ n, map_err err (nw_read w n address trust credential)).
(** An event that was refused was not written. *)
Definition append_audit {F} (err : AE → F) (event : AuditEvent) : M Node F () :=
  λ s, match nw_audit_fault w (nd_calls s) with
       | None => (mk_node (nd_store s) (nd_log s ++ [NodeAudited event]) (S (nd_calls s)), Ok ())
       | Some e => (mk_node (nd_store s) (nd_log s) (S (nd_calls s)), Err (err e))
       end.

(** ** Trust *)

(** [EndpointTrustEstablishment::begin]. *)
Definition begin_trust {F} (err : PE → F) (address : str) : M Node F EndpointTrustChallenge :=
  let! observation := observe err address in
  let! observed_at := now in
  mret match to_system_ca observation with
       | CaVerified => SystemCaTrusted (mk_trusted_endpoint address (SystemCa (to_certificate observation) observed_at))
       | CaRejected => ExplicitPinRequired (mk_pending_trust address (to_certificate observation) observed_at)
       end.

(** [EndpointTrustEstablishment::accept_pin]. *)
Definition accept_pin (pending : PendingEndpointTrust) : M Node EndpointTrustTimelineError TrustedEndpoint :=
  let! at_ := now in mlift (accept_pin_at pending at_).

(** ** Onboarding *)

Abbreviation OnErr := (OnboardEndpointError CE GE DE).
(** [EndpointOnboarding::execute]. *)
Definition onboard (request : OnboardEndpointRequest) : M Node OnErr OnboardedEndpoint :=
  let address := te_address (or_target request) in
  let trust := te_trust (or_target request) in
  let credential_id := or_credential_id request in
  let! found := resolve OnboardCredential credential_id in
  let! credential := mlift (ok_or found (OnboardCredentialNotFound credential_id)) in
  let! capabilities := probe_core_capabilities OnboardDiscovery address trust credential in
  let created_at := TlsTrust_established_at trust in
  let! id := new_id in
  let! updated_at := now in
  let! endpoint := mlift (map_err OnboardInvalidTimeline
    (Endpoint_try_new id (or_display_name request) address trust credential_id created_at updated_at)) in
  let! endpoint := node_store OnboardRepository (create_discovered_endpoint endpoint capabilities) in
  mret (mk_onboarded endpoint capabilities).

Definition classify_onboarding_failure (failure : OnErr) : AuditFailure * AuditFailureVerification :=
  match failure with
  | OnboardCredentialNotFound _ | OnboardCredential _ => (FailureCredentialUnavailable, FailureVerificationRejected)
  | OnboardDiscovery _ => (FailureRedfishDiscoveryFailed, FailureVerificationInconclusive)
  | OnboardInvalidTimeline _ | OnboardRepository _ => (FailureEndpointPersistenceFailed, FailureVerificationRejected)
  end.

(** Who asks. *)
Context (actor : AuditActor) (actor_principal_id : option Uuid) (origin : DeploymentPosture).

Definition onboarding_audit_context (operation_id : Uuid) (request : OnboardEndpointRequest)
    : result AuditOperationContext AuditOperationContextError :=
  let trust := match te_trust (or_target request) with
               | SystemCa _ _ => AuditLog.SystemCa
               | PinnedCertificate _ _ => AuditLog.PinnedCertificate
               end in
  try_new_with_actor_principal operation_id actor origin (TargetEndpointAddress (te_address (or_target request)))
    (EndpointEnrollment (or_credential_id request) trust) PermManageEndpoints ActEnrollEndpoint
    RedfishProbeCoreCapabilities actor_principal_id.

Abbreviation AudOnErr := (AuditedOnboardEndpointError CE GE DE AE).

(** [record_onboarding_failure]: it answers with the error to return. *)
Definition record_onboarding_failure (context : AuditOperationContext) (sequence : Z) (started_at : OffsetDateTime)
    (onboarding : OnErr) : M Node AudOnErr OnboardedEndpoint :=
  let '(failure, verification) := classify_onboarding_failure onboarding in
  let! observed := now in
  let! event_id := new_id in
  match AuditEvent_failed event_id context sequence failure verification (at_or_after started_at observed) with
  | Err audit => mfail (OnboardingAndAudit onboarding (RecordEvent audit))
  | Ok failed =>
      do! append_audit (λ audit, OnboardingAndAudit onboarding (RecordWrite audit)) failed in
      mfail (OnboardFailed onboarding)
  end.

Definition record_onboarding_success (context : AuditOperationContext) (progress_sequence completion_sequence : Z)
    (started_at : OffsetDateTime) (endpoint_id : EndpointId) : M Node AudOnErr () :=
  let created := OnboardAudit OnboardEndpointCreated (Some endpoint_id) in
  let completion := OnboardAudit OnboardCompletion (Some endpoint_id) in
  let! observed := now in
  let progress_at := at_or_after started_at observed in
  let! event_id := new_id in
  let! progress := mlift (map_err (λ e, created (RecordEvent e))
    (AuditEvent_progress event_id context progress_sequence ProgressEndpointCreated progress_at)) in
  do! append_audit (λ e, created (RecordWrite e)) progress in
  let! observed := now in
  let! event_id := new_id in
  let! succeeded := mlift (map_err (λ e, completion (RecordEvent e))
    (AuditEvent_succeeded event_id context completion_sequence (at_or_after progress_at observed))) in
  append_audit (λ e, completion (RecordWrite e)) succeeded.

(** [AuditedEndpointOnboarding::execute]. *)
Definition audited_onboard (request : OnboardEndpointRequest) : M Node AudOnErr OnboardedEndpoint :=
  let start := OnboardAudit OnboardStart None in
  let! operation_id := new_id in
  let! context := mlift (map_err (λ e, start (RecordContext e)) (onboarding_audit_context operation_id request)) in
  let! second := mlift (map_err (λ e, start (RecordSequence e)) (AuditSequence_next SEQUENCE_FIRST)) in
  let! third := mlift (map_err (λ e, start (RecordSequence e)) (AuditSequence_next second)) in
  let! started_at := now in
  let! event_id := new_id in
  do! append_audit (λ e, start (RecordWrite e)) (AuditEvent_started event_id context started_at) in
  let! outcome := outcome_of (onboard request) in
  match outcome with
  | Err source => record_onboarding_failure context second started_at source
  | Ok onboarded =>
      do! record_onboarding_success context second third started_at (ep_id (oe_endpoint onboarded)) in
      mret onboarded
  end.

(** ** Refresh *)

Abbreviation RefErr := (EndpointRefreshError RE KE CE RdE GE).
(** [EndpointRefresh::execute]. *)
Definition refresh (endpoint_id : EndpointId) : M Node RefErr (list ResourceSnapshot) :=
  let! found := node_store LoadEndpoint (find_managed_endpoint endpoint_id) in
  let! endpoint := mlift (ok_or found (RefreshEndpointNotFound endpoint_id)) in
  let credential_id := ep_credential_id endpoint in
  let! found := resolve RefreshCredential credential_id in
  let! credential := mlift (ok_or found (RefreshCredentialNotFound credential_id)) in
  let! outcome := read_core_resources RefreshRead (ep_address endpoint) (ep_trust endpoint) credential in
  let! observed_at := now in
  let! snapshots := node_store RefreshCommit
    (commit_generation endpoint_id (cr_observations outcome) (cr_decode_failures outcome) observed_at) in
  let! capabilities := probe_core_capabilities CapabilityProbe (ep_address endpoint) (ep_trust endpoint) credential in
  let! observed_at := now in
  do! node_store CapabilityCommit (replace_capabilities endpoint_id capabilities observed_at) in
  mret snapshots.

Definition classify_refresh_failure (failure : RefErr) : AuditFailure * AuditFailureVerification :=
  match failure with
  | LoadEndpoint _ | RefreshEndpointNotFound _ => (FailureEndpointPersistenceFailed, FailureVerificationRejected)
  | RefreshCredential _ | RefreshCredentialNotFound _ => (FailureCredentialUnavailable, FailureVerificationRejected)
  | RefreshRead _ => (FailureCoreResourceReadFailed, FailureVerificationInconclusive)
  | RefreshCommit _ | CapabilityCommit _ => (FailureSnapshotPersistenceFailed, FailureVerificationInconclusive)
  | CapabilityProbe _ => (FailureRedfishDiscoveryFailed, FailureVerificationInconclusive)
  end.

Definition refresh_audit_context (operation_id : Uuid) (endpoint_id : EndpointId)
    : result AuditOperationContext AuditOperationContextError :=
  try_new_with_actor_principal operation_id actor origin (TargetEndpoint endpoint_id) EndpointRefresh
    PermRefreshEndpoints ActRefreshEndpoint RedfishReadCoreResources actor_principal_id.

Abbreviation AudRefErr := (AuditedEndpointRefreshError RE KE CE RdE GE AE).

Definition record_refresh_failure (context : AuditOperationContext) (sequence : Z) (started_at : OffsetDateTime)
    (endpoint_id : EndpointId) (failed_refresh : RefErr) : M Node AudRefErr (list ResourceSnapshot) :=
  let '(failure, verification) := classify_refresh_failure failed_refresh in
  let! observed := now in
  let! event_id := new_id in
  match AuditEvent_failed event_id context sequence failure verification (at_or_after started_at observed) with
  | Err audit => mfail (RefreshAndAudit endpoint_id failed_refresh (RecordEvent audit))
  | Ok failed =>
      do! append_audit (λ audit, RefreshAndAudit endpoint_id failed_refresh (RecordWrite audit)) failed in
      mfail (RefreshFailed endpoint_id failed_refresh)
  end.

Definition record_refresh_success (context : AuditOperationContext) (sequence : Z) (started_at : OffsetDateTime)
    (endpoint_id : EndpointId) : M Node AudRefErr () :=
  let completion := RefreshAudit RefreshCompletion endpoint_id true in
  let! observed := now in
  let! event_id := new_id in
  let! succeeded := mlift (map_err (λ e, completion (RecordEvent e))
    (AuditEvent_succeeded event_id context sequence (at_or_after started_at observed))) in
  append_audit (λ e, completion (RecordWrite e)) succeeded.

(** [AuditedEndpointRefresh::execute]. *)
Definition audited_refresh (endpoint_id : EndpointId) : M Node AudRefErr (list ResourceSnapshot) :=
  let start := RefreshAudit RefreshStart endpoint_id false in
  let! operation_id := new_id in
  let! context := mlift (map_err (λ e, start (RecordContext e)) (refresh_audit_context operation_id endpoint_id)) in
  let! terminal_sequence := mlift (map_err (λ e, start (RecordSequence e)) (AuditSequence_next SEQUENCE_FIRST)) in
  let! started_at := now in
  let! event_id := new_id in
  do! append_audit (λ e, start (RecordWrite e)) (AuditEvent_started event_id context started_at) in
  let! outcome := outcome_of (refresh endpoint_id) in
  match outcome with
  | Err source => record_refresh_failure context terminal_sequence started_at endpoint_id source
  | Ok snapshots =>
      do! record_refresh_success context terminal_sequence started_at endpoint_id in
      mret snapshots
  end.

(** ** Enrollment *)

Abbreviation EnErr := (EndpointEnrollmentError CE GE DE RE KE RdE AE).
(** [EndpointEnrollment::execute]. *)
Definition enroll (request : OnboardEndpointRequest) : M Node EnErr EnrolledEndpoint :=
  let! onboarded := mmap_err (λ source,
      match persisted_endpoint_id source with
      | Some endpoint_id => OnboardingAuditAfterCreation endpoint_id source
      | None => EnrollOnboarding source
      end) (audited_onboard request) in
  let endpoint_id := ep_id (oe_endpoint onboarded) in
  do! node_call (λ n, match nw_gate w n endpoint_id with
                      | Some source => Err (InitialRefreshCoordination endpoint_id source)
                      | None => Ok ()
                      end) in
  let! snapshots := mmap_err (λ source,
      if resources_committed source then InitialRefreshAuditAfterCommit endpoint_id source
      else InitialRefresh endpoint_id source) (audited_refresh endpoint_id) in
  mret (mk_enrolled onboarded snapshots).
End enrollment.
