(* ===== verification/EndpointCsv.v ===== *)
(** * EndpointCsv: the import of endpoints from a CSV document

    Models [application/src/endpoint_csv.rs], the strict document, and
    [application/src/endpoint_csv_import.rs], the execution of its rows one after
    the other, each with its own result, inside one audit lifecycle; the enroller is
    [EndpointEnrollment], as [app/src/onboarding_runtime.rs] composes it.  The CSV reader and URLs
    are parameters; an address is its URL text, a credential id its parsed UUID. *)
From S2P Require Import Prelude Text Operation Capability AuditLog Executor CenterDomain LinkMessages Endpoints Enrollment.
Local Open Scope Z_scope.

(** ** The document *)

Definition ENDPOINT_CSV_HEADERS : list str :=
  [lit "display_name"; lit "address"; lit "credential_id"; lit "tls_sha256"].
Definition ENDPOINT_CSV_MAX_BYTES : nat := 1024 * 1024.
Definition ENDPOINT_CSV_MAX_ROWS : nat := 10000.

(** The [csv] reader over the bytes of a document: the header, and the records after
    it, trimmed and all of the header's length. *)
Class CsvReader := {
  CsvError : Type;
  csv_headers : list N → result (list str) CsvError;
  csv_records : list N → list (result (list str) CsvError);
}.

Inductive EndpointCsvRequiredField := FieldDisplayName | FieldAddress | FieldCredentialId.

Record EndpointCsvRow := mk_csv_row {
  cr_record_number : nat;
  cr_display_name : str;
  cr_address : str;
  cr_credential_id : Uuid;
  cr_trust : EndpointTrustExpectation;
}.

(** [row_count] is a [u32]. *)
Record EndpointCsvImport := mk_csv_import { ci_row_count : Z; ci_rows : list EndpointCsvRow }.

Inductive EndpointCsvImportError `{CsvReader} :=
| CsvInputTooLarge (actual maximum : nat)
| MalformedHeader (source : CsvError)
| UnexpectedHeaders
| MalformedRecord (record : nat) (source : option CsvError)
| MissingRequiredField (record : nat) (field : EndpointCsvRequiredField)
| InvalidDisplayName (record : nat) (source : BoundedNameError)
| InvalidAddress (record : nat) (source : EndpointAddressError)
| InvalidCredentialId (record : nat)
| InvalidCertificateFingerprint (record : nat) (source : CertificateFingerprintParseError)
| DuplicateAddress (record : nat)
| NoDataRows
| TooManyRows (maximum : nat).

Section parser.
Context `{CsvReader} `{UrlText} `{UuidText}.
Abbreviation Parsed A := (result A EndpointCsvImportError).

Definition has_expected_headers (headers : list str) : bool := bool_decide (headers = ENDPOINT_CSV_HEADERS).

Definition required_field (record : list str) (index record_number : nat) (field : EndpointCsvRequiredField)
    : Parsed str :=
  match record !! index with
  | Some value => if decide (value ≠ []) then Ok value else Err (MissingRequiredField record_number field)
  | None => Err (MalformedRecord record_number None)
  end.

Definition parse_record (record : list str) (record_number : nat) : Parsed EndpointCsvRow :=
  let? display_name := required_field record 0 record_number FieldDisplayName in
  let? display_name := map_err (InvalidDisplayName record_number) (EndpointDisplayName_parse display_name) in
  let? address := required_field record 1 record_number FieldAddress in
  let? address := map_err (InvalidAddress record_number) (EndpointAddress_parse address) in
  let? credential_id := required_field record 2 record_number FieldCredentialId in
  let? credential_id := ok_or (parse_uuid credential_id) (InvalidCredentialId record_number) in
  let? fingerprint := ok_or (record !! 3%nat) (MalformedRecord record_number None) in
  let? trust :=
    if decide (fingerprint = []) then Ok SystemCaOnly
    else
      let? expected := map_err (InvalidCertificateFingerprint record_number) (fingerprint_from_str fingerprint) in
      Ok (ExplicitPin expected) in
  Ok (mk_csv_row record_number display_name (url_to_string address) credential_id trust).

(** The loop over the records; [rows] and [addresses] are what it collected. *)
Fixpoint parse_records (rows : list EndpointCsvRow) (addresses : list str)
    (records : list (result (list str) CsvError)) : Parsed (list EndpointCsvRow) :=
  match records with
  | [] => Ok rows
  | record :: records =>
      let record_number := (length rows + 2)%nat in
      if decide (length rows = ENDPOINT_CSV_MAX_ROWS) then Err (TooManyRows ENDPOINT_CSV_MAX_ROWS)
      else
        let? record := map_err (λ source, MalformedRecord record_number (Some source)) record in
        let? row := parse_record record record_number in
        if decide (cr_address row ∈ addresses) then Err (DuplicateAddress record_number)
        else parse_records (rows ++ [row]) (cr_address row :: addresses) records
  end.

Definition parse_endpoint_csv (input : list N) : Parsed EndpointCsvImport :=
  if decide (ENDPOINT_CSV_MAX_BYTES < length input)%nat
  then Err (CsvInputTooLarge (length input) ENDPOINT_CSV_MAX_BYTES)
  else
    let? headers := map_err MalformedHeader (csv_headers input) in
    if negb (has_expected_headers headers) then Err UnexpectedHeaders
    else
      let? rows := parse_records [] [] (csv_records input) in
      if decide (rows = []) then Err NoDataRows
      else
        let? row_count := ok_or (u32_try_from (Z.of_nat (length rows))) (TooManyRows ENDPOINT_CSV_MAX_ROWS) in
        Ok (mk_csv_import row_count rows).

(** What a parsed record is. *)
Definition row_valid (row : EndpointCsvRow) : Prop :=
  EndpointDisplayName_parse (cr_display_name row) = Ok (cr_display_name row) ∧
  ∃ url, EndpointAddress_parse (cr_address row) = Ok url ∧ cr_address row = url_to_string url.
End parser.

(** ** The import *)

Inductive EndpointCsvRowOutcome (PE EE : Type) :=
| Enrolled (endpoint_id : EndpointId)
| TlsProbeFailed (source : PE)
| TrustRejected (source : EndpointTrustExpectationError)
| EnrollmentFailed (source : EE).
Arguments Enrolled {PE EE}.
Arguments TlsProbeFailed {PE EE}.
Arguments TrustRejected {PE EE}.
Arguments EnrollmentFailed {PE EE}.

Definition is_success {PE EE} (outcome : EndpointCsvRowOutcome PE EE) : bool :=
  match outcome with Enrolled _ => true | TlsProbeFailed _ | TrustRejected _ | EnrollmentFailed _ => false end.

Record EndpointCsvRowResult (PE EE : Type) := mk_row_result {
  rr_record_number : nat;
  rr_address : str;
  rr_outcome : EndpointCsvRowOutcome PE EE;
}.
Arguments mk_row_result {PE EE}.
Arguments rr_record_number {PE EE}.
Arguments rr_address {PE EE}.
Arguments rr_outcome {PE EE}.

Record EndpointCsvImportReport (PE EE : Type) := mk_import_report {
  ir_total_rows : nat;
  ir_rows : list (EndpointCsvRowResult PE EE);
}.
Arguments mk_import_report {PE EE}.
Arguments ir_total_rows {PE EE}.
Arguments ir_rows {PE EE}.

Definition attempted_count {PE EE} (report : EndpointCsvImportReport PE EE) : nat := length (ir_rows report).
Definition succeeded_count {PE EE} (report : EndpointCsvImportReport PE EE) : nat :=
  length (filter (λ r, is_success (rr_outcome r) = true) (ir_rows report)).
Definition failed_count {PE EE} (report : EndpointCsvImportReport PE EE) : nat :=
  (attempted_count report - succeeded_count report)%nat.
Definition push {PE EE} (report : EndpointCsvImportReport PE EE) (r : EndpointCsvRowResult PE EE)
    : EndpointCsvImportReport PE EE :=
  mk_import_report (ir_total_rows report) (ir_rows report ++ [r]).

Inductive EndpointCsvImportAuditStage := ImportStart | RowValidated (record : nat) | ImportCompletion.
Record EndpointCsvImportExecutionError (AE PE EE : Type) := mk_execution_error {
  xe_stage : EndpointCsvImportAuditStage;
  xe_report : EndpointCsvImportReport PE EE;
  xe_source : AuditRecordError AE;
}.
Arguments mk_execution_error {AE PE EE}.
Arguments xe_stage {AE PE EE}.
Arguments xe_report {AE PE EE}.
Arguments xe_source {AE PE EE}.

Record CsvImportAuditState := mk_import_audit {
  ia_context : AuditOperationContext;
  ia_sequence : Z;
  ia_previous_at : OffsetDateTime;
}.

Section import.
Context {St PE CE GE DE RE KE RdE AE : Type} `{EndpointStore St DE RE KE}.
Context (w : NodeWorld (St := St) (PE := PE) (CE := CE) (GE := GE) (RdE := RdE) (AE := AE)).
Context (actor : AuditActor) (actor_principal_id : option Uuid) (origin : DeploymentPosture).
Abbreviation EnErr := (EndpointEnrollmentError CE GE DE RE KE RdE AE).
Abbreviation Report := (EndpointCsvImportReport PE EnErr).
Abbreviation XErr := (EndpointCsvImportExecutionError AE PE EnErr).
Abbreviation Run := (M (Node (St := St) (PE := PE)) XErr).

(** [EndpointEnroller::enroll] for [EndpointEnrollment]. *)
Definition enroll_endpoint (request : OnboardEndpointRequest) : M (Node (St := St) (PE := PE)) EnErr EndpointId :=
  let! enrolled := enroll w actor actor_principal_id origin request in
  mret (ep_id (oe_endpoint (en_onboarded enrolled))).

Definition start_audit (row_count : Z) (report : Report) : Run CsvImportAuditState :=
  let failed source := mk_execution_error ImportStart report source in
  let! parameters := mlift (map_err (λ e, failed (RecordParameters e)) (csv_endpoint_import row_count)) in
  let! operation_id := new_id w in
  let! context := mlift (map_err (λ e, failed (RecordContext e))
    (try_new_with_actor_principal operation_id actor origin TargetProduct parameters PermManageEndpoints
       ActImportEndpoints RedfishNone actor_principal_id)) in
  let! started_at := now w in
  let! event_id := new_id w in
  do! append_audit w (λ e, failed (RecordWrite e)) (AuditEvent_started event_id context started_at) in
  mret (mk_import_audit context SEQUENCE_FIRST started_at).

Definition record_row_validated (audit : CsvImportAuditState) (record_number : nat) (report : Report)
    : Run CsvImportAuditState :=
  let failed source := mk_execution_error (RowValidated record_number) report source in
  let! sequence := mlift (map_err (λ e, failed (RecordSequence e)) (AuditSequence_next (ia_sequence audit))) in
  let! observed := now w in
  let progress_at := at_or_after (ia_previous_at audit) observed in
  let! event_id := new_id w in
  let! progress := mlift (map_err (λ e, failed (RecordEvent e))
    (AuditEvent_progress event_id (ia_context audit) sequence ProgressRowValidated progress_at)) in
  do! append_audit w (λ e, failed (RecordWrite e)) progress in
  mret (mk_import_audit (ia_context audit) sequence progress_at).

Definition execute_row (row : EndpointCsvRow) : Run (EndpointCsvRowResult PE EnErr) :=
  let! began := outcome_of (begin_trust w (λ e, e) (cr_address row)) in
  let! outcome :=
    match began with
    | Err source => mret (TlsProbeFailed source)
    | Ok challenge =>
        match complete_with_expectation challenge (cr_trust row) with
        | Err source => mret (TrustRejected source)
        | Ok target =>
            let! enrolled :=
              outcome_of (enroll_endpoint (mk_onboard_request (cr_display_name row) target (cr_credential_id row))) in
            mret match enrolled with
                 | Ok endpoint_id => Enrolled endpoint_id
                 | Err source => EnrollmentFailed source
                 end
        end
    end in
  mret (mk_row_result (cr_record_number row) (cr_address row) outcome).

Fixpoint execute_rows (audit : CsvImportAuditState) (report : Report) (rows : list EndpointCsvRow)
    : Run (CsvImportAuditState * Report) :=
  match rows with
  | [] => mret (audit, report)
  | row :: rows =>
      let! audit := record_row_validated audit (cr_record_number row) report in
      let! r := execute_row row in
      execute_rows audit (push report r) rows
  end.

Definition complete_audit (audit : CsvImportAuditState) (report : Report) : Run Report :=
  let failed source := mk_execution_error ImportCompletion report source in
  let! sequence := mlift (map_err (λ e, failed (RecordSequence e)) (AuditSequence_next (ia_sequence audit))) in
  let! observed := now w in
  let completed_at := at_or_after (ia_previous_at audit) observed in
  let! event_id := new_id w in
  let! terminal := mlift (map_err (λ e, failed (RecordEvent e))
    (if decide (failed_count report = 0%nat)
     then AuditEvent_succeeded event_id (ia_context audit) sequence completed_at
     else AuditEvent_failed event_id (ia_context audit) sequence FailureEndpointImportRowFailed
            FailureVerificationRejected completed_at)) in
  do! append_audit w (λ e, failed (RecordWrite e)) terminal in
  mret report.

(** [EndpointCsvImportExecutor::execute]. *)
Definition import_endpoints (import : EndpointCsvImport) : Run Report :=
  let report := mk_import_report (length (ci_rows import)) [] in
  let! audit := start_audit (ci_row_count import) report in
  let! finished := execute_rows audit report (ci_rows import) in
  complete_audit finished.1 finished.2.
End import.
