(* ===== verification/EndpointRepository.v ===== *)
(** * EndpointRepository: the managed endpoints in SQLite

    Models [persistence/src/endpoint_repository.rs] and
    [endpoint_capability_repository.rs] over the endpoint, address, trust, binding,
    credential and capability tables, with the keys and unique indexes of
    [migration/src]; the foreign keys of an insertion are met because the endpoint is
    inserted, or read, and the credential read in the same transaction.  With
    [SnapshotRepository] they answer the use cases of [Enrollment] as in
    [application_adapter.rs]. *)
From S2P Require Import Prelude Text Operation Capability CenterDomain Artifact Endpoints ResourceSnapshot EndpointInventory Database.
From S2P Require Import CenterStores ProjectionRepository SnapshotRepository Enrollment.
Local Open Scope Z_scope.

(** [endpoint_credential::Model], [credential::Model], [endpoint_capability::Model]. *)
Record endpoint_credential_model := mk_endpoint_credential_model {
  ec_endpoint_id : Uuid;
  ec_credential_id : Uuid;
  ec_assigned_at : OffsetDateTime;
}.
Record credential_model := mk_credential_model {
  cd_id : Uuid;
  cd_name : str;
  cd_username : str;
  cd_active_version_id : option Uuid;
  cd_created_at : OffsetDateTime;
  cd_updated_at : OffsetDateTime;
}.
Record capability_model := mk_capability_model {
  kp_endpoint_id : Uuid;
  kp_capability : str;
  kp_state : str;
  kp_observed_at : OffsetDateTime;
}.

(** The first part holds the endpoints' own rows. *)
Record EndpointTables := mk_endpoint_tables {
  et_snapshots : SnapshotTables;
  et_addresses : gmap Uuid address_model;
  et_trust : gmap Uuid trust_model;
  et_bindings : gmap Uuid endpoint_credential_model;
  et_credentials : gmap Uuid credential_model;
  et_capabilities : gmap (Uuid * str) capability_model;
}.
Abbreviation et_endpoints t := (st_endpoints (et_snapshots t)).

(** ** Errors *)

Inductive StoredEndpointError :=
| StoredDisplayName (source : BoundedNameError)
| StoredAddress (source : EndpointAddressError)
| ActiveAddressMissing
| MultipleActiveAddresses
| ActiveAddressRetired
| AddressOutsideTimeline
| TrustMissing
| CertificateFingerprintMissing
| CertificateDerMissing
| InvalidFingerprintLength (actual expected : nat)
| InvalidTlsCertificate (source : TlsCertificateError)
| CredentialBindingMissing
| CredentialBindingOutsideTimeline
| BoundCredentialMissing (credential_id : Uuid)
| BoundCredentialInactive (credential_id : Uuid)
| StoredTimeline (source : EndpointTimelineError).

Inductive EndpointRepositoryError :=
| EndpointCoordinate
| EndpointAlreadyExists
| EmptyCapabilitySnapshot
| RepeatedCapability (capability : EndpointCapability)
| EndpointCredentialNotFound (credential_id : Uuid)
| EndpointCredentialInactive (credential_id : Uuid)
| EndpointCorrupt (endpoint_id : EndpointId) (source : StoredEndpointError)
| EndpointDatabase.
#[export] Instance endpoint_errors : DbErrors EndpointRepositoryError :=
  { err_coordinate := EndpointCoordinate; err_database := EndpointDatabase }.

Inductive InvalidCapabilitySnapshot := SnapshotIsEmpty | SnapshotRepeats (capability : EndpointCapability).

Inductive StoredEndpointCapabilityError :=
| UnknownCapability (source : EndpointCapabilityParseError)
| UnknownState (source : CapabilityStateParseError)
| StoredObservationPredatesEndpoint (capability : EndpointCapability).

Inductive EndpointCapabilityRepositoryError :=
| CapabilityCoordinate
| EmptySnapshot (endpoint_id : EndpointId)
| DuplicateCapability (endpoint_id : EndpointId) (capability : EndpointCapability)
| CapabilityEndpointNotFound (endpoint_id : EndpointId)
| CapabilityPredatesEndpoint (endpoint_id : EndpointId)
| CapabilityCorrupt (endpoint_id : EndpointId) (source : StoredEndpointCapabilityError)
| CapabilityDatabase.
#[export] Instance capability_errors : DbErrors EndpointCapabilityRepositoryError :=
  { err_coordinate := CapabilityCoordinate; err_database := CapabilityDatabase }.

Inductive EndpointRefreshPersistenceError :=
| RefreshEndpointError (source : EndpointRepositoryError)
| RefreshSnapshotError (source : ResourceSnapshotRepositoryError).

Record StoredEndpointCapability := mk_stored_capability {
  sc_observation : StoredCapability;
  sc_observed_at : OffsetDateTime;
}.

(** ** Values *)

(** The loop of [validate_snapshot]. *)
Fixpoint first_repeated (seen : list EndpointCapability) (observations : list StoredCapability)
    : result () InvalidCapabilitySnapshot :=
  match observations with
  | [] => Ok ()
  | (capability, _) :: observations =>
      if decide (capability ∈ seen) then Err (SnapshotRepeats capability)
      else first_repeated (capability :: seen) observations
  end.
Definition validate_snapshot (observations : list StoredCapability) : result () InvalidCapabilitySnapshot :=
  if decide (observations = []) then Err SnapshotIsEmpty else first_repeated [] observations.

Definition map_capability_snapshot_error (source : InvalidCapabilitySnapshot) : EndpointRepositoryError :=
  match source with
  | SnapshotIsEmpty => EmptyCapabilitySnapshot
  | SnapshotRepeats capability => RepeatedCapability capability
  end.
Definition map_snapshot_error (endpoint_id : EndpointId) (source : InvalidCapabilitySnapshot)
    : EndpointCapabilityRepositoryError :=
  match source with
  | SnapshotIsEmpty => EmptySnapshot endpoint_id
  | SnapshotRepeats capability => DuplicateCapability endpoint_id capability
  end.

(** [corrupt] of the endpoints. *)
Definition corrupt_endpoint {A} (endpoint_id : EndpointId) (r : result A StoredEndpointError)
    : result A EndpointRepositoryError := map_err (EndpointCorrupt endpoint_id) r.
(** [corrupt] of their capabilities. *)
Definition corrupt_capability {A} (endpoint_id : EndpointId) (r : result A StoredEndpointCapabilityError)
    : result A EndpointCapabilityRepositoryError := map_err (CapabilityCorrupt endpoint_id) r.

Definition validate_component_time (component_time created_at updated_at : OffsetDateTime)
    (error : StoredEndpointError) (endpoint_id : EndpointId) : result () EndpointRepositoryError :=
  if (component_time <? created_at) || (updated_at <? component_time)
  then corrupt_endpoint endpoint_id (Err error) else Ok ().

Definition CERTIFICATE_FINGERPRINT_LENGTH : nat := 32.

Definition map_trust (sha256 : list N → list N) (model : trust_model) : result TlsTrust StoredEndpointError :=
  let? fingerprint := ok_or (tm_certificate_sha256 model) CertificateFingerprintMissing in
  if decide (length fingerprint ≠ CERTIFICATE_FINGERPRINT_LENGTH)
  then Err (InvalidFingerprintLength (length fingerprint) CERTIFICATE_FINGERPRINT_LENGTH)
  else
    let? certificate_der := ok_or (tm_certificate_der model) CertificateDerMissing in
    let? certificate :=
      map_err InvalidTlsCertificate (TlsCertificate_from_parts sha256 fingerprint certificate_der) in
    Ok match tm_trust_mode model with
       | TrustSystemCa => SystemCa certificate (tm_trusted_at model)
       | TrustPinnedCertificate => PinnedCertificate certificate (tm_trusted_at model)
       end.

(** The rows of [insert_endpoint_aggregate]. *)
Definition endpoint_row (domain : Endpoint) : endpoint_model :=
  mk_endpoint_model (ep_id domain) (ep_display_name domain) (ep_created_at domain) (ep_updated_at domain) None 0
    (lit "unknown").
Definition address_row (address_id : Uuid) (domain : Endpoint) : address_model :=
  mk_address_model address_id (ep_id domain) (ep_address domain) true (ep_created_at domain) None.
Definition trust_row (endpoint_id : EndpointId) (trust : TlsTrust) : trust_model :=
  let certificate := TlsTrust_certificate trust in
  mk_trust_model endpoint_id
    (match trust with SystemCa _ _ => TrustSystemCa | PinnedCertificate _ _ => TrustPinnedCertificate end)
    (Some (tc_fingerprint certificate)) (Some (tc_certificate_der certificate)) (TlsTrust_established_at trust).

Definition map_stored_capability (endpoint_id : EndpointId) (endpoint_created_at : OffsetDateTime)
    (model : capability_model) : result StoredEndpointCapability EndpointCapabilityRepositoryError :=
  corrupt_capability endpoint_id (
    let? capability := map_err UnknownCapability (EndpointCapability_from_str (kp_capability model)) in
    let? state := map_err UnknownState (CapabilityState_from_str (kp_state model)) in
    if kp_observed_at model <? endpoint_created_at then Err (StoredObservationPredatesEndpoint capability)
    else Ok (mk_stored_capability (capability, state) (kp_observed_at model))).

(** The active addresses of an endpoint, in any order. *)
Definition active_addresses (endpoint_id : EndpointId) (addresses : gmap Uuid address_model) : list address_model :=
  filter (λ m, am_endpoint_id m = endpoint_id ∧ am_is_active m = true) (map_to_list addresses).*2.

(** ** The repository *)

Section repository.
Context (env : Env) (sha256 : list N → list N) `{UrlText}.
Implicit Types (t : EndpointTables).
Abbreviation Repo := (M (World EndpointTables) EndpointRepositoryError).
Abbreviation CapabilityRepo := (M (World EndpointTables) EndpointCapabilityRepositoryError).

Definition put_snapshots t (x : SnapshotTables) : EndpointTables :=
  mk_endpoint_tables x (et_addresses t) (et_trust t) (et_bindings t) (et_credentials t) (et_capabilities t).
Definition put_endpoints t (x : gmap Uuid endpoint_model) : EndpointTables :=
  put_snapshots t (mk_snapshot_tables x (st_resources (et_snapshots t)) (st_snapshots (et_snapshots t))
                     (st_failures (et_snapshots t))).
Definition put_addresses t (x : gmap Uuid address_model) : EndpointTables :=
  mk_endpoint_tables (et_snapshots t) x (et_trust t) (et_bindings t) (et_credentials t) (et_capabilities t).
Definition put_trust t (x : gmap Uuid trust_model) : EndpointTables :=
  mk_endpoint_tables (et_snapshots t) (et_addresses t) x (et_bindings t) (et_credentials t) (et_capabilities t).
Definition put_bindings t (x : gmap Uuid endpoint_credential_model) : EndpointTables :=
  mk_endpoint_tables (et_snapshots t) (et_addresses t) (et_trust t) x (et_credentials t) (et_capabilities t).
Definition put_capabilities t (x : gmap (Uuid * str) capability_model) : EndpointTables :=
  mk_endpoint_tables (et_snapshots t) (et_addresses t) (et_trust t) (et_bindings t) (et_credentials t) x.

(** Each insertion, when its keys and unique indexes let it through. *)
Definition add_endpoint (row : endpoint_model) t : option (EndpointTables * ()) :=
  (λ rows, (put_endpoints t rows, ())) <$> insert_new (et_endpoints t) (em_id row) row.
Definition add_address (row : address_model) t : option (EndpointTables * ()) :=
  if decide (map_Forall (λ _ m, am_address m ≠ am_address row) (et_addresses t) ∧
             map_Forall (λ _ m, ¬ (am_endpoint_id m = am_endpoint_id row ∧ am_is_active m = true)) (et_addresses t))
  then (λ rows, (put_addresses t rows, ())) <$> insert_new (et_addresses t) (am_id row) row
  else None.
Definition add_trust (row : trust_model) t : option (EndpointTables * ()) :=
  (λ rows, (put_trust t rows, ())) <$> insert_new (et_trust t) (tm_endpoint_id row) row.
Definition add_binding (row : endpoint_credential_model) t : option (EndpointTables * ()) :=
  (λ rows, (put_bindings t rows, ())) <$> insert_new (et_bindings t) (ec_endpoint_id row) row.
Definition add_capability (row : capability_model) t : option (EndpointTables * ()) :=
  match et_capabilities t !! (kp_endpoint_id row, kp_capability row) with
  | Some _ => None
  | None => Some (put_capabilities t (<[(kp_endpoint_id row, kp_capability row) := row]> (et_capabilities t)), ())
  end.

(** [insert_endpoint_aggregate]; [address_id] is the generated id of the address.  An
    insertion that meets a unique constraint is [AlreadyExists]
    ([map_endpoint_insert_error]). *)
Definition insert_endpoint_aggregate (address_id : Uuid) (domain : Endpoint) : Repo () :=
  let endpoint_id := ep_id domain in
  let credential_id := ep_credential_id domain in
  let! bound_credential := select env (λ t, et_credentials t !! credential_id) in
  let! bound_credential := mlift (ok_or bound_credential (EndpointCredentialNotFound credential_id)) in
  if decide (cd_active_version_id bound_credential = None) then mfail (EndpointCredentialInactive credential_id)
  else
    do! constrained env EndpointAlreadyExists
          (add_endpoint (endpoint_row domain)) in
    do! constrained env EndpointAlreadyExists
          (add_address (address_row address_id domain)) in
    do! constrained env EndpointAlreadyExists (add_trust (trust_row endpoint_id (ep_trust domain))) in
    constrained env EndpointAlreadyExists
      (add_binding (mk_endpoint_credential_model endpoint_id credential_id (ep_updated_at domain))).

Definition insert_capabilities {E} `{DbErrors E} (endpoint_id : EndpointId) (observations : list StoredCapability)
    (observed_at : OffsetDateTime) : M (World EndpointTables) E () :=
  mfor observations (λ observation : StoredCapability,
    statement env (add_capability (mk_capability_model endpoint_id (EndpointCapability_as_str observation.1)
      (CapabilityState_as_str observation.2) observed_at))).

(** [create_endpoint]. *)
Definition create_endpoint (address_id : Uuid) (domain : Endpoint) : Repo Endpoint :=
  do! acquire env in
  do! transaction env (insert_endpoint_aggregate address_id domain) in
  mret domain.

(** [SqliteStore::create_discovered_endpoint]. *)
Definition sqlite_create_discovered (address_id : Uuid) (domain : Endpoint) (observations : list StoredCapability)
    : Repo Endpoint :=
  do! mlift (map_err map_capability_snapshot_error (validate_snapshot observations)) in
  do! acquire env in
  do! transaction env (
    do! insert_endpoint_aggregate address_id domain in
    insert_capabilities (ep_id domain) observations (ep_updated_at domain)) in
  mret domain.

Definition map_stored_endpoint (endpoint_id : EndpointId) (endpoint_model : endpoint_model) : Repo Endpoint :=
  let created_at := em_created_at endpoint_model in
  let updated_at := em_updated_at endpoint_model in
  let! addresses := select env (λ t, active_addresses endpoint_id (et_addresses t)) in
  let! address_model := mlift (corrupt_endpoint endpoint_id
    match addresses with
    | [] => Err ActiveAddressMissing
    | [address] => Ok address
    | _ => Err MultipleActiveAddresses
    end) in
  if decide (am_retired_at address_model ≠ None) then mlift (corrupt_endpoint endpoint_id (Err ActiveAddressRetired))
  else
    do! mlift (validate_component_time (am_created_at address_model) created_at updated_at
          AddressOutsideTimeline endpoint_id) in
    let! trust_model := select env (λ t, et_trust t !! endpoint_id) in
    let! trust_model := mlift (corrupt_endpoint endpoint_id (ok_or trust_model TrustMissing)) in
    let! trust := mlift (corrupt_endpoint endpoint_id (map_trust sha256 trust_model)) in
    let! binding := select env (λ t, et_bindings t !! endpoint_id) in
    let! binding := mlift (corrupt_endpoint endpoint_id (ok_or binding CredentialBindingMissing)) in
    do! mlift (validate_component_time (ec_assigned_at binding) created_at updated_at
          CredentialBindingOutsideTimeline endpoint_id) in
    let credential_id := ec_credential_id binding in
    let! bound_credential := select env (λ t, et_credentials t !! credential_id) in
    let! bound_credential := mlift (corrupt_endpoint endpoint_id
      (ok_or bound_credential (BoundCredentialMissing credential_id))) in
    if decide (cd_active_version_id bound_credential = None)
    then mlift (corrupt_endpoint endpoint_id (Err (BoundCredentialInactive credential_id)))
    else
      let! display_name := mlift (corrupt_endpoint endpoint_id
        (map_err StoredDisplayName (EndpointDisplayName_parse (em_display_name endpoint_model)))) in
      let! address := mlift (corrupt_endpoint endpoint_id
        (map_err StoredAddress (EndpointAddress_parse (am_address address_model)))) in
      mlift (corrupt_endpoint endpoint_id (map_err StoredTimeline
        (Endpoint_try_new endpoint_id display_name (url_to_string address) trust credential_id created_at updated_at))).

(** [SqliteStore::find_endpoint]. *)
Definition sqlite_find_endpoint (endpoint_id : EndpointId) : Repo (option Endpoint) :=
  transaction env (
    let! model := select env (λ t, et_endpoints t !! endpoint_id) in
    match model with
    | None => mret None
    | Some model => let! domain := map_stored_endpoint endpoint_id model in mret (Some domain)
    end).

Definition list_endpoints : Repo (list Endpoint) :=
  transaction env (
    let! models := select env (λ t, merge_sort listing_order (map_to_list (et_endpoints t)).*2) in
    mtraverse (λ model, map_stored_endpoint (em_id model) model) models).

(** ** Capabilities *)

(** [SqliteStore::replace_endpoint_capabilities]. *)
Definition sqlite_replace_capabilities (endpoint_id : EndpointId) (observations : list StoredCapability)
    (observed_at : OffsetDateTime) : CapabilityRepo () :=
  do! mlift (map_err (map_snapshot_error endpoint_id) (validate_snapshot observations)) in
  do! acquire env in
  transaction env (
    let! model := select env (λ t, et_endpoints t !! endpoint_id) in
    let! model := mlift (ok_or model (CapabilityEndpointNotFound endpoint_id)) in
    if observed_at <? em_created_at model then mfail (CapabilityPredatesEndpoint endpoint_id)
    else
      do! statement env (λ t,
            Some (put_capabilities t (filter (λ kv, kp_endpoint_id kv.2 ≠ endpoint_id) (et_capabilities t)), ())) in
      insert_capabilities endpoint_id observations observed_at).

(** [ORDER BY capability]. *)
Definition capability_le (m m' : capability_model) : Prop := str_le (kp_capability m) (kp_capability m').
#[export] Instance capability_le_dec : RelDecision capability_le.
Proof. intros m m'. unfold capability_le, str_le. apply _. Defined.
Definition capability_rows (endpoint_ids : list EndpointId) t : list capability_model :=
  merge_sort capability_le (filter (λ m, kp_endpoint_id m ∈ endpoint_ids) (map_to_list (et_capabilities t)).*2).

(** [SqliteStore::find_endpoint_capabilities]. *)
Definition sqlite_find_capabilities (endpoint_id : EndpointId) : CapabilityRepo (option (list StoredEndpointCapability)) :=
  transaction env (
    let! model := select env (λ t, et_endpoints t !! endpoint_id) in
    match model with
    | None => mret None
    | Some model =>
        let! models := select env (capability_rows [endpoint_id]) in
        let! capabilities := mtraverse (λ m, mlift (map_stored_capability endpoint_id (em_created_at model) m)) models in
        mret (Some capabilities)
    end).

(** The second loop of [find_endpoint_capabilities_batch]. *)
Fixpoint group_capabilities (created_at_by_id : gmap Uuid OffsetDateTime)
    (by_endpoint : gmap EndpointId (list StoredEndpointCapability)) (models : list capability_model)
    : result (gmap EndpointId (list StoredEndpointCapability)) EndpointCapabilityRepositoryError :=
  match models with
  | [] => Ok by_endpoint
  | model :: models =>
      let endpoint_id := kp_endpoint_id model in
      match created_at_by_id !! endpoint_id with
      | None => group_capabilities created_at_by_id by_endpoint models
      | Some created_at =>
          let? capability := map_stored_capability endpoint_id created_at model in
          group_capabilities created_at_by_id
            (<[endpoint_id := default [] (by_endpoint !! endpoint_id) ++ [capability]]> by_endpoint) models
      end
  end.
Definition sqlite_find_capabilities_batch (endpoint_ids : list EndpointId)
    : CapabilityRepo (gmap EndpointId (list StoredEndpointCapability)) :=
  match endpoint_ids with
  | [] => mret ∅
  | _ =>
      transaction env (
        let! created_at_by_id := select env (λ t,
          em_created_at <$> filter (λ kv : Uuid * endpoint_model, em_id kv.2 ∈ endpoint_ids) (et_endpoints t)) in
        let! models := select env (capability_rows endpoint_ids) in
        mlift (group_capabilities created_at_by_id ((λ _, []) <$> created_at_by_id) models))
  end.

(** ** The boundary of the use cases *)

Context `{ExtendedInfoJson} (fresh : nat → nat → Uuid).

Definition project_observation (observation : ResourceObservation) : NewResourceSnapshot :=
  mk_new_snapshot (ro_feature observation) (ro_odata_id observation) (ro_odata_type observation)
    (ro_etag observation) (ro_payload observation).

(** [application_adapter.rs]; a call draws its new ids from [fresh] of its moment. *)
#[export] Instance sqlite_endpoints :
    EndpointStore (World EndpointTables) EndpointRepositoryError EndpointRefreshPersistenceError
      EndpointCapabilityRepositoryError := {
  create_discovered_endpoint e observations := λ w, sqlite_create_discovered (fresh (w_clock w) 0) e observations w;
  find_managed_endpoint id := mmap_err RefreshEndpointError (sqlite_find_endpoint id);
  commit_generation id observations failures now := λ w,
    on_tables et_snapshots put_snapshots RefreshSnapshotError
      (commit_resource_generation env (fresh (w_clock w)) id (project_observation <$> observations) failures now) w;
  replace_capabilities := sqlite_replace_capabilities;
}.
End repository.

(** ** What the rows say *)

Definition the_one {A} (l : list A) : option A := match l with [x] => Some x | _ => None end.
Lemma the_one_perm {A} (l l' : list A) : l ≡ₚ l' → the_one l = the_one l'.
Proof.
  intros Hp. destruct l as [|x [|y l]].
  - by apply Permutation_nil_l in Hp as ->.
  - by apply Permutation_singleton_l in Hp as ->.
  - pose proof (Permutation_length Hp) as Hl. by destruct l' as [|x' [|y' l']].
Qed.

Definition stored_trust (tm : trust_model) : option TlsTrust :=
  fingerprint ← tm_certificate_sha256 tm;
  certificate_der ← tm_certificate_der tm;
  let certificate := mk_tls_certificate fingerprint certificate_der in
  Some match tm_trust_mode tm with
       | TrustSystemCa => SystemCa certificate (tm_trusted_at tm)
       | TrustPinnedCertificate => PinnedCertificate certificate (tm_trusted_at tm)
       end.

(** The endpoint the rows describe; whether its credential is active is left out. *)
Definition enrolled_endpoint (t : EndpointTables) (id : EndpointId) (m : endpoint_model) : option Endpoint :=
  am ← the_one (active_addresses id (et_addresses t));
  trust ← et_trust t !! id ≫= stored_trust;
  binding ← et_bindings t !! id;
  Some (mk_endpoint id (em_display_name m) (am_address am) trust (ec_credential_id binding)
          (em_created_at m) (em_updated_at m)).
Definition enrolled_endpoints (t : EndpointTables) : gmap EndpointId Endpoint :=
  map_imap (enrolled_endpoint t) (et_endpoints t).
Definition endpoints_ok (t : EndpointTables) : Prop := snapshots_ok (et_snapshots t).

Lemma enrolled_lookup t id :
  enrolled_endpoints t !! id = et_endpoints t !! id ≫= enrolled_endpoint t id.
Proof. apply map_lookup_imap. Qed.

(** Only these tables matter. *)
Lemma enrolled_same t t' :
  et_endpoints t' = et_endpoints t → et_addresses t' = et_addresses t → et_trust t' = et_trust t →
  et_bindings t' = et_bindings t → enrolled_endpoints t' = enrolled_endpoints t.
Proof.
  intros He Ha Ht Hb. apply map_eq. intros id. rewrite !enrolled_lookup, He. unfold enrolled_endpoint. by rewrite Ha, Ht, Hb.
Qed.

Lemma stored_trust_row id trust : stored_trust (trust_row id trust) = Some trust.
Proof. by destruct trust as [[? ?] ?|[? ?] ?]. Qed.

Lemma map_trust_stored sha256 tm trust : map_trust sha256 tm = Ok trust → stored_trust tm = Some trust.
Proof.
  unfold map_trust, stored_trust. intros Hm. destruct (tm_certificate_sha256 tm) as [fp|]; [|done]. cbn in Hm |- *.
  case_decide; [done|]. destruct (tm_certificate_der tm) as [der|]; [|done]. cbn in Hm |- *.
  destruct (TlsCertificate_from_parts sha256 fp der) as [c|] eqn:Hc; [|done]. cbn in Hm.
  apply certificate_from_parts in Hc as [Hc <-]. unfold TlsCertificate_from_der in Hc.
  destruct (validate_certificate_length der); [|done]. cbn in Hc. assert (c = mk_tls_certificate (fingerprint sha256 der) der) as -> by congruence.
  cbn. destruct (tm_trust_mode tm); congruence.
Qed.

(** An address that was inserted is the only active one of its endpoint. *)
Lemma active_inserted (addresses : gmap Uuid address_model) row id :
  addresses !! am_id row = None →
  active_addresses id (<[am_id row := row]> addresses) ≡ₚ
  (if decide (am_endpoint_id row = id ∧ am_is_active row = true) then [row] else []) ++ active_addresses id addresses.
Proof.
  intros Hn. unfold active_addresses. rewrite (map_to_list_insert _ _ _ Hn). rewrite fmap_cons, filter_cons. cbn [snd].
  by case_decide.
Qed.

Lemma none_active (addresses : gmap Uuid address_model) id :
  map_Forall (λ _ m, ¬ (am_endpoint_id m = id ∧ am_is_active m = true)) addresses → active_addresses id addresses = [].
Proof.
  intros Hall. unfold active_addresses. destruct (filter _ _) as [|m l] eqn:Hf; [done|].
  assert (m ∈ filter (λ m, am_endpoint_id m = id ∧ am_is_active m = true) (map_to_list addresses).*2)
    as [Hm ([k m'] & -> & Hin)%list_elem_of_fmap]%list_elem_of_filter by (rewrite Hf; left).
  apply elem_of_map_to_list in Hin. by destruct (Hall _ _ Hin).
Qed.

(** ** The contract of the use cases *)

Section laws.
Context (env : Env) (sha256 : list N → list N) `{UrlText}.
Implicit Types (t : EndpointTables) (e : Endpoint).

(** The rows of a new endpoint. *)
Lemma insert_endpoint_ok address_id e w w' :
  endpoints_ok (w_db w) → insert_endpoint_aggregate env address_id e w = (w', Ok ()) →
  endpoints_ok (w_db w') ∧ enrolled_endpoints (w_db w) !! ep_id e = None ∧
  enrolled_endpoints (w_db w') = <[ep_id e := e]> (enrolled_endpoints (w_db w)).
Proof.
  intros Hok Hrun. unfold insert_endpoint_aggregate in Hrun.
  apply mbind_ok in Hrun as (found & w1 & Hs & Hrun). apply select_ok in Hs as [Hw1 ->].
  apply mbind_ok in Hrun as (credential & w2 & Hs & Hrun). unfold mlift in Hs. injection Hs as <- _.
  case_decide; [done|].
  apply mbind_ok in Hrun as ([] & w3 & Hs & Hrun). apply constrained_ok in Hs.
  apply fmap_Some in Hs as (endpoints & [Hne ->]%insert_new_Some & Hw3). injection Hw3 as Hw3. cbn in Hne.
  apply mbind_ok in Hrun as ([] & w4 & Hs & Hrun). apply constrained_ok in Hs. unfold add_address in Hs.
  case_decide as Hc; [|done]. destruct Hc as [_ Hactive].
  apply fmap_Some in Hs as (addresses & [Hna ->]%insert_new_Some & Hw4). injection Hw4 as Hw4.
  apply mbind_ok in Hrun as ([] & w5 & Hs & Hrun). apply constrained_ok in Hs.
  apply fmap_Some in Hs as (trusts & [Hnt ->]%insert_new_Some & Hw5). injection Hw5 as Hw5.
  apply constrained_ok in Hrun. apply fmap_Some in Hrun as (bindings & [Hnb ->]%insert_new_Some & Hw6). injection Hw6 as Hw6.
  rewrite Hw6, Hw5, Hw4, Hw3, Hw1 in *. cbn in *.
  pose proof (λ id, the_one_perm _ _ (active_inserted _ (address_row address_id e) id Hna)) as Hactives.
  change (am_id (address_row address_id e)) with address_id in Hactives.
  change (am_endpoint_id (address_row address_id e)) with (ep_id e) in Hactives.
  split; [|split].
  - destruct Hok. by split.
  - by rewrite enrolled_lookup, Hne.
  - apply map_eq. intros id. rewrite enrolled_lookup. cbn. destruct (decide (id = ep_id e)) as [->|Hid].
    + rewrite !lookup_insert_eq. cbn [base.mbind option_bind]. unfold enrolled_endpoint. cbn [et_addresses et_trust et_bindings put_bindings put_trust put_addresses]. rewrite !lookup_insert_eq. cbn [base.mbind option_bind].
      rewrite Hactives. rewrite decide_True by done.
      rewrite none_active by exact Hactive. cbn [the_one app base.mbind option_bind]. rewrite stored_trust_row. cbn. by destruct e.
    + rewrite !lookup_insert_ne, enrolled_lookup by done. destruct (et_endpoints (w_db w) !! id) as [m|]; [|done]. cbn.
      unfold enrolled_endpoint. cbn. rewrite !lookup_insert_ne by done.
      rewrite Hactives. by rewrite decide_False by naive_solver.
Qed.

Lemma insert_capabilities_ok {E} `{DbErrors E} id observations now w w' (r : result () E) :
  insert_capabilities env id observations now w = (w', r) →
  et_snapshots (w_db w') = et_snapshots (w_db w) ∧ enrolled_endpoints (w_db w') = enrolled_endpoints (w_db w).
Proof.
  unfold insert_capabilities. revert w. induction observations as [|o os IH]; intros w Hrun; cbn [mfor] in Hrun.
  { unfold mret in Hrun. by injection Hrun as <- _. }
  apply mbind_inv in Hrun as [([] & w1 & Hs & Hrun)|(x & Hs & _)].
  - apply IH in Hrun as [-> ->]. apply statement_ok in Hs. unfold add_capability in Hs.
    destruct (et_capabilities _ !! _); [done|]. injection Hs as <-. done.
  - apply statement_err in Hs. by rewrite Hs.
Qed.

Lemma sqlite_create_discovered_inv address_id e observations w w' r :
  endpoints_ok (w_db w) → sqlite_create_discovered env address_id e observations w = (w', r) →
  endpoints_ok (w_db w') ∧
  match r with
  | Ok created => created = e ∧ enrolled_endpoints (w_db w) !! ep_id e = None ∧
      enrolled_endpoints (w_db w') = <[ep_id e := e]> (enrolled_endpoints (w_db w))
  | Err _ => enrolled_endpoints (w_db w') = enrolled_endpoints (w_db w)
  end.
Proof.
  intros Hok Hrun. unfold sqlite_create_discovered in Hrun.
  apply mbind_inv in Hrun as [([] & w0 & Hv & Hrun)|(x & Hv & ->)]; unfold mlift in Hv; injection Hv as <- _; [|done].
  apply mbind_inv in Hrun as [([] & w1 & Ha & Hrun)|(x & Ha & ->)]; unfold acquire in Ha; injection Ha as <- _; [|done].
  apply mbind_inv in Hrun as [([] & w2 & Ht & Hrun)|(x & Ht & ->)]; [|apply transaction_err in Ht; unfold endpoints_ok; by rewrite Ht].
  unfold mret in Hrun. injection Hrun as <- <-. apply transaction_ok in Ht as (w3 & w4 & Hw3 & Hbody & Hw2).
  apply mbind_ok in Hbody as ([] & w5 & Hins & Hcap). rewrite <- Hw3 in *.
  apply insert_endpoint_ok in Hins as (Hok5 & Hnone & Hen); [|done].
  apply insert_capabilities_ok in Hcap as [Hsn Hen']. unfold endpoints_ok. rewrite Hw2, Hsn, Hen'. done.
Qed.

(** Reading a stored endpoint: the rows say the same, apart from what the text of an
    address or of a name leaves open. *)
Lemma map_stored_endpoint_ok id m w w' x :
  map_stored_endpoint env sha256 id m w = (w', Ok x) →
  w_db w' = w_db w ∧ ∃ e, enrolled_endpoint (w_db w) id m = Some e ∧ (endpoint_valid e → x = e).
Proof.
  unfold map_stored_endpoint. intros Hrun.
  apply mbind_ok in Hrun as (addresses & w1 & Hs & Hrun). apply select_ok in Hs as [Hw1 ->].
  apply mbind_ok in Hrun as (am & w2 & Hs & Hrun). unfold mlift in Hs. injection Hs as <- Ham. apply map_err_ok in Ham.
  case_decide; [done|].
  apply mbind_ok in Hrun as ([] & w3 & Hs & Hrun). unfold mlift in Hs. injection Hs as <- _.
  apply mbind_ok in Hrun as (found & w4 & Hs & Hrun). apply select_ok in Hs as [Hw4 ->].
  apply mbind_ok in Hrun as (tm & w5 & Hs & Hrun). unfold mlift in Hs. injection Hs as <- Htm. apply map_err_ok, ok_or_ok in Htm.
  apply mbind_ok in Hrun as (trust & w6 & Hs & Hrun). unfold mlift in Hs. injection Hs as <- Htrust.
  apply map_err_ok, map_trust_stored in Htrust.
  apply mbind_ok in Hrun as (found & w7 & Hs & Hrun). apply select_ok in Hs as [Hw7 ->].
  apply mbind_ok in Hrun as (binding & w8 & Hs & Hrun). unfold mlift in Hs. injection Hs as <- Hb. apply map_err_ok, ok_or_ok in Hb.
  apply mbind_ok in Hrun as ([] & w9 & Hs & Hrun). unfold mlift in Hs. injection Hs as <- _.
  apply mbind_ok in Hrun as (found & w10 & Hs & Hrun). apply select_ok in Hs as [Hw10 ->].
  apply mbind_ok in Hrun as (credential & w11 & Hs & Hrun). unfold mlift in Hs. injection Hs as <- _.
  case_decide; [done|].
  apply mbind_ok in Hrun as (name & w12 & Hs & Hrun). unfold mlift in Hs. injection Hs as <- Hname. apply map_err_ok, map_err_ok in Hname.
  apply mbind_ok in Hrun as (url & w13 & Hs & Hrun). unfold mlift in Hs. injection Hs as <- Hurl. apply map_err_ok, map_err_ok in Hurl.
  unfold mlift in Hrun. injection Hrun as <- Hx. apply map_err_ok, map_err_ok, Endpoint_try_new_Ok in Hx as [-> _].
  split; [congruence|].
  exists (mk_endpoint id (em_display_name m) (am_address am) trust (ec_credential_id binding) (em_created_at m) (em_updated_at m)).
  split.
  - rewrite ?Hw7, ?Hw4, ?Hw1 in Hb. rewrite ?Hw4, ?Hw1 in Htm. unfold enrolled_endpoint. destruct (active_addresses id _) as [|am' [|]]; try done.
    injection Ham as ->. cbn. rewrite Htm. cbn. rewrite Htrust. cbn. by rewrite Hb.
  - intros ((url' & Hurl' & Haddr) & Hname' & _). cbn in *. rewrite Haddr. f_equal; congruence.
Qed.

Lemma sqlite_find_endpoint_inv id w w' r :
  endpoints_ok (w_db w) → sqlite_find_endpoint env sha256 id w = (w', r) →
  endpoints_ok (w_db w') ∧ enrolled_endpoints (w_db w') = enrolled_endpoints (w_db w) ∧
  match r with
  | Ok None => enrolled_endpoints (w_db w) !! id = None
  | Ok (Some found) => ∃ e, enrolled_endpoints (w_db w) !! id = Some e ∧ (endpoint_valid e → found = e)
  | Err _ => True
  end.
Proof.
  intros Hok Hrun. unfold sqlite_find_endpoint in Hrun. destruct r as [found|x].
  2: { apply transaction_err in Hrun. by rewrite Hrun. }
  apply transaction_ok in Hrun as (w1 & w2 & Hw1 & Hrun & Hw').
  apply mbind_ok in Hrun as (m & w3 & Hs & Hrun). apply select_ok in Hs as [Hw3 ->]. rewrite Hw1 in *.
  destruct (et_endpoints (w_db w) !! id) as [m|] eqn:Hm.
  - apply mbind_ok in Hrun as (domain & w4 & Hs & Hrun). unfold mret in Hrun. injection Hrun as <- <-.
    apply map_stored_endpoint_ok in Hs as (Hw4 & e & He & Hx). rewrite Hw3 in He, Hw4. rewrite Hw', Hw4.
    split; [done|]. split; [done|]. exists e. split; [|done]. by rewrite enrolled_lookup, Hm.
  - unfold mret in Hrun. injection Hrun as <- <-. rewrite Hw', Hw3. split; [done|]. split; [done|]. by rewrite enrolled_lookup, Hm.
Qed.

Lemma sqlite_replace_inv id observations now w w' r :
  endpoints_ok (w_db w) → sqlite_replace_capabilities env id observations now w = (w', r) →
  endpoints_ok (w_db w') ∧ enrolled_endpoints (w_db w') = enrolled_endpoints (w_db w).
Proof.
  intros Hok Hrun. unfold sqlite_replace_capabilities in Hrun.
  apply mbind_inv in Hrun as [([] & w0 & Hv & Hrun)|(x & Hv & ->)]; unfold mlift in Hv; injection Hv as <- _; [|done].
  apply gated_write in Hrun as [(x & -> & Hdb)|([] & w1 & w2 & -> & Hw1 & Hrun & Hdb)]; [by rewrite Hdb|].
  apply mbind_ok in Hrun as (m & w3 & Hs & Hrun). apply select_ok in Hs as [Hw3 ->].
  apply mbind_ok in Hrun as (model & w4 & Hs & Hrun). unfold mlift in Hs. injection Hs as <- _.
  destruct (_ <? _); [done|]. apply mbind_ok in Hrun as ([] & w5 & Hs & Hrun). apply statement_ok in Hs.
  apply insert_capabilities_ok in Hrun as [Hsn Hen]. unfold endpoints_ok. rewrite Hdb, Hsn, Hen.
  rewrite Hw3, Hw1 in Hs. injection Hs as <-. by split; [|apply enrolled_same].
Qed.

Context `{ExtendedInfoJson} (fresh : nat → nat → Uuid).

Lemma sqlite_commit_inv id observations failures now w w' r :
  endpoints_ok (w_db w) →
  on_tables et_snapshots put_snapshots RefreshSnapshotError
    (commit_resource_generation env (fresh (w_clock w)) id observations failures now) w = (w', r) →
  endpoints_ok (w_db w') ∧ enrolled_endpoints (w_db w') = enrolled_endpoints (w_db w).
Proof.
  intros Hok Hrun. apply on_tables_inv in Hrun as (t & r0 & Hrun & -> & _).
  apply commit_inv in Hrun; [|done]. cbn in Hrun. destruct r0 as [l|x].
  - destruct Hrun as (g & l0 & _ & Hc). destruct Hc as [_ _ _ Hok' [He _] _ _ _ _ _ _]. split; [exact Hok'|].
    apply enrolled_same; [exact He|reflexivity..].
  - split; [unfold endpoints_ok; cbn; by rewrite Hrun|]. apply enrolled_same; [|reflexivity..]. cbn. by rewrite Hrun.
Qed.

(** The tables answer the use cases as their contract says. *)
#[export, refine] Instance sqlite_endpoints_laws :
    @EndpointStoreLaws (World EndpointTables) EndpointRepositoryError EndpointRefreshPersistenceError
      EndpointCapabilityRepositoryError _ (sqlite_endpoints env sha256 fresh) :=
  { store_ok w := endpoints_ok (w_db w); enrolled w := enrolled_endpoints (w_db w) }.
Proof.
  - intros e capabilities w w' r. exact (sqlite_create_discovered_inv (fresh (w_clock w) 0) e capabilities w w' r).
  - intros id w w' r Hok Hrun. apply mmap_err_inv in Hrun as (r0 & Hrun & ->).
    apply sqlite_find_endpoint_inv in Hrun as (Hok' & He & Hr); [|done]. split; [done|]. split; [done|]. by destruct r0 as [[]|].
  - intros id observations failures now w w' r.
    exact (sqlite_commit_inv id (project_observation <$> observations) failures now w w' r).
  - intros id capabilities now w w' r. exact (sqlite_replace_inv id capabilities now w w' r).
Defined.
End laws.
