(* ===== verification/EnrollmentSafety.v ===== *)
(** * EnrollmentSafety: what an import of endpoints discloses and reports

    Over the contract [EndpointStoreLaws], with other requests at work in between: a
    credential goes only to an address whose TLS identity was observed, without a
    credential, as the row's policy demands; and the report of an import is what
    happened, row by row.  The last part runs an import on the SQLite tables. *)
From S2P Require Import Prelude Text Operation Capability Artifact AuditLog Executor CenterDomain LinkMessages Endpoints ResourceSnapshot EndpointInventory Database SiteReports.
From S2P Require Import CenterStores ProjectionRepository SnapshotRepository Enrollment EndpointCsv EndpointRepository.
Local Open Scope Z_scope.

(** ** The document *)

Section document.
Context `{CsvReader} `{UrlTextLaws} `{UuidText}.

Lemma parse_record_Ok record n row :
  parse_record record n = Ok row → cr_record_number row = n ∧ row_valid row.
Proof.
  unfold parse_record. intros Hp. inv_ok. simplify_eq/=. split; [done|]. split; cbn.
  - match goal with Hn : EndpointDisplayName_parse _ = Ok ?a |- _ => revert Hn end. unfold EndpointDisplayName_parse.
    intros [-> Hn]%parse_bounded_name_Ok. by apply parse_bounded_name_roundtrip.
  - match goal with Ha : EndpointAddress_parse _ = Ok ?u |- _ => exists u; split; [by eapply address_roundtrip|done] end.
Qed.

(** The rows that are collected are valid, numbered from two and of distinct addresses. *)
Definition rows_ok (rows : list EndpointCsvRow) : Prop :=
  cr_record_number <$> rows = seq 2 (length rows) ∧ NoDup (cr_address <$> rows) ∧ Forall row_valid rows ∧
  (length rows <= ENDPOINT_CSV_MAX_ROWS)%nat.

Lemma parse_records_Ok rows addresses records rows' :
  rows_ok rows → (∀ a, a ∈ addresses ↔ a ∈ cr_address <$> rows) →
  parse_records rows addresses records = Ok rows' → rows_ok rows'.
Proof.
  revert rows addresses. induction records as [|record records IH]; intros rows addresses Hok Haddr Hp.
  { cbn in Hp. by injection Hp as <-. }
  cbn [parse_records] in Hp. case_decide as Hmax; [done|].
  apply result_bind_ok in Hp as (fields & _ & Hp). apply result_bind_ok in Hp as (row & Hrow & Hp).
  apply parse_record_Ok in Hrow as [Hnum Hvalid]. case_decide as Hin; [done|].
  destruct Hok as (Hseq & Hnd & Hall & Hlen). eapply IH; [|clear Hp|exact Hp].
  - split_and!.
    + rewrite fmap_app, Hseq, length_app, Nat.add_1_r, seq_S. cbn. by rewrite Hnum, Nat.add_comm.
    + rewrite fmap_app. apply NoDup_app. split; [done|]. split; [|apply NoDup_singleton].
      intros a Ha Hx%list_elem_of_singleton. subst a. by apply Haddr in Ha.
    + apply Forall_app. by split; [|constructor].
    + rewrite length_app. cbn [length]. lia.
  - intros a. rewrite fmap_app, elem_of_app, elem_of_cons, Haddr. cbn. rewrite list_elem_of_singleton. naive_solver.
Qed.

(** A document that is accepted has between one row and ten thousand. *)
Lemma parse_endpoint_csv_Ok input import :
  parse_endpoint_csv input = Ok import →
  rows_ok (ci_rows import) ∧ ci_rows import ≠ [] ∧ ci_row_count import = Z.of_nat (length (ci_rows import)).
Proof.
  unfold parse_endpoint_csv. case_decide; [done|]. intros Hp. apply result_bind_ok in Hp as (headers & _ & Hp).
  destruct (negb _); [done|]. apply result_bind_ok in Hp as (rows & Hrows & Hp). case_decide as Hne; [done|].
  apply result_bind_ok in Hp as (n & Hn & Hp). injection Hp as <-. cbn. split_and!; [|done|].
  - eapply parse_records_Ok; [|by intros a|exact Hrows]. split_and!; [done|constructor|constructor|apply Nat.le_0_l].
  - apply ok_or_ok in Hn. unfold u32_try_from in Hn. case_decide; [|done]. by injection Hn as <-.
Qed.
End document.

(** ** Blocks of a log *)

(** An entry of a concatenation is an entry of one of the blocks. *)
Lemma concat_split {A} (ls : list (list A)) pre x post :
  concat ls = pre ++ x :: post →
  ∃ i l pre1 post1, ls !! i = Some l ∧ l = pre1 ++ x :: post1 ∧ pre = concat (take i ls) ++ pre1.
Proof.
  revert pre. induction ls as [|l ls IH]; intros pre Hc; [by destruct pre|]. cbn [concat] in Hc.
  apply app_eq_inv in Hc as [(k & -> & Hk)|(k & -> & Hk)].
  - destruct k as [|y k].
    + cbn in Hk. destruct (IH [] (eq_sym Hk)) as (i & l' & pre1 & post1 & Hi & Hl & Hp). symmetry in Hp. apply app_nil in Hp as [Hp ->].
      exists (S i), l', [], post1. split; [done|]. split; [done|]. cbn. by rewrite Hp, !app_nil_r.
    + cbn in Hk. injection Hk as <- _. exists 0%nat, (pre ++ x :: k), pre, k. done.
  - destruct (IH k Hk) as (i & l' & pre1 & post1 & Hi & Hl & ->). exists (S i), l', pre1, post1.
    split; [done|]. split; [done|]. cbn. by rewrite app_assoc.
Qed.

(** ** The use cases *)

Section safety.
Context {St PE CE GE DE RE KE RdE AE : Type} `{EndpointStoreLaws St DE RE KE}.
Context (w : NodeWorld (St := St) (PE := PE) (CE := CE) (GE := GE) (RdE := RdE) (AE := AE)).
Context (actor : AuditActor) (actor_principal_id : option Uuid) (origin : DeploymentPosture).
Abbreviation NodeState := (Node (St := St) (PE := PE)).
Abbreviation Effect := (NodeEffect (PE := PE)).
Implicit Types (s : NodeState) (new : list Effect).

(** Other requests keep the store's own invariant and no endpoint's rows change. *)
Definition others_keep : Prop :=
  ∀ n st, store_ok st → store_ok (nw_others w n st) ∧ enrolled st ⊆ enrolled (nw_others w n st).

(** A step adds to the log and keeps what is enrolled. *)
Definition moves s s' new : Prop :=
  nd_log s' = nd_log s ++ new ∧ store_ok (nd_store s') ∧ enrolled (nd_store s) ⊆ enrolled (nd_store s').

(** From [s], [m] adds [new] to the log, and [P] holds of it, the answer and the end. *)
Definition does {A F} (m : M NodeState F A) s (P : list Effect → result A F → NodeState → Prop) : Prop :=
  store_ok (nd_store s) → ∃ new, moves s (m s).1 new ∧ P new (m s).2 (m s).1.

Lemma does_mono {A F} (m : M NodeState F A) s (P Q : list Effect → result A F → NodeState → Prop) :
  does m s P → (∀ new r s', moves s s' new → P new r s' → Q new r s') → does m s Q.
Proof. intros Hm HPQ Hok. destruct (Hm Hok) as (new & Hmv & HP). exists new. split; [done|]. by apply HPQ. Qed.

Lemma does_bind {A B F} (m : M NodeState F A) (k : A → M NodeState F B) s (P : list Effect → result B F → NodeState → Prop) :
  does m s (λ new r s1, moves s s1 new →
    match r with Ok a => does (k a) s1 (λ new', P (new ++ new')) | Err e => P new (Err e) s1 end) →
  does (mbind m k) s P.
Proof.
  intros Hm Hok. destruct (Hm Hok) as (new & Hmv & HP). specialize (HP Hmv). unfold mbind. destruct (m s) as [s1 [a|e]]; cbn in *.
  - destruct Hmv as (Hl & Hok1 & Hen). destruct (HP Hok1) as (new' & (Hl' & Hok' & Hen') & HP'). exists (new ++ new').
    split; [|done]. split; [by rewrite Hl', Hl, app_assoc|]. split; [done|]. by etrans.
  - by exists new.
Qed.

Lemma does_ret {A F} (a : A) s (P : list Effect → result A F → NodeState → Prop) : P [] (Ok a) s → does (mret a) s P.
Proof. intros HP Hok. exists []. split; [|done]. split; [by rewrite app_nil_r|done]. Qed.
Lemma does_fail {A F} (e : F) s (P : list Effect → result A F → NodeState → Prop) : P [] (Err e) s → does (mfail e) s P.
Proof. intros HP Hok. exists []. split; [|done]. split; [by rewrite app_nil_r|done]. Qed.
Lemma does_lift {A F} (r : result A F) s (P : list Effect → result A F → NodeState → Prop) : P [] r s → does (mlift r) s P.
Proof. intros HP Hok. exists []. split; [|done]. split; [by rewrite app_nil_r|done]. Qed.

Lemma does_map_err {A F G} (f : F → G) (m : M NodeState F A) s (P : list Effect → result A G → NodeState → Prop) :
  does m s (λ new r, P new (map_err f r)) → does (mmap_err f m) s P.
Proof.
  intros Hm Hok. destruct (Hm Hok) as (new & Hmv & HP). unfold mmap_err. destruct (m s) as [s1 [a|e]]; cbn in *; by exists new.
Qed.
Lemma does_outcome {A F G} (m : M NodeState F A) s (P : list Effect → result (result A F) G → NodeState → Prop) :
  does m s (λ new r, P new (Ok r)) → does (outcome_of m) s P.
Proof.
  intros Hm Hok. destruct (Hm Hok) as (new & Hmv & HP). unfold outcome_of. destruct (m s) as [s1 r]; cbn in *; by exists new.
Qed.

(** A call that leaves the log and the store alone, and one that reaches the outside. *)
Lemma does_call {A F} (f : nat → result A F) s (P : list Effect → result A F → NodeState → Prop) :
  (∀ s', nd_store s' = nd_store s → P [] (f (nd_calls s)) s') → does (node_call f) s P.
Proof. intros HP Hok. exists []. split; [|by apply HP]. split; [by rewrite app_nil_r|done]. Qed.
Lemma does_reach {A F} (effect : nat → Effect) (f : nat → result A F) s (P : list Effect → result A F → NodeState → Prop) :
  (∀ s', nd_store s' = nd_store s → P [effect (nd_calls s)] (f (nd_calls s)) s') → does (node_reach effect f) s P.
Proof. intros HP Hok. exists [effect (nd_calls s)]. split; [|by apply HP]. done. Qed.
Lemma does_append {F} (err : AE → F) event s (P : list Effect → result () F → NodeState → Prop) :
  (∀ s', P [NodeAudited event] (Ok ()) s') → (∀ e s', P [] (Err (err e)) s') → does (append_audit w err event) s P.
Proof.
  intros HP HE Hok. unfold append_audit. destruct (nw_audit_fault w (nd_calls s)).
  - exists []. split; [|apply HE]. split; [by rewrite app_nil_r|done].
  - exists [NodeAudited event]. split; [done|apply HP].
Qed.

(** A method of the store, which finds it as others left it. *)
Lemma does_store {A F G} (err : F → G) (m : M St F A) s (P : list Effect → result A G → NodeState → Prop) :
  others_keep →
  (∀ st st' r, store_ok st → enrolled (nd_store s) ⊆ enrolled st → m st = (st', r) →
    store_ok st' ∧ enrolled st ⊆ enrolled st' ∧ ∀ s', nd_store s' = st' → P [] (map_err err r) s') →
  does (node_store w err m) s P.
Proof.
  intros Hoth HP Hok. destruct (Hoth (nd_calls s) _ Hok) as [Hok1 Hen1]. unfold node_store, zoom.
  destruct (m (nw_others w (nd_calls s) (nd_store s))) as [st' r] eqn:Hrun.
  destruct (HP _ _ _ Hok1 Hen1 Hrun) as (Hok' & Hen' & Hend). exists []. split; [|by apply Hend].
  split; [by rewrite app_nil_r|]. split; [done|]. by etrans.
Qed.

(** ** What an effect may be *)

Definition resolves (credential_id : Uuid) (credential : ResolvedCredential) : Prop :=
  ∃ n, nw_resolve w n credential_id = Ok (Some credential).

(** An audit fact. *)
Definition fact (effect : Effect) : Prop := match effect with NodeAudited _ => True | _ => False end.
(** An audit fact, or a contact under this address, trust and credential. *)
Definition only_to (address : str) (trust : TlsTrust) (credential_id : Uuid) (effect : Effect) : Prop :=
  match effect with
  | NodeAudited _ => True
  | NodeObserved _ _ => False
  | NodeProbed a t c | NodeRead a t c => a = address ∧ t = trust ∧ resolves credential_id c
  end.

Lemma facts_only address trust credential_id new : Forall fact new → Forall (only_to address trust credential_id) new.
Proof. intros Hf. eapply Forall_impl; [exact Hf|]. by intros []. Qed.

(** Steps that leave the log alone. *)
Lemma does_quiet {A B F} (f : nat → result A F) (k : A → M NodeState F B) s (P : list Effect → result B F → NodeState → Prop) :
  (∀ a s', f (nd_calls s) = Ok a → enrolled (nd_store s) ⊆ enrolled (nd_store s') → does (k a) s' P) →
  (∀ e s', f (nd_calls s) = Err e → P [] (Err e) s') → does (mbind (node_call f) k) s P.
Proof.
  intros Hk He. apply does_bind, does_call. intros s' Hs' _. destruct (f (nd_calls s)) as [a|e] eqn:Hf; [|by apply He].
  apply Hk; [done|]. by rewrite Hs'.
Qed.
Lemma does_now {B F} (k : OffsetDateTime → M NodeState F B) s (P : list Effect → result B F → NodeState → Prop) :
  (∀ a s', enrolled (nd_store s) ⊆ enrolled (nd_store s') → does (k a) s' P) → does (mbind (now w) k) s P.
Proof. intros Hk. apply does_quiet; [intros; by apply Hk|done]. Qed.
Lemma does_id {B F} (k : Uuid → M NodeState F B) s (P : list Effect → result B F → NodeState → Prop) :
  (∀ a s', enrolled (nd_store s) ⊆ enrolled (nd_store s') → does (k a) s' P) → does (mbind (new_id w) k) s P.
Proof. intros Hk. apply does_quiet; [intros; by apply Hk|done]. Qed.
Lemma does_check {A B F} (r : result A F) (k : A → M NodeState F B) s (P : list Effect → result B F → NodeState → Prop) :
  (∀ a, r = Ok a → does (k a) s P) → (∀ e, r = Err e → P [] (Err e) s) → does (mbind (mlift r) k) s P.
Proof. intros Hk He. apply does_bind, does_lift. intros _. destruct r as [a|e]; [by apply Hk|by apply He]. Qed.
Lemma does_fact {B F} (err : AE → F) event (k : () → M NodeState F B) s (P : list Effect → result B F → NodeState → Prop) :
  (∀ s', enrolled (nd_store s) ⊆ enrolled (nd_store s') → does (k ()) s' (λ new, P (NodeAudited event :: new))) →
  (∀ e s', P [] (Err (err e)) s') → does (mbind (append_audit w err event) k) s P.
Proof.
  intros Hk He. apply does_bind, does_append; [|intros e s' _; apply He]. intros s' (_ & _ & Hen). by apply Hk.
Qed.

Hypothesis Hothers : others_keep.

(** ** Onboarding *)

Definition onboarded_as (request : OnboardEndpointRequest) s (o : OnboardedEndpoint) : Prop :=
  let e := oe_endpoint o in
  enrolled (nd_store s) !! ep_id e = Some e ∧ ep_display_name e = or_display_name request ∧
  ep_address e = te_address (or_target request) ∧ ep_trust e = te_trust (or_target request) ∧
  ep_credential_id e = or_credential_id request ∧ endpoint_timeline e.

Lemma onboarded_later request s s' o :
  enrolled (nd_store s) ⊆ enrolled (nd_store s') → onboarded_as request s o → onboarded_as request s' o.
Proof. intros Hen (He & Hrest). split; [by eapply lookup_weaken|done]. Qed.

Notation contacts request := (only_to (te_address (or_target request)) (te_trust (or_target request)) (or_credential_id request)).

Lemma onboard_does request s :
  does (onboard w request) s (λ new r s', Forall (contacts request) new ∧ ∀ o, r = Ok o → onboarded_as request s' o).
Proof.
  unfold onboard. apply does_quiet; [|done]. intros found s1 Hres _. apply does_check; [|done]. intros credential Hc.
  apply ok_or_ok in Hc as ->. apply map_err_ok in Hres.
  apply does_bind, does_reach. intros s2 _ _.
  assert (Forall (contacts request) [NodeProbed (te_address (or_target request)) (te_trust (or_target request)) credential]) as Hnew.
  { constructor; [|done]. split; [done|]. split; [done|]. by exists (nd_calls s). }
  destruct (map_err _ _) as [capabilities|e]; [|by split].
  apply does_id. intros id s3 _. apply does_now. intros updated_at s4 _. apply does_check; [|by split].
  intros e He. apply map_err_ok, Endpoint_try_new_Ok in He as [-> Htime].
  apply does_bind, does_store; [done|]. intros st st' r Hok _ Hrun. apply law_create in Hrun as [Hok' Hr]; [|done].
  split; [done|]. destruct r as [created|x].
  - destruct Hr as (-> & Hnone & Hen). split; [rewrite Hen; by apply insert_subseteq|]. intros s' Hs' _. apply does_ret.
    rewrite app_nil_r. split; [done|]. intros o [= <-]. split; [|done]. rewrite Hs', Hen. apply lookup_insert_eq.
  - rewrite Hr. split; [done|]. intros s' _ _. rewrite app_nil_r. by split.
Qed.

(** The terminal facts. *)
Lemma record_onboarding_failure_does context sequence started_at (x : OnboardEndpointError CE GE DE) s :
  does (record_onboarding_failure w context sequence started_at x) s (λ new r _, Forall fact new ∧ ∀ o, r ≠ Ok o).
Proof.
  unfold record_onboarding_failure. destruct (classify_onboarding_failure x) as [failure verification].
  apply does_now. intros observed s1 _. apply does_id. intros event_id s2 _.
  destruct (AuditEvent_failed _ _ _ _ _ _) as [failed|audit]; [|by apply does_fail].
  apply does_fact; [|by split]. intros s3 _. apply does_fail. split; [by constructor|done].
Qed.

Lemma record_onboarding_success_does context sequence sequence' started_at id s :
  does (record_onboarding_success (DE := DE) w context sequence sequence' started_at id) s (λ new _ _, Forall fact new).
Proof.
  unfold record_onboarding_success. apply does_now. intros observed s1 _. apply does_id. intros event_id s2 _.
  apply does_check; [|done]. intros progress _. apply does_fact; [|done]. intros s3 _.
  apply does_now. intros observed' s4 _. apply does_id. intros event_id' s5 _. apply does_check; [|by repeat constructor].
  intros succeeded _. apply does_append; intros; by repeat constructor.
Qed.

Lemma audited_onboard_does request s :
  does (audited_onboard w actor actor_principal_id origin request) s
    (λ new r s', Forall (contacts request) new ∧ ∀ o, r = Ok o → onboarded_as request s' o).
Proof.
  unfold audited_onboard. apply does_id. intros operation_id s1 _. apply does_check; [|done]. intros context _.
  apply does_check; [|done]. intros second _. apply does_check; [|done]. intros third _.
  apply does_now. intros started_at s2 _. apply does_id. intros event_id s3 _. apply does_fact; [|done]. intros s4 _.
  apply does_bind, does_outcome. eapply does_mono; [apply onboard_does|]. intros new r s5 _ [Hnew Hr] _.
  destruct r as [o|x].
  - apply does_bind. eapply does_mono; [apply record_onboarding_success_does|]. intros new' r' s6 (_ & _ & Hen) Hnew' _.
    assert (Forall (contacts request) (NodeAudited (AuditEvent_started event_id context started_at) :: new ++ new')) as Hall.
    { constructor; [done|]. apply Forall_app. split; [done|by apply facts_only]. }
    destruct r' as [[]|x]; [|by split]. apply does_ret. rewrite app_nil_r. split; [done|].
    intros o' [= <-]. eapply onboarded_later; [exact Hen|by apply Hr].
  - eapply does_mono; [apply record_onboarding_failure_does|]. intros new' r' s6 _ [Hnew' Hr'].
    split; [|by intros o Ho; destruct (Hr' o)]. constructor; [done|]. apply Forall_app. split; [done|by apply facts_only].
Qed.

(** ** Refresh *)

Lemma refresh_does id e s :
  enrolled (nd_store s) !! id = Some e → endpoint_valid e →
  does (refresh w id) s (λ new _ _, Forall (only_to (ep_address e) (ep_trust e) (ep_credential_id e)) new).
Proof.
  intros He Hvalid. unfold refresh. apply does_bind, does_store; [done|]. intros st st' r Hok Hen Hrun.
  apply law_find in Hrun as (Hok' & Hsame & Hr); [|done]. split; [done|]. split; [by rewrite Hsame|]. intros s1 _ _.
  destruct r as [found|x]; cbn [map_err]; [|by constructor]. apply does_check; [|done]. intros e' He'. apply ok_or_ok in He' as ->.
  destruct Hr as (e0 & He0 & Hx). assert (e0 = e) as ->.
  { eapply lookup_weaken in He; [|exact Hen]. congruence. }
  rewrite (Hx Hvalid) in *. clear e' Hx.
  apply does_quiet; [|done]. intros found s2 Hres _. apply map_err_ok in Hres. apply does_check; [|done].
  intros credential Hc. apply ok_or_ok in Hc as ->.
  assert (resolves (ep_credential_id e) credential) as Hcred by (by eexists).
  apply does_bind, does_reach. intros s3 _ _. destruct (map_err _ _) as [outcome|x]; [|by constructor].
  apply does_now. intros observed_at s4 _. apply does_bind, does_store; [done|]. intros st1 st1' r1 Hok1 _ Hrun1.
  apply law_commit in Hrun1 as [Hok1' Hen1]; [|done]. split; [done|]. split; [by rewrite Hen1|]. intros s5 _ _.
  destruct r1 as [snapshots|x]; cbn [map_err]; [|by repeat constructor].
  apply does_bind, does_reach. intros s6 _ _. destruct (map_err _ _) as [capabilities|x]; [|by repeat constructor].
  apply does_now. intros observed_at' s7 _. apply does_bind, does_store; [done|]. intros st2 st2' r2 Hok2 _ Hrun2.
  apply law_replace in Hrun2 as [Hok2' Hen2]; [|done]. split; [done|]. split; [by rewrite Hen2|]. intros s8 _ _.
  destruct r2 as [[]|x]; cbn [map_err]; [apply does_ret|]; by repeat constructor.
Qed.

Lemma record_refresh_failure_does context sequence started_at id (x : EndpointRefreshError RE KE CE RdE GE) s :
  does (record_refresh_failure w context sequence started_at id x) s (λ new _ _, Forall fact new).
Proof.
  unfold record_refresh_failure. destruct (classify_refresh_failure x) as [failure verification].
  apply does_now. intros observed s1 _. apply does_id. intros event_id s2 _.
  destruct (AuditEvent_failed _ _ _ _ _ _) as [failed|audit]; [|by apply does_fail].
  apply does_fact; [|done]. intros s3 _. apply does_fail. by constructor.
Qed.

Lemma record_refresh_success_does context sequence started_at id s :
  does (record_refresh_success (RE := RE) (KE := KE) w context sequence started_at id) s (λ new _ _, Forall fact new).
Proof.
  unfold record_refresh_success. apply does_now. intros observed s1 _. apply does_id. intros event_id s2 _.
  apply does_check; [|done]. intros succeeded _. apply does_append; intros; by repeat constructor.
Qed.

Lemma audited_refresh_does id e s :
  enrolled (nd_store s) !! id = Some e → endpoint_valid e →
  does (audited_refresh w actor actor_principal_id origin id) s
    (λ new _ _, Forall (only_to (ep_address e) (ep_trust e) (ep_credential_id e)) new).
Proof.
  intros He Hvalid. unfold audited_refresh. apply does_id. intros operation_id s1 Hn1. apply does_check; [|done]. intros context _.
  apply does_check; [|done]. intros terminal _. apply does_now. intros started_at s2 Hn2. apply does_id. intros event_id s3 Hn3.
  apply does_fact; [|done]. intros s4 Hn4. apply does_bind, does_outcome.
  eapply does_mono; [eapply refresh_does; [|exact Hvalid]; eapply lookup_weaken; [exact He|]; etrans; [exact Hn1|]; etrans; [exact Hn2|]; by etrans|].
  intros new r s5 _ Hnew _. destruct r as [snapshots|x].
  - apply does_bind. eapply does_mono; [apply record_refresh_success_does|]. intros new' r' s6 _ Hnew' _.
    destruct r' as [[]|x]; [apply does_ret; rewrite app_nil_r|]; (constructor; [done|]); apply Forall_app; (split; [done|by apply facts_only]).
  - eapply does_mono; [apply record_refresh_failure_does|]. intros new' r' s6 _ Hnew'. constructor; [done|].
    apply Forall_app. split; [done|by apply facts_only].
Qed.

(** ** Enrollment *)

Definition request_valid (request : OnboardEndpointRequest) : Prop :=
  (∃ url, EndpointAddress_parse (te_address (or_target request)) = Ok url ∧
     te_address (or_target request) = url_to_string url) ∧
  EndpointDisplayName_parse (or_display_name request) = Ok (or_display_name request).

Lemma onboarded_valid request s o : request_valid request → onboarded_as request s o → endpoint_valid (oe_endpoint o).
Proof.
  intros [Haddr Hname] (_ & Hn & Ha & _ & _ & Htime). unfold endpoint_valid. rewrite Hn, Ha. done.
Qed.

Lemma enroll_endpoint_does request s :
  request_valid request →
  does (enroll_endpoint w actor actor_principal_id origin request) s
    (λ new r s', Forall (contacts request) new ∧
       ∀ id, r = Ok id → ∃ o, onboarded_as request s' o ∧ id = ep_id (oe_endpoint o)).
Proof.
  intros Hvalid. unfold enroll_endpoint. apply does_bind. unfold enroll.
  apply does_bind, does_map_err. eapply does_mono; [apply audited_onboard_does|].
  intros new r s1 _ [Hnew Hr] _. destruct r as [o|x]; cbn [map_err]; [|by intros _].
  specialize (Hr o eq_refl). apply does_quiet; [|by rewrite app_nil_r].
  intros [] s2 _ Hen2. pose proof (onboarded_later _ _ _ _ Hen2 Hr) as Hr2. clear Hr.
  apply does_bind, does_map_err. eapply does_mono; [eapply audited_refresh_does; [apply Hr2|by eapply onboarded_valid]|].
  intros new' r s3 (_ & _ & Hen3) Hnew' _.
  destruct Hr2 as (He & Hn & Ha & Ht & Hc & Htime). rewrite Ha, Ht, Hc in Hnew'.
  assert (Forall (contacts request) (new ++ new')) as Hall by (by apply Forall_app).
  destruct r as [snapshots|x]; cbn [map_err]; [|by intros _]. apply does_ret. intros _. apply does_ret.
  rewrite !app_nil_r. split; [done|]. intros id [= <-]. exists o. split; [|done]. split; [by eapply lookup_weaken|done].
Qed.

(** ** One row *)

(** The trust is the row's policy, applied to what was observed. *)
Definition trusted_as (expectation : EndpointTrustExpectation) (observation : TlsIdentityObservation) (trust : TlsTrust)
    : Prop :=
  match expectation, trust with
  | SystemCaOnly, SystemCa certificate _ =>
      to_system_ca observation = CaVerified ∧ certificate = to_certificate observation
  | ExplicitPin expected, PinnedCertificate certificate _ =>
      certificate = to_certificate observation ∧ tc_fingerprint certificate = expected
  | _, _ => False
  end.
(** No trust satisfies the policy. *)
Definition untrustworthy (expectation : EndpointTrustExpectation) (observation : TlsIdentityObservation) : Prop :=
  match expectation with
  | SystemCaOnly => to_system_ca observation = CaRejected
  | ExplicitPin expected => tc_fingerprint (to_certificate observation) ≠ expected
  end.

Lemma begin_trust_does address s :
  does (begin_trust (St := St) (F := PE) w (λ e, e) address) s (λ new r _,
    ∃ answer, new = [NodeObserved address answer] ∧
    match r with
    | Err source => answer = Err source
    | Ok challenge => ∃ observation, answer = Ok observation ∧ ∀ expectation,
        match complete_with_expectation challenge expectation with
        | Ok target => te_address target = address ∧ trusted_as expectation observation (te_trust target)
        | Err _ => untrustworthy expectation observation
        end
    end).
Proof.
  unfold begin_trust. apply does_bind, does_reach. intros s1 _ _.
  destruct (nw_observe w (nd_calls s) address) as [[certificate ca]|source]; cbn [map_err]; [|by eexists].
  apply does_now. intros at_ s2 _. apply does_ret. rewrite app_nil_r. eexists. split; [done|]. eexists. split; [done|].
  intros [|expected]; destruct ca; cbn; try done;
    unfold pin_system_ca_identity, pin_pending_identity, verify_expected_pin; cbn; by case_decide.
Qed.

Abbreviation EnErr := (EndpointEnrollmentError CE GE DE RE KE RdE AE).
Abbreviation RowResult := (EndpointCsvRowResult PE EnErr).

(** What a row did after its validation was recorded, and what is reported of it. *)
Definition row_ran (st : St) (row : EndpointCsvRow) (block : list Effect) (res : RowResult) : Prop :=
  rr_record_number res = cr_record_number row ∧ rr_address res = cr_address row ∧
  ∃ event answer rest, block = NodeAudited event :: NodeObserved (cr_address row) answer :: rest ∧
    ae_outcome event = OutcomeProgress ProgressRowValidated ∧
    match rr_outcome res with
    | TlsProbeFailed source => answer = Err source ∧ rest = []
    | TrustRejected _ => rest = [] ∧ ∃ observation, answer = Ok observation ∧ untrustworthy (cr_trust row) observation
    | EnrollmentFailed _ => ∃ observation trust, answer = Ok observation ∧ trusted_as (cr_trust row) observation trust ∧
        Forall (only_to (cr_address row) trust (cr_credential_id row)) rest
    | Enrolled id => ∃ observation trust, answer = Ok observation ∧ trusted_as (cr_trust row) observation trust ∧
        Forall (only_to (cr_address row) trust (cr_credential_id row)) rest ∧
        ∃ e, enrolled st !! id = Some e ∧ ep_id e = id ∧ ep_display_name e = cr_display_name row ∧
          ep_address e = cr_address row ∧ ep_trust e = trust ∧ ep_credential_id e = cr_credential_id row
    end.

Lemma row_ran_later st st' row block res :
  enrolled st ⊆ enrolled st' → row_ran st row block res → row_ran st' row block res.
Proof.
  intros Hen (Hnum & Haddr & event & answer & rest & Hb & Hev & Hout). split; [done|]. split; [done|].
  exists event, answer, rest. split; [done|]. split; [done|]. destruct (rr_outcome res); try done.
  destruct Hout as (o & t & Ha & Ht & Hf & e & He & Hrest). exists o, t. split_and!; try done. exists e.
  split; [by eapply lookup_weaken|done].
Qed.

Lemma execute_row_does row s :
  row_valid row →
  does (execute_row w actor actor_principal_id origin row) s (λ new r s',
    ∃ res, r = Ok res ∧ ∀ event, ae_outcome event = OutcomeProgress ProgressRowValidated →
      row_ran (nd_store s') row (NodeAudited event :: new) res).
Proof.
  intros [Hname Haddr]. unfold execute_row. apply does_bind, does_outcome.
  eapply does_mono; [apply begin_trust_does|]. intros new r s1 _ (answer & -> & Hr) _. apply does_bind.
  destruct r as [challenge|source].
  - destruct Hr as (observation & -> & Hall). specialize (Hall (cr_trust row)).
    destruct (complete_with_expectation challenge (cr_trust row)) as [target|source].
    + destruct Hall as [Ha Ht]. apply does_bind, does_outcome. eapply does_mono; [apply enroll_endpoint_does|].
      { split; cbn; [by rewrite Ha|done]. }
      intros new r s2 _ [Hnew Hr] _. cbn in Hnew. rewrite Ha in Hnew. apply does_ret. intros _. apply does_ret.
      rewrite !app_nil_r. eexists. split; [done|]. intros event Hev. split; [done|]. split; [done|].
      eexists _, _, _. split; [done|]. split; [done|]. cbn. destruct r as [id|x]; [|by exists observation, (te_trust target)].
      exists observation, (te_trust target). split_and!; try done.
      destruct (Hr id eq_refl) as (o & (He & Hn & Ha' & Ht' & Hc & _) & ->). cbn in *. rewrite Ha in Ha'. by exists (oe_endpoint o).
    + apply does_ret. intros _. apply does_ret. rewrite !app_nil_r. eexists. split; [done|]. intros event Hev.
      split; [done|]. split; [done|]. eexists _, _, _. split; [done|]. split; [done|]. cbn. split; [done|]. by exists observation.
  - apply does_ret. intros _. apply does_ret. rewrite !app_nil_r. eexists. split; [done|]. intros event Hev.
    split; [done|]. split; [done|]. eexists _, _, _. split; [done|]. split; [done|]. cbn. done.
Qed.

(** ** The import *)

Lemma event_outcome id context sequence outcome at_ event :
  AuditEvent_try_from_parts id context sequence outcome at_ = Ok event → ae_outcome event = outcome ∧ ae_context event = context.
Proof. unfold AuditEvent_try_from_parts. repeat (case_match; try done); by intros [= <-]. Qed.

Lemma failed_count_zero (report : EndpointCsvImportReport PE EnErr) :
  failed_count report = 0%nat ↔ Forall (λ r, is_success (rr_outcome r) = true) (ir_rows report).
Proof.
  unfold failed_count, attempted_count, succeeded_count. induction (ir_rows report) as [|r rs IH]; [done|].
  rewrite filter_cons, Forall_cons. pose proof (length_filter (λ r, is_success (rr_outcome r) = true) rs).
  case_decide; cbn [length]; [rewrite <- IH; naive_solver lia|]. split; [lia|]. naive_solver.
Qed.

Abbreviation XErr := (EndpointCsvImportExecutionError AE PE EnErr).
Notation import_report rows xs := (mk_import_report (length rows) (snd <$> xs)).

Lemma record_row_validated_does audit n (report : EndpointCsvImportReport PE EnErr) s :
  does (record_row_validated w audit n report) s (λ new r _,
    match r with
    | Ok _ => ∃ event, new = [NodeAudited event] ∧ ae_outcome event = OutcomeProgress ProgressRowValidated
    | Err e => new = [] ∧ xe_report e = report
    end).
Proof.
  unfold record_row_validated. apply does_check; [|intros e He; by destruct (AuditSequence_next _); simplify_eq/=].
  intros sequence _. apply does_now. intros observed s1 _. apply does_id. intros event_id s2 _.
  apply does_check; [|intros e He; by destruct (AuditEvent_progress _ _ _ _ _); simplify_eq/=].
  intros progress Hp. apply map_err_ok, event_outcome in Hp as [Hp _]. apply does_fact; [|intros; by split]. intros s3 _.
  apply does_ret. by exists progress.
Qed.

(** The rows run, up to the first whose validation cannot be recorded. *)
Definition ran (st : St) (rows : list EndpointCsvRow) (xs : list (list Effect * RowResult)) : Prop :=
  Forall2 (λ row x, row_ran st row x.1 x.2) (take (length xs) rows) xs.

Lemma execute_rows_does rows audit report s :
  Forall row_valid rows →
  does (execute_rows w actor actor_principal_id origin audit report rows) s (λ new r s',
    ∃ xs, new = concat xs.*1 ∧ ran (nd_store s') rows xs ∧
      match r with
      | Ok (_, report') => length xs = length rows ∧ report' = mk_import_report (ir_total_rows report) (ir_rows report ++ xs.*2)
      | Err e => xe_report e = mk_import_report (ir_total_rows report) (ir_rows report ++ xs.*2)
      end).
Proof.
  intros Hvalid. revert audit report s. induction Hvalid as [|row rows Hrow Hvalid IH]; intros audit report s; cbn [execute_rows].
  { apply does_ret. exists []. split; [done|]. split; [constructor|]. split; [done|]. cbn. rewrite app_nil_r. by destruct report. }
  apply does_bind. eapply does_mono; [apply record_row_validated_does|]. intros new r s1 _ Hr _. destruct r as [audit'|x].
  2: { destruct Hr as [-> Hx]. exists []. split; [done|]. split; [constructor|]. rewrite Hx. cbn. rewrite app_nil_r. by destruct report. }
  destruct Hr as (event & -> & Hev). apply does_bind. eapply does_mono; [by apply execute_row_does|].
  intros new r s2 _ (res & -> & Hres) _. specialize (Hres event Hev). eapply does_mono; [apply IH|].
  intros new' r s3 (_ & _ & Hen) (xs & -> & Hran & Hr). exists ((NodeAudited event :: new, res) :: xs).
  split; [by rewrite fmap_cons|]. split; [constructor; [by eapply row_ran_later|done]|].
  destruct r as [[audit'' report']|x]; cbn in Hr |- *.
  - destruct Hr as [Hlen ->]. split; [by rewrite Hlen|]. by rewrite <- app_assoc.
  - by rewrite Hr, <- app_assoc.
Qed.

(** The whole import: the start fact, the rows that ran, the terminal fact. *)
Definition imported (rows : list EndpointCsvRow) new (r : result (EndpointCsvImportReport PE EnErr) XErr) s' : Prop :=
  ∃ before xs after, new = before ++ concat xs.*1 ++ after ∧ Forall fact (before ++ after) ∧ ran (nd_store s') rows xs ∧
    (xs ≠ [] → ∃ event, before = [NodeAudited event] ∧ ae_outcome event = OutcomeStarted) ∧
    match r with
    | Ok report => report = import_report rows xs ∧ length xs = length rows ∧
        ∃ event, after = [NodeAudited event] ∧
          if decide (failed_count report = 0%nat) then ae_outcome event = OutcomeSucceeded
          else ae_outcome event = OutcomeFailed FailureEndpointImportRowFailed FailureVerificationRejected
    | Err e => xe_report e = import_report rows xs ∧ after = []
    end.

Lemma start_audit_does row_count (report : EndpointCsvImportReport PE EnErr) s :
  does (start_audit w actor actor_principal_id origin row_count report) s (λ new r _,
    match r with
    | Ok _ => ∃ event, new = [NodeAudited event] ∧ ae_outcome event = OutcomeStarted
    | Err e => new = [] ∧ xe_report e = report
    end).
Proof.
  unfold start_audit. apply does_check; [|intros e He; by destruct (csv_endpoint_import _); simplify_eq/=].
  intros parameters _. apply does_id. intros operation_id s1 _.
  apply does_check; [|intros e He; by destruct (try_new_with_actor_principal _ _ _ _ _ _ _ _ _); simplify_eq/=].
  intros context _. apply does_now. intros started_at s2 _. apply does_id. intros event_id s3 _.
  apply does_fact; [|intros; by split]. intros s4 _. apply does_ret. by eexists.
Qed.

Lemma complete_audit_does audit (report : EndpointCsvImportReport PE EnErr) s :
  does (complete_audit w audit report) s (λ new r _,
    match r with
    | Ok report' => report' = report ∧ ∃ event, new = [NodeAudited event] ∧
        if decide (failed_count report = 0%nat) then ae_outcome event = OutcomeSucceeded
        else ae_outcome event = OutcomeFailed FailureEndpointImportRowFailed FailureVerificationRejected
    | Err e => new = [] ∧ xe_report e = report
    end).
Proof.
  unfold complete_audit. apply does_check; [|intros e He; by destruct (AuditSequence_next _); simplify_eq/=].
  intros sequence _. apply does_now. intros observed s1 _. apply does_id. intros event_id s2 _.
  apply does_check; [|intros e He; case_decide; unfold AuditEvent_succeeded, AuditEvent_failed in He;
    by destruct (AuditEvent_try_from_parts _ _ _ _ _); simplify_eq/=].
  intros terminal Ht. apply map_err_ok in Ht. apply does_fact; [|intros; by split]. intros s3 _. apply does_ret. split; [done|].
  exists terminal. split; [done|]. case_decide; by apply event_outcome in Ht as [Ht _].
Qed.

Lemma import_does import s :
  Forall row_valid (ci_rows import) →
  does (import_endpoints w actor actor_principal_id origin import) s (imported (ci_rows import)).
Proof.
  intros Hvalid. unfold import_endpoints. apply does_bind. eapply does_mono; [apply start_audit_does|].
  intros new r s1 _ Hr _. destruct r as [audit|x].
  2: { destruct Hr as [-> Hx]. exists [], [], []. split; [done|]. split; [constructor|]. split; [constructor|]. done. }
  destruct Hr as (started & -> & Hstarted). apply does_bind. eapply does_mono; [by apply execute_rows_does|].
  intros new r s2 _ (xs & -> & Hran & Hr) _. destruct r as [[audit' report]|x].
  2: { cbn in Hr. exists [NodeAudited started], xs, []. rewrite !app_nil_r. split; [done|]. split; [by repeat constructor|].
       split; [done|]. split; [|done]. intros _. by exists started. }
  destruct Hr as [Hlen ->]. cbn [fst snd ir_total_rows ir_rows app].
  eapply does_mono; [apply complete_audit_does|]. intros new r s3 (_ & _ & Hen) Hr.
  assert (ran (nd_store s3) (ci_rows import) xs) as Hran3.
  { eapply Forall2_impl; [exact Hran|]. intros row x Hx. cbn. by eapply row_ran_later. }
  exists [NodeAudited started], xs, new. split; [done|]. split.
  { constructor; [done|]. destruct r as [report|x]; [destruct Hr as (_ & event & -> & _)|destruct Hr as [-> _]]; by repeat constructor. }
  split; [done|]. split; [intros _; by exists started|].
  destruct r as [report|x]; [destruct Hr as (-> & Hr); by split|destruct Hr as [-> ->]; by split].
Qed.

(** ** Theorems *)

Lemma split_app {A} (l1 l2 : list A) pre x post :
  l1 ++ l2 = pre ++ x :: post →
  (∃ k, l1 = pre ++ x :: k) ∨ ∃ k, pre = l1 ++ k ∧ l2 = k ++ x :: post.
Proof.
  intros Hl. apply app_eq_inv in Hl as [(k & -> & Hk)|(k & -> & Hk)]; [|by right; exists k].
  destruct k as [|y k]; [right; exists []; by rewrite !app_nil_r|]. injection Hk as <- _. left. by exists k.
Qed.

Lemma not_fact l pre effect post : Forall fact l → l = pre ++ effect :: post → fact effect.
Proof. intros Hf ->. apply Forall_app in Hf as [_ Hf]. by apply Forall_cons in Hf as [? _]. Qed.

(** What an effect hands over, and where. *)
Definition contact (effect : Effect) : option (str * TlsTrust * ResolvedCredential) :=
  match effect with
  | NodeAudited _ | NodeObserved _ _ => None
  | NodeProbed address trust credential | NodeRead address trust credential => Some (address, trust, credential)
  end.

Lemma fact_no_contact effect : fact effect → contact effect = None.
Proof. by destruct effect. Qed.

Lemma contact_in_block st row block res pre effect post address trust credential :
  row_ran st row block res → block = pre ++ effect :: post → contact effect = Some (address, trust, credential) →
  address = cr_address row ∧ resolves (cr_credential_id row) credential ∧
  ∃ observation, NodeObserved address (Ok observation) ∈ pre ∧ trusted_as (cr_trust row) observation trust.
Proof.
  intros (_ & _ & event & answer & rest & -> & _ & Hout) Hb Hc.
  destruct pre as [|x [|y pre]]; cbn in Hb; [injection Hb as <- _; discriminate Hc|injection Hb as _ <- _; discriminate Hc|]. injection Hb as <- <- Hrest.
  assert (∀ observation trust', answer = Ok observation → trusted_as (cr_trust row) observation trust' →
    Forall (only_to (cr_address row) trust' (cr_credential_id row)) rest →
    address = cr_address row ∧ resolves (cr_credential_id row) credential ∧
    ∃ observation, NodeObserved address (Ok observation) ∈ NodeAudited event :: NodeObserved (cr_address row) answer :: pre ∧
      trusted_as (cr_trust row) observation trust) as Hsome.
  { intros observation trust' -> Htrust Hall. rewrite Hrest in Hall. apply Forall_app in Hall as [_ Hall].
    apply Forall_cons in Hall as [Hone _]. assert (address = cr_address row ∧ trust = trust' ∧ resolves (cr_credential_id row) credential) as (-> & -> & Hres).
    { destruct effect; cbn in Hc, Hone; try done; simplify_eq/=; done. }
    split; [done|]. split; [done|]. exists observation. split; [set_solver|done]. }
  assert (rest ≠ []) as Hne by (rewrite Hrest; by destruct pre).
  destruct (rr_outcome res) as [id|source|source|source].
  - destruct Hout as (observation & trust' & Ha & Ht & Hall & _). by eapply Hsome.
  - by destruct Hout.
  - by destruct Hout.
  - destruct Hout as (observation & trust' & Ha & Ht & Hall). by eapply Hsome.
Qed.

(** A contact of an import is one of a row that ran. *)
Lemma contact_of_row rows new (r : result (EndpointCsvImportReport PE EnErr) XErr) s' pre effect post address trust credential :
  imported rows new r s' → new = pre ++ effect :: post → contact effect = Some (address, trust, credential) →
  ∃ row observation, row ∈ rows ∧ cr_address row = address ∧ NodeObserved address (Ok observation) ∈ pre ∧
    trusted_as (cr_trust row) observation trust ∧ resolves (cr_credential_id row) credential.
Proof.
  intros (before & xs & after & -> & Hfacts & Hran & _) Hlog Hc. apply Forall_app in Hfacts as [Hbefore Hafter].
  assert (∀ l pre post, Forall fact l → l ≠ pre ++ effect :: post) as Hnot.
  { intros l pre' post' Hf Hl. pose proof (fact_no_contact _ (not_fact _ _ _ _ Hf Hl)). congruence. }
  apply split_app in Hlog as [[k Hk]|(k & -> & Hlog)]; [by destruct (Hnot _ _ _ Hbefore Hk)|].
  apply split_app in Hlog as [[k' Hk]|(k' & -> & Hlog)]; [|by destruct (Hnot _ _ _ Hafter Hlog)].
  apply concat_split in Hk as (i & block & pre1 & post1 & Hi & Hblock & ->).
  apply list_lookup_fmap_Some in Hi as ([block' res] & Hb & Hi). cbn in Hb. subst block'.
  destruct (Forall2_lookup_r _ _ _ _ _ Hran Hi) as (row & Hrow & Hres). apply lookup_take_Some in Hrow as [Hrow _].
  apply list_elem_of_lookup_2 in Hrow.
  destruct (contact_in_block _ _ _ _ _ _ _ _ _ _ Hres Hblock Hc) as (-> & Hcred & observation & Hin & Htrust).
  exists row, observation. split_and!; try done. rewrite !elem_of_app. by do 2 right.
Qed.

Context `{!UrlTextLaws} `{CsvReader} `{UuidText}.

Lemma import_run text import s s' r :
  store_ok (nd_store s) → parse_endpoint_csv text = Ok import →
  import_endpoints w actor actor_principal_id origin import s = (s', r) →
  rows_ok (ci_rows import) ∧ ∃ new, nd_log s' = nd_log s ++ new ∧ imported (ci_rows import) new r s'.
Proof.
  intros Hok Hp Hrun. apply parse_endpoint_csv_Ok in Hp as [Hrows _]. split; [done|].
  destruct (import_does import s) as (new & (Hl & _) & Himp); [apply Hrows|done|]. rewrite Hrun in *. by exists new.
Qed.

(** C9: Whatever the document, the answers of the network, the failures and the other
    requests at work, an import sends a credential only to the address of a row, only
    the credential that row names, and only under the trust its policy grants to the
    identity that was observed there before, without a credential: the declared pin, or
    the system's roots. *)
Theorem credentials_follow_trust text import s s' r pre effect post :
  store_ok (nd_store s) → parse_endpoint_csv text = Ok import →
  import_endpoints w actor actor_principal_id origin import s = (s', r) →
  nd_log s' = nd_log s ++ pre ++ effect :: post →
  match effect with
  | NodeProbed address trust credential | NodeRead address trust credential =>
      ∃ row observation, row ∈ ci_rows import ∧ cr_address row = address ∧
        (∀ row', row' ∈ ci_rows import → cr_address row' = address → row' = row) ∧
        NodeObserved address (Ok observation) ∈ pre ∧ trusted_as (cr_trust row) observation trust ∧
        resolves (cr_credential_id row) credential
  | NodeAudited _ | NodeObserved _ _ => True
  end.
Proof.
  intros Hok Hp Hrun Hlog. destruct (import_run _ _ _ _ _ Hok Hp Hrun) as [(_ & Hnd & _) (new & Hl & Himp)].
  rewrite Hl in Hlog. apply app_inv_head in Hlog.
  assert (∀ address trust credential, contact effect = Some (address, trust, credential) →
    ∃ row observation, row ∈ ci_rows import ∧ cr_address row = address ∧
      (∀ row', row' ∈ ci_rows import → cr_address row' = address → row' = row) ∧
      NodeObserved address (Ok observation) ∈ pre ∧ trusted_as (cr_trust row) observation trust ∧
      resolves (cr_credential_id row) credential) as Hsome.
  { intros address trust credential Hc. destruct (contact_of_row _ _ _ _ _ _ _ _ _ _ Himp Hlog Hc)
      as (row & observation & Hin & <- & Hrest). exists row, observation. split; [done|]. split; [done|]. split; [|done].
    intros row' Hin' Haddr. by eapply (NoDup_fmap_eq cr_address). }
  by destruct effect; try done; apply Hsome.
Qed.

(** C16: The report of an import, also the one an audit failure ends early, is what happened:
    its results are those of the first rows of the document, in order, each observed
    once after its validation was recorded; a row whose identity is not the declared one
    ends there, and an enrolled one is a managed endpoint with the row's name, address
    and credential and the trust its policy grants.  Nothing but facts is added around
    the rows, and the last one says success exactly when every row was enrolled. *)
Theorem import_is_accounted text import s s' r :
  store_ok (nd_store s) → parse_endpoint_csv text = Ok import →
  import_endpoints w actor actor_principal_id origin import s = (s', r) →
  let report := match r with Ok report => report | Err e => xe_report e end in
  ∃ before blocks after, nd_log s' = nd_log s ++ before ++ concat blocks ++ after ∧ Forall fact (before ++ after) ∧
    (blocks ≠ [] → ∃ event, before = [NodeAudited event] ∧ ae_outcome event = OutcomeStarted) ∧
    ir_total_rows report = length (ci_rows import) ∧ length blocks = length (ir_rows report) ∧
    (∀ i res, ir_rows report !! i = Some res → ∃ row block,
       ci_rows import !! i = Some row ∧ blocks !! i = Some block ∧ row_ran (nd_store s') row block res) ∧
    match r with
    | Ok _ => length (ir_rows report) = length (ci_rows import) ∧ ∃ event, after = [NodeAudited event] ∧
        (ae_outcome event = OutcomeSucceeded ↔ Forall (λ res, is_success (rr_outcome res) = true) (ir_rows report))
    | Err _ => after = []
    end.
Proof.
  intros Hok Hp Hrun report. destruct (import_run _ _ _ _ _ Hok Hp Hrun) as [_ (new & Hl & before & xs & after & -> & Hf & Hran & Hstart & Hr)].
  assert (report = mk_import_report (length (ci_rows import)) xs.*2) as Hreport.
  { subst report. destruct r; apply Hr. }
  exists before, xs.*1, after. split; [done|]. split; [done|]. rewrite Hreport. cbn [ir_total_rows ir_rows].
  split; [intros Hne; apply Hstart; by intros ->|]. split; [done|]. split; [by rewrite !length_fmap|]. split.
  - intros i res ([block res'] & -> & Hi)%list_lookup_fmap_Some. destruct (Forall2_lookup_r _ _ _ _ _ Hran Hi) as (row & Hrow & Hres).
    apply lookup_take_Some in Hrow as [Hrow _]. exists row, block. split; [done|]. split; [|done]. by rewrite list_lookup_fmap, Hi.
  - destruct r as [report'|e]; [|apply Hr]. destruct Hr as (Hrep & Hlen & event & -> & Hev). rewrite length_fmap. split; [done|].
    exists event. split; [done|]. subst report. cbn in Hreport. rewrite Hrep in Hev. pose proof (failed_count_zero (import_report (ci_rows import) xs)) as Hz.
    cbn [ir_rows] in Hz. rewrite <- Hz. case_decide; naive_solver congruence.
Qed.
End safety.

(** ** An import on the SQLite tables *)

Module Demo.
(** A URL is its text; a UUID's text is one character. *)
#[local] Instance text_url : UrlText :=
  {| Url := str; url_parse s := Some s; url_to_string u := u; url_scheme _ := lit "https"; url_host_str _ := Some [];
     url_username _ := []; url_password _ := None; url_query _ := None; url_fragment _ := None |}.
#[local] Instance text_url_laws : UrlTextLaws.
Proof. done. Defined.
#[local, refine] Instance offset_uuid : UuidText := {
  show_uuid u := [(u + 100)%N];
  parse_uuid t := match t with [c] => if decide (100 <= c)%N then Some (c - 100)%N else None | _ => None end;
}.
Proof. intros u. simpl. rewrite decide_True by lia. f_equal. lia. Defined.
(** One record per line, without quotes. *)
#[local] Instance line_reader : CsvReader :=
  {| CsvError := (); csv_headers input := Ok match split_at 10%N input with l :: _ => split_at 44%N l | [] => [] end;
     csv_records input := (λ l, Ok (split_at 44%N l)) <$> tail (split_at 10%N input) |}.
#[local] Instance empty_info : ExtendedInfoJson :=
  {| info_to_string l := match l with [] => Some (lit "[]") | _ => None end; info_from_str _ := Some [] |}.

Definition toy_sha256 (der : list N) : list N := take 32 (der ++ repeat 0%N 32).
Definition certificate (n : N) : TlsCertificate := mk_tls_certificate (toy_sha256 [n]) [n].

(** Three endpoints: one the system's roots know, one with its certificate pinned, and
    one whose certificate is not the pinned one. *)
Definition document : list N :=
  lit "display_name,address,credential_id,tls_sha256" ++ [10%N] ++
  lit "a,https://a,i," ++ [10%N] ++
  lit "b,https://b,i," ++ fingerprint_to_string (tc_fingerprint (certificate 2)) ++ [10%N] ++
  lit "c,https://c,i," ++ fingerprint_to_string (tc_fingerprint (certificate 3)).
Definition import : EndpointCsvImport :=
  mk_csv_import 3
    [mk_csv_row 2 (lit "a") (lit "https://a") 5%N SystemCaOnly;
     mk_csv_row 3 (lit "b") (lit "https://b") 5%N (ExplicitPin (tc_fingerprint (certificate 2)));
     mk_csv_row 4 (lit "c") (lit "https://c") 5%N (ExplicitPin (tc_fingerprint (certificate 3)))].
Example document_parsed : parse_endpoint_csv document = Ok import.
Proof. vm_compute. reflexivity. Qed.

Definition operator : ResolvedCredential := mk_resolved_credential (lit "operator") (lit "secret").
Definition observed (address : str) : TlsIdentityObservation :=
  if decide (address = lit "https://a") then mk_tls_observation (certificate 1) CaVerified
  else if decide (address = lit "https://b") then mk_tls_observation (certificate 2) CaRejected
  else mk_tls_observation (certificate 4) CaVerified.
Definition root : ResourceObservation :=
  mk_resource_observation FeatureServiceRoot (lit "/redfish/v1") None None (lit "{}").

Abbreviation Tables := (World EndpointTables).
(** A quiet network; [probe_fails] says which probes of the gateway fail. *)
Definition network (probe_fails : nat → bool) : NodeWorld (St := Tables) (PE := ()) (CE := ()) (GE := ()) (RdE := ()) (AE := ()) :=
  {| nw_now n := Z.of_nat n;
     nw_uuid n := N.of_nat (1000 + n);
     nw_observe _ address := Ok (observed address);
     nw_resolve _ id := Ok (if decide (id = 5%N) then Some operator else None);
     nw_probe n _ _ _ := if probe_fails n then Err () else Ok [(CapSystems, Supported)];
     nw_read _ _ _ _ := Ok (mk_read_outcome [root] []);
     nw_audit_fault _ := None;
     nw_gate _ _ := None;
     nw_others _ st := st |}.
Definition quiet : Env := {| env_fault _ := false; env_gate_closed := false; env_random _ := None |}.
Definition ids (clock i : nat) : Uuid := N.of_nat (100000 + 100 * clock + i).
#[local] Instance demo_store : EndpointStore Tables EndpointRepositoryError EndpointRefreshPersistenceError
    EndpointCapabilityRepositoryError := sqlite_endpoints quiet toy_sha256 ids.
#[local] Instance demo_laws : EndpointStoreLaws Tables EndpointRepositoryError EndpointRefreshPersistenceError
    EndpointCapabilityRepositoryError := sqlite_endpoints_laws quiet toy_sha256 ids.

Definition tables : EndpointTables :=
  mk_endpoint_tables (mk_snapshot_tables ∅ ∅ ∅ ∅) ∅ ∅ ∅
    {[5%N := mk_credential_model 5%N (lit "bmc") (lit "operator") (Some 6%N) 0 0]} ∅.
Definition start : Node (St := Tables) (PE := ()) := mk_node (mk_world tables 0) [] 0.
Definition run_import (probe_fails : nat → bool) :=
  import_endpoints (network probe_fails) ActorSystem None Standalone import start.

Lemma quiet_others probe_fails : others_keep (network probe_fails).
Proof. by intros n st. Qed.
Lemma start_ok : store_ok (nd_store start).
Proof. by split; intros; simplify_map_eq. Qed.

(** Entry 18 of the log reads the pinned endpoint's resources. *)
Definition log := nd_log (run_import (λ _, false)).1.
Lemma credentials_follow_trust_witness : ∃ at_ observation row,
  log !! 18%nat = Some (NodeRead (lit "https://b") (PinnedCertificate (certificate 2) at_) operator) ∧
  row ∈ ci_rows import ∧ cr_address row = lit "https://b" ∧
  NodeObserved (lit "https://b") (Ok observation) ∈ take 18 log ∧
  trusted_as (cr_trust row) observation (PinnedCertificate (certificate 2) at_).
Proof.
  destruct (log !! 18%nat) as [effect|] eqn:Heffect; [|vm_compute in Heffect; discriminate].
  assert (nd_log (run_import (λ _, false)).1 = nd_log start ++ take 18 log ++ effect :: drop 19 log) as Hl.
  { fold log. change (nd_log start) with (@nil (NodeEffect (PE := ()))). rewrite app_nil_l. symmetry.
    exact (take_drop_middle log 18 effect Heffect). }
  pose proof (credentials_follow_trust (network (λ _, false)) ActorSystem None Standalone (quiet_others _) document import start
    (run_import (λ _, false)).1 (run_import (λ _, false)).2 (take 18 log) effect (drop 19 log)
    start_ok document_parsed (surjective_pairing _) Hl) as Hc.
  vm_compute in Heffect. injection Heffect as <-.
  destruct Hc as (row & observation & Hin & Haddr & _ & Hobs & Htrust & _).
  eexists _, observation, row. split; [vm_compute; reflexivity|]. split; [exact Hin|]. split; [exact Haddr|]. split; [exact Hobs|exact Htrust].
Defined.

Lemma import_is_accounted_witness :
  let run := run_import (λ _, false) in
  ∃ report before blocks event, run.2 = Ok report ∧
    (λ res, is_success (rr_outcome res)) <$> ir_rows report = [true; true; false] ∧
    log = before ++ concat blocks ++ [NodeAudited event] ∧ ae_outcome event ≠ OutcomeSucceeded ∧
    ∃ row block res, ci_rows import !! 2%nat = Some row ∧ blocks !! 2%nat = Some block ∧
      ir_rows report !! 2%nat = Some res ∧ row_ran (network (λ _, false)) (nd_store run.1) row block res.
Proof.
  intros run. pose proof (import_is_accounted (network (λ _, false)) ActorSystem None Standalone (quiet_others _) document import start
    run.1 run.2 start_ok document_parsed (surjective_pairing run)) as Hacc. cbv zeta in Hacc.
  destruct run.2 as [report|e] eqn:Hrun; [|vm_compute in Hrun; discriminate].
  destruct Hacc as (before & blocks & after & Hlog & _ & _ & _ & _ & Hrows & _ & event & -> & Hev).
  exists report, before, blocks, event. split; [reflexivity|]. split; [vm_compute in Hrun; injection Hrun as <-; reflexivity|].
  split; [exact Hlog|]. split.
  - intros Hs. apply Hev in Hs. vm_compute in Hrun. injection Hrun as <-. repeat (apply Forall_cons in Hs as [? Hs]). discriminate.
  - destruct (ir_rows report !! 2%nat) as [res|] eqn:Hres; [|vm_compute in Hrun; injection Hrun as <-; discriminate].
    destruct (Hrows _ _ Hres) as (row & block & Hrow & Hblock & Hran).
    exists row, block, res. split; [exact Hrow|]. split; [exact Hblock|]. split; [reflexivity|exact Hran].
Defined.

(** A first refresh whose second part fails is reported as one that did not commit,
    although its generation is stored. *)
Definition request : OnboardEndpointRequest :=
  mk_onboard_request (lit "a") (mk_trusted_endpoint (lit "https://a") (SystemCa (certificate 1) 0)) 5%N.
Example committed_refresh_reported_uncommitted :
  let run := enroll (network (λ n, Nat.ltb 10 n)) ActorSystem None Standalone request start in
  run.2 = Err (InitialRefresh 1006%N (RefreshFailed 1006%N (CapabilityProbe ()))) ∧
  latest_generation 1006%N (et_snapshots (w_db (nd_store run.1))) = Some 1.
Proof. split; vm_compute; reflexivity. Qed.
End Demo.
